(* ===== verification/_CoqProject ===== *)
-Q . S2P
Prelude.v
HandleSpec.v
Handle.v
Pkcs11Handle.v
TeeMisc.v
Uuid.v
Base64.v
Mm.v
Pobj.v
Mutex.v
Refcount.v
Lockdep.v
BlockFile.v
ByteFile.v
Htree.v
HtreeTree.v
HtreeProofs.v
ReeFs.v
HtreeStore.v
Bitstring.v
Dirfile.v
DirfileProofs.v
DirfileSpec.v
DirfileMap.v
DirfileRename.v
ReeDirf.v
ReeObj.v
ReeFile.v
ReeVol.v
ReeVolProofs.v
ReeObjProofs.v
ReeTx.v
ReeCreate.v
ReeAccess.v
ReeNames.v
ReeSession.v
ReeFailures.v
Tadb.v
SecstorTa.v
TadbProofs.v
TadbSteps.v
TadbOps.v
TadbToy.v
SecstorProofs.v
TadbFailures.v
TaSession.v
TaSessionProofs.v
TaSessionCtx.v
Ghash.v
GhashProofs.v
Gcm.v
GcmProofs.v
GcmSpec.v
Pkcs11Attr.v
Pkcs11AttrProofs.v
Pkcs11Sanitize.v
Pkcs11Traces.v
Pkcs11SanitizeProofs.v
Pkcs11Object.v
Pkcs11ObjectProofs.v
Pkcs11Token.v
Pkcs11TokenProofs.v
Pkcs11Sessions.v
Pkcs11Entries.v
Pkcs11Store.v
Pkcs11StoreProofs.v
Pkcs11Ta.v
Pkcs11TaProofs.v
Pkcs11Pins.v
