(* ===== verification/Prelude.v ===== *)
(** * A verification development for OP-TEE OS

    OP-TEE is the operating system of the secure world of an ARM TrustZone system.
    This library models the parts of it that carry logic of their own, in plain
    Rocq functions translated from the C sources under src/, and proves what makes
    them correct. Drivers, CPU-specific code and the crypto libraries are outside.

    ** Conventions

    C functions are Rocq functions over explicit state. A function that can fail
    returns [outcome E A]: a value, a result code, or [Panicked] for a failed
    assert() or a call of panic(). Where much state is threaded the functions are
    written in the monad [M] below; [wp] is its weakest precondition, which no
    panic satisfies, so every [wp] theorem also says that the assertions hold.
    Unsigned integers are [Z] with [wrap w] at every operation that may leave the
    width; where a model writes plain arithmetic a hypothesis or an invariant
    bounds it. Memory allocation fails when an argument says so ([heap_alloc],
    [mem]) or when the next external call does ([d_faults]). Loops without a
    structural measure take fuel; a loop out of fuel panics, so the theorems also
    say that the fuel given is enough.

    ** Secure storage (core/tee)

    From the bottom up, each layer behind a class of operations with laws:
    - Htree.v is fs_htree.c, the hash tree of one file, with every function of it.
      Storage, AES-GCM, SHA-256 and the key manager are the record [dev] and the
      class [Crypto]; [d_faults] decides which external call fails, so a theorem
      for all devices covers every point of failure (a failing write may have
      been carried out). HtreeTree.v has the shape of the tree, the choice of
      versions and the synchronising traversal; HtreeProofs.v the properties:
      updates are atomic, what is read is what was written, and a tree that is not
      the committed one is rejected, or it gives a collision of the hash: a node of it
      and the committed node of the same number have different inputs and one digest.
      A computed run shows that truncation loses files (a defect of the code).
    - BlockFile.v is the interface between the tree and tee_ree_fs.c; ReeFs.v
      the layout of a file (get_offs_size()) and reads and writes of bytes;
      HtreeStore.v shows that the tree keeps the interface and combines the two.
    - ByteFile.v is the interface of fs_dirfile.c to the file below. Bitstring.v is
      bitstring.h. Dirfile.v is fs_dirfile.c, the directory, with every function;
      DirfileProofs.v the entries and the map they stand for, DirfileSpec.v the
      calls one by one, DirfileMap.v opening and sequences of calls, DirfileRename.v
      renaming, ReeDirf.v the whole stack: the directory is a finite map, down to
      the hash tree.
    - ReeObj.v is the upper half of tee_ree_fs.c, the operations of ree_fs_ops over
      a volume: the names and files of normal world ([names], [inodes]), the shared
      directory with its reference count, and the open files. Calls to normal world
      fail as [v_faults] says. ReeFile.v says what the file of an object holds,
      ReeVol.v shows that the file of the directory within a volume keeps the
      interface of ByteFile.v, ReeVolProofs.v what it is for a volume to stand for a
      map of objects ([stands]) and the calls of the directory on it, ReeObjProofs.v
      single steps with a file. ReeTx.v is set_name(), ReeCreate.v the creation,
      ReeAccess.v opening, reading, writing and growing, ReeNames.v renaming and
      removing. ReeSession.v puts them together: transactions, histories of them with
      failing calls and restarts (up to the first creation that fails with a name left in
      the directory, after which the volume is [dangling]), and the refinement of a map. ReeFailures.v has
      runs in which a failing call or a second handle loses objects.
    - Pobj.v is tee_pobj.c, the list of the persistent objects that are open. [compat]
      states the rules of sharing of the TEE Internal Core API, apart from the code;
      tee_pobj_check_access() decides it.
    - Tadb.v is tadb.c, the database of installed trusted applications: an object with
      an entry per TA, and a file of normal world with its encrypted data. The object
      is the class [TadbFile], the cipher [Authenc]; the calls to normal world fail as
      [t_faults] says. SecstorTa.v is secstor_ta_mgmt.c, which installs a signed TA,
      signed_hdr.c, which checks its header, and secstor_ta.c, the loader's access.
      The image is in memory that may change between two reads of it. TadbProofs.v
      has the laws of the classes and what the entries stand for ([view]), TadbSteps.v
      the single steps, TadbOps.v the operations, SecstorProofs.v the transactions:
      a map from UUIDs to properties and data. TadbToy.v has instances of the
      classes, TadbFailures.v runs in which a TA is lost, mixed up or downgraded.

    ** Kernel services (core/kernel, core/arch/arm)

    - Handle.v and Pkcs11Handle.v are the two handle databases; HandleSpec.v is
      the map both implement.
    - Mm.v is tee_mm.c, the allocator of address ranges.
    - Mutex.v is mutex.c with wait_queue.c: what a thread does under the spin lock
      is one step, and threads interleave in any order. Refcount.v is refcount.c
      and the recursive mutexes, one step per atomic access.
    - Lockdep.v is lockdep.c, the lock order checker.
    - TaSession.v is tee_ta_manager.c with the requests of entry_std.c: sessions of
      trusted applications and their contexts. What is done under tee_ta_mutex is one
      step of one of any number of threads, and so is each read of a session outside of
      it. The condition variables of a session are queues of sleeping threads: a sleeper
      goes on only when it is signalled. TaSessionProofs.v has the invariant of the
      references to sessions, and of who will wake the sleepers; TaSessionCtx.v the one of
      the contexts, what can go wrong while no TA panics (two reads of an id that may
      come too late), that nobody sleeps for good, and the hang when a TA panics.
    - TeeMisc.v is tee_misc.c: hexadecimal strings, inclusion of memory areas.

    ** Cryptography (core/crypto)

    - Ghash.v is the multiplication in GF(2^128) of aes-gcm-ghash-tbl.c (tables of 4
      bits) and aes-gcm.c (bit by bit); GhashProofs.v shows that both are that of NIST
      SP 800-38D. Gcm.v is the streaming AES-GCM of aes-gcm.c and aes-gcm-sw.c over
      any block cipher (the class [Aes]). GcmProofs.v states the standard and the
      invariant of a stream, GcmSpec.v the properties: any division of the data
      into calls gives the ciphertext and tag of the standard.

    ** The PKCS#11 TA (ta/pkcs11)

    - Pkcs11Attr.v is serializer.c and attributes.c: the attributes of an object as one
      block of bytes; Pkcs11AttrProofs.v shows that the block is a list.
    - Pkcs11Sanitize.v is sanitize_object.c, which makes an object of the bytes of a
      client. Pkcs11Traces.v says when the trace of a template it refuses reads outside of
      the memory, and that the traces change nothing else; Pkcs11SanitizeProofs.v gives
      it a specification on lists of attributes, for all bytes, and says what a
      well-formed object is.
    - Pkcs11Object.v is pkcs11_attributes.c, the attributes of a new object;
      Pkcs11ObjectProofs.v shows which they are (a schema by class and type).
    - Pkcs11Token.v is pkcs11_token.c with the PINs of persistent_token.c: tokens,
      clients, sessions, login. Pkcs11Store.v is object.c and the rest of
      persistent_token.c: objects of sessions, and of tokens with their files.
      Pkcs11Ta.v is entry.c and the start of the TA: its commands, and the system as
      steps of clients, storage, panics and starts. The state has the heap as maps from
      addresses; the environment decides what allocations, random numbers, hash and
      storage do. Pkcs11TokenProofs.v has the invariant, Pkcs11Sessions.v sessions
      and their objects, Pkcs11Entries.v the commands for sessions and PINs,
      Pkcs11StoreProofs.v those for objects, Pkcs11TaProofs.v the start and the
      properties of all reachable states; Pkcs11Pins.v what commands decide.
    - Pkcs11Handle.v is handle.c (see above).

    ** Libraries (lib)

    - Uuid.v: uuid.c, tee_uuid_from_str.c and the UUID format of snprintk.c.
    - Base64.v: base64.c.

    ** What the properties show

    Refinement: the handle databases and the directory are finite maps, the REE file
    system is a map from names to bytes, the database of TAs a map from UUIDs to what
    was signed and installed, the block layer with the hash tree is an
    atomic byte string. Safety and invariants: mutex
    exclusion, no lost wakeup, no deadlock among checked locks or in the waits for
    sessions, disjoint allocations, reference counts of sessions, contexts and files,
    sharing of objects, crash atomicity, integrity
    against an attacker who controls the storage (up to a collision), who may create which PKCS#11 object,
    that only a PIN logs a session in and a locked PIN stays locked.
    Types: objects made of a client's bytes are well-formed. Round trips: base64, UUIDs,
    hexadecimal strings, serialized attributes, objects that are sanitized again. Bounds: the layout of a file,
    comparisons of 64-bit areas, the tries of a PIN. Errors: when requests to the
    PKCS#11 TA panic it, and what defects of the code let a client do; the fixed runs of
    ReeFailures.v and TadbFailures.v, and the lemmas the findings name, are examples and
    no properties. Termination: the lock graph search, every fuelled loop. Equivalence: GHASH
    by tables and AES-GCM in pieces are the standard.

    ** Bounds and limits

    - Files are below 2 GiB (pos_to_block_num() takes an int) and trees below 2^32
      - 1 nodes; the head counter does not wrap.
    - A session writes blocks within the file or right behind its end, as
      tee_ree_fs.c does.
    - bf_* theorems exclude that the storage fails with TEE_ERROR_ITEM_NOT_FOUND,
      which fs_dirfile.c takes for the end of the directory.
    - A transaction on a volume starts with nothing open; [stands k] leaves room for
      [k] of them (counters, file numbers, the size of the directory, the fuel of its
      loops). No object is renamed over another one while calls fail, no file
      is truncated to less (which loses it), and the two versions of the root node of
      a file have different hashes ([no_twins]). Objects open at the same time, and
      listings, are modelled; of them only the runs in ReeFailures.v are stated.
    - A transaction on the database of TAs starts with it closed. It has at most
      2^24 entries; the fuel of the searches is above their number. An update of a TA
      that is installed assumes that a read that fails closes the file ([steady]);
      without that it may make a second entry (TadbFailures.v).
    - AES-GCM: lengths below 512 MiB and no carry out of the last 32 bits of the
      counter, beyond which the code differs from the standard; source and
      destination do not overlap.
    - PKCS#11 templates: any bytes within an address space of 2^62. The argument
      [traces] is [true] for the code; the proofs also use the code without the traces of
      refused templates, and the properties are about the code with them.
    - PKCS#11 commands: one at a time, as the TA is single threaded. A storage access
      fails as a whole or works, and one that fails leaves the file: that tee_svc_storage.c
      removes an object it finds corrupt, so that the TA makes a new database at its next
      start, is not modelled. The loop that looks for a new UUID ends when the
      random numbers do: then the environment gives a new one.
    - A condition variable is signalled by a holder of its mutex.
    - lockdep_graph_sort() leaves marks behind when it fails; its callers panic. What
      lockdep_print_cycle_info() prints is left out, and with it the assertion that it has
      found the cycle, which fails when its search has no memory.
    - Sessions of TAs: the busy flag of a context and the wait for a single instance
      are left out. check_params() and the panics of TAs are steps that happen or not.

    ** Not modelled

    Crypto libraries, libfdt and bget (third-party code); drivers and platforms;
    threads, exceptions, page tables and the pager (CPU state); the RPMB file
    system; the TA loader; the system call layer of libutee and tee_svc_*.c; the
    slot and mechanism information of the pkcs11 TA. The manifest lists them. *)
From stdpp Require Export base tactics numbers list gmap option strings.
From Stdlib Require Export ZArith Lia.

#[global] Set Default Goal Selector "!".

(** ** Fixed width integers

    A C integer is a [Z]; an operation that can leave the range of its type is
    followed by the wrap of that type. [size_t], [vaddr_t], [uintptr_t] and
    [paddr_t] are 64 bits wide, as in an AArch64 build of the core. *)

Declare Scope cint_scope.
Delimit Scope cint_scope with cint.

Definition wrap (w z : Z) : Z := (z mod 2 ^ w)%Z.
Definition in_range (w z : Z) : Prop := (0 <= z < 2 ^ w)%Z.

Abbreviation u8 := (wrap 8) (only parsing).
Abbreviation u16 := (wrap 16) (only parsing).
Abbreviation u32 := (wrap 32) (only parsing).
Abbreviation u64 := (wrap 64) (only parsing).
Abbreviation UINT32_MAX := (2 ^ 32 - 1)%Z (only parsing).

Notation "a +32 b" := (wrap 32 (a + b)) (at level 50, left associativity) : cint_scope.
Notation "a -32 b" := (wrap 32 (a - b)) (at level 50, left associativity) : cint_scope.
Notation "a +64 b" := (wrap 64 (a + b)) (at level 50, left associativity) : cint_scope.
Notation "a -64 b" := (wrap 64 (a - b)) (at level 50, left associativity) : cint_scope.

(** The conversion of an unsigned value to [int]. *)
Definition to_int32 (z : Z) : Z :=
  let v := wrap 32 z in if (v <? 2 ^ 31)%Z then v else (v - 2 ^ 32)%Z.

(** [__builtin_add_overflow] and friends at a given unsigned width: [None] is
    "overflowed". *)
Definition add_overflow (w a b : Z) : option Z :=
  if (a + b <? 2 ^ w)%Z then Some (a + b)%Z else None.
Definition mul_overflow (w a b : Z) : option Z :=
  if (a * b <? 2 ^ w)%Z then Some (a * b)%Z else None.

(** [ROUNDUP] and [ROUNDDOWN] of util.h at 64 bits. *)
Definition roundup (v size : Z) : Z :=
  Z.land (wrap 64 (v + (size - 1))) (wrap 64 (Z.lnot (size - 1))).
Definition rounddown (v size : Z) : Z :=
  Z.land v (wrap 64 (Z.lnot (size - 1))).

(** ** The heap

    malloc(), calloc() and realloc() as the code sees them: a call fails when
    the heap is exhausted ([mem = false]), and always when it asks for more
    than the whole heap. The heap of the core and of a TA is far below 2 GiB
    (CFG_CORE_HEAP_SIZE, TA_DATA_SIZE). *)
Class Heap := {
  heap_size : Z;
  heap_size_bound : (0 <= heap_size < 2 ^ 31)%Z;
}.

Definition heap_alloc `{Heap} (mem : bool) (size : Z) : bool :=
  mem && (size <=? heap_size)%Z.

(** The heap the witnesses compute with: 64 KiB. *)
Definition heap_64k : Heap.
Proof. refine {| heap_size := 65536 |}. split; [done|reflexivity]. Defined.

(** ** Results *)

(** The result codes of tee_api_defines.h the modelled code uses. *)
Inductive tee_result :=
| TEE_SUCCESS
| TEE_ERROR_CORRUPT_OBJECT
| TEE_ERROR_GENERIC
| TEE_ERROR_ACCESS_DENIED
| TEE_ERROR_ACCESS_CONFLICT
| TEE_ERROR_BAD_FORMAT
| TEE_ERROR_BAD_PARAMETERS
| TEE_ERROR_BAD_STATE
| TEE_ERROR_ITEM_NOT_FOUND
| TEE_ERROR_NOT_SUPPORTED
| TEE_ERROR_NO_DATA
| TEE_ERROR_OUT_OF_MEMORY
| TEE_ERROR_BUSY
| TEE_ERROR_COMMUNICATION
| TEE_ERROR_SECURITY
| TEE_ERROR_SHORT_BUFFER
| TEE_ERROR_OVERFLOW
| TEE_ERROR_TARGET_DEAD
| TEE_ERROR_STORAGE_NO_SPACE
| TEE_ERROR_MAC_INVALID.

#[global] Instance tee_result_eq_dec : EqDecision tee_result.
Proof. solve_decision. Defined.

(** The outcome of a C function: a value, an error code, or a failed
    [assert()] / a call of [panic()], which stops the core. *)
Inductive outcome (E A : Type) :=
| Ok (a : A)
| Err (e : E)
| Panicked.
Arguments Ok {E A} a.
Arguments Err {E A} e.
Arguments Panicked {E A}.

#[global] Instance outcome_ret {E} : MRet (outcome E) := λ A a, Ok a.
#[global] Instance outcome_bind {E} : MBind (outcome E) := λ A B f m,
  match m with Ok a => f a | Err e => Err e | Panicked => Panicked end.

(** ** A state monad with errors and panics

    An error does not roll the state back: C functions return an error code
    from the middle of their work. *)
Definition M (S E A : Type) : Type := S → outcome E A * S.

#[global] Instance M_ret {S E} : MRet (M S E) := λ A a s, (Ok a, s).
#[global] Instance M_bind {S E} : MBind (M S E) := λ A B f m s,
  match m s with
  | (Ok a, s') => f a s'
  | (Err e, s') => (Err e, s')
  | (Panicked, s') => (Panicked, s')
  end.

Definition mget {S E} : M S E S := λ s, (Ok s, s).
Definition mput {S E} (s' : S) : M S E unit := λ _, (Ok tt, s').
Definition mthrow {S E A} (e : E) : M S E A := λ s, (Err e, s).
Definition mpanic {S E A} : M S E A := λ s, (Panicked, s).
(** [assert(b)] *)
Definition massert {S E} (b : bool) : M S E unit :=
  λ s, if b then (Ok tt, s) else (Panicked, s).

(** The result code of a call as a value the caller looks at. *)
Definition mtry {S E A} (m : M S E A) : M S E (E + A) := λ s,
  match m s with
  | (Ok a, s') => (Ok (inr a), s')
  | (Err e, s') => (Ok (inl e), s')
  | (Panicked, s') => (Panicked, s')
  end.

(** The weakest precondition of a computation: [Q] for a value, [R] for an
    error; a panic satisfies nothing. *)
Definition wp {S E A} (m : M S E A) (Q : A → S → Prop) (R : E → S → Prop)
    (s : S) : Prop :=
  match m s with
  | (Ok a, s') => Q a s'
  | (Err e, s') => R e s'
  | (Panicked, _) => False
  end.

Section wp_rules.
  Context {S E : Type}.

Lemma wp_ret {A} (a : A) Q (R : E → S → Prop) s : Q a s → wp (mret a) Q R s.
  Proof. done. Qed.

Lemma wp_bind {A B} (m : M S E A) (f : A → M S E B) Q R s :
    wp m (λ a s', wp (f a) Q R s') R s → wp (m ≫= f) Q R s.
  Proof. unfold wp, mbind, M_bind. by destruct (m s) as [[] ?]. Qed.

Lemma wp_bind_inv {A B} (m : M S E A) (f : A → M S E B) Q R s :
    wp (m ≫= f) Q R s → wp m (λ a s', wp (f a) Q R s') R s.
  Proof. unfold wp, mbind, M_bind. by destruct (m s) as [[] ?]. Qed.

Lemma wp_throw {A} (e : E) Q (R : E → S → Prop) s :
    R e s → wp (mthrow (A:=A) e) Q R s.
  Proof. done. Qed.

Lemma wp_get Q (R : E → S → Prop) s : Q s s → wp mget Q R s.
  Proof. done. Qed.

Lemma wp_put s' Q (R : E → S → Prop) s : Q tt s' → wp (mput s') Q R s.
  Proof. done. Qed.

Lemma wp_assert b Q (R : E → S → Prop) s :
    b = true → Q tt s → wp (massert b) Q R s.
  Proof. by intros -> ?. Qed.

Lemma wp_try {A} (m : M S E A) Q (R : E → S → Prop) s :
    wp m (λ a s', Q (inr a) s') (λ e s', Q (inl e) s') s → wp (mtry m) Q R s.
  Proof. unfold wp, mtry. by destruct (m s) as [[] ?]. Qed.

Lemma wp_mono {A} (m : M S E A) (Q Q' : A → S → Prop) (R R' : E → S → Prop) s :
    wp m Q R s →
    (∀ a s', Q a s' → Q' a s') → (∀ e s', R e s' → R' e s') →
    wp m Q' R' s.
  Proof. unfold wp. destruct (m s) as [[] ?]; eauto. Qed.

Lemma wp_conj {A} (m : M S E A) (Q Q' : A → S → Prop) (R R' : E → S → Prop) s :
    wp m Q R s → wp m Q' R' s →
    wp m (λ a s', Q a s' ∧ Q' a s') (λ e s', R e s' ∧ R' e s') s.
  Proof. unfold wp. destruct (m s) as [[] ?]; eauto. Qed.

(** What is left behind, and returned, when no error is possible. *)
Lemma wp_snd {A} (m : M S E A) (P : S → Prop) (Q : A → S → Prop) R s :
    wp m Q R s → (∀ e s', ¬ R e s') → (∀ a s', Q a s' → P s') → P (snd (m s)).
  Proof.
    unfold wp. intros Hm HR HP. destruct (m s) as [[a|e|] s']; simpl; [by eapply HP| |done].
    by apply HR in Hm.
  Qed.

Lemma wp_fst {A} (m : M S E A) (v : A) (F : E → Prop) s :
    wp m (λ r _, r = v) (λ e _, F e) s → (∀ e, ¬ F e) → fst (m s) = Ok v.
  Proof.
    unfold wp. intros Hm HF. destruct (m s) as [[a|e|] s']; simpl; [congruence| |done].
    by apply HF in Hm.
  Qed.

(** With [P] for what a panic leaves behind. *)
Definition wpp {A} (m : M S E A) (Q : A → S → Prop) (R : E → S → Prop) (P : S → Prop) (s : S) : Prop :=
    match m s with (Ok a, s') => Q a s' | (Err e, s') => R e s' | (Panicked, s') => P s' end.

Lemma wpp_wp {A} (m : M S E A) Q R P s : wp m Q R s → wpp m Q R P s.
  Proof. unfold wp, wpp. by destruct (m s) as [[] ?]. Qed.

Lemma wpp_bind {A B} (m : M S E A) (f : A → M S E B) Q R P s :
    wpp m (λ a s', wpp (f a) Q R P s') R P s → wpp (m ≫= f) Q R P s.
  Proof. unfold wpp, mbind, M_bind. by destruct (m s) as [[] ?]. Qed.

Lemma wpp_try {A} (m : M S E A) Q (R : E → S → Prop) P s :
    wpp m (λ a s', Q (inr a) s') (λ e s', Q (inl e) s') P s → wpp (mtry m) Q R P s.
  Proof. unfold wpp, mtry. by destruct (m s) as [[] ?]. Qed.

Lemma wpp_mono {A} (m : M S E A) (Q Q' : A → S → Prop) (R R' : E → S → Prop) (P P' : S → Prop) s :
    wpp m Q R P s →
    (∀ a s', Q a s' → Q' a s') → (∀ e s', R e s' → R' e s') → (∀ s', P s' → P' s') → wpp m Q' R' P' s.
  Proof. unfold wpp. destruct (m s) as [[] ?]; eauto. Qed.

(** A call that never panics, within a program that may. *)
Lemma wpp_call {A} (m : M S E A) (Q Q' : A → S → Prop) (R R' : E → S → Prop) P s :
    wp m Q R s → (∀ a s', Q a s' → Q' a s') → (∀ e s', R e s' → R' e s') → wpp m Q' R' P s.
  Proof. intros Hm HQ HR. apply (wpp_mono _ Q _ R _ (λ _, False)); [by apply wpp_wp|done..]. Qed.

(** Partial correctness: [Q] for a value, and nothing is said of errors and panics. *)
Definition ok {A} (m : M S E A) (Q : A → S → Prop) (s : S) : Prop :=
    ∀ a s', m s = (Ok a, s') → Q a s'.

Lemma ok_bind {A B} (m : M S E A) (f : A → M S E B) Q s :
    ok m (λ a s', ok (f a) Q s') s → ok (m ≫= f) Q s.
  Proof.
    intros Hm b s'' Eb. unfold mbind, M_bind in Eb. destruct (m s) as [[a|e|] s'] eqn:Em; [|done|done].
    by apply (Hm a s' Em).
  Qed.

Lemma ok_ret {A} (a : A) (Q : A → S → Prop) s : Q a s → ok (mret a) Q s.
  Proof. by intros HQ a' s' [= <- <-]. Qed.

Lemma ok_throw {A} (e : E) (Q : A → S → Prop) s : ok (mthrow e) Q s.
  Proof. by intros a s'. Qed.

Lemma ok_mono {A} (m : M S E A) (Q Q' : A → S → Prop) s :
    ok m Q s → (∀ a s', Q a s' → Q' a s') → ok m Q' s.
  Proof. intros Hm HQ a s' Em. by apply HQ, Hm. Qed.

Lemma ok_wp {A} (m : M S E A) Q R s : wp m Q R s → ok m Q s.
  Proof. intros Hm a s' Em. unfold wp in Hm. by rewrite Em in Hm. Qed.
End wp_rules.

Lemma ok_get {S E} (Q : S → S → Prop) s : Q s s → ok (E := E) mget Q s.
Proof. by intros HQ a s' [= <- <-]. Qed.

Lemma ok_put {S E} s' (Q : unit → S → Prop) s : Q tt s' → ok (E := E) (mput s') Q s.
Proof. by intros HQ a s'' [= <- <-]. Qed.

Lemma ok_assert {S E} b (Q : unit → S → Prop) s : (b = true → Q tt s) → ok (E := E) (massert b) Q s.
Proof. intros HQ a s'. unfold massert. destruct b; [|done]. intros [= <- <-]. by apply HQ. Qed.

Lemma ok_conj {S E A} (m : M S E A) (Q Q' : A → S → Prop) s :
  ok m Q s → ok m Q' s → ok m (λ a s', Q a s' ∧ Q' a s') s.
Proof. intros H1 H2 a s' Hm. split; [by apply H1|by apply H2]. Qed.

Lemma wp_ok {S E A} (m : M S E A) (Q Q' : A → S → Prop) R s :
  wp m Q R s → ok m Q' s → wp m (λ a s', Q' a s' ∧ Q a s') R s.
Proof. unfold wp, ok. destruct (m s) as [[a|e|] s']; [|done|done]. intros HQ HQ'. split; [by apply HQ'|done]. Qed.

Create HintDb optee.
Create Rewrite HintDb optee_rw.
#[export] Hint Resolve wp_ret wp_throw wp_get wp_put : optee.

(** One symbolic step of a monadic program. *)
Ltac wp_step :=
  lazymatch goal with
  | |- wp (mbind _ _) _ _ _ => apply wp_bind
  | |- wp (mret _) _ _ _ => apply wp_ret
  | |- wp (mthrow _) _ _ _ => apply wp_throw
  | |- wp mget _ _ _ => apply wp_get
  | |- wp (mput _) _ _ _ => apply wp_put
  end.
Ltac wp_steps := repeat wp_step.

Lemma bind_Ok {E A B} (a : A) (f : A → outcome E B) : (Ok a ≫= f) = f a.
Proof. done. Qed.
#[export] Hint Rewrite @bind_Ok : optee_rw.

(** ** Automation *)

(** Case analysis on the scrutinee of a [match] or [if] in the goal or in a
    hypothesis. *)
Ltac case_goal :=
  match goal with
  | |- context [match ?x with _ => _ end] => destruct x eqn:?
  end.
Ltac case_hyp H :=
  match type of H with
  | context [match ?x with _ => _ end] => destruct x eqn:?
  end.

(** Turn boolean tests of the code into propositions. *)
Ltac bools :=
  repeat match goal with
  | H : andb _ _ = true |- _ => apply andb_true_iff in H as [??]
  | H : orb _ _ = false |- _ => apply orb_false_iff in H as [??]
  | H : negb _ = true |- _ => apply negb_true_iff in H
  | H : negb _ = false |- _ => apply negb_false_iff in H
  | H : Z.eqb _ _ = true |- _ => apply Z.eqb_eq in H
  | H : Z.eqb _ _ = false |- _ => apply Z.eqb_neq in H
  | H : Z.ltb _ _ = true |- _ => apply Z.ltb_lt in H
  | H : Z.ltb _ _ = false |- _ => apply Z.ltb_ge in H
  | H : Z.leb _ _ = true |- _ => apply Z.leb_le in H
  | H : Z.leb _ _ = false |- _ => apply Z.leb_gt in H
  | H : bool_decide _ = true |- _ => apply bool_decide_eq_true in H
  | H : bool_decide _ = false |- _ => apply bool_decide_eq_false in H
  end.

(** [lia] with division and remainder by constants. *)
Ltac dlia := Z.to_euclidean_division_equations; lia.

(** ** Integer lemmas *)

Lemma wrap_small w z : in_range w z → wrap w z = z.
Proof. apply Z.mod_small. Qed.

Lemma wrap_range w z : (0 <= w)%Z → in_range w (wrap w z).
Proof. intros. apply Z.mod_pos_bound. by apply Z.pow_pos_nonneg. Qed.

Lemma wrap_wrap w z : wrap w (wrap w z) = wrap w z.
Proof. apply Z.mod_mod_divide, Z.divide_refl. Qed.

Lemma wrap_neg w z : (- 2 ^ w <= z < 0)%Z → wrap w z = (z + 2 ^ w)%Z.
Proof.
  intros. unfold wrap. rewrite <- (Z.mod_add z 1 (2 ^ w)); [|lia].
  rewrite Z.mod_small; lia.
Qed.

Lemma wrap_over w z : (2 ^ w <= z < 2 * 2 ^ w)%Z → wrap w z = (z - 2 ^ w)%Z.
Proof.
  intros. unfold wrap. rewrite <- (Z.mod_add z (-1) (2 ^ w)); [|lia].
  rewrite Z.mod_small; lia.
Qed.

Lemma add_overflow_Some w a b c :
  add_overflow w a b = Some c ↔ c = (a + b)%Z ∧ (a + b < 2 ^ w)%Z.
Proof. unfold add_overflow. destruct (Z.ltb_spec (a + b) (2 ^ w)); naive_solver lia. Qed.

Lemma to_int32_small z : (0 <= z < 2 ^ 31)%Z → to_int32 z = z.
Proof.
  intros. unfold to_int32. rewrite wrap_small by (split; lia).
  destruct (Z.ltb_spec z (2 ^ 31)); lia.
Qed.

#[export] Hint Resolve wrap_range : optee.
#[export] Hint Rewrite wrap_wrap : optee_rw.

(** A decidable property of all values below a bound, by computation. *)
Lemma forall_below (P : Z → Prop) `{∀ i, Decision (P i)} n :
  forallb (λ i, bool_decide (P i)) (seqZ 0 n) = true → ∀ i, (0 <= i < n)%Z → P i.
Proof.
  intros HP i Hi. rewrite forallb_forall in HP. apply (bool_decide_eq_true (P i)).
  apply HP, list_elem_of_In, elem_of_seqZ. lia.
Qed.

(** Disjoint bit fields: [or] is addition. *)
Lemma lor_shiftl hi lo k :
  (0 <= k)%Z → (0 <= lo < 2 ^ k)%Z →
  Z.lor (Z.shiftl hi k) lo = (hi * 2 ^ k + lo)%Z.
Proof.
  intros Hk Hlo. rewrite <- Z.shiftl_mul_pow2 by done. symmetry. apply Z.add_nocarry_lor.
  apply Z.bits_inj'. intros n Hn. rewrite Z.land_spec, Z.bits_0.
  destruct (Z.ltb_spec n k); [by rewrite Z.shiftl_spec_low by done|].
  rewrite <- (Z.mod_small lo (2 ^ k)), Z.mod_pow2_bits_high, andb_false_r by lia. done.
Qed.

(** [ROUNDDOWN] and [ROUNDUP] to a power of two. *)
Lemma rounddown_pow2 v s :
  in_range 64 v → (0 <= s)%Z → rounddown v (2 ^ s) = (v / 2 ^ s * 2 ^ s)%Z.
Proof.
  intros Hv Hs. unfold rounddown.
  assert (∀ x, Z.land v (wrap 64 x) = Z.land v x) as ->.
  { intros x. unfold wrap. rewrite <- (Z.land_ones x 64) by lia.
    rewrite (Z.land_comm x), Z.land_assoc, Z.land_ones by lia.
    by rewrite (Z.mod_small v). }
  rewrite <- Z.shiftr_div_pow2, <- Z.shiftl_mul_pow2, <- Z.ldiff_ones_r by done.
  by rewrite Z.ldiff_land, Z.ones_equiv, Z.sub_1_r.
Qed.

Lemma roundup_pow2 v s :
  (0 <= v)%Z → (0 <= s)%Z → (v + 2 ^ s - 1 < 2 ^ 64)%Z →
  roundup v (2 ^ s) = ((v + 2 ^ s - 1) / 2 ^ s * 2 ^ s)%Z.
Proof.
  intros Hv Hs Hb. pose proof (Z.pow_pos_nonneg 2 s).
  rewrite <- rounddown_pow2 by (done || unfold in_range; lia).
  unfold roundup, rounddown. rewrite wrap_small by (unfold in_range; lia). f_equal. lia.
Qed.

(** ** Little endian integers in memory *)

Fixpoint le_bytes (n : nat) (v : Z) : list Z :=
  match n with
  | O => []
  | S n => (v mod 256)%Z :: le_bytes n (v / 256)
  end.

Definition le_value (l : list Z) : Z := foldr (λ b acc, b + 256 * acc)%Z 0%Z l.

Lemma length_le_bytes n v : length (le_bytes n v) = n.
Proof. revert v. induction n as [|n IH]; intros v; simpl; [done|]. by rewrite IH. Qed.

Lemma le_value_bytes n v : (0 <= v < 256 ^ Z.of_nat n)%Z → le_value (le_bytes n v) = v.
Proof.
  revert v. induction n as [|n IH]; intros v Hv; simpl.
  { simpl in Hv. lia. }
  rewrite Nat2Z.inj_succ, Z.pow_succ_r in Hv by lia.
  change (foldr (λ b acc, b + 256 * acc)%Z 0%Z (le_bytes n (v / 256))) with (le_value (le_bytes n (v / 256))).
  rewrite IH.
  - pose proof (Z.div_mod v 256). lia.
  - split; [apply Z.div_pos; lia|]. apply Z.div_lt_upper_bound; lia.
Qed.

Lemma le_value_mod n v : le_value (le_bytes n v) = (v mod 256 ^ Z.of_nat n)%Z.
Proof.
  revert v. induction n as [|n IH]; intros v; simpl; [by rewrite Z.mod_1_r|].
  change (foldr (λ b acc, b + 256 * acc)%Z 0%Z (le_bytes n (v / 256))) with (le_value (le_bytes n (v / 256))).
  rewrite IH. change (Z.pos (Pos.of_succ_nat n)) with (Z.of_nat (S n)).
  rewrite Nat2Z.inj_succ, Z.pow_succ_r, Z.rem_mul_r by lia. done.
Qed.

(** Lists of bytes. *)
Definition bytes_ok (l : list Z) : Prop := Forall (λ b, 0 <= b < 256)%Z l.

Lemma le_value_bound l : bytes_ok l → (0 <= le_value l < 256 ^ Z.of_nat (length l))%Z.
Proof.
  induction 1 as [|b l Hb _ IH]; [done|]. cbn [le_value foldr length].
  change (foldr _ 0%Z l) with (le_value l). rewrite Nat2Z.inj_succ, Z.pow_succ_r by lia. lia.
Qed.

Lemma le_bytes_value l : bytes_ok l → le_bytes (length l) (le_value l) = l.
Proof.
  induction 1 as [|b l Hb Hl IH]; [done|]. cbn [le_value foldr length le_bytes].
  change (foldr _ 0%Z l) with (le_value l). f_equal.
  - rewrite Z.mul_comm, Z.mod_add by done. by apply Z.mod_small.
  - rewrite Z.mul_comm, Z.div_add, Z.div_small by done. exact IH.
Qed.

(** ** Overwriting part of a list

    [splice l p x] is [l] with [x] written at position [p], which is at most the
    length of [l]; the list grows when [x] reaches over its end. *)
Definition splice {A} (l : list A) (p : nat) (x : list A) : list A :=
  take p l ++ x ++ drop (p + length x) l.

Lemma lookup_splice {A} (l : list A) p x i :
  p <= length l →
  splice l p x !! i =
    (if decide (i < p) then l !! i
     else if decide (i < p + length x) then x !! (i - p) else l !! i)%nat.
Proof.
  intros Hp. unfold splice. assert (length (take p l) = p) as Ht by (rewrite length_take; lia).
  destruct (decide (i < p)) as [|Hi].
  { rewrite lookup_app_l by (rewrite Ht; lia). by apply lookup_take_lt. }
  rewrite lookup_app_r, Ht by lia. destruct (decide (i < p + length x)) as [|Hj].
  { rewrite lookup_app_l by lia. done. }
  rewrite lookup_app_r, lookup_drop by lia. f_equal. lia.
Qed.

Lemma length_splice {A} (l : list A) p x :
  p <= length l → length (splice l p x) = Nat.max (length l) (p + length x).
Proof. intros Hp. unfold splice. rewrite !length_app, length_take, length_drop. lia. Qed.

Lemma splice_nil {A} (l : list A) p : splice l p [] = l.
Proof. unfold splice. by rewrite Nat.add_0_r, app_nil_l, take_drop. Qed.

(** Writing on where the last write ended. *)
Lemma splice_splice {A} (l : list A) p x y :
  p <= length l → splice (splice l p x) (p + length x) y = splice l p (x ++ y).
Proof.
  intros Hp. apply list_eq. intros i. pose proof (length_splice l p x Hp).
  rewrite (lookup_splice (splice l p x)), !lookup_splice, length_app, lookup_app by lia.
  destruct (decide (i < p)).
  { by rewrite decide_True by lia. }
  destruct (decide (i < p + length x)).
  - rewrite (decide_True (P := (i < p + (length x + length y))%nat)) by lia.
    destruct (lookup_lt_is_Some_2 x (i - p)) as [v Hv]; [lia|]. by rewrite Hv.
  - rewrite (lookup_ge_None_2 x (i - p)) by lia.
    repeat case_decide; try lia; [f_equal; lia|done].
Qed.

(** What is behind the end can be cut off before or after. *)
Lemma take_splice {A} (l z : list A) p x n :
  p <= n → n <= length l →
  take (Nat.max n (p + length x)) (splice l p x ++ z) = splice (take n l) p x.
Proof.
  intros Hp Hn. assert (length (take n l) = n) as Ht by (rewrite length_take; lia).
  apply list_eq. intros i. rewrite lookup_take, (lookup_splice (take n l)) by lia.
  pose proof (length_splice l p x ltac:(lia)) as Hl.
  destruct (decide (i < Nat.max n (p + length x))) as [Hi|Hi].
  - rewrite lookup_app_l, lookup_splice by lia. rewrite lookup_take.
    repeat case_decide; done || lia.
  - rewrite !decide_False by lia. rewrite lookup_take_ge by lia. done.
Qed.

Lemma splice_app_l {A} (l z : list A) p x :
  p + length x <= length l → splice (l ++ z) p x = splice l p x ++ z.
Proof.
  intros Hp. unfold splice. rewrite take_app_le, drop_app_le, !app_assoc by lia. done.
Qed.

(** Sums over the threads of a system, when one of them moves. *)
Lemma sum_insert {A} (f : A → nat) ts i t t' :
  ts !! i = Some t →
  sum_list_with f (<[i:=t']> ts) + f t = sum_list_with f ts + f t'.
Proof.
  revert i. induction ts as [|x ts IH]; intros [|i] Hi; simplify_eq/=; [lia|].
  specialize (IH i Hi). lia.
Qed.

Lemma sum_member {A} (f : A → nat) ts i t : ts !! i = Some t → f t <= sum_list_with f ts.
Proof.
  revert i. induction ts as [|x ts IH]; intros [|i] Hi; simplify_eq/=; [lia|].
  specialize (IH i Hi). lia.
Qed.

Lemma sum_pos {A} (f : A → nat) l : (0 < sum_list_with f l)%nat → ∃ i x, l !! i = Some x ∧ (0 < f x)%nat.
Proof.
  induction l as [|x l IH]; cbn; [lia|]. intros Hs. destruct (decide (0 < f x)%nat) as [Hx|Hx].
  - by exists 0%nat, x.
  - destruct IH as (i & y & Hi & Hy); [lia|]. by exists (S i), y.
Qed.

Lemma filter_all {A} (P : A → Prop) `{∀ x, Decision (P x)} (l : list A) : (∀ x, x ∈ l → P x) → filter P l = l.
Proof.
  induction l as [|x l IH]; intros Hl; [done|]. rewrite filter_cons, decide_True by (apply Hl; set_solver).
  rewrite IH; [done|]. set_solver.
Qed.

(** Lists of lists of one length. *)
Lemma length_concat_uniform {A} n (bs : list (list A)) :
  Forall (λ b, length b = n) bs → length (concat bs) = (length bs * n)%nat.
Proof. induction 1 as [|b bs Hb _ IH]; simpl; [done|]. rewrite length_app, Hb, IH. lia. Qed.

(** A write within one of the lists. *)
Lemma concat_insert_splice {A} n (bs : list (list A)) i b off x :
  Forall (λ b, length b = n) bs → bs !! i = Some b → off + length x <= n →
  concat (<[i := splice b off x]> bs) = splice (concat bs) (i * n + off) x.
Proof.
  intros Hbs Hb Hoff. pose proof (lookup_lt_Some _ _ _ Hb) as Hi.
  assert (length b = n) as Hlb by (by eapply Forall_lookup_1 in Hbs; [|exact Hb]).
  rewrite insert_take_drop by done. rewrite <- (take_drop_middle bs i b) at 3 by done.
  rewrite !concat_app. cbn [concat].
  assert (length (concat (take i bs)) = i * n)%nat as Hl.
  { rewrite (length_concat_uniform n) by (by apply Forall_take). rewrite length_take. lia. }
  unfold splice. rewrite take_app, drop_app, Hl.
  rewrite (take_ge (concat (take i bs))), (drop_ge (concat (take i bs))) by lia.
  replace (i * n + off - i * n)%nat with off by lia.
  replace (i * n + off + length x - i * n)%nat with (off + length x)%nat by lia.
  rewrite take_app_le, drop_app_le by lia. by rewrite app_nil_l, <- !app_assoc.
Qed.

Lemma concat_part_uniform {A} n (bs : list (list A)) i b :
  Forall (λ b, length b = n) bs → bs !! i = Some b →
  take n (drop (i * n) (concat bs)) = b.
Proof.
  intros Hbs Hb. pose proof (lookup_lt_Some _ _ _ Hb) as Hi.
  assert (length b = n) as Hlb by (by eapply Forall_lookup_1 in Hbs; [|exact Hb]).
  rewrite <- (take_drop_middle bs i b) by done. rewrite concat_app. cbn [concat].
  assert (length (concat (take i bs)) = i * n)%nat as Hl.
  { rewrite (length_concat_uniform n) by (by apply Forall_take). rewrite length_take. lia. }
  rewrite <- Hl, drop_app_length, <- Hlb. by rewrite take_app_length.
Qed.
