(* ===== verification/HandleSpec.v ===== *)
(** * The handle table contract

    What a table of handles promises to the code that hands out handles, and
    the arrays of pointers both implementations are built on. [Handle.v]
    (core/kernel/handle.c) and [Pkcs11Handle.v] (ta/pkcs11/src/handle.c)
    discharge the contract. *)
From S2P Require Import Prelude.

(** A [void *] value; 0 is [NULL]. *)
Abbreviation ptr := Z (only parsing).

(** The scan of a [ptrs] array for an empty location: from index [n], [fuel]
    iterations. *)
Fixpoint scan_free (ptrs : list ptr) (n fuel : nat) : option nat :=
  match fuel with
  | O => None
  | S fuel =>
      if bool_decide (ptrs !! n = Some 0%Z) then Some n
      else scan_free ptrs (S n) fuel
  end.

(** The table an array stands for: the non-NULL locations. *)
Definition table (ptrs : list ptr) : gmap nat ptr :=
  filter (λ kv, kv.2 ≠ 0%Z) (map_seq 0 ptrs).

(** A table of handles seen through the map it implements. [None] for a get is
    the failure value of the C function. *)
Class HandleTable (T : Type) := {
  ht_wf : T → Prop;
  ht_abs : T → gmap nat ptr;
  ht_first : nat;
  ht_cap : T → nat;
  ht_get : T → ptr → bool → option nat * T;
  ht_put : T → nat → ptr * T;
  ht_lookup : T → nat → ptr;
  ht_get_wf : ∀ t p b, ht_wf t → ht_wf (ht_get t p b).2;
  ht_put_wf : ∀ t h, ht_wf t → ht_wf (ht_put t h).2;
  ht_get_Some : ∀ t p b h t', ht_wf t → ht_get t p b = (Some h, t') →
    p ≠ 0%Z ∧ ht_first ≤ h ∧ ht_abs t !! h = None ∧
    ht_abs t' = <[h := p]> (ht_abs t);
  ht_get_None : ∀ t p b t', ht_wf t → ht_get t p b = (None, t') →
    ht_abs t' = ht_abs t ∧
    (p ≠ 0%Z → ∀ h, ht_first ≤ h < ht_cap t → is_Some (ht_abs t !! h));
  ht_put_spec : ∀ t h, ht_wf t → ht_first ≤ h →
    (ht_put t h).1 = default 0%Z (ht_abs t !! h) ∧
    ht_abs (ht_put t h).2 = delete h (ht_abs t);
  ht_lookup_spec : ∀ t h, ht_wf t → ht_first ≤ h →
    ht_lookup t h = default 0%Z (ht_abs t !! h);
}.

(** A client's use of a table. *)
Inductive handle_op :=
| OpGet (p : ptr) (mem : bool)
| OpPut (h : nat)
| OpLookup (h : nat).

(** The answers of the map: a get is answered with any free handle from
    [first] on, or fails. *)
Definition spec_op (first : nat) (o : handle_op) (m : gmap nat ptr)
    (a : option nat * ptr) (m' : gmap nat ptr) : Prop :=
  match o with
  | OpGet p _ =>
      match a.1 with
      | Some h => p ≠ 0%Z ∧ first ≤ h ∧ m !! h = None ∧ m' = <[h := p]> m
      | None => m' = m
      end
  | OpPut h => a.2 = default 0%Z (m !! h) ∧ m' = delete h m
  | OpLookup h => a.2 = default 0%Z (m !! h) ∧ m' = m
  end.

Inductive spec_ops (first : nat) : list handle_op → gmap nat ptr →
    list (option nat * ptr) → gmap nat ptr → Prop :=
| spec_ops_nil m : spec_ops first [] m [] m
| spec_ops_cons o os a ans m m1 m2 :
    spec_op first o m a m1 → spec_ops first os m1 ans m2 →
    spec_ops first (o :: os) m (a :: ans) m2.

(** The calls a client may make: handles below [first] are never handed out. *)
Definition op_ok (first : nat) (o : handle_op) : Prop :=
  match o with OpGet _ _ => True | OpPut h | OpLookup h => first ≤ h end.

Section client.
  Context {T : Type} `{HandleTable T}.

  (** One call on the implementation; the answer of a get is the handle. *)
Definition run_op (o : handle_op) (t : T) : option nat * ptr * T :=
    match o with
    | OpGet p mem => let '(h, t') := ht_get t p mem in (h, 0%Z, t')
    | OpPut h => let '(p, t') := ht_put t h in (None, p, t')
    | OpLookup h => (None, ht_lookup t h, t)
    end.

  (** Runs of a list of calls, with the answers. *)
Fixpoint run_ops (os : list handle_op) (t : T) : list (option nat * ptr) * T :=
    match os with
    | [] => ([], t)
    | o :: os =>
        let '(h, p, t1) := run_op o t in
        let '(ans, t2) := run_ops os t1 in ((h, p) :: ans, t2)
    end.

Lemma run_op_refines o t h p t' :
    ht_wf t → op_ok ht_first o → run_op o t = (h, p, t') →
    ht_wf t' ∧ spec_op ht_first o (ht_abs t) (h, p) (ht_abs t').
  Proof.
    intros Hwf Hok Hrun. destruct o as [q mem|k|k]; simpl in *.
    - pose proof (ht_get_wf t q mem Hwf) as Hwf'.
      destruct (ht_get t q mem) as [[k|] t1] eqn:Hget; simplify_eq/=.
      + split; [done|]. by eapply ht_get_Some.
      + split; [done|]. by eapply (ht_get_None t q mem).
    - pose proof (ht_put_wf t k Hwf) as Hwf'.
      pose proof (ht_put_spec t k Hwf Hok) as Hput.
      destruct (ht_put t k) as [q t1]; by simplify_eq/=.
    - simplify_eq. split; [done|]. split; [by apply ht_lookup_spec|done].
  Qed.

Lemma run_ops_refines os : ∀ t ans t',
    ht_wf t → Forall (op_ok ht_first) os → run_ops os t = (ans, t') →
    ht_wf t' ∧ spec_ops ht_first os (ht_abs t) ans (ht_abs t').
  Proof.
    induction os as [|o os IH]; intros t ans t' Hwf Hok Hrun; simplify_eq/=.
    { split; [done|constructor]. }
    apply Forall_cons in Hok as [Ho Hos].
    destruct (run_op o t) as [[h p] t1] eqn:Hop.
    destruct (run_ops os t1) as [ans1 t2] eqn:Hops. simplify_eq.
    destruct (run_op_refines _ _ _ _ _ Hwf Ho Hop) as [Hwf1 Hspec].
    destruct (IH _ _ _ Hwf1 Hos Hops) as [Hwf2 Hrest].
    split; [done|]. by econstructor.
  Qed.
End client.

(** ** Arrays of pointers *)

Lemma table_lookup ptrs h p :
  table ptrs !! h = Some p ↔ ptrs !! h = Some p ∧ p ≠ 0%Z.
Proof.
  unfold table. rewrite map_lookup_filter_Some, lookup_map_seq_0. done.
Qed.

Lemma table_lookup_default ptrs h :
  default 0%Z (table ptrs !! h) = default 0%Z (ptrs !! h).
Proof.
  destruct (table ptrs !! h) as [p|] eqn:Ht; simpl.
  - apply table_lookup in Ht as [-> _]. done.
  - destruct (ptrs !! h) as [p|] eqn:Hp; [|done]. simpl.
    destruct (decide (p = 0%Z)) as [->|Hne]; [done|].
    assert (table ptrs !! h = Some p) by by apply table_lookup. congruence.
Qed.

Lemma table_None ptrs h :
  table ptrs !! h = None ↔ ptrs !! h = None ∨ ptrs !! h = Some 0%Z.
Proof.
  rewrite eq_None_not_Some. unfold is_Some.
  setoid_rewrite table_lookup.
  destruct (ptrs !! h) as [p|]; [destruct (decide (p = 0%Z))|]; naive_solver.
Qed.

Lemma table_insert ptrs h p :
  h < length ptrs → p ≠ 0%Z → table (<[h := p]> ptrs) = <[h := p]> (table ptrs).
Proof.
  intros Hlt Hp. apply map_eq. intros i. apply option_eq. intros q.
  rewrite table_lookup. destruct (decide (h = i)) as [->|Hne].
  - rewrite list_lookup_insert_eq, lookup_insert_eq by done. naive_solver.
  - rewrite list_lookup_insert_ne, lookup_insert_ne by done. by rewrite table_lookup.
Qed.

Lemma table_clear ptrs h :
  h < length ptrs → table (<[h := 0%Z]> ptrs) = delete h (table ptrs).
Proof.
  intros Hlt. apply map_eq. intros i. apply option_eq. intros q.
  rewrite table_lookup. destruct (decide (h = i)) as [->|Hne].
  - rewrite list_lookup_insert_eq, lookup_delete_eq by done. naive_solver.
  - rewrite list_lookup_insert_ne, lookup_delete_ne by done. by rewrite table_lookup.
Qed.

Lemma table_grow ptrs k : table (ptrs ++ replicate k 0%Z) = table ptrs.
Proof.
  apply map_eq. intros i. apply option_eq. intros q.
  rewrite !table_lookup. destruct (decide (i < length ptrs)) as [Hlt|Hge].
  - by rewrite lookup_app_l.
  - rewrite lookup_app_r by lia. rewrite lookup_replicate.
    assert (ptrs !! i = None) as -> by (apply lookup_ge_None; lia). naive_solver.
Qed.

Lemma scan_free_Some ptrs fuel : ∀ n k,
  scan_free ptrs n fuel = Some k →
  n ≤ k < n + fuel ∧ ptrs !! k = Some 0%Z ∧
  ∀ i, n ≤ i < k → ptrs !! i ≠ Some 0%Z.
Proof.
  induction fuel as [|fuel IH]; intros n k Hscan; simpl in *; [done|].
  case_bool_decide as Hn.
  - simplify_eq. split; [lia|]. split; [done|]. lia.
  - destruct (IH _ _ Hscan) as (? & ? & Hi). split; [lia|]. split; [done|].
    intros i ?. destruct (decide (i = n)) as [->|]; [done|]. apply Hi. lia.
Qed.

Lemma scan_free_None ptrs fuel : ∀ n,
  scan_free ptrs n fuel = None → ∀ i, n ≤ i < n + fuel → ptrs !! i ≠ Some 0%Z.
Proof.
  induction fuel as [|fuel IH]; intros n Hscan i Hi; simpl in *; [lia|].
  case_bool_decide as Hn; [done|].
  destruct (decide (i = n)) as [->|]; [done|]. apply (IH (S n)); [done|lia].
Qed.

#[export] Hint Rewrite @length_insert @length_app @length_replicate : optee_rw.
