(* ===== verification/Handle.v ===== *)
(** * Handle databases of the core (core/kernel/handle.c)

    A [struct handle_db] is an array of pointers, the index of a pointer is its
    handle. The array doubles when it is full. *)
From S2P Require Import Prelude HandleSpec.

Definition HANDLE_DB_INITIAL_MAX_PTRS : Z := 4.

Record handle_db := HandleDb { ptrs : list ptr; max_ptrs : Z }.

(** HANDLE_DB_INITIALIZER *)
Definition handle_db_init : handle_db := HandleDb [] 0.

Section handle.
  Context `{Heap}.

(** The pointers the destructor is called with, in order, and the emptied
    database. [db = None] is a NULL [db]. *)
Definition handle_db_destroy (db : option handle_db) (ptr_destructor : bool)
    : list ptr * option handle_db :=
  match db with
  | None => ([], None)
  | Some db =>
      (if ptr_destructor
       then filter (λ p, p ≠ 0%Z) (take (Z.to_nat (max_ptrs db)) (ptrs db))
       else [],
       Some (HandleDb [] 0))
  end.

Definition handle_get (db : option handle_db) (p : ptr) (mem : bool)
    : Z * option handle_db :=
  match db with
  | None => (-1, None)
  | Some db0 =>
      if (p =? 0)%Z then (-1, db)
      else
        match scan_free (ptrs db0) 0 (Z.to_nat (max_ptrs db0)) with
        | Some n =>
            (to_int32 (Z.of_nat n), Some (HandleDb (<[n := p]> (ptrs db0)) (max_ptrs db0)))
        | None =>
            let n := Z.to_nat (max_ptrs db0) in
            let new_max_ptrs :=
              if (max_ptrs db0 =? 0)%Z then HANDLE_DB_INITIAL_MAX_PTRS
              else wrap 64 (max_ptrs db0 * 2) in
            if heap_alloc mem (wrap 64 (new_max_ptrs * 8)) then
              let ptrs1 := ptrs db0
                ++ replicate (Z.to_nat (new_max_ptrs - max_ptrs db0)) 0%Z in
              (to_int32 (Z.of_nat n), Some (HandleDb (<[n := p]> ptrs1) new_max_ptrs))
            else (-1, db)
        end
  end%Z.

Definition handle_put (db : option handle_db) (handle : Z) : ptr * option handle_db :=
  match db with
  | None => (0, None)
  | Some db0 =>
      if (handle <? 0) || (max_ptrs db0 <=? handle) then (0, db)
      else
        let n := Z.to_nat handle in
        (default 0 (ptrs db0 !! n), Some (HandleDb (<[n := 0]> (ptrs db0)) (max_ptrs db0)))
  end%Z.

Definition handle_lookup (db : option handle_db) (handle : Z) : ptr :=
  match db with
  | None => 0
  | Some db0 =>
      if (handle <? 0) || (max_ptrs db0 <=? handle) then 0
      else default 0 (ptrs db0 !! Z.to_nat handle)
  end%Z.

(** ** Invariant *)

(** The array has [max_ptrs] entries and was granted by the heap. *)
Definition db_wf (db : handle_db) : Prop :=
  (max_ptrs db = Z.of_nat (length (ptrs db)) ∧ max_ptrs db * 8 <= heap_size)%Z.

Definition db_table (db : handle_db) : gmap nat ptr := table (ptrs db).

Lemma db_wf_init : db_wf handle_db_init.
Proof. pose proof heap_size_bound. split; simpl; lia. Qed.

Lemma db_wf_bound db : db_wf db → (0 <= max_ptrs db < 2 ^ 28)%Z.
Proof. intros [? ?]. pose proof heap_size_bound. lia. Qed.

(** The three outcomes of a get on a well-formed database. *)
Lemma handle_get_cases db p mem h db' :
  db_wf db → handle_get (Some db) p mem = (h, db') →
  (h = (-1)%Z ∧ db' = Some db ∧
    (p ≠ 0%Z → ∀ i, i < length (ptrs db) → ptrs db !! i ≠ Some 0%Z)) ∨
  (∃ n db1, h = Z.of_nat n ∧ p ≠ 0%Z ∧ db' = Some db1 ∧ db_wf db1 ∧
    db_table db !! n = None ∧ db_table db1 = <[n := p]> (db_table db)).
Proof.
  intros Hwf Hget. pose proof (db_wf_bound _ Hwf) as Hb.
  destruct Hwf as [Hlen Hheap]. unfold handle_get in Hget.
  destruct (Z.eqb_spec p 0) as [->|Hp].
  { left. by simplify_eq. }
  destruct (scan_free _ _ _) as [n|] eqn:Hscan; simplify_eq.
  - apply scan_free_Some in Hscan as (Hn & Hnull & _). right.
    exists n, (HandleDb (<[n := p]> (ptrs db)) (max_ptrs db)).
    rewrite to_int32_small by lia.
    split; [done|]. split; [done|]. split; [done|]. split; [|split].
    + split; simpl; [|done]. by rewrite length_insert.
    + apply table_None. by right.
    + apply table_insert; [lia|done].
  - pose proof (scan_free_None _ _ _ Hscan) as Hfull.
    destruct (heap_alloc mem _) eqn:Hmem; simplify_eq.
    + right. unfold heap_alloc in Hmem. bools.
      set (nmax := if (max_ptrs db =? 0)%Z then _ else _) in *.
      assert (nmax = if (max_ptrs db =? 0)%Z then 4 else max_ptrs db * 2)%Z as Hn.
      { subst nmax. destruct (max_ptrs db =? 0)%Z; [done|]. apply wrap_small. split; lia. }
      rewrite wrap_small in * by (split; destruct (max_ptrs db =? 0)%Z; lia).
      assert (max_ptrs db < nmax)%Z by (destruct (Z.eqb_spec (max_ptrs db) 0); lia).
      eexists _, _. rewrite to_int32_small by lia.
      split; [done|]. split; [done|]. split; [done|].
      split; [|split].
      * split; simpl; [|lia]. rewrite length_insert, length_app, length_replicate. lia.
      * apply table_None. left. apply lookup_ge_None. lia.
      * unfold db_table. simpl. rewrite table_insert, table_grow; [done| |done].
        rewrite length_app, length_replicate. lia.
    + left. split; [done|]. split; [done|]. intros _ i Hi. apply Hfull. lia.
Qed.

Lemma handle_put_spec db h :
  db_wf db →
  ∃ db', handle_put (Some db) (Z.of_nat h) = (default 0%Z (db_table db !! h), Some db') ∧
    db_wf db' ∧ db_table db' = delete h (db_table db).
Proof.
  intros Hwf. pose proof (db_wf_bound _ Hwf) as Hb. destruct Hwf as [Hlen Hheap].
  unfold handle_put. rewrite (proj2 (Z.ltb_ge _ _)) by lia. simpl.
  unfold db_table. rewrite table_lookup_default.
  destruct (Z.leb_spec (max_ptrs db) (Z.of_nat h)).
  - assert (ptrs db !! h = None) as Hnone by (apply lookup_ge_None; lia).
    rewrite Hnone. exists db. split; [done|]. split; [done|].
    symmetry. apply delete_id, table_None. by left.
  - eexists. rewrite Nat2Z.id. split; [done|]. split.
    + split; simpl; [|done]. by rewrite length_insert.
    + apply table_clear. lia.
Qed.

Lemma handle_lookup_spec db h :
  db_wf db → handle_lookup (Some db) (Z.of_nat h) = default 0%Z (db_table db !! h).
Proof.
  intros [Hlen _]. unfold handle_lookup, db_table.
  rewrite (proj2 (Z.ltb_ge _ _)) by lia. simpl. rewrite table_lookup_default, Nat2Z.id.
  destruct (Z.leb_spec (max_ptrs db) (Z.of_nat h)); [|done].
  assert (ptrs db !! h = None) as -> by (apply lookup_ge_None; lia). done.
Qed.

Definition db_ht_get (t : handle_db) (p : ptr) (mem : bool) : option nat * handle_db :=
  let '(h, t') := handle_get (Some t) p mem in
  (if (h <? 0)%Z then None else Some (Z.to_nat h), default t t').
Definition db_ht_put (t : handle_db) (h : nat) : ptr * handle_db :=
  let '(p, t') := handle_put (Some t) (Z.of_nat h) in (p, default t t').

#[global] Program Instance handle_db_table : HandleTable handle_db := {|
  ht_wf := db_wf;
  ht_abs := db_table;
  ht_first := 0;
  ht_cap t := length (ptrs t);
  ht_get := db_ht_get;
  ht_put := db_ht_put;
  ht_lookup t h := handle_lookup (Some t) (Z.of_nat h);
|}.
Next Obligation.
  intros t p b Hwf. unfold db_ht_get.
  destruct (handle_get (Some t) p b) as [h t'] eqn:Hget.
  apply handle_get_cases in Hget as [(-> & -> & _)|(n & t1 & -> & _ & -> & ? & _)]; done.
Qed.
Next Obligation.
  intros t h Hwf. unfold db_ht_put.
  destruct (handle_put_spec t h Hwf) as (t' & -> & ? & _). done.
Qed.
Next Obligation.
  intros t p b h t' Hwf. unfold db_ht_get.
  destruct (handle_get (Some t) p b) as [h1 t1] eqn:Hget.
  apply handle_get_cases in Hget
    as [(-> & -> & _)|(n & t2 & -> & ? & -> & ? & ? & ?)]; [done| |done].
  rewrite (proj2 (Z.ltb_ge _ _)), Nat2Z.id by lia. intros ?. simplify_eq/=.
  split_and!; [done|lia|done..].
Qed.
Next Obligation.
  intros t p b t' Hwf. unfold db_ht_get.
  destruct (handle_get (Some t) p b) as [h1 t1] eqn:Hget.
  apply handle_get_cases in Hget
    as [(-> & -> & Hfull)|(n & t2 & -> & _)]; [| |done].
  - simpl. intros ?. simplify_eq. split; [done|]. intros Hp h [_ Hlt].
    apply not_eq_None_Some. intros [Hn|Hn]%table_None; [|by apply (Hfull Hp h)].
    apply lookup_ge_None in Hn. lia.
  - rewrite (proj2 (Z.ltb_ge _ _)) by lia. done.
Qed.
Next Obligation.
  intros t h Hwf _. unfold db_ht_put.
  destruct (handle_put_spec t h Hwf) as (t' & Hput & _ & Htab).
  rewrite Hput. simpl. done.
Qed.
Next Obligation. intros t h Hwf _. by apply handle_lookup_spec. Qed.

(** ** Properties *)

(** C12: Whatever sequence of get, put and lookup calls a client of
    core/kernel/handle.c makes on a fresh database, under any pattern of heap
    failures, the answers are those of a map from handles to pointers in which a
    get stores the pointer under a handle that was free: live handles never
    alias, a lookup returns the pointer stored last, a put frees the handle. *)
Theorem handle_db_refines_map (os : list handle_op) ans db :
  Forall (op_ok 0) os →
  run_ops os handle_db_init = (ans, db) →
  db_wf db ∧ spec_ops 0 os ∅ ans (db_table db).
Proof.
  intros Hos Hrun.
  exact (run_ops_refines os handle_db_init ans db db_wf_init Hos Hrun).
Qed.

(** C28: The destructor passed to handle_db_destroy is called with exactly
    the live pointers, and the database is empty afterwards. *)
Theorem handle_db_destroy_spec db ps db' :
  db_wf db → handle_db_destroy (Some db) true = (ps, Some db') →
  db_table db' = ∅ ∧ (∀ p, p ∈ ps ↔ ∃ h, db_table db !! h = Some p).
Proof.
  intros [Hlen _] Hd. simplify_eq/=. split; [done|]. intros p.
  rewrite list_elem_of_filter, take_ge by lia. unfold db_table.
  setoid_rewrite table_lookup. rewrite list_elem_of_lookup. naive_solver.
Qed.
End handle.

(** Five gets on a 4-entry array, a put and a get that reuses the freed handle. *)
Lemma handle_db_refines_map_witness :
  let os := [OpGet 11 true; OpGet 12 true; OpGet 13 true; OpGet 14 true;
             OpGet 15 true; OpPut 1; OpLookup 1; OpGet 16 true; OpGet 0 true] in
  let r := run_ops (H := @handle_db_table heap_64k) os handle_db_init in
  map fst r.1 = [Some 0; Some 1; Some 2; Some 3; Some 4; None; None; Some 1; None] ∧
  @db_wf heap_64k r.2 ∧ spec_ops 0 os ∅ r.1 (db_table r.2).
Proof.
  split; [vm_compute; reflexivity|].
  apply (@handle_db_refines_map heap_64k).
  - repeat (apply List.Forall_cons; [simpl; lia || exact I|]). apply List.Forall_nil.
  - vm_compute; reflexivity.
Defined.

Lemma handle_db_destroy_spec_witness :
  db_table (HandleDb [] 0) = ∅ ∧
  (∀ p, p ∈ [7; 9]%Z ↔ ∃ h, db_table (HandleDb [0; 7; 0; 9]%Z 4) !! h = Some p).
Proof.
  apply (@handle_db_destroy_spec heap_64k (HandleDb [0; 7; 0; 9]%Z 4)).
  - split; [reflexivity|simpl; lia].
  - vm_compute; reflexivity.
Defined.
