(* ===== verification/Pkcs11Handle.v ===== *)
(** * Handle databases of the PKCS#11 TA (ta/pkcs11/src/handle.c)

    The same array as in the core, but index 0 is reserved: 0 is the invalid
    handle and the failure value of every function. *)
From S2P Require Import Prelude HandleSpec.

Definition HANDLE_DB_INITIAL_MAX_PTRS : Z := 4.

Record handle_db := HandleDb { ptrs : list ptr; max_ptrs : Z }.

Definition handle_db_init : handle_db := HandleDb [] 0.

Section handle.
  Context `{Heap}.

Definition handle_db_destroy (db : option handle_db) : option handle_db :=
  match db with None => None | Some _ => Some (HandleDb [] 0) end.

(** The index the [for] loop from 1 ends with when it finds no empty location. *)
Definition loop_end (max_ptrs : Z) : nat := Nat.max 1 (Z.to_nat max_ptrs).

Definition handle_get (db : option handle_db) (p : ptr) (mem : bool)
    : Z * option handle_db :=
  match db with
  | None => (0, None)
  | Some db0 =>
      if (p =? 0)%Z then (0, db)
      else
        match scan_free (ptrs db0) 1 (Z.to_nat (max_ptrs db0) - 1) with
        | Some n =>
            (wrap 32 (Z.of_nat n), Some (HandleDb (<[n := p]> (ptrs db0)) (max_ptrs db0)))
        | None =>
            let n := loop_end (max_ptrs db0) in
            let new_max_ptrs :=
              if (max_ptrs db0 =? 0)%Z then HANDLE_DB_INITIAL_MAX_PTRS
              else wrap 32 (max_ptrs db0 * 2) in
            if heap_alloc mem (wrap 64 (new_max_ptrs * 8)) then
              let ptrs1 := ptrs db0
                ++ replicate (Z.to_nat (new_max_ptrs - max_ptrs db0)) 0%Z in
              (wrap 32 (Z.of_nat n), Some (HandleDb (<[n := p]> ptrs1) new_max_ptrs))
            else (0, db)
        end
  end%Z.

Definition handle_put (db : option handle_db) (handle : Z) : ptr * option handle_db :=
  match db with
  | None => (0, None)
  | Some db0 =>
      if (handle =? 0) || (max_ptrs db0 <=? handle) then (0, db)
      else
        let n := Z.to_nat handle in
        (default 0 (ptrs db0 !! n), Some (HandleDb (<[n := 0]> (ptrs db0)) (max_ptrs db0)))
  end%Z.

Definition handle_lookup (db : option handle_db) (handle : Z) : ptr :=
  match db with
  | None => 0
  | Some db0 =>
      if (handle =? 0) || (max_ptrs db0 <=? handle) then 0
      else default 0 (ptrs db0 !! Z.to_nat handle)
  end%Z.

(** The scan of handle_lookup_handle: the first index from [n] on that holds [p]. *)
Fixpoint scan_for (ptrs : list ptr) (p : ptr) (n fuel : nat) : option nat :=
  match fuel with
  | O => None
  | S fuel =>
      if bool_decide (ptrs !! n = Some p) then Some n
      else scan_for ptrs p (S n) fuel
  end.

Definition handle_lookup_handle (db : handle_db) (p : ptr) : Z :=
  if (p =? 0)%Z then 0
  else match scan_for (ptrs db) p 1 (Z.to_nat (max_ptrs db) - 1) with
       | Some n => wrap 32 (Z.of_nat n)
       | None => 0
       end.

(** ** Invariant *)

(** As in the core, and location 0 is never used. *)
Definition db_wf (db : handle_db) : Prop :=
  (max_ptrs db = Z.of_nat (length (ptrs db)) ∧ max_ptrs db * 8 <= heap_size)%Z ∧
  length (ptrs db) ≠ 1 ∧ (ptrs db !! 0 = None ∨ ptrs db !! 0 = Some 0%Z).

Definition db_table (db : handle_db) : gmap nat ptr := table (ptrs db).

Lemma pkcs11_db_wf_init : db_wf handle_db_init.
Proof. pose proof heap_size_bound. split; [split; simpl; lia|]. split; [done|by left]. Qed.

Lemma pkcs11_db_wf_bound db : db_wf db → (0 <= max_ptrs db < 2 ^ 28)%Z.
Proof. intros [[? ?] _]. pose proof heap_size_bound. lia. Qed.

Lemma pkcs11_handle_get_cases db p mem h db' :
  db_wf db → handle_get (Some db) p mem = (h, db') →
  (h = 0%Z ∧ db' = Some db ∧
    (p ≠ 0%Z → ∀ i, 1 ≤ i < length (ptrs db) → ptrs db !! i ≠ Some 0%Z)) ∨
  (∃ n db1, h = Z.of_nat n ∧ 1 ≤ n ∧ p ≠ 0%Z ∧ db' = Some db1 ∧ db_wf db1 ∧
    db_table db !! n = None ∧ db_table db1 = <[n := p]> (db_table db)).
Proof.
  intros Hwf Hget. pose proof (pkcs11_db_wf_bound _ Hwf) as Hb.
  destruct Hwf as ((Hlen & Hheap) & Hne1 & H0). unfold handle_get in Hget.
  destruct (Z.eqb_spec p 0) as [->|Hp].
  { left. by simplify_eq. }
  destruct (scan_free _ _ _) as [n|] eqn:Hscan; simplify_eq.
  - apply scan_free_Some in Hscan as (Hn & Hnull & _). right.
    exists n, (HandleDb (<[n := p]> (ptrs db)) (max_ptrs db)).
    rewrite wrap_small by (split; lia).
    split; [done|]. split; [lia|]. split; [done|]. split; [done|]. split; [|split].
    + split; simpl; rewrite length_insert; [done|]. split; [done|].
      by rewrite list_lookup_insert_ne by lia.
    + apply table_None. by right.
    + apply table_insert; [lia|done].
  - pose proof (scan_free_None _ _ _ Hscan) as Hfull.
    destruct (heap_alloc mem _) eqn:Hmem; simplify_eq.
    + right. unfold heap_alloc in Hmem. bools.
      set (nmax := if (max_ptrs db =? 0)%Z then _ else _) in *.
      assert (nmax = if (max_ptrs db =? 0)%Z then 4 else max_ptrs db * 2)%Z as Hn.
      { subst nmax. destruct (max_ptrs db =? 0)%Z; [done|]. apply wrap_small. split; lia. }
      rewrite (wrap_small 64) in * by (split; destruct (max_ptrs db =? 0)%Z; lia).
      assert (loop_end (max_ptrs db) < Z.to_nat nmax) as Hlt.
      { unfold loop_end. destruct (Z.eqb_spec (max_ptrs db) 0); lia. }
      assert (length (ptrs db) ≤ loop_end (max_ptrs db)) by (unfold loop_end; lia).
      assert (max_ptrs db < nmax)%Z by (destruct (Z.eqb_spec (max_ptrs db) 0); lia).
      assert (Z.of_nat (loop_end (max_ptrs db)) < 2 ^ 29)%Z by (unfold loop_end; lia).
      eexists _, _. rewrite wrap_small by (split; lia).
      split; [done|]. split; [unfold loop_end; lia|]. split; [done|]. split; [done|].
      split; [|split].
      * split; simpl; rewrite length_insert, length_app, length_replicate; [lia|].
        split; [unfold loop_end in Hlt; lia|].
        rewrite list_lookup_insert_ne by (unfold loop_end; lia). right.
        destruct (decide (length (ptrs db) = 0)) as [Hz|Hnz].
        -- rewrite lookup_app_r by lia. rewrite Hz, lookup_replicate. split; [done|lia].
        -- rewrite lookup_app_l by lia. destruct H0 as [H0|H0]; [|done].
           apply lookup_ge_None in H0. lia.
      * apply table_None. left. apply lookup_ge_None. lia.
      * unfold db_table. simpl. rewrite table_insert, table_grow; [done| |done].
        rewrite length_app, length_replicate. lia.
    + left. split; [done|]. split; [done|]. intros _ i Hi. apply Hfull. lia.
Qed.

Lemma pkcs11_handle_put_spec db h :
  db_wf db → 1 ≤ h →
  ∃ db', handle_put (Some db) (Z.of_nat h) = (default 0%Z (db_table db !! h), Some db') ∧
    db_wf db' ∧ db_table db' = delete h (db_table db).
Proof.
  intros Hwf Hh. pose proof (pkcs11_db_wf_bound _ Hwf) as Hb.
  pose proof Hwf as ((Hlen & Hheap) & Hne1 & H0).
  unfold handle_put. rewrite (proj2 (Z.eqb_neq _ _)) by lia. simpl.
  unfold db_table. rewrite table_lookup_default.
  destruct (Z.leb_spec (max_ptrs db) (Z.of_nat h)).
  - assert (ptrs db !! h = None) as Hnone by (apply lookup_ge_None; lia).
    rewrite Hnone. exists db. split; [done|]. split; [done|].
    symmetry. apply delete_id, table_None. by left.
  - eexists. rewrite Nat2Z.id. split; [done|]. split.
    + split; simpl; rewrite length_insert; [done|]. split; [done|].
      by rewrite list_lookup_insert_ne by lia.
    + apply table_clear. lia.
Qed.

Lemma pkcs11_handle_lookup_spec db h :
  db_wf db → 1 ≤ h →
  handle_lookup (Some db) (Z.of_nat h) = default 0%Z (db_table db !! h).
Proof.
  intros [[Hlen _] _] Hh. unfold handle_lookup, db_table.
  rewrite (proj2 (Z.eqb_neq _ _)) by lia. simpl. rewrite table_lookup_default, Nat2Z.id.
  destruct (Z.leb_spec (max_ptrs db) (Z.of_nat h)); [|done].
  assert (ptrs db !! h = None) as -> by (apply lookup_ge_None; lia). done.
Qed.

Lemma scan_for_Some ptrs p fuel : ∀ n k,
  scan_for ptrs p n fuel = Some k → n ≤ k < n + fuel ∧ ptrs !! k = Some p.
Proof.
  induction fuel as [|fuel IH]; intros n k Hscan; simpl in *; [done|].
  case_bool_decide; [simplify_eq; by split; [lia|]|].
  destruct (IH _ _ Hscan). by split; [lia|].
Qed.

Lemma scan_for_None ptrs p fuel : ∀ n,
  scan_for ptrs p n fuel = None → ∀ i, n ≤ i < n + fuel → ptrs !! i ≠ Some p.
Proof.
  induction fuel as [|fuel IH]; intros n Hscan i Hi; simpl in *; [lia|].
  case_bool_decide as Hn; [done|].
  destruct (decide (i = n)) as [->|]; [done|]. apply (IH (S n)); [done|lia].
Qed.

Definition db_ht_get (t : handle_db) (p : ptr) (mem : bool) : option nat * handle_db :=
  let '(h, t') := handle_get (Some t) p mem in
  (if (h =? 0)%Z then None else Some (Z.to_nat h), default t t').
Definition db_ht_put (t : handle_db) (h : nat) : ptr * handle_db :=
  let '(p, t') := handle_put (Some t) (Z.of_nat h) in (p, default t t').

#[global] Program Instance handle_db_table : HandleTable handle_db := {|
  ht_wf := db_wf;
  ht_abs := db_table;
  ht_first := 1;
  ht_cap t := length (ptrs t);
  ht_get := db_ht_get;
  ht_put := db_ht_put;
  ht_lookup t h := handle_lookup (Some t) (Z.of_nat h);
|}.
Next Obligation.
  intros t p b Hwf. unfold db_ht_get.
  destruct (handle_get (Some t) p b) as [h t'] eqn:Hget.
  apply pkcs11_handle_get_cases in Hget as [(-> & -> & _)|(n & t1 & -> & _ & _ & -> & ? & _)]; done.
Qed.
Next Obligation.
  intros t h Hwf. unfold db_ht_put.
  destruct (decide (1 ≤ h)) as [Hh|Hh].
  - destruct (pkcs11_handle_put_spec t h Hwf Hh) as (t' & -> & ? & _). done.
  - assert (h = 0) as -> by lia. done.
Qed.
Next Obligation.
  intros t p b h t' Hwf. unfold db_ht_get.
  destruct (handle_get (Some t) p b) as [h1 t1] eqn:Hget.
  apply pkcs11_handle_get_cases in Hget
    as [(-> & -> & _)|(n & t2 & -> & ? & ? & -> & ? & ? & ?)]; [done| |done].
  rewrite (proj2 (Z.eqb_neq _ _)), Nat2Z.id by lia. intros ?. by simplify_eq/=.
Qed.
Next Obligation.
  intros t p b t' Hwf. unfold db_ht_get.
  destruct (handle_get (Some t) p b) as [h1 t1] eqn:Hget.
  apply pkcs11_handle_get_cases in Hget
    as [(-> & -> & Hfull)|(n & t2 & -> & ? & _)]; [| |done].
  - simpl. intros ?. simplify_eq. split; [done|]. intros Hp h Hlt.
    apply not_eq_None_Some. intros [Hn|Hn]%table_None; [|by apply (Hfull Hp h)].
    apply lookup_ge_None in Hn. lia.
  - rewrite (proj2 (Z.eqb_neq _ _)) by lia. done.
Qed.
Next Obligation.
  intros t h Hwf Hh. unfold db_ht_put.
  destruct (pkcs11_handle_put_spec t h Hwf Hh) as (t' & Hput & _ & Htab).
  rewrite Hput. simpl. done.
Qed.
Next Obligation. intros t h Hwf Hh. by apply pkcs11_handle_lookup_spec. Qed.

(** ** Properties *)

(** The handle database of the PKCS#11 TA answers every
    sequence of calls like a map, with the handles counted from 1: 0 is never
    handed out. *)
Lemma pkcs11_handle_db_refines_map (os : list handle_op) ans db :
  Forall (op_ok 1) os →
  run_ops os handle_db_init = (ans, db) →
  db_wf db ∧ spec_ops 1 os ∅ ans (db_table db).
Proof.
  intros Hos Hrun.
  exact (run_ops_refines os handle_db_init ans db pkcs11_db_wf_init Hos Hrun).
Qed.

(** The two outcomes of handle_lookup_handle. *)
Lemma lookup_handle_cases db p :
  db_wf db → p ≠ 0%Z →
  (1 <= handle_lookup_handle db p ∧ db_table db !! Z.to_nat (handle_lookup_handle db p) = Some p)%Z ∨
  (handle_lookup_handle db p = 0%Z ∧ ∀ i, db_table db !! i ≠ Some p).
Proof.
  intros Hwf Hp. pose proof (pkcs11_db_wf_bound _ Hwf) as Hb.
  pose proof Hwf as ((Hlen & _) & _ & H0). unfold handle_lookup_handle.
  rewrite (proj2 (Z.eqb_neq _ _)) by done.
  destruct (scan_for _ _ _ _) as [n|] eqn:Hscan.
  - left. apply scan_for_Some in Hscan as [Hn Hlook].
    rewrite wrap_small by (split; lia). split; [lia|]. rewrite Nat2Z.id.
    apply table_lookup. done.
  - right. split; [done|]. intros i [Hi _]%table_lookup.
    destruct i as [|i]; [naive_solver|].
    apply (scan_for_None _ _ _ _ Hscan (S i)); [|done].
    apply lookup_lt_Some in Hi. lia.
Qed.

(** handle_lookup_handle inverts handle_lookup: it returns a handle
    of the pointer if there is one, and 0 only when there is none. *)
Lemma handle_lookup_handle_spec db p h :
  db_wf db → p ≠ 0%Z → handle_lookup_handle db p = h →
  (h ≠ 0%Z ∧ handle_lookup (Some db) h = p) ∨
  (h = 0%Z ∧ ∀ i, db_table db !! i ≠ Some p).
Proof.
  intros Hwf Hp <-. destruct (lookup_handle_cases db p Hwf Hp) as [[H1 Ht]|?]; [left|by right].
  split; [lia|]. rewrite <- (Z2Nat.id (handle_lookup_handle db p)) by lia.
  rewrite pkcs11_handle_lookup_spec by (done || lia). by rewrite Ht.
Qed.
End handle.
