(* ===== verification/TeeMisc.v ===== *)
(** * Hex strings and memory areas (core/kernel/tee_misc.c)

    The conversions between binary and hexadecimal strings, and the predicates
    the core uses to decide whether a physical buffer lies inside, outside or
    across a memory area. *)
From S2P Require Import Prelude.
Local Open Scope Z_scope.

(** ** Hex strings *)

Definition tee_b2hs_add_base (i : Z) : Z :=
  if 9 <? i then wrap 8 (i + 55) else wrap 8 (i + 48).

(** [None] is the failure value -1. *)
Definition tee_hs2b_rem_base (i : Z) : option Z :=
  if (i <? 48) || (70 <? i) || ((57 <? i) && (i <? 65)) then None
  else if i <? 58 then Some (wrap 8 (i - 48)) else Some (wrap 8 (i - 55)).

(** The loop of tee_b2hs from byte [i] on, [n] iterations. *)
Fixpoint b2hs_loop (b hs : list Z) (i n : nat) : list Z :=
  match n with
  | O => hs
  | S n =>
      let x := default 0 (b !! i) in
      let hs := <[(i * 2 + 1)%nat := tee_b2hs_add_base (Z.land x 15)]> hs in
      let hs := <[(i * 2)%nat := tee_b2hs_add_base (Z.shiftr x 4)]> hs in
      b2hs_loop b hs (S i) n
  end.

(** The number of characters written (0 when [hs] is too small) and [hs]. *)
Definition tee_b2hs (b hs : list Z) (blen hslen : Z) : Z * list Z :=
  if hslen <? wrap 32 (wrap 32 (blen * 2) + 1) then (0, hs)
  else
    let hs := b2hs_loop b hs 0 (Z.to_nat blen) in
    let hs := <[Z.to_nat (wrap 32 (blen * 2)) := 0]> hs in
    (wrap 32 (blen * 2), hs).

Definition TEE_HS2B_BBUF_SIZE (x : Z) : Z := Z.shiftr (wrap 32 (x + 1)) 1.

(** The loop of tee_hs2b: [None] when a character is not a hex digit. *)
Fixpoint hs2b_loop (hs b : list Z) (i n : nat) : option (list Z) :=
  match n with
  | O => Some b
  | S n =>
      hi ← tee_hs2b_rem_base (default 0 (hs !! (i * 2)%nat));
      lo ← tee_hs2b_rem_base (default 0 (hs !! (i * 2 + 1)%nat));
      hs2b_loop hs (<[i := wrap 8 (Z.shiftl hi 4 + lo)]> b) (S i) n
  end.

(** The number of bytes written, 0 on failure; [b] on success. *)
Definition tee_hs2b (hs b : list Z) (hslen blen : Z) : Z * option (list Z) :=
  let len := TEE_HS2B_BBUF_SIZE hslen in
  if blen <? len then (0, None)
  else match hs2b_loop hs b 0 (Z.to_nat len) with
       | Some b => (len, Some b)
       | None => (0, None)
       end.

(** ** Memory areas *)

Definition is_valid_conf_and_notnull_size (b bl a al : Z) : bool :=
  if (wrap 64 (wrap 64 (b - 1) + bl) <? b) || (wrap 64 (wrap 64 (a - 1) + al) <? a)
  then false
  else if (bl =? 0) || (al =? 0) then false
  else true.

Definition core_is_buffer_inside (b bl a al : Z) : bool :=
  if negb (is_valid_conf_and_notnull_size b bl a al) then false
  else (a <=? b) &&
       (wrap 64 (wrap 64 (b - 1) + bl) <=? wrap 64 (wrap 64 (a - 1) + al)).

Definition core_is_buffer_outside (b bl a al : Z) : bool :=
  if negb (is_valid_conf_and_notnull_size b bl a al) then false
  else (wrap 64 (wrap 64 (b + bl) - 1) <? a) || (wrap 64 (wrap 64 (a + al) - 1) <? b).

Definition core_is_buffer_intersect (b bl a al : Z) : bool :=
  if negb (is_valid_conf_and_notnull_size b bl a al) then false
  else if (wrap 64 (wrap 64 (b + bl) - 1) <? a) || (wrap 64 (wrap 64 (a + al) - 1) <? b)
       then false else true.

(** ** Hex strings: lemmas *)

Lemma rem_base_add_base i :
  0 <= i < 16 → tee_hs2b_rem_base (tee_b2hs_add_base i) = Some i.
Proof.
  revert i. apply (forall_below (λ i, tee_hs2b_rem_base (tee_b2hs_add_base i) = Some i)).
  vm_compute. reflexivity.
Qed.

Lemma nibbles x :
  in_range 8 x →
  0 <= Z.shiftr x 4 < 16 ∧ 0 <= Z.land x 15 < 16 ∧
  wrap 8 (Z.shiftl (Z.shiftr x 4) 4 + Z.land x 15) = x.
Proof.
  intros [H0 H1]. rewrite Z.shiftr_div_pow2, Z.shiftl_mul_pow2 by lia.
  change 15 with (Z.ones 4). rewrite Z.land_ones by lia.
  change (2 ^ 4) with 16. change (2 ^ 8) with 256 in H1.
  pose proof (Z.mod_pos_bound x 16 ltac:(lia)).
  split; [split; [apply Z.div_pos; lia|apply Z.div_lt_upper_bound; lia]|].
  split; [lia|].
  replace (x / 16 * 16 + x mod 16) with x by (rewrite Z.mul_comm; apply Z.div_mod; lia).
  apply Z.mod_small. change (2 ^ 8) with 256. lia.
Qed.

(** The two characters of byte [i], once the loop has run, are its digits. *)
Lemma b2hs_loop_spec b n : ∀ hs i,
  (2 * (i + n) <= length hs)%nat →
  length (b2hs_loop b hs i n) = length hs ∧
  (∀ k, (k < 2 * i ∨ 2 * (i + n) <= k)%nat → b2hs_loop b hs i n !! k = hs !! k) ∧
  (∀ j, (i <= j < i + n)%nat →
    b2hs_loop b hs i n !! (j * 2)%nat
      = Some (tee_b2hs_add_base (Z.shiftr (default 0 (b !! j)) 4)) ∧
    b2hs_loop b hs i n !! (j * 2 + 1)%nat
      = Some (tee_b2hs_add_base (Z.land (default 0 (b !! j)) 15))).
Proof.
  induction n as [|n IH]; intros hs i Hlen; simpl.
  { split_and!; [done|done|lia]. }
  set (hs1 := <[(i * 2)%nat := _]> (<[(i * 2 + 1)%nat := _]> hs)).
  assert (length hs1 = length hs) as Hl1 by (unfold hs1; by rewrite !length_insert).
  destruct (IH hs1 (S i)) as (Hl & Hout & Hin); [lia|].
  split; [lia|]. split.
  - intros k Hk. rewrite Hout by lia. unfold hs1.
    by rewrite !list_lookup_insert_ne by lia.
  - intros j Hj. destruct (decide (j = i)) as [->|Hne]; [|apply Hin; lia].
    rewrite !Hout by lia. unfold hs1. split.
    + apply list_lookup_insert_eq. rewrite length_insert. lia.
    + rewrite list_lookup_insert_ne by lia. apply list_lookup_insert_eq. lia.
Qed.

Lemma hs2b_loop_spec b hs n : ∀ out i,
  (i + n <= length b)%nat → (i + n <= length out)%nat →
  Forall (in_range 8) b →
  (∀ j, (i <= j < i + n)%nat →
    hs !! (j * 2)%nat = Some (tee_b2hs_add_base (Z.shiftr (default 0 (b !! j)) 4)) ∧
    hs !! (j * 2 + 1)%nat = Some (tee_b2hs_add_base (Z.land (default 0 (b !! j)) 15))) →
  hs2b_loop hs out i n = Some (take i out ++ take n (drop i b) ++ drop (i + n) out).
Proof.
  induction n as [|n IH]; intros out i Hb Ho Hbytes Hhs; simpl.
  { rewrite Nat.add_0_r. by rewrite take_drop. }
  destruct (Hhs i) as [Hhi Hlo]; [lia|]. rewrite Hhi, Hlo. simpl.
  destruct (lookup_lt_is_Some_2 b i) as [x Hx]; [lia|]. rewrite Hx. simpl.
  pose proof (Forall_lookup_1 _ _ _ _ Hbytes Hx) as Hbyte.
  destruct (nibbles x Hbyte) as (Hh & Hl & Hsum).
  rewrite !rem_base_add_base by done. simpl. rewrite Hsum.
  rewrite IH; [|lia|rewrite length_insert; lia|done|intros; apply Hhs; lia].
  f_equal. rewrite (take_S_r _ _ x) by (apply list_lookup_insert_eq; lia).
  rewrite take_insert_ge by lia. rewrite drop_insert_lt by lia.
  rewrite (drop_S b x i) by done. simpl.
  rewrite <- app_assoc. simpl. by replace (i + S n)%nat with (S i + n)%nat by lia.
Qed.

(** ** Memory areas: lemmas *)

(** What the wrap-around test accepts: non-empty areas that end within the
    address space. *)
Lemma is_valid_conf_spec b bl a al :
  in_range 64 b → in_range 64 bl → in_range 64 a → in_range 64 al →
  is_valid_conf_and_notnull_size b bl a al = true ↔
  (0 < bl ∧ b + bl <= 2 ^ 64) ∧ (0 < al ∧ a + al <= 2 ^ 64).
Proof.
  intros Hb Hbl Ha Hal. unfold is_valid_conf_and_notnull_size, in_range in *.
  assert (∀ x l, 0 <= x < 2 ^ 64 → 0 < l < 2 ^ 64 →
    (wrap 64 (wrap 64 (x - 1) + l) <? x) = (2 ^ 64 <? x + l)) as Hw.
  { intros x l Hx Hl. unfold wrap. rewrite Z.add_mod_idemp_l by lia.
    destruct (Z.ltb_spec (2 ^ 64) (x + l)) as [Hlt|Hge].
    - replace (x - 1 + l) with (x + l - 1 - 2 ^ 64 + 1 * 2 ^ 64) by lia.
      rewrite Z.mod_add, Z.mod_small by lia. apply Z.ltb_lt. lia.
    - rewrite Z.mod_small by lia. apply Z.ltb_ge. lia. }
  destruct (decide (bl = 0)) as [->|Hbl0].
  { simpl. destruct (_ || _); (split; [done|lia]). }
  destruct (decide (al = 0)) as [->|Hal0].
  { simpl. rewrite orb_true_r. destruct (_ || _); (split; [done|lia]). }
  rewrite !Hw by lia. rewrite (proj2 (Z.eqb_neq bl 0)), (proj2 (Z.eqb_neq al 0)) by done.
  destruct (Z.ltb_spec (2 ^ 64) (b + bl)), (Z.ltb_spec (2 ^ 64) (a + al)); simpl;
    (split; [done || lia|lia]).
Qed.

Lemma wrap_last x l :
  in_range 64 x → 0 < l → x + l <= 2 ^ 64 →
  wrap 64 (wrap 64 (x - 1) + l) = x + l - 1 ∧ wrap 64 (wrap 64 (x + l) - 1) = x + l - 1.
Proof.
  unfold in_range, wrap. intros. rewrite Z.add_mod_idemp_l, Zminus_mod_idemp_l by lia.
  rewrite !Z.mod_small; lia.
Qed.

(** ** Properties *)

(** For any two areas of the 64-bit physical address space,
    core_is_buffer_inside, _outside and _intersect answer false when either area
    is empty or wraps around the end of the address space; otherwise they decide,
    in terms of the exact (unbounded) addresses, that every byte of [b] is in
    [a], that no byte is, and that some byte is. *)
Lemma core_is_buffer_spec b bl a al :
  in_range 64 b → in_range 64 bl → in_range 64 a → in_range 64 al →
  let proper := (0 < bl ∧ b + bl <= 2 ^ 64) ∧ (0 < al ∧ a + al <= 2 ^ 64) in
  let in_b x := b <= x < b + bl in
  let in_a x := a <= x < a + al in
  (core_is_buffer_inside b bl a al = true ↔ proper ∧ ∀ x, in_b x → in_a x) ∧
  (core_is_buffer_outside b bl a al = true ↔ proper ∧ ∀ x, in_b x → ¬ in_a x) ∧
  (core_is_buffer_intersect b bl a al = true ↔ proper ∧ ∃ x, in_b x ∧ in_a x).
Proof.
  intros Hb Hbl Ha Hal proper in_b in_a.
  pose proof (is_valid_conf_spec b bl a al Hb Hbl Ha Hal) as Hvalid. fold proper in Hvalid.
  unfold core_is_buffer_inside, core_is_buffer_outside, core_is_buffer_intersect.
  destruct (is_valid_conf_and_notnull_size b bl a al) eqn:Hv; simpl.
  2:{ assert (¬ proper) as Hnp by (intros Hp; by apply Hvalid in Hp). naive_solver. }
  assert (proper) as Hp by (by apply Hvalid). clear Hvalid.
  destruct Hp as [[Hbl0 Hb1] [Hal0 Ha1]] eqn:HP. clear HP.
  destruct (wrap_last b bl Hb Hbl0 Hb1) as [-> ->].
  destruct (wrap_last a al Ha Hal0 Ha1) as [-> ->].
  split; [|split].
  - rewrite andb_true_iff, !Z.leb_le. subst in_a in_b. simpl. split.
    + intros []. split; [done|]. lia.
    + intros [_ Hall]. pose proof (Hall b). pose proof (Hall (b + bl - 1)). lia.
  - rewrite orb_true_iff, !Z.ltb_lt. subst in_a in_b. simpl. split.
    + intros Hor. split; [done|]. lia.
    + intros [_ Hall]. pose proof (Hall (Z.max a b)). lia.
  - assert ((b + bl - 1 <? a) || (a + al - 1 <? b) = false ↔ ∃ x, in_b x ∧ in_a x) as Hx.
    { rewrite orb_false_iff, !Z.ltb_ge. subst in_a in_b. simpl. split.
      - intros []. exists (Z.max a b). lia.
      - intros (x & ? & ?). lia. }
    destruct (_ || _); naive_solver.
Qed.

(** Converting a buffer of bytes to a hexadecimal string and back gives
    the buffer: tee_b2hs writes a terminated string of two characters a byte, and
    tee_hs2b of that string restores the bytes and leaves the rest of its output
    buffer alone. *)
Lemma tee_hs2b_b2hs b hs out :
  Forall (in_range 8) b →
  Z.of_nat (length b) < 2 ^ 30 →
  (2 * length b + 1 <= length hs)%nat → Z.of_nat (length hs) < 2 ^ 32 →
  (length b <= length out)%nat →
  let '(n, str) := tee_b2hs b hs (Z.of_nat (length b)) (Z.of_nat (length hs)) in
  n = 2 * Z.of_nat (length b) ∧ length str = length hs ∧
  str !! (2 * length b)%nat = Some 0 ∧
  tee_hs2b str out n (Z.of_nat (length out)) =
    (Z.of_nat (length b), Some (b ++ drop (length b) out)).
Proof.
  intros Hb Hsmall Hhs Hhs32 Hout. unfold tee_b2hs.
  rewrite !(wrap_small 32) by (unfold wrap, in_range; rewrite ?Z.mod_small by lia; lia).
  rewrite (proj2 (Z.ltb_ge _ _)) by lia. rewrite Nat2Z.id.
  replace (Z.to_nat (Z.of_nat (length b) * 2)) with (2 * length b)%nat by lia.
  destruct (b2hs_loop_spec b (length b) hs 0) as (Hl & _ & Hin); [lia|].
  split; [lia|]. split; [by rewrite length_insert|].
  split; [apply list_lookup_insert_eq; lia|].
  unfold tee_hs2b, TEE_HS2B_BBUF_SIZE.
  rewrite wrap_small by (unfold in_range; lia).
  rewrite Z.shiftr_div_pow2 by lia. change (2 ^ 1) with 2.
  replace ((Z.of_nat (length b) * 2 + 1) / 2) with (Z.of_nat (length b))
    by (apply (Z.div_unique _ _ _ 1); lia).
  rewrite (proj2 (Z.ltb_ge _ _)) by lia. rewrite Nat2Z.id.
  rewrite (hs2b_loop_spec b).
  - rewrite drop_0, take_0, Nat.add_0_l. simpl. by rewrite take_ge by lia.
  - lia.
  - lia.
  - done.
  - intros j Hj. rewrite !list_lookup_insert_ne by lia. apply Hin. lia.
Qed.

