(* ===== verification/Uuid.v ===== *)
(** * UUIDs (core/tee/uuid.c, lib/libutee/tee_uuid_from_str.c)

    The three representations of a [TEE_UUID]: the struct, its 16 octets (big
    endian, as in the messages of the normal world) and its string. *)
From S2P Require Import Prelude.
Local Open Scope Z_scope.

Record TEE_UUID := MkUuid {
  timeLow : Z; timeMid : Z; timeHiAndVersion : Z; clockSeqAndNode : list Z
}.

#[global] Instance TEE_UUID_eq_dec : EqDecision TEE_UUID.
Proof. solve_decision. Defined.

Definition uuid_wf (u : TEE_UUID) : Prop :=
  in_range 32 (timeLow u) ∧ in_range 16 (timeMid u) ∧
  in_range 16 (timeHiAndVersion u) ∧
  length (clockSeqAndNode u) = 8%nat ∧ Forall (in_range 8) (clockSeqAndNode u).

(** ** Octets *)

Definition tee_uuid_to_octets (s : TEE_UUID) : list Z :=
  [ wrap 8 (Z.shiftr (timeLow s) 24); wrap 8 (Z.shiftr (timeLow s) 16);
    wrap 8 (Z.shiftr (timeLow s) 8); wrap 8 (timeLow s);
    wrap 8 (Z.shiftr (timeMid s) 8); wrap 8 (timeMid s);
    wrap 8 (Z.shiftr (timeHiAndVersion s) 8); wrap 8 (timeHiAndVersion s) ]
  ++ clockSeqAndNode s.

Definition SHIFT_U32 (v s : Z) : Z := wrap 32 (Z.shiftl (wrap 32 v) s).

Definition tee_uuid_from_octets (s : list Z) : TEE_UUID :=
  let b i := default 0 (s !! i%nat) in
  MkUuid
    (Z.lor (Z.lor (Z.lor (SHIFT_U32 (b 0%nat) 24) (SHIFT_U32 (b 1%nat) 16))
                  (SHIFT_U32 (b 2%nat) 8)) (b 3%nat))
    (wrap 16 (Z.lor (SHIFT_U32 (b 4%nat) 8) (b 5%nat)))
    (wrap 16 (Z.lor (SHIFT_U32 (b 6%nat) 8) (b 7%nat)))
    (take 8 (drop 8 s)).

(** ** Strings *)

Definition isdigit (c : Z) : bool := (48 <=? c) && (c <=? 57).
Definition isxdigit (c : Z) : bool :=
  isdigit c || ((65 <=? c) && (c <=? 70)) || ((97 <=? c) && (c <=? 102)).
Definition tolower (c : Z) : Z := if (65 <=? c) && (c <=? 90) then c - 65 + 97 else c.

Definition hex (c : Z) : Z :=
  let lc := tolower c in
  if isdigit lc then lc - 48 else if isxdigit lc then lc - 97 + 10 else -1.

(** The loop of parse_hex at character [n] with value [v], [k] to go. *)
Fixpoint parse_hex_loop (s : list Z) (n k : nat) (v : Z) : outcome tee_result Z :=
  match k with
  | O => Ok v
  | S k =>
      let c := hex (default 0 (s !! n)) in
      if c =? -1 then Err TEE_ERROR_BAD_FORMAT
      else parse_hex_loop s (S n) k (wrap 32 (wrap 32 (Z.shiftl v 4) + c))
  end.

Definition parse_hex (s : list Z) (nchars : nat) : outcome tee_result Z :=
  parse_hex_loop s 0 nchars 0.

Fixpoint strnlen (s : list Z) (max : nat) : nat :=
  match max with
  | O => 0
  | S max => match s with
             | [] => 0
             | c :: s => if c =? 0 then 0 else S (strnlen s max)
             end
  end.

(** The loop over clockSeqAndNode at index [i], [k] to go, reading from [p]. *)
Fixpoint parse_node (p : list Z) (i k : nat) : outcome tee_result (list Z) :=
  match k with
  | O => Ok []
  | S k =>
      v ← parse_hex p 2;
      rest ← parse_node (drop (if (i =? 1)%nat then 3 else 2) p) (S i) k;
      Ok (wrap 8 v :: rest)
  end.

(** [s] is the memory at the string pointer, [None] a NULL pointer. *)
Definition tee_uuid_from_str (s : option (list Z)) : outcome tee_result TEE_UUID :=
  match s with
  | None => Err TEE_ERROR_BAD_FORMAT
  | Some p =>
      if negb (strnlen p 37 =? 36)%nat then Err TEE_ERROR_BAD_FORMAT
      else
        let at_ i := default 0 (p !! i%nat) in
        if negb (at_ 8%nat =? 45) || negb (at_ 13%nat =? 45)
           || negb (at_ 18%nat =? 45) || negb (at_ 23%nat =? 45)
        then Err TEE_ERROR_BAD_FORMAT
        else
          lo ← parse_hex p 8;
          let p := drop 9 p in
          mid ← parse_hex p 4;
          let p := drop 5 p in
          hi ← parse_hex p 4;
          let p := drop 5 p in
          node ← parse_node p 0 8;
          Ok (MkUuid lo (wrap 16 mid) (wrap 16 hi) node)
  end.

(** [%0<n>x] of printf for a value of at most [n] digits. *)
Definition hexdigit (d : Z) : Z := if d <? 10 then 48 + d else 97 + (d - 10).
Fixpoint hexw (n : nat) (v : Z) : list Z :=
  match n with
  | O => []
  | S n => hexw n (v / 16) ++ [hexdigit (v mod 16)]
  end.

(** The format string of uuid2str(). *)
Definition uuid2str (u : TEE_UUID) : list Z :=
  let seq_n i := default 0 (clockSeqAndNode u !! i%nat) in
  hexw 8 (timeLow u) ++ [45] ++ hexw 4 (timeMid u) ++ [45]
  ++ hexw 4 (timeHiAndVersion u) ++ [45]
  ++ hexw 2 (seq_n 0%nat) ++ hexw 2 (seq_n 1%nat) ++ [45]
  ++ hexw 2 (seq_n 2%nat) ++ hexw 2 (seq_n 3%nat) ++ hexw 2 (seq_n 4%nat)
  ++ hexw 2 (seq_n 5%nat) ++ hexw 2 (seq_n 6%nat) ++ hexw 2 (seq_n 7%nat).

(** ** Lemmas *)

(** Splitting a value into its high part and its low byte, and back. *)
Lemma u8_split v : wrap 8 v = v mod 256.
Proof. done. Qed.

Lemma hexdigit_hex d : 0 <= d < 16 → hex (hexdigit d) = d.
Proof. revert d. apply (forall_below (λ d, hex (hexdigit d) = d)). vm_compute. reflexivity. Qed.

Lemma hexdigit_nonzero d : 0 <= d < 16 → hexdigit d ≠ 0.
Proof. revert d. apply (forall_below (λ d, hexdigit d ≠ 0)). vm_compute. reflexivity. Qed.

Lemma length_hexw n : ∀ v, length (hexw n v) = n.
Proof. induction n as [|n IH]; intros v; simpl; [done|]. rewrite length_app, IH. simpl. lia. Qed.

Lemma hexw_nonzero n : ∀ v, Forall (λ c, c ≠ 0) (hexw n v).
Proof.
  induction n as [|n IH]; intros v; simpl; [constructor|].
  apply Forall_app. split; [apply IH|]. constructor; [|constructor].
  apply hexdigit_nonzero. by apply Z.mod_pos_bound.
Qed.

Lemma parse_hex_loop_app s k1 : ∀ n k2 v,
  parse_hex_loop s n (k1 + k2) v =
  (parse_hex_loop s n k1 v ≫= parse_hex_loop s (n + k1) k2).
Proof.
  induction k1 as [|k1 IH]; intros n k2 v; simpl; [by rewrite Nat.add_0_r|].
  destruct (_ =? _); [done|]. rewrite IH. by rewrite Nat.add_succ_comm.
Qed.

Lemma parse_hex_loop_hexw s n : ∀ v i,
  0 <= v < 16 ^ Z.of_nat n → (n <= 8)%nat →
  (∀ j, (j < n)%nat → s !! (i + j)%nat = hexw n v !! j) →
  parse_hex_loop s i n 0 = Ok v.
Proof.
  induction n as [|n IH]; intros v i Hv Hn Hs.
  { simpl. f_equal. change (16 ^ Z.of_nat 0) with 1 in Hv. lia. }
  replace (S n) with (n + 1)%nat by lia. rewrite parse_hex_loop_app.
  rewrite Nat2Z.inj_succ, Z.pow_succ_r in Hv by lia.
  rewrite (IH (v / 16)); [|split; [apply Z.div_pos; lia|apply Z.div_lt_upper_bound; lia]|lia|].
  2:{ intros j Hj. rewrite Hs by lia. simpl. by rewrite lookup_app_l by (rewrite length_hexw; lia). }
  unfold mbind, outcome_bind. simpl. rewrite (Hs n) by lia. simpl.
  rewrite lookup_app_r by (rewrite length_hexw; lia). rewrite length_hexw, Nat.sub_diag. simpl.
  pose proof (Z.mod_pos_bound v 16 ltac:(lia)) as Hm.
  rewrite hexdigit_hex by lia. rewrite (proj2 (Z.eqb_neq _ _)) by lia. f_equal.
  assert (16 ^ Z.of_nat n <= 16 ^ 7) by (apply Z.pow_le_mono_r; lia).
  change (16 ^ 7) with 268435456 in *.
  assert (v / 16 < 268435456) by (apply Z.div_lt_upper_bound; lia).
  assert (0 <= v / 16) by (apply Z.div_pos; lia).
  pose proof (Z.div_mod v 16 ltac:(lia)).
  rewrite Z.shiftl_mul_pow2 by lia. change (2 ^ 4) with 16.
  rewrite !wrap_small; unfold in_range; change (2 ^ 32) with 4294967296;
    rewrite ?wrap_small; unfold in_range; change (2 ^ 32) with 4294967296; lia.
Qed.

Lemma parse_hex_hexw n v rest :
  0 <= v < 16 ^ Z.of_nat n → (n <= 8)%nat → parse_hex (hexw n v ++ rest) n = Ok v.
Proof.
  intros Hv Hn. apply parse_hex_loop_hexw; [done|done|]. intros j Hj.
  by rewrite lookup_app_l by (rewrite length_hexw; lia).
Qed.

Lemma strnlen_nonzero s : ∀ max rest,
  Forall (λ c, c ≠ 0) s → (length s < max)%nat → strnlen (s ++ 0 :: rest) max = length s.
Proof.
  induction s as [|c s IH]; intros [|max] rest Hs Hmax; simpl in *; try lia.
  apply Forall_cons in Hs as [Hc Hs]. rewrite (proj2 (Z.eqb_neq _ _)) by done.
  f_equal. apply IH; [done|lia].
Qed.

Lemma drop_hexw n v k rest : drop (n + k) (hexw n v ++ rest) = drop k rest.
Proof. rewrite drop_app, length_hexw, drop_ge by (rewrite length_hexw; lia). simpl. f_equal. lia. Qed.

Lemma drop_hexw_sep n v c rest : drop (S n) (hexw n v ++ c :: rest) = rest.
Proof. by rewrite <- Nat.add_1_r, drop_hexw. Qed.

Lemma parse_node_step x p i k :
  in_range 8 x →
  parse_node (hexw 2 x ++ p) i (S k) =
  (rest ← parse_node (drop (if (i =? 1)%nat then 1 else 0) p) (S i) k; Ok (x :: rest)).
Proof.
  intros Hx. cbn [parse_node]. rewrite parse_hex_hexw; [|exact Hx|lia].
  unfold mbind at 1, outcome_bind at 1.
  replace (drop (if (i =? 1)%nat then 3 else 2) (hexw 2 x ++ p))
    with (drop (if (i =? 1)%nat then 1 else 0) p).
  - by rewrite wrap_small by done.
  - destruct (i =? 1)%nat; [exact (eq_sym (drop_hexw 2 x 1 p))|exact (eq_sym (drop_hexw 2 x 0 p))].
Qed.

Lemma be32 a b c d :
  0 <= b < 256 → 0 <= c < 256 → 0 <= d < 256 →
  Z.lor (Z.lor (Z.lor (Z.shiftl a 24) (Z.shiftl b 16)) (Z.shiftl c 8)) d =
  a * 2 ^ 24 + b * 2 ^ 16 + c * 2 ^ 8 + d.
Proof.
  intros Hb Hc Hd.
  replace (Z.shiftl a 24) with (Z.shiftl (Z.shiftl a 8) 16) by (by rewrite Z.shiftl_shiftl by lia).
  rewrite <- Z.shiftl_lor, (lor_shiftl a b 8) by lia.
  replace (Z.shiftl (a * 2 ^ 8 + b) 16) with (Z.shiftl (Z.shiftl (a * 2 ^ 8 + b) 8) 8)
    by (by rewrite Z.shiftl_shiftl by lia).
  rewrite <- Z.shiftl_lor, !lor_shiftl by lia. lia.
Qed.

Lemma SHIFT_U32_byte b k :
  in_range 8 b → 0 <= k <= 24 → SHIFT_U32 b k = Z.shiftl b k.
Proof.
  intros [Hb0 Hb1] Hk. change (2 ^ 8) with 256 in Hb1. unfold SHIFT_U32.
  rewrite (wrap_small 32 b) by (split; [lia|change (2 ^ 32) with 4294967296; lia]).
  apply wrap_small. rewrite Z.shiftl_mul_pow2 by lia.
  assert (2 ^ k <= 2 ^ 24) by (apply Z.pow_le_mono_r; lia).
  pose proof (Z.pow_pos_nonneg 2 k). split; [nia|].
  change (2 ^ 32) with (256 * 2 ^ 24). nia.
Qed.

Lemma byte_ix (s : list Z) i : Forall (in_range 8) s → in_range 8 (default 0 (s !! i)).
Proof.
  intros Hs. destruct (s !! i) as [x|] eqn:Hx; simpl; [by eapply Forall_lookup_1|].
  split; [lia|reflexivity].
Qed.

Lemma split32 v :
  in_range 32 v →
  wrap 8 (Z.shiftr v 24) * 2 ^ 24 + wrap 8 (Z.shiftr v 16) * 2 ^ 16
  + wrap 8 (Z.shiftr v 8) * 2 ^ 8 + wrap 8 v = v.
Proof.
  intros [Hv0 Hv1]. rewrite !Z.shiftr_div_pow2, !u8_split by lia.
  change (2 ^ 24) with (256 * (256 * 256)). change (2 ^ 16) with (256 * 256).
  change (2 ^ 8) with 256. change (2 ^ 32) with (256 * 256 * 256 * 256) in Hv1.
  rewrite <- !Z.div_div by lia.
  assert (0 <= v / 256 / 256 / 256 < 256).
  { rewrite !Z.div_div by lia. split; [apply Z.div_pos; lia|apply Z.div_lt_upper_bound; lia]. }
  rewrite (Z.mod_small (v / 256 / 256 / 256)) by lia.
  pose proof (Z.div_mod v 256). pose proof (Z.div_mod (v / 256) 256).
  pose proof (Z.div_mod (v / 256 / 256) 256). lia.
Qed.

Lemma split16 v :
  in_range 16 v → wrap 8 (Z.shiftr v 8) * 2 ^ 8 + wrap 8 v = v.
Proof.
  intros [Hv0 Hv1]. rewrite !Z.shiftr_div_pow2, !u8_split by lia.
  change (2 ^ 8) with 256. change (2 ^ 16) with (256 * 256) in Hv1.
  assert (0 <= v / 256 < 256).
  { split; [apply Z.div_pos; lia|apply Z.div_lt_upper_bound; lia]. }
  rewrite (Z.mod_small (v / 256)) by lia. pose proof (Z.div_mod v 256). lia.
Qed.

Lemma unsplit8 a b : in_range 8 a → in_range 8 b →
  wrap 8 (Z.shiftr (a * 2 ^ 8 + b) 8) = a ∧ wrap 8 (a * 2 ^ 8 + b) = b.
Proof.
  unfold in_range. change (2 ^ 8) with 256. intros Ha Hb.
  rewrite Z.shiftr_div_pow2, !u8_split by lia. change (2 ^ 8) with 256.
  rewrite Z.div_add_l, (Z.div_small b), Z.add_0_r, Z.mod_small by lia. split; [done|].
  rewrite Z.add_comm, Z.mod_add, Z.mod_small by lia. done.
Qed.

Lemma unsplit32 a b c d :
  in_range 8 a → in_range 8 b → in_range 8 c → in_range 8 d →
  let v := a * 2 ^ 24 + b * 2 ^ 16 + c * 2 ^ 8 + d in
  wrap 8 (Z.shiftr v 24) = a ∧ wrap 8 (Z.shiftr v 16) = b ∧
  wrap 8 (Z.shiftr v 8) = c ∧ wrap 8 v = d.
Proof.
  intros Ha Hb Hc Hd v. unfold in_range in *. change (2 ^ 8) with 256 in *.
  assert (∀ k x y, 0 <= k → 0 <= y < 2 ^ k → Z.shiftr (x * 2 ^ k + y) k = x) as Hsh.
  { intros k x y Hk Hy. rewrite Z.shiftr_div_pow2, Z.div_add_l, Z.div_small by lia. lia. }
  assert (∀ x y, 0 <= y < 256 → wrap 8 (x * 256 + y) = y) as Hlow.
  { intros x y Hy. rewrite u8_split, Z.add_comm, Z.mod_add, Z.mod_small by lia. done. }
  replace v with (a * 2 ^ 24 + (b * 2 ^ 16 + c * 2 ^ 8 + d)) at 1 by lia.
  replace v with ((a * 256 + b) * 2 ^ 16 + (c * 2 ^ 8 + d)) at 1 by lia.
  replace v with (((a * 256 + b) * 256 + c) * 2 ^ 8 + d) by lia.
  rewrite !Hsh by lia. change (2 ^ 8) with 256. rewrite !Hlow by lia.
  by rewrite (wrap_small 8 a) by done.
Qed.

Lemma octets_from_fields s :
  Forall (in_range 8) s →
  let b i := default 0 (s !! i) in
  timeLow (tee_uuid_from_octets s) = b 0%nat * 2 ^ 24 + b 1%nat * 2 ^ 16 + b 2%nat * 2 ^ 8 + b 3%nat ∧
  timeMid (tee_uuid_from_octets s) = b 4%nat * 2 ^ 8 + b 5%nat ∧
  timeHiAndVersion (tee_uuid_from_octets s) = b 6%nat * 2 ^ 8 + b 7%nat.
Proof.
  intros Hs b. assert (∀ i, in_range 8 (b i)) as Hb by (intros i; by apply byte_ix).
  cbv beta zeta iota delta [timeLow timeMid timeHiAndVersion tee_uuid_from_octets].
  fold (b 0%nat) (b 1%nat) (b 2%nat) (b 3%nat)
    (b 4%nat) (b 5%nat) (b 6%nat) (b 7%nat).
  clearbody b. rewrite !SHIFT_U32_byte by (first [apply Hb|lia]).
  unfold in_range in Hb. change (2 ^ 8) with 256 in Hb.
  rewrite be32 by apply Hb. split; [done|].
  pose proof (Hb 4%nat). pose proof (Hb 5%nat). pose proof (Hb 6%nat). pose proof (Hb 7%nat).
  assert (∀ i j, Z.lor (Z.shiftl (b i) 8) (b j) = b i * 2 ^ 8 + b j) as Hor
    by (intros i j; apply lor_shiftl; [lia|apply Hb]).
  rewrite !Hor. change (2 ^ 8) with 256.
  rewrite !wrap_small by (unfold in_range; change (2 ^ 16) with 65536; lia). done.
Qed.

(** ** Properties *)

(** Tee_uuid_from_str inverts the "%pUl" format: every UUID printed by
    uuid2str() is accepted and parsed back to itself, whatever follows the
    terminator in memory. *)
Lemma tee_uuid_from_str_uuid2str u junk :
  uuid_wf u → tee_uuid_from_str (Some (uuid2str u ++ 0 :: junk)) = Ok u.
Proof.
  intros (Hlo & Hmid & Hhi & Hlen & Hnode). destruct u as [lo mid hi node].
  simpl in Hlo, Hmid, Hhi, Hlen, Hnode.
  do 9 (destruct node as [|? node]; simpl in Hlen; try lia).
  repeat match goal with H : Forall _ (_ :: _) |- _ => apply Forall_cons in H as [? H] end.
  assert (Forall (λ c, c ≠ 0) (uuid2str (MkUuid lo mid hi [z; z0; z1; z2; z3; z4; z5; z6]))) as Hnz.
  { unfold uuid2str. simpl timeLow. simpl timeMid. simpl timeHiAndVersion.
    repeat (apply Forall_app; split; [first [apply hexw_nonzero|repeat constructor; done]|]).
    apply hexw_nonzero. }
  unfold tee_uuid_from_str. rewrite strnlen_nonzero; [|done|simpl; lia].
  unfold uuid2str. cbn [timeLow timeMid timeHiAndVersion clockSeqAndNode lookup list_lookup default].
  match goal with |- context [negb (length ?l =? 36)%nat] =>
    replace (length l) with 36%nat by reflexivity end.
  change (negb (36 =? 36)%nat) with false. cbv beta iota zeta.
  match goal with |- (if ?b then _ else _) = _ => replace b with false by reflexivity end.
  rewrite <- !app_assoc.
  cbn [app].
  rewrite parse_hex_hexw, bind_Ok, (drop_hexw_sep 8); [|done|lia].
  rewrite parse_hex_hexw, bind_Ok, (drop_hexw_sep 4); [|done|lia].
  rewrite parse_hex_hexw, bind_Ok, (drop_hexw_sep 4); [|done|lia].
  do 8 (rewrite parse_node_step; [|done]; cbn [Nat.eqb]; cbn [skipn]; rewrite ?drop_0).
  cbn [parse_node]. rewrite !bind_Ok, !wrap_small by done. done.
Qed.

(** Tee_uuid_to_octets and tee_uuid_from_octets are inverse bijections
    between well-formed UUIDs and strings of 16 octets. *)
Lemma tee_uuid_octets_bijection :
  (∀ u, uuid_wf u →
    length (tee_uuid_to_octets u) = 16%nat ∧ Forall (in_range 8) (tee_uuid_to_octets u) ∧
    tee_uuid_from_octets (tee_uuid_to_octets u) = u) ∧
  (∀ s, length s = 16%nat → Forall (in_range 8) s →
    uuid_wf (tee_uuid_from_octets s) ∧ tee_uuid_to_octets (tee_uuid_from_octets s) = s).
Proof.
  split.
  - intros u (Hlo & Hmid & Hhi & Hlen & Hnode).
    assert (length (tee_uuid_to_octets u) = 16%nat) as Hl
      by (unfold tee_uuid_to_octets; rewrite length_app, Hlen; done).
    assert (Forall (in_range 8) (tee_uuid_to_octets u)) as Hf.
    { unfold tee_uuid_to_octets. apply Forall_app. split; [|done].
      repeat (constructor; [by apply wrap_range|]). constructor. }
    split; [done|]. split; [done|].
    destruct (octets_from_fields _ Hf) as (H1 & H2 & H3).
    destruct u as [lo mid hi node]. simpl in Hlo, Hmid, Hhi, Hlen, Hnode.
    destruct (tee_uuid_from_octets _) as [lo' mid' hi' node'] eqn:Hu.
    simpl in H1, H2, H3. f_equal.
    + by rewrite H1, split32.
    + by rewrite H2, split16.
    + by rewrite H3, split16.
    + apply (f_equal clockSeqAndNode) in Hu. simpl in Hu. rewrite <- Hu.
      by rewrite drop_0, take_ge by lia.
  - intros s Hlen Hs.
    do 17 (destruct s as [|? s]; simpl in Hlen; try lia).
    destruct (octets_from_fields _ Hs) as (H1 & H2 & H3).
    repeat match goal with H : Forall _ (_ :: _) |- _ => apply Forall_cons in H as [? H] end.
    set (u := tee_uuid_from_octets _) in *.
    assert (clockSeqAndNode u = [z7; z8; z9; z10; z11; z12; z13; z14]) as Hnode by done.
    clearbody u. destruct u as [lo mid hi node].
    cbn [timeLow timeMid timeHiAndVersion clockSeqAndNode lookup list_lookup default] in *.
    unfold id in *. subst. split.
    + unfold uuid_wf, in_range in *. cbn [timeLow timeMid timeHiAndVersion clockSeqAndNode].
      split; [lia|]. split; [lia|]. split; [lia|]. split; [done|].
      repeat (constructor; [done|]). constructor.
    + unfold tee_uuid_to_octets. cbn [timeLow timeMid timeHiAndVersion clockSeqAndNode app].
      destruct (unsplit8 z3 z4) as [-> ->]; [done|done|].
      destruct (unsplit8 z5 z6) as [-> ->]; [done|done|].
      by destruct (unsplit32 z z0 z1 z2) as (-> & -> & -> & ->).
Qed.

