(* ===== verification/Base64.v ===== *)
(** * lib/libutee/base64.c: base64 encoding and decoding

    Bytes and characters are [Z] in [0, 256); a buffer is the list of its bytes
    and is updated by index. *)
From S2P Require Import Prelude.

Local Open Scope Z_scope.

Definition base64_table : list Z :=
  (seqZ 65 26 ++ seqZ 97 26 ++ seqZ 48 10 ++ [43; 47])%Z.

Definition tbl (i : Z) : Z := default 0 (base64_table !! Z.to_nat i).

Definition _base64_enc_len (size : Z) : Z :=
  wrap 64 (wrap 64 (4 * (wrap 64 (size + 2) / 3)) + 1).

Fixpoint base64_enc_loop (d buf : list Z) (n boffs fuel : nat) : list Z * nat :=
  match fuel with
  | O => (buf, boffs)
  | S fuel =>
    if bool_decide (n < length d)%nat then
      let igrp := default 0 (d !! n) in
      let igrp := wrap 32 (Z.shiftl igrp 8) in
      let igrp := if bool_decide (n + 1 < length d)%nat
                  then Z.lor igrp (default 0 (d !! (n + 1)%nat)) else igrp in
      let igrp := wrap 32 (Z.shiftl igrp 8) in
      let igrp := if bool_decide (n + 2 < length d)%nat
                  then Z.lor igrp (default 0 (d !! (n + 2)%nat)) else igrp in
      let buf := <[boffs := tbl (Z.land (Z.shiftr igrp 18) 0x3f)]> buf in
      let buf := <[(boffs + 1)%nat := tbl (Z.land (Z.shiftr igrp 12) 0x3f)]> buf in
      let buf := if bool_decide (n + 1 < length d)%nat
                 then <[(boffs + 2)%nat := tbl (Z.land (Z.shiftr igrp 6) 0x3f)]> buf
                 else <[(boffs + 2)%nat := 61]> buf in
      let buf := if bool_decide (n + 2 < length d)%nat
                 then <[(boffs + 3)%nat := tbl (Z.land igrp 0x3f)]> buf
                 else <[(boffs + 3)%nat := 61]> buf in
      base64_enc_loop d buf (n + 3) (boffs + 4) fuel
    else (buf, boffs)
  end.

(** Returns the result, the buffer and the updated [*blen]. *)
Definition _base64_enc (d buf : list Z) (blen : Z) : bool * list Z * Z :=
  let n := _base64_enc_len (Z.of_nat (length d)) in
  if blen <? n then (false, buf, n)
  else
    let '(buf, boffs) := base64_enc_loop d buf 0 0 (length d) in
    (true, <[boffs := 0]> buf, Z.of_nat (boffs + 1)).

Fixpoint find_idx (ch : Z) (table : list Z) (n : Z) : option Z :=
  match table with
  | [] => None
  | c :: table => if ch =? c then Some n else find_idx ch table (n + 1)
  end.
Definition get_idx (ch : Z) : option Z := find_idx ch base64_table 0.

(** [if (b && m < *blen) b[m] = v] *)
Definition store (b : option (list Z)) (blen m v : Z) : option (list Z) :=
  match b with
  | Some l => if m <? blen then Some (<[Z.to_nat m := wrap 8 v]> l) else b
  | None => None
  end.

(** The loop over the characters [data[n..size)]. *)
Fixpoint base64_dec_loop (data : list Z) (b : option (list Z)) (blen m : Z)
    (s : nat) (byte : Z) : option (list Z) * Z :=
  match data with
  | [] => (b, m)
  | ch :: data =>
    if ch =? 0 then (b, m)
    else if ch =? 61 then (b, m)
    else match get_idx ch with
    | None => base64_dec_loop data b blen m s byte
    | Some idx =>
      match s with
      | 0%nat => base64_dec_loop data b blen m 1 (wrap 8 (Z.shiftl idx 2))
      | 1%nat => base64_dec_loop data (store b blen m (Z.lor byte (Z.shiftr idx 4))) blen
               (m + 1) 2 (wrap 8 (Z.shiftl (Z.land idx 0xf) 4))
      | 2%nat => base64_dec_loop data (store b blen m (Z.lor byte (Z.shiftr idx 2))) blen
               (m + 1) 3 (wrap 8 (Z.shiftl (Z.land idx 0x3) 6))
      | _ => base64_dec_loop data (store b blen m (Z.lor byte idx)) blen (m + 1) 0 byte
      end
    end
  end.

(** Returns the result, the buffer and the updated [*blen]. *)
Definition _base64_dec (data : list Z) (size : Z) (b : option (list Z)) (blen : Z)
    : bool * option (list Z) * Z :=
  let '(b', m) := base64_dec_loop (take (Z.to_nat size) data) b blen 0 0 0 in
  (((m =? 0) && (blen =? 0)) || (bool_decide (is_Some b) && (m <=? blen)), b', m).

(** ** The encoded text *)

Definition grp (a b c : Z) : Z := a * 65536 + b * 256 + c.

Fixpoint enc_text (d : list Z) : list Z :=
  match d with
  | a :: b :: c :: d =>
    tbl (grp a b c / 2 ^ 18 mod 64) :: tbl (grp a b c / 2 ^ 12 mod 64) ::
    tbl (grp a b c / 2 ^ 6 mod 64) :: tbl (grp a b c mod 64) :: enc_text d
  | [a; b] =>
    [tbl (grp a b 0 / 2 ^ 18 mod 64); tbl (grp a b 0 / 2 ^ 12 mod 64);
     tbl (grp a b 0 / 2 ^ 6 mod 64); 61]
  | [a] => [tbl (grp a 0 0 / 2 ^ 18 mod 64); tbl (grp a 0 0 / 2 ^ 12 mod 64); 61; 61]
  | [] => []
  end.

(** Induction over groups of three. *)
Lemma group_ind (P : list Z → Prop) :
  P [] → (∀ a, P [a]) → (∀ a b, P [a; b]) →
  (∀ a b c d, P d → P (a :: b :: c :: d)) → ∀ d, P d.
Proof.
  intros H0 H1 H2 H3. fix IH 1. intros [|a [|b [|c d]]]; [done..|]. apply H3, IH.
Qed.

Lemma length_enc_text d :
  Z.of_nat (length (enc_text d)) = 4 * ((Z.of_nat (length d) + 2) / 3).
Proof.
  induction d as [| | |a b c d IH] using group_ind; [done..|].
  cbn [enc_text length]. rewrite !Nat2Z.inj_succ.
  replace (Z.succ (Z.succ (Z.succ (Z.of_nat (length d)))) + 2)
    with (Z.of_nat (length d) + 2 + 1 * 3) by lia.
  rewrite Z.div_add by lia. lia.
Qed.

Lemma enc_len_text d :
  Z.of_nat (length d) < 2 ^ 60 →
  _base64_enc_len (Z.of_nat (length d)) = Z.of_nat (length (enc_text d)) + 1.
Proof.
  intros. unfold _base64_enc_len. rewrite length_enc_text.
  change (2 ^ 60) with 1152921504606846976 in *.
  rewrite (wrap_small 64 (Z.of_nat (length d) + 2)) by (unfold in_range; lia).
  rewrite (wrap_small 64 (4 * _)) by (unfold in_range; dlia).
  rewrite wrap_small by (unfold in_range; dlia). lia.
Qed.

(** *** The encoder writes the text *)

Lemma igrp_bits a b c :
  in_range 8 a → in_range 8 b → in_range 8 c →
  Z.lor (wrap 32 (Z.shiftl (Z.lor (wrap 32 (Z.shiftl a 8)) b) 8)) c = grp a b c.
Proof.
  unfold in_range, grp. change (2 ^ 8) with 256. intros Ha Hb Hc.
  rewrite (wrap_small 32 (Z.shiftl a 8)); [|unfold in_range; rewrite Z.shiftl_mul_pow2; lia].
  rewrite (lor_shiftl a b 8), (wrap_small 32);
    [|unfold in_range; rewrite Z.shiftl_mul_pow2; lia|lia|lia].
  rewrite lor_shiftl by lia. lia.
Qed.

Lemma igrp_bits2 a b :
  in_range 8 a → in_range 8 b →
  wrap 32 (Z.shiftl (Z.lor (wrap 32 (Z.shiftl a 8)) b) 8) = grp a b 0.
Proof. intros. rewrite <- igrp_bits by (done || by split). by rewrite Z.lor_0_r. Qed.

Lemma igrp_bits1 a :
  in_range 8 a → wrap 32 (Z.shiftl (wrap 32 (Z.shiftl a 8)) 8) = grp a 0 0.
Proof. intros. rewrite <- igrp_bits2 by (done || by split). by rewrite Z.lor_0_r. Qed.

Lemma land_3f v : Z.land v 0x3f = v mod 64.
Proof. apply (Z.land_ones v 6). lia. Qed.

Lemma insert4 (pre rest : list Z) x y z w :
  (4 <= length rest)%nat →
  <[(length pre + 3)%nat := w]> (<[(length pre + 2)%nat := z]>
    (<[(length pre + 1)%nat := y]> (<[length pre := x]> (pre ++ rest)))) =
  (pre ++ [x; y; z; w]) ++ drop 4 rest.
Proof.
  intros Hr. do 4 (destruct rest as [|? rest]; [simpl in Hr; lia|]).
  rewrite <- (Nat.add_0_r (length pre)) at 4. rewrite !insert_app_r, <- app_assoc. done.
Qed.

Lemma enc_loop_text d fuel n pre rest :
  Forall (in_range 8) d → (length d - n <= fuel)%nat →
  (length (enc_text (drop n d)) <= length rest)%nat →
  base64_enc_loop d (pre ++ rest) n (length pre) fuel =
  (pre ++ enc_text (drop n d) ++ drop (length (enc_text (drop n d))) rest,
   (length pre + length (enc_text (drop n d)))%nat).
Proof.
  intros Hd. revert n pre rest. induction fuel as [|fuel IH]; intros n pre rest Hf Hr.
  - rewrite drop_ge by lia. cbn [enc_text length base64_enc_loop app].
    by rewrite drop_0, Nat.add_0_r.
  - cbn [base64_enc_loop]. case_bool_decide as Hn; last first.
    { rewrite drop_ge by lia. cbn [enc_text length app]. by rewrite drop_0, Nat.add_0_r. }
    assert (drop (n + 3) d = drop 3 (drop n d)) as Hdd by (by rewrite drop_drop).
    assert (∀ i, d !! (n + i)%nat = drop n d !! i) as Hix by (intros; by rewrite lookup_drop).
    assert (length (drop n d) = length d - n)%nat as Hlen by apply length_drop.
    assert (Forall (in_range 8) (drop n d)) as Hdr by by apply Forall_drop.
    pose proof (Hix 0%nat) as Hix0. rewrite Nat.add_0_r in Hix0. rewrite Hix0, !Hix.
    assert (∀ k, bool_decide (n + k < length d)%nat = bool_decide (k < length (drop n d))%nat)
      as Hbd by (intros; apply bool_decide_ext; lia).
    rewrite !Hbd. clear Hix Hix0 Hbd.
    assert (4 <= length rest)%nat as Hr4.
    { destruct (drop n d) as [|? [|? [|? ?]]]; simpl in Hr, Hlen; lia. }
    assert (length d - (n + 3) <= fuel)%nat as Hf' by lia.
    assert (length (enc_text (drop (n + 3) d)) <= length (drop 4 rest))%nat as Hr'.
    { rewrite Hdd, length_drop. destruct (drop n d) as [|? [|? [|? ?]]]; simpl in Hr |- *;
        rewrite ?drop_0; lia. }
    destruct (drop n d) as [|a [|b [|c r]]] eqn:Hd3; [simpl in Hlen; lia| | |];
      repeat match goal with H : Forall _ (_ :: _) |- _ => apply Forall_cons in H as [? H] end;
      cbn [length lookup list_lookup default]; unfold id;
      repeat (case_bool_decide; [|try lia]); try lia;
      rewrite ?igrp_bits, ?igrp_bits2, ?igrp_bits1 by done;
      rewrite insert4 by done; rewrite !land_3f, !Z.shiftr_div_pow2 by lia;
      match goal with |- context [?p ++ [?x; ?y; ?z; ?w]] =>
        replace (length p + 4)%nat with (length (p ++ [x; y; z; w]))
          by (rewrite length_app; done) end;
      rewrite (IH _ _ _ Hf' Hr'), Hdd; rewrite <- !app_assoc, length_app;
      cbn [enc_text length app skipn]; rewrite ?drop_0, ?drop_drop;
      cbn [enc_text length app skipn]; f_equal; lia.
Qed.

(** *** The decoder reads it back *)

Lemma get_idx_tbl i : 0 <= i < 64 → get_idx (tbl i) = Some i ∧ tbl i ≠ 0 ∧ tbl i ≠ 61.
Proof. revert i. apply (forall_below (λ i, get_idx (tbl i) = Some i ∧ tbl i ≠ 0 ∧ tbl i ≠ 61)). reflexivity. Qed.

Lemma dec_step i rest b blen m s byte :
  0 <= i < 64 →
  base64_dec_loop (tbl i :: rest) b blen m s byte =
  match s with
  | 0%nat => base64_dec_loop rest b blen m 1 (wrap 8 (Z.shiftl i 2))
  | 1%nat => base64_dec_loop rest (store b blen m (Z.lor byte (Z.shiftr i 4))) blen
           (m + 1) 2 (wrap 8 (Z.shiftl (Z.land i 0xf) 4))
  | 2%nat => base64_dec_loop rest (store b blen m (Z.lor byte (Z.shiftr i 2))) blen
           (m + 1) 3 (wrap 8 (Z.shiftl (Z.land i 0x3) 6))
  | _ => base64_dec_loop rest (store b blen m (Z.lor byte i)) blen (m + 1) 0 byte
  end.
Proof.
  intros Hi. destruct (get_idx_tbl i Hi) as (Hg & H0 & H61). cbn [base64_dec_loop].
  rewrite (proj2 (Z.eqb_neq _ _) H0), (proj2 (Z.eqb_neq _ _) H61), Hg. done.
Qed.

Lemma sextet0 i j : 0 <= i < 64 → 0 <= j < 64 →
  Z.lor (wrap 8 (Z.shiftl i 2)) (Z.shiftr j 4) = i * 4 + j / 16.
Proof.
  intros. rewrite wrap_small by (unfold in_range; rewrite Z.shiftl_mul_pow2; dlia).
  rewrite Z.shiftr_div_pow2, lor_shiftl by dlia. dlia.
Qed.
Lemma sextet1 i j : 0 <= i < 64 → 0 <= j < 64 →
  Z.lor (wrap 8 (Z.shiftl (Z.land i 0xf) 4)) (Z.shiftr j 2) = i mod 16 * 16 + j / 4.
Proof.
  intros. change 15 with (Z.ones 4). rewrite (Z.land_ones i 4) by dlia. change (2 ^ 4) with 16.
  rewrite wrap_small by (unfold in_range; rewrite Z.shiftl_mul_pow2; dlia).
  rewrite Z.shiftr_div_pow2, lor_shiftl by dlia. dlia.
Qed.
Lemma sextet2 i j : 0 <= i < 64 → 0 <= j < 64 →
  Z.lor (wrap 8 (Z.shiftl (Z.land i 0x3) 6)) j = i mod 4 * 64 + j.
Proof.
  intros. change 3 with (Z.ones 2). rewrite (Z.land_ones i 2) by dlia. change (2 ^ 2) with 4.
  rewrite wrap_small by (unfold in_range; rewrite Z.shiftl_mul_pow2; dlia).
  rewrite lor_shiftl by dlia. dlia.
Qed.

Lemma sextets a b c :
  in_range 8 a → in_range 8 b → in_range 8 c →
  let i0 := grp a b c / 2 ^ 18 mod 64 in let i1 := grp a b c / 2 ^ 12 mod 64 in
  let i2 := grp a b c / 2 ^ 6 mod 64 in let i3 := grp a b c mod 64 in
  i0 * 4 + i1 / 16 = a ∧ i1 mod 16 * 16 + i2 / 4 = b ∧ i2 mod 4 * 64 + i3 = c.
Proof.
  unfold in_range, grp. change (2 ^ 8) with 256. change (2 ^ 18) with 262144.
  change (2 ^ 12) with 4096. change (2 ^ 6) with 64. cbv zeta.
  intros. split; [|split]; dlia.
Qed.

Lemma sextet_range v k : 0 <= v / 2 ^ k mod 64 < 64.
Proof. apply Z.mod_pos_bound. lia. Qed.
Lemma sextet_range0 v : 0 <= v mod 64 < 64.
Proof. apply Z.mod_pos_bound. lia. Qed.

(** The text ends where the input ends or at a terminator. *)
Definition terminated (tail : list Z) : Prop := tail = [] ∨ ∃ r, tail = 0 :: r.

Lemma dec_terminated tail b blen m s byte :
  terminated tail → base64_dec_loop tail b blen m s byte = (b, m).
Proof. by intros [->|[r ->]]. Qed.

Ltac dec_steps :=
  cbn [enc_text app];
  repeat (rewrite dec_step by (apply sextet_range || apply sextet_range0));
  repeat match goal with |- context [Z.lor (wrap 8 (Z.shiftl ?i 2)) (Z.shiftr ?j 4)] =>
    rewrite (sextet0 i j) by (apply sextet_range || apply sextet_range0) end;
  repeat match goal with
    |- context [Z.lor (wrap 8 (Z.shiftl (Z.land ?i 0xf) 4)) (Z.shiftr ?j 2)] =>
    rewrite (sextet1 i j) by (apply sextet_range || apply sextet_range0) end;
  repeat match goal with
    |- context [Z.lor (wrap 8 (Z.shiftl (Z.land ?i 0x3) 6)) ?j] =>
    rewrite (sextet2 i j) by (apply sextet_range || apply sextet_range0) end.

(** The bytes are counted whether or not they are stored. *)
Lemma dec_text_count d tail b blen m byte :
  terminated tail →
  (base64_dec_loop (enc_text d ++ tail) b blen m 0 byte).2 = m + Z.of_nat (length d).
Proof.
  intros Ht. revert b m byte. induction d as [|a|a a'|a a' a'' d IH] using group_ind;
    intros b m byte; dec_steps.
  - rewrite dec_terminated by done. simpl. lia.
  - simpl. lia.
  - simpl. lia.
  - rewrite IH. cbn [length]. lia.
Qed.

Lemma store_app (pre rest : list Z) x v blen :
  in_range 8 v → Z.of_nat (length (pre ++ x :: rest)) <= blen →
  store (Some (pre ++ x :: rest)) blen (Z.of_nat (length pre)) v =
  Some ((pre ++ [v]) ++ rest).
Proof.
  intros Hv Hl. unfold store. rewrite length_app in Hl. cbn [length] in Hl.
  destruct (Z.ltb_spec (Z.of_nat (length pre)) blen); [|lia].
  rewrite Nat2Z.id, wrap_small by done.
  replace (length pre) with (length pre + 0)%nat by lia.
  by rewrite insert_app_r, <- app_assoc.
Qed.

Lemma dec_text d tail pre rest blen byte :
  terminated tail → Forall (in_range 8) d → (length d <= length rest)%nat →
  Z.of_nat (length (pre ++ rest)) <= blen →
  (base64_dec_loop (enc_text d ++ tail) (Some (pre ++ rest)) blen (Z.of_nat (length pre)) 0 byte).1
  = Some (pre ++ d ++ drop (length d) rest).
Proof.
  intros Ht Hd. revert pre rest byte. induction d as [|a|a a'|a a' a'' d IH] using group_ind;
    intros pre rest byte Hr Hb; dec_steps;
    repeat match goal with H : Forall _ (_ :: _) |- _ => apply Forall_cons in H as [? H] end;
    assert (in_range 8 0) as Hz by (by split).
  - rewrite dec_terminated by done. simpl. by rewrite drop_0.
  - destruct (sextets a 0 0) as (-> & _); [done..|].
    destruct rest as [|x0 rest]; [simpl in Hr; lia|].
    rewrite store_app by done. simpl. by rewrite <- app_assoc, drop_0.
  - destruct (sextets a a' 0) as (-> & -> & _); [done..|].
    do 2 (destruct rest as [|? rest]; [simpl in Hr; lia|]).
    rewrite store_app by done.
    replace (Z.of_nat (length pre) + 1) with (Z.of_nat (length (pre ++ [a])))
      by (rewrite length_app; simpl; lia).
    rewrite length_app in Hb. simpl in Hb.
    rewrite store_app by (rewrite ?length_app; simpl; done || lia).
    simpl. by rewrite <- !app_assoc, drop_0.
  - destruct (sextets a a' a'') as (-> & -> & ->); [done..|].
    do 3 (destruct rest as [|? rest]; [simpl in Hr; lia|]).
    rewrite length_app in Hb. simpl in Hb.
    rewrite store_app by (rewrite ?length_app; simpl; done || lia).
    replace (Z.of_nat (length pre) + 1) with (Z.of_nat (length (pre ++ [a])))
      by (rewrite length_app; simpl; lia).
    rewrite store_app by (rewrite ?length_app; simpl; done || lia).
    replace (Z.of_nat (length (pre ++ [a])) + 1)
      with (Z.of_nat (length ((pre ++ [a]) ++ [a']))) by (rewrite !length_app; simpl; lia).
    rewrite store_app by (rewrite ?length_app; simpl; done || lia).
    replace (Z.of_nat (length ((pre ++ [a]) ++ [a'])) + 1)
      with (Z.of_nat (length (((pre ++ [a]) ++ [a']) ++ [a''])))
      by (rewrite !length_app; simpl; lia).
    rewrite IH; [|done|simpl in Hr; lia|rewrite !length_app; simpl; lia].
    by rewrite <- !app_assoc.
Qed.

Lemma enc_text_app_tail (d junk : list Z) (size : nat) :
  (length (enc_text d) <= size)%nat →
  ∃ tail, take size (enc_text d ++ 0 :: junk) = enc_text d ++ tail ∧ terminated tail.
Proof.
  intros. rewrite take_app, take_ge by done. eexists. split; [done|].
  destruct (size - length (enc_text d))%nat; [by left|right]. by eexists.
Qed.

(** ** Properties *)

(** C39: base64 round trip. With room for the text, _base64_enc writes
    _base64_enc_len characters and touches nothing beyond them; _base64_dec of
    that buffer, given any size that covers the text, gives back the input and
    its length, writes nothing beyond it, and succeeds exactly when the output
    buffer is there and big enough (an empty result needs none); either way the
    length needed is reported. Without room, _base64_enc reports the length
    needed and writes nothing. *)
Theorem base64_roundtrip d buf blen :
  Forall (in_range 8) d → Z.of_nat (length d) < 2 ^ 60 →
  0 <= blen <= Z.of_nat (length buf) →
  let len := Z.of_nat (length d) in
  let n := _base64_enc_len len in
  (blen < n ∧ _base64_enc d buf blen = (false, buf, n)) ∨
  (n <= blen ∧ ∃ buf', _base64_enc d buf blen = (true, buf', n) ∧
    length buf' = length buf ∧ drop (Z.to_nat n) buf' = drop (Z.to_nat n) buf ∧
    ∀ size, n - 1 <= size →
      (∀ out, len <= Z.of_nat (length out) →
        _base64_dec buf' size (Some out) (Z.of_nat (length out)) =
        (true, Some (d ++ drop (length d) out), len)) ∧
      (∀ b blen', 0 <= blen' → b = None ∧ (0 < len ∨ 0 < blen') ∨ blen' < len →
        ∃ b', _base64_dec buf' size b blen' = (false, b', len))).
Proof.
  intros Hd Hlen Hblen len n. unfold _base64_enc. fold len. fold n.
  assert (n = Z.of_nat (length (enc_text d)) + 1) as Hn by by apply enc_len_text.
  destruct (Z.ltb_spec blen n); [left; done|right]. split; [done|].
  pose proof (enc_loop_text d (length d) 0 [] buf Hd) as Hloop. cbn [app length] in Hloop.
  rewrite Hloop by (rewrite ?drop_0; lia). clear Hloop. rewrite !drop_0. cbn [Nat.add].
  set (t := enc_text d) in *.
  destruct (drop (length t) buf) as [|x rest] eqn:Hrest.
  { apply (f_equal length) in Hrest. rewrite length_drop in Hrest. simpl in Hrest. lia. }
  replace (<[length t:=0]> (t ++ x :: rest)) with (t ++ 0 :: rest)
    by (pose proof (insert_app_r t (x :: rest) 0 0) as Hi; rewrite Nat.add_0_r in Hi; done).
  assert (length buf = length t + S (length rest))%nat as Hlb.
  { apply (f_equal length) in Hrest. rewrite length_drop in Hrest. simpl in Hrest. lia. }
  exists (t ++ 0 :: rest). split; [repeat f_equal; lia|].
  split; [rewrite length_app; simpl; lia|].
  replace (Z.to_nat n) with (length t + 1)%nat by lia. split.
  { rewrite <- !drop_drop, Hrest, drop_app_length. done. }
  intros size Hsize.
  destruct (enc_text_app_tail d rest (Z.to_nat size)) as (tail & Htake & Hterm); [fold t; lia|].
  unfold _base64_dec. fold t in Htake. rewrite Htake. split.
  - intros out Hout. unfold len in Hout |- *.
    pose proof (dec_text d tail [] out (Z.of_nat (length out)) 0 Hterm Hd) as H1.
    pose proof (dec_text_count d tail (Some out) (Z.of_nat (length out)) 0 0 Hterm) as H2.
    cbn [app length Z.of_nat] in H1. fold t in H1, H2.
    destruct (base64_dec_loop (t ++ tail) _ _ _ _ _) as [b' m]. simpl in H1, H2. rewrite H1, H2 by lia.
    destruct (Z.leb_spec (0 + Z.of_nat (length d)) (Z.of_nat (length out))); [|lia].
    rewrite orb_true_r. done.
  - intros b blen' Hb0 Hb.
    pose proof (dec_text_count d tail b blen' 0 0 Hterm) as H2.
    fold t in H2.
    destruct (base64_dec_loop (t ++ tail) _ _ _ _ _) as [b' m]. simpl in H2. subst m. exists b'. fold len.
    replace (_ || _) with false; [done|]. symmetry. apply orb_false_iff.
    rewrite !andb_false_iff. unfold len in *.
    destruct Hb as [[-> Hb]|Hb]; split; try (by left); try (right; lia); lia.
Qed.

Lemma base64_roundtrip_witness :
  (5 <= 8 ∧ ∃ buf', _base64_enc [104; 105] (repeat 7 8) 8 = (true, buf', 5) ∧
    _base64_dec buf' 8 (Some [1; 1; 1]) 3 = (true, Some [104; 105; 1], 2)).
Proof.
  split; [lia|].
  destruct (base64_roundtrip [104; 105] (repeat 7 8) 8) as [[H _]|(_ & buf' & He & _ & _ & H)].
  - repeat constructor; lia.
  - reflexivity.
  - simpl; lia.
  - vm_compute in H. discriminate H.
  - exists buf'. split; [exact He|].
    apply (proj1 (H 8 ltac:(vm_compute; discriminate)) [1; 1; 1]). vm_compute. discriminate.
Defined.
