(* ===== verification/Mm.v ===== *)
(** * core/arch/arm/mm/tee_mm.c: the pool allocator

    A pool keeps a singly linked list of its allocations behind a sentinel
    entry. The list is [e :: l]: [e] the sentinel, [l] the allocations in list
    order. An entry has the address malloc() gave it, by which tee_mm_free()
    finds it; its back pointer to the pool is the pool it is listed in. Every
    operation runs under the pool's spinlock, so it is one step. The
    configuration is CFG_WITH_STATS=y, which adds [max_allocated]. *)
From S2P Require Import Prelude.
From stdpp Require Import sorting.

Local Open Scope Z_scope.

Record tee_mm_entry_t := MmEntry {
  e_addr : nat;
  offset : Z;  (* uint32_t, in pages *)
  size : Z;    (* uint32_t, in pages *)
}.

Record tee_mm_pool_t := MmPool {
  entry : option (tee_mm_entry_t * list tee_mm_entry_t);
  lo : Z;      (* paddr_t *)
  hi : Z;      (* paddr_t *)
  flags : Z;   (* uint32_t *)
  shift : Z;   (* uint8_t *)
  max_allocated : Z;
}.

#[global] Instance tee_mm_entry_eq_dec : EqDecision tee_mm_entry_t.
Proof. solve_decision. Defined.

(** TEE_MM_POOL_HI_ALLOC is bit 0. *)
Definition hi_alloc (flags : Z) : bool := Z.testbit flags 0.

Definition set_entry (pool : tee_mm_pool_t) (e : option (tee_mm_entry_t * list tee_mm_entry_t))
    : tee_mm_pool_t :=
  MmPool e (lo pool) (hi pool) (flags pool) (shift pool) (max_allocated pool).

(** ** Operations *)

(** [mem] is the sentinel's address, [None] when calloc() fails. The pool's
    structure is uninitialised memory before, so only the fields that are
    written matter; the pool has no entry when the function fails. *)
Definition tee_mm_init (lo hi shift flags : Z) (mem : option nat)
    : outcome Empty_set (bool * tee_mm_pool_t) :=
  let lo := roundup lo (Z.shiftl 1 shift) in
  let hi := rounddown hi (Z.shiftl 1 shift) in
  if negb (Z.shiftr (wrap 64 (hi - lo)) shift <? UINT32_MAX) then Panicked
  else match mem with
  | None => Ok (false, MmPool None lo hi flags shift 0)
  | Some a =>
    let offset := if hi_alloc flags
                  then wrap 32 (Z.shiftr (wrap 64 (hi - lo - 1)) shift + 1) else 0 in
    Ok (true, MmPool (Some (MmEntry a offset 0, [])) lo hi flags shift 0)
  end.

(** [sz] is a uint32_t, also in the shift. *)
Definition tee_mm_stats_allocated (pool : option tee_mm_pool_t) : Z :=
  match pool with
  | None => 0
  | Some pool =>
    let sz := match entry pool with
              | None => 0
              | Some (e, l) => foldl (λ sz e, wrap 32 (sz + size e)) 0 (e :: l)
              end in
    wrap 32 (Z.shiftl sz (shift pool))
  end.

Definition update_max_allocated (pool : tee_mm_pool_t) : tee_mm_pool_t :=
  let sz := tee_mm_stats_allocated (Some pool) in
  if max_allocated pool <? sz
  then MmPool (entry pool) (lo pool) (hi pool) (flags pool) (shift pool) sz
  else pool.

(** Returns (size, max_allocated, allocated). *)
Definition tee_mm_get_pool_stats (pool : option tee_mm_pool_t) (reset : bool)
    : option (Z * Z * Z) * option tee_mm_pool_t :=
  match pool with
  | None => (None, None)
  | Some p =>
    (Some (wrap 64 (hi p - lo p), max_allocated p, tee_mm_stats_allocated pool),
     Some (if reset then MmPool (entry p) (lo p) (hi p) (flags p) (shift p) 0 else p))
  end.

(** The list walks [while (entry->next != NULL && go(entry, entry->next))
    entry = entry->next;]: the entries passed, the entry reached and the
    entries after it. *)
Fixpoint walk (go : tee_mm_entry_t → tee_mm_entry_t → bool) (e : tee_mm_entry_t)
    (l : list tee_mm_entry_t) : list tee_mm_entry_t * tee_mm_entry_t * list tee_mm_entry_t :=
  match l with
  | [] => ([], e, [])
  | next :: l' =>
    if go e next
    then let '(passed, e', rest) := walk go next l' in (e :: passed, e', rest)
    else ([], e, l)
  end.

(** tee_mm_add(): [nn] after the entry reached by a walk. *)
Definition tee_mm_add (passed : list tee_mm_entry_t) (e nn : tee_mm_entry_t)
    (rest : list tee_mm_entry_t) : option (tee_mm_entry_t * list tee_mm_entry_t) :=
  match passed with
  | [] => Some (e, nn :: rest)
  | s :: passed => Some (s, passed ++ e :: nn :: rest)
  end.

(** [mem] is the address of the new entry, [None] when malloc() fails. *)
Definition tee_mm_alloc (pool : option tee_mm_pool_t) (sz : Z) (mem : option nat)
    : outcome Empty_set (option tee_mm_entry_t * option tee_mm_pool_t) :=
  match pool with
  | None => Ok (None, None)
  | Some p =>
    match entry p, mem with
    | None, _ | _, None => Ok (None, Some p)
    | Some (s, l), Some a =>
      let psize := if sz =? 0 then 0 else wrap 64 (Z.shiftr (wrap 64 (sz - 1)) (shift p) + 1) in
      let go := if hi_alloc (flags p)
                then λ e next, wrap 32 (offset e - offset next - size next) <? psize
                else λ e next, wrap 32 (offset next - size e - offset e) <? psize in
      let '(passed, e, rest) := walk go s l in
      let add :=
        let nn := MmEntry a
          (if hi_alloc (flags p) then wrap 32 (offset e - wrap 32 psize)
           else wrap 32 (offset e + size e)) (wrap 32 psize) in
        Ok (Some nn, Some (update_max_allocated (set_entry p (tee_mm_add passed e nn rest)))) in
      match rest with
      | [] =>
        if hi_alloc (flags p) then
          if wrap 32 (Z.shiftl (offset e) (shift p)) <? sz then Ok (None, Some p) else add
        else if hi p <=? lo p then Panicked
        else
          let remaining := wrap 64 (hi p - lo p) in
          let remaining := wrap 64 (remaining -
            wrap 32 (Z.shiftl (wrap 32 (offset e + size e)) (shift p))) in
          if remaining <? sz then Ok (None, Some p) else add
      | _ => add
      end
    end
  end.

Definition fit_in_gap (p : tee_mm_pool_t) (e : tee_mm_entry_t) (rest : list tee_mm_entry_t)
    (offslo offshi : Z) : bool :=
  if hi_alloc (flags p) then
    negb ((offset e <? offshi)
      || match rest with
         | next :: _ => offslo <? wrap 32 (offset next + size next)
         | [] => false
         end
      || (wrap 64 (hi p - lo p) <? wrap 64 (wrap 64 (Z.shiftl offshi (shift p)) - 1)))
  else
    negb ((offslo <? wrap 32 (offset e + size e))
      || match rest with next :: _ => offset next <? offshi | [] => false end
      || (wrap 64 (hi p - lo p) <? wrap 64 (Z.shiftl offshi (shift p)))).

Definition tee_mm_alloc2 (pool : option tee_mm_pool_t) (base sz : Z) (mem : option nat)
    : option tee_mm_entry_t * option tee_mm_pool_t :=
  match pool with
  | None => (None, None)
  | Some p =>
    match entry p with
    | None => (None, Some p)
    | Some (s, l) =>
      if (wrap 64 (base + sz) <? base) || (base <? lo p) then (None, Some p)
      else match mem with
      | None => (None, Some p)
      | Some a =>
        let offslo := Z.shiftr (wrap 64 (base - lo p)) (shift p) in
        let offshi := wrap 64 (Z.shiftr (wrap 64 (base - lo p + sz - 1)) (shift p) + 1) in
        let go := if hi_alloc (flags p)
                  then λ _ next, offshi <? wrap 32 (offset next + size next)
                  else λ _ next, offset next <? offslo in
        let '(passed, e, rest) := walk go s l in
        if negb (fit_in_gap p e rest offslo offshi) then (None, Some p)
        else
          let mm := MmEntry a (wrap 32 offslo) (wrap 32 (offshi - offslo)) in
          (Some mm, Some (update_max_allocated (set_entry p (tee_mm_add passed e mm rest))))
      end
    end
  end.

(** The entry is named by its address; [None] is a NULL pointer, or an entry
    without a pool (the sentinel's memory is cleared, but its pool is set). *)
Definition tee_mm_free (p : tee_mm_pool_t) (a : option nat) : outcome Empty_set tee_mm_pool_t :=
  match a with
  | None => Ok p
  | Some a =>
    match entry p with
    | None => Panicked  (* NULL dereference *)
    | Some (s, l) =>
      let '(passed, e, rest) := walk (λ _ next, negb (e_addr next =? a)%nat) s l in
      match rest with
      | [] => Panicked
      | _ :: rest =>
        Ok (set_entry p match passed with
                        | [] => Some (e, rest)
                        | s :: passed => Some (s, passed ++ e :: rest)
                        end)
      end
    end
  end.

(** The loop of tee_mm_final() runs once per allocation. *)
Fixpoint final_loop (p : tee_mm_pool_t) (fuel : nat) : outcome Empty_set tee_mm_pool_t :=
  match entry p with
  | Some (_, next :: _) =>
    match fuel with
    | O => Panicked
    | S fuel => tee_mm_free p (Some (e_addr next)) ≫= λ p, final_loop p fuel
    end
  | _ => Ok p
  end.

Definition tee_mm_final (pool : option tee_mm_pool_t) : outcome Empty_set (option tee_mm_pool_t) :=
  match pool with
  | None => Ok None
  | Some p =>
    match entry p with
    | None => Ok (Some p)
    | Some (_, l) => p' ← final_loop p (length l); Ok (Some (set_entry p' None))
    end
  end.

Definition tee_mm_get_bytes (p : tee_mm_pool_t) (mm : option tee_mm_entry_t) : Z :=
  match mm with
  | None => 0
  | Some mm => wrap 32 (Z.shiftl (size mm) (shift p))
  end.

Definition tee_mm_addr_is_within_range (pool : option tee_mm_pool_t) (addr : Z) : bool :=
  match pool with
  | None => false
  | Some p => (lo p <=? addr) && (addr <=? hi p)
  end.

Definition tee_mm_is_empty (pool : option tee_mm_pool_t) : bool :=
  match pool with
  | None => true
  | Some p => match entry p with None => true | Some (_, l) => bool_decide (l = []) end
  end.

(** The offset looked for is a uint16_t. *)
Definition tee_mm_find (p : tee_mm_pool_t) (addr : Z) : option tee_mm_entry_t :=
  let off := wrap 16 (Z.shiftr (wrap 64 (addr - lo p)) (shift p)) in
  if (hi p <? addr) || (addr <? lo p) then None
  else match entry p with
  | None => None
  | Some (_, l) =>
    head (filter (λ e, (offset e <= off ∧ off < wrap 32 (offset e + size e))) l)
  end.

Definition tee_mm_get_smem (p : tee_mm_pool_t) (mm : tee_mm_entry_t) : Z :=
  wrap 64 (wrap 32 (Z.shiftl (offset mm) (shift p)) + lo p).

(** ** The invariant *)

Definition npages (p : tee_mm_pool_t) : Z := (hi p - lo p) / 2 ^ shift p.
Definition end_of (e : tee_mm_entry_t) : Z := offset e + size e.
Definition live (p : tee_mm_pool_t) : list tee_mm_entry_t :=
  match entry p with Some (_, l) => l | None => [] end.

(** The list order: upwards, or downwards when allocating from the top. *)
Definition before (top : bool) (a b : tee_mm_entry_t) : Prop :=
  if top then end_of b <= offset a ∧ offset b <= offset a
  else end_of a <= offset b ∧ offset a <= offset b.

(** What the caller of tee_mm_init() provides: a pool below 4 GiB. *)
Record pool_cfg_wf (p : tee_mm_pool_t) : Prop := {
  cfg_shift : 0 <= shift p < 31;
  cfg_lo : 0 <= lo p;
  cfg_lohi : lo p <= hi p;
  cfg_hi : hi p < 2 ^ 63;
  cfg_bytes : hi p - lo p < 2 ^ 32;
  cfg_align : hi p - lo p = npages p * 2 ^ shift p;
}.

Definition entry_wf (n : Z) (e : tee_mm_entry_t) : Prop :=
  0 <= offset e ∧ 0 <= size e ∧ end_of e <= n.

Definition list_wf (top : bool) (n : Z) (s : tee_mm_entry_t) (l : list tee_mm_entry_t) : Prop :=
  offset s = (if top then n else 0) ∧ size s = 0 ∧
  Forall (entry_wf n) (s :: l) ∧ Sorted (before top) (s :: l) ∧
  NoDup (e_addr <$> s :: l).

Definition pool_wf (p : tee_mm_pool_t) : Prop :=
  pool_cfg_wf p ∧
  match entry p with
  | Some (s, l) => list_wf (hi_alloc (flags p)) (npages p) s l
  | None => True
  end.

(** A page range that overlaps no allocation and splits none. *)
Definition range_free (p : tee_mm_pool_t) (k n : Z) : Prop :=
  0 <= k ∧ k + n <= npages p ∧
  Forall (λ e, end_of e <= k ∨ k + n <= offset e) (live p).

(** ** Lemmas on walks and sorted lists *)

Lemma walk_spec go e l passed e' rest :
  walk go e l = (passed, e', rest) →
  e :: l = passed ++ e' :: rest ∧
  match rest with [] => True | next :: _ => go e' next = false end.
Proof.
  revert e passed. induction l as [|next l IH]; intros e passed; simpl.
  { by intros [= <- <- <-]. }
  destruct (go e next) eqn:Hgo.
  - destruct (walk go next l) as [[pa e''] re] eqn:Hw. intros [= <- <- <-].
    destruct (IH _ _ Hw) as [-> ?]. done.
  - intros [= <- <- <-]. done.
Qed.

(** A property that every step of the walk carries on holds where it ends. *)
Lemma walk_inv go (P : tee_mm_entry_t → Prop) e l passed e' rest :
  walk go e l = (passed, e', rest) → P e →
  (∀ pre a b post, e :: l = pre ++ a :: b :: post → P a → go a b = true → P b) →
  P e'.
Proof.
  revert e passed. induction l as [|next l IH]; intros e passed; simpl.
  { by intros [= <- <- <-]. }
  destruct (go e next) eqn:Hgo; [|by intros [= <- <- <-]].
  destruct (walk go next l) as [[pa e''] re] eqn:Hw. intros [= <- <- <-] He Hstep.
  eapply IH; [exact Hw| |].
  - by apply (Hstep [] e next l).
  - intros pre a b post Heq. apply (Hstep (e :: pre) a b post). by rewrite Heq.
Qed.

#[global] Instance before_trans top : Transitive (before top).
Proof. intros a b c. unfold before. destruct top; lia. Qed.

Lemma Sorted_insert {A} (R : relation A) pre e nn rest :
  Sorted R (pre ++ e :: rest) → R e nn →
  match rest with [] => True | next :: _ => R nn next end →
  Sorted R (pre ++ e :: nn :: rest).
Proof.
  intros Hs Hen Hnext. induction pre as [|x pre IH]; simpl in *.
  - apply Sorted_inv in Hs as [Hs _]. repeat constructor; try done.
    destruct rest; constructor; done.
  - apply Sorted_inv in Hs as [Hs Hhd]. constructor; [by apply IH|].
    destruct pre; simpl in *; inversion Hhd; by constructor.
Qed.

Lemma Sorted_delete {A} (R : relation A) `{!Transitive R} pre e x rest :
  Sorted R (pre ++ e :: x :: rest) → Sorted R (pre ++ e :: rest).
Proof.
  induction pre as [|y pre IH]; simpl; intros Hs.
  - apply Sorted_inv in Hs as [Hs Hhd]. apply Sorted_inv in Hs as [Hs Hhd2].
    inversion Hhd; subst. constructor; [done|].
    destruct Hhd2; constructor. by etrans.
  - apply Sorted_inv in Hs as [Hs Hhd]. constructor; [by apply IH|].
    destruct pre; simpl in *; inversion Hhd; by constructor.
Qed.

Lemma Sorted_adjacent {A} (R : relation A) pre a b post :
  Sorted R (pre ++ a :: b :: post) → R a b.
Proof.
  induction pre as [|x pre IH]; simpl; intros Hs; apply Sorted_inv in Hs as [Hs Hhd]; [|auto].
  by inversion Hhd.
Qed.

Lemma Sorted_before top s l :
  Sorted (before top) (s :: l) →
  ∀ i j a b, (i < j)%nat → (s :: l) !! i = Some a → (s :: l) !! j = Some b → before top a b.
Proof.
  intros Hs. apply Sorted_StronglySorted in Hs; [|apply before_trans].
  revert Hs. generalize (s :: l). intros k Hs. induction Hs as [|x k Hk IH Hx]; [done|].
  intros [|i] [|j] a b Hij; simpl; try lia.
  - intros [= ->] Hb. rewrite Forall_forall in Hx. apply Hx. by eapply list_elem_of_lookup_2.
  - apply IH. lia.
Qed.

Lemma tee_mm_add_spec passed e nn rest s l :
  s :: l = passed ++ e :: rest →
  ∃ l', tee_mm_add passed e nn rest = Some (s, l') ∧ s :: l' = passed ++ e :: nn :: rest ∧
    l' ≡ₚ nn :: l.
Proof.
  destruct passed as [|s' passed]; simpl; intros [= -> ->]; eexists; split_and!; [done..|].
  change (e :: nn :: rest) with ([e] ++ nn :: rest). change (e :: rest) with ([e] ++ rest).
  by rewrite !(app_assoc passed), <- Permutation_middle.
Qed.

(** ** Page arithmetic *)

Definition pages (shift sz : Z) : Z := (sz + 2 ^ shift - 1) / 2 ^ shift.

Lemma pages_le sh sz m : 0 <= sh → pages sh sz <= m ↔ sz <= m * 2 ^ sh.
Proof.
  intros Hsh. unfold pages. pose proof (Z.pow_pos_nonneg 2 sh). split; intros H1.
  - pose proof (Z.mul_succ_div_gt (sz + 2 ^ sh - 1) (2 ^ sh)). nia.
  - apply Z.lt_succ_r, Z.div_lt_upper_bound; nia.
Qed.

Lemma pages_nonneg sh sz : 0 <= sh → 0 <= sz → 0 <= pages sh sz.
Proof. intros. pose proof (Z.pow_pos_nonneg 2 sh). apply Z.div_pos; lia. Qed.

Lemma psize_pages sh sz :
  0 <= sh → 0 <= sz < 2 ^ 64 →
  (if sz =? 0 then 0 else wrap 64 (Z.shiftr (wrap 64 (sz - 1)) sh + 1)) = pages sh sz.
Proof.
  intros Hsh Hsz. unfold pages. pose proof (Z.pow_pos_nonneg 2 sh).
  destruct (Z.eqb_spec sz 0) as [->|Hnz].
  { symmetry. apply Z.div_small. lia. }
  rewrite Z.shiftr_div_pow2, (wrap_small 64 (sz - 1)) by (unfold in_range; lia).
  replace (sz + 2 ^ sh - 1) with (sz - 1 + 1 * 2 ^ sh) by lia.
  rewrite Z.div_add by lia. apply wrap_small.
  assert (0 <= (sz - 1) / 2 ^ sh <= sz - 1).
  { split; [apply Z.div_pos; lia|]. apply Z.div_le_upper_bound; nia. }
  unfold in_range. lia.
Qed.

Section pool_facts.
Context (p : tee_mm_pool_t) (Hcfg : pool_cfg_wf p).

Lemma pow_shift_pos : 0 < 2 ^ shift p.
Proof. destruct Hcfg. apply Z.pow_pos_nonneg; lia. Qed.

Lemma npages_range : 0 <= npages p < 2 ^ 32.
Proof. destruct Hcfg. pose proof pow_shift_pos. split; nia. Qed.

Lemma shiftl_pages k : 0 <= k <= npages p → wrap 32 (Z.shiftl k (shift p)) = k * 2 ^ shift p.
Proof.
  intros Hk. pose proof pow_shift_pos. destruct Hcfg.
  rewrite Z.shiftl_mul_pow2 by lia. apply wrap_small. unfold in_range. nia.
Qed.

Lemma pool_bytes : wrap 64 (hi p - lo p) = npages p * 2 ^ shift p.
Proof. destruct Hcfg. rewrite wrap_small; unfold in_range; lia. Qed.
End pool_facts.

#[export] Hint Resolve pow_shift_pos npages_range : optee.

Lemma cfg_update p e m : pool_cfg_wf p →
  pool_cfg_wf (MmPool e (lo p) (hi p) (flags p) (shift p) m).
Proof. by intros []. Qed.

Lemma update_max_cfg p :
  entry (update_max_allocated p) = entry p ∧ lo (update_max_allocated p) = lo p ∧
  hi (update_max_allocated p) = hi p ∧ flags (update_max_allocated p) = flags p ∧
  shift (update_max_allocated p) = shift p.
Proof. unfold update_max_allocated. by case_match. Qed.

Lemma inserted_free top passed e nn rest s l n :
  s :: l = passed ++ e :: rest → Sorted (before top) (passed ++ e :: nn :: rest) →
  entry_wf n nn → e_addr nn ∉ (e_addr <$> s :: l) →
  Forall (λ x, end_of x <= offset nn ∨ offset nn + size nn <= offset x) l.
Proof.
  intros Heq Hsort (H0 & H1 & H2) Hfresh. apply Forall_forall. intros x Hx.
  destruct (tee_mm_add_spec _ _ nn _ _ _ Heq) as (l' & _ & Heq' & Hperm).
  rewrite <- Heq' in Hsort.
  assert (x ∈ l' ∧ nn ∈ l') as [Hxl Hnl] by (rewrite Hperm; set_solver).
  apply list_elem_of_lookup in Hxl as [i Hi], Hnl as [i' Hi'].
  assert (i ≠ i') as Hne'.
  { intros ->. rewrite Hi in Hi'. injection Hi' as Hxn. apply Hfresh.
    rewrite fmap_cons. right. apply list_elem_of_fmap. exists x. by rewrite Hxn at 1. }
  destruct (decide (i < i')%nat) as [Hlt|Hlt].
  - pose proof (Sorted_before _ _ _ Hsort (S i) (S i') x nn ltac:(lia) Hi Hi') as Hb.
    unfold before, end_of in *. destruct top; lia.
  - pose proof (Sorted_before _ _ _ Hsort (S i') (S i) nn x ltac:(lia) Hi' Hi) as Hb.
    unfold before, end_of in *. destruct top; lia.
Qed.

(** Adding an entry between [e] and its successor keeps the pool well-formed. *)
Lemma add_wf p s l passed e rest nn :
  pool_cfg_wf p → entry p = Some (s, l) → list_wf (hi_alloc (flags p)) (npages p) s l →
  s :: l = passed ++ e :: rest →
  before (hi_alloc (flags p)) e nn →
  match rest with [] => True | next :: _ => before (hi_alloc (flags p)) nn next end →
  entry_wf (npages p) nn → e_addr nn ∉ (e_addr <$> s :: l) →
  let p' := update_max_allocated (set_entry p (tee_mm_add passed e nn rest)) in
  pool_wf p' ∧ live p' ≡ₚ nn :: l ∧ range_free p (offset nn) (size nn).
Proof.
  intros Hcfg Hep (Hs & Hs0 & Hf & Hsort & Hnd) Heq Hb1 Hb2 Hwf Hfresh p'.
  destruct (tee_mm_add_spec _ _ nn _ _ _ Heq) as (l' & Hadd & Heq' & Hperm).
  destruct (update_max_cfg (set_entry p (tee_mm_add passed e nn rest))) as (He & Hlo & Hhi & Hfl & Hsh).
  fold p' in He, Hlo, Hhi, Hfl, Hsh. simpl in He, Hlo, Hhi, Hfl, Hsh.
  assert (Sorted (before (hi_alloc (flags p))) (passed ++ e :: nn :: rest)) as Hsort'
    by (apply Sorted_insert; [by rewrite <- Heq|done|done]).
  rewrite Hadd in He. unfold range_free, live. rewrite He, Hep.
  split; [|split; [done|split; [apply Hwf|split; [apply Hwf|by eapply inserted_free]]]].
  assert (npages p' = npages p) as Hnp by (unfold npages; by rewrite Hlo, Hhi, Hsh).
  split.
  { destruct Hcfg. constructor; rewrite ?Hnp, ?Hlo, ?Hhi, ?Hsh; done. }
  rewrite He, Hfl, Hnp. split_and!; [done|done| | |].
  - apply Forall_cons in Hf as [Hfs Hf]. apply Forall_cons. split; [done|].
    rewrite Hperm. by constructor.
  - by rewrite Heq'.
  - rewrite fmap_cons, Hperm. cbn. cbn in Hfresh, Hnd. rewrite NoDup_cons in Hnd |- *.
    rewrite NoDup_cons. rewrite not_elem_of_cons in Hfresh |- *.
    naive_solver.
Qed.

Lemma split_wf top n s l passed e rest :
  list_wf top n s l → s :: l = passed ++ e :: rest →
  entry_wf n e ∧ match rest with [] => True | next :: _ => entry_wf n next ∧ before top e next end.
Proof.
  intros (_ & _ & Hf & Hs & _) Heq. rewrite Heq in Hf, Hs.
  apply Forall_app in Hf as [_ Hf]. apply Forall_cons in Hf as [He Hf]. split; [done|].
  destruct rest as [|next rest]; [done|]. apply Forall_cons in Hf as [Hn _].
  split; [done|]. by eapply Sorted_adjacent.
Qed.

(** ** tee_mm_alloc *)

(** The gap a walk of tee_mm_alloc() compares with, and the room at the end. *)
Definition gap (top : bool) (a b : tee_mm_entry_t) : Z :=
  if top then offset a - end_of b else offset b - end_of a.
Definition tail_room (top : bool) (n : Z) (a : tee_mm_entry_t) : Z :=
  if top then offset a else n - end_of a.

Definition alloc_go (top : bool) (psize : Z) : tee_mm_entry_t → tee_mm_entry_t → bool :=
  if top then λ e next, wrap 32 (offset e - offset next - size next) <? psize
  else λ e next, wrap 32 (offset next - size e - offset e) <? psize.

Lemma alloc_go_gap top n psize a b :
  n < 2 ^ 32 → entry_wf n a → entry_wf n b → before top a b →
  alloc_go top psize a b = (gap top a b <? psize).
Proof.
  unfold alloc_go, gap, before, entry_wf, end_of. intros Hn Ha Hb Hab.
  destruct top; rewrite wrap_small; try (unfold in_range; lia); f_equal; lia.
Qed.

(** While the gaps are too small, a free range of that many pages lies beyond. *)
Definition beyond (top : bool) (k n : Z) (e : tee_mm_entry_t) : Prop :=
  if top then k + n <= offset e else end_of e <= k.

Lemma walk_beyond top n psize s l passed e rest k :
  n < 2 ^ 32 → list_wf top n s l → walk (alloc_go top psize) s l = (passed, e, rest) →
  0 <= k → k + psize <= n → Forall (λ e, end_of e <= k ∨ k + psize <= offset e) l →
  beyond top k psize e.
Proof.
  intros Hn Hwf Hw Hk Hkn Hfree.
  eapply (walk_inv _ _ _ _ _ _ _ Hw).
  { destruct Hwf as (Hs & Hs0 & _). unfold beyond, end_of. rewrite Hs, Hs0. destruct top; lia. }
  intros pre a b post Heq Ha Hgo. cbv beta in *.
  destruct (split_wf _ _ _ _ _ _ _ Hwf Heq) as (Hawf & Hbwf & Hab).
  rewrite (alloc_go_gap top n) in Hgo by done. apply Z.ltb_lt in Hgo.
  assert (b ∈ l) as Hb.
  { destruct pre; simpl in Heq; injection Heq as -> ->; set_solver. }
  rewrite Forall_forall in Hfree. specialize (Hfree _ Hb).
  unfold beyond, gap, before, entry_wf, end_of in *. destruct top; lia.
Qed.

Definition fresh_in (p : tee_mm_pool_t) (a : nat) : Prop :=
  match entry p with Some (s, l) => a ∉ e_addr <$> s :: l | None => True end.

(** The bytes of an entry. *)
Definition region_of (p : tee_mm_pool_t) (e : tee_mm_entry_t) (base sz : Z) : Prop :=
  tee_mm_get_smem p e = base ∧ tee_mm_get_bytes p (Some e) = sz.

Lemma entry_region p e :
  pool_cfg_wf p → entry_wf (npages p) e →
  region_of p e (lo p + offset e * 2 ^ shift p) (size e * 2 ^ shift p).
Proof.
  intros Hcfg (Ho & Hs & He). unfold region_of, tee_mm_get_smem, tee_mm_get_bytes, end_of in *.
  pose proof (pow_shift_pos p Hcfg). destruct (npages_range p Hcfg).
  rewrite !shiftl_pages by (done || lia). split; [|done].
  destruct Hcfg. rewrite wrap_small; [lia|]. unfold in_range.
  assert (offset e * 2 ^ shift p <= npages p * 2 ^ shift p) by nia. lia.
Qed.

Lemma alloc_cases p s l sz a :
  pool_cfg_wf p → entry p = Some (s, l) → list_wf (hi_alloc (flags p)) (npages p) s l →
  lo p < hi p → 0 <= sz < 2 ^ 64 →
  let top := hi_alloc (flags p) in
  let psize := pages (shift p) sz in
  ∃ passed e rest, walk (alloc_go top psize) s l = (passed, e, rest) ∧
    tee_mm_alloc (Some p) sz (Some a) =
    if bool_decide (rest = [] ∧ tail_room top (npages p) e < psize) then Ok (None, Some p)
    else
      let nn := MmEntry a (if top then offset e - psize else end_of e) psize in
      Ok (Some nn, Some (update_max_allocated (set_entry p (tee_mm_add passed e nn rest)))).
Proof.
  intros Hcfg He Hwf Hne Hsz top psize.
  destruct (walk (alloc_go top psize) s l) as [[passed e] rest] eqn:Hw.
  exists passed, e, rest. split; [done|]. unfold tee_mm_alloc. rewrite He.
  rewrite psize_pages by (destruct Hcfg; lia). fold top psize.
  change (if top then λ e0 next, wrap 32 (offset e0 - offset next - size next) <? psize
    else λ e0 next, wrap 32 (offset next - size e0 - offset e0) <? psize)
    with (alloc_go top psize). rewrite Hw.
  destruct (walk_spec _ _ _ _ _ _ Hw) as [Heq Hstop].
  destruct (split_wf _ _ _ _ _ _ _ Hwf Heq) as [Hewf Hnext].
  pose proof (pow_shift_pos p Hcfg) as Hpow. destruct (npages_range p Hcfg) as [Hn0 Hn].
  pose proof (pages_nonneg (shift p) sz) as Hps0. fold psize in Hps0.
  assert (0 <= shift p) as Hsh by (destruct Hcfg; lia). specialize (Hps0 Hsh ltac:(lia)).
  destruct Hewf as (Ho & Hs & Hend). unfold end_of in *.
  assert (∀ x, 0 <= x <= npages p → (x * 2 ^ shift p <? sz) = bool_decide (x < psize)) as Hlt.
  { intros x Hx. apply eq_true_iff_eq. rewrite Z.ltb_lt, bool_decide_eq_true.
    pose proof (pages_le (shift p) sz x Hsh). fold psize in H. lia. }
  assert (psize < 2 ^ 32 →
    (if top then offset e - psize else offset e + size e) >= 0 →
    MmEntry a (if top then wrap 32 (offset e - wrap 32 psize) else wrap 32 (offset e + size e))
      (wrap 32 psize) =
    MmEntry a (if top then offset e - psize else offset e + size e) psize) as Hnn.
  { intros Hp Hx. rewrite (wrap_small 32 psize) by (unfold in_range; lia).
    f_equal. destruct top; apply wrap_small; unfold in_range; lia. }
  destruct rest as [|next rest].
  - assert (bool_decide (([] : list tee_mm_entry_t) = [] ∧ tail_room top (npages p) e < psize) =
      bool_decide (tail_room top (npages p) e < psize)) as ->
      by (apply bool_decide_ext; naive_solver).
    unfold tail_room, end_of. destruct top eqn:Htop.
    + rewrite shiftl_pages, Hlt by (done || lia). case_bool_decide; [done|].
      rewrite Hnn by lia. done.
    + destruct (Z.leb_spec (hi p) (lo p)); [lia|].
      rewrite pool_bytes, (wrap_small 32 (offset e + size e)) by (done || unfold in_range; lia).
      rewrite shiftl_pages by (done || lia).
      rewrite <- Z.mul_sub_distr_r, wrap_small; last first.
      { destruct Hcfg. unfold in_range. nia. }
      rewrite Hlt by lia. case_bool_decide; [done|]. rewrite <- Hnn by lia.
      rewrite (wrap_small 32 (offset e + size e)) by (unfold in_range; lia). done.
  - rewrite bool_decide_eq_false_2 by naive_solver.
    destruct Hnext as [Hnwf Hb].
    rewrite (alloc_go_gap top (npages p)) in Hstop; try done. apply Z.ltb_ge in Hstop.
    rewrite Hnn; [done| |]; unfold gap, before, entry_wf, end_of in *; destruct top; lia.
Qed.

Lemma alloc_spec p s l sz a :
  pool_wf p → entry p = Some (s, l) → lo p < hi p → 0 <= sz < 2 ^ 64 → fresh_in p a →
  let psize := pages (shift p) sz in
  (∃ nn p', tee_mm_alloc (Some p) sz (Some a) = Ok (Some nn, Some p') ∧
     pool_wf p' ∧ live p' ≡ₚ nn :: l ∧ e_addr nn = a ∧ size nn = psize ∧
     range_free p (offset nn) psize) ∨
  (tee_mm_alloc (Some p) sz (Some a) = Ok (None, Some p) ∧ ∀ k, ¬ range_free p k psize).
Proof.
  intros [Hcfg Hwf] He Hne Hsz Hfresh psize. unfold fresh_in in Hfresh. rewrite He in Hwf, Hfresh.
  destruct (alloc_cases p s l sz a Hcfg He Hwf Hne Hsz) as (passed & e & rest & Hw & ->).
  fold psize in Hw |- *. set (top := hi_alloc (flags p)) in *.
  destruct (npages_range p Hcfg) as [Hn0 Hn].
  destruct (walk_spec _ _ _ _ _ _ Hw) as [Heq Hstop].
  destruct (split_wf _ _ _ _ _ _ _ Hwf Heq) as [Hewf Hnext].
  assert (0 <= psize) as Hps0 by (apply pages_nonneg; destruct Hcfg; lia).
  case_bool_decide as Hfail.
  - right. split; [done|]. destruct Hfail as [-> Hfail].
    intros k (Hk0 & Hkn & Hfree). unfold live in Hfree. rewrite He in Hfree.
    assert (beyond top k psize e) as Hb by by eapply walk_beyond.
    unfold beyond, tail_room, entry_wf, end_of in *. destruct top; lia.
  - left. set (nn := MmEntry a _ psize).
    assert (before top e nn ∧ entry_wf (npages p) nn ∧
      match rest with [] => True | next :: _ => before top nn next end) as (Hb1 & Hnwf & Hb2).
    { destruct rest as [|next rest].
      - assert (psize <= tail_room top (npages p) e) by (apply Z.nlt_ge; naive_solver).
        unfold nn, before, tail_room, entry_wf, end_of in *. cbn [offset size]. destruct top; lia.
      - destruct Hnext as [Hx Hb]. rewrite (alloc_go_gap top (npages p)) in Hstop by done.
        apply Z.ltb_ge in Hstop.
        unfold nn, before, gap, entry_wf, end_of in *. cbn [offset size]. destruct top; lia. }
    destruct (add_wf p s l passed e rest nn Hcfg He Hwf Heq Hb1 Hb2 Hnwf Hfresh) as (Hp' & Hl' & Hfree).
    by eexists nn, _.
Qed.

(** ** tee_mm_alloc2 *)

Definition alloc2_go (top : bool) (offslo offshi : Z) : tee_mm_entry_t → tee_mm_entry_t → bool :=
  if top then λ _ next, offshi <? wrap 32 (offset next + size next)
  else λ _ next, offset next <? offslo.

Lemma walk2_reached top n lo hi s l passed e rest :
  n < 2 ^ 32 → list_wf top n s l → walk (alloc2_go top lo hi) s l = (passed, e, rest) →
  0 <= lo < hi → hi <= n → Forall (λ e, end_of e <= lo ∨ hi <= offset e) l →
  beyond top lo (hi - lo) e.
Proof.
  intros Hn Hwf Hw Hlo Hhi Hfree.
  eapply (walk_inv _ _ _ _ _ _ _ Hw).
  { destruct Hwf as (Hs & Hs0 & _). unfold beyond, end_of. rewrite Hs, Hs0. destruct top; lia. }
  intros pre a b post Heq Ha Hgo.
  destruct (split_wf _ _ _ _ _ _ _ Hwf Heq) as (Hawf & Hbwf & Hab).
  assert (b ∈ l) as Hb.
  { destruct pre; simpl in Heq; injection Heq as -> ->; set_solver. }
  rewrite Forall_forall in Hfree. specialize (Hfree _ Hb).
  unfold beyond, alloc2_go, entry_wf, end_of in *. destruct top; apply Z.ltb_lt in Hgo; [|lia].
  rewrite wrap_small in Hgo by (unfold in_range; lia). lia.
Qed.

(** When fit_in_gap() accepts, for a range below 2^63 bytes. *)
Lemma fit_in_gap_spec p e rest lo' hi' :
  pool_cfg_wf p → entry_wf (npages p) e →
  match rest with [] => True | next :: _ => entry_wf (npages p) next end →
  0 <= lo' < hi' → hi' * 2 ^ shift p < 2 ^ 64 →
  fit_in_gap p e rest lo' hi' = true ↔
  beyond (hi_alloc (flags p)) lo' (hi' - lo') e ∧ hi' <= npages p ∧
  match rest with
  | [] => True
  | next :: _ => beyond (negb (hi_alloc (flags p))) lo' (hi' - lo') next
  end.
Proof.
  intros Hcfg He Hr Hlo Hhi. unfold fit_in_gap, beyond, entry_wf, end_of in *.
  pose proof (pow_shift_pos p Hcfg). destruct (npages_range p Hcfg).
  rewrite pool_bytes, !Z.shiftl_mul_pow2 by (done || destruct Hcfg; lia).
  rewrite (wrap_small 64 (hi' * _)) by (unfold in_range; nia).
  rewrite (wrap_small 64 (hi' * _ - 1)) by (unfold in_range; nia).
  assert (∀ x y, x * 2 ^ shift p <= y * 2 ^ shift p ↔ x <= y) as Hmul by (intros; nia).
  assert (∀ x y, 0 < x → 0 <= y → x * 2 ^ shift p - 1 <= y * 2 ^ shift p → x <= y + 1) by (intros; nia).
  destruct (hi_alloc (flags p)); simpl; rewrite negb_true_iff, !orb_false_iff, !Z.ltb_ge;
    rewrite ?(wrap_small 32 (offset e + size e)) by (unfold in_range; lia);
    (destruct rest as [|next rest];
     [|rewrite ?Z.ltb_ge, ?(wrap_small 32 (offset next + size next)) by (unfold in_range; lia)]).
  - split; [intros [[? _] ?]; lia|]. intros (? & ? & _). split_and!; [lia|done|nia].
  - split; [intros [[? ?] ?]; lia|]. intros (? & ? & ?). split_and!; [lia|lia|nia].
  - rewrite Hmul. intuition.
  - rewrite Hmul. intuition lia.
Qed.

Lemma alloc2_spec p s l base sz a :
  pool_wf p → entry p = Some (s, l) → fresh_in p a →
  lo p <= base → 0 < sz → base + sz < 2 ^ 63 →
  let offslo := (base - lo p) / 2 ^ shift p in
  let offshi := (base - lo p + sz - 1) / 2 ^ shift p + 1 in
  (∃ mm p', tee_mm_alloc2 (Some p) base sz (Some a) = (Some mm, Some p') ∧
     pool_wf p' ∧ live p' ≡ₚ mm :: l ∧ e_addr mm = a ∧ offset mm = offslo ∧
     size mm = offshi - offslo ∧ range_free p offslo (offshi - offslo)) ∨
  (tee_mm_alloc2 (Some p) base sz (Some a) = (None, Some p) ∧
   (Forall (λ e, 0 < size e) l → ¬ range_free p offslo (offshi - offslo))).
Proof.
  intros [Hcfg Hwf] He Hfresh Hlo Hsz Hbase offslo offshi.
  unfold fresh_in in Hfresh. rewrite He in Hwf, Hfresh.
  unfold tee_mm_alloc2. rewrite He.
  pose proof (pow_shift_pos p Hcfg) as Hpow. destruct (npages_range p Hcfg) as [Hn0 Hn].
  assert (0 <= lo p ∧ 0 <= shift p) as [Hlo0 Hsh] by (destruct Hcfg; lia).
  rewrite (wrap_small 64 (base + sz)) by (unfold in_range; lia).
  destruct (Z.ltb_spec (base + sz) base); [lia|].
  destruct (Z.ltb_spec base (lo p)); [lia|]. cbn [orb].
  rewrite !Z.shiftr_div_pow2 by done.
  rewrite (wrap_small 64 (base - lo p)), (wrap_small 64 (base - lo p + sz - 1)) by (unfold in_range; lia).
  fold offslo.
  assert (0 <= offslo < offshi) as Hlohi.
  { split; [apply Z.div_pos; lia|]. apply Z.lt_succ_r, Z.div_le_mono; lia. }
  assert ((offshi - 1) * 2 ^ shift p <= base - lo p + sz - 1) as Hhib.
  { unfold offshi. rewrite Z.add_simpl_r, Z.mul_comm. apply Z.mul_div_le. lia. }
  assert (2 ^ shift p <= 2 ^ 30) as Hp30 by (apply Z.pow_le_mono_r; destruct Hcfg; lia).
  assert (offshi * 2 ^ shift p < 2 ^ 64) as Hhi64.
  { change (2 ^ 64) with (2 ^ 63 + 2 ^ 63). change (2 ^ 30) with 1073741824 in Hp30.
    assert (1073741824 < 2 ^ 63) by done. lia. }
  assert (offshi < 2 ^ 64) as Hhi' by nia.
  rewrite (wrap_small 64 (_ / _ + 1)) by (unfold in_range; fold offshi; lia). fold offshi.
  set (top := hi_alloc (flags p)) in *.
  change (if top then λ _ next, offshi <? wrap 32 (offset next + size next)
    else λ _ next, offset next <? offslo) with (alloc2_go top offslo offshi).
  destruct (walk (alloc2_go top offslo offshi) s l) as [[passed e] rest] eqn:Hw.
  destruct (walk_spec _ _ _ _ _ _ Hw) as [Heq Hstop].
  destruct (split_wf _ _ _ _ _ _ _ Hwf Heq) as [Hewf Hnext].
  assert (match rest with [] => True | next :: _ => entry_wf (npages p) next end) as Hnwf
    by (destruct rest; naive_solver).
  pose proof (fit_in_gap_spec p e rest offslo offshi Hcfg Hewf Hnwf Hlohi Hhi64) as Hfit.
  fold top in Hfit. destruct (fit_in_gap p e rest offslo offshi); simpl.
  - left. destruct (proj1 Hfit eq_refl) as (Hb & Hhin & Hbn).
    rewrite !wrap_small by (unfold in_range; lia).
    set (mm := MmEntry a offslo (offshi - offslo)).
    destruct (add_wf p s l passed e rest mm) as (Hp' & Hl' & Hfree); try done.
    + fold top. unfold mm, beyond, before, entry_wf, end_of in *. cbn [offset size]. destruct top; lia.
    + fold top. destruct rest as [|next rest]; [done|].
      unfold mm, beyond, before, entry_wf, end_of in *. cbn [offset size]. destruct top; simpl in Hbn; lia.
    + unfold mm, entry_wf, end_of. cbn [offset size]. lia.
    + by eexists mm, _.
  - right. split; [done|]. intros Hpos (_ & Hhin & Hfree).
    unfold live in Hfree. rewrite He in Hfree. enough (false = true) by done. apply Hfit.
    replace (offslo + (offshi - offslo)) with offshi in Hfree by lia.
    split; [by apply (walk2_reached top (npages p) offslo offshi s l passed e rest); (done || lia)|]. split; [lia|].
    destruct rest as [|next rest]; [done|].
    assert (next ∈ l) as Hin.
    { destruct passed; simpl in Heq; injection Heq as -> ->; set_solver. }
    rewrite Forall_forall in Hfree, Hpos. specialize (Hfree _ Hin). specialize (Hpos _ Hin).
    unfold beyond, alloc2_go, entry_wf, end_of in *.
    destruct top; simpl; apply Z.ltb_ge in Hstop;
      rewrite ?wrap_small in Hstop by (unfold in_range; lia); lia.
Qed.

(** ** tee_mm_free, tee_mm_find, tee_mm_init *)

Lemma walk_to_end g e l passed e' :
  walk (λ _ next, g next) e l = (passed, e', []) → Forall (λ x, g x = true) l.
Proof.
  revert e passed. induction l as [|next l IH]; intros e passed; simpl; [constructor|].
  destruct (g next) eqn:Hg; [|done].
  destruct (walk _ next l) as [[pa e''] re] eqn:Hw. intros [= <- <- ->].
  constructor; [done|]. by eapply IH.
Qed.

Lemma free_spec p s l a :
  pool_wf p → entry p = Some (s, l) →
  (∃ e l1 l2 p', l = l1 ++ e :: l2 ∧ e_addr e = a ∧
     tee_mm_free p (Some a) = Ok p' ∧ live p' = l1 ++ l2 ∧ pool_wf p') ∨
  (a ∉ e_addr <$> l ∧ tee_mm_free p (Some a) = Panicked).
Proof.
  intros [Hcfg Hwf] He. rewrite He in Hwf. unfold tee_mm_free. rewrite He.
  destruct (walk _ s l) as [[passed e] rest] eqn:Hw.
  destruct (walk_spec _ _ _ _ _ _ Hw) as [Heq Hstop]. destruct rest as [|x rest].
  - right. split; [|done]. apply walk_to_end in Hw. intros (y & -> & Hy)%list_elem_of_fmap.
    rewrite Forall_forall in Hw. specialize (Hw _ Hy). simpl in Hw.
    by rewrite Nat.eqb_refl in Hw.
  - left. apply negb_false_iff, Nat.eqb_eq in Hstop.
    assert (∃ l1, s :: l1 ++ rest = passed ++ e :: rest ∧ l = l1 ++ x :: rest ∧
      match passed with [] => Some (e, rest) | s :: passed => Some (s, passed ++ e :: rest) end =
      Some (s, l1 ++ rest)) as (l1 & Hl1 & -> & ->).
    { destruct passed as [|s' passed]; simpl in Heq; injection Heq as -> ->; [by exists []|].
      exists (passed ++ [e]). by rewrite <- !app_assoc. }
    exists x, l1, rest, (set_entry p (Some (s, l1 ++ rest))).
    split; [done|]. split; [done|]. split; [done|]. split; [done|].
    split; [destruct Hcfg; by constructor|]. cbn [entry set_entry].
    destruct Hwf as (Hs & Hs0 & Hf & Hsort & Hnd). split; [done|]. split; [done|]. split_and!.
    + rewrite Forall_cons, Forall_app, Forall_cons in Hf. rewrite Forall_cons, Forall_app.
      naive_solver.
    + rewrite Hl1. apply (Sorted_delete _ passed e x rest). by rewrite <- Heq.
    + rewrite !fmap_cons, !fmap_app, fmap_cons in *. rewrite NoDup_cons, NoDup_app in *.
      rewrite NoDup_cons in Hnd. set_solver.
Qed.

Lemma free_added p nn l :
  pool_wf p → live p ≡ₚ nn :: l →
  ∃ p', tee_mm_free p (Some (e_addr nn)) = Ok p' ∧ live p' ≡ₚ l.
Proof.
  intros Hwf Hperm.
  assert (∃ s l', entry p = Some (s, l') ∧ live p = l') as (s & l' & He & Hl).
  { unfold live in *. destruct (entry p) as [[s l']|]; [by eauto|].
    by apply Permutation_nil_cons in Hperm. }
  rewrite Hl in Hperm. assert (nn ∈ l') as Hin by (rewrite Hperm; left).
  assert (NoDup (e_addr <$> l')) as Hnd.
  { destruct Hwf as [_ Hlw]. rewrite He in Hlw. destruct Hlw as (_ & _ & _ & _ & Hnd).
    by apply NoDup_cons in Hnd as [_ Hnd]. }
  destruct (free_spec p s l' (e_addr nn) Hwf He)
    as [(e & l1 & l2 & p' & Heq & Hae & Hfr & Hl' & _)|[Hni _]];
    [|by destruct Hni; apply list_elem_of_fmap_2].
  exists p'. split; [done|]. rewrite Hl'.
  assert (e = nn) as ->.
  { rewrite Heq in Hin, Hnd. rewrite fmap_app, fmap_cons, NoDup_app, NoDup_cons in Hnd.
    rewrite Hae in Hnd.
    apply elem_of_app in Hin as [Hin|Hin%elem_of_cons];
      [|destruct Hin as [->|Hin]; [done|]];
      apply (list_elem_of_fmap_2 e_addr) in Hin; set_solver. }
  rewrite Heq, <- Permutation_middle in Hperm. by apply Permutation_cons_inv in Hperm.
Qed.

(** A pool without allocations, and what became of the arguments. *)
Lemma init_spec lo0 hi0 sh fl a :
  0 <= sh < 31 → 0 <= lo0 → lo0 + 2 ^ sh <= hi0 < 2 ^ 63 → hi0 - lo0 < 2 ^ 32 →
  roundup lo0 (2 ^ sh) <= rounddown hi0 (2 ^ sh) →
  (rounddown hi0 (2 ^ sh) - roundup lo0 (2 ^ sh)) / 2 ^ sh < UINT32_MAX →
  ∃ p, tee_mm_init lo0 hi0 sh fl (Some a) = Ok (true, p) ∧ pool_wf p ∧ live p = [] ∧
    lo p = roundup lo0 (2 ^ sh) ∧ hi p = rounddown hi0 (2 ^ sh) ∧ shift p = sh ∧ flags p = fl ∧
    (∃ s, entry p = Some (s, [])).
Proof.
  intros Hsh Hlo Hhi Hsz Hle Hmax. unfold tee_mm_init.
  pose proof (Z.pow_pos_nonneg 2 sh ltac:(lia) ltac:(lia)) as Hpow.
  assert (2 ^ sh <= 2 ^ 30) as Hp30 by (apply Z.pow_le_mono_r; lia).
  change (2 ^ 30) with 1073741824 in Hp30.
  rewrite !Z.shiftl_1_l, !Z.shiftr_div_pow2 by lia.
  assert (lo0 + 2 ^ sh - 1 < 2 ^ 64) as H64 by lia.
  assert (in_range 64 hi0) as Hhir by (unfold in_range; lia).
  assert (∃ l h, roundup lo0 (2 ^ sh) = l * 2 ^ sh ∧ rounddown hi0 (2 ^ sh) = h * 2 ^ sh ∧
    lo0 <= l * 2 ^ sh ∧ h * 2 ^ sh <= hi0) as (l & h & Hl & Hh & Hl0 & Hh0).
  { rewrite roundup_pow2, rounddown_pow2 by (done || lia). eexists _, _. split_and!; [done|done| |].
    - pose proof (Z.mul_succ_div_gt (lo0 + 2 ^ sh - 1) (2 ^ sh)). nia.
    - rewrite Z.mul_comm. apply Z.mul_div_le. lia. }
  rewrite Hl, Hh in *.
  assert ((h * 2 ^ sh - l * 2 ^ sh) / 2 ^ sh = h - l) as Hdiv
    by (rewrite <- Z.mul_sub_distr_r; apply Z.div_mul; lia).
  rewrite (wrap_small 64 (h * _ - _)), Hdiv by (unfold in_range; nia).
  rewrite Hdiv in Hmax. rewrite (proj2 (Z.ltb_lt _ _) Hmax). cbn [negb].
  eexists. split; [done|]. cbn [lo hi shift flags entry live].
  split; [|split_and!; try done; by eexists].
  assert (0 <= h - l) by nia.
  split; [constructor; unfold npages; cbn [lo hi shift]; rewrite ?Hdiv; nia|].
  cbn [entry flags]. unfold npages. cbn [hi lo shift]. rewrite Hdiv.
  assert ((if hi_alloc fl then wrap 32 (wrap 64 (h * 2 ^ sh - l * 2 ^ sh - 1) / 2 ^ sh + 1) else 0)
    = if hi_alloc fl then h - l else 0) as ->.
  { destruct (hi_alloc fl); [|done]. destruct (decide (h = l)) as [->|Hne].
    - replace (l * 2 ^ sh - l * 2 ^ sh - 1) with (-1) by lia.
      change (wrap 64 (-1)) with (2 ^ 64 - 1).
      replace (2 ^ 64 - 1) with ((2 ^ (64 - sh) - 1) * 2 ^ sh + (2 ^ sh - 1))
        by (rewrite Z.mul_sub_distr_r, <- Z.pow_add_r by lia; replace (64 - sh + sh) with 64 by lia; lia).
      rewrite Z.div_add_l, (Z.div_small (2 ^ sh - 1)) by lia.
      replace (2 ^ (64 - sh) - 1 + 0 + 1) with (2 ^ (32 - sh) * 2 ^ 32)
        by (rewrite <- Z.pow_add_r by lia; replace (32 - sh + 32) with (64 - sh) by lia; lia).
      unfold wrap. rewrite Z.mod_mul by done. lia.
    - rewrite (wrap_small 64) by (unfold in_range; nia).
      replace (h * 2 ^ sh - l * 2 ^ sh - 1) with ((h - l - 1) * 2 ^ sh + (2 ^ sh - 1)) by lia.
      rewrite Z.div_add_l, Z.div_small, wrap_small by (unfold in_range; nia). lia. }
  split_and!; [done|done| |by repeat constructor|].
  - apply Forall_cons. split; [|constructor]. unfold entry_wf, end_of. cbn [offset size].
    destruct (hi_alloc fl); lia.
  - apply NoDup_singleton.
Qed.

Lemma live_pairwise p :
  pool_wf p → Forall (entry_wf (npages p)) (live p) ∧
  ∀ i j a b, i ≠ j → live p !! i = Some a → live p !! j = Some b →
    end_of a <= offset b ∨ end_of b <= offset a.
Proof.
  intros [Hcfg Hwf]. unfold live. destruct (entry p) as [[s l]|]; [|split; [constructor|done]].
  destruct Hwf as (_ & _ & Hf & Hs & _). apply Forall_cons in Hf as [_ Hf]. split; [done|].
  intros i j a b Hij Ha Hb.
  assert (∀ i j a b, (i < j)%nat → l !! i = Some a → l !! j = Some b →
    end_of a <= offset b ∨ end_of b <= offset a) as H.
  { clear -Hs. intros i j a b Hij Ha Hb.
    pose proof (Sorted_before _ _ _ Hs (S i) (S j) a b ltac:(lia) Ha Hb) as H.
    unfold before in H. destruct (hi_alloc _); lia. }
  destruct (decide (i < j)%nat); [by eapply H|]. destruct (H j i b a ltac:(lia) Hb Ha); auto.
Qed.

Lemma find_spec p addr e :
  pool_wf p → npages p < 2 ^ 16 → 0 <= addr < 2 ^ 64 →
  tee_mm_find p addr = Some e ↔
  e ∈ live p ∧ lo p + offset e * 2 ^ shift p <= addr < lo p + end_of e * 2 ^ shift p.
Proof.
  intros Hwf Hnp Haddr. pose proof Hwf as [Hcfg _].
  destruct (live_pairwise p Hwf) as [Hf Hdis]. rewrite Forall_forall in Hf.
  pose proof (pow_shift_pos p Hcfg) as Hpow. destruct (npages_range p Hcfg) as [Hn0 _].
  assert (lo p + npages p * 2 ^ shift p = hi p ∧ 0 <= lo p) as [Hhi Hlo] by (destruct Hcfg; lia).
  assert (∀ x, x ∈ live p → lo p <= addr <= hi p →
    (offset x <= wrap 16 (Z.shiftr (wrap 64 (addr - lo p)) (shift p)) ∧
     wrap 16 (Z.shiftr (wrap 64 (addr - lo p)) (shift p)) < wrap 32 (offset x + size x)) ↔
    lo p + offset x * 2 ^ shift p <= addr < lo p + end_of x * 2 ^ shift p) as Hiff.
  { intros x Hx Hin. destruct (Hf x Hx) as (H0 & H1 & H2). unfold end_of in *.
    rewrite (wrap_small 32), (wrap_small 64) by (unfold in_range; lia).
    rewrite Z.shiftr_div_pow2 by (destruct Hcfg; lia).
    set (q := (addr - lo p) / 2 ^ shift p).
    assert (q * 2 ^ shift p <= addr - lo p < (q + 1) * 2 ^ shift p) as Hq.
    { unfold q. pose proof (Z.mul_div_le (addr - lo p) (2 ^ shift p)).
      pose proof (Z.mul_succ_div_gt (addr - lo p) (2 ^ shift p)). lia. }
    clearbody q. rewrite wrap_small by (unfold in_range; nia). split; nia. }
  unfold tee_mm_find.
  assert ((∃ s l, entry p = Some (s, l) ∧ live p = l) ∨ entry p = None ∧ live p = []) as [(s & l & He & Hl)|[He Hl]].
  { unfold live. destruct (entry p) as [[s l]|]; [left|right]; by eauto. }
  2: { rewrite Hl, He. split; [by case_match|]. intros [[]%elem_of_nil _]. }
  rewrite He, Hl in *.
  destruct (Z.ltb_spec (hi p) addr); cbn [orb].
  { split; [done|]. intros [Hin Hb]. destruct (Hf _ Hin) as (_ & _ & ?). unfold end_of in *. nia. }
  destruct (Z.ltb_spec addr (lo p)).
  { split; [done|]. intros [Hin Hb]. destruct (Hf _ Hin) as (? & _). nia. }
  match goal with |- context [filter ?P l] => set (flt := filter P l) end.
  assert (∀ x, x ∈ flt ↔ x ∈ l ∧
    lo p + offset x * 2 ^ shift p <= addr < lo p + end_of x * 2 ^ shift p) as Hflt.
  { intros x. unfold flt. rewrite list_elem_of_filter. split.
    - intros [Hp Hin]. split; [done|]. by apply Hiff.
    - intros [Hin Hp]. split; [|done]. by apply Hiff. }
  rewrite <- Hflt. clearbody flt. destruct flt as [|x flt].
  { simpl. split; [done|]. by intros []%elem_of_nil. }
  simpl. split; [intros [= ->]; by left|]. intros Hin. f_equal.
  apply Hflt in Hin as [Hin He'].
  destruct (proj1 (Hflt x) ltac:(left)) as [Hinx Hx].
  apply list_elem_of_lookup in Hin as [i Hi], Hinx as [j Hj].
  destruct (decide (i = j)) as [->|Hij]; [congruence|].
  destruct (Hdis _ _ _ _ Hij Hi Hj); nia.
Qed.

(** ** Properties *)

(** The states of a pool between two calls: it is initialised over an area of
    less than 4 GiB, then allocated from, with any malloc() results, and given
    back to. *)
Inductive mm_reachable : tee_mm_pool_t → Prop :=
| reach_init lo hi sh fl a p :
    0 <= sh < 31 → 0 <= lo → lo + 2 ^ sh <= hi < 2 ^ 63 → hi - lo < 2 ^ 32 →
    roundup lo (2 ^ sh) < rounddown hi (2 ^ sh) →
    (rounddown hi (2 ^ sh) - roundup lo (2 ^ sh)) / 2 ^ sh < UINT32_MAX →
    tee_mm_init lo hi sh fl (Some a) = Ok (true, p) → mm_reachable p
| reach_alloc p sz mem r p' :
    mm_reachable p → 0 <= sz < 2 ^ 64 → (∀ a, mem = Some a → fresh_in p a) →
    tee_mm_alloc (Some p) sz mem = Ok (r, Some p') → mm_reachable p'
| reach_alloc2 p base sz mem r p' :
    mm_reachable p → 0 < sz → 0 <= base → base + sz < 2 ^ 63 →
    (∀ a, mem = Some a → fresh_in p a) →
    tee_mm_alloc2 (Some p) base sz mem = (r, Some p') → mm_reachable p'
| reach_free p a p' :
    mm_reachable p → tee_mm_free p a = Ok p' → mm_reachable p'
| reach_stats p st p' :
    mm_reachable p → tee_mm_get_pool_stats (Some p) true = (st, Some p') → mm_reachable p'.

Lemma mm_reachable_wf p :
  mm_reachable p → pool_wf p ∧ lo p < hi p ∧ ∃ s l, entry p = Some (s, l) ∧ live p = l.
Proof.
  assert (∀ p p', pool_wf p' → lo p' = lo p → hi p' = hi p → lo p < hi p →
    (∃ x, entry p' = Some x) →
    pool_wf p' ∧ lo p' < hi p' ∧ ∃ s l, entry p' = Some (s, l) ∧ live p' = l) as Hgoal.
  { intros p0 p' Hwf -> -> Hlt [[s l] He]. split; [done|]. split; [done|].
    exists s, l. unfold live. by rewrite He. }
  assert (∀ p pa e nn rest s l, s :: l = pa ++ e :: rest →
    lo (update_max_allocated (set_entry p (tee_mm_add pa e nn rest))) = lo p ∧
    hi (update_max_allocated (set_entry p (tee_mm_add pa e nn rest))) = hi p ∧
    ∃ x, entry (update_max_allocated (set_entry p (tee_mm_add pa e nn rest))) = Some x) as Hupd.
  { intros p0 pa e nn rest s l Heq.
    destruct (update_max_cfg (set_entry p0 (tee_mm_add pa e nn rest))) as (-> & -> & -> & _).
    destruct (tee_mm_add_spec _ _ nn _ _ _ Heq) as (l' & Hadd & _). cbn [entry set_entry lo hi].
    split; [done|]. split; [done|]. by eexists. }
  induction 1 as [lo hi sh fl a p Hsh Hlo Hhi Hsz Hlt Hmax Hinit
    |p sz mem r p' _ IH Hsz Hmem Hal|p base sz mem r p' _ IH Hsz Hb0 Hb Hmem Hal
    |p a p' _ IH Hfr|p st p' _ IH Hst];
    try destruct IH as (Hwf & Hlt & s & l & He & Hl).
  - destruct (init_spec lo hi sh fl a) as (p' & Hp' & Hwf & Hl & H1 & H2 & _ & _ & [s Hs]); try done; [lia|].
    rewrite Hinit in Hp'. simplify_eq. split; [done|]. split; [congruence|]. by exists s, [].
  - destruct mem as [a|]; last first.
    { simpl in Hal. rewrite He in Hal. simplify_eq. eapply Hgoal; eauto. }
    pose proof Hwf as [Hcfg Hlw]. rewrite He in Hlw.
    destruct (alloc_cases p s l sz a Hcfg He Hlw Hlt Hsz) as (pa & e & rest & Hw & Hcase).
    destruct (walk_spec _ _ _ _ _ _ Hw) as [Heq _].
    destruct (alloc_spec p s l sz a Hwf He Hlt Hsz (Hmem a eq_refl)) as [(nn & p1 & H1 & Hwf' & _)|[H1 _]];
      rewrite Hal in H1; simplify_eq; [|by eapply Hgoal; eauto].
    rewrite Hcase in Hal. case_bool_decide; [done|]. cbv zeta in Hal. injection Hal as _ Hp1.
    edestruct Hupd as (H1 & H2 & H3); [exact Heq|]. rewrite Hp1 in H1, H2, H3.
    by apply (Hgoal p).
  - destruct mem as [a|]; last first.
    { simpl in Hal. rewrite He in Hal. case_match; simplify_eq; by eapply Hgoal; eauto. }
    destruct (decide (lo p <= base)) as [Hlob|Hlob]; last first.
    { unfold tee_mm_alloc2 in Hal. rewrite He, (proj2 (Z.ltb_lt base _)), orb_true_r in Hal by lia.
      simplify_eq. by eapply Hgoal; eauto. }
    destruct (alloc2_spec p s l base sz a Hwf He (Hmem a eq_refl) Hlob Hsz Hb)
      as [(mm & p1 & H1 & Hwf' & _)|[H1 _]];
      rewrite Hal in H1; simplify_eq; [|by eapply Hgoal; eauto].
    unfold tee_mm_alloc2 in Hal. rewrite He in Hal. case_match; [done|].
    destruct (walk _ _ _) as [[pa e] rest] eqn:Hw. destruct (walk_spec _ _ _ _ _ _ Hw) as [Heq _].
    case_match; [done|]. injection Hal as _ Hp1.
    edestruct Hupd as (H1 & H2 & H3); [exact Heq|]. rewrite Hp1 in H1, H2, H3.
    by apply (Hgoal p).
  - destruct a as [a|]; [|simpl in Hfr; simplify_eq; by eapply Hgoal; eauto].
    destruct (free_spec p s l a Hwf He) as [(e & l1 & l2 & p1 & _ & _ & H1 & _ & Hwf')|[_ H1]];
      rewrite Hfr in H1; simplify_eq.
    unfold tee_mm_free in Hfr. rewrite He in Hfr.
    destruct (walk _ _ _) as [[pa x] rest]. destruct rest; simplify_eq.
    eapply (Hgoal p); try done. cbn [entry set_entry]. destruct pa; by eexists.
  - injection Hst as _ <-. eapply (Hgoal p); try done; [|by eexists].
    destruct Hwf as [Hcfg Hlw]. split; [by apply cfg_update|done].
Qed.

(** C11: in every reachable pool each allocation is a page-aligned byte range
    inside [lo, hi), and two allocations never overlap. *)
Theorem mm_reachable_disjoint p :
  mm_reachable p →
  ∀ i e, live p !! i = Some e →
    lo p <= tee_mm_get_smem p e ∧
    tee_mm_get_smem p e + tee_mm_get_bytes p (Some e) <= hi p ∧
    (2 ^ shift p | tee_mm_get_smem p e - lo p) ∧
    ∀ j e', i ≠ j → live p !! j = Some e' →
      tee_mm_get_smem p e + tee_mm_get_bytes p (Some e) <= tee_mm_get_smem p e' ∨
      tee_mm_get_smem p e' + tee_mm_get_bytes p (Some e') <= tee_mm_get_smem p e.
Proof.
  intros (Hwf & _ & _)%mm_reachable_wf. pose proof Hwf as [Hcfg _].
  destruct (live_pairwise p Hwf) as [Hf Hdis]. intros i e He.
  assert (∀ i e, live p !! i = Some e → entry_wf (npages p) e) as Hew
    by (intros; by eapply Forall_lookup_1).
  destruct (entry_region p e Hcfg (Hew _ _ He)) as [-> ->].
  pose proof (pow_shift_pos p Hcfg). destruct (Hew _ _ He) as (H0 & H1 & H2). unfold end_of in *.
  assert (hi p = lo p + npages p * 2 ^ shift p) as Hhi by (destruct Hcfg; lia).
  split; [nia|]. split; [nia|]. split; [exists (offset e); lia|].
  intros j e' Hij He'. destruct (entry_region p e' Hcfg (Hew _ _ He')) as [-> ->].
  destruct (Hdis i j e e' Hij He He'); nia.
Qed.

(** Tee_mm_alloc and tee_mm_alloc2 on a reachable pool. tee_mm_alloc
    returns the smallest page range that holds the request, taken from free
    memory, and adds it to the list; it gives up only when no free range of that
    many pages exists. tee_mm_alloc2 returns exactly the pages that cover
    [base, base + size), and refuses when one of them is taken or outside the
    pool, and, as long as the pool has no empty allocation, only then. Freeing
    the entry that was returned removes it and nothing else. *)
Lemma tee_mm_alloc_free p a :
  mm_reachable p → fresh_in p a →
  (∀ sz, 0 <= sz < 2 ^ 64 →
    (∃ mm p', tee_mm_alloc (Some p) sz (Some a) = Ok (Some mm, Some p') ∧
      sz <= tee_mm_get_bytes p (Some mm) < sz + 2 ^ shift p ∧
      range_free p (offset mm) (size mm) ∧ live p' ≡ₚ mm :: live p ∧
      ∃ p'', tee_mm_free p' (Some (e_addr mm)) = Ok p'' ∧ live p'' ≡ₚ live p) ∨
    (tee_mm_alloc (Some p) sz (Some a) = Ok (None, Some p) ∧
      ∀ k, ¬ range_free p k (pages (shift p) sz))) ∧
  (∀ base sz, lo p <= base → 0 < sz → base + sz < 2 ^ 63 →
    let offslo := (base - lo p) / 2 ^ shift p in
    let offshi := (base - lo p + sz - 1) / 2 ^ shift p + 1 in
    (∃ mm p', tee_mm_alloc2 (Some p) base sz (Some a) = (Some mm, Some p') ∧
      tee_mm_get_smem p mm <= base ∧
      base + sz <= tee_mm_get_smem p mm + tee_mm_get_bytes p (Some mm) ∧
      range_free p offslo (offshi - offslo) ∧ live p' ≡ₚ mm :: live p) ∨
    (tee_mm_alloc2 (Some p) base sz (Some a) = (None, Some p) ∧
      (Forall (λ e, 0 < size e) (live p) → ¬ range_free p offslo (offshi - offslo)))).
Proof.
  intros Hr Hfresh. destruct (mm_reachable_wf p Hr) as (Hwf & Hlt & s & l & He & Hl).
  pose proof Hwf as [Hcfg _]. pose proof (pow_shift_pos p Hcfg) as Hpow. rewrite Hl.
  assert (0 <= shift p) as Hsh by (destruct Hcfg; lia). split.
  - intros sz Hsz.
    destruct (alloc_spec p s l sz a Hwf He Hlt Hsz Hfresh)
      as [(nn & p' & H1 & Hwf' & H2 & H3 & H4 & H5)|H]; [left|by right].
    exists nn, p'. split; [done|]. rewrite H4.
    assert (entry_wf (npages p) nn) as Hnn.
    { destruct H5 as (? & ? & _). unfold entry_wf, end_of. rewrite H4.
      pose proof (pages_nonneg (shift p) sz). lia. }
    destruct (entry_region p nn Hcfg Hnn) as [_ ->]. rewrite H4.
    pose proof (pages_le (shift p) sz (pages (shift p) sz) Hsh).
    pose proof (pages_le (shift p) sz (pages (shift p) sz - 1) Hsh).
    split; [lia|]. split; [done|]. split; [done|].
    by eapply free_added.
  - intros base sz Hlo Hsz Hb offslo offshi.
    destruct (alloc2_spec p s l base sz a Hwf He Hfresh Hlo Hsz Hb)
      as [(mm & p' & H1 & Hwf' & H2 & H3 & H4 & H5 & H6)|H]; [left|by right].
    fold offslo offshi in H4, H5, H6.
    exists mm, p'. split; [done|].
    assert (offslo * 2 ^ shift p <= base - lo p ∧ base - lo p + sz <= offshi * 2 ^ shift p) as [Ha Hc].
    { unfold offslo, offshi.
      pose proof (Z.mul_div_le (base - lo p) (2 ^ shift p)).
      pose proof (Z.mul_succ_div_gt (base - lo p + sz - 1) (2 ^ shift p)). lia. }
    assert (entry_wf (npages p) mm) as Hmm.
    { destruct H6 as (? & ? & _). unfold entry_wf, end_of. rewrite H4, H5. nia. }
    destruct (entry_region p mm Hcfg Hmm) as [-> ->]. rewrite H4, H5.
    split; [lia|]. split; [lia|]. done.
Qed.

(** Tee_mm_find returns the allocation that covers an address, for a
    pool of less than 65536 pages. *)
Lemma tee_mm_find_covers p addr e :
  mm_reachable p → npages p < 2 ^ 16 → 0 <= addr < 2 ^ 64 →
  tee_mm_find p addr = Some e ↔
  e ∈ live p ∧
  tee_mm_get_smem p e <= addr < tee_mm_get_smem p e + tee_mm_get_bytes p (Some e).
Proof.
  intros (Hwf & _ & _)%mm_reachable_wf Hn Ha. rewrite find_spec by done.
  pose proof Hwf as [Hcfg _]. destruct (live_pairwise p Hwf) as [Hf _].
  rewrite Forall_forall in Hf.
  assert (∀ P Q : Prop, (e ∈ live p → P ↔ Q) → (e ∈ live p ∧ P ↔ e ∈ live p ∧ Q)) as Hiff
    by tauto.
  apply Hiff. intros Hin. destruct (entry_region p e Hcfg (Hf _ Hin)) as [-> ->].
  unfold end_of. lia.
Qed.

(** ** Witnesses and limits *)

Definition run_mm (m : outcome Empty_set (option tee_mm_entry_t * option tee_mm_pool_t))
    (p : tee_mm_pool_t) : tee_mm_pool_t :=
  match m with Ok (_, Some p) => p | _ => p end.

(** Four pages at 0x1000, two of them allocated. *)
Definition ex_pool0 : tee_mm_pool_t := MmPool (Some (MmEntry 0 0 0, [])) 0x1000 0x5000 0 12 0.
Definition ex_pool1 : tee_mm_pool_t :=
  Eval vm_compute in run_mm (tee_mm_alloc (Some ex_pool0) 0x10 (Some 1%nat)) ex_pool0.
Definition ex_pool : tee_mm_pool_t :=
  Eval vm_compute in run_mm (tee_mm_alloc (Some ex_pool1) 0x1000 (Some 2%nat)) ex_pool1.

Lemma ex_pool_reachable : mm_reachable ex_pool.
Proof.
  eapply (reach_alloc ex_pool1 0x1000 (Some 2%nat)); [|done| |reflexivity].
  - eapply (reach_alloc ex_pool0 0x10 (Some 1%nat)); [|done| |reflexivity].
    + eapply (reach_init 0x800 0x5123 12 0 0%nat); reflexivity || lia || done.
    + intros a [= <-]. unfold fresh_in. simpl. set_solver.
  - intros a [= <-]. unfold fresh_in. simpl. set_solver.
Qed.

Lemma mm_reachable_disjoint_witness :
  mm_reachable ex_pool ∧ 0x1000 <= tee_mm_get_smem ex_pool (MmEntry 1 0 1) ∧
  tee_mm_get_smem ex_pool (MmEntry 1 0 1) + 0x1000 <= 0x5000.
Proof.
  split; [apply ex_pool_reachable|].
  destruct (mm_reachable_disjoint ex_pool ex_pool_reachable 0%nat (MmEntry 1 0 1) eq_refl)
    as (H1 & H2 & _).
  split; [exact H1|exact H2].
Defined.

(** tee_mm_find() truncates the page number to 16 bits: in a pool of 65537 pages
    whose last page is allocated, an address in that page is not found. *)
Lemma tee_mm_find_truncates :
  let p := MmPool (Some (MmEntry 0 0 0, [MmEntry 1 65536 1])) 0 (65537 * 2 ^ 12) 0 12 0 in
  pool_wf p ∧ tee_mm_find p (65536 * 2 ^ 12) = None.
Proof.
  split; [|reflexivity]. split.
  - constructor; simpl; try lia. reflexivity.
  - simpl. split_and!; [done|done| | |].
    + repeat constructor; unfold entry_wf, end_of; simpl; try lia; done.
    + repeat constructor; simpl; done.
    + simpl. repeat constructor; set_solver.
Qed.

(** Byte offsets are computed in 32 bits, although tee_mm_init() accepts pools
    of up to 2^32 - 1 pages: in a pool of 4 GiB and one page the allocation
    after the first 4 GiB succeeds again and again, beyond the end of the pool,
    and aliases the first one. *)
Lemma tee_mm_alloc_wraps :
  ∃ p0 p1 p2 p3 m1 m2 m3,
    tee_mm_init 0x1000 (0x100000000 + 0x2000) 12 0 (Some 0%nat) = Ok (true, p0) ∧
    tee_mm_alloc (Some p0) 0x100000000 (Some 1%nat) = Ok (Some m1, Some p1) ∧
    tee_mm_alloc (Some p1) 0x1000 (Some 2%nat) = Ok (Some m2, Some p2) ∧
    tee_mm_alloc (Some p2) 0x1000 (Some 3%nat) = Ok (Some m3, Some p3) ∧
    tee_mm_get_smem p3 m1 = tee_mm_get_smem p3 m2 ∧
    hi p3 <= lo p3 + offset m3 * 2 ^ 12.
Proof. do 7 eexists. split_and!; [reflexivity..|]. vm_compute. discriminate. Qed.
