(* ===== verification/Pobj.v ===== *)
(** * core/tee/tee_pobj.c: the open persistent objects

    [tee_pobjs] is the TAILQ of the objects that some handle refers to, in
    queue order, each with its address. pobjs_mutex makes every function one
    step. *)
From S2P Require Import Prelude Uuid.

Local Open Scope Z_scope.

Definition TEE_DATA_FLAG_ACCESS_READ : Z := 0x1.
Definition TEE_DATA_FLAG_ACCESS_WRITE : Z := 0x2.
Definition TEE_DATA_FLAG_ACCESS_WRITE_META : Z := 0x4.
Definition TEE_DATA_FLAG_SHARE_READ : Z := 0x10.
Definition TEE_DATA_FLAG_SHARE_WRITE : Z := 0x20.

#[global] Instance TEE_UUID_eq_dec : EqDecision TEE_UUID.
Proof. solve_decision. Defined.

(** [obj_id_len] is the length of [obj_id]; [fops] is the address of the file
    operations. *)
Record tee_pobj := MkPobj {
  refcnt : Z;
  uuid : TEE_UUID;
  obj_id : list Z;
  flags : Z;
  temporary : bool;
  fops : nat;
}.

Abbreviation pobjs := (list (nat * tee_pobj)).

(** [flags & mask] as a condition. *)
Definition has (flags mask : Z) : bool := negb (Z.land flags mask =? 0).

Definition tee_pobj_check_access (oflags nflags : Z) : tee_result :=
  if has oflags TEE_DATA_FLAG_ACCESS_WRITE_META
     || has nflags TEE_DATA_FLAG_ACCESS_WRITE_META then TEE_ERROR_ACCESS_CONFLICT
  else if (has oflags TEE_DATA_FLAG_ACCESS_READ || has nflags TEE_DATA_FLAG_ACCESS_READ)
     && negb (has nflags TEE_DATA_FLAG_SHARE_READ && has oflags TEE_DATA_FLAG_SHARE_READ)
  then TEE_ERROR_ACCESS_CONFLICT
  else if negb (Z.land nflags TEE_DATA_FLAG_SHARE_READ =?
                Z.land oflags TEE_DATA_FLAG_SHARE_READ) then TEE_ERROR_ACCESS_CONFLICT
  else if (has oflags TEE_DATA_FLAG_ACCESS_WRITE || has nflags TEE_DATA_FLAG_ACCESS_WRITE)
     && negb (has nflags TEE_DATA_FLAG_SHARE_WRITE && has oflags TEE_DATA_FLAG_SHARE_WRITE)
  then TEE_ERROR_ACCESS_CONFLICT
  else if negb (Z.land nflags TEE_DATA_FLAG_SHARE_WRITE =?
                Z.land oflags TEE_DATA_FLAG_SHARE_WRITE) then TEE_ERROR_ACCESS_CONFLICT
  else TEE_SUCCESS.

(** The identity of an object. *)
Record key := MkKey { k_uuid : TEE_UUID; k_id : list Z; k_fops : nat }.

#[global] Instance key_eq_dec : EqDecision key.
Proof. solve_decision. Defined.

Definition key_of (o : tee_pobj) : key := MkKey (uuid o) (obj_id o) (fops o).

(** The TAILQ_FOREACH of tee_pobj_get() does not stop at a match: the last
    matching object is taken. *)
Definition find_pobj (st : pobjs) (k : key) : option (nat * tee_pobj) :=
  foldl (λ found ao, if bool_decide (key_of ao.2 = k) then Some ao else found) None st.

Definition set_refcnt (o : tee_pobj) (n : Z) : tee_pobj :=
  MkPobj n (uuid o) (obj_id o) (flags o) (temporary o) (fops o).

Definition update (st : pobjs) (a : nat) (f : tee_pobj → tee_pobj) : pobjs :=
  (λ ao, if (ao.1 =? a)%nat then (a, f ao.2) else ao) <$> st.

(** [mem] is the address calloc() returns, [mem_id] whether malloc() succeeds
    for the identifier. *)
Definition tee_pobj_get (u : TEE_UUID) (id : list Z) (fl : Z) (temp : bool) (fo : nat)
    (mem : option nat) (mem_id : bool) (st : pobjs) : outcome tee_result nat * pobjs :=
  match find_pobj st (MkKey u id fo) with
  | Some (a, o) =>
    if negb (Bool.eqb temp (temporary o)) then (Err TEE_ERROR_ACCESS_CONFLICT, st)
    else match tee_pobj_check_access (flags o) fl with
    | TEE_SUCCESS => (Ok a, update st a (λ o, set_refcnt o (wrap 32 (refcnt o + 1))))
    | res => (Err res, st)
    end
  | None =>
    match mem with
    | None => (Err TEE_ERROR_OUT_OF_MEMORY, st)
    | Some a =>
      if negb mem_id then (Err TEE_ERROR_OUT_OF_MEMORY, st)
      else (Ok a, st ++ [(a, MkPobj 1 u id fl temp fo)])
    end
  end.

Fixpoint lookup_pobj (st : pobjs) (a : nat) : option tee_pobj :=
  match st with
  | [] => None
  | (a', o) :: st => if (a' =? a)%nat then Some o else lookup_pobj st a
  end.

(** A pointer that is not in the queue is dangling: undefined behaviour. *)
Definition tee_pobj_release (obj : option nat) (st : pobjs) : outcome tee_result unit * pobjs :=
  match obj with
  | None => (Err TEE_ERROR_BAD_PARAMETERS, st)
  | Some a =>
    match lookup_pobj st a with
    | None => (Panicked, st)
    | Some o =>
      let st := update st a (λ o, set_refcnt o (wrap 32 (refcnt o - 1))) in
      if wrap 32 (refcnt o - 1) =? 0
      then (Ok tt, filter (λ ao, ao.1 ≠ a) st)
      else (Ok tt, st)
    end
  end.

Definition tee_pobj_rename (obj : option nat) (id : option (list Z)) (mem : bool) (st : pobjs)
    : outcome tee_result unit * pobjs :=
  match obj, id with
  | Some a, Some id =>
    match lookup_pobj st a with
    | None => (Panicked, st)
    | Some o =>
      if negb (refcnt o =? 1) then (Err TEE_ERROR_BAD_STATE, st)
      else if negb mem then (Err TEE_ERROR_OUT_OF_MEMORY, st)
      else (Ok tt, update st a (λ o,
             MkPobj (refcnt o) (uuid o) id (flags o) (temporary o) (fops o)))
    end
  | _, _ => (Err TEE_ERROR_BAD_PARAMETERS, st)
  end.

(** ** Compatible handles *)

(** What the specification that the comments quote asks of two handles that are
    open on one object, by the flags they were opened with, whichever came first:
    neither may write the meta data; if one of the two may read, both have to
    share reading; a handle that shares reading and one that does not exclude
    each other; and the same for writing. *)
Record compat (f g : Z) : Prop := {
  compat_meta : ∀ h, h = f ∨ h = g → has h TEE_DATA_FLAG_ACCESS_WRITE_META = false;
  compat_read : ∀ h, h = f ∨ h = g → has h TEE_DATA_FLAG_ACCESS_READ = true →
    has f TEE_DATA_FLAG_SHARE_READ = true ∧ has g TEE_DATA_FLAG_SHARE_READ = true;
  compat_share_read :
    has f TEE_DATA_FLAG_SHARE_READ = true ↔ has g TEE_DATA_FLAG_SHARE_READ = true;
  compat_write : ∀ h, h = f ∨ h = g → has h TEE_DATA_FLAG_ACCESS_WRITE = true →
    has f TEE_DATA_FLAG_SHARE_WRITE = true ∧ has g TEE_DATA_FLAG_SHARE_WRITE = true;
  compat_share_write :
    has f TEE_DATA_FLAG_SHARE_WRITE = true ↔ has g TEE_DATA_FLAG_SHARE_WRITE = true;
}.

(** The same as conditions on the flags of the first. *)
Lemma compat_spec f g :
  compat f g ↔
  has f TEE_DATA_FLAG_ACCESS_WRITE_META = false ∧
  has g TEE_DATA_FLAG_ACCESS_WRITE_META = false ∧
  has f TEE_DATA_FLAG_SHARE_READ = has g TEE_DATA_FLAG_SHARE_READ ∧
  has f TEE_DATA_FLAG_SHARE_WRITE = has g TEE_DATA_FLAG_SHARE_WRITE ∧
  (has f TEE_DATA_FLAG_ACCESS_READ || has g TEE_DATA_FLAG_ACCESS_READ = true →
   has f TEE_DATA_FLAG_SHARE_READ = true) ∧
  (has f TEE_DATA_FLAG_ACCESS_WRITE || has g TEE_DATA_FLAG_ACCESS_WRITE = true →
   has f TEE_DATA_FLAG_SHARE_WRITE = true).
Proof.
  split.
  - intros [Hm Hr Hsr Hw Hsw]. apply eq_true_iff_eq in Hsr, Hsw. split_and!; [by auto..|done|done| |];
      (intros [H|H]%orb_true_iff; [first [by eapply Hr; [left|]|by eapply Hw; [left|]]
        |first [by eapply Hr; [right|]|by eapply Hw; [right|]]]).
  - intros (Hf & Hg & Hsr & Hsw & Hr & Hw).
    constructor; [by intros h [->| ->]| |by rewrite Hsr| |by rewrite Hsw];
      intros h Hh Hx; rewrite <- ?Hsr, <- ?Hsw; (split; first [apply Hr|apply Hw]);
      (destruct Hh as [->| ->]; rewrite Hx, ?orb_true_r; done).
Qed.

(** The flags are single bits: the masked words differ when the tests do. *)
Lemma land_bit n a : 0 <= n → Z.land a (2 ^ n) = if has a (2 ^ n) then 2 ^ n else 0.
Proof.
  intros Hn. assert (Z.land a (2 ^ n) = if Z.testbit a n then 2 ^ n else 0) as H.
  { apply Z.bits_inj'. intros m Hm. rewrite Z.land_spec, Z.pow2_bits_eqb by done.
    destruct (Z.eqb_spec n m) as [<-|Hne].
    - destruct (Z.testbit a n); [by rewrite Z.pow2_bits_true|by rewrite Z.bits_0].
    - rewrite andb_false_r. destruct (Z.testbit a n); [|by rewrite Z.bits_0].
      by rewrite Z.pow2_bits_false. }
  unfold has. rewrite H. destruct (Z.testbit a n); [|done].
  by destruct (Z.eqb_spec (2 ^ n) 0).
Qed.

Lemma land_has n a b :
  0 <= n → (Z.land a (2 ^ n) =? Z.land b (2 ^ n)) = Bool.eqb (has a (2 ^ n)) (has b (2 ^ n)).
Proof.
  intros Hn. rewrite !land_bit by done. assert (0 < 2 ^ n) by (apply Z.pow_pos_nonneg; lia).
  destruct (has a _), (has b _); cbn [Bool.eqb]; rewrite ?Z.eqb_refl; try done;
    by apply Z.eqb_neq; lia.
Qed.

(** tee_pobj_check_access() decides this relation. *)
Lemma check_access_spec f g : tee_pobj_check_access f g = TEE_SUCCESS ↔ compat f g.
Proof.
  rewrite compat_spec. unfold tee_pobj_check_access.
  rewrite (land_has 4 : ∀ a b, _ → (Z.land a TEE_DATA_FLAG_SHARE_READ =? _) = _),
    (land_has 5 : ∀ a b, _ → (Z.land a TEE_DATA_FLAG_SHARE_WRITE =? _) = _) by done.
  change (2 ^ 4) with TEE_DATA_FLAG_SHARE_READ. change (2 ^ 5) with TEE_DATA_FLAG_SHARE_WRITE.
  destruct (has f TEE_DATA_FLAG_ACCESS_WRITE_META), (has g TEE_DATA_FLAG_ACCESS_WRITE_META);
    cbn [orb]; try by (split; [|intros (? & ? & _)]).
  generalize (has f TEE_DATA_FLAG_ACCESS_READ || has g TEE_DATA_FLAG_ACCESS_READ).
  generalize (has f TEE_DATA_FLAG_ACCESS_WRITE || has g TEE_DATA_FLAG_ACCESS_WRITE).
  intros w r. destruct r, w, (has f TEE_DATA_FLAG_SHARE_READ), (has g TEE_DATA_FLAG_SHARE_READ),
    (has f TEE_DATA_FLAG_SHARE_WRITE), (has g TEE_DATA_FLAG_SHARE_WRITE);
    cbn [negb andb Bool.eqb]; clear; naive_solver.
Qed.

#[global] Instance compat_dec f g : Decision (compat f g).
Proof.
  refine (cast_if (decide (tee_pobj_check_access f g = TEE_SUCCESS))); by rewrite <- check_access_spec.
Defined.

(** Compatibility is a partial equivalence: symmetric and transitive. *)
#[global] Instance compat_sym : Symmetric compat.
Proof.
  intros a b. rewrite !compat_spec. intros (? & ? & Hr & Hw & H1 & H2).
  rewrite <- Hr, <- Hw, (orb_comm (has b _)), (orb_comm (has b TEE_DATA_FLAG_ACCESS_WRITE)).
  done.
Qed.

#[global] Instance compat_trans : Transitive compat.
Proof.
  intros a b c. rewrite !compat_spec.
  intros (? & ? & Hr & Hw & H1 & H2) (? & ? & Hr' & Hw' & H1' & H2').
  rewrite <- Hr in H1'. rewrite <- Hw in H2'.
  split_and!; [done|done|congruence|congruence| |];
    (intros [Hx|Hx]%orb_true_iff; [first [apply H1|apply H2]|first [apply H1'|apply H2']];
     by rewrite Hx, ?orb_true_r).
Qed.

Lemma check_access_cases a b :
  tee_pobj_check_access a b = TEE_SUCCESS ∨ tee_pobj_check_access a b = TEE_ERROR_ACCESS_CONFLICT.
Proof. unfold tee_pobj_check_access. repeat case_match; auto. Qed.

Lemma meta_not_compat a b : has a TEE_DATA_FLAG_ACCESS_WRITE_META = true → ¬ compat a b.
Proof. rewrite compat_spec. intros ? (? & _). congruence. Qed.

(** ** The queue as a map *)

Lemma lookup_update st a f b :
  lookup_pobj (update st a f) b =
  if (a =? b)%nat then f <$> lookup_pobj st a else lookup_pobj st b.
Proof.
  induction st as [|[x o] st IH]; simpl; [by case_match|].
  destruct (Nat.eqb_spec x a) as [->|]; simpl.
  - destruct (Nat.eqb_spec a b) as [->|]; [done|]. rewrite IH. done.
  - destruct (Nat.eqb_spec a b) as [->|]; [|by rewrite IH].
    destruct (Nat.eqb_spec x b); [done|]. by rewrite IH.
Qed.

Lemma lookup_filter st a b :
  lookup_pobj (filter (λ ao : nat * tee_pobj, ao.1 ≠ a) st) b =
  if (a =? b)%nat then None else lookup_pobj st b.
Proof.
  induction st as [|[x o] st IH]; [by simpl; case_match|].
  rewrite filter_cons. cbn [fst]. case_decide as Hx; cbn [lookup_pobj]; rewrite IH.
  - destruct (Nat.eqb_spec x b), (Nat.eqb_spec a b); congruence.
  - destruct (Nat.eqb_spec a b); [done|]. destruct (Nat.eqb_spec x b); [lia|done].
Qed.

Lemma lookup_snoc st a o b :
  lookup_pobj (st ++ [(a, o)]) b =
  match lookup_pobj st b with Some o => Some o | None => if (a =? b)%nat then Some o else None end.
Proof.
  induction st as [|[x o'] st IH]; simpl; [done|]. by destruct (Nat.eqb_spec x b).
Qed.

Lemma lookup_In st a o :
  NoDup st.*1 → lookup_pobj st a = Some o ↔ (a, o) ∈ st.
Proof.
  induction st as [|[x o'] st IH]; simpl; intros Hnd.
  { split; [done|]. by intros ?%elem_of_nil. }
  apply NoDup_cons in Hnd as [Hx Hnd]. rewrite elem_of_cons, <- IH by done.
  destruct (Nat.eqb_spec x a) as [->|Hne].
  - split; [intros [= ->]; by left|]. intros [[= ->]|Hl]; [done|].
    destruct Hx. apply IH in Hl; [|done]. by apply (list_elem_of_fmap_2 fst) in Hl.
  - split; [by right|]. intros [[= -> ->]|?]; done.
Qed.

Lemma find_pobj_spec st k :
  match find_pobj st k with
  | Some (a, o) => (a, o) ∈ st ∧ key_of o = k
  | None => ∀ a o, (a, o) ∈ st → key_of o ≠ k
  end.
Proof.
  unfold find_pobj. induction st as [|[a o] st IH] using rev_ind; simpl.
  { intros a o ?%elem_of_nil. done. }
  rewrite foldl_app. simpl. case_bool_decide as Hk; simpl in *.
  { split; [|done]. set_solver. }
  destruct (foldl _ None st) as [[a' o']|].
  { destruct IH. split; [set_solver|done]. }
  intros a' o' [Hin|Hin%list_elem_of_singleton]%elem_of_app; [by eapply IH|congruence].
Qed.

(** ** The open handles *)

(** The flags of the handles open on the object at [a]. *)
Definition on (hs : list (nat * Z)) (a : nat) : list Z := snd <$> filter (λ h, h.1 = a) hs.

(** What syscall_storage_obj_rename() has established when it calls
    tee_pobj_rename(): its own handle has meta access, and so has the one that
    reserves the new name. *)
Definition rename_reserved (st : pobjs) (a : nat) (k : key) : Prop :=
  ∀ o, lookup_pobj st a = Some o → has (flags o) TEE_DATA_FLAG_ACCESS_WRITE_META = true ∧
  ∀ b o', b ≠ a → lookup_pobj st b = Some o' → key_of o' = k →
    has (flags o') TEE_DATA_FLAG_ACCESS_WRITE_META = true.

(** The queue and the handles in use, each the address it was given and the
    flags it was opened with. *)
Inductive pobj_reachable : pobjs → list (nat * Z) → Prop :=
| pr_init : pobj_reachable [] []
| pr_get st hs u id fl temp fo mem mem_id a st' :
    pobj_reachable st hs → Z.of_nat (length hs) < 2 ^ 32 - 1 →
    (∀ a, mem = Some a → lookup_pobj st a = None) →
    tee_pobj_get u id fl temp fo mem mem_id st = (Ok a, st') →
    pobj_reachable st' ((a, fl) :: hs)
| pr_release st h1 a fl h2 st' :
    pobj_reachable st (h1 ++ (a, fl) :: h2) →
    tee_pobj_release (Some a) st = (Ok tt, st') → pobj_reachable st' (h1 ++ h2)
| pr_rename st hs a id mem st' :
    pobj_reachable st hs → a ∈ hs.*1 →
    (∀ o, lookup_pobj st a = Some o → rename_reserved st a (MkKey (uuid o) id (fops o))) →
    tee_pobj_rename (Some a) (Some id) mem st = (Ok tt, st') → pobj_reachable st' hs.

(** How the flags of an object relate to those of its handles: there is one
    handle, or all are compatible with the flags of the first. *)
Definition shared (f : Z) (l : list Z) : Prop :=
  l = [f] ∨ (l ≠ [] ∧ compat f f ∧ Forall (compat f) l).

Record pobj_inv (st : pobjs) (hs : list (nat * Z)) : Prop := {
  inv_nodup : NoDup st.*1;
  inv_obj : ∀ a o, lookup_pobj st a = Some o →
    refcnt o = Z.of_nat (length (on hs a)) ∧ shared (flags o) (on hs a);
  inv_handle : ∀ h, h ∈ hs → is_Some (lookup_pobj st h.1);
  inv_dup : ∀ a b o o', a ≠ b → lookup_pobj st a = Some o → lookup_pobj st b = Some o' →
    key_of o = key_of o' → has (flags o) TEE_DATA_FLAG_ACCESS_WRITE_META = true;
}.

Lemma update_fst st a f : (update st a f).*1 = st.*1.
Proof.
  unfold update. rewrite <- list_fmap_compose. apply list_fmap_ext. intros i [x o] _. simpl.
  destruct (Nat.eqb_spec x a); by subst.
Qed.

Lemma on_cons a fl hs b : on ((a, fl) :: hs) b = if (a =? b)%nat then fl :: on hs b else on hs b.
Proof. unfold on. rewrite filter_cons. simpl. by destruct (Nat.eqb_spec a b); case_decide. Qed.

Lemma on_app h1 h2 b : on (h1 ++ h2) b = on h1 b ++ on h2 b.
Proof. unfold on. by rewrite filter_app, fmap_app. Qed.

Lemma on_length hs a : (length (on hs a) <= length hs)%nat.
Proof. unfold on. rewrite length_fmap. apply length_filter. Qed.

Lemma shared_cons f l n : shared f l → compat f n → shared f (n :: l).
Proof.
  intros Hs Hn. assert (compat f f) as Hff by (etrans; [exact Hn|by symmetry]).
  right. destruct Hs as [->|(Hl & _ & Hall)]; (split; [done|split; [done|]]);
    by rewrite ?Forall_cons, ?Forall_nil.
Qed.

Lemma shared_delete f l1 x l2 : shared f (l1 ++ x :: l2) → l1 ++ l2 ≠ [] → shared f (l1 ++ l2).
Proof.
  intros [Heq|(_ & Hff & Hall)] Hne.
  - destruct l1 as [|? [|]]; destruct l2; by inversion Heq.
  - right. split; [done|]. split; [done|].
    rewrite Forall_app, Forall_cons in Hall. rewrite Forall_app. tauto.
Qed.

(** A request is compatible with the object's flags exactly when it is
    compatible with every handle that is open. *)
Lemma shared_compat f l n : shared f l → compat f n ↔ Forall (λ h, compat h n) l.
Proof.
  intros [->|(Hne & Hff & Hall)].
  { by rewrite Forall_singleton. }
  split.
  - intros Hn. eapply Forall_impl; [exact Hall|]. intros h Hh. cbv beta. etrans; [|exact Hn].
    by symmetry.
  - intros Hn. destruct l as [|h l]; [done|]. apply Forall_cons in Hn as [Hn _].
    apply Forall_cons in Hall as [Hh _]. by etrans.
Qed.

Lemma shared_pairwise f l : shared f l → ∀ i j a b, i ≠ j → l !! i = Some a → l !! j = Some b → compat a b.
Proof.
  intros [->|(_ & _ & Hall)] i j a b Hij Ha Hb.
  - destruct i, j; simplify_eq/=.
  - rewrite Forall_lookup in Hall. etrans; [symmetry|]; by eapply Hall.
Qed.

Lemma NoDup_filter_fst st a :
  NoDup st.*1 → NoDup (filter (λ ao : nat * tee_pobj, ao.1 ≠ a) st).*1.
Proof.
  induction st as [|[x o] st IH]; [done|]. rewrite fmap_cons, NoDup_cons. intros [Hx Hnd].
  rewrite filter_cons. cbn [fst]. case_decide; [|by apply IH].
  rewrite fmap_cons, NoDup_cons. split; [|by apply IH]. intros Hin. apply Hx.
  apply list_elem_of_fmap in Hin as (y & Hy & Hin). apply list_elem_of_filter in Hin as [_ Hin].
  apply list_elem_of_fmap. eauto.
Qed.

Lemma on_nil st hs a : pobj_inv st hs → lookup_pobj st a = None → on hs a = [].
Proof.
  intros Hinv Ha. unfold on. destruct (filter _ hs) as [|h l] eqn:Hf; [done|].
  assert (h ∈ filter (λ h, h.1 = a) hs) as Hin by (rewrite Hf; left).
  apply list_elem_of_filter in Hin as [<- Hin]. destruct (inv_handle _ _ Hinv h Hin). congruence.
Qed.

Lemma get_cases u id fl temp fo mem mem_id st :
  NoDup st.*1 →
  let k := MkKey u id fo in
  (∃ a o, lookup_pobj st a = Some o ∧ key_of o = k ∧
    tee_pobj_get u id fl temp fo mem mem_id st =
    if bool_decide (temp = temporary o ∧ compat (flags o) fl)
    then (Ok a, update st a (λ o, set_refcnt o (wrap 32 (refcnt o + 1))))
    else (Err TEE_ERROR_ACCESS_CONFLICT, st)) ∨
  ((∀ a o, lookup_pobj st a = Some o → key_of o ≠ k) ∧
    tee_pobj_get u id fl temp fo mem mem_id st =
    match mem with
    | Some a => if mem_id then (Ok a, st ++ [(a, MkPobj 1 u id fl temp fo)])
                else (Err TEE_ERROR_OUT_OF_MEMORY, st)
    | None => (Err TEE_ERROR_OUT_OF_MEMORY, st)
    end).
Proof.
  intros Hnd k. unfold tee_pobj_get. fold k. pose proof (find_pobj_spec st k) as Hf.
  destruct (find_pobj st k) as [[a o]|]; [left|right].
  - destruct Hf as [Hin Hk]. exists a, o. split; [by apply lookup_In|]. split; [done|].
    destruct (decide (temp = temporary o)) as [->|Hne].
    + rewrite eqb_reflx. cbn [negb].
      destruct (check_access_cases (flags o) fl) as [Hc|Hc]; rewrite Hc.
      * apply check_access_spec in Hc. by rewrite bool_decide_eq_true_2.
      * rewrite bool_decide_eq_false_2; [done|]. intros [_ Hx%check_access_spec]. congruence.
    + rewrite (proj2 (eqb_false_iff _ _)) by done. rewrite bool_decide_eq_false_2 by tauto. done.
  - split; [|by destruct mem as [a|]; [destruct mem_id|]].
    intros a o Ha. apply lookup_In in Ha; [|done]. by eapply Hf.
Qed.

Lemma inv_get st hs u id fl temp fo mem mem_id a st' :
  pobj_inv st hs → Z.of_nat (length hs) < 2 ^ 32 - 1 →
  (∀ a, mem = Some a → lookup_pobj st a = None) →
  tee_pobj_get u id fl temp fo mem mem_id st = (Ok a, st') → pobj_inv st' ((a, fl) :: hs).
Proof.
  intros Hinv Hlen Hmem Hget.
  destruct (get_cases u id fl temp fo mem mem_id st (inv_nodup _ _ Hinv))
    as [(a' & o & Ha & Hk & Heq)|[Hnone Heq]]; rewrite Hget in Heq.
  - case_bool_decide as Hc; [|done]. destruct Hc as [_ Hc]. injection Heq as <- ->.
    destruct (inv_obj _ _ Hinv a o Ha) as [Hcnt Hsh]. constructor.
    + rewrite update_fst. apply Hinv.
    + intros b o' Hb. rewrite lookup_update in Hb. rewrite on_cons.
      destruct (Nat.eqb_spec a b) as [->|]; [|by apply Hinv].
      rewrite Ha in Hb. injection Hb as <-. simpl. rewrite Hcnt.
      pose proof (on_length hs b). split; [|by apply shared_cons].
      rewrite wrap_small by (unfold in_range; lia). lia.
    + intros h Hh. rewrite lookup_update.
      destruct (Nat.eqb_spec a h.1) as [Hah|Hah]; [rewrite Ha; by eexists|].
      apply elem_of_cons in Hh as [->|Hh]; [done|]. by apply Hinv.
    + intros b c o1 o2 Hbc Hb Hd Hkk. rewrite lookup_update in Hb, Hd.
      destruct (Nat.eqb_spec a b), (Nat.eqb_spec a c); [congruence|subst b|subst c|].
      * rewrite Ha in Hb. injection Hb as <-. by apply (inv_dup _ _ Hinv a c o o2).
      * rewrite Ha in Hd. injection Hd as <-. by apply (inv_dup _ _ Hinv b a o1 o).
      * by eapply (inv_dup _ _ Hinv b c).
  - destruct mem as [a'|]; [|done]. destruct mem_id; [|done]. injection Heq as <- ->.
    specialize (Hmem a eq_refl). constructor.
    + rewrite fmap_app. apply NoDup_app. split; [apply Hinv|]. split; [|apply NoDup_singleton].
      intros x Hx. simpl. intros Hxa%list_elem_of_singleton.
      apply list_elem_of_fmap in Hx as ([y o] & Hy & Hin). apply lookup_In in Hin; [|apply Hinv].
      simpl in *. congruence.
    + intros b o Hb. rewrite lookup_snoc in Hb. rewrite on_cons.
      destruct (Nat.eqb_spec a b) as [->|].
      * rewrite Hmem in Hb. injection Hb as <-. rewrite (on_nil st) by done. simpl.
        split; [done|]. by left.
      * apply Hinv. by destruct (lookup_pobj st b).
    + intros h Hh. rewrite lookup_snoc. apply elem_of_cons in Hh as [->|Hh].
      * simpl. rewrite Hmem, Nat.eqb_refl. by eexists.
      * by destruct (inv_handle _ _ Hinv h Hh) as [o ->].
    + intros b c o1 o2 Hbc Hb Hd Hkk. rewrite lookup_snoc in Hb, Hd.
      destruct (lookup_pobj st b) as [ob|] eqn:Eb, (lookup_pobj st c) as [oc|] eqn:Ec.
      * injection Hb as ->. injection Hd as ->. by apply (inv_dup _ _ Hinv b c o1 o2).
      * injection Hb as ->. case_match; [|done]. injection Hd as <-. by destruct (Hnone b o1).
      * injection Hd as ->. case_match; [|done]. injection Hb as <-. by destruct (Hnone c o2).
      * destruct (Nat.eqb_spec a b), (Nat.eqb_spec a c); congruence.
Qed.

Lemma inv_release st h1 a fl h2 st' :
  pobj_inv st (h1 ++ (a, fl) :: h2) → Z.of_nat (length (h1 ++ (a, fl) :: h2)) < 2 ^ 32 →
  tee_pobj_release (Some a) st = (Ok tt, st') →
  pobj_inv st' (h1 ++ h2) ∧
  (lookup_pobj st' a = None ↔ on (h1 ++ h2) a = []).
Proof.
  intros Hinv Hlen. simpl. destruct (lookup_pobj st a) as [o|] eqn:Ha; [|done].
  destruct (inv_obj _ _ Hinv a o Ha) as [Hcnt Hsh].
  assert (∀ b, on (h1 ++ (a, fl) :: h2) b =
    if (a =? b)%nat then on h1 b ++ fl :: on h2 b else on (h1 ++ h2) b) as Hon.
  { intros b. rewrite !on_app, on_cons. by case_match. }
  pose proof (on_length (h1 ++ (a, fl) :: h2) a).
  rewrite Hon, Nat.eqb_refl in Hcnt, Hsh, H.
  rewrite length_app in Hcnt, H. simpl in Hcnt, H.
  assert (wrap 32 (refcnt o - 1) = refcnt o - 1) as Hwr
    by (apply wrap_small; unfold in_range; lia).
  rewrite Hwr. assert (refcnt o - 1 = Z.of_nat (length (on (h1 ++ h2) a))) as Hcnt'
    by (rewrite on_app, length_app; lia).
  destruct (Z.eqb_spec (refcnt o - 1) 0) as [Hz|Hz].
  - intros [= <-]. rewrite Hz in Hcnt'.
    assert (on (h1 ++ h2) a = []) as Hnil by (apply nil_length_inv; lia).
    assert (∀ f b, lookup_pobj (filter (λ ao : nat * tee_pobj, ao.1 ≠ a) (update st a f)) b =
      if (a =? b)%nat then None else lookup_pobj st b) as Hl.
    { intros f b. rewrite lookup_filter, lookup_update. by case_match. }
    split; [|by rewrite Hl, Nat.eqb_refl]. constructor.
    + apply NoDup_filter_fst. rewrite update_fst. apply Hinv.
    + intros b o' Hb. rewrite Hl in Hb. destruct (Nat.eqb_spec a b); [done|].
      specialize (Hon b). rewrite (proj2 (Nat.eqb_neq a b)) in Hon by done.
      rewrite <- Hon. by apply Hinv.
    + intros h Hh. rewrite Hl. destruct (Nat.eqb_spec a h.1) as [->|].
      * exfalso. unfold on in Hnil. apply fmap_nil_inv in Hnil.
        assert (h ∈ filter (λ h0, h0.1 = h.1) (h1 ++ h2)) as Hin by by apply list_elem_of_filter.
        rewrite Hnil in Hin. by apply elem_of_nil in Hin.
      * apply Hinv. set_solver.
    + intros b c o1 o2 Hbc Hb Hd. rewrite Hl in Hb, Hd.
      destruct (Nat.eqb_spec a b), (Nat.eqb_spec a c); try done. by eapply (inv_dup _ _ Hinv b c).
  - intros [= <-]. assert (on (h1 ++ h2) a ≠ []) as Hne.
    { intros Hnil. rewrite Hnil in Hcnt'. simpl in Hcnt'. lia. }
    split; [|by rewrite lookup_update, Nat.eqb_refl, Ha].
    assert (on h1 a ++ on h2 a ≠ []) as Hne' by by rewrite <- on_app. constructor.
    + rewrite update_fst. apply Hinv.
    + intros b o' Hb. rewrite lookup_update in Hb. specialize (Hon b).
      destruct (Nat.eqb_spec a b) as [->|].
      * rewrite Ha in Hb. injection Hb as <-. cbn [refcnt set_refcnt flags]. rewrite Hwr.
        split; [done|]. rewrite on_app. by eapply shared_delete.
      * rewrite <- Hon. by apply Hinv.
    + intros h Hh. rewrite lookup_update. destruct (Nat.eqb_spec a h.1); [rewrite Ha; by eexists|].
      apply Hinv. set_solver.
    + intros b c o1 o2 Hbc Hb Hd Hkk. rewrite lookup_update in Hb, Hd.
      destruct (Nat.eqb_spec a b), (Nat.eqb_spec a c); [congruence|subst b|subst c|].
      * rewrite Ha in Hb. injection Hb as <-. by apply (inv_dup _ _ Hinv a c o o2).
      * rewrite Ha in Hd. injection Hd as <-. by apply (inv_dup _ _ Hinv b a o1 o).
      * by eapply (inv_dup _ _ Hinv b c).
Qed.

Lemma inv_rename st hs a id mem st' :
  pobj_inv st hs →
  (∀ o, lookup_pobj st a = Some o → rename_reserved st a (MkKey (uuid o) id (fops o))) →
  tee_pobj_rename (Some a) (Some id) mem st = (Ok tt, st') → pobj_inv st' hs.
Proof.
  intros Hinv Hres. simpl. destruct (lookup_pobj st a) as [o|] eqn:Ha; [|done].
  destruct (refcnt o =? 1); [|done]. destruct mem; [|done]. simpl. intros [= <-].
  destruct (Hres o eq_refl o Ha) as [Hmeta Hother]. constructor.
  - rewrite update_fst. apply Hinv.
  - intros b o' Hb. rewrite lookup_update in Hb.
    destruct (Nat.eqb_spec a b) as [->|]; [|by apply Hinv].
    rewrite Ha in Hb. injection Hb as <-. apply (inv_obj _ _ Hinv b o Ha).
  - intros h Hh. rewrite lookup_update. destruct (Nat.eqb_spec a h.1); [rewrite Ha; by eexists|].
    by apply Hinv.
  - intros b c o1 o2 Hbc Hb Hd Hkk. rewrite lookup_update in Hb, Hd.
    destruct (Nat.eqb_spec a b), (Nat.eqb_spec a c); [congruence|subst b|subst c|].
    + rewrite Ha in Hb. injection Hb as <-. done.
    + rewrite Ha in Hd. injection Hd as <-. by eapply (Hother b).
    + by eapply (inv_dup _ _ Hinv b c).
Qed.

Lemma pobj_reachable_inv st hs : pobj_reachable st hs → pobj_inv st hs.
Proof.
  assert (∀ st hs, pobj_reachable st hs → pobj_inv st hs ∧ Z.of_nat (length hs) < 2 ^ 32) as H;
    [|intros; by apply H].
  induction 1 as [|st' hs' u id fl temp fo mem mem_id a st'' _ [IH _] Hlen Hmem Hget
    |st' h1 a fl h2 st'' _ [IH Hlen] Hrel|st' hs' a id mem st'' _ [IH Hlen] Hin Hres Hren].
  - split; [|done]. constructor; [constructor|done| |done]. by intros h ?%elem_of_nil.
  - split; [by eapply inv_get|]. cbn [length]. lia.
  - split; [by eapply inv_release|]. rewrite length_app in *. cbn [length] in Hlen. lia.
  - split; [by eapply inv_rename|done].
Qed.

(** ** Properties *)

(** An object open with no flag at all does not lock out a second handle with no
    flag, although a comment in tee_pobj_check_access() says that it locks all
    subsequent attempts; it locks out every handle that can do or share
    something. *)
Lemma no_flags_do_not_lock : compat 0 0.
Proof. by apply compat_spec. Qed.



(** ** Witnesses *)

Definition ex_uuid : TEE_UUID := MkUuid 1 2 3 [4; 5; 6; 7; 8; 9; 10; 11].
Definition ex_flags : Z := 0x11.  (* read, share read *)

(** Two handles on one object. *)
Definition ex_obj (n : Z) : tee_pobj := MkPobj n ex_uuid [104; 105] ex_flags false 9.

Lemma ex_reachable : pobj_reachable [(1%nat, ex_obj 2)] [(1%nat, ex_flags); (1%nat, ex_flags)].
Proof.
  apply (pr_get [(1%nat, ex_obj 1)] [(1%nat, ex_flags)] ex_uuid [104; 105] ex_flags false 9 None true);
    [|reflexivity|done|reflexivity].
  apply (pr_get [] [] ex_uuid [104; 105] ex_flags false 9 (Some 1%nat) true);
    [constructor|reflexivity|done|reflexivity].
Qed.



