(* ===== verification/Mutex.v ===== *)
(** * core/arch/arm/kernel/mutex.c and wait_queue.c

    One mutex with its wait queue and the condition variables bound to it, used
    by any number of threads. A step is what runs under one spinlock (the
    mutex's or the wait queue's) or one RPC; between two steps of a thread any
    other thread may run. The normal world executes the sleep and wake RPCs: it
    may return from a sleep at any time, and is only relied on to return from it
    when a wakeup was posted. *)
From S2P Require Import Prelude.

Local Open Scope Z_scope.

(** ** The wait queue *)

(** [handle] is the thread that waits; a thread is in the queue at most once. *)
Record wait_queue_elem := Wqe {
  handle : nat;
  done : bool;
  wait_read : bool;
  cv : option nat;
}.

Abbreviation wait_queue := (list wait_queue_elem).

Definition slist_add_tail (wq : wait_queue) (wqe : wait_queue_elem) : wait_queue := wq ++ [wqe].

Definition wq_wait_init_condvar (wq : wait_queue) (id : nat) (cv : option nat) (rd : bool)
    : wait_queue :=
  slist_add_tail wq (Wqe id false rd cv).

Definition wq_wait_init (wq : wait_queue) (id : nat) (rd : bool) : wait_queue :=
  wq_wait_init_condvar wq id None rd.

(** SLIST_REMOVE of the calling thread's element. *)
Fixpoint slist_remove (wq : wait_queue) (id : nat) : wait_queue :=
  match wq with
  | [] => []
  | e :: wq => if (handle e =? id)%nat then wq else e :: slist_remove wq id
  end.

(** The spinlocked section in the loop of wq_wait_final(): [done], and the
    queue without the element when it is. *)
Definition wq_wait_final_section (wq : wait_queue) (id : nat) : bool * wait_queue :=
  match list_find (λ e, handle e = id) wq with
  | Some (_, e) => if done e then (true, slist_remove wq id) else (false, wq)
  | None => (false, wq)
  end.

(** The spinlocked section in the loop of wq_wake_next(). [wake] is [Some
    wake_read] once [wake_type_assigned]. Returns the queue, [wake] and the
    handle of the waiter that was marked, if any. *)
Fixpoint wq_wake_section (wq : wait_queue) (wake : option bool)
    : wait_queue * option bool * option nat :=
  match wq with
  | [] => ([], wake, None)
  | e :: wq =>
    let skip wake :=
      let '(wq', wake', h) := wq_wake_section wq wake in (e :: wq', wake', h) in
    if bool_decide (is_Some (cv e)) then skip wake
    else if done e then skip wake
    else
      let wake_read := default (wait_read e) wake in
      if negb (Bool.eqb (wait_read e) wake_read) then skip (Some wake_read)
      else (Wqe (handle e) true (wait_read e) (cv e) :: wq, Some wake_read, Some (handle e))
  end.

Fixpoint wq_promote_condvar (wq : wait_queue) (c : nat) (only_one : bool) : wait_queue :=
  match wq with
  | [] => []
  | e :: wq =>
    if bool_decide (cv e = Some c) then
      Wqe (handle e) (done e) (wait_read e) None ::
      (if only_one then wq else wq_promote_condvar wq c only_one)
    else e :: wq_promote_condvar wq c only_one
  end.

Definition wq_have_condvar (wq : wait_queue) (c : nat) : bool :=
  existsb (λ e, bool_decide (cv e = Some c)) wq.

Definition wq_is_empty (wq : wait_queue) : bool := bool_decide (wq = []).

(** ** The mutex *)

(** The conversion to [short]. *)
Definition short (z : Z) : Z :=
  let v := wrap 16 z in if v <? 2 ^ 15 then v else v - 2 ^ 16.

(** [bound]: the condition variables whose [m] is this mutex. *)
Record mutex := MkMutex { wq : wait_queue; state : Z; bound : list nat }.

Definition mutex_init : mutex := MkMutex [] 0 [].

(** The spinlocked section of __mutex_lock() and __mutex_trylock(). *)
Definition can_lock_write (m : mutex) : bool := state m =? 0.
Definition __mutex_lock_section (m : mutex) (id : nat) : bool * mutex :=
  if can_lock_write m then (true, MkMutex (wq m) (-1) (bound m))
  else (false, MkMutex (wq_wait_init (wq m) id false) (state m) (bound m)).
Definition __mutex_trylock (m : mutex) : bool * mutex :=
  if can_lock_write m then (true, MkMutex (wq m) (-1) (bound m)) else (false, m).

(** The spinlocked section of __mutex_read_lock() and __mutex_read_trylock(). *)
Definition __mutex_read_lock_section (m : mutex) (id : nat) : bool * mutex :=
  if negb (state m =? -1) then (true, MkMutex (wq m) (short (state m + 1)) (bound m))
  else (false, MkMutex (wq_wait_init (wq m) id true) (state m) (bound m)).
Definition __mutex_read_trylock (m : mutex) : bool * mutex :=
  if negb (state m =? -1) then (true, MkMutex (wq m) (short (state m + 1)) (bound m))
  else (false, m).

(** The spinlocked section of __mutex_unlock(). *)
Definition __mutex_unlock_section (m : mutex) : outcome Empty_set mutex :=
  if state m =? 0 then Panicked else Ok (MkMutex (wq m) 0 (bound m)).

(** The spinlocked section of __mutex_read_unlock(), and [new_state]. *)
Definition __mutex_read_unlock_section (m : mutex) : outcome Empty_set (Z * mutex) :=
  if state m <=? 0 then Panicked
  else let s := short (state m - 1) in Ok (s, MkMutex (wq m) s (bound m)).

(** The sections of __condvar_wait() before it wakes and waits: whether the lock
    was held for reading, [new_state] and the mutex. *)
Definition __condvar_wait_section (m : mutex) (id c : nat)
    : outcome Empty_set (bool * Z * mutex) :=
  let bound := if bool_decide (c ∈ bound m) then bound m else c :: bound m in
  if state m =? 0 then Panicked
  else
    let rd := 0 <? state m in
    let wq := wq_wait_init_condvar (wq m) id (Some c) rd in
    let s := if 1 <? state m then short (state m - 1) else 0 in
    Ok (rd, s, MkMutex wq s bound).

(** A condition variable without a mutex has no waiters. *)
Definition cv_signal (m : mutex) (c : nat) (only_one : bool) : mutex :=
  if bool_decide (c ∈ bound m)
  then MkMutex (wq_promote_condvar (wq m) c only_one) (state m) (bound m) else m.

Definition mutex_destroy (m : mutex) : outcome Empty_set unit :=
  if negb (state m =? 0) then Panicked
  else if negb (wq_is_empty (wq m)) then Panicked
  else Ok tt.

Definition condvar_destroy (m : mutex) (c : nat) : outcome Empty_set mutex :=
  if bool_decide (c ∈ bound m) && wq_have_condvar (wq m) c then Panicked
  else Ok (MkMutex (wq m) (state m) (filter (λ c', c' ≠ c) (bound m))).

(** ** Threads *)

(** Where a thread is. [k] tells what follows wq_wake_next(): the function
    returns, or, in a condvar wait, wq_wait_final() does. *)
Inductive pc :=
| PIdle                                 (* outside *)
| PLock (rd : bool)                     (* before the section of a lock function *)
| PSleep (rd : bool)                    (* in the sleep RPC of wq_wait_final() *)
| PCheck (rd : bool)                    (* back from it *)
| PWake (wake : option bool) (k : option bool)   (* in the loop of wq_wake_next() *)
| PWakeRpc (h : nat) (wake : bool) (k : option bool).  (* before its wakeup RPC *)

(** [w] and [r]: the thread holds the write lock, and how many read locks. *)
Record thread := Thread { t_pc : pc; t_w : bool; t_r : nat }.

(** [nworld]: the wakeups posted in the normal world. *)
Record world := World { m : mutex; nworld : list nat; threads : list thread }.

Definition set_pc (t : thread) (p : pc) : thread := Thread p (t_w t) (t_r t).
Definition after (k : option bool) : pc :=
  match k with None => PIdle | Some rd => PSleep rd end.

(** Drop one posted wakeup. *)
Fixpoint consume (nw : list nat) (i : nat) : list nat :=
  match nw with
  | [] => []
  | j :: nw => if (j =? i)%nat then nw else j :: consume nw i
  end.

Definition readers (ts : list thread) : nat := sum_list_with t_r ts.
Definition writers (ts : list thread) : nat := sum_list_with (λ t, if t_w t then 1%nat else 0%nat) ts.

Definition acquired (t : thread) (rd : bool) : thread :=
  if rd then Thread PIdle (t_w t) (S (t_r t)) else Thread PIdle true (t_r t).
Definition lock_section (rd : bool) : mutex → nat → bool * mutex :=
  if rd then __mutex_read_lock_section else __mutex_lock_section.
Definition trylock (rd : bool) : mutex → bool * mutex :=
  if rd then __mutex_read_trylock else __mutex_trylock.

(** The steps of thread [i]. A caller unlocks what it holds, waits for and
    signals a condition variable while it holds the mutex, and there are fewer
    than 2^15 - 1 read locks. *)
Inductive step (i : nat) : world → world → Prop :=
| step_call rd mu nw ts t :
    ts !! i = Some t → t_pc t = PIdle →
    step i (World mu nw ts) (World mu nw (<[i := set_pc t (PLock rd)]> ts))
| step_lock rd mu nw ts t b mu' :
    ts !! i = Some t → t_pc t = PLock rd → Z.of_nat (readers ts) < 2 ^ 15 - 1 →
    lock_section rd mu i = (b, mu') →
    step i (World mu nw ts)
      (World mu' nw (<[i := if b then acquired t rd else set_pc t (PSleep rd)]> ts))
| step_trylock rd mu nw ts t b mu' :
    ts !! i = Some t → t_pc t = PIdle → Z.of_nat (readers ts) < 2 ^ 15 - 1 →
    trylock rd mu = (b, mu') →
    step i (World mu nw ts) (World mu' nw (<[i := if b then acquired t rd else t]> ts))
| step_sleep rd mu nw ts t :
    ts !! i = Some t → t_pc t = PSleep rd →
    step i (World mu nw ts) (World mu (consume nw i) (<[i := set_pc t (PCheck rd)]> ts))
| step_check rd mu nw ts t b q :
    ts !! i = Some t → t_pc t = PCheck rd → wq_wait_final_section (wq mu) i = (b, q) →
    step i (World mu nw ts)
      (World (MkMutex q (state mu) (bound mu)) nw
        (<[i := set_pc t (if b then PLock rd else PSleep rd)]> ts))
| step_unlock mu nw ts t mu' :
    ts !! i = Some t → t_pc t = PIdle → t_w t = true →
    __mutex_unlock_section mu = Ok mu' →
    step i (World mu nw ts)
      (World mu' nw (<[i := Thread (PWake None None) false (t_r t)]> ts))
| step_read_unlock mu nw ts t n mu' s :
    ts !! i = Some t → t_pc t = PIdle → t_r t = S n →
    __mutex_read_unlock_section mu = Ok (s, mu') →
    step i (World mu nw ts)
      (World mu' nw (<[i := Thread (if s =? 0 then PWake None None else PIdle) (t_w t) n]> ts))
| step_wake wake k mu nw ts t q wake' h :
    ts !! i = Some t → t_pc t = PWake wake k → wq_wake_section (wq mu) wake = (q, wake', h) →
    step i (World mu nw ts)
      (World (MkMutex q (state mu) (bound mu)) nw
        (<[i := set_pc t match h, wake' with
                         | Some h, Some wr => PWakeRpc h wr k
                         | _, _ => after k
                         end]> ts))
| step_wake_rpc h wr k mu nw ts t :
    ts !! i = Some t → t_pc t = PWakeRpc h wr k →
    step i (World mu nw ts)
      (World mu (h :: nw)
        (<[i := set_pc t (if wr then PWake (Some wr) k else after k)]> ts))
| step_wait c mu nw ts t rd s mu' :
    ts !! i = Some t → t_pc t = PIdle → t_w t = true ∨ (0 < t_r t)%nat →
    __condvar_wait_section mu i c = Ok (rd, s, mu') →
    step i (World mu nw ts)
      (World mu' nw
        (<[i := Thread (if s =? 0 then PWake None (Some rd) else PSleep rd)
                  (if rd then t_w t else false) (if rd then pred (t_r t) else t_r t)]> ts))
| step_signal c only_one mu nw ts t :
    ts !! i = Some t → t_pc t = PIdle → t_w t = true ∨ (0 < t_r t)%nat →
    step i (World mu nw ts) (World (cv_signal mu c only_one) nw ts).

(** [n] threads and an unlocked mutex, then any steps. *)
Inductive reachable (n : nat) : world → Prop :=
| reach_init : reachable n (World mutex_init [] (replicate n (Thread PIdle false 0)))
| reach_step i s s' : reachable n s → step i s s' → reachable n s'.

(** ** Mutual exclusion *)

Definition lock_inv (s : world) : Prop :=
  (state (m s) = -1 ∧ writers (threads s) = 1%nat ∧ readers (threads s) = 0%nat) ∨
  (state (m s) = Z.of_nat (readers (threads s)) ∧ writers (threads s) = 0%nat ∧
   Z.of_nat (readers (threads s)) < 2 ^ 15).

Lemma short_small z : 0 <= z < 2 ^ 15 → short z = z.
Proof.
  intros Hz. unfold short. rewrite wrap_small by (unfold in_range; lia).
  destruct (Z.ltb_spec z (2 ^ 15)); lia.
Qed.

(** What the sections do to the lock state. *)
Lemma lock_section_cases rd mu i b mu' :
  lock_section rd mu i = (b, mu') ∨ trylock rd mu = (b, mu') →
  if b then
    wq mu' = wq mu ∧
    state mu' = (if rd then short (state mu + 1) else -1) ∧
    (if rd then state mu ≠ -1 else state mu = 0)
  else state mu' = state mu ∧ state mu ≠ 0.
Proof.
  unfold lock_section, trylock, __mutex_read_lock_section, __mutex_lock_section,
    __mutex_read_trylock, __mutex_trylock, can_lock_write.
  destruct rd.
  - destruct (Z.eqb_spec (state mu) (-1)); simpl; intros [H|H]; injection H as <- <-; simpl;
      auto; rewrite e; done.
  - destruct (Z.eqb_spec (state mu) 0); intros [H|H]; injection H as <- <-; simpl; auto.
Qed.

Lemma promote_state mu c o : state (cv_signal mu c o) = state mu.
Proof. unfold cv_signal. by case_match. Qed.

Lemma reachable_lock n s : reachable n s → lock_inv s.
Proof.
  induction 1 as [|i s s' _ IH Hstep].
  { right. unfold readers, writers. simpl.
    assert (∀ f : thread → nat, f (Thread PIdle false 0) = 0%nat →
      sum_list_with f (replicate n (Thread PIdle false 0)) = 0%nat) as Hz.
    { intros f Hf. induction n; simpl; [done|]. by rewrite Hf. }
    by rewrite !Hz. }
  assert (∀ ts t t', ts !! i = Some t →
    (t_r t <= readers ts)%nat ∧ ((if t_w t then 1 else 0) <= writers ts)%nat ∧
    (readers (<[i:=t']> ts) + t_r t = readers ts + t_r t')%nat ∧
    (writers (<[i:=t']> ts) + (if t_w t then 1 else 0) =
     writers ts + (if t_w t' then 1 else 0))%nat) as Hsum.
  { intros ts t t' Ht. split; [by eapply sum_member|].
    split; [by apply (sum_member (λ t, if t_w t then 1%nat else 0%nat) ts i)|].
    split; [by apply sum_insert|]. by apply (sum_insert (λ t, if t_w t then 1%nat else 0%nat)). }
  unfold lock_inv in *.
  destruct Hstep as [rd mu nw ts t Ht|rd mu nw ts t b mu' Ht _ Hr Hsec|rd mu nw ts t b mu' Ht _ Hr Hsec
    |rd mu nw ts t Ht|rd mu nw ts t b q Ht|mu nw ts t mu' Ht _ Hw Hsec
    |mu nw ts t k mu' s' Ht _ Hw Hsec|wake k mu nw ts t q wake' h Ht|h wr k mu nw ts t Ht
    |c mu nw ts t rd s' mu' Ht _ Hw Hsec|c o mu nw ts t Ht]; cbn [m threads state] in *;
    try match goal with |- context [<[i:=?t']> ts] =>
      destruct (Hsum ts t t' Ht) as (Hr0 & Hw0 & H1 & H2); clear Hsum end;
    try (cbn [set_pc t_r t_w] in *; lia).
  - pose proof (lock_section_cases rd mu i b mu' (or_introl Hsec)) as Hc. destruct b.
    + destruct Hc as (_ & -> & Hc). destruct rd; cbn [acquired t_r t_w] in *.
      * rewrite short_small by lia. lia.
      * destruct (t_w t); lia.
    + destruct Hc as [-> _]. cbn [set_pc t_r t_w] in *. lia.
  - pose proof (lock_section_cases rd mu i b mu' (or_intror Hsec)) as Hc. destruct b.
    + destruct Hc as (_ & -> & Hc). destruct rd; cbn [acquired t_r t_w] in *.
      * rewrite short_small by lia. lia.
      * destruct (t_w t); lia.
    + destruct Hc as [-> _]. lia.
  - unfold __mutex_unlock_section in Hsec. destruct (state mu =? 0); [done|]. injection Hsec as <-.
    cbn [state t_r t_w] in *. rewrite Hw in H2. lia.
  - unfold __mutex_read_unlock_section in Hsec. destruct (state mu <=? 0) eqn:?; [done|]. injection Hsec as <- <-.
    bools. cbn [state t_r t_w] in *. rewrite Hw in H1, Hr0. rewrite short_small in * by lia. lia.
  - unfold __condvar_wait_section in Hsec. destruct (state mu =? 0) eqn:?; [done|]. injection Hsec as <- <- <-.
    bools. cbn [state t_r t_w] in *.
    destruct (Z.ltb_spec 0 (state mu)), (Z.ltb_spec 1 (state mu)); try lia.
    + rewrite short_small in * by lia. destruct Hw as [Hw|Hw]; destruct (t_w t); cbn iota in *; try done; lia.
    + destruct Hw as [Hw|Hw]; destruct (t_w t); cbn iota in *; try done; lia.
    + destruct Hw as [Hw|Hw]; destruct (t_w t); cbn iota in *; try done; lia.
  - rewrite promote_state. done.
Qed.

Lemma one_writer ts i t :
  ts !! i = Some t → t_w t = true → writers ts = 1%nat →
  ∀ j u, ts !! j = Some u → t_w u = true → i = j.
Proof.
  intros Ht Hw H1 j u Hu Hwu. destruct (decide (i = j)) as [->|Hne]; [done|].
  pose proof (sum_insert (λ t, if t_w t then 1%nat else 0%nat) ts i t (Thread PIdle false 0) Ht) as H2.
  pose proof (sum_insert (λ t, if t_w t then 1%nat else 0%nat) (<[i:=Thread PIdle false 0]> ts) j u
    (Thread PIdle false 0)) as H3.
  rewrite list_lookup_insert_ne in H3 by done. specialize (H3 Hu).
  cbv beta in H2, H3. rewrite Hw in H2. rewrite Hwu in H3.
  unfold writers in H1. simpl in H2, H3. lia.
Qed.


(** ** No lost wakeups *)

(** The waits a thread has an element in the queue for: for reading or not. *)
Definition waits (p : pc) : option bool :=
  match p with
  | PSleep rd | PCheck rd => Some rd
  | PWake _ k | PWakeRpc _ _ k => k
  | PIdle | PLock _ => None
  end.

(** A thread in one of the states [P]. *)
Definition some_pc (P : nat → pc → Prop) (ts : list thread) : Prop :=
  ∃ j t, ts !! j = Some t ∧ P j (t_pc t).

(** A wakeup of [h] is on its way or has been posted. *)
Definition posted (nw : list nat) (ts : list thread) (h : nat) : Prop :=
  h ∈ nw ∨ some_pc (λ _ p, ∃ w k, p = PWakeRpc h w k) ts.

Definition checking (ts : list thread) (h : nat) : Prop :=
  some_pc (λ j p, j = h ∧ ∃ rd, p = PCheck rd) ts.

(** A thread that is about to take the lock or to look for a waiter. *)
Definition active (_ : nat) (p : pc) : Prop := (∃ rd, p = PLock rd) ∨ (∃ k, p = PWake None k).

Record queue_inv (s : world) : Prop := {
  q_nodup : NoDup (handle <$> wq (m s));
  q_elem : ∀ e, e ∈ wq (m s) → ∃ t, threads s !! handle e = Some t ∧ waits (t_pc t) = Some (wait_read e);
  q_wait : ∀ i t rd, threads s !! i = Some t → waits (t_pc t) = Some rd →
    ∃ e, e ∈ wq (m s) ∧ handle e = i;
  q_done : ∀ e, e ∈ wq (m s) → done e = true →
    cv e = None ∧ (checking (threads s) (handle e) ∨ posted (nworld s) (threads s) (handle e));
  q_progress : state (m s) = 0 →
    (∃ e, e ∈ wq (m s) ∧ cv e = None) →
    (∃ e, e ∈ wq (m s) ∧ done e = true) ∨ some_pc active (threads s);
}.

Lemma some_pc_insert P ts i t t' :
  ts !! i = Some t →
  some_pc P (<[i:=t']> ts) ↔ P i (t_pc t') ∨ ∃ j u, j ≠ i ∧ ts !! j = Some u ∧ P j (t_pc u).
Proof.
  intros Ht. assert (i < length ts)%nat as Hi by by eapply lookup_lt_Some.
  unfold some_pc. split.
  - intros (j & u & Hj & HP). destruct (decide (j = i)) as [->|Hne].
    + rewrite list_lookup_insert_eq in Hj by done. injection Hj as <-. by left.
    + rewrite list_lookup_insert_ne in Hj by done. right. by exists j, u.
  - intros [HP|(j & u & Hne & Hj & HP)].
    + exists i, t'. by rewrite list_lookup_insert_eq.
    + exists j, u. by rewrite list_lookup_insert_ne.
Qed.

Lemma some_pc_keep (P : nat → pc → Prop) ts i t t' :
  ts !! i = Some t → (P i (t_pc t) → P i (t_pc t')) → some_pc P ts → some_pc P (<[i:=t']> ts).
Proof.
  intros Ht HP (j & u & Hj & Hu). rewrite some_pc_insert by done.
  destruct (decide (j = i)) as [->|Hne]; [left|right; eauto 6].
  rewrite Ht in Hj. injection Hj as <-. auto.
Qed.

(** Moving thread [i], which has no element before or after. *)
Lemma q_elem_move (q : wait_queue) (ts : list thread) i t t' :
  ts !! i = Some t →
  (∀ rd, waits (t_pc t) = Some rd → waits (t_pc t') = Some rd) →
  (∀ e, e ∈ q → ∃ t, ts !! handle e = Some t ∧ waits (t_pc t) = Some (wait_read e)) →
  ∀ e, e ∈ q → ∃ t, <[i:=t']> ts !! handle e = Some t ∧ waits (t_pc t) = Some (wait_read e).
Proof.
  intros Ht Hw Hq e He. destruct (Hq e He) as (u & Hu & Hwu).
  destruct (decide (i = handle e)) as [->|Hne].
  - exists t'. rewrite list_lookup_insert_eq by (by eapply lookup_lt_Some).
    rewrite Ht in Hu. injection Hu as <-. auto.
  - exists u. by rewrite list_lookup_insert_ne.
Qed.

Lemma q_wait_move (q : wait_queue) (ts : list thread) i t t' :
  ts !! i = Some t →
  (∀ rd, waits (t_pc t') = Some rd → ∃ e, e ∈ q ∧ handle e = i) →
  (∀ j t rd, ts !! j = Some t → waits (t_pc t) = Some rd → ∃ e, e ∈ q ∧ handle e = j) →
  ∀ j u rd, <[i:=t']> ts !! j = Some u → waits (t_pc u) = Some rd → ∃ e, e ∈ q ∧ handle e = j.
Proof.
  intros Ht Hw Hq j u rd Hj Hu. destruct (decide (i = j)) as [->|Hne].
  - rewrite list_lookup_insert_eq in Hj by (by eapply lookup_lt_Some). injection Hj as <-. eauto.
  - rewrite list_lookup_insert_ne in Hj by done. eauto.
Qed.

(** *** The queue operations *)

(** [q'] has the same elements as [q], but for [done] and [cv]. *)
Definition same_waits (e e' : wait_queue_elem) : Prop :=
  handle e' = handle e ∧ wait_read e' = wait_read e.

Lemma same_waits_refl (l : wait_queue) : Forall2 same_waits l l.
Proof. induction l; by constructor. Qed.

Lemma wake_section_spec q wake q' wake' h :
  wq_wake_section q wake = (q', wake', h) →
  match h with
  | None => q' = q ∧ (wake = None → Forall (λ e, cv e = None → done e = true) q)
  | Some h => ∃ pre e post, q = pre ++ e :: post ∧ handle e = h ∧ cv e = None ∧ done e = false ∧
      q' = pre ++ Wqe h true (wait_read e) None :: post ∧ wake' = Some (wait_read e)
  end.
Proof.
  revert wake q' wake' h. induction q as [|e q IH]; intros wake q' wake' h; cbn [wq_wake_section].
  { intros [= <- <- <-]. by repeat constructor. }
  assert (∀ wake0, (wake = None → wake0 = None ∧ (cv e = None → done e = true)) →
    (let '(wq', wake'0, h0) := wq_wake_section q wake0 in (e :: wq', wake'0, h0)) = (q', wake', h) →
    match h with
    | None => q' = e :: q ∧ (wake = None → Forall (λ e, cv e = None → done e = true) (e :: q))
    | Some h => ∃ pre e0 post, e :: q = pre ++ e0 :: post ∧ handle e0 = h ∧ cv e0 = None ∧
        done e0 = false ∧ q' = pre ++ Wqe h true (wait_read e0) None :: post ∧
        wake' = Some (wait_read e0)
    end) as Hskip.
  { intros wake0 Hwake Heq. destruct (wq_wake_section q wake0) as [[q1 w1] h1] eqn:Hs.
    injection Heq as <- <- <-. specialize (IH _ _ _ _ Hs). destruct h1 as [h1|].
    - destruct IH as (pre & e0 & post & -> & ? & ? & ? & -> & ?). by exists (e :: pre), e0, post.
    - destruct IH as [-> Hm]. split; [done|]. intros Hw. destruct (Hwake Hw) as [Hw0 Hd].
      constructor; [by apply Hd|by apply Hm]. }
  case_bool_decide as Hcv.
  { apply Hskip. intros ->. split; [done|]. intros Hn. rewrite Hn in Hcv. by destruct Hcv. }
  destruct (done e) eqn:Hd; [by apply Hskip|].
  destruct (Bool.eqb (wait_read e) (default (wait_read e) wake)) eqn:Heqb; cbn [negb].
  - apply eqb_prop in Heqb. rewrite <- Heqb. intros [= <- <- <-].
    assert (cv e = None) as Hn by (destruct (cv e); [by destruct Hcv|done]).
    exists [], e, q. split_and!; try done. by rewrite Hn.
  - apply Hskip. intros ->. simpl in Heqb. by rewrite eqb_reflx in Heqb.
Qed.

Lemma promote_spec q c o : Forall2 (λ e e', same_waits e e' ∧ done e' = done e ∧
  (cv e = None → cv e' = None)) q (wq_promote_condvar q c o).
Proof.
  assert (∀ l : wait_queue, Forall2 (λ e e', same_waits e e' ∧ done e' = done e ∧
    (cv e = None → cv e' = None)) l l) as Hrefl by (induction l; constructor; done).
  induction q as [|e q IH]; simpl; [done|]. case_bool_decide; [|by constructor].
  constructor; [done|]. by destruct o.
Qed.

Lemma slist_remove_spec q i :
  NoDup (handle <$> q) →
  (∀ e, e ∈ slist_remove q i ↔ e ∈ q ∧ handle e ≠ i) ∧ NoDup (handle <$> slist_remove q i).
Proof.
  induction q as [|x q IH]; cbn [slist_remove fmap list_fmap].
  { split; [|done]. intros e. rewrite !elem_of_nil. tauto. }
  intros [Hx Hnd]%NoDup_cons. destruct (IH Hnd) as [H1 H2].
  destruct (Nat.eqb_spec (handle x) i) as [<-|Hne].
  - split; [|done]. intros e. rewrite elem_of_cons. split.
    + intros He. split; [by right|]. intros Heq. apply Hx. rewrite <- Heq.
      by apply list_elem_of_fmap_2.
    + intros [[->|He] Hn]; done.
  - split.
    + intros e. rewrite !elem_of_cons, H1. split; [|tauto]. intros [->|[? ?]]; auto.
    + cbn. apply NoDup_cons. split; [|done]. intros Hin. apply Hx.
      apply list_elem_of_fmap in Hin as (y & Hy & Hin). apply H1 in Hin as [Hin _].
      rewrite Hy. by apply list_elem_of_fmap_2.
Qed.

Lemma wait_final_spec q i b q' :
  NoDup (handle <$> q) → wq_wait_final_section q i = (b, q') →
  (∀ e, e ∈ q → handle e = i → done e = b) ∧
  if b then q' = slist_remove q i ∧ ∃ e, e ∈ q ∧ handle e = i else q' = q.
Proof.
  unfold wq_wait_final_section. intros Hnd Hs.
  destruct (list_find (λ e, handle e = i) q) as [[k e]|] eqn:Hf.
  - apply list_find_Some in Hf as (Hk & He & _).
    assert (∀ e', e' ∈ q → handle e' = i → e' = e) as Huniq.
    { intros e' [k' Hk']%list_elem_of_lookup He'.
      assert (k = k') as <-; [|congruence].
      eapply (NoDup_lookup _ _ _ i Hnd); rewrite list_lookup_fmap, ?Hk, ?Hk'; simpl; congruence. }
    destruct (done e) eqn:Hd; injection Hs as <- <-.
    + split; [intros e' He' Hh; by rewrite (Huniq e')|]. split; [done|].
      exists e. split; [by eapply list_elem_of_lookup_2|done].
    + split; [intros e' He' Hh; by rewrite (Huniq e')|done].
  - injection Hs as <- <-. apply list_find_None in Hf. split; [|done].
    intros e He Hh. rewrite Forall_forall in Hf. by destruct (Hf e He).
Qed.

Lemma consume_spec nw i h : h ≠ i → h ∈ nw → h ∈ consume nw i.
Proof.
  intros Hne. induction nw as [|x nw IH]; [done|]. cbn [consume]. rewrite elem_of_cons.
  destruct (Nat.eqb_spec x i) as [->|]; [by intros [->|?]|]. rewrite elem_of_cons. tauto.
Qed.

(** *** Every step keeps the queue invariant *)

Definition awake (nw : list nat) (ts : list thread) (h : nat) : Prop :=
  checking ts h ∨ posted nw ts h.

Lemma awake_keep nw nw' ts i t t' h :
  ts !! i = Some t → awake nw ts h →
  (∀ w k, t_pc t = PWakeRpc h w k → h ∈ nw') →
  (h = i → ∀ rd, t_pc t = PCheck rd → ∃ rd', t_pc t' = PCheck rd') →
  (h ∈ nw → h ∈ nw' ∨ ∃ rd, h = i ∧ t_pc t' = PCheck rd) →
  awake nw' (<[i := t']> ts) h.
Proof.
  intros Ht [Hc|[Hin|Hp]] Hrpc Hchk Hnw; unfold awake, checking, posted.
  - left. eapply some_pc_keep; [done| |exact Hc]. intros [-> [rd Hrd]]. split; [done|]. eauto.
  - destruct (Hnw Hin) as [?|(rd & -> & Hrd)]; [by right; left|]. left.
    apply (some_pc_insert _ _ _ _ _ Ht). left. eauto.
  - destruct Hp as (j & u & Hj & w & k & Hu). destruct (decide (j = i)) as [->|Hne].
    + rewrite Ht in Hj. injection Hj as <-. right. left. eauto.
    + right. right. apply (some_pc_insert _ _ _ _ _ Ht). right. exists j, u. eauto 6.
Qed.

Lemma same_waits_handles (q q' : wait_queue) :
  Forall2 same_waits q q' → handle <$> q' = handle <$> q.
Proof. induction 1 as [|e e' q q' [H _] _ IH]; [done|]. rewrite !fmap_cons, IH, H. done. Qed.

Lemma same_waits_elem (q q' : wait_queue) :
  Forall2 same_waits q q' →
  (∀ e', e' ∈ q' → ∃ e, e ∈ q ∧ same_waits e e') ∧ (∀ e, e ∈ q → ∃ e', e' ∈ q' ∧ same_waits e e').
Proof.
  intros Hf. split.
  - intros e' [k Hk]%list_elem_of_lookup. destruct (Forall2_lookup_r _ _ _ _ _ Hf Hk) as (e & He & Hs).
    exists e. split; [by eapply list_elem_of_lookup_2|done].
  - intros e [k Hk]%list_elem_of_lookup. destruct (Forall2_lookup_l _ _ _ _ _ Hf Hk) as (e' & He & Hs).
    exists e'. split; [by eapply list_elem_of_lookup_2|done].
Qed.

(** The thread keeps its place in the queue, the elements keep theirs. *)
Lemma inv_stay mu mu' nw nw' ts i t t' :
  queue_inv (World mu nw ts) → ts !! i = Some t → waits (t_pc t') = waits (t_pc t) →
  Forall2 same_waits (wq mu) (wq mu') →
  (∀ e, e ∈ wq mu' → done e = true → cv e = None ∧ awake nw' (<[i:=t']> ts) (handle e)) →
  (state mu' = 0 → (∃ e, e ∈ wq mu' ∧ cv e = None) →
   (∃ e, e ∈ wq mu' ∧ done e = true) ∨ some_pc active (<[i:=t']> ts)) →
  queue_inv (World mu' nw' (<[i:=t']> ts)).
Proof.
  intros [H1 H2 H3 H4 H5] Ht Hw Hq Hdone Hprog. cbn [m nworld threads] in *.
  destruct (same_waits_elem _ _ Hq) as [Hq1 Hq2].
  constructor; cbn [m nworld threads]; [|intros e He|intros j u rd Hj Hu|done|done].
  - by rewrite (same_waits_handles _ _ Hq).
  - destruct (Hq1 e He) as (e0 & He0 & -> & ->).
    by eapply (q_elem_move (wq mu)); [done|rewrite Hw; auto|done|].
  - edestruct (q_wait_move (wq mu) ts i t t') as (e & He & <-); try done.
    { intros rd' Hrd. eapply H3; [exact Ht|]. by rewrite <- Hw. }
    destruct (Hq2 e He) as (e' & He' & Hh & _). by exists e'.
Qed.

(** The thread enters the queue. *)
Lemma inv_enter mu s b nw ts i t t' c rd :
  queue_inv (World mu nw ts) → ts !! i = Some t → waits (t_pc t) = None →
  waits (t_pc t') = Some rd →
  (∀ h w k, t_pc t ≠ PWakeRpc h w k) →
  (s = 0 → some_pc active (<[i:=t']> ts)) →
  queue_inv (World (MkMutex (wq_wait_init_condvar (wq mu) i c rd) s b) nw (<[i:=t']> ts)).
Proof.
  intros [H1 H2 H3 H4 H5] Ht Hw Hw' Hrpc Hprog. cbn [m nworld threads] in *.
  assert (∀ e, e ∈ wq mu → handle e ≠ i) as Hni.
  { intros e He <-. destruct (H2 e He) as (u & Hu & Hwu). congruence. }
  unfold wq_wait_init_condvar, slist_add_tail.
  constructor; cbn [m nworld threads wq state].
  - rewrite fmap_app. apply NoDup_app. split; [done|]. split; [|apply NoDup_singleton].
    intros h Hh. cbn. rewrite list_elem_of_singleton. intros ->.
    apply list_elem_of_fmap in Hh as (e & Heq & He). by eapply Hni.
  - intros e [He| ->%list_elem_of_singleton]%elem_of_app.
    + destruct (H2 e He) as (u & Hu & Hwu). exists u.
      rewrite list_lookup_insert_ne; [done|]. intros ->. by eapply Hni.
    + cbn [handle wait_read]. exists t'. rewrite list_lookup_insert_eq; [done|].
      by eapply lookup_lt_Some.
  - apply (q_wait_move _ ts i t t'); [done| |].
    + intros rd' _. eexists. split; [apply elem_of_app; right; by apply list_elem_of_singleton|done].
    + intros j u rd' Hj Hu. destruct (H3 j u rd' Hj Hu) as (e & He & <-). exists e.
      split; [|done]. apply elem_of_app. by left.
  - intros e [He| ->%list_elem_of_singleton]%elem_of_app Hd; [|done].
    destruct (H4 e He Hd) as [? Ha]. split; [done|].
    apply (awake_keep nw nw ts i t t'); [done|exact Ha| | |by left].
    + intros w k Hp. by destruct (Hrpc (handle e) w k).
    + intros Hh. by destruct (Hni e He).
  - intros Hs _. right. auto.
Qed.

(** The thread leaves the queue to lock the mutex. *)
Lemma inv_leave mu nw ts i t t' rd :
  queue_inv (World mu nw ts) → ts !! i = Some t → t_pc t = PCheck rd → t_pc t' = PLock rd →
  queue_inv (World (MkMutex (slist_remove (wq mu) i) (state mu) (bound mu)) nw (<[i:=t']> ts)).
Proof.
  intros [H1 H2 H3 H4 H5] Ht Hp Hp'. cbn [m nworld threads] in *.
  destruct (slist_remove_spec _ i H1) as [Hrm Hnd].
  constructor; cbn [m nworld threads wq state]; [done| | | |].
  - intros e [He Hne]%Hrm. destruct (H2 e He) as (u & Hu & Hwu). exists u.
    by rewrite list_lookup_insert_ne.
  - intros j u rd' Hj Hu. destruct (decide (i = j)) as [<-|Hne].
    + rewrite list_lookup_insert_eq in Hj by (by eapply lookup_lt_Some). injection Hj as <-.
      by rewrite Hp' in Hu.
    + rewrite list_lookup_insert_ne in Hj by done.
      destruct (H3 j u rd' Hj Hu) as (e & He & Hh). exists e. split; [|done]. apply Hrm. naive_solver.
  - intros e [He Hne]%Hrm Hd. destruct (H4 e He Hd) as [? Ha]. split; [done|].
    apply (awake_keep nw nw ts i t t'); [done|exact Ha| | |by left].
    + intros w k Hx. congruence.
    + intros Hh. congruence.
  - intros _ _. right. apply (some_pc_insert _ _ _ _ _ Ht). left. left. eauto.
Qed.

(** A step of a thread that touches neither the queue nor a wakeup. *)
Lemma inv_quiet mu mu' nw ts i t t' :
  queue_inv (World mu nw ts) → ts !! i = Some t → waits (t_pc t') = waits (t_pc t) →
  wq mu' = wq mu → (∀ h w k, t_pc t ≠ PWakeRpc h w k) → (∀ rd, t_pc t ≠ PCheck rd) →
  (state mu' = 0 → state mu = 0 ∧ ¬ active i (t_pc t) ∨ active i (t_pc t')) →
  queue_inv (World mu' nw (<[i:=t']> ts)).
Proof.
  intros Hinv Ht Hw Hq Hrpc Hchk Hs. pose proof Hinv as [H1 H2 H3 H4 H5]. cbn [m nworld threads] in *.
  apply (inv_stay mu mu' nw nw ts i t t'); try done; rewrite Hq.
  - apply same_waits_refl.
  - intros e He Hd. destruct (H4 e He Hd) as [? Ha]. split; [done|].
    apply (awake_keep nw nw ts i t t'); [done|exact Ha| | |by left].
    + intros w k Hx. by destruct (Hrpc (handle e) w k).
    + intros _ rd Hx. by destruct (Hchk rd).
  - intros Hs0 He. destruct (Hs Hs0) as [[Hs1 Hna]|Hact].
    + destruct (H5 Hs1 He) as [?|Ha]; [by left|right].
      by apply (some_pc_keep active ts i t t').
    + right. apply (some_pc_insert _ _ _ _ _ Ht). by left.
Qed.

Lemma inv_check mu nw ts i t rd b q :
  queue_inv (World mu nw ts) → ts !! i = Some t → t_pc t = PCheck rd →
  wq_wait_final_section (wq mu) i = (b, q) →
  queue_inv (World (MkMutex q (state mu) (bound mu)) nw
    (<[i := set_pc t (if b then PLock rd else PSleep rd)]> ts)).
Proof.
  intros Hinv Ht Hp Hsec. pose proof Hinv as [H1 H2 H3 H4 H5]. cbn [m nworld threads] in *.
  destruct (wait_final_spec _ _ _ _ H1 Hsec) as [Hdone Hq]. destruct b.
  { destruct Hq as [-> _]. by eapply inv_leave. }
  subst q. apply (inv_stay mu _ nw nw ts i t); try done; cbn [wq state].
  - by rewrite Hp.
  - apply same_waits_refl.
  - intros e He Hd. destruct (H4 e He Hd) as [? Ha]. split; [done|].
    apply (awake_keep nw nw ts i t); [done|exact Ha| | |by left].
    + intros w k Hx. congruence.
    + intros Hh. rewrite (Hdone e He Hh) in Hd. done.
  - intros Hs He. destruct (H5 Hs He) as [?|Ha]; [by left|right].
    apply (some_pc_keep active ts i t); [done| |done]. rewrite Hp. by intros [[? ?]|[? ?]].
Qed.

Lemma inv_wake mu nw ts i t wake k q wake' h :
  queue_inv (World mu nw ts) → ts !! i = Some t → t_pc t = PWake wake k →
  wq_wake_section (wq mu) wake = (q, wake', h) →
  queue_inv (World (MkMutex q (state mu) (bound mu)) nw
    (<[i := set_pc t match h, wake' with
                     | Some h, Some wr => PWakeRpc h wr k
                     | _, _ => after k
                     end]> ts)).
Proof.
  intros Hinv Ht Hp Hsec. pose proof Hinv as [H1 H2 H3 H4 H5]. cbn [m nworld threads] in *.
  pose proof (wake_section_spec _ _ _ _ _ Hsec) as Hspec. destruct h as [h|].
  - destruct Hspec as (pre & e0 & post & Hq & Hh & Hcv & Hd0 & -> & ->).
    apply (inv_stay mu _ nw nw ts i t); try done; cbn [wq state t_pc set_pc].
    + by rewrite Hp.
    + rewrite Hq. apply Forall2_app; [apply same_waits_refl|]. constructor; [done|apply same_waits_refl].
    + intros e He Hd.
      assert (e = Wqe h true (wait_read e0) None ∨ e ∈ wq mu) as [->|He'] by (rewrite Hq; set_solver).
      * split; [done|]. right. right. apply (some_pc_insert _ _ _ _ _ Ht). left. eauto.
      * destruct (H4 e He' Hd) as [? Ha]. split; [done|].
        apply (awake_keep nw nw ts i t); [done|exact Ha| | |by left]; intros; congruence.
    + intros Hs He. left. exists (Wqe h true (wait_read e0) None). split; [set_solver|done].
  - destruct Hspec as [-> Hall].
    apply (inv_stay mu _ nw nw ts i t); try done; cbn [wq state t_pc set_pc].
    + rewrite Hp. by destruct k.
    + apply same_waits_refl.
    + intros e He Hd. destruct (H4 e He Hd) as [? Ha]. split; [done|].
      apply (awake_keep nw nw ts i t); [done|exact Ha| | |by left]; intros; congruence.
    + intros Hs (e & He & Hcv). destruct wake as [w|].
      * destruct (H5 Hs (ex_intro _ e (conj He Hcv))) as [?|Ha]; [by left|right].
        apply (some_pc_keep active ts i t); [done| |done]. rewrite Hp. by intros [[? ?]|[? ?]].
      * left. exists e. split; [done|]. specialize (Hall eq_refl). rewrite Forall_forall in Hall. auto.
Qed.

(** The sleep RPC returns, and the wakeup RPC is sent. *)
Lemma inv_rpc mu nw nw' ts i t t' :
  queue_inv (World mu nw ts) → ts !! i = Some t → waits (t_pc t') = waits (t_pc t) →
  (∃ rd, t_pc t = PSleep rd ∧ t_pc t' = PCheck rd ∧ nw' = consume nw i) ∨
  (∃ h w k, t_pc t = PWakeRpc h w k ∧ nw' = h :: nw) →
  queue_inv (World mu nw' (<[i:=t']> ts)).
Proof.
  intros Hinv Ht Hw Hcase. pose proof Hinv as [H1 H2 H3 H4 H5]. cbn [m nworld threads] in *.
  apply (inv_stay mu mu nw nw' ts i t t'); try done.
  - apply same_waits_refl.
  - intros e He Hd. destruct (H4 e He Hd) as [? Ha]. split; [done|].
    destruct Hcase as [(rd & Hp & Hp' & ->)|(h & w & k & Hp & ->)];
      apply (awake_keep nw _ ts i t); try done; try (intros; congruence).
    + intros Hin. destruct (decide (handle e = i)) as [Heq|Hne]; [right; eauto|left].
      by apply consume_spec.
    + intros w' k' Hx. rewrite Hp in Hx. injection Hx as <- _ _. left.
    + intros Hin. left. by right.
  - intros Hs He. destruct (H5 Hs He) as [?|Ha]; [by left|right].
    apply (some_pc_keep active ts i t); [done| |done].
    destruct Hcase as [(rd & -> & _)|(h & w & k & -> & _)]; by intros [[? ?]|[? ?]].
Qed.

Lemma lock_section_queue rd mu i b mu' :
  lock_section rd mu i = (b, mu') →
  if b then wq mu' = wq mu else
  mu' = MkMutex (wq_wait_init_condvar (wq mu) i None rd) (state mu) (bound mu).
Proof.
  unfold lock_section, __mutex_read_lock_section, __mutex_lock_section, can_lock_write.
  destruct rd, (state mu =? -1), (state mu =? 0); simpl; by intros [= <- <-].
Qed.

Lemma trylock_queue rd mu b mu' : trylock rd mu = (b, mu') → wq mu' = wq mu.
Proof.
  unfold trylock, __mutex_read_trylock, __mutex_trylock, can_lock_write.
  destruct rd, (state mu =? -1), (state mu =? 0); simpl; by intros [= <- <-].
Qed.

Lemma holder_state mu nw ts i t :
  lock_inv (World mu nw ts) → ts !! i = Some t → t_w t = true ∨ (0 < t_r t)%nat → state mu ≠ 0.
Proof.
  intros Hl Ht Hh. pose proof (sum_member t_r ts i t Ht) as Hr.
  pose proof (sum_member (λ t, if t_w t then 1%nat else 0%nat) ts i t Ht) as Hw. cbv beta in Hw.
  unfold lock_inv, readers, writers in Hl. cbn [m threads] in Hl.
  destruct Hh as [Hh|Hh]; [rewrite Hh in Hw|]; lia.
Qed.

Lemma reachable_queue n s : reachable n s → queue_inv s.
Proof.
  induction 1 as [|i s s' Hreach IH Hstep].
  { constructor; simpl.
    - constructor.
    - intros e He. by apply elem_of_nil in He.
    - intros i t rd [-> _]%lookup_replicate. done.
    - intros e He. by apply elem_of_nil in He.
    - intros _ (e & He & _). by apply elem_of_nil in He. }
  pose proof (reachable_lock n s Hreach) as Hlock.
  assert (∀ mu nw ts (rd : bool), lock_inv (World mu nw ts) → Z.of_nat (readers ts) < 2 ^ 15 - 1 →
    (if rd then state mu ≠ -1 else state mu = 0) →
    (if rd : bool then short (state mu + 1) else -1) ≠ 0) as Hlocked.
  { intros mu nw ts rd Hl Hr Hc. unfold lock_inv in Hl. cbn [m threads] in Hl.
    destruct rd; [rewrite short_small; lia|lia]. }
  destruct Hstep as [rd mu nw ts t Ht Hp|rd mu nw ts t b mu' Ht Hp Hr Hsec|rd mu nw ts t b mu' Ht Hp Hr Hsec
    |rd mu nw ts t Ht Hp|rd mu nw ts t b q Ht Hp Hsec|mu nw ts t mu' Ht Hp Hw Hsec
    |mu nw ts t k mu' s' Ht Hp Hw Hsec|wake k mu nw ts t q wake' h Ht Hp Hsec
    |h wr k mu nw ts t Ht Hp|c mu nw ts t rd s' mu' Ht Hp Hw Hsec|c o mu nw ts t Ht Hp Hw];
    cbn [m threads state nworld] in *.
  - eapply inv_quiet; eauto; try (rewrite Hp; done).
    intros _. right. left. by eexists.
  - pose proof (lock_section_cases _ _ _ _ _ (or_introl Hsec)) as Hc.
    pose proof (lock_section_queue _ _ _ _ _ Hsec) as Hq. destruct b.
    + destruct Hc as (_ & Hs & Hc). eapply inv_quiet; eauto; rewrite ?Hp; try done.
      * by destruct rd.
      * rewrite Hs. intros Hz. exfalso. by eapply Hlocked.
    + destruct Hc as [_ Hc]. rewrite Hq. eapply inv_enter; eauto; by rewrite ?Hp.
  - pose proof (lock_section_cases rd mu i b mu' (or_intror Hsec)) as Hc.
    pose proof (trylock_queue _ _ _ _ Hsec) as Hq. destruct b.
    + destruct Hc as (_ & Hs & Hc). eapply inv_quiet; eauto; rewrite ?Hp; try done.
      * by destruct rd.
      * rewrite Hs. intros Hz. exfalso. by eapply Hlocked.
    + destruct Hc as [Hs Hc]. eapply inv_quiet; eauto; rewrite ?Hp; try done. congruence.
  - apply (inv_rpc mu nw _ ts i t); [done|done|by rewrite Hp|]. left. eauto.
  - by eapply inv_check.
  - unfold __mutex_unlock_section in Hsec. destruct (state mu =? 0); [done|]. injection Hsec as <-.
    eapply inv_quiet; eauto; rewrite ?Hp; try done. intros _. right. right. by eexists.
  - unfold __mutex_read_unlock_section in Hsec. destruct (state mu <=? 0); [done|].
    injection Hsec as <- <-. eapply inv_quiet; eauto; rewrite ?Hp; try done; cbn [t_pc].
    + by case_match.
    + cbn [state]. intros ->. right. right. by eexists.
  - by eapply inv_wake.
  - apply (inv_rpc mu nw _ ts i t); [done|done|rewrite Hp; by destruct wr, k|]. right. eauto 6.
  - unfold __condvar_wait_section in Hsec. destruct (state mu =? 0); [done|].
    injection Hsec as <- <- <-. eapply inv_enter; eauto; rewrite ?Hp; try done; cbn [t_pc].
    + by case_match.
    + intros Hz. rewrite Hz. apply (some_pc_insert _ _ _ _ _ Ht). left. right. by eexists.
  - pose proof (holder_state _ _ _ _ _ Hlock Ht Hw) as Hs.
    replace ts with (<[i:=t]> ts) by (by apply list_insert_id).
    unfold cv_signal. case_bool_decide; [|by rewrite list_insert_id].
    pose proof (promote_spec (wq mu) c o) as Hpr. pose proof IH as [H1 H2 H3 H4 H5].
    apply (inv_stay mu _ nw nw ts i t t); try done; cbn [wq state].
    + eapply Forall2_impl; [exact Hpr|]. intros ? ? [? _]. done.
    + intros e He Hd. rewrite list_insert_id by done.
      apply list_elem_of_lookup in He as [k Hk].
      destruct (Forall2_lookup_r _ _ _ _ _ Hpr Hk) as (e0 & He0 & [Hh _] & Hd0 & Hcv).
      apply list_elem_of_lookup_2 in He0. rewrite Hd in Hd0.
      destruct (H4 e0 He0 (eq_sym Hd0)) as [Hn Ha]. rewrite Hh. split; [by apply Hcv|done].
Qed.

(** ** Properties *)

(** C9: in every reachable state a writer excludes every other holder and
    itself holds no read lock; the state word is -1, 0 or the number of read
    locks accordingly; releasing or waiting with a lock that is held does not
    panic; and mutex_destroy succeeds exactly when nobody holds the mutex or
    waits in its queue. *)
Theorem mutex_exclusion n s :
  reachable n s →
  (∀ i t, threads s !! i = Some t → t_w t = true →
    t_r t = 0%nat ∧
    ∀ j u, threads s !! j = Some u → j ≠ i → t_w u = false ∧ t_r u = 0%nat) ∧
  state (m s) = (if bool_decide (writers (threads s) = 0%nat)
                 then Z.of_nat (readers (threads s)) else -1) ∧
  (∀ i t, threads s !! i = Some t →
    (t_w t = true → ∃ mu, __mutex_unlock_section (m s) = Ok mu) ∧
    ((0 < t_r t)%nat → ∃ x, __mutex_read_unlock_section (m s) = Ok x) ∧
    (t_w t = true ∨ (0 < t_r t)%nat → ∀ c, ∃ x, __condvar_wait_section (m s) i c = Ok x)) ∧
  (mutex_destroy (m s) = Ok tt ↔
   ∀ i t, threads s !! i = Some t → t_w t = false ∧ t_r t = 0%nat ∧ waits (t_pc t) = None).
Proof.
  intros Hreach. pose proof (reachable_lock n s Hreach) as Hl.
  pose proof (reachable_queue n s Hreach) as Hq. destruct s as [mu nw ts]. cbn [m threads] in *.
  unfold lock_inv in Hl. cbn [m threads] in Hl.
  assert (∀ i t, ts !! i = Some t → (t_r t <= readers ts)%nat ∧
    ((if t_w t then 1 else 0) <= writers ts)%nat) as Hmem.
  { intros i t Ht. split; [by eapply (sum_member t_r)|].
    by apply (sum_member (λ t, if t_w t then 1%nat else 0%nat) ts i). }
  split_and!.
  - intros i t Ht Hw. destruct (Hmem i t Ht) as [Hr0 Hw0]. rewrite Hw in Hw0. split; [lia|].
    intros j u Hu Hne. destruct (Hmem j u Hu) as [Hr1 _]. split; [|lia].
    destruct (t_w u) eqn:Hwu; [|done]. destruct Hne. symmetry.
    eapply (one_writer ts i t); try done. lia.
  - case_bool_decide; lia.
  - intros i t Ht. destruct (Hmem i t Ht) as [Hr0 Hw0].
    unfold __mutex_unlock_section, __mutex_read_unlock_section, __condvar_wait_section.
    split_and!.
    + intros Hw. rewrite Hw in Hw0. rewrite (proj2 (Z.eqb_neq _ _)) by lia. by eexists.
    + intros Hr. rewrite (proj2 (Z.leb_gt _ _)) by lia. by eexists.
    + intros Hh c. rewrite (proj2 (Z.eqb_neq _ _)); [by eexists|].
      by apply (holder_state mu nw ts i t).
  - unfold mutex_destroy, wq_is_empty. split.
    + destruct (Z.eqb_spec (state mu) 0) as [Hs|]; [|done].
      case_bool_decide as Hwq; [|done]. intros _ i t Ht. destruct (Hmem i t Ht).
      split; [destruct (t_w t); [lia|done]|]. split; [lia|].
      destruct (waits (t_pc t)) as [rd|] eqn:Hw; [|done].
      destruct (q_wait _ Hq i t rd Ht Hw) as (e & He & _). cbn [m] in He. rewrite Hwq in He.
      by apply elem_of_nil in He.
    + intros Hall.
      assert (readers ts = 0%nat ∧ writers ts = 0%nat) as [Hr Hw].
      { clear -Hall. unfold readers, writers. induction ts as [|x ts IH]; [done|].
        destruct (Hall 0%nat x eq_refl) as (H1 & H2 & _). simpl. rewrite H1, H2.
        apply IH. intros i t. apply (Hall (S i)). }
      replace (state mu) with 0 by lia. cbn [Z.eqb negb].
      assert (wq mu = []) as ->; [|done]. destruct (wq mu) as [|e q] eqn:Heq; [done|].
      destruct (q_elem _ Hq e) as (t & Ht & Hwt); [cbn [m]; rewrite Heq; left|].
      destruct (Hall _ _ Ht) as (_ & _ & Hn). congruence.
Qed.

(** C14: no lost wakeups. In a reachable state where no thread can run
    (each is outside, or asleep in the normal world with no wakeup posted for it)
    and the mutex is free, only threads that wait for a condition variable are in
    the queue: nobody sleeps waiting for the mutex. *)
Theorem mutex_no_lost_wakeup n s :
  reachable n s →
  (∀ i t, threads s !! i = Some t →
    t_pc t = PIdle ∨ ∃ rd, t_pc t = PSleep rd ∧ i ∉ nworld s) →
  state (m s) = 0 →
  ∀ e, e ∈ wq (m s) → is_Some (cv e).
Proof.
  intros Hreach Hstuck Hs e He. pose proof (reachable_queue n s Hreach) as Hq.
  destruct (cv e) eqn:Hcv; [by eexists|]. exfalso.
  destruct (q_progress _ Hq Hs) as [(e' & He' & Hd)|(j & t & Ht & Ha)]; [by exists e| |].
  - destruct (q_done _ Hq e' He' Hd) as [_ [(j & t & Ht & -> & rd & Hp)|[Hin|(j & t & Ht & w & k & Hp)]]].
    + destruct (Hstuck _ _ Ht) as [?|(? & ? & _)]; congruence.
    + destruct (q_elem _ Hq e' He') as (t & Ht & Hw).
      destruct (Hstuck _ _ Ht) as [Hp|(rd & Hp & Hn)]; [by rewrite Hp in Hw|done].
    + destruct (Hstuck _ _ Ht) as [?|(? & ? & _)]; congruence.
  - destruct (Hstuck _ _ Ht) as [Hp|(rd & Hp & _)]; rewrite Hp in Ha; by destruct Ha as [[? ?]|[? ?]].
Qed.

(** ** Witnesses *)

(** Thread 0 takes the mutex and waits for condition variable 7; thread 1 then
    takes the mutex. *)
Definition ex_waiting : world :=
  World (MkMutex [Wqe 0 false false (Some 7%nat)] 0 [7%nat]) []
    [Thread (PSleep false) false 0; Thread PIdle false 0].

Lemma reach_to n i s s' s'' : reachable n s → step i s s' → s' = s'' → reachable n s''.
Proof. intros ? ? <-. by eapply reach_step. Qed.

Lemma ex_waiting_reachable : reachable 2 ex_waiting.
Proof.
  set (idle := Thread PIdle false 0).
  assert (reachable 2 (World mutex_init [] [Thread (PLock false) false 0; idle])) as R1.
  { eapply (reach_to 2 0); [apply reach_init|by eapply (step_call 0 false)|reflexivity]. }
  assert (reachable 2 (World (MkMutex [] (-1) []) [] [Thread PIdle true 0; idle])) as R2.
  { eapply (reach_to 2 0); [exact R1|by eapply (step_lock 0 false)|reflexivity]. }
  assert (reachable 2 (World (MkMutex [Wqe 0 false false (Some 7%nat)] 0 [7%nat]) []
    [Thread (PWake None (Some false)) false 0; idle])) as R3.
  { eapply (reach_to 2 0); [exact R2|eapply (step_wait 0 7); [done|done|by left|done]|reflexivity]. }
  eapply (reach_to 2 0); [exact R3|by eapply (step_wake 0 None (Some false))|reflexivity].
Qed.

Lemma mutex_no_lost_wakeup_witness :
  reachable 2 ex_waiting ∧ ∀ e, e ∈ wq (m ex_waiting) → is_Some (cv e).
Proof.
  split; [apply ex_waiting_reachable|].
  apply (mutex_no_lost_wakeup 2 ex_waiting ex_waiting_reachable).
  - intros [|[|i]] t Ht; simpl in Ht; try discriminate Ht; injection Ht as <-.
    + right. exists false. split; [reflexivity|]. apply not_elem_of_nil.
    + left. reflexivity.
  - reflexivity.
Defined.

Definition ex_locked : world :=
  World (MkMutex [Wqe 0 false false (Some 7%nat)] (-1) [7%nat]) []
    [Thread (PSleep false) false 0; Thread PIdle true 0].

Lemma ex_locked_reachable : reachable 2 ex_locked.
Proof.
  eapply (reach_to 2 1); [apply ex_waiting_reachable|by eapply (step_trylock 1 false)|reflexivity].
Qed.

Lemma mutex_exclusion_witness :
  reachable 2 ex_locked ∧ (false = false ∧ 0%nat = 0%nat) ∧ mutex_destroy (m ex_locked) = Panicked.
Proof.
  split; [apply ex_locked_reachable|].
  destruct (mutex_exclusion 2 ex_locked ex_locked_reachable) as (H & _).
  split; [|reflexivity].
  apply (proj2 (H 1%nat (Thread PIdle true 0) eq_refl eq_refl) 0%nat (Thread (PSleep false) false 0) eq_refl).
  discriminate.
Defined.
