(* ===== verification/Refcount.v ===== *)
(** * core/kernel/refcount.c, and the recursive mutex of mutex.c built on it

    refcount_inc() and refcount_dec() are loops around a weak compare-and-swap.
    A step is one access to the counter; between two accesses of a thread any
    other thread may run, and the compare-and-swap may fail for no reason. *)
From S2P Require Import Prelude.

Local Open Scope Z_scope.

(** One turn of the loops: [oval] is the local variable, [cur] the counter when
    atomic_cas_uint() executes, [spurious] whether it fails all the same. The
    result is the function's return value, if it returns, with the counter; or
    the new [oval]. *)
Inductive turn := Return (b : bool) (val : Z) | Retry (oval : Z).

Definition refcount_inc_turn (oval cur : Z) (spurious : bool) : turn :=
  let nval := wrap 32 (oval + 1) in
  if oval =? 0 then Return false cur
  else if (cur =? oval) && negb spurious then Return true nval
  else Retry cur.

(** [None]: the assertion fails. *)
Definition refcount_dec_turn (oval cur : Z) (spurious : bool) : option turn :=
  if oval =? 0 then None
  else
    let nval := wrap 32 (oval - 1) in
    if (cur =? oval) && negb spurious then Some (Return (nval =? 0) nval)
    else Some (Retry cur).

(** ** Threads *)

Inductive rpc := ROut | RInc (oval : Z) | RDec (oval : Z).

(** [refs]: the references the thread owns. *)
Record rthread := RThread { r_pc : rpc; refs : nat }.

(** [zeros]: how many calls of refcount_dec() have returned true. *)
Record rworld := RWorld { val : Z; zeros : nat; rthreads : list rthread }.

Definition total (ts : list rthread) : nat := sum_list_with refs ts.

(** A caller of refcount_dec() owns the reference it drops, and there are fewer
    than 2^32 - 1 references. *)
Inductive rstep (i : nat) : rworld → rworld → Prop :=
| rs_inc_load v z ts t :
    ts !! i = Some t → r_pc t = ROut →
    rstep i (RWorld v z ts) (RWorld v z (<[i := RThread (RInc v) (refs t)]> ts))
| rs_dec_load v z ts t :
    ts !! i = Some t → r_pc t = ROut → (0 < refs t)%nat →
    rstep i (RWorld v z ts) (RWorld v z (<[i := RThread (RDec v) (refs t)]> ts))
| rs_inc_turn v z ts t oval sp r :
    ts !! i = Some t → r_pc t = RInc oval → refcount_inc_turn oval v sp = r →
    Z.of_nat (total ts) < 2 ^ 32 - 1 →
    rstep i (RWorld v z ts)
      match r with
      | Return b v' => RWorld v' z (<[i := RThread ROut (if b then S (refs t) else refs t)]> ts)
      | Retry oval => RWorld v z (<[i := RThread (RInc oval) (refs t)]> ts)
      end
| rs_dec_turn v z ts t oval sp r :
    ts !! i = Some t → r_pc t = RDec oval → refcount_dec_turn oval v sp = Some r →
    rstep i (RWorld v z ts)
      match r with
      | Return b v' =>
          RWorld v' (if b then S z else z) (<[i := RThread ROut (pred (refs t))]> ts)
      | Retry oval => RWorld v z (<[i := RThread (RDec oval) (refs t)]> ts)
      end.

(** refcount_set(r, 1) by the thread 0 of [n] threads, then any steps. *)
Inductive rreachable (n : nat) : rworld → Prop :=
| rr_init : rreachable n (RWorld 1 0 (RThread ROut 1 :: replicate n (RThread ROut 0)))
| rr_step i s s' : rreachable n s → rstep i s s' → rreachable n s'.

(** ** The invariant *)

Record rinv (s : rworld) : Prop := {
  ri_val : val s = Z.of_nat (total (rthreads s));
  ri_max : val s < 2 ^ 32;
  ri_dec : ∀ i t oval, rthreads s !! i = Some t → r_pc t = RDec oval →
    (0 < refs t)%nat ∧ oval ≠ 0;
  ri_zeros : zeros s = if decide (val s = 0) then 1%nat else 0%nat;
}.

Lemma total_insert ts i t t' :
  ts !! i = Some t → (total (<[i:=t']> ts) + refs t = total ts + refs t')%nat.
Proof. apply sum_insert. Qed.

Lemma total_member ts i t : ts !! i = Some t → (refs t <= total ts)%nat.
Proof. apply sum_member. Qed.

Lemma ri_dec_insert (ts : list rthread) i t t' :
  ts !! i = Some t →
  (∀ j u oval, ts !! j = Some u → r_pc u = RDec oval → (0 < refs u)%nat ∧ oval ≠ 0) →
  (∀ oval, r_pc t' = RDec oval → (0 < refs t')%nat ∧ oval ≠ 0) →
  ∀ j u oval, <[i:=t']> ts !! j = Some u → r_pc u = RDec oval → (0 < refs u)%nat ∧ oval ≠ 0.
Proof.
  intros Ht Hall Ht' j u oval Hj Hu. destruct (decide (i = j)) as [->|Hne].
  - rewrite list_lookup_insert_eq in Hj by (by eapply lookup_lt_Some). injection Hj as <-. auto.
  - rewrite list_lookup_insert_ne in Hj by done. eauto.
Qed.

Lemma rreachable_inv n s : rreachable n s → rinv s.
Proof.
  induction 1 as [|i s s' _ [Hv Hm Hd Hz] Hstep].
  { constructor; simpl; try done.
    - unfold total. simpl. assert (sum_list_with refs (replicate n (RThread ROut 0)) = 0%nat) as ->;
        [by induction n|done].
    - intros [|i] t oval; simpl; [by intros [= <-]|]. intros [-> _]%lookup_replicate. done. }
  destruct Hstep as [v z ts t Ht Hp|v z ts t Ht Hp Hr|v z ts t oval sp r Ht Hp Hturn Hmax
    |v z ts t oval sp r Ht Hp Hturn]; cbn [val zeros rthreads] in *;
    pose proof (total_member ts i t Ht) as Hmem.
  - pose proof (total_insert ts i t (RThread (RInc v) (refs t)) Ht) as Hi. simpl in Hi.
    constructor; cbn [val zeros rthreads]; try done; [lia|].
    by apply (ri_dec_insert ts i t).
  - pose proof (total_insert ts i t (RThread (RDec v) (refs t)) Ht) as Hi. simpl in Hi.
    constructor; cbn [val zeros rthreads]; try done; [lia|].
    apply (ri_dec_insert ts i t); [done|done|]. simpl. intros ? [= <-]. lia.
  - subst r. unfold refcount_inc_turn. destruct (Z.eqb_spec oval 0) as [->|Ho].
    { pose proof (total_insert ts i t (RThread ROut (refs t)) Ht) as Hi. simpl in Hi.
      constructor; cbn [val zeros rthreads]; try done; [lia|]. by apply (ri_dec_insert ts i t). }
    destruct (Z.eqb_spec v oval) as [->|Hne]; destruct sp; cbn [andb negb];
      try (pose proof (total_insert ts i t (RThread (RInc v) (refs t)) Ht) as Hi; simpl in Hi;
        constructor; cbn [val zeros rthreads]; try done; [lia|]; by apply (ri_dec_insert ts i t)).
    + pose proof (total_insert ts i t (RThread (RInc oval) (refs t)) Ht) as Hi. simpl in Hi.
      constructor; cbn [val zeros rthreads]; try done; [lia|]. by apply (ri_dec_insert ts i t).
    + pose proof (total_insert ts i t (RThread ROut (S (refs t))) Ht) as Hi. simpl in Hi.
      rewrite wrap_small by (unfold in_range; lia).
      constructor; cbn [val zeros rthreads]; [lia|lia|by apply (ri_dec_insert ts i t)|].
      rewrite Hz. repeat case_decide; lia.
  - destruct (Hd i t oval Ht Hp) as [Hr Ho]. unfold refcount_dec_turn in Hturn.
    rewrite (proj2 (Z.eqb_neq _ _)) in Hturn by done.
    destruct (Z.eqb_spec v oval) as [->|Hne]; destruct sp; cbn [andb negb] in Hturn;
      injection Hturn as <-;
      try (pose proof (total_insert ts i t (RThread (RDec v) (refs t)) Ht) as Hi; simpl in Hi;
        constructor; cbn [val zeros rthreads]; try done; [lia|];
        apply (ri_dec_insert ts i t); [done|done|]; simpl; intros ? [= <-]; lia).
    + pose proof (total_insert ts i t (RThread (RDec oval) (refs t)) Ht) as Hi. simpl in Hi.
      constructor; cbn [val zeros rthreads]; try done; [lia|].
      apply (ri_dec_insert ts i t); [done|done|]. simpl. by intros ? [= <-].
    + pose proof (total_insert ts i t (RThread ROut (pred (refs t))) Ht) as Hi. simpl in Hi.
      rewrite wrap_small by (unfold in_range; lia).
      constructor; cbn [val zeros rthreads]; [lia|lia|by apply (ri_dec_insert ts i t)|].
      rewrite Hz. destruct (Z.eqb_spec (oval - 1) 0); repeat case_decide; lia.
Qed.

(** ** Recursive mutexes

    The inner mutex is what mutex.c makes it, a lock with at most one holder. The
    owner is [None] for THREAD_ID_INVALID. Only the owner touches [lock_depth], so
    its loops succeed in their first turn unless the compare-and-swap fails
    spuriously, and then in a later one. *)

Inductive rmpc :=
| RmIdle    (* outside the functions *)
| RmWant    (* in __mutex_lock() *)
| RmGot     (* back from it *)
| RmOwned   (* owner written, depth not *)
| RmRel     (* depth is 0 *)
| RmUnl.    (* owner cleared, before __mutex_unlock() *)

(** [nest]: how many more times the thread has locked than unlocked. *)
Record rmthread := RmThread { rm_pc : rmpc; nest : nat }.

Record recursive_mutex := RMutex { holder : option nat; owner : option nat; lock_depth : Z }.

Definition mutex_init_recursive : recursive_mutex := RMutex None None 0.

Definition mutex_destroy_recursive (r : recursive_mutex) : outcome Empty_set unit :=
  match holder r with None => Ok tt | Some _ => Panicked end.

(** [None]: panic() or a failed assertion. *)
Definition lock_again (r : recursive_mutex) : option recursive_mutex :=
  match refcount_inc_turn (lock_depth r) (lock_depth r) false with
  | Return true d => Some (RMutex (holder r) (owner r) d)
  | _ => None
  end.
Definition lock_own (r : recursive_mutex) (ct : nat) : option recursive_mutex :=
  match owner r with
  | None => Some (RMutex (holder r) (Some ct) (lock_depth r))
  | Some _ => None
  end.
Definition unlock_dec (r : recursive_mutex) (ct : nat) : option (bool * recursive_mutex) :=
  if negb (bool_decide (owner r = Some ct)) then None
  else match refcount_dec_turn (lock_depth r) (lock_depth r) false with
  | Some (Return b d) => Some (b, RMutex (holder r) (owner r) d)
  | _ => None
  end.
Definition mutex_get_recursive_lock_depth (r : recursive_mutex) (ct : nat) : option Z :=
  if bool_decide (owner r = Some ct) then Some (lock_depth r) else None.

Record rmworld := RmWorld { rm : recursive_mutex; rmthreads : list rmthread }.

Inductive rmstep (i : nat) : rmworld → rmworld → Prop :=
| rm_lock_again r r' ts t :
    ts !! i = Some t → rm_pc t = RmIdle → owner r = Some i →
    Z.of_nat (nest t) < 2 ^ 32 - 1 → lock_again r = Some r' →
    rmstep i (RmWorld r ts) (RmWorld r' (<[i := RmThread RmIdle (S (nest t))]> ts))
| rm_lock_first r ts t :
    ts !! i = Some t → rm_pc t = RmIdle → owner r ≠ Some i →
    rmstep i (RmWorld r ts) (RmWorld r (<[i := RmThread RmWant (nest t)]> ts))
| rm_acquire r ts t :
    ts !! i = Some t → rm_pc t = RmWant → holder r = None →
    rmstep i (RmWorld r ts) (RmWorld (RMutex (Some i) (owner r) (lock_depth r))
                              (<[i := RmThread RmGot (nest t)]> ts))
| rm_set_owner r r' ts t :
    ts !! i = Some t → rm_pc t = RmGot → lock_own r i = Some r' →
    rmstep i (RmWorld r ts) (RmWorld r' (<[i := RmThread RmOwned (nest t)]> ts))
| rm_set_depth r ts t :
    ts !! i = Some t → rm_pc t = RmOwned →
    rmstep i (RmWorld r ts) (RmWorld (RMutex (holder r) (owner r) 1)
                              (<[i := RmThread RmIdle (S (nest t))]> ts))
| rm_unlock r r' b ts t :
    ts !! i = Some t → rm_pc t = RmIdle → (0 < nest t)%nat → unlock_dec r i = Some (b, r') →
    rmstep i (RmWorld r ts)
      (RmWorld r' (<[i := RmThread (if b then RmRel else RmIdle) (pred (nest t))]> ts))
| rm_clear_owner r ts t :
    ts !! i = Some t → rm_pc t = RmRel →
    rmstep i (RmWorld r ts) (RmWorld (RMutex (holder r) None (lock_depth r))
                              (<[i := RmThread RmUnl (nest t)]> ts))
| rm_release r ts t :
    ts !! i = Some t → rm_pc t = RmUnl →
    rmstep i (RmWorld r ts) (RmWorld (RMutex None (owner r) (lock_depth r))
                              (<[i := RmThread RmIdle (nest t)]> ts)).

Inductive rmreachable (n : nat) : rmworld → Prop :=
| rmr_init : rmreachable n (RmWorld mutex_init_recursive (replicate n (RmThread RmIdle 0)))
| rmr_step i s s' : rmreachable n s → rmstep i s s' → rmreachable n s'.

(** What the holder of the inner mutex sees, and what the others are. *)
Definition holder_ok (i : nat) (r : recursive_mutex) (t : rmthread) : Prop :=
  match rm_pc t with
  | RmIdle => (0 < nest t)%nat ∧ owner r = Some i ∧ lock_depth r = Z.of_nat (nest t) ∧
              Z.of_nat (nest t) < 2 ^ 32
  | RmGot | RmUnl => nest t = 0%nat ∧ owner r = None
  | RmOwned => nest t = 0%nat ∧ owner r = Some i
  | RmRel => nest t = 0%nat ∧ owner r = Some i ∧ lock_depth r = 0
  | RmWant => False
  end.
Definition other_ok (t : rmthread) : Prop :=
  nest t = 0%nat ∧ (rm_pc t = RmIdle ∨ rm_pc t = RmWant).

Definition rminv (s : rmworld) : Prop :=
  (owner (rm s) = None ∨ owner (rm s) = holder (rm s)) ∧
  ∀ i t, rmthreads s !! i = Some t →
    (holder (rm s) = Some i → holder_ok i (rm s) t) ∧
    (holder (rm s) ≠ Some i → other_ok t).

(** A step of the holder: the others stay what they are. *)
Lemma rminv_step r r' ts i t t' :
  rminv (RmWorld r ts) → ts !! i = Some t →
  holder r = None ∨ holder r = Some i → holder r' = None ∨ holder r' = Some i →
  (owner r' = None ∨ owner r' = holder r') →
  (holder r' = Some i → holder_ok i r' t') → (holder r' ≠ Some i → other_ok t') →
  rminv (RmWorld r' (<[i:=t']> ts)).
Proof.
  intros [_ Hall] Ht Hr Hr' Hown Hh Ho. split; [done|]. intros j u Hj. cbn [rm rmthreads] in *.
  destruct (decide (i = j)) as [->|Hne].
  - rewrite list_lookup_insert_eq in Hj by (by eapply lookup_lt_Some). by injection Hj as <-.
  - rewrite list_lookup_insert_ne in Hj by done. destruct (Hall j u Hj) as [_ Hother].
    split; [intros Hx; destruct Hr'; congruence|]. intros _. apply Hother. destruct Hr; congruence.
Qed.

Lemma rmreachable_inv n s : rmreachable n s → rminv s.
Proof.
  induction 1 as [|i s s' _ IH Hstep].
  { split; [by left|]. intros i t [-> _]%lookup_replicate. split; [done|]. split; [done|by left]. }
  pose proof IH as [Hown Hall].
  assert (∀ t, rmthreads s !! i = Some t → rm_pc t ≠ RmIdle ∨ (0 < nest t)%nat → rm_pc t ≠ RmWant →
    holder (rm s) = Some i ∧ holder_ok i (rm s) t) as Hhold.
  { intros t Ht Hp Hw. destruct (Hall i t Ht) as [H1 H2].
    destruct (decide (holder (rm s) = Some i)) as [Hh|Hh]; [auto|].
    destruct (H2 Hh) as [? [?|?]]; [destruct Hp; [done|lia]|done]. }
  destruct Hstep as [r r' ts t Ht Hp Hw Hn Hs|r ts t Ht Hp Hw|r ts t Ht Hp Hh|r r' ts t Ht Hp Hs
    |r ts t Ht Hp|r r' b ts t Ht Hp Hn Hs|r ts t Ht Hp|r ts t Ht Hp]; cbn [rm rmthreads] in *.
  - assert (holder r = Some i) as Hh by (destruct Hown; congruence).
    destruct (Hall i t Ht) as [Hok _]. specialize (Hok Hh). unfold holder_ok in Hok. rewrite Hp in Hok.
    destruct Hok as (H1 & H2 & H3 & H4). unfold lock_again, refcount_inc_turn in Hs.
    rewrite (proj2 (Z.eqb_neq _ _)), Z.eqb_refl in Hs by lia. cbn [andb negb] in Hs. injection Hs as <-.
    rewrite H3, wrap_small by (unfold in_range; lia).
    apply (rminv_step r _ ts i t); cbn [holder owner lock_depth]; [done|done|by auto|by auto|by auto| |done].
    intros _. unfold holder_ok. cbn [rm_pc nest owner lock_depth]. split_and!; [lia|done|lia|lia].
  - assert (other_ok t) as Ho.
    { destruct (Hall i t Ht) as [Hok Hother]. destruct (decide (holder r = Some i)) as [Hh|Hh]; [|auto].
      specialize (Hok Hh). unfold holder_ok in Hok. rewrite Hp in Hok. by destruct Hok as (_ & ? & _). }
    split; [done|]. intros j u Hj. cbn [rm rmthreads] in *. destruct (decide (i = j)) as [->|Hne].
    + rewrite list_lookup_insert_eq in Hj by (by eapply lookup_lt_Some). injection Hj as <-.
      split; [|by destruct Ho; split; [|right]]. intros Hh. destruct (Hall j t Ht) as [Hok _].
      specialize (Hok Hh). unfold holder_ok in Hok. rewrite Hp in Hok. destruct Ho. lia.
    + rewrite list_lookup_insert_ne in Hj by done. by apply Hall.
  - destruct (Hall i t Ht) as [_ Hother]. rewrite Hh in Hother.
    destruct (Hother ltac:(done)) as [Hn0 _]. rewrite Hh in Hown.
    apply (rminv_step r _ ts i t); cbn [holder owner lock_depth]; [done|done|by auto|by auto|left; by destruct Hown| |done].
    intros _. unfold holder_ok. cbn [rm_pc nest owner]. split; [done|by destruct Hown].
  - destruct (Hhold t Ht) as [Hh Hok]; [left; congruence|congruence|]. unfold holder_ok in Hok.
    rewrite Hp in Hok. destruct Hok as [Hn0 Ho]. unfold lock_own in Hs. rewrite Ho in Hs.
    injection Hs as <-. apply (rminv_step r _ ts i t); cbn [holder owner lock_depth]; [done|done|by auto..|by intros _|done].
  - destruct (Hhold t Ht) as [Hh Hok]; [left; congruence|congruence|]. unfold holder_ok in Hok.
    rewrite Hp in Hok. destruct Hok as [Hn0 Ho].
    apply (rminv_step r _ ts i t); cbn [holder owner lock_depth]; [done|done|by auto|by auto|by auto| |done].
    intros _. unfold holder_ok. cbn [rm_pc nest owner lock_depth]. rewrite Hn0. split_and!; [lia|done|lia|lia].
  - destruct (Hhold t Ht) as [Hh Hok]; [by right|congruence|]. unfold holder_ok in Hok.
    rewrite Hp in Hok. destruct Hok as (H1 & H2 & H3 & H4).
    unfold unlock_dec, refcount_dec_turn in Hs. rewrite bool_decide_eq_true_2 in Hs by done.
    rewrite (proj2 (Z.eqb_neq _ _)), Z.eqb_refl in Hs by lia. cbn [andb negb] in Hs. injection Hs as <- <-.
    rewrite H3, wrap_small by (unfold in_range; lia).
    apply (rminv_step r _ ts i t); cbn [holder owner lock_depth]; [done|done|by auto|by auto|by auto| |done].
    intros _. unfold holder_ok. cbn [rm_pc nest owner lock_depth].
    destruct (Z.eqb_spec (Z.of_nat (nest t) - 1) 0); split_and!; try done; lia.
  - destruct (Hhold t Ht) as [Hh Hok]; [left; congruence|congruence|]. unfold holder_ok in Hok.
    rewrite Hp in Hok. destruct Hok as (H1 & H2 & H3).
    apply (rminv_step r _ ts i t); cbn [holder owner lock_depth]; [done|done|by auto|by auto|by left|by intros _|done].
  - destruct (Hhold t Ht) as [Hh Hok]; [left; congruence|congruence|]. unfold holder_ok in Hok.
    rewrite Hp in Hok. destruct Hok as [H1 H2].
    apply (rminv_step r _ ts i t); cbn [holder owner lock_depth]; [done|done|by auto|by auto|by left|done|].
    intros _. split; [done|by left].
Qed.

(** ** Properties *)

(** The counter is at all times the number of references the threads
    own; the assertion of refcount_dec never fails; exactly one call of
    refcount_dec returns true when the last reference goes away, and none before;
    from then on the counter stays 0 and refcount_inc cannot return true. *)
Lemma refcount_counts_references n s :
  rreachable n s →
  val s = Z.of_nat (total (rthreads s)) ∧
  (∀ i t oval sp, rthreads s !! i = Some t → r_pc t = RDec oval →
    refcount_dec_turn oval (val s) sp ≠ None) ∧
  zeros s = (if decide (val s = 0) then 1%nat else 0%nat) ∧
  (val s = 0 → (∀ oval sp v, refcount_inc_turn oval (val s) sp ≠ Return true v) ∧
    ∀ i s', rstep i s s' → val s' = 0).
Proof.
  intros Hinv%rreachable_inv. pose proof Hinv as [Hv Hm Hd Hz]. split_and!; [done| |done|].
  - intros i t oval sp Ht Hp. destruct (Hd i t oval Ht Hp) as [_ Ho]. unfold refcount_dec_turn.
    rewrite (proj2 (Z.eqb_neq _ _)) by done. by destruct (_ && _).
  - intros H0.
    assert (∀ oval sp v, refcount_inc_turn oval (val s) sp ≠ Return true v) as Hinc.
    { intros oval sp v. unfold refcount_inc_turn. destruct (Z.eqb_spec oval 0); [done|].
      by rewrite H0, (proj2 (Z.eqb_neq _ _)) by lia. }
    split; [done|]. intros i s' Hstep.
    destruct Hstep as [v z ts t Ht Hp|v z ts t Ht Hp Hr|v z ts t oval sp r Ht Hp Hturn Hmax
      |v z ts t oval sp r Ht Hp Hturn]; cbn [val rthreads] in *; try done.
    + subst r. unfold refcount_inc_turn in *. destruct (Z.eqb_spec oval 0); [done|].
      by rewrite H0, (proj2 (Z.eqb_neq _ _)) by lia.
    + destruct (Hd i t oval Ht Hp). pose proof (total_member ts i t Ht). lia.
Qed.

(** C38: recursive mutexes. At most one thread is inside; its nesting depth is
    lock_depth and it is the owner, so locking again does not panic and unlocking
    does not fail its assertion; the assertion that no owner is set when the inner
    mutex has been taken never fails. *)
Theorem recursive_mutex_ok n s :
  rmreachable n s →
  (∀ i t, rmthreads s !! i = Some t → (0 < nest t)%nat → rm_pc t = RmIdle →
    owner (rm s) = Some i ∧ lock_depth (rm s) = Z.of_nat (nest t) ∧
    is_Some (lock_again (rm s)) ∧ is_Some (unlock_dec (rm s) i) ∧
    mutex_get_recursive_lock_depth (rm s) i = Some (Z.of_nat (nest t))) ∧
  (∀ i j t u, rmthreads s !! i = Some t → rmthreads s !! j = Some u →
    (0 < nest t)%nat → (0 < nest u)%nat → i = j) ∧
  (∀ i t, rmthreads s !! i = Some t → rm_pc t = RmGot → is_Some (lock_own (rm s) i)).
Proof.
  intros [Hown Hall]%rmreachable_inv.
  assert (∀ i t, rmthreads s !! i = Some t → (0 < nest t)%nat ∨ rm_pc t = RmGot →
    holder (rm s) = Some i ∧ holder_ok i (rm s) t) as Hhold.
  { intros i t Ht Hn. destruct (Hall i t Ht) as [H1 H2].
    destruct (decide (holder (rm s) = Some i)) as [Hh|Hh]; [auto|].
    destruct (H2 Hh) as [? [?|?]]; (destruct Hn; [lia|congruence]). }
  split_and!.
  - intros i t Ht Hn Hp. destruct (Hhold i t Ht) as [Hh Hok]; [by left|].
    unfold holder_ok in Hok. rewrite Hp in Hok. destruct Hok as (_ & Ho & Hdep & Hmax).
    split; [done|]. split; [done|].
    unfold lock_again, unlock_dec, mutex_get_recursive_lock_depth, refcount_inc_turn, refcount_dec_turn.
    rewrite (bool_decide_eq_true_2 (owner _ = _)) by done.
    rewrite (proj2 (Z.eqb_neq (lock_depth _) 0)), Z.eqb_refl by lia. cbn [andb negb].
    split; [by eexists|]. split; [by eexists|]. by rewrite Hdep.
  - intros i j t u Ht Hu Hnt Hnu. destruct (Hhold i t Ht) as [Hi _]; [by left|].
    destruct (Hhold j u Hu) as [Hj _]; [by left|]. congruence.
  - intros i t Ht Hp. destruct (Hhold i t Ht) as [_ Hok]; [by right|].
    unfold holder_ok in Hok. rewrite Hp in Hok. destruct Hok as [_ Ho].
    unfold lock_own. rewrite Ho. by eexists.
Qed.

(** ** Witnesses *)

Lemma rr_to n i s s' s'' : rreachable n s → rstep i s s' → s' = s'' → rreachable n s''.
Proof. intros ? ? <-. by eapply rr_step. Qed.

Lemma ex_dropped_reachable : rreachable 1 (RWorld 0 1 [RThread ROut 0; RThread ROut 0]).
Proof.
  eapply (rr_to 1 0); [|eapply (rs_dec_turn 0 1 0 [RThread (RDec 1) 1; RThread ROut 0] _ 1 false); reflexivity|reflexivity].
  eapply (rr_to 1 0); [apply rr_init|eapply rs_dec_load; [reflexivity|reflexivity|simpl; lia]|reflexivity].
Qed.

Lemma rmr_to n i s s' s'' : rmreachable n s → rmstep i s s' → s' = s'' → rmreachable n s''.
Proof. intros ? ? <-. by eapply rmr_step. Qed.

Lemma ex_nested_reachable :
  rmreachable 1 (RmWorld (RMutex (Some 0%nat) (Some 0%nat) 2) [RmThread RmIdle 2]).
Proof.
  eapply (rmr_to 1 0); [|by eapply (rm_lock_again 0 (RMutex (Some 0%nat) (Some 0%nat) 1) _ [RmThread RmIdle 1])|reflexivity].
  eapply (rmr_to 1 0); [|by eapply (rm_set_depth 0 (RMutex (Some 0%nat) (Some 0%nat) 0) [RmThread RmOwned 0])|reflexivity].
  eapply (rmr_to 1 0); [|by eapply (rm_set_owner 0 (RMutex (Some 0%nat) None 0) _ [RmThread RmGot 0])|reflexivity].
  eapply (rmr_to 1 0); [|by eapply (rm_acquire 0 mutex_init_recursive [RmThread RmWant 0])|reflexivity].
  eapply (rmr_to 1 0); [apply rmr_init|by eapply rm_lock_first|reflexivity].
Qed.

Lemma recursive_mutex_ok_witness :
  rmreachable 1 (RmWorld (RMutex (Some 0%nat) (Some 0%nat) 2) [RmThread RmIdle 2]) ∧
  mutex_get_recursive_lock_depth (RMutex (Some 0%nat) (Some 0%nat) 2) 0 = Some 2.
Proof.
  split; [apply ex_nested_reachable|].
  destruct (recursive_mutex_ok 1 _ ex_nested_reachable) as (H & _).
  apply (H 0%nat (RmThread RmIdle 2)); [reflexivity|simpl; lia|reflexivity].
Defined.
