(* ===== verification/Lockdep.v ===== *)
(** * core/kernel/lockdep.c: the lock order checker

    The graph is the TAILQ of its nodes. A node is known by its lock id, which
    no two nodes share, so a pointer to a node is that id. [mem] tells which of
    the coming allocations succeed. *)
From S2P Require Import Prelude.

Local Open Scope Z_scope.

Definition LOCKDEP_NODE_TEMP_MARK : Z := 1.
Definition LOCKDEP_NODE_PERM_MARK : Z := 2.
Definition LOCKDEP_NODE_BFS_VISITED : Z := 4.

Record lockdep_edge := Edge {
  to : Z;
  thread_id : nat;
  call_stack_from : option (list Z);
  call_stack_to : option (list Z);
}.
Record lockdep_node := Node { lock_id : Z; edges : list lockdep_edge; flags : Z }.
Record lockdep_lock := Lock { node : Z; call_stack : option (list Z) }.

Abbreviation graph := (list lockdep_node).

(** One allocation. *)
Definition alloc (mem : list bool) : bool * list bool :=
  match mem with [] => (true, []) | b :: mem => (b, mem) end.

Fixpoint find_node (g : graph) (id : Z) : option lockdep_node :=
  match g with
  | [] => None
  | n :: g => if lock_id n =? id then Some n else find_node g id
  end.

Definition update_node (g : graph) (id : Z) (f : lockdep_node → lockdep_node) : graph :=
  (λ n, if lock_id n =? id then f n else n) <$> g.

Definition set_flags (f : Z) (n : lockdep_node) : lockdep_node := Node (lock_id n) (edges n) f.

(** ** Building the graph *)

(** [false]: NULL. *)
Definition lockdep_add_to_graph (g : graph) (id : Z) (mem : list bool)
    : bool * graph * list bool :=
  match find_node g id with
  | Some _ => (true, g, mem)
  | None =>
    let '(ok, mem) := alloc mem in
    if ok then (true, g ++ [Node id [] 0], mem) else (false, g, mem)
  end.

Definition dup_call_stack (stack : option (list Z)) (mem : list bool)
    : option (list Z) * list bool :=
  match stack with
  | None => (None, mem)
  | Some s => let '(ok, mem) := alloc mem in (if ok then Some s else None, mem)
  end.

Definition lockdep_add_edge (g : graph) (from to' : Z) (csf cst : option (list Z)) (tid : nat)
    (mem : list bool) : tee_result * graph * list bool :=
  match find_node g from with
  | None => (TEE_SUCCESS, g, mem)  (* not reached: [from] is a node *)
  | Some n =>
    if existsb (λ e, to e =? to') (edges n) then (TEE_SUCCESS, g, mem)
    else
      let '(ok, mem) := alloc mem in
      if negb ok then (TEE_ERROR_OUT_OF_MEMORY, g, mem)
      else
        let '(csf, mem) := dup_call_stack csf mem in
        let '(cst, mem) := dup_call_stack cst mem in
        (TEE_SUCCESS,
         update_node g from (λ n, Node (lock_id n) (edges n ++ [Edge to' tid csf cst]) (flags n)),
         mem)
  end.

(** ** Sorting *)

(** The STAILQ_FOREACH of lockdep_visit(). *)
Fixpoint visit_edges (visit : graph → Z → option (tee_result * graph)) (es : list lockdep_edge)
    (g : graph) : option (tee_result * graph) :=
  match es with
  | [] => Some (TEE_SUCCESS, g)
  | e :: es =>
    match visit g (to e) with
    | Some (TEE_SUCCESS, g) => visit_edges visit es g
    | r => r
    end
  end.

(** [None]: out of fuel, or a pointer to no node. *)
Fixpoint lockdep_visit (fuel : nat) (g : graph) (id : Z) : option (tee_result * graph) :=
  match fuel with
  | O => None
  | S fuel =>
    n ← find_node g id;
    if negb (Z.land (flags n) LOCKDEP_NODE_PERM_MARK =? 0) then Some (TEE_SUCCESS, g)
    else if negb (Z.land (flags n) LOCKDEP_NODE_TEMP_MARK =? 0) then Some (TEE_ERROR_BAD_STATE, g)
    else
      let g := update_node g id (λ n, set_flags (Z.lor (flags n) LOCKDEP_NODE_TEMP_MARK) n) in
      match visit_edges (lockdep_visit fuel) (edges n) g with
      | Some (TEE_SUCCESS, g) =>
        Some (TEE_SUCCESS,
              update_node g id (λ n, set_flags (Z.lor (flags n) LOCKDEP_NODE_PERM_MARK) n))
      | r => r
      end
  end.

(** The first TAILQ_FOREACH of lockdep_graph_sort(). *)
Fixpoint sort_nodes (fuel : nat) (ids : list Z) (g : graph) : option (tee_result * graph) :=
  match ids with
  | [] => Some (TEE_SUCCESS, g)
  | id :: ids =>
    n ← find_node g id;
    if flags n =? 0 then
      match lockdep_visit fuel g id with
      | Some (TEE_SUCCESS, g) => sort_nodes fuel ids g
      | r => r
      end
    else sort_nodes fuel ids g
  end.

Definition lockdep_graph_sort (g : graph) : option (tee_result * graph) :=
  match sort_nodes (S (length g)) (lock_id <$> g) g with
  | Some (TEE_SUCCESS, g) => Some (TEE_SUCCESS, set_flags 0 <$> g)
  | r => r
  end.

(** ** The shortest cycle *)

(** The search: [queue] holds the nodes to look at, each with its path from
    [start]. [None]: out of fuel; [Some (None, _)]: NULL. *)
Fixpoint bfs_edges (start : Z) (path : list Z) (es : list lockdep_edge)
    (queue : list (Z * list Z)) (g : graph) : (option (list Z)) * list (Z * list Z) * graph :=
  match es with
  | [] => (None, queue, g)
  | e :: es =>
    if to e =? start then (Some path, queue, g)
    else match find_node g (to e) with
    | None => (None, queue, g)
    | Some n =>
      if Z.land (flags n) LOCKDEP_NODE_BFS_VISITED =? 0 then
        bfs_edges start path es (queue ++ [(to e, path ++ [to e])])
          (update_node g (to e) (λ n, set_flags (Z.lor (flags n) LOCKDEP_NODE_BFS_VISITED) n))
      else bfs_edges start path es queue g
    end
  end.

Fixpoint bfs_loop (fuel : nat) (start : Z) (queue : list (Z * list Z)) (g : graph)
    : option (option (list Z) * graph) :=
  match fuel with
  | O => None
  | S fuel =>
    match queue with
    | [] => Some (None, g)
    | (id, path) :: queue =>
      n ← find_node g id;
      match bfs_edges start path (edges n) queue g with
      | (Some p, _, g) => Some (Some p, g)
      | (None, queue, g) => bfs_loop fuel start queue g
      end
    end
  end.

(** With the memory it needs; the path is returned without its 0 terminator. *)
Definition lockdep_graph_get_shortest_cycle (g : graph) (id : Z)
    : option (option (list Z) * graph) :=
  let g := update_node g id (λ n, set_flags (Z.lor (flags n) LOCKDEP_NODE_BFS_VISITED) n) in
  bfs_loop (S (S (length g))) id [(id, [id])] g.

Definition lockdep_find_edge (g : graph) (from to' : Z) : option lockdep_edge :=
  n ← find_node g from; head (filter (λ e, to e = to') (edges n)).

(** ** Acquire and release *)

(** The TAILQ_FOREACH of __lockdep_lock_acquire(). *)
Fixpoint add_edges (owned : list lockdep_lock) (id : Z) (stk : option (list Z)) (tid : nat)
    (g : graph) (mem : list bool) : tee_result * graph * list bool :=
  match owned with
  | [] => (TEE_SUCCESS, g, mem)
  | lock :: owned =>
    match lockdep_add_edge g (node lock) id (call_stack lock) stk tid mem with
    | (TEE_SUCCESS, g, mem) => add_edges owned id stk tid g mem
    | r => r
    end
  end.

(** [tid] is the address of [owned], [stk] what lockdep_get_kernel_stack()
    returns. [None]: no result. lockdep_print_cycle_info() only prints. *)
Definition __lockdep_lock_acquire (g : graph) (owned : list lockdep_lock) (id : Z) (tid : nat)
    (stk : option (list Z)) (mem : list bool)
    : option (tee_result * graph * list lockdep_lock) :=
  let '(ok, g, mem) := lockdep_add_to_graph g id mem in
  if negb ok then Some (TEE_ERROR_OUT_OF_MEMORY, g, owned)
  else match add_edges owned id stk tid g mem with
  | (TEE_SUCCESS, g, mem) =>
    '(res, g) ← lockdep_graph_sort g;
    match res with
    | TEE_SUCCESS =>
      if (alloc mem).1 then Some (TEE_SUCCESS, g, owned ++ [Lock id stk])
      else Some (TEE_ERROR_OUT_OF_MEMORY, g, owned)
    | res => Some (res, g, owned)
    end
  | (res, g, _) => Some (res, g, owned)
  end.

Definition __lockdep_lock_tryacquire (g : graph) (owned : list lockdep_lock) (id : Z)
    (stk : option (list Z)) (mem : list bool) : tee_result * graph * list lockdep_lock :=
  let '(ok, g, mem) := lockdep_add_to_graph g id mem in
  if negb ok then (TEE_ERROR_OUT_OF_MEMORY, g, owned)
  else if (alloc mem).1 then (TEE_SUCCESS, g, owned ++ [Lock id stk])
  else (TEE_ERROR_OUT_OF_MEMORY, g, owned).

(** Remove the last lock with that id. *)
Fixpoint remove_last (owned : list lockdep_lock) (id : Z) : option (list lockdep_lock) :=
  match owned with
  | [] => None
  | l :: owned =>
    match remove_last owned id with
    | Some owned => Some (l :: owned)
    | None => if node l =? id then Some owned else None
    end
  end.

Definition __lockdep_lock_release (owned : list lockdep_lock) (id : Z)
    : tee_result * list lockdep_lock :=
  match remove_last owned id with
  | Some owned => (TEE_SUCCESS, owned)
  | None => (TEE_ERROR_ITEM_NOT_FOUND, owned)
  end.

(** The two loops of lockdep_node_destroy() over the edges of a node: first the
    head as long as it matches, then the successors of the current edge. *)
Fixpoint drop_heads (es : list lockdep_edge) (id : Z) : list lockdep_edge :=
  match es with
  | e :: es' => if to e =? id then drop_heads es' id else es
  | [] => []
  end.
Fixpoint drop_nexts (es : list lockdep_edge) (id : Z) : list lockdep_edge :=
  match es with
  | [] => []
  | next :: es => if to next =? id then drop_nexts es id else next :: drop_nexts es id
  end.
Definition destroy_edges (es : list lockdep_edge) (id : Z) : list lockdep_edge :=
  match drop_heads es id with
  | [] => []
  | edge :: es => edge :: drop_nexts es id
  end.

Definition lockdep_node_destroy (g : graph) (id : Z) : graph :=
  (λ n, Node (lock_id n) (destroy_edges (edges n) id) (flags n)) <$>
  filter (λ n, lock_id n ≠ id) g.

Definition lockdep_lock_destroy (g : graph) (id : Z) : graph :=
  match find_node g id with
  | Some _ => lockdep_node_destroy g id
  | None => g
  end.

Definition lockdep_graph_delete (g : graph) : graph := [].
Definition lockdep_queue_delete (owned : list lockdep_lock) : list lockdep_lock := [].

(** ** The graph as a relation *)

Definition edge (g : graph) (a b : Z) : Prop :=
  ∃ n e, find_node g a = Some n ∧ e ∈ edges n ∧ to e = b.
Definition in_graph (g : graph) (a : Z) : Prop := is_Some (find_node g a).
Definition cyclic (g : graph) : Prop := ∃ x, tc (edge g) x x.

(** Edges lead to nodes. *)
Definition closed (g : graph) : Prop := ∀ a b, edge g a b → in_graph g b.

(** The mark of a node. *)
Definition fl (g : graph) (x : Z) : Z :=
  match find_node g x with Some n => flags n | None => 0 end.

(** The graph without its marks. *)
Definition skel (g : graph) : list (Z * list lockdep_edge) := (λ n, (lock_id n, edges n)) <$> g.

Lemma skel_find g g' x : skel g = skel g' → edges <$> find_node g x = edges <$> find_node g' x.
Proof.
  revert g'. induction g as [|n g IH]; intros [|n' g'] Hs; try done.
  injection Hs as H1 H2 H3. cbn [find_node]. rewrite H1.
  destruct (lock_id n' =? x); [simpl; congruence|]. by apply IH.
Qed.

Lemma skel_in_graph g g' x : skel g = skel g' → in_graph g x → in_graph g' x.
Proof. intros Hs%(skel_find _ _ x) [n Hn]. unfold in_graph. rewrite Hn in Hs. by destruct (find_node g' x). Qed.

Lemma skel_edge g g' a b : skel g = skel g' → edge g a b → edge g' a b.
Proof.
  intros Hs%(skel_find _ _ a) (n & e & Hn & He). rewrite Hn in Hs.
  destruct (find_node g' a) as [n'|] eqn:Hn'; [|done]. injection Hs as Hs.
  exists n', e. by rewrite <- Hs.
Qed.

Lemma skel_tc g g' a b : skel g = skel g' → tc (edge g) a b → tc (edge g') a b.
Proof.
  intros Hs. induction 1 as [x y H|x y z H _ IH].
  - apply tc_once. by eapply skel_edge.
  - eapply tc_l; [by eapply skel_edge|done].
Qed.

Lemma skel_closed g g' : skel g = skel g' → closed g → closed g'.
Proof.
  intros Hs Hc a b Hab. apply (skel_in_graph g); [done|]. apply (Hc a).
  by eapply (skel_edge g').
Qed.

Lemma find_update g id f x :
  (∀ n, lock_id (f n) = lock_id n) →
  find_node (update_node g id f) x = if x =? id then f <$> find_node g x else find_node g x.
Proof.
  intros Hf. induction g as [|n g IH]; simpl; [by case_match|].
  destruct (Z.eqb_spec (lock_id n) id) as [Hn|Hn]; rewrite ?Hf.
  - rewrite IH. destruct (Z.eqb_spec (lock_id n) x), (Z.eqb_spec x id); first [done|lia].
  - rewrite IH. destruct (Z.eqb_spec (lock_id n) x), (Z.eqb_spec x id); first [done|lia].
Qed.

Definition mark (m : Z) (n : lockdep_node) : lockdep_node := set_flags (Z.lor (flags n) m) n.

Lemma skel_mark g id m : skel (update_node g id (mark m)) = skel g.
Proof.
  unfold skel, update_node. rewrite <- list_fmap_compose. apply list_fmap_ext. intros _ n _. simpl.
  by destruct (lock_id n =? id).
Qed.

Lemma fl_mark g id m x :
  fl (update_node g id (mark m)) x =
  if bool_decide (x = id ∧ in_graph g id) then Z.lor (fl g x) m else fl g x.
Proof.
  unfold fl. rewrite find_update by done. unfold in_graph.
  destruct (Z.eqb_spec x id) as [->|].
  - destruct (find_node g id); simpl; case_bool_decide as H; try done; [by destruct H|].
    by destruct H as [_ []].
  - by rewrite bool_decide_eq_false_2 by tauto.
Qed.

(** The nodes without a mark. *)
Definition unmarked (g : graph) : nat := length (filter (λ n, flags n = 0) g).

Lemma lor_nonzero a m : 0 < m → Z.lor a m ≠ 0.
Proof. intros Hm [_ H]%Z.lor_eq_0_iff. lia. Qed.

Lemma unmarked_cons n g :
  unmarked (n :: g) = if decide (flags n = 0) then S (unmarked g) else unmarked g.
Proof. unfold unmarked. rewrite filter_cons. by case_decide. Qed.

Lemma unmarked_mark g id m : 0 < m → (unmarked (update_node g id (mark m)) <= unmarked g)%nat.
Proof.
  intros Hm. induction g as [|n g IH]; [done|]. unfold update_node. rewrite fmap_cons.
  fold (update_node g id (mark m)). rewrite !unmarked_cons.
  destruct (lock_id n =? id); simpl.
  - pose proof (lor_nonzero (flags n) m Hm). repeat case_decide; lia.
  - repeat case_decide; lia.
Qed.

Lemma unmarked_mark_lt g id m n :
  0 < m → find_node g id = Some n → flags n = 0 →
  (unmarked (update_node g id (mark m)) < unmarked g)%nat.
Proof.
  intros Hm. induction g as [|n' g IH]; [done|]. unfold update_node. rewrite fmap_cons.
  fold (update_node g id (mark m)). rewrite !unmarked_cons. simpl.
  destruct (lock_id n' =? id); simpl.
  - intros [= ->] Hn. pose proof (lor_nonzero (flags n) m Hm).
    pose proof (unmarked_mark g id m Hm). repeat case_decide; lia.
  - intros Hf Hn. specialize (IH Hf Hn). repeat case_decide; lia.
Qed.

(** ** The depth-first search *)

Definition sort_flags (g : graph) : Prop := ∀ x, fl g x = 0 ∨ fl g x = 1 ∨ fl g x = 3.

Record marks_ok (g : graph) : Prop := {
  mo_closed : closed g;
  mo_flags : sort_flags g;
  mo_perm_closed : ∀ x y, fl g x = 3 → edge g x y → fl g y = 3;
  mo_perm_acyclic : ∀ x, fl g x = 3 → ¬ tc (edge g) x x;
}.

(** What a successful visit leaves behind. *)
Record visited (g g' : graph) : Prop := {
  vs_ok : marks_ok g';
  vs_stack : ∀ x, fl g' x = 1 ↔ fl g x = 1;
  vs_perm : ∀ x, fl g x = 3 → fl g' x = 3;
  vs_less : (unmarked g' <= unmarked g)%nat;
}.

Definition visit_result (g : graph) (done : graph → Prop) (r : option (tee_result * graph)) : Prop :=
  ∃ res g', r = Some (res, g') ∧ skel g' = skel g ∧
    ((res = TEE_SUCCESS ∧ visited g g' ∧ done g') ∨
     (res = TEE_ERROR_BAD_STATE ∧ cyclic g ∧ sort_flags g')).

Definition visit_spec (visit : graph → Z → option (tee_result * graph)) (fuel : nat) : Prop :=
  ∀ g id, marks_ok g → in_graph g id → (∀ x, fl g x = 1 → tc (edge g) x id) →
    (unmarked g < fuel)%nat → visit_result g (λ g', fl g' id = 3) (visit g id).

Lemma visited_refl g : marks_ok g → visited g g.
Proof. by constructor. Qed.

Lemma visited_trans g1 g2 g3 : visited g1 g2 → visited g2 g3 → visited g1 g3.
Proof.
  intros [H1 H2 H3 H4] [H1' H2' H3' H4']. constructor; [done| |auto|lia].
  intros x. by rewrite H2', H2.
Qed.

Lemma perm_reach g x y : marks_ok g → fl g x = 3 → tc (edge g) x y → fl g y = 3.
Proof.
  intros Hg Hx Ht. revert Hx. induction Ht as [x y H|x y z H _ IH]; intros Hx.
  - by eapply mo_perm_closed.
  - apply IH. by eapply mo_perm_closed.
Qed.

Lemma visit_edges_ok visit fuel p es g :
  visit_spec visit fuel → marks_ok g → fl g p = 1 →
  (∀ x, fl g x = 1 → x = p ∨ tc (edge g) x p) → (∀ e, e ∈ es → edge g p (to e)) →
  (unmarked g < fuel)%nat →
  visit_result g (λ g', ∀ e, e ∈ es → fl g' (to e) = 3) (visit_edges visit es g).
Proof.
  intros Hspec. revert g. induction es as [|e es IH]; intros g Hg Hp Hstack Hes Hfuel; cbn [visit_edges].
  { exists TEE_SUCCESS, g. split_and!; [done|done|left]. split; [done|]. split; [by apply visited_refl|].
    by intros e ?%elem_of_nil. }
  assert (edge g p (to e)) as Hpe by (apply Hes; left).
  destruct (Hspec g (to e)) as (res & g1 & -> & Hsk & Hcase); [done| | |done|].
  - by eapply mo_closed.
  - intros x Hx. destruct (Hstack x Hx) as [->|Hxp]; [by apply tc_once|]. by eapply tc_r.
  - destruct Hcase as [(-> & Hv & Hd)|[-> Hc]].
    2: { exists TEE_ERROR_BAD_STATE, g1. split; [done|]. split; [done|by right]. }
    pose proof (vs_stack _ _ Hv) as Hst.
    destruct (IH g1) as (res & g2 & -> & Hsk2 & Hcase).
    + apply Hv.
    + by apply Hst.
    + intros x Hx. apply Hst in Hx. destruct (Hstack x Hx) as [->|Hxp]; [by left|right].
      by eapply (skel_tc g).
    + intros e' He'. apply (skel_edge g); [done|]. apply Hes. by right.
    + pose proof (vs_less _ _ Hv). lia.
    + exists res, g2. split; [done|]. split; [congruence|].
      destruct Hcase as [(-> & Hv2 & Hd2)|(-> & [x Hx] & Hfl)]; [left|right].
      * split; [done|]. split; [by eapply visited_trans|].
        intros e' [->|He']%elem_of_cons; [by apply (vs_perm _ _ Hv2)|by apply Hd2].
      * split; [done|]. split; [|done]. exists x. by eapply (skel_tc g1).
Qed.

Lemma mark_temp_ok g id : marks_ok g → fl g id = 0 → in_graph g id →
  let g1 := update_node g id (mark LOCKDEP_NODE_TEMP_MARK) in
  marks_ok g1 ∧ fl g1 id = 1 ∧ (∀ x, x ≠ id → fl g1 x = fl g x).
Proof.
  intros Hg Hid Hin g1.
  assert (skel g1 = skel g) as Hsk by apply skel_mark.
  assert (fl g1 id = 1) as H1.
  { unfold g1. rewrite fl_mark, bool_decide_eq_true_2, Hid by done. done. }
  assert (∀ x, x ≠ id → fl g1 x = fl g x) as H2.
  { intros x Hx. unfold g1. by rewrite fl_mark, bool_decide_eq_false_2 by tauto. }
  split; [|done]. constructor.
  - eapply skel_closed; [symmetry; done|apply Hg].
  - intros x. destruct (decide (x = id)) as [->|Hx]; [lia|]. rewrite H2 by done. apply Hg.
  - intros x y Hx Hxy. destruct (decide (x = id)) as [->|Hne]; [lia|]. rewrite H2 in Hx by done.
    apply (skel_edge _ _ _ _ Hsk) in Hxy. pose proof (mo_perm_closed g Hg x y Hx Hxy) as Hy.
    destruct (decide (y = id)) as [->|]; [lia|]. by rewrite H2.
  - intros x Hx Ht. destruct (decide (x = id)) as [->|Hne]; [lia|]. rewrite H2 in Hx by done.
    apply (mo_perm_acyclic g Hg x Hx). by eapply (skel_tc g1).
Qed.

Lemma mark_perm_ok g id : marks_ok g → fl g id = 1 → in_graph g id →
  (∀ y, edge g id y → fl g y = 3) →
  let g1 := update_node g id (mark LOCKDEP_NODE_PERM_MARK) in
  marks_ok g1 ∧ fl g1 id = 3 ∧ (∀ x, x ≠ id → fl g1 x = fl g x).
Proof.
  intros Hg Hid Hin Hsucc g1.
  assert (skel g1 = skel g) as Hsk by apply skel_mark.
  assert (fl g1 id = 3) as H1.
  { unfold g1. rewrite fl_mark, bool_decide_eq_true_2, Hid by done. done. }
  assert (∀ x, x ≠ id → fl g1 x = fl g x) as H2.
  { intros x Hx. unfold g1. by rewrite fl_mark, bool_decide_eq_false_2 by tauto. }
  split; [|done]. constructor.
  - eapply skel_closed; [symmetry; done|apply Hg].
  - intros x. destruct (decide (x = id)) as [->|Hx]; [lia|]. rewrite H2 by done. apply Hg.
  - intros x y Hx Hxy. apply (skel_edge _ _ _ _ Hsk) in Hxy.
    destruct (decide (y = id)) as [->|]; [done|]. rewrite H2 by done.
    destruct (decide (x = id)) as [->|Hne]; [by apply Hsucc|]. rewrite H2 in Hx by done.
    by apply (mo_perm_closed g Hg x).
  - intros x Hx Ht. apply (skel_tc _ _ _ _ Hsk) in Ht.
    destruct (decide (x = id)) as [->|Hne].
    + assert (∃ y, edge g id y ∧ (y = id ∨ tc (edge g) y id)) as (y & Hy & Hyi).
      { inversion Ht; subst; [by exists id; auto|]. eexists; eauto. }
      pose proof (Hsucc y Hy) as Hy3. destruct Hyi as [->|Hyi]; [lia|].
      pose proof (perm_reach g y id Hg Hy3 Hyi). lia.
    + rewrite H2 in Hx by done. by apply (mo_perm_acyclic g Hg x Hx).
Qed.

Lemma fl_in_graph g x : fl g x ≠ 0 → in_graph g x.
Proof. unfold fl, in_graph. destruct (find_node g x); [by eexists|done]. Qed.

Lemma visit_ok fuel : visit_spec (lockdep_visit fuel) fuel.
Proof.
  induction fuel as [|fuel IH]; intros g id Hg Hin Hstack Hfuel; [lia|]. cbn [lockdep_visit].
  pose proof Hin as [n Hn]. rewrite Hn. cbn [mbind option_bind].
  assert (fl g id = flags n) as Hfl by (unfold fl; by rewrite Hn).
  destruct (mo_flags g Hg id) as [H0|[H0|H0]]; rewrite Hfl in H0; rewrite H0; cbn [Z.land negb Z.eqb].
  - change (Z.land 0 LOCKDEP_NODE_PERM_MARK) with 0. change (Z.land 0 LOCKDEP_NODE_TEMP_MARK) with 0.
    cbn [Z.eqb negb]. fold (mark LOCKDEP_NODE_TEMP_MARK). fold (mark LOCKDEP_NODE_PERM_MARK).
    set (g1 := update_node g id (mark LOCKDEP_NODE_TEMP_MARK)).
    destruct (mark_temp_ok g id Hg) as (Hg1 & H1 & Hoth); [congruence|done|].
    fold g1 in Hg1, H1, Hoth.
    assert (skel g1 = skel g) as Hsk1 by apply skel_mark.
    destruct (visit_edges_ok (lockdep_visit fuel) fuel id (edges n) g1) as (res & g2 & -> & Hsk2 & Hcase);
      try done.
    + intros x Hx. destruct (decide (x = id)) as [|Hne]; [by left|right].
      rewrite Hoth in Hx by done. apply (skel_tc g); [done|]. by apply Hstack.
    + intros e He. apply (skel_edge g); [done|]. by exists n, e.
    + pose proof (unmarked_mark_lt g id LOCKDEP_NODE_TEMP_MARK n ltac:(done) Hn H0) as Hu.
      fold g1 in Hu. lia.
    + destruct Hcase as [(-> & Hv & Hd)|(-> & [x Hx] & Hfl2)].
      2: { exists TEE_ERROR_BAD_STATE, g2. split; [done|]. split; [congruence|right].
           split; [done|]. split; [|done]. exists x. by eapply (skel_tc g1). }
      assert (fl g2 id = 1) as H2 by (by apply (vs_stack _ _ Hv)).
      assert (in_graph g2 id) as Hin2 by (apply fl_in_graph; lia).
      destruct (mark_perm_ok g2 id) as (Hg3 & H3 & Hoth3); [apply Hv|done|done| |].
      { intros y (n' & e & Hn' & He & <-).
        apply (skel_find _ _ id) in Hsk1. apply (skel_find _ _ id) in Hsk2.
        rewrite Hsk1, Hn, Hn' in Hsk2. injection Hsk2 as Hed. apply Hd. congruence. }
      exists TEE_SUCCESS, (update_node g2 id (mark LOCKDEP_NODE_PERM_MARK)).
      split; [done|]. split; [rewrite skel_mark; congruence|left]. split; [done|]. split; [|done].
      constructor; [done| | |].
      * intros x. destruct (decide (x = id)) as [->|Hne]; [rewrite H3, Hfl, H0; lia|].
        by rewrite Hoth3, (vs_stack _ _ Hv), Hoth by done.
      * intros x Hx. destruct (decide (x = id)) as [->|Hne]; [done|].
        rewrite Hoth3 by done. apply (vs_perm _ _ Hv). by rewrite Hoth.
      * pose proof (unmarked_mark g2 id LOCKDEP_NODE_PERM_MARK ltac:(done)).
        pose proof (vs_less _ _ Hv).
        pose proof (unmarked_mark g id LOCKDEP_NODE_TEMP_MARK ltac:(done)) as Hu. fold g1 in Hu. lia.
  - exists TEE_ERROR_BAD_STATE, g. split; [done|]. split; [done|right]. split; [done|].
    split; [|apply Hg]. exists id. apply Hstack. congruence.
  - exists TEE_SUCCESS, g. split; [done|]. split; [done|left]. split; [done|].
    split; [by apply visited_refl|congruence].
Qed.

Lemma sort_nodes_ok fuel ids g :
  marks_ok g → (∀ x, fl g x ≠ 1) → (∀ x, x ∈ ids → in_graph g x) → (unmarked g < fuel)%nat →
  visit_result g (λ g', ∀ x, x ∈ ids → fl g' x = 3) (sort_nodes fuel ids g).
Proof.
  revert g. induction ids as [|id ids IH]; intros g Hg Hst Hids Hfuel; cbn [sort_nodes].
  { exists TEE_SUCCESS, g. split_and!; [done|done|left]. split; [done|]. split; [by apply visited_refl|].
    by intros x ?%elem_of_nil. }
  assert (in_graph g id) as Hin by (apply Hids; left). pose proof Hin as [n Hn]. rewrite Hn.
  cbn [mbind option_bind]. assert (fl g id = flags n) as Hfl by (unfold fl; by rewrite Hn).
  assert (∀ g1, skel g1 = skel g → visited g g1 → fl g1 id = 3 →
    visit_result g (λ g', ∀ x, x ∈ id :: ids → fl g' x = 3) (sort_nodes fuel ids g1)) as Hrest.
  { intros g1 Hsk Hv Hd. destruct (IH g1) as (res & g2 & Hr & Hsk2 & Hcase).
    - apply Hv.
    - intros x Hx. apply (vs_stack _ _ Hv) in Hx. by apply (Hst x).
    - intros x Hx. apply (skel_in_graph g); [done|]. apply Hids. by right.
    - pose proof (vs_less _ _ Hv). lia.
    - exists res, g2. split; [done|]. split; [congruence|].
      destruct Hcase as [(-> & Hv2 & Hd2)|(-> & [x Hx] & Hfl2)]; [left|right].
      + split; [done|]. split; [by eapply visited_trans|].
        intros x [->|Hx]%elem_of_cons; [by apply (vs_perm _ _ Hv2)|by apply Hd2].
      + split; [done|]. split; [|done]. exists x. by eapply (skel_tc g1). }
  destruct (Z.eqb_spec (flags n) 0) as [H0|H0].
  - destruct (visit_ok fuel g id) as (res & g1 & -> & Hsk & Hcase); [done|done| |done|].
    + intros x Hx. by destruct (Hst x).
    + destruct Hcase as [(-> & Hv & Hd)|[-> Hc]]; [by apply Hrest|].
      exists TEE_ERROR_BAD_STATE, g1. split; [done|]. split; [done|by right].
  - apply Hrest; [done|by apply visited_refl|].
    destruct (mo_flags g Hg id) as [?|[?|?]]; [congruence|by destruct (Hst id)|done].
Qed.

(** A graph between two operations: no marks, edges lead to nodes. *)
Definition clean (g : graph) : Prop := closed g ∧ Forall (λ n, flags n = 0) g.

Lemma clean_fl g x : Forall (λ n, flags n = 0) g → fl g x = 0.
Proof.
  unfold fl. induction 1 as [|n g Hn _ IH]; simpl; [done|]. by destruct (lock_id n =? x).
Qed.

Lemma ld_find_node_in g id : id ∈ lock_id <$> g → in_graph g id.
Proof.
  unfold in_graph. induction g as [|n g IH]; simpl; [by intros ?%elem_of_nil|].
  destruct (Z.eqb_spec (lock_id n) id) as [|Hne]; [by eexists|].
  intros [->|?]%elem_of_cons; [done|auto].
Qed.

Lemma in_graph_id g id : in_graph g id → id ∈ lock_id <$> g.
Proof.
  intros [n Hn]. induction g as [|n' g IH]; [done|]. cbn [find_node] in Hn. rewrite fmap_cons.
  destruct (Z.eqb_spec (lock_id n') id) as [<-|]; [left|right; auto].
Qed.

Lemma graph_sort_ok g :
  clean g →
  ∃ res g', lockdep_graph_sort g = Some (res, g') ∧ skel g' = skel g ∧
    ((res = TEE_SUCCESS ∧ ¬ cyclic g ∧ g' = g) ∨
     (res = TEE_ERROR_BAD_STATE ∧ cyclic g ∧ sort_flags g')).
Proof.
  intros [Hc Hf]. unfold lockdep_graph_sort.
  destruct (sort_nodes_ok (S (length g)) (lock_id <$> g) g) as (res & g1 & -> & Hsk & Hcase).
  - constructor; [done| | |]; intros x; rewrite clean_fl by done; [by left|done..].
  - intros x. by rewrite clean_fl.
  - intros x. apply ld_find_node_in.
  - unfold unmarked. pose proof (length_filter (λ n, flags n = 0) g). lia.
  - destruct Hcase as [(-> & Hv & Hd)|[-> Hcy]].
    + exists TEE_SUCCESS, g. assert (set_flags 0 <$> g1 = g) as ->.
      { clear -Hsk Hf. revert g1 Hsk. induction g as [|n g IH]; intros [|n1 g1] Hsk; try done.
        injection Hsk as H1 H2 H3. apply Forall_cons in Hf as [Hn Hf].
        rewrite fmap_cons, (IH Hf g1 H3). f_equal. destruct n as [i es f], n1. simpl in *. by subst. }
      split; [done|]. split; [done|left]. split; [done|]. split; [|done].
      intros [x Hx].
      assert (in_graph g x) as Hin.
      { assert (∀ a b, tc (edge g) a b → in_graph g a) as Ha by (by intros a b []; destruct H as (n & ? & ? & _); exists n). eauto. }
      eapply (mo_perm_acyclic g1 (vs_ok _ _ Hv) x); [|by apply (skel_tc g)].
      apply Hd. by apply in_graph_id.
    + exists TEE_ERROR_BAD_STATE, g1. split; [done|]. split; [done|by right].
Qed.

(** ** Acquiring *)

Lemma find_snoc g n x :
  find_node (g ++ [n]) x =
  match find_node g x with Some n => Some n | None => if lock_id n =? x then Some n else None end.
Proof. induction g as [|n' g IH]; simpl; [done|]. by destruct (lock_id n' =? x). Qed.

Lemma add_to_graph_ok g id mem b g' mem' :
  lockdep_add_to_graph g id mem = (b, g', mem') →
  if b then
    in_graph g' id ∧ (∀ a b, edge g' a b ↔ edge g a b) ∧ (∀ a, in_graph g a → in_graph g' a) ∧
    (clean g → clean g')
  else g' = g ∧ mem ≠ [].
Proof.
  unfold lockdep_add_to_graph. destruct (find_node g id) as [n|] eqn:Hn.
  { intros [= <- <- <-]. split; [by exists n|]. done. }
  destruct (alloc mem) as [ok mem1] eqn:Hm. destruct ok; intros [= <- <- <-].
  2: { split; [done|]. by intros ->. }
  assert (∀ a b, edge (g ++ [Node id [] 0]) a b ↔ edge g a b) as Hedge.
  { intros a b. unfold edge. setoid_rewrite find_snoc. split.
    - intros (n & e & Hf & He & Hb). destruct (find_node g a); [by exists n, e|].
      simpl in Hf. case_match; [|done]. injection Hf as <-. by apply elem_of_nil in He.
    - intros (n & e & Hf & He & Hb). exists n, e. by rewrite Hf. }
  assert (∀ a, in_graph g a → in_graph (g ++ [Node id [] 0]) a) as Hin.
  { intros a [n Hf]. exists n. by rewrite find_snoc, Hf. }
  split; [|split; [done|split; [done|]]].
  - unfold in_graph. rewrite find_snoc, Hn. simpl. rewrite Z.eqb_refl. by eexists.
  - intros [Hc Hf]. split.
    + intros a b Hab. apply Hin, (Hc a). by apply Hedge.
    + apply Forall_app. split; [done|]. by constructor.
Qed.

Lemma dup_nil stk : dup_call_stack stk [] = (stk, []).
Proof. by destruct stk. Qed.

Lemma add_edge_ok g from to' csf cst tid mem res g' mem' :
  lockdep_add_edge g from to' csf cst tid mem = (res, g', mem') → in_graph g from →
  (res = TEE_SUCCESS ∧
   (∀ a b, edge g' a b ↔ edge g a b ∨ a = from ∧ b = to') ∧ (∀ a, in_graph g a ↔ in_graph g' a) ∧
   (in_graph g to' → clean g → clean g') ∧ (mem = [] → mem' = [])) ∨
  (res = TEE_ERROR_OUT_OF_MEMORY ∧ g' = g ∧ mem ≠ []).
Proof.
  intros Hadd [n Hn]. unfold lockdep_add_edge in Hadd. rewrite Hn in Hadd.
  destruct (existsb _ (edges n)) eqn:Hex.
  { left. injection Hadd as <- <- <-. apply existsb_exists in Hex as (e & He & Heq).
    apply list_elem_of_In in He. apply Z.eqb_eq in Heq.
    split; [done|]. split; [|done]. intros a b. split; [by left|]. intros [?|[-> ->]]; [done|].
    by exists n, e. }
  destruct (alloc mem) as [ok m1] eqn:Hm. destruct ok; cbn [negb] in Hadd.
  2: { right. injection Hadd as <- <- <-. split; [done|]. split; [done|]. by intros ->. }
  left. destruct (dup_call_stack csf m1) as [csf' m2] eqn:H2.
  destruct (dup_call_stack cst m2) as [cst' m3] eqn:H3. injection Hadd as <- <- <-.
  set (f := λ n, Node (lock_id n) (edges n ++ [Edge to' tid csf' cst']) (flags n)).
  assert (∀ x, find_node (update_node g from f) x =
    if x =? from then f <$> find_node g x else find_node g x) as Hf by (intros; by apply find_update).
  assert (∀ a, in_graph g a ↔ in_graph (update_node g from f) a) as Hin.
  { intros a. unfold in_graph. rewrite Hf. case_match; [by rewrite fmap_is_Some|done]. }
  assert (∀ a b, edge (update_node g from f) a b ↔ edge g a b ∨ a = from ∧ b = to') as Hedge.
  { intros a b. unfold edge. setoid_rewrite Hf. destruct (Z.eqb_spec a from) as [->|Hne].
    - rewrite Hn. simpl. split.
      + intros (n' & e & [= <-] & He & <-). simpl in He.
        apply elem_of_app in He as [He|He%list_elem_of_singleton]; [left; by exists n, e|right; by subst].
      + intros [(n' & e & [= <-] & He & <-)|[_ ->]].
        * exists (f n), e. split; [done|]. split; [|done]. apply elem_of_app. by left.
        * eexists (f n), _. split; [done|]. split; [apply elem_of_app; right; by apply list_elem_of_singleton|done].
    - split; [by left|]. intros [?|[? _]]; done. }
  split; [done|]. split; [done|]. split; [done|]. split.
  - intros Hto [Hc Hfl]. split.
    + intros a b [Hab|[-> ->]]%Hedge; apply Hin; [by eapply Hc|done].
    + unfold update_node. apply Forall_fmap. eapply Forall_impl; [exact Hfl|]. intros n' Hn'.
      simpl. by case_match.
  - intros ->. injection Hm as <-. rewrite dup_nil in H2. injection H2 as <- <-.
    rewrite dup_nil in H3. by injection H3 as <- <-.
Qed.

Lemma add_edges_ok owned id stk tid g mem res g' mem' :
  add_edges owned id stk tid g mem = (res, g', mem') →
  (∀ l, l ∈ owned → in_graph g (node l)) → in_graph g id → clean g →
  (∀ a, in_graph g a → in_graph g' a) ∧
  ((res = TEE_SUCCESS ∧ clean g' ∧ (mem = [] → mem' = []) ∧
    (∀ a b, edge g' a b ↔ edge g a b ∨ a ∈ node <$> owned ∧ b = id)) ∨
   (res = TEE_ERROR_OUT_OF_MEMORY ∧ mem ≠ [])).
Proof.
  revert g mem. induction owned as [|l owned IH]; intros g mem Hadd Hown Hid Hc; cbn [add_edges] in Hadd.
  { injection Hadd as <- <- <-. split; [done|left]. split; [done|]. split; [done|]. split; [done|].
    intros a b. cbn. rewrite elem_of_nil. tauto. }
  destruct (lockdep_add_edge g (node l) id (call_stack l) stk tid mem) as [[r g1] m1] eqn:He.
  destruct (add_edge_ok _ _ _ _ _ _ _ _ _ _ He) as [(-> & H1 & H2 & H3 & H4)|(-> & -> & H)];
    [apply Hown; left| |].
  - destruct (IH g1 m1 Hadd) as [Hin Hcase].
    + intros l' Hl'. apply H2, Hown. by right.
    + by apply H2.
    + by apply H3.
    + split; [intros a Ha; by apply Hin, H2|].
      destruct Hcase as [(-> & Hc' & Hm & Hedge)|[-> Hm]]; [left|right].
      * split; [done|]. split; [done|]. split; [auto|]. intros a b. rewrite Hedge, H1.
        rewrite fmap_cons, elem_of_cons. tauto.
      * split; [done|]. intros ->. by apply Hm, H4.
  - injection Hadd as <- <- <-. split; [done|]. by right.
Qed.

Lemma tc_iff (R S : relation Z) a b : (∀ a b, R a b → S a b) → tc R a b → tc S a b.
Proof. intros H. induction 1; [apply tc_once|eapply tc_l]; eauto. Qed.

(** The relation the graph has once [id] is ordered after the locks held. *)
Definition with_lock (g : graph) (owned : list lockdep_lock) (id a b : Z) : Prop :=
  edge g a b ∨ a ∈ node <$> owned ∧ b = id.

Lemma acquire_ok g owned id tid stk mem :
  clean g → (∀ l, l ∈ owned → in_graph g (node l)) →
  ∃ res g' owned', __lockdep_lock_acquire g owned id tid stk mem = Some (res, g', owned') ∧
    (∀ a, in_graph g a → in_graph g' a) ∧
    ((res = TEE_SUCCESS ∧ clean g' ∧ owned' = owned ++ [Lock id stk] ∧ in_graph g' id ∧
      (∀ a b, edge g' a b ↔ with_lock g owned id a b) ∧ ∀ x, ¬ tc (with_lock g owned id) x x) ∨
     (res = TEE_ERROR_BAD_STATE ∧ owned' = owned ∧ (∃ x, tc (with_lock g owned id) x x) ∧
      sort_flags g' ∧ closed g' ∧ in_graph g' id ∧
      ∀ a b, edge g' a b ↔ with_lock g owned id a b) ∨
     (res = TEE_ERROR_OUT_OF_MEMORY ∧ owned' = owned ∧ mem ≠ [])).
Proof.
  intros Hc Hown. unfold __lockdep_lock_acquire.
  destruct (lockdep_add_to_graph g id mem) as [[ok g1] m1] eqn:Hadd.
  pose proof (add_to_graph_ok _ _ _ _ _ _ Hadd) as Ha. destruct ok; cbn [negb]; last first.
  { destruct Ha as [-> Hm]. eexists _, _, _. split; [done|]. split; [done|]. by right; right. }
  destruct Ha as (Hin & Hedge & Hpres & Hclean). specialize (Hclean Hc).
  destruct (add_edges owned id stk tid g1 m1) as [[r g2] m2] eqn:Hadds.
  assert (mem = [] → m1 = []) as Hm1.
  { intros ->. unfold lockdep_add_to_graph in Hadd. destruct (find_node g id); by injection Hadd as <- <-. }
  destruct (add_edges_ok _ _ _ _ _ _ _ _ _ Hadds) as [Hpres2 Hcase]; [by auto|done|done|].
  destruct Hcase as [(-> & Hc2 & Hm2 & Hedge2)|[-> Hm2]].
  2: { eexists _, _, _. split; [done|]. split; [by auto|]. right; right. split; [done|]. split; [done|]. auto. }
  assert (∀ a b, edge g2 a b ↔ with_lock g owned id a b) as Hw.
  { intros a b. unfold with_lock. by rewrite Hedge2, Hedge. }
  destruct (graph_sort_ok g2 Hc2) as (res & g3 & -> & Hsk & Hcase). cbn [mbind option_bind].
  destruct Hcase as [(-> & Hac & ->)|(-> & [x Hx] & Hfl)].
  - destruct (alloc m2) as [ok m3] eqn:Hm3. destruct ok; cbn [fst].
    + eexists _, _, _. split; [done|]. split; [by auto|]. left. split_and!; try done; [by auto|].
      intros x Hx. apply Hac. exists x. eapply tc_iff; [|exact Hx]. intros. by apply Hw.
    + eexists _, _, _. split; [done|]. split; [by auto|]. right; right. split; [done|]. split; [done|].
      intros Hm. rewrite Hm2 in Hm3 by auto. done.
  - eexists _, _, _. split; [done|]. split.
    + intros a Ha. eapply (skel_in_graph g2); [done|]. auto.
    + right; left. split; [done|]. split; [done|]. split.
      { exists x. eapply tc_iff; [|exact Hx]. intros. by apply Hw. }
      split; [done|]. split; [eapply (skel_closed g2); [done|apply Hc2]|].
      split; [eapply (skel_in_graph g2); [done|]; auto|].
      intros a b. rewrite <- Hw. split; by apply skel_edge.
Qed.

(** ** The breadth-first search *)

Definition vis (g : graph) (x : Z) : Prop := Z.land (fl g x) LOCKDEP_NODE_BFS_VISITED ≠ 0.

Definition unvisited (g : graph) : nat :=
  length (filter (λ n, Z.land (flags n) LOCKDEP_NODE_BFS_VISITED = 0) g).

Lemma land_lor_visited f : Z.land (Z.lor f LOCKDEP_NODE_BFS_VISITED) LOCKDEP_NODE_BFS_VISITED ≠ 0.
Proof.
  intros H. apply (f_equal (λ z, Z.testbit z 2)) in H.
  rewrite Z.land_spec, Z.lor_spec, Z.bits_0 in H. by destruct (Z.testbit f 2).
Qed.

Lemma vis_mark g id x :
  in_graph g id →
  vis (update_node g id (mark LOCKDEP_NODE_BFS_VISITED)) x ↔ x = id ∨ vis g x.
Proof.
  intros Hin. unfold vis. rewrite fl_mark. case_bool_decide as H.
  - destruct H as [-> _]. split; [by left|]. intros _. apply land_lor_visited.
  - split; [by right|]. intros [->|?]; [by destruct H|done].
Qed.

Lemma unvisited_mark g id :
  (unvisited (update_node g id (mark LOCKDEP_NODE_BFS_VISITED)) <= unvisited g)%nat ∧
  (in_graph g id → ¬ vis g id →
   (unvisited (update_node g id (mark LOCKDEP_NODE_BFS_VISITED)) < unvisited g)%nat).
Proof.
  induction g as [|n g [IH1 IH2]]; [split; [done|by intros []]|].
  unfold update_node. rewrite fmap_cons.
  fold (update_node g id (mark LOCKDEP_NODE_BFS_VISITED)).
  unfold unvisited, in_graph, vis, fl in *. rewrite !filter_cons. cbn [find_node].
  destruct (Z.eqb_spec (lock_id n) id) as [Hn|Hn].
  - cbn [flags mark set_flags]. pose proof (land_lor_visited (flags n)) as Hl.
    split; [|intros _ Hv]; repeat case_decide; cbn [length]; try done; try lia.
  - split; [|intros Hi Hv; specialize (IH2 Hi Hv)]; repeat case_decide; cbn [length]; lia.
Qed.

(** A path of edges from [start] to [n]. *)
Definition path_to (g : graph) (start n : Z) (p : list Z) : Prop :=
  p !! 0%nat = Some start ∧ last p = Some n ∧
  ∀ k a b, p !! k = Some a → p !! S k = Some b → edge g a b.

Definition is_cycle (g : graph) (start : Z) (p : list Z) : Prop :=
  ∃ n, path_to g start n p ∧ edge g n start.

Lemma path_snoc g start n p m : path_to g start n p → edge g n m → path_to g start m (p ++ [m]).
Proof.
  intros (H0 & Hl & He) Hm. split; [|split].
  - rewrite lookup_app_l; [done|]. by eapply lookup_lt_Some.
  - apply last_snoc.
  - intros k a b Ha Hb. apply lookup_app_Some in Hb as [Hb|[Hk Hb]].
    + rewrite lookup_app_l in Ha by (apply lookup_lt_Some in Hb; lia). by eapply He.
    + apply list_lookup_singleton_Some in Hb as [Hk0 <-].
      rewrite lookup_app_l in Ha by lia. rewrite last_lookup in Hl.
      replace (pred (length p)) with k in Hl by lia. congruence.
Qed.

Lemma skel_path g g' start n p : skel g = skel g' → path_to g start n p → path_to g' start n p.
Proof. intros Hs (H0 & Hl & He). split; [done|]. split; [done|]. intros. eapply skel_edge; eauto. Qed.

(** What a queue of the search holds. *)
Definition queue_ok (g : graph) (start : Z) (q : list (Z * list Z)) : Prop :=
  ∀ n p, (n, p) ∈ q → path_to g start n p ∧ vis g n.

Lemma bfs_edges_ok start n path es q g :
  closed g → path_to g start n path → (∀ e, e ∈ es → edge g n (to e)) → queue_ok g start q →
  match bfs_edges start path es q g with
  | (Some p, _, g') => p = path ∧ edge g n start
  | (None, q', g') =>
      skel g' = skel g ∧ queue_ok g' start q' ∧ (∀ x, x ∈ q.*1 → x ∈ q'.*1) ∧
      (∀ x, vis g x → vis g' x) ∧ (∀ x, vis g' x → vis g x ∨ x ∈ q'.*1) ∧
      (∀ e, e ∈ es → to e ≠ start ∧ vis g' (to e)) ∧
      (unvisited g' + length q' <= unvisited g + length q)%nat
  end.
Proof.
  revert q g. induction es as [|e es IH]; intros q g Hc Hp Hes Hq; cbn [bfs_edges].
  { split; [done|]. split; [done|]. split; [done|]. split; [done|]. split; [by left|].
    split; [by intros e ?%elem_of_nil|lia]. }
  destruct (Z.eqb_spec (to e) start) as [Hs|Hs].
  { split; [done|]. rewrite <- Hs. apply Hes. left. }
  assert (edge g n (to e)) as Hne by (apply Hes; left).
  destruct (Hc _ _ Hne) as [m Hm]. rewrite Hm.
  destruct (Z.eqb_spec (Z.land (flags m) LOCKDEP_NODE_BFS_VISITED) 0) as [Hv|Hv].
  - fold (mark LOCKDEP_NODE_BFS_VISITED).
    set (g1 := update_node g (to e) (mark LOCKDEP_NODE_BFS_VISITED)).
    set (q1 := q ++ [(to e, path ++ [to e])]).
    assert (skel g = skel g1) as Hsk by (symmetry; apply skel_mark).
    assert (in_graph g (to e)) as Hin by by exists m.
    assert (∀ x, vis g1 x ↔ x = to e ∨ vis g x) as Hvis by (intros; by apply vis_mark).
    assert (¬ vis g (to e)) as Hnv by (unfold vis, fl; rewrite Hm; auto).
    specialize (IH q1 g1). destruct (bfs_edges start path es q1 g1) as [[[p|] q2] g2].
    + destruct IH as [-> He]; [by eapply skel_closed|by eapply skel_path| | |].
      * intros e' He'. eapply skel_edge; [done|]. apply Hes. by right.
      * intros x p0 [Hx|Hx%list_elem_of_singleton]%elem_of_app.
        { destruct (Hq _ _ Hx). split; [by eapply skel_path|]. apply Hvis. by right. }
        injection Hx as -> ->. split; [eapply skel_path; [done|by eapply path_snoc]|]. apply Hvis. by left.
      * split; [done|]. by eapply (skel_edge g1).
    + destruct IH as (Hsk2 & Hq2 & Hsub & Hmono & Hnew & Hes2 & Hcnt); [by eapply skel_closed|by eapply skel_path| | |].
      * intros e' He'. eapply skel_edge; [done|]. apply Hes. by right.
      * intros x p0 [Hx|Hx%list_elem_of_singleton]%elem_of_app.
        { destruct (Hq _ _ Hx). split; [by eapply skel_path|]. apply Hvis. by right. }
        injection Hx as -> ->. split; [eapply skel_path; [done|by eapply path_snoc]|]. apply Hvis. by left.
      * assert (∀ x, x ∈ q1.*1 ↔ x ∈ q.*1 ∨ x = to e) as Hq1.
        { intros x. unfold q1. rewrite fmap_app, elem_of_app. cbn. by rewrite list_elem_of_singleton. }
        split; [congruence|]. split; [done|]. split; [intros x Hx; by apply Hsub, Hq1; left|].
        split; [intros x Hx; by apply Hmono, Hvis; right|]. split.
        { intros x Hx. destruct (Hnew x Hx) as [[->|?]%Hvis|?]; [|by left|by right].
          right. by apply Hsub, Hq1; right. }
        split.
        { intros e' [->|He']%elem_of_cons; [|by apply Hes2]. split; [done|]. apply Hmono, Hvis. by left. }
        destruct (unvisited_mark g (to e)) as [_ Hlt]. specialize (Hlt Hin Hnv). fold g1 in Hlt.
        unfold q1 in Hcnt. rewrite length_app in Hcnt. cbn [length] in Hcnt. lia.
  - specialize (IH q g Hc Hp ltac:(intros e' He'; apply Hes; by right) Hq).
    destruct (bfs_edges start path es q g) as [[[p|] q2] g2]; [done|].
    destruct IH as (Hsk2 & Hq2 & Hsub & Hmono & Hnew & Hes2 & Hcnt).
    split_and!; try done. intros e' [->|He']%elem_of_cons; [|by apply Hes2]. split; [done|].
    apply Hmono. unfold vis, fl. by rewrite Hm.
Qed.

Lemma bfs_loop_ok fuel start q g :
  closed g → queue_ok g start q → vis g start →
  (∀ x, vis g x → x ∈ q.*1 ∨ ∀ y, edge g x y → y ≠ start ∧ vis g y) →
  (unvisited g + length q < fuel)%nat →
  ∃ r g', bfs_loop fuel start q g = Some (r, g') ∧
    match r with Some p => is_cycle g start p | None => ¬ tc (edge g) start start end.
Proof.
  revert q g. induction fuel as [|fuel IH]; intros q g Hc Hq Hs Hdone Hfuel; [lia|]. cbn [bfs_loop].
  destruct q as [|[n path] q].
  { exists None, g. split; [done|]. intros Ht.
    assert (∀ a b, tc (edge g) a b → vis g a → b ≠ start) as Hne.
    { induction 1 as [a b H|a b c H _ IH2]; intros Ha; destruct (Hdone a Ha) as [Hx|Hx];
        try (by apply elem_of_nil in Hx); destruct (Hx b H); [done|]. by apply IH2. }
    by apply (Hne start start). }
  destruct (Hq n path) as [Hp Hv]; [left|].
  assert (in_graph g n) as [m Hm].
  { unfold vis, fl in Hv. destruct (find_node g n) eqn:E; [by eexists|]. by destruct Hv. }
  rewrite Hm. cbn [mbind option_bind].
  pose proof (bfs_edges_ok start n path (edges m) q g Hc Hp) as He.
  destruct (bfs_edges start path (edges m) q g) as [[[p|] q2] g2].
  - destruct He as [-> He]; [intros e Hin; by exists m, e|intros x y Hx; apply Hq; by right|].
    eexists _, _. split; [done|]. by exists n.
  - destruct He as (Hsk & Hq2 & Hsub & Hmono & Hnew & Hes & Hcnt);
      [intros e Hin; by exists m, e|intros x y Hx; apply Hq; by right|].
    destruct (IH q2 g2) as (r & g' & Hr & Hres).
    + by eapply skel_closed.
    + done.
    + auto.
    + intros x Hx. destruct (Hnew x Hx) as [Hvx|?]; [|by left].
      destruct (Hdone x Hvx) as [Hin|Hsucc].
      * cbn in Hin. apply elem_of_cons in Hin as [->|Hin]; [|left; by apply Hsub].
        right. intros y (m' & e & Hm' & He & <-)%(skel_edge _ g); [|done].
        rewrite Hm in Hm'. injection Hm' as <-. by apply Hes.
      * right. intros y Hy%(skel_edge _ g); [|done]. destruct (Hsucc y Hy). auto.
    + cbn [length] in Hfuel. lia.
    + exists r, g'. split; [done|]. destruct r as [p|].
      * destruct Hres as (n' & Hp' & He'). exists n'. split; [by eapply skel_path|by eapply skel_edge].
      * intros Ht. apply Hres. by eapply (skel_tc g).
Qed.

Lemma shortest_cycle_ok g id :
  closed g → in_graph g id → sort_flags g →
  ∃ r g', lockdep_graph_get_shortest_cycle g id = Some (r, g') ∧
    match r with Some p => is_cycle g id p | None => ¬ tc (edge g) id id end.
Proof.
  intros Hc Hin Hfl. unfold lockdep_graph_get_shortest_cycle.
  fold (mark LOCKDEP_NODE_BFS_VISITED).
  set (g1 := update_node g id (mark LOCKDEP_NODE_BFS_VISITED)).
  assert (skel g1 = skel g) as Hsk by apply skel_mark.
  assert (∀ x, vis g1 x ↔ x = id) as Hvis.
  { intros x. unfold g1. rewrite vis_mark by done. split; [|by left]. intros [?|Hx]; [done|].
    unfold vis in Hx. destruct (Hfl x) as [H|[H|H]]; rewrite H in Hx; by destruct Hx. }
  destruct (bfs_loop_ok (S (S (length g1))) id [(id, [id])] g1) as (r & g' & Hr & Hres).
  - by eapply skel_closed.
  - intros n p [= -> ->]%list_elem_of_singleton. split; [|by apply Hvis].
    split; [done|]. split; [done|]. intros [|k] a b; simpl; done.
  - by apply Hvis.
  - intros x ->%Hvis. left. cbn. by apply list_elem_of_singleton.
  - unfold unvisited. pose proof (length_filter (λ n, Z.land (flags n) LOCKDEP_NODE_BFS_VISITED = 0) g1).
    cbn [length]. lia.
  - exists r, g'. split; [done|]. destruct r as [p|].
    + destruct Hres as (n & Hp & He). exists n. split; [by eapply skel_path|by eapply skel_edge].
    + intros Ht. apply Hres. by eapply (skel_tc g).
Qed.

(** A cycle that the new lock closes goes through the new lock. *)
Lemma with_lock_through g owned id x :
  ¬ cyclic g → tc (with_lock g owned id) x x → tc (with_lock g owned id) id id.
Proof.
  intros Hac Hx. set (R := with_lock g owned id) in *.
  assert (∀ a b, tc R a b → tc (edge g) a b ∨ tc R a id ∧ (b = id ∨ tc R id b)) as Hsplit.
  { induction 1 as [a b H|a b c H Hbc IH].
    - destruct H as [H|[H ->]]; [left; by apply tc_once|right].
      split; [apply tc_once; by right|by left].
    - destruct H as [H|[H ->]].
      + destruct IH as [IH|[IH1 IH2]]; [left; by eapply tc_l|right].
        split; [|done]. eapply tc_l; [by left|done].
      + right. split; [apply tc_once; by right|by right]. }
  destruct (Hsplit x x Hx) as [Ht|[H1 [->|H2]]]; [by destruct Hac; exists x|done|].
  by apply tc_transitive with x.
Qed.

(** ** Releasing and destroying *)

Lemma destroy_edges_filter es id : destroy_edges es id = filter (λ e, to e ≠ id) es.
Proof.
  assert (∀ es, drop_nexts es id = filter (λ e, to e ≠ id) es) as Hn.
  { clear. induction es as [|e es IH]; [done|]. cbn [drop_nexts]. rewrite filter_cons, IH.
    destruct (Z.eqb_spec (to e) id); by case_decide. }
  unfold destroy_edges. induction es as [|e es IH]; [done|]. cbn [drop_heads]. rewrite filter_cons.
  destruct (Z.eqb_spec (to e) id); case_decide; try done. by rewrite Hn.
Qed.

Lemma destroy_find g id x :
  find_node (lockdep_node_destroy g id) x =
  if x =? id then None
  else (λ n, Node (lock_id n) (filter (λ e, to e ≠ id) (edges n)) (flags n)) <$> find_node g x.
Proof.
  unfold lockdep_node_destroy. induction g as [|n g IH]; [by case_match|].
  rewrite filter_cons. case_decide as Hn; [rewrite fmap_cons|]; cbn [find_node lock_id]; rewrite IH.
  - destruct (Z.eqb_spec (lock_id n) x), (Z.eqb_spec x id); try done; [lia|].
    simpl. by rewrite destroy_edges_filter.
  - destruct (Z.eqb_spec (lock_id n) x), (Z.eqb_spec x id); try done. lia.
Qed.

Lemma destroy_ok g id :
  clean g →
  let g' := lockdep_lock_destroy g id in
  clean g' ∧ (∀ a b, edge g' a b ↔ edge g a b ∧ a ≠ id ∧ b ≠ id) ∧
  (∀ a, in_graph g' a ↔ in_graph g a ∧ a ≠ id).
Proof.
  intros [Hc Hf] g'. unfold g', lockdep_lock_destroy. destruct (find_node g id) as [n0|] eqn:Hn0.
  - assert (∀ a b, edge (lockdep_node_destroy g id) a b ↔ edge g a b ∧ a ≠ id ∧ b ≠ id) as Hedge.
    { intros a b. unfold edge. setoid_rewrite destroy_find. destruct (Z.eqb_spec a id) as [->|Hne].
      { split; [by intros (? & ? & ? & _)|by intros (_ & ? & _)]. }
      split.
      - intros (n & e & Hn & He & <-). destruct (find_node g a) as [n1|]; [|done].
        injection Hn as <-. simpl in He. apply list_elem_of_filter in He as [Hto He].
        split; [by exists n1, e|done].
      - intros [(n & e & Hn & He & <-) [_ Hto]]. rewrite Hn. simpl. eexists _, e.
        split; [done|]. split; [|done]. simpl. by apply list_elem_of_filter. }
    assert (∀ a, in_graph (lockdep_node_destroy g id) a ↔ in_graph g a ∧ a ≠ id) as Hin.
    { intros a. unfold in_graph. rewrite destroy_find. destruct (Z.eqb_spec a id) as [->|].
      - split; [by intros [? ?]|by intros [_ ?]].
      - rewrite fmap_is_Some. tauto. }
    split; [|done]. split.
    + intros a b (Hab & _ & Hb)%Hedge. apply Hin. split; [by eapply Hc|done].
    + unfold lockdep_node_destroy. apply Forall_fmap, Forall_forall.
      intros n [_ Hn]%list_elem_of_filter. rewrite Forall_forall in Hf. by apply (Hf n).
  - split; [done|]. assert (∀ a, in_graph g a → a ≠ id) as Hne.
    { intros a [n Hn] ->. congruence. }
    split; [|intros a; split; [auto|by intros []]]. intros a b. split; [|by intros []].
    intros Hab. split; [done|]. split; [|apply Hne; by eapply Hc].
    apply Hne. destruct Hab as (n & e & Hn & _). by exists n.
Qed.

(** ** The system: threads that take locks *)

(** The locks each thread owns, in acquire order; a lock that was taken by
    lockdep_lock_acquire(), which precedes a blocking lock operation, is marked. *)
Abbreviation owned_locks := (list (lockdep_lock * bool)).

(** A lock is destroyed when no thread owns it. The wrappers of lockdep.h panic
    unless the result is TEE_SUCCESS. *)
Inductive ld_step : graph * list owned_locks → graph * list owned_locks → Prop :=
| ld_acquire g own t l id stk mem g' l' :
    own !! t = Some l → __lockdep_lock_acquire g l.*1 id t stk mem = Some (TEE_SUCCESS, g', l') →
    ld_step (g, own) (g', <[t := l ++ [(Lock id stk, true)]]> own)
| ld_tryacquire g own t l id stk mem g' l' :
    own !! t = Some l → __lockdep_lock_tryacquire g l.*1 id stk mem = (TEE_SUCCESS, g', l') →
    ld_step (g, own) (g', <[t := l ++ [(Lock id stk, false)]]> own)
| ld_release g own t l1 k l2 id l' :
    own !! t = Some (l1 ++ k :: l2) → node k.1 = id →
    __lockdep_lock_release (l1 ++ k :: l2).*1 id = (TEE_SUCCESS, l') → l' = (l1 ++ l2).*1 →
    (∀ x, x ∈ l2.*1 → node x ≠ id) →
    ld_step (g, own) (g, <[t := l1 ++ l2]> own)
| ld_destroy g own id :
    (∀ t l x, own !! t = Some l → x ∈ l → node x.1 ≠ id) →
    ld_step (g, own) (lockdep_lock_destroy g id, own).

Inductive ld_reachable (n : nat) : graph * list owned_locks → Prop :=
| ldr_init : ld_reachable n ([], replicate n [])
| ldr_step s s' : ld_reachable n s → ld_step s s' → ld_reachable n s'.

(** Every lock is ordered after the ones held when it was acquired. *)
Definition ordered (g : graph) (l : owned_locks) : Prop :=
  ∀ i j a b, (i < j)%nat → l !! i = Some a → l !! j = Some (b, true) → edge g (node a.1) (node b).

Record ld_inv (s : graph * list owned_locks) : Prop := {
  li_clean : clean s.1;
  li_acyclic : ¬ cyclic s.1;
  li_nodes : ∀ t l x, s.2 !! t = Some l → x ∈ l → in_graph s.1 (node x.1);
  li_ordered : ∀ t l, s.2 !! t = Some l → ordered s.1 l;
}.

Lemma ordered_mono (g g' : graph) l :
  (∀ a b, edge g a b → edge g' a b) → ordered g l → ordered g' l.
Proof. intros H Ho i j a b Hij Ha Hb. by apply H, (Ho i j). Qed.

Lemma ordered_snoc g l x b :
  ordered g l → (b = true → ∀ y, y ∈ l → edge g (node y.1) (node x)) → ordered g (l ++ [(x, b)]).
Proof.
  intros Ho Hx i j y z Hij Hy Hz. apply lookup_app_Some in Hz as [Hz|[Hj Hz]].
  - rewrite lookup_app_l in Hy by (apply lookup_lt_Some in Hz; lia). by eapply Ho.
  - apply list_lookup_singleton_Some in Hz as [Hj0 [= -> ->]].
    rewrite lookup_app_l in Hy by lia. apply Hx; [done|]. by eapply list_elem_of_lookup_2.
Qed.

Lemma ordered_delete g l1 x l2 : ordered g (l1 ++ x :: l2) → ordered g (l1 ++ l2).
Proof.
  intros Ho i j a b Hij Ha Hb.
  assert (∀ k y, (l1 ++ l2) !! k = Some y →
    (l1 ++ x :: l2) !! (if decide (k < length l1)%nat then k else S k) = Some y) as Hk.
  { intros k y Hy. case_decide.
    - rewrite lookup_app_l in Hy by done. by rewrite lookup_app_l.
    - rewrite lookup_app_r in Hy by lia. rewrite lookup_app_r by lia.
      replace (S k - length l1)%nat with (S (k - length l1)) by lia. done. }
  apply Hk in Ha, Hb. eapply Ho; [|exact Ha|exact Hb]. repeat case_decide; lia.
Qed.

Lemma own_insert (P : owned_locks → Prop) (own : list owned_locks) t l l' :
  own !! t = Some l → (∀ u k, own !! u = Some k → P k) → P l' →
  ∀ u k, <[t:=l']> own !! u = Some k → P k.
Proof.
  intros Ht Hall Hl' u k Hk. destruct (decide (t = u)) as [->|Hne].
  - rewrite list_lookup_insert_eq in Hk by (by eapply lookup_lt_Some). by injection Hk as <-.
  - rewrite list_lookup_insert_ne in Hk by done. eauto.
Qed.

Lemma acyclic_edges (g g' : graph) :
  (∀ a b, edge g' a b → edge g a b) → ¬ cyclic g → ¬ cyclic g'.
Proof. intros H Hg [x Hx]. apply Hg. exists x. by eapply tc_iff. Qed.

Lemma ld_reachable_inv n s : ld_reachable n s → ld_inv s.
Proof.
  induction 1 as [|s s' _ [Hc Hac Hn Ho] Hstep].
  { constructor; simpl.
    - split; [|done]. by intros a b (? & ? & ? & _).
    - intros [x Hx]. inversion Hx; subst; destruct H as (? & ? & ? & _); done.
    - intros t l x [-> _]%lookup_replicate ?%elem_of_nil. done.
    - intros t l [-> _]%lookup_replicate. by intros i j a b _ ?. }
  destruct Hstep as [g own t l id stk mem g' l' Ht Hacq|g own t l id stk mem g' l' Ht Hacq
    |g own t l1 k l2 id l' Ht Hk Hrel Hl' Hlast|g own id Hfree]; simpl in *.
  - destruct (acquire_ok g l.*1 id t stk mem Hc) as (res & g1 & l1 & Heq & Hpres & Hcase).
    { intros x Hx. apply list_elem_of_fmap in Hx as (y & -> & Hy). by eapply Hn. }
    rewrite Hacq in Heq. injection Heq as <- <- <-.
    destruct Hcase as [(_ & Hc' & _ & Hid & Hedge & Hac')|[[? _]|[? _]]]; [|done..].
    constructor; simpl; [done| | |].
    + intros [x Hx]. apply (Hac' x). eapply tc_iff; [|exact Hx]. intros. by apply Hedge.
    + intros u k x Hu Hx. revert u k Hu x Hx.
      eapply (own_insert (λ k, ∀ x, x ∈ k → in_graph g' (node x.1))); [done| |].
      * intros u k Hu x Hx. apply Hpres. by eapply Hn.
      * intros x [Hx| ->%list_elem_of_singleton]%elem_of_app; [|done]. apply Hpres. by eapply Hn.
    + eapply (own_insert (ordered g')); [done| |].
      * intros u k Hu. eapply ordered_mono; [|by eapply Ho]. intros a b Hab. apply Hedge. by left.
      * apply ordered_snoc.
        { eapply ordered_mono; [|by eapply Ho]. intros a b Hab. apply Hedge. by left. }
        intros _ y Hy. apply Hedge. right. split; [|done].
        apply list_elem_of_fmap. exists y.1. split; [done|]. by apply list_elem_of_fmap_2.
  - unfold __lockdep_lock_tryacquire in Hacq.
    destruct (lockdep_add_to_graph g id mem) as [[ok g1] m1] eqn:Hadd.
    pose proof (add_to_graph_ok _ _ _ _ _ _ Hadd) as Ha. destruct ok; [|done]. cbn [negb] in Hacq.
    destruct (alloc m1).1; [|done]. injection Hacq as <- _.
    destruct Ha as (Hid & Hedge & Hpres & Hclean).
    constructor; simpl; [by apply Hclean| | |].
    + eapply acyclic_edges; [|exact Hac]. intros. by apply Hedge.
    + intros u k x Hu Hx. revert u k Hu x Hx.
      eapply (own_insert (λ k, ∀ x, x ∈ k → in_graph g1 (node x.1))); [done| |].
      * intros u k Hu x Hx. apply Hpres. by eapply Hn.
      * intros x [Hx| ->%list_elem_of_singleton]%elem_of_app; [|done]. apply Hpres. by eapply Hn.
    + eapply (own_insert (ordered g1)); [done| |].
      * intros u k Hu. eapply ordered_mono; [|by eapply Ho]. intros a b Hab. by apply Hedge.
      * apply ordered_snoc; [|done].
        eapply ordered_mono; [|by eapply Ho]. intros a b Hab. by apply Hedge.
  - constructor; simpl; [done|done| |].
    + intros u j x Hu Hx. revert u j Hu x Hx.
      eapply (own_insert (λ k, ∀ x, x ∈ k → in_graph g (node x.1))); [done| |].
      * intros u j Hu x Hx. by eapply Hn.
      * intros x Hx. eapply Hn; [done|]. set_solver.
    + eapply (own_insert (ordered g)); [done|done|]. eapply ordered_delete. by eapply Ho.
  - destruct (destroy_ok g id Hc) as (Hc' & Hedge & Hin).
    constructor; simpl; [done| | |].
    + eapply acyclic_edges; [|exact Hac]. intros a b Hab. by apply Hedge in Hab as [? _].
    + intros u k x Hu Hx. apply Hin. split; [by eapply Hn|by eapply Hfree].
    + intros u k Hu i j a b Hij Ha Hb. apply Hedge. split; [by eapply Ho|]. split.
      * eapply Hfree; [done|]. by eapply list_elem_of_lookup_2.
      * apply (Hfree u k (b, true)); [done|]. by eapply list_elem_of_lookup_2.
Qed.

(** Thread [t] is blocked on a lock that [u] holds: [t]'s last lock, which it is
    still waiting for, is one [u] acquired before the last it asked for. *)
Definition blocked_on (own : list owned_locks) (t u : nat) : Prop :=
  ∃ l w k x k', own !! t = Some (l ++ [(w, true)]) ∧ own !! u = Some (k ++ [k']) ∧
    x ∈ k ∧ node x.1 = node w.

Lemma tc_first {A} (R : relation A) x y : tc R x y → ∃ z, R x z.
Proof. induction 1; eauto. Qed.

Lemma blocked_chain g own t u :
  (∀ t l, own !! t = Some l → ordered g l) → tc (blocked_on own) t u →
  ∀ l w l' w', own !! t = Some (l ++ [(w, true)]) → own !! u = Some (l' ++ [(w', true)]) →
    tc (edge g) (node w) (node w').
Proof.
  intros Ho.
  assert (∀ t u l w l' w', blocked_on own t u → own !! t = Some (l ++ [(w, true)]) →
    own !! u = Some (l' ++ [(w', true)]) → edge g (node w) (node w')) as Hone.
  { intros t1 u1 l w l' w' (m & v & k & x & k' & Ht & Hu & Hx & Hnode) Ht' Hu'.
    rewrite Ht in Ht'. injection Ht' as Heq. apply app_inj_tail in Heq as [_ [= ->]].
    rewrite Hu in Hu'. injection Hu' as Heq. apply app_inj_tail in Heq as [-> ->].
    rewrite <- Hnode. apply list_elem_of_lookup in Hx as [i Hi].
    pose proof (lookup_lt_Some _ _ _ Hi) as Hlt.
    eapply (Ho u1 _ Hu i (length l')); [done| |].
    - by rewrite lookup_app_l.
    - by rewrite lookup_app_r, Nat.sub_diag by lia. }
  induction 1 as [t u H|t u v H Htc IH]; intros l w l' w' Ht Hv.
  - apply tc_once. by eapply Hone.
  - assert (∃ m y, own !! u = Some (m ++ [(y, true)])) as (m & y & Hu).
    { destruct (tc_first _ _ _ Htc) as (u' & m & y & _ & _ & _ & Hu & _). eauto. }
    eapply tc_l; [by eapply Hone|]. by eapply IH.
Qed.

(** ** Properties *)

(** C37: acquiring a lock in a graph without marks. The topological sort
    terminates within one level per node; with enough memory the call succeeds
    exactly when the lock order, extended with the new lock after every lock held,
    has no cycle. On success the graph is that order, without marks, and the lock
    is appended to the locks owned; otherwise the locks owned are unchanged. *)
Theorem lockdep_acquire_decides g owned id tid stk mem :
  clean g → (∀ l, l ∈ owned → in_graph g (node l)) →
  ∃ res g' owned', __lockdep_lock_acquire g owned id tid stk mem = Some (res, g', owned') ∧
    (res = TEE_SUCCESS → clean g' ∧ owned' = owned ++ [Lock id stk] ∧
      ∀ a b, edge g' a b ↔ with_lock g owned id a b) ∧
    (res ≠ TEE_SUCCESS → owned' = owned) ∧
    (res = TEE_SUCCESS → ∀ x, ¬ tc (with_lock g owned id) x x) ∧
    (res = TEE_ERROR_BAD_STATE → ∃ x, tc (with_lock g owned id) x x) ∧
    (res = TEE_SUCCESS ∨ res = TEE_ERROR_BAD_STATE ∨ res = TEE_ERROR_OUT_OF_MEMORY ∧ mem ≠ []).
Proof.
  intros Hc Hown. destruct (acquire_ok g owned id tid stk mem Hc Hown)
    as (res & g' & owned' & Hr & _ & Hcase). exists res, g', owned'. split; [exact Hr|].
  destruct Hcase as [(-> & H1 & H2 & _ & H3 & H4)|[(-> & -> & H & _)|(-> & -> & H)]];
    (split_and!; [done..|auto]).
Qed.

(** C10: deadlock freedom. When every acquire so far has succeeded, threads
    cannot wait for each other in a circle, whatever was released or destroyed in
    between. *)
Theorem lockdep_no_deadlock n g own :
  ld_reachable n (g, own) → ∀ t, ¬ tc (blocked_on own) t t.
Proof.
  intros [Hc Hac _ Ho]%ld_reachable_inv t Ht. simpl in *. apply Hac.
  destruct (tc_first _ _ _ Ht) as (u & l & w & _ & _ & _ & Hl & _).
  exists (node w). by eapply blocked_chain.
Qed.

(** When an acquire reports a deadlock, the search for the cycle
    to print terminates and returns a path of edges that starts at the lock asked
    for and whose last node has an edge back to it, so the assertions in
    lockdep_print_cycle_info hold and every edge it looks up exists. *)
Lemma lockdep_cycle_found g owned id tid stk mem g' owned' :
  clean g → ¬ cyclic g → (∀ l, l ∈ owned → in_graph g (node l)) →
  __lockdep_lock_acquire g owned id tid stk mem = Some (TEE_ERROR_BAD_STATE, g', owned') →
  ∃ p g'', lockdep_graph_get_shortest_cycle g' id = Some (Some p, g'') ∧
    p !! 0%nat = Some id ∧
    (∀ k a b, p !! k = Some a → p !! S k = Some b → is_Some (lockdep_find_edge g' a b)) ∧
    (∀ a, last p = Some a → is_Some (lockdep_find_edge g' a id)).
Proof.
  intros Hc Hac Hown Hacq.
  destruct (acquire_ok g owned id tid stk mem Hc Hown) as (res & g1 & o1 & Heq & _ & Hcase).
  rewrite Hacq in Heq. injection Heq as <- <- <-.
  destruct Hcase as [[? _]|[(_ & _ & [x Hx] & Hfl & Hcl & Hin & Hedge)|[? _]]]; [done| |done].
  assert (tc (edge g') id id) as Hid.
  { apply with_lock_through in Hx; [|done]. eapply tc_iff; [|exact Hx]. intros. by apply Hedge. }
  destruct (shortest_cycle_ok g' id Hcl Hin Hfl) as (r & g2 & Hr & Hres).
  destruct r as [p|]; [|done]. destruct Hres as (n & (H0 & Hl & Hp) & Hn).
  assert (∀ a b, edge g' a b → is_Some (lockdep_find_edge g' a b)) as Hfind.
  { intros a b (m & e & Hm & He & Hto). unfold lockdep_find_edge. rewrite Hm. cbn.
    destruct (filter (λ e0, to e0 = b) (edges m)) eqn:Hf; [|by eexists].
    assert (e ∈ filter (λ e0, to e0 = b) (edges m)) as Hx' by by apply list_elem_of_filter.
    rewrite Hf in Hx'. by apply elem_of_nil in Hx'. }
  exists p, g2. split; [done|]. split; [done|]. split; [intros k a b Ha Hb; apply Hfind; by eapply Hp|].
  intros a Ha. rewrite Hl in Ha. injection Ha as <-. by apply Hfind.
Qed.

(** ** Witnesses *)

(** Thread 0 takes lock 10 and then 11. *)
Definition ex_graph : graph := [Node 10 [Edge 11 0 None None] 0; Node 11 [] 0].

Lemma ex_clean : clean ex_graph.
Proof.
  split; [|by repeat constructor]. intros a b (n & e & Hn & He & <-). unfold ex_graph in Hn.
  cbn [find_node lock_id] in Hn. destruct (10 =? a); [|destruct (11 =? a); [|done]];
    injection Hn as <-; simpl in He; [|by apply elem_of_nil in He].
  apply list_elem_of_singleton in He as ->. by eexists.
Qed.

Lemma lockdep_acquire_decides_witness :
  clean ex_graph ∧ ∃ x, tc (with_lock ex_graph [Lock 11 None] 10) x x.
Proof.
  split; [apply ex_clean|].
  destruct (lockdep_acquire_decides ex_graph [Lock 11 None] 10 1 None [] ex_clean)
    as (res & g' & o' & Hr & _ & _ & _ & Hbad & _).
  - intros l Hl. apply list_elem_of_singleton in Hl as ->. by eexists.
  - vm_compute in Hr. apply Hbad. by injection Hr as <- _ _.
Defined.

Lemma ex_acyclic : ¬ cyclic ex_graph.
Proof.
  destruct (graph_sort_ok ex_graph ex_clean) as (res & g' & Hr & _ & [(_ & Hac & _)|(-> & _)]); [done|].
  vm_compute in Hr. discriminate Hr.
Qed.

Lemma ldr_to n s s' s'' : ld_reachable n s → ld_step s s' → s' = s'' → ld_reachable n s''.
Proof. intros ? ? <-. by eapply ldr_step. Qed.

Lemma ex_ld_reachable :
  ld_reachable 2 (ex_graph, [[(Lock 10 None, true); (Lock 11 None, true)]; []]).
Proof.
  assert (ld_reachable 2 ([Node 10 [] 0], [[(Lock 10 None, true)]; []])) as R1.
  { eapply ldr_to; [apply ldr_init|by eapply (ld_acquire _ _ 0 _ 10 None [])|reflexivity]. }
  eapply ldr_to; [exact R1|by eapply (ld_acquire _ _ 0 _ 11 None [])|reflexivity].
Qed.

Lemma lockdep_no_deadlock_witness :
  ld_reachable 2 (ex_graph, [[(Lock 10 None, true); (Lock 11 None, true)]; []]) ∧
  ¬ tc (blocked_on [[(Lock 10 None, true); (Lock 11 None, true)]; []]) 0%nat 0%nat.
Proof.
  split; [apply ex_ld_reachable|].
  apply (lockdep_no_deadlock 2 ex_graph _ ex_ld_reachable).
Defined.
