(* ===== verification/BlockFile.v ===== *)
(** * Files of blocks: the interface between tee_ree_fs.c and fs_htree.c

    The abstract file, the operations of a hash tree tee_ree_fs.c calls as a
    class, and the laws it relies on. HtreeStore.v shows that the hash tree keeps
    the laws; ReeFs.v builds a file of bytes from any store that does. *)
From S2P Require Import Prelude.

(** What a file holds. *)
Record file := File { f_length : Z; f_blocks : list (list Z) }.

(** Writing within the blocks there are, or right after the last one. *)
Definition f_write (F : file) (i : nat) (b : list Z) : file :=
  File (f_length F)
    (if decide (i < length (f_blocks F))%nat then <[i := b]> (f_blocks F) else f_blocks F ++ [b]).

Definition f_set_length (F : file) (len : Z) : file := File len (f_blocks F).

(** The operations; [S] is the tree with its file. *)
Class BlockStore (S : Type) := {
  bs_read_block : Z → M S tee_result (list Z);
  bs_write_block : Z → list Z → M S tee_result unit;
  bs_truncate_blocks : Z → M S tee_result unit;
  (** [tee_fs_htree_get_meta(ht)->length] *)
  bs_length : M S tee_result Z;
  (** the assignment to it, with tee_fs_htree_meta_set_dirty() *)
  bs_set_length : Z → M S tee_result unit;
  (** get_tmp_block() *)
  bs_tmp_block : M S tee_result unit;
  (** tee_fs_rpc_truncate() *)
  bs_rpc_truncate : Z → M S tee_result unit;
}.

(** The laws. [bs_holds er s F]: the store holds [F], and the calls it makes can
    only fail with a code in [er]. When an operation fails the store is [bs_lost]: what that
    still guarantees is up to the implementation. A store whose block could not be read
    is [bs_closed], and asking for its length stops the core; without a buffer
    nothing has happened. Shrinking is not covered. *)
Class BlockStoreLaws (S : Type) `{BlockStore S} (block_size : nat) := {
  bs_holds : (tee_result → Prop) → S → file → Prop;
  bs_lost : S → Prop;
  bs_closed : S → Prop;
  bs_lost_closed s : bs_closed s → bs_lost s;
  bs_lost_holds er s F : bs_holds er s F → bs_lost s;
  bs_length_closed s : bs_closed s → bs_length s = (Panicked, s);
  bs_read_block_law er s F i blk :
    bs_holds er s F → f_blocks F !! i = Some blk →
    wp (bs_read_block (Z.of_nat i)) (λ r s', r = blk ∧ bs_holds er s' F)
       (λ e s', er e ∧ bs_closed s') s;
  bs_write_block_law er s F i blk :
    bs_holds er s F → (i <= length (f_blocks F))%nat → length blk = block_size →
    (Z.of_nat i + 1 < UINT32_MAX)%Z →
    wp (bs_write_block (Z.of_nat i) blk) (λ _ s', bs_holds er s' (f_write F i blk))
       (λ e s', er e ∧ bs_lost s') s;
  bs_length_law er s F :
    bs_holds er s F → wp bs_length (λ l s', l = f_length F ∧ s' = s) (λ _ _, False) s;
  bs_set_length_law er s F l :
    bs_holds er s F → in_range 64 l →
    wp (bs_set_length l) (λ _ s', bs_holds er s' (f_set_length F l)) (λ _ _, False) s;
  bs_tmp_block_law er s F :
    bs_holds er s F →
    wp bs_tmp_block (λ _ s', bs_holds er s' F) (λ e s', er e ∧ bs_holds er s' F) s;
}.
