(* ===== verification/ByteFile.v ===== *)
(** * Files of bytes: the interface between fs_dirfile.c and tee_ree_fs.c

    struct tee_fs_dirfile_operations as a class, and what fs_dirfile.c relies on. *)
From S2P Require Import Prelude.

Local Open Scope Z_scope.

(** A write of bytes: a gap between the end of the file and the position is filled
    with zeros. *)
Definition write_bytes (l : list Z) (pos : Z) (buf : list Z) : list Z :=
  if decide (buf = []) then l
  else splice (l ++ replicate (Z.to_nat pos - length l) 0) (Z.to_nat pos) buf.

(** ** Files of records of one size

    Record [n] is replaced, or appended when it is the one behind the last. *)
Definition set_at {A} (l : list A) (n : nat) (x : A) : list A :=
  if decide (n < length l)%nat then <[n := x]> l else l ++ [x].

Lemma Forall_set_at {A} (P : A → Prop) l n x : Forall P l → P x → Forall P (set_at l n x).
Proof.
  intros Hl Hx. unfold set_at. case_decide; [by apply Forall_insert|].
  apply Forall_app_2; [done|]. by constructor.
Qed.

Lemma length_set_at {A} (l : list A) n x : (length l <= length (set_at l n x) <= length l + 1)%nat.
Proof. unfold set_at. case_decide; [rewrite length_insert; lia|]. rewrite length_app. simpl. lia. Qed.

Lemma lookup_set_at {A} (l : list A) n x i :
  (n <= length l)%nat → set_at l n x !! i = if decide (i = n) then Some x else l !! i.
Proof.
  intros Hn. unfold set_at. case_decide as Hl.
  - case_decide as Hi; [subst; by apply list_lookup_insert_eq|by apply list_lookup_insert_ne].
  - assert (n = length l) as -> by lia. case_decide as Hi.
    + subst. by rewrite lookup_app_r, Nat.sub_diag by lia.
    + destruct (decide (i < length l)%nat); [by apply lookup_app_l|].
      rewrite !lookup_ge_None_2; [done|lia|]. rewrite length_app. simpl. lia.
Qed.

Lemma fmap_set_at {A B} (f : A → B) l n x : f <$> set_at l n x = set_at (f <$> l) n (f x).
Proof.
  unfold set_at. rewrite length_fmap. case_decide; [apply list_fmap_insert|by rewrite fmap_app].
Qed.

Lemma write_bytes_uniform n (bs : list (list Z)) i b :
  Forall (λ b, length b = n) bs → length b = n → (0 < n)%nat → (i <= length bs)%nat →
  write_bytes (concat bs) (Z.of_nat n * Z.of_nat i) b = concat (set_at bs i b).
Proof.
  intros Hbs Hb Hn Hi. pose proof (length_concat_uniform n bs Hbs) as Hl. unfold write_bytes.
  rewrite decide_False by (intros ->; cbn in Hb; lia).
  replace (Z.to_nat (Z.of_nat n * Z.of_nat i)) with (i * n)%nat by lia.
  replace (i * n - length (concat bs))%nat with 0%nat by (rewrite Hl; nia). rewrite app_nil_r.
  unfold set_at. case_decide as Hlt.
  - destruct (lookup_lt_is_Some_2 bs i Hlt) as [b0 Hb0].
    assert (length b0 = n) as Hb0n by (by eapply Forall_lookup_1 in Hbs).
    assert (b = splice b0 0 b) as Hs.
    { unfold splice. rewrite drop_ge by lia. by rewrite app_nil_r. }
    rewrite Hs at 2. rewrite (concat_insert_splice n) by (done || lia). by rewrite Nat.add_0_r.
  - assert (i = length bs) as -> by lia. unfold splice. rewrite take_ge, drop_ge by (rewrite Hl; lia).
    rewrite app_nil_r, concat_app. simpl. by rewrite app_nil_r.
Qed.

(** [S] is the state of the open file. *)
Class ByteFile (S : Type) := {
  fop_open : bool → option (list Z) → M S tee_result unit;
  fop_read : Z → Z → M S tee_result (list Z);
  fop_write : Z → list Z → M S tee_result unit;
  fop_commit_writes : M S tee_result (option (list Z));
  (** [n] new bytes from realloc(), with any content *)
  fop_realloc : nat → M S tee_result (list Z);
}.

(** [bf_holds er k s p l]: the file holds the bytes [l], and the bytes [p] if it is
    closed or the system stops now; the calls can only fail with a code
    in [er], and [k] more commits are possible. When a call fails the file is [bf_lost s p]: it still
    holds [p]. After a read that failed the file is as before, or it is [bf_closed s p],
    and then another read stops the core. *)
Class ByteFileLaws (S : Type) `{ByteFile S} := {
  bf_holds : (tee_result → Prop) → nat → S → list Z → list Z → Prop;
  bf_lost : S → list Z → Prop;
  bf_closed : S → list Z → Prop;
  bf_lost_closed s p : bf_closed s p → bf_lost s p;
  bf_lost_holds er k s p l : bf_holds er k s p l → bf_lost s p;
  fop_read_closed s p pos len :
    bf_closed s p → ∃ s', fop_read pos len s = (Panicked, s') ∧ bf_lost s' p;
  fop_read_law er k s p l pos len :
    bf_holds er k s p l → 0 <= pos → 0 <= len → pos + len < 2 ^ 64 →
    wp (fop_read pos len)
      (λ r s', r = take (Z.to_nat len) (drop (Z.to_nat pos) l) ∧ bf_holds er k s' p l)
      (λ e s', er e ∧ (bf_holds er k s' p l ∨ bf_closed s' p)) s;
  fop_write_law er k s p l pos buf :
    bf_holds er k s p l → 0 <= pos → pos + Z.of_nat (length buf) < 2 ^ 31 →
    wp (fop_write pos buf) (λ _ s', bf_holds er k s' p (write_bytes l pos buf))
      (λ e s', er e ∧ bf_lost s' p) s;
  fop_commit_law er k s p l :
    bf_holds er (Datatypes.S k) s p l →
    wp fop_commit_writes (λ _ s', bf_holds er k s' l l)
      (λ e s', er e ∧ (bf_lost s' p ∨ bf_lost s' l)) s;
  fop_realloc_law er k s p l n :
    bf_holds er k s p l →
    wp (fop_realloc n)
      (λ r s', length r = n ∧ Forall (λ x, 0 <= x < 256) r ∧ bf_holds er k s' p l)
      (λ e s', er e ∧ bf_lost s' p) s;
}.
