(* ===== verification/Htree.v ===== *)
(** * core/tee/fs_htree.c: the hash tree of a secure storage file

    The state of an open file and the operations on it. The properties are in
    HtreeProofs.v.

    The tree hangs together by node ids: node [n] has the children [2 * n] and
    [2 * n + 1], so the nodes in memory are a map from ids, in which [child[i]] of
    [n] is the entry at [2 * n + i] and [parent] the one at [n / 2] (NULL for the
    root, whose id is 1). *)
From S2P Require Import Prelude.

Local Open Scope Z_scope.

Definition TEE_FS_HTREE_HASH_SIZE : nat := 32.
Definition TEE_FS_HTREE_IV_SIZE : nat := 16.
Definition TEE_FS_HTREE_FEK_SIZE : nat := 16.
Definition TEE_FS_HTREE_TAG_SIZE : nat := 16.

(** ** Data *)

Record tee_fs_htree_node_image := NodeImage {
  hash : list Z;
  n_iv : list Z;
  n_tag : list Z;
  flags : Z;  (* uint16_t *)
}.

(** [meta.length] and [max_node_id]. *)
Record tee_fs_htree_imeta := Imeta { length : Z; max_node_id : Z }.

Record tee_fs_htree_image := Image {
  iv : list Z;
  tag : list Z;
  enc_fek : list Z;
  imeta_crypt : list Z;
  counter : Z;  (* uint32_t *)
}.

Record htree_node := HNode {
  n_dirty : bool;
  block_updated : bool;
  node : tee_fs_htree_node_image;
}.

Record tee_fs_htree := Htree {
  nodes : gmap Z htree_node;
  head : tee_fs_htree_image;
  fek : list Z;
  imeta : tee_fs_htree_imeta;
  dirty : bool;
  uuid : list Z;
}.

(** The struct tee_fs_htree_imeta in memory, with its padding. *)
Definition imeta_bytes (m : tee_fs_htree_imeta) : list Z :=
  le_bytes 8 (length m) ++ le_bytes 4 (max_node_id m) ++ [0; 0; 0; 0].
Definition imeta_of_bytes (l : list Z) : tee_fs_htree_imeta :=
  Imeta (le_value (take 8 l)) (le_value (take 4 (drop 8 l))).

(** calloc() *)
Definition zero_image : tee_fs_htree_node_image :=
  NodeImage (replicate 32 0) (replicate 16 0) (replicate 16 0) 0.
Definition zero_head : tee_fs_htree_image :=
  Image (replicate 16 0) (replicate 16 0) (replicate 16 0) (replicate 16 0) 0.

(** ** What the code calls *)

(** SHA-256, AES-GCM, tee_fs_fek_crypt() and the random number generator, the
    [n]th output of which is [rng n]. *)
Class Crypto := {
  sha256 : list Z → list Z;
  gcm_enc : list Z → list Z → list Z → list Z → list Z * list Z;  (* key iv aad plain *)
  gcm_dec : list Z → list Z → list Z → list Z → list Z → option (list Z);  (* key iv aad crypt tag *)
  fek_enc : list Z → list Z → list Z;  (* uuid fek *)
  fek_dec : list Z → list Z → list Z;
  rng : nat → list Z;
}.

(** What it documents: decryption inverts encryption, and the cipher text
    is as long as the text. *)
Class CryptoLaws `{Crypto} := {
  gcm_dec_enc key iv aad plain crypt tag :
    gcm_enc key iv aad plain = (crypt, tag) → gcm_dec key iv aad crypt tag = Some plain;
  length_gcm_enc key iv aad plain crypt tag :
    gcm_enc key iv aad plain = (crypt, tag) → List.length crypt = List.length plain;
  fek_dec_enc u k : fek_dec u (fek_enc u k) = k;
}.

(** The file, as the storage callbacks of the REE file system keep it: two
    versions of the head, of every node (by node id) and of every block (by block
    number). [d_faults] says for the coming external calls whether they fail; a
    write that fails may have been carried out all the same. *)
Record dev := Dev {
  d_heads : gmap bool tee_fs_htree_image;
  d_nodes : gmap (Z * bool) tee_fs_htree_node_image;
  d_blocks : gmap (Z * bool) (list Z);
  d_rng : nat;
  d_faults : list (option (bool * tee_result));
}.

Definition set_faults (d : dev) (f : list (option (bool * tee_result))) : dev :=
  Dev (d_heads d) (d_nodes d) (d_blocks d) (d_rng d) f.
Definition set_heads (d : dev) (h : gmap bool tee_fs_htree_image) : dev :=
  Dev h (d_nodes d) (d_blocks d) (d_rng d) (d_faults d).
Definition set_dnodes (d : dev) (n : gmap (Z * bool) tee_fs_htree_node_image) : dev :=
  Dev (d_heads d) n (d_blocks d) (d_rng d) (d_faults d).
Definition set_blocks (d : dev) (b : gmap (Z * bool) (list Z)) : dev :=
  Dev (d_heads d) (d_nodes d) b (d_rng d) (d_faults d).

Abbreviation D := (M dev tee_result).

(** A call that has no effect of its own: a read, an allocation, an operation of
    the crypto API. A function that makes several of them in a row without
    changing anything in between is one such call. *)
Definition ext : D unit := λ d,
  match d_faults d with
  | [] => (Ok tt, d)
  | None :: f => (Ok tt, set_faults d f)
  | Some (_, e) :: f => (Err e, set_faults d f)
  end.

(** A write with the effect [w]. *)
Definition ext_write (w : dev → dev) : D unit := λ d,
  match d_faults d with
  | [] => (Ok tt, w d)
  | None :: f => (Ok tt, w (set_faults d f))
  | Some (b, e) :: f => (Err e, if b then w (set_faults d f) else set_faults d f)
  end.

Definition draw `{Crypto} (n : nat) : D (list Z) := λ d,
  (Ok (take n (rng (d_rng d))),
   Dev (d_heads d) (d_nodes d) (d_blocks d) (S (d_rng d)) (d_faults d)).
Definition crypto_rng_read `{Crypto} (n : nat) : D (list Z) := ext ≫= λ _, draw n.

(** An element that is not in the file reads as fewer bytes than asked for. (A hole
    of the file that reads as zeros is an element of zeros.) *)
Definition of_option {A} (o : option A) : D A := λ d,
  match o with Some a => (Ok a, d) | None => (Err TEE_ERROR_CORRUPT_OBJECT, d) end.

Definition rpc_read_head (vers : bool) : D tee_fs_htree_image :=
  _ ← ext; d ← mget; of_option (d_heads d !! vers).
Definition rpc_read_node (node_id : Z) (vers : bool) : D tee_fs_htree_node_image :=
  _ ← ext; d ← mget; of_option (d_nodes d !! (node_id, vers)).
Definition rpc_write_head (vers : bool) (h : tee_fs_htree_image) : D unit :=
  ext_write (λ d, set_heads d (<[vers := h]> (d_heads d))).
Definition rpc_write_node (node_id : Z) (vers : bool) (n : tee_fs_htree_node_image) : D unit :=
  ext_write (λ d, set_dnodes d (<[(node_id, vers) := n]> (d_nodes d))).

(** ** The tree in memory *)

Definition HTREE_NODE_COMMITTED_BLOCK : Z := 0.        (* bit number *)
Definition HTREE_NODE_COMMITTED_CHILD (n : Z) : Z := 1 + n.

Definition BLOCK_NUM_TO_NODE_ID (num : Z) : Z := num + 1.
Definition NODE_ID_TO_BLOCK_NUM (id : Z) : Z := id - 1.

Definition set_nodes (ht : tee_fs_htree) (n : gmap Z htree_node) : tee_fs_htree :=
  Htree n (head ht) (fek ht) (imeta ht) (dirty ht) (uuid ht).
Definition set_head (ht : tee_fs_htree) (h : tee_fs_htree_image) : tee_fs_htree :=
  Htree (nodes ht) h (fek ht) (imeta ht) (dirty ht) (uuid ht).
Definition set_imeta (ht : tee_fs_htree) (m : tee_fs_htree_imeta) : tee_fs_htree :=
  Htree (nodes ht) (head ht) (fek ht) m (dirty ht) (uuid ht).
Definition set_dirty (ht : tee_fs_htree) (b : bool) : tee_fs_htree :=
  Htree (nodes ht) (head ht) (fek ht) (imeta ht) b (uuid ht).
Definition set_fek (ht : tee_fs_htree) (k : list Z) : tee_fs_htree :=
  Htree (nodes ht) (head ht) k (imeta ht) (dirty ht) (uuid ht).

Definition update_hnode (ht : tee_fs_htree) (id : Z) (f : htree_node → htree_node) : tee_fs_htree :=
  set_nodes ht (alter f id (nodes ht)).

(** The assertion of node_id_to_level(), made where a function that can be given
    any id looks one up. *)
Definition node_id_valid (node_id : Z) : bool := (0 <? node_id) && (node_id <? UINT32_MAX).

(** [sizeof(unsigned int) * 8 - __builtin_clz(node_id)] *)
Definition node_id_to_level (node_id : Z) : nat := S (Z.to_nat (Z.log2 node_id)).

(** The loop of find_closest_node(): [k] bits of [node_id] are left. *)
Fixpoint closest_loop (nodes : gmap Z htree_node) (node_id node : Z) (k : nat) : Z :=
  match k with
  | O => node
  | S k =>
    let child := 2 * node + Z.b2z (Z.testbit node_id (Z.of_nat k)) in
    match nodes !! child with
    | None => node
    | Some _ => closest_loop nodes node_id child k
    end
  end.

Definition find_closest_node (ht : tee_fs_htree) (node_id : Z) : Z :=
  closest_loop (nodes ht) node_id 1 (pred (node_id_to_level node_id)).

Definition find_node (ht : tee_fs_htree) (node_id : Z) : option htree_node :=
  let n := find_closest_node ht node_id in
  if n =? node_id then nodes ht !! n else None.

Definition new_node : htree_node := HNode false false zero_image.

(** The loop of get_node(), [k] ids from [n] on. *)
Fixpoint get_node_loop (ht : tee_fs_htree) (n : Z) (k : nat) : D tee_fs_htree :=
  match k with
  | O => mret ht
  | S k =>
    let closest := find_closest_node ht n in
    if closest =? n then get_node_loop ht (n + 1) k
    else
      _ ← massert (n / 2 =? closest);
      _ ← massert (bool_decide (nodes ht !! n = None));
      _ ← ext;
      get_node_loop (set_nodes ht (<[n := new_node]> (nodes ht))) (n + 1) k
  end.

(** The node returned is the one with the id asked for. *)
Definition get_node (ht : tee_fs_htree) (create : bool) (node_id : Z) : D tee_fs_htree :=
  _ ← massert (node_id_valid node_id);
  let closest := find_closest_node ht node_id in
  if closest =? node_id then mret ht
  else if negb create then mthrow TEE_ERROR_GENERIC
  else
    ht ← get_node_loop ht (closest + 1) (Z.to_nat (node_id - closest));
    mret (if max_node_id (imeta ht) <? node_id
          then set_imeta ht (Imeta (length (imeta ht)) node_id) else ht).

(** traverse_post_order(): [None]s of the map are NULL pointers. The depth is at
    most the level of the largest id, and ids are below 2^32. *)
Fixpoint traverse_post_order (fuel : nat) (cb : tee_fs_htree → Z → D tee_fs_htree)
    (ht : tee_fs_htree) (id : Z) : D tee_fs_htree :=
  match fuel with
  | O => mpanic
  | S fuel =>
    match nodes ht !! id with
    | None => mret ht
    | Some _ =>
      ht ← traverse_post_order fuel cb ht (2 * id);
      ht ← traverse_post_order fuel cb ht (2 * id + 1);
      cb ht id
    end
  end.

Definition htree_traverse_post_order (ht : tee_fs_htree)
    (cb : tee_fs_htree → Z → D tee_fs_htree) : D tee_fs_htree :=
  traverse_post_order 34 cb ht 1.

(** ** Hashing and encryption *)

Section with_crypto.
Context `{Crypto}.

Definition child_hash (ht : tee_fs_htree) (id : Z) : list Z :=
  match nodes ht !! id with Some c => hash (node c) | None => [] end.

(** What calc_node_hash() hashes. *)
Definition node_input (ht : tee_fs_htree) (id : Z) (meta : bool) (n : tee_fs_htree_node_image) : list Z :=
  n_iv n ++ n_tag n ++ le_bytes 2 (flags n)
  ++ (if meta then le_bytes 8 (length (imeta ht)) else [])
  ++ child_hash ht (2 * id) ++ child_hash ht (2 * id + 1).

Definition calc_node_hash (ht : tee_fs_htree) (id : Z) (n : tee_fs_htree_node_image) : D (list Z) :=
  _ ← ext; mret (sha256 (node_input ht id (id =? 1) n)).

(** The additional data authenc_init() feeds: for the head the first
    TEE_FS_HTREE_FEK_SIZE bytes of the root hash and the counter. *)
Definition head_aad (ht : tee_fs_htree) (root_hash iv : list Z) : list Z :=
  take TEE_FS_HTREE_FEK_SIZE root_hash ++ le_bytes 4 (counter (head ht))
  ++ enc_fek (head ht) ++ iv.
Definition node_aad (ht : tee_fs_htree) (iv : list Z) : list Z := enc_fek (head ht) ++ iv.

Definition root_hash (ht : tee_fs_htree) : list Z := child_hash ht 1.

(** authenc_init() for decryption and authenc_decrypt_final(). *)
Definition authenc_decrypt (key iv aad crypt tag : list Z) : D (list Z) :=
  _ ← ext;
  match gcm_dec key iv aad crypt tag with
  | Some plain => mret plain
  | None => mthrow TEE_ERROR_CORRUPT_OBJECT
  end.

(** authenc_init() for encryption, which draws the iv, and
    authenc_encrypt_final(): iv, text and tag. *)
Definition authenc_encrypt (key : list Z) (aad : list Z → list Z) (plain : list Z)
    : D (list Z * list Z * list Z) :=
  iv ← crypto_rng_read TEE_FS_HTREE_IV_SIZE;
  _ ← ext;
  let '(crypt, tag) := gcm_enc key iv (aad iv) plain in
  mret (iv, crypt, tag).

(** ** Opening *)

Definition get_idx_from_counter (counter0 counter1 : Z) : Z :=
  if negb (Z.testbit counter0 0) then
    if negb (Z.testbit counter1 0) then 0
    else if counter1 <? counter0 then 0 else 1
  else if Z.testbit counter1 0 then 1 else -1.

(** [hash_arg] is given when the caller knows the root hash. *)
Definition init_head_from_data (ht : tee_fs_htree) (hash_arg : option (list Z)) : D tee_fs_htree :=
  match hash_arg with
  | Some h =>
    let found idx n :=
      hd ← rpc_read_head idx;
      mret (set_head (set_nodes ht {[1 := HNode false false n]}) hd) in
    n0 ← rpc_read_node 1 false;
    if bool_decide (hash n0 = h) then found false n0
    else
      n1 ← rpc_read_node 1 true;
      if bool_decide (hash n1 = h) then found true n1
      else mthrow TEE_ERROR_SECURITY
  | None =>
    h0 ← rpc_read_head false;
    h1 ← rpc_read_head true;
    let idx := get_idx_from_counter (counter h0) (counter h1) in
    if idx <? 0 then mthrow TEE_ERROR_SECURITY
    else
      n ← rpc_read_node 1 (idx =? 1);
      mret (set_head (set_nodes ht {[1 := HNode false false n]}) (if idx =? 1 then h1 else h0))
  end.

(** The loop of init_tree_from_data(), [k] ids from [node_id] on. *)
Fixpoint init_tree_loop (ht : tee_fs_htree) (node_id : Z) (k : nat) : D tee_fs_htree :=
  match k with
  | O => mret ht
  | S k =>
    match find_node ht (node_id / 2) with
    | None => mthrow TEE_ERROR_GENERIC
    | Some parent =>
      let committed_version :=
        Z.testbit (flags (node parent)) (HTREE_NODE_COMMITTED_CHILD (node_id mod 2)) in
      image ← rpc_read_node node_id committed_version;
      ht ← get_node ht true node_id;
      init_tree_loop
        (update_hnode ht node_id (λ nc, HNode (n_dirty nc) (block_updated nc) image))
        (node_id + 1) k
    end
  end.

Definition init_tree_from_data (ht : tee_fs_htree) : D tee_fs_htree :=
  init_tree_loop ht 2 (Z.to_nat (max_node_id (imeta ht) - 1)).

Definition verify_root (ht : tee_fs_htree) : D tee_fs_htree :=
  _ ← ext;
  let ht := set_fek ht (fek_dec (uuid ht) (enc_fek (head ht))) in
  plain ← authenc_decrypt (fek ht) (iv (head ht)) (head_aad ht (root_hash ht) (iv (head ht)))
            (imeta_crypt (head ht)) (tag (head ht));
  mret (set_imeta ht (imeta_of_bytes plain)).

Definition verify_node (ht : tee_fs_htree) (id : Z) : D tee_fs_htree :=
  match nodes ht !! id with
  | None => mpanic
  | Some n =>
    digest ← calc_node_hash ht id (node n);
    if bool_decide (digest = hash (node n)) then mret ht else mthrow TEE_ERROR_CORRUPT_OBJECT
  end.

Definition verify_tree (ht : tee_fs_htree) : D tee_fs_htree :=
  _ ← ext; htree_traverse_post_order ht verify_node.

Definition init_root_node (ht : tee_fs_htree) : D tee_fs_htree :=
  _ ← ext;
  let image := zero_image in
  digest ← calc_node_hash ht 1 image;
  mret (set_nodes ht {[1 := HNode true false
    (NodeImage digest (n_iv image) (n_tag image) (flags image))]}).

(** ** Synchronising *)

Definition toggle (flags bit : Z) : Z := Z.lxor flags (Z.shiftl 1 bit).

Definition htree_sync_node_to_storage (ht : tee_fs_htree) (id : Z) : D tee_fs_htree :=
  match nodes ht !! id with
  | None => mpanic
  | Some n =>
    _ ← massert (implb (block_updated n) (n_dirty n));
    if negb (n_dirty n) then mret ht
    else
      '(ht, vers) ←
        (if id =? 1 then mret (ht, negb (Z.testbit (counter (head ht)) 0))
         else
           let f := HTREE_NODE_COMMITTED_CHILD (id mod 2) in
           match nodes ht !! (id / 2) with
           | None => mpanic
           | Some p =>
             let fl := toggle (flags (node p)) f in
             mret (update_hnode ht (id / 2) (λ p, HNode true (block_updated p)
                     (NodeImage (hash (node p)) (n_iv (node p)) (n_tag (node p)) fl)),
                   Z.testbit fl f)
           end);
      digest ← calc_node_hash ht id (node n);
      let image := NodeImage digest (n_iv (node n)) (n_tag (node n)) (flags (node n)) in
      let ht := update_hnode ht id (λ _, HNode false false image) in
      _ ← rpc_write_node id vers image;
      mret ht
  end.

Definition update_root (ht : tee_fs_htree) : D tee_fs_htree :=
  let hd := head ht in
  let ht := set_head ht
    (Image (iv hd) (tag hd) (enc_fek hd) (imeta_crypt hd) (wrap 32 (counter hd + 1))) in
  '(iv, crypt, tag) ← authenc_encrypt (fek ht) (head_aad ht (root_hash ht)) (imeta_bytes (imeta ht));
  mret (set_head ht (Image iv tag (enc_fek (head ht)) crypt (counter (head ht)))).

(** The synchronised tree and the root hash for the caller. On failure the tree
    is closed, so only the file is left. *)
Definition tee_fs_htree_sync_to_storage (ht : option tee_fs_htree) : D (tee_fs_htree * option (list Z)) :=
  match ht with
  | None => mthrow TEE_ERROR_CORRUPT_OBJECT
  | Some ht =>
    if negb (dirty ht) then mret (ht, None)
    else
      _ ← ext;
      ht ← htree_traverse_post_order ht htree_sync_node_to_storage;
      ht ← update_root ht;
      _ ← rpc_write_head (Z.testbit (counter (head ht)) 0) (head ht);
      mret (set_dirty ht false, Some (root_hash ht))
  end.

Definition tee_fs_htree_open (create : bool) (hash_arg : option (list Z)) (uuid : list Z) : D tee_fs_htree :=
  _ ← ext;
  let ht := Htree ∅ zero_head (replicate 16 0) (Imeta 0 0) false uuid in
  if create then
    k ← crypto_rng_read TEE_FS_HTREE_FEK_SIZE;
    _ ← ext;
    let ht := set_head (set_fek ht k)
      (Image (replicate 16 0) (replicate 16 0) (fek_enc uuid k) (replicate 16 0) 0) in
    ht ← init_root_node ht;
    '(ht, _) ← tee_fs_htree_sync_to_storage (Some (set_dirty ht true));
    _ ← rpc_write_head false zero_head;
    mret ht
  else
    ht ← init_head_from_data ht hash_arg;
    ht ← verify_root ht;
    ht ← init_tree_from_data ht;
    verify_tree ht.

(** ** The file's content *)

Definition tee_fs_htree_get_meta (ht : tee_fs_htree) : Z := length (imeta ht).

(** The caller writes [meta->length] and calls tee_fs_htree_meta_set_dirty(). *)
Definition tee_fs_htree_meta_set_dirty (ht : tee_fs_htree) : tee_fs_htree :=
  update_hnode (set_dirty ht true) 1 (λ n, HNode true (block_updated n) (node n)).
Definition set_length (ht : tee_fs_htree) (len : Z) : tee_fs_htree :=
  tee_fs_htree_meta_set_dirty (set_imeta ht (Imeta len (max_node_id (imeta ht)))).

Definition get_block_node (ht : tee_fs_htree) (create : bool) (block_num : Z) : D tee_fs_htree :=
  get_node ht create (BLOCK_NUM_TO_NODE_ID block_num).

Definition tee_fs_htree_write_block (ht : option tee_fs_htree) (block_num : Z) (block : list Z)
    : D tee_fs_htree :=
  match ht with
  | None => mthrow TEE_ERROR_CORRUPT_OBJECT
  | Some ht =>
    ht ← get_block_node ht true block_num;
    let id := BLOCK_NUM_TO_NODE_ID block_num in
    match nodes ht !! id with
    | None => mpanic
    | Some n =>
      let fl := if negb (block_updated n)
                then toggle (flags (node n)) HTREE_NODE_COMMITTED_BLOCK else flags (node n) in
      let block_vers := Z.testbit fl HTREE_NODE_COMMITTED_BLOCK in
      _ ← ext;
      '(iv, crypt, tag) ← authenc_encrypt (fek ht) (node_aad ht) block;
      _ ← ext_write (λ d, set_blocks d (<[(block_num, block_vers) := crypt]> (d_blocks d)));
      mret (set_dirty (update_hnode ht id
        (λ _, HNode true true (NodeImage (hash (node n)) iv tag fl))) true)
    end
  end.

(** [block_size]: the block size of the storage. *)
Definition tee_fs_htree_read_block (block_size : nat) (ht : option tee_fs_htree) (block_num : Z)
    : D (list Z) :=
  match ht with
  | None => mthrow TEE_ERROR_CORRUPT_OBJECT
  | Some ht =>
    ht ← get_block_node ht false block_num;
    let id := BLOCK_NUM_TO_NODE_ID block_num in
    match nodes ht !! id with
    | None => mpanic
    | Some n =>
      let block_vers := Z.testbit (flags (node n)) HTREE_NODE_COMMITTED_BLOCK in
      _ ← ext;
      d ← mget;
      enc_block ← of_option (d_blocks d !! (block_num, block_vers));
      if negb (List.length enc_block =? block_size)%nat then mthrow TEE_ERROR_CORRUPT_OBJECT
      else authenc_decrypt (fek ht) (n_iv (node n)) (node_aad ht (n_iv (node n))) enc_block
             (n_tag (node n))
    end
  end.

(** The loop of tee_fs_htree_truncate(); [fuel] iterations at most. *)
Fixpoint truncate_loop (ht : tee_fs_htree) (node_id : Z) (fuel : nat) : D tee_fs_htree :=
  let max := max_node_id (imeta ht) in
  if node_id <? max then
    match fuel with
    | O => mpanic
    | S fuel =>
      _ ← massert (node_id_valid max);
      let id := find_closest_node ht max in
      _ ← massert (id =? max);
      _ ← massert (bool_decide (nodes ht !! (2 * id) = None ∧ nodes ht !! (2 * id + 1) = None));
      _ ← massert (bool_decide (is_Some (nodes ht !! (id / 2))));
      truncate_loop
        (set_dirty (set_imeta (set_nodes ht (delete id (nodes ht)))
                      (Imeta (length (imeta ht)) (wrap 32 (max - 1)))) true)
        node_id fuel
    end
  else mret ht.

Definition tee_fs_htree_truncate (ht : option tee_fs_htree) (block_num : Z) : D tee_fs_htree :=
  match ht with
  | None => mthrow TEE_ERROR_CORRUPT_OBJECT
  | Some ht =>
    let node_id := BLOCK_NUM_TO_NODE_ID block_num in
    truncate_loop ht node_id (Z.to_nat (max_node_id (imeta ht) - node_id))
  end.
End with_crypto.
