(* ===== verification/HtreeTree.v ===== *)
(** * core/tee/fs_htree.c: the tree of nodes and its file

    The lemmas on Htree.v the properties share: the shape of the tree and the
    search in it, what an external call can do to the file, which version of a
    node is the current one, and the traversal that writes the changed nodes. *)
From S2P Require Import Prelude Htree.

Local Open Scope Z_scope.

(** ** Shape

    The ids of the nodes are those from 1 to [top]: the tree is complete. *)

Definition top (ht : tee_fs_htree) : Z := Z.max 1 (max_node_id (imeta ht)).

Definition has_ids (m : gmap Z htree_node) (t : Z) : Prop :=
  ∀ i, is_Some (m !! i) ↔ 1 <= i <= t.

Record shape (ht : tee_fs_htree) : Prop := {
  shape_ids : has_ids (nodes ht) (top ht);
  shape_max : 0 <= max_node_id (imeta ht) < UINT32_MAX;
  shape_len : in_range 64 (length (imeta ht));
}.

Lemma has_ids_None m t i : has_ids m t → ¬ (1 <= i <= t) → m !! i = None.
Proof. intros Hm Hi. apply eq_None_not_Some. by rewrite (Hm i). Qed.

Lemma child_of_prefix id k :
  0 <= id → 2 * (id / 2 ^ (k + 1)) + Z.b2z (Z.testbit id k) = id / 2 ^ k ∨ k < 0.
Proof.
  intros Hid. destruct (Z.ltb_spec k 0); [by right|left].
  rewrite Z.pow_add_r, <- Z.div_div by lia.
  rewrite Z.testbit_spec' by done. change (2 ^ 1) with 2.
  pose proof (Z.div_mod (id / 2 ^ k) 2). lia.
Qed.

Lemma closest_loop_spec m t id k :
  has_ids m t → 0 <= id → id / 2 ^ Z.of_nat k <= t → 1 <= id / 2 ^ Z.of_nat k →
  ∃ j, (j <= k)%nat ∧ closest_loop m id (id / 2 ^ Z.of_nat k) k = id / 2 ^ Z.of_nat j
    ∧ id / 2 ^ Z.of_nat j <= t ∧ (j = 0%nat ∨ t < id / 2 ^ Z.of_nat (pred j)).
Proof.
  intros Hm Hid. induction k as [|k IH]; intros Ht H1.
  { exists 0%nat. simpl. auto. }
  cbn [closest_loop].
  destruct (child_of_prefix id (Z.of_nat k) Hid) as [Hc|]; [|lia].
  rewrite Nat2Z.inj_succ, <- Z.add_1_r in *. rewrite Hc.
  assert (1 <= id / 2 ^ Z.of_nat k) as H1'.
  { rewrite <- Hc. destruct (Z.testbit id (Z.of_nat k)); simpl; lia. }
  destruct (m !! (id / 2 ^ Z.of_nat k)) eqn:E.
  - assert (id / 2 ^ Z.of_nat k <= t) as Hle by (by apply Hm).
    destruct (IH Hle H1') as (j & Hj & He & Hr). exists j. split; [lia|]. done.
  - exists (S k). rewrite Nat2Z.inj_succ, <- Z.add_1_r. split; [lia|]. repeat split; [done|].
    right. simpl. destruct (Z.leb_spec (id / 2 ^ Z.of_nat k) t); [|done].
    assert (is_Some (m !! (id / 2 ^ Z.of_nat k))) as [? ?] by (by apply Hm). congruence.
Qed.

Lemma find_closest_spec ht t id :
  has_ids (nodes ht) t → 1 <= t → 1 <= id →
  ∃ j, find_closest_node ht id = id / 2 ^ Z.of_nat j ∧ id / 2 ^ Z.of_nat j <= t
    ∧ (j = 0%nat ∨ t < id / 2 ^ Z.of_nat (pred j)).
Proof.
  intros Hs Ht Hid. unfold find_closest_node, node_id_to_level. simpl pred.
  assert (id / 2 ^ Z.of_nat (Z.to_nat (Z.log2 id)) = 1) as H1.
  { rewrite Z2Nat.id by apply Z.log2_nonneg.
    pose proof (Z.log2_spec id ltac:(lia)) as [Hl Hu]. rewrite Z.pow_succ_r in Hu by apply Z.log2_nonneg.
    symmetry. apply Z.div_unique with (id - 2 ^ Z.log2 id); lia. }
  destruct (closest_loop_spec (nodes ht) t id (Z.to_nat (Z.log2 id)))
    as (j & _ & He & Hr); [done|lia|lia|lia|].
  rewrite H1 in He. by exists j.
Qed.

Lemma find_closest_in ht t id :
  has_ids (nodes ht) t → 1 <= id <= t → find_closest_node ht id = id.
Proof.
  intros Hs Hid. destruct (find_closest_spec ht t id) as (j & He & _ & Hj); [done|lia|lia|].
  rewrite He. destruct Hj as [-> |Hj]; [by rewrite Z.pow_0_r, Z.div_1_r|].
  assert (id / 2 ^ Z.of_nat (pred j) <= id) by (apply Z.div_le_upper_bound; nia).
  lia.
Qed.

Lemma find_closest_next ht t :
  has_ids (nodes ht) t → 1 <= t → find_closest_node ht (t + 1) = (t + 1) / 2.
Proof.
  intros Hs Ht.
  destruct (find_closest_spec ht t (t + 1)) as (j & He & Hle & Hj); [done|lia|lia|].
  rewrite He. destruct j as [|[|j]].
  - rewrite Z.pow_0_r, Z.div_1_r in Hle. lia.
  - done.
  - destruct Hj as [|Hj]; [lia|]. simpl pred in Hj.
    assert ((t + 1) / 2 ^ Z.of_nat (S j) <= (t + 1) / 2).
    { apply Z.div_le_compat_l; [lia|]. split; [lia|].
      rewrite Nat2Z.inj_succ, Z.pow_succ_r by lia. pose proof (Z.pow_pos_nonneg 2 (Z.of_nat j)). nia. }
    dlia.
Qed.

Lemma find_closest_above ht t id :
  has_ids (nodes ht) t → 1 <= t → t < id → 1 <= find_closest_node ht id <= t.
Proof.
  intros Hs Ht Hid.
  destruct (find_closest_spec ht t id) as (j & He & Hle & Hj); [done|lia|lia|].
  rewrite He. split; [|done]. destruct Hj as [-> |Hj].
  - rewrite Z.pow_0_r, Z.div_1_r. lia.
  - destruct j as [|j]; [rewrite Z.pow_0_r, Z.div_1_r; lia|]. simpl pred in Hj.
    rewrite Nat2Z.inj_succ, Z.pow_succ_r, Z.mul_comm, <- Z.div_div by lia. dlia.
Qed.

Lemma find_node_in ht t id :
  has_ids (nodes ht) t → 1 <= id <= t → find_node ht id = nodes ht !! id.
Proof. intros Hs Hid. unfold find_node. by rewrite (find_closest_in _ _ _ Hs Hid), Z.eqb_refl. Qed.

(** ** External calls *)

(** One of the coming calls fails with [e]. *)
Definition fault (d : dev) (e : tee_result) : Prop := ∃ b, Some (b, e) ∈ d_faults d.

(** [d'] is [d] as far as the file goes; no fault comes from nowhere. *)
Record same (d d' : dev) : Prop := {
  same_heads : d_heads d' = d_heads d;
  same_nodes : d_nodes d' = d_nodes d;
  same_blocks : d_blocks d' = d_blocks d;
  same_faults e : fault d' e → fault d e;
}.

#[export] Instance same_refl : Reflexive same.
Proof. by constructor. Qed.
#[export] Instance same_trans : Transitive same.
Proof. intros x y z [????] [????]. constructor; try congruence. auto. Qed.

Lemma same_set_faults d x f : d_faults d = x :: f → same d (set_faults d f).
Proof.
  intros E. constructor; try done. intros e [b Hb]. exists b. rewrite E. by apply elem_of_cons; right.
Qed.

(** An error only ever comes from a fault. *)
Lemma wp_ext (Q : unit → dev → Prop) R d :
  (∀ d', same d d' → Q tt d') →
  (∀ e d', same d d' → fault d e → R e d') →
  wp ext Q R d.
Proof.
  intros HQ HR. unfold wp, ext. destruct (d_faults d) as [|[[b e]|] f] eqn:E.
  - by apply HQ.
  - apply HR; [by eapply same_set_faults|]. exists b. rewrite E. by left.
  - apply HQ. by eapply same_set_faults.
Qed.

Lemma wp_ext_write w (Q : unit → dev → Prop) R d :
  (∀ d', same d d' → Q tt (w d')) →
  (∀ e d', same d d' → fault d e → R e d' ∧ R e (w d')) →
  wp (ext_write w) Q R d.
Proof.
  intros HQ HR. unfold wp, ext_write. destruct (d_faults d) as [|[[b e]|] f] eqn:E.
  - by apply HQ.
  - destruct (HR e (set_faults d f)) as [H1 H2]; [by eapply same_set_faults| |].
    { exists b. rewrite E. by left. }
    by destruct b.
  - apply HQ. by eapply same_set_faults.
Qed.

Lemma wp_rng `{Crypto} n (Q : list Z → dev → Prop) R d :
  (∀ l d', same d d' → Q l d') →
  (∀ e d', same d d' → fault d e → R e d') →
  wp (crypto_rng_read n) Q R d.
Proof.
  intros HQ HR. unfold crypto_rng_read. apply wp_bind, wp_ext; [|done].
  intros d' Hd. apply HQ. etrans; [done|]. by constructor.
Qed.

Lemma wp_of_option {A} (o : option A) a (Q : A → dev → Prop) R d :
  o = Some a → Q a d → wp (of_option o) Q R d.
Proof. by intros -> ?. Qed.

Lemma wp_read_node id v n (Q : _ → dev → Prop) R d :
  d_nodes d !! (id, v) = Some n →
  (∀ d', same d d' → Q n d') →
  (∀ e d', same d d' → fault d e → R e d') →
  wp (rpc_read_node id v) Q R d.
Proof.
  intros Hn HQ HR. unfold rpc_read_node. apply wp_bind, wp_ext; [|done].
  intros d' Hd. wp_steps. apply wp_of_option with n; [|by apply HQ].
  by rewrite (same_nodes _ _ Hd).
Qed.

Lemma wp_read_head v h (Q : _ → dev → Prop) R d :
  d_heads d !! v = Some h →
  (∀ d', same d d' → Q h d') →
  (∀ e d', same d d' → fault d e → R e d') →
  wp (rpc_read_head v) Q R d.
Proof.
  intros Hn HQ HR. unfold rpc_read_head. apply wp_bind, wp_ext; [|done].
  intros d' Hd. wp_steps. apply wp_of_option with h; [|by apply HQ].
  by rewrite (same_heads _ _ Hd).
Qed.

Lemma wp_eq {S E A} (m m' : M S E A) Q (R : E → S → Prop) s :
  m s = m' s → wp m' Q R s → wp m Q R s.
Proof. unfold wp. by intros ->. Qed.

Lemma bind_ret_app {S E A B} (a : A) (f : A → M S E B) s : (mret a ≫= f) s = f a s.
Proof. done. Qed.

(** The usual error postcondition: the file is as it was. *)
Definition failed (d : dev) (e : tee_result) (d' : dev) : Prop := same d d' ∧ fault d e.

Lemma failed_trans d d' e d'' : same d d' → failed d' e d'' → failed d e d''.
Proof. intros H [? Hf]. split; [by etrans|]. by apply (same_faults _ _ H). Qed.

(** ** get_node() *)

(** The nodes from [t + 1] to [id] added. *)
Definition grown (m m' : gmap Z htree_node) (t id : Z) : Prop :=
  ∀ i, m' !! i = if (t <? i) && (i <=? id) then Some new_node else m !! i.

Lemma get_node_loop_skip ht t n k :
  has_ids (nodes ht) t → 1 <= n → n + Z.of_nat k <= t + 1 →
  get_node_loop ht n k = mret ht.
Proof.
  intros Hs. revert n. induction k as [|k IH]; intros n Hn Hk; [done|].
  cbn [get_node_loop]. rewrite (find_closest_in _ t), Z.eqb_refl by (done || lia). apply IH; lia.
Qed.

Lemma get_node_loop_app ht n k1 k2 d :
  get_node_loop ht n (k1 + k2) d
  = (ht' ← get_node_loop ht n k1; get_node_loop ht' (n + Z.of_nat k1) k2) d.
Proof.
  revert ht n d. induction k1 as [|k1 IH]; intros ht n d.
  { unfold mbind, M_bind. simpl. by rewrite Z.add_0_r. }
  cbn [get_node_loop Nat.add].
  replace (n + Z.of_nat (S k1)) with (n + 1 + Z.of_nat k1) by lia.
  case_match; [by rewrite IH|].
  unfold mbind, M_bind in *.
  destruct (massert _ d) as [[] d1]; [|done|done].
  destruct (massert _ d1) as [[] d2]; [|done|done].
  destruct (ext d2) as [[] d3]; [|done|done]. apply IH.
Qed.

Lemma wp_get_node_loop_add ht m t k d :
  1 <= t → nodes ht = m → has_ids m t →
  wp (get_node_loop ht (t + 1) k)
    (λ ht' d', same d d' ∧ ∃ m', ht' = set_nodes ht m' ∧ grown m m' t (t + Z.of_nat k)
               ∧ has_ids m' (t + Z.of_nat k))
    (failed d) d.
Proof.
  revert ht m t d. induction k as [|k IH]; intros ht m t d Ht <- Hm.
  { cbn [get_node_loop]. wp_steps. split; [done|]. exists (nodes ht).
    rewrite Z.add_0_r. split; [by destruct ht|]. split; [|done]. intros i.
    destruct (Z.ltb_spec t i), (Z.leb_spec i t); simpl; done || lia. }
  cbn [get_node_loop].
  rewrite (find_closest_next ht t Hm Ht).
  destruct (Z.eqb_spec ((t + 1) / 2) (t + 1)); [dlia|].
  apply wp_bind, wp_assert; [apply Z.eqb_refl|].
  assert (nodes ht !! (t + 1) = None) as Hnone by (apply (has_ids_None _ t); [done|lia]).
  apply wp_bind, wp_assert; [by apply bool_decide_eq_true|].
  apply wp_bind, wp_ext; [|by split]. intros d1 Hd1.
  eapply wp_mono; [apply (IH _ (<[t + 1:=new_node]> (nodes ht))); [lia|done|]| |].
  - intros i. rewrite lookup_insert_is_Some, (Hm i). destruct (decide (t + 1 = i)); naive_solver lia.
  - cbv beta. intros ht' d' (Hd' & m' & -> & Hg & Hid). split; [by etrans|]. exists m'.
    replace (t + Z.of_nat (S k)) with (t + 1 + Z.of_nat k) by lia. split; [done|]. split; [|done].
    intros i. rewrite Hg. destruct (decide (t + 1 = i)) as [<- |].
    + rewrite lookup_insert_eq. destruct (Z.ltb_spec t (t + 1)), (Z.leb_spec (t + 1) (t + 1 + Z.of_nat k));
        try lia. rewrite (proj2 (Z.ltb_ge (t + 1) (t + 1))) by lia. done.
    + rewrite lookup_insert_ne by done.
      destruct (Z.ltb_spec (t + 1) i), (Z.ltb_spec t i); simpl; done || lia.
  - intros e d' Hf. by eapply failed_trans.
Qed.

(** The tree get_node() leaves. *)
Definition with_node (ht : tee_fs_htree) (m : gmap Z htree_node) (t id : Z) : tee_fs_htree :=
  let ht := set_nodes ht m in
  if (t <? id) && (max_node_id (imeta ht) <? id)
  then set_imeta ht (Imeta (length (imeta ht)) id) else ht.

(** get_node(): the nodes up to the one asked for are there afterwards. While a
    tree is read in, [max_node_id] is ahead of the nodes. *)
Lemma wp_get_node ht create t id d :
  has_ids (nodes ht) t → 1 <= t → 1 <= id < UINT32_MAX → (create = true ∨ id <= t) →
  wp (get_node ht create id)
    (λ ht' d', same d d' ∧ ∃ m, ht' = with_node ht m t id ∧ grown (nodes ht) m t id
       ∧ has_ids m (Z.max t id))
    (failed d) d.
Proof.
  intros Hs Ht Hid Hcr. unfold get_node, node_id_valid, with_node.
  apply wp_bind, wp_assert.
  { apply andb_true_intro. split; apply Z.ltb_lt; lia. }
  destruct (Z.leb_spec id t) as [Hle|Hgt].
  - rewrite (find_closest_in _ _ _ Hs), Z.eqb_refl by lia. wp_steps.
    split; [done|]. exists (nodes ht). rewrite (proj2 (Z.ltb_ge _ _)) by done.
    split; [by destruct ht|]. replace (Z.max t id) with t by lia. split; [|done].
    intros i. destruct (Z.ltb_spec t i), (Z.leb_spec i id); simpl; done || lia.
  - pose proof (find_closest_above ht t id Hs Ht Hgt) as Hc.
    destruct (Z.eqb_spec (find_closest_node ht id) id); [lia|].
    destruct Hcr as [-> |]; [|lia]. cbn [negb]. apply wp_bind.
    assert (Z.to_nat (id - find_closest_node ht id)
            = Z.to_nat (t - find_closest_node ht id) + Z.to_nat (id - t))%nat as -> by lia.
    eapply wp_eq; [rewrite get_node_loop_app, (get_node_loop_skip _ t) by (done || lia);
                   apply bind_ret_app|].
    replace (find_closest_node ht id + 1 + Z.of_nat (Z.to_nat (t - find_closest_node ht id)))
      with (t + 1) by lia.
    eapply wp_mono; [by apply (wp_get_node_loop_add ht (nodes ht) t)| |done].
    cbv beta. intros ht' d' (Hd & m' & -> & Hg & Hids). wp_steps.
    replace (t + Z.of_nat (Z.to_nat (id - t))) with id in Hg, Hids by lia.
    split; [done|]. exists m'. rewrite (proj2 (Z.ltb_lt t id)) by done. cbn.
    replace (Z.max t id) with id by lia. done.
Qed.

(** ** Subtrees *)

Definition under (r id : Z) : Prop := ∃ k : nat, id / 2 ^ Z.of_nat k = r.

Lemma under_refl r : under r r.
Proof. exists 0%nat. by rewrite Z.pow_0_r, Z.div_1_r. Qed.

Lemma under_le r id : 1 <= r → under r id → r <= id.
Proof.
  intros Hr [k <-]. pose proof (Z.pow_pos_nonneg 2 (Z.of_nat k)).
  assert (0 <= id). { destruct (Z.leb_spec 0 id); [done|]. pose proof (Z.div_lt_upper_bound id (2 ^ Z.of_nat k) 0). lia. }
  apply Z.div_le_upper_bound; [lia|]. nia.
Qed.

Lemma under_up r id : under r id → under (r / 2) id.
Proof.
  intros [k <-]. exists (S k).
  by rewrite Nat2Z.inj_succ, Z.pow_succ_r, Z.mul_comm, <- Z.div_div by lia.
Qed.

Lemma under_parent r id : under r id → id = r ∨ under r (id / 2).
Proof.
  intros [[|k] <-]; [left; by rewrite Z.pow_0_r, Z.div_1_r|].
  right. exists k. rewrite Nat2Z.inj_succ, Z.pow_succ_r, <- Z.div_div by lia. done.
Qed.

Lemma under_down r id : under r (id / 2) → under r id.
Proof.
  intros [k <-]. exists (S k). by rewrite Nat2Z.inj_succ, Z.pow_succ_r, <- Z.div_div by lia.
Qed.

Lemma under_split r id : under r id → id = r ∨ under (2 * r) id ∨ under (2 * r + 1) id.
Proof.
  intros [k <-]. destruct k as [|k]; [left; by rewrite Z.pow_0_r, Z.div_1_r|right].
  rewrite Nat2Z.inj_succ, Z.pow_succ_r, (Z.mul_comm 2 (2 ^ Z.of_nat k)), <- Z.div_div by lia.
  set (x := id / 2 ^ Z.of_nat k). assert (x = 2 * (x / 2) ∨ x = 2 * (x / 2) + 1) as [Hx|Hx] by dlia.
  - left. exists k. fold x. done.
  - right. exists k. fold x. done.
Qed.

Lemma under_left r id : under (2 * r) id → under r id.
Proof. intros H. apply under_up in H. by replace (2 * r / 2) with r in H by dlia. Qed.
Lemma under_right r id : under (2 * r + 1) id → under r id.
Proof. intros H. apply under_up in H. by replace ((2 * r + 1) / 2) with r in H by dlia. Qed.

Lemma under_dec r id : 1 <= r → under r id ∨ ¬ under r id.
Proof.
  intros Hr. destruct (decide (Exists (λ k : nat, id / 2 ^ Z.of_nat k = r) (seq 0 (Z.to_nat (id + 1)))))
    as [He|He].
  - left. apply Exists_exists in He as (k & _ & Hk). by exists k.
  - right. intros Hu. pose proof (under_le r id Hr Hu). destruct Hu as [k Hk].
    apply He, Exists_exists. exists k. split; [|done]. apply elem_of_seq. split; [lia|].
    destruct (Nat.ltb_spec k (0 + Z.to_nat (id + 1))); [done|]. exfalso.
    assert (id < 2 ^ Z.of_nat k) by (eapply Z.lt_le_trans; [apply (Z.pow_gt_lin_r 2)|apply Z.pow_le_mono_r]; lia).
    rewrite Z.div_small in Hk; lia.
Qed.

(** Two ids on one path are prefixes of each other. *)
Lemma under_linear r1 r2 id : under r1 id → under r2 id → under r1 r2 ∨ under r2 r1.
Proof.
  intros [k1 <-] [k2 <-].
  assert (∀ a b, (a <= b)%nat → under (id / 2 ^ Z.of_nat b) (id / 2 ^ Z.of_nat a)) as H.
  { intros a b Hab. exists (b - a)%nat. rewrite Z.div_div by lia.
    rewrite <- Z.pow_add_r by lia. do 2 f_equal. lia. }
  destruct (Nat.le_ge_cases k1 k2); [right|left]; auto.
Qed.

Lemma under_disjoint r id : 1 <= r → under (2 * r) id → ¬ under (2 * r + 1) id.
Proof.
  intros Hr H1 H2. destruct (under_linear _ _ _ H1 H2) as [H|H].
  - apply under_parent in H as [H|H]; [lia|]. replace ((2 * r + 1) / 2) with r in H by dlia.
    apply under_le in H; lia.
  - apply under_le in H; lia.
Qed.

(** ** Versions

    The version of a node its parent's flags (the counter for the root) name. *)

Definition child_bit (fl id : Z) : bool := Z.testbit fl (HTREE_NODE_COMMITTED_CHILD (id mod 2)).

Definition node_vers (rv : bool) (m : gmap Z htree_node) (id : Z) : bool :=
  if id =? 1 then rv
  else match m !! (id / 2) with Some p => child_bit (flags (node p)) id | None => false end.

Definition root_vers (ht : tee_fs_htree) : bool := Z.testbit (counter (head ht)) 0.

Lemma testbit_toggle fl b c : 0 <= b → 0 <= c →
  Z.testbit (toggle fl b) c = xorb (Z.testbit fl c) (b =? c).
Proof.
  intros Hb Hc. unfold toggle. rewrite Z.lxor_spec, Z.shiftl_spec by done. f_equal.
  destruct (Z.eqb_spec b c) as [-> |].
  - by rewrite Z.sub_diag.
  - destruct (Z.ltb_spec c b); [by apply Z.testbit_neg_r; lia|].
    apply (Z.bits_above_log2 1); simpl; lia.
Qed.

Lemma child_bit_toggle fl a b :
  child_bit (toggle fl (HTREE_NODE_COMMITTED_CHILD (a mod 2))) b
  = xorb (child_bit fl b) (a mod 2 =? b mod 2).
Proof.
  unfold child_bit, HTREE_NODE_COMMITTED_CHILD. rewrite testbit_toggle by dlia. f_equal.
  destruct (Z.eqb_spec (a mod 2) (b mod 2)), (Z.eqb_spec (1 + a mod 2) (1 + b mod 2)); lia.
Qed.

(** The effect of writing node [r] on its parent. *)
Definition toggled (r : Z) (p : htree_node) : htree_node :=
  HNode true (block_updated p)
    (NodeImage (hash (node p)) (n_iv (node p)) (n_tag (node p))
       (toggle (flags (node p)) (HTREE_NODE_COMMITTED_CHILD (r mod 2)))).

Definition mark (b : bool) (r : Z) (m : gmap Z htree_node) : gmap Z htree_node :=
  if b && negb (r =? 1) then alter (toggled r) (r / 2) m else m.

Lemma mark_ne b r m id : id ≠ r / 2 → mark b r m !! id = m !! id.
Proof. intros. unfold mark. case_match; [|done]. by apply lookup_alter_ne. Qed.

Lemma mark_parent b r m :
  mark b r m !! (r / 2) = if b && negb (r =? 1) then toggled r <$> m !! (r / 2) else m !! (r / 2).
Proof. unfold mark. case_match; [|done]. apply lookup_alter_eq. Qed.

Lemma mark_ext b r m m' id : m !! id = m' !! id → mark b r m !! id = mark b r m' !! id.
Proof.
  intros H. unfold mark. case_match; [|done].
  destruct (decide (r / 2 = id)) as [<- |].
  - by rewrite !lookup_alter_eq, H.
  - by rewrite !lookup_alter_ne.
Qed.

Lemma mark_is_Some b r m id : is_Some (mark b r m !! id) ↔ is_Some (m !! id).
Proof. unfold mark. case_match; [|done]. by rewrite lookup_alter_is_Some. Qed.

Lemma node_vers_ext rv m m' id :
  (id ≠ 1 → m !! (id / 2) = m' !! (id / 2)) → node_vers rv m id = node_vers rv m' id.
Proof. unfold node_vers. intros H. destruct (Z.eqb_spec id 1); [done|]. by rewrite H. Qed.

Lemma node_vers_mark rv b r m id :
  1 <= id → 1 <= r → is_Some (m !! (r / 2)) ∨ r = 1 →
  node_vers rv (mark b r m) id
  = xorb (node_vers rv m id) (b && (id =? r) && negb (r =? 1)).
Proof.
  intros Hid Hr Hp. unfold node_vers. destruct (Z.eqb_spec id 1) as [-> |Hid1].
  { destruct (Z.eqb_spec 1 r) as [<- |]; simpl; by rewrite ?andb_false_r, ?xorb_false_r. }
  destruct (Z.eqb_spec r 1) as [-> |Hr1].
  { unfold mark. simpl. by rewrite ?andb_false_r, xorb_false_r. }
  destruct (decide (id / 2 = r / 2)) as [He|He].
  - rewrite He, mark_parent. destruct (Z.eqb_spec r 1) as [|_]; [done|].
    destruct Hp as [[p Hp]|]; [|done]. rewrite Hp.
    destruct b; simpl; [|by rewrite xorb_false_r].
    rewrite child_bit_toggle. f_equal.
    destruct (Z.eqb_spec (r mod 2) (id mod 2)), (Z.eqb_spec id r); simpl; dlia.
  - rewrite mark_ne by done. destruct (Z.eqb_spec id r); [congruence|].
    by rewrite andb_false_r, xorb_false_r.
Qed.

(** ** Settled nodes *)

Section with_crypto.
Context `{Crypto}.

Definition valid (ht : tee_fs_htree) (id : Z) (n : htree_node) : Prop :=
  hash (node n) = sha256 (node_input ht id (id =? 1) (node n)).

(** Node [id] is unchanged since its image [n] was written, and the image is the
    version its parent names. *)
Record settled (ht : tee_fs_htree) (d : dev) (rv : bool) (id : Z) (n : htree_node) : Prop := {
  settled_clean : n_dirty n = false;
  settled_upd : block_updated n = false;
  settled_valid : valid ht id n;
  settled_stored : d_nodes d !! (id, node_vers rv (nodes ht) id) = Some (node n);
}.

Lemma valid_ext ht ht' id n :
  child_hash ht (2 * id) = child_hash ht' (2 * id) →
  child_hash ht (2 * id + 1) = child_hash ht' (2 * id + 1) →
  length (imeta ht) = length (imeta ht') →
  valid ht id n → valid ht' id n.
Proof. unfold valid, node_input. by intros -> -> ->. Qed.

Lemma child_hash_ext ht ht' id :
  nodes ht !! id = nodes ht' !! id → child_hash ht id = child_hash ht' id.
Proof. unfold child_hash. by intros ->. Qed.

Lemma settled_ext ht ht' d d' rv rv' id n :
  settled ht d rv id n →
  nodes ht !! (2 * id) = nodes ht' !! (2 * id) →
  nodes ht !! (2 * id + 1) = nodes ht' !! (2 * id + 1) →
  imeta ht = imeta ht' →
  node_vers rv' (nodes ht') id = node_vers rv (nodes ht) id →
  d_nodes d' !! (id, node_vers rv (nodes ht) id) = d_nodes d !! (id, node_vers rv (nodes ht) id) →
  settled ht' d' rv' id n.
Proof.
  intros [??? Hst] H1 H2 Hm Hv Hd. constructor; try done.
  - apply (valid_ext ht); [by apply child_hash_ext..|by rewrite Hm|done].
  - by rewrite Hv, Hd.
Qed.

(** What a write of a node leaves alone: the block's version, iv and tag. *)
Definition same_data (n n' : htree_node) : Prop :=
  n_iv (node n') = n_iv (node n) ∧ n_tag (node n') = n_tag (node n)
  ∧ Z.testbit (flags (node n')) HTREE_NODE_COMMITTED_BLOCK
    = Z.testbit (flags (node n)) HTREE_NODE_COMMITTED_BLOCK.

#[export] Instance same_data_refl : Reflexive same_data.
Proof. by repeat split. Qed.
#[export] Instance same_data_trans : Transitive same_data.
Proof. intros x y z (?&?&?) (?&?&?). repeat split; congruence. Qed.

Lemma same_data_toggled r n : same_data n (toggled r n).
Proof.
  repeat split. cbn [toggled node flags]. unfold HTREE_NODE_COMMITTED_CHILD, HTREE_NODE_COMMITTED_BLOCK.
  rewrite testbit_toggle by dlia. destruct (Z.eqb_spec (1 + r mod 2) 0); [dlia|].
  by rewrite xorb_false_r.
Qed.

(** Before the traversal of the subtree of [r]: a node that is not marked is
    settled, save that a changed child may have outdated its hash. *)
Record sync_pre (ht : tee_fs_htree) (d : dev) (r : Z) : Prop := {
  pre_clean : ∀ id n, under r id → nodes ht !! id = Some n → n_dirty n = false →
    d_nodes d !! (id, node_vers (root_vers ht) (nodes ht) id) = Some (node n)
    ∧ (valid ht id n ∨ ∃ c nc, (c = 2 * id ∨ c = 2 * id + 1)
         ∧ nodes ht !! c = Some nc ∧ n_dirty nc = true);
  pre_upd : ∀ id n, under r id → nodes ht !! id = Some n → block_updated n = true → n_dirty n = true;
}.

(** The file after it: only nodes of the subtree have been written, and never the
    version that was current. *)
Record sync_disk (ht : tee_fs_htree) (r : Z) (d d' : dev) : Prop := {
  sd_heads : d_heads d' = d_heads d;
  sd_blocks : d_blocks d' = d_blocks d;
  sd_faults e : fault d' e → fault d e;
  sd_nodes : ∀ id v, ¬ under r id ∨ v = node_vers (root_vers ht) (nodes ht) id →
    d_nodes d' !! (id, v) = d_nodes d !! (id, v);
  sd_keep : ∀ k, is_Some (d_nodes d !! k) → is_Some (d_nodes d' !! k);
}.

(** The tree after it; [b] says that there was something to write. *)
Record sync_post (ht : tee_fs_htree) (d : dev) (r : Z) (b : bool) (m : gmap Z htree_node)
    (d' : dev) : Prop := {
  post_ids : ∀ id, is_Some (m !! id) ↔ is_Some (nodes ht !! id);
  post_outside : ∀ id, ¬ under r id → m !! id = mark b r (nodes ht) !! id;
  post_idle : b = false → m = nodes ht
    ∧ ∀ id n, under r id → nodes ht !! id = Some n → n_dirty n = false;
  post_settled : ∀ id n', under r id → m !! id = Some n' →
    settled (set_nodes ht m) d' (xorb (b && (r =? 1)) (root_vers ht)) id n';
  post_data : ∀ id n', m !! id = Some n' → ∃ n, nodes ht !! id = Some n ∧ same_data n n';
  post_disk : sync_disk ht r d d';
}.

Definition sync_failed (ht : tee_fs_htree) (r : Z) (d : dev) (e : tee_result) (d' : dev) : Prop :=
  sync_disk ht r d d' ∧ fault d e.

Lemma sync_disk_refl ht r d : sync_disk ht r d d.
Proof. by constructor. Qed.

Lemma sync_disk_same ht r d d' d'' : sync_disk ht r d d' → same d' d'' → sync_disk ht r d d''.
Proof.
  intros [H1 H2 H3 H4 H5] [G1 G2 G3 G4]. constructor; try congruence; [auto| |].
  - intros. rewrite G2. auto.
  - intros. rewrite G2. auto.
Qed.

Lemma sync_disk_same_l ht r d d' d'' : same d d' → sync_disk ht r d' d'' → sync_disk ht r d d''.
Proof.
  intros [G1 G2 G3 G4] [H1 H2 H3 H4 H5]. constructor; try congruence; [auto| |].
  - intros. rewrite <- G2. auto.
  - intros k Hk. apply H5. by rewrite G2.
Qed.

(** An absent subtree. *)
Lemma sync_absent ht d r :
  has_ids (nodes ht) (top ht) → 1 <= r → nodes ht !! r = None →
  sync_post ht d r false (nodes ht) d.
Proof.
  intros Hs Hr Hn.
  assert (∀ id, under r id → nodes ht !! id = None) as Habs.
  { intros id Hu. apply under_le in Hu; [|done]. apply (has_ids_None _ _ _ Hs).
    assert (¬ (1 <= r <= top ht)) by (rewrite <- (Hs r), Hn; by intros [? ?]). lia. }
  constructor; try done.
  - split; [done|]. intros id n Hu. by rewrite (Habs id Hu).
  - intros id n' Hu. by rewrite (Habs id Hu).
  - intros id n' Hid. by exists n'.
Qed.

(** The root of the other subtree is the only node both know. *)
Lemma under_right_ne r id : 1 <= r → under (2 * r + 1) id → id ≠ r ∧ id ≠ 2 * r ∧ 1 < id.
Proof.
  intros Hr Hu. pose proof (under_le (2 * r + 1) id ltac:(lia) Hu). lia.
Qed.

Lemma half_left r : 2 * r / 2 = r.
Proof. dlia. Qed.
Lemma half_right r : (2 * r + 1) / 2 = r.
Proof. dlia. Qed.

Lemma sync_pre_left ht d r : sync_pre ht d r → sync_pre ht d (2 * r).
Proof.
  intros [H1 H2]. constructor; intros id n Hu.
  - apply H1. by apply under_left.
  - apply H2. by apply under_left.
Qed.

Lemma post_vers_right ht d r b1 m1 d1 id rv :
  1 <= r → is_Some (nodes ht !! r) → sync_post ht d (2 * r) b1 m1 d1 → under (2 * r + 1) id →
  node_vers rv m1 id = node_vers rv (nodes ht) id.
Proof.
  intros Hr Hin Hp Hu. destruct (under_right_ne r id Hr Hu) as (? & ? & ?).
  rewrite <- (node_vers_ext _ (mark b1 (2 * r) (nodes ht))).
  - rewrite node_vers_mark by (rewrite ?half_left; auto; lia).
    destruct (Z.eqb_spec id (2 * r)); [lia|]. by rewrite andb_false_r, xorb_false_r.
  - intros _. apply eq_sym, (post_outside _ _ _ _ _ _ Hp). intros Hl.
    apply under_down in Hl. by apply (under_disjoint r id).
Qed.

Lemma sync_pre_right ht d r b1 m1 d1 :
  1 <= r → is_Some (nodes ht !! r) → sync_pre ht d r →
  sync_post ht d (2 * r) b1 m1 d1 → sync_pre (set_nodes ht m1) d1 (2 * r + 1).
Proof.
  intros Hr Hin [H1 H2] Hp.
  assert (∀ id, under (2 * r + 1) id → m1 !! id = nodes ht !! id) as Hsame.
  { intros id Hu. rewrite (post_outside _ _ _ _ _ _ Hp).
    - rewrite mark_ne; [done|]. rewrite half_left. by apply under_right_ne.
    - intros Hl. by apply (under_disjoint r id). }
  constructor; intros id n Hu; cbn [set_nodes nodes]; rewrite Hsame by done.
  - intros Hn Hd. destruct (H1 id n) as [Hst Hv]; [by apply under_right|done|done|].
    destruct (under_right_ne r id Hr Hu) as (? & ? & ?).
    pose proof (post_vers_right ht d r b1 m1 d1 id (root_vers ht) Hr Hin Hp Hu) as Hvers.
    split.
    + change (root_vers (set_nodes ht m1)) with (root_vers ht). rewrite Hvers.
      rewrite (sd_nodes _ _ _ _ (post_disk _ _ _ _ _ _ Hp)); [done|by right].
    + assert (∀ c, c = 2 * id ∨ c = 2 * id + 1 → m1 !! c = nodes ht !! c) as Hc.
      { intros c Hc. apply Hsame, under_down. replace (c / 2) with id by dlia. done. }
      destruct Hv as [Hv|(c & nc & Hcc & Hnc & Hdc)].
      * left. apply (valid_ext ht); [apply child_hash_ext; symmetry; apply Hc; auto..|done|done].
      * right. exists c, nc. cbn [set_nodes nodes]. rewrite Hc by done. done.
  - intros Hn. apply (H2 id n); [by apply under_right|done].
Qed.

(** Both subtrees of [r] after their traversal. *)
Record children_post (ht : tee_fs_htree) (d : dev) (r : Z) (b : bool) (m : gmap Z htree_node)
    (d' : dev) : Prop := {
  ch_ids : ∀ id, is_Some (m !! id) ↔ is_Some (nodes ht !! id);
  ch_outside : ∀ id, ¬ under r id → m !! id = nodes ht !! id;
  ch_root : ∀ n n', nodes ht !! r = Some n → m !! r = Some n' →
    n_dirty n' = n_dirty n || b ∧ block_updated n' = block_updated n;
  ch_idle : b = false → m = nodes ht
    ∧ ∀ id n, under r id → id ≠ r → nodes ht !! id = Some n → n_dirty n = false;
  ch_settled : ∀ id n', under r id → id ≠ r → m !! id = Some n' →
    settled (set_nodes ht m) d' (root_vers ht) id n';
  ch_data : ∀ id n', m !! id = Some n' → ∃ n, nodes ht !! id = Some n ∧ same_data n n';
  ch_disk : sync_disk ht r d d';
  ch_disk_root : ∀ v, d_nodes d' !! (r, v) = d_nodes d !! (r, v);
}.

Lemma sync_disk_left ht r d d' : sync_disk ht (2 * r) d d' → sync_disk ht r d d'.
Proof.
  intros [A1 A2 A3 A4 A5]. constructor; try done. intros id v [Hv|Hv]; apply A4; [|by right].
  left. intros ?. by apply Hv, under_left.
Qed.

Lemma sync_disk_right ht d r b1 m1 d1 d2 :
  1 <= r → is_Some (nodes ht !! r) → sync_post ht d (2 * r) b1 m1 d1 →
  sync_disk (set_nodes ht m1) (2 * r + 1) d1 d2 → sync_disk ht r d d2.
Proof.
  intros Hr Hin P1 [B1 B2 B3 B4 B5].
  destruct (sync_disk_left _ _ _ _ (post_disk _ _ _ _ _ _ P1)) as [A1 A2 A3 A4 A5].
  constructor; try congruence; [auto| |auto]. intros id v Hv. rewrite B4, A4; [done|done|].
  destruct Hv as [Hv| ->]; [left; intros ?; by apply Hv, under_right|].
  destruct (under_dec (2 * r + 1) id ltac:(lia)) as [Hu|]; [right|by left].
  symmetry. by apply (post_vers_right ht d r b1 m1 d1 id).
Qed.

Lemma sync_children ht d r b1 m1 d1 b2 m2 d2 :
  1 <= r → is_Some (nodes ht !! r) →
  sync_post ht d (2 * r) b1 m1 d1 →
  sync_post (set_nodes ht m1) d1 (2 * r + 1) b2 m2 d2 →
  children_post ht d r (b1 || b2) m2 d2.
Proof.
  intros Hr Hin P1 P2. set (m := nodes ht) in *.
  assert (∀ id, ¬ under (2 * r) id → m1 !! id = mark b1 (2 * r) m !! id) as O1
    by apply (post_outside _ _ _ _ _ _ P1).
  assert (∀ id, ¬ under (2 * r + 1) id → m2 !! id = mark b2 (2 * r + 1) m1 !! id) as O2
    by apply (post_outside _ _ _ _ _ _ P2).
  assert (¬ under (2 * r) r ∧ ¬ under (2 * r + 1) r) as [N1 N2].
  { split; intros Hu; apply under_le in Hu; lia. }
  assert (m2 !! r = mark b2 (2 * r + 1) (mark b1 (2 * r) m) !! r) as Hroot.
  { rewrite O2 by done. by apply mark_ext, O1. }
  assert (∀ id, under (2 * r) id → m2 !! id = m1 !! id) as S2.
  { intros id Hu. rewrite O2 by (intros ?; by apply (under_disjoint r id)).
    apply mark_ne. rewrite half_right. apply under_le in Hu; lia. }
  assert (∀ id, 1 <= id → id ≠ 2 * r + 1 → ¬ under (2 * r + 1) (id / 2) →
    ∀ rv, node_vers rv m2 id = node_vers rv m1 id) as V2.
  { intros id H1 Hne Hu rv. rewrite (node_vers_ext _ m2 (mark b2 (2 * r + 1) m1)) by auto.
    rewrite node_vers_mark; [|done|lia|].
    - destruct (Z.eqb_spec id (2 * r + 1)); [done|]. by rewrite andb_false_r, xorb_false_r.
    - left. rewrite half_right. by apply (post_ids _ _ _ _ _ _ P1). }
  constructor.
  - intros id. rewrite (post_ids _ _ _ _ _ _ P2). apply (post_ids _ _ _ _ _ _ P1).
  - intros id Hu. assert (id ≠ r) by (intros ->; by apply Hu, under_refl).
    rewrite O2, mark_ne, O1, mark_ne; rewrite ?half_left, ?half_right; try done.
    + intros ?. by apply Hu, under_left.
    + intros ?. by apply Hu, under_right.
  - intros n n'. fold m. rewrite Hroot. intros Hn.
    assert (∀ b c p, c / 2 = r → c ≠ 1 → mark b c p !! r = (if b then toggled c else id) <$> p !! r) as Hmk.
    { intros b c p <- Hc. rewrite mark_parent. destruct (Z.eqb_spec c 1); [done|].
      destruct b; [done|]. simpl. by destruct (p !! (c / 2)). }
    rewrite Hmk, Hmk, Hn by (rewrite ?half_left, ?half_right; lia || done).
    destruct b1, b2; simpl; intros [= <-]; simpl; by rewrite ?orb_true_r, ?orb_false_r.
  - intros [-> ->]%orb_false_iff.
    destruct (post_idle _ _ _ _ _ _ P1 eq_refl) as [E1 C1].
    destruct (post_idle _ _ _ _ _ _ P2 eq_refl) as [E2 C2].
    cbn [set_nodes nodes] in E2, C2. split; [by rewrite E2, E1|].
    intros id n [|[Hu|Hu]]%under_split Hne Hn; [done|by eapply C1|].
    apply (C2 id n Hu). by rewrite E1.
  - intros id n' [|[Hu|Hu]]%under_split Hne; [done| |].
    + rewrite S2 by done. intros Hn.
      pose proof (post_settled _ _ _ _ _ _ P1 id n' Hu Hn) as Hset.
      assert (1 < id) by (apply under_le in Hu; lia).
      replace (xorb _ _) with (root_vers ht) in Hset
        by (destruct (Z.eqb_spec (2 * r) 1); [lia|]; by rewrite andb_false_r, xorb_false_l).
      assert (¬ under (2 * r + 1) id) by (intros ?; by apply (under_disjoint r id)).
      eapply settled_ext; [done|..]; cbn [set_nodes nodes].
      * symmetry. apply S2, under_down. by replace (2 * id / 2) with id by dlia.
      * symmetry. apply S2, under_down. by replace ((2 * id + 1) / 2) with id by dlia.
      * done.
      * apply V2; [lia|apply under_le in Hu as ?; [|lia]|].
        { intros ->. by apply H1, under_refl. }
        intros Hu'. by apply H1, under_down.
      * apply (sd_nodes _ _ _ _ (post_disk _ _ _ _ _ _ P2)). by left.
    + intros Hn. pose proof (post_settled _ _ _ _ _ _ P2 id n' Hu Hn) as Hset.
      replace (xorb _ _) with (root_vers ht) in Hset; [done|].
      destruct (Z.eqb_spec (2 * r + 1) 1); [lia|]. by rewrite andb_false_r, xorb_false_l.
  - intros id n' Hn. destruct (post_data _ _ _ _ _ _ P2 id n' Hn) as (n1 & Hn1 & Hs1).
    destruct (post_data _ _ _ _ _ _ P1 id n1 Hn1) as (n & Hn0 & Hs0).
    exists n. split; [done|]. by etrans.
  - eapply sync_disk_right; [done..|]. apply P2.
  - intros v. rewrite (sd_nodes _ _ _ _ (post_disk _ _ _ _ _ _ P2)) by (by left).
    apply (sd_nodes _ _ _ _ (post_disk _ _ _ _ _ _ P1)). by left.
Qed.

(** A node that is not marked after its subtrees is settled. *)
Lemma sync_node_idle ht d r b m d' n' :
  1 <= r → sync_pre ht d r → children_post ht d r b m d' →
  m !! r = Some n' → n_dirty n' = false → sync_post ht d r false m d'.
Proof.
  intros Hr [Hpre Hupd] P Hn' Hdirty.
  destruct (proj1 (ch_ids _ _ _ _ _ _ P r) ltac:(eauto)) as [n Hn].
  destruct (ch_root _ _ _ _ _ _ P n n' Hn Hn') as [Hd _].
  rewrite Hdirty in Hd. symmetry in Hd. apply orb_false_iff in Hd as [Hnd ->].
  destruct (ch_idle _ _ _ _ _ _ P eq_refl) as [-> Hidle]. assert (n' = n) as -> by congruence.
  destruct (Hpre r n (under_refl r) Hn Hdirty) as [Hst Hv].
  constructor.
  - done.
  - done.
  - intros _. split; [done|]. intros id k Hu Hk. destruct (decide (id = r)) as [-> |]; [congruence|].
    by eapply Hidle.
  - intros id k Hu Hk. destruct (decide (id = r)) as [-> |]; [|by apply (ch_settled _ _ _ _ _ _ P)].
    assert (k = n) as -> by congruence. constructor; [done| | |].
    + destruct (block_updated n) eqn:E; [|done]. by rewrite (Hupd r n (under_refl r) Hn E) in Hdirty.
    + destruct Hv as [|(c & nc & Hc & Hnc & Hdc)]; [done|exfalso].
      rewrite (Hidle c nc) in Hdc; [done| |lia|done].
      destruct Hc as [-> | ->]; [apply under_left|apply under_right]; apply under_refl.
    + cbn. rewrite (ch_disk_root _ _ _ _ _ _ P). done.
  - intros id k Hk. by exists k.
  - apply P.
Qed.

(** The image htree_sync_node_to_storage() writes. *)
Definition synced_image (ht : tee_fs_htree) (id : Z) (n : htree_node) : tee_fs_htree_node_image :=
  NodeImage (sha256 (node_input ht id (id =? 1) (node n))) (n_iv (node n)) (n_tag (node n))
    (flags (node n)).

Definition synced_nodes (ht : tee_fs_htree) (m : gmap Z htree_node) (r : Z) (n : htree_node)
    : gmap Z htree_node :=
  alter (λ _, HNode false false (synced_image (set_nodes ht m) r n)) r (mark true r m).

Lemma synced_nodes_ne ht m r n id : id ≠ r → synced_nodes ht m r n !! id = mark true r m !! id.
Proof. intros. by apply lookup_alter_ne. Qed.

Lemma synced_nodes_eq ht m r n :
  1 <= r → is_Some (m !! r) →
  synced_nodes ht m r n !! r = Some (HNode false false (synced_image (set_nodes ht m) r n)).
Proof.
  intros Hr [x Hx]. unfold synced_nodes. rewrite lookup_alter_eq, mark_ne by dlia. by rewrite Hx.
Qed.

Lemma synced_nodes_vers ht m r n id rv :
  1 <= r → 1 <= id → is_Some (m !! r) → m !! r = Some n → is_Some (m !! (r / 2)) ∨ r = 1 →
  node_vers rv (synced_nodes ht m r n) id
  = xorb (node_vers rv m id) ((id =? r) && negb (r =? 1)).
Proof.
  intros Hr Hid Hin Hn Hp.
  transitivity (node_vers rv (mark true r m) id); [|by apply (node_vers_mark rv true)].
  unfold node_vers. destruct (Z.eqb_spec id 1); [done|].
  destruct (decide (id / 2 = r)) as [E|E]; [|by rewrite synced_nodes_ne].
  rewrite E, synced_nodes_eq by done. rewrite mark_ne by dlia. by rewrite Hn.
Qed.

Lemma sync_node_written ht d r b m d' n d'' :
  1 <= r → children_post ht d r b m d' → m !! r = Some n →
  is_Some (m !! (r / 2)) ∨ r = 1 → same d' d'' →
  let vers := negb (node_vers (root_vers ht) (nodes ht) r) in
  sync_post ht d r true (synced_nodes ht m r n)
    (set_dnodes d'' (<[(r, vers) := synced_image (set_nodes ht m) r n]> (d_nodes d''))).
Proof.
  intros Hr P Hn Hp Hsame vers. set (m' := synced_nodes ht m r n). set (im := synced_image _ _ _).
  assert (is_Some (m !! r)) as Hin by eauto.
  assert (m' !! r = Some (HNode false false im)) as Hm'r by by apply synced_nodes_eq.
  assert (∀ id, under r id → id ≠ r → m' !! id = m !! id) as Hm'.
  { intros id Hu Hne. unfold m'. rewrite synced_nodes_ne by done. apply mark_ne.
    apply under_le in Hu; [dlia|lia]. }
  assert (∀ c id, under r id → c / 2 = id → m !! c = m' !! c) as Hch.
  { intros c id Hu <-. symmetry. apply Hm'; [by apply under_down|]. apply under_le in Hu; [dlia|lia]. }
  assert (node_vers (root_vers ht) m r = node_vers (root_vers ht) (nodes ht) r) as Hvr.
  { apply node_vers_ext. intros _. apply (ch_outside _ _ _ _ _ _ P). intros Hu.
    apply under_le in Hu; [dlia|lia]. }
  constructor.
  - intros id. rewrite <- (ch_ids _ _ _ _ _ _ P id). unfold m', synced_nodes.
    rewrite lookup_alter_is_Some. apply mark_is_Some.
  - intros id Hu. assert (id ≠ r) by (intros ->; by apply Hu, under_refl).
    unfold m'. rewrite synced_nodes_ne by done. apply mark_ext. by apply (ch_outside _ _ _ _ _ _ P).
  - done.
  - intros id k Hu Hk. destruct (decide (id = r)) as [-> |Hne].
    + assert (k = HNode false false im) as -> by congruence. constructor; [done|done| |].
      * unfold valid. cbn [node im synced_image hash]. f_equal. unfold node_input.
        rewrite (child_hash_ext (set_nodes ht m) (set_nodes ht m') (2 * r)),
          (child_hash_ext (set_nodes ht m) (set_nodes ht m') (2 * r + 1)); [done|..];
          apply (Hch _ r (under_refl r)); dlia.
      * cbn [set_nodes nodes set_dnodes d_nodes]. unfold m'.
        rewrite (synced_nodes_vers _ _ _ _ _ _ Hr Hr Hin Hn Hp), Z.eqb_refl.
        replace (xorb _ _) with vers; [apply lookup_insert_eq|]. unfold vers.
        destruct (Z.eqb_spec r 1) as [-> |]; cbn; [by rewrite xorb_false_r|].
        rewrite xorb_true_r. f_equal. symmetry. exact Hvr.
    + rewrite Hm' in Hk by done. pose proof (ch_settled _ _ _ _ _ _ P id k Hu Hne Hk) as Hset.
      assert (1 <= id) as Hid1 by (apply under_le in Hu; lia).
      eapply settled_ext; [done|..]; cbn [set_nodes nodes set_dnodes d_nodes].
      * apply (Hch _ id Hu). dlia.
      * apply (Hch _ id Hu). dlia.
      * done.
      * unfold m'. rewrite (synced_nodes_vers _ _ _ _ _ _ Hr Hid1 Hin Hn Hp).
        destruct (Z.eqb_spec id r); [done|]. cbn. rewrite xorb_false_r.
        unfold node_vers. destruct (Z.eqb_spec id 1); [|done].
        apply under_le in Hu; lia.
      * rewrite lookup_insert_ne by congruence. by rewrite (same_nodes _ _ Hsame).
  - intros id k. destruct (decide (id = r)) as [-> |Hne].
    + rewrite Hm'r. intros [= <-]. destruct (ch_data _ _ _ _ _ _ P r n Hn) as (n0 & Hn0 & Hs).
      exists n0. by split.
    + unfold m'. rewrite synced_nodes_ne by done.
      assert (∀ x, m !! id = Some x → ∃ n0, nodes ht !! id = Some n0 ∧ same_data n0 x) as Hd
        by apply (ch_data _ _ _ _ _ _ P).
      unfold mark. destruct (true && _); [|apply Hd].
      destruct (decide (r / 2 = id)) as [<- |]; [|rewrite lookup_alter_ne by done; apply Hd].
      rewrite lookup_alter_eq. destruct (m !! (r / 2)) as [x|] eqn:E; [|done]. intros [= <-].
      destruct (Hd x eq_refl) as (n0 & Hn0 & Hs). exists n0. split; [done|].
      etrans; [done|]. apply same_data_toggled.
  - pose proof (sync_disk_same _ _ _ _ _ (ch_disk _ _ _ _ _ _ P) Hsame) as [A1 A2 A3 A4 A5].
    constructor; [done|done|done| |].
    2: { intros k Hk. cbn [set_dnodes d_nodes]. destruct (decide ((r, vers) = k)) as [<- |].
         - rewrite lookup_insert_eq. by eexists.
         - rewrite lookup_insert_ne by done. by apply A5. }
    intros id v Hv. cbn [set_dnodes d_nodes].
    rewrite lookup_insert_ne; [by apply A4|]. intros [= -> ?]. subst v.
    destruct Hv as [Hv|Hv]; [by apply Hv, under_refl|].
    unfold vers in Hv. by destruct (node_vers (root_vers ht) (nodes ht) id).
Qed.

Lemma wp_calc_node_hash ht id n (Q : _ → dev → Prop) R d :
  (∀ d', same d d' → Q (sha256 (node_input ht id (id =? 1) n)) d') →
  (∀ e d', same d d' → fault d e → R e d') →
  wp (calc_node_hash ht id n) Q R d.
Proof. intros HQ HR. unfold calc_node_hash. apply wp_bind, wp_ext; [|done]. intros. by apply HQ. Qed.

(** From here on the write of node [r] with the version settled. *)
Lemma wp_sync_write ht d r b m d0 n v htb :
  1 <= r → children_post ht d r b m d0 → m !! r = Some n →
  is_Some (m !! (r / 2)) ∨ r = 1 →
  htb = set_nodes ht (mark true r m) →
  v = negb (node_vers (root_vers ht) (nodes ht) r) →
  wp (digest ← calc_node_hash htb r (node n);
      let image := NodeImage digest (n_iv (node n)) (n_tag (node n)) (flags (node n)) in
      let ht := update_hnode htb r (λ _, HNode false false image) in
      _ ← rpc_write_node r v image;
      mret ht)
    (λ ht' d', ∃ m', ht' = set_nodes ht m' ∧ sync_post ht d r true m' d')
    (sync_failed ht r d) d0.
Proof.
  intros Hr P Hn Hp -> ->.
  assert (∀ e, fault d0 e → fault d e) as Hf.
  { intros e. apply (sd_faults _ _ _ _ (ch_disk _ _ _ _ _ _ P)). }
  pose proof (ch_disk _ _ _ _ _ _ P) as Hdisk.
  assert (sha256 (node_input (set_nodes ht (mark true r m)) r (r =? 1) (node n))
          = sha256 (node_input (set_nodes ht m) r (r =? 1) (node n))) as Hin.
  { f_equal. unfold node_input.
    rewrite (child_hash_ext (set_nodes ht (mark true r m)) (set_nodes ht m) (2 * r)),
      (child_hash_ext (set_nodes ht (mark true r m)) (set_nodes ht m) (2 * r + 1)); [done|..];
      apply mark_ne; dlia. }
  apply wp_bind, wp_calc_node_hash.
  - intros d1 Hd1. rewrite Hin. cbv zeta. apply wp_bind, wp_ext_write.
    + intros d2 Hd2. wp_steps. exists (synced_nodes ht m r n). split; [done|].
      pose proof (sync_node_written ht d r b m d0 n d2 Hr P Hn Hp ltac:(by etrans)) as W. apply W.
    + intros e d2 Hd2 Hf1.
      assert (same d0 d2) as Hs by (by etrans).
      assert (fault d0 e) as Hf0 by by apply (same_faults _ _ Hd1).
      split; (split; [|by apply Hf]).
      * by eapply sync_disk_same.
      * exact (post_disk _ _ _ _ _ _ (sync_node_written ht d r b m d0 n d2 Hr P Hn Hp Hs)).
  - intros e d1 Hd1 Hf0. split; [by eapply sync_disk_same|by apply Hf].
Qed.

Lemma wp_sync_node ht d r b m d0 :
  1 <= r → is_Some (nodes ht !! r) → (is_Some (nodes ht !! (r / 2)) ∨ r = 1) →
  sync_pre ht d r → children_post ht d r b m d0 →
  wp (htree_sync_node_to_storage (set_nodes ht m) r)
    (λ ht' d', ∃ b' m', ht' = set_nodes ht m' ∧ sync_post ht d r b' m' d')
    (sync_failed ht r d) d0.
Proof.
  intros Hr Hin Hpar Hpre P. unfold htree_sync_node_to_storage. cbn [set_nodes nodes].
  destruct (proj2 (ch_ids _ _ _ _ _ _ P r) Hin) as [n Hn]. rewrite Hn.
  destruct Hin as [n0 Hn0]. destruct (ch_root _ _ _ _ _ _ P n0 n Hn0 Hn) as [Hd Hu].
  apply wp_bind, wp_assert.
  { destruct (block_updated n) eqn:E; [|done].
    by rewrite Hd, (pre_upd _ _ _ Hpre r n0 (under_refl r) Hn0 (eq_sym Hu)). }
  destruct (n_dirty n) eqn:Ed; cbn [negb].
  2: { wp_steps. exists false, m. split; [done|]. by eapply sync_node_idle. }
  assert (¬ under r (r / 2)) as Hnu by (intros H1; apply under_le in H1; [dlia|done]).
  assert (m !! (r / 2) = nodes ht !! (r / 2)) as Hmp by by apply (ch_outside _ _ _ _ _ _ P).
  assert (is_Some (m !! (r / 2)) ∨ r = 1) as Hp by by rewrite Hmp.
  apply wp_bind. destruct (Z.eqb_spec r 1) as [-> |Hr1].
  - apply wp_ret. eapply wp_mono; [eapply (wp_sync_write ht d 1 b m d0 n); try done| |by intros].
    cbv beta. naive_solver.
  - destruct Hp as [[p Hpp]|]; [|done]. rewrite Hpp. apply wp_ret.
    eapply wp_mono; [eapply (wp_sync_write ht d r b m d0 n); try done; eauto| |by intros].
    + unfold mark. destruct (Z.eqb_spec r 1); [done|]. cbn [andb negb].
      unfold update_hnode, set_nodes. cbn. f_equal. apply alter_ext. intros x Hx.
      assert (x = p) as -> by congruence. done.
    + rewrite Hmp in Hpp. unfold node_vers. destruct (Z.eqb_spec r 1); [done|]. rewrite Hpp.
      change (Z.testbit (toggle (flags (node p)) (HTREE_NODE_COMMITTED_CHILD (r mod 2)))
        (HTREE_NODE_COMMITTED_CHILD (r mod 2)))
        with (child_bit (toggle (flags (node p)) (HTREE_NODE_COMMITTED_CHILD (r mod 2))) r).
      rewrite child_bit_toggle, Z.eqb_refl. apply xorb_true_r.
    + cbv beta. naive_solver.
Qed.

(** The traversal of the subtree of [r]. *)
Lemma wp_sync_traverse fuel ht d r :
  shape ht → 1 <= r → top ht < r * 2 ^ Z.of_nat fuel →
  (is_Some (nodes ht !! (r / 2)) ∨ r = 1) → sync_pre ht d r →
  wp (traverse_post_order (S fuel) htree_sync_node_to_storage ht r)
    (λ ht' d', ∃ b m, ht' = set_nodes ht m ∧ sync_post ht d r b m d')
    (sync_failed ht r d) d.
Proof.
  revert ht d r. induction fuel as [|fuel IH]; intros ht d r Hs Hr Hf Hpar Hpre.
  all: cbn [traverse_post_order]; destruct (nodes ht !! r) as [n|] eqn:E.
  2, 4: wp_steps; exists false, (nodes ht); split; [by destruct ht|];
    by apply sync_absent; [apply Hs|..].
  { assert (1 <= r <= top ht) by (by apply (shape_ids _ Hs); eauto).
    rewrite Z.pow_0_r in Hf. lia. }
  assert (is_Some (nodes ht !! r)) as Hin by eauto.
  rewrite Nat2Z.inj_succ, Z.pow_succ_r in Hf by lia.
  assert (0 < 2 ^ Z.of_nat fuel) by (apply Z.pow_pos_nonneg; lia).
  apply wp_bind. eapply wp_mono; [apply (IH ht d (2 * r)); [done|lia|lia| |]| |].
  { left. by rewrite half_left. }
  { by apply sync_pre_left. }
  2: { intros e d' [Hd Hf']. split; [|done]. by apply sync_disk_left. }
  cbv beta. intros ht1 d1 (b1 & m1 & -> & P1).
  apply wp_bind. eapply wp_mono; [apply (IH (set_nodes ht m1) d1 (2 * r + 1)); [|lia| | |]| |].
  { constructor; [|apply Hs..]. intros i. cbn. rewrite (post_ids _ _ _ _ _ _ P1). apply (shape_ids _ Hs). }
  { change (top (set_nodes ht m1)) with (top ht). lia. }
  { left. cbn. rewrite half_right. by apply (post_ids _ _ _ _ _ _ P1). }
  { by eapply sync_pre_right. }
  2: { intros e d' [Hd Hf']. split; [by eapply sync_disk_right|].
       by apply (sd_faults _ _ _ _ (post_disk _ _ _ _ _ _ P1)). }
  cbv beta. intros ht2 d2 (b2 & m2 & -> & P2).
  pose proof (sync_children _ _ _ _ _ _ _ _ _ Hr Hin P1 P2) as C.
  change (set_nodes (set_nodes ht m1) m2) with (set_nodes ht m2).
  by apply (wp_sync_node ht d r (b1 || b2)).
Qed.
End with_crypto.
