(* ===== verification/HtreeProofs.v ===== *)
(** * core/tee/fs_htree.c: the properties

    What the file holds is a list of blocks and a length. A tree that has been
    synchronised can be opened again and gives the same content; an update that
    fails half way leaves the content from before it or the new one; and a file
    whose root hash is known cannot be altered without a SHA-256 collision. *)
From S2P Require Import Prelude BlockFile Htree HtreeTree.

Local Open Scope Z_scope.

(** ** Which head is the newer one *)

Lemma get_idx_newer v (c c' : Z) (h0 h1 : Z) :
  Z.testbit c 0 = v → Z.testbit c' 0 = negb v → c' < c →
  (h0, h1) = (if v then (c', c) else (c, c')) →
  get_idx_from_counter h0 h1 = Z.b2z v.
Proof.
  intros Hc Hc' Hlt E. unfold get_idx_from_counter.
  destruct v; injection E as -> ->; rewrite Hc, Hc'; simpl.
  - by destruct (Z.ltb_spec c c'); [lia|].
  - by destruct (Z.ltb_spec c' c); [|lia].
Qed.

(** C35: get_idx_from_counter(): when the two heads have counters of the parity of
    their place in the file, as the heads tee_fs_htree_sync_to_storage() writes
    have, the head with the larger counter is selected; [-1] is only returned when
    neither place holds such a head. *)
Theorem get_idx_from_counter_spec c0 c1 :
  0 <= c0 → 0 <= c1 →
  get_idx_from_counter c0 c1 =
    match Z.even c0, Z.odd c1 with
    | true, true => if c1 <? c0 then 0 else 1
    | true, false => 0
    | false, true => 1
    | false, false => -1
    end.
Proof.
  intros H0 H1. unfold get_idx_from_counter.
  rewrite !Z.bit0_odd, <- !Z.negb_odd. by destruct (Z.odd c0), (Z.odd c1).
Qed.

Theorem get_idx_from_counter_spec_witness :
  (0 <= 4 ∧ 0 <= 5) ∧ get_idx_from_counter 4 5 = 1.
Proof. split; [lia|]. rewrite (get_idx_from_counter_spec 4 5); [reflexivity|lia|lia]. Defined.

Section with_crypto.
Context `{CryptoLaws}.

(** ** Traversals that only look *)

Lemma wp_traverse_look cb fuel ht d r t :
  has_ids (nodes ht) t → 1 <= r → t < r * 2 ^ Z.of_nat fuel →
  (∀ id n d, nodes ht !! id = Some n → wp (cb ht id) (λ ht' d', ht' = ht ∧ same d d') (failed d) d) →
  wp (traverse_post_order (S fuel) cb ht r) (λ ht' d', ht' = ht ∧ same d d') (failed d) d.
Proof.
  revert d r. induction fuel as [|fuel IH]; intros d r Hs Hr Hf Hcb.
  all: cbn [traverse_post_order]; destruct (nodes ht !! r) as [n|] eqn:E; [|by wp_steps].
  { assert (1 <= r <= t) by (by apply (Hs r); eauto).
    rewrite Z.pow_0_r in Hf. lia. }
  rewrite Nat2Z.inj_succ, Z.pow_succ_r in Hf by lia.
  assert (0 < 2 ^ Z.of_nat fuel) by (apply Z.pow_pos_nonneg; lia).
  apply wp_bind. eapply wp_mono; [apply (IH d (2 * r)); done || lia| |by intros].
  cbv beta. intros ? d1 [-> Hd1].
  apply wp_bind. eapply wp_mono; [apply (IH d1 (2 * r + 1)); done || lia| |].
  2: { intros e d2 Hf2. by eapply failed_trans. }
  cbv beta. intros ? d2 [-> Hd2].
  eapply wp_mono; [by apply (Hcb r n)| |].
  - cbv beta. intros ? d3 [-> Hd3]. split; [done|]. etrans; [done|]. by etrans.
  - intros e d3 Hf3. eapply failed_trans; [done|]. by eapply failed_trans.
Qed.

(** ** The file after a synchronisation *)

(** How an open that is not given the root hash selects the head. *)
Definition newest (hd : tee_fs_htree_image) (heads : gmap bool tee_fs_htree_image) : Prop :=
  let v := Z.testbit (counter hd) 0 in
  ∃ h, heads !! negb v = Some h
    ∧ ∀ h0 h1, (h0, h1) = (if v then (h, hd) else (hd, h)) →
       get_idx_from_counter (counter h0) (counter h1) = Z.b2z v.

(** The file has the tree, with the head selected by [sel]. *)
Record committed_by (sel : tee_fs_htree_image → gmap bool tee_fs_htree_image → Prop)
    (ht : tee_fs_htree) (d : dev) : Prop := {
  cm_shape : shape ht;
  cm_clean : dirty ht = false;
  cm_settled : ∀ id n, nodes ht !! id = Some n → settled ht d (root_vers ht) id n;
  cm_head : d_heads d !! root_vers ht = Some (head ht);
  cm_other : sel (head ht) (d_heads d);
  cm_auth : gcm_dec (fek ht) (iv (head ht)) (head_aad ht (root_hash ht) (iv (head ht)))
              (imeta_crypt (head ht)) (tag (head ht)) = Some (imeta_bytes (imeta ht));
  cm_fek : fek ht = fek_dec (uuid ht) (enc_fek (head ht));
}.

#[global] Arguments cm_shape {_} _ _ _.
#[global] Arguments cm_clean {_} _ _ _.
#[global] Arguments cm_settled {_} _ _ _ _ _ _.
#[global] Arguments cm_head {_} _ _ _.
#[global] Arguments cm_other {_} _ _ _.
#[global] Arguments cm_auth {_} _ _ _.
#[global] Arguments cm_fek {_} _ _ _.

Abbreviation committed := (committed_by newest).

(** Any head: the caller knows the root hash. *)
Definition any_head (_ : tee_fs_htree_image) (_ : gmap bool tee_fs_htree_image) : Prop := True.

Lemma committed_any {sel} ht d : committed_by sel ht d → committed_by any_head ht d.
Proof. by intros [H1 H2 H3 H4 H5 H6 H7]. Qed.

Lemma committed_same {sel} ht d d' : committed_by sel ht d → same d d' → committed_by sel ht d'.
Proof.
  intros [H1 H2 H3 H4 H5 H6 H7] Hd. constructor; try done.
  - intros id n Hn. destruct (H3 id n Hn). constructor; try done. by rewrite (same_nodes _ _ Hd).
  - by rewrite (same_heads _ _ Hd).
  - by rewrite (same_heads _ _ Hd).
Qed.

Lemma committed_node {sel} ht d id n :
  committed_by sel ht d → nodes ht !! id = Some n → n = HNode false false (node n).
Proof.
  intros Hc Hn. destruct (cm_settled _ _ Hc id n Hn) as [H1 H2 _ _].
  destruct n as [a b c]. simpl in *. by subst.
Qed.

Lemma committed_root {sel} ht d : committed_by sel ht d → is_Some (nodes ht !! 1).
Proof. intros Hc. apply (shape_ids _ (cm_shape _ _ Hc)). unfold top. lia. Qed.

Lemma imeta_of_bytes_bytes ht :
  shape ht → imeta_of_bytes (imeta_bytes (imeta ht)) = imeta ht.
Proof.
  intros [_ Hm Hl]. destruct (imeta ht) as [l m]. unfold imeta_bytes, imeta_of_bytes. cbn in *.
  f_equal; [by apply (le_value_bytes 8)|apply (le_value_bytes 4); lia].
Qed.

(** The head and the root node are found. *)
Lemma wp_init_head ht d fk im di :
  committed ht d →
  wp (init_head_from_data (Htree ∅ zero_head fk im di (uuid ht)) None)
    (λ ht' d', same d d' ∧ ∃ n, nodes ht !! 1 = Some n
       ∧ ht' = Htree {[1 := n]} (head ht) fk im di (uuid ht))
    (failed d) d.
Proof.
  intros Hc. destruct (committed_root _ _ Hc) as [n Hn].
  destruct (cm_other _ _ Hc) as (h & Hh & Hidx). fold (root_vers ht) in Hh, Hidx. pose proof (cm_head _ _ Hc) as Hh'.
  set (h0 := if root_vers ht then h else head ht). set (h1 := if root_vers ht then head ht else h).
  assert (d_heads d !! false = Some h0 ∧ d_heads d !! true = Some h1) as [E0 E1].
  { subst h0 h1. by destruct (root_vers ht). }
  assert (get_idx_from_counter (counter h0) (counter h1) = Z.b2z (root_vers ht)) as Hi.
  { apply Hidx. subst h0 h1. by destruct (root_vers ht). }
  cbn [init_head_from_data]. apply wp_bind.
  apply (wp_read_head _ h0); [done| |by split]. intros d1 Hd1.
  apply wp_bind, (wp_read_head _ h1); [by rewrite (same_heads _ _ Hd1)| |].
  2: { intros. eapply failed_trans; [done|by split]. }
  intros d2 Hd2. cbv zeta. rewrite Hi.
  replace (Z.b2z (root_vers ht) <? 0) with false by (by destruct (root_vers ht)).
  replace (Z.b2z (root_vers ht) =? 1) with (root_vers ht) by (by destruct (root_vers ht)).
  apply wp_bind, (wp_read_node _ _ (node n)).
  - rewrite (same_nodes _ _ Hd2), (same_nodes _ _ Hd1).
    apply (settled_stored _ _ _ _ _ (cm_settled _ _ Hc 1 n Hn)).
  - intros d3 Hd3. wp_steps. split; [etrans; [done|]; by etrans|]. exists n. split; [done|].
    rewrite <- (committed_node ht d 1 n Hc Hn). unfold set_head, set_nodes.
    cbn [nodes head fek imeta dirty uuid]. f_equal. subst h0 h1. by destruct (root_vers ht).
  - intros. eapply failed_trans; [done|]. eapply failed_trans; [done|]. by split.
Qed.

(** The loop of init_tree_from_data(): the nodes are there up to [t]. *)
Lemma wp_init_tree_loop {sel} ht d0 d m t k :
  committed_by sel ht d0 → same d0 d → 1 <= t → t + Z.of_nat k = top ht →
  has_ids m t → (∀ i, i <= t → m !! i = nodes ht !! i) →
  wp (init_tree_loop (set_nodes ht m) (t + 1) k)
    (λ ht' d', same d d' ∧ ht' = ht) (failed d) d.
Proof.
  intros Hc. revert d m t. induction k as [|k IH]; intros d m t Hd Ht Hk Hm Heq.
  { cbn [init_tree_loop]. wp_steps. split; [done|].
    assert (m = nodes ht) as ->; [|by destruct ht].
    apply map_eq. intros i. destruct (Z.leb_spec i t) as [|Hi]; [by apply Heq|].
    rewrite (has_ids_None m t) by (done || lia). symmetry.
    apply (has_ids_None _ (top ht)); [apply Hc|lia]. }
  cbn [init_tree_loop].
  assert (is_Some (nodes ht !! (t + 1))) as [n Hn] by (apply (shape_ids _ (cm_shape _ _ Hc)); lia).
  assert (is_Some (nodes ht !! ((t + 1) / 2))) as [p Hp]
    by (apply (shape_ids _ (cm_shape _ _ Hc)); dlia).
  rewrite (find_node_in (set_nodes ht m) t) by (done || dlia). cbn [set_nodes nodes].
  rewrite Heq, Hp by dlia. cbv zeta.
  apply wp_bind, (wp_read_node _ _ (node n)).
  { pose proof (settled_stored _ _ _ _ _ (cm_settled _ _ Hc _ n Hn)) as Hst.
    unfold node_vers in Hst. destruct (Z.eqb_spec (t + 1) 1); [lia|]. rewrite Hp in Hst.
    rewrite (same_nodes _ _ Hd). exact Hst. }
  2: by split.
  intros d1 Hd1. apply wp_bind.
  pose proof (shape_max _ (cm_shape _ _ Hc)) as Hmax.
  eapply wp_mono; [apply (wp_get_node (set_nodes ht m) true t (t + 1)); try done| |].
  { unfold top in *. lia. }
  { by left. }
  2: { intros. by eapply failed_trans. }
  cbv beta. intros ht' d2 (Hd2 & m2 & -> & Hg & Hm2). cbn [set_nodes nodes] in Hg.
  assert (max_node_id (imeta ht) <? t + 1 = false) as Hmx by (apply Z.ltb_ge; unfold top in *; lia).
  unfold with_node. cbn [set_nodes imeta]. rewrite Hmx, andb_false_r.
  rewrite (committed_node _ _ _ _ Hc Hn) in Hn.
  set (m3 := alter (λ nc, HNode (n_dirty nc) (block_updated nc) (node n)) (t + 1) m2).
  assert (m2 !! (t + 1) = Some new_node) as Hnew.
  { rewrite Hg. destruct (Z.ltb_spec t (t + 1)), (Z.leb_spec (t + 1) (t + 1)); simpl; done || lia. }
  eapply wp_mono; [apply (IH d2 m3 (t + 1))| |].
  - etrans; [done|]. by etrans.
  - lia.
  - lia.
  - replace (Z.max t (t + 1)) with (t + 1) in Hm2 by lia.
    intros i. unfold m3. rewrite lookup_alter_is_Some. apply Hm2.
  - intros i Hi. unfold m3. destruct (decide (t + 1 = i)) as [<- |].
    + by rewrite lookup_alter_eq, Hnew, Hn.
    + rewrite lookup_alter_ne by done. rewrite Hg.
      destruct (Z.ltb_spec t i); [lia|]. apply Heq. lia.
  - cbv beta. intros ht' d3 [Hd3 ->]. split; [|done]. etrans; [done|]. by etrans.
  - intros e d3 Hf. eapply failed_trans; [done|]. by eapply failed_trans.
Qed.

Lemma wp_verify_root {sel} ht0 ht d m im di fk :
  committed_by sel ht d → ht0 = Htree m (head ht) fk im di (uuid ht) →
  m !! 1 = nodes ht !! 1 →
  wp (verify_root ht0)
    (λ ht' d', same d d' ∧ ht' = Htree m (head ht) (fek ht) (imeta ht) di (uuid ht)) (failed d) d.
Proof.
  intros Hc -> Hm. unfold verify_root. apply wp_bind, wp_ext; [|by split]. intros d1 Hd1.
  cbv zeta. cbn [set_fek head uuid]. rewrite <- (cm_fek _ _ Hc).
  set (ht1 := set_fek _ (fek ht)).
  replace (head_aad ht1 (root_hash ht1) (iv (head ht)))
    with (head_aad ht (root_hash ht) (iv (head ht))).
  2: { unfold head_aad. f_equal. unfold root_hash, child_hash. subst ht1. cbn [set_fek nodes]. by rewrite Hm. }
  apply wp_bind. unfold authenc_decrypt. apply wp_bind, wp_ext.
  - intros d2 Hd2. change (fek ht1) with (fek ht). rewrite (cm_auth _ _ Hc). wp_steps.
    split; [by etrans|]. by rewrite (imeta_of_bytes_bytes ht (cm_shape _ _ Hc)).
  - intros. by eapply failed_trans; [|split].
Qed.

(** A committed tree whose head is selected can be opened, and what is opened is that
    tree. *)
Lemma wp_open_by {sel} hash_arg ht d :
  committed_by sel ht d →
  (∀ d' fk im di, same d d' → wp (init_head_from_data (Htree ∅ zero_head fk im di (uuid ht)) hash_arg)
    (λ ht' d', same d d' ∧ ∃ n, nodes ht !! 1 = Some n
       ∧ ht' = Htree {[1 := n]} (head ht) fk im di (uuid ht))
    (failed d) d') →
  wp (tee_fs_htree_open false hash_arg (uuid ht)) (λ ht' d', same d d' ∧ ht' = ht) (failed d) d.
Proof.
  intros Hc Hinit. unfold tee_fs_htree_open. apply wp_bind, wp_ext; [|by split]. intros d1 Hd1.
  cbv zeta. apply wp_bind. eapply wp_mono; [by apply (Hinit d1)| |done]; cbv beta.
  intros ? d2 (Hd2 & n & Hn & ->). pose proof (committed_same _ _ _ Hc Hd2) as Hc2.
  apply wp_bind. eapply wp_mono; [eapply (wp_verify_root _ ht d2); [done|done|]| |]; cbv beta.
  { by rewrite lookup_singleton_eq. }
  2: { intros. by eapply failed_trans. }
  intros ? d3 (Hd3 & ->). pose proof (committed_same _ _ _ Hc2 Hd3) as Hc3.
  replace (Htree {[1 := n]} (head ht) (fek ht) (imeta ht) false (uuid ht)) with (set_nodes ht {[1 := n]})
    by (rewrite <- (cm_clean _ _ Hc); by destruct ht).
  apply wp_bind. unfold init_tree_from_data. cbn [set_nodes imeta].
  eapply wp_mono; [eapply (wp_init_tree_loop ht d3 d3 {[1 := n]} 1); try done| |]; cbv beta.
  { unfold top. lia. }
  { intros i. destruct (decide (i = 1)) as [-> |].
    - rewrite lookup_singleton_eq. split; [lia|eauto].
    - rewrite lookup_singleton_ne by done. split; [by intros [? ?]|lia]. }
  { intros i Hi. destruct (decide (i = 1)) as [-> |]; [by rewrite lookup_singleton_eq|].
    rewrite lookup_singleton_ne by done. symmetry. apply (has_ids_None _ (top ht)); [apply Hc|lia]. }
  2: { intros. eapply failed_trans; [|done]. by etrans. }
  intros ? d4 [Hd4 ->]. unfold verify_tree.
  assert (same d d4) as Hd by (etrans; [done|]; by etrans).
  apply wp_bind, wp_ext; [|intros; by eapply failed_trans; [|split]]. intros d5 Hd5.
  unfold htree_traverse_post_order.
  eapply wp_mono; [apply (wp_traverse_look _ 33 _ _ 1 (top ht)); [apply Hc|lia| |]| |]; cbv beta.
  - pose proof (shape_max _ (cm_shape _ _ Hc)). unfold top. lia.
  - intros id k dk Hk. unfold verify_node. rewrite Hk. apply wp_bind, wp_calc_node_hash; [|by split].
    intros d' Hd'. rewrite bool_decide_eq_true_2; [by wp_steps|].
    symmetry. apply (cm_settled _ _ Hc id k Hk).
  - intros ht' d6 [-> Hd6]. split; [|done]. etrans; [done|]. by etrans.
  - intros. eapply failed_trans; [|done]. by etrans.
Qed.

Lemma wp_open ht d :
  committed ht d →
  wp (tee_fs_htree_open false None (uuid ht)) (λ ht' d', same d d' ∧ ht' = ht) (failed d) d.
Proof.
  intros Hc. apply (wp_open_by None ht d Hc). intros d' fk im di Hd.
  eapply wp_mono; [apply wp_init_head; by eapply committed_same| |]; cbv beta.
  - intros ht' d2 (Hd2 & n & Hn & ->). split; [by etrans|by exists n].
  - intros. by eapply failed_trans.
Qed.

(** ** update_root() and the head *)

Lemma wp_authenc_encrypt key aad plain (Q : _ → dev → Prop) R d :
  (∀ iv crypt tag d', same d d' → gcm_enc key iv (aad iv) plain = (crypt, tag) →
     Q (iv, crypt, tag) d') →
  (∀ e d', same d d' → fault d e → R e d') →
  wp (authenc_encrypt key aad plain) Q R d.
Proof.
  intros HQ HR. unfold authenc_encrypt. apply wp_bind, wp_rng; [|done]. intros iv d1 Hd1.
  apply wp_bind, wp_ext.
  - intros d2 Hd2. destruct (gcm_enc key iv (aad iv) plain) as [crypt tag] eqn:E. wp_steps.
    apply HQ; [by etrans|done].
  - intros e d2 Hd2 Hf. apply HR; [by etrans|]. by apply (same_faults _ _ Hd1).
Qed.

(** The tree all of whose nodes have been written gets its head. *)
Definition write_head (ht : tee_fs_htree) : D (tee_fs_htree * option (list Z)) :=
  ht ← update_root ht;
  _ ← rpc_write_head (Z.testbit (counter (head ht)) 0) (head ht);
  mret (set_dirty ht false, Some (root_hash ht)).

(** A tree with every node written but the counter not yet increased. *)
Record unheaded (ht : tee_fs_htree) (d : dev) : Prop := {
  uh_shape : shape ht;
  uh_settled : ∀ id n, nodes ht !! id = Some n → settled ht d (negb (root_vers ht)) id n;
  uh_fek : fek ht = fek_dec (uuid ht) (enc_fek (head ht));
  uh_counter : 0 <= counter (head ht) < UINT32_MAX;
}.

(** The other head is the previous one, or there is none yet. *)
Definition old_head (ht : tee_fs_htree) (d : dev) : Prop :=
  d_heads d !! root_vers ht = Some (head ht).

Definition head_auth (ht : tee_fs_htree) : Prop :=
  gcm_dec (fek ht) (iv (head ht)) (head_aad ht (root_hash ht) (iv (head ht)))
    (imeta_crypt (head ht)) (tag (head ht)) = Some (imeta_bytes (imeta ht)).

(** What a new head makes of a tree. *)
Definition headed (ht ht' : tee_fs_htree) : Prop :=
  nodes ht' = nodes ht ∧ imeta ht' = imeta ht ∧ fek ht' = fek ht ∧ uuid ht' = uuid ht
  ∧ enc_fek (head ht') = enc_fek (head ht) ∧ counter (head ht') = counter (head ht) + 1
  ∧ dirty ht' = false.

Lemma headed_root_vers ht ht' : headed ht ht' → root_vers ht' = negb (root_vers ht).
Proof.
  intros (_ & _ & _ & _ & _ & Hc & _). unfold root_vers. rewrite Hc.
  rewrite !Z.bit0_odd, Z.add_1_r, Z.odd_succ. apply eq_sym, Z.negb_odd.
Qed.

Lemma headed_committed ht ht' d d' h :
  unheaded ht d → headed ht ht' → head_auth ht' →
  d_nodes d' = d_nodes d →
  d_heads d' !! root_vers ht' = Some (head ht') →
  d_heads d' !! negb (root_vers ht') = Some h →
  counter h < counter (head ht') → Z.testbit (counter h) 0 = negb (root_vers ht') →
  committed ht' d'.
Proof.
  intros [Hs Hset Hfk Hcnt] Hh Hauth Hdn Hhd Ho Hlt Hpar.
  pose proof (headed_root_vers _ _ Hh) as Hv. destruct Hh as (Hn & Hm & Hf & Hu & He & Hc & Hd).
  constructor; [|done| |done| |done|congruence].
  - destruct Hs as [H1 H2 H3]. unfold top in *. constructor; unfold top; by rewrite ?Hn, Hm.
  - intros id n. rewrite Hn. intros Hid.
    eapply settled_ext; [by apply Hset|by rewrite Hn..|by rewrite Hm| |].
    + by rewrite Hv, Hn.
    + by rewrite Hdn.
  - unfold newest. cbv zeta. fold (root_vers ht'). exists h. split; [done|]. intros h0 h1 E.
    apply (get_idx_newer _ (counter (head ht')) (counter h)); [done|done|done|].
    by destruct (root_vers ht'); injection E as -> ->.
Qed.

Lemma wp_write_head ht d :
  unheaded ht d →
  wp (write_head ht)
    (λ '(ht', h) d', headed ht ht' ∧ head_auth ht' ∧ h = Some (root_hash ht') ∧ d_nodes d' = d_nodes d
       ∧ d_blocks d' = d_blocks d ∧ d_heads d' = <[root_vers ht' := head ht']> (d_heads d)
       ∧ (old_head ht d → committed ht' d') ∧ (∀ e, fault d' e → fault d e))
    (λ e d', fault d e ∧ (same d d' ∨ ∃ ht', headed ht ht' ∧ d_nodes d' = d_nodes d
       ∧ d_blocks d' = d_blocks d ∧ d_heads d' = <[root_vers ht' := head ht']> (d_heads d)
       ∧ (old_head ht d → committed ht' d')))
    d.
Proof.
  intros Hu. unfold write_head, update_root. cbv zeta.
  apply wp_bind, wp_bind, wp_authenc_encrypt.
  2: { intros e d' Hd Hf. split; [done|by left]. }
  intros iv' crypt tag' d1 Hd1 Henc. apply wp_ret. cbn [set_head head counter enc_fek].
  assert (wrap 32 (counter (head ht) + 1) = counter (head ht) + 1) as Hw.
  { apply wrap_small. unfold in_range. pose proof (uh_counter _ _ Hu). lia. }
  rewrite Hw in *.
  set (ht' := set_dirty (set_head _ (Image iv' tag' _ crypt _)) false).
  assert (headed ht ht') as Hh by done.
  assert (head_auth ht') as Hauth by by eapply gcm_dec_enc.
  assert (∀ d2, d_nodes d2 = d_nodes d → d_heads d2 = <[root_vers ht' := head ht']> (d_heads d) →
            old_head ht d → committed ht' d2) as Hcm.
  { intros d2 Hdn Hdh Ho. pose proof (headed_root_vers _ _ Hh) as Hv.
    eapply (headed_committed ht ht' d d2 (head ht)); try done.
    - by rewrite Hdh, lookup_insert_eq.
    - rewrite Hdh, lookup_insert_ne by (by destruct (root_vers ht')).
      rewrite Hv, negb_involutive. exact Ho.
    - cbn. lia.
    - by rewrite Hv, negb_involutive. }
  apply wp_bind, wp_ext_write.
  - intros d2 Hd2. assert (same d d2) as Hs by (by etrans). wp_steps.
    change (Z.testbit (counter (head ht) + 1) 0) with (root_vers ht').
    split; [exact Hh|]. split; [done|]. split; [done|]. cbn [set_heads d_nodes d_blocks d_heads d_faults].
    split; [apply Hs|]. split; [apply Hs|]. split; [by rewrite (same_heads _ _ Hs)|].
    split; [|apply Hs]. apply Hcm; cbn [set_heads d_nodes d_heads]; [apply Hs|].
    by rewrite (same_heads _ _ Hs).
  - intros e d2 Hd2 Hf. assert (same d d2) as Hs by (by etrans).
    assert (fault d e) as Hf' by by apply (same_faults _ _ Hd1).
    split; (split; [done|]); [by left|right]. exists ht'. split; [exact Hh|].
    split; [apply Hs|]. split; [apply Hs|]. cbn [set_heads d_nodes d_heads].
    split; [by rewrite (same_heads _ _ Hs)|].
    apply Hcm; cbn [set_heads d_nodes d_heads]; [apply Hs|]. by rewrite (same_heads _ _ Hs).
Qed.

(** ** The content of a file *)

Context (block_size : nat).

Definition block_at (ht : tee_fs_htree) (d : dev) (i : nat) (b : list Z) : Prop :=
  ∃ n crypt, nodes ht !! (Z.of_nat i + 1) = Some n
    ∧ d_blocks d !! (Z.of_nat i, Z.testbit (flags (node n)) HTREE_NODE_COMMITTED_BLOCK) = Some crypt
    ∧ List.length crypt = block_size
    ∧ gcm_dec (fek ht) (n_iv (node n)) (node_aad ht (n_iv (node n))) crypt (n_tag (node n)) = Some b.

(** Node 1 is there before block 0 is. *)
Record repr (ht : tee_fs_htree) (d : dev) (F : file) : Prop := {
  repr_length : f_length F = length (imeta ht);
  repr_count : Z.of_nat (List.length (f_blocks F)) = top ht ∨ f_blocks F = [] ∧ top ht = 1;
  repr_blocks : ∀ i b, f_blocks F !! i = Some b → block_at ht d i b;
}.

Lemma repr_ext ht ht' d d' F :
  repr ht d F → imeta ht' = imeta ht → fek ht' = fek ht →
  enc_fek (head ht') = enc_fek (head ht) → d_blocks d' = d_blocks d →
  (∀ id n, nodes ht !! id = Some n → ∃ n', nodes ht' !! id = Some n' ∧ same_data n n') →
  repr ht' d' F.
Proof.
  intros [H1 H2 H3] Hm Hf He Hb Hn. constructor; unfold top; rewrite ?Hm; [done|done|].
  intros i b Hi. destruct (H3 i b Hi) as (n & c & Hid & Hc & Hl & Hdec).
  destruct (Hn _ _ Hid) as (n' & Hid' & Hiv & Htag & Hbit). exists n', c.
  unfold node_aad in *. rewrite Hbit, Hb, Hiv, Htag, Hf, He. done.
Qed.

Lemma repr_same ht d d' F : repr ht d F → same d d' → repr ht d' F.
Proof.
  intros Hr Hd. eapply repr_ext; try done; [apply Hd|]. intros id n Hn. by exists n.
Qed.

(** The file [d] of the TA [u] holds [F], its counter is at most [c]. *)
Definition holds (u : list Z) (c : Z) (F : file) (d : dev) : Prop :=
  ∃ ht, uuid ht = u ∧ 0 <= counter (head ht) <= c ∧ committed ht d ∧ repr ht d F.

(** ** Sessions

    The tree [ht] in memory holds [F]; the file still holds [F0] as [ht0], with its
    head selected by [sel]. *)
Record sess (sel : tee_fs_htree_image → gmap bool tee_fs_htree_image → Prop) (ht0 : tee_fs_htree) (F0 : file) (ht : tee_fs_htree) (F : file) (d : dev) : Prop := {
  se_committed : committed_by sel ht0 d;
  se_repr0 : repr ht0 d F0;
  se_shape : shape ht;
  se_head : head ht = head ht0;
  se_fek : fek ht = fek ht0;
  se_uuid : uuid ht = uuid ht0;
  se_pre : sync_pre ht d 1;
  se_idle : dirty ht = false → ht = ht0 ∧ F = F0;
  se_dirty : dirty ht = true → ∃ id n, nodes ht !! id = Some n ∧ n_dirty n = true;
  se_nodes : ∀ id n0, nodes ht0 !! id = Some n0 → ∃ n, nodes ht !! id = Some n
    ∧ (∀ c, child_bit (flags (node n)) c = child_bit (flags (node n0)) c)
    ∧ Z.testbit (flags (node n)) HTREE_NODE_COMMITTED_BLOCK
      = xorb (block_updated n) (Z.testbit (flags (node n0)) HTREE_NODE_COMMITTED_BLOCK);
  se_repr : repr ht d F;
}.

#[global] Arguments se_committed {_} _ _ _ _ _ _.
#[global] Arguments se_repr0 {_} _ _ _ _ _ _.
#[global] Arguments se_shape {_} _ _ _ _ _ _.
#[global] Arguments se_head {_} _ _ _ _ _ _.
#[global] Arguments se_fek {_} _ _ _ _ _ _.
#[global] Arguments se_uuid {_} _ _ _ _ _ _.
#[global] Arguments se_pre {_} _ _ _ _ _ _.
#[global] Arguments se_idle {_} _ _ _ _ _ _.
#[global] Arguments se_dirty {_} _ _ _ _ _ _.
#[global] Arguments se_repr {_} _ _ _ _ _ _.
#[global] Arguments se_nodes {_} _ _ _ _ _ _ _ _ _.

Lemma under_1 ht id : has_ids (nodes ht) (top ht) → is_Some (nodes ht !! id) → under 1 id.
Proof.
  intros Hs Hid. apply Hs in Hid. exists (Z.to_nat (Z.log2 id)).
  rewrite Z2Nat.id by apply Z.log2_nonneg.
  pose proof (Z.log2_spec id ltac:(lia)) as [Hl Hu]. rewrite Z.pow_succ_r in Hu by apply Z.log2_nonneg.
  symmetry. apply Z.div_unique with (id - 2 ^ Z.log2 id); lia.
Qed.

Lemma sess_open {sel} ht0 F0 d : committed_by sel ht0 d → repr ht0 d F0 → sess sel ht0 F0 ht0 F0 d.
Proof.
  intros Hc Hr. constructor; try done; [apply Hc| | |].
  - constructor.
    + intros id n _ Hn _. destruct (cm_settled _ _ Hc id n Hn). auto.
    + intros id n _ Hn Hu. destruct (cm_settled _ _ Hc id n Hn). congruence.
  - intros Hd. by rewrite (cm_clean _ _ Hc) in Hd.
  - intros id n0 Hn. exists n0. split; [done|]. split; [done|].
    by rewrite (settled_upd _ _ _ _ _ (cm_settled _ _ Hc id n0 Hn)).
Qed.

Lemma sess_same {sel} ht0 F0 ht F d d' : sess sel ht0 F0 ht F d → same d d' → sess sel ht0 F0 ht F d'.
Proof.
  intros [H1 H2 H3 H4 H5 H6 [H7 H7'] H8 H9 H10 H11] Hd. constructor; try done.
  - by eapply committed_same.
  - by eapply repr_same.
  - constructor; [|done]. intros id n. rewrite (same_nodes _ _ Hd). apply H7.
  - by eapply repr_same.
Qed.

(** The versions the committed tree names are the ones the session's tree names. *)
Lemma sess_vers {sel} ht0 F0 ht F d id rv :
  sess sel ht0 F0 ht F d → is_Some (nodes ht0 !! id) →
  node_vers rv (nodes ht) id = node_vers rv (nodes ht0) id.
Proof.
  intros Hse Hid. pose proof (shape_ids _ (cm_shape _ _ (se_committed _ _ _ _ _ Hse))) as Hs.
  unfold node_vers. destruct (Z.eqb_spec id 1); [done|]. apply Hs in Hid.
  assert (is_Some (nodes ht0 !! (id / 2))) as [p0 Hp0] by (apply Hs; dlia).
  destruct (se_nodes _ _ _ _ _ Hse _ _ Hp0) as (p & Hp & Hb & _). by rewrite Hp0, Hp.
Qed.

(** What a synchronisation writes before the head does not touch the committed
    tree. *)
Lemma sess_sync_disk {sel} ht0 F0 ht F d d' :
  sess sel ht0 F0 ht F d → sync_disk ht 1 d d' → committed_by sel ht0 d' ∧ repr ht0 d' F0.
Proof.
  intros Hse [G1 G2 G3 G4 _].
  destruct (se_committed _ _ _ _ _ Hse) as [H1 H2 H3 H4 H5 H6 H7]. split.
  - constructor; try done; [|by rewrite G1|by rewrite G1].
    intros id n Hn. destruct (H3 id n Hn) as [A1 A2 A3 A4]. constructor; try done.
    rewrite G4; [done|]. right. symmetry.
    assert (root_vers ht = root_vers ht0) as -> by (unfold root_vers; by rewrite (se_head _ _ _ _ _ Hse)).
    eapply sess_vers; [done|by eexists].
  - eapply repr_ext; [apply (se_repr0 _ _ _ _ _ Hse)|done|done|done|done|].
    intros id n Hn. by exists n.
Qed.

Lemma sync_unheaded {sel} ht0 F0 ht F d m d' :
  sess sel ht0 F0 ht F d → counter (head ht) < UINT32_MAX → 0 <= counter (head ht) →
  sync_post ht d 1 true m d' →
  unheaded (set_nodes ht m) d' ∧ old_head (set_nodes ht m) d' ∧ repr (set_nodes ht m) d' F.
Proof.
  intros Hse Hc0 Hc1 [P1 P2 P3 P4 P5 [D1 D2 D3 D4]].
  pose proof (se_committed _ _ _ _ _ Hse) as Hcm. pose proof (shape_ids _ (se_shape _ _ _ _ _ Hse)) as Hs.
  split; [|split].
  - constructor; [|intros id n Hn| |done].
    + destruct (se_shape _ _ _ _ _ Hse) as [A1 A2 A3]. constructor; try done.
      intros i. cbn. rewrite P1. apply A1.
    + specialize (P4 id n). cbn [andb Z.eqb Pos.eqb xorb] in P4. apply P4; [|done].
      apply (under_1 ht); [done|]. apply P1. by exists n.
    + cbn. rewrite (se_head _ _ _ _ _ Hse), (se_fek _ _ _ _ _ Hse), (se_uuid _ _ _ _ _ Hse).
      apply Hcm.
  - unfold old_head, root_vers. cbn [set_nodes head]. rewrite D1, (se_head _ _ _ _ _ Hse). apply Hcm.
  - eapply repr_ext; [apply (se_repr _ _ _ _ _ Hse)|done..|].
    intros id n Hn. destruct (proj2 (P1 id) ltac:(by exists n)) as [n' Hn'].
    destruct (P5 id n' Hn') as (n1 & Hn1 & Hsd). exists n'. split; [done|]. congruence.
Qed.

(** The old tree stays in the file next to the new one. *)
Definition both_trees (ht0 : tee_fs_htree) (F0 : file) (ht' : tee_fs_htree) (F : file) (d d' : dev) : Prop :=
  committed_by any_head ht0 d' ∧ repr ht0 d' F0 ∧ committed ht' d' ∧ repr ht' d' F
  ∧ (∀ k, is_Some (d_nodes d !! k) → is_Some (d_nodes d' !! k)).

Definition next_tree (ht ht' : tee_fs_htree) : Prop :=
  counter (head ht') = counter (head ht) + 1 ∧ uuid ht' = uuid ht.

Definition sync_done sel ht0 F0 ht F (d : dev) (r : tee_fs_htree * option (list Z)) (d' : dev) : Prop :=
  (∀ e, fault d' e → fault d e) ∧
  if dirty ht then r.2 = Some (root_hash r.1) ∧ next_tree ht r.1 ∧ both_trees ht0 F0 r.1 F d d'
  else r = (ht, None) ∧ ht = ht0 ∧ F = F0 ∧ committed_by sel ht d' ∧ repr ht d' F ∧ d_nodes d' = d_nodes d.

Definition sync_lost sel ht0 F0 ht F (d : dev) (e : tee_result) (d' : dev) : Prop :=
  fault d e ∧ (committed_by sel ht0 d' ∧ repr ht0 d' F0 ∧ (∀ k, is_Some (d_nodes d !! k) → is_Some (d_nodes d' !! k)) ∨
    ∃ ht', next_tree ht ht' ∧ both_trees ht0 F0 ht' F d d').

(** A head is written; the other one is as it was. *)
Lemma headed_both {sel} ht0 F0 ht F d m d2 ht' d3 :
  sess sel ht0 F0 ht F d → 0 <= counter (head ht) < UINT32_MAX → sync_post ht d 1 true m d2 →
  headed (set_nodes ht m) ht' → d_nodes d3 = d_nodes d2 → d_blocks d3 = d_blocks d2 →
  d_heads d3 = <[root_vers ht' := head ht']> (d_heads d2) →
  (old_head (set_nodes ht m) d2 → committed ht' d3) → next_tree ht ht' ∧ both_trees ht0 F0 ht' F d d3.
Proof.
  intros Hse Hcnt P Hh Hdn Hb Hhd Hcm. pose proof (post_disk _ _ _ _ _ _ P) as Hdk.
  destruct (sync_unheaded _ _ _ _ _ _ _ Hse ltac:(lia) ltac:(lia) P) as (Hu & Ho & Hr).
  destruct (sess_sync_disk _ _ _ _ _ _ Hse Hdk) as [Hc0 Hr0].
  pose proof (headed_root_vers _ _ Hh) as Hv. pose proof Hh as (E1 & E2 & E3 & E4 & E5 & E6 & E7).
  split; [split; [done|by rewrite E4]|]. split_and!.
  - destruct Hc0 as [H1 H2 H3 H4 H5 H6 H7]. constructor; try done.
    + intros id n Hn. destruct (H3 id n Hn). constructor; try done. by rewrite Hdn.
    + rewrite Hhd, lookup_insert_ne; [done|]. rewrite Hv. unfold root_vers at 1. cbn [set_nodes head].
      rewrite (se_head _ _ _ _ _ Hse). fold (root_vers ht0). by destruct (root_vers ht0).
  - eapply repr_ext; [exact Hr0|done..|]. intros id n Hn. by exists n.
  - by apply Hcm.
  - eapply repr_ext; [exact Hr|done..|]. intros id n Hn. exists n. by rewrite E1.
  - intros k Hk. rewrite Hdn. by apply (sd_keep _ _ _ _ Hdk).
Qed.

Lemma wp_sync_by {sel} ht0 F0 ht F d :
  sess sel ht0 F0 ht F d → 0 <= counter (head ht) < UINT32_MAX →
  wp (tee_fs_htree_sync_to_storage (Some ht)) (sync_done sel ht0 F0 ht F d) (sync_lost sel ht0 F0 ht F d) d.
Proof.
  intros Hse Hcnt. unfold tee_fs_htree_sync_to_storage, sync_done.
  destruct (dirty ht) eqn:Ed; cbn [negb].
  2: { wp_steps. destruct (se_idle _ _ _ _ _ Hse Ed) as [-> ->]. split; [done|].
       split_and!; [done..| | |done]; apply Hse. }
  assert (∀ d1 e d', same d d1 → sync_failed ht 1 d1 e d' → sync_lost sel ht0 F0 ht F d e d') as Hlost.
  { intros d1 e d' Hd1 [Hd Hf]. split; [by apply (same_faults _ _ Hd1)|]. left.
    destruct (sess_sync_disk _ _ _ _ _ _ (sess_same _ _ _ _ _ _ Hse Hd1) Hd) as [Hc Hr]. split_and!; [done..|].
    intros k Hk. apply (sd_keep _ _ _ _ Hd). by rewrite (same_nodes _ _ Hd1). }
  apply wp_bind, wp_ext.
  2: { intros e d1 Hd1 Hf. split; [done|]. left. split_and!.
       - eapply committed_same; [apply Hse|done].
       - eapply repr_same; [apply Hse|done].
       - intros k. by rewrite (same_nodes _ _ Hd1). }
  intros d1 Hd1. pose proof (sess_same _ _ _ _ _ _ Hse Hd1) as Hse1.
  apply wp_bind. unfold htree_traverse_post_order.
  eapply wp_mono; [apply (wp_sync_traverse 33); [apply Hse|lia| |by right|apply Hse1]| |].
  { pose proof (shape_max _ (se_shape _ _ _ _ _ Hse)). unfold top. lia. }
  2: { intros e d'. by apply Hlost. }
  cbv beta. intros ht1 d2 (b & m & -> & P).
  destruct b.
  2: { destruct (post_idle _ _ _ _ _ _ P eq_refl) as [_ Hidle].
       destruct (se_dirty _ _ _ _ _ Hse Ed) as (id & n & Hn & Hdn).
       rewrite (Hidle id n) in Hdn; [done| |done].
       apply (under_1 ht); [apply Hse|by exists n]. }
  destruct (sync_unheaded _ _ _ _ _ _ _ Hse1 ltac:(lia) ltac:(lia) P) as (Hu & Ho & Hr).
  pose proof (post_disk _ _ _ _ _ _ P) as Hdk.
  assert (∀ ht' d3, next_tree ht ht' ∧ both_trees ht0 F0 ht' F d1 d3 → next_tree ht ht' ∧ both_trees ht0 F0 ht' F d d3) as Hd.
  { intros ht' d3 (? & ? & ? & ? & ? & Hk). split; [done|]. split_and!; try done. intros k. rewrite <- (same_nodes _ _ Hd1). apply Hk. }
  change (wp (write_head (set_nodes ht m)) ?Q ?R d2) with (wp (write_head (set_nodes ht m)) Q R d2).
  eapply wp_mono; [by apply (wp_write_head (set_nodes ht m) d2)| |]; cbv beta.
  - intros [ht' h] d3 (Hh & _ & -> & Hdn & Hb & Hhd & Hcm & Hf). split.
    + intros e' E. by apply (same_faults _ _ Hd1), (sd_faults _ _ _ _ Hdk), Hf.
    + split; [done|]. apply Hd. by apply (headed_both (sel := sel) ht0 F0 ht F d1 m d2).
  - intros e d3 [Hf Hor].
    assert (fault d e) as Hfd by (by apply (same_faults _ _ Hd1), (sd_faults _ _ _ _ Hdk)).
    destruct Hor as [Hd3|(ht' & Hh & Hdn & Hb & Hhd & Hcm)].
    + apply (Hlost d1); [done|]. split; [by eapply sync_disk_same|]. by apply (sd_faults _ _ _ _ Hdk).
    + split; [done|]. right. exists ht'. apply Hd. by apply (headed_both (sel := sel) ht0 F0 ht F d1 m d2).
Qed.

Lemma wp_sync ht0 F0 ht F d :
  sess newest ht0 F0 ht F d → 0 <= counter (head ht) < UINT32_MAX →
  wp (tee_fs_htree_sync_to_storage (Some ht))
    (λ '(ht', h) d', committed ht' d' ∧ repr ht' d' F ∧ uuid ht' = uuid ht
       ∧ (if dirty ht then h = Some (root_hash ht') else h = None)
       ∧ counter (head ht) <= counter (head ht') <= counter (head ht) + 1
       ∧ (∀ e, fault d' e → fault d e))
    (λ e d', fault d e ∧ (committed ht0 d' ∧ repr ht0 d' F0 ∨
       ∃ ht', counter (head ht') = counter (head ht) + 1 ∧ uuid ht' = uuid ht ∧ committed ht' d' ∧ repr ht' d' F)) d.
Proof.
  intros Hse Hcnt. eapply wp_mono; [by apply (wp_sync_by (sel := newest) ht0 F0 ht F)| |]; cbv beta.
  - intros [ht' h] d' [Hf Hd]. cbn [fst snd] in Hd. destruct (dirty ht).
    + destruct Hd as (-> & [Hc Hu] & _ & _ & Hcm & Hr & _). split_and!; (done || lia).
    + destruct Hd as ([= -> ->] & -> & -> & Hc & Hr & _). split_and!; (done || lia).
  - intros e d' [Hf [(? & ? & _)|(ht' & [Hc Hu] & _ & _ & Hcm & Hr & _)]]; (split; [done|]); [by left|right].
    by exists ht'.
Qed.

(** ** Changes of the content *)

(** A change marks the nodes it touches; hashes and the versions of the children
    stay as they are until the next synchronisation. *)
Lemma sess_update {sel} ht0 F0 ht F d ht' F' d' :
  sess sel ht0 F0 ht F d →
  shape ht' → head ht' = head ht → fek ht' = fek ht → uuid ht' = uuid ht → dirty ht' = true →
  (∀ id n', nodes ht' !! id = Some n' → n_dirty n' = true ∨
     nodes ht !! id = Some n' ∧ (id = 1 → length (imeta ht') = length (imeta ht))) →
  (∀ id n, nodes ht !! id = Some n → ∃ n', nodes ht' !! id = Some n'
     ∧ hash (node n') = hash (node n) ∧ (n_dirty n = true → n_dirty n' = true)
     ∧ (∀ c, child_bit (flags (node n')) c = child_bit (flags (node n)) c)
     ∧ xorb (block_updated n') (Z.testbit (flags (node n')) HTREE_NODE_COMMITTED_BLOCK)
       = xorb (block_updated n) (Z.testbit (flags (node n)) HTREE_NODE_COMMITTED_BLOCK)) →
  (∀ id n', nodes ht' !! id = Some n' → block_updated n' = true → n_dirty n' = true) →
  (∃ id n', nodes ht' !! id = Some n' ∧ n_dirty n' = true) →
  committed_by sel ht0 d' → repr ht0 d' F0 → repr ht' d' F' → d_nodes d' = d_nodes d →
  sess sel ht0 F0 ht' F' d'.
Proof.
  intros Hse Hs' Hh Hf Hu Hdirty U1 U2 U3 U4 Hc0 Hr0 Hr' Hdn.
  pose proof (shape_ids _ (se_shape _ _ _ _ _ Hse)) as Hs.
  assert (root_vers ht' = root_vers ht) as Hrv by (unfold root_vers; by rewrite Hh).
  constructor; try done.
  - rewrite Hh. apply Hse.
  - rewrite Hf. apply Hse.
  - rewrite Hu. apply Hse.
  - constructor; [|intros id n' _; apply U3]. intros id n' Hun Hn' Hd.
    destruct (U1 id n' Hn') as [|[Hn Hlen]]; [congruence|].
    destruct (pre_clean _ _ _ (se_pre _ _ _ _ _ Hse) id n' Hun Hn Hd) as [Hst Hv]. split.
    + rewrite Hdn, Hrv. etrans; [|exact Hst]. do 2 f_equal. unfold node_vers.
      destruct (Z.eqb_spec id 1); [done|].
      assert (1 <= id <= top ht) by (apply Hs; by exists n').
      destruct (proj2 (Hs (id / 2)) ltac:(dlia)) as [p Hp].
      destruct (U2 _ _ Hp) as (p' & Hp' & _ & _ & Hb & _). by rewrite Hp, Hp'.
    + assert (∀ c, child_hash ht' c = child_hash ht c ∨
        ∃ nc, nodes ht' !! c = Some nc ∧ n_dirty nc = true) as Hch.
      { intros c. unfold child_hash. destruct (nodes ht !! c) as [nc|] eqn:E.
        - destruct (U2 _ _ E) as (nc' & -> & -> & _). by left.
        - destruct (nodes ht' !! c) as [nc'|] eqn:E'; [|by left].
          destruct (U1 _ _ E') as [|[? _]]; [right; eauto|congruence]. }
      destruct Hv as [Hv|(c & nc & Hcc & Hnc & Hdc)].
      * destruct (Hch (2 * id)) as [H1|(nc & ? & ?)]; [|right; exists (2 * id), nc; auto].
        destruct (Hch (2 * id + 1)) as [H2|(nc & ? & ?)]; [|right; exists (2 * id + 1), nc; auto].
        left. revert Hv. unfold valid, node_input. rewrite H1, H2.
        destruct (Z.eqb_spec id 1); [|done]. by rewrite Hlen.
      * right. destruct (U2 _ _ Hnc) as (nc' & ? & _ & Hd' & _). exists c, nc'. auto.
  - by rewrite Hdirty.
  - intros id n0 Hn0. destruct (se_nodes _ _ _ _ _ Hse id n0 Hn0) as (n & Hn & Hb & Hbit).
    destruct (U2 id n Hn) as (n' & Hn' & _ & _ & Hb' & Hbit'). exists n'. split; [done|]. split.
    + intros c. by rewrite Hb', Hb.
    + rewrite Hbit in Hbit'. destruct (block_updated n), (block_updated n'),
        (Z.testbit (flags (node n')) _), (Z.testbit (flags (node n0)) _); done.
Qed.

Lemma sess_set_length {sel} ht0 F0 ht F d len :
  sess sel ht0 F0 ht F d → in_range 64 len →
  sess sel ht0 F0 (set_length ht len) (f_set_length F len) d.
Proof.
  intros Hse Hlen. pose proof (se_shape _ _ _ _ _ Hse) as Hs.
  destruct (proj2 (shape_ids _ Hs 1) ltac:(unfold top; lia)) as [n1 Hn1].
  set (f := λ n, HNode true (block_updated n) (node n)).
  change (nodes (set_length ht len)) with (alter f 1 (nodes ht)).
  assert (∀ id n, nodes ht !! id = Some n → ∃ n', alter f 1 (nodes ht) !! id = Some n'
    ∧ node n' = node n ∧ block_updated n' = block_updated n ∧ (n_dirty n = true → n_dirty n' = true)) as Hup.
  { intros id n Hn. destruct (decide (1 = id)) as [<- |].
    - exists (f n). by rewrite lookup_alter_eq, Hn.
    - exists n. by rewrite lookup_alter_ne. }
  eapply (sess_update ht0 F0 ht F d); try done; try apply Hse.
  - destruct Hs as [A1 A2 A3]. constructor; [|done|done]. intros i.
    cbn. rewrite lookup_alter_is_Some. apply A1.
  - cbn. intros id n'. destruct (decide (1 = id)) as [<- |].
    + rewrite lookup_alter_eq, Hn1. intros [= <-]. by left.
    + rewrite lookup_alter_ne by done. intros Hn. right. split; [done|congruence].
  - intros id n Hn. destruct (Hup id n Hn) as (n' & Hn' & Hnode & Hbu & Hd). exists n'.
    rewrite Hnode, Hbu. done.
  - cbn. intros id n'. destruct (decide (1 = id)) as [<- |].
    + rewrite lookup_alter_eq, Hn1. by intros [= <-].
    + rewrite lookup_alter_ne by done. intros Hn. apply (pre_upd _ _ _ (se_pre _ _ _ _ _ Hse) id); [|done].
      apply (under_1 ht); [apply Hs|by exists n'].
  - exists 1, (f n1). cbn. by rewrite lookup_alter_eq, Hn1.
  - destruct (se_repr _ _ _ _ _ Hse) as [B1 B2 B3]. constructor; [done|done|].
    intros i b Hi. destruct (B3 i b Hi) as (n & c & Hn & Hc & Hl & Hdec).
    destruct (Hup _ n Hn) as (n' & Hn' & Hnode & _). exists n', c. by rewrite Hnode.
Qed.

(** The flags tee_fs_htree_write_block() gives node [n]. *)
Definition write_flags (n : htree_node) : Z :=
  if negb (block_updated n) then toggle (flags (node n)) HTREE_NODE_COMMITTED_BLOCK
  else flags (node n).

Lemma write_flags_child n c : child_bit (write_flags n) c = child_bit (flags (node n)) c.
Proof.
  unfold write_flags, child_bit, HTREE_NODE_COMMITTED_BLOCK, HTREE_NODE_COMMITTED_CHILD.
  destruct (block_updated n); [done|]. cbn [negb]. rewrite testbit_toggle by dlia.
  destruct (Z.eqb_spec 0 (1 + c mod 2)); [dlia|]. apply xorb_false_r.
Qed.

Lemma write_flags_block n :
  Z.testbit (write_flags n) HTREE_NODE_COMMITTED_BLOCK
  = negb (xorb (block_updated n) (Z.testbit (flags (node n)) HTREE_NODE_COMMITTED_BLOCK)).
Proof.
  unfold write_flags. destruct (block_updated n); cbn [negb].
  - by destruct (Z.testbit _ _).
  - unfold HTREE_NODE_COMMITTED_BLOCK. rewrite testbit_toggle by done.
    by rewrite Z.eqb_refl, xorb_true_r, xorb_false_l.
Qed.

(** The tree tee_fs_htree_write_block() leaves. *)
Definition written (ht : tee_fs_htree) (id : Z) (n : htree_node) (iv tag : list Z) : tee_fs_htree :=
  set_dirty (update_hnode ht id
    (λ _, HNode true true (NodeImage (hash (node n)) iv tag (write_flags n)))) true.

(** Block [i] of a session is written: [m] are the nodes get_node() leaves, [n] is
    the block's node among them. *)
Section write.
Context {sel : tee_fs_htree_image → gmap bool tee_fs_htree_image → Prop} (ht0 : tee_fs_htree) (F0 : file) (ht : tee_fs_htree) (F : file) (d d1 : dev).
Context (m : gmap Z htree_node) (i : nat) (b : list Z) (n : htree_node).
Context (wiv crypt wtag : list Z).
Context (Hse : sess sel ht0 F0 ht F d) (Hd : same d d1).
Context (Hi : (i <= List.length (f_blocks F))%nat) (Hlb : List.length b = block_size).
Let t : Z := Z.of_nat i + 1.
Context (Htb : t < UINT32_MAX) (Hg : grown (nodes ht) m (top ht) t).
Context (Hids : has_ids m (Z.max (top ht) t)) (Hn : m !! t = Some n).
Context (Henc : gcm_enc (fek ht) wiv (node_aad ht wiv) b = (crypt, wtag)).

Let ht2 : tee_fs_htree := written (with_node ht m (top ht) t) t n wiv wtag.
Let d2 : dev := set_blocks d1
  (<[(Z.of_nat i, Z.testbit (write_flags n) HTREE_NODE_COMMITTED_BLOCK) := crypt]> (d_blocks d1)).
Let n2 : htree_node := HNode true true (NodeImage (hash (node n)) wiv wtag (write_flags n)).

Lemma write_other id : id ≠ t → m !! id = nodes ht !! id.
Proof.
  intros Hid. rewrite Hg. pose proof (se_repr _ _ _ _ _ Hse) as [_ R2 _].
  assert (t <= top ht + 1) as Htop.
  { unfold t. destruct R2 as [R2|[R2 R2']]; [lia|]. rewrite R2 in Hi. simpl in Hi. lia. }
  destruct (Z.ltb_spec (top ht) id), (Z.leb_spec id t); simpl; done || lia.
Qed.

Lemma write_old n0 : nodes ht !! t = Some n0 → n = n0.
Proof.
  intros Hn0. assert (1 <= t <= top ht) by (apply (shape_ids _ (se_shape _ _ _ _ _ Hse)); eauto).
  rewrite Hg in Hn. destruct (Z.ltb_spec (top ht) t); [lia|]. simpl in Hn. congruence.
Qed.

Lemma write_fields :
  head ht2 = head ht ∧ fek ht2 = fek ht ∧ uuid ht2 = uuid ht ∧ dirty ht2 = true
  ∧ length (imeta ht2) = length (imeta ht) ∧ top ht2 = Z.max (top ht) t
  ∧ (max_node_id (imeta ht2) = max_node_id (imeta ht) ∨ max_node_id (imeta ht2) = t).
Proof.
  unfold ht2, with_node. destruct (Z.ltb_spec (top ht) t); cbn.
  - destruct (Z.ltb_spec (max_node_id (imeta ht)) t); [|unfold top in *; lia].
    unfold top in *. cbn. repeat split; try done; [lia|auto].
  - unfold top in *. cbn. repeat split; try done; [lia|auto].
Qed.

Lemma write_lookup id : nodes ht2 !! id = if decide (t = id) then Some n2 else m !! id.
Proof.
  assert (nodes ht2 = alter (λ _, n2) t m) as ->.
  { unfold ht2, with_node. by destruct (_ && _). }
  case_decide as Hid; [subst id; by rewrite lookup_alter_eq, Hn|]. by rewrite lookup_alter_ne.
Qed.

(** The block goes where the committed tree does not look. *)
Lemma write_committed : committed_by sel ht0 d2 ∧ repr ht0 d2 F0.
Proof.
  pose proof (sess_same _ _ _ _ _ _ Hse Hd) as [Hc Hr _ _ _ _ _ _ _ Hnodes _].
  split.
  { destruct Hc as [? ? Hset]. constructor; try done. intros id k Hk. by destruct (Hset id k Hk). }
  destruct Hr as [B1 B2 B3]. constructor; [done|done|].
  intros j b' Hj. destruct (B3 j b' Hj) as (n0 & c & Hn0 & Hcr & Hl & Hdec).
  exists n0, c. split; [done|]. split; [|done]. unfold d2. cbn [set_blocks d_blocks].
  rewrite lookup_insert_ne; [done|]. intros E.
  assert (j = i) as -> by (injection E; lia). pose proof (f_equal snd E) as Hbit. cbn [snd] in Hbit.
  destruct (Hnodes _ _ Hn0) as (n' & Hn' & _ & Hx).
  rewrite (write_old n') in Hbit by exact Hn'. rewrite write_flags_block, Hx in Hbit.
  by destruct (block_updated n'), (Z.testbit (flags (node n0)) _).
Qed.

Lemma write_repr : repr ht2 d2 (f_write F i b).
Proof.
  destruct write_fields as (E1 & E2 & _ & _ & E5 & E6 & _).
  pose proof (sess_same _ _ _ _ _ _ Hse Hd) as Hse1.
  destruct (se_repr _ _ _ _ _ Hse1) as [R1 R2 R3]. constructor; [rewrite E5; exact R1| |].
  - left. rewrite E6. unfold f_write. cbn. unfold t. assert (1 <= top ht) by (unfold top; lia).
    case_decide as Hlt; [rewrite length_insert|rewrite length_app; simpl];
      destruct R2 as [R2|[R2 R2']]; rewrite ?R2 in *; simpl in *; lia.
  - intros j b' Hj. destruct (decide (j = i)) as [-> |Hne].
    + assert (b' = b) as ->.
      { revert Hj. unfold f_write. cbn. case_decide as Hlt.
        - rewrite list_lookup_insert_eq by done. congruence.
        - rewrite lookup_app_r by lia. replace (i - _)%nat with 0%nat by lia. by intros [= ->]. }
      exists n2, crypt. split; [rewrite write_lookup; by rewrite decide_True|].
      split; [apply lookup_insert_eq|]. split.
      * rewrite <- Hlb. by eapply length_gcm_enc.
      * unfold node_aad in *. rewrite E1, E2. by eapply gcm_dec_enc.
    + assert (f_blocks F !! j = Some b') as Hj'.
      { revert Hj. unfold f_write. cbn. case_decide as Hlt.
        - by rewrite list_lookup_insert_ne.
        - intros [?|[? [Hx ?]%list_lookup_singleton_Some]]%lookup_app_Some; [done|]. lia. }
      destruct (R3 j b' Hj') as (nj & c & Hnj & Hc & Hl & Hdec). exists nj, c.
      rewrite write_lookup. rewrite decide_False by (unfold t; lia).
      rewrite write_other by (unfold t; lia). split; [done|]. split.
      * unfold d2. cbn [set_blocks d_blocks]. rewrite lookup_insert_ne; [done|]. intros [= ?]. lia.
      * unfold node_aad in *. by rewrite E1, E2.
Qed.

Lemma sess_written : sess sel ht0 F0 ht2 (f_write F i b) d2.
Proof.
  destruct write_fields as (E1 & E2 & E3 & E4 & E5 & E6 & E7).
  destruct write_committed as [Hc0 Hr0]. pose proof (se_shape _ _ _ _ _ Hse) as Hs.
  eapply (sess_update ht0 F0 ht F d); try done.
  - destruct Hs as [_ A2 A3]. constructor; [|unfold t in *; lia|by rewrite E5].
    intros id. rewrite E6, write_lookup. rewrite <- (Hids id). case_decide as Hid; [|done].
    subst id. rewrite Hn. split; eauto.
  - intros id n'. rewrite write_lookup. case_decide as Hid; [intros [= <-]; by left|].
    rewrite write_other by done. by right.
  - intros id x Hx. rewrite write_lookup. case_decide as Hid.
    + subst id. rewrite <- (write_old x Hx). exists n2. split; [done|].
      cbn [n2 node hash flags block_updated].
      split; [done|]. split; [done|]. split; [intros c; apply write_flags_child|].
      rewrite write_flags_block. exact (negb_involutive _).
    + exists x. by rewrite write_other.
  - intros id n'. rewrite write_lookup. case_decide as Hid; [by intros [= <-]|].
    rewrite write_other by done.
    intros Hx. apply (pre_upd _ _ _ (se_pre _ _ _ _ _ Hse) id); [|done].
    apply (under_1 ht); [apply Hs|by exists n'].
  - exists t, n2. rewrite write_lookup. by rewrite decide_True.
  - apply write_repr.
  - apply Hd.
Qed.
End write.

Definition lost sel ht0 F0 (d : dev) (e : tee_result) (d' : dev) : Prop :=
  fault d e ∧ committed_by sel ht0 d' ∧ repr ht0 d' F0 ∧ d_nodes d' = d_nodes d.

Lemma sess_lost {sel} ht0 F0 ht F d e d' : sess sel ht0 F0 ht F d → failed d e d' → lost sel ht0 F0 d e d'.
Proof.
  intros Hse [Hd Hf]. split; [done|]. split; [|split].
  - eapply committed_same; [apply Hse|done].
  - eapply repr_same; [apply Hse|done].
  - apply Hd.
Qed.

Lemma wp_write_block {sel} ht0 F0 ht F d i b :
  sess sel ht0 F0 ht F d → (i <= List.length (f_blocks F))%nat → List.length b = block_size →
  Z.of_nat i + 1 < UINT32_MAX →
  wp (tee_fs_htree_write_block (Some ht) (Z.of_nat i) b)
    (λ ht' d', sess sel ht0 F0 ht' (f_write F i b) d' ∧ (∀ e, fault d' e → fault d e)
       ∧ d_nodes d' = d_nodes d)
    (lost sel ht0 F0 d) d.
Proof.
  intros Hse Hi Hlb Hmax. pose proof (se_shape _ _ _ _ _ Hse) as Hs.
  cbn [tee_fs_htree_write_block]. unfold get_block_node, BLOCK_NUM_TO_NODE_ID.
  set (t := Z.of_nat i + 1) in *. apply wp_bind.
  eapply wp_mono; [apply (wp_get_node ht true (top ht) t); [apply Hs|unfold top; lia|lia|by left]| |].
  2: { intros e d'. by apply (sess_lost ht0 F0 ht F). }
  cbv beta. intros ht1 d1 (Hd1 & m & -> & Hg & Hids).
  assert (nodes (with_node ht m (top ht) t) = m ∧ fek (with_node ht m (top ht) t) = fek ht
    ∧ head (with_node ht m (top ht) t) = head ht) as (Em & Ef & Eh)
    by (unfold with_node; by destruct (_ && _)).
  rewrite Em. assert (is_Some (m !! t)) as [n Hn] by (apply (Hids t); lia). rewrite Hn.
  apply wp_bind, wp_ext.
  2: { intros e d2 Hd2 Hf. apply (sess_lost ht0 F0 ht F); [done|]. by eapply failed_trans; [|split]. }
  intros d2 Hd2. apply wp_bind, wp_authenc_encrypt.
  2: { intros e d3 Hd3 Hf. apply (sess_lost ht0 F0 ht F); [done|].
       eapply failed_trans; [|by split]. by etrans. }
  intros iv' crypt tag' d3 Hd3 Henc. fold (write_flags n).
  assert (gcm_enc (fek ht) iv' (node_aad ht iv') b = (crypt, tag')) as Henc'.
  { unfold node_aad in *. by rewrite <- Ef, <- Eh. }
  assert (same d d3) as Hs3 by (etrans; [done|]; by etrans).
  apply wp_bind, wp_ext_write.
  - intros d4 Hd4. assert (same d d4) as Hs4 by (by etrans). wp_steps. split.
    + by apply (sess_written ht0 F0 ht F d d4 m i b n iv' crypt tag').
    + split; apply Hs4.
  - intros e d4 Hd4 Hf. assert (same d d4) as Hs4 by (by etrans).
    assert (fault d e) as Hf' by by apply (same_faults _ _ Hs3).
    split; [by apply (sess_lost ht0 F0 ht F)|]. split; [done|].
    rewrite (assoc (∧)). split; [by eapply write_committed|apply Hs4].
Qed.

Lemma wp_read_block ht F d i b :
  shape ht → repr ht d F → f_blocks F !! i = Some b →
  wp (tee_fs_htree_read_block block_size (Some ht) (Z.of_nat i)) (λ r d', r = b ∧ same d d')
    (failed d) d.
Proof.
  intros Hs Hr Hi. destruct (repr_blocks _ _ _ Hr i b Hi) as (n & c & Hn & Hc & Hl & Hdec).
  assert (1 <= Z.of_nat i + 1 <= top ht) as Hid by (apply (shape_ids _ Hs); by exists n).
  pose proof (shape_max _ Hs) as Hmx.
  cbn [tee_fs_htree_read_block]. unfold get_block_node, BLOCK_NUM_TO_NODE_ID. apply wp_bind.
  eapply wp_mono; [apply (wp_get_node ht false (top ht) (Z.of_nat i + 1));
    [apply Hs|lia|unfold top in *; lia|right; lia]| |done].
  cbv beta. intros ht1 d1 (Hd1 & m & -> & Hg & _). unfold with_node.
  rewrite (proj2 (Z.ltb_ge _ _)) by lia. cbn [andb set_nodes nodes fek].
  rewrite Hg. rewrite (proj2 (Z.ltb_ge _ _)) by lia. cbn [andb]. rewrite Hn.
  apply wp_bind, wp_ext; [|intros; eapply failed_trans; [done|by split]]. intros d2 Hd2.
  apply wp_bind, wp_get, wp_bind. apply (wp_of_option _ c).
  { by rewrite (same_blocks _ _ Hd2), (same_blocks _ _ Hd1). }
  rewrite Hl, Nat.eqb_refl. cbn [negb]. unfold authenc_decrypt.
  apply wp_bind, wp_ext; [|intros; eapply failed_trans; [|by split]; by etrans]. intros d3 Hd3.
  change (node_aad (set_nodes ht m) (n_iv (node n))) with (node_aad ht (n_iv (node n))).
  rewrite Hdec. wp_steps. split; [done|]. etrans; [done|]. by etrans.
Qed.

(** ** Whole sessions *)

Inductive op :=
| OpWrite (i : nat) (b : list Z)
| OpLength (len : Z).

Definition run_op (ht : tee_fs_htree) (o : op) : D tee_fs_htree :=
  match o with
  | OpWrite i b => tee_fs_htree_write_block (Some ht) (Z.of_nat i) b
  | OpLength len => mret (set_length ht len)
  end.

Fixpoint run_ops (ht : tee_fs_htree) (os : list op) : D tee_fs_htree :=
  match os with
  | [] => mret ht
  | o :: os => ht ← run_op ht o; run_ops ht os
  end.

(** The operations on the abstract file. *)
Definition apply_op (F : file) (o : op) : file :=
  match o with OpWrite i b => f_write F i b | OpLength len => f_set_length F len end.
Definition apply_ops : file → list op → file := foldl apply_op.

Definition op_ok (F : file) (o : op) : Prop :=
  match o with
  | OpWrite i b => (i <= List.length (f_blocks F))%nat ∧ List.length b = block_size
                   ∧ Z.of_nat i + 1 < UINT32_MAX
  | OpLength len => in_range 64 len
  end.
Fixpoint ops_ok (F : file) (os : list op) : Prop :=
  match os with [] => True | o :: os => op_ok F o ∧ ops_ok (apply_op F o) os end.

(** Open, change, synchronise. *)
Definition session (u : list Z) (os : list op) : D (tee_fs_htree * option (list Z)) :=
  ht ← tee_fs_htree_open false None u;
  ht ← run_ops ht os;
  tee_fs_htree_sync_to_storage (Some ht).

Lemma wp_run_ops {sel} ht0 F0 ht F d os :
  sess sel ht0 F0 ht F d → ops_ok F os →
  wp (run_ops ht os)
    (λ ht' d', sess sel ht0 F0 ht' (apply_ops F os) d' ∧ (∀ e, fault d' e → fault d e) ∧ d_nodes d' = d_nodes d)
    (lost sel ht0 F0 d) d.
Proof.
  revert ht F d. induction os as [|o os IH]; intros ht F d Hse Hok; cbn [run_ops].
  { by wp_steps. }
  destruct Hok as [Ho Hos]. apply wp_bind.
  eapply wp_mono with (Q := λ ht' d', sess sel ht0 F0 ht' (apply_op F o) d' ∧ (∀ e, fault d' e → fault d e) ∧ d_nodes d' = d_nodes d).
  - destruct o as [i b|len]; cbn [run_op apply_op]; [|wp_steps; split; [by apply sess_set_length|by split]].
    destruct Ho as (? & ? & ?). by apply wp_write_block.
  - intros ht1 d1 (Hse1 & Hf1 & Hn1). eapply wp_mono; [by apply IH| |].
    + cbv beta. intros ht2 d2 (Hse2 & Hf2 & Hn2). split_and!; [done|auto|congruence].
    + intros e d2 (Hf2 & Hc2 & Hr2 & Hn2). split_and!; [auto|done|done|congruence].
  - done.
Qed.

(** A whole session: open, change, synchronise. *)
Lemma wp_session u c F os d :
  holds u c F d → c < UINT32_MAX → ops_ok F os →
  wp (session u os)
    (λ '(ht, h) d', holds u (c + 1) (apply_ops F os) d' ∧ tee_fs_htree_get_meta ht = f_length (apply_ops F os))
    (λ e d', fault d e ∧ (holds u c F d' ∨ holds u (c + 1) (apply_ops F os) d'))
    d.
Proof.
  intros (ht0 & <- & Hcnt & Hc & Hr) Hlt Hok. unfold session. apply wp_bind.
  eapply wp_mono; [by apply (wp_open ht0)| |]; cbv beta.
  2: { intros e d1 [Hd1 Hf]. split; [done|]. left. exists ht0.
       split; [done|]. split; [done|]. split; [by eapply committed_same|by eapply repr_same]. }
  intros ht d1 [Hd1 ->].
  pose proof (sess_open ht0 F d1 (committed_same _ _ _ Hc Hd1) (repr_same _ _ _ _ Hr Hd1)) as Hse.
  apply wp_bind. eapply wp_mono; [by apply (wp_run_ops (sel := newest) ht0 F ht0 F d1 os)| |]; cbv beta.
  2: { intros e d2 (Hf & Hc2 & Hr2 & _). split; [by apply (same_faults _ _ Hd1)|].
       left. by exists ht0. }
  intros ht1 d2 (Hse1 & Hf1 & _).
  pose proof (se_head _ _ _ _ _ Hse1) as Eh. pose proof (se_uuid _ _ _ _ _ Hse1) as Eu.
  eapply wp_mono; [apply (wp_sync ht0 F ht1 (apply_ops F os)); [done|rewrite Eh; lia]| |]; cbv beta.
  - intros [ht2 h] d3 (Hc3 & Hr3 & Hu3 & _ & Hcnt3 & _). rewrite Eh in Hcnt3. split.
    + exists ht2. rewrite Hu3, Eu. split; [done|]. split; [lia|done].
    + symmetry. apply (repr_length _ _ _ Hr3).
  - intros e d3 [Hf Hor]. split; [by apply (same_faults _ _ Hd1), Hf1|].
    destruct Hor as [[Hc3 Hr3]|(ht2 & Hcnt3 & Hu3 & Hc3 & Hr3)]; [left; by exists ht0|right].
    exists ht2. rewrite Hu3, Eu. rewrite Eh in Hcnt3. split; [done|]. split; [lia|done].
Qed.

(** C1: an update of a file is atomic whatever fails. From a file that holds [F],
    tee_fs_htree_open(), any sequence of block writes (each within the file or right
    behind its last block) and changes of the length, and
    tee_fs_htree_sync_to_storage() leave a file that holds the updated content; and
    when any external call of the session fails (a write carried out or not), the
    file holds either [F] or the updated content. Without a failing call no
    operation fails. *)
Theorem htree_crash_atomic u c F os d :
  holds u c F d → c < UINT32_MAX → ops_ok F os →
  wp (session u os)
    (λ '(ht, h) d', holds u (c + 1) (apply_ops F os) d' ∧ tee_fs_htree_get_meta ht = f_length (apply_ops F os))
    (λ e d', fault d e ∧ (holds u c F d' ∨ holds u (c + 1) (apply_ops F os) d'))
    d.
Proof. exact (wp_session u c F os d). Qed.

(** C36: a file that holds [F] is opened successfully and reads as [F]:
    tee_fs_htree_get_meta() is its length and tee_fs_htree_read_block() of each
    of its blocks returns the block, also in the middle of a session, where it
    returns what was written last. *)
Theorem htree_reads_back u c F os i b d :
  holds u c F d → ops_ok F os → f_blocks (apply_ops F os) !! i = Some b →
  wp (ht ← tee_fs_htree_open false None u;
      ht ← run_ops ht os;
      r ← tee_fs_htree_read_block block_size (Some ht) (Z.of_nat i);
      mret (tee_fs_htree_get_meta ht, r))
    (λ r _, r = (f_length (apply_ops F os), b)) (λ e _, fault d e) d.
Proof.
  intros (ht0 & <- & Hcnt & Hc & Hr) Hok Hb. apply wp_bind.
  eapply wp_mono; [by apply (wp_open ht0)| |by intros e d1 []]; cbv beta.
  intros ht d1 [Hd1 ->].
  pose proof (sess_open ht0 F d1 (committed_same _ _ _ Hc Hd1) (repr_same _ _ _ _ Hr Hd1)) as Hse.
  apply wp_bind. eapply wp_mono; [by apply (wp_run_ops (sel := newest) ht0 F ht0 F d1 os)| |]; cbv beta.
  2: { intros e d2 [Hf _]. by apply (same_faults _ _ Hd1). }
  intros ht1 d2 (Hse1 & Hf1 & _). apply wp_bind.
  eapply wp_mono; [eapply wp_read_block; [apply Hse1|apply Hse1|done]| |]; cbv beta.
  - intros r d3 [-> _]. wp_steps. f_equal. symmetry. apply (repr_length _ _ _ (se_repr _ _ _ _ _ Hse1)).
  - intros e d3 [_ Hf]. by apply (same_faults _ _ Hd1), Hf1.
Qed.

(** ** Creation *)

Lemma wp_create_sync u k d :
  let ht := Htree {[1 := HNode true false (NodeImage (sha256 (node_input
      (Htree ∅ (Image (replicate 16 0) (replicate 16 0) (fek_enc u k) (replicate 16 0) 0) k (Imeta 0 0) false u)
      1 true zero_image)) (replicate 16 0) (replicate 16 0) 0)]}
    (Image (replicate 16 0) (replicate 16 0) (fek_enc u k) (replicate 16 0) 0) k (Imeta 0 0) true u in
  wp (tee_fs_htree_sync_to_storage (Some ht))
    (λ '(ht', _) d', uuid ht' = u ∧ counter (head ht') = 1
       ∧ committed ht' (set_heads d' (<[false := zero_head]> (d_heads d')))
       ∧ repr ht' d' (File 0 []) ∧ (∀ e, fault d' e → fault d e)
       ∧ (∀ k, is_Some (d_nodes d !! k) → is_Some (d_nodes d' !! k)))
    (λ e _, fault d e) d.
Proof.
  intros ht. cbn [tee_fs_htree_sync_to_storage dirty negb ht].
  assert (shape ht) as Hs.
  { constructor; [|done|done]. intros i. unfold top. cbn.
    destruct (decide (i = 1)) as [-> |].
    - rewrite lookup_singleton_eq. split; [lia|eauto].
    - rewrite lookup_singleton_ne by done. split; [by intros [? ?]|lia]. }
  apply wp_bind, wp_ext; [|done]. intros d1 Hd1. apply wp_bind. unfold htree_traverse_post_order.
  eapply wp_mono; [apply (wp_sync_traverse 33 ht d1 1); [done|lia|done|by right|]| |].
  { constructor; intros id n _; cbn; (destruct (decide (id = 1)) as [-> |];
      [rewrite lookup_singleton_eq|by rewrite lookup_singleton_ne]); by intros [= <-]. }
  2: { intros e d' [_ Hf]. by apply (same_faults _ _ Hd1). }
  cbv beta. intros ht1 d2 (b & m & -> & P). destruct b.
  2: { destruct (post_idle _ _ _ _ _ _ P eq_refl) as [_ Hi]. exfalso.
       assert (true = false); [|done].
       exact (Hi 1 _ (under_refl 1) (lookup_singleton_eq 1 _)). }
  assert (unheaded (set_nodes ht m) d2) as Hu.
  { constructor; [|intros id n Hn|by cbn; rewrite fek_dec_enc|by cbn].
    - constructor; [|apply Hs|apply Hs]. intros i. cbn. rewrite (post_ids _ _ _ _ _ _ P). apply Hs.
    - apply (post_settled _ _ _ _ _ _ P id n); [|done].
      apply (under_1 ht); [apply Hs|]. apply (post_ids _ _ _ _ _ _ P). by exists n. }
  pose proof (post_disk _ _ _ _ _ _ P) as Hdk.
  eapply wp_mono; [by apply (wp_write_head (set_nodes ht m) d2)| |]; cbv beta.
  - intros [ht' h] d3 (Hh & Ha & _ & Hdn & Hb & Hhd & _ & Hf). pose proof Hh as (E1&E2&E3&E4&E5&E6&E7).
    cbn in E6. split; [done|]. split; [done|].
    assert (root_vers ht' = true) as Hrv by (rewrite (headed_root_vers _ _ Hh); done).
    split; [|split].
    + eapply (headed_committed (set_nodes ht m) ht' d2 _ zero_head); try done.
      * cbn [set_heads d_heads]. rewrite Hrv, lookup_insert_ne by done. rewrite Hhd, Hrv.
        apply lookup_insert_eq.
      * cbn [set_heads d_heads]. rewrite Hrv. apply lookup_insert_eq.
      * cbn. lia.
      * by rewrite Hrv.
    + constructor; [by rewrite E2|right; unfold top; by rewrite E2|done].
    + split; [intros e' E; by apply (same_faults _ _ Hd1), (sd_faults _ _ _ _ Hdk), Hf|].
      intros i Hi. rewrite Hdn. apply (sd_keep _ _ _ _ Hdk). by rewrite (same_nodes _ _ Hd1).
  - intros e d3 [Hf _]. by apply (same_faults _ _ Hd1), (sd_faults _ _ _ _ Hdk).
Qed.

(** The tree made is the one in the file. *)
Lemma wp_create_tree hash_arg u d :
  wp (tee_fs_htree_open true hash_arg u)
    (λ ht d', committed ht d' ∧ repr ht d' (File 0 []) ∧ uuid ht = u ∧ counter (head ht) = 1
       ∧ (∀ e, fault d' e → fault d e) ∧ (∀ k, is_Some (d_nodes d !! k) → is_Some (d_nodes d' !! k)))
    (λ e _, fault d e) d.
Proof.
  unfold tee_fs_htree_open. apply wp_bind, wp_ext; [|done]. intros d1 Hd1. cbv zeta.
  apply wp_bind, wp_rng.
  2: { intros e d2 _ Hf. by apply (same_faults _ _ Hd1). }
  intros k d2 Hd2. apply wp_bind, wp_ext.
  2: { intros e d3 _ Hf. by apply (same_faults _ _ Hd1), (same_faults _ _ Hd2). }
  intros d3 Hd3. apply wp_bind. unfold init_root_node.
  assert (same d d3) as Hs by (etrans; [done|]; by etrans).
  apply wp_bind, wp_ext.
  2: { intros e d4 _ Hf. by apply (same_faults _ _ Hs). }
  intros d4 Hd4. apply wp_bind, wp_calc_node_hash.
  2: { intros e d5 _ Hf. by apply (same_faults _ _ Hs), (same_faults _ _ Hd4). }
  intros d5 Hd5. assert (same d d5) as Hs5 by (etrans; [done|]; by etrans).
  apply wp_ret, wp_bind.
  eapply wp_mono; [apply (wp_create_sync u k d5)| |]; cbv beta.
  2: { intros e d6 Hf. by apply (same_faults _ _ Hs5). }
  intros [ht h] d6 (Hu & Hcnt & Hcm & Hr & Hf & Hk). apply wp_bind, wp_ext_write.
  2: { intros e d7 _ Hf7. assert (fault d e); [|done]. by apply (same_faults _ _ Hs5), Hf. }
  intros d7 Hd7. wp_steps. split_and!; [| |done|done| |].
  - eapply committed_same; [exact Hcm|]. destruct Hd7. constructor; cbn; congruence || auto.
  - eapply repr_ext; [exact Hr|done..| |intros id n Hn; by exists n]. apply Hd7.
  - intros e E. by apply (same_faults _ _ Hs5), Hf, (same_faults _ _ Hd7).
  - intros i Hi. cbn [set_heads d_nodes]. rewrite (same_nodes _ _ Hd7). apply Hk.
    by rewrite (same_nodes _ _ Hs5).
Qed.

Lemma wp_create u d :
  wp (tee_fs_htree_open true None u)
    (λ ht d', holds u 1 (File 0 []) d' ∧ uuid ht = u ∧ tee_fs_htree_get_meta ht = 0)
    (λ e _, fault d e) d.
Proof.
  eapply wp_mono; [apply (wp_create_tree None u d)| |done]; cbv beta.
  intros ht d' (Hc & Hr & Hu & Hcnt & _). split; [|split; [done|]].
  - exists ht. split; [done|]. split; [lia|done].
  - symmetry. apply (repr_length _ _ _ Hr).
Qed.
(** Tee_fs_htree_open() with [create] makes an empty file, whatever was stored
    before, and can only fail when a call it makes fails. *)
Lemma htree_create_empty u d :
  wp (tee_fs_htree_open true None u)
    (λ ht d', holds u 1 (File 0 []) d' ∧ uuid ht = u ∧ tee_fs_htree_get_meta ht = 0)
    (λ e _, fault d e) d.
Proof. apply wp_create. Qed.

(** ** Integrity *)

(** The size of the arrays and of the flags of a node image. *)
Record image_ok (n : tee_fs_htree_node_image) : Prop := {
  io_hash : List.length (hash n) = TEE_FS_HTREE_HASH_SIZE;
  io_iv : List.length (n_iv n) = TEE_FS_HTREE_IV_SIZE;
  io_tag : List.length (n_tag n) = TEE_FS_HTREE_TAG_SIZE;
  io_flags : in_range 16 (flags n);
}.

(** A complete tree all of whose hashes are right. *)
Record verified (ht : tee_fs_htree) : Prop := {
  vf_ids : has_ids (nodes ht) (top ht);
  vf_valid : ∀ id n, nodes ht !! id = Some n → valid ht id n;
  vf_image : ∀ id n, nodes ht !! id = Some n → image_ok (node n) ∧ n = HNode false false (node n);
}.

(** SHA-256 has collided on the two trees: they have a node with one id and one
    digest although what is hashed for it (its iv, tag and flags, for the root the
    length of the file, and the digests of its children) differs. *)
Definition node_collision (ht1 ht2 : tee_fs_htree) : Prop :=
  ∃ id n1 n2, nodes ht1 !! id = Some n1 ∧ nodes ht2 !! id = Some n2
    ∧ node_input ht1 id (id =? 1) (node n1) ≠ node_input ht2 id (id =? 1) (node n2)
    ∧ sha256 (node_input ht1 id (id =? 1) (node n1)) = sha256 (node_input ht2 id (id =? 1) (node n2)).

Lemma le_bytes_inj n a b :
  le_bytes n a = le_bytes n b → a mod 256 ^ Z.of_nat n = b mod 256 ^ Z.of_nat n.
Proof. intros E. by rewrite <- !le_value_mod, E. Qed.

(** The hash input determines what is hashed. *)
Lemma node_input_inj ht1 ht2 id meta n1 n2 :
  image_ok n1 → image_ok n2 →
  node_input ht1 id meta n1 = node_input ht2 id meta n2 →
  n_iv n1 = n_iv n2 ∧ n_tag n1 = n_tag n2 ∧ flags n1 = flags n2
  ∧ (meta = true → wrap 64 (length (imeta ht1)) = wrap 64 (length (imeta ht2)))
  ∧ child_hash ht1 (2 * id) ++ child_hash ht1 (2 * id + 1)
    = child_hash ht2 (2 * id) ++ child_hash ht2 (2 * id + 1).
Proof.
  intros [_ I1 T1 F1] [_ I2 T2 F2]. unfold node_input. intros E.
  apply app_inj_1 in E as [Ei E]; [|by rewrite I1, I2].
  apply app_inj_1 in E as [Et E]; [|by rewrite T1, T2].
  apply app_inj_1 in E as [Ef E]; [|by rewrite !length_le_bytes].
  apply app_inj_1 in E as [Em Ec]; [|by destruct meta; rewrite ?length_le_bytes].
  split; [done|]. split; [done|]. split.
  - apply le_bytes_inj in Ef. change (256 ^ Z.of_nat 2) with (2 ^ 16) in Ef.
    by rewrite !Z.mod_small in Ef.
  - split; [|done]. intros ->. by apply le_bytes_inj in Em.
Qed.

Lemma verified_child_length ht id :
  verified ht → List.length (child_hash ht id) = if bool_decide (is_Some (nodes ht !! id)) then 32%nat else 0%nat.
Proof.
  intros Hv. unfold child_hash. destruct (nodes ht !! id) as [n|] eqn:E; [|done].
  rewrite bool_decide_eq_true_2 by eauto. apply (vf_image _ Hv id n E).
Qed.

Lemma verified_children ht1 ht2 id c :
  verified ht1 → verified ht2 → 1 <= id →
  child_hash ht1 (2 * id) ++ child_hash ht1 (2 * id + 1)
    = child_hash ht2 (2 * id) ++ child_hash ht2 (2 * id + 1) →
  c / 2 = id →
  (is_Some (nodes ht1 !! c) ↔ is_Some (nodes ht2 !! c)) ∧ child_hash ht1 c = child_hash ht2 c.
Proof.
  intros H1 H2 Hid E Hc. assert (c = 2 * id ∨ c = 2 * id + 1) as Hc' by dlia.
  assert (∀ ht, verified ht → is_Some (nodes ht !! (2 * id + 1)) → is_Some (nodes ht !! (2 * id))) as Hl.
  { intros ht Hv. rewrite !(vf_ids _ Hv _). lia. }
  pose proof (Hl _ H1) as L1. pose proof (Hl _ H2) as L2.
  pose proof (f_equal List.length E) as El. rewrite !length_app, !verified_child_length in El by done.
  assert (List.length (child_hash ht1 (2 * id)) = List.length (child_hash ht2 (2 * id))) as Hlen.
  { rewrite !verified_child_length by done. revert El. repeat case_bool_decide; simpl; try lia; tauto. }
  apply app_inj_1 in E as [Ea Eb]; [|done]. rewrite !verified_child_length in Hlen by done.
  revert El Hlen. destruct Hc' as [-> | ->]; repeat case_bool_decide; simpl; intros; try lia; split; tauto.
Qed.

(** No two of the trees' hash inputs collide. *)
Definition no_collision (ht1 ht2 : tee_fs_htree) : Prop :=
  map_Forall (λ id n1, match nodes ht2 !! id with
    | Some n2 =>
      sha256 (node_input ht1 id (id =? 1) (node n1)) ≠ sha256 (node_input ht2 id (id =? 1) (node n2))
      ∨ node_input ht1 id (id =? 1) (node n1) = node_input ht2 id (id =? 1) (node n2)
    | None => True end) (nodes ht1).

Lemma no_collision_or ht1 ht2 : node_collision ht1 ht2 ∨ no_collision ht1 ht2.
Proof.
  match goal with |- _ ∨ ?P => assert (Decision P) as [|Hn] end.
  { apply map_Forall_dec. intros id n1. destruct (nodes ht2 !! id); apply _. }
  { by right. }
  left. apply map_not_Forall in Hn as (id & n1 & H1 & Hn).
  - destruct (nodes ht2 !! id) as [n2|] eqn:H2; [|done]. exists id, n1, n2.
    split; [done|]. split; [done|].
    destruct (decide (sha256 (node_input ht1 id (id =? 1) (node n1))
      = sha256 (node_input ht2 id (id =? 1) (node n2)))); [|tauto].
    split; [|done]. tauto.
  - intros i x. destruct (nodes ht2 !! i); apply _.
Qed.

(** A check that finds no collision. *)
Lemma no_node_collision ht1 ht2 :
  forallb (λ p, match nodes ht2 !! p.1 with
    | Some n2 => bool_decide (node_input ht1 p.1 (p.1 =? 1) (node p.2) = node_input ht2 p.1 (p.1 =? 1) (node n2)
        ∨ sha256 (node_input ht1 p.1 (p.1 =? 1) (node p.2)) ≠ sha256 (node_input ht2 p.1 (p.1 =? 1) (node n2)))
    | None => true end) (map_to_list (nodes ht1)) = true →
  ¬ node_collision ht1 ht2.
Proof.
  rewrite forallb_forall. intros Hb (id & n1 & n2 & H1 & H2 & Hne & He).
  specialize (Hb (id, n1)). cbn [fst snd] in Hb. rewrite H2 in Hb.
  destruct (bool_decide_eq_true_1 _ (Hb (proj1 (list_elem_of_In _ _) (proj2 (elem_of_map_to_list _ _ _) H1)))); done.
Qed.

(** Two verified trees with one root hash are the same tree. *)
Lemma verified_same ht1 ht2 :
  verified ht1 → verified ht2 → root_hash ht1 = root_hash ht2 →
  no_collision ht1 ht2 →
  nodes ht1 = nodes ht2 ∧ wrap 64 (length (imeta ht1)) = wrap 64 (length (imeta ht2)).
Proof.
  intros H1 H2 Hroot Hcoll.
  assert (∀ id n1 n2, nodes ht1 !! id = Some n1 → nodes ht2 !! id = Some n2 →
    hash (node n1) = hash (node n2) →
    n1 = n2 ∧ (id = 1 → wrap 64 (length (imeta ht1)) = wrap 64 (length (imeta ht2)))
    ∧ child_hash ht1 (2 * id) ++ child_hash ht1 (2 * id + 1)
      = child_hash ht2 (2 * id) ++ child_hash ht2 (2 * id + 1)) as Hstep.
  { intros id n1 n2 Hn1 Hn2 Hh.
    destruct (vf_image _ H1 _ _ Hn1) as [O1 E1], (vf_image _ H2 _ _ Hn2) as [O2 E2].
    assert (node_input ht1 id (id =? 1) (node n1) = node_input ht2 id (id =? 1) (node n2)) as Hin.
    { specialize (Hcoll id n1 Hn1). cbv beta in Hcoll. rewrite Hn2 in Hcoll.
      destruct Hcoll as [Hne|]; [|done]. destruct Hne.
      by rewrite <- (vf_valid _ H1 _ _ Hn1), <- (vf_valid _ H2 _ _ Hn2). }
    apply node_input_inj in Hin as (Ei & Et & Ef & Em & Ec); [|done..].
    split; [|split; [|done]].
    - rewrite E1, E2. f_equal. destruct (node n1), (node n2). simpl in *. congruence.
    - intros ->. by apply Em. }
  assert (is_Some (nodes ht1 !! 1)) as [r1 Hr1] by (apply (vf_ids _ H1); unfold top; lia).
  assert (is_Some (nodes ht2 !! 1)) as [r2 Hr2] by (apply (vf_ids _ H2); unfold top; lia).
  assert (hash (node r1) = hash (node r2)) as Hrh.
  { unfold root_hash, child_hash in Hroot. by rewrite Hr1, Hr2 in Hroot. }
  split; [|by apply (Hstep 1 r1 r2)].
  assert (∀ id, 0 <= id → nodes ht1 !! id = nodes ht2 !! id) as Hall.
  { intros id Hid. pattern id. apply Zlt_0_ind; [|done]. clear id Hid. intros id IH Hid.
    destruct (decide (id = 0)) as [-> |].
    { rewrite (has_ids_None _ _ 0 (vf_ids _ H1)), (has_ids_None _ _ 0 (vf_ids _ H2)) by lia. done. }
    destruct (decide (id = 1)) as [-> |].
    { destruct (Hstep 1 r1 r2 Hr1 Hr2 Hrh) as [-> _]. congruence. }
    specialize (IH (id / 2) ltac:(dlia)).
    destruct (nodes ht1 !! (id / 2)) as [p|] eqn:Ep.
    - destruct (Hstep _ p p Ep (eq_sym IH) eq_refl) as (_ & _ & Hch).
      destruct (verified_children ht1 ht2 (id / 2) id H1 H2 ltac:(dlia) Hch eq_refl) as [Hiff Hhash].
      unfold child_hash in Hhash.
      destruct (nodes ht1 !! id) as [n1|] eqn:N1, (nodes ht2 !! id) as [n2|] eqn:N2.
      + f_equal. by apply (Hstep id n1 n2).
      + by destruct (proj1 Hiff ltac:(eauto)).
      + by destruct (proj2 Hiff ltac:(eauto)).
      + done.
    - rewrite (has_ids_None _ _ id (vf_ids _ H1)), (has_ids_None _ _ id (vf_ids _ H2)); [done|..].
      + intros Hin. destruct (proj2 (vf_ids _ H2 (id / 2)) ltac:(dlia)) as [? ?]. congruence.
      + intros Hin. destruct (proj2 (vf_ids _ H1 (id / 2)) ltac:(dlia)) as [? ?]. congruence. }
  apply map_eq. intros id. destruct (Z.leb_spec 0 id); [by apply Hall|].
  by rewrite (has_ids_None _ _ id (vf_ids _ H1)), (has_ids_None _ _ id (vf_ids _ H2)) by lia.
Qed.

(** *** What an open that succeeds has checked *)

Lemma ok_ext (Q : unit → dev → Prop) d : (∀ d', same d d' → Q tt d') → ok ext Q d.
Proof. intros HQ. by apply (ok_wp _ _ (λ _ _, True)), wp_ext. Qed.

Lemma ok_of_option {A} (o : option A) (Q : A → dev → Prop) d :
  (∀ a, o = Some a → Q a d) → ok (of_option o) Q d.
Proof. intros HQ a d' E. destruct o; [|done]. injection E as -> ->. by apply HQ. Qed.

Lemma ok_read_node id v (Q : _ → dev → Prop) d :
  (∀ d' n, same d d' → d_nodes d !! (id, v) = Some n → Q n d') → ok (rpc_read_node id v) Q d.
Proof.
  intros HQ. unfold rpc_read_node. apply ok_bind, ok_ext. intros d' Hd. apply ok_bind.
  apply (ok_wp _ _ (λ _ _, True)), wp_get, ok_of_option. intros n Hn. apply HQ; [done|].
  by rewrite <- (same_nodes _ _ Hd).
Qed.

Lemma ok_read_head v (Q : _ → dev → Prop) d :
  (∀ d' h, same d d' → Q h d') → ok (rpc_read_head v) Q d.
Proof.
  intros HQ. unfold rpc_read_head. apply ok_bind, ok_ext. intros d' Hd. apply ok_bind.
  apply (ok_wp _ _ (λ _ _, True)), wp_get, ok_of_option. intros h _. by apply HQ.
Qed.

(** Every node image of the file has the right size. *)
Definition images_ok (d : dev) : Prop := ∀ k n, d_nodes d !! k = Some n → image_ok n.

Lemma images_ok_same d d' : images_ok d → same d d' → images_ok d'.
Proof. intros Hi Hd k n. rewrite (same_nodes _ _ Hd). apply Hi. Qed.

(** The nodes up to [t] have been read in. *)
Definition read_in (m : gmap Z htree_node) (t : Z) : Prop :=
  has_ids m t ∧ ∀ id n, m !! id = Some n → image_ok (node n) ∧ n = HNode false false (node n).

Lemma ok_init_head ht h d :
  images_ok d →
  ok (init_head_from_data ht (Some h))
    (λ ht' d', images_ok d' ∧ ∃ n hd, hash n = h ∧ image_ok n
       ∧ ht' = set_head (set_nodes ht {[1 := HNode false false n]}) hd) d.
Proof.
  intros Hok. cbn [init_head_from_data]. apply ok_bind, ok_read_node. intros d1 n0 Hd1 Hn0.
  case_bool_decide as E0.
  { apply ok_bind, ok_read_head. intros d2 hd Hd2. apply ok_ret. split.
    - eapply images_ok_same; [done|]. by etrans.
    - exists n0, hd. split; [done|]. split; [by eapply Hok|done]. }
  apply ok_bind, ok_read_node. intros d2 n1 Hd2 Hn1. case_bool_decide as E1; [|apply ok_throw].
  apply ok_bind, ok_read_head. intros d3 hd Hd3. apply ok_ret. split.
  - eapply images_ok_same; [done|]. etrans; [done|]. by etrans.
  - exists n1, hd. split; [done|]. split; [|done]. eapply (images_ok_same _ _ Hok Hd1). done.
Qed.

Lemma ok_init_tree_loop ht d t k :
  images_ok d → 1 <= t → read_in (nodes ht) t → t + Z.of_nat k <= Z.max t (max_node_id (imeta ht)) →
  ok (init_tree_loop ht (t + 1) k)
    (λ ht' _, read_in (nodes ht') (t + Z.of_nat k) ∧ imeta ht' = imeta ht
       ∧ nodes ht' !! 1 = nodes ht !! 1 ∧ (k = 0%nat ∨ t + Z.of_nat k < UINT32_MAX)) d.
Proof.
  revert ht d t. induction k as [|k IH]; intros ht d t Hok Ht [Hids Him] Hk; cbn [init_tree_loop].
  { apply ok_ret. rewrite Z.add_0_r. split; [done|]. auto. }
  destruct (find_node ht ((t + 1) / 2)) as [p|]; [|apply ok_throw].
  apply ok_bind, ok_read_node. intros d1 n Hd1 Hn. apply ok_bind.
  destruct (Z.ltb_spec (t + 1) UINT32_MAX) as [Hlt|Hge].
  2: { intros ht' d' E. exfalso. revert E. unfold get_node, node_id_valid, massert, mbind, M_bind.
       rewrite (proj2 (Z.ltb_ge (t + 1) UINT32_MAX)) by lia. by rewrite andb_false_r. }
  apply (ok_wp _ _ (failed d1)).
  eapply wp_mono; [apply (wp_get_node ht true t (t + 1)); [done|lia|lia|by left]| |done].
  cbv beta. intros ht' d2 (Hd2 & m & -> & Hg & Hm). unfold with_node. cbn [set_nodes imeta].
  rewrite (proj2 (Z.ltb_ge (max_node_id (imeta ht)) (t + 1))) by lia. rewrite andb_false_r.
  eapply ok_mono; [apply IH|].
  - eapply images_ok_same; [done|]. by etrans.
  - lia.
  - replace (Z.max t (t + 1)) with (t + 1) in Hm by lia. split.
    + intros i. cbn. rewrite lookup_alter_is_Some. apply Hm.
    + intros id x. cbn. destruct (decide (t + 1 = id)) as [<- |].
      * rewrite lookup_alter_eq, Hg. destruct (Z.ltb_spec t (t + 1)), (Z.leb_spec (t + 1) (t + 1)); [|lia..].
        cbn. intros [= <-]. cbn. split; [by eapply Hok|done].
      * rewrite lookup_alter_ne, Hg by done. destruct (Z.ltb_spec t id), (Z.leb_spec id (t + 1)); try lia; apply Him.
  - cbn. lia.
  - cbv beta. cbn. intros ht' d3 (Hr & E1 & E2 & E3). split; [by replace (t + Z.of_nat (S k)) with (t + 1 + Z.of_nat k) by lia|].
    split; [done|]. split; [|right; destruct E3; subst; lia].
    rewrite E2, lookup_alter_ne, Hg by lia. destruct (Z.ltb_spec t 1); [lia|done].
Qed.

Lemma ok_verify fuel ht d r t :
  has_ids (nodes ht) t → 1 <= r → t < r * 2 ^ Z.of_nat fuel →
  ok (traverse_post_order (S fuel) verify_node ht r)
    (λ ht' _, ht' = ht ∧ ∀ id n, under r id → nodes ht !! id = Some n → valid ht id n) d.
Proof.
  revert d r. induction fuel as [|fuel IH]; intros d r Hs Hr Hf.
  all: cbn [traverse_post_order]; destruct (nodes ht !! r) as [n|] eqn:E.
  2, 4: apply ok_ret; split; [done|]; intros id n Hu Hn; apply under_le in Hu; [|done];
    assert (1 <= id <= t) by (apply (Hs id); by exists n);
    assert (is_Some (nodes ht !! r)) as [? ?] by (apply (Hs r); lia); congruence.
  { assert (1 <= r <= t) by (by apply (Hs r); eauto). rewrite Z.pow_0_r in Hf. lia. }
  rewrite Nat2Z.inj_succ, Z.pow_succ_r in Hf by lia.
  assert (0 < 2 ^ Z.of_nat fuel) by (apply Z.pow_pos_nonneg; lia).
  apply ok_bind. eapply ok_mono; [apply (IH d (2 * r)); done || lia|]. cbv beta. intros ? d1 [-> V1].
  apply ok_bind. eapply ok_mono; [apply (IH d1 (2 * r + 1)); done || lia|]. cbv beta. intros ? d2 [-> V2].
  unfold verify_node. rewrite E. apply ok_bind.
  apply (ok_wp _ _ (λ _ _, True)), wp_calc_node_hash; [|done]. intros d3 _.
  case_bool_decide as Eh; [|apply ok_throw]. apply ok_ret. split; [done|].
  intros id k [-> |[Hu|Hu]]%under_split Hk; [|by apply V1|by apply V2].
  assert (k = n) as -> by congruence. by symmetry.
Qed.

Lemma ok_open h u d :
  images_ok d →
  ok (tee_fs_htree_open false (Some h) u) (λ ht _, verified ht ∧ root_hash ht = h) d.
Proof.
  intros Hok. unfold tee_fs_htree_open. apply ok_bind, ok_ext. intros d1 Hd1. cbv zeta.
  apply ok_bind. eapply ok_mono; [apply ok_init_head; by eapply images_ok_same|].
  cbv beta. intros ht d2 (Hok2 & n & hd & Hh & Hn & ->).
  apply ok_bind. unfold verify_root. apply ok_bind, ok_ext. intros d3 Hd3. cbv zeta.
  apply ok_bind. unfold authenc_decrypt. apply ok_bind, ok_ext. intros d4 Hd4.
  destruct (gcm_dec _ _ _ _ _) as [plain|]; [|apply ok_throw]. apply ok_ret, ok_ret.
  set (ht := set_imeta _ (imeta_of_bytes plain)).
  assert (nodes ht = {[1 := HNode false false n]}) as En by done.
  apply ok_bind. unfold init_tree_from_data.
  eapply ok_mono; [apply (ok_init_tree_loop ht d4 1)|].
  - eapply images_ok_same; [done|]. by etrans.
  - lia.
  - rewrite En. split.
    + intros i. destruct (decide (i = 1)) as [-> |].
      * rewrite lookup_singleton_eq. split; [lia|eauto].
      * rewrite lookup_singleton_ne by done. split; [by intros [? ?]|lia].
    + intros id k [<- <-]%lookup_singleton_Some. done.
  - lia.
  - cbv beta. intros ht2 d5 ([Hids Him] & Em & E1 & E2).
    assert (1 + Z.of_nat (Z.to_nat (max_node_id (imeta ht) - 1)) = top ht2) as Et.
    { unfold top. rewrite Em. lia. }
    rewrite Et in Hids. unfold verify_tree. apply ok_bind, ok_ext. intros d6 Hd6.
    unfold htree_traverse_post_order.
    assert (top ht2 < 1 * 2 ^ Z.of_nat 33) as Hlt by (destruct E2; lia).
    eapply ok_mono; [by apply (ok_verify 33 ht2 d6 1 (top ht2))|].
    cbv beta. intros ht3 d7 [-> Hval]. split.
    + constructor; [done| |done]. intros id k Hk. apply Hval; [|done].
      apply (under_1 ht2); [done|by exists k].
    + unfold root_hash, child_hash. by rewrite E1, En, lookup_singleton_eq.
Qed.

(** C8: a caller that knows the root hash of a synchronised tree gets that tree or
    an error, whatever file it is given: if tee_fs_htree_open() with the hash
    succeeds on a file of node images of the right size, the nodes (with them the
    version, the iv and the tag of every block) and the length are those of the
    tree the hash is from, unless SHA-256 gives one digest for the different
    contents that a node of the tree opened and the node with the same id of the
    original tree have. *)
Theorem htree_integrity ht d u d' ht' d'' :
  committed ht d → (∀ id n, nodes ht !! id = Some n → image_ok (node n)) → images_ok d' →
  tee_fs_htree_open false (Some (root_hash ht)) u d' = (Ok ht', d'') →
  node_collision ht' ht
  ∨ nodes ht' = nodes ht ∧ wrap 64 (tee_fs_htree_get_meta ht') = tee_fs_htree_get_meta ht.
Proof.
  intros Hc Him Hok E. destruct (ok_open _ _ _ Hok _ _ E) as [Hv Hr].
  assert (verified ht) as Hv0.
  { constructor; [apply Hc| |].
    - intros id n Hn. apply (cm_settled _ _ Hc id n Hn).
    - intros id n Hn. split; [by eapply Him|by eapply committed_node]. }
  destruct (no_collision_or ht' ht) as [|Hn]; [by left|right].
  destruct (verified_same _ _ Hv Hv0 Hr Hn) as [En El]. split; [done|].
  unfold tee_fs_htree_get_meta. rewrite El. apply wrap_small, (cm_shape _ _ Hc).
Qed.

(** ** Truncation *)

Lemma wp_truncate_loop ht t k d :
  shape ht → 1 <= t → (top ht - t <= Z.of_nat k) →
  wp (truncate_loop ht t k)
    (λ ht' d', d' = d ∧ shape ht' ∧ top ht' = Z.min (top ht) t
       ∧ (∀ id, id <= t → nodes ht' !! id = nodes ht !! id)
       ∧ head ht' = head ht ∧ length (imeta ht') = length (imeta ht)
       ∧ dirty ht' = (dirty ht || (t <? top ht)))
    (λ _ _, False) d.
Proof.
  revert ht. induction k as [|k IH]; intros ht [Hs Hmax Hlen] Ht Hk.
  all: cbn [truncate_loop]; destruct (Z.ltb_spec t (max_node_id (imeta ht))) as [Hlt|Hge].
  2, 4: wp_steps; split; [done|]; split; [done|]; (split; [unfold top; lia|]); split; [done|];
    split; [done|]; split; [done|]; rewrite (proj2 (Z.ltb_ge t (top ht))), orb_false_r; unfold top; lia || done.
  { unfold top in Hk. lia. }
  set (mx := max_node_id (imeta ht)) in *.
  assert (top ht = mx) as Htop by (unfold top; lia). rewrite Htop in Hs.
  apply wp_bind, wp_assert; [apply andb_true_intro; split; apply Z.ltb_lt; lia|].
  rewrite (find_closest_in _ _ _ Hs) by lia.
  apply wp_bind, wp_assert; [apply Z.eqb_refl|].
  apply wp_bind, wp_assert.
  { apply bool_decide_eq_true. split; apply (has_ids_None _ _ _ Hs); lia. }
  apply wp_bind, wp_assert; [apply bool_decide_eq_true, Hs; dlia|].
  assert (wrap 32 (mx - 1) = mx - 1) as Hw by (apply wrap_small; unfold in_range; lia). rewrite Hw.
  set (ht1 := set_dirty _ true).
  assert (top ht1 = mx - 1) as Htop1 by (unfold top; cbn; lia).
  eapply wp_mono; [apply (IH ht1)| |done].
  - constructor; [|cbn; lia|done]. rewrite Htop1. intros i. cbn.
    destruct (decide (mx = i)) as [<- |].
    + rewrite lookup_delete_eq. split; [by intros [? ?]|lia].
    + rewrite lookup_delete_ne by done. rewrite (Hs i). lia.
  - done.
  - lia.
  - cbv beta. intros ht2 d2 (-> & Hs2 & Ht2 & Hn2 & Hh2 & Hl2 & Hd2).
    rewrite Htop1 in Ht2. split; [done|]. split; [done|]. split; [lia|].
    split; [|split; [done|split; [done|]]].
    + intros id Hid. rewrite Hn2 by done. cbn. by apply lookup_delete_ne; lia.
    + rewrite Hd2, Htop. cbn. rewrite (proj2 (Z.ltb_lt t mx)) by done. by rewrite orb_true_r.
Qed.

(** Tee_fs_htree_truncate() ends, its assertions hold, and it leaves exactly
    the nodes of the blocks up to [block_num]; block 0's node always stays. *)
Lemma htree_truncate_spec ht block_num d :
  shape ht → 0 <= block_num →
  wp (tee_fs_htree_truncate (Some ht) block_num)
    (λ ht' d', d' = d ∧ shape ht' ∧ top ht' = Z.min (top ht) (block_num + 1)
       ∧ (∀ id, id <= block_num + 1 → nodes ht' !! id = nodes ht !! id)
       ∧ head ht' = head ht ∧ tee_fs_htree_get_meta ht' = tee_fs_htree_get_meta ht
       ∧ dirty ht' = (dirty ht || (block_num + 1 <? top ht)))
    (λ _ _, False) d.
Proof.
  intros Hs Hb. cbn [tee_fs_htree_truncate]. unfold BLOCK_NUM_TO_NODE_ID.
  apply wp_truncate_loop; [done|lia|]. unfold top. lia.
Qed.
End with_crypto.

Abbreviation committed := (committed_by newest).

(** ** Examples

    The witnesses compute with stand-ins for the cryptography: a polynomial hash,
    and a cipher that leaves the text alone and tags it. *)

Definition toy_hash (l : list Z) : Z :=
  foldl (λ a x, (a * 65599 + x + 1) mod (2 ^ 127 - 1)) 7 l.
Definition toy_tag (key iv aad plain : list Z) : list Z :=
  le_bytes 16 (toy_hash (key ++ [1] ++ iv ++ [2] ++ aad ++ [3] ++ plain)).

Definition toy : Crypto := {|
  sha256 l := le_bytes 32 (toy_hash l);
  gcm_enc key iv aad plain := (plain, toy_tag key iv aad plain);
  gcm_dec key iv aad crypt tag :=
    if bool_decide (tag = toy_tag key iv aad crypt) then Some crypt else None;
  fek_enc u k := k;
  fek_dec u k := k;
  rng n := le_bytes 16 (Z.of_nat n + 1);
|}.

Definition toy_laws : @CryptoLaws toy.
Proof.
  constructor; simpl.
  - intros key iv aad plain crypt tag [= <- <-]. by rewrite bool_decide_eq_true_2.
  - by intros key iv aad plain crypt tag [= <- <-].
  - done.
Defined.

Section examples.
Existing Instance toy.
Existing Instance toy_laws.

Definition empty_dev : dev := Dev ∅ ∅ ∅ 0 [].

(** Blocks of four bytes. *)
Definition blk (n : Z) : list Z := [n; n + 1; n + 2; n + 3].

(** A new file, and the file after eight blocks have been written to it. *)
Definition dev0 : dev := snd (tee_fs_htree_open true None [0] empty_dev).
Definition ops8 : list op := (λ i : nat, OpWrite i (blk (Z.of_nat i))) <$> seq 0 8.
Definition dev8 : dev := snd (session [0] ops8 dev0).

(** ftruncate() to two blocks and a half as tee_ree_fs.c does it. *)
Definition shrink : D (tee_fs_htree * option (list Z)) :=
  ht ← tee_fs_htree_open false None [0];
  ht ← tee_fs_htree_truncate (Some ht) 2;
  tee_fs_htree_sync_to_storage (Some (set_length ht 10)).

Definition outcome_ok {E A} (o : outcome E A) : bool := match o with Ok _ => true | _ => false end.

(** tee_fs_htree_truncate() loses the file. It unlinks nodes without marking
    their parents dirty, so the next synchronisation keeps hashes that still cover
    the removed children: a file of eight blocks is truncated to three and
    synchronised without an error, and can never be opened again. *)
Lemma htree_truncate_corrupts :
  outcome_ok (fst (tee_fs_htree_open false None [0] dev8)) = true
  ∧ outcome_ok (fst (shrink dev8)) = true
  ∧ fst (tee_fs_htree_open false None [0] (snd (shrink dev8))) = Err TEE_ERROR_CORRUPT_OBJECT.
Proof. vm_compute. done. Qed.

Lemma no_fault d e : d_faults d = [] → ¬ fault d e.
Proof. intros E [b Hb]. rewrite E in Hb. by apply elem_of_nil in Hb. Qed.

Lemma holds_dev0 : holds 4 [0] 1 (File 0 []) dev0.
Proof.
  unfold dev0. eapply wp_snd; [apply (wp_create 4 [0] empty_dev)| |].
  - intros e d'. by apply no_fault.
  - by intros ht d' (? & _).
Qed.

Lemma faults_dev0 e : ¬ fault dev0 e.
Proof. apply no_fault. vm_compute. reflexivity. Qed.

Lemma open_committed ht d :
  committed ht d → (∀ e, ¬ fault d e) → fst (tee_fs_htree_open false None (uuid ht) d) = Ok ht.
Proof.
  intros Hc Hf. pose proof (wp_open ht d Hc) as Hw. unfold wp in Hw.
  destruct (tee_fs_htree_open false None (uuid ht) d) as [[ht'|e|] d']; [| |done].
  - by destruct Hw as [_ ->].
  - by destruct (Hf e), Hw.
Qed.

(** Two blocks and a length. *)
Definition ops2 : list op := [OpWrite 0 (blk 1); OpWrite 1 (blk 2); OpLength 8; OpWrite 0 (blk 3)].

Lemma ops2_ok : ops_ok 4 (File 0 []) ops2.
Proof. cbn. unfold in_range. repeat split; lia || (vm_compute; lia). Qed.

Theorem htree_crash_atomic_witness :
  (holds 4 [0] 1 (File 0 []) dev0 ∧ 1 < UINT32_MAX ∧ ops_ok 4 (File 0 []) ops2)
  ∧ holds 4 [0] 2 (File 8 [blk 3; blk 2]) (snd (session [0] ops2 dev0)).
Proof.
  split; [split; [exact holds_dev0|split; [done|exact ops2_ok]]|].
  pose proof (htree_crash_atomic 4 [0] 1 (File 0 []) ops2 dev0 holds_dev0 eq_refl ops2_ok) as H.
  eapply wp_snd; [exact H| |].
  - intros e d' [Hf _]. exact (faults_dev0 _ Hf).
  - intros [ht h] d' [Hd _]. exact Hd.
Defined.

Theorem htree_reads_back_witness :
  (holds 4 [0] 1 (File 0 []) dev0 ∧ ops_ok 4 (File 0 []) ops2
   ∧ f_blocks (apply_ops (File 0 []) ops2) !! 0%nat = Some (blk 3))
  ∧ fst ((ht ← tee_fs_htree_open false None [0];
          ht ← run_ops ht ops2;
          r ← tee_fs_htree_read_block 4 (Some ht) 0;
          mret (tee_fs_htree_get_meta ht, r)) dev0) = Ok (8, blk 3).
Proof.
  split; [split; [exact holds_dev0|split; [exact ops2_ok|reflexivity]]|].
  eapply wp_fst; [exact (htree_reads_back 4 [0] 1 (File 0 []) ops2 0 (blk 3) dev0 holds_dev0 ops2_ok eq_refl)|].
  intros e. apply faults_dev0.
Defined.

Definition opened (o : outcome tee_result tee_fs_htree) : tee_fs_htree :=
  match o with Ok ht => ht | _ => Htree ∅ zero_head [] (Imeta 0 0) false [] end.
Definition image_okb (n : tee_fs_htree_node_image) : bool :=
  (List.length (hash n) =? 32)%nat && (List.length (n_iv n) =? 16)%nat
  && (List.length (n_tag n) =? 16)%nat && (0 <=? flags n) && (flags n <? 65536).

Lemma image_okb_ok n : image_okb n = true → image_ok n.
Proof.
  unfold image_okb. intros Hb. bools.
  repeat match goal with E : (_ =? _)%nat = true |- _ => apply Nat.eqb_eq in E end.
  by constructor.
Qed.

Lemma images_ok_check {K} `{Countable K} {A} (m : gmap K A) (f : A → tee_fs_htree_node_image) k n :
  forallb (λ p, image_okb (f p.2)) (map_to_list m) = true → m !! k = Some n → image_ok (f n).
Proof.
  intros Hb Hn. rewrite forallb_forall in Hb. apply image_okb_ok, (Hb (k, n)).
  by apply list_elem_of_In, elem_of_map_to_list.
Qed.

(** The file after two blocks were written in a second transaction, and the tree
    that transaction leaves. *)
Definition dev2 : dev := snd (session [0] ops2 dev0).
Definition ht2 : tee_fs_htree := opened (fst (tee_fs_htree_open false None [0] dev2)).

Lemma committed_ht2 : committed ht2 dev2.
Proof.
  assert (holds 4 [0] 2 (apply_ops (File 0 []) ops2) dev2) as (ht & Hu & _ & Hc & _).
  { unfold dev2. eapply wp_snd; [exact (wp_session 4 [0] 1 (File 0 []) ops2 dev0 holds_dev0 eq_refl ops2_ok)| |].
    - intros e d' [Hf _]. exact (faults_dev0 _ Hf).
    - intros [ht h] d' [Hd _]. exact Hd. }
  unfold ht2. rewrite <- Hu. rewrite (open_committed ht dev2 Hc); [exact Hc|].
  intros e. apply no_fault. vm_compute. reflexivity.
Qed.

(** The node images and the heads of the file with their versions exchanged, a node
    that belongs to no tree and, in [forged], another tag for block 1. *)
Definition swapped : dev :=
  let n v := default zero_image (d_nodes dev2 !! (1, v)) in
  let h v := default zero_head (d_heads dev2 !! v) in
  set_heads (set_dnodes dev2 (<[(7, true) := zero_image]> (<[(1, true) := n false]>
    (<[(1, false) := n true]> (d_nodes dev2))))) {[true := h false; false := h true]}.
Definition forged : dev :=
  set_dnodes dev2 (alter (λ n, NodeImage (hash n) (n_iv n) (replicate 16 0) (flags n)) (2, true) (d_nodes dev2)).

Definition reopened : tee_fs_htree := opened (fst (tee_fs_htree_open false (Some (root_hash ht2)) [0] swapped)).

(** The file with the versions exchanged is opened with the root hash, and the tree
    is the one that was committed; the file with the other tag is refused. *)
Theorem htree_integrity_witness :
  (committed ht2 dev2 ∧ images_ok swapped ∧ d_nodes swapped ≠ d_nodes dev2
   ∧ fst (tee_fs_htree_open false (Some (root_hash ht2)) [0] swapped) = Ok reopened)
  ∧ (nodes reopened = nodes ht2 ∧ wrap 64 (tee_fs_htree_get_meta reopened) = tee_fs_htree_get_meta ht2)
  ∧ fst (tee_fs_htree_open false (Some (root_hash ht2)) [0] forged) = Err TEE_ERROR_CORRUPT_OBJECT.
Proof.
  assert (images_ok swapped) as Hok.
  { intros k n. apply (images_ok_check _ (λ n, n)). vm_compute. reflexivity. }
  assert (∀ id n, nodes ht2 !! id = Some n → image_ok (node n)) as Him.
  { intros id n. apply (images_ok_check _ node). vm_compute. reflexivity. }
  assert (fst (tee_fs_htree_open false (Some (root_hash ht2)) [0] swapped) = Ok reopened) as E
    by (vm_compute; reflexivity).
  split; [split; [exact committed_ht2|split; [exact Hok|split; [|exact E]]]|split].
  - intros Hn. apply (f_equal (λ m, m !! (7, true))) in Hn. revert Hn. vm_compute. discriminate.
  - destruct (htree_integrity ht2 dev2 [0] swapped reopened
      (snd (tee_fs_htree_open false (Some (root_hash ht2)) [0] swapped)) committed_ht2 Him Hok)
      as [Hcoll|Hsame]; [| |exact Hsame].
    + revert E. generalize (tee_fs_htree_open false (Some (root_hash ht2)) [0] swapped).
      intros [o d]. simpl. by intros ->.
    + exfalso. revert Hcoll. apply no_node_collision. vm_compute. reflexivity.
  - vm_compute. reflexivity.
Defined.
End examples.
