(* ===== verification/ReeFs.v ===== *)
(** * core/tee/tee_ree_fs.c: files of bytes in the REE file system

    Where the elements of a hash tree are in their file ([get_offs_size]), and the
    reads and writes of bytes that are made of reads and writes of blocks. The
    blocks are those of any [BlockStore] (BlockFile.v). *)
From S2P Require Import Prelude BlockFile ByteFile.

Local Open Scope Z_scope.

Definition BLOCK_SHIFT : Z := 12.
Definition BLOCK_SIZE : Z := Z.shiftl 1 BLOCK_SHIFT.

(** The argument is an [int]. *)
Definition pos_to_block_num (position : Z) : Z := Z.shiftr (to_int32 position) BLOCK_SHIFT.

(** ** The layout of a file *)

Inductive tee_fs_htree_type :=
| TEE_FS_HTREE_TYPE_HEAD
| TEE_FS_HTREE_TYPE_NODE
| TEE_FS_HTREE_TYPE_BLOCK.

#[global] Instance tee_fs_htree_type_eq_dec : EqDecision tee_fs_htree_type.
Proof. solve_decision. Defined.

(** The sizes of struct tee_fs_htree_image and struct tee_fs_htree_node_image. *)
Definition sizeof_image : Z := 16 + 16 + 16 + 16 + 4.
Definition sizeof_node_image : Z := 32 + 16 + 16 + 2.
Definition block_nodes : Z := BLOCK_SIZE / (sizeof_node_image * 2).

(** Offset and size. *)
Definition get_offs_size (type : tee_fs_htree_type) (idx vers : Z) : outcome tee_result (Z * Z) :=
  if negb ((vers =? 0) || (vers =? 1)) then Panicked
  else
    let node_size := sizeof_node_image in
    match type with
    | TEE_FS_HTREE_TYPE_HEAD => Ok (wrap 64 (sizeof_image * vers), sizeof_image)
    | TEE_FS_HTREE_TYPE_NODE =>
      let pbn := wrap 64 (1 + idx / block_nodes * block_nodes * 2) in
      Ok (wrap 64 (pbn * BLOCK_SIZE + 2 * node_size * (idx mod block_nodes) + node_size * vers),
          node_size)
    | TEE_FS_HTREE_TYPE_BLOCK =>
      let bidx := wrap 64 (2 * idx + vers) in
      let pbn := wrap 64 (2 + bidx + bidx / (block_nodes * 2 - 1)) in
      Ok (wrap 64 (pbn * BLOCK_SIZE), BLOCK_SIZE)
    end.

(** ** Reading and writing *)

(** [memcpy(block + offset, src, size)] *)
Definition blit (block : list Z) (offset size : Z) (src : list Z) : list Z :=
  take (Z.to_nat offset) block ++ take (Z.to_nat size) src
  ++ drop (Z.to_nat (offset + size)) block.

Section with_store.
Context {S : Type} `{BlockStore S}.

(** What the loops compute for a block: the size of its part. *)
Definition part_size (remain_bytes offset : Z) : Z :=
  let size := Z.min remain_bytes BLOCK_SIZE in
  if BLOCK_SIZE <? size + offset then BLOCK_SIZE - offset else size.

(** The loop of out_of_place_write() with [fuel] blocks left; without [data_ptr]
    it writes zeros. The position behind the written bytes. *)
Fixpoint write_loop (data_ptr : option (list Z)) (pos remain_bytes start_block_num : Z) (fuel : nat)
    : M S tee_result Z :=
  match fuel with
  | O => mret pos
  | Datatypes.S fuel =>
    let offset := pos mod BLOCK_SIZE in
    let size_to_write := part_size remain_bytes offset in
    length ← bs_length;
    block ← (if wrap 64 (start_block_num * BLOCK_SIZE) <? roundup length BLOCK_SIZE
             then bs_read_block start_block_num
             else mret (replicate (Z.to_nat BLOCK_SIZE) 0));
    let src := match data_ptr with
               | Some l => l
               | None => replicate (Z.to_nat size_to_write) 0
               end in
    _ ← bs_write_block start_block_num (blit block offset size_to_write src);
    write_loop (drop (Z.to_nat size_to_write) <$> data_ptr) (wrap 64 (pos + size_to_write))
      (remain_bytes - size_to_write) (start_block_num + 1) fuel
  end.

(** A loop that is not entered leaves [res] uninitialised. *)
Definition out_of_place_write (pos : Z) (buf : option (list Z)) (len : Z) : M S tee_result unit :=
  let start_block_num := wrap 64 (pos_to_block_num pos) in
  let end_block_num := wrap 64 (pos_to_block_num (wrap 64 (pos + len - 1))) in
  if len =? 0 then mthrow TEE_ERROR_BAD_PARAMETERS
  else
    _ ← bs_tmp_block;
    if end_block_num <? start_block_num then mpanic
    else
      pos ← write_loop buf pos len start_block_num (Z.to_nat (end_block_num + 1 - start_block_num));
      length ← bs_length;
      if length <? pos then bs_set_length pos else mret tt.

Definition ree_fs_ftruncate_internal (new_file_len : Z) : M S tee_result unit :=
  length ← bs_length;
  if length <? wrap 64 new_file_len then
    out_of_place_write length None (wrap 64 (new_file_len - length))
  else
    match get_offs_size TEE_FS_HTREE_TYPE_BLOCK (roundup new_file_len BLOCK_SIZE / BLOCK_SIZE) 1 with
    | Panicked => mpanic
    | Err e => mthrow e
    | Ok (offs, sz) =>
      _ ← bs_truncate_blocks (new_file_len / BLOCK_SIZE);
      _ ← bs_rpc_truncate (wrap 64 (offs + sz));
      bs_set_length new_file_len
    end.

(** The loop of ree_fs_read_primitive(). *)
Fixpoint read_loop (pos remain_bytes start_block_num : Z) (fuel : nat) : M S tee_result (list Z) :=
  match fuel with
  | O => mret []
  | Datatypes.S fuel =>
    let offset := pos mod BLOCK_SIZE in
    let size_to_read := part_size remain_bytes offset in
    block ← bs_read_block (wrap 64 start_block_num);
    rest ← read_loop (wrap 64 (pos + size_to_read)) (remain_bytes - size_to_read)
             (start_block_num + 1) fuel;
    mret (take (Z.to_nat size_to_read) (drop (Z.to_nat offset) block) ++ rest)
  end.

(** The bytes read; their number is [*len]. *)
Definition ree_fs_read_primitive (pos len : Z) : M S tee_result (list Z) :=
  length ← bs_length;
  let remain_bytes :=
    if (wrap 64 (pos + len) <? len) || (length <? pos) then 0
    else if length <? wrap 64 (pos + len) then length - pos else len in
  if remain_bytes =? 0 then mret []
  else
    let start_block_num := pos_to_block_num pos in
    let end_block_num := pos_to_block_num (wrap 64 (pos + remain_bytes - 1)) in
    _ ← bs_tmp_block;
    read_loop pos remain_bytes start_block_num (Z.to_nat (end_block_num + 1 - start_block_num)).

Definition ree_fs_write_primitive (pos : Z) (buf : list Z) : M S tee_result unit :=
  let len := Z.of_nat (List.length buf) in
  if len =? 0 then mret tt
  else
    file_size ← bs_length;
    if wrap 64 (pos + len) <? len then mthrow TEE_ERROR_BAD_PARAMETERS
    else
      _ ← (if file_size <? pos then ree_fs_ftruncate_internal pos else mret tt);
      out_of_place_write pos (Some buf) len.
End with_store.

(** ** The layout is sound *)

(** An element of a tree with [n] blocks; the index of the head is ignored. *)
Definition element_ok (n : Z) (type : tee_fs_htree_type) (idx vers : Z) : Prop :=
  (vers = 0 ∨ vers = 1) ∧ (if decide (type = TEE_FS_HTREE_TYPE_HEAD) then idx = 0 else 0 <= idx < n).

(** get_offs_size() without the wrap-arounds. *)
Lemma get_offs_size_eq n type idx vers :
  n <= 2 ^ 48 → element_ok n type idx vers →
  get_offs_size type idx vers = Ok (match type with
    | TEE_FS_HTREE_TYPE_HEAD => (68 * vers, 68)
    | TEE_FS_HTREE_TYPE_NODE => ((1 + idx / 31 * 62) * 4096 + 132 * (idx mod 31) + 66 * vers, 66)
    | TEE_FS_HTREE_TYPE_BLOCK => ((2 + (2 * idx + vers) + (2 * idx + vers) / 61) * 4096, 4096)
    end).
Proof.
  intros Hn [Hv Hidx]. unfold get_offs_size.
  change block_nodes with 31. change sizeof_node_image with 66. change sizeof_image with 68.
  change BLOCK_SIZE with 4096.
  replace (negb ((vers =? 0) || (vers =? 1))) with false by (by destruct Hv as [-> | ->]).
  destruct type; simpl in Hidx.
  - rewrite wrap_small; [done|]. unfold in_range. lia.
  - rewrite (wrap_small 64 (1 + _)) by (unfold in_range; dlia).
    rewrite wrap_small; [do 2 f_equal; lia|]. unfold in_range. dlia.
  - rewrite (wrap_small 64 (2 * idx + vers)) by (unfold in_range; lia).
    change (31 * 2 - 1) with 61.
    rewrite (wrap_small 64 (2 + _ + _)) by (unfold in_range; dlia).
    rewrite wrap_small; [done|]. unfold in_range. dlia.
Qed.

(** In which block of the file an element is. *)
Definition phys (type : tee_fs_htree_type) (idx vers : Z) : Z :=
  match type with
  | TEE_FS_HTREE_TYPE_HEAD => 0
  | TEE_FS_HTREE_TYPE_NODE => 1 + idx / 31 * 62
  | TEE_FS_HTREE_TYPE_BLOCK => 2 + (2 * idx + vers) + (2 * idx + vers) / 61
  end.

Lemma element_phys n type idx vers offs size :
  n <= 2 ^ 48 → element_ok n type idx vers → get_offs_size type idx vers = Ok (offs, size) →
  phys type idx vers * 4096 <= offs ∧ offs + size <= (phys type idx vers + 1) * 4096.
Proof.
  intros Hn He. rewrite (get_offs_size_eq n) by done. destruct He as [Hv Hidx].
  destruct type; simpl in Hidx; intros [= <- <-]; unfold phys; dlia.
Qed.

(** Get_offs_size(): no two different elements of a tree (heads, node images,
    data blocks, in both versions) overlap in the file, and each of them is within
    one block of the file. *)
Lemma get_offs_size_disjoint n t1 i1 v1 o1 s1 t2 i2 v2 o2 s2 :
  n <= 2 ^ 48 → element_ok n t1 i1 v1 → element_ok n t2 i2 v2 →
  (t1, i1, v1) ≠ (t2, i2, v2) →
  get_offs_size t1 i1 v1 = Ok (o1, s1) → get_offs_size t2 i2 v2 = Ok (o2, s2) →
  (o1 + s1 <= o2 ∨ o2 + s2 <= o1) ∧ o1 / BLOCK_SIZE = (o1 + s1 - 1) / BLOCK_SIZE.
Proof.
  intros Hn E1 E2 Hne G1 G2. change BLOCK_SIZE with 4096.
  pose proof (element_phys _ _ _ _ _ _ Hn E1 G1) as [P1 P1'].
  pose proof (element_phys _ _ _ _ _ _ Hn E2 G2) as [P2 P2'].
  assert (0 < s1) as Hs1.
  { rewrite (get_offs_size_eq n) in G1 by done. by destruct t1; injection G1 as <- <-. }
  split.
  2: { assert (o1 / 4096 = phys t1 i1 v1) by (symmetry; apply Z.div_unique with (o1 - 4096 * phys t1 i1 v1); lia).
       assert ((o1 + s1 - 1) / 4096 = phys t1 i1 v1)
         by (symmetry; apply Z.div_unique with (o1 + s1 - 1 - 4096 * phys t1 i1 v1); lia). lia. }
  destruct (decide (phys t1 i1 v1 = phys t2 i2 v2)) as [Hp|]; [|lia].
  rewrite (get_offs_size_eq n) in G1, G2 by done.
  destruct E1 as [Hv1 Hi1], E2 as [Hv2 Hi2].
  destruct t1, t2; simpl in Hi1, Hi2; injection G1 as <- <-; injection G2 as <- <-;
    unfold phys in Hp; try dlia.
  - subst i1 i2. assert (v1 ≠ v2) by congruence. lia.
  - assert (i1 / 31 = i2 / 31) by lia.
    assert (i1 ≠ i2 ∨ v1 ≠ v2) by (destruct (decide (i1 = i2)); [right; congruence|by left]). dlia.
  - assert (2 * i1 + v1 = 2 * i2 + v2) by dlia.
    assert (i1 = i2) as -> by lia. assert (v1 = v2) as -> by lia. done.
Qed.

(** The length ree_fs_ftruncate_internal() cuts the file to, the end of block
    [n] in version 1 where [n] is the new length in blocks, keeps every element of
    a tree with the blocks 0 to [n]. *)
Lemma truncate_keeps_elements n t i v o s on sn :
  n <= 2 ^ 47 → 0 <= n → element_ok (n + 1) t i v →
  get_offs_size t i v = Ok (o, s) → get_offs_size TEE_FS_HTREE_TYPE_BLOCK n 1 = Ok (on, sn) →
  o + s <= on + sn.
Proof.
  intros Hn Hn0 He G Gn.
  rewrite (get_offs_size_eq (n + 1)) in G by (done || lia).
  rewrite (get_offs_size_eq (n + 1)) in Gn by (lia || (split; [by right|simpl; lia])).
  destruct He as [Hv Hi]. injection Gn as <- <-.
  destruct t; simpl in Hi; injection G as <- <-.
  - dlia.
  - assert (i / 31 <= n / 31) by (apply Z.div_le_mono; lia). dlia.
  - assert ((2 * i + v) / 61 <= (2 * n + 1) / 61) by (apply Z.div_le_mono; lia). lia.
Qed.

(** ** The file of bytes *)

(** A multiple of 4096 is better not unfolded into a [nat]. *)
Definition BS : nat := Z.to_nat BLOCK_SIZE.
Lemma BS_eq : Z.of_nat BS = 4096.
Proof. done. Qed.
#[global] Opaque BS.

(** The file's bytes: the first [f_length F] of its blocks. *)
Definition f_bytes (F : file) : list Z := take (Z.to_nat (f_length F)) (concat (f_blocks F)).

(** The number of blocks for a length. *)
Definition blocks_for (len : Z) : Z := (len + 4095) / 4096.

Record file_ok (F : file) : Prop := {
  fo_blocks : Forall (λ b, List.length b = BS) (f_blocks F);
  fo_length : 0 <= f_length F < 2 ^ 31;
  fo_count : Z.of_nat (List.length (f_blocks F)) = blocks_for (f_length F);
}.

Lemma length_f_bytes F : file_ok F → Z.of_nat (List.length (f_bytes F)) = f_length F.
Proof.
  intros [Hb Hl Hc]. unfold f_bytes. rewrite length_take, (length_concat_uniform BS) by done.
  unfold blocks_for in Hc. pose proof BS_eq. dlia.
Qed.

Lemma pos_to_block_num_eq p : 0 <= p < 2 ^ 31 → pos_to_block_num p = p / 4096.
Proof.
  intros Hp. unfold pos_to_block_num, to_int32, BLOCK_SHIFT.
  rewrite wrap_small by (unfold in_range; lia).
  rewrite (proj2 (Z.ltb_lt _ _)) by lia. by rewrite Z.shiftr_div_pow2.
Qed.

Lemma roundup_block len : 0 <= len < 2 ^ 31 → roundup len BLOCK_SIZE = blocks_for len * 4096.
Proof.
  intros Hl. change BLOCK_SIZE with (2 ^ 12). rewrite roundup_pow2 by lia.
  unfold blocks_for. change (2 ^ 12) with 4096. do 2 f_equal. lia.
Qed.

Lemma part_size_eq rem off :
  0 <= off < 4096 → 0 <= rem → part_size rem off = Z.min rem (4096 - off).
Proof.
  intros. unfold part_size. change BLOCK_SIZE with 4096.
  destruct (Z.ltb_spec 4096 (Z.min rem 4096 + off)); lia.
Qed.

(** How many blocks the bytes from [p] to [p + rem] touch. *)
Definition touched (p rem : Z) : nat :=
  if rem =? 0 then 0%nat else Z.to_nat ((p + rem - 1) / 4096 + 1 - p / 4096).

Lemma touched_step p rem k :
  0 <= p → 0 <= rem → touched p rem = S k →
  let s := Z.min rem (4096 - p mod 4096) in
  0 < rem ∧ 0 < s ∧ touched (p + s) (rem - s) = k ∧ (0 < rem - s → (p + s) / 4096 = p / 4096 + 1 ∧ (p + s) mod 4096 = 0).
Proof.
  intros Hp Hr Hk s. unfold touched in *. destruct (Z.eqb_spec rem 0); [done|].
  destruct (Z.leb_spec rem (4096 - p mod 4096)) as [Hle|Hgt].
  - assert (s = rem) as -> by lia. rewrite Z.sub_diag, Z.eqb_refl.
    assert ((p + rem - 1) / 4096 = p / 4096) as E by dlia. rewrite E in Hk.
    repeat split; lia || dlia.
  - assert (s = 4096 - p mod 4096) as Es by lia.
    assert (0 <= p mod 4096 < 4096) by dlia.
    assert ((p + s) / 4096 = p / 4096 + 1) as E1 by dlia.
    assert ((p + s) mod 4096 = 0) as E2 by dlia.
    destruct (Z.eqb_spec (rem - s) 0); [lia|].
    rewrite E1. replace (p + s + (rem - s) - 1) with (p + rem - 1) by lia.
    repeat split; try lia. 
Qed.

Section proofs.
Context {S : Type} `{BlockStoreLaws S BS}.

Definition count (F : file) : Z := Z.of_nat (List.length (f_blocks F)).

(** What is written: the buffer, or zeros. *)
Definition payload (data_ptr : option (list Z)) (pl : list Z) : Prop :=
  match data_ptr with Some l => l = pl | None => pl = replicate (List.length pl) 0 end.

Lemma payload_src data pl s :
  payload data pl → (Z.to_nat s <= List.length pl)%nat →
  take (Z.to_nat s) (match data with Some l => l | None => replicate (Z.to_nat s) 0 end)
    = take (Z.to_nat s) pl
  ∧ payload (drop (Z.to_nat s) <$> data) (drop (Z.to_nat s) pl).
Proof.
  intros Hp Hs. destruct data as [l|]; simpl in *; [by subst|]. rewrite Hp. split.
  - rewrite !take_replicate. f_equal. lia.
  - rewrite drop_replicate, length_replicate. done.
Qed.

(** What one round makes of the blocks. *)
Lemma write_round F p rem pl s blk :
  let off := p mod 4096 in let i := Z.to_nat (p / 4096) in
  let x := take (Z.to_nat s) pl in
  Forall (λ b, List.length b = BS) (f_blocks F) → 0 <= p <= count F * 4096 →
  Z.of_nat (List.length pl) = rem → s = Z.min rem (4096 - off) → 0 < s →
  (f_blocks F !! i = Some blk ∨ count F = p / 4096 ∧ blk = replicate BS 0) →
  let b' := blit blk off s (take (Z.to_nat s) pl) in
  let F' := f_write F i b' in
  List.length b' = BS ∧ (i <= List.length (f_blocks F))%nat
  ∧ Forall (λ b, List.length b = BS) (f_blocks F')
  ∧ (∃ w, concat (f_blocks F') = splice (concat (f_blocks F)) (Z.to_nat p) x ++ w
       ∧ (w = [] ∨ drop (Z.to_nat s) pl = []))
  ∧ count F' = Z.max (count F) (p / 4096 + 1).
Proof.
  intros off i x Hall Hp Hpl Hs Hs0 Hblk. pose proof BS_eq as HBS.
  assert (0 <= off < 4096) as Hoff by (unfold off; dlia).
  assert (Z.of_nat (List.length x) = s) as Hx by (unfold x; rewrite length_take; lia).
  assert (List.length blk = BS) as Hlblk.
  { destruct Hblk as [Hb|[_ ->]]; [by eapply Forall_lookup_1 in Hall|apply length_replicate]. }
  intros b'. assert (b' = splice blk (Z.to_nat off) x) as Hb'.
  { unfold b', blit, splice. rewrite take_take, Nat.min_id. fold x. do 3 f_equal. lia. }
  assert (List.length b' = BS) as Hlb' by (rewrite Hb', length_splice; lia).
  intros F'. split; [done|]. unfold count in *. unfold F', f_write. cbn [f_blocks].
  destruct Hblk as [Hb|[Hc ->]].
  - apply lookup_lt_Some in Hb as Hi. rewrite decide_True by done. split; [lia|].
    split; [by apply Forall_insert|]. split.
    + exists []. rewrite app_nil_r. split; [|by left].
      rewrite Hb', (concat_insert_splice BS) by (done || lia). f_equal. unfold off, i. dlia.
    + rewrite length_insert. lia.
  - rewrite decide_False by lia. split; [lia|]. split; [by apply Forall_app_2; [|constructor]|].
    assert (off = 0) as Hoff0 by (unfold off; dlia). split.
    + exists (drop (List.length x) (replicate BS 0)). split.
      * rewrite concat_app, Hb', Hoff0. simpl. rewrite app_nil_r. unfold splice. simpl.
        assert (List.length (concat (f_blocks F)) = Z.to_nat p) as Hl.
        { rewrite (length_concat_uniform BS) by done. unfold off in Hoff0. dlia. }
        rewrite take_ge, (drop_ge (concat _)) by lia. by rewrite app_nil_r, app_assoc.
      * destruct (decide (s = rem)); [right; apply drop_ge; lia|left].
        apply drop_ge. rewrite length_replicate. lia.
    + rewrite length_app. simpl. lia.
Qed.

Lemma wp_write_loop k er s F data pl p rem start :
  bs_holds er s F → Forall (λ b, List.length b = BS) (f_blocks F) → 0 <= f_length F < 2 ^ 31 →
  0 <= p <= count F * 4096 → 0 <= rem → p + rem < 2 ^ 31 →
  Z.of_nat (List.length pl) = rem → payload data pl → touched p rem = k →
  (0 < rem → start = p / 4096 ∧ count F = Z.max (blocks_for (f_length F)) start) →
  wp (write_loop data p rem start k)
    (λ p' s', p' = p + rem ∧ ∃ F', bs_holds er s' F' ∧ f_length F' = f_length F
       ∧ Forall (λ b, List.length b = BS) (f_blocks F')
       ∧ (∃ z, concat (f_blocks F') = splice (concat (f_blocks F)) (Z.to_nat p) pl ++ z)
       ∧ count F' = Z.max (count F) (blocks_for (p + rem)))
    (λ e s', er e ∧ bs_lost s') s.
Proof.
  revert s F data pl p rem start. induction k as [|k IH];
    intros s F data pl p rem start Hh Hall Hlen Hp Hr Hpr Hpl Hpay Hk Hst; cbn [write_loop].
  { assert (rem = 0) as ->. { unfold touched in Hk. destruct (Z.eqb_spec rem 0); [done|]. dlia. }
    wp_steps. split; [lia|]. exists F. split; [done|]. split; [done|]. split; [done|].
    assert (pl = []) as -> by (apply length_zero_iff_nil; lia). split.
    - exists []. by rewrite splice_nil, app_nil_r.
    - unfold blocks_for, count in *. dlia. }
  destruct (touched_step p rem k ltac:(lia) Hr Hk) as (Hr0 & Hs0 & Hk' & Hnext).
  destruct (Hst Hr0) as [-> Hcnt]. change BLOCK_SIZE with 4096.
  rewrite part_size_eq by dlia. set (off := p mod 4096) in *. set (sz := Z.min rem (4096 - off)) in *.
  apply wp_bind. eapply wp_mono; [by eapply bs_length_law| |by intros]. cbv beta. intros ? ? [-> ->].
  rewrite roundup_block, (wrap_small 64 (p / 4096 * 4096)) by (done || unfold in_range; dlia).
  apply wp_bind. set (i := Z.to_nat (p / 4096)).
  assert (Z.of_nat i = p / 4096) as Hi by (unfold i; dlia).
  eapply wp_mono with (Q := λ blk s', bs_holds er s' F ∧
    (f_blocks F !! i = Some blk ∨ count F = p / 4096 ∧ blk = replicate BS 0))
    (R := λ e s', er e ∧ bs_lost s').
  - destruct (Z.ltb_spec (p / 4096 * 4096) (blocks_for (f_length F) * 4096)) as [Hlt|Hge].
    + destruct (lookup_lt_is_Some_2 (f_blocks F) i) as [blk Hblk]; [unfold count in *; lia|].
      rewrite <- Hi. eapply wp_mono; [by eapply bs_read_block_law| |intros e s' [? ?]; split; [done|by apply bs_lost_closed]].
      cbv beta. intros r s' [-> ?]. auto.
    + apply wp_ret. split; [done|]. right. split; [lia|done].
  - cbv beta. intros blk s1 [Hh1 Hblk].
    destruct (payload_src data pl sz Hpay ltac:(lia)) as [Hsrc Hpay'].
    destruct (write_round F p rem pl sz blk Hall Hp Hpl eq_refl Hs0 Hblk)
      as (Hlb & Hib & Hall' & (w & Hw & Hwz) & Hcnt').
    fold off i in Hlb, Hib, Hall', Hw, Hcnt'.
    assert (blit blk off sz (match data with Some l => l | None => replicate (Z.to_nat sz) 0 end)
            = blit blk off sz (take (Z.to_nat sz) pl)) as ->.
    { unfold blit. rewrite Hsrc, take_take, Nat.min_id. done. }
    set (b' := blit blk off sz _) in *. set (F1 := f_write F i b') in *.
    apply wp_bind. rewrite <- Hi. eapply wp_mono; [eapply bs_write_block_law; [done|done|done|]| |done].
    { rewrite Hi. dlia. }
    cbv beta. intros _ s2 Hh2. rewrite wrap_small by (unfold in_range; lia).
    eapply wp_mono; [eapply (IH s2 F1 _ (drop (Z.to_nat sz) pl) (p + sz) (rem - sz))| |done]; try done.
    + rewrite Hcnt'. fold off. unfold off in *. dlia.
    + lia.
    + lia.
    + rewrite length_drop. lia.
    + intros Hr1. destruct (Hnext Hr1) as [E1 E2]. rewrite Hi, E1. split; [done|].
      change (f_length F1) with (f_length F). rewrite Hcnt'. lia.
    + cbv beta. intros p' s' [-> (F' & Hh' & Hl' & Hall2 & (z & Hz) & Hc')].
      split; [lia|]. exists F'. split; [done|]. split; [done|]. split; [done|]. split.
      * rewrite Hz, Hw.
        replace (splice (concat (f_blocks F)) (Z.to_nat p) pl) with
          (splice (concat (f_blocks F)) (Z.to_nat p) (take (Z.to_nat sz) pl ++ drop (Z.to_nat sz) pl))
          by (by rewrite take_drop).
        assert (Z.to_nat (p + sz) = Z.to_nat p + List.length (take (Z.to_nat sz) pl))%nat as E
          by (rewrite length_take; lia).
        assert (Z.to_nat p <= List.length (concat (f_blocks F)))%nat as Hpc.
        { rewrite (length_concat_uniform BS) by done. pose proof BS_eq. unfold count in Hp. lia. }
        rewrite E. destruct Hwz as [-> | ->].
        -- exists z. by rewrite app_nil_r, splice_splice.
        -- exists (w ++ z). by rewrite splice_nil, app_nil_r, app_assoc.
      * rewrite Hc', Hcnt'. replace (p + sz + (rem - sz)) with (p + rem) by lia.
        unfold blocks_for. dlia.
  - done.
Qed.

(** The bytes after the loop has ended and the length has been adjusted. *)
Lemma written_bytes F F' p pl z :
  file_ok F → 0 <= p <= f_length F → p + Z.of_nat (List.length pl) < 2 ^ 31 →
  Forall (λ b, List.length b = BS) (f_blocks F') →
  concat (f_blocks F') = splice (concat (f_blocks F)) (Z.to_nat p) pl ++ z →
  count F' = Z.max (count F) (blocks_for (p + Z.of_nat (List.length pl))) →
  let F2 := f_set_length F' (Z.max (f_length F) (p + Z.of_nat (List.length pl))) in
  file_ok F2 ∧ f_bytes F2 = splice (f_bytes F) (Z.to_nat p) pl.
Proof.
  intros [Hb Hl Hc] Hp Hpl Hb' Hcat Hc' F2. unfold count in Hc'. split.
  - constructor; [done|cbn; lia|]. cbn [F2 f_set_length f_length f_blocks]. rewrite Hc', Hc.
    unfold blocks_for. dlia.
  - unfold f_bytes. cbn [F2 f_set_length f_length f_blocks]. rewrite Hcat.
    assert (Z.to_nat (Z.max (f_length F) (p + Z.of_nat (List.length pl)))
      = Nat.max (Z.to_nat (f_length F)) (Z.to_nat p + List.length pl)) as -> by lia.
    apply take_splice; [lia|]. rewrite (length_concat_uniform BS) by done.
    unfold blocks_for in Hc. pose proof BS_eq. dlia.
Qed.

Lemma wp_out_of_place_write er s F pos data pl len :
  bs_holds er s F → file_ok F → 0 <= pos <= f_length F → payload data pl →
  Z.of_nat (List.length pl) = len → 0 < len → pos + len < 2 ^ 31 →
  wp (out_of_place_write pos data len)
    (λ _ s', ∃ F', bs_holds er s' F' ∧ file_ok F' ∧ f_length F' = Z.max (f_length F) (pos + len)
       ∧ f_bytes F' = splice (f_bytes F) (Z.to_nat pos) pl)
    (λ e s', er e ∧ bs_lost s') s.
Proof.
  intros Hh Hok Hpos Hpay Hlen Hl0 Hmax. pose proof Hok as [Hb Hfl Hc].
  unfold out_of_place_write.
  rewrite (wrap_small 64 (pos + len - 1)), !pos_to_block_num_eq by (unfold in_range; lia).
  rewrite !wrap_small by (unfold in_range; dlia).
  destruct (Z.eqb_spec len 0); [lia|].
  apply wp_bind. eapply wp_mono; [by eapply bs_tmp_block_law| |intros e s' [? ?]; split; [done|by eapply bs_lost_holds]].
  cbv beta. intros _ s1 Hh1.
  destruct (Z.ltb_spec ((pos + len - 1) / 4096) (pos / 4096)); [dlia|].
  apply wp_bind. eapply wp_mono; [eapply (wp_write_loop _ er s1 F data pl pos len); try done| |done].
  - unfold count. rewrite Hc. unfold blocks_for. dlia.
  - lia.
  - unfold touched. destruct (Z.eqb_spec len 0); [done|]. done.
  - intros _. split; [done|]. unfold count. rewrite Hc. unfold blocks_for. dlia.
  - cbv beta. intros p' s2 (-> & F' & Hh2 & Hl2 & Hall & (z & Hz) & Hc2).
    apply wp_bind. eapply wp_mono; [by eapply bs_length_law| |by intros]. cbv beta. intros ? ? [-> ->].
    rewrite Hl2. rewrite <- Hlen in *.
    destruct (written_bytes F F' pos pl z Hok Hpos Hmax Hall Hz Hc2) as [Hok' Hby].
    destruct (Z.ltb_spec (f_length F) (pos + Z.of_nat (List.length pl))).
    + eapply wp_mono; [eapply bs_set_length_law; [done|unfold in_range; lia]| |by intros].
      cbv beta. intros _ s3 Hh3. eexists. split; [done|].
      rewrite Z.max_r in Hok', Hby by lia. split; [done|]. split; [cbn; lia|done].
    + wp_steps. exists F'. split; [done|]. rewrite Z.max_l in * by lia.
      assert (f_set_length F' (f_length F) = F') as Heq by (rewrite <- Hl2; by destruct F').
      rewrite Heq in Hok', Hby. done.
Qed.

(** Growing: zeros are appended. *)
Lemma wp_ftruncate_grow er s F len :
  bs_holds er s F → file_ok F → f_length F < len < 2 ^ 31 →
  wp (ree_fs_ftruncate_internal len)
    (λ _ s', ∃ F', bs_holds er s' F' ∧ file_ok F' ∧ f_length F' = len
       ∧ f_bytes F' = f_bytes F ++ replicate (Z.to_nat (len - f_length F)) 0)
    (λ e s', er e ∧ bs_lost s') s.
Proof.
  intros Hh Hok Hlen. pose proof (fo_length _ Hok) as Hl. unfold ree_fs_ftruncate_internal.
  apply wp_bind. eapply wp_mono; [by eapply bs_length_law| |by intros]. cbv beta. intros ? ? [-> ->].
  rewrite (wrap_small 64 len), (wrap_small 64 (len - _)) by (unfold in_range; lia).
  rewrite (proj2 (Z.ltb_lt _ _)) by lia.
  eapply wp_mono; [eapply (wp_out_of_place_write er s F (f_length F) None
    (replicate (Z.to_nat (len - f_length F)) 0)); try done; try lia| |done].
  - cbn. by rewrite length_replicate.
  - rewrite length_replicate. lia.
  - cbv beta. intros _ s' (F' & Hh' & Hok' & Hl' & Hby). exists F'. split; [done|]. split; [done|].
    split; [lia|]. rewrite Hby. unfold splice. pose proof (length_f_bytes F Hok).
    rewrite take_ge, drop_ge by lia. by rewrite app_nil_r.
Qed.

Lemma wp_ree_fs_write er s F pos buf :
  bs_holds er s F → file_ok F → 0 <= pos → pos + Z.of_nat (List.length buf) < 2 ^ 31 →
  wp (ree_fs_write_primitive pos buf)
    (λ _ s', ∃ F', bs_holds er s' F' ∧ file_ok F' ∧ f_bytes F' = write_bytes (f_bytes F) pos buf)
    (λ e s', er e ∧ bs_lost s') s.
Proof.
  intros Hh Hok Hpos Hmax. unfold ree_fs_write_primitive, write_bytes.
  destruct (Z.eqb_spec (Z.of_nat (List.length buf)) 0) as [Hz|Hz].
  { wp_steps. exists F. split; [done|]. split; [done|].
    rewrite decide_True; [done|]. apply length_zero_iff_nil. lia. }
  rewrite decide_False by (intros ->; done).
  apply wp_bind. eapply wp_mono; [by eapply bs_length_law| |by intros]. cbv beta. intros ? ? [-> ->].
  rewrite wrap_small by (unfold in_range; lia).
  destruct (Z.ltb_spec (pos + Z.of_nat (List.length buf)) (Z.of_nat (List.length buf))); [lia|].
  pose proof (length_f_bytes F Hok) as Hlf. apply wp_bind.
  eapply wp_mono with (Q := λ _ s', ∃ F1, bs_holds er s' F1 ∧ file_ok F1 ∧ pos <= f_length F1
    ∧ f_bytes F1 = f_bytes F ++ replicate (Z.to_nat pos - List.length (f_bytes F)) 0)
    (R := λ e s', er e ∧ bs_lost s'); [| |done].
  - destruct (Z.ltb_spec (f_length F) pos).
    + eapply wp_mono; [eapply wp_ftruncate_grow; [done|done|lia]| |done].
      cbv beta. intros _ s1 (F1 & ? & ? & ? & Hby). exists F1. split; [done|]. split; [done|].
      split; [lia|]. rewrite Hby. do 2 f_equal. lia.
    + wp_steps. exists F. split; [done|]. split; [done|]. split; [lia|].
      replace (Z.to_nat pos - List.length (f_bytes F))%nat with 0%nat by lia. by rewrite app_nil_r.
  - cbv beta. intros _ s1 (F1 & Hh1 & Hok1 & Hp1 & Hby1).
    eapply wp_mono; [eapply (wp_out_of_place_write er s1 F1 pos (Some buf) buf); try done; lia| |done].
    cbv beta. intros _ s2 (F2 & Hh2 & Hok2 & _ & Hby2). exists F2. by rewrite Hby2, Hby1.
Qed.

(** ** Reading *)

Lemma read_part F p s blk :
  Forall (λ b, List.length b = BS) (f_blocks F) → 0 <= p →
  f_blocks F !! Z.to_nat (p / 4096) = Some blk → 0 <= s <= 4096 - p mod 4096 →
  take (Z.to_nat s) (drop (Z.to_nat (p mod 4096)) blk)
  = take (Z.to_nat s) (drop (Z.to_nat p) (concat (f_blocks F))).
Proof.
  intros Hall Hp Hb Hs. pose proof BS_eq.
  rewrite <- (take_drop_middle _ _ _ Hb) at 1. rewrite concat_app. cbn [concat].
  assert (List.length (concat (take (Z.to_nat (p / 4096)) (f_blocks F))) = Z.to_nat (p / 4096) * BS)%nat as Hl.
  { rewrite (length_concat_uniform BS) by (by apply Forall_take).
    rewrite length_take. apply lookup_lt_Some in Hb. lia. }
  assert (List.length blk = BS) by (by eapply Forall_lookup_1 in Hall).
  rewrite drop_app, Hl, (drop_ge (concat (take _ _))) by (rewrite Hl; dlia). rewrite app_nil_l.
  replace (Z.to_nat p - Z.to_nat (p / 4096) * BS)%nat with (Z.to_nat (p mod 4096)) by dlia.
  rewrite drop_app_le, take_app_le; [done| |dlia]. rewrite length_drop. dlia.
Qed.

Lemma wp_read_loop k er s F p rem start :
  bs_holds er s F → Forall (λ b, List.length b = BS) (f_blocks F) →
  0 <= p → 0 <= rem → p + rem <= count F * 4096 → p + rem < 2 ^ 31 → touched p rem = k →
  (0 < rem → start = p / 4096) →
  wp (read_loop p rem start k)
    (λ r s', r = take (Z.to_nat rem) (drop (Z.to_nat p) (concat (f_blocks F))) ∧ bs_holds er s' F)
    (λ e s', er e ∧ bs_closed s') s.
Proof.
  revert s p rem start. induction k as [|k IH]; intros s p rem start Hh Hall Hp Hr Hpc Hpr Hk Hst; cbn [read_loop].
  { assert (rem = 0) as ->. { unfold touched in Hk. destruct (Z.eqb_spec rem 0); [done|]. dlia. }
    by wp_steps. }
  destruct (touched_step p rem k Hp Hr Hk) as (Hr0 & Hs0 & Hk' & Hnext). rewrite (Hst Hr0).
  change BLOCK_SIZE with 4096. rewrite part_size_eq by dlia.
  set (sz := Z.min rem (4096 - p mod 4096)) in *.
  rewrite (wrap_small 64 (p / 4096)), (wrap_small 64 (p + sz)) by (unfold in_range; dlia).
  assert (Z.of_nat (Z.to_nat (p / 4096)) = p / 4096) as Hi by dlia.
  destruct (lookup_lt_is_Some_2 (f_blocks F) (Z.to_nat (p / 4096))) as [blk Hblk]; [unfold count in *; dlia|].
  apply wp_bind. rewrite <- Hi at 1. eapply wp_mono; [by eapply bs_read_block_law| |done].
  cbv beta. intros r s1 [-> Hh1]. apply wp_bind.
  eapply wp_mono; [apply (IH s1 (p + sz) (rem - sz) (p / 4096 + 1)); try done; try lia| |done].
  cbv beta. intros rest s2 [-> Hh2]. wp_steps. split; [|done].
  rewrite (read_part F p sz blk) by (done || lia || dlia).
  replace (Z.to_nat (p + sz)) with (Z.to_nat p + Z.to_nat sz)%nat by lia.
  rewrite <- drop_drop. replace (Z.to_nat rem) with (Z.to_nat sz + Z.to_nat (rem - sz))%nat by lia.
  by rewrite take_take_drop.
Qed.

Lemma wp_ree_fs_read er s F pos len :
  bs_holds er s F → file_ok F → 0 <= pos → 0 <= len → pos + len < 2 ^ 64 →
  wp (ree_fs_read_primitive pos len)
    (λ r s', r = take (Z.to_nat len) (drop (Z.to_nat pos) (f_bytes F)) ∧ bs_holds er s' F)
    (λ e s', er e ∧ (bs_holds er s' F ∨ bs_closed s')) s.
Proof.
  intros Hh Hok Hpos Hlen Hmax. pose proof Hok as [Hb Hfl Hc]. pose proof (length_f_bytes F Hok) as Hlf.
  unfold ree_fs_read_primitive.
  apply wp_bind. eapply wp_mono; [by eapply bs_length_law| |by intros]. cbv beta. intros ? ? [-> ->].
  rewrite (wrap_small 64 (pos + len)) by (unfold in_range; lia).
  destruct (Z.ltb_spec (pos + len) len); [lia|]. cbn [orb].
  set (rem := if f_length F <? pos then 0 else if f_length F <? pos + len then f_length F - pos else len).
  assert (take (Z.to_nat len) (drop (Z.to_nat pos) (f_bytes F))
    = take (Z.to_nat rem) (drop (Z.to_nat pos) (concat (f_blocks F))) ∧ 0 <= rem
    ∧ (0 < rem → pos + rem <= f_length F)) as (-> & Hr0 & Hr1).
  { unfold rem, f_bytes in *. destruct (Z.ltb_spec (f_length F) pos).
    - rewrite drop_ge by lia. rewrite take_nil. split; [done|lia].
    - split; [|destruct (Z.ltb_spec (f_length F) (pos + len)); lia].
      rewrite skipn_firstn_comm, take_take. f_equal.
      destruct (Z.ltb_spec (f_length F) (pos + len)); lia. }
  destruct (Z.eqb_spec rem 0) as [-> |]; [by wp_steps|].
  rewrite (wrap_small 64 (pos + rem - 1)), !pos_to_block_num_eq by (unfold in_range; lia).
  apply wp_bind. eapply wp_mono; [by eapply bs_tmp_block_law| |intros e s' [? ?]; split; [done|by left]]. cbv beta. intros _ s1 Hh1.
  eapply wp_mono; [apply (wp_read_loop _ er s1 F pos rem); try done; try lia| |intros e s' [? ?]; split; [done|by right]].
  - unfold count. rewrite Hc. unfold blocks_for. dlia.
  - unfold touched. by destruct (Z.eqb_spec rem 0).
  - done.
Qed.

(** Of a closed file nothing can be read. *)
Lemma ree_fs_read_closed s pos len : bs_closed s → ree_fs_read_primitive pos len s = (Panicked, s).
Proof. intros Hc. unfold ree_fs_read_primitive, mbind, M_bind. by rewrite bs_length_closed. Qed.
End proofs.
