(* ===== verification/HtreeStore.v ===== *)
(** * The hash tree as the block store of tee_ree_fs.c

    [BlockStore] is instantiated with the operations of Htree.v, the laws are
    proved from HtreeProofs.v, and the two layers together give the properties of a
    file of bytes. *)
From S2P Require Import Prelude BlockFile ByteFile Htree HtreeTree HtreeProofs ReeFs.

Local Open Scope Z_scope.

(** [fdp->ht] and the file behind it; an operation that fails closes the tree. *)
Abbreviation fd := (option tee_fs_htree * dev)%type.

Section with_crypto.
Context `{CryptoLaws}.

Definition fd_read_block (i : Z) : M fd tee_result (list Z) := λ '(ht, d),
  match tee_fs_htree_read_block BS ht i d with
  | (Ok b, d) => (Ok b, (ht, d))
  | (Err e, d) => (Err e, (None, d))
  | (Panicked, d) => (Panicked, (ht, d))
  end.

Definition fd_write_block (i : Z) (b : list Z) : M fd tee_result unit := λ '(ht, d),
  match tee_fs_htree_write_block ht i b d with
  | (Ok ht, d) => (Ok tt, (Some ht, d))
  | (Err e, d) => (Err e, (None, d))
  | (Panicked, d) => (Panicked, (ht, d))
  end.

Definition fd_truncate (i : Z) : M fd tee_result unit := λ '(ht, d),
  match tee_fs_htree_truncate ht i d with
  | (Ok ht, d) => (Ok tt, (Some ht, d))
  | (Err e, d) => (Err e, (ht, d))
  | (Panicked, d) => (Panicked, (ht, d))
  end.

(** tee_fs_htree_get_meta() of a closed tree is a pointer next to NULL. *)
Definition fd_length : M fd tee_result Z := λ '(ht, d),
  match ht with Some h => (Ok (tee_fs_htree_get_meta h), (ht, d)) | None => (Panicked, (ht, d)) end.

Definition fd_set_length (len : Z) : M fd tee_result unit := λ '(ht, d),
  match ht with Some h => (Ok tt, (Some (set_length h len), d)) | None => (Panicked, (ht, d)) end.

(** A call outside of the tree. *)
Definition fd_lift {A} (m : D A) : M fd tee_result A := λ '(ht, d),
  let '(o, d) := m d in (o, (ht, d)).

(** Tee_fs_htree_sync_to_storage() closes the tree when it fails, but not when
    crypto_hash_alloc_ctx(), its first call, does. *)
Definition first_call_fails (d : dev) : bool :=
  match d_faults d with Some _ :: _ => true | _ => false end.
Definition fd_sync : M fd tee_result (option (list Z)) := λ '(ht, d),
  match tee_fs_htree_sync_to_storage ht d with
  | (Ok (ht, h), d) => (Ok h, (Some ht, d))
  | (Err e, d') => (Err e, (if first_call_fails d then ht else None, d'))
  | (Panicked, d) => (Panicked, (ht, d))
  end.

(** The elements that are within the first [len] bytes stay. *)
Definition within (len : Z) (type : tee_fs_htree_type) (idx : Z) (vers : bool) : bool :=
  match get_offs_size type idx (Z.b2z vers) with
  | Ok (offs, size) => offs + size <=? len
  | _ => false
  end.

Definition cut (len : Z) (d : dev) : dev :=
  Dev (d_heads d)
    (filter (λ '((id, v), _), within len TEE_FS_HTREE_TYPE_NODE (NODE_ID_TO_BLOCK_NUM id) v = true) (d_nodes d))
    (filter (λ '((i, v), _), within len TEE_FS_HTREE_TYPE_BLOCK i v = true) (d_blocks d))
    (d_rng d) (d_faults d).

#[export] Instance htree_store : BlockStore fd := {|
  bs_read_block := fd_read_block;
  bs_write_block := fd_write_block;
  bs_truncate_blocks := fd_truncate;
  bs_length := fd_length;
  bs_set_length := fd_set_length;
  bs_tmp_block := fd_lift ext;
  bs_rpc_truncate len := fd_lift (ext_write (cut len));
|}.

(** ** The laws

    A session on a file that holds [F0] as the tree [ht0], the head selected by [sel];
    the nodes in the file are [N]. *)
Definition fd_holds (sel : tee_fs_htree_image → gmap bool tee_fs_htree_image → Prop) (N : gmap (Z * bool) tee_fs_htree_node_image)
    (ht0 : tee_fs_htree) (F0 : file) (er : tee_result → Prop) (s : fd) (F : file) : Prop :=
  ∃ ht, fst s = Some ht ∧ sess BS sel ht0 F0 ht F (snd s) ∧ (∀ e, fault (snd s) e → er e) ∧ d_nodes (snd s) = N.

Definition fd_lost (sel : tee_fs_htree_image → gmap bool tee_fs_htree_image → Prop) (N : gmap (Z * bool) tee_fs_htree_node_image)
    (ht0 : tee_fs_htree) (F0 : file) (s : fd) : Prop :=
  committed_by sel ht0 (snd s) ∧ repr BS ht0 (snd s) F0 ∧ d_nodes (snd s) = N.

Lemma fd_lost_failed {sel} ht0 F0 ht F d e d' :
  sess BS sel ht0 F0 ht F d → failed d e d' → committed_by sel ht0 d' ∧ repr BS ht0 d' F0 ∧ d_nodes d' = d_nodes d.
Proof. intros Hs Hf. by destruct (sess_lost _ _ _ _ _ _ _ _ Hs Hf). Qed.

(** A call outside of the tree in a session. *)
Lemma fd_ext {sel} N ht0 F0 er ht F d :
  sess BS sel ht0 F0 ht F d → (∀ e, fault d e → er e) → d_nodes d = N →
  wp (fd_lift ext) (λ _ s', fd_holds sel N ht0 F0 er s' F) (λ e s', er e ∧ fd_holds sel N ht0 F0 er s' F) (Some ht, d).
Proof.
  intros Hs Hb <-. assert (wp ext (λ _ d', same d d') (failed d) d) as Hw by (apply wp_ext; [done|by split]).
  assert (∀ d', same d d' → fd_holds sel (d_nodes d) ht0 F0 er (Some ht, d') F) as Hh.
  { intros d' Hd. exists ht. split; [done|]. split; [by eapply sess_same|]. split; [|apply Hd].
    intros e He. by apply Hb, (same_faults _ _ Hd). }
  unfold wp, fd_lift in *. destruct (ext d) as [[[]|e|] d']; [by apply Hh| |done].
  destruct Hw as [Hd Hf]. split; [by apply Hb|by apply Hh].
Qed.

Lemma fd_lost_holds {sel} N ht0 F0 er s F : fd_holds sel N ht0 F0 er s F → fd_lost sel N ht0 F0 s.
Proof. intros (ht & _ & Hs & _ & HN). split_and!; [apply Hs|apply Hs|done]. Qed.

Definition htree_store_laws (sel : tee_fs_htree_image → gmap bool tee_fs_htree_image → Prop) (N : gmap (Z * bool) tee_fs_htree_node_image) (ht0 : tee_fs_htree) (F0 : file) : BlockStoreLaws fd BS.
Proof.
  refine {| bs_holds := fd_holds sel N ht0 F0; bs_lost := fd_lost sel N ht0 F0;
            bs_closed s := fst s = None ∧ fd_lost sel N ht0 F0 s |}.
  - by intros s [].
  - intros er s F. apply fd_lost_holds.
  - intros [o d] [Ho _]. simpl in Ho. by subst o.
  - intros er [o d] F i blk (ht & Ho & Hs & Hb & <-) Hi. simpl in *. subst o.
    pose proof (wp_read_block BS ht F d i blk (se_shape _ _ _ _ _ _ Hs) (se_repr _ _ _ _ _ _ Hs) Hi) as Hw.
    unfold wp, bs_read_block, htree_store, fd_read_block in *.
    destruct (tee_fs_htree_read_block BS (Some ht) (Z.of_nat i) d) as [[r|e|] d']; [| |done].
    + destruct Hw as [-> Hd]. split; [done|]. exists ht. split; [done|]. split; [by eapply sess_same|].
      split; [|apply Hd]. intros e He. by apply Hb, (same_faults _ _ Hd).
    + split; [apply Hb, Hw|]. split; [done|]. by eapply fd_lost_failed.
  - intros er [o d] F i blk (ht & Ho & Hs & Hb & <-) Hi Hl Hm. simpl in *. subst o.
    pose proof (wp_write_block BS ht0 F0 ht F d i blk Hs Hi Hl Hm) as Hw.
    unfold wp, bs_write_block, htree_store, fd_write_block in *.
    destruct (tee_fs_htree_write_block (Some ht) (Z.of_nat i) blk d) as [[ht'|e|] d']; [| |done].
    + destruct Hw as (Hs' & Hf & Hn). exists ht'. auto 6.
    + destruct Hw as [Hf Hl']. split; [by apply Hb|done].
  - intros er [o d] F (ht & Ho & Hs & Hb & _). simpl in *. subst o. split; [|done].
    symmetry. apply (repr_length _ _ _ _ (se_repr _ _ _ _ _ _ Hs)).
  - intros er [o d] F l (ht & Ho & Hs & Hb & <-) Hl. simpl in *. subst o.
    exists (set_length ht l). split; [done|]. split; [by apply sess_set_length|done].
  - intros er [o d] F (ht & Ho & Hs & Hb & HN). simpl in *. subst o. by apply (fd_ext N ht0 F0 er ht F).
Defined.

(** ** Files of bytes *)

(** A file opened, written to and synchronised, as by ree_fs_open() and
    ree_fs_write(); and opened and read from. *)
Definition update_file (u : list Z) (pos : Z) (buf : list Z) : D unit := λ d,
  match tee_fs_htree_open false None u d with
  | (Ok ht, d) =>
    match ree_fs_write_primitive pos buf (Some ht, d) with
    | (Ok _, (o, d)) => (tee_fs_htree_sync_to_storage o ≫= λ _, mret tt) d
    | (Err e, (_, d)) => (Err e, d)
    | (Panicked, (_, d)) => (Panicked, d)
    end
  | (Err e, d) => (Err e, d)
  | (Panicked, d) => (Panicked, d)
  end.

Definition read_file (u : list Z) (pos len : Z) : D (list Z) := λ d,
  match tee_fs_htree_open false None u d with
  | (Ok ht, d) => let '(r, (_, d)) := ree_fs_read_primitive pos len (Some ht, d) in (r, d)
  | (Err e, d) => (Err e, d)
  | (Panicked, d) => (Panicked, d)
  end.

(** The file [d] holds the bytes [l]. *)
Definition holds_bytes (u : list Z) (c : Z) (l : list Z) (d : dev) : Prop :=
  ∃ F, holds BS u c F d ∧ file_ok F ∧ f_bytes F = l.

Lemma wp_update_file u c l pos buf d :
  holds_bytes u c l d → c < UINT32_MAX → 0 <= pos → pos + Z.of_nat (List.length buf) < 2 ^ 31 →
  wp (update_file u pos buf)
    (λ _ d', holds_bytes u (c + 1) (write_bytes l pos buf) d')
    (λ e d', fault d e ∧
       (holds_bytes u c l d' ∨ holds_bytes u (c + 1) (write_bytes l pos buf) d'))
    d.
Proof.
  intros (F & (ht0 & <- & Hcnt & Hc & Hr) & Hok & <-) Hlt Hp Hmax.
  assert (∀ d', committed ht0 d' → repr BS ht0 d' F → holds_bytes (uuid ht0) c (f_bytes F) d') as Hold.
  { intros d' ??. exists F. split; [|done]. by exists ht0. }
  pose proof (wp_open ht0 d Hc) as Hw. unfold wp in Hw. unfold wp, update_file.
  destruct (tee_fs_htree_open false None (uuid ht0) d) as [[ht|e|] d1]; [| |done].
  2: { destruct Hw as [Hd1 Hf]. split; [done|]. left. apply Hold; [by eapply committed_same|by eapply repr_same]. }
  destruct Hw as [Hd1 ->].
  pose proof (sess_open BS ht0 F d1 (committed_same _ _ _ Hc Hd1) (repr_same _ _ _ _ _ Hr Hd1)) as Hse.
  assert (fd_holds newest (d_nodes d1) ht0 F (fault d) (Some ht0, d1) F) as Hh.
  { exists ht0. split; [done|]. split; [done|]. split; [|done]. apply (same_faults _ _ Hd1). }
  pose proof (@wp_ree_fs_write _ _ (htree_store_laws newest (d_nodes d1) ht0 F) (fault d) (Some ht0, d1) F pos buf Hh Hok Hp Hmax) as Hw.
  unfold wp in Hw.
  destruct (ree_fs_write_primitive pos buf (Some ht0, d1)) as [[[]|e|] [o d2]]; [| |done].
  - destruct Hw as (F' & (ht & Ho & Hse2 & Hb & _) & Hok' & Hby).
    simpl in *. subst o.
    pose proof (se_head _ _ _ _ _ _ Hse2) as Eh. pose proof (se_uuid _ _ _ _ _ _ Hse2) as Eu.
    change (wp (tee_fs_htree_sync_to_storage (Some ht) ≫= λ _, mret ())
      (λ _ d', holds_bytes (uuid ht0) (c + 1) (write_bytes (f_bytes F) pos buf) d')
      (λ e d', fault d e ∧ (holds_bytes (uuid ht0) c (f_bytes F) d'
         ∨ holds_bytes (uuid ht0) (c + 1) (write_bytes (f_bytes F) pos buf) d')) d2).
    apply wp_bind. eapply wp_mono; [apply (wp_sync BS ht0 F ht F'); [done|rewrite Eh; lia]| |]; cbv beta.
    + intros [ht' h] d3 (Hc3 & Hr3 & Hu3 & _ & Hcnt3 & _). rewrite Eh in Hcnt3. wp_steps.
      exists F'. split; [|done]. exists ht'. rewrite Hu3, Eu. split; [done|]. split; [lia|done].
    + intros e d3 [Hf Hor]. split; [by apply Hb|].
      destruct Hor as [[Hc3 Hr3]|(ht' & Hcnt3 & Hu3 & Hc3 & Hr3)]; [left; by apply Hold|right].
      exists F'. split; [|done]. exists ht'. rewrite Hu3, Eu. rewrite Eh in Hcnt3.
      split; [done|]. split; [lia|done].
  - destruct Hw as (Hf & Hl1 & Hl2 & _). split; [done|]. left. by apply Hold.
Qed.

(** C6: a write of bytes to a file of the REE file system is atomic. From a file
    that holds the bytes [l], opening it, ree_fs_write_primitive() and
    tee_fs_htree_sync_to_storage() leave a file with [buf] written at [pos] (zeros
    between the old end and [pos]); whatever external call fails, the file holds
    the old bytes or the new ones; without a failing call there is no error. *)
Theorem ree_fs_update_atomic u c l pos buf d :
  holds_bytes u c l d → c < UINT32_MAX → 0 <= pos → pos + Z.of_nat (List.length buf) < 2 ^ 31 →
  wp (update_file u pos buf)
    (λ _ d', holds_bytes u (c + 1) (write_bytes l pos buf) d')
    (λ e d', fault d e ∧
       (holds_bytes u c l d' ∨ holds_bytes u (c + 1) (write_bytes l pos buf) d'))
    d.
Proof. apply wp_update_file. Qed.

(** Ree_fs_read_primitive() returns the bytes of the file from [pos] on, at most
    [len] of them and none beyond the end of the file. *)
Lemma ree_fs_read_back u c l pos len d :
  holds_bytes u c l d → 0 <= pos → 0 <= len → pos + len < 2 ^ 64 →
  wp (read_file u pos len)
    (λ r d', r = take (Z.to_nat len) (drop (Z.to_nat pos) l)) (λ e d', fault d e) d.
Proof.
  intros (F & (ht0 & <- & Hcnt & Hc & Hr) & Hok & <-) Hp Hl Hmax.
  pose proof (wp_open ht0 d Hc) as Hw. unfold wp in Hw. unfold wp, read_file.
  destruct (tee_fs_htree_open false None (uuid ht0) d) as [[ht|e|] d1]; [|by destruct Hw|done].
  destruct Hw as [Hd1 ->].
  pose proof (sess_open BS ht0 F d1 (committed_same _ _ _ Hc Hd1) (repr_same _ _ _ _ _ Hr Hd1)) as Hse.
  assert (fd_holds newest (d_nodes d1) ht0 F (fault d) (Some ht0, d1) F) as Hh.
  { exists ht0. split; [done|]. split; [done|]. split; [|done]. apply (same_faults _ _ Hd1). }
  pose proof (@wp_ree_fs_read _ _ (htree_store_laws newest (d_nodes d1) ht0 F) (fault d) (Some ht0, d1) F
    pos len Hh Hok Hp Hl Hmax) as Hw. unfold wp in Hw.
  destruct (ree_fs_read_primitive pos len (Some ht0, d1)) as [[r|e|] [o d2]]; [apply Hw|apply Hw|done].
Qed.
End with_crypto.

(** ** Example *)

Section examples.
Existing Instance toy.
Existing Instance toy_laws.

Lemma holds_bytes_dev0 : holds_bytes [0] 1 [] dev0.
Proof.
  exists (File 0 []). split; [|split; [|done]].
  - unfold dev0. eapply wp_snd; [apply (wp_create BS [0] empty_dev)| |].
    + intros e d'. by apply no_fault.
    + by intros ht d' (? & _).
  - by constructor.
Qed.

(** Three bytes behind a gap. *)
Definition dev_gap : dev := snd (update_file [0] 4 [1; 2; 3] dev0).

Lemma dev_gap_bytes : holds_bytes [0] 2 [0; 0; 0; 0; 1; 2; 3] dev_gap.
Proof.
  unfold dev_gap. eapply wp_snd; [apply (wp_update_file [0] 1 [] 4 [1; 2; 3] dev0 holds_bytes_dev0); done| |].
  - intros e d' [Hf _]. exact (faults_dev0 _ Hf).
  - intros [] d' Hd. exact Hd.
Qed.

Theorem ree_fs_update_atomic_witness :
  holds_bytes [0] 1 [] dev0 ∧ holds_bytes [0] 2 [0; 0; 0; 0; 1; 2; 3] dev_gap.
Proof.
  split; [exact holds_bytes_dev0|]. unfold dev_gap.
  eapply wp_snd.
  - apply (ree_fs_update_atomic [0] 1 [] 4 [1; 2; 3] dev0 holds_bytes_dev0); reflexivity || discriminate.
  - intros e d' [Hf _]. exact (faults_dev0 _ Hf).
  - intros [] d' Hd. exact Hd.
Defined.

Lemma faults_dev_gap e : ¬ fault dev_gap e.
Proof. apply no_fault. vm_compute. reflexivity. Qed.

End examples.
