(* ===== verification/Bitstring.v ===== *)
(** * lib/libutils/ext/include/bitstring.h: strings of bits

    A string is the list of its bytes. Accesses outside of it are undefined in C;
    here they read 0 and change nothing, and the properties exclude them. *)
From S2P Require Import Prelude.

Local Open Scope Z_scope.

(** The byte bit [bit] is in, and its mask within it. *)
Definition _bit_byte (bit : Z) : Z := Z.shiftr bit 3.
Definition _bit_mask (bit : Z) : Z := Z.shiftl 1 (Z.land bit 7).

Definition bitstr_size (nbits : Z) : Z := Z.shiftr (nbits + 7) 3.

Definition byte_at (name : list Z) (i : Z) : Z := default 0 (name !! Z.to_nat i).
(** [name[i] = f(name[i])]; the result is stored in a byte. *)
Definition upd_byte (name : list Z) (i : Z) (f : Z → Z) : list Z :=
  alter (λ b, wrap 8 (f b)) (Z.to_nat i) name.

Definition bit_test (name : list Z) (bit : Z) : bool :=
  negb (Z.land (byte_at name (_bit_byte bit)) (_bit_mask bit) =? 0).
Definition bit_set (name : list Z) (bit : Z) : list Z :=
  upd_byte name (_bit_byte bit) (λ b, Z.lor b (_bit_mask bit)).
Definition bit_clear (name : list Z) (bit : Z) : list Z :=
  upd_byte name (_bit_byte bit) (λ b, Z.land b (Z.lnot (_bit_mask bit))).

(** [k] bytes from [i] on are zeroed. *)
Fixpoint zero_bytes (name : list Z) (i : Z) (k : nat) : list Z :=
  match k with
  | O => name
  | S k => zero_bytes (upd_byte name i (λ _, 0)) (i + 1) k
  end.

(** Clears the bits from [start] to [stop]. *)
Definition bit_nclear (name : list Z) (start stop : Z) : list Z :=
  let startbyte := _bit_byte start in
  let stopbyte := _bit_byte stop in
  let below := Z.shiftr 255 (8 - Z.land start 7) in
  let above := Z.shiftl 255 (Z.land stop 7 + 1) in
  if startbyte =? stopbyte then upd_byte name startbyte (λ b, Z.land b (Z.lor below above))
  else
    let name := upd_byte name startbyte (λ b, Z.land b below) in
    let name := zero_bytes name (startbyte + 1) (Z.to_nat (stopbyte - startbyte - 1)) in
    upd_byte name stopbyte (λ b, Z.land b above).

(** The number of set bits at the low end of a byte that is not 0xff. *)
Fixpoint low_ones (lb : Z) (fuel : nat) : Z :=
  match fuel with
  | O => 0
  | S fuel => if Z.testbit lb 0 then 1 + low_ones (Z.shiftr lb 1) fuel else 0
  end.

(** The loop of bit_ffc(): [k] bytes from [byte] on. *)
Fixpoint ffc_loop (name : list Z) (byte : Z) (k : nat) : Z :=
  match k with
  | O => -1
  | S k =>
    if byte_at name byte =? 255 then ffc_loop name (byte + 1) k
    else Z.shiftl byte 3 + low_ones (byte_at name byte) 8
  end.

(** The first clear bit below [nbits], or -1. *)
Definition bit_ffc (name : list Z) (nbits : Z) : Z :=
  let stopbyte := _bit_byte (nbits - 1) in
  let value := if 0 <? nbits then ffc_loop name 0 (Z.to_nat (stopbyte + 1)) else -1 in
  if nbits <=? value then -1 else value.

(** ** What they do to the single bits *)

Definition bit_of (name : list Z) (i : Z) : bool :=
  Z.testbit (byte_at name (i / 8)) (i mod 8).
(** [bit] is in the string. *)
Definition has_bit (name : list Z) (bit : Z) : Prop :=
  0 <= bit < 8 * Z.of_nat (length name).

Lemma bit_byte_div bit : _bit_byte bit = bit / 8.
Proof. unfold _bit_byte. by rewrite Z.shiftr_div_pow2. Qed.

Lemma bit_mask_eq bit : _bit_mask bit = 2 ^ (bit mod 8).
Proof.
  unfold _bit_mask. change 7 with (Z.ones 3). rewrite Z.land_ones by done. change (2 ^ 3) with 8.
  rewrite Z.shiftl_mul_pow2 by dlia. lia.
Qed.

Lemma byte_at_ok name i : bytes_ok name → 0 <= byte_at name i < 256.
Proof.
  intros Hok. unfold byte_at. destruct (name !! Z.to_nat i) eqn:E; simpl; [|lia].
  by eapply Forall_lookup_1 in Hok.
Qed.

Lemma length_upd_byte name i f : length (upd_byte name i f) = length name.
Proof. apply length_alter. Qed.

Lemma byte_at_upd name i j f :
  0 <= i < Z.of_nat (length name) → 0 <= j →
  byte_at (upd_byte name i f) j = if j =? i then wrap 8 (f (byte_at name i)) else byte_at name j.
Proof.
  intros Hi Hj. unfold byte_at, upd_byte. destruct (Z.eqb_spec j i) as [-> |].
  - destruct (lookup_lt_is_Some_2 name (Z.to_nat i)) as [b Hb]; [lia|].
    by rewrite list_lookup_alter_eq, Hb.
  - rewrite list_lookup_alter_ne by lia. done.
Qed.

Lemma bytes_ok_upd name i f : bytes_ok name → bytes_ok (upd_byte name i f).
Proof.
  intros Hok. unfold upd_byte. apply Forall_alter; [done|]. intros x _ _. by apply (wrap_range 8).
Qed.

Lemma testbit_byte b k : 0 <= b < 256 → 8 <= k → Z.testbit b k = false.
Proof.
  intros Hb Hk. rewrite <- (Z.mod_small b (2 ^ 8)) by lia. apply Z.mod_pow2_bits_high. lia.
Qed.

Lemma testbit_wrap8 z k : 0 <= k < 8 → Z.testbit (wrap 8 z) k = Z.testbit z k.
Proof. intros. unfold wrap. apply Z.mod_pow2_bits_low. lia. Qed.

(** A change of one byte, in terms of bits: [g] says what becomes of bit [k]. *)
Lemma bit_of_upd name i f (g : Z → bool → bool) j :
  0 <= i < Z.of_nat (length name) → 0 <= j →
  (∀ b k, 0 <= k < 8 → Z.testbit (f b) k = g k (Z.testbit b k)) →
  bit_of (upd_byte name i f) j = if j / 8 =? i then g (j mod 8) (bit_of name j) else bit_of name j.
Proof.
  intros Hi Hj Hf. unfold bit_of. rewrite byte_at_upd by dlia.
  destruct (Z.eqb_spec (j / 8) i) as [<- |]; [|done].
  rewrite testbit_wrap8 by dlia. apply Hf. dlia.
Qed.

Lemma bit_test_spec name bit : 0 <= bit → bit_test name bit = bit_of name bit.
Proof.
  intros Hb. unfold bit_test, bit_of. rewrite bit_mask_eq, bit_byte_div.
  set (b := byte_at name (bit / 8)). set (k := bit mod 8). assert (0 <= k) by (unfold k; dlia).
  destruct (Z.testbit b k) eqn:E.
  - destruct (Z.eqb_spec (Z.land b (2 ^ k)) 0) as [H0|]; [|done].
    assert (Z.testbit (Z.land b (2 ^ k)) k = true) as H1 by (by rewrite Z.land_spec, E, Z.pow2_bits_true).
    by rewrite H0, Z.bits_0 in H1.
  - assert (Z.land b (2 ^ k) = 0) as ->; [|done]. apply Z.bits_inj'. intros n Hn.
    rewrite Z.land_spec, Z.bits_0. destruct (decide (n = k)) as [-> |]; [by rewrite E|].
    rewrite Z.pow2_bits_false by done. apply andb_false_r.
Qed.

Lemma bit_set_spec name bit i :
  has_bit name bit → 0 <= i → bit_of (bit_set name bit) i = (i =? bit) || bit_of name i.
Proof.
  intros Hb Hi. unfold bit_set, has_bit in *. rewrite bit_byte_div, bit_mask_eq.
  rewrite (bit_of_upd _ _ _ (λ k x, x || (k =? bit mod 8))); [|dlia|done|].
  - destruct (Z.eqb_spec (i / 8) (bit / 8)), (Z.eqb_spec (i mod 8) (bit mod 8)), (Z.eqb_spec i bit);
      try dlia; by destruct (bit_of name i).
  - intros b k Hk. rewrite Z.lor_spec, Z.pow2_bits_eqb by dlia. by rewrite Z.eqb_sym.
Qed.

Lemma bit_clear_spec name bit i :
  has_bit name bit → 0 <= i → bit_of (bit_clear name bit) i = negb (i =? bit) && bit_of name i.
Proof.
  intros Hb Hi. unfold bit_clear, has_bit in *. rewrite bit_byte_div, bit_mask_eq.
  rewrite (bit_of_upd _ _ _ (λ k x, x && negb (k =? bit mod 8))); [|dlia|done|].
  - destruct (Z.eqb_spec (i / 8) (bit / 8)), (Z.eqb_spec (i mod 8) (bit mod 8)), (Z.eqb_spec i bit);
      try dlia; by destruct (bit_of name i).
  - intros b k Hk. rewrite Z.land_spec, Z.lnot_spec, Z.pow2_bits_eqb by dlia. by rewrite Z.eqb_sym.
Qed.

Lemma testbit_below k s : 0 <= k < 8 → 0 <= s < 8 → Z.testbit (Z.shiftr 255 (8 - s)) k = (k <? s).
Proof.
  intros Hk Hs. rewrite Z.shiftr_spec by lia. change 255 with (Z.ones 8).
  rewrite Z.testbit_ones by lia.
  destruct (Z.leb_spec 0 (k + (8 - s))), (Z.ltb_spec (k + (8 - s)) 8), (Z.ltb_spec k s); simpl; lia || done.
Qed.

Lemma testbit_above k t : 0 <= k < 8 → 0 <= t < 8 → Z.testbit (Z.shiftl 255 (t + 1)) k = (t <? k).
Proof.
  intros Hk Ht. rewrite Z.shiftl_spec by lia. change 255 with (Z.ones 8).
  rewrite Z.testbit_ones by lia.
  destruct (Z.leb_spec 0 (k - (t + 1))), (Z.ltb_spec (k - (t + 1)) 8), (Z.ltb_spec t k); simpl; lia || done.
Qed.

Lemma land_7 x : 0 <= x → Z.land x 7 = x mod 8.
Proof. intros. change 7 with (Z.ones 3). by rewrite Z.land_ones. Qed.

Lemma zero_bytes_spec k name i j :
  0 <= i → i + Z.of_nat k <= Z.of_nat (length name) → 0 <= j →
  length (zero_bytes name i k) = length name
  ∧ bit_of (zero_bytes name i k) j = negb ((i <=? j / 8) && (j / 8 <? i + Z.of_nat k)) && bit_of name j.
Proof.
  revert name i. induction k as [|k IH]; intros name i Hi Hk Hj; cbn [zero_bytes].
  { split; [done|]. destruct (Z.leb_spec i (j / 8)), (Z.ltb_spec (j / 8) (i + Z.of_nat 0)); simpl; lia || done. }
  destruct (IH (upd_byte name i (λ _, 0)) (i + 1)) as [Hl Hb];
    [lia|rewrite length_upd_byte; lia|done|].
  split; [by rewrite Hl, length_upd_byte|]. rewrite Hb.
  rewrite (bit_of_upd _ _ _ (λ _ _, false)) by (lia || (intros; apply Z.bits_0)).
  destruct (Z.leb_spec (i + 1) (j / 8)), (Z.leb_spec i (j / 8)), (Z.eqb_spec (j / 8) i),
    (Z.ltb_spec (j / 8) (i + 1 + Z.of_nat k)), (Z.ltb_spec (j / 8) (i + Z.of_nat (S k))); simpl; lia || done.
Qed.

Lemma bit_nclear_spec name start stop i :
  0 <= start <= stop → has_bit name stop → 0 <= i →
  length (bit_nclear name start stop) = length name
  ∧ bit_of (bit_nclear name start stop) i
    = negb ((start <=? i) && (i <=? stop)) && bit_of name i.
Proof.
  intros Hs Hb Hi. unfold bit_nclear, has_bit in *. rewrite !bit_byte_div, !land_7 by lia.
  assert (0 <= start mod 8 < 8) by dlia. assert (0 <= stop mod 8 < 8) by dlia.
  assert (start / 8 <= stop / 8) by (apply Z.div_le_mono; lia).
  assert (stop / 8 < Z.of_nat (length name)) by dlia. assert (0 <= start / 8) by dlia.
  destruct (Z.eqb_spec (start / 8) (stop / 8)) as [He|He].
  - split; [apply length_upd_byte|].
    rewrite (bit_of_upd _ _ _ (λ k x, x && ((k <? start mod 8) || (stop mod 8 <? k)))); [|lia|done|].
    + assert (i = 8 * (i / 8) + i mod 8) by dlia. assert (start = 8 * (start / 8) + start mod 8) by dlia.
      assert (stop = 8 * (stop / 8) + stop mod 8) by dlia. assert (0 <= i mod 8 < 8) by dlia.
      destruct (Z.eqb_spec (i / 8) (start / 8)), (Z.ltb_spec (i mod 8) (start mod 8)),
        (Z.ltb_spec (stop mod 8) (i mod 8)), (Z.leb_spec start i), (Z.leb_spec i stop);
        simpl; lia || by destruct (bit_of name i).
    + intros b k Hk. by rewrite Z.land_spec, Z.lor_spec, testbit_below, testbit_above.
  - set (n1 := upd_byte name (start / 8) _).
    assert (length n1 = length name) as Hl1 by apply length_upd_byte.
    destruct (zero_bytes_spec (Z.to_nat (stop / 8 - start / 8 - 1)) n1 (start / 8 + 1) i) as [Hl2 Hb2];
      [lia|lia|done|].
    rewrite length_upd_byte. split; [by rewrite Hl2|].
    rewrite (bit_of_upd _ _ _ (λ k x, x && (stop mod 8 <? k))); [|rewrite Hl2; lia|done|].
    2: { intros b k Hk. by rewrite Z.land_spec, testbit_above. }
    rewrite Hb2. unfold n1.
    rewrite (bit_of_upd _ _ _ (λ k x, x && (k <? start mod 8))); [|lia|done|].
    2: { intros b k Hk. by rewrite Z.land_spec, testbit_below. }
    assert (i = 8 * (i / 8) + i mod 8) by dlia. assert (start = 8 * (start / 8) + start mod 8) by dlia.
    assert (stop = 8 * (stop / 8) + stop mod 8) by dlia. assert (0 <= i mod 8 < 8) by dlia.
    replace (start / 8 + 1 + Z.of_nat (Z.to_nat (stop / 8 - start / 8 - 1))) with (stop / 8) by lia.
    destruct (Z.leb_spec (start / 8 + 1) (i / 8)), (Z.ltb_spec (i / 8) (stop / 8)),
      (Z.eqb_spec (i / 8) (start / 8)), (Z.eqb_spec (i / 8) (stop / 8)),
      (Z.ltb_spec (i mod 8) (start mod 8)), (Z.ltb_spec (stop mod 8) (i mod 8)),
      (Z.leb_spec start i), (Z.leb_spec i stop); simpl; lia || by destruct (bit_of name i).
Qed.

Lemma bytes_ok_zero k name i : bytes_ok name → bytes_ok (zero_bytes name i k).
Proof.
  revert name i. induction k as [|k IH]; intros name i Hok; [done|]. by apply IH, bytes_ok_upd.
Qed.

Lemma bytes_ok_nclear name start stop : bytes_ok name → bytes_ok (bit_nclear name start stop).
Proof.
  intros Hok. unfold bit_nclear. destruct (_ =? _); [by apply bytes_ok_upd|].
  by apply bytes_ok_upd, bytes_ok_zero, bytes_ok_upd.
Qed.

(** The first clear bit. *)
Lemma low_ones_spec fuel b :
  0 <= b → ¬ (∀ k, 0 <= k < Z.of_nat fuel → Z.testbit b k = true) →
  0 <= low_ones b fuel < Z.of_nat fuel
  ∧ Z.testbit b (low_ones b fuel) = false
  ∧ ∀ k, 0 <= k < low_ones b fuel → Z.testbit b k = true.
Proof.
  revert b. induction fuel as [|fuel IH]; intros b Hb Hn.
  { destruct Hn. intros k ?. lia. }
  cbn [low_ones]. destruct (Z.testbit b 0) eqn:E0.
  - destruct (IH (Z.shiftr b 1)) as (H1 & H2 & H3).
    + by apply Z.shiftr_nonneg.
    + intros Hall. apply Hn. intros k Hk. destruct (decide (k = 0)) as [-> |]; [done|].
      specialize (Hall (k - 1) ltac:(lia)). rewrite Z.shiftr_spec in Hall by lia.
      by replace (k - 1 + 1) with k in Hall by lia.
    + rewrite Z.shiftr_spec in H2 by lia. split; [lia|]. split.
      * by rewrite Z.add_comm.
      * intros k Hk. destruct (decide (k = 0)) as [-> |]; [done|].
        specialize (H3 (k - 1) ltac:(lia)). rewrite Z.shiftr_spec in H3 by lia.
        by replace (k - 1 + 1) with k in H3 by lia.
  - split; [lia|]. split; [done|]. intros k ?. lia.
Qed.

Lemma byte_full b : 0 <= b < 256 → b ≠ 255 → ¬ (∀ k, 0 <= k < 8 → Z.testbit b k = true).
Proof.
  intros Hb Hne Hall. apply Hne. apply Z.bits_inj'. intros n Hn. change 255 with (Z.ones 8).
  rewrite Z.testbit_ones by done. rewrite (proj2 (Z.leb_le 0 n)) by done. simpl.
  destruct (Z.ltb_spec n 8); [by apply Hall|by apply testbit_byte].
Qed.

Lemma ffc_loop_spec k name byte :
  bytes_ok name → 0 <= byte →
  (ffc_loop name byte k = -1 ∧ ∀ i, 8 * byte <= i < 8 * (byte + Z.of_nat k) → bit_of name i = true)
  ∨ (8 * byte <= ffc_loop name byte k < 8 * (byte + Z.of_nat k)
     ∧ bit_of name (ffc_loop name byte k) = false
     ∧ ∀ i, 8 * byte <= i < ffc_loop name byte k → bit_of name i = true).
Proof.
  intros Hok. revert byte. induction k as [|k IH]; intros byte Hb; cbn [ffc_loop].
  { left. split; [done|]. intros i ?. lia. }
  assert (∀ i, 8 * byte <= i < 8 * (byte + 1) → bit_of name i = Z.testbit (byte_at name byte) (i - 8 * byte)) as Hin.
  { intros i Hi. unfold bit_of. assert (i / 8 = byte) as -> by dlia. f_equal. dlia. }
  destruct (Z.eqb_spec (byte_at name byte) 255) as [Hf|Hf].
  - assert (∀ i, 8 * byte <= i < 8 * (byte + 1) → bit_of name i = true) as Hfull.
    { intros i Hi. rewrite Hin, Hf by done. change 255 with (Z.ones 8). apply Z.ones_spec_low. lia. }
    destruct (IH (byte + 1) ltac:(lia)) as [[H1 H2]|(H1 & H2 & H3)].
    + left. split; [done|]. intros i Hi. destruct (Z.ltb_spec i (8 * (byte + 1))); [apply Hfull|apply H2]; lia.
    + right. split; [lia|]. split; [done|].
      intros i Hi. destruct (Z.ltb_spec i (8 * (byte + 1))); [apply Hfull|apply H3]; lia.
  - right. pose proof (byte_at_ok name byte Hok) as Hr.
    destruct (low_ones_spec 8 (byte_at name byte)) as (H1 & H2 & H3); [lia|by apply byte_full|].
    set (v := low_ones (byte_at name byte) 8) in *. rewrite Z.shiftl_mul_pow2 by done.
    change (2 ^ 3) with 8. split; [lia|]. split.
    + rewrite Hin by lia. by replace (byte * 8 + v - 8 * byte) with v by lia.
    + intros i Hi. rewrite Hin by lia. apply H3. lia.
Qed.

(** The first clear bit below [nbits], or [-1] when there is none; what the bits
    behind [nbits] in the last byte are does not matter. *)
Lemma bit_ffc_cases name nbits :
  bytes_ok name → 0 <= nbits →
  (bit_ffc name nbits = -1 ∧ ∀ i, 0 <= i < nbits → bit_test name i = true)
  ∨ (0 <= bit_ffc name nbits < nbits ∧ bit_test name (bit_ffc name nbits) = false
     ∧ ∀ i, 0 <= i < bit_ffc name nbits → bit_test name i = true).
Proof.
  intros Hok Hn. unfold bit_ffc. destruct (Z.ltb_spec 0 nbits) as [Hp|].
  2: { left. rewrite (proj2 (Z.leb_gt nbits (-1))) by lia. split; [done|]. intros i ?. lia. }
  rewrite bit_byte_div.
  assert (nbits <= 8 * ((nbits - 1) / 8 + 1)) by dlia.
  destruct (ffc_loop_spec (Z.to_nat ((nbits - 1) / 8 + 1)) name 0 Hok) as [[-> H1]|(H1 & H2 & H3)]; [done| |].
  - left. rewrite (proj2 (Z.leb_gt nbits (-1))) by lia. split; [done|].
    intros i Hi. rewrite bit_test_spec by lia. apply H1. dlia.
  - set (v := ffc_loop _ _ _) in *. destruct (Z.leb_spec nbits v).
    + left. split; [done|]. intros i Hi. rewrite bit_test_spec by lia. apply H3. lia.
    + right. split; [lia|]. rewrite bit_test_spec by lia. split; [done|].
      intros i Hi. rewrite bit_test_spec by lia. apply H3. lia.
Qed.

(** The bit strings of bitstring.h are sets of bit numbers. On a string that
    holds the bits up to [stop], bit_set(), bit_clear() and bit_nclear() change the
    bits they name and no other, and bit_ffc() finds the first clear bit below
    [nbits], or says -1 exactly when there is none. *)
Lemma bitstring_is_set name start stop nbits i :
  bytes_ok name → 0 <= start <= stop → has_bit name stop → 0 <= i → 0 <= nbits →
  bit_test (bit_set name stop) i = (i =? stop) || bit_test name i
  ∧ bit_test (bit_clear name stop) i = negb (i =? stop) && bit_test name i
  ∧ bit_test (bit_nclear name start stop) i = negb ((start <=? i) && (i <=? stop)) && bit_test name i
  ∧ (bit_ffc name nbits = -1 ↔ ∀ j, 0 <= j < nbits → bit_test name j = true)
  ∧ (bit_ffc name nbits ≠ -1 →
     0 <= bit_ffc name nbits < nbits ∧ bit_test name (bit_ffc name nbits) = false
     ∧ ∀ j, 0 <= j < bit_ffc name nbits → bit_test name j = true).
Proof.
  intros Hok Hs Hb Hi Hn. rewrite !bit_test_spec by done. split_and!.
  - by apply bit_set_spec.
  - by apply bit_clear_spec.
  - by apply bit_nclear_spec.
  - destruct (bit_ffc_cases name nbits Hok Hn) as [[-> ?]|(H1 & H2 & H3)]; [done|].
    split; [lia|]. intros Hall. rewrite Hall in H2 by done. done.
  - destruct (bit_ffc_cases name nbits Hok Hn) as [[-> ?]|?]; done.
Qed.


(** ** Growing bitmaps

    The bitmap of file numbers of fs_dirfile.c and tadb.c: [n] bits in the string
    [fs]; bits that are not covered count as clear. *)
Definition bits_range : Z := 2 ^ 31 - 8.

Record bitmap_ok (n : Z) (fs : list Z) : Prop := {
  bm_bytes : bytes_ok fs;
  bm_size : Z.of_nat (length fs) = bitstr_size n;
  bm_range : 0 <= n < 2 ^ 31 - 7;
}.

Definition marked (n : Z) (fs : list Z) (i : Z) : bool := if i <? n then bit_test fs i else false.

Lemma bitstr_size_div n : bitstr_size n = (n + 7) / 8.
Proof. unfold bitstr_size. by rewrite Z.shiftr_div_pow2. Qed.

Lemma bitmap_nil : bitmap_ok 0 [].
Proof. by constructor; [constructor| |]. Qed.

(** Bit [idx] and the ones before it are covered; [new] is what realloc() gives. *)
Lemma bitmap_grow n fs idx new :
  bitmap_ok n fs → n <= idx < bits_range → bytes_ok new →
  length new = (Z.to_nat (bitstr_size (idx + 1)) - length fs)%nat →
  let fs' := bit_nclear (take (Z.to_nat (bitstr_size (idx + 1))) fs ++ new) n idx in
  bitmap_ok (idx + 1) fs' ∧ ∀ j, 0 <= j → marked (idx + 1) fs' j = marked n fs j.
Proof.
  intros [Hby Hsz Hr] Hi Hbn Hln. unfold bits_range in Hi. cbv zeta. rewrite bitstr_size_div in *.
  set (size := Z.to_nat ((idx + 1 + 7) / 8)) in *.
  assert (length fs <= size)%nat as Hle by (unfold size; dlia).
  rewrite take_ge by done. set (fs1 := fs ++ new).
  assert (length fs1 = size) as Hlf by (unfold fs1; rewrite length_app; lia).
  assert (has_bit fs1 idx) as Hb by (unfold has_bit; rewrite Hlf; unfold size; dlia).
  assert (length (bit_nclear fs1 n idx) = size) as Hl2.
  { by rewrite (proj1 (bit_nclear_spec fs1 n idx 0 ltac:(lia) Hb ltac:(lia))). }
  assert (bytes_ok fs1) as Hbf by (by apply Forall_app_2).
  split.
  - constructor; [by apply bytes_ok_nclear| |lia]. rewrite bitstr_size_div, Hl2. unfold size. dlia.
  - intros j Hj. unfold marked. destruct (Z.ltb_spec j (idx + 1)) as [Hj1|Hj1].
    2: { destruct (Z.ltb_spec j n); [lia|done]. }
    rewrite !bit_test_spec by done.
    rewrite (proj2 (bit_nclear_spec fs1 n idx j ltac:(lia) Hb Hj)).
    destruct (Z.ltb_spec j n).
    + rewrite (proj2 (Z.leb_gt n j)) by lia. simpl. unfold bit_of, byte_at, fs1.
      by rewrite lookup_app_l by dlia.
    + by rewrite (proj2 (Z.leb_le n j)), (proj2 (Z.leb_le j idx)) by lia.
Qed.

Lemma bitmap_set n fs idx :
  bitmap_ok n fs → 0 <= idx < n →
  bitmap_ok n (bit_set fs idx) ∧ ∀ j, 0 <= j → marked n (bit_set fs idx) j = (j =? idx) || marked n fs j.
Proof.
  intros [Hby Hsz Hr] Hi. pose proof Hsz as Hsz'. rewrite bitstr_size_div in Hsz'.
  assert (has_bit fs idx) as Hb by (unfold has_bit; dlia). split.
  - constructor; [by apply bytes_ok_upd| |done]. unfold bit_set. by rewrite length_upd_byte.
  - intros j Hj. unfold marked. destruct (Z.ltb_spec j n).
    + by rewrite !bit_test_spec, bit_set_spec by done.
    + destruct (Z.eqb_spec j idx); [lia|done].
Qed.

Lemma bitmap_clear n fs idx :
  bitmap_ok n fs → 0 <= idx < n →
  bitmap_ok n (bit_clear fs idx) ∧ ∀ j, 0 <= j → marked n (bit_clear fs idx) j = negb (j =? idx) && marked n fs j.
Proof.
  intros [Hby Hsz Hr] Hi. pose proof Hsz as Hsz'. rewrite bitstr_size_div in Hsz'.
  assert (has_bit fs idx) as Hb by (unfold has_bit; dlia). split.
  - constructor; [by apply bytes_ok_upd| |done]. unfold bit_clear. by rewrite length_upd_byte.
  - intros j Hj. unfold marked. destruct (Z.ltb_spec j n); [|by rewrite andb_false_r].
    by rewrite !bit_test_spec, bit_clear_spec by done.
Qed.

(** The number for a new file: the first clear bit, or the one behind the last. *)
Lemma bitmap_next n fs :
  bitmap_ok n fs →
  let i := match fs with [] => 0 | _ => let i := bit_ffc fs n in if i =? -1 then n else i end in
  0 <= i <= n ∧ marked n fs i = false.
Proof.
  intros [Hby Hsz Hr]. cbv zeta. destruct fs as [|b bs] eqn:Ef.
  - rewrite bitstr_size_div in Hsz. simpl in Hsz. split; [lia|]. unfold marked.
    assert (n = 0) as -> by dlia. done.
  - rewrite <- Ef in *. destruct (bit_ffc_cases fs n) as [[Hm _]|(Hv & Ht & _)]; [done|lia| |].
    + rewrite Hm, Z.eqb_refl. split; [lia|]. unfold marked. by rewrite (proj2 (Z.ltb_ge _ _)) by lia.
    + rewrite (proj2 (Z.eqb_neq _ (-1))) by lia. split; [lia|]. unfold marked.
      by rewrite (proj2 (Z.ltb_lt _ _)) by lia.
Qed.
