(* ===== verification/Dirfile.v ===== *)
(** * core/tee/fs_dirfile.c: the directory of the REE file system

    A file of entries, one per object: the UUID of the TA, the object id, the hash
    of the object's file and its number. A bitmap in memory says which file numbers
    are taken. The properties are in DirfileProofs.v. *)
From S2P Require Import Prelude Uuid ByteFile Bitstring.

Local Open Scope Z_scope.

Definition TEE_OBJECT_ID_MAX_LEN : Z := 64.

(** The file behind [fh] is the state of the monad. *)
Record tee_fs_dirfile_dirh := Dirh { nbits : Z; files : list Z; ndents : Z }.

Record dirfile_entry := Dent {
  d_uuid : TEE_UUID;
  oid : list Z;
  oidlen : Z;
  d_hash : list Z;
  file_number : Z;
}.

Record tee_fs_dirfile_fileh := Fileh { dfh_file_number : Z; dfh_hash : list Z; dfh_idx : Z }.

(** The structures in memory. *)
Definition uuid_bytes (u : TEE_UUID) : list Z :=
  le_bytes 4 (timeLow u) ++ le_bytes 2 (timeMid u) ++ le_bytes 2 (timeHiAndVersion u)
  ++ clockSeqAndNode u.
Definition uuid_of_bytes (l : list Z) : TEE_UUID :=
  MkUuid (le_value (take 4 l)) (le_value (take 2 (drop 4 l))) (le_value (take 2 (drop 6 l)))
    (take 8 (drop 8 l)).

Definition dent_bytes (e : dirfile_entry) : list Z :=
  uuid_bytes (d_uuid e) ++ oid e ++ le_bytes 4 (oidlen e) ++ d_hash e ++ le_bytes 4 (file_number e).
Definition dent_of_bytes (l : list Z) : dirfile_entry :=
  Dent (uuid_of_bytes (take 16 l)) (take 64 (drop 16 l)) (le_value (take 4 (drop 80 l)))
    (take 32 (drop 84 l)) (le_value (take 4 (drop 116 l))).
Definition sizeof_dent : Z := 120.

(** [memset(&dent, 0, sizeof(dent))] *)
Definition zero_dent : dirfile_entry :=
  Dent (MkUuid 0 0 0 (replicate 8 0)) (replicate 64 0) 0 (replicate 32 0) 0.

Section with_file.
Context {S : Type} `{ByteFile S}.

(** ** The bitmap *)

Definition maybe_grow_files (dirh : tee_fs_dirfile_dirh) (idx : Z) : M S tee_result tee_fs_dirfile_dirh :=
  if idx <? nbits dirh then mret dirh
  else
    let size := Z.to_nat (bitstr_size (idx + 1)) in
    new ← fop_realloc (size - length (files dirh))%nat;
    mret (Dirh (idx + 1) (bit_nclear (take size (files dirh) ++ new) (nbits dirh) idx) (ndents dirh)).

Definition set_file (dirh : tee_fs_dirfile_dirh) (idx : Z) : M S tee_result tee_fs_dirfile_dirh :=
  dirh ← maybe_grow_files dirh idx;
  mret (Dirh (nbits dirh) (bit_set (files dirh) idx) (ndents dirh)).

Definition clear_file (dirh : tee_fs_dirfile_dirh) (idx : Z) : tee_fs_dirfile_dirh :=
  if idx <? nbits dirh
  then Dirh (nbits dirh) (bit_clear (files dirh) idx) (ndents dirh) else dirh.

Definition test_file (dirh : tee_fs_dirfile_dirh) (idx : Z) : bool :=
  if idx <? nbits dirh then bit_test (files dirh) idx else false.

(** ** Entries *)

Definition read_dent (idx : Z) : M S tee_result dirfile_entry :=
  l ← fop_read (wrap 64 (sizeof_dent * idx)) sizeof_dent;
  if Z.of_nat (length l) =? sizeof_dent then mret (dent_of_bytes l)
  else mthrow TEE_ERROR_ITEM_NOT_FOUND.

Definition write_dent (dirh : tee_fs_dirfile_dirh) (n : Z) (dent : dirfile_entry)
    : M S tee_result tee_fs_dirfile_dirh :=
  _ ← fop_write (wrap 64 (sizeof_dent * n)) (dent_bytes dent);
  mret (if ndents dirh <=? n then Dirh (nbits dirh) (files dirh) (n + 1) else dirh).

(** The loop of tee_fs_dirfile_open(); [fuel] entries at most. *)
Fixpoint open_loop (dirh : tee_fs_dirfile_dirh) (n : Z) (fuel : nat)
    : M S tee_result tee_fs_dirfile_dirh :=
  match fuel with
  | O => mpanic
  | Datatypes.S fuel =>
    r ← mtry (read_dent n);
    match r with
    | inl TEE_ERROR_ITEM_NOT_FOUND => mret (Dirh (nbits dirh) (files dirh) n)
    | inl e => mthrow e
    | inr dent =>
      if oidlen dent =? 0 then open_loop dirh (n + 1) fuel
      else if test_file dirh (to_int32 (file_number dent)) then
        dirh ← write_dent dirh n zero_dent;
        open_loop dirh (n + 1) fuel
      else
        dirh ← set_file dirh (to_int32 (file_number dent));
        open_loop dirh (n + 1) fuel
    end
  end.

Definition tee_fs_dirfile_open (fuel : nat) (create : bool) (hash : option (list Z))
    : M S tee_result tee_fs_dirfile_dirh :=
  _ ← fop_realloc 0;
  _ ← fop_open create hash;
  open_loop (Dirh 0 [] 0) 0 fuel.

Definition tee_fs_dirfile_commit_writes : M S tee_result (option (list Z)) := fop_commit_writes.

(** The file number. *)
Definition tee_fs_dirfile_get_tmp (dirh : tee_fs_dirfile_dirh) : M S tee_result (tee_fs_dirfile_dirh * Z) :=
  let i :=
    match files dirh with
    | [] => 0
    | _ => let i := bit_ffc (files dirh) (nbits dirh) in if i =? -1 then nbits dirh else i
    end in
  dirh ← set_file dirh i;
  mret (dirh, i).

(** The loop of tee_fs_dirfile_find(). [oid] has [oidlen] bytes. *)
Fixpoint find_loop (dirh : tee_fs_dirfile_dirh) (uuid : TEE_UUID) (id : list Z) (n first_free : Z)
    (fuel : nat) : M S tee_result (Z * dirfile_entry) :=
  match fuel with
  | O => mpanic
  | Datatypes.S fuel =>
    let len := Z.of_nat (length id) in
    r ← mtry (read_dent n);
    match r with
    | inl e =>
      if bool_decide (e = TEE_ERROR_ITEM_NOT_FOUND) && (len =? 0)
      then mret (if negb (first_free =? -1) then first_free else n, zero_dent)
      else mthrow e
    | inr dent =>
      let first_free := if (oidlen dent =? 0) && (first_free =? -1) then n else first_free in
      if negb (oidlen dent =? len) then find_loop dirh uuid id (n + 1) first_free fuel
      else
        _ ← massert ((len =? 0) || (oidlen dent =? 0) || test_file dirh (to_int32 (file_number dent)));
        if bool_decide (uuid_bytes (d_uuid dent) = uuid_bytes uuid)
           && bool_decide (take (length id) (oid dent) = id)
        then mret (n, dent)
        else find_loop dirh uuid id (n + 1) first_free fuel
    end
  end.

Definition tee_fs_dirfile_find (fuel : nat) (dirh : tee_fs_dirfile_dirh) (uuid : TEE_UUID) (id : list Z)
    : M S tee_result tee_fs_dirfile_fileh :=
  '(n, dent) ← find_loop dirh uuid id 0 (-1) fuel;
  mret (Fileh (file_number dent) (d_hash dent) n).

Definition tee_fs_dirfile_rename (fuel : nat) (dirh : tee_fs_dirfile_dirh) (uuid : TEE_UUID)
    (dfh : tee_fs_dirfile_fileh) (id : list Z)
    : M S tee_result (tee_fs_dirfile_dirh * tee_fs_dirfile_fileh) :=
  let len := Z.of_nat (length id) in
  if (len =? 0) || (TEE_OBJECT_ID_MAX_LEN <? len) then mthrow TEE_ERROR_BAD_PARAMETERS
  else
    let dent := Dent uuid (id ++ replicate (Z.to_nat (TEE_OBJECT_ID_MAX_LEN - len)) 0) len
                  (dfh_hash dfh) (dfh_file_number dfh) in
    idx ← (if dfh_idx dfh <? 0 then
             r ← mtry (tee_fs_dirfile_find fuel dirh uuid id);
             match r with
             | inr dfh2 => mret (dfh_idx dfh2)
             | inl TEE_ERROR_ITEM_NOT_FOUND =>
               dfh2 ← tee_fs_dirfile_find fuel dirh uuid []; mret (dfh_idx dfh2)
             | inl e => mthrow e
             end
           else mret (dfh_idx dfh));
    dirh ← write_dent dirh idx dent;
    mret (dirh, Fileh (dfh_file_number dfh) (dfh_hash dfh) idx).

Definition tee_fs_dirfile_remove (dirh : tee_fs_dirfile_dirh) (dfh : tee_fs_dirfile_fileh)
    : M S tee_result tee_fs_dirfile_dirh :=
  dent ← read_dent (dfh_idx dfh);
  if oidlen dent =? 0 then mret dirh
  else
    let number := file_number dent in
    _ ← massert (dfh_file_number dfh =? number);
    _ ← massert (test_file dirh (to_int32 number));
    dirh ← write_dent dirh (dfh_idx dfh) zero_dent;
    mret (clear_file dirh (to_int32 number)).

Definition tee_fs_dirfile_update_hash (dirh : tee_fs_dirfile_dirh) (dfh : tee_fs_dirfile_fileh)
    : M S tee_result tee_fs_dirfile_dirh :=
  dent ← read_dent (dfh_idx dfh);
  _ ← massert (file_number dent =? dfh_file_number dfh);
  _ ← massert (test_file dirh (to_int32 (file_number dent)));
  write_dent dirh (dfh_idx dfh)
    (Dent (d_uuid dent) (oid dent) (oidlen dent) (dfh_hash dfh) (file_number dent)).

(** The loop of tee_fs_dirfile_get_next(). *)
Fixpoint get_next_loop (uuid : TEE_UUID) (i : Z) (fuel : nat) : M S tee_result (Z * dirfile_entry) :=
  match fuel with
  | O => mpanic
  | Datatypes.S fuel =>
    dent ← read_dent i;
    if bool_decide (uuid_bytes (d_uuid dent) = uuid_bytes uuid) && negb (oidlen dent =? 0)
    then mret (i, dent)
    else get_next_loop uuid (i + 1) fuel
  end.

(** The new index and the object id; [size] is the room for it. *)
Definition tee_fs_dirfile_get_next (fuel : nat) (uuid : TEE_UUID) (idx : Z) (size : Z)
    : M S tee_result (Z * list Z) :=
  let i := idx + 1 in
  '(i, dent) ← get_next_loop uuid (if i <? 0 then 0 else i) fuel;
  if size <? oidlen dent then mthrow TEE_ERROR_SHORT_BUFFER
  else mret (i, take (Z.to_nat (oidlen dent)) (oid dent)).
End with_file.

(** ** File names *)

(** [%PRIx32] *)
Fixpoint hex_string (fuel : nat) (v : Z) : list Z :=
  match fuel with
  | O => []
  | S fuel =>
    (if v <? 16 then [] else hex_string fuel (v / 16)) ++ [hexdigit (v mod 16)]
  end.

(** "dirf.db" *)
Definition dirf_db : list Z := [100; 105; 114; 102; 46; 100; 98].

(** The name written, or the size it needs. *)
Definition tee_fs_dirfile_fileh_to_fname (dfh : option tee_fs_dirfile_fileh) (fnlen : Z)
    : outcome tee_result (list Z) * Z :=
  let name := match dfh with Some d => hex_string 8 (dfh_file_number d) | None => dirf_db end in
  let r := Z.of_nat (length name) in
  (if fnlen <=? r then Err TEE_ERROR_SHORT_BUFFER else Ok name, r + 1).
