(* ===== verification/DirfileProofs.v ===== *)
(** * core/tee/fs_dirfile.c: the properties

    The directory is a finite map from the UUID of the TA and the object id to the
    number and the hash of the object's file. No two objects share a file number,
    and a new number is never one in use. *)
From S2P Require Import Prelude Uuid ByteFile Bitstring Dirfile.

Local Open Scope Z_scope.

(** ** Entries in the file *)

Record dent_ok (e : dirfile_entry) : Prop := {
  de_uuid : uuid_wf (d_uuid e);
  de_oid : length (oid e) = 64%nat;
  de_oidlen : 0 <= oidlen e <= 64;
  de_hash : length (d_hash e) = 32%nat;
  de_number : 0 <= file_number e < 2 ^ 31 - 8;
}.

Lemma length_uuid_bytes u : uuid_wf u → length (uuid_bytes u) = 16%nat.
Proof. intros (_ & _ & _ & Hl & _). unfold uuid_bytes. by rewrite !length_app, !length_le_bytes, Hl. Qed.

Lemma uuid_of_bytes_bytes u : uuid_wf u → uuid_of_bytes (uuid_bytes u) = u.
Proof.
  intros (H1 & H2 & H3 & Hl & _). destruct u as [a b c l]. unfold uuid_of_bytes, uuid_bytes. cbn in *.
  f_equal.
  - by apply (le_value_bytes 4).
  - by apply (le_value_bytes 2).
  - by apply (le_value_bytes 2).
  - rewrite drop_0, take_ge; [done|lia].
Qed.

Lemma length_dent_bytes e : dent_ok e → length (dent_bytes e) = 120%nat.
Proof.
  intros [Hu Ho _ Hh _]. unfold dent_bytes.
  by rewrite !length_app, length_uuid_bytes, !length_le_bytes, Ho, Hh.
Qed.

Lemma dent_of_bytes_bytes e : dent_ok e → dent_of_bytes (dent_bytes e) = e.
Proof.
  intros [Hu Ho Hl Hh Hn]. pose proof (length_uuid_bytes _ Hu) as Hlu.
  destruct e as [u o l h n]. unfold dent_of_bytes, dent_bytes.
  cbn [d_uuid oid oidlen d_hash file_number] in *.
  pose proof (uuid_of_bytes_bytes u Hu) as Hub. revert Hlu Hub.
  generalize (uuid_bytes u). intros ub Hlu Hub.
  pose proof (length_le_bytes 4 l) as H4. pose proof (length_le_bytes 4 n) as H4'.
  pose proof (le_value_bytes 4 l ltac:(lia)) as V4. pose proof (le_value_bytes 4 n ltac:(lia)) as V4'.
  revert H4 H4' V4 V4'. generalize (le_bytes 4 l) (le_bytes 4 n). intros o4 n4 H4 H4' V4 V4'.
  assert (take 16 (ub ++ o ++ o4 ++ h ++ n4) = ub) as E1.
  { rewrite take_app_le by lia. by apply take_ge; lia. }
  assert (drop 16 (ub ++ o ++ o4 ++ h ++ n4) = o ++ o4 ++ h ++ n4) as E2.
  { rewrite <- Hlu. apply drop_app_length. }
  assert (drop 80 (ub ++ o ++ o4 ++ h ++ n4) = o4 ++ h ++ n4) as E3.
  { change 80%nat with (16 + 64)%nat. rewrite <- drop_drop, E2, <- Ho. apply drop_app_length. }
  assert (drop 84 (ub ++ o ++ o4 ++ h ++ n4) = h ++ n4) as E4.
  { change 84%nat with (80 + 4)%nat. rewrite <- drop_drop, E3, <- H4. apply drop_app_length. }
  assert (drop 116 (ub ++ o ++ o4 ++ h ++ n4) = n4) as E5.
  { change 116%nat with (84 + 32)%nat. rewrite <- drop_drop, E4, <- Hh. apply drop_app_length. }
  rewrite E1, E2, E3, E4, E5, Hub.
  f_equal.
  - rewrite <- Ho. apply take_app_length.
  - rewrite <- H4, take_app_length. exact V4.
  - rewrite <- Hh. apply take_app_length.
  - rewrite take_ge by lia. exact V4'.
Qed.

Lemma zero_dent_ok : dent_ok zero_dent.
Proof.
  constructor; try done. split; [done|]. split; [done|]. split; [done|]. split; [done|].
  apply Forall_replicate. done.
Qed.

(** The file made of the entries. *)
Definition dir_bytes (ents : list dirfile_entry) : list Z := concat (dent_bytes <$> ents).

Lemma dir_uniform ents : Forall dent_ok ents → Forall (λ b, length b = 120%nat) (dent_bytes <$> ents).
Proof. intros He. apply Forall_fmap. eapply Forall_impl; [done|]. apply length_dent_bytes. Qed.

(** Writing entry [n], which may be the one behind the last. *)
Abbreviation set_ent := set_at.

Lemma set_ent_ok ents n e : Forall dent_ok ents → dent_ok e → Forall dent_ok (set_ent ents n e).
Proof. apply Forall_set_at. Qed.

Lemma length_set_ent (ents : list dirfile_entry) n e :
  (length ents <= length (set_ent ents n e) <= length ents + 1)%nat.
Proof. apply length_set_at. Qed.

Lemma lookup_set_ent (ents : list dirfile_entry) n e i :
  (n <= length ents)%nat → set_ent ents n e !! i = if decide (i = n) then Some e else ents !! i.
Proof. apply lookup_set_at. Qed.

Lemma write_bytes_dent ents n e :
  Forall dent_ok ents → dent_ok e → (n <= length ents)%nat →
  write_bytes (dir_bytes ents) (120 * Z.of_nat n) (dent_bytes e) = dir_bytes (set_ent ents n e).
Proof.
  intros He Hok Hn. unfold dir_bytes. rewrite fmap_set_at.
  apply (write_bytes_uniform 120); [by apply dir_uniform|by apply length_dent_bytes|lia|by rewrite length_fmap].
Qed.

(** ** The directory *)

Definition used (e : dirfile_entry) : Prop := oidlen e ≠ 0.
#[global] Instance used_dec e : Decision (used e).
Proof. apply _. Defined.

Definition dir_key : Type := list Z * list Z.
Definition key_of (e : dirfile_entry) : dir_key := (uuid_bytes (d_uuid e), take (Z.to_nat (oidlen e)) (oid e)).

(** Entries with a directory's constraints: at most one per key and number. *)
Record ents_ok (ents : list dirfile_entry) : Prop := {
  eo_ok : Forall dent_ok ents;
  eo_size : 120 * (Z.of_nat (length ents) + 1) < 2 ^ 31;
  eo_numbers : ∀ i j e e', ents !! i = Some e → ents !! j = Some e' → used e → used e' →
    file_number e = file_number e' → i = j;
  eo_keys : ∀ i j e e', ents !! i = Some e → ents !! j = Some e' → used e → used e' →
    key_of e = key_of e' → i = j;
}.

(** The bitmap covers [nbits] bits. *)
Definition bits_ok (dirh : tee_fs_dirfile_dirh) : Prop := bitmap_ok (nbits dirh) (files dirh).

(** The numbers of the objects are marked. *)
Record dirh_ok (dirh : tee_fs_dirfile_dirh) (ents : list dirfile_entry) : Prop := {
  do_bits : bits_ok dirh;
  do_marked : ∀ e, e ∈ ents → used e → test_file dirh (file_number e) = true;
  do_count : ndents dirh = Z.of_nat (length ents);
}.

(** The map the directory stands for. *)
Definition dir_map (ents : list dirfile_entry) : gmap dir_key (Z * list Z) :=
  list_to_map ((λ e, (key_of e, (file_number e, d_hash e))) <$> filter used ents).

Lemma dir_map_lookup ents k v :
  ents_ok ents →
  dir_map ents !! k = Some v ↔
    ∃ i e, ents !! i = Some e ∧ used e ∧ key_of e = k ∧ (file_number e, d_hash e) = v.
Proof.
  intros [_ _ _ Hk]. unfold dir_map. induction ents as [|e ents IH]; simpl.
  { split; [done|]. by intros (i & e & ? & _). }
  assert (∀ i j e e', ents !! i = Some e → ents !! j = Some e' → used e → used e' →
    key_of e = key_of e' → i = j) as Hk'.
  { intros i j a b Ha Hb. specialize (Hk (S i) (S j) a b Ha Hb). intros Ua Ub Hab.
    specialize (Hk Ua Ub Hab). lia. }
  specialize (IH Hk'). rewrite filter_cons. case_decide as Hu.
  - rewrite fmap_cons, list_to_map_cons. destruct (decide (key_of e = k)) as [<- |Hne].
    + rewrite lookup_insert_eq. split.
      * intros [= <-]. by exists 0%nat, e.
      * intros (i & e' & Hi & Hu' & He' & <-). f_equal.
        assert (i = 0%nat) as -> by (apply (Hk i 0%nat e' e); done).
        simpl in Hi. congruence.
    + rewrite lookup_insert_ne by done. rewrite IH. split.
      * intros (i & e' & Hi & Hr). by exists (S i), e'.
      * intros ([|i] & e' & Hi & Hu' & He' & Hv); [simpl in Hi; congruence|]. by exists i, e'.
  - rewrite IH. split.
    + intros (i & e' & Hi & Hr). by exists (S i), e'.
    + intros ([|i] & e' & Hi & Hu' & Hr); [by injection Hi as <-|]. by exists i, e'.
Qed.

Lemma dir_map_None ents k :
  ents_ok ents → (∀ i e, ents !! i = Some e → used e → key_of e ≠ k) → dir_map ents !! k = None.
Proof.
  intros He Hn. destruct (dir_map ents !! k) as [v|] eqn:E; [|done].
  apply dir_map_lookup in E as (i & e & Hi & Hu & Hk & _); [|done]. by destruct (Hn i e Hi Hu).
Qed.

(** An entry may be replaced by one with a fresh number, when its key is fresh or
    its own. *)
Lemma ents_ok_set ents n e :
  ents_ok ents → dent_ok e → (n <= length ents)%nat →
  120 * (Z.of_nat n + 2) < 2 ^ 31 →
  (used e → ∀ i e', i ≠ n → ents !! i = Some e' → used e' →
     file_number e' ≠ file_number e ∧ key_of e' ≠ key_of e) →
  ents_ok (set_ent ents n e).
Proof.
  intros [H1 H2 H3 H4] He Hn Hsz Hf. constructor.
  - by apply set_ent_ok.
  - unfold set_ent. case_decide; [by rewrite length_insert|]. rewrite length_app. simpl.
    assert (n = length ents) by lia. lia.
  - intros i j a b Ha Hb Ua Ub Hab. rewrite lookup_set_ent in Ha, Hb by done. 
    destruct (decide (i = n)) as [-> |Hi], (decide (j = n)) as [-> |Hj].
    + done.
    + injection Ha as <-. by destruct (proj1 (Hf Ua j b Hj Hb Ub)).
    + injection Hb as <-. by destruct (proj1 (Hf Ub i a Hi Ha Ua)).
    + exact (H3 i j a b Ha Hb Ua Ub Hab).
  - intros i j a b Ha Hb Ua Ub Hab. rewrite lookup_set_ent in Ha, Hb by done. 
    destruct (decide (i = n)) as [-> |Hi], (decide (j = n)) as [-> |Hj].
    + done.
    + injection Ha as <-. by destruct (proj2 (Hf Ua j b Hj Hb Ub)).
    + injection Hb as <-. by destruct (proj2 (Hf Ub i a Hi Ha Ua)).
    + exact (H4 i j a b Ha Hb Ua Ub Hab).
Qed.

(** What it does to the map. *)
Lemma dir_map_set ents n e :
  ents_ok ents → ents_ok (set_ent ents n e) → (n <= length ents)%nat →
  (∀ e0, ents !! n = Some e0 → used e0 → used e → key_of e0 = key_of e) →
  dir_map (set_ent ents n e) =
    (if decide (used e) then <[key_of e := (file_number e, d_hash e)]> (dir_map ents)
     else match ents !! n with
          | Some e0 => if decide (used e0) then delete (key_of e0) (dir_map ents) else dir_map ents
          | None => dir_map ents
          end).
Proof.
  intros H1 H2 Hn Hkey. apply map_eq. intros k. apply option_eq. intros v.
  rewrite dir_map_lookup by done. destruct (decide (used e)) as [Hu|Hu].
  - destruct (decide (key_of e = k)) as [<- |Hne].
    + rewrite lookup_insert_eq. split.
      * intros (i & e' & Hi & Hu' & Hk & <-). rewrite lookup_set_ent in Hi by done.
        case_decide; [congruence|]. exfalso.
        assert (i = n); [|done]. apply (eo_keys _ H2 i n e' e); try done.
        -- by rewrite lookup_set_ent, decide_False.
        -- by rewrite lookup_set_ent, decide_True.
      * intros [= <-]. exists n, e. by rewrite lookup_set_ent, decide_True.
    + rewrite lookup_insert_ne, dir_map_lookup by done. split.
      * intros (i & e' & Hi & Hr). rewrite lookup_set_ent in Hi by done. exists i, e'.
        case_decide; [|done]. destruct Hr as (_ & Hk & _). injection Hi as <-. by destruct Hne.
      * intros (i & e' & Hi & Hu' & Hk & Hv). exists i, e'. rewrite lookup_set_ent by done.
        case_decide; [|done]. subst i. destruct Hne. by rewrite <- (Hkey e').
  - assert (∀ i e', i ≠ n ∧ ents !! i = Some e' ∧ used e' ↔ set_ent ents n e !! i = Some e' ∧ used e') as Hset.
    { intros i e'. rewrite lookup_set_ent by done. case_decide; naive_solver. }
    destruct (ents !! n) as [e0|] eqn:E0; [destruct (decide (used e0)) as [Hu0|Hu0]|].
    + rewrite lookup_delete_Some, dir_map_lookup by done. split.
      * intros (i & e' & Hi & Hu' & Hk & Hv). destruct (proj2 (Hset i e') (conj Hi Hu')) as (Hne & Hi' & _).
        split; [|by exists i, e']. intros <-. apply Hne. by eapply (eo_keys _ H1).
      * intros (Hne & i & e' & Hi & Hu' & Hk & Hv). exists i, e'.
        assert (i ≠ n) as Hin by (intros ->; congruence).
        by destruct (proj1 (Hset i e') (conj Hin (conj Hi Hu'))).
    + rewrite dir_map_lookup by done. split.
      * intros (i & e' & Hi & Hu' & Hr). destruct (proj2 (Hset i e') (conj Hi Hu')) as (_ & Hi' & _). by exists i, e'.
      * intros (i & e' & Hi & Hu' & Hr). assert (i ≠ n) as Hin by (intros ->; rewrite E0 in Hi; by injection Hi as ->).
        destruct (proj1 (Hset i e') (conj Hin (conj Hi Hu'))). by exists i, e'.
    + rewrite dir_map_lookup by done. split.
      * intros (i & e' & Hi & Hu' & Hr). destruct (proj2 (Hset i e') (conj Hi Hu')) as (_ & Hi' & _). by exists i, e'.
      * intros (i & e' & Hi & Hu' & Hr). assert (i ≠ n) as Hin by (intros ->; congruence).
        destruct (proj1 (Hset i e') (conj Hin (conj Hi Hu'))). by exists i, e'.
Qed.
