(* ===== verification/DirfileSpec.v ===== *)
(** * core/tee/fs_dirfile.c: what the calls do

    Over any file of bytes ([ByteFileLaws]) the directory implements a finite map:
    [dir_is] relates the open directory to the map, and each call is specified in
    terms of the map alone. *)
From S2P Require Import Prelude Uuid ByteFile Bitstring Dirfile DirfileProofs.

Local Open Scope Z_scope.

Section with_file.
Context {S : Type} `{ByteFileLaws S}.

(** ** The bitmap *)

Lemma wp_set_file er k s p l dirh idx :
  bits_ok dirh → 0 <= idx < bits_range → bf_holds er k s p l →
  wp (set_file dirh idx)
    (λ d s', bits_ok d ∧ ndents d = ndents dirh ∧ nbits d = Z.max (nbits dirh) (idx + 1)
       ∧ (∀ j, 0 <= j → test_file d j = (j =? idx) || test_file dirh j) ∧ bf_holds er k s' p l)
    (λ e s', er e ∧ bf_lost s' p) s.
Proof.
  intros Hb Hi Hf. pose proof (bm_range _ _ Hb) as Hr. unfold set_file, maybe_grow_files.
  apply wp_bind. destruct (Z.ltb_spec idx (nbits dirh)) as [Hlt|Hge].
  - apply wp_ret, wp_ret. destruct (bitmap_set _ _ idx Hb) as [Hb' Ht]; [lia|]. cbn [nbits files ndents].
    split_and!; done || lia.
  - apply wp_bind. eapply wp_mono; [by apply fop_realloc_law| |done].
    intros new s' (Hln & Hbn & Hf'). apply wp_ret, wp_ret.
    destruct (bitmap_grow _ _ idx new Hb) as [Hb1 Ht1]; [lia|done|done|].
    destruct (bitmap_set _ _ idx Hb1) as [Hb2 Ht2]; [lia|]. cbn [nbits files ndents].
    split_and!; [done|done|lia| |done]. intros j Hj. etrans; [by apply Ht2|]. by rewrite (Ht1 j Hj).
Qed.

Lemma clear_file_spec dirh idx :
  bits_ok dirh → 0 <= idx →
  bits_ok (clear_file dirh idx) ∧ ndents (clear_file dirh idx) = ndents dirh
  ∧ ∀ j, 0 <= j → test_file (clear_file dirh idx) j = negb (j =? idx) && test_file dirh j.
Proof.
  intros Hb Hi. unfold clear_file. destruct (Z.ltb_spec idx (nbits dirh)) as [Hlt|Hge].
  - destruct (bitmap_clear _ _ idx Hb) as [Hb' Ht]; [lia|]. done.
  - split_and!; [done|done|]. intros j Hj. unfold test_file.
    destruct (Z.eqb_spec j idx), (Z.ltb_spec j (nbits dirh)); simpl; lia || done.
Qed.

(** ** Entries *)

Definition dir_holds (er : tee_result → Prop) (k : nat) (s : S) (p : list Z) (ents : list dirfile_entry) : Prop :=
  bf_holds er k s p (dir_bytes ents).

Lemma length_dir_bytes ents : Forall dent_ok ents → length (dir_bytes ents) = (length ents * 120)%nat.
Proof.
  intros He. unfold dir_bytes. rewrite (length_concat_uniform 120) by (by apply dir_uniform).
  by rewrite length_fmap.
Qed.

Lemma wp_read_dent_err er k s p ents n :
  Forall dent_ok ents → dir_holds er k s p ents → (n <= length ents)%nat → 120 * (Z.of_nat n + 1) < 2 ^ 31 →
  wp (read_dent (Z.of_nat n))
    (λ e s', ents !! n = Some e ∧ dir_holds er k s' p ents)
    (λ e s', (e = TEE_ERROR_ITEM_NOT_FOUND ∧ n = length ents ∧ dir_holds er k s' p ents)
             ∨ (er e ∧ (dir_holds er k s' p ents ∨ bf_closed s' p))) s.
Proof.
  intros He Hh Hn Hs. unfold read_dent, sizeof_dent. apply wp_bind.
  rewrite wrap_small by (unfold in_range; lia).
  eapply wp_mono; [apply (fop_read_law er k s p (dir_bytes ents)); lia || done| |by right].
  intros r s' [-> Hh']. replace (Z.to_nat (120 * Z.of_nat n)) with (n * 120)%nat by lia.
  change (Z.to_nat 120) with 120%nat.
  destruct (decide (n < length ents)%nat) as [Hlt|Hge].
  - destruct (lookup_lt_is_Some_2 ents n Hlt) as [e Hl].
    assert (dent_ok e) as Hok by (by eapply Forall_lookup_1 in He).
    unfold dir_bytes. rewrite (concat_part_uniform 120 _ n (dent_bytes e)).
    2: { by apply dir_uniform. }
    2: { by rewrite list_lookup_fmap, Hl. }
    rewrite length_dent_bytes by done. apply wp_ret. by rewrite dent_of_bytes_bytes.
  - rewrite drop_ge by (rewrite length_dir_bytes by done; lia). apply wp_throw. left.
    split; [done|]. split; [lia|done].
Qed.

Lemma wp_read_dent er k s p ents n :
  Forall dent_ok ents → dir_holds er k s p ents → (n <= length ents)%nat → 120 * (Z.of_nat n + 1) < 2 ^ 31 →
  wp (read_dent (Z.of_nat n))
    (λ e s', ents !! n = Some e ∧ dir_holds er k s' p ents)
    (λ e s', (e = TEE_ERROR_ITEM_NOT_FOUND ∧ n = length ents ∧ dir_holds er k s' p ents)
             ∨ (er e ∧ bf_lost s' p)) s.
Proof.
  intros. eapply wp_mono; [by apply (wp_read_dent_err er k s p ents n)|done|].
  intros e s' [?|[? [?|?]]]; [by left|right..]; (split; [done|]); [by eapply bf_lost_holds|by apply bf_lost_closed].
Qed.

Lemma wp_write_dent er k s p ents dirh n e :
  Forall dent_ok ents → dir_holds er k s p ents → (n <= length ents)%nat → 120 * (Z.of_nat n + 1) < 2 ^ 31 →
  dent_ok e → ndents dirh <= Z.of_nat (length ents) →
  wp (write_dent dirh (Z.of_nat n) e)
    (λ d s', nbits d = nbits dirh ∧ files d = files dirh
       ∧ (ndents dirh = Z.of_nat (length ents) → ndents d = Z.of_nat (length (set_ent ents n e)))
       ∧ ndents d <= Z.max (ndents dirh) (Z.of_nat n + 1)
       ∧ dir_holds er k s' p (set_ent ents n e))
    (λ e s', er e ∧ bf_lost s' p) s.
Proof.
  intros He Hh Hn Hs Hok Hnd. unfold write_dent, sizeof_dent. apply wp_bind.
  rewrite wrap_small by (unfold in_range; lia).
  eapply wp_mono; [apply (fop_write_law er k s p (dir_bytes ents)); [done|lia|]| |done].
  { rewrite length_dent_bytes by done. lia. }
  intros [] s' Hh'. rewrite write_bytes_dent in Hh' by done. apply wp_ret.
  destruct (Z.leb_spec (ndents dirh) (Z.of_nat n)); cbn [nbits files ndents].
  - split_and!; [done|done| |lia|done]. intros Heq. unfold set_ent. rewrite decide_False by lia.
    rewrite length_app. simpl. lia.
  - split_and!; [done|done| |lia|done]. intros Heq. unfold set_ent. rewrite decide_True by lia.
    by rewrite length_insert.
Qed.

(** ** Finding an entry *)

Definition key_for (uuid : TEE_UUID) (id : list Z) : dir_key := (uuid_bytes uuid, id).

(** The test of the loop of tee_fs_dirfile_find(). *)
Lemma matches_key e uuid id :
  oidlen e = Z.of_nat (length id) →
  bool_decide (uuid_bytes (d_uuid e) = uuid_bytes uuid) && bool_decide (take (length id) (oid e) = id)
  = bool_decide (key_of e = key_for uuid id).
Proof.
  intros Hl. unfold key_of, key_for. rewrite Hl, Nat2Z.id.
  rewrite <- bool_decide_and. apply bool_decide_ext. split; [by intros [H1 H2]; rewrite H1, H2|].
  intros Heq. split; [exact (f_equal fst Heq)|exact (f_equal snd Heq)].
Qed.

Lemma key_len e uuid id : dent_ok e → key_of e = key_for uuid id → oidlen e = Z.of_nat (length id).
Proof.
  intros [_ Ho Hl _ _] Heq. apply (f_equal snd) in Heq. cbn in Heq. rewrite <- Heq, length_take. lia.
Qed.

Lemma number_small e : dent_ok e → to_int32 (file_number e) = file_number e.
Proof. intros [_ _ _ _ Hn]. apply to_int32_small. lia. Qed.

Lemma ents_room ents n : ents_ok ents → (n <= length ents)%nat → 120 * (Z.of_nat n + 1) < 2 ^ 31.
Proof. intros [_ Hs _ _] ?. lia. Qed.

(** [n] is the number of the next entry to look at; none before it is the one. *)
Lemma wp_find_id er k s p ents dirh uuid id fuel n ff :
  ents_ok ents → dirh_ok dirh ents → ¬ er TEE_ERROR_ITEM_NOT_FOUND → id ≠ [] →
  (n <= length ents)%nat → (length ents - n < fuel)%nat →
  (∀ i e, (i < n)%nat → ents !! i = Some e → used e → key_of e ≠ key_for uuid id) →
  dir_holds er k s p ents →
  wp (find_loop dirh uuid id (Z.of_nat n) ff fuel)
    (λ '(i, e) s', ∃ j, i = Z.of_nat j ∧ ents !! j = Some e ∧ used e ∧ key_of e = key_for uuid id
       ∧ dir_holds er k s' p ents)
    (λ e s', (e = TEE_ERROR_ITEM_NOT_FOUND ∧ dir_holds er k s' p ents
              ∧ ∀ i e, ents !! i = Some e → used e → key_of e ≠ key_for uuid id)
             ∨ (er e ∧ (dir_holds er k s' p ents ∨ bf_closed s' p))) s.
Proof.
  intros He Hd Her Hid. revert s n ff. induction fuel as [|fuel IH]; intros s n ff Hn Hfuel Hno Hh; [lia|].
  assert (Forall dent_ok ents) as Hok by apply He.
  cbn [find_loop]. apply wp_bind, wp_try.
  eapply wp_mono; [apply (wp_read_dent_err er k s p ents n); try done; by eapply ents_room| |].
  2: { intros e s' Hx. assert (Z.of_nat (length id) =? 0 = false) as -> by (apply Z.eqb_neq; by destruct id).
       rewrite andb_false_r. apply wp_throw. destruct Hx as [(-> & -> & Hh')|Hx]; [left|by right].
       split_and!; [done|done|]. intros i e Hi. apply (Hno i e); [by eapply lookup_lt_Some|done]. }
  intros e s' [Hl Hh']. pose proof (lookup_lt_Some _ _ _ Hl) as Hlt.
  assert (dent_ok e) as Hoke by (by eapply Forall_lookup_1 in Hok).
  assert (∀ ff s', dir_holds er k s' p ents → (used e → key_of e ≠ key_for uuid id) →
    wp (find_loop dirh uuid id (Z.of_nat n + 1) ff fuel)
    (λ '(i, e) s', ∃ j, i = Z.of_nat j ∧ ents !! j = Some e ∧ used e ∧ key_of e = key_for uuid id
       ∧ dir_holds er k s' p ents)
    (λ e s', (e = TEE_ERROR_ITEM_NOT_FOUND ∧ dir_holds er k s' p ents
              ∧ ∀ i e, ents !! i = Some e → used e → key_of e ≠ key_for uuid id)
             ∨ (er e ∧ (dir_holds er k s' p ents ∨ bf_closed s' p))) s') as Hnext.
  { intros ff' s'' Hh'' Hne. replace (Z.of_nat n + 1) with (Z.of_nat (Datatypes.S n)) by lia.
    apply IH; [lia|lia| |done]. intros i e' Hi Hl'. destruct (decide (i = n)) as [-> |].
    - by simplify_eq.
    - apply (Hno i e'); [lia|done]. }
  destruct (Z.eqb_spec (oidlen e) (Z.of_nat (length id))) as [Hlen|Hlen]; cbn [negb].
  2: { apply Hnext; [done|]. intros _ Hkey. by apply Hlen, (key_len e uuid id). }
  apply wp_bind. apply wp_assert.
  { rewrite number_small by done. rewrite (do_marked _ _ Hd e); [by rewrite orb_true_r| |].
    - by eapply list_elem_of_lookup_2.
    - unfold used. rewrite Hlen. by destruct id. }
  rewrite matches_key by done. case_bool_decide as Hkey.
  - apply wp_ret. exists n. split_and!; [done..| |done|done].
    unfold used. rewrite Hlen. by destruct id.
  - by apply Hnext.
Qed.

(** A search for no id finds a free entry, or the end. *)
Lemma wp_find_free er k s p ents dirh uuid fuel n ff :
  ents_ok ents → dirh_ok dirh ents → ¬ er TEE_ERROR_ITEM_NOT_FOUND →
  (n <= length ents)%nat → (length ents - n < fuel)%nat →
  (ff = -1 ∨ ∃ f e, ff = Z.of_nat f ∧ ents !! f = Some e ∧ ¬ used e) →
  dir_holds er k s p ents →
  wp (find_loop dirh uuid [] (Z.of_nat n) ff fuel)
    (λ '(i, _) s', ∃ j, i = Z.of_nat j ∧ (j <= length ents)%nat
       ∧ (∀ e, ents !! j = Some e → ¬ used e) ∧ dir_holds er k s' p ents)
    (λ e s', er e ∧ bf_lost s' p) s.
Proof.
  intros He Hd Her. revert s n ff. induction fuel as [|fuel IH]; intros s n ff Hn Hfuel Hff Hh; [lia|].
  assert (Forall dent_ok ents) as Hok by apply He.
  cbn [find_loop]. apply wp_bind, wp_try.
  eapply wp_mono; [apply (wp_read_dent er k s p ents n); try done; by eapply ents_room| |].
  2: { intros e s' [(-> & -> & Hh')|[Hx1 Hx2]].
       - cbn [length]. change (Z.of_nat 0 =? 0) with true. rewrite bool_decide_eq_true_2 by done.
         cbn [andb]. apply wp_ret. destruct Hff as [-> |(f & e & -> & Hf & Hu)].
         + cbn. exists (length ents). split_and!; [done|done| |done].
           intros e Hl. apply lookup_lt_Some in Hl. lia.
         + rewrite (proj2 (Z.eqb_neq (Z.of_nat f) (-1))) by lia. cbn [negb]. exists f.
           split_and!; [done| |intros e' ?; by simplify_eq|done]. apply lookup_lt_Some in Hf. lia.
       - rewrite bool_decide_eq_false_2 by (intros ->; by apply Her). by apply wp_throw. }
  intros e s' [Hl Hh']. pose proof (lookup_lt_Some _ _ _ Hl) as Hlt. cbn [length].
  change (Z.of_nat 0) with 0. set (ff' := if (oidlen e =? 0) && (ff =? -1) then Z.of_nat n else ff).
  assert (wp (find_loop dirh uuid [] (Z.of_nat n + 1) ff' fuel)
    (λ '(i, _) s', ∃ j, i = Z.of_nat j ∧ (j <= length ents)%nat
       ∧ (∀ e, ents !! j = Some e → ¬ used e) ∧ dir_holds er k s' p ents)
    (λ e s', er e ∧ bf_lost s' p) s') as Hnext.
  { replace (Z.of_nat n + 1) with (Z.of_nat (Datatypes.S n)) by lia. apply IH; [lia|lia| |done].
    unfold ff'. destruct (Z.eqb_spec (oidlen e) 0) as [Hz|]; [|done]. cbn [andb].
    destruct (ff =? -1); [|done]. right. exists n, e. split_and!; [done|done|]. unfold used. lia. }
  destruct (Z.eqb_spec (oidlen e) 0) as [Hz|Hz]; [|exact Hnext]. cbn [negb orb].
  apply wp_bind, wp_assert; [done|].
  destruct (bool_decide _ && bool_decide _); [|exact Hnext].
  apply wp_ret. exists n. split_and!; [done|lia| |done]. intros e' ?. simplify_eq. unfold used. lia.
Qed.
(** ** The directory as a map *)

(** The open directory stands for [m]; the file behind it holds [p] until the next
    commit. *)
Definition dir_is (er : tee_result → Prop) (k : nat) (s : S) (p : list Z) (dirh : tee_fs_dirfile_dirh)
    (m : gmap dir_key (Z * list Z)) : Prop :=
  ∃ ents, ents_ok ents ∧ dirh_ok dirh ents ∧ dir_holds er k s p ents ∧ dir_map ents = m.

(** [dfh] refers to the entry [e]. *)
Definition refers (dfh : tee_fs_dirfile_fileh) (ents : list dirfile_entry) (e : dirfile_entry) : Prop :=
  ∃ n, dfh_idx dfh = Z.of_nat n ∧ ents !! n = Some e ∧ used e ∧ file_number e = dfh_file_number dfh.

Lemma test_file_bits d d' j : nbits d = nbits d' → files d = files d' → test_file d j = test_file d' j.
Proof. unfold test_file. by intros -> ->. Qed.

Lemma bits_ok_same d d' : nbits d = nbits d' → files d = files d' → bits_ok d' → bits_ok d.
Proof. intros H1 H2 [? ? ?]. constructor; by rewrite ?H1, ?H2. Qed.

Lemma zero_unused : ¬ used zero_dent.
Proof. unfold used. cbn. lia. Qed.

(** The search, seen from the entries. *)
Lemma wp_find_entry_err er k s p ents dirh uuid id fuel :
  ents_ok ents → dirh_ok dirh ents → ¬ er TEE_ERROR_ITEM_NOT_FOUND → id ≠ [] →
  ndents dirh < Z.of_nat fuel → dir_holds er k s p ents →
  wp (tee_fs_dirfile_find fuel dirh uuid id)
    (λ dfh s', ∃ e, refers dfh ents e ∧ key_of e = key_for uuid id ∧ d_hash e = dfh_hash dfh
       ∧ dir_holds er k s' p ents)
    (λ e s', (e = TEE_ERROR_ITEM_NOT_FOUND ∧ dir_holds er k s' p ents
              ∧ ∀ i e, ents !! i = Some e → used e → key_of e ≠ key_for uuid id)
             ∨ (er e ∧ (dir_holds er k s' p ents ∨ bf_closed s' p))) s.
Proof.
  intros He Hd Her Hid Hfuel Hh. unfold tee_fs_dirfile_find. apply wp_bind.
  rewrite (do_count _ _ Hd) in Hfuel.
  eapply wp_mono; [apply (wp_find_id er k s p ents dirh uuid id fuel 0 (-1)); try done; try lia; intros; lia| |done].
  intros [i e] s' (j & -> & Hl & Hu & Hk & Hh'). apply wp_ret. exists e.
  split; [|done]. by exists j.
Qed.

Lemma wp_find_entry er k s p ents dirh uuid id fuel :
  ents_ok ents → dirh_ok dirh ents → ¬ er TEE_ERROR_ITEM_NOT_FOUND → id ≠ [] →
  ndents dirh < Z.of_nat fuel → dir_holds er k s p ents →
  wp (tee_fs_dirfile_find fuel dirh uuid id)
    (λ dfh s', ∃ e, refers dfh ents e ∧ key_of e = key_for uuid id ∧ d_hash e = dfh_hash dfh
       ∧ dir_holds er k s' p ents)
    (λ e s', (e = TEE_ERROR_ITEM_NOT_FOUND ∧ dir_holds er k s' p ents
              ∧ ∀ i e, ents !! i = Some e → used e → key_of e ≠ key_for uuid id)
             ∨ (er e ∧ bf_lost s' p)) s.
Proof.
  intros. eapply wp_mono; [by apply (wp_find_entry_err er k s p ents dirh uuid id fuel)|done|].
  intros e s' [?|[? [?|?]]]; [by left|right..]; (split; [done|]); [by eapply bf_lost_holds|by apply bf_lost_closed].
Qed.

Lemma wp_find_slot er k s p ents dirh uuid fuel :
  ents_ok ents → dirh_ok dirh ents → ¬ er TEE_ERROR_ITEM_NOT_FOUND →
  ndents dirh < Z.of_nat fuel → dir_holds er k s p ents →
  wp (tee_fs_dirfile_find fuel dirh uuid [])
    (λ dfh s', ∃ j, dfh_idx dfh = Z.of_nat j ∧ (j <= length ents)%nat
       ∧ (∀ e, ents !! j = Some e → ¬ used e) ∧ dir_holds er k s' p ents)
    (λ e s', er e ∧ bf_lost s' p) s.
Proof.
  intros He Hd Her Hfuel Hh. unfold tee_fs_dirfile_find. apply wp_bind.
  rewrite (do_count _ _ Hd) in Hfuel.
  eapply wp_mono; [apply (wp_find_free er k s p ents dirh uuid fuel 0 (-1)); try done; try lia; by left| |done].
  intros [i e] s' (j & -> & Hr). apply wp_ret. by exists j.
Qed.

(** Writing an entry that is not in the way of the others. *)
Lemma wp_set_entry er k s p ents dirh n e :
  ents_ok ents → dirh_ok dirh ents → dir_holds er k s p ents → (n <= length ents)%nat →
  120 * (Z.of_nat n + 2) < 2 ^ 31 → dent_ok e →
  (used e → test_file dirh (file_number e) = true) →
  (used e → ∀ i e', i ≠ n → ents !! i = Some e' → used e' →
     file_number e' ≠ file_number e ∧ key_of e' ≠ key_of e) →
  wp (write_dent dirh (Z.of_nat n) e)
    (λ d s', nbits d = nbits dirh ∧ files d = files dirh ∧ ents_ok (set_ent ents n e)
       ∧ dirh_ok d (set_ent ents n e) ∧ dir_holds er k s' p (set_ent ents n e))
    (λ e s', er e ∧ bf_lost s' p) s.
Proof.
  intros He Hd Hh Hn Hs Hok Hm Hf. assert (Forall dent_ok ents) as Hall by apply He.
  pose proof (do_count _ _ Hd) as Hc.
  eapply wp_mono; [apply (wp_write_dent er k s p ents dirh n e); try done; lia| |done].
  intros d s' (Hb & Hfl & Hcount & _ & Hh'). split_and!; [done|done|by apply ents_ok_set| |done].
  constructor; [eapply bits_ok_same, Hd; done| |by apply Hcount].
  intros e' [i Hi]%list_elem_of_lookup Hu. rewrite (test_file_bits d dirh) by done.
  rewrite lookup_set_ent in Hi by done. case_decide as Hin.
  - injection Hi as <-. by apply Hm.
  - apply (do_marked _ _ Hd); [by eapply list_elem_of_lookup_2|done].
Qed.

(** The entry tee_fs_dirfile_rename() writes. *)
Definition new_dent (uuid : TEE_UUID) (id h : list Z) (number : Z) : dirfile_entry :=
  Dent uuid (id ++ replicate (Z.to_nat (TEE_OBJECT_ID_MAX_LEN - Z.of_nat (length id))) 0)
    (Z.of_nat (length id)) h number.

Lemma new_dent_ok uuid id h number :
  uuid_wf uuid → 0 < Z.of_nat (length id) <= 64 → length h = 32%nat → 0 <= number < bits_range →
  dent_ok (new_dent uuid id h number) ∧ used (new_dent uuid id h number)
  ∧ key_of (new_dent uuid id h number) = key_for uuid id.
Proof.
  intros Hu Hl Hh Hn. unfold new_dent, TEE_OBJECT_ID_MAX_LEN. split_and!.
  - constructor; cbn; try done; [|lia]. rewrite length_app, length_replicate. lia.
  - unfold used. cbn. lia.
  - unfold key_of, key_for. cbn [d_uuid oid oidlen]. by rewrite Nat2Z.id, take_app_length.
Qed.

(** A file number that only the object [key] may have. *)
Definition free_for (m : gmap dir_key (Z * list Z)) (key : dir_key) (number : Z) : Prop :=
  ∀ key' v, m !! key' = Some v → key' ≠ key → v.1 ≠ number.

Lemma dir_map_entry ents i e :
  ents_ok ents → ents !! i = Some e → used e → dir_map ents !! key_of e = Some (file_number e, d_hash e).
Proof. intros He Hi Hu. apply dir_map_lookup; [done|]. by exists i, e. Qed.

(** The entry of a new number or hash goes to [n]: the object's own entry or a free one. *)
Lemma wp_put_entry er k s p ents dirh n e :
  ents_ok ents → dirh_ok dirh ents → dir_holds er k s p ents → (n <= length ents)%nat →
  120 * (Z.of_nat n + 2) < 2 ^ 31 → dent_ok e → used e →
  test_file dirh (file_number e) = true → free_for (dir_map ents) (key_of e) (file_number e) →
  (∀ i e', i ≠ n → ents !! i = Some e' → used e' → key_of e' ≠ key_of e) →
  (∀ e', ents !! n = Some e' → used e' → key_of e' = key_of e) →
  wp (write_dent dirh (Z.of_nat n) e)
    (λ d s', nbits d = nbits dirh ∧ ndents d <= ndents dirh + 1
       ∧ dir_is er k s' p d (<[key_of e := (file_number e, d_hash e)]> (dir_map ents)))
    (λ e s', er e ∧ bf_lost s' p) s.
Proof.
  intros He Hd Hh Hn Hs Hok Hu Hm Hfree Hoth Hown.
  eapply wp_mono; [apply (wp_set_entry er k s p ents dirh n e); try done| |done].
  - intros _ i e' Hi Hl Hu'. split; [|by eapply Hoth].
    apply (Hfree (key_of e') (file_number e', d_hash e')); [by eapply dir_map_entry|by eapply Hoth].
  - intros d s' (Hb & Hf & He' & Hd' & Hh'). split; [done|]. split.
    { rewrite (do_count _ _ Hd), (do_count _ _ Hd'). pose proof (length_set_ent ents n e). lia. }
    exists (set_ent ents n e).
    split_and!; [done..|]. rewrite dir_map_set by (try done; intros ? ? ? _; by apply Hown).
    by rewrite decide_True.
Qed.

Lemma wp_rename_new er k s p m dirh fuel uuid id dfh :
  dir_is er k s p dirh m → ¬ er TEE_ERROR_ITEM_NOT_FOUND →
  ndents dirh < Z.of_nat fuel → 120 * (ndents dirh + 2) < 2 ^ 31 →
  uuid_wf uuid → 0 < Z.of_nat (length id) <= 64 → length (dfh_hash dfh) = 32%nat →
  0 <= dfh_file_number dfh < bits_range → test_file dirh (dfh_file_number dfh) = true →
  free_for m (key_for uuid id) (dfh_file_number dfh) → dfh_idx dfh < 0 →
  wp (tee_fs_dirfile_rename fuel dirh uuid dfh id)
    (λ '(d, dfh') s', nbits d = nbits dirh ∧ ndents d <= ndents dirh + 1
       ∧ (dfh_file_number dfh' = dfh_file_number dfh ∧ dfh_hash dfh' = dfh_hash dfh)
       ∧ dir_is er k s' p d (<[key_for uuid id := (dfh_file_number dfh, dfh_hash dfh)]> m))
    (λ e s', er e ∧ bf_lost s' p) s.
Proof.
  intros (ents & He & Hd & Hh & <-) Her Hfuel Hroom Hu Hl Hlh Hn Hm Hfree Hidx.
  unfold tee_fs_dirfile_rename.
  rewrite (proj2 (Z.eqb_neq _ 0)), (proj2 (Z.ltb_ge TEE_OBJECT_ID_MAX_LEN _)) by (unfold TEE_OBJECT_ID_MAX_LEN; lia).
  cbn [orb]. rewrite (proj2 (Z.ltb_lt _ 0)) by done. cbv zeta.
  fold (new_dent uuid id (dfh_hash dfh) (dfh_file_number dfh)).
  destruct (new_dent_ok uuid id (dfh_hash dfh) (dfh_file_number dfh)) as (Hok & Hus & Hk); [done..|].
  set (e := new_dent _ _ _ _) in *. rewrite <- Hk in *. pose proof (do_count _ _ Hd) as Hc.
  assert (∀ n s', (n <= length ents)%nat → dir_holds er k s' p ents →
    (∀ i e', i ≠ n → ents !! i = Some e' → used e' → key_of e' ≠ key_of e) →
    (∀ e', ents !! n = Some e' → used e' → key_of e' = key_of e) →
    wp (dirh' ← write_dent dirh (Z.of_nat n) e;
        mret (dirh', Fileh (dfh_file_number dfh) (dfh_hash dfh) (Z.of_nat n)))
      (λ '(d, dfh') s', nbits d = nbits dirh ∧ ndents d <= ndents dirh + 1
         ∧ (dfh_file_number dfh' = dfh_file_number dfh ∧ dfh_hash dfh' = dfh_hash dfh)
         ∧ dir_is er k s' p d (<[key_of e := (dfh_file_number dfh, dfh_hash dfh)]> (dir_map ents)))
      (λ e s', er e ∧ bf_lost s' p) s') as Hput.
  { intros n s' Hle Hh' Hoth Hown. apply wp_bind.
    eapply wp_mono; [apply (wp_put_entry er k s' p ents dirh n e); try done; lia| |done].
    intros d s'' (? & ? & ?). by apply wp_ret. }
  apply wp_bind, wp_bind, wp_try.
  assert (id ≠ []) as Hid by (intros ->; simpl in Hl; lia).
  eapply wp_mono; [by apply (wp_find_entry er k s p ents dirh uuid id fuel)| |].
  - intros dfh2 s' (e0 & (n & Hn0 & He0 & Hu0 & _) & Hk0 & _ & Hh'). apply wp_ret. rewrite Hn0.
    rewrite <- Hk in Hk0. apply Hput; [by eapply Nat.lt_le_incl, lookup_lt_Some|done| |].
    + intros i e' Hi Hl' Hu' Hk'. apply Hi. apply (eo_keys _ He i n e' e0); try done. congruence.
    + intros e' Hl' Hu'. congruence.
  - intros err s' [(-> & Hh' & Hno)|[Her' Hlost]].
    2: { destruct err; try by apply wp_throw. done. }
    apply wp_bind. eapply wp_mono; [by apply (wp_find_slot er k s' p ents dirh uuid fuel)| |done].
    intros dfh2 s'' (j & Hj & Hle & Hfr & Hh''). apply wp_ret. rewrite Hj. rewrite <- Hk in Hno.
    apply Hput; [done|done| |].
    + intros i e' _. apply Hno.
    + intros e' Hl' Hu'. by destruct (Hfr e' Hl').
Qed.

Lemma wp_update_hash er k s p ents dirh dfh e h :
  ents_ok ents → dirh_ok dirh ents → dir_holds er k s p ents →
  refers dfh ents e → length h = 32%nat →
  wp (tee_fs_dirfile_update_hash dirh (Fileh (dfh_file_number dfh) h (dfh_idx dfh)))
    (λ d s', nbits d = nbits dirh ∧ ndents d <= ndents dirh + 1
       ∧ dir_is er k s' p d (<[key_of e := (dfh_file_number dfh, h)]> (dir_map ents)))
    (λ e s', er e ∧ bf_lost s' p) s.
Proof.
  intros He Hd Hh (n & Hn & Hl & Hu & Hnum) Hlh. unfold tee_fs_dirfile_update_hash.
  cbn [dfh_idx dfh_hash dfh_file_number]. rewrite Hn. assert (Forall dent_ok ents) as Hall by apply He.
  pose proof (lookup_lt_Some _ _ _ Hl) as Hlt.
  assert (dent_ok e) as Hoke by (by eapply Forall_lookup_1 in Hall).
  pose proof (do_marked _ _ Hd e ltac:(by eapply list_elem_of_lookup_2) Hu) as Hm.
  apply wp_bind. eapply wp_mono; [apply (wp_read_dent er k s p ents n); try done; [lia|by eapply ents_room, Nat.lt_le_incl]| |].
  2: { intros e' s' [(_ & -> & _)|Hx]; [lia|done]. }
  intros e' s' [He' Hh']. simplify_eq. rewrite Hnum, Z.eqb_refl.
  apply wp_bind, wp_assert; [done|]. apply wp_bind, wp_assert.
  { by rewrite <- Hnum, number_small. }
  set (e1 := Dent _ _ _ _ _). assert (key_of e1 = key_of e) as Hk by done.
  apply (wp_put_entry er k s' p ents dirh n e1); try done.
  - lia.
  - pose proof (eo_size _ He). lia.
  - destruct Hoke. constructor; cbn; try done. by rewrite <- Hnum.
  - cbn [e1 file_number]. by rewrite Hnum in Hm.
  - intros key' v Hv Hne. rewrite dir_map_lookup in Hv by done. destruct Hv as (i & e2 & Hi & Hu2 & <- & <-).
    cbn. rewrite <- Hnum. intros Heq. apply Hne. rewrite Hk.
    assert (i = n) as -> by (by apply (eo_numbers _ He i n e2 e)). by simplify_eq.
  - intros i e2 Hi Hl2 Hu2 Hk2. apply Hi. apply (eo_keys _ He i n e2 e); done.
  - intros e2 Hl2 _. by simplify_eq.
Qed.

(** A removal needs little of the other entries. *)
Lemma wp_remove_entry er k s p ents dirh dfh e n :
  Forall dent_ok ents → 120 * (Z.of_nat (length ents) + 1) < 2 ^ 31 →
  ndents dirh = Z.of_nat (length ents) → dir_holds er k s p ents →
  dfh_idx dfh = Z.of_nat n → ents !! n = Some e → used e → file_number e = dfh_file_number dfh →
  test_file dirh (file_number e) = true →
  wp (tee_fs_dirfile_remove dirh dfh)
    (λ d s', ∃ dirh', nbits dirh' = nbits dirh ∧ files dirh' = files dirh ∧ ndents dirh' = ndents dirh
       ∧ d = clear_file dirh' (file_number e) ∧ dir_holds er k s' p (set_ent ents n zero_dent))
    (λ e s', er e ∧ bf_lost s' p) s.
Proof.
  intros Hall Hsz Hc Hh Hn Hl Hu Hnum Hm. unfold tee_fs_dirfile_remove. rewrite Hn.
  pose proof (lookup_lt_Some _ _ _ Hl) as Hlt.
  assert (dent_ok e) as Hoke by (by eapply Forall_lookup_1 in Hall).
  apply wp_bind. eapply wp_mono; [apply (wp_read_dent er k s p ents n); try done; lia| |].
  2: { intros e' s' [(_ & -> & _)|Hx]; [lia|done]. }
  intros e' s' [He' Hh']. simplify_eq. rewrite (proj2 (Z.eqb_neq _ 0)) by done.
  rewrite Hnum, Z.eqb_refl. apply wp_bind, wp_assert; [done|]. apply wp_bind, wp_assert.
  { by rewrite <- Hnum, number_small. }
  apply wp_bind. eapply wp_mono; [apply (wp_write_dent er k s' p ents dirh n zero_dent); try done; [lia|lia|apply zero_dent_ok|lia]| |done].
  intros d s'' (Hb & Hf & Hc' & _ & Hh''). apply wp_ret. exists d. split_and!; [done|done| | |done].
  - rewrite Hc' by done. unfold set_ent. rewrite decide_True by done. by rewrite length_insert.
  - by rewrite <- Hnum, number_small.
Qed.

(** ** A new file number *)

Lemma wp_get_tmp er k s p m dirh :
  dir_is er k s p dirh m → nbits dirh < bits_range →
  wp (tee_fs_dirfile_get_tmp dirh)
    (λ '(d, i) s', 0 <= i < bits_range ∧ test_file dirh i = false ∧ test_file d i = true
       ∧ nbits d <= nbits dirh + 1 ∧ ndents d = ndents dirh
       ∧ (∀ key v, m !! key = Some v → v.1 ≠ i) ∧ dir_is er k s' p d m)
    (λ e s', er e ∧ bf_lost s' p) s.
Proof.
  intros (ents & He & Hd & Hh & <-) Hnb. unfold tee_fs_dirfile_get_tmp.
  pose proof (do_bits _ _ Hd) as Hb0. pose proof (bm_range _ _ Hb0) as Hr. unfold bits_range in *.
  set (i := match files dirh with [] => 0 | _ => _ end).
  assert (0 <= i <= nbits dirh ∧ test_file dirh i = false) as [Hi Hfree] by apply (bitmap_next _ _ Hb0).
  apply wp_bind. eapply wp_mono; [apply (wp_set_file er k s p (dir_bytes ents) dirh i); try done; unfold bits_range; lia| |done].
  intros d s' (Hb & Hnd & Hnbits & Ht & Hh'). apply wp_ret. split_and!; [lia|lia|done| |lia|done| |].
  - by rewrite Ht, Z.eqb_refl by lia.
  - intros key v Hv. rewrite dir_map_lookup in Hv by done. destruct Hv as (j & e & Hj & Hu & _ & <-).
    cbn. intros Heq. pose proof (do_marked _ _ Hd e ltac:(by eapply list_elem_of_lookup_2) Hu) as Hm.
    rewrite Heq in Hm. congruence.
  - exists ents. split_and!; [done| |done|done]. constructor; [done| |rewrite Hnd; apply Hd].
    intros e Hin Hu. assert (dent_ok e) as Hok by (by eapply Forall_forall in Hin; [|apply He]).
    rewrite Ht by apply Hok. by rewrite (do_marked _ _ Hd), orb_true_r.
Qed.

(** ** The clients' calls

    What tee_ree_fs.c does with the directory: an object is looked up, a new or
    replaced one gets a new file number and is entered, an object written to gets a
    new hash, and an object is removed. *)
Inductive dir_op :=
| DFind (uuid : TEE_UUID) (id : list Z)
| DAdd (uuid : TEE_UUID) (id h : list Z)
| DUpdate (uuid : TEE_UUID) (id h : list Z)
| DRemove (uuid : TEE_UUID) (id : list Z).

Definition op_key (o : dir_op) : TEE_UUID * list Z :=
  match o with DFind u i | DAdd u i _ | DUpdate u i _ | DRemove u i => (u, i) end.

(** The number and hash of the object the call is about, if it is there. *)
Definition run_dir_op (fuel : nat) (o : dir_op) (dirh : tee_fs_dirfile_dirh)
    : M S tee_result (option (Z * list Z) * tee_fs_dirfile_dirh) :=
  let find uuid id (f : tee_fs_dirfile_fileh → M S tee_result (option (Z * list Z) * tee_fs_dirfile_dirh)) :=
    r ← mtry (tee_fs_dirfile_find fuel dirh uuid id);
    match r with
    | inr dfh => f dfh
    | inl TEE_ERROR_ITEM_NOT_FOUND => mret (None, dirh)
    | inl e => mthrow e
    end in
  match o with
  | DFind uuid id => find uuid id (λ dfh, mret (Some (dfh_file_number dfh, dfh_hash dfh), dirh))
  | DAdd uuid id h =>
    '(dirh, i) ← tee_fs_dirfile_get_tmp dirh;
    '(dirh, dfh) ← tee_fs_dirfile_rename fuel dirh uuid (Fileh i h (-1)) id;
    mret (Some (dfh_file_number dfh, dfh_hash dfh), dirh)
  | DUpdate uuid id h =>
    find uuid id (λ dfh, dirh ← tee_fs_dirfile_update_hash dirh (Fileh (dfh_file_number dfh) h (dfh_idx dfh));
                         mret (Some (dfh_file_number dfh, dfh_hash dfh), dirh))
  | DRemove uuid id =>
    find uuid id (λ dfh, dirh ← tee_fs_dirfile_remove dirh dfh;
                         mret (Some (dfh_file_number dfh, dfh_hash dfh), dirh))
  end.

Fixpoint run_dir_ops (fuel : nat) (os : list dir_op) (dirh : tee_fs_dirfile_dirh)
    : M S tee_result (list (option (Z * list Z)) * tee_fs_dirfile_dirh) :=
  match os with
  | [] => mret ([], dirh)
  | o :: os =>
    '(a, dirh) ← run_dir_op fuel o dirh;
    '(ans, dirh) ← run_dir_ops fuel os dirh;
    mret (a :: ans, dirh)
  end.
End with_file.
