(* ===== verification/DirfileMap.v ===== *)
(** * core/tee/fs_dirfile.c: the directory is a map

    Opening a directory, any sequence of calls, and committing: refinement of a
    finite map, atomic when something fails. *)
From S2P Require Import Prelude Uuid ByteFile Bitstring Dirfile DirfileProofs DirfileSpec.

Local Open Scope Z_scope.

(** ** Opening *)

(** The file numbers in use. *)
Definition numbers (ents : list dirfile_entry) : list Z := file_number <$> filter used ents.

(** What is left when the entries with a number seen before are cleared. *)
Fixpoint clear_dups (seen : list Z) (ents : list dirfile_entry) : list dirfile_entry :=
  match ents with
  | [] => []
  | e :: ents =>
    if decide (used e) then
      if decide (file_number e ∈ seen) then zero_dent :: clear_dups seen ents
      else e :: clear_dups (seen ++ [file_number e]) ents
    else e :: clear_dups seen ents
  end.

Lemma numbers_app l1 l2 : numbers (l1 ++ l2) = numbers l1 ++ numbers l2.
Proof. unfold numbers. by rewrite filter_app, fmap_app. Qed.

Lemma numbers_cons e l : numbers (e :: l) = numbers [e] ++ numbers l.
Proof. apply (numbers_app [e]). Qed.

Lemma numbers_used e : used e → numbers [e] = [file_number e].
Proof. intros Hu. unfold numbers. by rewrite filter_cons_True. Qed.

Lemma numbers_free e : ¬ used e → numbers [e] = [].
Proof. intros Hu. unfold numbers. by rewrite filter_cons_False. Qed.

Lemma elem_of_numbers ents j : j ∈ numbers ents ↔ ∃ e, e ∈ ents ∧ used e ∧ file_number e = j.
Proof. unfold numbers. rewrite list_elem_of_fmap. setoid_rewrite list_elem_of_filter. naive_solver. Qed.

Lemma length_clear_dups seen ents : length (clear_dups seen ents) = length ents.
Proof.
  revert seen. induction ents as [|e ents IH]; intros seen; simpl; [done|].
  destruct (decide (used e)); [destruct (decide (file_number e ∈ seen))|]; simpl; by rewrite IH.
Qed.

Lemma clear_dups_lookup seen ents i e :
  clear_dups seen ents !! i = Some e → ents !! i = Some e ∨ e = zero_dent.
Proof.
  revert seen i. induction ents as [|e' ents IH]; intros seen i; simpl; [done|].
  destruct (decide (used e')); [destruct (decide (file_number e' ∈ seen))|];
    destruct i as [|i]; simpl; naive_solver.
Qed.

Lemma clear_dups_numbers seen ents :
  NoDup seen → NoDup (seen ++ numbers (clear_dups seen ents)).
Proof.
  revert seen. induction ents as [|e ents IH]; intros seen Hs; simpl.
  { by rewrite app_nil_r. }
  destruct (decide (used e)) as [Hu|Hu]; [destruct (decide (file_number e ∈ seen)) as [Hin|Hin]|].
  - rewrite numbers_cons, (numbers_free _ zero_unused). by apply IH.
  - rewrite numbers_cons, (numbers_used _ Hu), app_assoc. apply IH.
    apply NoDup_app. split; [done|]. split; [set_solver|apply NoDup_singleton].
  - rewrite numbers_cons, (numbers_free _ Hu). by apply IH.
Qed.

Lemma NoDup_numbers ents i j e e' :
  NoDup (numbers ents) → ents !! i = Some e → ents !! j = Some e' → used e → used e' →
  file_number e = file_number e' → i = j.
Proof.
  revert i j. induction ents as [|e0 ents IH]; intros i j Hnd Hi Hj Hu Hu' Hn; [done|].
  rewrite numbers_cons in Hnd. apply NoDup_app in Hnd as (_ & Hdis & Hnd).
  destruct i as [|i], j as [|j]; simpl in *; simplify_eq; [done| | |].
  - destruct (Hdis (file_number e)).
    + rewrite numbers_used by done. set_solver.
    + apply elem_of_numbers. exists e'. split_and!; [by eapply list_elem_of_lookup_2|done|done].
  - destruct (Hdis (file_number e')).
    + rewrite numbers_used by done. set_solver.
    + apply elem_of_numbers. exists e. split_and!; [by eapply list_elem_of_lookup_2|done|done].
  - f_equal. by eapply IH.
Qed.

(** Entries whose keys are distinct, but not their numbers. *)
Record ents_raw (ents : list dirfile_entry) : Prop := {
  er_ok : Forall dent_ok ents;
  er_size : 120 * (Z.of_nat (length ents) + 1) < 2 ^ 31;
  er_keys : ∀ i j e e', ents !! i = Some e → ents !! j = Some e' → used e → used e' →
    key_of e = key_of e' → i = j;
}.

Lemma clear_dups_ok ents : ents_raw ents → ents_ok (clear_dups [] ents).
Proof.
  intros [H1 H2 H3].
  assert (∀ i e, clear_dups [] ents !! i = Some e → used e → ents !! i = Some e) as Hl.
  { intros i e Hi Hu. destruct (clear_dups_lookup _ _ _ _ Hi) as [| ->]; [done|]. by destruct zero_unused. }
  constructor.
  - apply Forall_lookup. intros i e Hi.
    destruct (clear_dups_lookup _ _ _ _ Hi) as [Hi'| ->]; [by eapply Forall_lookup_1 in H1|apply zero_dent_ok].
  - by rewrite length_clear_dups.
  - intros i j e e' Hi Hj Hu Hu'. eapply NoDup_numbers; [|done..].
    apply (clear_dups_numbers [] ents). by apply NoDup_nil.
  - intros i j e e' Hi Hj Hu Hu'. eapply H3; eauto.
Qed.

Lemma clear_dups_id seen ents : NoDup (seen ++ numbers ents) → clear_dups seen ents = ents.
Proof.
  revert seen. induction ents as [|e ents IH]; intros seen Hnd; simpl; [done|].
  rewrite numbers_cons in Hnd.
  destruct (decide (used e)) as [Hu|Hu].
  - rewrite numbers_used in Hnd by done. rewrite decide_False.
    + f_equal. apply IH. by rewrite <- app_assoc.
    + apply NoDup_app in Hnd as (_ & Hd & _). intros Hin. apply (Hd _ Hin). set_solver.
  - rewrite numbers_free in Hnd by done. f_equal. by apply IH.
Qed.

Lemma numbers_NoDup ents :
  (∀ i j e e', ents !! i = Some e → ents !! j = Some e' → used e → used e' →
    file_number e = file_number e' → i = j) → NoDup (numbers ents).
Proof.
  induction ents as [|e ents IH]; intros Hn; [by apply NoDup_nil|]. rewrite numbers_cons.
  apply NoDup_app. split_and!.
  - destruct (decide (used e)); [rewrite numbers_used by done; apply NoDup_singleton|].
    rewrite numbers_free by done. by apply NoDup_nil.
  - intros j Hj (e' & [i Hi]%list_elem_of_lookup & Hu' & Hn')%elem_of_numbers.
    apply elem_of_numbers in Hj as (e0 & He0 & Hu & Hn0). apply list_elem_of_singleton in He0 as ->.
    assert (0 = S i)%nat; [|lia]. apply (Hn 0%nat (S i) e e'); simpl; congruence.
  - apply IH. intros i j a b Ha Hb Ua Ub Hab.
    assert (S i = S j) as Heq by (by apply (Hn (S i) (S j) a b)). by injection Heq.
Qed.

(** ** The specification *)

Lemma alter_Some {K A} `{Countable K} (m : gmap K A) (f : A → A) k v :
  m !! k = Some v → alter f k m = <[k := f v]> m.
Proof.
  intros Hk. apply map_eq. intros j. destruct (decide (k = j)) as [<- |Hne].
  - by rewrite lookup_alter_eq, lookup_insert_eq, Hk.
  - by rewrite lookup_alter_ne, lookup_insert_ne.
Qed.

Lemma alter_None {K A} `{Countable K} (m : gmap K A) (f : A → A) k :
  m !! k = None → alter f k m = m.
Proof.
  intros Hk. apply map_eq. intros j. destruct (decide (k = j)) as [<- |Hne].
  - by rewrite lookup_alter_eq, Hk.
  - by rewrite lookup_alter_ne.
Qed.

(** What a call answers for the map [m], and the map it leaves. *)
Inductive dir_spec (m : gmap dir_key (Z * list Z)) : dir_op → option (Z * list Z) → gmap dir_key (Z * list Z) → Prop :=
| spec_find u i : dir_spec m (DFind u i) (m !! key_for u i) m
| spec_add u i h n :
    (∀ key v, m !! key = Some v → v.1 ≠ n) →
    dir_spec m (DAdd u i h) (Some (n, h)) (<[key_for u i := (n, h)]> m)
| spec_update u i h :
    dir_spec m (DUpdate u i h) (m !! key_for u i) (alter (λ v, (v.1, h)) (key_for u i) m)
| spec_remove u i : dir_spec m (DRemove u i) (m !! key_for u i) (delete (key_for u i) m).

Inductive dir_specs : gmap dir_key (Z * list Z) → list dir_op → list (option (Z * list Z)) →
    gmap dir_key (Z * list Z) → Prop :=
| specs_nil m : dir_specs m [] [] m
| specs_cons m m1 m2 o os a ans :
    dir_spec m o a m1 → dir_specs m1 os ans m2 → dir_specs m (o :: os) (a :: ans) m2.

(** The arguments are those tee_svc_storage.c allows. *)
Definition op_ok (o : dir_op) : Prop :=
  uuid_wf (op_key o).1 ∧ 0 < Z.of_nat (length (op_key o).2) <= 64
  ∧ match o with DAdd _ _ h | DUpdate _ _ h => length h = 32%nat | _ => True end.

Section with_file.
Context {S : Type} `{ByteFileLaws S}.

(** The entries of [pre] have been looked at, the bitmap holds their numbers. *)
Record open_inv (dirh : tee_fs_dirfile_dirh) (pre rest : list dirfile_entry) : Prop := {
  oi_ok : Forall dent_ok (pre ++ rest);
  oi_size : 120 * (Z.of_nat (length pre + length rest) + 1) < 2 ^ 31;
  oi_bits : bits_ok dirh;
  oi_ndents : ndents dirh <= Z.of_nat (length pre);
  oi_marks j : 0 <= j → test_file dirh j = bool_decide (j ∈ numbers pre);
  oi_nbits B : 0 <= B → Forall (λ j, j < B) (numbers pre) → nbits dirh <= B;
}.

(** The next entry, [e], becomes [e'] and adds the numbers of [e']. *)
Lemma open_inv_step dirh d pre e e' rest :
  open_inv dirh pre (e :: rest) → dent_ok e' → bits_ok d →
  ndents d <= Z.of_nat (length pre) + 1 →
  (∀ j, 0 <= j → test_file d j = bool_decide (j ∈ numbers [e']) || test_file dirh j) →
  (∀ B, 0 <= B → Forall (λ j, j < B) (numbers [e']) → nbits d <= Z.max (nbits dirh) B) →
  open_inv d (pre ++ [e']) rest.
Proof.
  intros [Hok Hsz _ _ Hm Hnb] He' Hb Hn Ht HB. constructor; [| |done| | |].
  - apply Forall_app in Hok as [H1 H2]. inversion H2. rewrite <- app_assoc. apply Forall_app_2; [done|].
    by constructor.
  - rewrite length_app. simpl in *. lia.
  - rewrite length_app. simpl. lia.
  - intros j Hj. rewrite Ht, Hm, numbers_app by done. apply Bool.eq_iff_eq_true.
    rewrite orb_true_iff, !bool_decide_eq_true. set_solver.
  - intros B HB0. rewrite numbers_app. intros [H1 H2]%Forall_app.
    specialize (Hnb B HB0 H1). specialize (HB B HB0 H2). lia.
Qed.

Lemma set_ent_middle (pre : list dirfile_entry) e e' rest :
  set_ent (pre ++ e :: rest) (length pre) e' = (pre ++ [e']) ++ rest.
Proof.
  unfold set_ent. rewrite decide_True by (rewrite length_app; simpl; lia).
  rewrite <- (Nat.add_0_r (length pre)), insert_app_r. cbn. by rewrite <- app_assoc.
Qed.

(** The body of the loop for an entry in use. *)
Lemma wp_open_entry er k s p pre e rest dirh :
  open_inv dirh pre (e :: rest) → used e → dir_holds er k s p (pre ++ e :: rest) →
  wp (if test_file dirh (to_int32 (file_number e))
      then write_dent dirh (Z.of_nat (length pre)) zero_dent
      else set_file dirh (to_int32 (file_number e)))
    (λ d s', let e' := if decide (file_number e ∈ numbers pre) then zero_dent else e in
       open_inv d (pre ++ [e']) rest ∧ dir_holds er k s' p ((pre ++ [e']) ++ rest))
    (λ e s', er e ∧ bf_lost s' p) s.
Proof.
  intros Hinv Hu Hh. pose proof Hinv as [Hok Hsz Hb Hn Hm _].
  assert (dent_ok e) as Hoke by (apply Forall_app in Hok as [_ Hok]; by inversion Hok).
  rewrite number_small, Hm by (done || apply Hoke). case_bool_decide as Hin.
  - rewrite decide_True by done.
    eapply wp_mono; [apply (wp_write_dent er k s p (pre ++ e :: rest) dirh (length pre) zero_dent); try done; try apply zero_dent_ok; rewrite ?length_app in *; simpl in *; lia| |done].
    cbv zeta. rewrite set_ent_middle. intros d s' (Hnb & Hf & _ & Hmax & Hh'). split; [|done].
    eapply open_inv_step; [done|apply zero_dent_ok|by eapply bits_ok_same|lia| |lia].
    intros j Hj. rewrite (test_file_bits d dirh) by done.
    rewrite (numbers_free _ zero_unused), bool_decide_eq_false_2 by apply not_elem_of_nil. done.
  - rewrite decide_False by done.
    eapply wp_mono; [apply (wp_set_file er k s p (dir_bytes (pre ++ e :: rest)) dirh (file_number e)); try done; apply Hoke| |done].
    cbv zeta. intros d s' (Hb' & Hnd' & Hmax & Ht & Hh'). split.
    + eapply open_inv_step; [done..|lia| |rewrite numbers_used by done; intros B _ HB; inversion HB; lia]. intros j Hj. rewrite Ht, numbers_used by done. f_equal.
      apply Bool.eq_iff_eq_true. rewrite bool_decide_eq_true, Z.eqb_eq. by rewrite list_elem_of_singleton.
    + unfold dir_holds in *. by rewrite <- app_assoc.
Qed.

Lemma wp_open_loop er k s p pre rest dirh fuel :
  ¬ er TEE_ERROR_ITEM_NOT_FOUND → open_inv dirh pre rest →
  (length rest < fuel)%nat → dir_holds er k s p (pre ++ rest) →
  wp (open_loop dirh (Z.of_nat (length pre)) fuel)
    (λ d s', let ents := pre ++ clear_dups (numbers pre) rest in
       open_inv d ents [] ∧ ndents d = Z.of_nat (length ents) ∧ dir_holds er k s' p ents)
    (λ e s', er e ∧ bf_lost s' p) s.
Proof.
  intros Her. revert s pre dirh fuel.
  induction rest as [|e rest IH]; intros s pre dirh [|fuel] Hinv Hfuel Hh;
    try (simpl in Hfuel; lia); pose proof Hinv as [Hok Hsz Hb Hn Hm Hnb]; cbn [open_loop]; apply wp_bind, wp_try;
    (eapply wp_mono; [eapply (wp_read_dent _ _ _ _ _ (length pre)); [exact Hok|exact Hh|..]; rewrite ?length_app in *; simpl in *; lia| |]).
  - intros e s' [Hl _]. rewrite app_nil_r in Hl. apply lookup_lt_Some in Hl. lia.
  - intros err s' [(-> & _ & Hh')|[He Hl]].
    + apply wp_ret. cbv zeta. cbn [clear_dups]. rewrite !app_nil_r in *. split_and!; try done.
      constructor; rewrite ?app_nil_r; done.
    + destruct err; try by apply wp_throw. done.
  - intros e' s' [Hl Hh']. rewrite list_lookup_middle in Hl by done. injection Hl as <-.
    assert (∀ d e' s', open_inv d (pre ++ [e']) rest → dir_holds er k s' p ((pre ++ [e']) ++ rest) →
      wp (open_loop d (Z.of_nat (length pre) + 1) fuel)
        (λ d s', let ents := pre ++ e' :: clear_dups (numbers (pre ++ [e'])) rest in
           open_inv d ents [] ∧ ndents d = Z.of_nat (length ents) ∧ dir_holds er k s' p ents)
        (λ e s', er e ∧ bf_lost s' p) s') as Hnext.
    { intros d e' s'' Hi Hh''. replace (Z.of_nat (length pre) + 1) with (Z.of_nat (length (pre ++ [e'])))
        by (rewrite length_app; simpl; lia).
      eapply wp_mono; [apply (IH s'' (pre ++ [e'])); [done|simpl in *; lia|done]| |done].
      cbv zeta. intros d' s3. by rewrite <- app_assoc. }
    cbn [clear_dups]. destruct (Z.eqb_spec (oidlen e) 0) as [Hz|Hz].
    + assert (¬ used e) as Hu by (unfold used; lia). rewrite decide_False by done.
      eapply wp_mono; [apply (Hnext dirh e); [|by rewrite <- app_assoc]| |done].
      * eapply open_inv_step; [done| |done|lia| |lia].
        -- apply Forall_app in Hok as [_ Hok]. by inversion Hok.
        -- intros j Hj. rewrite (numbers_free _ Hu), bool_decide_eq_false_2; [done|set_solver].
      * cbv zeta. intros d s'' Hr. rewrite numbers_app, (numbers_free _ Hu), app_nil_r in Hr. exact Hr.
    + rewrite decide_True by done. pose proof (wp_open_entry er k s' p pre e rest dirh Hinv Hz Hh') as Hw.
      destruct (test_file _ _); apply wp_bind; (eapply wp_mono; [exact Hw| |done]); cbv zeta;
        intros d s'' [Hi Hh'']; (eapply wp_mono; [exact (Hnext _ _ _ Hi Hh'')| |done]); cbv zeta; intros d' s3 Hr;
        rewrite numbers_app in Hr; case_decide; rewrite ?(numbers_free _ zero_unused), ?(numbers_used e), ?app_nil_r in Hr by done; exact Hr.
  - intros err s' [(_ & Hl & _)|[He Hl]].
    + rewrite length_app in Hl. simpl in Hl. lia.
    + destruct err; try by apply wp_throw. done.
Qed.

(** [p] is the file of a directory that stands for [m]. *)
Definition dir_on (p : list Z) (m : gmap dir_key (Z * list Z)) : Prop :=
  ∃ ents, ents_ok ents ∧ p = dir_bytes ents ∧ dir_map ents = m.

(** Entries that share a number are cleared when the directory is opened. *)
Lemma wp_dirfile_open er k s p ents hash fuel :
  ents_raw ents → ¬ er TEE_ERROR_ITEM_NOT_FOUND → (length ents < fuel)%nat →
  wp (fop_realloc 0 ≫= λ _, fop_open false hash) (λ _ s', dir_holds er k s' p ents) (λ e s', er e ∧ bf_lost s' p) s →
  wp (tee_fs_dirfile_open fuel false hash)
    (λ d s', dir_is er k s' p d (dir_map (clear_dups [] ents)) ∧ ndents d = Z.of_nat (length ents)
       ∧ ∀ B, 0 <= B → Forall (λ j, j < B) (numbers (clear_dups [] ents)) → nbits d <= B)
    (λ e s', er e ∧ bf_lost s' p) s.
Proof.
  intros Hraw Her Hfuel Hopen. unfold tee_fs_dirfile_open.
  apply wp_bind_inv in Hopen. apply wp_bind. eapply wp_mono; [exact Hopen| |done].
  intros x s' Hs'. apply wp_bind. eapply wp_mono; [exact Hs'| |done]. intros [] s'' Hh. cbv beta in Hh.
  eapply wp_mono; [apply (wp_open_loop er k s'' p [] ents (Dirh 0 [] 0) fuel); try done| |done].
  - constructor; [apply Hraw|apply Hraw| |done| |].
    + constructor; [by constructor|done|done].
    + intros j Hj. unfold test_file. cbn. by rewrite (proj2 (Z.ltb_ge j 0)).
    + intros B HB _. exact HB.
  - cbv zeta. rewrite !app_nil_l. intros d s3 (Hi & Hnd & Hh'). rewrite length_clear_dups in Hnd.
    split; [|split; [done|apply Hi]]. exists (clear_dups [] ents).
    assert (ents_ok (clear_dups [] ents)) as Hok by (by apply clear_dups_ok).
    split_and!; [done| |done|done]. constructor; [apply Hi| |by rewrite length_clear_dups].
    intros e Hin Hu. assert (dent_ok e) as Hoke by (by eapply Forall_forall in Hin; [|apply Hok]).
    rewrite (oi_marks _ _ _ Hi) by apply Hoke. apply bool_decide_eq_true_2, elem_of_numbers. by exists e.
Qed.

(** A call on an object that is looked up first. *)
Lemma wp_lookup er k s p ents dirh uuid id fuel (f : tee_fs_dirfile_fileh → M S tee_result (option (Z * list Z) * tee_fs_dirfile_dirh)) Q R :
  ents_ok ents → dirh_ok dirh ents → ¬ er TEE_ERROR_ITEM_NOT_FOUND → 0 < Z.of_nat (length id) →
  ndents dirh < Z.of_nat fuel → dir_holds er k s p ents →
  (∀ dfh e s', refers dfh ents e → key_of e = key_for uuid id → d_hash e = dfh_hash dfh →
     dir_map ents !! key_for uuid id = Some (dfh_file_number dfh, dfh_hash dfh) →
     dir_holds er k s' p ents → wp (f dfh) Q R s') →
  (∀ s', dir_map ents !! key_for uuid id = None → dir_holds er k s' p ents → Q (None, dirh) s') →
  (∀ e s', er e → bf_lost s' p → R e s') →
  wp (r ← mtry (tee_fs_dirfile_find fuel dirh uuid id);
      match r with
      | inr dfh => f dfh
      | inl TEE_ERROR_ITEM_NOT_FOUND => mret (None, dirh)
      | inl e => mthrow e
      end) Q R s.
Proof.
  intros He Hd Her Hid Hfuel Hh Hyes Hno Hfail. apply wp_bind, wp_try.
  eapply wp_mono; [apply (wp_find_entry er k s p ents dirh uuid id fuel); try done; intros ->; simpl in *; lia| |].
  - intros dfh s' (e & Href & Hk & Hhash & Hh'). apply (Hyes dfh e); try done.
    destruct Href as (n & _ & Hl & Hu & Hn). rewrite <- Hk, <- Hn, <- Hhash. by eapply dir_map_entry.
  - intros e s' [(-> & Hh' & Hn)|[Her' Hl]].
    + apply wp_ret, Hno; [|done]. by apply dir_map_None.
    + destruct e; try (apply wp_throw; by apply Hfail). done.
Qed.

Lemma wp_remove_map er k s p ents dirh dfh e :
  ents_ok ents → dirh_ok dirh ents → dir_holds er k s p ents → refers dfh ents e →
  wp (tee_fs_dirfile_remove dirh dfh)
    (λ d s', nbits d <= nbits dirh ∧ ndents d = ndents dirh ∧ dir_is er k s' p d (delete (key_of e) (dir_map ents)))
    (λ e s', er e ∧ bf_lost s' p) s.
Proof.
  intros He Hd Hh (n & Hn & Hl & Hu & Hnum). assert (Forall dent_ok ents) as Hall by apply He.
  assert (dent_ok e) as Hoke by (by eapply Forall_lookup_1 in Hall).
  pose proof (lookup_lt_Some _ _ _ Hl) as Hlt.
  eapply wp_mono; [apply (wp_remove_entry er k s p ents dirh dfh e n); try done| |done].
  - apply He.
  - apply Hd.
  - apply (do_marked _ _ Hd); [by eapply list_elem_of_lookup_2|done].
  - intros d s' (dirh' & Hb & Hf & Hnd & -> & Hh').
    destruct (clear_file_spec dirh' (file_number e)) as (Hbits & Hnd' & Ht).
    { by eapply bits_ok_same, Hd. } { apply Hoke. }
    rewrite Hnd', Hnd. split.
    { unfold clear_file. destruct (_ <? _); cbn [nbits]; lia. }
    split; [done|]. exists (set_ent ents n zero_dent).
    assert (ents_ok (set_ent ents n zero_dent)) as He'.
    { apply ents_ok_set; [done|apply zero_dent_ok|lia|pose proof (eo_size _ He); lia|].
      intros Hx. by destruct zero_unused. }
    split_and!; [done| |done|].
    + constructor; [done| |].
      * intros e' [i Hi]%list_elem_of_lookup Hu'. rewrite lookup_set_ent in Hi by lia.
        case_decide as Hin; [injection Hi as <-; by destruct zero_unused|].
        assert (dent_ok e') as Hoke' by (by eapply Forall_lookup_1 in Hall).
        rewrite Ht by apply Hoke'. rewrite (test_file_bits dirh' dirh) by done.
        rewrite (do_marked _ _ Hd) by (done || by eapply list_elem_of_lookup_2).
        rewrite andb_true_r. apply negb_true_iff, Z.eqb_neq. intros Heq. apply Hin.
        by apply (eo_numbers _ He i n e' e).
      * rewrite Hnd', Hnd, (do_count _ _ Hd). unfold set_ent. rewrite decide_True by done.
        by rewrite length_insert.
    + rewrite dir_map_set by (done || lia || (intros ? ? ? Hx; by destruct zero_unused)).
      rewrite decide_False by apply zero_unused. by rewrite Hl, decide_True.
Qed.

Lemma wp_dir_op er k s p dirh m fuel o :
  dir_is er k s p dirh m → ¬ er TEE_ERROR_ITEM_NOT_FOUND → op_ok o →
  nbits dirh < bits_range → 120 * (ndents dirh + 2) < 2 ^ 31 → ndents dirh < Z.of_nat fuel →
  wp (run_dir_op fuel o dirh)
    (λ '(a, d) s', nbits d <= nbits dirh + 1 ∧ ndents d <= ndents dirh + 1
       ∧ ∃ m', dir_spec m o a m' ∧ dir_is er k s' p d m')
    (λ e s', er e ∧ bf_lost s' p) s.
Proof.
  intros Hdir Her (Hu & Hl & Hhash) Hnb Hroom Hfuel. pose proof Hdir as (ents & He & Hd & Hh & <-).
  destruct o as [uuid id|uuid id h|uuid id h|uuid id]; cbn [op_key fst snd run_dir_op] in *.
  - apply (wp_lookup er k s p ents dirh uuid id fuel); try done; try lia.
    + intros dfh e s' _ _ _ Hm Hh'. apply wp_ret. split; [lia|]. split; [lia|]. eexists. split.
      * rewrite <- Hm. constructor.
      * by exists ents.
    + intros s' Hm Hh'. split; [lia|]. split; [lia|]. eexists. split; [rewrite <- Hm; constructor|by exists ents].
  - apply wp_bind. eapply wp_mono; [by apply (wp_get_tmp er k s p (dir_map ents) dirh)| |done].
    intros [d i] s' (Hi & _ & Ht & Hnb' & Hnd' & Hfresh & Hd'). apply wp_bind.
    eapply wp_mono; [apply (wp_rename_new er k s' p (dir_map ents) d fuel uuid id (Fileh i h (-1))); try done; cbn; try lia| |done].
    + intros key' v Hv _. by eapply Hfresh.
    + intros [d2 dfh] s'' (Hnb2 & Hnd2 & Hdfh & Hd2). apply wp_ret. split; [lia|]. split; [lia|].
      eexists. split; [|exact Hd2]. destruct Hdfh as [-> ->]. by constructor.
  - apply (wp_lookup er k s p ents dirh uuid id fuel); try done; try lia.
    + intros dfh e s' Href Hk _ Hm Hh'. apply wp_bind.
      eapply wp_mono; [by apply (wp_update_hash er k s' p ents dirh dfh e h)| |done].
      intros d s'' (Hnb' & Hnd' & Hd'). apply wp_ret. split; [lia|]. split; [lia|].
      eexists. split; [|exact Hd']. pose proof (alter_Some _ (λ v, (v.1, h)) _ _ Hm) as Ha.
      cbn [fst] in Ha. rewrite Hk, <- Hm, <- Ha. constructor.
    + intros s' Hm Hh'. split; [lia|]. split; [lia|]. eexists. split; [|by exists ents].
      rewrite <- Hm at 1. rewrite <- (alter_None (dir_map ents) (λ v, (v.1, h)) (key_for uuid id)) at 3 by done. constructor.
  - apply (wp_lookup er k s p ents dirh uuid id fuel); try done; try lia.
    + intros dfh e s' Href Hk _ Hm Hh'. apply wp_bind.
      eapply wp_mono; [by apply (wp_remove_map er k s' p ents dirh dfh e)| |done].
      intros d s'' (Hnb' & Hnd' & Hd'). apply wp_ret. split; [lia|]. split; [lia|].
      eexists. split; [|exact Hd']. rewrite Hk, <- Hm. constructor.
    + intros s' Hm Hh'. split; [lia|]. split; [lia|]. eexists. split; [|by exists ents].
      rewrite <- Hm at 1. rewrite <- (delete_id (dir_map ents) (key_for uuid id)) at 3 by done. constructor.
Qed.

Lemma wp_dir_ops er k s p dirh m fuel os :
  dir_is er k s p dirh m → ¬ er TEE_ERROR_ITEM_NOT_FOUND → Forall op_ok os →
  nbits dirh + Z.of_nat (length os) <= bits_range →
  120 * (ndents dirh + Z.of_nat (length os) + 1) < 2 ^ 31 →
  ndents dirh + Z.of_nat (length os) <= Z.of_nat fuel →
  wp (run_dir_ops fuel os dirh)
    (λ '(ans, d) s', ∃ m', dir_specs m os ans m' ∧ dir_is er k s' p d m')
    (λ e s', er e ∧ bf_lost s' p) s.
Proof.
  intros Hd Her Hok. revert s dirh m Hd. induction Hok as [|o os Ho _ IH]; intros s dirh m Hd Hnb Hroom Hfuel.
  { cbn [run_dir_ops]. apply wp_ret. exists m. split; [constructor|done]. }
  cbn [run_dir_ops length] in *. apply wp_bind.
  eapply wp_mono; [apply (wp_dir_op er k s p dirh m fuel o); try done; lia| |done].
  intros [a d] s' (Hnb' & Hnd' & m1 & Hspec & Hd'). apply wp_bind.
  eapply wp_mono; [apply (IH s' d m1); [done|lia..]| |done].
  intros [ans d2] s'' (m2 & Hspecs & Hd2). apply wp_ret. exists m2. split; [by econstructor|done].
Qed.

(** A session of a client: the directory is opened, used and committed. *)
Definition dir_session (fuel : nat) (hash : option (list Z)) (os : list dir_op)
    : M S tee_result (list (option (Z * list Z))) :=
  dirh ← tee_fs_dirfile_open fuel false hash;
  '(ans, dirh) ← run_dir_ops fuel os dirh;
  _ ← tee_fs_dirfile_commit_writes;
  mret ans.

(** The session answers like the map and leaves a file that stands for the map it
    should; when a call of the file below fails it stands for the old map or for the
    new one. *)
Lemma wp_dir_session er k s p m hash fuel os :
  dir_on p m → ¬ er TEE_ERROR_ITEM_NOT_FOUND → Forall op_ok os →
  (∀ key v, m !! key = Some v → v.1 + Z.of_nat (length os) < bits_range) →
  Z.of_nat (length p) + 120 * (Z.of_nat (length os) + 1) < 2 ^ 31 →
  (length p + length os < fuel)%nat →
  wp (fop_realloc 0 ≫= λ _, fop_open false hash)
    (λ _ s', bf_holds er (Datatypes.S k) s' p p) (λ e s', er e ∧ bf_lost s' p) s →
  wp (dir_session fuel hash os)
    (λ ans s', ∃ m' p', dir_specs m os ans m' ∧ dir_on p' m' ∧ bf_holds er k s' p' p')
    (λ e s', er e ∧ (bf_lost s' p ∨
       ∃ ans m' p', dir_specs m os ans m' ∧ dir_on p' m' ∧ bf_lost s' p'))
    s.
Proof.
  intros (ents & He & -> & <-) Her Hos Hnum Hroom Hfuel Hopen.
  rewrite (length_dir_bytes ents (eo_ok _ He)) in Hroom, Hfuel.
  assert (clear_dups [] ents = ents) as Hid by (apply clear_dups_id, numbers_NoDup, He).
  unfold dir_session. apply wp_bind.
  assert (ents_raw ents) as Hraw by (constructor; apply He).
  eapply wp_mono; [apply (wp_dirfile_open er (Datatypes.S k) s (dir_bytes ents) ents hash fuel); try done; lia| |].
  2: { intros e s' [? ?]. split; [done|by left]. }
  rewrite Hid. intros dirh s' (Hd & Hnd & Hnb). apply wp_bind.
  assert (nbits dirh <= bits_range - Z.of_nat (length os)) as Hnb'.
  { apply Hnb; [unfold bits_range; lia|]. apply Forall_forall.
    intros j (e & [i Hi]%list_elem_of_lookup & Hu & <-)%elem_of_numbers.
    specialize (Hnum (key_of e) (file_number e, d_hash e) (dir_map_entry ents i e He Hi Hu)). cbn in Hnum. lia. }
  eapply wp_mono; [apply (wp_dir_ops er (Datatypes.S k) s' (dir_bytes ents) dirh (dir_map ents) fuel os); try done; lia| |].
  2: { intros e s'' [? ?]. split; [done|by left]. }
  intros [ans d] s'' (m' & Hspecs & ents' & He' & Hd' & Hh' & <-). apply wp_bind.
  eapply wp_mono; [apply (fop_commit_law er k s'' (dir_bytes ents) (dir_bytes ents')); exact Hh'| |].
  - intros h s3 Hh3. apply wp_ret. exists (dir_map ents'), (dir_bytes ents'). split_and!; [done|by exists ents'|done].
  - intros e s3 [Her3 [Hl|Hl]]; (split; [done|]); [by left|right].
    exists ans, (dir_map ents'), (dir_bytes ents'). split_and!; [done|by exists ents'|done].
Qed.
End with_file.

(** ** File names *)

Definition hex_value (l : list Z) : Z := foldl (λ v c, v * 16 + hex c) 0 l.

Lemma hex_string_value fuel v : 0 <= v < 16 ^ Z.of_nat fuel → hex_value (hex_string fuel v) = v.
Proof.
  revert v. induction fuel as [|fuel IH]; intros v Hv; [cbn in *; lia|].
  rewrite Nat2Z.inj_succ, Z.pow_succ_r in Hv by lia. cbn [hex_string]. unfold hex_value.
  rewrite foldl_app. cbn [foldl]. rewrite hexdigit_hex by dlia.
  destruct (Z.ltb_spec v 16); cbn [foldl]; [rewrite Z.mod_small; lia|].
  fold (hex_value (hex_string fuel (v / 16))). rewrite IH; [dlia|].
  split; [dlia|]. apply Z.div_lt_upper_bound; lia.
Qed.

Lemma hex_string_digits fuel v : 0 <= v → Forall (λ c, 0 <= hex c) (hex_string fuel v).
Proof.
  revert v. induction fuel as [|fuel IH]; intros v Hv; [by constructor|]. cbn [hex_string].
  apply Forall_app_2.
  - destruct (v <? 16); [by constructor|]. apply IH. dlia.
  - constructor; [|by constructor]. rewrite hexdigit_hex by dlia. dlia.
Qed.

Lemma length_hex_string fuel v : (0 < fuel)%nat → (0 < length (hex_string fuel v) <= fuel)%nat.
Proof.
  revert v. induction fuel as [|fuel IH]; intros v Hf; [lia|]. cbn [hex_string]. rewrite length_app. simpl.
  destruct (v <? 16); simpl; [lia|]. destruct fuel as [|fuel]; simpl; [lia|].
  pose proof (IH (v / 16) ltac:(lia)) as H. simpl in H. lia.
Qed.

(** Every file has its own name. With a buffer of nine bytes or more
    tee_fs_dirfile_fileh_to_fname() succeeds and reports the bytes used; two files
    whose numbers differ get different names, and none gets the name of the
    directory; a buffer that has no room for the name and its terminator is
    refused. *)
Lemma fileh_names_distinct d d' fnlen :
  0 <= dfh_file_number d < 2 ^ 32 → 0 <= dfh_file_number d' < 2 ^ 32 → 9 <= fnlen →
  ∃ n n', tee_fs_dirfile_fileh_to_fname (Some d) fnlen = (Ok n, Z.of_nat (length n) + 1)
    ∧ tee_fs_dirfile_fileh_to_fname (Some d') fnlen = (Ok n', Z.of_nat (length n') + 1)
    ∧ tee_fs_dirfile_fileh_to_fname None fnlen = (Ok dirf_db, 8)
    ∧ (dfh_file_number d ≠ dfh_file_number d' → n ≠ n') ∧ n ≠ dirf_db
    ∧ ∀ len, len <= Z.of_nat (length n) →
        tee_fs_dirfile_fileh_to_fname (Some d) len = (Err TEE_ERROR_SHORT_BUFFER, Z.of_nat (length n) + 1).
Proof.
  intros Hd Hd' Hl. exists (hex_string 8 (dfh_file_number d)), (hex_string 8 (dfh_file_number d')).
  pose proof (length_hex_string 8 (dfh_file_number d) ltac:(lia)).
  pose proof (length_hex_string 8 (dfh_file_number d') ltac:(lia)).
  unfold tee_fs_dirfile_fileh_to_fname. split_and!.
  - by rewrite (proj2 (Z.leb_gt _ _)) by lia.
  - by rewrite (proj2 (Z.leb_gt _ _)) by lia.
  - by rewrite (proj2 (Z.leb_gt _ _)) by (cbn; lia).
  - intros Hne Heq. apply Hne. rewrite <- (hex_string_value 8 (dfh_file_number d)) by (cbn; lia).
    by rewrite Heq, hex_string_value by (cbn; lia).
  - intros Heq. pose proof (hex_string_digits 8 (dfh_file_number d) ltac:(lia)) as Hf.
    rewrite Heq, Forall_forall in Hf. specialize (Hf 105 ltac:(set_solver)). by apply Hf.
  - intros len Hlen. by rewrite (proj2 (Z.leb_le _ _)) by lia.
Qed.

