(* ===== verification/DirfileRename.v ===== *)
(** * core/tee/fs_dirfile.c: an object gets a new file or a new name

    Tee_fs_dirfile_rename() where the caller knows the entry: the entry of the
    object itself, which gets the number of a new file, or the entry of another
    object, which gets this one's name. *)
From S2P Require Import Prelude Uuid ByteFile Bitstring Dirfile DirfileProofs DirfileSpec.

Local Open Scope Z_scope.

(** Entries that are there are replaced. *)
Lemma set_ent_in (ents : list dirfile_entry) n e : (n < length ents)%nat → set_ent ents n e = <[n := e]> ents.
Proof. intros Hn. unfold set_ent. by rewrite decide_True. Qed.

Lemma set_ent_twice (ents : list dirfile_entry) n e e' : (n < length ents)%nat → set_ent (set_ent ents n e') n e = set_ent ents n e.
Proof.
  intros Hn. rewrite (set_ent_in ents n e'), (set_ent_in ents n e), set_ent_in by (by rewrite ?length_insert).
  apply list_insert_insert_eq.
Qed.

Lemma set_ent_swap (ents : list dirfile_entry) i j e e' :
  i ≠ j → (i < length ents)%nat → (j < length ents)%nat →
  set_ent (set_ent ents i e) j e' = set_ent (set_ent ents j e') i e.
Proof.
  intros Hij Hi Hj. rewrite (set_ent_in ents i e), (set_ent_in ents j e'), !set_ent_in by (by rewrite ?length_insert).
  symmetry. by apply list_insert_insert_ne.
Qed.

Lemma length_set_ent_in (ents : list dirfile_entry) n e : (n < length ents)%nat → length (set_ent ents n e) = length ents.
Proof. intros Hn. by rewrite set_ent_in, length_insert. Qed.

(** The bitmap and the count fit when the new entry's number is marked. *)
Lemma dirh_ok_set dirh d ents n e :
  dirh_ok dirh ents → (n < length ents)%nat → nbits d = nbits dirh → files d = files dirh → ndents d = ndents dirh →
  (used e → test_file dirh (file_number e) = true) → dirh_ok d (set_ent ents n e).
Proof.
  intros Hd Hn Hb Hf Hnd Hm. constructor; [by eapply bits_ok_same, Hd| |].
  - intros e' [i Hi]%list_elem_of_lookup Hu'. rewrite (test_file_bits d dirh) by done.
    rewrite lookup_set_ent in Hi by lia. case_decide as Hin; [injection Hi as <-; by apply Hm|].
    apply (do_marked _ _ Hd); [by eapply list_elem_of_lookup_2|done].
  - by rewrite Hnd, (do_count _ _ Hd), length_set_ent_in.
Qed.

(** An entry is cleared. *)
Lemma ents_ok_clear ents n : ents_ok ents → (n < length ents)%nat → ents_ok (set_ent ents n zero_dent).
Proof.
  intros He Hn. apply ents_ok_set; [done|apply zero_dent_ok|lia|pose proof (eo_size _ He); lia|].
  intros Hx. by destruct zero_unused.
Qed.

Lemma dir_map_clear ents n e :
  ents_ok ents → ents !! n = Some e → used e →
  dir_map (set_ent ents n zero_dent) = delete (key_of e) (dir_map ents).
Proof.
  intros He Hl Hu. pose proof (lookup_lt_Some _ _ _ Hl) as Hn.
  rewrite dir_map_set; [|done|by apply ents_ok_clear|lia|intros ? ? ? Hx; by destruct zero_unused].
  rewrite decide_False by apply zero_unused. by rewrite Hl, decide_True.
Qed.

(** The entry [n] of [e0] becomes that of [e], whose key and number no other entry
    has. *)
Lemma dir_map_move ents n e0 e :
  ents_ok ents → ents_ok (set_ent ents n e) → ents !! n = Some e0 → used e0 → used e →
  dir_map (set_ent ents n e) = <[key_of e := (file_number e, d_hash e)]> (delete (key_of e0) (dir_map ents)).
Proof.
  intros He He' Hl Hu0 Hu. pose proof (lookup_lt_Some _ _ _ Hl) as Hn.
  rewrite <- (set_ent_twice ents n e zero_dent), <- (dir_map_clear ents n e0) by done.
  assert (set_ent ents n zero_dent !! n = Some zero_dent) as Hz by (by rewrite lookup_set_ent, decide_True by lia).
  rewrite dir_map_set.
  - by rewrite decide_True.
  - by apply ents_ok_clear.
  - by rewrite set_ent_twice.
  - apply lookup_lt_Some in Hz. lia.
  - intros e1 He1 Hu1. assert (e1 = zero_dent) as -> by congruence. by destruct zero_unused.
Qed.

Section with_file.
Context {S : Type} `{ByteFileLaws S}.

(** The entry that rename writes when it is given the index. *)
Lemma wp_rename_at er k s p ents dirh fuel uuid id dfh n :
  Forall dent_ok ents → dir_holds er k s p ents → ndents dirh = Z.of_nat (length ents) →
  (n < length ents)%nat → 120 * (Z.of_nat n + 1) < 2 ^ 31 → dfh_idx dfh = Z.of_nat n →
  uuid_wf uuid → 0 < Z.of_nat (length id) <= 64 → length (dfh_hash dfh) = 32%nat →
  0 <= dfh_file_number dfh < bits_range →
  let e := new_dent uuid id (dfh_hash dfh) (dfh_file_number dfh) in
  wp (tee_fs_dirfile_rename fuel dirh uuid dfh id)
    (λ '(d, dfh') s', nbits d = nbits dirh ∧ files d = files dirh ∧ ndents d = ndents dirh
       ∧ dfh' = dfh ∧ dir_holds er k s' p (set_ent ents n e))
    (λ e s', er e ∧ bf_lost s' p) s.
Proof.
  intros He Hh Hc Hn Hs Hidx Hu Hl Hlh Hnum e. unfold tee_fs_dirfile_rename.
  rewrite (proj2 (Z.eqb_neq _ 0)), (proj2 (Z.ltb_ge TEE_OBJECT_ID_MAX_LEN _)) by (unfold TEE_OBJECT_ID_MAX_LEN; lia).
  cbn [orb]. rewrite (proj2 (Z.ltb_ge (dfh_idx dfh) 0)) by lia. cbv zeta.
  fold (new_dent uuid id (dfh_hash dfh) (dfh_file_number dfh)). fold e.
  destruct (new_dent_ok uuid id (dfh_hash dfh) (dfh_file_number dfh)) as (Hok & _ & _); [done..|]. fold e in Hok.
  apply wp_bind, wp_ret, wp_bind. rewrite Hidx.
  eapply wp_mono; [apply (wp_write_dent er k s p ents dirh n e); try done; lia| |done].
  intros d s' (Hb & Hf & Hnd & _ & Hh'). apply wp_ret. split_and!; [done|done| | |done].
  - rewrite Hnd by done. unfold set_ent. rewrite decide_True by done. by rewrite length_insert.
  - rewrite <- Hidx. by destruct dfh.
Qed.

(** The object gets a new file. *)
Lemma wp_rename_own er k s p ents dirh fuel uuid id dfh n e0 :
  ents_ok ents → dirh_ok dirh ents → dir_holds er k s p ents → ents !! n = Some e0 → used e0 →
  key_of e0 = key_for uuid id → dfh_idx dfh = Z.of_nat n →
  uuid_wf uuid → 0 < Z.of_nat (length id) <= 64 → length (dfh_hash dfh) = 32%nat →
  0 <= dfh_file_number dfh < bits_range → test_file dirh (dfh_file_number dfh) = true →
  free_for (dir_map ents) (key_for uuid id) (dfh_file_number dfh) →
  wp (tee_fs_dirfile_rename fuel dirh uuid dfh id)
    (λ '(d, dfh') s', nbits d = nbits dirh ∧ ndents d = ndents dirh ∧ dfh' = dfh
       ∧ ∃ ents', ents_ok ents' ∧ dirh_ok d ents' ∧ dir_holds er k s' p ents'
         ∧ dir_map ents' = <[key_for uuid id := (dfh_file_number dfh, dfh_hash dfh)]> (dir_map ents))
    (λ e s', er e ∧ bf_lost s' p) s.
Proof.
  intros He Hd Hh Hl0 Hu0 Hk0 Hidx Hu Hl Hlh Hnum Hm Hfree.
  pose proof (lookup_lt_Some _ _ _ Hl0) as Hn. pose proof (eo_size _ He) as Hsz.
  destruct (new_dent_ok uuid id (dfh_hash dfh) (dfh_file_number dfh)) as (Hok & Hus & Hk); [done..|].
  set (e := new_dent _ _ _ _) in *.
  assert (ents_ok (set_ent ents n e)) as He'.
  { apply ents_ok_set; [done|done|lia|lia|]. intros _ i e' Hi Hl' Hu'.
    assert (key_of e' ≠ key_of e) as Hne.
    { rewrite Hk, <- Hk0. intros Heq. apply Hi. by apply (eo_keys _ He i n e' e0). }
    split; [|done]. apply (Hfree (key_of e') (file_number e', d_hash e')); [by eapply dir_map_entry|].
    by rewrite Hk in Hne. }
  eapply wp_mono; [apply (wp_rename_at er k s p ents dirh fuel uuid id dfh n); try done; [apply He|apply Hd|lia]| |done].
  intros [d dfh'] s' (Hb & Hf & Hnd & -> & Hh'). fold e in Hh'. split_and!; [done|done|done|].
  exists (set_ent ents n e). split_and!; [done| |done|].
  - by apply (dirh_ok_set dirh).
  - rewrite dir_map_set; [by rewrite decide_True, Hk|done|done|lia|]. intros e1 Hl1 _ _. congruence.
Qed.

(** Another object gets this one's name, which was free. *)
Lemma wp_rename_move er k s p ents dirh fuel uuid id dfh n e0 :
  ents_ok ents → dirh_ok dirh ents → dir_holds er k s p ents → ents !! n = Some e0 → used e0 →
  file_number e0 = dfh_file_number dfh → d_hash e0 = dfh_hash dfh → dfh_idx dfh = Z.of_nat n →
  uuid_wf uuid → 0 < Z.of_nat (length id) <= 64 → dir_map ents !! key_for uuid id = None →
  wp (tee_fs_dirfile_rename fuel dirh uuid dfh id)
    (λ '(d, dfh') s', nbits d = nbits dirh ∧ ndents d = ndents dirh
       ∧ ∃ ents', ents_ok ents' ∧ dirh_ok d ents' ∧ dir_holds er k s' p ents'
         ∧ dir_map ents' = <[key_for uuid id := (dfh_file_number dfh, dfh_hash dfh)]> (delete (key_of e0) (dir_map ents)))
    (λ e s', er e ∧ bf_lost s' p) s.
Proof.
  intros He Hd Hh Hl0 Hu0 Hnum0 Hh0 Hidx Hu Hl Hnone.
  pose proof (lookup_lt_Some _ _ _ Hl0) as Hn. pose proof (eo_size _ He) as Hsz.
  assert (dent_ok e0) as Hok0 by (eapply Forall_lookup_1; [apply He|done]).
  destruct (new_dent_ok uuid id (dfh_hash dfh) (dfh_file_number dfh)) as (Hok & Hus & Hk); [done|done|..].
  { rewrite <- Hh0. apply Hok0. } { rewrite <- Hnum0. apply Hok0. }
  set (e := new_dent _ _ _ _) in *.
  assert (ents_ok (set_ent ents n e)) as He'.
  { apply ents_ok_set; [done|done|lia|lia|]. intros _ i e' Hi Hl' Hu'. split.
    - cbn [e new_dent file_number]. rewrite <- Hnum0. intros Heq. apply Hi. by apply (eo_numbers _ He i n e' e0).
    - rewrite Hk. intros Heq. pose proof (dir_map_entry ents i e' He Hl' Hu') as Hx. congruence. }
  eapply wp_mono; [apply (wp_rename_at er k s p ents dirh fuel uuid id dfh n); try done| |done].
  { apply He. } { apply Hd. } { lia. } { rewrite <- Hh0. apply Hok0. } { rewrite <- Hnum0. apply Hok0. }
  intros [d dfh'] s' (Hb & Hf & Hnd & -> & Hh'). fold e in Hh'. split_and!; [done|done|].
  exists (set_ent ents n e). split_and!; [done| |done|].
  - apply (dirh_ok_set dirh); try done. intros _. cbn [e new_dent file_number]. rewrite <- Hnum0.
    apply (do_marked _ _ Hd); [by eapply list_elem_of_lookup_2|done].
  - rewrite (dir_map_move ents n e0) by done. by rewrite Hk.
Qed.

(** ... or was another object's: until that is removed, two entries have one name. *)
Lemma wp_rename_over er k s p ents dirh fuel uuid id dfh n e0 :
  ents_ok ents → dirh_ok dirh ents → dir_holds er k s p ents → ents !! n = Some e0 → used e0 →
  file_number e0 = dfh_file_number dfh → d_hash e0 = dfh_hash dfh → dfh_idx dfh = Z.of_nat n →
  uuid_wf uuid → 0 < Z.of_nat (length id) <= 64 →
  wp (tee_fs_dirfile_rename fuel dirh uuid dfh id)
    (λ '(d, _) s', nbits d = nbits dirh ∧ files d = files dirh ∧ ndents d = ndents dirh
       ∧ dir_holds er k s' p (set_ent ents n (new_dent uuid id (dfh_hash dfh) (dfh_file_number dfh))))
    (λ e s', er e ∧ bf_lost s' p) s.
Proof.
  intros He Hd Hh Hl0 Hu0 Hnum0 Hh0 Hidx Hu Hl.
  pose proof (lookup_lt_Some _ _ _ Hl0) as Hn. pose proof (eo_size _ He) as Hsz.
  assert (dent_ok e0) as Hok0 by (eapply Forall_lookup_1; [apply He|done]).
  eapply wp_mono; [apply (wp_rename_at er k s p ents dirh fuel uuid id dfh n); try done| |done].
  { apply He. } { apply Hd. } { lia. } { rewrite <- Hh0. apply Hok0. } { rewrite <- Hnum0. apply Hok0. }
  intros [d dfh'] s' (Hb & Hf & Hnd & _ & Hh'). done.
Qed.

Lemma wp_remove_over er k s p ents dirh d uuid id dfh n e0 rdfh j e1 :
  ents_ok ents → dirh_ok dirh ents → ents !! n = Some e0 → used e0 →
  file_number e0 = dfh_file_number dfh → d_hash e0 = dfh_hash dfh →
  ents !! j = Some e1 → used e1 → dfh_idx rdfh = Z.of_nat j → file_number e1 = dfh_file_number rdfh →
  key_of e1 = key_for uuid id → n ≠ j → uuid_wf uuid → 0 < Z.of_nat (length id) <= 64 →
  nbits d = nbits dirh → files d = files dirh → ndents d = ndents dirh →
  dir_holds er k s p (set_ent ents n (new_dent uuid id (dfh_hash dfh) (dfh_file_number dfh))) →
  wp (tee_fs_dirfile_remove d rdfh)
    (λ d s', nbits d <= nbits dirh ∧ ndents d = ndents dirh
       ∧ ∃ ents', ents_ok ents' ∧ dirh_ok d ents' ∧ dir_holds er k s' p ents'
         ∧ dir_map ents' = <[key_for uuid id := (dfh_file_number dfh, dfh_hash dfh)]> (delete (key_of e0) (dir_map ents)))
    (λ e s', er e ∧ bf_lost s' p) s.
Proof.
  intros He Hd Hl0 Hu0 Hnum0 Hh0 Hl1 Hu1 Hridx Hrnum Hk1 Hnj Hu Hl Hb Hf Hnd.
  pose proof (lookup_lt_Some _ _ _ Hl0) as Hn. pose proof (lookup_lt_Some _ _ _ Hl1) as Hj.
  pose proof (eo_size _ He) as Hsz. assert (Forall dent_ok ents) as Hall by apply He.
  assert (dent_ok e0) as Hok0 by (by eapply Forall_lookup_1).
  assert (dent_ok e1) as Hok1 by (by eapply Forall_lookup_1).
  destruct (new_dent_ok uuid id (dfh_hash dfh) (dfh_file_number dfh)) as (Hok & Hus & Hk); [done|done|..].
  { rewrite <- Hh0. apply Hok0. } { rewrite <- Hnum0. apply Hok0. }
  set (e := new_dent _ _ _ _) in *. intros Hh'.
  pose proof (length_set_ent_in ents n e Hn) as Hlen.
  eapply wp_mono; [apply (wp_remove_entry er k s p (set_ent ents n e) d rdfh e1 j); try done| |done].
  { by apply set_ent_ok. } { by rewrite Hlen. } { by rewrite Hnd, Hlen, (do_count _ _ Hd). }
  { by rewrite lookup_set_ent, decide_False by (done || lia). }
  { rewrite (test_file_bits d dirh) by done. apply (do_marked _ _ Hd); [by eapply list_elem_of_lookup_2|done]. }
  intros d2 s2 (dirh' & Hb2 & Hf2 & Hnd2 & -> & Hh2). rewrite set_ent_swap in Hh2 by done.
  set (ents1 := set_ent ents j zero_dent) in *.
  assert (ents_ok ents1) as He1 by (by apply ents_ok_clear).
  assert (ents1 !! n = Some e0) as Hl0' by (unfold ents1; by rewrite lookup_set_ent, decide_False by (done || lia)).
  assert (n < length ents1)%nat as Hn1 by (by eapply lookup_lt_Some).
  assert (dir_map ents1 = delete (key_for uuid id) (dir_map ents)) as Hm1
    by (unfold ents1; rewrite (dir_map_clear ents j e1) by done; by rewrite Hk1).
  assert (∀ i e', ents1 !! i = Some e' → used e' → ents !! i = Some e' ∧ i ≠ j) as Hback.
  { intros i e' Hi Hu'. unfold ents1 in Hi. rewrite lookup_set_ent in Hi by lia. case_decide; [|done].
    injection Hi as <-. by destruct zero_unused. }
  assert (ents_ok (set_ent ents1 n e)) as He2.
  { apply ents_ok_set; [done|done|lia|pose proof (eo_size _ He1); lia|].
    intros _ i e' Hi Hl' Hu'. destruct (Hback i e' Hl' Hu') as [Hl'' Hij]. split.
    - cbn [e new_dent file_number]. rewrite <- Hnum0. intros Heq. apply Hi. by apply (eo_numbers _ He i n e' e0).
    - rewrite Hk, <- Hk1. intros Heq. apply Hij. by apply (eo_keys _ He i j e' e1). }
  destruct (clear_file_spec dirh' (file_number e1)) as (Hbits & Hnd' & Ht).
  { eapply bits_ok_same, Hd; congruence. } { apply Hok1. }
  split; [|split; [by rewrite Hnd', Hnd2, Hnd|]].
  { unfold clear_file. destruct (_ <? _); cbn [nbits]; lia. }
  exists (set_ent ents1 n e). split_and!; [done| |done|].
  - constructor; [done| |].
    + intros e' [i Hi]%list_elem_of_lookup Hu'. rewrite lookup_set_ent in Hi by lia.
      assert (dent_ok e' ∧ file_number e' ≠ file_number e1 ∧ test_file dirh (file_number e') = true) as (Hoke & Hne & Hm).
      { case_decide as Hin.
        - injection Hi as <-. split; [done|]. cbn [e new_dent file_number]. rewrite <- Hnum0. split.
          + intros Heq. apply Hnj. by apply (eo_numbers _ He n j e0 e1).
          + apply (do_marked _ _ Hd); [by eapply list_elem_of_lookup_2|done].
        - destruct (Hback i e' Hi Hu') as [Hi' Hij]. split; [by eapply Forall_lookup_1|]. split.
          + intros Heq. apply Hij. by apply (eo_numbers _ He i j e' e1).
          + apply (do_marked _ _ Hd); [by eapply list_elem_of_lookup_2|done]. }
      rewrite Ht, (test_file_bits dirh' dirh), Hm by (apply Hoke || congruence).
      by rewrite (proj2 (Z.eqb_neq _ _)).
    + rewrite Hnd', Hnd2, Hnd, (do_count _ _ Hd), length_set_ent_in by done.
      unfold ents1. by rewrite length_set_ent_in.
  - rewrite (dir_map_move ents1 n e0) by done. rewrite Hm1, Hk, delete_delete, insert_delete_eq. done.
Qed.
End with_file.
