(* ===== verification/ReeDirf.v ===== *)
(** * core/tee/tee_ree_fs.c: the file behind the directory

    The operations [ree_dirf_ops] tee_ree_fs.c gives to fs_dirfile.c, as an instance
    of [ByteFile], and the proof that they keep the laws the directory relies on.
    With DirfileMap.v this gives the directory down to the hash tree. *)
From S2P Require Import Prelude BlockFile ByteFile Htree HtreeTree HtreeProofs ReeFs HtreeStore.
From S2P Require Import Uuid Bitstring Dirfile DirfileProofs DirfileSpec DirfileMap.

Local Open Scope Z_scope.

Section with_crypto.
Context `{CryptoLaws}.

(** The UUID the file is bound to (none for the directory), and what realloc() finds
    in fresh memory. *)
Context (u : list Z) (junk : nat → list Z).
Context (junk_ok : ∀ n, List.length (junk n) = n ∧ Forall (λ x, 0 <= x < 256) (junk n)).

(** tee_fs_rpc_open_dfh() or tee_fs_rpc_create_dfh(), and the tree. On failure the
    file is closed. *)
Definition ree_fs_open_primitive (create : bool) (hash_arg : option (list Z)) : M fd tee_result unit :=
  λ '(_, d),
  match (_ ← ext; tee_fs_htree_open create hash_arg u) d with
  | (Ok ht, d) => (Ok tt, (Some ht, d))
  | (Err e, d) => (Err e, (None, d))
  | (Panicked, d) => (Panicked, (None, d))
  end.

(** The hash is returned when something was written. *)
Definition ree_dirf_commit_writes : M fd tee_result (option (list Z)) := fd_sync.

#[export] Instance ree_dirf_ops : ByteFile fd := {|
  fop_open := ree_fs_open_primitive;
  fop_read := ree_fs_read_primitive;
  fop_write := ree_fs_write_primitive;
  fop_commit_writes := ree_dirf_commit_writes;
  fop_realloc n := fd_lift (_ ← ext; mret (junk n));
|}.

(** The counter does not pass [cmax]. *)
Context (cmax : Z) (cmax_ok : cmax <= UINT32_MAX).

(** A session on a file that holds [p] and will hold [l]; [k] more commits do not
    exhaust the counter. *)
Definition ree_holds (er : tee_result → Prop) (k : nat) (s : fd) (p l : list Z) : Prop :=
  ∃ N ht0 F0 F, fd_holds newest N ht0 F0 er s F ∧ file_ok F0 ∧ file_ok F ∧ f_bytes F0 = p ∧ f_bytes F = l
    ∧ uuid ht0 = u ∧ 0 <= counter (head ht0) ∧ counter (head ht0) + Z.of_nat k <= cmax.

Definition ree_lost (s : fd) (p : list Z) : Prop := ∃ c, c <= cmax ∧ holds_bytes u c p (snd s).

Lemma fd_lost_lost {N} ht0 F0 s :
  fd_lost newest N ht0 F0 s → file_ok F0 → uuid ht0 = u → 0 <= counter (head ht0) <= cmax → ree_lost s (f_bytes F0).
Proof.
  intros (Hc & Hr & _) Hok Hu Hcnt. exists (counter (head ht0)). split; [lia|]. exists F0. split; [|done]. exists ht0.
  split_and!; done || lia.
Qed.

Definition ree_dirf_laws : ByteFileLaws fd.
Proof.
  refine {| bf_holds := ree_holds; bf_lost := ree_lost; bf_closed s p := fst s = None ∧ ree_lost s p |}.
  - by intros s p [].
  - intros er k s p l (N & ht0 & F0 & F & Hh & Hok0 & Hok & <- & <- & Hu & Hc & Hk).
    apply (fd_lost_lost (N := N) ht0 F0); [by apply fd_lost_holds in Hh|done|done|lia].
  - intros [o d] p pos len [Ho Hl]. simpl in Ho. subst o. by exists (None, d).
  - intros er k s p l pos len (N & ht0 & F0 & F & Hh & Hok0 & Hok & <- & <- & Hu & Hc & Hk) Hp Hl Hm.
    eapply wp_mono; [apply (@wp_ree_fs_read _ _ (htree_store_laws newest N ht0 F0) er s F pos len Hh Hok Hp Hl Hm)| |].
    + intros r s' [-> Hh']. split; [done|]. exists N, ht0, F0, F. by split_and!.
    + intros e s' [? [Hh'|[? ?]]]; (split; [done|]); [left; by exists N, ht0, F0, F|right].
      split; [done|]. apply (fd_lost_lost (N := N) ht0 F0); (done || lia).
  - intros er k s p l pos buf (N & ht0 & F0 & F & Hh & Hok0 & Hok & <- & <- & Hu & Hc & Hk) Hp Hm.
    eapply wp_mono; [apply (@wp_ree_fs_write _ _ (htree_store_laws newest N ht0 F0) er s F pos buf Hh Hok Hp Hm)| |].
    + intros [] s' (F' & Hh' & Hok' & Hb). rewrite <- Hb. exists N, ht0, F0, F'. by split_and!.
    + intros e s' [? ?]. split; [done|]. apply (fd_lost_lost (N := N) ht0 F0); (done || lia).
  - intros er k [o d] p l (N & ht0 & F0 & F & (ht & Ho & Hse & Hf & _) & Hok0 & Hok & <- & <- & Hu & Hc & Hk).
    simpl in *. subst o. pose proof (se_head _ _ _ _ _ _ Hse) as Eh. pose proof (se_uuid _ _ _ _ _ _ Hse) as Eu.
    pose proof (wp_sync BS ht0 F0 ht F d Hse ltac:(rewrite Eh; lia)) as Hw.
    unfold wp, fop_commit_writes, ree_dirf_ops, ree_dirf_commit_writes, fd_sync in *.
    destruct (tee_fs_htree_sync_to_storage (Some ht) d) as [[[ht' h]|e|] d']; [| |done].
    + destruct Hw as (Hc' & Hr' & Hu' & _ & Hcnt & Hf'). rewrite Eh in Hcnt.
      exists (d_nodes d'), ht', F, F. split; [|split_and!; try done; [by rewrite Hu', Eu|lia|lia]].
      exists ht'. split; [done|]. split; [by apply sess_open|]. split; [|done]. intros e He. by apply Hf, Hf'.
    + destruct Hw as [Hfe Hor]. split; [by apply Hf|].
      destruct Hor as [[Hl1 Hl2]|(ht' & Hcnt & Hu' & Hc' & Hr')]; [left|right].
      * apply (fd_lost_lost (N := d_nodes d') ht0 F0); (done || lia).
      * rewrite Eh in Hcnt. exists (counter (head ht')). split; [lia|]. exists F. split; [|done]. exists ht'.
        split_and!; [by rewrite Hu', Eu|lia|lia|done|done].
  - intros er k [o d] p l n (N & ht0 & F0 & F & (ht & Ho & Hse & Hf & HN) & Hok0 & Hok & <- & <- & Hu & Hc & Hk).
    simpl in *. subst o.
    pose proof (fd_ext N ht0 F0 er ht F d Hse Hf HN) as Hw.
    unfold wp, fop_realloc, ree_dirf_ops, fd_lift, mbind, M_bind in *.
    destruct (ext d) as [[[]|e|] d']; [| |done].
    2: { destruct Hw as [? Hh%fd_lost_holds]. split; [done|]. apply (fd_lost_lost (N := N) ht0 F0); (done || lia). }
    split; [apply junk_ok|]. split; [apply junk_ok|]. by exists N, ht0, F0, F.
Defined.

(** A file that was synchronised is opened. *)
Lemma wp_ree_open c k p o d :
  holds_bytes u c p d → c + Z.of_nat k <= cmax →
  wp (fop_realloc 0 ≫= λ _, fop_open false None)
    (λ _ s', ree_holds (fault d) k s' p p) (λ e s', fault d e ∧ ree_lost s' p) (o, d).
Proof.
  intros (F & (ht0 & Hu & Hcnt & Hc & Hr) & Hok & <-) Hk.
  assert (∀ o d', same d d' → ree_lost (o, d') (f_bytes F)) as Hlost.
  { intros o' d' Hd. exists c. split; [lia|]. exists F. split; [|done]. exists ht0. split_and!; [done|lia|lia| |].
    - by eapply committed_same.
    - by eapply repr_same. }
  assert (wp (_ ← ext; _ ← ext; tee_fs_htree_open false None u)
    (λ ht d', same d d' ∧ ht = ht0) (failed d) d) as Hw.
  { apply wp_bind, wp_ext; [|by split]. intros d1 Hd1. apply wp_bind, wp_ext.
    2: { intros e d2 Hd2 Hf. by apply (failed_trans d d1 e d2 Hd1). }
    intros d2 Hd2. rewrite <- Hu.
    assert (same d d2) as Hd12 by (by etrans).
    eapply wp_mono; [apply (wp_open ht0 d2); by eapply committed_same| |].
    - intros ht d3 [Hd3 ->]. split; [by etrans|done].
    - intros e d3 Hf. by eapply failed_trans. }
  unfold wp, fop_realloc, fop_open, ree_dirf_ops, fd_lift, ree_fs_open_primitive, mbind, M_bind in *.
  destruct (ext d) as [[[]|e|] d1]; [|by destruct Hw; auto|done].
  cbn. destruct (ext d1) as [[[]|e|] d2]; [|by destruct Hw; auto|done].
  destruct (tee_fs_htree_open false None u d2) as [[ht|e|] d3]; [|by destruct Hw; auto|done].
  destruct Hw as [Hd ->]. exists (d_nodes d3), ht0, F, F. split; [|split_and!; try done; lia].
  exists ht0. split; [done|]. split; [apply sess_open; [by eapply committed_same|by eapply repr_same]|].
  split; [|done]. intros e He. by apply (same_faults _ _ Hd).
Qed.

Lemma ree_holds_bytes er k s p l : ree_holds er k s p l → ree_lost s p.
Proof.
  intros (N & ht0 & F0 & F & (ht & _ & Hse & _) & Hok0 & _ & <- & _ & Hu & Hc & Hk).
  exists (counter (head ht0)). split; [lia|]. exists F0. split; [|done]. exists ht0.
  split_and!; [done|lia|lia|apply Hse|apply Hse].
Qed.

End with_crypto.

Section with_crypto.
Context `{CryptoLaws}.
Context (u : list Z) (junk : nat → list Z).
Context (junk_ok : ∀ n, List.length (junk n) = n ∧ Forall (λ x, 0 <= x < 256) (junk n)).

(** C7: the directory of the REE file system implements a finite map from a UUID and
    an object id to a file number and the root hash of the object's file, down to
    the hash tree. From a file that stands for the map [m], a session that opens the
    directory, makes any sequence of calls (find; enter under a new number; update
    of the hash; remove) and commits answers like the map, never gives out a number
    that is in use, and leaves a file that stands for the resulting map; whatever
    external call fails, the file stands for the old map or for the new one. *)
Theorem ree_directory_refines_map c p m os fuel o d :
  holds_bytes u c p d → c < UINT32_MAX → dir_on p m →
  ¬ fault d TEE_ERROR_ITEM_NOT_FOUND → Forall op_ok os →
  (∀ key v, m !! key = Some v → v.1 + Z.of_nat (List.length os) < bits_range) →
  Z.of_nat (List.length p) + 120 * (Z.of_nat (List.length os) + 1) < 2 ^ 31 →
  (List.length p + List.length os < fuel)%nat →
  wp (@dir_session _ (ree_dirf_ops u junk) fuel None os)
    (λ ans '(_, d'), ∃ c' p' m', dir_specs m os ans m' ∧ dir_on p' m' ∧ holds_bytes u c' p' d')
    (λ e '(_, d'), fault d e ∧ ∃ c' p' m', dir_on p' m' ∧ holds_bytes u c' p' d'
       ∧ (m' = m ∨ ∃ ans, dir_specs m os ans m'))
    (o, d).
Proof.
  intros Hb Hc Hon Hf Hos Hnum Hsz Hfuel.
  eapply wp_mono; [apply (@wp_dir_session _ _ (ree_dirf_laws u junk junk_ok UINT32_MAX ltac:(lia)) (fault d) 0 (o, d) p m); try done| |].
  - apply (wp_ree_open u junk UINT32_MAX c 1); [done|lia].
  - intros ans [o' d'] (m' & p' & Hs & Hon' & Hh). apply ree_holds_bytes in Hh as (c' & _ & Hh).
    by exists c', p', m'.
  - intros e [o' d'] [He [(c' & _ & Hl)|(ans & m' & p' & Hs & Hon' & (c' & _ & Hl))]]; (split; [done|]).
    + exists c', p, m. auto.
    + exists c', p', m'. eauto.
Qed.
End with_crypto.

(** ** Example *)

Section examples.
Existing Instance toy.
Existing Instance toy_laws.

Definition ex_uuid : TEE_UUID := MkUuid 1 2 3 (replicate 8 7).
Definition ex_ops : list dir_op :=
  [DAdd ex_uuid [65; 66] (replicate 32 1); DFind ex_uuid [65; 66]; DAdd ex_uuid [67] (replicate 32 2);
   DUpdate ex_uuid [67] (replicate 32 3); DRemove ex_uuid [65; 66]; DFind ex_uuid [65; 66]].

Lemma ex_dir_on : dir_on [] ∅.
Proof. exists []. split; [|done]. by constructor. Qed.

Lemma ex_ops_ok : Forall op_ok ex_ops.
Proof.
  assert (uuid_wf ex_uuid) as Hu.
  { split_and!; try done. cbn. repeat constructor; lia. }
  repeat constructor; done.
Qed.

Theorem ree_directory_refines_map_witness :
  holds_bytes [0] 1 [] dev0 ∧ dir_on [] ∅ ∧
  ∃ c' p' m', dir_on p' m'
    ∧ holds_bytes [0] c' p' (snd (snd (@dir_session _ (ree_dirf_ops [0] (λ n, replicate n 0)) 10 None ex_ops (None, dev0)))).
Proof.
  split; [exact holds_bytes_dev0|]. split; [exact ex_dir_on|].
  assert (∀ n : nat, List.length (replicate n 0) = n ∧ Forall (λ x, 0 <= x < 256) (replicate n 0)) as Hj.
  { intros n. split; [apply length_replicate|]. apply Forall_replicate. lia. }
  apply (wp_snd _ (λ s, ∃ c' p' m', dir_on p' m' ∧ holds_bytes [0] c' p' (snd s)) _ _ _
    (ree_directory_refines_map [0] (λ n, replicate n 0) Hj 1 [] ∅ ex_ops 10 None dev0
      holds_bytes_dev0 eq_refl ex_dir_on (faults_dev0 _) ex_ops_ok
      ltac:(intros ? ? ?%lookup_empty_Some; done) eq_refl ltac:(cbn; lia))).
  - intros e [o' d'] [Hf _]. exact (faults_dev0 _ Hf).
  - intros ans [o' d'] (c' & p' & m' & _ & Hon & Hh). exists c', p', m'. split; [exact Hon|exact Hh].
Defined.
End examples.
