(* ===== verification/ReeObj.v ===== *)
(** * core/tee/tee_ree_fs.c: the objects of the REE file system

    The operations of [ree_fs_ops] over a whole volume: the files in normal world,
    the directory, and the files that are open. An object's file is a hash tree
    (Htree.v) in a file named by its number; the directory (Dirfile.v) says which
    number and which root hash an object has. Every operation runs under
    ree_fs_mutex. CFG_RPMB_FS is not set. *)
From S2P Require Import Prelude BlockFile ByteFile Htree HtreeTree HtreeProofs ReeFs HtreeStore.
From S2P Require Import Uuid Bitstring Dirfile DirfileProofs DirfileSpec.

Local Open Scope Z_scope.

(** The UUID and the object id of a struct tee_pobj. *)
Record pobj := Po { po_uuid : TEE_UUID; po_id : list Z }.

(** struct tee_fs_fd: the tree, the file [fd] refers to, and [dfh]. *)
Record tee_fs_fd := Fd {
  f_ht : option tee_fs_htree;
  f_ino : nat;
  f_dfh : tee_fs_dirfile_fileh;
}.

(** struct tee_fs_dir; [dir_dirh] tells which opening of the directory it points to. *)
Record tee_fs_dir := Dir {
  dir_dirh : nat;
  dir_idx : Z;
  dir_uuid : TEE_UUID;
}.

(** The state: [ree_fs_dirh] with the number of the opening, its reference count and
    the file behind it; the files that are open; and normal world: what the names
    refer to ("dirf.db" is [None]), and the files, which stay while they are open.
    The calls that are made outside of the core fail as [v_faults] says, in order. *)
Record vol := Vol {
  ree_fs_dirh : option (nat * tee_fs_dirfile_dirh);
  ree_fs_dirh_refcount : Z;
  dirh_fh : option tee_fs_fd;
  fds : gmap nat tee_fs_fd;
  names : gmap (option Z) nat;
  inodes : gmap nat dev;
  next : nat;
  v_rng : nat;
  v_faults : list (option (bool * tee_result));
}.

Definition set_env (v : vol) (r : nat) (f : list (option (bool * tee_result))) : vol :=
  Vol (ree_fs_dirh v) (ree_fs_dirh_refcount v) (dirh_fh v) (fds v) (names v) (inodes v) (next v) r f.
Definition set_inodes (v : vol) (i : gmap nat dev) : vol :=
  Vol (ree_fs_dirh v) (ree_fs_dirh_refcount v) (dirh_fh v) (fds v) (names v) i (next v) (v_rng v) (v_faults v).
Definition set_names (v : vol) (n : gmap (option Z) nat) : vol :=
  Vol (ree_fs_dirh v) (ree_fs_dirh_refcount v) (dirh_fh v) (fds v) n (inodes v) (next v) (v_rng v) (v_faults v).
Definition set_fds (v : vol) (f : gmap nat tee_fs_fd) : vol :=
  Vol (ree_fs_dirh v) (ree_fs_dirh_refcount v) (dirh_fh v) f (names v) (inodes v) (next v) (v_rng v) (v_faults v).
Definition set_dirh_fh (v : vol) (f : option tee_fs_fd) : vol :=
  Vol (ree_fs_dirh v) (ree_fs_dirh_refcount v) f (fds v) (names v) (inodes v) (next v) (v_rng v) (v_faults v).
Definition set_dirh (v : vol) (d : option (nat * tee_fs_dirfile_dirh)) : vol :=
  Vol d (ree_fs_dirh_refcount v) (dirh_fh v) (fds v) (names v) (inodes v) (next v) (v_rng v) (v_faults v).
Definition set_refcount (v : vol) (c : Z) : vol :=
  Vol (ree_fs_dirh v) c (dirh_fh v) (fds v) (names v) (inodes v) (next v) (v_rng v) (v_faults v).
Definition set_next (v : vol) (n : nat) : vol :=
  Vol (ree_fs_dirh v) (ree_fs_dirh_refcount v) (dirh_fh v) (fds v) (names v) (inodes v) n (v_rng v) (v_faults v).

Abbreviation V := (M vol tee_result).

Definition modify (f : vol → vol) : V unit := λ v, (Ok tt, f v).

(** ** Normal world *)

(** A call that is made outside of a file, as [ext] and [ext_write]. *)
Definition vext : V unit := λ v,
  match v_faults v with
  | [] => (Ok tt, v)
  | None :: f => (Ok tt, set_env v (v_rng v) f)
  | Some (_, e) :: f => (Err e, set_env v (v_rng v) f)
  end.
Definition vext_write (w : vol → vol) : V unit := λ v,
  match v_faults v with
  | [] => (Ok tt, w v)
  | None :: f => (Ok tt, w (set_env v (v_rng v) f))
  | Some (b, e) :: f =>
    let v := set_env v (v_rng v) f in (Err e, if b then w v else v)
  end.

(** A computation on a file and its tree. *)
Definition plug (v : vol) (d : dev) : dev :=
  Dev (d_heads d) (d_nodes d) (d_blocks d) (v_rng v) (v_faults v).
Definition unplug (v : vol) (ino : nat) (d : dev) : vol :=
  set_env (set_inodes v (<[ino := d]> (inodes v))) (d_rng d) (d_faults d).

Definition on_inode {A} (ino : nat) (o : option tee_fs_htree) (m : M fd tee_result A)
    : V (outcome tee_result A * option tee_fs_htree) := λ v,
  match inodes v !! ino with
  | None => (Panicked, v)
  | Some d => let '(r, (o, d)) := m (o, plug v d) in (Ok (r, o), unplug v ino d)
  end.

Definition of_outcome {A} (r : outcome tee_result A) : V A := λ v, (r, v).

(** A computation on the file behind the directory, and on an open file. *)
Definition on_dir {A} (m : M fd tee_result A) : V A :=
  v ← mget;
  match dirh_fh v with
  | None => mpanic
  | Some f =>
    '(r, o) ← on_inode (f_ino f) (f_ht f) m;
    _ ← modify (λ v, set_dirh_fh v (Some (Fd o (f_ino f) (f_dfh f))));
    of_outcome r
  end.
Definition on_fh {A} (fh : nat) (m : M fd tee_result A) : V A :=
  v ← mget;
  match fds v !! fh with
  | None => mpanic
  | Some f =>
    '(r, o) ← on_inode (f_ino f) (f_ht f) m;
    _ ← modify (λ v, set_fds v (<[fh := Fd o (f_ino f) (f_dfh f)]> (fds v)));
    of_outcome r
  end.

(** A new file. The tree is made with its root in version 1, which is behind version
    0 in the file: the hole before it reads as zeros. *)
Definition new_file : dev := Dev ∅ {[(1, false) := zero_image]} ∅ 0 [].

(** tee-supplicant truncates a file of that name. *)
Definition create_name (name : option Z) (v : vol) : vol :=
  match names v !! name with
  | Some ino => set_inodes v (<[ino := new_file]> (inodes v))
  | None =>
    set_next (set_names (set_inodes v (<[next v := new_file]> (inodes v))) (<[name := next v]> (names v)))
      (S (next v))
  end.

Definition lookup_name (name : option Z) : V nat :=
  v ← mget;
  match names v !! name with Some ino => mret ino | None => mthrow TEE_ERROR_ITEM_NOT_FOUND end.

Definition tee_fs_rpc_open_dfh (name : option Z) : V nat := _ ← vext; lookup_name name.
Definition tee_fs_rpc_create_dfh (name : option Z) : V nat :=
  _ ← vext_write (create_name name); lookup_name name.
Definition tee_fs_rpc_remove_dfh (name : option Z) : V unit :=
  vext_write (λ v, set_names v (delete name (names v))).

(** ** Opening a file *)

Section with_crypto.
Context `{Crypto}.
Context (fuel : nat) (junk : nat → list Z).

Definition fd_open (create : bool) (hash_arg : option (list Z)) (uuid : list Z) : M fd tee_result unit :=
  λ '(_, d),
  match tee_fs_htree_open create hash_arg uuid d with
  | (Ok ht, d) => (Ok tt, (Some ht, d))
  | (Err e, d) => (Err e, (None, d))
  | (Panicked, d) => (Panicked, (None, d))
  end.

Definition open_tree (create : bool) (hash_arg : option (list Z)) (uuid : list Z) (ino : nat)
    : V tee_fs_htree :=
  '(r, o) ← on_inode ino None (fd_open create hash_arg uuid);
  _ ← of_outcome r;
  match o with Some ht => mret ht | None => mpanic end.

(** No [dfh] stands for the directory. A file that is created has its root hash
    stored where [hash] points, in the caller's [dfh]. *)
Definition ree_fs_open_primitive (create : bool) (hash_arg : option (list Z)) (uuid : list Z)
    (dfh : option tee_fs_dirfile_fileh) : V tee_fs_fd :=
  let name := dfh_file_number <$> dfh in
  _ ← vext;
  res ← mtry (
    ino ← (if create then tee_fs_rpc_create_dfh name else tee_fs_rpc_open_dfh name);
    ht ← open_tree create hash_arg uuid ino;
    mret (ino, ht));
  match res with
  | inr (ino, ht) =>
    mret (Fd (Some ht) ino
      (match dfh with
       | Some d => Fileh (dfh_file_number d) (if create then root_hash ht else dfh_hash d) (dfh_idx d)
       | None => Fileh 0 [] (-1)
       end))
  | inl e =>
    _ ← (if create then _ ← mtry (tee_fs_rpc_remove_dfh name); mret tt else mret tt);
    mthrow e
  end.

Definition ree_fs_close_primitive (fh : nat) : V unit := modify (λ v, set_fds v (delete fh (fds v))).

(** [*fh = fdp] *)
Definition add_fd (f : tee_fs_fd) : V nat := λ v,
  (Ok (next v), set_next (set_fds v (<[next v := f]> (fds v))) (S (next v))).

(** ** The directory *)

(** [ree_dirf_ops] *)
#[export] Instance vol_dirf_ops : ByteFile vol := {|
  fop_open create hash_arg :=
    f ← ree_fs_open_primitive create hash_arg [] None; modify (λ v, set_dirh_fh v (Some f));
  fop_read pos len := on_dir (ree_fs_read_primitive pos len);
  fop_write pos buf := on_dir (ree_fs_write_primitive pos buf);
  fop_commit_writes := on_dir fd_sync;
  fop_realloc n := _ ← vext; mret (junk n);
|}.

(** tee_fs_dirfile_open() closes the directory when it fails. *)
Definition dirfile_open (create : bool) : V tee_fs_dirfile_dirh :=
  res ← mtry (tee_fs_dirfile_open fuel create None);
  match res with
  | inr d => mret d
  | inl e => _ ← modify (λ v, set_dirh_fh v None); mthrow e
  end.

Definition open_dirh : V tee_fs_dirfile_dirh :=
  res ← mtry (dirfile_open false);
  match res with
  | inr d => mret d
  | inl TEE_ERROR_ITEM_NOT_FOUND => dirfile_open true
  | inl e => mthrow e
  end.

Definition close_dirh : V unit := modify (λ v, set_dirh (set_dirh_fh v None) None).

(** The caller's [dirh] is [ree_fs_dirh] from here on. *)
Definition get_dirh : V unit :=
  v ← mget;
  _ ← (match ree_fs_dirh v with
       | Some _ => mret tt
       | None =>
         d ← open_dirh;
         modify (λ v, set_next (set_dirh v (Some (next v, d))) (S (next v)))
       end);
  v ← mget;
  _ ← mput (set_refcount v (wrap 64 (ree_fs_dirh_refcount v + 1)));
  v ← mget;
  massert (negb (ree_fs_dirh_refcount v =? 0)).

Definition put_dirh_primitive (close : bool) : V unit :=
  v ← mget;
  _ ← massert (negb (ree_fs_dirh_refcount v =? 0));
  _ ← mput (set_refcount v (wrap 64 (ree_fs_dirh_refcount v - 1)));
  v ← mget;
  if bool_decide (is_Some (ree_fs_dirh v)) && ((ree_fs_dirh_refcount v =? 0) || close)
  then close_dirh else mret tt.

(** A use of the directory, and one that changes it. *)
Definition use_dirh {A} (m : tee_fs_dirfile_dirh → V A) : V A :=
  v ← mget;
  match ree_fs_dirh v with Some (_, d) => m d | None => mpanic end.
Definition upd_dirh {A} (m : tee_fs_dirfile_dirh → V (tee_fs_dirfile_dirh * A)) : V A :=
  v ← mget;
  match ree_fs_dirh v with
  | Some (g, d) => '(d, a) ← m d; _ ← modify (λ v, set_dirh v (Some (g, d))); mret a
  | None => mpanic
  end.

Definition dirh_find (po : pobj) : V tee_fs_dirfile_fileh :=
  use_dirh (λ d, tee_fs_dirfile_find fuel d (po_uuid po) (po_id po)).
Definition dirh_get_tmp : V Z := upd_dirh tee_fs_dirfile_get_tmp.
Definition dirh_rename (po : pobj) (dfh : tee_fs_dirfile_fileh) : V tee_fs_dirfile_fileh :=
  upd_dirh (λ d, tee_fs_dirfile_rename fuel d (po_uuid po) dfh (po_id po)).
Definition dirh_remove (dfh : tee_fs_dirfile_fileh) : V unit :=
  upd_dirh (λ d, d ← tee_fs_dirfile_remove d dfh; mret (d, tt)).
Definition dirh_update_hash (dfh : tee_fs_dirfile_fileh) : V unit :=
  upd_dirh (λ d, d ← tee_fs_dirfile_update_hash d dfh; mret (d, tt)).
Definition commit_dirh_writes : V unit := _ ← tee_fs_dirfile_commit_writes; mret tt.

(** [out: put_dirh(dirh, ...)] of an operation: [get_dirh(&dirh)] first, then [m]. The
    directory is closed when [close] says so. *)
Definition with_dirh {A} (m : V A) (close_ok : option bool) (close_err : bool) : V A :=
  _ ← get_dirh;
  res ← mtry m;
  match res with
  | inr a => _ ← (match close_ok with Some c => put_dirh_primitive c | None => mret tt end); mret a
  | inl e => _ ← put_dirh_primitive close_err; mthrow e
  end.

(** ** The operations *)

(** The handle, and [*size]. *)
Definition ree_fs_open (po : pobj) : V (nat * Z) :=
  with_dirh (
    dfh ← dirh_find po;
    res ← mtry (ree_fs_open_primitive false (Some (dfh_hash dfh)) (uuid_bytes (po_uuid po)) (Some dfh));
    match res with
    | inl TEE_ERROR_ITEM_NOT_FOUND => mthrow TEE_ERROR_CORRUPT_OBJECT
    | inl e => mthrow e
    | inr f =>
      fh ← add_fd f;
      match f_ht f with Some ht => mret (fh, tee_fs_htree_get_meta ht) | None => mpanic end
    end) None false.

Definition ree_fs_close (fh : nat) : V unit :=
  _ ← put_dirh_primitive false; ree_fs_close_primitive fh.

Definition ree_fs_read (fh : nat) (pos len : Z) : V (list Z) := on_fh fh (ree_fs_read_primitive pos len).

Definition get_fd (fh : nat) : V tee_fs_fd :=
  v ← mget; match fds v !! fh with Some f => mret f | None => mpanic end.
Definition set_dfh (fh : nat) (dfh : tee_fs_dirfile_fileh) : V unit :=
  modify (λ v, set_fds v (alter (λ f, Fd (f_ht f) (f_ino f) dfh) fh (fds v))).

(** [tee_fs_htree_sync_to_storage(&fdp->ht, fdp->dfh.hash)] *)
Definition sync_fd (fh : nat) : V unit :=
  h ← on_fh fh fd_sync;
  match h with
  | None => mret tt
  | Some h =>
    f ← get_fd fh;
    set_dfh fh (Fileh (dfh_file_number (f_dfh f)) h (dfh_idx (f_dfh f)))
  end.

Definition set_name (fh : nat) (po : pobj) (overwrite : bool) : V unit :=
  res ← mtry (dirh_find po);
  match res, overwrite with
  | inr _, false => mthrow TEE_ERROR_ACCESS_CONFLICT
  | _, _ =>
    f ← get_fd fh;
    let idx := match res with inr old => dfh_idx old | inl _ => -1 end in
    dfh ← dirh_rename po (Fileh (dfh_file_number (f_dfh f)) (dfh_hash (f_dfh f)) idx);
    _ ← set_dfh fh dfh;
    _ ← commit_dirh_writes;
    match res with
    | inr old => _ ← mtry (tee_fs_rpc_remove_dfh (Some (dfh_file_number old))); mret tt
    | inl _ => mret tt
    end
  end.

(** A part that is empty is not written. *)
Definition write_part (fh : nat) (pos : Z) (l : list Z) : V Z :=
  match l with
  | [] => mret pos
  | _ => _ ← on_fh fh (ree_fs_write_primitive pos l); mret (wrap 64 (pos + Z.of_nat (List.length l)))
  end.

Definition ree_fs_create (po : pobj) (overwrite : bool) (head attr data : list Z) : V nat :=
  '(fh, number) ← with_dirh (
    number ← dirh_get_tmp;
    f ← ree_fs_open_primitive true None (uuid_bytes (po_uuid po)) (Some (Fileh number [] 0));
    fh ← add_fd f;
    mret (fh, number)) None true;
  res ← mtry (
    pos ← write_part fh 0 head;
    pos ← write_part fh pos attr;
    _ ← write_part fh pos data;
    _ ← sync_fd fh;
    set_name fh po overwrite);
  match res with
  | inr _ => mret fh
  | inl e =>
    _ ← put_dirh_primitive true;
    _ ← ree_fs_close_primitive fh;
    _ ← mtry (tee_fs_rpc_remove_dfh (Some number));
    mthrow e
  end.

(** The end of ree_fs_write() and ree_fs_truncate(). *)
Definition commit_fd (fh : nat) : V unit :=
  _ ← sync_fd fh;
  f ← get_fd fh;
  _ ← dirh_update_hash (f_dfh f);
  commit_dirh_writes.

Definition ree_fs_write (fh : nat) (pos : Z) (buf : list Z) : V unit :=
  with_dirh (_ ← on_fh fh (ree_fs_write_primitive pos buf); commit_fd fh) (Some false) true.

Definition ree_fs_truncate (fh : nat) (len : Z) : V unit :=
  with_dirh (_ ← on_fh fh (ree_fs_ftruncate_internal len); commit_fd fh) (Some false) true.

Definition ree_fs_rename (old new : pobj) (overwrite : bool) : V unit :=
  with_dirh (
    res ← mtry (dirh_find new);
    match res, overwrite with
    | inr _, false => mthrow TEE_ERROR_ACCESS_CONFLICT
    | _, _ =>
      dfh ← dirh_find old;
      _ ← dirh_rename new dfh;
      match res with
      | inl _ => commit_dirh_writes
      | inr remove_dfh =>
        _ ← dirh_remove remove_dfh;
        _ ← commit_dirh_writes;
        _ ← mtry (tee_fs_rpc_remove_dfh (Some (dfh_file_number remove_dfh)));
        mret tt
      end
    end) (Some false) true.

(** The search at the end is an assertion: it has to fail. *)
Definition ree_fs_remove (po : pobj) : V unit :=
  with_dirh (
    dfh ← dirh_find po;
    _ ← dirh_remove dfh;
    _ ← commit_dirh_writes;
    _ ← mtry (tee_fs_rpc_remove_dfh (Some (dfh_file_number dfh)));
    res ← mtry (dirh_find po);
    match res with inl _ => mret tt | inr _ => mpanic end) (Some false) true.

(** ** Listing *)

(** A pointer to a directory that was closed is dangling. *)
Definition dir_get_next (d : tee_fs_dir) : V (Z * list Z) :=
  v ← mget;
  match ree_fs_dirh v with
  | Some (g, _) =>
    if (g =? dir_dirh d)%nat
    then tee_fs_dirfile_get_next fuel (dir_uuid d) (dir_idx d) TEE_OBJECT_ID_MAX_LEN else mpanic
  | None => mpanic
  end.

(** [put_dirh(d->dirh, false)] *)
Definition put_dir (d : tee_fs_dir) : V unit :=
  v ← mget;
  _ ← massert (match ree_fs_dirh v with Some (g, _) => (g =? dir_dirh d)%nat | None => false end);
  put_dirh_primitive false.

Definition ree_fs_opendir_rpc (uuid : TEE_UUID) : V tee_fs_dir :=
  _ ← vext;
  _ ← get_dirh;
  v ← mget;
  let d := Dir (match ree_fs_dirh v with Some (g, _) => g | None => 0%nat end) (-1) uuid in
  res ← mtry (dir_get_next d);
  match res with
  | inr _ => mret d
  | inl e => _ ← put_dir d; mthrow e
  end.

Definition ree_fs_closedir_rpc (d : tee_fs_dir) : V unit := put_dir d.

(** The object id, and the directory with its position. *)
Definition ree_fs_readdir_rpc (d : tee_fs_dir) : V (list Z * tee_fs_dir) :=
  '(idx, id) ← dir_get_next d;
  mret (id, Dir (dir_dirh d) idx (dir_uuid d)).
End with_crypto.
