(* ===== verification/ReeFile.v ===== *)
(** * core/tee/tee_ree_fs.c: the file of an object

    An object's file is opened with the root hash the directory has for it. What
    opening, creating, reading, writing and synchronising do to such a file, on top
    of ReeFs.v and HtreeProofs.v. *)
From S2P Require Import Prelude BlockFile ByteFile Htree HtreeTree HtreeProofs ReeFs HtreeStore ReeObj.

Local Open Scope Z_scope.

(** ** What the file is does not depend on the calls to come *)

Section with_crypto.
Context `{CryptoLaws}.

Definition same_file (d d' : dev) : Prop :=
  d_heads d' = d_heads d ∧ d_nodes d' = d_nodes d ∧ d_blocks d' = d_blocks d.

#[export] Instance same_file_equiv : Equivalence same_file.
Proof.
  split; [by intros d|by intros d d' (? & ? & ?)|]. intros d d' d'' (? & ? & ?) (? & ? & ?). split_and!; congruence.
Qed.

Lemma same_same_file d d' : same d d' → same_file d d'.
Proof. intros Hd. split_and!; apply Hd. Qed.

Lemma committed_file {sel} ht d d' : committed_by sel ht d → same_file d d' → committed_by sel ht d'.
Proof.
  intros [H1 H2 H3 H4 H5 H6 H7] (Eh & En & Eb). constructor; try done.
  - intros id n Hn. destruct (H3 id n Hn). constructor; try done. by rewrite En.
  - by rewrite Eh.
  - by rewrite Eh.
Qed.

Lemma repr_file bs ht d d' F : repr bs ht d F → same_file d d' → repr bs ht d' F.
Proof.
  intros Hr (Eh & En & Eb). eapply repr_ext; [exact Hr|done..| |intros id n Hn; by exists n]. done.
Qed.

Lemma sess_file {sel} bs ht0 F0 ht F d d' : sess bs sel ht0 F0 ht F d → same_file d d' → sess bs sel ht0 F0 ht F d'.
Proof.
  intros [H1 H2 H3 H4 H5 H6 [H7 H7'] H8 H9 H10 H11] Hd. constructor; try done.
  - by eapply committed_file.
  - by eapply repr_file.
  - constructor; [|done]. intros id n. destruct Hd as (_ & -> & _). apply H7.
  - by eapply repr_file.
Qed.

Lemma fd_holds_file {sel} N ht0 F0 er er' o d d' F :
  fd_holds sel N ht0 F0 er (o, d) F → same_file d d' → (∀ e, fault d' e → er' e) →
  fd_holds sel N ht0 F0 er' (o, d') F.
Proof.
  intros (ht & Ho & Hse & _ & HN) Hd Hf. exists ht. split; [done|]. split; [by eapply sess_file|].
  split; [done|]. destruct Hd as (_ & Hd & _). cbn in *. congruence.
Qed.

Lemma holds_bytes_file u c l d d' : holds_bytes u c l d → same_file d d' → holds_bytes u c l d'.
Proof.
  intros (F & (ht & Hu & Hc & Hcm & Hr) & Hrest) Hd. exists F. split; [|done]. exists ht.
  split_and!; try done; [apply Hc|apply Hc|by eapply committed_file|by eapply repr_file].
Qed.

(** ** Opening with a hash *)

(** The two versions of the root node have one hash. *)
Definition twin_roots (d : dev) : Prop :=
  ∃ n0 n1, d_nodes d !! (1, false) = Some n0 ∧ d_nodes d !! (1, true) = Some n1 ∧ hash n0 = hash n1.

Lemma wp_open_hash ht d :
  committed_by any_head ht d → is_Some (d_nodes d !! (1, false)) → ¬ twin_roots d →
  wp (tee_fs_htree_open false (Some (root_hash ht)) (uuid ht)) (λ ht' d', same d d' ∧ ht' = ht) (failed d) d.
Proof.
  intros Hc [n0 Hn0] Htw. apply (wp_open_by _ ht d Hc). intros d0 fk im di Hd.
  destruct (committed_root ht d Hc) as [r Hr].
  pose proof (settled_stored _ _ _ _ _ (cm_settled _ _ Hc 1 r Hr)) as Hst.
  change (node_vers (root_vers ht) (nodes ht) 1) with (root_vers ht) in Hst.
  assert (root_hash ht = hash (node r)) as Hrh by (unfold root_hash, child_hash; by rewrite Hr).
  assert (HNode false false (node r) = r) as Er by (symmetry; by apply (committed_node (sel := any_head) ht d 1)).
  assert (∀ d1 e d2, same d d1 → same d1 d2 → fault d1 e → failed d e d2) as Hfail.
  { intros d1 e d2 H1 H2 Hf. split; [by etrans|]. by apply (same_faults _ _ H1). }
  assert (∀ d2, same d d2 →
    wp (hd ← rpc_read_head (root_vers ht);
        mret (set_head (set_nodes (Htree ∅ zero_head fk im di (uuid ht)) {[1 := HNode false false (node r)]}) hd))
      (λ ht' d', same d d' ∧ ∃ n, nodes ht !! 1 = Some n ∧ ht' = Htree {[1 := n]} (head ht) fk im di (uuid ht))
      (failed d) d2) as Hfound.
  { intros d2 Hd2. apply wp_bind, (wp_read_head _ (head ht)).
    - rewrite (same_heads _ _ Hd2). apply Hc.
    - intros d3 Hd3. apply wp_ret. split; [by etrans|]. exists r. by rewrite Er.
    - intros e d3 Hd3. by apply (Hfail d2). }
  unfold init_head_from_data. apply wp_bind.
  apply (wp_read_node 1 false n0); [by rewrite (same_nodes _ _ Hd)| |intros e d1; by apply Hfail].
  intros d1 Hd1. assert (same d d1) as Hs1 by (by etrans). rewrite Hrh.
  destruct (root_vers ht) eqn:Ev.
  - rewrite bool_decide_eq_false_2.
    2: { intros Heq. apply Htw. by exists n0, (node r). }
    apply wp_bind, (wp_read_node 1 true (node r)); [by rewrite (same_nodes _ _ Hs1)| |].
    2: { intros e d2. by apply Hfail. }
    intros d2 Hd2. rewrite bool_decide_eq_true_2 by done. apply Hfound. by etrans.
  - assert (n0 = node r) as -> by congruence. rewrite bool_decide_eq_true_2 by done. by apply Hfound.
Qed.

(** ** The file of an object *)

(** [d] has a tree with the root hash [h] that holds the bytes [l]; its counter is
    at most [c]. *)
Definition file_is (u h : list Z) (c : Z) (l : list Z) (d : dev) : Prop :=
  is_Some (d_nodes d !! (1, false)) ∧
  ∃ ht F, committed_by any_head ht d ∧ repr BS ht d F ∧ file_ok F ∧ f_bytes F = l
    ∧ uuid ht = u ∧ root_hash ht = h ∧ 0 <= counter (head ht) <= c.

(** It is open, and the tree in memory holds [l]. *)
Definition file_open (er : tee_result → Prop) (u h : list Z) (c : Z) (l0 l : list Z) (s : fd) : Prop :=
  ∃ N ht0 F0 F, fd_holds any_head N ht0 F0 er s F ∧ is_Some (N !! (1, false)) ∧ file_ok F0 ∧ file_ok F
    ∧ f_bytes F0 = l0 ∧ f_bytes F = l ∧ uuid ht0 = u ∧ root_hash ht0 = h ∧ 0 <= counter (head ht0) <= c.

Lemma file_is_file u h c l d d' : file_is u h c l d → same_file d d' → file_is u h c l d'.
Proof.
  intros (Hn & ht & F & Hc & Hr & Hrest) Hd. split; [pose proof Hd as (_ & -> & _); done|]. exists ht, F.
  split; [by eapply committed_file|]. split; [by eapply repr_file|done].
Qed.

Lemma file_open_file er er' u h c l0 l o d d' :
  file_open er u h c l0 l (o, d) → same_file d d' → (∀ e, fault d' e → er' e) →
  file_open er' u h c l0 l (o, d').
Proof.
  intros (N & ht0 & F0 & F & Hh & Hrest) Hd Hf. exists N, ht0, F0, F. split; [|done].
  by eapply fd_holds_file.
Qed.

Lemma fd_lost_file {N} ht0 F0 s c :
  fd_lost any_head N ht0 F0 s → is_Some (N !! (1, false)) → file_ok F0 → 0 <= counter (head ht0) <= c →
  file_is (uuid ht0) (root_hash ht0) c (f_bytes F0) (snd s).
Proof. intros (Hc & Hr & <-) Hn Hok Hcnt. split; [done|]. exists ht0, F0. split_and!; done || lia. Qed.

Lemma file_open_is er u h c l0 l s : file_open er u h c l0 l s → file_is u h c l0 (snd s).
Proof.
  intros (N & ht0 & F0 & F & Hh%fd_lost_holds & Hn & Hok0 & _ & <- & _ & <- & <- & Hcnt).
  by apply (fd_lost_file (N := N)).
Qed.

Lemma file_open_faults er u h c l0 l s : file_open er u h c l0 l s → ∀ e, fault (snd s) e → er e.
Proof. intros (N & ht0 & F0 & F & (ht & _ & _ & Hf & _) & _). exact Hf. Qed.

Lemma file_open_length er u h c l0 l s : file_open er u h c l0 l s →
  ∃ ht, fst s = Some ht ∧ tee_fs_htree_get_meta ht = Z.of_nat (List.length l).
Proof.
  intros (N & ht0 & F0 & F & (ht & Ho & Hse & _) & _ & _ & Hok & _ & <- & _). exists ht. split; [done|].
  rewrite (length_f_bytes _ Hok). symmetry. apply (repr_length _ _ _ _ (se_repr _ _ _ _ _ _ Hse)).
Qed.

Lemma wp_fd_open_hash u h c l o d :
  file_is u h c l d → ¬ twin_roots d →
  wp (fd_open false (Some h) u) (λ _ s', file_open (fault d) u h c l l s' ∧ same_file d (snd s'))
    (λ e s', fault d e ∧ same_file d (snd s')) (o, d).
Proof.
  intros (Hn & ht & F & Hc & Hr & Hok & <- & <- & <- & Hcnt) Htw. unfold wp, fd_open.
  pose proof (wp_open_hash ht d Hc Hn Htw) as Hw. unfold wp in Hw.
  destruct (tee_fs_htree_open _ _ _ d) as [[ht'|e|] d']; [| |done].
  - destruct Hw as [Hd ->]. split; [|by apply same_same_file].
    exists (d_nodes d'), ht, F, F. split; [|split_and!; try done; try lia].
    + exists ht. split; [done|]. split; [|split; [apply Hd|done]].
      apply sess_open; [by eapply committed_same|by eapply repr_same].
    + by rewrite (same_nodes _ _ Hd).
  - destruct Hw as [Hd Hf]. split; [done|by apply same_same_file].
Qed.

Lemma wp_fd_create u o d :
  is_Some (d_nodes d !! (1, false)) →
  wp (fd_open true None u)
    (λ _ s', ∃ ht, fst s' = Some ht ∧ file_open (fault d) u (root_hash ht) 1 [] [] s')
    (λ e _, fault d e) (o, d).
Proof.
  intros Hn. unfold wp, fd_open. pose proof (wp_create_tree BS None u d) as Hw. unfold wp in Hw.
  destruct (tee_fs_htree_open true None u d) as [[ht|e|] d']; [|done|done].
  destruct Hw as (Hc & Hr & Hu & Hcnt & Hf & Hk). exists ht. split; [done|].
  assert (file_ok (File 0 [])) as Hok by (by constructor).
  exists (d_nodes d'), ht, (File 0 []), (File 0 []). split; [|split_and!; try done; try lia; by apply Hk].
  exists ht. split; [done|]. split; [|done]. apply sess_open; [|done]. by eapply committed_any.
Qed.

Lemma wp_fd_write er u h c l0 l s pos buf :
  file_open er u h c l0 l s → 0 <= pos → pos + Z.of_nat (List.length buf) < 2 ^ 31 →
  wp (ree_fs_write_primitive pos buf)
    (λ _ s', file_open er u h c l0 (write_bytes l pos buf) s')
    (λ e s', er e ∧ file_is u h c l0 (snd s')) s.
Proof.
  intros (N & ht0 & F0 & F & Hh & Hn & Hok0 & Hok & <- & <- & <- & <- & Hcnt) Hp Hm.
  eapply wp_mono; [apply (@wp_ree_fs_write _ _ (htree_store_laws any_head N ht0 F0) er s F pos buf Hh Hok Hp Hm)| |].
  - intros [] s' (F' & Hh' & Hok' & Hb). rewrite <- Hb. exists N, ht0, F0, F'. split_and!; done || lia.
  - intros e s' [? ?]. split; [done|]. by apply (fd_lost_file (N := N)).
Qed.

Lemma wp_fd_grow er u h c l0 l s len :
  file_open er u h c l0 l s → Z.of_nat (List.length l) < len < 2 ^ 31 →
  wp (ree_fs_ftruncate_internal len)
    (λ _ s', file_open er u h c l0 (l ++ replicate (Z.to_nat len - List.length l) 0) s')
    (λ e s', er e ∧ file_is u h c l0 (snd s')) s.
Proof.
  intros (N & ht0 & F0 & F & Hh & Hn & Hok0 & Hok & <- & <- & <- & <- & Hcnt) Hm.
  pose proof (length_f_bytes F Hok) as Hlf. pose proof (fo_length _ Hok) as Hl.
  assert (f_length F < len < 2 ^ 31) as Hlt by lia.
  eapply wp_mono; [apply (@wp_ftruncate_grow _ _ (htree_store_laws any_head N ht0 F0) er s F len Hh Hok Hlt)| |].
  - intros [] s' (F' & Hh' & Hok' & _ & Hb).
    replace (Z.to_nat (len - f_length F)) with (Z.to_nat len - List.length (f_bytes F))%nat in Hb by lia.
    rewrite <- Hb. exists N, ht0, F0, F'. split_and!; done || lia.
  - intros e s' [? ?]. split; [done|]. by apply (fd_lost_file (N := N)).
Qed.

Lemma wp_fd_read er u h c l0 l s pos len :
  file_open er u h c l0 l s → 0 <= pos → 0 <= len → pos + len < 2 ^ 64 →
  wp (ree_fs_read_primitive pos len)
    (λ r s', r = take (Z.to_nat len) (drop (Z.to_nat pos) l) ∧ file_open er u h c l0 l s')
    (λ e s', er e ∧ file_is u h c l0 (snd s')) s.
Proof.
  intros (N & ht0 & F0 & F & Hh & Hn & Hok0 & Hok & <- & <- & <- & <- & Hcnt) Hp Hl Hm.
  eapply wp_mono; [apply (@wp_ree_fs_read _ _ (htree_store_laws any_head N ht0 F0) er s F pos len Hh Hok Hp Hl Hm)| |].
  - intros r s' [-> Hh']. split; [done|]. exists N, ht0, F0, F. split_and!; done || lia.
  - intros e s' [? [Hh'|[_ ?]]]; (split; [done|]).
    + apply fd_lost_holds in Hh'. by apply (fd_lost_file (N := N)).
    + by apply (fd_lost_file (N := N)).
Qed.

(** The file keeps the version with the old hash, too. *)
Lemma wp_fd_sync er u h c l0 l s :
  file_open er u h c l0 l s → c < UINT32_MAX →
  wp fd_sync
    (λ r s', match r with
             | Some h' => file_open er u h' (c + 1) l l s' ∧ file_is u h c l0 (snd s')
             | None => l = l0 ∧ file_open er u h c l l s'
             end)
    (λ e s', er e ∧ file_is u h c l0 (snd s')) s.
Proof.
  destruct s as [o d].
  intros (N & ht0 & F0 & F & (ht & Ho & Hse & Hf & HN) & Hn & Hok0 & Hok & <- & <- & <- & <- & Hcnt) Hlt.
  simpl in *. subst o N. pose proof (se_head _ _ _ _ _ _ Hse) as Eh. pose proof (se_uuid _ _ _ _ _ _ Hse) as Eu.
  pose proof (wp_sync_by BS ht0 F0 ht F d Hse ltac:(rewrite Eh; lia)) as Hw.
  unfold wp, fd_sync in *.
  destruct (tee_fs_htree_sync_to_storage (Some ht) d) as [[[ht' hh]|e|] d']; [| |done].
  - destruct Hw as [Hf' Hw]. cbn [fst snd] in Hw. destruct (dirty ht) eqn:Ed.
    + destruct Hw as (-> & [Hc Hu] & Hc0 & Hr0 & Hcm & Hr & Hk). split.
      * exists (d_nodes d'), ht', F, F. split; [|rewrite Eh in Hc; split_and!; first [by apply Hk|done|congruence|lia]].
        exists ht'. split; [done|]. split; [apply sess_open; [by eapply committed_any|done]|]. split; [|done].
        intros e He. by apply Hf, Hf'.
      * split; [by apply Hk|]. exists ht0, F0. split_and!; done || lia.
    + destruct Hw as ([= -> ->] & -> & -> & Hc & Hr & Hnn). split; [done|].
      exists (d_nodes d'), ht0, F0, F0. split; [|split_and!; try done; try lia; by rewrite Hnn].
      exists ht0. split; [done|]. split; [by apply sess_open|]. split; [|done]. intros e He. by apply Hf, Hf'.
  - destruct Hw as [Hfe Hor]. split; [by apply Hf|]. cbn [snd].
    assert (committed_by any_head ht0 d' ∧ repr BS ht0 d' F0 ∧ (∀ k, is_Some (d_nodes d !! k) → is_Some (d_nodes d' !! k)))
      as (? & ? & Hk).
    { destruct Hor as [Hor|(ht' & _ & Hc0 & Hr0 & _ & _ & Hk)]; done. }
    split; [by apply Hk|]. exists ht0, F0. split_and!; done || lia.
Qed.

Lemma file_is_hash u h c l d :
  (∀ x, List.length (sha256 x) = TEE_FS_HTREE_HASH_SIZE) → file_is u h c l d →
  List.length h = TEE_FS_HTREE_HASH_SIZE.
Proof.
  intros Hsha (_ & ht & F & Hc & _ & _ & _ & _ & <- & _). destruct (committed_root ht d Hc) as [r Hr].
  unfold root_hash, child_hash. rewrite Hr, (settled_valid _ _ _ _ _ (cm_settled _ _ Hc 1 r Hr)). apply Hsha.
Qed.
End with_crypto.
