(* ===== verification/ReeVol.v ===== *)
(** * core/tee/tee_ree_fs.c: the file of the directory within the volume

    The operations the directory makes on its file act on the volume ([vol_dirf_ops]);
    they keep the laws of [ByteFile] and change nothing but that file. With this the
    theorems about the directory hold of the volume. *)
From S2P Require Import Prelude BlockFile ByteFile Htree HtreeTree HtreeProofs ReeFs HtreeStore.
From S2P Require Import Uuid Bitstring Dirfile DirfileProofs DirfileSpec DirfileMap ReeDirf ReeObj ReeFile.

Local Open Scope Z_scope.

(** One of the coming calls fails with [e]. *)
Definition vfault (v : vol) (e : tee_result) : Prop := ∃ b, Some (b, e) ∈ v_faults v.

Section with_crypto.
Context `{CryptoLaws}.
Context (junk : nat → list Z).
Context (junk_ok : ∀ n, List.length (junk n) = n ∧ Forall (λ x, 0 <= x < 256) (junk n)).

Context (cmax : Z) (cmax_ok : cmax <= UINT32_MAX).

(** ** Calls *)

Lemma wp_modify f (Q : unit → vol → Prop) (R : tee_result → vol → Prop) v : Q tt (f v) → wp (modify f) Q R v.
Proof. done. Qed.

(** [v'] is [v] but for the calls to come. *)
Definition vsame (v v' : vol) : Prop :=
  (∃ f, v' = set_env v (v_rng v) f) ∧ ∀ e, vfault v' e → vfault v e.

Lemma vsame_refl v : vsame v v.
Proof. split; [|done]. exists (v_faults v). by destruct v. Qed.

Lemma vsame_tail v x f : v_faults v = x :: f → vsame v (set_env v (v_rng v) f).
Proof.
  intros E. split; [by exists f|]. intros e [b Hb]. exists b. rewrite E. by apply elem_of_cons; right.
Qed.

Lemma vsame_trans v v' v'' : vsame v v' → vsame v' v'' → vsame v v''.
Proof. intros [[f ->] H1] [[f' ->] H2]. split; [by exists f'|]. intros e He. by apply H1, H2. Qed.

Lemma wp_vext_write w v :
  wp (vext_write w) (λ _ v', ∃ v1, vsame v v1 ∧ v' = w v1)
    (λ e v', vfault v e ∧ ∃ v1, vsame v v1 ∧ (v' = v1 ∨ v' = w v1)) v.
Proof.
  unfold wp, vext_write. destruct (v_faults v) as [|[[b e]|] f] eqn:E.
  - exists v. split; [apply vsame_refl|done].
  - split; [exists b; rewrite E; by left|]. exists (set_env v (v_rng v) f).
    split; [by eapply vsame_tail|]. destruct b; auto.
  - exists (set_env v (v_rng v) f). split; [by eapply vsame_tail|done].
Qed.

Lemma wp_vext v : wp vext (λ _ v', vsame v v') (λ e v', vfault v e ∧ vsame v v') v.
Proof.
  unfold wp, vext. destruct (v_faults v) as [|[[b e]|] f] eqn:E.
  - apply vsame_refl.
  - split; [exists b; rewrite E; by left|by eapply vsame_tail].
  - by eapply vsame_tail.
Qed.

Lemma same_file_plug v v' d : same_file (plug v d) (plug v' d).
Proof. by split_and!. Qed.

Lemma plug_unplug v ino d : plug (unplug v ino d) d = d.
Proof. by destruct d. Qed.

(** A computation on a file changes that file and the calls to come. *)
Lemma wp_on_dir {A} (m : M fd tee_result A) Q R v o ino f d :
  dirh_fh v = Some (Fd o ino f) → inodes v !! ino = Some d → wp m Q R (o, plug v d) →
  wp (on_dir m)
    (λ a v', ∃ o' d', Q a (o', d') ∧ v' = set_dirh_fh (unplug v ino d') (Some (Fd o' ino f)))
    (λ e v', ∃ o' d', R e (o', d') ∧ v' = set_dirh_fh (unplug v ino d') (Some (Fd o' ino f))) v.
Proof.
  intros Hf Hd Hw. unfold wp, on_dir, on_inode, mget, mbind, M_bind in *. rewrite Hf. cbn [f_ino f_ht f_dfh].
  rewrite Hd. destruct (m (o, plug v d)) as [[a|e|] [o' d']]; cbn; eauto.
Qed.

Lemma wp_on_fh {A} fh (m : M fd tee_result A) Q R v o ino f d :
  fds v !! fh = Some (Fd o ino f) → inodes v !! ino = Some d → wp m Q R (o, plug v d) →
  wp (on_fh fh m)
    (λ a v', ∃ o' d', Q a (o', d') ∧ v' = set_fds (unplug v ino d') (<[fh := Fd o' ino f]> (fds v)))
    (λ e v', ∃ o' d', R e (o', d') ∧ v' = set_fds (unplug v ino d') (<[fh := Fd o' ino f]> (fds v))) v.
Proof.
  intros Hf Hd Hw. unfold wp, on_fh, on_inode, mget, mbind, M_bind in *. rewrite Hf. cbn [f_ino f_ht f_dfh].
  rewrite Hd. destruct (m (o, plug v d)) as [[a|e|] [o' d']]; cbn; eauto.
Qed.

(** The directory is opened without a hash. *)
Lemma wp_fd_open_newest u c n p o d :
  holds_bytes u c p d → c + Z.of_nat n <= cmax →
  wp (fd_open false None u) (λ _ s', ree_holds u cmax (fault d) n s' p p)
    (λ e s', fault d e ∧ same_file d (snd s')) (o, d).
Proof.
  intros (F & (ht0 & <- & Hcnt & Hc & Hr) & Hok & <-) Hn. unfold wp, fd_open.
  pose proof (wp_open ht0 d Hc) as Hw. unfold wp in Hw.
  destruct (tee_fs_htree_open _ _ _ d) as [[ht'|e|] d']; [| |done].
  - destruct Hw as [Hd ->]. exists (d_nodes d'), ht0, F, F. split; [|split_and!; done || lia].
    exists ht0. split; [done|]. split; [|split; [apply Hd|done]].
    apply sess_open; [by eapply committed_same|by eapply repr_same].
  - destruct Hw as [Hd Hf]. split; [done|by apply same_same_file].
Qed.

(** Opening a tree. *)
Lemma wp_open_tree create h u ino d (Q : tee_fs_htree → vol → Prop) R v :
  inodes v !! ino = Some d →
  wp (fd_open create h u)
    (λ _ s', ∃ ht, fst s' = Some ht ∧ Q ht (unplug v ino (snd s'))) (λ e s', R e (unplug v ino (snd s'))) (None, plug v d) →
  wp (open_tree create h u ino) Q R v.
Proof.
  intros Hd Hw. unfold open_tree, on_inode, of_outcome. unfold wp, mbind, M_bind in *. rewrite Hd.
  destruct (fd_open create h u (None, plug v d)) as [[[]|e|] [o d']]; [|done|done].
  cbn in *. destruct Hw as (ht & -> & Hq). done.
Qed.

(** ** The laws *)

(** What the directory's file [ino] is not part of. *)
Definition outside (ino : nat) (v : vol) :=
  (ree_fs_dirh v, ree_fs_dirh_refcount v, fds v, names v, delete ino (inodes v), next v).
Abbreviation outer := (option (nat * tee_fs_dirfile_dirh) * Z * gmap nat tee_fs_fd * gmap (option Z) nat
                       * gmap nat dev * nat)%type.

Definition vholds (ino : nat) (O : outer) (er : tee_result → Prop) (k : nat) (v : vol) (p l : list Z) : Prop :=
  ∃ o f d, dirh_fh v = Some (Fd o ino f) ∧ inodes v !! ino = Some d ∧ ree_holds [] cmax er k (o, plug v d) p l
    ∧ outside ino v = O.

(** The file on storage. *)
Definition vlost (ino : nat) (O : outer) (v : vol) (p : list Z) : Prop :=
  ∃ d, inodes v !! ino = Some d ∧ ree_lost [] cmax (None, d) p ∧ outside ino v = O.

Definition vclosed (ino : nat) (O : outer) (v : vol) (p : list Z) : Prop :=
  ∃ f d, dirh_fh v = Some (Fd None ino f) ∧ inodes v !! ino = Some d ∧ ree_lost [] cmax (None, d) p
    ∧ outside ino v = O.

Lemma ree_lost_file o o' d d' p : ree_lost [] cmax (o, d) p → same_file d d' → ree_lost [] cmax (o', d') p.
Proof. intros (c & Hc & Hb) Hd. exists c. split; [done|]. by eapply holds_bytes_file. Qed.

Lemma ree_holds_file er er' k o d d' p l :
  ree_holds [] cmax er k (o, d) p l → same_file d d' → (∀ e, fault d' e → er' e) → ree_holds [] cmax er' k (o, d') p l.
Proof.
  intros (N & ht0 & F0 & F & Hh & Hrest) Hd Hf. exists N, ht0, F0, F. split; [|done]. by eapply fd_holds_file.
Qed.

Lemma vlost_holds ino O er k v p l : vholds ino O er k v p l → vlost ino O v p.
Proof.
  intros (o & f & d & Hf & Hd & Hh & HO). exists d. split_and!; [done| |done].
  apply ree_holds_bytes in Hh. eapply ree_lost_file; [done|by split_and!].
Qed.

Lemma vlost_closed ino O v p : vclosed ino O v p → vlost ino O v p.
Proof. intros (f & d & _ & Hr). by exists d. Qed.

(** After a computation on the file. *)
Lemma outside_on ino v f d' : outside ino (set_dirh_fh (unplug v ino d') f) = outside ino v.
Proof. unfold outside. cbn. by rewrite delete_insert_eq. Qed.

Lemma vholds_on ino O er k v o f d' p l :
  ree_holds [] cmax er k (o, d') p l → outside ino v = O →
  vholds ino O er k (set_dirh_fh (unplug v ino d') (Some (Fd o ino f))) p l.
Proof.
  intros Hh HO. exists o, f, d'. split; [done|]. split; [apply lookup_insert_eq|]. split; [|by rewrite outside_on].
  change (plug _ d') with (plug (unplug v ino d') d'). by rewrite plug_unplug.
Qed.

Lemma vlost_on ino O v o f d' p :
  ree_lost [] cmax (o, d') p → outside ino v = O → vlost ino O (set_dirh_fh (unplug v ino d') (Some (Fd o ino f))) p.
Proof.
  intros Hl HO. exists d'. split; [apply lookup_insert_eq|]. split; [|by rewrite outside_on].
  by eapply ree_lost_file.
Qed.

(** The directory's file does not notice what happens elsewhere. *)
Lemma vholds_frame ino O er er' k v v' p l :
  vholds ino O er k v p l → dirh_fh v' = dirh_fh v → inodes v' !! ino = inodes v !! ino →
  (∀ e, vfault v' e → er' e) → vholds ino (outside ino v') er' k v' p l.
Proof.
  intros (o & f & d & Hf & Hd & Hh & _) Ef Ed Hv. exists o, f, d. rewrite Ef, Ed. split; [done|]. split; [done|]. split; [|done].
  eapply ree_holds_file; [done|apply same_file_plug|done].
Qed.

Lemma vlost_frame ino O v v' p :
  vlost ino O v p → inodes v' !! ino = inodes v !! ino → vlost ino (outside ino v') v' p.
Proof. intros (d & Hd & Hh & _) Ed. exists d. by rewrite Ed. Qed.

#[local] Existing Instance ree_dirf_laws.

Definition vol_laws (ino : nat) (O : outer) : @ByteFileLaws vol (vol_dirf_ops junk).
Proof.
  pose (laws := ree_dirf_laws [] junk junk_ok cmax cmax_ok).
  refine {| bf_holds := vholds ino O; bf_lost := vlost ino O; bf_closed := vclosed ino O |}.
  - intros v p. apply vlost_closed.
  - intros er k v p l. apply vlost_holds.
  - intros v p pos len (f & d & Hf & Hd & Hl & HO).
    exists (set_dirh_fh (unplug v ino (plug v d)) (Some (Fd None ino f))). split.
    + cbn [fop_read vol_dirf_ops]. unfold on_dir, on_inode, mget, mbind, M_bind. rewrite Hf. cbn [f_ino f_ht f_dfh].
      by rewrite Hd.
    + apply vlost_on; [eapply ree_lost_file; [exact Hl|by split_and!]|done].
  - intros er k v p l pos len (o & f & d & Hf & Hd & Hh & HO) Hp Hl Hm. cbn [fop_read vol_dirf_ops].
    eapply wp_mono; [eapply wp_on_dir; [done|done|by apply (fop_read_law (ByteFileLaws := laws) er k (o, plug v d) p l)]| |].
    + intros r v' (o' & d' & [-> Hh'] & ->). split; [done|]. by apply vholds_on.
    + intros e v' (o' & d' & [He [Hh'|[Ho Hl']]] & ->); (split; [done|]).
      * left. by apply vholds_on.
      * right. cbn in Ho. subst o'. exists f, d'. split; [done|]. split; [apply lookup_insert_eq|]. by rewrite outside_on.
  - intros er k v p l pos buf (o & f & d & Hf & Hd & Hh & HO) Hp Hm. cbn [fop_write vol_dirf_ops].
    eapply wp_mono; [eapply wp_on_dir; [done|done|by apply (fop_write_law (ByteFileLaws := laws) er k (o, plug v d) p l)]| |].
    + intros [] v' (o' & d' & Hh' & ->). by apply vholds_on.
    + intros e v' (o' & d' & [He Hl'] & ->). split; [done|]. by apply vlost_on.
  - intros er k v p l (o & f & d & Hf & Hd & Hh & HO). cbn [fop_commit_writes vol_dirf_ops].
    eapply wp_mono; [eapply wp_on_dir; [done|done|by apply (fop_commit_law (ByteFileLaws := laws) er k (o, plug v d) p l)]| |].
    + intros r v' (o' & d' & Hh' & ->). by apply vholds_on.
    + intros e v' (o' & d' & [He [Hl'|Hl']] & ->); (split; [done|]); [left|right]; by apply vlost_on.
  - intros er k v p l n Hh. cbn [fop_realloc vol_dirf_ops]. apply wp_bind.
    assert (∀ v', vsame v v' → vholds ino O er k v' p l) as Hs.
    { intros v' [[f ->] Hf]. pose proof Hh as (o & f0 & d & H1 & H2 & H3 & HO). rewrite <- HO.
      change (outside ino v) with (outside ino (set_env v (v_rng v) f)). eapply vholds_frame; [exact Hh|done|done|].
      intros e He. destruct H3 as (N & ht0 & F0 & F & (ht & _ & _ & Hf' & _) & _). by apply Hf', Hf. }
    eapply wp_mono; [apply wp_vext| |].
    + intros [] v' Hv. apply wp_ret. split; [apply junk_ok|]. split; [apply junk_ok|by apply Hs].
    + intros e v' [He Hv]. pose proof Hh as (o & f0 & d & H1 & H2 & (N & ht0 & F0 & F & (ht & _ & _ & Hf' & _) & _) & HO).
      split; [by apply Hf'|]. by eapply vlost_holds, Hs.
Defined.
End with_crypto.
