(* ===== verification/ReeVolProofs.v ===== *)
(** * core/tee/tee_ree_fs.c: a volume stands for its objects

    What the files in normal world have to be for the volume to hold given objects,
    and the directory opened, used, committed and closed on such a volume. The
    operations on objects are in ReeObjProofs.v. *)
From S2P Require Import Prelude BlockFile ByteFile Htree HtreeTree HtreeProofs ReeFs HtreeStore.
From S2P Require Import Uuid Bitstring Dirfile DirfileProofs DirfileSpec DirfileMap DirfileRename ReeDirf ReeObj ReeFile ReeVol.

Local Open Scope Z_scope.

Definition po_key (po : pobj) : dir_key := key_for (po_uuid po) (po_id po).

(** Nothing is open. *)
Definition idle (v : vol) : Prop :=
  ree_fs_dirh v = None ∧ ree_fs_dirh_refcount v = 0 ∧ dirh_fh v = None ∧ fds v = ∅.

Section with_crypto.
Context `{CryptoLaws}.
Context (fuel : nat) (junk : nat → list Z).
Context (junk_ok : ∀ n, List.length (junk n) = n ∧ Forall (λ x, 0 <= x < 256) (junk n)).

(** ** What is in normal world *)

(** No two names refer to one file. *)
Record names_ok (v : vol) : Prop := {
  no_inj a b i : names v !! a = Some i → names v !! b = Some i → a = b;
  no_next a i : names v !! a = Some i → (i < next v)%nat;
}.

Definition object_is (c : Z) (v : vol) (key : dir_key) (x : Z * list Z) (l : list Z) : Prop :=
  ∃ ino d, names v !! Some x.1 = Some ino ∧ inodes v !! ino = Some d ∧ file_is key.1 x.2 c l d.

(** The objects of a directory that stands for [m], with their counters at most [c]. *)
Definition files_are (c : Z) (v : vol) (m : gmap dir_key (Z * list Z)) (O : gmap dir_key (list Z)) : Prop :=
  ∀ key, match m !! key, O !! key with
         | Some x, Some l => object_is c v key x l
         | None, None => True
         | _, _ => False
         end.

(** Without the directory, which is the file [ino]. *)
Record disk (c : Z) (ino : nat) (v : vol) (m : gmap dir_key (Z * list Z)) (O : gmap dir_key (list Z)) : Prop := {
  dk_names : names_ok v;
  dk_dir : names v !! None = Some ino;
  dk_numbers key key' x x' : m !! key = Some x → m !! key' = Some x' → x.1 = x'.1 → key = key';
  dk_files : files_are c v m O;
}.

(** The directory has room for [k] more entries and numbers. *)
Definition room (k : Z) (p : list Z) (m : gmap dir_key (Z * list Z)) : Prop :=
  (∀ key x, m !! key = Some x → x.1 + k < bits_range) ∧
  Z.of_nat (List.length p) + 120 * (k + 1) < 2 ^ 31 ∧ Z.of_nat (List.length p) + 120 * k < Z.of_nat fuel.

(** The volume holds the objects [O]; [k] more changes exhaust no counter. *)
Definition stands (k : Z) (v : vol) (O : gmap dir_key (list Z)) : Prop :=
  ∃ ino d c p m, disk (UINT32_MAX - k) ino v m O ∧ dir_on p m ∧ room k p m
    ∧ inodes v !! ino = Some d ∧ holds_bytes [] c p d ∧ c <= UINT32_MAX - k.

(** The two versions of the root node of no object's file have one hash. *)
Definition no_twins (v : vol) : Prop :=
  ∀ n ino d, names v !! Some n = Some ino → inodes v !! ino = Some d → ¬ twin_roots d.

Lemma files_are_ext c v v' m O :
  files_are c v m O →
  (∀ key x ino d, m !! key = Some x → names v !! Some x.1 = Some ino → inodes v !! ino = Some d →
     names v' !! Some x.1 = Some ino ∧ ∃ d', inodes v' !! ino = Some d' ∧ same_file d d') →
  files_are c v' m O.
Proof.
  intros Hf Hx key. specialize (Hf key). destruct (m !! key) as [x|] eqn:Em, (O !! key) as [l|]; try done.
  destruct Hf as (ino & d & Hn & Hi & Hl). destruct (Hx key x ino d Em Hn Hi) as (Hn' & d' & Hi' & Hd).
  exists ino, d'. split_and!; [done|done|by eapply file_is_file].
Qed.

Lemma disk_ext c ino v v' m O :
  disk c ino v m O → names v' = names v → (next v <= next v')%nat →
  (∀ i, i ≠ ino → inodes v' !! i = inodes v !! i) → disk c ino v' m O.
Proof.
  intros [[H1 H2] H3 H4 H5] En Ex Ei. constructor; [constructor|by rewrite En|done|].
  - intros a b i. rewrite En. apply H1.
  - intros a i. rewrite En. intros Ha. specialize (H2 a i Ha). lia.
  - apply (files_are_ext c v); [done|]. intros key x i d _ Hn Hi. rewrite En. split; [done|]. exists d.
    split; [|by split_and!]. rewrite Ei; [done|]. intros ->. by pose proof (H1 _ _ _ Hn H3).
Qed.

(** What a computation on the directory's file leaves alone. *)
Lemma outside_inv ino v v' :
  outside ino v' = outside ino v →
  ree_fs_dirh v' = ree_fs_dirh v ∧ ree_fs_dirh_refcount v' = ree_fs_dirh_refcount v ∧ fds v' = fds v
  ∧ names v' = names v ∧ next v' = next v ∧ ∀ i, i ≠ ino → inodes v' !! i = inodes v !! i.
Proof.
  unfold outside. intros [= H1 H2 H3 H4 H5 H6]. split_and!; try done. intros i Hi.
  rewrite <- (lookup_delete_ne (inodes v') ino i), <- (lookup_delete_ne (inodes v) ino i) by done. by rewrite H5.
Qed.

Lemma disk_outside c ino v v' m O : disk c ino v m O → outside ino v' = outside ino v → disk c ino v' m O.
Proof. intros Hd (_ & _ & _ & En & Ex & Ei)%outside_inv. eapply disk_ext; try done. lia. Qed.

(** ** The numbers of a directory *)

Lemma dir_map_numbers ents key key' x x' :
  ents_ok ents → dir_map ents !! key = Some x → dir_map ents !! key' = Some x' → x.1 = x'.1 → key = key'.
Proof.
  intros He (i & e & Hi & Hu & <- & <-)%dir_map_lookup (j & e' & Hj & Hu' & <- & <-)%dir_map_lookup Hx; [|done..].
  cbn in Hx. assert (i = j) as -> by (by apply (eo_numbers _ He i j e e')). congruence.
Qed.

(** ** Opening the directory *)

Context (k : Z) (Hk : 0 <= k < UINT32_MAX).
Abbreviation cmax := (UINT32_MAX - k).

Lemma cmax_ok : cmax <= UINT32_MAX.
Proof. lia. Qed.

Abbreviation laws ino O := (vol_laws junk junk_ok cmax cmax_ok ino O).

(** Room for [a] numbers and [j] entries. *)
Definition fits (a j : Z) (dirh : tee_fs_dirfile_dirh) : Prop :=
  nbits dirh + a <= bits_range ∧ 120 * (ndents dirh + j + 1) < 2 ^ 31 ∧ 120 * (ndents dirh + j) < Z.of_nat fuel.

(** The directory is open and has the entries [ents]; its file holds [p] until the
    next commit, of which there can be [n]. *)
Record dopen (er : tee_result → Prop) (n : nat) (ino g : nat) (r : Z) (v : vol) (p : list Z) (dirh : tee_fs_dirfile_dirh)
    (ents : list dirfile_entry) : Prop := {
  dp_dirh : ree_fs_dirh v = Some (g, dirh);
  dp_refcount : ree_fs_dirh_refcount v = r;
  dp_ents : ents_ok ents;
  dp_ok : dirh_ok dirh ents;
  dp_holds : vholds cmax ino (outside ino v) er n v p (dir_bytes ents);
}.

Lemma fits_room j dirh ents :
  ents_ok ents → dirh_ok dirh ents → fits j j dirh → room j (dir_bytes ents) (dir_map ents).
Proof.
  intros He Hd (Hb & Hn & Hf). rewrite (do_count _ _ Hd) in Hn, Hf. split; [|rewrite length_dir_bytes by apply He; lia].
  intros key x (i & e & Hi & Hu & _ & <-)%dir_map_lookup; [|done]. cbn.
  pose proof (do_marked _ _ Hd e ltac:(by eapply list_elem_of_lookup_2) Hu) as Ht.
  unfold test_file in Ht. destruct (Z.ltb_spec (file_number e) (nbits dirh)); [lia|done].
Qed.

Lemma vfault_same v v' e : vsame v v' → vfault v' e → vfault v e.
Proof. intros [_ Hf]. apply Hf. Qed.

(** An attempt to open the file of the directory. *)
Lemma wp_vol_open v ino d c p :
  names v !! None = Some ino → inodes v !! ino = Some d → holds_bytes [] c p d → c + 1 <= cmax →
  wp (@fop_realloc _ (vol_dirf_ops junk) 0 ≫= λ _, @fop_open _ (vol_dirf_ops junk) false None)
    (λ _ v', vholds cmax ino (outside ino v) (vfault v) 1 v' p p)
    (λ e v', vfault v e ∧ vlost cmax ino (outside ino v) v' p) v.
Proof.
  intros Hn Hd Hh Hc.
  assert (∀ v', vsame v v' → vlost cmax ino (outside ino v) v' p) as Hlost.
  { intros v' [[f ->] _]. exists d. split; [done|]. split; [|done]. exists c. split; [lia|done]. }
  assert (∀ v1 e v2, vsame v v1 → vfault v1 e ∧ vsame v1 v2 →
    vfault v e ∧ vlost cmax ino (outside ino v) v2 p) as Hfail.
  { intros v1 e v2 H1 [He H2]. split; [by apply H1|]. apply Hlost. by eapply vsame_trans. }
  cbn [fop_realloc fop_open vol_dirf_ops]. apply wp_bind, wp_bind.
  eapply wp_mono; [apply wp_vext| |]; cbv beta; [|intros e v1; apply (Hfail v), vsame_refl].
  intros [] v1 Hv1. apply wp_ret, wp_bind. unfold ree_fs_open_primitive. cbn [fmap option_fmap option_map].
  apply wp_bind. eapply wp_mono; [apply wp_vext| |]; cbv beta; [|intros e v2; by apply Hfail].
  intros [] v2 Hv2. pose proof (vsame_trans _ _ _ Hv1 Hv2) as Hs2.
  apply wp_bind, wp_try, wp_bind. unfold tee_fs_rpc_open_dfh, lookup_name.
  apply wp_bind. eapply wp_mono; [apply wp_vext| |]; cbv beta.
  2: { intros e v3 Hv. apply wp_bind, wp_ret, wp_throw. by apply (Hfail v2). }
  intros [] v3 Hv3. pose proof (vsame_trans _ _ _ Hs2 Hv3) as [[f ->] Hf]. clear Hv1 Hv2 Hv3 v1 v2 Hs2.
  set (v3 := set_env v (v_rng v) f) in *.
  apply wp_bind, wp_get. change (names v3) with (names v). rewrite Hn. apply wp_ret, wp_bind.
  apply (wp_open_tree _ _ _ ino d); [done|].
  eapply wp_mono; [apply (wp_fd_open_newest cmax [] c 1 p); [eapply holds_bytes_file; [done|by split_and!]|lia]| |].
  - intros [] [o d'] Ho. cbn [fst snd].
    destruct Ho as (N & ht0 & F0 & F & (ht & Ho & Hrest) & Hrest2). cbn [fst] in Ho. subst o. exists ht. split; [done|].
    apply wp_ret, wp_ret. change (vholds cmax ino (outside ino v) (vfault v) 1
      (set_dirh_fh (unplug v3 ino d') (Some (Fd (Some ht) ino (Fileh 0 [] (-1))))) p p).
    apply vholds_on; [|done]. exists N, ht0, F0, F. split; [|done]. exists ht. split; [done|].
    split; [apply Hrest|]. split; [|apply Hrest]. intros e He. by apply Hf, Hrest.
  - intros e s' [He Hsf]. apply wp_bind, wp_ret, wp_throw. split; [by apply Hf|].
    exists (snd s'). split; [apply lookup_insert_eq|]. split.
    + exists c. split; [lia|]. eapply holds_bytes_file; [done|]. etrans; [|exact Hsf]. by split_and!.
    + unfold outside. cbn. by rewrite delete_insert_eq.
Qed.

(** ** get_dirh() and put_dirh() *)

Abbreviation c0 := (UINT32_MAX - (k + 1)).

Lemma files_are_le c c' v m O : files_are c v m O → c <= c' → files_are c' v m O.
Proof.
  intros Hf Hc key. specialize (Hf key). destruct (m !! key), (O !! key); try done.
  destruct Hf as (ino & d & ? & ? & Hn & ht & F & ? & ? & ? & ? & ? & ? & ?). exists ino, d.
  split; [done|]. split; [done|]. split; [done|]. exists ht, F. split_and!; done || lia.
Qed.

Lemma disk_le c c' ino v m O : disk c ino v m O → c <= c' → disk c' ino v m O.
Proof. intros [H1 H2 H3 H4] Hc. constructor; try done. by eapply files_are_le. Qed.

Lemma room_le j j' p m : room j p m → j' <= j → room j' p m.
Proof. intros (H1 & H2 & H3) Hj. split; [|lia]. intros key x Hx. specialize (H1 key x Hx). lia. Qed.

(** The directory's file as it is on storage, and the other files. *)
Lemma stands_lost ino v p m O X :
  disk c0 ino v m O → dir_on p m → room k p m → vlost cmax ino X v p → stands k v O.
Proof.
  intros Hd Hp Hr (d & Hi & (c & Hc & Hh) & _). exists ino, d, c, p, m. split_and!; try done.
  eapply disk_le; [done|lia].
Qed.

(** On a volume with nothing open. *)
Lemma wp_get_dirh v O :
  idle v → stands (k + 1) v O → ¬ vfault v TEE_ERROR_ITEM_NOT_FOUND →
  wp (get_dirh fuel junk)
    (λ _ v', ∃ ino g p dirh ents, dopen (vfault v) 1 ino g 1 v' p dirh ents ∧ fits (k + 1) (k + 1) dirh
       ∧ dir_on p (dir_map ents) ∧ room k p (dir_map ents) ∧ disk c0 ino v' (dir_map ents) O
       ∧ fds v' = ∅ ∧ names v' = names v ∧ (∀ i, i ≠ ino → inodes v' !! i = inodes v !! i))
    (λ e v', vfault v e ∧ idle v' ∧ stands k v' O) v.
Proof.
  intros (Hi1 & Hi2 & Hi3 & Hi4) (ino & d & c & p & m & Hdk & (ents & He & -> & <-) & Hroom & Hd & Hh & Hc) Hnf.
  pose proof Hroom as (Hr1 & Hr2 & Hr3). rewrite length_dir_bytes in Hr2, Hr3 by apply He.
  assert (clear_dups [] ents = ents) as Hid by (apply clear_dups_id, numbers_NoDup, He).
  assert (ents_raw ents) as Hraw by (constructor; apply He).
  unfold get_dirh. apply wp_bind, wp_get. rewrite Hi1. apply wp_bind, wp_bind. unfold open_dirh.
  apply wp_bind, wp_try. unfold dirfile_open. apply wp_bind, wp_try.
  eapply wp_mono; [apply (@wp_dirfile_open _ _ (laws ino (outside ino v)) (vfault v) 1 v (dir_bytes ents) ents None fuel); try done; [lia|]| |].
  { apply (wp_vol_open v ino d c); [apply Hdk|done|done|lia]. }
  - rewrite Hid. intros dirh v1 (Hdir & Hnd & Hnb). apply wp_ret, wp_ret.
    destruct Hdir as (ents1 & He1 & Hd1 & Hh1 & Hm1).
    change (vholds cmax ino (outside ino v) (vfault v) 1 v1 (dir_bytes ents) (dir_bytes ents1)) in Hh1.
    pose proof Hh1 as (o & f & d1 & _ & _ & Hf1 & HO).
    apply outside_inv in HO as (E1 & E2 & E3 & E4 & E5 & E6).
    apply wp_modify, wp_bind, wp_get, wp_bind, wp_put, wp_bind, wp_get, wp_assert; [cbn; by rewrite E2, Hi2|].
    exists ino, (next v1), (dir_bytes ents), dirh, ents1. rewrite Hm1. split_and!.
    + constructor; [done|cbn; by rewrite E2, Hi2|done|done|]. eapply vholds_frame; [exact Hh1|done|done|].
      destruct Hf1 as (N & ht0 & F0 & F & (ht & _ & _ & Hf1 & _) & _). apply Hf1.
    + assert (nbits dirh <= bits_range - (k + 1)); [|unfold fits; lia].
      apply Hnb; [unfold bits_range; lia|].
      apply Forall_forall. intros j (e & [i Hi]%list_elem_of_lookup & Hu & <-)%elem_of_numbers.
      specialize (Hr1 (key_of e) (file_number e, d_hash e) (dir_map_entry ents i e He Hi Hu)). cbn in Hr1. lia.
    + by exists ents.
    + eapply room_le; [done|lia].
    + eapply disk_ext; [exact Hdk|exact E4|cbn; lia|exact E6].
    + cbn. by rewrite E3.
    + done.
    + done.
  - intros e v1 [Hf Hl]. change (vlost cmax ino (outside ino v) v1 (dir_bytes ents)) in Hl.
    apply wp_bind, wp_modify, wp_throw. pose proof Hl as (_ & _ & _ & HO).
    pose proof (outside_inv _ _ _ HO) as (E1 & E2 & E3 & _).
    assert (vfault v e ∧ idle (set_dirh_fh v1 None) ∧ stands k (set_dirh_fh v1 None) O) as Hres.
    { split; [done|]. split; [split_and!; cbn; congruence|].
      eapply (stands_lost ino _ (dir_bytes ents)); [|by exists ents| |exact Hl].
      - by apply (disk_outside _ _ v).
      - eapply room_le; [done|lia]. }
    destruct e; try (by apply wp_throw). done.
Qed.

(** ** The directory in use *)

(** Only the directory and its file have changed. *)
Definition quiet (ino : nat) (v v' : vol) : Prop :=
  ree_fs_dirh_refcount v' = ree_fs_dirh_refcount v ∧ fds v' = fds v ∧ names v' = names v ∧ next v' = next v
  ∧ ∀ i, i ≠ ino → inodes v' !! i = inodes v !! i.

Lemma quiet_refl ino v : quiet ino v v.
Proof. by split_and!. Qed.

Lemma quiet_trans ino v v' v'' : quiet ino v v' → quiet ino v' v'' → quiet ino v v''.
Proof.
  intros (A1 & A2 & A3 & A4 & A5) (B1 & B2 & B3 & B4 & B5). split_and!; try congruence.
  intros i Hi. rewrite B5, A5; done.
Qed.

Lemma quiet_outside ino v v' : outside ino v' = outside ino v → quiet ino v v' ∧ ree_fs_dirh v' = ree_fs_dirh v.
Proof. intros (E1 & E2 & E3 & E4 & E5 & E6)%outside_inv. split; [by split_and!|done]. Qed.

Lemma disk_quiet c ino v v' m O : disk c ino v m O → quiet ino v v' → disk c ino v' m O.
Proof. intros Hd (_ & _ & En & Ex & Ei). eapply disk_ext; try done. lia. Qed.

(** The directory as it is on storage. *)
Definition dlost (ino : nat) (v : vol) (p : list Z) : Prop :=
  ∃ d c, inodes v !! ino = Some d ∧ holds_bytes [] c p d ∧ c <= cmax.

Lemma vlost_dlost ino X v p : vlost cmax ino X v p → dlost ino v p.
Proof. intros (d & Hi & (c & Hc & Hh) & _). by exists d, c. Qed.

Lemma dopen_dlost {er n ino g r v p dirh ents} : dopen er n ino g r v p dirh ents → dlost ino v p.
Proof. intros Hd. eapply vlost_dlost, vlost_holds, Hd. Qed.

Lemma stands_dlost ino v p m O : disk c0 ino v m O → dir_on p m → room k p m → dlost ino v p → stands k v O.
Proof.
  intros Hd Hp Hr (d & c & Hi & Hh & Hc). exists ino, d, c, p, m. split_and!; try done. eapply disk_le; [done|lia].
Qed.

(** What becomes of an open directory when something is done to its file, or
    elsewhere. *)
Lemma dopen_step {er n n' ino g r v v' p p' dirh ents d ents'} :
  dopen er n ino g r v p dirh ents → vholds cmax ino (outside ino v) er n' v' p' (dir_bytes ents') →
  ents_ok ents' → dirh_ok d ents' →
  quiet ino v v' ∧ dopen er n' ino g r (set_dirh v' (Some (g, d))) p' d ents'.
Proof.
  intros [H1 H2 H3 H4 H5] Hh He Hd. pose proof Hh as (o & f & dv & _ & _ & Hr & HO).
  destruct (quiet_outside _ _ _ HO) as [Hq Ed]. split; [done|].
  constructor; [done|destruct Hq as (Er & _); cbn; congruence|done|done|]. eapply vholds_frame; [exact Hh|done|done|].
  destruct Hr as (N & ht0 & F0 & F & (ht & _ & _ & Hf & _) & _). apply Hf.
Qed.

Lemma set_dirh_same v x : ree_fs_dirh v = x → set_dirh v x = v.
Proof. intros <-. by destruct v. Qed.

Lemma dopen_same {er n n' ino g r v v' p p' dirh ents} :
  dopen er n ino g r v p dirh ents → vholds cmax ino (outside ino v) er n' v' p' (dir_bytes ents) →
  quiet ino v v' ∧ dopen er n' ino g r v' p' dirh ents.
Proof.
  intros Hd Hh. destruct (dopen_step Hd Hh (dp_ents _ _ _ _ _ _ _ _ _ Hd) (dp_ok _ _ _ _ _ _ _ _ _ Hd)) as [Hq Hd'].
  split; [done|]. pose proof Hh as (_ & _ & _ & _ & _ & _ & HO).
  destruct (quiet_outside _ _ _ HO) as [_ Ed]. rewrite (dp_dirh _ _ _ _ _ _ _ _ _ Hd) in Ed.
  by rewrite set_dirh_same in Hd'.
Qed.

Lemma dopen_frame {er n ino g r v v' p dirh ents} r' :
  dopen er n ino g r v p dirh ents → ree_fs_dirh v' = ree_fs_dirh v → ree_fs_dirh_refcount v' = r' →
  dirh_fh v' = dirh_fh v → inodes v' !! ino = inodes v !! ino → (∀ e, vfault v' e → er e) →
  dopen er n ino g r' v' p dirh ents.
Proof.
  intros [H1 H2 H3 H4 H5] E1 E2 E3 E4 Hf. constructor; [congruence|done|done|done|]. by eapply vholds_frame.
Qed.

Lemma dopen_faults {er n ino g r v p dirh ents e} : dopen er n ino g r v p dirh ents → vfault v e → er e.
Proof. intros [_ _ _ _ (o & f & d & _ & _ & (N & ht0 & F0 & F & (ht & _ & _ & Hf & _) & _) & _)]. apply Hf. Qed.

Lemma wp_use {A} (m : tee_fs_dirfile_dirh → V A) g dirh Q R v :
  ree_fs_dirh v = Some (g, dirh) → wp (m dirh) Q R v → wp (use_dirh m) Q R v.
Proof. intros Hd Hm. apply wp_bind, wp_get. by rewrite Hd. Qed.

Lemma wp_upd {A} (m : tee_fs_dirfile_dirh → V (tee_fs_dirfile_dirh * A)) g dirh Q R v :
  ree_fs_dirh v = Some (g, dirh) → wp (m dirh) (λ '(d, a) v', Q a (set_dirh v' (Some (g, d)))) R v →
  wp (upd_dirh m) Q R v.
Proof.
  intros Hd Hm. apply wp_bind, wp_get. rewrite Hd. apply wp_bind. eapply wp_mono; [exact Hm| |done].
  intros [d a] v' Hq. by apply wp_bind, wp_modify, wp_ret.
Qed.

Lemma fits_fuel a j dirh ents : fits a j dirh → dirh_ok dirh ents → 0 <= j → ndents dirh < Z.of_nat fuel.
Proof. intros (_ & _ & Hf) Hd Hj. rewrite (do_count _ _ Hd) in *. lia. Qed.

Lemma wp_dirh_find er n ino g r v p dirh ents po a j :
  dopen er n ino g r v p dirh ents → ¬ er TEE_ERROR_ITEM_NOT_FOUND → po_id po ≠ [] → fits a j dirh → 0 <= j →
  wp (dirh_find fuel junk po)
    (λ dfh v', quiet ino v v' ∧ dopen er n ino g r v' p dirh ents
       ∧ ∃ e, refers dfh ents e ∧ key_of e = po_key po ∧ d_hash e = dfh_hash dfh)
    (λ e v', quiet ino v v' ∧ ree_fs_dirh v' = Some (g, dirh) ∧
       (e = TEE_ERROR_ITEM_NOT_FOUND ∧ dopen er n ino g r v' p dirh ents ∧ dir_map ents !! po_key po = None
        ∨ er e ∧ (dopen er n ino g r v' p dirh ents ∨ vclosed cmax ino (outside ino v') v' p))) v.
Proof.
  intros Hd Hnf Hid Hfit Hj. pose proof Hd as [H1 H2 H3 H4 H5].
  eapply wp_use; [done|].
  eapply wp_mono; [apply (@wp_find_entry_err _ _ (laws ino (outside ino v)) er n v p ents dirh (po_uuid po) (po_id po) fuel);
    try done; by eapply fits_fuel| |].
  - intros dfh v' (e & Href & Hke & Hhe & Hh). destruct (dopen_same Hd Hh) as [Hq Hd']. eauto 6.
  - intros e v' [(-> & Hh & Hno)|[He [Hh|Hc]]].
    + destruct (dopen_same Hd Hh) as [Hq Hd']. split; [done|]. split; [apply Hd'|]. left. split; [done|]. split; [done|].
      by apply dir_map_None.
    + destruct (dopen_same Hd Hh) as [Hq Hd']. split; [done|]. split; [apply Hd'|]. auto.
    + pose proof Hc as (f & dv & Hf & Hi & Hl & HO). destruct (quiet_outside _ _ _ HO) as [Hq Ed].
      split; [done|]. split; [congruence|]. right. split; [done|]. right. by exists f, dv.
Qed.

(** A directory whose file is closed stops the core. *)
Lemma dirfile_find_closed ino g v p dirh uuid id Q R (P : vol → Prop) :
  ree_fs_dirh v = Some (g, dirh) → vclosed cmax ino (outside ino v) v p →
  (∀ v', quiet ino v v' → dlost ino v' p → P v') →
  wpp (@tee_fs_dirfile_find _ (vol_dirf_ops junk) fuel dirh uuid id) Q R P v.
Proof.
  intros Hd Hc HP. destruct (@fop_read_closed _ _ (laws ino (outside ino v)) v p (wrap 64 (sizeof_dent * 0)) sizeof_dent Hc)
    as (v' & Hr & Hl). change (vlost cmax ino (outside ino v) v' p) in Hl.
  assert (P v ∧ P v') as [HPv HPv'].
  { split; apply HP.
    - apply quiet_refl.
    - apply vlost_closed in Hc. by eapply vlost_dlost.
    - pose proof Hl as (_ & _ & _ & HO). by apply quiet_outside in HO as [].
    - by eapply vlost_dlost. }
  unfold wpp, tee_fs_dirfile_find, mbind, M_bind.
  destruct fuel as [|fu]; [done|]. cbn [find_loop]. unfold mtry, read_dent, mbind, M_bind. cbn [fop_read vol_dirf_ops].
  cbn [fop_read vol_dirf_ops] in Hr. by rewrite Hr.
Qed.

Lemma find_closed ino g v p dirh po Q R (P : vol → Prop) :
  ree_fs_dirh v = Some (g, dirh) → vclosed cmax ino (outside ino v) v p →
  (∀ v', quiet ino v v' → dlost ino v' p → P v') → wpp (dirh_find fuel junk po) Q R P v.
Proof.
  intros Hd Hc HP. unfold dirh_find, use_dirh. unfold wpp at 1, mget, mbind, M_bind. rewrite Hd.
  by apply (dirfile_find_closed ino g v p dirh (po_uuid po) (po_id po) Q R P).
Qed.

Lemma rename_closed ino g v p dirh po dfh Q R (P : vol → Prop) :
  ree_fs_dirh v = Some (g, dirh) → vclosed cmax ino (outside ino v) v p →
  (∀ v', quiet ino v v' → dlost ino v' p → P v') → dfh_idx dfh < 0 → 0 < Z.of_nat (List.length (po_id po)) <= 64 →
  wpp (dirh_rename fuel junk po dfh) Q R P v.
Proof.
  intros Hd Hc HP Hidx Hl. unfold dirh_rename, upd_dirh. apply wpp_bind. unfold wpp at 1, mget. rewrite Hd.
  apply wpp_bind. unfold tee_fs_dirfile_rename.
  rewrite (proj2 (Z.eqb_neq _ 0)), (proj2 (Z.ltb_ge TEE_OBJECT_ID_MAX_LEN _)) by (unfold TEE_OBJECT_ID_MAX_LEN; lia).
  cbn [orb]. rewrite (proj2 (Z.ltb_lt _ 0)) by done. cbv zeta. apply wpp_bind, wpp_bind, wpp_try.
  by apply (dirfile_find_closed ino g v p dirh).
Qed.

(** A call failed: the directory is not used any more. *)
Definition busted (ino : nat) (v v' : vol) (p : list Z) : Prop :=
  quiet ino v v' ∧ is_Some (ree_fs_dirh v') ∧ dlost ino v' p.

Lemma busted_lost {er n ino g r v v' p q dirh ents} :
  dopen er n ino g r v p dirh ents → vlost cmax ino (outside ino v) v' q → busted ino v v' q.
Proof.
  intros Hd Hl. pose proof Hl as (_ & _ & _ & HO). apply quiet_outside in HO as [Hq Ed].
  split; [done|]. split; [|by eapply vlost_dlost]. rewrite Ed, (dp_dirh _ _ _ _ _ _ _ _ _ Hd). by eexists.
Qed.

Lemma dopen_busted {er n ino g r v p dirh ents} : dopen er n ino g r v p dirh ents → busted ino v v p.
Proof.
  intros Hd. split; [apply quiet_refl|]. split; [|by eapply dopen_dlost]. rewrite (dp_dirh _ _ _ _ _ _ _ _ _ Hd). by eexists.
Qed.

Lemma busted_quiet ino v v' v'' p : quiet ino v v' → busted ino v' v'' p → busted ino v v'' p.
Proof. intros Hq (Hq' & Hr). split; [by eapply quiet_trans|done]. Qed.

(** What an operation that changes the directory does. *)
Definition changed (er : tee_result → Prop) (n ino g : nat) (r : Z) (v v' : vol) (p : list Z) (m' : gmap dir_key (Z * list Z)) (F : tee_fs_dirfile_dirh → Prop) : Prop :=
  quiet ino v v' ∧ ∃ d ents', dopen er n ino g r v' p d ents' ∧ dir_map ents' = m' ∧ F d.

Lemma changed_step {er n ino g r v v' p dirh ents d ents'} (F : tee_fs_dirfile_dirh → Prop) :
  dopen er n ino g r v p dirh ents → ents_ok ents' → dirh_ok d ents' → 
  vholds cmax ino (outside ino v) er n v' p (dir_bytes ents') → F d →
  changed er n ino g r v (set_dirh v' (Some (g, d))) p (dir_map ents') F.
Proof.
  intros Hd He Hok Hh HF. destruct (dopen_step Hd Hh He Hok) as [Hq Hd']. split; [done|]. by exists d, ents'.
Qed.

Lemma wp_dirh_get_tmp er n ino g r v p dirh ents a j :
  dopen er n ino g r v p dirh ents → fits (a + 1) j dirh → 0 <= a →
  wp (dirh_get_tmp junk)
    (λ i v', 0 <= i < bits_range ∧ (∀ key x, dir_map ents !! key = Some x → x.1 ≠ i)
       ∧ changed er n ino g r v v' p (dir_map ents) (λ d, fits a j d ∧ test_file d i = true))
    (λ e v', er e ∧ busted ino v v' p) v.
Proof.
  intros Hd (Hf1 & Hf2 & Hf3) Ha. pose proof Hd as [H1 H2 H3 H4 H5]. eapply wp_upd; [done|].
  eapply wp_mono; [apply (@wp_get_tmp _ _ (laws ino (outside ino v)) er n v p (dir_map ents) dirh); [by exists ents|lia]| |].
  - intros [d i] v' (Hi & _ & Ht & Hnb & Hnd & Hfresh & (ents' & He' & Hd' & Hh & Hm)). split; [done|]. split; [done|].
    rewrite <- Hm. apply (changed_step _ Hd He' Hd' Hh). unfold fits. rewrite Hnd. split; [lia|done].
  - intros e v' [He Hl]. split; [done|]. by apply (busted_lost Hd).
Qed.

(** The conditions on a name and a file that are entered. *)
Definition entry_ok (po : pobj) (dfh : tee_fs_dirfile_fileh) (dirh : tee_fs_dirfile_dirh)
    (m : gmap dir_key (Z * list Z)) : Prop :=
  uuid_wf (po_uuid po) ∧ 0 < Z.of_nat (List.length (po_id po)) <= 64 ∧ List.length (dfh_hash dfh) = 32%nat
  ∧ 0 <= dfh_file_number dfh < bits_range ∧ test_file dirh (dfh_file_number dfh) = true
  ∧ free_for m (po_key po) (dfh_file_number dfh).

Lemma wp_dirh_rename_new er n ino g r v p dirh ents po dfh a j :
  dopen er n ino g r v p dirh ents → ¬ er TEE_ERROR_ITEM_NOT_FOUND → fits a (j + 1) dirh → 0 <= j →
  entry_ok po dfh dirh (dir_map ents) → dfh_idx dfh < 0 →
  wp (dirh_rename fuel junk po dfh)
    (λ _ v', changed er n ino g r v v' p (<[po_key po := (dfh_file_number dfh, dfh_hash dfh)]> (dir_map ents)) (fits a j))
    (λ e v', er e ∧ busted ino v v' p) v.
Proof.
  intros Hd Hnf Hfit Hj (Hu & Hl & Hlh & Hn & Ht & Hfree) Hidx. pose proof Hd as [H1 H2 H3 H4 H5].
  eapply wp_upd; [done|]. pose proof (fits_fuel _ _ _ _ Hfit H4 ltac:(lia)) as Hfuel. destruct Hfit as (Hf1 & Hf2 & Hf3).
  eapply wp_mono; [apply (@wp_rename_new _ _ (laws ino (outside ino v)) er n v p (dir_map ents) dirh fuel (po_uuid po) (po_id po) dfh);
    try done; [by exists ents|lia]| |].
  - intros [d dfh'] v' (Hnb & Hnd & _ & (ents' & He' & Hd' & Hh & Hm)). fold (po_key po) in Hm. rewrite <- Hm.
    apply (changed_step _ Hd He' Hd' Hh). unfold fits. lia.
  - intros e v' [He Hl']. split; [done|]. by apply (busted_lost Hd).
Qed.

Lemma wp_dirh_rename_own er n ino g r v p dirh ents po dfh old e0 a j :
  dopen er n ino g r v p dirh ents → fits a (j + 1) dirh → entry_ok po dfh dirh (dir_map ents) →
  refers old ents e0 → key_of e0 = po_key po → dfh_idx dfh = dfh_idx old →
  wp (dirh_rename fuel junk po dfh)
    (λ _ v', changed er n ino g r v v' p (<[po_key po := (dfh_file_number dfh, dfh_hash dfh)]> (dir_map ents)) (fits a j))
    (λ e v', er e ∧ busted ino v v' p) v.
Proof.
  intros Hd Hfit (Hu & Hl & Hlh & Hn & Ht & Hfree) (i & Hi & Hli & Hui & Hni) Hk0 Hidx.
  pose proof Hd as [H1 H2 H3 H4 H5]. eapply wp_upd; [done|]. destruct Hfit as (Hf1 & Hf2 & Hf3).
  eapply wp_mono; [apply (@wp_rename_own _ _ (laws ino (outside ino v)) er n v p ents dirh fuel (po_uuid po) (po_id po) dfh i e0);
    try done; congruence| |].
  - intros [d dfh'] v' (Hnb & Hnd & _ & (ents' & He' & Hd' & Hh & Hm)). fold (po_key po) in Hm. rewrite <- Hm.
    apply (changed_step _ Hd He' Hd' Hh). unfold fits. lia.
  - intros e v' [He Hl']. split; [done|]. by apply (busted_lost Hd).
Qed.

Lemma wp_dirh_rename_move er n ino g r v p dirh ents po dfh e0 a j :
  dopen er n ino g r v p dirh ents → fits a j dirh → refers dfh ents e0 → d_hash e0 = dfh_hash dfh →
  uuid_wf (po_uuid po) → 0 < Z.of_nat (List.length (po_id po)) <= 64 → dir_map ents !! po_key po = None →
  wp (dirh_rename fuel junk po dfh)
    (λ _ v', changed er n ino g r v v' p
       (<[po_key po := (dfh_file_number dfh, dfh_hash dfh)]> (delete (key_of e0) (dir_map ents))) (fits a j))
    (λ e v', er e ∧ busted ino v v' p) v.
Proof.
  intros Hd Hfit (i & Hi & Hli & Hui & Hni) Hh0 Hu Hl Hnone.
  pose proof Hd as [H1 H2 H3 H4 H5]. eapply wp_upd; [done|]. destruct Hfit as (Hf1 & Hf2 & Hf3).
  eapply wp_mono; [apply (@wp_rename_move _ _ (laws ino (outside ino v)) er n v p ents dirh fuel (po_uuid po) (po_id po) dfh i e0);
    try done| |].
  - intros [d dfh'] v' (Hnb & Hnd & (ents' & He' & Hd' & Hh & Hm)). fold (po_key po) in Hm. rewrite <- Hm.
    apply (changed_step _ Hd He' Hd' Hh). unfold fits. lia.
  - intros e v' [He Hl']. split; [done|]. by apply (busted_lost Hd).
Qed.

(** The name was another object's, which is removed. *)
Lemma wp_dirh_rename_over {B} er n ino g r v p dirh ents po dfh e0 rdfh e1 a j (rest : V B) Q R :
  dopen er n ino g r v p dirh ents → fits a j dirh → refers dfh ents e0 → d_hash e0 = dfh_hash dfh →
  refers rdfh ents e1 → key_of e1 = po_key po → key_of e0 ≠ po_key po →
  uuid_wf (po_uuid po) → 0 < Z.of_nat (List.length (po_id po)) <= 64 →
  (∀ v', changed er n ino g r v v' p
       (<[po_key po := (dfh_file_number dfh, dfh_hash dfh)]> (delete (key_of e0) (dir_map ents))) (fits a j) → wp rest Q R v') →
  (∀ e v', er e ∧ busted ino v v' p → R e v') →
  wp (_ ← dirh_rename fuel junk po dfh; _ ← dirh_remove junk rdfh; rest) Q R v.
Proof.
  intros Hd (Hf1 & Hf2 & Hf3) (i & Hi & Hli & Hui & Hni) Hh0 (i1 & Hi1 & Hli1 & Hui1 & Hni1) Hk1 Hk0 Hu Hl HQ HR.
  pose proof Hd as [H1 H2 H3 H4 H5].
  assert (i ≠ i1) as Hne by (intros ->; congruence).
  apply wp_bind. eapply wp_upd; [done|].
  eapply wp_mono; [apply (@wp_rename_over _ _ (laws ino (outside ino v)) er n v p ents dirh fuel (po_uuid po) (po_id po) dfh i e0);
    done| |].
  2: { intros e v' [He Hl']. apply HR. split; [done|]. by apply (busted_lost Hd). }
  intros [d dfh'] v1 (Eb & Ef & Ed & Hh). apply wp_bind. set (v2 := set_dirh v1 (Some (g, d))).
  eapply wp_upd; [done|]. apply wp_bind. fold v2.
  pose proof Hh as (o & f & dv & _ & _ & Hr & HO). destruct (quiet_outside _ _ _ HO) as [Hq _].
  assert (vholds cmax ino (outside ino v2) er n v2 p
    (dir_bytes (set_ent ents i (new_dent (po_uuid po) (po_id po) (dfh_hash dfh) (dfh_file_number dfh))))) as Hh2.
  { eapply vholds_frame; [exact Hh|done|done|]. destruct Hr as (N & ht0 & F0 & F & (ht & _ & _ & Hf & _) & _). apply Hf. }
  eapply wp_mono; [apply (@wp_remove_over _ _ (laws ino (outside ino v2)) er n v2 p ents dirh d (po_uuid po) (po_id po) dfh i e0 rdfh i1 e1);
    done| |].
  - intros d3 v3 (Hnb & Hnd & (ents' & He' & Hd' & Hh' & Hm)). apply wp_ret, HQ. fold (po_key po) in Hm. rewrite <- Hm.
    pose proof Hh' as (o3 & f3 & dv3 & _ & _ & Hr3 & HO3). destruct (quiet_outside _ _ _ HO3) as [Hq3 _].
    assert (quiet ino v (set_dirh v3 (Some (g, d3)))) as Hq' by (eapply quiet_trans; [exact Hq|exact Hq3]).
    split; [done|]. exists d3, ents'. split; [|split; [done|unfold fits; lia]].
    constructor; [done|destruct Hq' as (-> & _); done|done|done|]. eapply vholds_frame; [exact Hh'|done|done|].
    destruct Hr3 as (N & ht0 & F0 & F & (ht & _ & _ & Hf & _) & _). apply Hf.
  - intros e v3 [He Hl3]. apply HR. split; [done|]. change (vlost cmax ino (outside ino v2) v3 p) in Hl3.
    pose proof Hl3 as (_ & _ & _ & HO3). destruct (quiet_outside _ _ _ HO3) as [Hq3 Ed3].
    split; [eapply quiet_trans; [exact Hq|exact Hq3]|]. split; [rewrite Ed3; by eexists|]. by eapply vlost_dlost.
Qed.

Lemma wp_dirh_remove er n ino g r v p dirh ents dfh e0 a j :
  dopen er n ino g r v p dirh ents → fits a j dirh → refers dfh ents e0 →
  wp (dirh_remove junk dfh)
    (λ _ v', changed er n ino g r v v' p (delete (key_of e0) (dir_map ents)) (fits a j))
    (λ e v', er e ∧ busted ino v v' p) v.
Proof.
  intros Hd (Hf1 & Hf2 & Hf3) Href. pose proof Hd as [H1 H2 H3 H4 H5]. eapply wp_upd; [done|]. apply wp_bind.
  eapply wp_mono; [by apply (@wp_remove_map _ _ (laws ino (outside ino v)) er n v p ents dirh dfh e0)| |].
  - intros d v' (Hnb & Hnd & (ents' & He' & Hd' & Hh & <-)). apply wp_ret.
    apply (changed_step _ Hd He' Hd' Hh). unfold fits. lia.
  - intros e v' [He Hl']. split; [done|]. by apply (busted_lost Hd).
Qed.

Lemma wp_dirh_update_hash er n ino g r v p dirh ents dfh0 h e0 a j :
  dopen er n ino g r v p dirh ents → fits a (j + 1) dirh → refers dfh0 ents e0 → List.length h = 32%nat →
  wp (dirh_update_hash junk (Fileh (dfh_file_number dfh0) h (dfh_idx dfh0)))
    (λ _ v', changed er n ino g r v v' p (<[key_of e0 := (dfh_file_number dfh0, h)]> (dir_map ents)) (fits a j))
    (λ e v', er e ∧ busted ino v v' p) v.
Proof.
  intros Hd (Hf1 & Hf2 & Hf3) Href Hlh. pose proof Hd as [H1 H2 H3 H4 H5]. eapply wp_upd; [done|]. apply wp_bind.
  eapply wp_mono; [by apply (@wp_update_hash _ _ (laws ino (outside ino v)) er n v p ents dirh dfh0 e0 h)| |].
  - intros d v' (Hnb & Hnd & (ents' & He' & Hd' & Hh & <-)). apply wp_ret.
    apply (changed_step _ Hd He' Hd' Hh). unfold fits. lia.
  - intros e v' [He Hl']. split; [done|]. by apply (busted_lost Hd).
Qed.

(** The commit: the old file or the new one. *)
Lemma wp_commit er n ino g r v p dirh ents :
  dopen er (S n) ino g r v p dirh ents →
  wp (commit_dirh_writes junk)
    (λ _ v', quiet ino v v' ∧ dopen er n ino g r v' (dir_bytes ents) dirh ents)
    (λ e v', er e ∧ (busted ino v v' p ∨ busted ino v v' (dir_bytes ents))) v.
Proof.
  intros Hd. apply wp_bind.
  eapply wp_mono; [apply (@fop_commit_law _ _ (laws ino (outside ino v)) er n v p (dir_bytes ents)), Hd| |].
  - intros h v' Hh. apply wp_ret. by apply (dopen_same Hd).
  - intros e v' [He [Hl|Hl]]; (split; [done|]); [left|right]; by apply (busted_lost Hd).
Qed.
End with_crypto.
