(* ===== verification/ReeObjProofs.v ===== *)
(** * core/tee/tee_ree_fs.c: the operations on objects, step by step

    A file within the volume: created, opened with its hash, read, written and
    synchronised while the directory is open. *)
From S2P Require Import Prelude BlockFile ByteFile Htree HtreeTree HtreeProofs ReeFs HtreeStore.
From S2P Require Import Uuid Bitstring Dirfile DirfileProofs DirfileSpec DirfileMap DirfileRename ReeDirf ReeObj ReeFile ReeVol ReeVolProofs.

Local Open Scope Z_scope.

Section with_crypto.
Context `{CryptoLaws}.
Context (fuel : nat) (junk : nat → list Z).
Context (junk_ok : ∀ n, List.length (junk n) = n ∧ Forall (λ x, 0 <= x < 256) (junk n)).
Context (k : Z) (Hk : 0 <= k < UINT32_MAX).
Abbreviation cmax := (UINT32_MAX - k).
Abbreviation c0 := (UINT32_MAX - (k + 1)).

(** ** Steps that leave the directory alone *)

(** Only files, names and handles have changed. *)
Definition elsewhere (ino : nat) (v v' : vol) : Prop :=
  ree_fs_dirh v' = ree_fs_dirh v ∧ ree_fs_dirh_refcount v' = ree_fs_dirh_refcount v ∧ dirh_fh v' = dirh_fh v
  ∧ inodes v' !! ino = inodes v !! ino.

Lemma elsewhere_refl ino v : elsewhere ino v v.
Proof. by split_and!. Qed.

Lemma elsewhere_trans ino v v' v'' : elsewhere ino v v' → elsewhere ino v' v'' → elsewhere ino v v''.
Proof. intros (?&?&?&?) (?&?&?&?). split_and!; congruence. Qed.

Lemma dopen_elsewhere {er n ino g r v v' p dirh ents} :
  dopen k er n ino g r v p dirh ents → elsewhere ino v v' → (∀ e, vfault v' e → er e) →
  dopen k er n ino g r v' p dirh ents.
Proof.
  intros Hd (E1 & E2 & E3 & E4) Hf. eapply dopen_frame; try done. by rewrite E2, (dp_refcount _ _ _ _ _ _ _ _ _ _ Hd).
Qed.

Lemma dlost_elsewhere ino v v' p : dlost k ino v p → elsewhere ino v v' → dlost k ino v' p.
Proof. intros (d & c & Hi & Hr) (_ & _ & _ & E). exists d, c. by rewrite E. Qed.

(** The objects do not notice changes of other names and files. *)
Lemma disk_other c ino v v' m O :
  disk c ino v m O → names_ok v' → names v' !! None = names v !! None →
  (∀ key x i, m !! key = Some x → names v !! Some x.1 = Some i →
     names v' !! Some x.1 = Some i ∧ inodes v' !! i = inodes v !! i) →
  disk c ino v' m O.
Proof.
  intros [H1 H2 H3 H4] Hn En Hx. constructor; [done|by rewrite En|done|].
  apply (files_are_ext c v); [done|]. intros key x i d Hm Hi Hd. destruct (Hx key x i Hm Hi) as [Hn' Hi'].
  split; [done|]. exists d. rewrite Hi'. split; [done|by split_and!].
Qed.

(** A file is changed: of an object, if it is one's, the content stays. *)
Lemma disk_file c ino v v' m O n i d :
  disk c ino v m O → names v !! Some n = Some i → names v' = names v → (next v <= next v')%nat →
  inodes v' = <[i := d]> (inodes v) →
  (∀ (key : dir_key) x l, m !! key = Some x → x.1 = n → O !! key = Some l → file_is key.1 x.2 c l d) → disk c ino v' m O.
Proof.
  intros [[H1 H2] H3 H4 H5] Hi En Ex Ei Hx. constructor; [constructor|by rewrite En|done|].
  - intros a b j. rewrite En. apply H1.
  - intros a j. rewrite En. intros Ha. specialize (H2 a j Ha). lia.
  - intros key. specialize (H5 key). destruct (m !! key) as [x|] eqn:Em, (O !! key) as [l|] eqn:EO; try done.
    destruct H5 as (j & dj & Hn & Hj & Hf). destruct (decide (x.1 = n)) as [Hxn|Hxn].
    + exists i, d. rewrite En, Hxn, Ei, lookup_insert_eq. split_and!; [done|done|by apply Hx].
    + exists j, dj. rewrite En, Ei, lookup_insert_ne; [by split_and!|].
      intros <-. pose proof (H1 _ _ _ Hn Hi). congruence.
Qed.

(** The name of a file that belongs to no object is removed. *)
Lemma disk_unname c ino v m O n :
  disk c ino v m O → (∀ key x, m !! key = Some x → x.1 ≠ n) →
  disk c ino (set_names v (delete (Some n) (names v))) m O.
Proof.
  intros Hd Hn. pose proof (dk_names _ _ _ _ _ Hd) as [H1 H2]. apply (disk_other _ _ v); [done| | |].
  - constructor; cbn [set_names names next].
    + intros a b i (_ & Ha)%lookup_delete_Some (_ & Hb)%lookup_delete_Some. by apply (H1 a b i).
    + intros a i (_ & Ha)%lookup_delete_Some. by apply (H2 a).
  - cbn. by rewrite lookup_delete_ne.
  - intros key x i Hm Hi. split; [|done]. cbn. rewrite lookup_delete_ne; [done|].
    intros [= E]. by apply (Hn key x).
Qed.

(** tee_fs_rpc_remove_dfh(), the result of which is ignored. *)
Lemma wp_remove_name n v (Q : _ → vol → Prop) R :
  (∀ x v1, vsame v v1 → Q x v1 ∧ Q x (set_names v1 (delete (Some n) (names v1)))) →
  wp (mtry (tee_fs_rpc_remove_dfh (Some n))) Q R v.
Proof.
  intros HQ. apply wp_try. eapply wp_mono; [apply wp_vext_write| |].
  - intros [] v' (v1 & Hv & ->). by apply HQ.
  - intros e v' (_ & v1 & Hv & [-> | ->]); by apply HQ.
Qed.

(** ** Creating a file *)

Lemma create_name_disk c ino v m O n :
  disk c ino v m O → (∀ key x, m !! key = Some x → x.1 ≠ n) →
  let v' := create_name (Some n) v in
  disk c ino v' m O ∧ elsewhere ino v v' ∧ fds v' = fds v
  ∧ ∃ i, names v' !! Some n = Some i ∧ i ≠ ino ∧ inodes v' !! i = Some new_file.
Proof.
  intros Hd Hn v'. pose proof (dk_names _ _ _ _ _ Hd) as [H1 H2]. pose proof (dk_dir _ _ _ _ _ Hd) as H3.
  unfold v', create_name. destruct (names v !! Some n) as [i|] eqn:Ei.
  - assert (i ≠ ino) as Hne by (intros ->; by pose proof (H1 _ _ _ Ei H3)).
    split; [|split; [split_and!; [done..|by apply lookup_insert_ne]|]].
    + eapply (disk_file _ _ v _ _ _ n i); try done. intros key x l Hm Hx. by destruct (Hn key x).
    + split; [done|]. exists i. cbn. split_and!; [done|done|apply lookup_insert_eq].
  - assert (next v ≠ ino) as Hne by (intros E; pose proof (H2 _ _ H3); lia).
    split; [|split; [split_and!; [done..|cbn; by apply lookup_insert_ne]|]].
    + apply (disk_other _ _ v); [done| | |].
      * constructor; cbn.
        -- intros a b i [[<- <-]|[_ Ha]]%lookup_insert_Some [[<- Hb]|[_ Hb]]%lookup_insert_Some; [done| | |].
           ++ pose proof (H2 _ _ Hb). lia.
           ++ pose proof (H2 _ _ Ha). lia.
           ++ by apply (H1 a b i).
        -- intros a i [[<- <-]|[_ Ha]]%lookup_insert_Some; [lia|]. specialize (H2 _ _ Ha). lia.
      * cbn. by rewrite lookup_insert_ne.
      * intros key x i Hm Hi. cbn. pose proof (H2 _ _ Hi). rewrite !lookup_insert_ne; [done|lia|].
        intros [= E]. by apply (Hn key x).
    + split; [done|]. exists (next v). cbn. rewrite !lookup_insert_eq. by split_and!.
Qed.

Lemma elsewhere_same ino v v' : vsame v v' → elsewhere ino v v'.
Proof. intros [[f ->] _]. by split_and!. Qed.

Lemma disk_same c ino v v' m O : disk c ino v m O → vsame v v' → disk c ino v' m O.
Proof. intros Hd [[f ->] _]. eapply disk_ext; try done. Qed.

(** What a step with a file of no object leaves behind. *)
Definition aside (c : Z) (ino : nat) (v v' : vol) (m : gmap dir_key (Z * list Z)) (O : gmap dir_key (list Z)) : Prop :=
  elsewhere ino v v' ∧ disk c ino v' m O.

Lemma wp_create_file c ino v m O n u :
  disk c ino v m O → (∀ key x, m !! key = Some x → x.1 ≠ n) →
  wp (ree_fs_open_primitive true None u (Some (Fileh n [] 0)))
    (λ f v', aside c ino v v' m O ∧ fds v' = fds v ∧ ∃ i ht d, f = Fd (Some ht) i (Fileh n (root_hash ht) 0)
       ∧ names v' !! Some n = Some i ∧ i ≠ ino ∧ inodes v' !! i = Some d
       ∧ file_open (vfault v) u (root_hash ht) 1 [] [] (Some ht, plug v' d))
    (λ e v', vfault v e ∧ aside c ino v v' m O ∧ fds v' = fds v) v.
Proof.
  intros Hd Hn. unfold ree_fs_open_primitive. cbn [fmap option_fmap option_map dfh_file_number].
  apply wp_bind. eapply wp_mono; [apply wp_vext| |]; cbv beta.
  2: { intros e v1 [He Hv]. split; [done|]. split; [|by destruct Hv as [[f ->] _]].
       split; [by apply elsewhere_same|by eapply disk_same]. }
  intros [] v1 Hv1. apply wp_bind, wp_try, wp_bind. unfold tee_fs_rpc_create_dfh.
  assert (∀ v', vsame v v' → disk c ino v' m O ∧ elsewhere ino v v' ∧ fds v' = fds v) as Hsame.
  { intros v' Hv. split; [by eapply disk_same|]. split; [by apply elsewhere_same|by destruct Hv as [[f ->] _]]. }
  assert (∀ v', disk c ino v' m O ∧ elsewhere ino v v' ∧ fds v' = fds v → ∀ (e : tee_result) (Q : tee_fs_fd → vol → Prop) (R : _ → vol → Prop),
    (∀ v'', aside c ino v v'' m O ∧ fds v'' = fds v → R e v'') →
    wp (_ ← (_ ← mtry (tee_fs_rpc_remove_dfh (Some n)); mret ()); mthrow e) Q R v') as Hfail.
  { intros v' (Hd' & He' & Hf') e Q R HR. apply wp_bind, wp_bind, wp_remove_name. intros _ v2 Hv2.
    assert (disk c ino v2 m O ∧ elsewhere ino v v2 ∧ fds v2 = fds v) as (Hd2 & He2 & Hf2).
    { split; [by eapply disk_same|]. split; [eapply elsewhere_trans; [done|by apply elsewhere_same]|].
      destruct Hv2 as [[f ->] _]. done. }
    split; apply wp_ret, wp_throw, HR; (split; [split|done]); try done. by apply disk_unname. }
  apply wp_bind. eapply wp_mono; [apply wp_vext_write| |]; cbv beta.
  2: { intros e v' (He & v2 & Hv2 & Hv'). pose proof (vsame_trans _ _ _ Hv1 Hv2) as Hs2.
       apply (Hfail v').
       - destruct Hv' as [-> | ->]; [by apply Hsame|]. destruct (Hsame v2 Hs2) as (H1 & H2 & H3).
         destruct (create_name_disk c ino v2 m O n H1 Hn) as (H4 & H5 & H6 & _).
         split; [done|]. split; [by eapply elsewhere_trans|congruence].
       - intros v'' Hr. split; [by apply (vfault_same v v1)|done]. }
  intros [] v' (v2 & Hv2 & ->). pose proof (vsame_trans _ _ _ Hv1 Hv2) as Hs2.
  destruct (Hsame v2 Hs2) as (H1 & H2 & H3).
  destruct (create_name_disk c ino v2 m O n H1 Hn) as (H4 & H5 & H6 & i & Hi & Hine & Hnew).
  set (v3 := create_name (Some n) v2) in *. unfold lookup_name.
  apply wp_bind, wp_get. rewrite Hi. apply wp_ret, wp_bind.
  assert (∀ e, vfault v3 e → vfault v e) as Hf3.
  { intros e He. apply (vfault_same _ _ _ Hs2). unfold v3, create_name in He. by destruct (names v2 !! Some n). }
  assert (∀ d', disk c ino (unplug v3 i d') m O ∧ elsewhere ino v (unplug v3 i d')
    ∧ fds (unplug v3 i d') = fds v) as Hun.
  { intros d'. split; [|split].
    - eapply (disk_file _ _ v3 _ _ _ n i); try done. intros key x l Hm Hx. by destruct (Hn key x).
    - eapply elsewhere_trans; [exact H2|]. eapply elsewhere_trans; [exact H5|]. split_and!; [done..|].
      cbn. by rewrite lookup_insert_ne.
    - cbn. congruence. }
  apply (wp_open_tree _ _ _ i new_file); [done|].
  eapply wp_mono; [apply (wp_fd_create u None (plug v3 new_file)); by eexists| |].
  - intros [] [o d'] (ht & Ho & Hop). cbn [fst snd] in *. subst o. exists ht. split; [done|].
    apply wp_ret, wp_ret. destruct (Hun d') as (U1 & U2 & U3). split; [by split|]. split; [done|].
    exists i, ht, d'. split; [done|]. split; [exact Hi|]. split; [done|]. split; [apply lookup_insert_eq|].
    rewrite plug_unplug. eapply file_open_file; [exact Hop|done|].
    intros e He. apply Hf3. apply (file_open_faults _ _ _ _ _ _ _ Hop e He).
  - intros e s' He. apply (Hfail _ (Hun (snd s'))). intros v'' Hr. split; [by apply Hf3|done].
Qed.

(** ** Opening a file *)

Lemma wp_open_file c ino v m O dfh (key : dir_key) l :
  disk c ino v m O → m !! key = Some (dfh_file_number dfh, dfh_hash dfh) → O !! key = Some l → no_twins v →
  wp (ree_fs_open_primitive false (Some (dfh_hash dfh)) key.1 (Some dfh))
    (λ f v', aside c ino v v' m O ∧ fds v' = fds v ∧ ∃ i ht d, f = Fd (Some ht) i dfh
       ∧ names v' !! Some (dfh_file_number dfh) = Some i ∧ i ≠ ino ∧ inodes v' !! i = Some d
       ∧ file_open (vfault v) key.1 (dfh_hash dfh) c l l (Some ht, plug v' d))
    (λ e v', vfault v e ∧ aside c ino v v' m O ∧ fds v' = fds v) v.
Proof.
  intros Hd Hm HO Htw. pose proof (dk_files _ _ _ _ _ Hd) as Hf. specialize (Hf key). rewrite Hm, HO in Hf.
  destruct Hf as (i & d & Hi & Hid & Hfile). cbn [fst snd] in *.
  assert (i ≠ ino) as Hine.
  { intros ->. pose proof (dk_names _ _ _ _ _ Hd) as [H1 _]. by pose proof (H1 _ _ _ Hi (dk_dir _ _ _ _ _ Hd)). }
  assert (∀ v1 e v', vsame v v1 → vfault v1 e ∧ vsame v1 v' → vfault v e ∧ aside c ino v v' m O ∧ fds v' = fds v) as Hfail.
  { intros v1 e v' Hv [He Hv']. pose proof (vsame_trans _ _ _ Hv Hv') as Hs. split; [by apply (vfault_same v v1)|].
    split; [split; [by apply elsewhere_same|by eapply disk_same]|by destruct Hs as [[f ->] _]]. }
  unfold ree_fs_open_primitive. cbn [fmap option_fmap option_map].
  apply wp_bind. eapply wp_mono; [apply wp_vext| |]; cbv beta; [|intros e v'; apply (Hfail v), vsame_refl].
  intros [] v1 Hv1. apply wp_bind, wp_try, wp_bind. unfold tee_fs_rpc_open_dfh, lookup_name. apply wp_bind.
  eapply wp_mono; [apply wp_vext| |]; cbv beta.
  2: { intros e v' Hr. apply wp_bind, wp_ret, wp_throw. by apply (Hfail v1). }
  intros [] v2 Hv2. pose proof (vsame_trans _ _ _ Hv1 Hv2) as [[f ->] Hf]. clear Hv1 Hv2 v1.
  set (v2 := set_env v (v_rng v) f) in *. apply wp_bind, wp_get. change (names v2) with (names v). rewrite Hi.
  apply wp_ret, wp_bind.
  assert (∀ d', same_file d d' → aside c ino v (unplug v2 i d') m O ∧ fds (unplug v2 i d') = fds v) as Hun.
  { intros d' Hs. split; [|done]. split.
    - split_and!; [done..|cbn; by apply lookup_insert_ne].
    - eapply (disk_file _ _ v _ _ _ (dfh_file_number dfh) i); try done. intros key' x l' Hm' Hx HO'.
      assert (key' = key) as -> by (by eapply (dk_numbers _ _ _ _ _ Hd)). assert (l' = l) as -> by congruence. assert (x = (dfh_file_number dfh, dfh_hash dfh)) as -> by congruence.
      eapply file_is_file; [exact Hfile|done]. }
  apply (wp_open_tree _ _ _ i d); [done|].
  eapply wp_mono; [apply (wp_fd_open_hash key.1 (dfh_hash dfh) c l None (plug v2 d))| |].
  - eapply file_is_file; [done|by split_and!].
  - intros Ht. by apply (Htw _ _ _ Hi Hid).
  - intros [] [o d'] [Hop Hsf]. cbn [fst snd] in *.
    destruct (file_open_length _ _ _ _ _ _ _ Hop) as (ht & Ho & _). cbn in Ho. subst o. exists ht. split; [done|].
    apply wp_ret, wp_ret. assert (same_file d d') as Hsd. { etrans; [|exact Hsf]. by split_and!. }
    destruct (Hun d' Hsd) as (U1 & U2). split; [done|]. split; [done|].
    exists i, ht, d'. split; [by destruct dfh|]. split; [done|]. split; [done|]. split; [apply lookup_insert_eq|].
    rewrite plug_unplug. eapply file_open_file; [exact Hop|done|].
    intros e He. apply Hf. apply (file_open_faults _ _ _ _ _ _ _ Hop e He).
  - intros e s' [He Hsf]. apply wp_bind, wp_ret, wp_throw. split; [by apply Hf|]. apply Hun.
    etrans; [|exact Hsf]. by split_and!.
Qed.

(** ** An open file *)

(** The one handle [fh] is on the file [i], which is open. *)
Definition held (er : tee_result → Prop) (fh i : nat) (f : tee_fs_dirfile_fileh) (u h : list Z) (c : Z)
    (l0 l : list Z) (v : vol) : Prop :=
  ∃ o d, fds v = {[fh := Fd o i f]} ∧ inodes v !! i = Some d ∧ file_open er u h c l0 l (o, plug v d).

(** A step of that file and its handle; the file is [P] then. *)
Definition fstep (fh i : nat) (P : dev → Prop) (v v' : vol) : Prop :=
  ∃ x d, P d ∧ fds v' = {[fh := x]} ∧ inodes v' = <[i := d]> (inodes v) ∧ names v' = names v ∧ next v' = next v
    ∧ ree_fs_dirh v' = ree_fs_dirh v ∧ ree_fs_dirh_refcount v' = ree_fs_dirh_refcount v ∧ dirh_fh v' = dirh_fh v.

Lemma fstep_on fh i (P : dev → Prop) v x d : P d → fstep fh i P v (set_fds (unplug v i d) {[fh := x]}).
Proof. intros Hp. by exists x, d. Qed.

Lemma fstep_trans fh i P P' v v' v'' : fstep fh i P v v' → fstep fh i P' v' v'' → fstep fh i P' v v''.
Proof.
  intros (x & d & _ & E1 & E2 & E3 & E4 & E5 & E6 & E7) (x' & d' & Hp & F1 & F2 & F3 & F4 & F5 & F6 & F7).
  exists x', d'. rewrite F2, E2, insert_insert_eq. split_and!; congruence.
Qed.

Lemma fstep_mono fh i (P P' : dev → Prop) v v' : fstep fh i P v v' → (∀ d, P d → P' d) → fstep fh i P' v v'.
Proof. intros (x & d & Hp & Hr) HP. exists x, d. auto. Qed.

Lemma fstep_fds {fh i P v v'} : fstep fh i P v v' → ∃ x, fds v' = {[fh := x]}.
Proof. intros (x & d & _ & Hx & _). by exists x. Qed.

Lemma fstep_elsewhere {fh i P v v'} ino : fstep fh i P v v' → i ≠ ino → elsewhere ino v v'.
Proof. intros (x & d & _ & E1 & E2 & E3 & E4 & E5 & E6 & E7) Hi. split_and!; try done. rewrite E2. by apply lookup_insert_ne. Qed.

Lemma fstep_names {fh i P v v'} : fstep fh i P v v' → names v' = names v ∧ next v' = next v.
Proof. by intros (x & d & _ & E1 & E2 & E3 & E4 & _). Qed.

Lemma fstep_disk {fh i P v v'} c ino m O n :
  fstep fh i P v v' → disk c ino v m O → names v !! Some n = Some i →
  (∀ d (key : dir_key) x l, P d → m !! key = Some x → x.1 = n → O !! key = Some l → file_is key.1 x.2 c l d) →
  disk c ino v' m O.
Proof.
  intros (x & d & Hp & E1 & E2 & E3 & E4 & _) Hd Hi HP. eapply (disk_file _ _ v _ _ _ n i); try done; [by rewrite E4|].
  intros. by eapply HP.
Qed.

Lemma held_faults {er fh i f u h c l0 l v} : held er fh i f u h c l0 l v → ∀ e, vfault v e → er e.
Proof. intros (o & d & _ & _ & Ho). exact (file_open_faults _ _ _ _ _ _ _ Ho). Qed.

Lemma held_is {er fh i f u h c l0 l v} : held er fh i f u h c l0 l v → ∃ d, inodes v !! i = Some d ∧ file_is u h c l0 d.
Proof.
  intros (o & d & _ & Hi & Ho%file_open_is). exists d. split; [done|]. eapply file_is_file; [exact Ho|by split_and!].
Qed.

Lemma held_intro er fh i f u h c l0 l v o d :
  file_open er u h c l0 l (o, d) → held er fh i f u h c l0 l (set_fds (unplug v i d) {[fh := Fd o i f]}).
Proof.
  intros Ho. exists o, d. split; [done|]. split; [apply lookup_insert_eq|].
  change (plug _ d) with (plug (unplug v i d) d). by rewrite plug_unplug.
Qed.

Lemma held_frame {er er' fh i f u h c l0 l v} v' :
  held er fh i f u h c l0 l v → fds v' = fds v → inodes v' !! i = inodes v !! i → (∀ e, vfault v' e → er' e) →
  held er' fh i f u h c l0 l v'.
Proof.
  intros (o & d & Hf & Hi & Ho) Ef Ei He. exists o, d. rewrite Ef, Ei. split_and!; [done|done|].
  eapply file_open_file; [exact Ho|by split_and!|done].
Qed.

(** An operation on the file of the handle. *)
Lemma wp_held {A} er fh i f u h c l0 l v (m : M fd tee_result A) (Q : A → fd → Prop) (R : tee_result → fd → Prop) :
  held er fh i f u h c l0 l v → (∀ s, file_open er u h c l0 l s → wp m Q R s) →
  wp (on_fh fh m)
    (λ a v', ∃ o d, Q a (o, d) ∧ v' = set_fds (unplug v i d) {[fh := Fd o i f]})
    (λ e v', ∃ o d, R e (o, d) ∧ v' = set_fds (unplug v i d) {[fh := Fd o i f]}) v.
Proof.
  intros (o & d & Hf & Hi & Ho) Hm.
  assert (∀ x, <[fh := x]> (fds v) = {[fh := x]}) as Hins.
  { intros x. rewrite Hf. apply insert_singleton_eq. }
  eapply wp_mono; [eapply wp_on_fh; [rewrite Hf; apply lookup_singleton_eq|done|by apply Hm]| |];
    cbv beta; intros a v' (o' & d' & Hq & ->); exists o', d'; by rewrite Hins.
Qed.

Lemma wp_held_write er fh i f u h c l0 l v pos buf :
  held er fh i f u h c l0 l v → 0 <= pos → pos + Z.of_nat (List.length buf) < 2 ^ 31 →
  wp (on_fh fh (ree_fs_write_primitive pos buf))
    (λ _ v', held er fh i f u h c l0 (write_bytes l pos buf) v' ∧ fstep fh i (file_is u h c l0) v v')
    (λ e v', er e ∧ fstep fh i (file_is u h c l0) v v') v.
Proof.
  intros Hh Hp Hm. eapply wp_mono; [eapply wp_held; [done|]; intros s Hs; by apply (wp_fd_write er u h c l0 l)| |]; cbv beta.
  - intros _ v' (o & d & Ho & ->). split; [by apply held_intro|]. apply fstep_on. by apply file_open_is in Ho.
  - intros e v' (o & d & [He Ho] & ->). split; [done|]. by apply fstep_on.
Qed.

Lemma write_bytes_end l x : write_bytes l (Z.of_nat (List.length l)) x = l ++ x.
Proof.
  unfold write_bytes. case_decide as Hx; [by rewrite Hx, app_nil_r|].
  rewrite Nat2Z.id, Nat.sub_diag, app_nil_r. unfold splice. rewrite take_ge, drop_ge, app_nil_r by lia. done.
Qed.

Lemma fstep_refl {er fh i f u h c l0 l v} : held er fh i f u h c l0 l v → fstep fh i (file_is u h c l0) v v.
Proof.
  intros Hh. destruct (held_is Hh) as (d & Hi & Hf). destruct Hh as (o & _ & Hfd & _). exists (Fd o i f), d.
  split_and!; try done. by rewrite insert_id.
Qed.

(** The parts of a new object are written one behind the other. *)
Lemma wp_write_part er fh i f u h c l0 l v x :
  held er fh i f u h c l0 l v → Z.of_nat (List.length l) + Z.of_nat (List.length x) < 2 ^ 31 →
  wp (write_part fh (Z.of_nat (List.length l)) x)
    (λ pos v', pos = Z.of_nat (List.length (l ++ x)) ∧ held er fh i f u h c l0 (l ++ x) v'
       ∧ fstep fh i (file_is u h c l0) v v')
    (λ e v', er e ∧ fstep fh i (file_is u h c l0) v v') v.
Proof.
  intros Hh Hl. destruct x as [|b x]; cbn [write_part].
  { apply wp_ret. rewrite app_nil_r. split_and!; [done|done|by eapply fstep_refl]. }
  apply wp_bind. eapply wp_mono; [by apply (wp_held_write er fh i f u h c l0 l v); [|lia|]| |done]; cbv beta.
  intros _ v' [Hh' Hs]. rewrite write_bytes_end in Hh'. apply wp_ret. split_and!; [|done|done].
  rewrite length_app, wrap_small by (unfold in_range; lia). lia.
Qed.

Lemma wp_write_parts er fh i f u h c v x y z :
  held er fh i f u h c [] [] v → Z.of_nat (List.length (x ++ y ++ z)) < 2 ^ 31 →
  wp (pos ← write_part fh 0 x; pos ← write_part fh pos y; write_part fh pos z)
    (λ _ v', held er fh i f u h c [] (x ++ y ++ z) v' ∧ fstep fh i (λ _, True) v v')
    (λ e v', er e ∧ fstep fh i (λ _, True) v v') v.
Proof.
  intros Hh Hl. rewrite !length_app in Hl.
  assert (∀ v v', fstep fh i (file_is u h c []) v v' → fstep fh i (λ _, True) v v') as Hw.
  { intros. by eapply fstep_mono. }
  apply wp_bind. eapply wp_mono; [apply (wp_write_part er fh i f u h c [] [] v x Hh); cbn; lia| |]; cbv beta.
  2: { intros e v' [? ?]. auto. }
  intros _ v1 (-> & Hh1 & Hs1). apply wp_bind.
  eapply wp_mono; [apply (wp_write_part er fh i f u h c [] ([] ++ x) v1 y Hh1); cbn; lia| |]; cbv beta.
  2: { intros e v' [? ?]. split; [done|]. apply Hw. by eapply fstep_trans. }
  intros _ v2 (-> & Hh2 & Hs2).
  eapply wp_mono; [apply (wp_write_part er fh i f u h c [] (([] ++ x) ++ y) v2 z Hh2); cbn; rewrite length_app; lia| |];
    cbv beta.
  2: { intros e v' [? ?]. split; [done|]. apply Hw. eapply fstep_trans; [|done]. by eapply fstep_trans. }
  intros _ v3 (_ & Hh3 & Hs3). rewrite app_nil_l, <- app_assoc in Hh3. split; [done|].
  apply Hw. eapply fstep_trans; [|done]. by eapply fstep_trans.
Qed.

(** The file is synchronised, and the handle has the new hash. *)
Lemma wp_sync_fd er fh i f u c l0 l v :
  held er fh i f u (dfh_hash f) c l0 l v → 0 <= c < UINT32_MAX →
  wp (sync_fd fh)
    (λ _ v', ∃ h', held er fh i (Fileh (dfh_file_number f) h' (dfh_idx f)) u h' (c + 1) l l v'
       ∧ fstep fh i (file_is u (dfh_hash f) c l0) v v')
    (λ e v', er e ∧ fstep fh i (file_is u (dfh_hash f) c l0) v v') v.
Proof.
  intros Hh Hc. unfold sync_fd. apply wp_bind.
  eapply wp_mono; [eapply wp_held; [done|]; intros s Hs; apply (wp_fd_sync er u (dfh_hash f) c l0 l s Hs); lia| |]; cbv beta.
  2: { intros e v' (o & d & [He Ho] & ->). split; [done|]. by apply fstep_on. }
  intros [h'|] v' (o & d & Hr & ->).
  - destruct Hr as [Ho Hold]. unfold get_fd. apply wp_bind, wp_bind, wp_get.
    cbn [fds set_fds]. rewrite lookup_singleton_eq. apply wp_ret, wp_modify.
    exists h'. set (f' := Fileh (dfh_file_number f) h' (dfh_idx f)).
    match goal with |- held _ _ _ _ _ _ _ _ _ ?w ∧ _ =>
      assert (fds w = {[fh := Fd o i f']}) as Ew by (cbn; by rewrite alter_singleton_eq) end.
    split; [|exists (Fd o i f'), d; by split_and!].
    exists o, d. split; [exact Ew|]. split; [apply lookup_insert_eq|].
    eapply file_open_file; [exact Ho|by split_and!|]. intros e He. exact (file_open_faults _ _ _ _ _ _ _ Ho e He).
  - destruct Hr as [-> Ho]. apply wp_ret. exists (dfh_hash f). pose proof (file_open_is _ _ _ _ _ _ _ Ho) as Hold.
    split; [|by apply fstep_on]. destruct f as [n h x]. cbn in *. apply held_intro.
    destruct Ho as (N & ht0 & F0 & F & Hr). exists N, ht0, F0, F. destruct Hr as (?&?&?&?&?&?&?&?&?). split_and!; done || lia.
Qed.

(** ** put_dirh() *)

(** The directory after put_dirh(); [v] has [r] references. *)
Definition after_put (close : bool) (r : Z) (v : vol) : vol :=
  let v1 := set_refcount v (r - 1) in
  if bool_decide (is_Some (ree_fs_dirh v)) && ((r - 1 =? 0) || close) then set_dirh (set_dirh_fh v1 None) None else v1.

Lemma wp_put_dirh close r v (Q : unit → vol → Prop) R :
  ree_fs_dirh_refcount v = r → 0 < r < 2 ^ 64 → Q tt (after_put close r v) → wp (put_dirh_primitive close) Q R v.
Proof.
  intros Hr Hlt HQ. unfold put_dirh_primitive. apply wp_bind, wp_get, wp_bind, wp_assert.
  { rewrite Hr. apply negb_true_iff, Z.eqb_neq. lia. }
  apply wp_bind, wp_put, wp_bind, wp_get. cbn [ree_fs_dirh ree_fs_dirh_refcount set_refcount].
  rewrite Hr, wrap_small by (unfold in_range; lia). unfold after_put in HQ.
  destruct (_ && _); [by apply wp_modify|by apply wp_ret].
Qed.

Lemma stands_ext j v v' O :
  stands fuel j v O → names v' = names v → inodes v' = inodes v → (next v <= next v')%nat → stands fuel j v' O.
Proof.
  intros (ino & d & c & p & m & Hd & Hp & Hr & Hi & Hh) En Ei Ex. exists ino, d, c, p, m. rewrite Ei.
  split; [|done]. eapply disk_ext; try done. intros. by rewrite Ei.
Qed.

Lemma after_put_storage close r v :
  names (after_put close r v) = names v ∧ inodes (after_put close r v) = inodes v ∧ next (after_put close r v) = next v.
Proof. unfold after_put. by destruct (_ && _). Qed.

Lemma after_put_stands close r v O : stands fuel k v O → stands fuel k (after_put close r v) O.
Proof. intros Hs. destruct (after_put_storage close r v) as (E1 & E2 & E3). eapply stands_ext; [done..|]. by rewrite E3. Qed.

(** The last reference is given up. *)
Lemma after_put_idle close v :
  is_Some (ree_fs_dirh v) → fds (after_put close 1 v) = fds v ∧ (fds v = ∅ → idle (after_put close 1 v)).
Proof.
  intros Hd. unfold after_put. rewrite bool_decide_eq_true_2 by done. cbn.
  split; [done|]. intros Hf. unfold idle. cbn. by split_and!.
Qed.
End with_crypto.
