(* ===== verification/ReeTx.v ===== *)
(** * core/tee/tee_ree_fs.c: objects are created, written, renamed and removed

    From a volume that stands for a map of objects with nothing open, every
    operation on an object, with the opening and closing around it, leaves a volume
    that stands for the map it should; when something fails, for the map before or
    after. *)
From S2P Require Import Prelude BlockFile ByteFile Htree HtreeTree HtreeProofs ReeFs HtreeStore.
From S2P Require Import Uuid Bitstring Dirfile DirfileProofs DirfileSpec DirfileMap DirfileRename ReeDirf ReeObj ReeFile ReeVol ReeVolProofs ReeObjProofs.

Local Open Scope Z_scope.

Section with_crypto.
Context `{CryptoLaws}.
Context (fuel : nat) (junk : nat → list Z).
Context (junk_ok : ∀ n, List.length (junk n) = n ∧ Forall (λ x, 0 <= x < 256) (junk n)).
Context (k : Z) (Hk : 0 <= k < UINT32_MAX).
Abbreviation cmax := (UINT32_MAX - k).
Abbreviation c0 := (UINT32_MAX - (k + 1)).
Abbreviation objects := (gmap dir_key (list Z)).
Abbreviation dirmap := (gmap dir_key (Z * list Z)).

(** ** Entering a file *)

(** The volume stands for [O] once the directory's file holds [p]. *)
Definition ready (c : Z) (ino : nat) (v : vol) (p : list Z) (m : dirmap) (O : objects) : Prop :=
  disk c ino v m O ∧ dir_on p m ∧ room fuel k p m.

Lemma ready_stands c ino v p m O : ready c ino v p m O → dlost k ino v p → c <= cmax → stands fuel k v O.
Proof.
  intros (Hd & Hp & Hr) (d & c' & Hi & Hh & Hc) Hle. exists ino, d, c', p, m. split_and!; try done.
  eapply disk_le; done.
Qed.

Lemma ready_quiet c ino v v' p m O : ready c ino v p m O → quiet ino v v' → ready c ino v' p m O.
Proof. intros (Hd & Hr) Hq. split; [|done]. by eapply disk_quiet. Qed.

(** A number no object has is given to the object [key]. *)
Lemma disk_enter ino v m O n i h c l (key : dir_key) :
  disk c0 ino v m O → names v !! Some n = Some i → (∃ d, inodes v !! i = Some d ∧ file_is key.1 h c l d) → c <= cmax →
  (∀ (key' : dir_key) x, m !! key' = Some x → key' ≠ key → x.1 ≠ n) →
  disk cmax ino v (<[key := (n, h)]> m) (<[key := l]> O).
Proof.
  intros Hd Hi (d & Hid & Hf) Hc Hfree. pose proof (disk_le _ cmax _ _ _ _ Hd ltac:(lia)) as [H1 H2 H3 H4].
  constructor; [done|done| |].
  - intros key1 key2 x1 x2 [[<- <-]|[Hn1 Hx1]]%lookup_insert_Some [[<- <-]|[Hn2 Hx2]]%lookup_insert_Some Hx; [done| | |].
    + destruct (Hfree key2 x2 Hx2); done.
    + destruct (Hfree key1 x1 Hx1); done.
    + by apply (H3 key1 key2 x1 x2).
  - intros key'. destruct (decide (key' = key)) as [-> |Hne].
    + rewrite !lookup_insert_eq. exists i, d. split_and!; [done|done|].
      destruct Hf as (Hn & ht & F & ?&?&?&?&?&?&?). split; [done|]. exists ht, F. split_and!; done || lia.
    + rewrite !lookup_insert_ne by done. apply H4.
Qed.

(** The directory and the handle [fh] are open. *)
Definition open_with (fh : nat) (v : vol) : Prop :=
  is_Some (ree_fs_dirh v) ∧ ree_fs_dirh_refcount v = 1 ∧ ∃ x, fds v = {[fh := x]}.

Lemma open_with_quiet fh ino v v' : open_with fh v → quiet ino v v' → is_Some (ree_fs_dirh v') → open_with fh v'.
Proof. intros (_ & E1 & x & E2) (F1 & F2 & _) Hd. split; [done|]. split; [congruence|]. exists x. congruence. Qed.

Lemma dopen_some {er n ino g r v p dirh ents} : dopen k er n ino g r v p dirh ents → is_Some (ree_fs_dirh v).
Proof. intros Hd. rewrite (dp_dirh _ _ _ _ _ _ _ _ _ _ Hd). by eexists. Qed.

(** set_name() after the entry was written, in a directory that stands for [m]
    then; [old] is the number of the file the object had. *)
Lemma wp_commit_name er ino g v p dirh ents m' O' (old : option Z) fh :
  dopen k er 1 ino g 1 v p dirh ents → ready cmax ino v (dir_bytes ents) m' O' →
  open_with fh v → (∀ n (key : dir_key) x, old = Some n → m' !! key = Some x → x.1 ≠ n) →
  wp (_ ← commit_dirh_writes junk;
      match old with Some n => _ ← mtry (tee_fs_rpc_remove_dfh (Some n)); mret tt | None => mret tt end)
    (λ _ v', open_with fh v' ∧ stands fuel k v' O')
    (λ e v', er e ∧ open_with fh v' ∧ quiet ino v v' ∧ (dlost k ino v' p ∨ dlost k ino v' (dir_bytes ents))) v.
Proof.
  intros Hd Hready Ho Hold. apply wp_bind.
  eapply wp_mono; [by apply (wp_commit junk junk_ok k Hk er 0 ino g 1 v p dirh ents)| |]; cbv beta.
  2: { intros e v' [He [(Hq & Hs & Hl)|(Hq & Hs & Hl)]]; (split; [done|]); (split; [by eapply open_with_quiet|]); auto. }
  intros _ v1 (Hq & Hd1). pose proof (open_with_quiet _ _ _ _ Ho Hq (dopen_some Hd1)) as Ho1.
  pose proof (ready_quiet _ _ _ _ _ _ _ Hready Hq) as (Hdk & Hon & Hroom).
  pose proof (dopen_dlost _ Hd1) as Hl1.
  destruct old as [n|].
  - apply wp_bind, wp_remove_name. intros _ v2 Hv2.
    assert (open_with fh v2 ∧ dlost k ino v2 (dir_bytes ents) ∧ disk cmax ino v2 m' O') as (Ho2 & Hl2 & Hd2).
    { split; [|split].
      - by destruct Hv2 as [[f ->] _].
      - by destruct Hv2 as [[f ->] _].
      - by eapply disk_same. }
    split; apply wp_ret; (split; [done|]); eapply (ready_stands cmax ino _ (dir_bytes ents) m'); try lia; try done.
    split; [|done]. apply disk_unname; [done|]. intros key x Hx. by apply (Hold n key).
  - apply wp_ret. split; [done|]. by eapply (ready_stands cmax ino _ (dir_bytes ents) m').
Qed.

(** ** set_name() *)

Section set_name.
Context (er : tee_result → Prop) (Hnf : ¬ er TEE_ERROR_ITEM_NOT_FOUND).
Context (ino g : nat) (p : list Z) (dirh : tee_fs_dirfile_dirh) (ents : list dirfile_entry) (O : objects).
Context (fh i : nat) (n : Z) (h : list Z) (idx c : Z) (po : pobj) (l : list Z) (ow : bool).
Abbreviation key := (po_key po).
Abbreviation m := (dir_map ents).
Abbreviation m' := (<[key := (n, h)]> m).
Abbreviation O' := (<[key := l]> O).

(** Before set_name(): the file [n] holds [l], and no object has it. *)
Record named_pre (v : vol) : Prop := {
  np_dopen : dopen k er 1 ino g 1 v p dirh ents;
  np_held : held er fh i (Fileh n h idx) key.1 h c l l v;
  np_ready : ready c0 ino v p m O;
  np_name : names v !! Some n = Some i;
}.
Context (Hc : c <= cmax) (Hi : i ≠ ino) (Hfresh : ∀ (key : dir_key) x, m !! key = Some x → x.1 ≠ n).
Context (Hentry : entry_ok po (Fileh n h idx) dirh m) (Hfits : fits fuel k (k + 1) dirh) (Hid : po_id po ≠ []).

(** An object that is there may be replaced. *)
Definition allowed : Prop := ow = true ∨ O !! key = None ∨ ∃ e, er e.

(** The object is entered in the directory's file [p']. *)
Definition entered (v : vol) : Prop :=
  ∃ p', ready cmax ino v p' m' O' ∧ dlost k ino v p' ∧ names v !! Some n = Some i.

Definition unnamed (v : vol) : Prop := ready c0 ino v p m O ∧ dlost k ino v p.

Lemma pre_quiet v v' : named_pre v → quiet ino v v' → dopen k er 1 ino g 1 v' p dirh ents → named_pre v'.
Proof.
  intros [H1 H2 H3 H4] Hq Hd. constructor; [done| |by eapply ready_quiet|].
  - pose proof Hq as (_ & Ef & _ & _ & Ei). eapply held_frame; [exact H2|done|by apply Ei|].
    intros e. by apply (dopen_faults _ Hd).
  - by destruct Hq as (_ & _ & -> & _).
Qed.

Lemma pre_open v : named_pre v → open_with fh v.
Proof.
  intros [H1 (o & d & Hf & _) _ _]. split; [by eapply dopen_some|].
  split; [exact (dp_refcount _ _ _ _ _ _ _ _ _ _ H1)|]. by eexists.
Qed.

Lemma pre_unnamed v : named_pre v → unnamed v.
Proof. intros [H1 _ H3 _]. split; [done|]. by apply (dopen_dlost _ H1). Qed.

Lemma get_fd_pre v (R : tee_result → vol → Prop) :
  named_pre v → wp (get_fd fh) (λ f v', v' = v ∧ f_dfh f = Fileh n h idx) R v.
Proof.
  intros [_ (o & d & Hf & _) _ _]. unfold get_fd. apply wp_bind, wp_get. rewrite Hf, lookup_singleton_eq. by apply wp_ret.
Qed.

(** The end of set_name(): the entry is written and committed. *)
Lemma wp_enter v (old : option Z) x :
  named_pre v → allowed → (∀ n0 (key' : dir_key) x, old = Some n0 → m' !! key' = Some x → x.1 ≠ n0) →
  wp (dirh_rename fuel junk po (Fileh n h x))
    (λ _ v', changed k er 1 ino g 1 v v' p m' (fits fuel k k)) (λ e v', er e ∧ busted k ino v v' p) v →
  wp (f ← get_fd fh;
      dfh ← dirh_rename fuel junk po (Fileh (dfh_file_number (f_dfh f)) (dfh_hash (f_dfh f)) x);
      _ ← set_dfh fh dfh;
      _ ← commit_dirh_writes junk;
      match old with Some n => _ ← mtry (tee_fs_rpc_remove_dfh (Some n)); mret tt | None => mret tt end)
    (λ _ v', open_with fh v' ∧ allowed ∧ stands fuel k v' O')
    (λ e v', er e ∧ open_with fh v' ∧ (unnamed v' ∨ allowed ∧ entered v')) v.
Proof.
  intros Hpre Hal Hold Hren. pose proof Hpre as [H1 H2 H3 H4].
  apply wp_bind. eapply wp_mono; [apply (get_fd_pre v (λ _ _, False) Hpre)| |by intros]; cbv beta.
  intros f v0 [-> Hf]. rewrite Hf.
  cbn [dfh_file_number dfh_hash]. apply wp_bind.
  eapply wp_mono; [exact Hren| |]; cbv beta.
  2: { intros e v' [He (Hq & Hs & Hl)]. split; [done|]. split; [eapply open_with_quiet; [by apply pre_open|done|done]|].
       left. split; [by eapply ready_quiet|done]. }
  intros dfh v1 (Hq & d & ents' & Hd1 & Hm & Hfit).
  pose proof Hq as (Er & Ef & En & Ex & Ei).
  pose proof (open_with_quiet _ _ _ _ (pre_open v Hpre) Hq (dopen_some Hd1)) as Ho1.
  apply wp_bind, wp_modify. set (v2 := set_fds v1 _).
  assert (dopen k er 1 ino g 1 v2 p d ents') as Hd2.
  { eapply dopen_elsewhere; [exact Hd1|by split_and!|]. intros e He. by apply (dopen_faults _ Hd1). }
  assert (open_with fh v2) as Ho2.
  { destruct Ho1 as (Hs1 & Hr1 & y & Hy). split; [done|]. split; [done|].
    exists (Fd (f_ht y) (f_ino y) dfh). unfold v2. cbn. by rewrite Hy, alter_singleton_eq. }
  destruct H3 as (Hdk & Hon & Hroom).
  assert (disk cmax ino v1 m' O') as Hdk1.
  { apply (disk_enter ino v1 m O n i h c l key).
    - by eapply disk_quiet.
    - by rewrite En.
    - destruct (held_is H2) as (dv & Hdv & Hfile). exists dv. by rewrite Ei.
    - done.
    - intros key' x' Hx' _. by apply (Hfresh key'). }
  assert (ready cmax ino v2 (dir_bytes ents') m' O') as Hready.
  { split; [|split].
    - by apply (disk_ext _ _ v1).
    - exists ents'. split_and!; [apply Hd2|done|done].
    - rewrite <- Hm. apply (fits_room fuel _ d); [apply Hd2|apply Hd2|done]. }
  eapply wp_mono; [by apply (wp_commit_name er ino g v2 p d ents' m' O' old fh)| |]; cbv beta.
  - intros _ v' [Ho Hst]. done.
  - intros e v' (He & Ho & Hq' & Hl). split; [done|]. split; [done|].
    destruct Hl as [Hl|Hl]; [left|right; split; [done|]].
    + split; [|done]. split; [|done]. eapply disk_quiet; [|exact Hq']. apply (disk_ext _ _ v1); try done.
      by eapply disk_quiet.
    + exists (dir_bytes ents'). split; [by eapply ready_quiet|]. split; [done|].
      destruct Hq' as (_ & _ & -> & _). cbn. by rewrite En.
Qed.

Lemma wpp_set_name v :
  named_pre v →
  wpp (set_name fuel junk fh po ow)
    (λ _ v', open_with fh v' ∧ allowed ∧ stands fuel k v' O')
    (λ e v', open_with fh v' ∧
       ((er e ∨ e = TEE_ERROR_ACCESS_CONFLICT ∧ ow = false ∧ is_Some (O !! key)) ∧ unnamed v'
        ∨ er e ∧ allowed ∧ entered v'))
    (λ v', (∃ e, er e) ∧ stands fuel k v' O) v.
Proof.
  intros Hpre. pose proof Hpre as [H1 H2 H3 H4]. unfold set_name. apply wpp_bind, wpp_try.
  assert (∀ v' (old : option Z) x, named_pre v' → allowed →
    (∀ n0 (key' : dir_key) x, old = Some n0 → m' !! key' = Some x → x.1 ≠ n0) →
    wp (dirh_rename fuel junk po (Fileh n h x))
      (λ _ v'', changed k er 1 ino g 1 v' v'' p m' (fits fuel k k)) (λ e v'', er e ∧ busted k ino v' v'' p) v' →
    wpp (f ← get_fd fh;
      dfh ← dirh_rename fuel junk po (Fileh (dfh_file_number (f_dfh f)) (dfh_hash (f_dfh f)) x);
      _ ← set_dfh fh dfh;
      _ ← commit_dirh_writes junk;
      match old with Some n => _ ← mtry (tee_fs_rpc_remove_dfh (Some n)); mret tt | None => mret tt end)
    (λ _ v', open_with fh v' ∧ allowed ∧ stands fuel k v' O')
    (λ e v', open_with fh v' ∧
       ((er e ∨ e = TEE_ERROR_ACCESS_CONFLICT ∧ ow = false ∧ is_Some (O !! key)) ∧ unnamed v'
        ∨ er e ∧ allowed ∧ entered v'))
    (λ v', (∃ e, er e) ∧ stands fuel k v' O) v') as Htail.
  { intros v' old x Hp Ha Hold Hren. eapply wpp_call; [by apply (wp_enter v' old x)|done|].
    intros e v'' (He & Ho & [Hu|[_ Hent]]); (split; [done|]); [left|right]; auto. }
  assert (∀ v', named_pre v' → wp (dirh_rename fuel junk po (Fileh n h (-1)))
      (λ _ v'', changed k er 1 ino g 1 v' v'' p m' (fits fuel k k)) (λ e v'', er e ∧ busted k ino v' v'' p) v') as Hnew.
  { intros v' [Hd _ _ _]. apply (wp_dirh_rename_new fuel junk junk_ok k Hk er 1 ino g 1 v' p dirh ents po (Fileh n h (-1)) k k);
      done || lia. }
  eapply wpp_call; [apply (wp_dirh_find fuel junk junk_ok k Hk er 1 ino g 1 v p dirh ents po k (k + 1) H1 Hnf Hid Hfits); lia| |]; cbv beta.
  - intros dfh v1 (Hq & Hd1 & e0 & Href & Hk0 & Hh0). pose proof (pre_quiet v v1 Hpre Hq Hd1) as Hpre1.
    pose proof Href as (j & _ & Hlj & Huj & Hnj).
    pose proof (dir_map_entry ents j e0 (dp_ents _ _ _ _ _ _ _ _ _ _ H1) Hlj Huj) as Hm0. rewrite Hk0, Hnj in Hm0.
    assert (is_Some (O !! key)) as Hsome.
    { destruct H3 as (Hdk & _). pose proof (dk_files _ _ _ _ _ Hdk) as Hf. specialize (Hf key). rewrite Hm0 in Hf.
      destruct (O !! key); [by eexists|done]. }
    destruct ow eqn:Eow.
    + apply (Htail v1 (Some (dfh_file_number dfh)) (dfh_idx dfh)); [done|by left| |].
      * intros n0 key' x [= <-] Hx. destruct (decide (key' = key)) as [-> |Hne].
        -- rewrite lookup_insert_eq in Hx. injection Hx as <-. cbn. intros ->. by apply (Hfresh _ _ Hm0).
        -- rewrite lookup_insert_ne in Hx by done. intros Heq. apply Hne.
           destruct H3 as (Hdk & _). by apply (dk_numbers _ _ _ _ _ Hdk key' key x _ Hx Hm0).
      * apply (wp_dirh_rename_own fuel junk junk_ok k Hk er 1 ino g 1 v1 p dirh ents po (Fileh n h (dfh_idx dfh)) dfh e0 k k);
          done || lia.
    + apply wpp_wp, wp_throw. split; [by apply pre_open|]. left. split; [by right|by apply pre_unnamed].
  - intros e v1 (Hq & Hds & [(-> & Hd1 & Hno)|[He Hor]]).
    + pose proof (pre_quiet v v1 Hpre Hq Hd1) as Hpre1.
      assert (O !! key = None) as HO.
      { destruct H3 as (Hdk & _). pose proof (dk_files _ _ _ _ _ Hdk) as Hf. specialize (Hf key). rewrite Hno in Hf.
        by destruct (O !! key). }
      assert (¬ (ow = false ∧ is_Some (O !! key))) as Hn by (rewrite HO; by intros [_ [? ?]]).
      destruct ow; apply (Htail v1 None (-1)); try done; try (right; by left); auto.
    + assert (allowed) as Hal by (right; right; by eexists).
      destruct Hor as [Hd1|Hcl].
      * pose proof (pre_quiet v v1 Hpre Hq Hd1) as Hpre1.
        destruct ow; apply (Htail v1 None (-1)); try done; by apply Hnew.
      * assert (wpp (f ← get_fd fh; dfh ← dirh_rename fuel junk po (Fileh (dfh_file_number (f_dfh f)) (dfh_hash (f_dfh f)) (-1));
          _ ← set_dfh fh dfh; _ ← commit_dirh_writes junk; mret tt)
          (λ _ v', open_with fh v' ∧ allowed ∧ stands fuel k v' O')
          (λ e v', open_with fh v' ∧
             ((er e ∨ e = TEE_ERROR_ACCESS_CONFLICT ∧ ow = false ∧ is_Some (O !! key)) ∧ unnamed v'
              ∨ er e ∧ allowed ∧ entered v'))
          (λ v', (∃ e, er e) ∧ stands fuel k v' O) v1) as Hpan; [|by destruct ow].
        apply wpp_bind. unfold wpp at 1, get_fd, mget, mbind, M_bind.
        destruct H2 as (o & d & Hf & _). destruct Hq as (E1 & E2 & E3 & E4 & E5). rewrite E2, Hf, lookup_singleton_eq.
        cbn. apply wpp_bind. apply (rename_closed fuel junk junk_ok k Hk ino g v1 p dirh po); [done|done| |done|apply Hentry].
        intros v' Hq' Hl'. split; [by eexists|]. eapply (ready_stands c0 ino v' p m); [|done|lia].
        eapply ready_quiet; [|exact Hq']. eapply ready_quiet; [exact H3|by split_and!].
Qed.
End set_name.
End with_crypto.
