(* ===== verification/ReeCreate.v ===== *)
(** * core/tee/tee_ree_fs.c: an object is created

    From a volume with nothing open: ree_fs_create() and the closing of the handle it
    gives out. *)
From S2P Require Import Prelude BlockFile ByteFile Htree HtreeTree HtreeProofs ReeFs HtreeStore.
From S2P Require Import Uuid Bitstring Dirfile DirfileProofs DirfileSpec DirfileMap DirfileRename ReeDirf ReeObj ReeFile ReeVol ReeVolProofs ReeObjProofs ReeTx.

Local Open Scope Z_scope.

Section with_crypto.
Context `{CryptoLaws}.
Context (fuel : nat) (junk : nat → list Z).
Context (junk_ok : ∀ n, List.length (junk n) = n ∧ Forall (λ x, 0 <= x < 256) (junk n)).
Context (k : Z) (Hk : 0 <= k < UINT32_MAX).
Abbreviation cmax := (UINT32_MAX - k).
Abbreviation c0 := (UINT32_MAX - (k + 1)).
Abbreviation objects := (gmap dir_key (list Z)).

(** ** Operations between get_dirh() and put_dirh() *)

(** A property of normal world. *)
Definition on_storage (S : vol → Prop) : Prop :=
  ∀ v v', S v → names v' = names v → inodes v' = inodes v → (next v <= next v')%nat → S v'.

Lemma stands_storage j O : on_storage (λ v, stands fuel j v O).
Proof. intros v v' Hs En Ei Ex. by eapply stands_ext. Qed.

(** Only the directory is open. *)
Definition settled (v : vol) : Prop := is_Some (ree_fs_dirh v) ∧ ree_fs_dirh_refcount v = 1 ∧ fds v = ∅.

Lemma put_settled close (S : vol → Prop) v :
  settled v → S v → on_storage S → idle (after_put close 1 v) ∧ S (after_put close 1 v).
Proof.
  intros (Hd & _ & Hf) HS Hst. split; [by apply after_put_idle|].
  destruct (after_put_storage close 1 v) as (E1 & E2 & E3). eapply Hst; [done..|]. by rewrite E3.
Qed.

(** The directory is open and nothing else is. *)
Record opened (er : tee_result → Prop) (O : objects) (ino g : nat) (p : list Z) (dirh : tee_fs_dirfile_dirh)
    (ents : list dirfile_entry) (v : vol) : Prop := {
  od_dopen : dopen k er 1 ino g 1 v p dirh ents;
  od_fits : fits fuel (k + 1) (k + 1) dirh;
  od_ready : ready fuel k c0 ino v p (dir_map ents) O;
  od_fds : fds v = ∅;
}.

Lemma opened_settled {er O ino g p dirh ents v v'} :
  opened er O ino g p dirh ents v → quiet ino v v' → is_Some (ree_fs_dirh v') → settled v'.
Proof.
  intros [H1 _ _ H4] (E1 & E2 & _) Hs. split; [done|]. split; [|congruence].
  rewrite E1. apply (dp_refcount _ _ _ _ _ _ _ _ _ _ H1).
Qed.

(** The operation failed, the directory is what it was. *)
Lemma opened_busted {er O ino g p dirh ents v v'} :
  opened er O ino g p dirh ents v → busted k ino v v' p → settled v' ∧ stands fuel k v' O.
Proof.
  intros Ho (Hq & Hs & Hl). split; [by eapply opened_settled|].
  eapply (ready_stands fuel k c0); [|done|lia]. eapply ready_quiet; [apply Ho|done].
Qed.

Lemma no_twins_quiet {er O ino g p dirh ents v v'} :
  opened er O ino g p dirh ents v → no_twins v → quiet ino v v' → no_twins v'.
Proof.
  intros [_ _ ([[Hinj _] Hdir _ _] & _) _] Ht (_ & _ & En & _ & Ei) n i d. rewrite En. intros Hn.
  rewrite Ei; [exact (Ht n i d Hn)|]. intros ->. by pose proof (Hinj _ _ _ Hn Hdir).
Qed.

Definition ends (close : option bool) (v : vol) (Q : vol → Prop) : Prop :=
  match close with Some c => settled v ∧ Q (after_put c 1 v) | None => Q v end.

Lemma wpp_with_dirh {A} (m : V A) (cok : option bool) cerr v O (Q : A → vol → Prop) (R : tee_result → vol → Prop) P :
  idle v → stands fuel (k + 1) v O → ¬ vfault v TEE_ERROR_ITEM_NOT_FOUND →
  (∀ v' ino g p dirh ents, opened (vfault v) O ino g p dirh ents v' → (no_twins v → no_twins v') →
     wpp m (λ a v'', ends cok v'' (Q a)) (λ e v'', settled v'' ∧ R e (after_put cerr 1 v'')) P v') →
  (∀ e v', vfault v e → idle v' ∧ stands fuel k v' O → R e v') →
  wpp (with_dirh fuel junk m cok cerr) Q R P v.
Proof.
  intros Hi Hs Hnf Hm HR. unfold with_dirh. apply wpp_bind.
  eapply wpp_call; [by apply (wp_get_dirh fuel junk junk_ok k Hk v O)| |by intros e v' (He & Hr); apply HR]; cbv beta.
  intros _ v1 (ino & g & p & dirh & ents & Hd & Hfit & Hon & Hroom & Hdk & Hf & En & Ei).
  assert (no_twins v → no_twins v1) as Htw1.
  { intros Htw n i d Hn. rewrite Ei; [rewrite En in Hn; exact (Htw n i d Hn)|]. intros ->.
    destruct Hdk as [[Hinj _] Hdir _ _]. by pose proof (Hinj _ _ _ Hn Hdir). }
  apply wpp_bind, wpp_try. eapply wpp_mono; [apply (Hm v1 ino g p dirh ents); [by constructor|done]| | |done]; cbv beta.
  - intros a v2 He. destruct cok as [c|]; cbn in He; [|by apply wpp_bind].
    destruct He as [(_ & Hc & _) HQ]. apply wpp_bind, wpp_wp, (wp_put_dirh c 1); [done|lia|]. done.
  - intros e v2 [(_ & Hc & _) Hr]. apply wpp_bind, wpp_wp, (wp_put_dirh cerr 1); [done|lia|]. done.
Qed.

(** ** Writing the file of a new object *)

(** The file with the number [n] belongs to no object and holds [l]. *)
Record fresh_file (er : tee_result → Prop) (O : objects) (ino g fh i : nat) (p : list Z) (dirh : tee_fs_dirfile_dirh)
    (ents : list dirfile_entry) (po : pobj) (n : Z) (h : list Z) (c : Z) (l0 l : list Z) (v : vol) : Prop := {
  ff_dopen : dopen k er 1 ino g 1 v p dirh ents;
  ff_held : held er fh i (Fileh n h 0) (po_key po).1 h c l0 l v;
  ff_ready : ready fuel k c0 ino v p (dir_map ents) O;
  ff_name : names v !! Some n = Some i;
  ff_other : i ≠ ino;
  ff_fits : fits fuel k (k + 1) dirh;
  ff_marked : test_file dirh n = true;
  ff_range : 0 <= n < bits_range;
  ff_fresh (key : dir_key) x : dir_map ents !! key = Some x → x.1 ≠ n;
}.

(** The file is removed again; its name may have stayed. *)
Definition given_up (fh : nat) (n : Z) (O : objects) (v : vol) : Prop :=
  open_with fh v ∧ stands fuel k v O ∧ stands fuel k (set_names v (delete (Some n) (names v))) O.

Lemma unnamed_given_up ino p ents O fh n v :
  open_with fh v → (∀ (key : dir_key) x, dir_map ents !! key = Some x → x.1 ≠ n) →
  unnamed fuel k ino p ents O v → given_up fh n O v.
Proof.
  intros Ho Hn [Hr Hl]. split; [done|]. split; [eapply (ready_stands fuel k c0); [done|done|lia]|].
  eapply (ready_stands fuel k c0); [|done|lia]. destruct Hr as (Hd & Hr). split; [|done]. by apply disk_unname.
Qed.

Lemma fresh_step {er O ino g fh i p dirh ents po n h c l0 l v v' P l0' l' h' c'} :
  fresh_file er O ino g fh i p dirh ents po n h c l0 l v → fstep fh i P v v' →
  held er fh i (Fileh n h' 0) (po_key po).1 h' c' l0' l' v' →
  fresh_file er O ino g fh i p dirh ents po n h' c' l0' l' v'.
Proof.
  intros [H1 H2 (Hd & Hr) H4 H5 H6 H7 H8 H9] Hs Hh. destruct (fstep_names Hs) as [En Ex].
  constructor; try done; [|split; [|done]|by rewrite En].
  - eapply dopen_elsewhere; [done|by eapply fstep_elsewhere|]. intros e He. by apply (held_faults Hh).
  - eapply (fstep_disk c0 ino _ O n Hs); [done|done|]. intros d key x l1 _ Hx Hn. by destruct (H9 key x).
Qed.

Lemma fresh_lost {er O ino g fh i p dirh ents po n h c l0 l v v' P} :
  fresh_file er O ino g fh i p dirh ents po n h c l0 l v → fstep fh i P v v' → given_up fh n O v'.
Proof.
  intros [H1 H2 (Hd & Hr) H4 H5 H6 H7 H8 H9] Hs. destruct (fstep_names Hs) as [En Ex].
  pose proof (fstep_elsewhere ino Hs H5) as He. destruct (fstep_fds Hs) as [x Hx].
  apply (unnamed_given_up ino p ents); [|done|].
  - destruct He as (E1 & E2 & E3 & E4). split; [rewrite E1; by eapply dopen_some|].
    split; [rewrite E2; apply (dp_refcount _ _ _ _ _ _ _ _ _ _ H1)|]. by exists x.
  - split; [split; [|done]|].
    + eapply (fstep_disk c0 ino _ O n Hs); [done|done|]. intros d key x' l1 _ Hx' Hn. by destruct (H9 key x').
    + eapply dlost_elsewhere; [by eapply dopen_dlost|done].
Qed.

(** The parts are written and the file is synchronised. *)
Lemma wp_fill_file {er O ino g fh i p dirh ents po n h v} (x y z : list Z) :
  fresh_file er O ino g fh i p dirh ents po n h 1 [] [] v → Z.of_nat (List.length (x ++ y ++ z)) < 2 ^ 31 →
  wp (pos ← write_part fh 0 x; pos ← write_part fh pos y; _ ← write_part fh pos z; sync_fd fh)
    (λ _ v', ∃ h', fresh_file er O ino g fh i p dirh ents po n h' 2 (x ++ y ++ z) (x ++ y ++ z) v')
    (λ e v', er e ∧ given_up fh n O v') v.
Proof.
  intros Hff Hlen.
  assert (wp (_ ← (pos ← write_part fh 0 x; pos ← write_part fh pos y; write_part fh pos z); sync_fd fh)
    (λ _ v', ∃ h', fresh_file er O ino g fh i p dirh ents po n h' 2 (x ++ y ++ z) (x ++ y ++ z) v')
    (λ e v', er e ∧ given_up fh n O v') v) as Hw.
  { apply wp_bind. eapply wp_mono; [by apply (wp_write_parts er fh i (Fileh n h 0) (po_key po).1 h 1 v x y z (ff_held _ _ _ _ _ _ _ _ _ _ _ _ _ _ _ _ Hff))| |]; cbv beta.
    2: { intros e v' [He Hs]. split; [done|]. by eapply fresh_lost. }
    intros _ v1 [Hh Hs]. pose proof (fresh_step Hff Hs Hh) as Hf1.
    eapply wp_mono; [apply (wp_sync_fd er fh i (Fileh n h 0) (po_key po).1 1 [] (x ++ y ++ z) v1 Hh); unfold UINT32_MAX; lia| |]; cbv beta.
    - intros _ v2 (h' & Hh' & Hs'). exists h'. by eapply fresh_step.
    - intros e v2 [He Hs']. split; [done|]. by eapply fresh_lost. }
  clear -Hw. unfold wp, mbind, M_bind in *. destruct (write_part fh 0 x v) as [[p1| |] v1]; try done.
  by destruct (write_part fh p1 y v1) as [[p2| |] v2].
Qed.

(** ** ree_fs_create() *)

(** The directory refers to a file that has no name any more. *)
Definition dangling (v : vol) (O : objects) : Prop :=
  ∃ n i, names v !! Some n = None ∧ stands fuel k (set_names v (<[Some n := i]> (names v))) O.

Lemma dangling_storage O : on_storage (λ v, dangling v O).
Proof.
  intros v v' (n & i & Hn & Hs) En Ei Ex. exists n, i. rewrite En. split; [done|]. by eapply stands_ext.
Qed.

(** ree_fs_create() gives up. *)
Lemma wp_abandon {A} fh n e v (S S' : vol → Prop) (Q : A → vol → Prop) :
  open_with fh v → on_storage S → on_storage S' → S v → S' (set_names v (delete (Some n) (names v))) →
  wp (_ ← put_dirh_primitive true; _ ← ree_fs_close_primitive fh; _ ← mtry (tee_fs_rpc_remove_dfh (Some n)); mthrow e)
    Q (λ e' v', e' = e ∧ idle v' ∧ (S v' ∨ S' v')) v.
Proof.
  intros (Hd & Hc & x & Hf) HS HS' Hv Hv'. apply wp_bind, (wp_put_dirh true 1); [done|lia|].
  apply wp_bind, wp_modify, wp_bind, wp_remove_name. intros r v1 [[f ->] _].
  assert (after_put true 1 v = set_dirh (set_dirh_fh (set_refcount v 0) None) None) as ->.
  { unfold after_put. by rewrite bool_decide_eq_true_2. }
  split; apply wp_throw; (split; [done|]); split.
  1, 3: unfold idle; cbn; rewrite Hf, delete_singleton_eq; by split_and!.
  - left. by apply (HS v).
  - right. by eapply (HS' _ _ Hv').
Qed.

Section create.
Context (Hsha : ∀ x, List.length (sha256 x) = TEE_FS_HTREE_HASH_SIZE) (Hk2 : k + 2 <= UINT32_MAX).
Context (po : pobj) (ow : bool) (O : objects).
Context (Huuid : uuid_wf (po_uuid po)) (Hid : 0 < Z.of_nat (List.length (po_id po)) <= 64).

Lemma wp_new_file er ino g p dirh ents v :
  opened er O ino g p dirh ents v →
  wp (number ← dirh_get_tmp junk;
      f ← ree_fs_open_primitive true None (uuid_bytes (po_uuid po)) (Some (Fileh number [] 0));
      fh ← add_fd f;
      mret (fh, number))
    (λ '(fh, n) v', ∃ i d ents' h, fresh_file er O ino g fh i p d ents' po n h 1 [] [] v')
    (λ e v', er e ∧ settled v' ∧ stands fuel k v' O) v.
Proof.
  intros Ho. pose proof Ho as [H1 H2 H3 H4]. apply wp_bind.
  eapply wp_mono; [apply (wp_dirh_get_tmp fuel junk junk_ok k Hk er 1 ino g 1 v p dirh ents k (k + 1) H1 H2); lia| |]; cbv beta.
  2: { intros e v' [He Hb]. split; [done|]. by apply (opened_busted Ho). }
  intros n v1 (Hn & Hfresh & Hq & d & ents' & Hd1 & Hm & Hfit & Ht). rewrite <- Hm in Hfresh.
  assert (ready fuel k c0 ino v1 p (dir_map ents') O) as Hr1 by (rewrite Hm; by eapply ready_quiet).
  destruct Hr1 as (Hdk & Hon). apply wp_bind.
  eapply wp_mono; [by apply (wp_create_file c0 ino v1 (dir_map ents') O n)| |]; cbv beta.
  - intros f v2 ([He Hdk2] & Ef & i & ht & dv & -> & Hni & Hio & Hi & Hop). unfold add_fd. apply wp_bind. cbn.
    eexists i, d, ents', (root_hash ht). constructor; try done.
    + eapply dopen_elsewhere; [exact Hd1|done|]. intros e Hf. apply (dopen_faults _ Hd1).
      exact (file_open_faults _ _ _ _ _ _ _ Hop e Hf).
    + eexists (Some ht), dv. split; [cbn; rewrite Ef|].
      { destruct Hq as (_ & -> & _). by rewrite H4, insert_empty. }
      split; [done|]. eapply file_open_file; [exact Hop|by split_and!|]. intros e Hf. apply (dopen_faults _ Hd1).
      exact (file_open_faults _ _ _ _ _ _ _ Hop e Hf).
    + split; [|done]. eapply disk_ext; [exact Hdk2|done|cbn; lia|done].
  - intros e v2 (Hf & [He Hdk2] & Ef). split; [by apply (dopen_faults _ Hd1)|].
    pose proof He as (E1 & E2 & E3 & E4). split.
    + split; [rewrite E1; by eapply dopen_some|]. split; [rewrite E2; apply Hd1|]. rewrite Ef.
      by destruct Hq as (_ & -> & _).
    + eapply (ready_stands fuel k c0); [by split|eapply dlost_elsewhere; [by eapply dopen_dlost|done]|lia].
Qed.

Lemma wpp_name_file er ino g fh i p d ents n h l v :
  ¬ er TEE_ERROR_ITEM_NOT_FOUND → fresh_file er O ino g fh i p d ents po n h 2 l l v →
  wpp (set_name fuel junk fh po ow)
    (λ _ v', open_with fh v' ∧ allowed er O po ow ∧ stands fuel k v' (<[po_key po := l]> O))
    (λ e v', (er e ∨ e = TEE_ERROR_ACCESS_CONFLICT ∧ ow = false ∧ is_Some (O !! po_key po)) ∧ given_up fh n O v'
       ∨ er e ∧ allowed er O po ow ∧ open_with fh v' ∧ names v' !! Some n = Some i
         ∧ stands fuel k v' (<[po_key po := l]> O))
    (λ v', (∃ e, er e) ∧ stands fuel k v' O) v.
Proof.
  intros Hnf [H1 H2 H3 H4 H5 H6 H7 H8 H9].
  eapply wpp_mono; [apply (wpp_set_name fuel junk junk_ok k Hk er Hnf ino g p d ents O fh i n h 0 2 po l ow);
    try done; try lia| | |]; cbv beta.
  - split_and!; try done; cbn; try lia.
    + destruct (held_is H2) as (dv & _ & Hf). by apply (file_is_hash _ _ _ _ _ Hsha Hf).
    + intros key x Hx _. by apply (H9 key).
  - intros E. rewrite E in Hid. cbn in Hid. lia.
  - intros _ v' (? & ? & ?). done.
  - intros e v' (Ho & [[He Hu]|(He & Ha & p' & Hr & Hl & Hn)]); [left|right].
    + split; [done|]. by eapply unnamed_given_up.
    + split_and!; try done. by eapply (ready_stands fuel k cmax).
  - done.
Qed.

Lemma wpp_ree_fs_create v (x y z : list Z) :
  idle v → stands fuel (k + 1) v O → ¬ vfault v TEE_ERROR_ITEM_NOT_FOUND → Z.of_nat (List.length (x ++ y ++ z)) < 2 ^ 31 →
  wpp (ree_fs_create fuel junk po ow x y z)
    (λ fh v', open_with fh v' ∧ allowed (vfault v) O po ow ∧ stands fuel k v' (<[po_key po := x ++ y ++ z]> O))
    (λ e v', idle v' ∧
      ((vfault v e ∨ e = TEE_ERROR_ACCESS_CONFLICT ∧ ow = false ∧ is_Some (O !! po_key po)) ∧ stands fuel k v' O
       ∨ vfault v e ∧ allowed (vfault v) O po ow ∧
         (stands fuel k v' (<[po_key po := x ++ y ++ z]> O) ∨ dangling v' (<[po_key po := x ++ y ++ z]> O))))
    (λ v', (∃ e, vfault v e) ∧ stands fuel k v' O) v.
Proof.
  intros Hi Hs Hnf Hlen. unfold ree_fs_create. apply wpp_bind.
  apply (wpp_with_dirh _ _ _ v O); [done|done|done| |].
  2: { intros e v' He [Hi' Hs']. split; [done|]. left. by split; [left|]. }
  intros v1 ino g p dirh ents Ho _.
  eapply wpp_call; [by apply (wp_new_file (vfault v) ino g p dirh ents v1)| |]; cbv beta.
  2: { intros e v2 (He & Hse & Hst). split; [done|].
       destruct (put_settled true (λ v, stands fuel k v O) v2 Hse Hst (stands_storage k O)). split; [done|]. left. by split; [left|]. }
  intros [fh n] v2 (i & d & ents' & h & Hff). cbn [ends]. apply wpp_bind, wpp_try.
  apply wpp_mono with
    (Q := λ _ v', open_with fh v' ∧ allowed (vfault v) O po ow ∧ stands fuel k v' (<[po_key po := x ++ y ++ z]> O))
    (R := λ e v', (vfault v e ∨ e = TEE_ERROR_ACCESS_CONFLICT ∧ ow = false ∧ is_Some (O !! po_key po)) ∧ given_up fh n O v'
       ∨ vfault v e ∧ allowed (vfault v) O po ow ∧ open_with fh v' ∧ names v' !! Some n = Some i
         ∧ stands fuel k v' (<[po_key po := x ++ y ++ z]> O))
    (P := λ v', (∃ e, vfault v e) ∧ stands fuel k v' O); [| | |done].
  - assert (wpp (_ ← (pos ← write_part fh 0 x; pos ← write_part fh pos y; _ ← write_part fh pos z; sync_fd fh); set_name fuel junk fh po ow)
      (λ _ v', open_with fh v' ∧ allowed (vfault v) O po ow ∧ stands fuel k v' (<[po_key po := x ++ y ++ z]> O))
      (λ e v', (vfault v e ∨ e = TEE_ERROR_ACCESS_CONFLICT ∧ ow = false ∧ is_Some (O !! po_key po)) ∧ given_up fh n O v'
         ∨ vfault v e ∧ allowed (vfault v) O po ow ∧ open_with fh v' ∧ names v' !! Some n = Some i
           ∧ stands fuel k v' (<[po_key po := x ++ y ++ z]> O))
      (λ v', (∃ e, vfault v e) ∧ stands fuel k v' O) v2) as Hw.
    { apply wpp_bind. eapply wpp_call; [by apply (wp_fill_file x y z Hff)| |]; cbv beta.
      - intros _ v3 (h' & Hf3). by apply (wpp_name_file (vfault v) ino g fh i p d ents' n h').
      - intros e v3 [He Hg]. left. by split; [left|]. }
    clear -Hw. unfold wpp, mbind, M_bind in *. destruct (write_part fh 0 x v2) as [[p1| |] w1]; try done.
    destruct (write_part fh p1 y w1) as [[p2| |] w2]; try done. by destruct (write_part fh p2 z w2) as [[p3| |] w3].
  - intros _ v3 (Ho3 & Ha & Hst). by apply wpp_wp, wp_ret.
  - intros e v3 [[He (Ho3 & Hst & Hst')]|(He & Ha & Ho3 & Hn & Hst)].
    + eapply wpp_call; [by apply (wp_abandon fh n e v3 (λ v, stands fuel k v O) (λ v, stands fuel k v O) (λ _ _, False));
        [| | | |]; try apply stands_storage|done|]; cbv beta.
      intros e' v4 (-> & Hi4 & Hor). split; [done|]. left. split; [done|]. by destruct Hor.
    + eapply wpp_call; [apply (wp_abandon fh n e v3 (λ v, stands fuel k v (<[po_key po := x ++ y ++ z]> O))
        (λ v, dangling v (<[po_key po := x ++ y ++ z]> O)) (λ _ _, False)); [done|apply stands_storage|apply dangling_storage|done|]|done|]; cbv beta.
      * exists n, i. cbn. split; [apply lookup_delete_eq|]. rewrite insert_delete_eq, insert_id by done. by destruct v3.
      * intros e' v4 (-> & Hi4 & Hor). split; [done|]. right. done.
Qed.
End create.
End with_crypto.
