(* ===== verification/ReeAccess.v ===== *)
(** * core/tee/tee_ree_fs.c: an object is opened, read, written and closed

    From a volume with nothing open: ree_fs_open(), one operation with the handle,
    and ree_fs_close(). *)
From S2P Require Import Prelude BlockFile ByteFile Htree HtreeTree HtreeProofs ReeFs HtreeStore.
From S2P Require Import Uuid Bitstring Dirfile DirfileProofs DirfileSpec DirfileMap DirfileRename ReeDirf ReeObj ReeFile ReeVol ReeVolProofs ReeObjProofs ReeTx ReeCreate.

Local Open Scope Z_scope.

Section with_crypto.
Context `{CryptoLaws}.
Context (fuel : nat) (junk : nat → list Z).
Context (junk_ok : ∀ n, List.length (junk n) = n ∧ Forall (λ x, 0 <= x < 256) (junk n)).
Context (k : Z) (Hk : 0 <= k < UINT32_MAX).
Abbreviation cmax := (UINT32_MAX - k).
Abbreviation c0 := (UINT32_MAX - (k + 1)).
Abbreviation objects := (gmap dir_key (list Z)).

(** ** ree_fs_close() *)

(** The last handle; the directory may have been closed. *)
Definition handle (fh : nat) (v : vol) : Prop :=
  ree_fs_dirh_refcount v = 1 ∧ (∃ x, fds v = {[fh := x]}) ∧ (ree_fs_dirh v = None → dirh_fh v = None).

Lemma handle_open fh v : open_with fh v → handle fh v.
Proof. intros ([x Hd] & Hc & Hf). split; [done|]. split; [done|]. intros E. congruence. Qed.

Lemma wp_ree_fs_close fh v (S : vol → Prop) R :
  handle fh v → on_storage S → S v → wp (ree_fs_close fh) (λ _ v', idle v' ∧ S v') R v.
Proof.
  intros (Hc & [x Hf] & Hd) HS Hv. apply wp_bind, (wp_put_dirh false 1); [done|lia|]. apply wp_modify.
  destruct (after_put_storage false 1 v) as (E1 & E2 & E3).
  split; [|by eapply HS; [exact Hv|..]; cbn; try done; rewrite E3].
  unfold after_put, idle. change (1 - 1 =? 0) with true. case_bool_decide as Hs; cbn; rewrite Hf, delete_singleton_eq.
  - by split_and!.
  - assert (ree_fs_dirh v = None) as En by (apply eq_None_not_Some, Hs). by rewrite En, (Hd En).
Qed.

(** ** ree_fs_open() *)

(** The directory is open with [r] references, and so is the handle [fh]. *)
Definition open_as (r : Z) (fh : nat) (v : vol) : Prop :=
  is_Some (ree_fs_dirh v) ∧ ree_fs_dirh_refcount v = r ∧ ∃ x, fds v = {[fh := x]}.

(** It refers to the file of the handle, which holds [l]. *)
Record obj_file (er : tee_result → Prop) (O : objects) (r : Z) (ino g fh i : nat) (p : list Z) (dirh : tee_fs_dirfile_dirh)
    (ents : list dirfile_entry) (key : dir_key) (f : tee_fs_dirfile_fileh) (e0 : dirfile_entry) (l0 l : list Z)
    (v : vol) : Prop := {
  of_dopen : dopen k er 1 ino g r v p dirh ents;
  of_held : held er fh i f key.1 (dfh_hash f) c0 l0 l v;
  of_ready : ready fuel k c0 ino v p (dir_map ents) O;
  of_name : names v !! Some (dfh_file_number f) = Some i;
  of_other : i ≠ ino;
  of_fits : fits fuel (k + 1) (k + 1) dirh;
  of_refers : refers f ents e0;
  of_key : key_of e0 = key;
  of_hash : d_hash e0 = dfh_hash f;
  of_object : O !! key = Some l0;
}.

Section object.
Context {er : tee_result → Prop} {O : objects} {r : Z} {ino g fh i : nat} {p : list Z} {dirh : tee_fs_dirfile_dirh}.
Context {ents : list dirfile_entry} {key : dir_key} {f : tee_fs_dirfile_fileh} {e0 : dirfile_entry} {l0 l : list Z} {v : vol}.
Context (Hof : obj_file er O r ino g fh i p dirh ents key f e0 l0 l v).

Lemma obj_entry : dir_map ents !! key = Some (dfh_file_number f, dfh_hash f).
Proof.
  destruct Hof as [H1 _ _ _ _ _ (j & _ & Hl & Hu & Hn) <- Hh _].
  rewrite (dir_map_entry ents j e0) by (done || apply H1). by rewrite Hn, Hh.
Qed.

Lemma obj_only (key' : dir_key) x : dir_map ents !! key' = Some x → x.1 = dfh_file_number f → key' = key.
Proof.
  intros Hx Hn. destruct Hof as [_ _ (Hd & _) _ _ _ _ _ _ _].
  by eapply (dk_numbers _ _ _ _ _ Hd key' key x _ Hx obj_entry).
Qed.

(** A step of the file that keeps what the directory refers to. *)
Lemma obj_disk v' :
  fstep fh i (file_is key.1 (dfh_hash f) c0 l0) v v' → disk c0 ino v' (dir_map ents) O ∧ elsewhere ino v v'.
Proof.
  intros Hs. pose proof Hof as [_ _ (Hd & _) Hi Hio _ _ _ _ HO]. split; [|by eapply fstep_elsewhere].
  eapply (fstep_disk c0 ino _ O _ Hs); [done|done|]. intros d key' x l1 Hf Hx Hn Hl1.
  pose proof (obj_only key' x Hx Hn) as ->. rewrite obj_entry in Hx. injection Hx as <-.
  rewrite HO in Hl1. by injection Hl1 as <-.
Qed.

Lemma obj_stands v' :
  fstep fh i (file_is key.1 (dfh_hash f) c0 l0) v v' → open_as r fh v' ∧ stands fuel k v' O.
Proof.
  intros Hs. destruct (obj_disk v' Hs) as [Hd He]. pose proof Hof as [H1 _ (_ & Hr) _ _ _ _ _ _ _]. split.
  - pose proof He as (E1 & E2 & _). split; [rewrite E1; by eapply dopen_some|].
    split; [rewrite E2; apply H1|]. by eapply fstep_fds.
  - eapply (ready_stands fuel k c0); [by split|eapply dlost_elsewhere; [by eapply dopen_dlost|done]|lia].
Qed.

Lemma obj_refl : fstep fh i (file_is key.1 (dfh_hash f) c0 l0) v v.
Proof. eapply fstep_refl, Hof. Qed.
End object.

(** A client of one object, who closes it whatever happens. *)
Definition with_object {A} (po : pobj) (m : nat → Z → V A) : V A :=
  '(fh, size) ← ree_fs_open fuel junk po;
  res ← mtry (m fh size);
  _ ← ree_fs_close fh;
  match res with inr a => mret a | inl e => mthrow e end.

Definition no_object (O : objects) (po : pobj) (v : vol) (e : tee_result) : Prop :=
  e = TEE_ERROR_ITEM_NOT_FOUND ∧ O !! po_key po = None ∨ vfault v e.

Lemma disk_objects {c ino v m O} (key : dir_key) :
  disk c ino v m O → m !! key = None ↔ O !! key = None.
Proof. intros Hd. pose proof (dk_files _ _ _ _ _ Hd) as Hf. specialize (Hf key). by destruct (m !! key), (O !! key). Qed.

Lemma wp_find_open {er O ino g p dirh ents v} po :
  opened fuel k er O ino g p dirh ents v → ¬ er TEE_ERROR_ITEM_NOT_FOUND → po_id po ≠ [] →
  wp (dirh_find fuel junk po)
    (λ dfh v', quiet ino v v' ∧ opened fuel k er O ino g p dirh ents v'
       ∧ ∃ e l, refers dfh ents e ∧ key_of e = po_key po ∧ d_hash e = dfh_hash dfh ∧ O !! po_key po = Some l
           ∧ dir_map ents !! po_key po = Some (dfh_file_number dfh, dfh_hash dfh))
    (λ e v', quiet ino v v' ∧ settled v' ∧ stands fuel k v' O ∧
       (e = TEE_ERROR_ITEM_NOT_FOUND ∧ O !! po_key po = None ∧ opened fuel k er O ino g p dirh ents v'
        ∨ er e ∧ (opened fuel k er O ino g p dirh ents v' ∨ vclosed cmax ino (outside ino v') v' p
                    ∧ ready fuel k c0 ino v' p (dir_map ents) O ∧ ree_fs_dirh v' = Some (g, dirh)))) v.
Proof.
  intros Ho Hnf Hid. pose proof Ho as [H1 H2 H3 H4].
  assert (∀ v', quiet ino v v' → dopen k er 1 ino g 1 v' p dirh ents → opened fuel k er O ino g p dirh ents v') as Hop.
  { intros v' Hq Hd. constructor; [done|done|by eapply ready_quiet|]. by destruct Hq as (_ & -> & _). }
  assert (∀ v', quiet ino v v' → ree_fs_dirh v' = Some (g, dirh) → dlost k ino v' p → settled v' ∧ stands fuel k v' O) as Hst.
  { intros v' Hq Hs Hl. apply (opened_busted fuel k Ho). split; [done|]. by rewrite Hs. }
  eapply wp_mono; [apply (wp_dirh_find fuel junk junk_ok k Hk er 1 ino g 1 v p dirh ents po (k + 1) (k + 1)); done || lia| |]; cbv beta.
  - intros dfh v1 (Hq & Hd1 & e & Href & Hke & Hh). split; [done|]. split; [by apply Hop|].
    assert (dir_map ents !! po_key po = Some (dfh_file_number dfh, dfh_hash dfh)) as Hm.
    { destruct Href as (j & _ & Hl & Hu & Hn). rewrite <- Hke, (dir_map_entry ents j e) by (done || apply H1). by rewrite Hn, Hh. }
    destruct (O !! po_key po) as [l|] eqn:EO; [|apply (disk_objects _ (proj1 H3)) in EO; congruence].
    by exists e, l.
  - intros e v1 (Hq & Hs & Hor).
    assert (dlost k ino v1 p) as Hl.
    { destruct Hor as [(_ & Hd1 & _)|[_ [Hd1|Hc]]]; [by eapply dopen_dlost..|]. apply vlost_closed in Hc. by eapply vlost_dlost. }
    destruct (Hst v1 Hq Hs Hl) as [Hse Hst1]. split; [done|]. split; [done|]. split; [done|].
    destruct Hor as [(-> & Hd1 & Hno)|[He [Hd1|Hc]]]; [left|right; split; [done|]; left; by apply Hop|right; split; [done|]; right].
    + split; [done|]. split; [by eapply (disk_objects _ (proj1 H3))|by apply Hop].
    + split; [done|]. split; [by eapply ready_quiet|done].
Qed.

Lemma wpp_ree_fs_open po v O :
  idle v → stands fuel (k + 1) v O → ¬ vfault v TEE_ERROR_ITEM_NOT_FOUND → no_twins v → po_id po ≠ [] →
  wpp (ree_fs_open fuel junk po)
    (λ '(fh, size) v', ∃ ino g i p dirh ents f e0 l, obj_file (vfault v) O 1 ino g fh i p dirh ents (po_key po) f e0 l l v'
       ∧ size = Z.of_nat (List.length l))
    (λ e v', no_object O po v e ∧ idle v' ∧ stands fuel k v' O) (λ _, False) v.
Proof.
  intros Hi Hs Hnf Htw Hid. apply (wpp_with_dirh fuel junk junk_ok k Hk _ _ _ v O); [done|done|done| |].
  2: { intros e v' He Hr. split; [by right|done]. }
  intros v1 ino g p dirh ents Ho Htw1. specialize (Htw1 Htw).
  assert (∀ v', settled v' ∧ stands fuel k v' O → settled v' ∧ idle (after_put false 1 v') ∧ stands fuel k (after_put false 1 v') O) as Hput.
  { intros v' [Hse Hst]. split; [done|]. apply (put_settled false (λ v, stands fuel k v O) v' Hse Hst), stands_storage. }
  apply wpp_bind. eapply wpp_call; [by apply (wp_find_open po Ho)| |]; cbv beta.
  2: { intros e v2 (Hq & Hse & Hst & Hor). destruct (Hput v2) as [? ?]; [done|]. split; [done|]. split; [|done].
       destruct Hor as [(-> & HO & _)|[He _]]; [by left|by right]. }
  intros dfh v2 (Hq & Ho2 & e0 & l & Href & Hke & Hh & HO & Hm).
  pose proof (no_twins_quiet _ _ Ho Htw1 Hq) as Htw2. pose proof Ho2 as [H1 H2 (Hd & Hr) H4].
  apply wpp_bind, wpp_try.
  eapply wpp_call; [by apply (wp_open_file c0 ino v2 (dir_map ents) O dfh (po_key po) l)| |]; cbv beta.
  - intros fd v3 ([He Hd3] & Ef & i & ht & d & -> & Hn & Hio & Hi3 & Hop). cbn [f_ht].
    apply wpp_bind. unfold wpp at 1, add_fd.
    destruct (file_open_length _ _ _ _ _ _ _ Hop) as (ht' & Eh & Hlen). cbn in Eh. injection Eh as <-.
    apply wpp_wp, wp_ret. exists ino, g, i, p, dirh, ents, dfh, e0, l. split; [|done].
    constructor; try done.
    + eapply dopen_elsewhere; [exact H1|done|]. intros e Hf. apply (dopen_faults _ H1).
      exact (file_open_faults _ _ _ _ _ _ _ Hop e Hf).
    + eexists (Some ht), d. split; [cbn; by rewrite Ef, H4, insert_empty|]. split; [done|].
      eapply file_open_file; [exact Hop|by split_and!|]. intros e Hf. apply (dopen_faults _ H1).
      exact (file_open_faults _ _ _ _ _ _ _ Hop e Hf).
    + split; [|done]. eapply disk_ext; [exact Hd3|done|cbn; lia|done].
  - intros e v3 (Hf & [He Hd3] & Ef). pose proof (dopen_faults _ H1 Hf) as Her.
    assert (settled v3 ∧ stands fuel k v3 O) as Hs3.
    { pose proof He as (E1 & E2 & _). split.
      - split; [rewrite E1; by eapply dopen_some|]. split; [rewrite E2; apply H1|by rewrite Ef].
      - eapply (ready_stands fuel k c0); [by split|eapply dlost_elsewhere; [by eapply dopen_dlost|done]|lia]. }
    destruct (Hput v3 Hs3) as [? ?].
    destruct e; try done; apply wpp_wp, wp_throw; (split; [done|]); (split; [by right|done]).
Qed.
(** ** Reading *)

Lemma wp_obj_read {er O ino g fh i p dirh ents key f e0 l v} pos len :
  obj_file er O 1 ino g fh i p dirh ents key f e0 l l v → 0 <= pos → 0 <= len → pos + len < 2 ^ 64 →
  wp (ree_fs_read fh pos len)
    (λ a v', a = take (Z.to_nat len) (drop (Z.to_nat pos) l) ∧ handle fh v' ∧ stands fuel k v' O)
    (λ e v', er e ∧ handle fh v' ∧ stands fuel k v' O) v.
Proof.
  intros Hof Hp Hl Hm.
  assert (∀ o d, file_is key.1 (dfh_hash f) c0 l d →
    handle fh (set_fds (unplug v i d) {[fh := Fd o i f]}) ∧ stands fuel k (set_fds (unplug v i d) {[fh := Fd o i f]}) O) as Hst.
  { intros o d Hf. destruct (obj_stands Hof _ (fstep_on fh i _ v (Fd o i f) d Hf)) as [Ho Hs]. split; [by apply handle_open|done]. }
  eapply wp_mono; [eapply (wp_held er fh i f key.1 (dfh_hash f) c0 l l); [apply Hof|];
    intros s Hs; exact (wp_fd_read er key.1 (dfh_hash f) c0 l l s pos len Hs Hp Hl Hm)| |]; cbv beta.
  - intros a v' (o & d & [-> Ho] & ->). split; [done|]. apply Hst. by apply file_open_is in Ho.
  - intros e v' (o & d & [He Hf] & ->). split; [done|]. by apply Hst.
Qed.

(** ** Changing *)

Lemma wp_with_open {A} (m : V A) (Q : A → vol → Prop) R v :
  is_Some (ree_fs_dirh v) → ree_fs_dirh_refcount v = 1 →
  wp m (λ a v', ree_fs_dirh_refcount v' = 2 ∧ Q a (after_put false 2 v'))
    (λ e v', ree_fs_dirh_refcount v' = 2 ∧ R e (after_put true 2 v')) (set_refcount v 2) →
  wp (with_dirh fuel junk m (Some false) true) Q R v.
Proof.
  intros [x Hd] Hc Hm. unfold with_dirh, get_dirh. apply wp_bind, wp_bind, wp_get. rewrite Hd.
  apply wp_bind, wp_ret, wp_bind, wp_get, wp_bind, wp_put. rewrite Hc. change (wrap 64 (1 + 1)) with 2.
  apply wp_bind, wp_get, wp_assert; [done|]. apply wp_bind, wp_try. eapply wp_mono; [exact Hm| |]; cbv beta.
  - intros a v' [E HQ]. apply wp_bind, (wp_put_dirh false 2); [done|lia|]. by apply wp_ret.
  - intros e v' [E HR]. apply wp_bind, (wp_put_dirh true 2); [done|lia|]. by apply wp_throw.
Qed.

Lemma put_handle close fh v O :
  open_as 2 fh v → stands fuel k v O → handle fh (after_put close 2 v) ∧ stands fuel k (after_put close 2 v) O.
Proof.
  intros ([y Hd] & Hc & x & Hf) Hs. split; [|by apply after_put_stands]. unfold after_put, handle.
  rewrite Hd, bool_decide_eq_true_2 by done. change (2 - 1 =? 0) with false.
  destruct close; cbn; (split; [done|]); (split; [by exists x|congruence]).
Qed.

(** The file holds [l]: it is synchronised, and the directory's entry with it. *)
Lemma wp_commit_fd {er O ino g fh i p dirh ents key f e0 l0 l v} :
  (∀ x, List.length (sha256 x) = TEE_FS_HTREE_HASH_SIZE) →
  obj_file er O 2 ino g fh i p dirh ents key f e0 l0 l v →
  wp (commit_fd junk fh)
    (λ _ v', open_as 2 fh v' ∧ stands fuel k v' (<[key := l]> O))
    (λ e v', er e ∧ open_as 2 fh v' ∧ (stands fuel k v' O ∨ stands fuel k v' (<[key := l]> O))) v.
Proof.
  intros Hsha Hof. pose proof Hof as [H1 H2 (Hd & Hon & Hroom) Hn Hio Hfit Href Hke Hh HO]. apply wp_bind.
  eapply wp_mono; [apply (wp_sync_fd er fh i f key.1 c0 l0 l v H2); unfold UINT32_MAX in *; lia| |]; cbv beta.
  2: { intros e v1 [He Hs]. destruct (obj_stands Hof v1 Hs). split; [done|]. split; [done|by left]. }
  intros _ v1 (h' & Hh1 & Hs). destruct (obj_disk Hof v1 Hs) as [Hd1 He1]. destruct (obj_stands Hof v1 Hs) as [Ho1 _].
  assert (dopen k er 1 ino g 2 v1 p dirh ents) as Hdp1.
  { eapply dopen_elsewhere; [done|done|]. intros e He. by apply (held_faults Hh1). }
  pose proof Hh1 as (o1 & d1 & Hf1 & Hi1 & _). destruct (held_is Hh1) as (d1' & Hi1' & Hfile).
  apply wp_bind. unfold get_fd. apply wp_bind, wp_get. rewrite Hf1, lookup_singleton_eq. apply wp_ret. cbn [f_dfh].
  assert (∀ v', quiet ino v1 v' → is_Some (ree_fs_dirh v') → open_as 2 fh v') as Hopen.
  { intros v' (E1 & E2 & _) Hsome. destruct Ho1 as (_ & F1 & x & F2). split; [done|]. split; [congruence|]. exists x. congruence. }
  assert (∀ v', busted k ino v1 v' p → open_as 2 fh v' ∧ stands fuel k v' O) as Hbust.
  { intros v' (Hq & Hsome & Hl). split; [by apply Hopen|].
    eapply (ready_stands fuel k c0); [|done|lia]. split; [by eapply disk_quiet|done]. }
  apply wp_bind.
  eapply wp_mono; [apply (wp_dirh_update_hash fuel junk junk_ok k Hk er 1 ino g 2 v1 p dirh ents f h' e0 k k Hdp1)| |]; cbv beta.
  { destruct Hfit as (? & ? & ?). split_and!; lia. } { done. } { by apply (file_is_hash _ _ _ _ _ Hsha Hfile). }
  2: { intros e v2 [He Hb]. destruct (Hbust v2 Hb). split; [done|]. split; [done|by left]. }
  intros _ v2 (Hq2 & d2 & ents2 & Hd2 & Hm2 & Hfit2).
  assert (disk cmax ino v1 (dir_map ents2) (<[key := l]> O)) as Hdk1.
  { rewrite Hm2, Hke. apply (disk_enter k ino v1 (dir_map ents) O _ i h' cmax l key); [done| | |done|].
    - destruct (fstep_names Hs) as [-> _]. done.
    - exists d1'. split; [done|]. by replace cmax with (c0 + 1) by lia.
    - intros key' x Hx Hne Hnum. apply Hne. by apply (obj_only Hof key' x). }
  eapply wp_mono; [by apply (wp_commit junk junk_ok k Hk er 0 ino g 2 v2 p d2 ents2)| |]; cbv beta.
  - intros _ v3 (Hq3 & Hd3). pose proof (quiet_trans _ _ _ _ Hq2 Hq3) as Hq. split; [by apply Hopen; [|by eapply dopen_some]|].
    eapply (ready_stands fuel k cmax ino v3 (dir_bytes ents2) (dir_map ents2)); [|by eapply dopen_dlost|lia].
    split; [by eapply disk_quiet|]. split; [exists ents2; split_and!; [apply Hd2|done|done]|].
    apply (fits_room fuel _ d2); [apply Hd2|apply Hd2|done].
  - intros e v3 [He [Hb|Hb]]; (split; [done|]).
    + destruct (Hbust v3) as [? ?]; [by eapply busted_quiet|]. split; [done|by left].
    + destruct Hb as (Hq3 & Hs3 & Hl3). pose proof (quiet_trans _ _ _ _ Hq2 Hq3) as Hq. split; [by apply Hopen|]. right.
      eapply (ready_stands fuel k cmax ino v3 (dir_bytes ents2) (dir_map ents2)); [|done|lia].
      split; [by eapply disk_quiet|]. split; [exists ents2; split_and!; [apply Hd2|done|done]|].
      apply (fits_room fuel _ d2); [apply Hd2|apply Hd2|done].
Qed.
(** An operation that changes the file and then what the directory says of it. *)
Lemma wp_obj_change {er O ino g fh i p dirh ents key f e0 l v} l' (m : M fd tee_result unit) :
  (∀ x, List.length (sha256 x) = TEE_FS_HTREE_HASH_SIZE) →
  obj_file er O 1 ino g fh i p dirh ents key f e0 l l v →
  (∀ er u h c s, file_open er u h c l l s →
     wp m (λ _ s', file_open er u h c l l' s') (λ e s', er e ∧ file_is u h c l (snd s')) s) →
  wp (with_dirh fuel junk (_ ← on_fh fh m; commit_fd junk fh) (Some false) true)
    (λ _ v', handle fh v' ∧ stands fuel k v' (<[key := l']> O))
    (λ e v', er e ∧ handle fh v' ∧ (stands fuel k v' O ∨ stands fuel k v' (<[key := l']> O))) v.
Proof.
  intros Hsha Hof Hm. destruct (obj_stands Hof v (obj_refl Hof)) as [(Hd & Hc & _) _].
  apply (wp_with_open _ _ _ v Hd Hc). set (v1 := set_refcount v 2).
  assert (obj_file er O 2 ino g fh i p dirh ents key f e0 l l v1) as H1.
  { destruct Hof as [A1 A2 A3 A4 A5 A6 A7 A8 A9 A10]. constructor; try done.
    - eapply dopen_frame; [exact A1|done..|]. intros e He. by apply (dopen_faults _ A1).
    - destruct A3 as [Hd3 Hr3]. split; [|done]. eapply disk_ext; try done. }
  assert (∀ close v' O', open_as 2 fh v' → stands fuel k v' O' →
    ree_fs_dirh_refcount v' = 2 ∧ handle fh (after_put close 2 v') ∧ stands fuel k (after_put close 2 v') O') as Hput.
  { intros close v' O' Ho Hs. split; [apply Ho|]. by apply put_handle. }
  apply wp_bind. eapply wp_mono;
    [eapply (wp_held er fh i f key.1 (dfh_hash f) c0 l l); [apply H1|]; intros s Hs; exact (Hm er _ _ c0 s Hs)| |]; cbv beta.
  2: { intros e v2 (o & d & [He Hf] & ->).
       destruct (obj_stands H1 _ (fstep_on fh i _ v1 (Fd o i f) d Hf)) as [Ho Hs].
       destruct (Hput true _ O Ho Hs) as (? & ? & ?). by auto. }
  intros _ v2 (o & d & Hop & ->). set (v2 := set_fds _ _).
  pose proof (file_open_is _ _ _ _ _ _ _ Hop) as Hf. pose proof (fstep_on fh i _ v1 (Fd o i f) d Hf) as Hs2. fold v2 in Hs2.
  assert (obj_file er O 2 ino g fh i p dirh ents key f e0 l l' v2) as H2.
  { destruct (obj_disk H1 v2 Hs2) as [Hd2 He2]. destruct H1 as [A1 A2 A3 A4 A5 A6 A7 A8 A9 A10]. constructor; try done.
    - eapply dopen_elsewhere; [exact A1|done|]. intros e He. exact (file_open_faults _ _ _ _ _ _ _ Hop e He).
    - by apply held_intro.
    - split; [done|apply A3]. }
  eapply wp_mono; [by apply (wp_commit_fd Hsha H2)| |]; cbv beta.
  - intros _ v3 [Ho Hs]. by apply Hput.
  - intros e v3 (He & Ho & [Hs|Hs]); destruct (Hput true v3 _ Ho Hs) as (? & ? & ?); auto.
Qed.

(** ** One operation on an object *)

Lemma wp_with_object {A} po (m : nat → Z → V A) v O (Q : A → vol → Prop) (R : tee_result → vol → Prop) :
  idle v → stands fuel (k + 1) v O → ¬ vfault v TEE_ERROR_ITEM_NOT_FOUND → no_twins v → po_id po ≠ [] →
  (∀ a, on_storage (Q a)) → (∀ e, on_storage (R e)) →
  (∀ fh ino g i p dirh ents f e0 l v', obj_file (vfault v) O 1 ino g fh i p dirh ents (po_key po) f e0 l l v' →
     wp (m fh (Z.of_nat (List.length l))) (λ a v'', handle fh v'' ∧ Q a v'') (λ e v'', handle fh v'' ∧ R e v'') v') →
  wp (with_object po m) (λ a v', idle v' ∧ Q a v')
    (λ e v', idle v' ∧ (R e v' ∨ no_object O po v e ∧ stands fuel k v' O)) v.
Proof.
  intros Hi Hs Hnf Htw Hid HQ HR Hm. apply wp_bind.
  eapply wp_mono; [by apply (wpp_ree_fs_open po v O)| |]; cbv beta.
  2: { intros e v' (He & Hi' & Hs'). auto. }
  intros [fh size] v1 (ino & g & i & p & dirh & ents & f & e0 & l & Hof & ->). apply wp_bind, wp_try.
  eapply wp_mono; [by eapply Hm| |]; cbv beta.
  - intros a v2 [Hh Hq]. apply wp_bind. eapply wp_mono; [by apply (wp_ree_fs_close fh v2 (Q a) (λ _ _, False))| |by intros].
    cbv beta. intros _ v3 Hv3. by apply wp_ret.
  - intros e v2 [Hh Hr]. apply wp_bind. eapply wp_mono; [by apply (wp_ree_fs_close fh v2 (R e) (λ _ _, False))| |by intros].
    cbv beta. intros _ v3 [? ?]. apply wp_throw. auto.
Qed.

Definition read_object (po : pobj) (pos len : Z) : V (list Z) := with_object po (λ fh _, ree_fs_read fh pos len).
Definition write_object (po : pobj) (pos : Z) (buf : list Z) : V unit :=
  with_object po (λ fh _, ree_fs_write fuel junk fh pos buf).
Definition truncate_object (po : pobj) (len : Z) : V unit :=
  with_object po (λ fh _, ree_fs_truncate fuel junk fh len).

Section access.
Context (v : vol) (O : objects) (po : pobj).
Context (Hi : idle v) (Hs : stands fuel (k + 1) v O) (Hnf : ¬ vfault v TEE_ERROR_ITEM_NOT_FOUND) (Htw : no_twins v).
Context (Hid : po_id po ≠ []) (Hsha : ∀ x, List.length (sha256 x) = TEE_FS_HTREE_HASH_SIZE).

Lemma wp_read_object pos len :
  0 <= pos → 0 <= len → pos + len < 2 ^ 64 →
  wp (read_object po pos len)
    (λ a v', idle v' ∧ (∃ l, O !! po_key po = Some l ∧ a = take (Z.to_nat len) (drop (Z.to_nat pos) l)) ∧ stands fuel k v' O)
    (λ e v', idle v' ∧ no_object O po v e ∧ stands fuel k v' O) v.
Proof.
  intros Hp Hl Hm.
  eapply wp_mono; [apply (wp_with_object po _ v O
    (λ a v', (∃ l, O !! po_key po = Some l ∧ a = take (Z.to_nat len) (drop (Z.to_nat pos) l)) ∧ stands fuel k v' O)
    (λ e v', vfault v e ∧ stands fuel k v' O)); try done| |]; cbv beta.
  - intros a v1 v2 [? Hst] ? ? ?. split; [done|]. by eapply stands_ext.
  - intros e v1 v2 [? Hst] ? ? ?. split; [done|]. by eapply stands_ext.
  - intros fh ino g i p dirh ents f e0 l v' Hof. eapply wp_mono; [by apply (wp_obj_read pos len Hof)| |]; cbv beta.
    + intros a v'' (-> & Hh & Hst). split; [done|]. split; [|done]. exists l. split; [apply Hof|done].
    + intros e v'' (? & ? & ?). done.
  - done.
  - intros e v' [? [[? ?]|[? ?]]]; (split; [done|]); (split; [|done]); [by right|done].
Qed.

(** The object as it was, or as it is to be. *)
Definition changed_to (v' : vol) (l' : list Z → list Z) : Prop :=
  ∃ l, O !! po_key po = Some l ∧ stands fuel k v' (<[po_key po := l' l]> O).

Lemma changed_to_storage l' : on_storage (λ v', changed_to v' l').
Proof. intros v1 v2 (l & HO & Hst) ? ? ?. exists l. split; [done|]. by eapply stands_ext. Qed.

Lemma wp_change_object (m : nat → Z → V unit) (l' : list Z → list Z) :
  (∀ fh ino g i p dirh ents f e0 l v', obj_file (vfault v) O 1 ino g fh i p dirh ents (po_key po) f e0 l l v' →
     wp (m fh (Z.of_nat (List.length l)))
       (λ _ v'', handle fh v'' ∧ stands fuel k v'' (<[po_key po := l' l]> O))
       (λ e v'', vfault v e ∧ handle fh v'' ∧ (stands fuel k v'' O ∨ stands fuel k v'' (<[po_key po := l' l]> O))) v') →
  wp (with_object po m)
    (λ _ v', idle v' ∧ changed_to v' l')
    (λ e v', idle v' ∧ (no_object O po v e ∧ stands fuel k v' O ∨ vfault v e ∧ changed_to v' l')) v.
Proof.
  intros Hm.
  eapply wp_mono; [apply (wp_with_object po m v O (λ _ v', changed_to v' l')
    (λ e v', vfault v e ∧ (stands fuel k v' O ∨ changed_to v' l'))); try done| |]; cbv beta.
  - intros _. apply changed_to_storage.
  - intros e v1 v2 [? Hor] ? ? ?. split; [done|]. destruct Hor as [?|?]; [left; by eapply stands_ext|right; by eapply changed_to_storage].
  - intros fh ino g i p dirh ents f e0 l v' Hof. pose proof (of_object _ _ _ _ _ _ _ _ _ _ _ _ _ _ _ _ Hof) as HO.
    eapply wp_mono; [by eapply Hm| |]; cbv beta.
    + intros _ v'' [Hh Hst]. split; [done|]. by exists l.
    + intros e v'' (He & Hh & Hor). split; [done|]. split; [done|]. destruct Hor; [by left|right]. by exists l.
  - done.
  - intros e v' [? [[? [?|?]]|[? ?]]]; (split; [done|]); [left|right|left]; (split; [|done]); try done. by right.
Qed.

Lemma wp_write_object pos buf :
  0 <= pos → pos + Z.of_nat (List.length buf) < 2 ^ 31 →
  wp (write_object po pos buf)
    (λ _ v', idle v' ∧ changed_to v' (λ l, write_bytes l pos buf))
    (λ e v', idle v' ∧ (no_object O po v e ∧ stands fuel k v' O ∨ vfault v e ∧ changed_to v' (λ l, write_bytes l pos buf))) v.
Proof.
  intros Hp Hl. apply wp_change_object. intros fh ino g i p dirh ents f e0 l v' Hof.
  apply (wp_obj_change (write_bytes l pos buf) _ Hsha Hof). intros er u h c s Hop. by apply wp_fd_write.
Qed.

(** A longer file. *)
Lemma wp_grow_object len :
  (∀ l, O !! po_key po = Some l → Z.of_nat (List.length l) < len < 2 ^ 31) →
  wp (truncate_object po len)
    (λ _ v', idle v' ∧ changed_to v' (λ l, l ++ replicate (Z.to_nat len - List.length l) 0))
    (λ e v', idle v' ∧ (no_object O po v e ∧ stands fuel k v' O
       ∨ vfault v e ∧ changed_to v' (λ l, l ++ replicate (Z.to_nat len - List.length l) 0))) v.
Proof.
  intros Hlen. apply wp_change_object. intros fh ino g i p dirh ents f e0 l v' Hof.
  pose proof (Hlen l (of_object _ _ _ _ _ _ _ _ _ _ _ _ _ _ _ _ Hof)) as Hl.
  apply (wp_obj_change (l ++ replicate (Z.to_nat len - List.length l) 0) _ Hsha Hof). intros er u h c s Hop. by apply wp_fd_grow.
Qed.
End access.
End with_crypto.
