(* ===== verification/ReeNames.v ===== *)
(** * core/tee/tee_ree_fs.c: an object is renamed or removed

    From a volume with nothing open: ree_fs_rename() and ree_fs_remove(). *)
From S2P Require Import Prelude BlockFile ByteFile Htree HtreeTree HtreeProofs ReeFs HtreeStore.
From S2P Require Import Uuid Bitstring Dirfile DirfileProofs DirfileSpec DirfileMap DirfileRename ReeDirf ReeObj ReeFile ReeVol ReeVolProofs ReeObjProofs ReeTx ReeCreate ReeAccess.

Local Open Scope Z_scope.

Section with_crypto.
Context `{CryptoLaws}.
Context (fuel : nat) (junk : nat → list Z).
Context (junk_ok : ∀ n, List.length (junk n) = n ∧ Forall (λ x, 0 <= x < 256) (junk n)).
Context (k : Z) (Hk : 0 <= k < UINT32_MAX).
Abbreviation cmax := (UINT32_MAX - k).
Abbreviation c0 := (UINT32_MAX - (k + 1)).
Abbreviation objects := (gmap dir_key (list Z)).
Abbreviation dirmap := (gmap dir_key (Z * list Z)).

(** ** The changed directory is committed *)

(** The end of a change to the directory: it stands for [O'] when it is committed. *)
Lemma wp_commit_dir {er O O' ino g p dirh ents v1 v2 m' F} :
  opened fuel k er O ino g p dirh ents v1 →
  changed k er 1 ino g 1 v1 v2 p m' F → (∀ d ents', F d → ents_ok ents' → dirh_ok d ents' → room fuel k (dir_bytes ents') (dir_map ents')) →
  disk cmax ino v1 m' O' →
  wp (commit_dirh_writes junk)
    (λ _ v3, quiet ino v1 v3 ∧ ∃ d ents', dopen k er 0 ino g 1 v3 (dir_bytes ents') d ents' ∧ dir_map ents' = m' ∧ F d
       ∧ settled v3 ∧ ready fuel k cmax ino v3 (dir_bytes ents') m' O')
    (λ e v3, er e ∧ settled v3 ∧ (stands fuel k v3 O ∨ stands fuel k v3 O')) v2.
Proof.
  intros Ho (Hq & d & ents' & Hd & <- & HF) Hroom Hdk.
  assert (∀ v3, quiet ino v1 v3 → ready fuel k cmax ino v3 (dir_bytes ents') (dir_map ents') O') as Hready.
  { intros v3 Hq3. split; [by eapply disk_quiet|]. split; [exists ents'; split_and!; [apply Hd|done|done]|].
    apply (Hroom d); [done|apply Hd|apply Hd]. }
  eapply wp_mono; [by apply (wp_commit junk junk_ok k Hk er 0 ino g 1 v2 p d ents')| |]; cbv beta.
  - intros _ v3 (Hq3 & Hd3). pose proof (quiet_trans _ _ _ _ Hq Hq3) as Hq'. split; [done|].
    exists d, ents'. split; [done|]. split; [done|]. split; [done|].
    split; [by eapply opened_settled; [..|by eapply dopen_some]|by apply Hready].
  - intros e v3 [He [Hb|Hb]]; (split; [done|]).
    + destruct (opened_busted fuel k Ho (v' := v3)) as [? ?]; [by eapply busted_quiet|]. split; [done|by left].
    + destruct Hb as (Hq3 & Hs3 & Hl3). pose proof (quiet_trans _ _ _ _ Hq Hq3) as Hq'.
      split; [by eapply opened_settled|]. right. eapply (ready_stands fuel k cmax); [by apply Hready|done|lia].
Qed.

Lemma disk_delete c ino v m O (key : dir_key) : disk c ino v m O → disk c ino v (delete key m) (delete key O).
Proof.
  intros [H1 H2 H3 H4]. constructor; [done|done| |].
  - intros key1 key2 x1 x2 (_ & Hx1)%lookup_delete_Some (_ & Hx2)%lookup_delete_Some. by apply (H3 key1 key2).
  - intros key'. destruct (decide (key' = key)) as [-> |Hne]; [by rewrite !lookup_delete_eq|].
    rewrite !lookup_delete_ne by done. apply H4.
Qed.

(** An object of the same TA gets another name. *)
Lemma disk_move c ino v m O (old new : dir_key) x l :
  disk c ino v m O → m !! old = Some x → O !! old = Some l → new.1 = old.1 → 
  disk c ino v (<[new := x]> (delete old m)) (<[new := l]> (delete old O)).
Proof.
  intros [H1 H2 H3 H4] Hm HO Hu. constructor; [done|done| |].
  - intros key1 key2 x1 x2 [[<- <-]|[Hn1 Hx1]]%lookup_insert_Some [[<- <-]|[Hn2 Hx2]]%lookup_insert_Some Hx; [done| | |].
    + apply lookup_delete_Some in Hx2 as [Hne Hx2]. destruct Hne. by apply (H3 old key2 x x2).
    + apply lookup_delete_Some in Hx1 as [Hne Hx1]. destruct Hne. symmetry in Hx. by apply (H3 old key1 x x1).
    + apply lookup_delete_Some in Hx1 as [_ Hx1]. apply lookup_delete_Some in Hx2 as [_ Hx2]. by apply (H3 key1 key2 x1 x2).
  - intros key. destruct (decide (key = new)) as [-> |Hne].
    + rewrite !lookup_insert_eq. specialize (H4 old). rewrite Hm, HO in H4. unfold object_is in *. by rewrite Hu.
    + rewrite !lookup_insert_ne by done. destruct (decide (key = old)) as [-> |Hno]; [by rewrite !lookup_delete_eq|].
      rewrite !lookup_delete_ne by done. apply H4.
Qed.

(** The file of an object that is not there any more loses its name. *)
Lemma wp_drop_file {ino v p ents O'} (x : Z) (Q : _ → vol → Prop) R :
  ready fuel k cmax ino v p (dir_map ents) O' → (∀ (key : dir_key) y, dir_map ents !! key = Some y → y.1 ≠ x) →
  (∀ r v', elsewhere ino v v' → fds v' = fds v → (∀ e, vfault v' e → vfault v e) →
     ready fuel k cmax ino v' p (dir_map ents) O' → Q r v') →
  wp (mtry (tee_fs_rpc_remove_dfh (Some x))) Q R v.
Proof.
  intros (Hd & Hr) Hx HQ. apply wp_remove_name. intros r v1 Hv. pose proof (disk_same _ _ _ _ _ _ Hd Hv) as Hd1.
  pose proof (elsewhere_same ino _ _ Hv) as He. pose proof Hv as [[f Ev] Hf]. split; apply HQ; try done; try by rewrite Ev.
  split; [|done]. by apply disk_unname.
Qed.

(** ** ree_fs_remove() *)

Lemma settled_elsewhere ino v v' : settled v → elsewhere ino v v' → fds v' = fds v → settled v'.
Proof. intros (H1 & H2 & H3) (E1 & E2 & _) E. unfold settled. by rewrite E1, E2, E. Qed.

Lemma wp_ree_fs_remove po v O :
  idle v → stands fuel (k + 1) v O → ¬ vfault v TEE_ERROR_ITEM_NOT_FOUND → po_id po ≠ [] →
  wpp (ree_fs_remove fuel junk po)
    (λ _ v', idle v' ∧ is_Some (O !! po_key po) ∧ stands fuel k v' (delete (po_key po) O))
    (λ e v', idle v' ∧ (no_object O po v e ∧ stands fuel k v' O
       ∨ vfault v e ∧ is_Some (O !! po_key po) ∧ stands fuel k v' (delete (po_key po) O)))
    (λ _, False) v.
Proof.
  intros Hi Hs Hnf Hid. apply (wpp_with_dirh fuel junk junk_ok k Hk _ _ _ v O); [done|done|done| |].
  2: { intros e v' He [Hi' Hs']. split; [done|]. left. by split; [right|]. }
  intros v1 ino g p dirh ents Ho _.
  assert (∀ close v' O', settled v' → stands fuel k v' O' → idle (after_put close 1 v') ∧ stands fuel k (after_put close 1 v') O') as Hput.
  { intros close v' O' Hse Hst. apply (put_settled close (λ v, stands fuel k v O') v' Hse Hst), stands_storage. }
  cbn [ends]. apply wpp_bind. eapply wpp_call; [by apply (wp_find_open fuel junk junk_ok k Hk po Ho)| |]; cbv beta.
  2: { intros e v2 (Hq & Hse & Hst & Hor). destruct (Hput true v2 O Hse Hst). split; [done|]. split; [done|]. left. split; [|done].
       destruct Hor as [(-> & HO & _)|[He _]]; [by left|by right]. }
  intros dfh v2 (Hq & Ho2 & e0 & l & Href & Hke & Hh & HO & Hm).
  apply wpp_bind. eapply wpp_call;
    [apply (wp_dirh_remove fuel junk junk_ok k Hk (vfault v) 1 ino g 1 v2 p dirh ents dfh e0 (k + 1) (k + 1)); [apply Ho2|apply Ho2|done]| |]; cbv beta.
  2: { intros e v3 [He Hb]. destruct (opened_busted fuel k Ho2 Hb) as [Hse Hst]. destruct (Hput true v3 O Hse Hst).
       split; [done|]. split; [done|]. left. by split; [right|]. }
  rewrite Hke. intros _ v3 Hch. apply wpp_bind.
  eapply wpp_call; [eapply (wp_commit_dir (O' := delete (po_key po) O) Ho2 Hch)| |]; cbv beta.
  { intros d ents' Hf He' Hd'. eapply room_le; [by apply (fits_room fuel (k + 1) d)|lia]. }
  { apply disk_delete. eapply disk_le; [apply Ho2|lia]. }
  2: { intros e v4 (He & Hse & [Hst|Hst]); (split; [done|]); destruct (Hput true v4 _ Hse Hst); (split; [done|]); [left; by split; [right|]|].
       right. split; [done|]. by split; [eexists|]. }
  intros _ v4 (Hq4 & d & ents4 & Hd4 & Hm4 & Hf4 & Hse4 & Hr4). rewrite <- Hm4 in Hr4.
  apply wpp_bind, wpp_wp, (wp_drop_file (dfh_file_number dfh) _ _ Hr4).
  { intros key y. rewrite Hm4. intros [Hne Hy]%lookup_delete_Some Hn. apply Hne. destruct Ho2 as [_ _ (Hdk & _) _].
    symmetry in Hn. by apply (dk_numbers _ _ _ _ _ Hdk _ _ (dfh_file_number dfh, dfh_hash dfh) y Hm Hy Hn). }
  intros r v5 He5 Ef5 Hv5 Hr5. pose proof (settled_elsewhere _ _ _ Hse4 He5 Ef5) as Hse5.
  assert (dopen k (vfault v) 0 ino g 1 v5 (dir_bytes ents4) d ents4) as Hd5.
  { eapply dopen_elsewhere; [done|done|]. intros e He. apply (dopen_faults _ Hd4). by apply Hv5. }
  apply wp_bind, wp_try.
  eapply wp_mono; [apply (wp_dirh_find fuel junk junk_ok k Hk (vfault v) 0 ino g 1 v5 (dir_bytes ents4) d ents4 po (k + 1) (k + 1)); done || lia| |];
    cbv beta.
  - intros dfh' v6 (_ & _ & e & (j & _ & Hl & Hu & _) & Hke' & _).
    pose proof (dir_map_entry ents4 j e (dp_ents _ _ _ _ _ _ _ _ _ _ Hd5) Hl Hu) as Hx.
    by rewrite Hke', Hm4, lookup_delete_eq in Hx.
  - intros e v6 (Hq6 & Ed6 & Hor). apply wp_ret.
    assert (settled v6) as Hse6.
    { destruct Hse5 as (E1 & E2 & E3), Hq6 as (F1 & F2 & _). split; [by rewrite Ed6|]. split; congruence. }
    split; [done|].
    assert (dlost k ino v6 (dir_bytes ents4)) as Hl6.
    { destruct Hor as [(_ & Hd6 & _)|[_ [Hd6|Hc]]]; [by eapply dopen_dlost..|]. apply vlost_closed in Hc. by eapply vlost_dlost. }
    destruct (Hput false v6 (delete (po_key po) O)) as [? ?]; [done| |].
    { eapply (ready_stands fuel k cmax); [by eapply ready_quiet|done|lia]. }
    split; [done|]. by split; [eexists|].
Qed.

(** ** ree_fs_rename() *)

Section rename.
Context (old new : pobj) (ow : bool) (v : vol) (O : objects).
Context (Hnf : ¬ vfault v TEE_ERROR_ITEM_NOT_FOUND) (Hido : po_id old ≠ []).
Context (Huuid : uuid_wf (po_uuid new)) (Hidn : 0 < Z.of_nat (List.length (po_id new)) <= 64).
Context (Hta : po_uuid new = po_uuid old) (Hne : po_key new ≠ po_key old).

(** The objects after the renaming. *)
Definition renamed (v' : vol) : Prop :=
  ∃ l, O !! po_key old = Some l ∧ (ow = true ∨ O !! po_key new = None)
    ∧ stands fuel k v' (<[po_key new := l]> (delete (po_key old) O)).

Definition not_renamed (e : tee_result) (v' : vol) : Prop :=
  (vfault v e ∨ e = TEE_ERROR_ITEM_NOT_FOUND ∧ O !! po_key old = None ∧ (ow = true ∨ O !! po_key new = None))
  ∧ stands fuel k v' O ∨ vfault v e ∧ renamed v'.

Lemma key_owner : (po_key new).1 = (po_key old).1.
Proof. unfold po_key, key_for. cbn. by rewrite Hta. Qed.

(** The name was free. *)
Lemma wp_move {ino g p dirh ents v1} :
  opened fuel k (vfault v) O ino g p dirh ents v1 → O !! po_key new = None →
  wp (dfh ← dirh_find fuel junk old; _ ← dirh_rename fuel junk new dfh; commit_dirh_writes junk)
    (λ _ v', settled v' ∧ renamed v') (λ e v', settled v' ∧ not_renamed e v') v1.
Proof.
  intros Ho HOn. apply wp_bind. eapply wp_mono; [by apply (wp_find_open fuel junk junk_ok k Hk old Ho)| |]; cbv beta.
  2: { intros e v2 (Hq & Hse & Hst & Hor). split; [done|]. left. split; [|done].
       destruct Hor as [(-> & HO & _)|[He _]]; [right; auto|by left]. }
  intros dfh v2 (Hq & Ho2 & e0 & l & Href & Hke & Hh & HO & Hm). apply wp_bind.
  pose proof (proj1 (od_ready _ _ _ _ _ _ _ _ _ _ Ho2)) as Hdk.
  eapply wp_mono; [apply (wp_dirh_rename_move fuel junk junk_ok k Hk (vfault v) 1 ino g 1 v2 p dirh ents new dfh e0 (k + 1) (k + 1));
    try done; try apply Ho2; by apply (disk_objects _ Hdk)| |]; cbv beta.
  2: { intros e v3 [He Hb]. destruct (opened_busted fuel k Ho2 Hb) as [Hse Hst]. split; [done|]. left. by split; [left|]. }
  rewrite Hke. intros _ v3 Hch.
  eapply wp_mono; [eapply (wp_commit_dir (O' := <[po_key new := l]> (delete (po_key old) O)) Ho2 Hch)| |]; cbv beta.
  { intros d ents' Hf He' Hd'. eapply room_le; [by apply (fits_room fuel (k + 1) d)|lia]. }
  { apply disk_move; [eapply disk_le; [exact Hdk|lia]|done|done|apply key_owner]. }
  - intros _ v4 (_ & d & ents4 & Hd4 & Hm4 & _ & Hse4 & Hr4). split; [done|]. exists l. split; [done|]. split; [by right|].
    eapply (ready_stands fuel k cmax); [done|by eapply dopen_dlost|lia].
  - intros e v4 (He & Hse & [Hst|Hst]); (split; [done|]); [left; by split; [left|]|right]. split; [done|]. exists l. auto.
Qed.

(** It was an object's, found as [rdfh]. *)
Lemma wp_move_over {ino g p dirh ents v1 rdfh e1} :
  opened fuel k (vfault v) O ino g p dirh ents v1 → refers rdfh ents e1 → key_of e1 = po_key new → ow = true →
  wp (dfh ← dirh_find fuel junk old; _ ← dirh_rename fuel junk new dfh;
      _ ← dirh_remove junk rdfh; _ ← commit_dirh_writes junk;
      _ ← mtry (tee_fs_rpc_remove_dfh (Some (dfh_file_number rdfh))); mret tt)
    (λ _ v', settled v' ∧ renamed v') (λ e v', settled v' ∧ not_renamed e v') v1.
Proof.
  intros Ho Hr1 Hk1 How. apply wp_bind. eapply wp_mono; [by apply (wp_find_open fuel junk junk_ok k Hk old Ho)| |]; cbv beta.
  2: { intros e v2 (Hq & Hse & Hst & Hor). split; [done|]. left. split; [|done].
       destruct Hor as [(-> & HO & _)|[He _]]; [right; auto|by left]. }
  intros dfh v2 (Hq & Ho2 & e0 & l & Href & Hke & Hh & HO & Hm).
  pose proof (proj1 (od_ready _ _ _ _ _ _ _ _ _ _ Ho2)) as Hdk.
  apply (wp_dirh_rename_over fuel junk junk_ok k Hk (vfault v) 1 ino g 1 v2 p dirh ents new dfh e0 rdfh e1 (k + 1) (k + 1));
    try done; try apply Ho2; [by rewrite Hke| |].
  2: { intros e v3 [He Hb]. destruct (opened_busted fuel k Ho2 Hb) as [Hse Hst]. split; [done|]. left. by split; [left|]. }
  rewrite Hke. intros v3 Hch. apply wp_bind.
  eapply wp_mono; [eapply (wp_commit_dir (O' := <[po_key new := l]> (delete (po_key old) O)) Ho2 Hch)| |]; cbv beta.
  { intros d ents' Hf He' Hd'. eapply room_le; [by apply (fits_room fuel (k + 1) d)|lia]. }
  { apply disk_move; [eapply disk_le; [exact Hdk|lia]|done|done|apply key_owner]. }
  2: { intros e v4 (He & Hse & [Hst|Hst]); (split; [done|]); [left; by split; [left|]|right]. split; [done|]. exists l. auto. }
  intros _ v4 (_ & d & ents4 & Hd4 & Hm4 & _ & Hse4 & Hr4). rewrite <- Hm4 in Hr4.
  apply wp_bind, (wp_drop_file (dfh_file_number rdfh) _ _ Hr4).
  { destruct Hr1 as (j & _ & Hl1 & Hu1 & Hn1). destruct Ho2 as [Hd2 _ _ _].
    pose proof (dir_map_entry ents j e1 (dp_ents _ _ _ _ _ _ _ _ _ _ Hd2) Hl1 Hu1) as Hx. rewrite Hk1, Hn1 in Hx.
    intros key y. rewrite Hm4. intros [[<- <-]|[Hnk [Hno Hy]%lookup_delete_Some]]%lookup_insert_Some Hn.
    - apply Hne. by apply (dk_numbers _ _ _ _ _ Hdk _ _ _ _ Hx Hm).
    - apply Hnk. symmetry in Hn. by apply (dk_numbers _ _ _ _ _ Hdk _ _ _ _ Hx Hy). }
  intros r v5 He5 Ef5 Hv5 Hr5. apply wp_ret. split; [by eapply settled_elsewhere|].
  exists l. split; [done|]. split; [by left|]. eapply (ready_stands fuel k cmax); [done| |lia].
  eapply dlost_elsewhere; [by eapply dopen_dlost|done].
Qed.

Lemma wpp_ree_fs_rename :
  idle v → stands fuel (k + 1) v O → O !! po_key new = None ∨ (∀ e, ¬ vfault v e) →
  wpp (ree_fs_rename fuel junk old new ow)
    (λ _ v', idle v' ∧ renamed v')
    (λ e v', idle v' ∧ (not_renamed e v' ∨ e = TEE_ERROR_ACCESS_CONFLICT ∧ ow = false ∧ is_Some (O !! po_key new) ∧ stands fuel k v' O))
    (λ v', (∃ e, vfault v e) ∧ stands fuel k v' O) v.
Proof.
  intros Hi Hs Hnew. apply (wpp_with_dirh fuel junk junk_ok k Hk _ _ _ v O); [done|done|done| |].
  2: { intros e v' He [Hi' Hs']. split; [done|]. left. left. by split; [left|]. }
  intros v1 ino g p dirh ents Ho _.
  assert (on_storage renamed) as HS.
  { intros w w' (l & H1 & H2 & H3) ? ? ?. exists l. split; [done|]. split; [done|]. by eapply stands_ext. }
  assert (∀ e, on_storage (not_renamed e)) as HS'.
  { intros e w w' [[? Hst]|[? ?]] ? ? ?; [left|right]; (split; [done|]); [by eapply stands_ext|by eapply HS]. }
  assert (∀ v', settled v' → stands fuel k v' O → idle (after_put true 1 v') ∧ stands fuel k (after_put true 1 v') O) as Hput.
  { intros v' Hse Hst. apply (put_settled true (λ v, stands fuel k v O) v' Hse Hst), stands_storage. }
  assert (∀ (m : V unit) v', wp m (λ _ v', settled v' ∧ renamed v') (λ e v', settled v' ∧ not_renamed e v') v' →
    wpp m (λ _ v'', ends (Some false) v'' (λ v'0, idle v'0 ∧ renamed v'0))
      (λ e v'', settled v'' ∧ idle (after_put true 1 v'') ∧ (not_renamed e (after_put true 1 v'') ∨ e = TEE_ERROR_ACCESS_CONFLICT
         ∧ ow = false ∧ is_Some (O !! po_key new) ∧ stands fuel k (after_put true 1 v'') O))
      (λ v', (∃ e, vfault v e) ∧ stands fuel k v' O) v') as Hend.
  { intros m v' Hm. eapply wpp_call; [exact Hm| |]; cbv beta.
    - intros _ w [Hse Hr]. split; [done|]. by apply (put_settled false).
    - intros e w [Hse Hr]. split; [done|]. destruct (put_settled true (not_renamed e) w); auto. }
  apply wpp_bind, wpp_try.
  assert (po_id new ≠ []) as Hid by (intros E; rewrite E in Hidn; cbn in Hidn; lia).
  eapply wpp_call; [by apply (wp_find_open fuel junk junk_ok k Hk new Ho)| |]; cbv beta.
  - intros rdfh v2 (Hq & Ho2 & e1 & l1 & Href & Hke & Hh & HO & Hm). destruct ow eqn:Eow.
    + apply Hend. by apply (wp_move_over Ho2 Href Hke).
    + apply wpp_wp, wp_throw. destruct (opened_busted fuel k Ho2 (v' := v2)) as [Hse Hst].
      { split; [apply quiet_refl|]. split; [eapply dopen_some, Ho2|eapply dopen_dlost, Ho2]. }
      destruct (Hput v2 Hse Hst). split; [done|]. split; [done|]. right. by split_and!; [done|done|eexists|].
  - intros e v2 (Hq & Hse & Hst & [(-> & HO & Ho2)|[He [Ho2|(Hc & Hr2 & Hd2)]]]).
    + destruct ow; apply Hend; by apply (wp_move Ho2).
    + assert (O !! po_key new = None) by (destruct Hnew as [?|Hno]; [done|by destruct (Hno e)]).
      destruct ow; apply Hend; by apply (wp_move Ho2).
    + assert (∀ w, quiet ino v2 w → dlost k ino w p → (∃ e, vfault v e) ∧ stands fuel k w O) as Hpan.
      { intros w Hqw Hl. split; [by eexists|]. eapply (ready_stands fuel k c0); [by eapply ready_quiet|done|lia]. }
      destruct ow; apply wpp_bind; by apply (find_closed fuel junk junk_ok k Hk ino g v2 p dirh old).
Qed.
End rename.
End with_crypto.
