(* ===== verification/ReeSession.v ===== *)
(** * core/tee/tee_ree_fs.c: sessions on a volume

    The operations on objects, each with the opening and closing around it, against
    a map from names to bytes: one transaction, and histories of transactions in
    which calls to normal world fail and the core stops and starts again. *)
From S2P Require Import Prelude BlockFile ByteFile Htree HtreeTree HtreeProofs ReeFs HtreeStore.
From S2P Require Import Uuid Bitstring Dirfile DirfileProofs DirfileSpec DirfileMap DirfileRename ReeDirf ReeObj ReeFile ReeVol ReeVolProofs ReeObjProofs ReeTx ReeCreate ReeAccess ReeNames.

Local Open Scope Z_scope.

Abbreviation objects := (gmap dir_key (list Z)).

(** ** Transactions *)

Inductive tx :=
  | TxCreate (po : pobj) (overwrite : bool) (head attr data : list Z)
  | TxRead (po : pobj) (pos len : Z)
  | TxWrite (po : pobj) (pos : Z) (buf : list Z)
  | TxGrow (po : pobj) (len : Z)
  | TxRename (old new : pobj) (overwrite : bool)
  | TxRemove (po : pobj).

(** What a transaction is to do to a map of objects. *)
Definition on_object (O : objects) (po : pobj) (f : list Z → list Z * list Z) : tee_result + list Z * objects :=
  match O !! po_key po with
  | Some l => let '(r, l') := f l in inr (r, <[po_key po := l']> O)
  | None => inl TEE_ERROR_ITEM_NOT_FOUND
  end.
Definition tx_spec (O : objects) (t : tx) : tee_result + list Z * objects :=
  match t with
  | TxCreate po overwrite head attr data =>
    match O !! po_key po, overwrite with
    | Some _, false => inl TEE_ERROR_ACCESS_CONFLICT
    | _, _ => inr ([], <[po_key po := head ++ attr ++ data]> O)
    end
  | TxRead po pos len => on_object O po (λ l, (take (Z.to_nat len) (drop (Z.to_nat pos) l), l))
  | TxWrite po pos buf => on_object O po (λ l, ([], write_bytes l pos buf))
  | TxGrow po len => on_object O po (λ l, ([], l ++ replicate (Z.to_nat len - List.length l) 0))
  | TxRename old new overwrite =>
    match O !! po_key new, overwrite with
    | Some _, false => inl TEE_ERROR_ACCESS_CONFLICT
    | _, _ =>
      match O !! po_key old with
      | Some l => inr ([], <[po_key new := l]> (delete (po_key old) O))
      | None => inl TEE_ERROR_ITEM_NOT_FOUND
      end
    end
  | TxRemove po =>
    match O !! po_key po with
    | Some _ => inr ([], delete (po_key po) O)
    | None => inl TEE_ERROR_ITEM_NOT_FOUND
    end
  end.

(** With the overwriting allowed. *)
Definition forced (t : tx) : tx :=
  match t with TxCreate po _ head attr data => TxCreate po true head attr data | _ => t end.
Definition is_create (t : tx) : Prop := match t with TxCreate _ _ _ _ _ => True | _ => False end.

(** The arguments the callers give, within the sizes the files can have; [faulty]
    says that calls may fail. An object is not renamed over another one then. *)
Definition name_ok (po : pobj) : Prop := uuid_wf (po_uuid po) ∧ 0 < Z.of_nat (List.length (po_id po)) <= 64.
Definition tx_ok (faulty : Prop) (O : objects) (t : tx) : Prop :=
  match t with
  | TxCreate po _ head attr data => name_ok po ∧ Z.of_nat (List.length (head ++ attr ++ data)) < 2 ^ 31
  | TxRead po pos len => name_ok po ∧ 0 <= pos ∧ 0 <= len ∧ pos + len < 2 ^ 64
  | TxWrite po pos buf => name_ok po ∧ 0 <= pos ∧ pos + Z.of_nat (List.length buf) < 2 ^ 31
  | TxGrow po len => name_ok po ∧ ∀ l, O !! po_key po = Some l → Z.of_nat (List.length l) < len < 2 ^ 31
  | TxRename old new _ =>
    name_ok old ∧ name_ok new ∧ po_uuid new = po_uuid old ∧ po_key new ≠ po_key old
    ∧ (O !! po_key new = None ∨ ¬ faulty)
  | TxRemove po => name_ok po
  end.

(** What may come of it. *)
Inductive tx_may (faulty : Prop) (O : objects) (t : tx) : outcome tee_result (list Z) → objects → Prop :=
  | may_do r O' : tx_spec O t = inr (r, O') → tx_may faulty O t (Ok r) O'
  | may_refuse e : tx_spec O t = inl e → tx_may faulty O t (Err e) O
  | may_fail e : faulty → tx_may faulty O t (Err e) O
  | may_fail_done e r O' : faulty → tx_spec O (forced t) = inr (r, O') → tx_may faulty O t (Err e) O'
  | may_do_forced r O' : faulty → tx_spec O (forced t) = inr (r, O') → tx_may faulty O t (Ok r) O'
  | may_stop : faulty → tx_may faulty O t Panicked O.

Lemma po_id_nonempty po : name_ok po → po_id po ≠ [].
Proof. intros [_ Hl] E. rewrite E in Hl. cbn in Hl. lia. Qed.

Section with_crypto.
Context `{CryptoLaws}.
Context (fuel : nat) (junk : nat → list Z).

Definition run_tx (t : tx) : V (list Z) :=
  match t with
  | TxCreate po overwrite head attr data =>
    fh ← ree_fs_create fuel junk po overwrite head attr data; _ ← ree_fs_close fh; mret []
  | TxRead po pos len => read_object fuel junk po pos len
  | TxWrite po pos buf => _ ← write_object fuel junk po pos buf; mret []
  | TxGrow po len => _ ← truncate_object fuel junk po len; mret []
  | TxRename old new overwrite => _ ← ree_fs_rename fuel junk old new overwrite; mret []
  | TxRemove po => _ ← ree_fs_remove fuel junk po; mret []
  end.

(** What a transaction leaves: a volume that stands for [O'], or, when creating
    failed, one that would if it had not removed the object's file. *)
Definition leaves (k : Z) (faulty : Prop) (O : objects) (t : tx) (x : outcome tee_result (list Z) * vol) : Prop :=
  (x.1 ≠ Panicked → idle x.2) ∧
  ((∃ O', tx_may faulty O t x.1 O' ∧ stands fuel k x.2 O')
   ∨ is_create t ∧ faulty ∧ (∃ e, x.1 = Err e) ∧ ∃ r O', tx_spec O (forced t) = inr (r, O') ∧ dangling fuel k x.2 O').

Context (junk_ok : ∀ n, List.length (junk n) = n ∧ Forall (λ x, 0 <= x < 256) (junk n)).
Context (k : Z) (Hk : 0 <= k < UINT32_MAX - 1).
Context (Hsha : ∀ x, List.length (sha256 x) = TEE_FS_HTREE_HASH_SIZE).

Section tx.
Context (v : vol) (O : objects).
Context (Hi : idle v) (Hs : stands fuel (k + 1) v O) (Hnf : ¬ vfault v TEE_ERROR_ITEM_NOT_FOUND) (Htw : no_twins v).
Abbreviation faulty := (∃ e, vfault v e).
Abbreviation good t x := (leaves k faulty O t x).

Lemma Hk' : 0 <= k < UINT32_MAX.
Proof. lia. Qed.

Lemma Hk2 : k + 2 <= UINT32_MAX.
Proof. unfold UINT32_MAX in *. lia. Qed.

Lemma leaves_wpp {A} (m : V A) (f : A → list Z) t Q R P :
  wpp m Q R P v → (∀ a v', Q a v' → good t (Ok (f a), v')) → (∀ e v', R e v' → good t (Err e, v')) →
  (∀ v', P v' → good t (Panicked, v')) → good t ((a ← m; mret (f a)) v).
Proof. unfold wpp, mbind, M_bind. intros Hm HQ HR HP. destruct (m v) as [[a|e|] v']; [by apply HQ|by apply HR|by apply HP]. Qed.

Lemma leaves_wp {A} (m : V A) (f : A → list Z) t Q R :
  wp m Q R v → (∀ a v', Q a v' → good t (Ok (f a), v')) → (∀ e v', R e v' → good t (Err e, v')) →
  good t ((a ← m; mret (f a)) v).
Proof. intros Hw HQ HR. by apply (leaves_wpp m f t Q R (λ _, False)); [apply wpp_wp|..]. Qed.

Lemma leaves_intro t r v' O' : tx_may faulty O t r O' → (r ≠ Panicked → idle v') → stands fuel k v' O' → good t (r, v').
Proof. intros. split; [done|]. left. by exists O'. Qed.

Lemma no_object_spec po e f : no_object O po v e → on_object O po f = inl e ∨ faulty.
Proof. intros [[-> HO]|Hf]; [left|right; by eexists]. unfold on_object. by rewrite HO. Qed.

Lemma leaves_create po ow x y z : tx_ok faulty O (TxCreate po ow x y z) → good (TxCreate po ow x y z) (run_tx (TxCreate po ow x y z) v).
Proof.
  intros [[Hu Hid] Hlen]. cbn [run_tx].
  assert (∀ {A B} (m : V A) (g : A → V unit) (r : B), (fh ← m; _ ← g fh; mret r) v = (_ ← (fh ← m; g fh); mret r) v) as Hassoc.
  { intros A B m g r. unfold mbind, M_bind. by destruct (m v) as [[] ?]. }
  rewrite Hassoc. clear Hassoc.
  assert (∀ v', allowed (vfault v) O po ow → stands fuel k v' (<[po_key po := x ++ y ++ z]> O) →
    tx_may faulty O (TxCreate po ow x y z) (Ok []) (<[po_key po := x ++ y ++ z]> O)) as Hdo.
  { intros v' Ha _. destruct (O !! po_key po) as [l|] eqn:EO; [destruct ow|].
    - apply may_do. cbn. by rewrite EO.
    - destruct Ha as [?|[?|?]]; [done|congruence|]. apply may_do_forced; [done|]. cbn. by rewrite EO.
    - apply may_do. cbn. by rewrite EO. }
  assert (∃ r O', tx_spec O (forced (TxCreate po ow x y z)) = inr (r, O') ∧ O' = <[po_key po := x ++ y ++ z]> O) as (r & O' & Hspec & ->).
  { cbn. destruct (O !! po_key po); by eexists _, _. }
  apply (leaves_wpp _ (λ _, []) _
    (λ _ w, idle w ∧ allowed (vfault v) O po ow ∧ stands fuel k w (<[po_key po := x ++ y ++ z]> O))
    (λ e v', idle v' ∧
      ((vfault v e ∨ e = TEE_ERROR_ACCESS_CONFLICT ∧ ow = false ∧ is_Some (O !! po_key po)) ∧ stands fuel k v' O
       ∨ vfault v e ∧ allowed (vfault v) O po ow ∧
         (stands fuel k v' (<[po_key po := x ++ y ++ z]> O) ∨ dangling fuel k v' (<[po_key po := x ++ y ++ z]> O))))
    (λ v', faulty ∧ stands fuel k v' O)).
  - apply wpp_bind. eapply wpp_mono; [exact (wpp_ree_fs_create fuel junk junk_ok k Hk' Hsha Hk2 po ow O Hu Hid v x y z Hi Hs Hnf Hlen)|cbv beta|done|done].
    intros fh v' (Ho & Ha & Hst).
    apply wpp_wp, (wp_ree_fs_close fh v' (λ w, allowed (vfault v) O po ow ∧ stands fuel k w (<[po_key po := x ++ y ++ z]> O)));
      [by apply handle_open| |done].
    intros w w' [? Hw] ? ? ?. split; [done|]. by eapply stands_ext.
  - intros [] v' (Hi' & Ha & Hst). eapply leaves_intro; [by eapply Hdo|done|done].
  - intros e v' (Hi' & [[[He|(-> & -> & [l HO])] Hst]|(He & Ha & [Hst|Hst])]).
    + eapply leaves_intro; [|done|exact Hst]. apply may_fail. by exists e.
    + eapply leaves_intro; [|done|exact Hst]. apply may_refuse. cbn. by rewrite HO.
    + eapply leaves_intro; [|done|exact Hst]. apply (may_fail_done _ _ _ _ r); [by exists e|done].
    + split; [done|]. right. split; [done|]. split; [by exists e|]. split; [by exists e|]. by eexists r, _.
  - intros v' [He Hst]. eapply leaves_intro; [by apply may_stop|done|done].
Qed.

Lemma leaves_no_object po f t e v' :
  tx_spec O t = on_object O po f → no_object O po v e → idle v' → stands fuel k v' O → good t (Err e, v').
Proof.
  intros Ht Hno Hi' Hst. eapply leaves_intro; [|done|exact Hst].
  destruct (no_object_spec po e f Hno) as [E|Hf]; [apply may_refuse; congruence|by apply may_fail].
Qed.

Lemma leaves_read po pos len : tx_ok faulty O (TxRead po pos len) → good (TxRead po pos len) (run_tx (TxRead po pos len) v).
Proof.
  intros (Hn & Hp & Hl & Hm). cbn [run_tx].
  pose proof (wp_read_object fuel junk junk_ok k Hk' v O po Hi Hs Hnf Htw (po_id_nonempty po Hn) pos len Hp Hl Hm) as Hw.
  unfold wp in Hw. destruct (read_object fuel junk po pos len v) as [[a|e|] v']; [| |done].
  - destruct Hw as (Hi' & (l & HO & ->) & Hst). eapply leaves_intro; [|done|exact Hst].
    apply may_do. cbn. unfold on_object. rewrite HO. by rewrite insert_id.
  - destruct Hw as (Hi' & Hno & Hst). by eapply (leaves_no_object po).
Qed.

(** Writing and growing. *)
Lemma leaves_change t po (m : V unit) (f : list Z → list Z) :
  tx_spec O t = on_object O po (λ l, ([], f l)) → forced t = t →
  wp m (λ _ v', idle v' ∧ changed_to fuel k O po v' f)
    (λ e v', idle v' ∧ (no_object O po v e ∧ stands fuel k v' O ∨ vfault v e ∧ changed_to fuel k O po v' f)) v →
  good t ((_ ← m; mret []) v).
Proof.
  intros Ht Hft Hw. assert (∀ l, O !! po_key po = Some l → tx_spec O t = inr ([], <[po_key po := f l]> O)) as Hspec.
  { intros l HO. rewrite Ht. unfold on_object. by rewrite HO. }
  apply (leaves_wp m (λ _, []) t _ _ Hw).
  - intros _ v' (Hi' & l & HO & Hst). eapply leaves_intro; [|done|exact Hst]. by apply may_do, Hspec.
  - intros e v' (Hi' & [[Hno Hst]|(He & l & HO & Hst)]); [by eapply (leaves_no_object po)|].
    eapply leaves_intro; [|done|exact Hst]. eapply may_fail_done; [by exists e|]. rewrite Hft. by apply Hspec.
Qed.

Lemma leaves_remove po : tx_ok faulty O (TxRemove po) → good (TxRemove po) (run_tx (TxRemove po) v).
Proof.
  intros Hn. cbn [run_tx].
  apply (leaves_wpp _ (λ _, []) _ _ _ _ (wp_ree_fs_remove fuel junk junk_ok k Hk' po v O Hi Hs Hnf (po_id_nonempty po Hn))).
  - intros [] v' (Hi' & [l HO] & Hst). eapply leaves_intro; [|done|exact Hst]. apply may_do. cbn. by rewrite HO.
  - intros e v' (Hi' & [[Hno Hst]|(He & [l HO] & Hst)]).
    + eapply leaves_intro; [|done|exact Hst]. destruct Hno as [[-> HO]|Hf]; [|apply may_fail; by exists e].
      apply may_refuse. cbn. by rewrite HO.
    + eapply leaves_intro; [|done|exact Hst]. eapply may_fail_done; [by exists e|]. cbn. by rewrite HO.
  - done.
Qed.

Lemma leaves_rename old new ow :
  tx_ok faulty O (TxRename old new ow) → good (TxRename old new ow) (run_tx (TxRename old new ow) v).
Proof.
  intros (Hno & [Hu Hid] & Hta & Hne & Hor). cbn [run_tx].
  assert (O !! po_key new = None ∨ ∀ e, ¬ vfault v e) as Hor'.
  { destruct Hor as [?|Hf]; [by left|right]. intros e He. apply Hf. by exists e. }
  assert (∀ l, O !! po_key old = Some l → ow = true ∨ O !! po_key new = None →
    tx_spec O (TxRename old new ow) = inr ([], <[po_key new := l]> (delete (po_key old) O))) as Hspec.
  { intros l HO Hn. cbn. rewrite HO. destruct (O !! po_key new); [|done]. by destruct Hn as [-> |]. }
  apply (leaves_wpp _ (λ _, []) _ _ _ _ (wpp_ree_fs_rename fuel junk junk_ok k Hk' old new ow v O Hnf
    (po_id_nonempty old Hno) Hu Hid Hta Hne Hi Hs Hor')).
  - intros [] v' (Hi' & l & HO & Hn & Hst). eapply leaves_intro; [|done|exact Hst]. apply may_do. by apply Hspec.
  - intros e v' (Hi' & [[[Hobj Hst]|(He & l & HO & Hn & Hst)]|(-> & -> & [l Hn] & Hst)]).
    + eapply leaves_intro; [|done|exact Hst]. destruct Hobj as [Hf|(-> & HO & Hn)]; [apply may_fail; by exists e|].
      apply may_refuse. cbn. rewrite HO. destruct (O !! po_key new); [|done]. by destruct Hn as [-> |].
    + eapply leaves_intro; [|done|exact Hst]. eapply may_fail_done; [by exists e|]. by apply Hspec.
    + eapply leaves_intro; [|done|exact Hst]. apply may_refuse. cbn. by rewrite Hn.
  - intros v' [He Hst]. eapply leaves_intro; [by apply may_stop|done|done].
Qed.

(** One transaction. *)
Lemma run_tx_leaves t : tx_ok faulty O t → good t (run_tx t v).
Proof.
  intros Hok. destruct t as [po ow x y z|po pos len|po pos buf|po len|old new ow|po].
  - by apply leaves_create.
  - by apply leaves_read.
  - destruct Hok as (Hn & Hp & Hl). apply (leaves_change _ po _ (λ l, write_bytes l pos buf)); [done|done|].
    by apply (wp_write_object fuel junk junk_ok k Hk' v O po Hi Hs Hnf Htw (po_id_nonempty po Hn) Hsha pos buf).
  - destruct Hok as (Hn & Hl).
    apply (leaves_change _ po _ (λ l, l ++ replicate (Z.to_nat len - List.length l) 0)); [done|done|].
    by apply (wp_grow_object fuel junk junk_ok k Hk' v O po Hi Hs Hnf Htw (po_id_nonempty po Hn) Hsha len).
  - by apply leaves_rename.
  - by apply leaves_remove.
Qed.
End tx.
End with_crypto.

(** ** Histories *)

Section with_crypto.
Context `{CryptoLaws}.
Context (fuel : nat) (junk : nat → list Z).

(** The calls to normal world during one transaction. *)
Abbreviation calls := (list (option (bool * tee_result))).
Definition fails (f : calls) : Prop := ∃ e b, Some (b, e) ∈ f.
Definition start (f : calls) (v : vol) : vol := set_env v (v_rng v) f.

(** The core stops and starts again: what was in memory is gone. *)
Definition reboot (v : vol) : vol := Vol None 0 None ∅ (names v) (inodes v) (next v) (v_rng v) (v_faults v).

Definition step_tx (t : tx) (f : calls) (v : vol) : outcome tee_result (list Z) * vol :=
  match run_tx fuel junk t (start f v) with
  | (Panicked, v) => (Panicked, reboot v)
  | (r, v) => (r, v)
  end.

Fixpoint run_history (ts : list (tx * calls)) (v : vol) : list (outcome tee_result (list Z)) * vol :=
  match ts with
  | [] => ([], v)
  | (t, f) :: ts =>
    let '(r, v) := step_tx t f v in
    let '(rs, v) := run_history ts v in (r :: rs, v)
  end.

Inductive history : list (tx * calls) → objects → list (outcome tee_result (list Z)) → objects → Prop :=
  | history_nil O : history [] O [] O
  | history_cons t f ts O r O' rs O'' :
      tx_may (fails f) O t r O' → history ts O' rs O'' → history ((t, f) :: ts) O (r :: rs) O''.

Fixpoint history_ok (ts : list (tx * calls)) (O : objects) : Prop :=
  match ts with
  | [] => True
  | (t, f) :: ts =>
    tx_ok (fails f) O t ∧ (∀ b, Some (b, TEE_ERROR_ITEM_NOT_FOUND) ∉ f)
    ∧ ∀ r O', tx_may (fails f) O t r O' → history_ok ts O'
  end.

(** No two versions of a root node have one hash, all along. *)
Fixpoint calm (ts : list (tx * calls)) (v : vol) : Prop :=
  match ts with
  | [] => True
  | (t, f) :: ts => no_twins v ∧ calm ts (step_tx t f v).2
  end.

(** What the map of objects does. *)
Fixpoint spec_run (ts : list tx) (O : objects) : list (outcome tee_result (list Z)) * objects :=
  match ts with
  | [] => ([], O)
  | t :: ts =>
    let '(r, O1) := match tx_spec O t with inr (r, O1) => (Ok r, O1) | inl e => (Err e, O) end in
    let '(rs, O2) := spec_run ts O1 in (r :: rs, O2)
  end.
Fixpoint txs_ok (ts : list tx) (O : objects) : Prop :=
  match ts with
  | [] => True
  | t :: ts => tx_ok False O t ∧ txs_ok ts (match tx_spec O t with inr (_, O1) => O1 | inl _ => O end)
  end.

Context (junk_ok : ∀ n, List.length (junk n) = n ∧ Forall (λ x, 0 <= x < 256) (junk n)).
Context (Hsha : ∀ x, List.length (sha256 x) = TEE_FS_HTREE_HASH_SIZE).

(** A failed creation has left its name in the directory, and no file of that name. *)
Definition loses (k : Z) (t : tx) (f : calls) (O : objects) (x : outcome tee_result (list Z) * vol) : Prop :=
  is_create t ∧ fails f ∧ (∃ e, x.1 = Err e) ∧ ∃ r O', tx_spec O (forced t) = inr (r, O') ∧ dangling fuel k x.2 O'.

Lemma step_tx_leaves k t f v O :
  0 <= k < UINT32_MAX - 1 → idle v → stands fuel (k + 1) v O → no_twins v →
  tx_ok (fails f) O t → (∀ b, Some (b, TEE_ERROR_ITEM_NOT_FOUND) ∉ f) →
  let x := step_tx t f v in
  idle x.2 ∧ ((∃ O', tx_may (fails f) O t x.1 O' ∧ stands fuel k x.2 O') ∨ loses k t f O x).
Proof.
  intros Hk Hi Hs Htw Hok Hnf. cbv zeta. unfold step_tx.
  assert (leaves fuel k (fails f) O t (run_tx fuel junk t (start f v))) as [Hidle Hor].
  { apply (run_tx_leaves fuel junk junk_ok k Hk Hsha (start f v) O); [done| |by intros [b Hb]; apply (Hnf b)|done|done].
    by eapply stands_ext. }
  destruct (run_tx fuel junk t (start f v)) as [[r|e|] v']; cbn [fst snd] in *.
  - split; [by apply Hidle|]. destruct Hor as [?|(_ & _ & [? ?] & _)]; [by left|done].
  - split; [by apply Hidle|]. destruct Hor as [?|?]; [by left|by right].
  - split; [done|]. destruct Hor as [(O' & Hm & Hst)|(_ & _ & [? ?] & _)]; [left|done].
    exists O'. split; [done|]. by eapply stands_ext.
Qed.

Lemma run_history_cons t f ts v :
  run_history ((t, f) :: ts) v = ((step_tx t f v).1 :: (run_history ts (step_tx t f v).2).1, (run_history ts (step_tx t f v).2).2).
Proof. cbn [run_history]. destruct (step_tx t f v) as [r v1]. cbn [fst snd]. by destruct (run_history ts v1). Qed.

Lemma history_length ts O rs O' : history ts O rs O' → List.length rs = List.length ts.
Proof. induction 1; cbn; congruence. Qed.

Lemma run_history_may k ts v O :
  0 <= k → k + Z.of_nat (List.length ts) < UINT32_MAX → idle v → stands fuel (k + Z.of_nat (List.length ts)) v O →
  history_ok ts O → calm ts v →
  let '(rs, v') := run_history ts v in
  (idle v' ∧ ∃ O', history ts O rs O' ∧ stands fuel k v' O')
  ∨ ∃ ts1 t f ts2 rs1 rs2 O1, let v1 := (run_history ts1 v).2 in
      ts = ts1 ++ (t, f) :: ts2 ∧ rs = rs1 ++ (step_tx t f v1).1 :: rs2 ∧ history ts1 O rs1 O1 ∧
      idle v1 ∧ stands fuel (k + 1 + Z.of_nat (List.length ts2)) v1 O1 ∧ loses (k + Z.of_nat (List.length ts2)) t f O1 (step_tx t f v1).
Proof.
  intros Hk. revert v O. induction ts as [|[t f] ts IH]; intros v O Hlt Hi Hs Hok Hc.
  { left. split; [done|]. exists O. split; [constructor|]. cbn in Hs. by rewrite Z.add_0_r in Hs. }
  destruct Hok as (Hok & Hnf & Hok'), Hc as [Htw Hc]. cbn [List.length] in Hs, Hlt. rewrite Nat2Z.inj_succ in Hs, Hlt.
  replace (k + Z.succ (Z.of_nat (List.length ts))) with (k + Z.of_nat (List.length ts) + 1) in Hs by lia.
  pose proof (step_tx_leaves (k + Z.of_nat (List.length ts)) t f v O ltac:(lia) Hi Hs Htw Hok Hnf) as Hstep.
  rewrite run_history_cons. cbv zeta in Hstep. destruct Hstep as [Hi1 [(O1 & Hm & Hs1)|Hl]].
  - specialize (IH (step_tx t f v).2 O1 ltac:(lia) Hi1 Hs1 (Hok' _ O1 Hm) Hc).
    destruct (run_history ts (step_tx t f v).2) as [rs v']. cbn [fst snd].
    destruct IH as [(Hi' & O' & Hh & Hst)|(ts1 & t' & f' & ts2 & rs1 & rs2 & O2 & -> & -> & Hh & Hv1)].
    + left. split; [done|]. exists O'. split; [by econstructor|done].
    + right. exists ((t, f) :: ts1), t', f', ts2, ((step_tx t f v).1 :: rs1), rs2, O2.
      cbv zeta. rewrite run_history_cons. split; [done|]. split; [done|]. split; [by econstructor|done].
  - right. exists [], t, f, ts, [], (run_history ts (step_tx t f v).2).1, O. split; [done|]. split; [done|]. split; [constructor|].
    cbn [run_history snd]. split; [done|]. split; [|done]. by replace (k + 1 + Z.of_nat (List.length ts)) with (k + Z.of_nat (List.length ts) + 1) by lia.
Qed.

Lemma no_fails : ¬ fails [].
Proof. intros (e & b & Hb). by apply elem_of_nil in Hb. Qed.

Lemma run_history_spec k ts v O :
  0 <= k → k + Z.of_nat (List.length ts) < UINT32_MAX → idle v → stands fuel (k + Z.of_nat (List.length ts)) v O →
  txs_ok ts O → calm ((λ t, (t, [])) <$> ts) v →
  let '(rs, v') := run_history ((λ t, (t, [])) <$> ts) v in
  rs = (spec_run ts O).1 ∧ idle v' ∧ stands fuel k v' (spec_run ts O).2.
Proof.
  intros Hk. revert v O. induction ts as [|t ts IH]; intros v O Hlt Hi Hs Hok Hc.
  { split; [done|]. split; [done|]. cbn in Hs. by rewrite Z.add_0_r in Hs. }
  destruct Hok as (Hok & Hok'), Hc as [Htw Hc]. cbn [List.length] in Hs, Hlt. rewrite Nat2Z.inj_succ in Hs, Hlt.
  assert (tx_ok (fails []) O t) as Hok0.
  { destruct t; try done. destruct Hok as (? & ? & ? & ? & Hor). split_and!; try done. destruct Hor; [by left|right; apply no_fails]. }
  pose proof (step_tx_leaves (k + Z.of_nat (List.length ts)) t [] v O ltac:(lia) Hi) as Hstep.
  cbv zeta in Hstep. rewrite fmap_cons. cbn [run_history]. cbn [fmap list_fmap] in Hc. destruct (step_tx t [] v) as [r v1].
  cbn [fst snd] in *.
  destruct Hstep as [Hi1 Hor]; [|done|done|by intros b Hb%elem_of_nil|].
  { by replace (k + Z.of_nat (List.length ts) + 1) with (k + Z.succ (Z.of_nat (List.length ts))) by lia. }
  destruct Hor as [(O1 & Hm & Hs1)|(_ & Hf & _)]; [|by destruct no_fails].
  assert (match tx_spec O t with inr (r, O2) => (Ok r, O2) | inl e => (Err e, O) end = (r, O1)
    ∧ match tx_spec O t with inr (_, O2) => O2 | inl _ => O end = O1) as [E1 E2].
  { destruct Hm as [r' O' E|e E|e Hf|e r' O' Hf|r' O' Hf|Hf]; try (by destruct no_fails); by rewrite E. }
  cbn [spec_run]. rewrite E1. rewrite E2 in Hok'. specialize (IH v1 O1 ltac:(lia) Hi1 Hs1 Hok' Hc).
  destruct (run_history _ v1) as [rs v'], (spec_run ts O1) as [rs' O']. destruct IH as (-> & ? & ?). done.
Qed.
End with_crypto.

Section with_crypto.
Context `{CryptoLaws}.
Context (fuel : nat) (junk : nat → list Z).
Context (junk_ok : ∀ n, List.length (junk n) = n ∧ Forall (λ x, 0 <= x < 256) (junk n)).
Context (Hsha : ∀ x, List.length (sha256 x) = TEE_FS_HTREE_HASH_SIZE).

(** C2: every operation on an object (create, read, write, grow, rename, remove, each
    with the opening and closing around it) is a transaction on the volume, whichever
    calls to normal world fail. From a volume with nothing open that stands for the
    objects [O] it leaves nothing open, and either it did what it is to do to [O], or
    it was refused for the reason the map gives and nothing changed, or a call failed
    and it did all or nothing. The core stops only when a call failed, and the
    objects are as before then. A failed call may make the creation overwrite an
    object though it was not to; and only a creation that fails can leave less: the
    objects it was to leave, without the name of the new file. *)
Theorem ree_fs_transactions k t v O :
  0 <= k < UINT32_MAX - 1 → idle v → stands fuel (k + 1) v O → ¬ vfault v TEE_ERROR_ITEM_NOT_FOUND → no_twins v →
  tx_ok (∃ e, vfault v e) O t →
  let '(r, v') := run_tx fuel junk t v in
  (r ≠ Panicked → idle v') ∧
  ((∃ O', tx_may (∃ e, vfault v e) O t r O' ∧ stands fuel k v' O')
   ∨ is_create t ∧ (∃ e, vfault v e) ∧ (∃ e, r = Err e)
     ∧ ∃ a O', tx_spec O (forced t) = inr (a, O') ∧ dangling fuel k v' O').
Proof.
  intros Hk Hi Hs Hnf Htw Hok. pose proof (run_tx_leaves fuel junk junk_ok k Hk Hsha v O Hi Hs Hnf Htw t Hok) as Hl.
  by destruct (run_tx fuel junk t v).
Qed.

(** C3: histories. Whatever transactions are made one after the other, whichever calls
    fail in each, and with the core starting again after it has stopped: either the
    volume stands in the end for objects that the transactions left one by one, each
    done, refused for the reason the map gives, or failed with all or nothing done; or
    there is a first creation that failed and left a name in the directory without a
    file. Up to that creation the history is as before, and the volume it leaves stands
    for the objects it was to leave, but for the file of that name. *)
Theorem ree_fs_histories k ts v O :
  0 <= k → k + Z.of_nat (List.length ts) < UINT32_MAX → idle v → stands fuel (k + Z.of_nat (List.length ts)) v O →
  history_ok ts O → calm fuel junk ts v →
  let '(rs, v') := run_history fuel junk ts v in
  (idle v' ∧ ∃ O', history ts O rs O' ∧ stands fuel k v' O')
  ∨ ∃ ts1 t f ts2 rs1 rs2 O1, let v1 := (run_history fuel junk ts1 v).2 in
      ts = ts1 ++ (t, f) :: ts2 ∧ rs = rs1 ++ (step_tx fuel junk t f v1).1 :: rs2 ∧ history ts1 O rs1 O1 ∧
      idle v1 ∧ stands fuel (k + 1 + Z.of_nat (List.length ts2)) v1 O1
      ∧ loses fuel (k + Z.of_nat (List.length ts2)) t f O1 (step_tx fuel junk t f v1).
Proof. by apply run_history_may. Qed.

(** C4: with nothing failing the REE file system is a map from a UUID and an object id
    to bytes: a sequence of transactions gives exactly the results, the errors
    included, that the map gives, and the volume stands for the resulting map. *)
Theorem ree_fs_refines_map k ts v O :
  0 <= k → k + Z.of_nat (List.length ts) < UINT32_MAX → idle v → stands fuel (k + Z.of_nat (List.length ts)) v O →
  txs_ok ts O → calm fuel junk ((λ t, (t, [])) <$> ts) v →
  let '(rs, v') := run_history fuel junk ((λ t, (t, [])) <$> ts) v in
  rs = (spec_run ts O).1 ∧ idle v' ∧ stands fuel k v' (spec_run ts O).2.
Proof. by apply run_history_spec. Qed.
End with_crypto.

(** ** Examples *)

(** Stand-ins for the cryptography that look at the first bytes only. *)
Definition quick_hash (l : list Z) : Z := toy_hash (take 48 l).
Definition quick_tag (key iv aad plain : list Z) : list Z :=
  le_bytes 16 (quick_hash (take 8 plain ++ take 16 iv ++ take 16 key ++ aad)).
Definition quick : Crypto := {|
  sha256 l := le_bytes 32 (quick_hash l);
  gcm_enc key iv aad plain := (plain, quick_tag key iv aad plain);
  gcm_dec key iv aad crypt tag :=
    if bool_decide (tag = quick_tag key iv aad crypt) then Some crypt else None;
  fek_enc u k := k;
  fek_dec u k := k;
  rng n := le_bytes 16 (Z.of_nat n + 1);
|}.

Definition quick_laws : @CryptoLaws quick.
Proof.
  constructor; simpl.
  - intros key iv aad plain crypt tag [= <- <-]. by rewrite bool_decide_eq_true_2.
  - by intros key iv aad plain crypt tag [= <- <-].
  - done.
Defined.

Section examples.
Existing Instance quick.
Existing Instance quick_laws.

Definition ex_junk (n : nat) : list Z := replicate n 0.

Lemma ex_junk_ok n : List.length (ex_junk n) = n ∧ Forall (λ x, 0 <= x < 256) (ex_junk n).
Proof. split; [apply length_replicate|]. apply Forall_replicate. lia. Qed.

Lemma quick_hash_length x : List.length (sha256 x) = TEE_FS_HTREE_HASH_SIZE.
Proof. apply length_le_bytes. Qed.

(** A volume with an empty directory. *)
Definition ex_dirf : dev := snd (tee_fs_htree_open true None [] empty_dev).
Definition ex_vol : vol := Vol None 0 None ∅ {[None := 0%nat]} {[0%nat := ex_dirf]} 1 0 [].

Lemma holds_bytes_dirf : holds_bytes [] 1 [] ex_dirf.
Proof.
  exists (File 0 []). split; [|split; [|done]].
  - unfold ex_dirf. eapply wp_snd; [apply (wp_create BS [] empty_dev)| |].
    + intros e d'. by apply no_fault.
    + by intros ht d' (? & _).
  - by constructor.
Qed.

Lemma stands_ex_vol fuel k : 0 <= k < 1000 → 120 * k < Z.of_nat fuel → stands fuel k ex_vol ∅.
Proof.
  intros Hk Hf. exists 0%nat, ex_dirf, 1, [], ∅. split; [|split; [exact ex_dir_on|split; [|split; [done|split; [exact holds_bytes_dirf|]]]]].
  - constructor.
    + constructor; cbn [names ex_vol next].
      * intros a b i [<- _]%lookup_singleton_Some [<- _]%lookup_singleton_Some. done.
      * intros a i [_ <-]%lookup_singleton_Some. lia.
    + done.
    + intros key key' x x' Hx. by rewrite lookup_empty in Hx.
    + intros key. by rewrite !lookup_empty.
  - split; [intros key x Hx; by rewrite lookup_empty in Hx|]. cbn [List.length]. lia.
  - unfold UINT32_MAX. lia.
Qed.

Lemma idle_ex_vol : idle ex_vol.
Proof. done. Qed.

Lemma no_twins_ex_vol : no_twins ex_vol.
Proof. intros n i d Hn. cbn [names ex_vol] in Hn. by apply lookup_singleton_Some in Hn as [? _]. Qed.

(** The condition on the versions of a root node, as a test. *)
Definition twinless (v : vol) : bool :=
  forallb (λ '(n, i), match n, inodes v !! i with
    | Some _, Some d => match d_nodes d !! (1, false), d_nodes d !! (1, true) with
                        | Some n0, Some n1 => negb (bool_decide (hash n0 = hash n1))
                        | _, _ => true
                        end
    | _, _ => true
    end) (map_to_list (names v)).

Lemma twinless_ok v : twinless v = true → no_twins v.
Proof.
  intros Ht n i d Hn Hd (n0 & n1 & H0 & H1 & He). unfold twinless in Ht. rewrite forallb_forall in Ht.
  specialize (Ht (Some n, i)). cbn in Ht. rewrite Hd, H0, H1, bool_decide_eq_true_2 in Ht by done.
  discriminate Ht. apply list_elem_of_In. by apply elem_of_map_to_list.
Qed.

Definition ex_a : pobj := Po ex_uuid [65].
Definition ex_b : pobj := Po ex_uuid [66].

Lemma ex_name_ok x : name_ok (Po ex_uuid [x]).
Proof. split; [|cbn; lia]. split_and!; try done. cbn. repeat constructor; lia. Qed.

(** An object is made, and a call fails. *)
Definition ex_fault (j : nat) (b : bool) : list (option (bool * tee_result)) :=
  replicate j None ++ [Some (b, TEE_ERROR_GENERIC)].
Definition ex_create : tx := TxCreate ex_a false [1] [2; 3] [4; 5].
Definition ex_vol_fault : vol := start (ex_fault 5 true) ex_vol.

Lemma ex_fault_not_found j b b' : Some (b', TEE_ERROR_ITEM_NOT_FOUND) ∉ ex_fault j b.
Proof.
  unfold ex_fault. rewrite elem_of_app, elem_of_replicate, list_elem_of_singleton. by intros [[? _]|?].
Qed.

Lemma ex_create_ok faulty : tx_ok faulty ∅ ex_create.
Proof. split; [apply ex_name_ok|done]. Qed.

Theorem ree_fs_transactions_witness :
  (0 <= 0 < UINT32_MAX - 1 ∧ idle ex_vol_fault ∧ stands 200 (0 + 1) ex_vol_fault ∅
   ∧ ¬ vfault ex_vol_fault TEE_ERROR_ITEM_NOT_FOUND ∧ no_twins ex_vol_fault)
  ∧ ((∃ O', tx_may (∃ e, vfault ex_vol_fault e) ∅ ex_create (fst (run_tx 200 ex_junk ex_create ex_vol_fault)) O'
        ∧ stands 200 0 (snd (run_tx 200 ex_junk ex_create ex_vol_fault)) O')
     ∨ ∃ e, fst (run_tx 200 ex_junk ex_create ex_vol_fault) = Err e).
Proof.
  assert (stands 200 (0 + 1) ex_vol_fault ∅) as Hst by (eapply stands_ext; [apply (stands_ex_vol 200 1); lia|done..]).
  assert (¬ vfault ex_vol_fault TEE_ERROR_ITEM_NOT_FOUND) as Hnf by (intros [b Hb]; by apply (ex_fault_not_found 5 true b)).
  assert (0 <= 0 < UINT32_MAX - 1) as Hk by (unfold UINT32_MAX; lia).
  split; [split_and!; try done; exact no_twins_ex_vol|].
  pose proof (ree_fs_transactions 200 ex_junk ex_junk_ok quick_hash_length 0 ex_create ex_vol_fault ∅ Hk idle_ex_vol Hst Hnf
    no_twins_ex_vol (ex_create_ok _)) as Hw. revert Hw.
  generalize (run_tx 200 ex_junk ex_create ex_vol_fault). intros [r v'] [_ [Hl|(_ & _ & He & _)]]; [by left|by right].
Defined.

(** A history: an object is made; a write reports a failure, but is done; a call that
    fails while a second object is made stops the core, which starts again; the object
    is renamed and read; removing it fails, and it is read again. *)
Definition ex_history : list (tx * list (option (bool * tee_result))) :=
  [(ex_create, []); (TxWrite ex_a 1 [9; 9], ex_fault 55 true); (TxCreate ex_b false [] [] [1; 2], ex_fault 42 false);
   (TxRename ex_a ex_b false, []); (TxRead ex_b 0 10, []); (TxRemove ex_b, ex_fault 30 false); (TxRead ex_b 0 10, [])].

Lemma ex_no_calls (b : bool) : Some (b, TEE_ERROR_ITEM_NOT_FOUND) ∉ ([] : list (option (bool * tee_result))).
Proof. apply not_elem_of_nil. Qed.

Lemma ex_history_ok : history_ok ex_history ∅.
Proof.
  pose proof (ex_fault_not_found) as Hnf. pose proof ex_no_calls as Hno.
  repeat (split; [|split; [by intros ?|intros _ ? _]]); try done.
  all: split_and!; try apply ex_name_ok; try done; try lia.
  right. apply no_fails.
Qed.

Lemma ex_history_calm : calm 900 ex_junk ex_history ex_vol.
Proof. repeat (split; [apply twinless_ok; vm_compute; reflexivity|]). exact I. Qed.

Theorem ree_fs_histories_witness :
  stands 900 7 ex_vol ∅ ∧ calm 900 ex_junk ex_history ex_vol ∧
  let '(rs, v') := run_history 900 ex_junk ex_history ex_vol in
  rs = [Ok []; Err TEE_ERROR_GENERIC; Panicked; Ok []; Ok [1; 9; 9; 4; 5]; Err TEE_ERROR_GENERIC; Ok [1; 9; 9; 4; 5]]
  ∧ idle v' ∧ ∃ O', history ex_history ∅ rs O' ∧ stands 900 0 v' O'.
Proof.
  assert (stands 900 7 ex_vol ∅) as Hst by (apply stands_ex_vol; lia).
  split; [exact Hst|]. split; [exact ex_history_calm|].
  assert ((run_history 900 ex_junk ex_history ex_vol).1
    = [Ok []; Err TEE_ERROR_GENERIC; Panicked; Ok []; Ok [1; 9; 9; 4; 5]; Err TEE_ERROR_GENERIC; Ok [1; 9; 9; 4; 5]]) as Hrs
    by (vm_compute; reflexivity).
  pose proof (ree_fs_histories 900 ex_junk ex_junk_ok quick_hash_length 0 ex_history ex_vol ∅ ltac:(lia)
    ltac:(unfold UINT32_MAX; cbn; lia) idle_ex_vol Hst ex_history_ok ex_history_calm) as Hw.
  revert Hrs Hw. generalize (run_history 900 ex_junk ex_history ex_vol). intros [rs v'] Hrs Hw. cbn [fst] in Hrs. subst rs.
  split; [reflexivity|]. destruct Hw as [Hw|(ts1 & t & f & ts2 & rs1 & rs2 & O1 & Hts & Hr & Hh & _ & _ & Hcr & _ & [e He] & _)]; [exact Hw|].
  exfalso. rewrite He in Hr. apply history_length in Hh.
  apply (f_equal (λ l, l !! List.length ts1)) in Hts. rewrite list_lookup_middle in Hts by done.
  apply (f_equal (λ l, l !! List.length ts1)) in Hr. rewrite (list_lookup_middle rs1) in Hr by done.
  destruct ts1 as [|? [|? [|? [|? [|? [|? [|? ts1]]]]]]]; try done; by injection Hts as <- <-.
Defined.

(** Three transactions. *)
Definition ex_txs : list tx := [ex_create; TxRename ex_a ex_b false; TxRead ex_b 1 10].

Lemma ex_txs_ok : txs_ok ex_txs ∅.
Proof.
  split; [apply ex_create_ok|]. split; [|split; [|exact I]].
  - split_and!; try apply ex_name_ok; try done. by left.
  - split_and!; try apply ex_name_ok; done || lia.
Qed.

Lemma ex_calm : calm 400 ex_junk ((λ t, (t, [])) <$> ex_txs) ex_vol.
Proof.
  split; [exact no_twins_ex_vol|]. split; [apply twinless_ok; vm_compute; reflexivity|].
  split; [apply twinless_ok; vm_compute; reflexivity|exact I].
Qed.

Theorem ree_fs_refines_map_witness :
  stands 400 3 ex_vol ∅ ∧ txs_ok ex_txs ∅ ∧
  let '(rs, v') := run_history 400 ex_junk ((λ t, (t, [])) <$> ex_txs) ex_vol in
  rs = [Ok []; Ok []; Ok [2; 3; 4; 5]] ∧ idle v' ∧ stands 400 0 v' {[po_key ex_b := [1; 2; 3; 4; 5]]}.
Proof.
  assert (stands 400 3 ex_vol ∅) as Hst by (apply stands_ex_vol; lia).
  split; [exact Hst|]. split; [exact ex_txs_ok|].
  exact (ree_fs_refines_map 400 ex_junk ex_junk_ok quick_hash_length 0 ex_txs ex_vol ∅ ltac:(lia)
    ltac:(unfold UINT32_MAX; cbn; lia) idle_ex_vol Hst ex_txs_ok ex_calm).
Defined.
End examples.
