(* ===== verification/ReeFailures.v ===== *)
(** * core/tee/tee_ree_fs.c: what failing calls and shared handles do

    Runs of the model in which a call to normal world fails, or in which two handles
    are open, that end with an object lost or with the core stopped. *)
From S2P Require Import Prelude BlockFile ByteFile Htree HtreeTree HtreeProofs ReeFs HtreeStore.
From S2P Require Import Uuid Dirfile DirfileProofs ReeDirf ReeObj ReeVol ReeCreate ReeAccess ReeSession.

Local Open Scope Z_scope.

Section runs.
Context `{Crypto}.

(** Object [ex_b] holds one byte. *)
Definition run_start : vol :=
  (run_history 200 ex_junk [(TxCreate ex_b false [] [] [1], [])] (Vol None 0 None ∅ ∅ ∅ 0 0 [])).2.

Definition set_calls (f : list (option (bool * tee_result))) : V unit := modify (start f).
Definition result {A} (r : tee_result + A) : outcome tee_result unit :=
  match r with inl e => Err e | inr _ => Ok tt end.

(** A transaction in which the call [j] fails, and then [ex_b] is read. *)
Definition failing_tx (t : tx) (j : nat) (effect : bool) : list (outcome tee_result (list Z)) :=
  (run_history 200 ex_junk [(t, ex_fault j effect); (TxRead ex_b 0 10, [])] run_start).1.

(** The results of [m], and what [ex_b] holds then, after a restart if there was none. *)
Definition then_read {A} (m : V A) : outcome tee_result A * outcome tee_result (list Z) :=
  let '(r, v) := m run_start in (r, (run_tx 200 ex_junk (TxRead ex_b 0 10) (reboot (start [] v))).1).

(** Two writes with one handle; call [j] fails in the first and [j'] in the second. *)
Definition two_writes (j j' : nat) : V (outcome tee_result unit * outcome tee_result unit) :=
  '(fh, _) ← ree_fs_open 200 ex_junk ex_b;
  _ ← set_calls (ex_fault j false);
  r1 ← mtry (ree_fs_write 200 ex_junk fh 0 [2]);
  _ ← set_calls (ex_fault j' false);
  r2 ← mtry (ree_fs_write 200 ex_junk fh 0 [3]);
  mret (result r1, result r2).

(** Three writes, with two handles in turn. *)
Definition two_handles : V (list (outcome tee_result unit)) :=
  '(f1, _) ← ree_fs_open 200 ex_junk ex_b;
  '(f2, _) ← ree_fs_open 200 ex_junk ex_b;
  r1 ← mtry (ree_fs_write 200 ex_junk f1 0 [2]);
  r2 ← mtry (ree_fs_write 200 ex_junk f2 1 [3]);
  r3 ← mtry (ree_fs_write 200 ex_junk f1 2 [4]);
  mret [result r1; result r2; result r3].

(** While an object is open, opening another one fails; then the next is opened. *)
Definition open_again (j : nat) : V (outcome tee_result unit * outcome tee_result unit) :=
  '(f1, _) ← ree_fs_open 200 ex_junk ex_b;
  _ ← set_calls (ex_fault j false);
  r1 ← mtry (ree_fs_open 200 ex_junk ex_a);
  _ ← set_calls [];
  r2 ← mtry (ree_fs_open 200 ex_junk ex_b);
  mret (result r1, result r2).

(** A write fails while the directory is being listed. *)
Definition list_on (j : nat) : V (outcome tee_result unit * outcome tee_result unit) :=
  '(f1, _) ← ree_fs_open 200 ex_junk ex_b;
  d ← ree_fs_opendir_rpc 200 ex_junk ex_uuid;
  _ ← set_calls (ex_fault j false);
  r1 ← mtry (ree_fs_write 200 ex_junk f1 0 [2]);
  _ ← set_calls [];
  r2 ← mtry (ree_fs_readdir_rpc 200 ex_junk d);
  mret (result r1, result r2).
End runs.

(** What a failed call or a second handle can do. (1) A creation whose directory
    commit reports a failure but took effect removes the new file: the old object
    and the new one are gone. (2) A call that fails while set_name() looks for the
    name makes it overwrite an object that it was not to overwrite, or (3) stops the
    core. (4) After a write has failed, another write with the handle stops the core,
    or (5), when the second fails as well, the object is lost. (6) A write with one
    handle is lost to a write with another one, and the next write fails. (7) When an
    object cannot be opened while another one is open, the next opening stops the
    core. (8) A failed write stops the core in a listing that is under way. *)
Lemma ree_fs_failures :
  @failing_tx quick (TxCreate ex_b true [] [] [1; 2]) 56 true = [Err TEE_ERROR_GENERIC; Err TEE_ERROR_CORRUPT_OBJECT]
  ∧ @failing_tx quick (TxCreate ex_b false [] [] [1; 2]) 41 false = [Ok []; Ok [1; 2]]
  ∧ @failing_tx quick (TxCreate ex_b false [] [] [1; 2]) 42 false = [Panicked; Ok [1]]
  ∧ @then_read quick _ (@two_writes quick 1 100) = (Panicked, Ok [1])
  ∧ @then_read quick _ (@two_writes quick 20 23)
    = (Ok (Err TEE_ERROR_GENERIC, Err TEE_ERROR_GENERIC), Err TEE_ERROR_CORRUPT_OBJECT)
  ∧ @then_read quick _ (@two_handles quick) = (Ok [Ok tt; Ok tt; Err TEE_ERROR_CORRUPT_OBJECT], Ok [1; 3])
  ∧ @then_read quick _ (@open_again quick 1) = (Panicked, Ok [1])
  ∧ @then_read quick _ (@list_on quick 20) = (Panicked, Ok [1]).
Proof. split_and!; vm_compute; reflexivity. Qed.
