(* ===== verification/Tadb.v ===== *)
(** * core/tee/tadb.c: the database of installed trusted applications

    The object "ta.db" has an entry per TA with its properties, the number of its
    encrypted file and the key. A bitmap in memory says which numbers are taken. The
    object is behind the class [TadbFile], the streaming cipher behind [Authenc]. The
    functions that hold tadb_mutex are one step each; a handle of a client is a
    value, given back when a call succeeds (after an error a client closes it). *)
From S2P Require Import Prelude Uuid ByteFile Bitstring Dirfile.

Local Open Scope Z_scope.

Definition TADB_MAX_BUFFER_SIZE : Z := 64 * 1024.
Definition TADB_IV_SIZE : nat := 16.
Definition TADB_TAG_SIZE : nat := 16.
Definition TADB_KEY_SIZE : nat := 32.

(** The operations of struct tee_file_operations on "ta.db". *)
Class TadbFile (F : Type) := {
  tf_open : M F tee_result unit;
  tf_create : M F tee_result unit;
  tf_read : Z → Z → M F tee_result (list Z);
  tf_write : Z → list Z → M F tee_result unit;
  tf_close : M F tee_result unit;
}.

(** crypto_authenc_*() with AES-GCM: init (mode, key, iv, size of the payload), update
    and the two finals. [ae_rng] is crypto_rng_read(), call after call. *)
Class Authenc := {
  actx : Type;
  ae_init : bool → list Z → list Z → Z → actx;
  ae_update : actx → list Z → list Z * actx;
  ae_enc_final : actx → list Z;
  ae_dec_final : actx → list Z → bool * actx;
  ae_rng : nat → nat → list Z;
}.

Record tee_tadb_property := MkProp {
  p_uuid : TEE_UUID;
  p_version : Z;
  p_custom_size : Z;
  p_bin_size : Z;
}.

(** [files] is empty while the pointer is NULL. *)
Record tee_tadb_dir := Tadir { td_nbits : Z; td_files : list Z }.

Record tadb_entry := MkEntry {
  e_prop : tee_tadb_property;
  e_file_number : Z;
  e_iv : list Z;
  e_tag : list Z;
  e_key : list Z;
}.

Record tee_tadb_ta_write `{Authenc} := Ta_w { w_fd : nat; w_entry : tadb_entry; w_pos : Z; w_ctx : actx }.
Record tee_tadb_ta_read `{Authenc} := Ta_r {
  r_fd : nat; r_entry : tadb_entry; r_pos : Z; r_ctx : actx; ta_buf : option (list Z);
}.

Definition entry_bytes (e : tadb_entry) : list Z :=
  uuid_bytes (p_uuid (e_prop e)) ++ le_bytes 4 (p_version (e_prop e)) ++ le_bytes 4 (p_custom_size (e_prop e))
  ++ le_bytes 4 (p_bin_size (e_prop e)) ++ le_bytes 4 (e_file_number e) ++ e_iv e ++ e_tag e ++ e_key e.
Definition entry_of_bytes (l : list Z) : tadb_entry :=
  let word n := le_value (take 4 (drop n l)) in
  MkEntry (MkProp (uuid_of_bytes (take 16 l)) (word 16%nat) (word 20%nat) (word 24%nat)) (word 28%nat)
    (take TADB_IV_SIZE (drop 32 l)) (take TADB_TAG_SIZE (drop 48 l)) (take TADB_KEY_SIZE (drop 64 l)).
Definition sizeof_entry : Z := 96.
Definition null_uuid : TEE_UUID := MkUuid 0 0 0 (replicate 8 0).
Definition null_entry : tadb_entry :=
  MkEntry (MkProp null_uuid 0 0 0) 0 (replicate 16 0) (replicate 16 0) (replicate 32 0).

(** [entry->prop.custom_size + entry->prop.bin_size], added in 32 bits. *)
Definition enc_size (e : tadb_entry) : Z := wrap 32 (p_custom_size (e_prop e) + p_bin_size (e_prop e)).

Definition is_null_uuid (uuid : TEE_UUID) : bool := bool_decide (uuid_bytes uuid = uuid_bytes null_uuid).

Section with_file.
Context {F : Type} `{TadbFile F} `{Authenc}.
Context (fuel : nat) (junk : nat → list Z).

(** "ta.db", the variables of the file, and normal world: what the names of the
    encrypted TAs refer to, and the files. The calls that are made outside of the core,
    and to the heap, fail as [t_faults] says. *)
Record tst := Tst {
  t_file : F;
  tadb_db : option tee_tadb_dir;
  tadb_db_refc : Z;
  t_names : gmap Z nat;
  t_inodes : gmap nat (list Z);
  t_next : nat;
  t_rng : nat;
  t_faults : list (option (bool * tee_result));
}.

Definition set_t_file (v : tst) (x : F) : tst :=
  Tst x (tadb_db v) (tadb_db_refc v) (t_names v) (t_inodes v) (t_next v) (t_rng v) (t_faults v).
Definition set_db (v : tst) (x : option tee_tadb_dir) : tst :=
  Tst (t_file v) x (tadb_db_refc v) (t_names v) (t_inodes v) (t_next v) (t_rng v) (t_faults v).
Definition set_refc (v : tst) (x : Z) : tst :=
  Tst (t_file v) (tadb_db v) x (t_names v) (t_inodes v) (t_next v) (t_rng v) (t_faults v).
Definition set_t_names (v : tst) (x : gmap Z nat) : tst :=
  Tst (t_file v) (tadb_db v) (tadb_db_refc v) x (t_inodes v) (t_next v) (t_rng v) (t_faults v).
Definition set_t_inodes (v : tst) (x : gmap nat (list Z)) : tst :=
  Tst (t_file v) (tadb_db v) (tadb_db_refc v) (t_names v) x (t_next v) (t_rng v) (t_faults v).
Definition set_t_env (v : tst) (n r : nat) (f : list (option (bool * tee_result))) : tst :=
  Tst (t_file v) (tadb_db v) (tadb_db_refc v) (t_names v) (t_inodes v) n r f.

Abbreviation T := (M tst tee_result).

Definition tmodify (f : tst → tst) : T unit := λ v, (Ok tt, f v).
Definition text : T unit := λ v,
  match t_faults v with
  | [] => (Ok tt, v)
  | None :: f => (Ok tt, set_t_env v (t_next v) (t_rng v) f)
  | Some (_, e) :: f => (Err e, set_t_env v (t_next v) (t_rng v) f)
  end.
Definition text_write (w : tst → tst) : T unit := λ v,
  match t_faults v with
  | [] => (Ok tt, w v)
  | None :: f => (Ok tt, w (set_t_env v (t_next v) (t_rng v) f))
  | Some (b, e) :: f =>
    let v := set_t_env v (t_next v) (t_rng v) f in (Err e, if b then w v else v)
  end.
Definition on_tf {A} (m : M F tee_result A) : T A := λ v,
  let '(r, f) := m (t_file v) in (r, set_t_file v f).

Definition crypto_rng_read (n : nat) : T (list Z) :=
  _ ← text;
  v ← mget;
  _ ← tmodify (λ v, set_t_env v (t_next v) (S (t_rng v)) (t_faults v));
  mret (ae_rng (t_rng v) n).

(** ** The files of the TAs *)

Definition create_ta (n : Z) (v : tst) : tst :=
  match t_names v !! n with
  | Some ino => set_t_inodes v (<[ino := []]> (t_inodes v))
  | None =>
    set_t_env (set_t_names (set_t_inodes v (<[t_next v := []]> (t_inodes v))) (<[n := t_next v]> (t_names v)))
      (S (t_next v)) (t_rng v) (t_faults v)
  end.

Definition ta_operation_open (create : bool) (file_number : Z) : T nat :=
  _ ← text;
  _ ← (if create then text_write (create_ta file_number) else text);
  v ← mget;
  match t_names v !! file_number with Some ino => mret ino | None => mthrow TEE_ERROR_ITEM_NOT_FOUND end.

Definition ta_operation_remove (file_number : Z) : T unit :=
  _ ← text; text_write (λ v, set_t_names v (delete file_number (t_names v))).

(** ** The bitmap *)

Definition ta_maybe_grow_files (db : tee_tadb_dir) (idx : Z) : T tee_tadb_dir :=
  if idx <? td_nbits db then mret db
  else
    let size := Z.to_nat (bitstr_size (idx + 1)) in
    _ ← text;
    mret (Tadir (idx + 1) (bit_nclear (take size (td_files db) ++ junk (size - length (td_files db))%nat) (td_nbits db) idx)).

Definition ta_set_file (db : tee_tadb_dir) (idx : Z) : T tee_tadb_dir :=
  db ← ta_maybe_grow_files db idx;
  mret (Tadir (td_nbits db) (bit_set (td_files db) idx)).

Definition ta_clear_file (db : tee_tadb_dir) (idx : Z) : tee_tadb_dir :=
  if idx <? td_nbits db then Tadir (td_nbits db) (bit_clear (td_files db) idx) else db.

Definition ta_test_file (db : tee_tadb_dir) (idx : Z) : bool :=
  if idx <? td_nbits db then bit_test (td_files db) idx else false.

(** ** Entries *)

Definition read_ent (idx : Z) : T tadb_entry :=
  l ← on_tf (tf_read (wrap 64 (idx * sizeof_entry)) sizeof_entry);
  if Z.of_nat (length l) =? sizeof_entry then mret (entry_of_bytes l) else mthrow TEE_ERROR_ITEM_NOT_FOUND.

Definition write_ent (idx : Z) (entry : tadb_entry) : T unit :=
  on_tf (tf_write (wrap 64 (idx * sizeof_entry)) (entry_bytes entry)).

(** ** Opening and closing *)

Definition tadb_open : T tee_tadb_dir :=
  _ ← text;
  res ← mtry (on_tf tf_open);
  _ ← (match res with
       | inr _ => mret tt
       | inl TEE_ERROR_ITEM_NOT_FOUND => on_tf tf_create
       | inl e => mthrow e
       end);
  mret (Tadir 0 []).

Definition tee_tadb_open : T unit :=
  v ← mget;
  _ ← (if tadb_db_refc v =? 0 then
         _ ← massert (bool_decide (tadb_db v = None));
         db ← tadb_open;
         tmodify (λ v, set_db v (Some db))
       else mret tt);
  tmodify (λ v, set_refc v (wrap 32 (tadb_db_refc v + 1))).

Definition tadb_put : T unit :=
  v ← mget;
  _ ← massert (negb (tadb_db_refc v =? 0));
  let refc := wrap 32 (tadb_db_refc v - 1) in
  _ ← tmodify (λ v, set_refc v refc);
  if refc =? 0 then _ ← on_tf tf_close; tmodify (λ v, set_db v None) else mret tt.

(** [ta->db], which is [tadb_db]. *)
Definition get_db : T tee_tadb_dir :=
  v ← mget; match tadb_db v with Some db => mret db | None => mpanic end.
Definition put_db (db : tee_tadb_dir) : T unit := tmodify (λ v, set_db v (Some db)).

(** The loop of populate_files(). *)
Fixpoint populate_loop (db : tee_tadb_dir) (idx : Z) (fuel : nat) : T tee_tadb_dir :=
  match fuel with
  | O => mpanic
  | S fuel =>
    res ← mtry (read_ent idx);
    match res with
    | inl TEE_ERROR_ITEM_NOT_FOUND => mret db
    | inl e => mthrow e
    | inr entry =>
      if is_null_uuid (p_uuid (e_prop entry)) then populate_loop db (idx + 1) fuel
      else if ta_test_file db (to_int32 (e_file_number entry)) then
        _ ← write_ent idx null_entry;
        populate_loop db (idx + 1) fuel
      else
        db ← ta_set_file db (to_int32 (e_file_number entry));
        populate_loop db (idx + 1) fuel
    end
  end.

Definition populate_files : T unit :=
  db ← get_db;
  match td_files db with
  | _ :: _ => mret tt
  | [] =>
    res ← mtry (populate_loop db 0 fuel);
    match res with
    | inr db => put_db db
    | inl e => _ ← put_db (Tadir 0 []); mthrow e
    end
  end.

(** ** Installing a TA *)

Definition tadb_authenc_init (encrypt : bool) (entry : tadb_entry) : T actx :=
  _ ← text; _ ← text; mret (ae_init encrypt (e_key entry) (e_iv entry) (enc_size entry)).

Definition tadb_update_payload (ctx : actx) (src : list Z) : T (list Z * actx) :=
  _ ← text;
  let '(dst, ctx) := ae_update ctx src in
  _ ← massert (length dst =? length src)%nat;
  mret (dst, ctx).

Definition tee_tadb_ta_create (property : tee_tadb_property) : T tee_tadb_ta_write :=
  if is_null_uuid (p_uuid property) then mthrow TEE_ERROR_GENERIC
  else
    _ ← text;
    _ ← tee_tadb_open;
    res ← mtry (
      _ ← populate_files;
      db ← get_db;
      let i :=
        match td_files db with
        | [] => 0
        | _ => let i := bit_ffc (td_files db) (td_nbits db) in if i =? -1 then td_nbits db else i
        end in
      db ← ta_set_file db i;
      _ ← put_db db;
      iv ← crypto_rng_read TADB_IV_SIZE;
      key ← crypto_rng_read TADB_KEY_SIZE;
      let entry := MkEntry property (wrap 32 i) iv (replicate 16 0) key in
      fd ← ta_operation_open true (e_file_number entry);
      ctx ← tadb_authenc_init true entry;
      mret (Ta_w _ fd entry 0 ctx));
    match res with
    | inr ta => mret ta
    | inl e => _ ← tadb_put; mthrow e
    end.

(** The loop of tee_tadb_ta_write(). *)
Fixpoint ta_write_loop (ta : tee_tadb_ta_write) (rb : list Z) (fuel : nat) : T tee_tadb_ta_write :=
  match rb, fuel with
  | [], _ => mret ta
  | _, O => mpanic
  | _, S fuel =>
    let wl := Z.to_nat (Z.min (Z.of_nat (length rb)) TADB_MAX_BUFFER_SIZE) in
    _ ← (if 2 ^ 63 <=? w_pos ta then mthrow TEE_ERROR_BAD_PARAMETERS else text);
    '(c, ctx) ← tadb_update_payload (w_ctx ta) (take wl rb);
    _ ← text_write (λ v, set_t_inodes v (alter (λ l, write_bytes l (w_pos ta) c) (w_fd ta) (t_inodes v)));
    ta_write_loop (Ta_w _ (w_fd ta) (w_entry ta) (wrap 64 (w_pos ta + Z.of_nat wl)) ctx) (drop wl rb) fuel
  end.

Definition tee_tadb_ta_write_ (ta : tee_tadb_ta_write) (buf : list Z) : T tee_tadb_ta_write :=
  ta_write_loop ta buf (length buf).

Definition tee_tadb_ta_close_and_delete (ta : tee_tadb_ta_write) : T unit :=
  _ ← mtry (ta_operation_remove (e_file_number (w_entry ta)));
  db ← get_db;
  _ ← put_db (ta_clear_file db (to_int32 (e_file_number (w_entry ta))));
  tadb_put.

(** The index, and the entry when it is found; else the number of entries. *)
Fixpoint find_ent_loop (uuid : TEE_UUID) (idx : Z) (fuel : nat) : T (Z * option tadb_entry) :=
  match fuel with
  | O => mpanic
  | S fuel =>
    res ← mtry (read_ent idx);
    match res with
    | inl TEE_ERROR_ITEM_NOT_FOUND => mret (idx, None)
    | inl e => mthrow e
    | inr entry =>
      if bool_decide (uuid_bytes (p_uuid (e_prop entry)) = uuid_bytes uuid) then mret (idx, Some entry)
      else find_ent_loop uuid (idx + 1) fuel
    end
  end.
Definition find_ent (uuid : TEE_UUID) : T (Z * option tadb_entry) := find_ent_loop uuid 0 fuel.

Definition find_free_ent_idx : T Z := '(idx, _) ← find_ent null_uuid; mret idx.

(** The entry to write: the one of the TA, or a free one. *)
Definition find_slot (uuid : TEE_UUID) : T (Z * option tadb_entry) :=
  r ← mtry (find_ent uuid);
  match r with
  | inr (idx, Some old) => mret (idx, Some old)
  | _ => idx ← find_free_ent_idx; mret (idx, None)
  end.

Definition with_tag (e : tadb_entry) (tag : list Z) : tadb_entry :=
  MkEntry (e_prop e) (e_file_number e) (e_iv e) tag (e_key e).

Definition tee_tadb_ta_close_and_commit (ta : tee_tadb_ta_write) : T unit :=
  res ← mtry (
    _ ← text;
    let entry := with_tag (w_entry ta) (ae_enc_final (w_ctx ta)) in
    '(idx, old_ent) ← find_slot (p_uuid (e_prop entry));
    _ ← write_ent idx entry;
    _ ← (match old_ent with
         | Some old => db ← get_db; put_db (ta_clear_file db (to_int32 (e_file_number old)))
         | None => mret tt
         end);
    mret old_ent);
  match res with
  | inl e => _ ← tee_tadb_ta_close_and_delete ta; mthrow e
  | inr old_ent =>
    _ ← tadb_put;
    match old_ent with
    | Some old => _ ← mtry (ta_operation_remove (e_file_number old)); mret tt
    | None => mret tt
    end
  end.

(** ** Removing and reading a TA *)

Definition tee_tadb_ta_delete (uuid : TEE_UUID) : T unit :=
  if is_null_uuid uuid then mthrow TEE_ERROR_GENERIC
  else
    _ ← tee_tadb_open;
    res ← mtry (find_ent uuid);
    match res with
    | inl e => _ ← tadb_put; mthrow e
    | inr (_, None) => _ ← tadb_put; mthrow TEE_ERROR_ITEM_NOT_FOUND
    | inr (idx, Some entry) =>
      db ← get_db;
      _ ← put_db (ta_clear_file db (to_int32 (e_file_number entry)));
      res ← mtry (write_ent idx null_entry);
      _ ← tadb_put;
      match res with
      | inl e => mthrow e
      | inr _ => _ ← mtry (ta_operation_remove (e_file_number entry)); mret tt
      end
    end.

Definition tee_tadb_ta_open (uuid : TEE_UUID) : T tee_tadb_ta_read :=
  if is_null_uuid uuid then mthrow TEE_ERROR_GENERIC
  else
    _ ← text;
    _ ← tee_tadb_open;
    res ← mtry (
      '(_, e) ← find_ent uuid;
      match e with
      | None => mthrow TEE_ERROR_ITEM_NOT_FOUND
      | Some entry =>
        fd ← ta_operation_open false (e_file_number entry);
        ctx ← tadb_authenc_init false entry;
        mret (Ta_r _ fd entry 0 ctx None)
      end);
    match res with
    | inr ta => mret ta
    | inl e => _ ← tadb_put; mthrow e
    end.

Definition tee_tadb_ta_get_property (ta : tee_tadb_ta_read) : tee_tadb_property := e_prop (r_entry ta).

(** The tag when the buffer of the caller is long enough, and its length. *)
Definition tee_tadb_get_tag (ta : tee_tadb_ta_read) (tag_len : option Z) : tee_result * Z * option (list Z) :=
  match tag_len with
  | Some l =>
    if l <? Z.of_nat TADB_TAG_SIZE then (TEE_ERROR_SHORT_BUFFER, Z.of_nat TADB_TAG_SIZE, None)
    else (TEE_SUCCESS, Z.of_nat TADB_TAG_SIZE, Some (e_tag (r_entry ta)))
  | None => (TEE_ERROR_SHORT_BUFFER, Z.of_nat TADB_TAG_SIZE, None)
  end.

(** What the file does not fill of the buffer is not defined. *)
Definition ta_load (ta : tee_tadb_ta_read) : T tee_tadb_ta_read :=
  match ta_buf ta with
  | Some _ => mret ta
  | None =>
    let sz := Z.to_nat (enc_size (r_entry ta)) in
    _ ← text;
    _ ← text;
    v ← mget;
    match t_inodes v !! r_fd ta with
    | Some l => mret (Ta_r _ (r_fd ta) (r_entry ta) (r_pos ta) (r_ctx ta) (Some (take sz l ++ junk (sz - length l)%nat)))
    | None => mpanic
    end
  end.

(** The loop that decrypts without giving out the data. *)
Fixpoint skip_loop (ctx : actx) (src : list Z) (b_size fuel : nat) : T actx :=
  match src, fuel with
  | [], _ => mret ctx
  | _, O => mpanic
  | _, S fuel =>
    '(_, ctx) ← tadb_update_payload ctx (take b_size src);
    skip_loop ctx (drop b_size src) b_size fuel
  end.

(** [buf] says if there is a buffer; the bytes read, and how many were read. *)
Definition tee_tadb_ta_read_ (ta : tee_tadb_ta_read) (buf : bool) (len : Z) : T (list Z * Z * tee_tadb_ta_read) :=
  let sz := enc_size (r_entry ta) in
  let l := Z.min len (wrap 64 (sz - r_pos ta)) in
  ta ← ta_load ta;
  let src := take (Z.to_nat l) (drop (Z.to_nat (r_pos ta)) (default [] (ta_buf ta))) in
  '(out, ctx) ← (if buf then tadb_update_payload (r_ctx ta) src
                 else
                   _ ← text;
                   ctx ← skip_loop (r_ctx ta) src (Z.to_nat (Z.min 256 l)) (length src);
                   mret ([], ctx));
  let pos := wrap 64 (r_pos ta + l) in
  if pos =? sz then
    let '(ok, ctx) := ae_dec_final ctx (e_tag (r_entry ta)) in
    if ok then mret (out, l, Ta_r _ (r_fd ta) (r_entry ta) pos ctx (ta_buf ta)) else mthrow TEE_ERROR_MAC_INVALID
  else mret (out, l, Ta_r _ (r_fd ta) (r_entry ta) pos ctx (ta_buf ta)).

Definition tee_tadb_ta_close (ta : tee_tadb_ta_read) : T unit := tadb_put.
End with_file.
