(* ===== verification/SecstorTa.v ===== *)
(** * Installing and loading trusted applications of the secure storage

    core/pta/secstor_ta_mgmt.c installs a signed TA in the database of tadb.c (the
    header of the image is checked by core/crypto/signed_hdr.c), and
    core/arch/arm/kernel/secstor_ta.c gives the loader of TAs access to it. *)
From S2P Require Import Prelude Uuid ByteFile Bitstring Dirfile Tadb.

Local Open Scope Z_scope.

(** ** Algorithm identifiers (utee_defines.h) *)

Definition TEE_MAIN_ALGO_RSA : Z := 0x30.
Definition TEE_MAIN_ALGO_SM2_PKE : Z := 0x47.
Definition TEE_MAIN_ALGO_SM2_KEP : Z := 0x46.
Definition TEE_MAIN_HASH_SM3 : Z := 7.
Definition TEE_ALG_SM2_PKE : Z := 0x80000045.
Definition TEE_ALG_SM2_KEP : Z := 0x60000045.
Definition TEE_ALG_SM2_DSA_SM3 : Z := 0x70006045.
Definition TEE_ALG_SM3 : Z := 0x50000007.
Definition TEE_OPERATION_DIGEST : Z := 5.

Definition tee_alg_get_main_alg (algo : Z) : Z :=
  if algo =? TEE_ALG_SM2_PKE then TEE_MAIN_ALGO_SM2_PKE
  else if algo =? TEE_ALG_SM2_KEP then TEE_MAIN_ALGO_SM2_KEP
  else Z.land algo 0xff.

Definition tee_alg_get_digest_hash (algo : Z) : Z :=
  if algo =? TEE_ALG_SM2_DSA_SM3 then TEE_MAIN_HASH_SM3 else Z.land (Z.shiftr algo 12) 0xf.

Definition tee_alg_hash_algo (main_hash : Z) : Z :=
  if main_hash =? TEE_MAIN_HASH_SM3 then TEE_ALG_SM3
  else Z.lor (wrap 32 (Z.shiftl TEE_OPERATION_DIGEST 28)) main_hash.

Definition TEE_DIGEST_HASH_TO_ALGO (algo : Z) : Z := tee_alg_hash_algo (tee_alg_get_digest_hash algo).

(** The cases of the switch: the identifiers, and the size of the digest. *)
Definition digest_sizes : list (list Z * Z) :=
  [ ([0x50000001; 0x30000001], 16);
    ([0x50000002; 0x30000002; 0x70002131], 20);
    ([0x50000003; 0x30000003; 0x70003131], 28);
    ([0x50000004; 0x30000004; 0x70004131], 32);
    ([0x50000005; 0x30000005], 48);
    ([0x50000006; 0x30000006], 64);
    ([0x50000007; 0x30000007], 32);
    ([0x30000110; 0x30000510; 0x30000610], 16);
    ([0x30000111; 0x30000511; 0x30000113; 0x30000513], 8) ].
Definition tee_alg_digest_size (algo : Z) : Z :=
  from_option snd 0 (find (λ c, existsb (Z.eqb algo) (fst c)) digest_sizes).

Definition tee_alg_get_digest_size (algo : Z) : outcome tee_result Z :=
  let digest_size := tee_alg_digest_size algo in
  if digest_size =? 0 then Err TEE_ERROR_NOT_SUPPORTED else Ok digest_size.

(** ** Signed headers

    The struct is the bytes it has in memory. *)
Definition SHDR_MAGIC : Z := 0x4f545348.
Definition SHDR_BOOTSTRAP_TA : Z := 1.
Definition sizeof_shdr : Z := 20.
Definition sizeof_bootstrap_ta : Z := 20.

Definition field (l : list Z) (offs n : nat) : Z := le_value (take n (drop offs l)).
Definition shdr_magic (s : list Z) : Z := field s 0 4.
Definition shdr_img_type (s : list Z) : Z := field s 4 4.
Definition shdr_algo (s : list Z) : Z := field s 12 4.
Definition shdr_hash_size (s : list Z) : Z := field s 16 2.
Definition shdr_sig_size (s : list Z) : Z := field s 18 2.
Definition SHDR_GET_HASH (s : list Z) : list Z := take (Z.to_nat (shdr_hash_size s)) (drop 20 s).
Definition SHDR_GET_SIG (s : list Z) : list Z :=
  take (Z.to_nat (shdr_sig_size s)) (drop (Z.to_nat (shdr_hash_size s)) (drop 20 s)).

Definition shdr_get_size (s : list Z) : Z :=
  match add_overflow 64 sizeof_shdr (shdr_hash_size s) with
  | Some n => default 0 (add_overflow 64 n (shdr_sig_size s))
  | None => 0
  end.

(** The digests, and the verification of a signature with the key of the device. *)
Class ShdrCrypto := {
  sc_hash : Z → list Z → list Z;
  sc_verify : Z → list Z → list Z → bool;
}.

Section with_file.
Context {F : Type} `{TadbFile F} `{Authenc} `{ShdrCrypto}.
Context (fuel : nat) (junk : nat → list Z).

Abbreviation T := (M (@tst F) tee_result).

(** The image is in memory others can write: [img t] is what it holds at the [t]th
    time it is read. *)
Definition shdr_alloc_and_copy (img_va : Z) (img : nat → list Z) (img_size : Z) : T (option (list Z)) :=
  if img_size <? sizeof_shdr then mret None
  else
    let shdr_size := shdr_get_size (img 0%nat) in
    if img_size <? shdr_size then mret None
    else
      match add_overflow 64 img_va shdr_size with
      | None => mret None
      | Some _ =>
        mem ← mtry text;
        match mem with
        | inl _ => mret None
        | inr _ =>
          let shdr := take (Z.to_nat shdr_size) (img 1%nat) in
          if shdr_size =? shdr_get_size shdr then mret (Some shdr) else mret None
        end
      end.

Definition shdr_verify_signature (shdr : list Z) : T unit :=
  if negb (shdr_magic shdr =? SHDR_MAGIC) then mthrow TEE_ERROR_SECURITY
  else if negb (tee_alg_get_main_alg (shdr_algo shdr) =? TEE_MAIN_ALGO_RSA) then mthrow TEE_ERROR_SECURITY
  else
    match tee_alg_get_digest_size (TEE_DIGEST_HASH_TO_ALGO (shdr_algo shdr)) with
    | Ok hash_size =>
      if negb (hash_size =? shdr_hash_size shdr) then mthrow TEE_ERROR_SECURITY
      else
        res ← mtry (_ ← text; _ ← text; text);
        match res with
        | inr _ =>
          if sc_verify (shdr_algo shdr) (SHDR_GET_HASH shdr) (SHDR_GET_SIG shdr) then mret tt
          else mthrow TEE_ERROR_SECURITY
        | inl _ => mthrow TEE_ERROR_SECURITY
        end
    | _ => mthrow TEE_ERROR_SECURITY
    end.

(** ** Installing *)

Definition bs_uuid (bs_ta : list Z) : TEE_UUID := tee_uuid_from_octets (take 16 bs_ta).
Definition bs_version (bs_ta : list Z) : Z := field bs_ta 16 4.

Definition check_install_conflict (bs_ta : list Z) : T unit :=
  res ← mtry (tee_tadb_ta_open fuel (bs_uuid bs_ta));
  match res with
  | inl TEE_ERROR_ITEM_NOT_FOUND => mret tt
  | inl e => mthrow e
  | inr ta =>
    _ ← tee_tadb_ta_close ta;
    if bs_version bs_ta <? p_version (tee_tadb_ta_get_property ta) then mthrow TEE_ERROR_ACCESS_CONFLICT
    else mret tt
  end.

Definition buf_size : Z := 2 * 4096.

(** The loop over the image: [t] counts the reads of it, [ctx] is what was hashed. *)
Fixpoint install_loop (ta : tee_tadb_ta_write) (ctx : list Z) (nw : nat → list Z) (nw_size offs : Z) (t n : nat)
    : T (tee_tadb_ta_write * list Z) :=
  if offs <? nw_size then
    match n with
    | O => mpanic
    | S n =>
      let l := Z.min buf_size (nw_size - offs) in
      let buf := take (Z.to_nat l) (drop (Z.to_nat offs) (nw t)) in
      _ ← text;
      ta ← tee_tadb_ta_write_ ta buf;
      install_loop ta (ctx ++ buf) nw nw_size (offs + l) (S t) n
    end
  else mret (ta, ctx).

Definition install_ta (shdr : list Z) (nw : nat → list Z) (nw_size : Z) : T unit :=
  if negb (shdr_img_type shdr =? SHDR_BOOTSTRAP_TA) then mthrow TEE_ERROR_SECURITY
  else if nw_size <? wrap 64 (sizeof_bootstrap_ta + shdr_get_size shdr) then mthrow TEE_ERROR_SECURITY
  else if buf_size <? shdr_hash_size shdr then mthrow TEE_ERROR_SECURITY
  else
    _ ← text;
    _ ← text; _ ← text; _ ← text;
    let offs := shdr_get_size shdr in
    let bs_ta := take (Z.to_nat sizeof_bootstrap_ta) (drop (Z.to_nat offs) (nw 2%nat)) in
    _ ← check_install_conflict bs_ta;
    _ ← text;
    let offs := offs + sizeof_bootstrap_ta in
    let property := MkProp (bs_uuid bs_ta) (bs_version bs_ta) 0 (wrap 32 (nw_size - offs)) in
    ta ← tee_tadb_ta_create fuel junk property;
    res ← mtry (
      '(ta, ctx) ← install_loop ta (take (Z.to_nat sizeof_shdr) shdr ++ bs_ta) nw nw_size offs 3 (Z.to_nat nw_size);
      _ ← text;
      let digest := take (Z.to_nat (shdr_hash_size shdr)) (sc_hash (TEE_DIGEST_HASH_TO_ALGO (shdr_algo shdr)) ctx) in
      if bool_decide (digest = SHDR_GET_HASH shdr) then mret ta else mthrow TEE_ERROR_SECURITY);
    match res with
    | inr ta => tee_tadb_ta_close_and_commit fuel ta
    | inl e => _ ← tee_tadb_ta_close_and_delete ta; mthrow e
    end.

Definition TEE_PARAM_TYPE_MEMREF_INPUT : Z := 5.

Definition bootstrap (param_types : Z) (va : Z) (nw : nat → list Z) (nw_size : Z) : T unit :=
  if negb (param_types =? TEE_PARAM_TYPE_MEMREF_INPUT) then mthrow TEE_ERROR_BAD_PARAMETERS
  else
    shdr ← shdr_alloc_and_copy va nw nw_size;
    match shdr with
    | None => mthrow TEE_ERROR_SECURITY
    | Some shdr => _ ← shdr_verify_signature shdr; install_ta shdr nw nw_size
    end.

(** ** Loading *)

Definition secstor_ta_open (uuid : TEE_UUID) : T tee_tadb_ta_read :=
  ta ← tee_tadb_ta_open fuel uuid;
  let custom_size := p_custom_size (tee_tadb_ta_get_property ta) in
  res ← mtry (
    '(_, l, ta) ← tee_tadb_ta_read_ junk ta false custom_size;
    if l =? custom_size then mret ta else mthrow TEE_ERROR_CORRUPT_OBJECT);
  match res with
  | inr ta => mret ta
  | inl e => _ ← tee_tadb_ta_close ta; mthrow e
  end.

Definition secstor_ta_get_size (h : tee_tadb_ta_read) : Z := p_bin_size (tee_tadb_ta_get_property h).

Definition secstor_ta_get_tag (h : tee_tadb_ta_read) (tag_len : option Z) : tee_result * Z * option (list Z) :=
  tee_tadb_get_tag h tag_len.

Definition secstor_ta_read (h : tee_tadb_ta_read) (len : Z) : T (list Z * tee_tadb_ta_read) :=
  '(data, l, ta) ← tee_tadb_ta_read_ junk h true len;
  if l =? len then mret (data, ta) else mthrow TEE_ERROR_BAD_PARAMETERS.

Definition secstor_ta_close (h : tee_tadb_ta_read) : T unit := tee_tadb_ta_close h.
End with_file.
