(* ===== verification/TadbProofs.v ===== *)
(** * core/tee/tadb.c: entries, laws and single steps

    What the database of TAs relies on, what its entries and the files of the TAs
    stand for, and what each step does to that. *)
From S2P Require Import Prelude Uuid ByteFile Bitstring Dirfile DirfileProofs Tadb.

Local Open Scope Z_scope.

(** ** The interfaces

    The file of the entries is closed ([tf_idle]), open ([tf_holds]), or open after
    a call that failed: [tf_lost] can still be closed, and a read of [tf_dead] stops
    the core. The calls fail with a code in [er]. *)
Class TadbFileLaws (F : Type) `{TadbFile F} := {
  tf_idle : (tee_result → Prop) → F → option (list Z) → Prop;
  tf_holds : (tee_result → Prop) → F → list Z → Prop;
  tf_lost : (tee_result → Prop) → F → list Z → Prop;
  tf_dead : (tee_result → Prop) → F → list Z → Prop;
  tf_lost_holds er s l : tf_holds er s l → tf_lost er s l;
  tf_lost_dead er s l : tf_dead er s l → tf_lost er s l;
  tf_open_law er s c :
    tf_idle er s c →
    wp tf_open (λ _ s', ∃ l, c = Some l ∧ tf_holds er s' l)
      (λ e s', tf_idle er s' c ∧ (er e ∨ e = TEE_ERROR_ITEM_NOT_FOUND ∧ c = None)) s;
  tf_create_law er s :
    tf_idle er s None →
    wp tf_create (λ _ s', tf_holds er s' [])
      (λ e s', er e ∧ (tf_idle er s' None ∨ tf_idle er s' (Some []))) s;
  tf_read_law er s l pos len :
    tf_holds er s l → 0 <= pos → 0 <= len → pos + len < 2 ^ 31 →
    wp (tf_read pos len)
      (λ r s', r = take (Z.to_nat len) (drop (Z.to_nat pos) l) ∧ tf_holds er s' l)
      (λ e s', er e ∧ (tf_holds er s' l ∨ tf_dead er s' l)) s;
  tf_read_dead er s l pos len :
    tf_dead er s l → ∃ s', tf_read pos len s = (Panicked, s') ∧ tf_dead er s' l;
  tf_write_law er s l pos buf :
    tf_holds er s l → 0 <= pos <= Z.of_nat (length l) → pos + Z.of_nat (length buf) < 2 ^ 31 →
    wp (tf_write pos buf) (λ _ s', tf_holds er s' (write_bytes l pos buf))
      (λ e s', er e ∧ (tf_lost er s' l ∨ tf_lost er s' (write_bytes l pos buf))) s;
  tf_close_law er s l :
    tf_lost er s l → ∃ s', tf_close s = (Ok tt, s') ∧ tf_idle er s' (Some l);
}.

(** The payload in pieces. *)
Fixpoint update_all `{Authenc} (ctx : actx) (ps : list (list Z)) : list Z * actx :=
  match ps with
  | [] => ([], ctx)
  | p :: ps =>
    let '(o, ctx) := ae_update ctx p in
    let '(os, ctx) := update_all ctx ps in
    (o ++ os, ctx)
  end.

Lemma update_all_app `{Authenc} ps qs : ∀ ctx,
  update_all ctx (ps ++ qs) =
  let '(o, c) := update_all ctx ps in let '(q, c) := update_all c qs in (o ++ q, c).
Proof.
  induction ps as [|a ps IH]; intros ctx; cbn; [by destruct (update_all ctx qs)|].
  destruct (ae_update ctx a) as [o c]. rewrite IH. destruct (update_all c ps) as [os c1].
  destruct (update_all c1 qs) as [q c2]. by rewrite app_assoc.
Qed.

Lemma update_all_one `{Authenc} ctx p : update_all ctx [p] = ae_update ctx p.
Proof. cbn. destruct (ae_update ctx p) as [o c]. by rewrite app_nil_r. Qed.

(** What was encrypted is decrypted, whatever the pieces, and the tag is accepted. *)
Class AuthencLaws `{Authenc} := {
  ae_update_length ctx src : length (fst (ae_update ctx src)) = length src;
  ae_tag_length ctx : length (ae_enc_final ctx) = TADB_TAG_SIZE;
  ae_rng_length k n : length (ae_rng k n) = n;
  ae_decrypts key iv len ps c ce qs :
    update_all (ae_init true key iv len) ps = (c, ce) →
    Z.of_nat (length (concat ps)) = len →
    concat qs = take (length (concat qs)) c →
    ∃ cd, update_all (ae_init false key iv len) qs = (take (length (concat qs)) (concat ps), cd)
          ∧ (concat qs = c → fst (ae_dec_final cd (ae_enc_final ce)) = true);
}.

Lemma length_update_all `{AuthencLaws} ps : ∀ ctx, length (fst (update_all ctx ps)) = length (concat ps).
Proof.
  induction ps as [|p ps IH]; intros ctx; cbn; [done|].
  pose proof (ae_update_length ctx p) as Hl. destruct (ae_update ctx p) as [o c]. cbn in Hl.
  specialize (IH c). destruct (update_all c ps) as [os c']. cbn in *. rewrite !length_app. lia.
Qed.

(** ** Entries in the file *)

Record entry_ok (e : tadb_entry) : Prop := {
  en_uuid : uuid_wf (p_uuid (e_prop e));
  en_version : in_range 32 (p_version (e_prop e));
  en_custom : in_range 32 (p_custom_size (e_prop e));
  en_bin : in_range 32 (p_bin_size (e_prop e));
  en_number : in_range 32 (e_file_number e);
  en_iv : length (e_iv e) = TADB_IV_SIZE;
  en_tag : length (e_tag e) = TADB_TAG_SIZE;
  en_key : length (e_key e) = TADB_KEY_SIZE;
}.

Lemma length_entry_bytes e : entry_ok e → length (entry_bytes e) = 96%nat.
Proof.
  intros [Hu _ _ _ _ Hi Ht Hk]. unfold entry_bytes.
  by rewrite !length_app, length_uuid_bytes, !length_le_bytes, Hi, Ht, Hk.
Qed.

Lemma drop_part {A} n k (a b l : list A) :
  drop n l = a ++ b → length a = k → take k (drop n l) = a ∧ drop (n + k) l = b.
Proof.
  intros Hd Hk. rewrite <- drop_drop, Hd. split; [by apply take_app_length'|by apply drop_app_length'].
Qed.

Lemma entry_of_bytes_bytes e : entry_ok e → entry_of_bytes (entry_bytes e) = e.
Proof.
  intros [Hu H1 H2 H3 H4 Hi Ht Hk]. pose proof (length_uuid_bytes _ Hu) as Hlu.
  unfold in_range in *. set (l := entry_bytes e). unfold entry_of_bytes.
  assert (drop 0 l = entry_bytes e) as E0 by apply drop_0. unfold entry_bytes in E0.
  destruct (drop_part _ 16 _ _ _ E0 Hlu) as [T0 E1].
  destruct (drop_part _ 4 _ _ _ E1 (length_le_bytes _ _)) as [T1 E2].
  destruct (drop_part _ 4 _ _ _ E2 (length_le_bytes _ _)) as [T2 E3].
  destruct (drop_part _ 4 _ _ _ E3 (length_le_bytes _ _)) as [T3 E4].
  destruct (drop_part _ 4 _ _ _ E4 (length_le_bytes _ _)) as [T4 E5].
  destruct (drop_part _ _ _ _ _ E5 Hi) as [T5 E6].
  destruct (drop_part _ _ _ _ _ E6 Ht) as [T6 E7].
  unfold TADB_IV_SIZE, TADB_TAG_SIZE, TADB_KEY_SIZE in *. cbn [Nat.add] in *. rewrite drop_0 in T0.
  rewrite T0, T1, T2, T3, T4, T5, T6, E7, !le_value_bytes by done.
  rewrite uuid_of_bytes_bytes by done. rewrite take_ge by lia.
  by destruct e as [[? ? ? ?] ? ? ? ?].
Qed.

Lemma null_entry_ok : entry_ok null_entry.
Proof.
  constructor; try done. split; [done|]. split; [done|]. split; [done|]. split; [done|].
  apply Forall_replicate. done.
Qed.

(** The file made of the entries. *)
Definition ta_bytes (es : list tadb_entry) : list Z := concat (entry_bytes <$> es).

Lemma ta_uniform es : Forall entry_ok es → Forall (λ b, length b = 96%nat) (entry_bytes <$> es).
Proof. intros He. apply Forall_fmap. eapply Forall_impl; [done|]. apply length_entry_bytes. Qed.

Lemma length_ta_bytes es : Forall entry_ok es → length (ta_bytes es) = (length es * 96)%nat.
Proof.
  intros He. unfold ta_bytes. rewrite (length_concat_uniform 96) by by apply ta_uniform.
  by rewrite length_fmap.
Qed.

Lemma write_bytes_entry es n e :
  Forall entry_ok es → entry_ok e → (n <= length es)%nat →
  write_bytes (ta_bytes es) (96 * Z.of_nat n) (entry_bytes e) = ta_bytes (set_at es n e).
Proof.
  intros He Hok Hn. unfold ta_bytes. rewrite fmap_set_at.
  apply (write_bytes_uniform 96); [by apply ta_uniform|by apply length_entry_bytes|lia|by rewrite length_fmap].
Qed.

(** ** What the database stands for *)

Definition ent_uuid (e : tadb_entry) : list Z := uuid_bytes (p_uuid (e_prop e)).
Definition null_key : list Z := uuid_bytes null_uuid.
(** The entry is in use. *)
Definition taken (e : tadb_entry) : Prop := ent_uuid e ≠ null_key.

#[global] Instance taken_dec e : Decision (taken e).
Proof. apply _. Defined.

(** At most one entry per TA and per file number; [n] bounds both the number of
    entries and the numbers. *)
Record entries_ok (n : nat) (es : list tadb_entry) : Prop := {
  eo_ok : Forall entry_ok es;
  eo_uuid i j a b : es !! i = Some a → es !! j = Some b → taken a → ent_uuid a = ent_uuid b → i = j;
  eo_num i j a b :
    es !! i = Some a → es !! j = Some b → taken a → taken b → e_file_number a = e_file_number b → i = j;
  eo_len : (length es <= n)%nat;
  eo_below : Forall (λ e, taken e → e_file_number e < Z.of_nat n) es;
  eo_room : Z.of_nat n < 2 ^ 24;
}.

(** No entry has the number. *)
Definition unused (k : Z) (es : list tadb_entry) : Prop := Forall (λ e, taken e → e_file_number e ≠ k) es.

Lemma entries_ok_nil : entries_ok 0 [].
Proof. by constructor. Qed.

Lemma entries_ok_mono n es : entries_ok n es → Z.of_nat (S n) < 2 ^ 24 → entries_ok (S n) es.
Proof.
  intros [H1 H2 H3 H4 H5 H6] Hn. constructor; [done..|lia| |lia].
  eapply Forall_impl; [done|]. cbn. intros e He Ht. specialize (He Ht). lia.
Qed.

(** An entry that is new, or replaces the one of its TA. *)
Lemma entries_ok_set n es i e :
  entries_ok n es → entry_ok e → (i <= length es)%nat → Z.of_nat (S n) < 2 ^ 24 →
  (∀ j a, es !! j = Some a → taken a → ent_uuid a = ent_uuid e → j = i) →
  (taken e → unused (e_file_number e) es ∧ e_file_number e < Z.of_nat (S n)) →
  entries_ok (S n) (set_at es i e).
Proof.
  intros [H1 H2 H3 H4 H5 H6] He Hi Hn Hu Hk. pose proof (length_set_at es i e) as Hl.
  assert (∀ j a, es !! j = Some a → taken a → taken e → e_file_number a ≠ e_file_number e) as Hk'.
  { intros j a Ha Hta Hte. destruct (Hk Hte) as [Hun _]. by apply (Forall_lookup_1 _ _ _ _ Hun Ha). }
  constructor; [by apply Forall_set_at| | |lia| |lia].
  - intros j k a b. rewrite !lookup_set_at by done.
    destruct (decide (j = i)) as [-> |], (decide (k = i)) as [-> |]; intros Ha Hb Hta Hab;
      [done|injection Ha as <-|injection Hb as <-|by apply (H2 j k a b)].
    + symmetry. apply (Hu k b); [done| |done]. unfold taken. by rewrite <- Hab.
    + by apply (Hu j a).
  - intros j k a b. rewrite !lookup_set_at by done.
    destruct (decide (j = i)) as [-> |], (decide (k = i)) as [-> |]; intros Ha Hb Hta Htb Hab;
      [done|injection Ha as <-|injection Hb as <-|by apply (H3 j k a b)].
    + by destruct (Hk' k b Hb Htb Hta).
    + by destruct (Hk' j a Ha Hta Htb).
  - apply Forall_set_at; [|by intros Ht; apply Hk]. eapply Forall_impl; [done|].
    cbn. intros a Ha Ht. specialize (Ha Ht). lia.
Qed.

Lemma entries_ok_clear n es i : entries_ok n es → (i < length es)%nat → entries_ok n (set_at es i null_entry).
Proof.
  intros [H1 H2 H3 H4 H5 H6] Hi.
  assert (¬ taken null_entry) as Hn by (intros Ht; by apply Ht).
  constructor; [by apply Forall_set_at; [|apply null_entry_ok]| | | | |done].
  - intros j k a b. rewrite !lookup_set_at by lia.
    destruct (decide (j = i)) as [-> |], (decide (k = i)) as [-> |]; intros Ha Hb Hta Hab;
      [done|injection Ha as <-; by destruct Hn|injection Hb as <-; by destruct Hta|by apply (H2 j k a b)].
  - intros j k a b. rewrite !lookup_set_at by lia.
    destruct (decide (j = i)) as [-> |], (decide (k = i)) as [-> |]; intros Ha Hb Hta Htb Hab;
      [done|injection Ha as <-; by destruct Hn|injection Hb as <-; by destruct Hn|by apply (H3 j k a b)].
  - unfold set_at. rewrite decide_True by done. by rewrite length_insert.
  - apply Forall_set_at; [done|]. intros Ht. by destruct Hn.
Qed.

Section outside.
Context `{Authenc}.

(** [c] is what encrypting [d] with the key of the entry gives. *)
Definition sealed (e : tadb_entry) (c d : list Z) : Prop :=
  Z.of_nat (length d) = enc_size e
  ∧ ∃ ps ctx, concat ps = d ∧ update_all (ae_init true (e_key e) (e_iv e) (enc_size e)) ps = (c, ctx)
              ∧ e_tag e = ae_enc_final ctx.

Abbreviation ta_val := (tee_tadb_property * option (list Z))%type.
Abbreviation ta_map := (gmap (list Z) ta_val).

(** The properties and the data of the TA an entry is for; no data when the entry
    was left without its file. *)
Definition ta_is (names : gmap Z nat) (inodes : gmap nat (list Z)) (e : tadb_entry) (x : ta_val) : Prop :=
  x.1 = e_prop e ∧
  match x.2 with
  | Some d => ∃ ino c, names !! e_file_number e = Some ino ∧ inodes !! ino = Some c ∧ sealed e c d
  | None => names !! e_file_number e = None
  end.

Record view (names : gmap Z nat) (inodes : gmap nat (list Z)) (es : list tadb_entry) (D : ta_map) : Prop := {
  vw_ent e : e ∈ es → taken e → ∃ x, D !! ent_uuid e = Some x ∧ ta_is names inodes e x;
  vw_dom u : is_Some (D !! u) → ∃ e, e ∈ es ∧ taken e ∧ ent_uuid e = u;
}.

(** The files of the TAs, each with one name. *)
Record nw_ok (names : gmap Z nat) (inodes : gmap nat (list Z)) (next : nat) : Prop := {
  nw_ino k ino : names !! k = Some ino → (ino < next)%nat ∧ is_Some (inodes !! ino);
  nw_inj k k' ino : names !! k = Some ino → names !! k' = Some ino → k = k';
}.

Lemma view_not_null names inodes es D : view names inodes es D → D !! null_key = None.
Proof.
  intros Hv. destruct (D !! null_key) eqn:E; [|done].
  destruct (vw_dom _ _ _ _ Hv null_key) as (e & _ & Ht & He); [by rewrite E|]. by destruct Ht.
Qed.

(** The files of other numbers may change. *)
Lemma ta_is_change names inodes names' inodes' e x :
  ta_is names inodes e x → names' !! e_file_number e = names !! e_file_number e →
  (∀ ino, names !! e_file_number e = Some ino → inodes' !! ino = inodes !! ino) → ta_is names' inodes' e x.
Proof.
  intros [Hp Hx] Hn Hi. split; [done|]. destruct (x.2); [|by rewrite Hn].
  destruct Hx as (ino & c & H1 & H2 & H3). exists ino, c. rewrite Hn, Hi; done.
Qed.

Lemma view_change names inodes names' inodes' es D k :
  view names inodes es D → unused k es → (∀ k', k' ≠ k → names' !! k' = names !! k') →
  (∀ k' ino, k' ≠ k → names !! k' = Some ino → inodes' !! ino = inodes !! ino) → view names' inodes' es D.
Proof.
  intros [He Hd] Hu Hn Hi. constructor; [|done]. intros e Hin Ht. destruct (He e Hin Ht) as (x & Hx & Hta).
  exists x. split; [done|]. assert (e_file_number e ≠ k) as Hne.
  { by apply (proj1 (Forall_forall _ _) Hu e). }
  eapply ta_is_change; [done|by apply Hn|]. intros ino. by apply Hi.
Qed.

(** A TA is installed, in place of the old one or in a free entry. *)
Lemma view_set names inodes es D i e x :
  view names inodes es D → (i <= length es)%nat → taken e → ta_is names inodes e x →
  (∀ j a, es !! j = Some a → taken a → ent_uuid a = ent_uuid e → j = i) →
  (∀ a, es !! i = Some a → taken a → ent_uuid a = ent_uuid e) →
  view names inodes (set_at es i e) (<[ent_uuid e := x]> D).
Proof.
  intros [He Hd] Hi Ht Hx Hu Ho. constructor.
  - intros a Ha Hta. apply list_elem_of_lookup in Ha as [j Ha]. rewrite lookup_set_at in Ha by done.
    case_decide as Hj.
    { injection Ha as <-. exists x. by rewrite lookup_insert_eq. }
    destruct (decide (ent_uuid a = ent_uuid e)) as [Heq|Hne].
    { destruct Hj. by apply (Hu j a). }
    rewrite lookup_insert_ne by done. apply He; [|done]. by eapply list_elem_of_lookup_2.
  - intros u. destruct (decide (u = ent_uuid e)) as [-> | Hne].
    { intros _. exists e. split; [|done]. eapply (list_elem_of_lookup_2 _ i). rewrite lookup_set_at by done.
      by rewrite decide_True. }
    rewrite lookup_insert_ne by done. intros Hs. destruct (Hd u Hs) as (a & Ha & Hta & Hau).
    exists a. split; [|done]. apply list_elem_of_lookup in Ha as [j Ha]. eapply (list_elem_of_lookup_2 _ j).
    rewrite lookup_set_at by done. rewrite decide_False; [done|]. intros ->. apply Hne. rewrite <- Hau. by apply Ho.
Qed.

Lemma view_clear names inodes es D i e :
  view names inodes es D → es !! i = Some e → taken e →
  (∀ j a, es !! j = Some a → taken a → ent_uuid a = ent_uuid e → j = i) →
  view names inodes (set_at es i null_entry) (delete (ent_uuid e) D).
Proof.
  intros [He Hd] Hi Ht Hu. pose proof (lookup_lt_Some _ _ _ Hi).
  assert (¬ taken null_entry) as Hn by (intros Hn; by apply Hn). constructor.
  - intros a Ha Hta. apply list_elem_of_lookup in Ha as [j Ha]. rewrite lookup_set_at in Ha by lia.
    case_decide as Hj; [injection Ha as <-; by destruct Hn|].
    rewrite lookup_delete_ne by (intros Heq; by destruct Hj; apply (Hu j a)).
    apply He; [|done]. by eapply list_elem_of_lookup_2.
  - intros u Hs. destruct (decide (u = ent_uuid e)) as [-> | Hne].
    { rewrite lookup_delete_eq in Hs. by destruct Hs. }
    rewrite lookup_delete_ne in Hs by done. destruct (Hd u Hs) as (a & Ha & Hta & Hau).
    exists a. split; [|done]. apply list_elem_of_lookup in Ha as [j Ha]. eapply (list_elem_of_lookup_2 _ j).
    rewrite lookup_set_at by lia. rewrite decide_False; [done|]. intros ->. simplify_eq.
Qed.
End outside.
