(* ===== verification/TadbSteps.v ===== *)
(** * core/tee/tadb.c: what the steps of the operations do

    The database between the operations ([tsleeps]) and during one ([tmid]), and a
    lemma per step. *)
From S2P Require Import Prelude Uuid ByteFile Bitstring Dirfile DirfileProofs Tadb TadbProofs.

Local Open Scope Z_scope.

Abbreviation ta_val := (tee_tadb_property * option (list Z))%type.
Abbreviation ta_map := (gmap (list Z) ta_val).

Section steps.
Context {F : Type} `{TF : TadbFile F, !TadbFileLaws F} `{AE : Authenc, !AuthencLaws}.
Context (fuel : nat) (junk : nat → list Z) (junk_ok : ∀ k, length (junk k) = k ∧ bytes_ok (junk k)).
(** The codes the calls outside of the code can fail with. *)
Context (er : tee_result → Prop) (er_nf : ¬ er TEE_ERROR_ITEM_NOT_FOUND).

Abbreviation tst := (@tst F).
Abbreviation T := (M tst tee_result).

Definition fault_ok (f : option (bool * tee_result)) : Prop :=
  match f with Some (_, e) => er e | None => True end.

Record outside (es : list tadb_entry) (D : ta_map) (v : tst) : Prop := {
  os_nw : nw_ok (t_names v) (t_inodes v) (t_next v);
  os_view : view (t_names v) (t_inodes v) es D;
  os_faults : Forall fault_ok (t_faults v);
}.

(** An operation is under way; [Φ] says how the file of the entries is. *)
Record tmid (Φ : F → Prop) (db : tee_tadb_dir) (es : list tadb_entry) (D : ta_map) (v : tst) : Prop := {
  tm_refc : tadb_db_refc v = 1;
  tm_db : tadb_db v = Some db;
  tm_file : Φ (t_file v);
  tm_out : outside es D v;
}.

Definition tworks (db : tee_tadb_dir) (es : list tadb_entry) : ta_map → tst → Prop :=
  tmid (λ s, tf_holds er s (ta_bytes es)) db es.
Definition tdead (db : tee_tadb_dir) (es : list tadb_entry) : ta_map → tst → Prop :=
  tmid (λ s, tf_dead er s (ta_bytes es)) db es.
Definition tlost (db : tee_tadb_dir) (es : list tadb_entry) : ta_map → tst → Prop :=
  tmid (λ s, tf_lost er s (ta_bytes es)) db es.

(** The database is closed. *)
Record tsleeps (es : list tadb_entry) (D : ta_map) (v : tst) : Prop := {
  ts_db : tadb_db v = None;
  ts_refc : tadb_db_refc v = 0;
  ts_file : ∃ c, tf_idle er (t_file v) c ∧ (c = Some (ta_bytes es) ∨ c = None ∧ es = []);
  ts_out : outside es D v;
}.

Lemma tmid_mono (Φ Φ' : F → Prop) db es D v : tmid Φ db es D v → (∀ s, Φ s → Φ' s) → tmid Φ' db es D v.
Proof. intros [H1 H2 H3 H4] HP. constructor; auto. Qed.

Lemma tlost_works db es D v : tworks db es D v → tlost db es D v.
Proof. intros Hv. apply (tmid_mono _ _ _ _ _ _ Hv). intros s. apply tf_lost_holds. Qed.
Lemma tlost_dead db es D v : tdead db es D v → tlost db es D v.
Proof. intros Hv. apply (tmid_mono _ _ _ _ _ _ Hv). intros s. apply tf_lost_dead. Qed.

(** ** Calls that may fail *)

(** What the passing of faults does not change. *)
Class Env (P : tst → Prop) : Prop := {
  env_faults v : P v → Forall fault_ok (t_faults v);
  env_step v r f : P v → Forall fault_ok f → P (set_t_env v (t_next v) r f);
}.

#[export] Instance outside_env es D : Env (outside es D).
Proof. constructor; [by intros v []|]. intros v r f [H1 H2 H3] Hf. by constructor. Qed.

#[export] Instance tmid_env Φ db es D : Env (tmid Φ db es D).
Proof.
  constructor; [intros v [_ _ _ Ho]; exact (env_faults v Ho)|].
  intros v r f [H1 H2 H3 H4] Hf. constructor; [done..|]. by apply env_step.
Qed.
#[export] Instance tworks_env db es D : Env (tworks db es D).
Proof. apply tmid_env. Qed.

#[export] Instance tsleeps_env es D : Env (tsleeps es D).
Proof.
  constructor; [intros v [_ _ _ Ho]; exact (env_faults v Ho)|].
  intros v r f [H1 H2 H3 H4] Hf. constructor; [done..|]. by apply env_step.
Qed.

#[export] Instance and_env P (φ : tst → Prop) `{!Env P} :
  (∀ v r f, φ v → φ (set_t_env v (t_next v) r f)) → Env (λ v, P v ∧ φ v).
Proof.
  intros Hφ. constructor; [intros v [HP _]; exact (env_faults v HP)|].
  intros v r f [HP Hv] Hf. split; [by apply env_step|by apply Hφ].
Qed.

Lemma wp_text P `{!Env P} v : P v → wp text (λ _, P) (λ e v', er e ∧ P v') v.
Proof.
  intros HP. pose proof (env_faults v HP) as Hf. unfold wp, text.
  destruct (t_faults v) as [|[[b e]|] f]; [done| |]; apply Forall_cons in Hf as [H1 H2].
  - split; [done|]. by apply env_step.
  - by apply env_step.
Qed.

(** A write: [Q] holds after it, also when it is reported as failed; else [P] stays. *)
Lemma wp_text_write P `{!Env P} w (Q : tst → Prop) v :
  P v → (∀ v, P v → Q (w v)) → wp (text_write w) (λ _, Q) (λ e v', er e ∧ (P v' ∨ Q v')) v.
Proof.
  intros HP HQ. pose proof (env_faults v HP) as Hf. unfold wp, text_write.
  destruct (t_faults v) as [|[[b e]|] f] eqn:Ef; [by apply HQ| |]; apply Forall_cons in Hf as [H1 H2].
  - cbv zeta. split; [done|]. assert (P (set_t_env v (t_next v) (t_rng v) f)) as HP' by by apply env_step.
    destruct b; [right; by apply HQ|by left].
  - apply HQ. by apply env_step.
Qed.

Lemma wp_on_tf {A} (m : M F tee_result A) Q R v :
  wp m (λ a s, Q a (set_t_file v s)) (λ e s, R e (set_t_file v s)) (t_file v) → wp (on_tf m) Q R v.
Proof. unfold wp, on_tf. by destruct (m (t_file v)) as [[] s]. Qed.

Lemma outside_file es D v s : outside es D v → outside es D (set_t_file v s).
Proof. by intros [H1 H2 H3]. Qed.

Lemma tmid_file (Φ Φ' : F → Prop) db es D v s : tmid Φ db es D v → Φ' s → tmid Φ' db es D (set_t_file v s).
Proof. intros [H1 H2 H3 H4] Hs. constructor; [done..|]. by apply outside_file. Qed.

Lemma tmid_set_db Φ db db' es D v : tmid Φ db es D v → tmid Φ db' es D (set_db v (Some db')).
Proof. intros [H1 H2 H3 [H4 H5 H6]]. by constructor. Qed.

Lemma wp_get_db Φ db es D v (Q : _ → tst → Prop) (R : tee_result → tst → Prop) :
  tmid Φ db es D v → Q db v → wp get_db Q R v.
Proof. intros [_ Hdb _ _] HQ. unfold wp, get_db, mbind, M_bind, mget. by rewrite Hdb. Qed.

(** ** Entries *)

(** A read that fails closes the file, so that another one stops the core. *)
Definition steady : Prop :=
  ∀ s l pos len e s', tf_holds er s l → 0 <= pos → 0 <= len → pos + len < 2 ^ 31 →
    tf_read pos len s = (Err e, s') → tf_dead er s' l.

Definition tfailed (db : tee_tadb_dir) (es : list tadb_entry) (D : ta_map) (v : tst) : Prop :=
  (tworks db es D v ∨ tdead db es D v) ∧ (steady → tdead db es D v).

Lemma tlost_failed db es D v : tfailed db es D v → tlost db es D v.
Proof. intros [[Hv|Hv] _]; [by apply tlost_works|by apply tlost_dead]. Qed.

Lemma wp_read_steady s l pos len :
  tf_holds er s l → 0 <= pos → 0 <= len → pos + len < 2 ^ 31 →
  wp (tf_read pos len) (λ r s', r = take (Z.to_nat len) (drop (Z.to_nat pos) l) ∧ tf_holds er s' l)
    (λ e s', er e ∧ (tf_holds er s' l ∨ tf_dead er s' l) ∧ (steady → tf_dead er s' l)) s.
Proof.
  intros Hs Hp Hl Hb. pose proof (tf_read_law er s l pos len Hs Hp Hl Hb) as Hw. revert Hw. unfold wp.
  destruct (tf_read pos len s) as [[r|e|] s'] eqn:Er; [done| |done]. intros [H1 H2]. split; [done|]. split; [done|].
  intros Hst. by apply (Hst _ _ _ _ _ _ Hs Hp Hl Hb Er).
Qed.

Lemma wp_read_ent db es D v i :
  Forall entry_ok es → tworks db es D v → (i <= length es)%nat → Z.of_nat (length es) < 2 ^ 24 →
  wp (read_ent (Z.of_nat i))
    (λ e v', es !! i = Some e ∧ tworks db es D v')
    (λ e v', (e = TEE_ERROR_ITEM_NOT_FOUND ∧ i = length es ∧ tworks db es D v')
             ∨ (er e ∧ tfailed db es D v')) v.
Proof using Type*.
  intros He Hv Hi Hs. unfold read_ent, sizeof_entry. apply wp_bind, wp_on_tf.
  rewrite wrap_small by (unfold in_range; lia).
  eapply wp_mono; [apply (wp_read_steady _ (ta_bytes es)); [apply Hv|lia..]| |].
  2: { intros e s (H1 & H2 & H3). right. split; [done|]. split; [|intros Hs'; apply (tmid_file _ _ _ _ _ _ _ Hv); by apply H3].
       destruct H2; [left|right]; by apply (tmid_file _ _ _ _ _ _ _ Hv). }
  intros r s [-> Hh]. assert (tworks db es D (set_t_file v s)) as Hv' by by apply (tmid_file _ _ _ _ _ _ _ Hv).
  replace (Z.to_nat (Z.of_nat i * 96)) with (i * 96)%nat by lia. change (Z.to_nat 96) with 96%nat.
  destruct (decide (i < length es)%nat) as [Hlt|Hge].
  - destruct (lookup_lt_is_Some_2 es i Hlt) as [e Hl].
    assert (entry_ok e) as Hok by by apply (Forall_lookup_1 _ _ _ _ He Hl).
    unfold ta_bytes at 1 2. rewrite (concat_part_uniform 96 _ i (entry_bytes e)).
    2: { by apply ta_uniform. }
    2: { by rewrite list_lookup_fmap, Hl. }
    rewrite length_entry_bytes by done. apply wp_ret. by rewrite entry_of_bytes_bytes.
  - rewrite drop_ge by (rewrite length_ta_bytes by done; lia). apply wp_throw. left.
    split; [done|]. split; [lia|done].
Qed.

Lemma wp_write_ent db es D v i e :
  Forall entry_ok es → tworks db es D v → (i <= length es)%nat → Z.of_nat (length es) < 2 ^ 24 → entry_ok e →
  wp (write_ent (Z.of_nat i) e)
    (λ _, tmid (λ s, tf_holds er s (ta_bytes (set_at es i e))) db es D)
    (λ x v', er x ∧ (tlost db es D v' ∨ tmid (λ s, tf_lost er s (ta_bytes (set_at es i e))) db es D v')) v.
Proof using Type*.
  intros He Hv Hi Hs Hok. unfold write_ent, sizeof_entry. apply wp_on_tf.
  rewrite wrap_small by (unfold in_range; lia). rewrite (Z.mul_comm _ 96).
  rewrite <- (write_bytes_entry es i e) by done.
  eapply wp_mono; [apply (tf_write_law er _ (ta_bytes es)); [apply Hv|..]| |].
  - rewrite length_ta_bytes by done. lia.
  - rewrite length_entry_bytes by done. lia.
  - intros [] s Hh. by apply (tmid_file _ _ _ _ _ _ _ Hv).
  - intros x s [H1 [H2|H2]]; (split; [done|]); [left|right]; by apply (tmid_file _ _ _ _ _ _ _ Hv).
Qed.

(** The first entry for a UUID, which may be the one of free entries. *)
Lemma wp_find_ent_loop db es D uuid n v i :
  Forall entry_ok es → tworks db es D v → (i <= length es)%nat → Z.of_nat (length es) < 2 ^ 24 →
  (length es < i + n)%nat → (∀ j e, (j < i)%nat → es !! j = Some e → ent_uuid e ≠ uuid_bytes uuid) →
  wp (find_ent_loop uuid (Z.of_nat i) n)
    (λ r v', tworks db es D v' ∧ ∃ k, r.1 = Z.of_nat k ∧
       match r.2 with
       | Some e => es !! k = Some e ∧ ent_uuid e = uuid_bytes uuid
       | None => k = length es ∧ ∀ j e, es !! j = Some e → ent_uuid e ≠ uuid_bytes uuid
       end)
    (λ x v', er x ∧ tfailed db es D v') v.
Proof using Type*.
  intros He. revert v i. induction n as [|n IH]; intros v i Hv Hi Hs Hn Hb; [lia|]. cbn [find_ent_loop].
  apply wp_bind, wp_try. eapply wp_mono; [by apply wp_read_ent| |]; cbn beta iota.
  - intros e v' [He' Hv']. pose proof (lookup_lt_Some _ _ _ He') as Hlt. case_bool_decide as Hu.
    + apply wp_ret. split; [done|]. by exists i.
    + replace (Z.of_nat i + 1) with (Z.of_nat (S i)) by lia. apply IH; [done|lia|done|lia|].
      intros j a Hj Ha. destruct (decide (j = i)) as [-> |]; [|apply (Hb j); [lia|done]].
      rewrite He' in Ha. injection Ha as <-. exact Hu.
  - intros x v' [(-> & -> & Hv')|[Hx Hv']].
    + apply wp_ret. split; [done|]. exists (length es). split; [done|]. split; [done|]. intros j e Hj.
      apply (Hb j); [|done]. by eapply lookup_lt_Some.
    + destruct x; try by apply wp_throw. by destruct er_nf.
Qed.

Lemma wp_find_ent db es D uuid v :
  Forall entry_ok es → tworks db es D v → Z.of_nat (length es) < 2 ^ 24 → (length es < fuel)%nat →
  wp (find_ent fuel uuid)
    (λ r v', tworks db es D v' ∧ ∃ k, r.1 = Z.of_nat k ∧
       match r.2 with
       | Some e => es !! k = Some e ∧ ent_uuid e = uuid_bytes uuid
       | None => k = length es ∧ ∀ j e, es !! j = Some e → ent_uuid e ≠ uuid_bytes uuid
       end)
    (λ x v', er x ∧ tfailed db es D v') v.
Proof using Type*. intros He Hv Hs Hf. apply (wp_find_ent_loop _ _ _ _ _ _ 0); [done|done|lia|done|lia|]. intros. lia. Qed.

(** A dead file stops the core. *)
Lemma find_ent_dead db es D uuid v :
  tdead db es D v → (0 < fuel)%nat → ∃ v', find_ent fuel uuid v = (Panicked, v') ∧ tdead db es D v'.
Proof using Type*.
  intros Hv Hf. destruct (tf_read_dead er (t_file v) (ta_bytes es) (wrap 64 (0 * sizeof_entry)) sizeof_entry)
    as (s & Es & Hd); [apply Hv|]. exists (set_t_file v s). split; [|by apply (tmid_file _ _ _ _ _ _ _ Hv)].
  unfold find_ent. destruct fuel as [|f]; [lia|]. cbn [find_ent_loop].
  unfold mtry, read_ent, on_tf, mbind, M_bind. by rewrite Es.
Qed.

(** ** Opening and closing *)

Lemma wp_tadb_open es D v :
  tsleeps es D v →
  wp (tee_tadb_open) (λ _, tworks (Tadir 0 []) es D) (λ x v', er x ∧ tsleeps es D v') v.
Proof using Type*.
  intros Hv. unfold tee_tadb_open. apply wp_bind, wp_get. rewrite (ts_refc _ _ _ Hv). cbn [Z.eqb].
  apply wp_bind, wp_bind, wp_assert; [by rewrite (ts_db _ _ _ Hv)|]. apply wp_bind.
  unfold tadb_open. apply wp_bind. eapply wp_mono; [by apply (wp_text (tsleeps es D))| |by intros x v' ?].
  clear v Hv. intros [] v Hv. apply wp_bind, wp_try, wp_on_tf.
  assert (∀ s, tf_holds er s (ta_bytes es) →
    tworks (Tadir 0 []) es D (set_refc (set_db (set_t_file v s) (Some (Tadir 0 []))) (wrap 32 (0 + 1)))) as Hopen.
  { intros s Hs. destruct Hv as [_ _ _ [H1 H2 H3]]. by constructor. }
  assert (∀ s c, tf_idle er s c → (c = Some (ta_bytes es) ∨ c = None ∧ es = []) → tsleeps es D (set_t_file v s)) as Hsl.
  { intros s c Hs Hc. destruct Hv as [H1 H2 _ Ho]. constructor; [done..|by exists c|by apply outside_file]. }
  pose proof (ts_refc _ _ _ Hv) as Hr. destruct (ts_file _ _ _ Hv) as (c & Hc & Hce).
  eapply wp_mono; [by apply (tf_open_law er)| |].
  - intros [] s (l & -> & Hs). destruct Hce as [[= ->]|[? _]]; [|done].
    apply wp_bind, wp_ret, wp_ret. unfold wp, mbind, M_bind, tmodify, mget. cbn. rewrite Hr. by apply Hopen.
  - intros x s [Hs Hx]. assert (x = TEE_ERROR_ITEM_NOT_FOUND ∧ c = None ∨ er x ∧ x ≠ TEE_ERROR_ITEM_NOT_FOUND) as [[-> ->]|[He Hne]].
    { destruct Hx as [He|[-> ->]]; [right|by left]. split; [done|]. by intros ->. }
    2: { apply wp_bind. destruct x; try (apply wp_throw; split; [done|by apply (Hsl s c)]). done. }
    destruct Hce as [?|[_ ->]]; [done|]. apply wp_bind, wp_on_tf. cbn [set_t_file t_file].
    eapply wp_mono; [by apply (tf_create_law er)| |].
    + intros [] s' Hs'. apply wp_ret. unfold wp, mbind, M_bind, tmodify, mget. cbn. rewrite Hr. by apply Hopen.
    + intros x s' [Hx' [Hs'|Hs']]; (split; [done|]).
      * apply (Hsl s' None); [done|by right].
      * apply (Hsl s' (Some [])); [done|by left].
Qed.

Lemma wp_tadb_put db es D v (Q : unit → tst → Prop) (R : tee_result → tst → Prop) :
  tlost db es D v → (∀ v', tsleeps es D v' → Q tt v') → wp tadb_put Q R v.
Proof using Type*.
  intros [Hr Hd Hf Ho] HQ. destruct (tf_close_law er _ _ Hf) as (s & Es & Hs).
  unfold wp, tadb_put, mbind, M_bind, mget, massert, tmodify, on_tf. rewrite Hr. cbn.
  change (wrap 32 (1 - 1) =? 0) with true. cbn. rewrite Es. apply HQ. destruct Ho as [H1 H2 H3]. constructor; [done|done| |by constructor].
  exists (Some (ta_bytes es)). split; [done|by left].
Qed.

(** ** The bitmap of numbers *)

Definition bits_of (n : nat) (es : list tadb_entry) (db : tee_tadb_dir) : Prop :=
  bitmap_ok (td_nbits db) (td_files db) ∧ td_nbits db <= Z.of_nat n ∧
  ∀ j, 0 <= j → marked (td_nbits db) (td_files db) j = true → ¬ unused j es.
Definition bits_cover (es : list tadb_entry) (db : tee_tadb_dir) : Prop :=
  Forall (λ e, taken e → marked (td_nbits db) (td_files db) (e_file_number e) = true) es.

Lemma test_file_marked db j : ta_test_file db j = marked (td_nbits db) (td_files db) j.
Proof. done. Qed.

(** A number is marked; the bitmap grows when it is too short. *)
Lemma wp_ta_set_file P `{!Env P} db idx v :
  P v → bitmap_ok (td_nbits db) (td_files db) → 0 <= idx < bits_range →
  wp (ta_set_file junk db idx)
    (λ db' v', P v' ∧ bitmap_ok (td_nbits db') (td_files db') ∧ td_nbits db' = Z.max (td_nbits db) (idx + 1)
       ∧ ∀ j, 0 <= j → marked (td_nbits db') (td_files db') j = (j =? idx) || marked (td_nbits db) (td_files db) j)
    (λ x v', er x ∧ P v') v.
Proof using Type*.
  intros HP Hb Hi. unfold ta_set_file. apply wp_bind. unfold ta_maybe_grow_files.
  destruct (Z.ltb_spec idx (td_nbits db)) as [Hlt|Hge].
  - apply wp_ret, wp_ret. cbn [td_nbits td_files]. destruct (bitmap_set _ _ idx Hb) as [H1 H2]; [lia|].
    split_and!; [done|done|lia|done].
  - apply wp_bind. eapply wp_mono; [by apply (wp_text P)| |done]. intros [] v' HP'. apply wp_ret, wp_ret.
    cbn [td_nbits td_files]. destruct (junk_ok (Z.to_nat (bitstr_size (idx + 1)) - length (td_files db))) as [Hl Hj].
    destruct (bitmap_grow _ _ idx _ Hb ltac:(lia) Hj Hl) as [H1 H2].
    destruct (bitmap_set _ _ idx H1) as [H3 H4]; [lia|].
    split_and!; [done|done|lia|]. intros j Hj0. by rewrite H4, H2 by done.
Qed.

Lemma wp_populate_loop n db0 es D k v i db :
  entries_ok n es → tworks db0 es D v → (i <= length es)%nat → (length es < i + k)%nat →
  bits_of n (take i es) db → bits_cover (take i es) db →
  wp (populate_loop junk db (Z.of_nat i) k)
    (λ db' v', tworks db0 es D v' ∧ bits_of n es db' ∧ bits_cover es db')
    (λ x v', er x ∧ tlost db0 es D v') v.
Proof using Type*.
  intros He. pose proof (eo_ok _ _ He) as Hok. pose proof (eo_room _ _ He). pose proof (eo_len _ _ He).
  revert v i db. induction k as [|k IH]; intros v i db Hv Hi Hk Hb Hc; [lia|]. cbn [populate_loop].
  apply wp_bind, wp_try. eapply wp_mono; [apply wp_read_ent; done || lia| |]; cbn beta iota.
  2: { intros x v' [(-> & -> & Hv')|[Hx Hv']].
       - apply wp_ret. rewrite firstn_all in Hb, Hc. done.
       - apply tlost_failed in Hv'. destruct x; try by apply wp_throw. by destruct er_nf. }
  intros e v' [Hei Hv']. pose proof (lookup_lt_Some _ _ _ Hei). pose proof (take_S_r _ _ _ Hei) as Ht.
  replace (Z.of_nat i + 1) with (Z.of_nat (S i)) by lia. unfold is_null_uuid.
  destruct Hb as (Hb1 & Hb2 & Hb3). unfold bits_cover in Hc. case_bool_decide as Hn.
  { apply IH; [done|lia|lia| |].
    - split_and!; [done|done|]. intros j Hj Hm Hu. apply (Hb3 j Hj Hm). rewrite Ht in Hu.
      by apply Forall_app in Hu as [Hu _].
    - unfold bits_cover. rewrite Ht. apply Forall_app_2; [done|]. constructor; [|done]. intros Htk. by destruct Htk. }
  assert (taken e) as Htk by exact Hn. pose proof (Forall_lookup_1 _ _ _ _ Hok Hei) as Heok.
  pose proof (Forall_lookup_1 _ _ _ _ (eo_below _ _ He) Hei Htk) as Hbelow.
  pose proof (en_number _ Heok) as Hnum. unfold in_range in Hnum.
  assert (unused (e_file_number e) (take i es)) as Hun.
  { apply Forall_lookup_2. intros j a Ha Hta Hnm. apply lookup_take_Some in Ha as [Ha Hj].
    pose proof (eo_num _ _ He j i a e Ha Hei Hta Htk Hnm). lia. }
  rewrite to_int32_small by lia. rewrite test_file_marked.
  destruct (marked (td_nbits db) (td_files db) (e_file_number e)) eqn:Em.
  { by destruct (Hb3 (e_file_number e) ltac:(lia) Em). }
  apply wp_bind. eapply wp_mono; [apply (wp_ta_set_file (tworks db0 es D)); [done|done|]| |].
  { unfold bits_range. lia. }
  2: { intros x v'' [Hx Hv'']. split; [done|]. by apply tlost_works. }
  intros db' v'' (Hv'' & Hb1' & Hnb & Hm'). apply IH; [done|lia|lia| |].
  - split_and!; [done|lia|]. intros j Hj. rewrite Hm' by done. intros Hm Hu. rewrite Ht in Hu.
    apply Forall_app in Hu as [Hu1 Hu2]. apply orb_true_iff in Hm as [Hm|Hm]; [|by apply (Hb3 j Hj Hm)].
    apply Z.eqb_eq in Hm as ->. apply Forall_cons in Hu2 as [Hu2 _]. by apply Hu2.
  - unfold bits_cover. rewrite Ht. apply Forall_app_2.
    + apply Forall_lookup_2. intros j a Ha Hta. pose proof (Forall_lookup_1 _ _ _ _ Hc Ha Hta) as Hma.
      assert (entry_ok a) as Hao.
      { apply lookup_take_Some in Ha as [Ha _]. by apply (Forall_lookup_1 _ _ _ _ Hok Ha). }
      destruct (en_number _ Hao). rewrite Hm' by done. by rewrite Hma, orb_true_r.
    + constructor; [|done]. intros _. rewrite Hm' by lia. by rewrite Z.eqb_refl.
Qed.

Lemma wp_populate_files n es D v :
  entries_ok n es → (length es < fuel)%nat → tworks (Tadir 0 []) es D v →
  wp (populate_files fuel junk)
    (λ _ v', ∃ db, tworks db es D v' ∧ bits_of n es db ∧ bits_cover es db)
    (λ x v', er x ∧ ∃ db, tlost db es D v') v.
Proof using Type*.
  intros He Hf Hv. unfold populate_files. apply wp_bind. eapply wp_get_db; [done|]. cbn [td_files].
  apply wp_bind, wp_try. eapply wp_mono; [apply (wp_populate_loop n (Tadir 0 []) es D _ v 0 (Tadir 0 [])); [done|done|lia|lia|..]| |].
  - split_and!; [apply bitmap_nil|cbn; lia|]. intros j Hj. unfold marked. cbn.
    destruct (Z.ltb_spec j 0); [lia|done].
  - constructor.
  - intros db v' (Hv' & Hb & Hc). exists db. split; [|done]. by eapply tmid_set_db.
  - intros x v' [Hx Hv']. apply wp_bind. unfold wp at 1, put_db, tmodify. apply wp_throw. split; [done|].
    exists (Tadir 0 []). by eapply tmid_set_db.
Qed.

(** ** The files of the TAs *)

Lemma tmid_out Φ db es es' D D' v v' :
  tmid Φ db es D v → tadb_db_refc v' = tadb_db_refc v → tadb_db v' = tadb_db v → t_file v' = t_file v →
  outside es' D' v' → tmid Φ db es' D' v'.
Proof. intros [H1 H2 H3 H4] E1 E2 E3 Ho. constructor; [by rewrite E1|by rewrite E2|by rewrite E3|done]. Qed.

Lemma outside_create es D v k :
  outside es D v → unused k es →
  outside es D (create_ta k v) ∧ ∃ ino, t_names (create_ta k v) !! k = Some ino ∧ t_inodes (create_ta k v) !! ino = Some [].
Proof.
  intros [[Hn1 Hn2] Hv Hf] Hu. unfold create_ta. destruct (t_names v !! k) as [ino|] eqn:E.
  - destruct (Hn1 _ _ E) as [Hlt [c Hc]]. cbn. split.
    + constructor; [constructor|..]; cbn; [|done| |done].
      * intros k' ino' E'. destruct (Hn1 _ _ E') as [? ?]. split; [done|].
        destruct (decide (ino' = ino)) as [-> |]; [by rewrite lookup_insert_eq|by rewrite lookup_insert_ne].
      * apply (view_change _ _ _ _ _ _ k Hv Hu); [done|]. intros k' ino' Hne E'.
        apply lookup_insert_ne. intros <-. by destruct Hne; apply (Hn2 _ _ ino).
    + exists ino. by rewrite lookup_insert_eq.
  - cbn. split.
    + constructor; [constructor|..]; cbn; [| | |done].
      * intros k' ino'. destruct (decide (k' = k)) as [-> |].
        { rewrite lookup_insert_eq. intros [= <-]. by rewrite lookup_insert_eq; split; [lia|]. }
        rewrite lookup_insert_ne by done. intros E'. destruct (Hn1 _ _ E') as [? ?]. split; [lia|].
        by rewrite lookup_insert_ne by lia.
      * intros k1 k2 ino'. destruct (decide (k1 = k)) as [-> |], (decide (k2 = k)) as [-> |]; [done|..].
        { rewrite lookup_insert_eq, lookup_insert_ne by done. intros [= <-] E'. apply Hn1 in E' as [? _]. lia. }
        { rewrite lookup_insert_eq, lookup_insert_ne by done. intros E' [= <-]. apply Hn1 in E' as [? _]. lia. }
        rewrite !lookup_insert_ne by done. apply Hn2.
      * apply (view_change _ _ _ _ _ _ k Hv Hu); [intros k' Hne; by apply lookup_insert_ne|].
        intros k' ino' Hne E'. apply lookup_insert_ne. apply Hn1 in E' as [? _]. lia.
    + exists (t_next v). by rewrite !lookup_insert_eq.
Qed.

Lemma outside_remove es D v k :
  outside es D v → unused k es → outside es D (set_t_names v (delete k (t_names v))).
Proof.
  intros [[Hn1 Hn2] Hv Hf] Hu. constructor; [constructor|..]; cbn; [| | |done].
  - intros k' ino E. apply lookup_delete_Some in E as [_ E]. by apply Hn1 in E.
  - intros k1 k2 ino E1 E2. apply lookup_delete_Some in E1 as [_ E1], E2 as [_ E2]. by apply (Hn2 _ _ ino).
  - apply (view_change _ _ _ _ _ _ k Hv Hu); [|done]. intros k' Hne. by apply lookup_delete_ne.
Qed.

(** The file of an installed TA is removed: its entry is left without. *)
Lemma outside_orphan n es D v i e p d :
  entries_ok n es → outside es (<[ent_uuid e := (p, Some d)]> D) v → es !! i = Some e → taken e →
  outside es (<[ent_uuid e := (p, None)]> D) (set_t_names v (delete (e_file_number e) (t_names v))).
Proof.
  intros He [[Hn1 Hn2] [Hv1 Hv2] Hf] Hi Ht. constructor; [constructor|constructor|]; cbn; [| | | |done].
  - intros k' ino E. apply lookup_delete_Some in E as [_ E]. by apply Hn1 in E.
  - intros k1 k2 ino E1 E2. apply lookup_delete_Some in E1 as [_ E1], E2 as [_ E2]. by apply (Hn2 _ _ ino).
  - intros a Ha Hta. destruct (Hv1 a Ha Hta) as (x & Hx & Hax). apply list_elem_of_lookup in Ha as [j Ha].
    destruct (decide (ent_uuid a = ent_uuid e)) as [Heq|Hne].
    + rewrite Heq, lookup_insert_eq in Hx. injection Hx as <-.
      pose proof (eo_uuid _ _ He j i a e Ha Hi Hta Heq) as ->. rewrite Hi in Ha. injection Ha as <-.
      exists (p, None). rewrite lookup_insert_eq. split; [done|]. destruct Hax as [Hp _]. split; [done|].
      apply lookup_delete_eq.
    + rewrite lookup_insert_ne in Hx by done. exists x. rewrite lookup_insert_ne by done. split; [done|].
      eapply ta_is_change; [done| |done]. apply lookup_delete_ne. intros Hk. apply Hne.
      pose proof (eo_num _ _ He j i a e Ha Hi Hta Ht (eq_sym Hk)) as ->. congruence.
  - intros u [x Hx]. apply Hv2. destruct (decide (u = ent_uuid e)) as [-> |]; [by rewrite lookup_insert_eq|].
    rewrite lookup_insert_ne in Hx by done. by rewrite lookup_insert_ne.
Qed.

Lemma wp_ta_remove P `{!Env P} k (Q : tst → Prop) v :
  P v → (∀ v, P v → Q (set_t_names v (delete k (t_names v)))) →
  wp (ta_operation_remove k) (λ _, Q) (λ x v', er x ∧ (P v' ∨ Q v')) v.
Proof.
  intros HP HQ. unfold ta_operation_remove. apply wp_bind.
  eapply wp_mono; [by apply (wp_text P)| |intros x v' [? ?]; split; [done|by left]].
  intros [] v' HP'. by apply wp_text_write.
Qed.
End steps.
