(* ===== verification/TadbOps.v ===== *)
(** * core/tee/tadb.c: the operations on the database of TAs

    Each operation as a step of the map from UUIDs to installed TAs. *)
From S2P Require Import Prelude Uuid ByteFile Bitstring Dirfile DirfileProofs Tadb TadbProofs TadbSteps.

Local Open Scope Z_scope.

Record prop_ok (p : tee_tadb_property) : Prop := {
  pr_uuid : uuid_wf (p_uuid p);
  pr_version : in_range 32 (p_version p);
  pr_custom : in_range 32 (p_custom_size p);
  pr_bin : in_range 32 (p_bin_size p);
}.

Definition prop_size (p : tee_tadb_property) : Z := wrap 32 (p_custom_size p + p_bin_size p).

Section ops.
Context {F : Type} `{TF : TadbFile F, !TadbFileLaws F} `{AE : Authenc, !AuthencLaws}.
Context (fuel : nat) (junk : nat → list Z) (junk_ok : ∀ k, length (junk k) = k ∧ bytes_ok (junk k)).
Context (er : tee_result → Prop) (er_nf : ¬ er TEE_ERROR_ITEM_NOT_FOUND).

Abbreviation tst := (@tst F).
Abbreviation T := (M tst tee_result).
Abbreviation tworks := (tworks er).
Abbreviation tlost := (tlost er).
Abbreviation tdead := (tdead er).
Abbreviation tsleeps := (tsleeps er).

(** A TA is being installed, [ps] were written. *)
Record writing (n : nat) (es : list tadb_entry) (D : ta_map) (ta : tee_tadb_ta_write) (ps : list (list Z))
    (v : tst) : Prop := {
  wr_works : ∃ db, tworks db es D v;
  wr_entry : entry_ok (w_entry ta);
  wr_unused : unused (e_file_number (w_entry ta)) es;
  wr_below : e_file_number (w_entry ta) < Z.of_nat (S n);
  wr_fd : t_names v !! e_file_number (w_entry ta) = Some (w_fd ta);
  wr_pos : w_pos ta = Z.of_nat (length (concat ps));
  wr_data : ∃ c, t_inodes v !! w_fd ta = Some c
    ∧ update_all (ae_init true (e_key (w_entry ta)) (e_iv (w_entry ta)) (enc_size (w_entry ta))) ps = (c, w_ctx ta);
}.

#[export] Instance writing_env n es D ta ps : Env er (writing n es D ta ps).
Proof.
  constructor; [intros v [[db Hw] _ _ _ _ _ _]; exact (env_faults er v Hw)|].
  intros v r f [[db Hw] H1 H2 H3 H4 H5 H6] Hf. constructor; [|done..]. exists db. by apply (env_step er).
Qed.

Lemma wp_tadb_rng (P : tst → Prop) `{!Env er P} k v :
  P v → wp (crypto_rng_read k) (λ r v', length r = k ∧ P v') (λ x v', er x ∧ P v') v.
Proof using Type*.
  intros HP. unfold crypto_rng_read. apply wp_bind. eapply wp_mono; [by apply (wp_text er P)| |done].
  intros [] v' HP'. apply wp_bind, wp_get, wp_bind. unfold wp at 1, tmodify. apply wp_ret.
  split; [apply ae_rng_length|]. apply (env_step er); [done|]. by apply (env_faults er v').
Qed.

Lemma wp_authenc_init (P : tst → Prop) `{!Env er P} enc e v :
  P v → wp (tadb_authenc_init enc e)
    (λ c v', c = ae_init enc (e_key e) (e_iv e) (enc_size e) ∧ P v') (λ x v', er x ∧ P v') v.
Proof.
  intros HP. unfold tadb_authenc_init. apply wp_bind. eapply wp_mono; [by apply (wp_text er P)| |done].
  intros [] v' HP'. apply wp_bind. eapply wp_mono; [by apply (wp_text er P)| |done].
  intros [] v'' HP''. by apply wp_ret.
Qed.

Lemma wp_update_payload (P : tst → Prop) `{!Env er P} ctx src v :
  P v → wp (tadb_update_payload ctx src) (λ r v', r = ae_update ctx src ∧ P v') (λ x v', er x ∧ P v') v.
Proof using Type*.
  intros HP. unfold tadb_update_payload. apply wp_bind. eapply wp_mono; [by apply (wp_text er P)| |done].
  intros [] v' HP'. pose proof (ae_update_length ctx src) as Hl. destruct (ae_update ctx src) as [d c].
  apply wp_bind, wp_assert; [by apply Nat.eqb_eq|]. by apply wp_ret.
Qed.

(** ** Installing *)

Lemma wp_ta_create_file db es D v k :
  tworks db es D v → unused k es →
  wp (ta_operation_open true k)
    (λ fd v', tworks db es D v' ∧ t_names v' !! k = Some fd ∧ t_inodes v' !! fd = Some [])
    (λ x v', er x ∧ tworks db es D v') v.
Proof using Type*.
  intros Hv Hu. unfold ta_operation_open. apply wp_bind.
  eapply wp_mono; [by apply (wp_text er (tworks db es D))| |done]. clear v Hv. intros [] v Hv.
  set (Q := λ v : tst, tworks db es D v ∧ ∃ ino, t_names v !! k = Some ino ∧ t_inodes v !! ino = Some []).
  apply wp_bind. eapply wp_mono; [apply (wp_text_write er (tworks db es D) _ Q); [done|]| |].
  - intros v' Hv'. destruct (outside_create er es D v' k) as [Ho He]; [apply Hv'|done|].
    split; [|done]. eapply tmid_out; [done|unfold create_ta; by case_match..|done].
  - intros [] v' (Hv' & ino & Hn & Hi). apply wp_bind, wp_get. rewrite Hn. by apply wp_ret.
  - intros x v' [Hx [Hv'|[Hv' _]]]; by split.
Qed.

(** tee_tadb_ta_create() behind tee_tadb_open(). *)
Lemma wp_ta_create n es D v p :
  entries_ok n es → Z.of_nat (S n) < 2 ^ 24 → (length es < fuel)%nat → prop_ok p → tsleeps es D v →
  wp (tee_tadb_ta_create fuel junk p)
    (λ ta v', uuid_bytes (p_uuid p) ≠ null_key ∧ e_prop (w_entry ta) = p ∧ writing n es D ta [] v')
    (λ x v', (er x ∨ x = TEE_ERROR_GENERIC ∧ uuid_bytes (p_uuid p) = null_key) ∧ tsleeps es D v') v.
Proof using Type*.
  intros He Hn Hf Hp Hv. unfold tee_tadb_ta_create, is_null_uuid. case_bool_decide as Hu.
  { apply wp_throw. split; [by right|done]. }
  apply wp_bind. eapply wp_mono; [by apply (wp_text er (tsleeps es D))| |by intros x v' [? ?]; split; [left|]].
  clear v Hv. intros [] v Hv. apply wp_bind.
  eapply wp_mono; [by apply wp_tadb_open| |by intros x v' [? ?]; split; [left|]]. clear v Hv. intros [] v Hv.
  apply wp_bind, wp_try.
  eapply (wp_mono _ (λ ta v', e_prop (w_entry ta) = p ∧ writing n es D ta [] v') _ (λ x v', er x ∧ ∃ db, tlost db es D v')).
  2: { intros ta v' [? ?]. by apply wp_ret. }
  2: { intros x v' (Hx & db & Hl). apply wp_bind. eapply wp_tadb_put; [done|done|]. intros v'' Hv''. apply wp_throw.
       split; [by left|done]. }
  apply wp_bind. eapply wp_mono; [by apply (wp_populate_files _ _ junk_ok _ er_nf n es D)| |done].
  clear v Hv. intros [] v (db & Hv & (Hb1 & Hb2 & Hb3) & Hc). apply wp_bind. eapply wp_get_db; [done|]. cbv zeta.
  destruct (bitmap_next _ _ Hb1) as [Hi Hm]. cbv zeta in Hi, Hm. set (i := match td_files db with [] => 0 | _ => _ end) in *.
  clearbody i. apply wp_bind. eapply wp_mono; [apply (wp_ta_set_file junk junk_ok er er_nf (tworks db es D)); [done|done|]| |].
  { unfold bits_range. lia. }
  2: { intros x v' [Hx Hv']. split; [done|]. exists db. by apply tlost_works. }
  clear v Hv. intros db' v (Hv & Hb1' & _ & _). apply wp_bind. unfold wp at 1, put_db, tmodify.
  assert (tworks db' es D (set_db v (Some db'))) as Hv' by (by eapply tmid_set_db). clear Hv. revert Hv'.
  generalize (set_db v (Some db')). clear v. intros v Hv.
  assert (∀ x v', er x ∧ tworks db' es D v' → er x ∧ ∃ db, tlost db es D v') as Herr.
  { intros x v' [? ?]. split; [done|]. exists db'. by apply tlost_works. }
  apply wp_bind. eapply wp_mono; [by apply (wp_tadb_rng (tworks db' es D))| |done]. clear v Hv. intros iv v [Hiv Hv].
  apply wp_bind. eapply wp_mono; [by apply (wp_tadb_rng (tworks db' es D))| |done]. clear v Hv. intros key v [Hkey Hv].
  cbv zeta. set (e := MkEntry _ _ _ _ _).
  assert (e_file_number e = i) as Hnum by (apply wrap_small; unfold in_range; lia).
  assert (unused i es) as Hun.
  { eapply Forall_impl; [exact Hc|]. cbn. intros a Ha Hta Heq. specialize (Ha Hta). congruence. }
  assert (entry_ok e) as Heok.
  { destruct Hp as [H1 H2 H3 H4]. constructor; try done. rewrite Hnum. unfold in_range. lia. }
  apply wp_bind. rewrite <- Hnum in Hun. eapply wp_mono; [by apply (wp_ta_create_file db' es D)| |done].
  clear v Hv. intros fd v (Hv & Hfd & Hino). apply wp_bind.
  assert (Env er (λ v, tworks db' es D v ∧ t_names v !! e_file_number e = Some fd ∧ t_inodes v !! fd = Some [])) as Henv.
  { apply and_env; [apply _|]. by intros v' r f Hv'. }
  eapply wp_mono; [by apply (wp_authenc_init _ true e v (conj Hv (conj Hfd Hino)))| |intros x v' (Hx & Hv' & _); by apply Herr].
  clear v Hv Hfd Hino. intros c v (-> & Hv & Hfd & Hino). apply wp_ret. split; [done|].
  constructor; [by exists db'|done|exact Hun| |exact Hfd|done|by exists []]. cbn [w_entry]. rewrite Hnum. lia.
Qed.

Lemma outside_alter es D (v : tst) k fd g :
  outside er es D v → unused k es → t_names v !! k = Some fd →
  outside er es D (set_t_inodes v (alter g fd (t_inodes v))).
Proof.
  intros [[Hn1 Hn2] Hv Hf] Hu Hfd. constructor; [constructor|..]; cbn; [|done| |done].
  - intros k' ino E. destruct (Hn1 _ _ E) as [? ?]. split; [done|]. by apply lookup_alter_is_Some.
  - apply (view_change _ _ _ _ _ _ k Hv Hu); [done|]. intros k' ino Hne E.
    apply lookup_alter_ne. intros <-. by destruct Hne; apply (Hn2 _ _ fd).
Qed.

Lemma wp_ta_write_loop n es D k : ∀ ta ps rb v,
  writing n es D ta ps v → (length rb <= k)%nat → w_pos ta + Z.of_nat (length rb) < 2 ^ 63 →
  wp (ta_write_loop ta rb k)
    (λ ta' v', w_entry ta' = w_entry ta ∧ ∃ qs, concat qs = rb ∧ writing n es D ta' (ps ++ qs) v')
    (λ x v', er x ∧ ∃ db, tworks db es D v') v.
Proof using Type*.
  induction k as [|k IH]; intros ta ps rb v Hv Hk Hp.
  { destruct rb; [|cbn in Hk; lia]. apply wp_ret. split; [done|]. exists []. by rewrite app_nil_r. }
  destruct rb as [|b rb0] eqn:Erb.
  { apply wp_ret. split; [done|]. exists []. by rewrite app_nil_r. }
  rewrite <- Erb in *. assert (0 < length rb)%nat as Hpos by (subst; cbn; lia).
  replace (ta_write_loop ta rb (S k)) with
    (let wl := Z.to_nat (Z.min (Z.of_nat (length rb)) TADB_MAX_BUFFER_SIZE) in
     _ ← (if 2 ^ 63 <=? w_pos ta then mthrow TEE_ERROR_BAD_PARAMETERS else text);
     '(c, ctx) ← tadb_update_payload (w_ctx ta) (take wl rb);
     _ ← text_write (λ v, set_t_inodes v (alter (λ l, write_bytes l (w_pos ta) c) (w_fd ta) (t_inodes v)));
     ta_write_loop (Ta_w _ (w_fd ta) (w_entry ta) (wrap 64 (w_pos ta + Z.of_nat wl)) ctx) (drop wl rb) k : T _)
    by (by rewrite Erb).
  clear Erb b rb0. cbv zeta. set (wl := Z.to_nat _).
  assert (0 < wl <= length rb)%nat as Hwl by (unfold wl, TADB_MAX_BUFFER_SIZE; lia). clearbody wl.
  assert (∀ x v', er x ∧ writing n es D ta ps v' → er x ∧ ∃ db, tworks db es D v') as Herr.
  { intros x v' [? Hv']. split; [done|]. by destruct Hv'. }
  apply wp_bind. pose proof (wr_pos _ _ _ _ _ _ Hv) as Hpe. rewrite (proj2 (Z.leb_gt _ _)) by lia.
  eapply wp_mono; [by apply (wp_text er (writing n es D ta ps))| |done]. clear v Hv. intros [] v Hv.
  apply wp_bind. eapply wp_mono; [by apply (wp_update_payload (writing n es D ta ps))| |done].
  clear v Hv. intros [c ctx] v [Hc Hv].
  set (ta' := Ta_w _ (w_fd ta) (w_entry ta) (wrap 64 (w_pos ta + Z.of_nat wl)) ctx).
  apply wp_bind. eapply wp_mono; [apply (wp_text_write er (writing n es D ta ps) _ (writing n es D ta' (ps ++ [take wl rb]))); [done|]| |].
  - clear v Hv. intros v [[db Hw] H1 H2 H3 H4 H5 (l & Hl & Hu)]. constructor; [|done|done|done|done|..]; cbn [w_pos w_entry w_fd w_ctx ta'].
    + exists db. destruct Hw as [Hw1 Hw2 Hw3 Hw4]. constructor; [done..|]. by eapply outside_alter.
    + rewrite concat_app, length_app. cbn. rewrite app_nil_r, length_take, wrap_small; unfold in_range; lia.
    + exists (l ++ c). rewrite update_all_app, Hu, update_all_one, <- Hc. split; [|done]. cbn [set_t_inodes t_inodes].
      rewrite lookup_alter_eq, Hl. cbn. f_equal.
      pose proof (length_update_all ps (ae_init true (e_key (w_entry ta)) (e_iv (w_entry ta)) (enc_size (w_entry ta)))) as Hll.
      rewrite Hu in Hll. cbn in Hll. unfold write_bytes. case_decide as Hc0; [by rewrite Hc0, app_nil_r|].
      rewrite H5, Nat2Z.id. replace (length (concat ps) - length l)%nat with 0%nat by lia.
      unfold splice. rewrite app_nil_r, take_ge, drop_ge, app_nil_r by lia. done.
  - clear v Hv. intros [] v Hv. eapply wp_mono; [apply (IH ta' (ps ++ [take wl rb])); [done|..]| |done].
    + rewrite length_drop. lia.
    + cbn [w_pos ta']. rewrite length_drop, wrap_small; unfold in_range; lia.
    + cbn beta. intros ta2 v2 (He2 & qs & Hqs & Hw2). split; [done|]. exists (take wl rb :: qs). cbn. rewrite Hqs.
      split; [apply take_drop|]. by rewrite <- app_assoc in Hw2.
  - intros x v' [Hx [Hv'|Hv']]; (split; [done|]); by destruct Hv'.
Qed.

Lemma wp_ta_write n es D ta ps buf v :
  writing n es D ta ps v → w_pos ta + Z.of_nat (length buf) < 2 ^ 63 →
  wp (tee_tadb_ta_write_ ta buf)
    (λ ta' v', w_entry ta' = w_entry ta ∧ ∃ qs, concat qs = buf ∧ writing n es D ta' (ps ++ qs) v')
    (λ x v', er x ∧ ∃ db, tworks db es D v') v.
Proof using Type*. intros Hv Hb. by apply wp_ta_write_loop. Qed.

(** The number of the TA becomes free, and its file is removed unless that fails. *)
Lemma wp_close_and_delete db es D D' ta v :
  tlost db es D v →
  (∀ v : tst, outside er es D v →
     outside er es D' (set_t_names v (delete (e_file_number (w_entry ta)) (t_names v)))) →
  wp (tee_tadb_ta_close_and_delete ta) (λ _ v', tsleeps es D v' ∨ tsleeps es D' v') (λ _ _, False) v.
Proof using Type*.
  intros Hv Ho. unfold tee_tadb_ta_close_and_delete. apply wp_bind, wp_try.
  set (k := e_file_number (w_entry ta)) in *.
  assert (∀ D0 v', tlost db es D0 v' →
    wp (db ← get_db; _ ← put_db (ta_clear_file db (to_int32 k)); tadb_put)
      (λ _ v', tsleeps es D0 v') (λ _ _, False) v') as Hput.
  { intros D0 v' Hv'. apply wp_bind. eapply wp_get_db; [done|]. apply wp_bind. unfold wp at 1, put_db, tmodify.
    eapply wp_tadb_put; [done|eapply tmid_set_db, Hv'|done]. }
  eapply wp_mono; [apply (wp_ta_remove er (tlost db es D) k (tlost db es D')); [done|]| |].
  - intros v' [H1 H2 H3 H4]. constructor; [done..|]. by apply Ho.
  - intros [] v' Hv'. eapply wp_mono; [by apply (Hput D')|by right|done].
  - intros x v' [_ [Hv'|Hv']]; (eapply wp_mono; [by apply Hput| |done]); [by left|by right].
Qed.

(** ** Committing *)

(** Between two operations, and when the core has stopped in one. *)
Definition tstands (n : nat) (D : ta_map) (v : tst) : Prop := ∃ es, entries_ok n es ∧ tsleeps es D v.
Definition tstops (n : nat) (D : ta_map) (v : tst) : Prop := ∃ es db, entries_ok n es ∧ tdead db es D v.

(** Where the entry for a TA goes: over the entry of the TA, or where none is used. *)
Record slot (es : list tadb_entry) (u : list Z) (i : nat) (old : option tadb_entry) : Prop := {
  sl_le : (i <= length es)%nat;
  sl_only j a : es !! j = Some a → taken a → ent_uuid a = u → j = i;
  sl_own a : es !! i = Some a → taken a → ent_uuid a = u;
  sl_old a : old = Some a → es !! i = Some a ∧ taken a;
}.

(** Searching the entries leaves the files of the TAs alone. *)
Definition frames {A} (m : T A) : Prop :=
  ∀ v, t_names (snd (m v)) = t_names v ∧ t_inodes (snd (m v)) = t_inodes v.

Lemma frames_bind {A B} (m : T A) (f : A → T B) : frames m → (∀ a, frames (f a)) → frames (m ≫= f).
Proof.
  intros Hm Hf v. unfold mbind, M_bind. destruct (Hm v) as [E1 E2]. destruct (m v) as [[a|x|] v'] eqn:E; [|done|done].
  destruct (Hf a v') as [E3 E4]. cbn in E1, E2. by rewrite E3, E4.
Qed.
Lemma frames_try {A} (m : T A) : frames m → frames (mtry m).
Proof. intros Hm v. specialize (Hm v). unfold mtry. by destruct (m v) as [[a|x|] v']. Qed.
Lemma frames_ret {A} (a : A) : frames (mret a).
Proof. done. Qed.
Lemma frames_throw {A} x : frames (mthrow (A := A) x).
Proof. done. Qed.
Lemma frames_on_tf {A} (m : M F tee_result A) : frames (on_tf m).
Proof. intros v. unfold on_tf. by destruct (m (t_file v)). Qed.

Lemma frames_find_ent uuid : frames (find_ent fuel uuid).
Proof.
  unfold find_ent. generalize 0. induction fuel as [|k IH]; intros i; [done|]. cbn [find_ent_loop].
  apply frames_bind.
  - apply frames_try, frames_bind; [apply frames_on_tf|]. intros l. by case_match.
  - intros [x|e]; [by destruct x|]. case_match; [apply frames_ret|apply IH].
Qed.

Lemma frames_find_slot uuid : frames (find_slot fuel uuid).
Proof.
  assert (frames (idx ← find_free_ent_idx fuel; mret (idx, @None tadb_entry))) as Hfree.
  { apply frames_bind; [|intros idx; apply frames_ret]. apply frames_bind; [apply frames_find_ent|].
    intros []. apply frames_ret. }
  apply frames_bind; [apply frames_try, frames_find_ent|]. intros [x|[idx [old|]]]; [done|apply frames_ret|done].
Qed.

Lemma wpp_frame {A} (m : T A) Q R P v :
  wpp m Q R P v → frames m →
  wpp m (λ a v', Q a v' ∧ t_names v' = t_names v ∧ t_inodes v' = t_inodes v) R P v.
Proof. intros Hm Hf. specialize (Hf v). revert Hm Hf. unfold wpp. by destruct (m v) as [[a|x|] v']. Qed.

Lemma wpp_find_slot n es D db uuid v :
  entries_ok n es → (length es < fuel)%nat → tworks db es D v → uuid_bytes uuid ≠ null_key →
  D !! uuid_bytes uuid = None ∨ steady er →
  wpp (find_slot fuel uuid)
    (λ r v', tworks db es D v' ∧ ∃ i, r.1 = Z.of_nat i ∧ slot es (uuid_bytes uuid) i r.2)
    (λ x v', er x ∧ tlost db es D v') (tdead db es D) v.
Proof using Type*.
  intros He Hf Hv Hu Hs. pose proof (eo_ok _ _ He) as Hok. pose proof (eo_room _ _ He). pose proof (eo_len _ _ He).
  assert (∀ v, tworks db es D v → (∀ j e, es !! j = Some e → taken e → ent_uuid e ≠ uuid_bytes uuid) →
    wpp (idx ← find_free_ent_idx fuel; mret (idx, None))
      (λ r v', tworks db es D v' ∧ ∃ i, r.1 = Z.of_nat i ∧ slot es (uuid_bytes uuid) i r.2)
      (λ x v', er x ∧ tlost db es D v') (tdead db es D) v) as Hfree.
  { clear v Hv. intros v Hv Hno. apply wpp_wp, wp_bind. unfold find_free_ent_idx. apply wp_bind.
    eapply wp_mono; [apply (wp_find_ent fuel er er_nf db es D); done || lia| |].
    2: { intros x v' [? ?]. split; [done|by apply tlost_failed]. }
    intros [idx o] v' (Hv' & i & Hi & Ho). cbn [fst snd] in Hi, Ho. apply wp_ret, wp_ret. split; [done|]. exists i. split; [done|].
    constructor; [| |intros a Ha Hta|done]; destruct o as [a'|].
    - destruct Ho as [Ho _]. apply lookup_lt_Some in Ho. lia.
    - lia.
    - intros j a Ha Hta Heq. by destruct (Hno j a Ha Hta).
    - intros j a Ha Hta Heq. by destruct (Hno j a Ha Hta).
    - destruct Ho as [Ho Hn]. rewrite Ha in Ho. injection Ho as <-. by destruct Hta.
    - destruct Ho as [-> _]. apply lookup_lt_Some in Ha. lia. }
  unfold find_slot. apply wpp_bind, wpp_try. eapply wpp_call; [apply (wp_find_ent fuel er er_nf db es D); done || lia| |]; cbn beta iota.
  - intros [idx [old|]] v' (Hv' & i & Hi & Ho); cbn [fst snd] in Hi, Ho.
    + apply wpp_wp, wp_ret. split; [done|]. exists i. split; [done|]. destruct Ho as [Ho Heq].
      assert (taken old) as Hto by (unfold taken; by rewrite Heq). constructor.
      * apply lookup_lt_Some in Ho. lia.
      * intros j a Ha Hta Ha'. apply (eo_uuid _ _ He j i a old); [done..|congruence].
      * intros a Ha Hta. congruence.
      * intros a [= <-]. done.
    + apply Hfree; [done|]. intros j e Hj _. by apply (proj2 Ho j e).
  - intros x v' [Hx Hfl]. destruct Hs as [Hs|Hs].
    + destruct Hfl as [[Hv'|Hv'] _].
      * apply Hfree; [done|]. intros j e Hj Ht Heq. pose proof (os_view _ _ _ _ (tm_out _ _ _ _ _ _ Hv')) as Hvw.
        destruct (vw_ent _ _ _ _ Hvw e) as (y & Hy & _); [by eapply list_elem_of_lookup_2|done|].
        rewrite Heq, Hs in Hy. done.
      * destruct (find_ent_dead fuel er er_nf db es D null_uuid v') as (v2 & E2 & Hd); [done|lia|].
        unfold wpp, find_free_ent_idx, mbind, M_bind. by rewrite E2.
    + destruct (find_ent_dead fuel er er_nf db es D null_uuid v') as (v2 & E2 & Hd); [by apply Hfl|lia|].
      unfold wpp, find_free_ent_idx, mbind, M_bind. by rewrite E2.
Qed.

Lemma slot_set n es i e old :
  entries_ok n es → slot es (ent_uuid e) i old → entry_ok e → taken e → unused (e_file_number e) es →
  e_file_number e < Z.of_nat (S n) → Z.of_nat (S n) < 2 ^ 24 →
  entries_ok (S n) (set_at es i e)
  ∧ ∀ a, old = Some a → unused (e_file_number a) (set_at es i e).
Proof.
  intros He [H1 H2 H3 H4] Hok Ht Hu Hb Hn. split; [by apply entries_ok_set|].
  intros a Ha. apply H4 in Ha as [Ha Hta]. apply Forall_lookup_2. intros j b Hb' Htb Heq. rewrite lookup_set_at in Hb' by done.
  case_decide as Hj.
  - injection Hb' as <-. by apply (Forall_lookup_1 _ _ _ _ Hu Ha Hta).
  - apply Hj. by apply (eo_num _ _ He j i b a).
Qed.

Lemma outside_set n es D i e old (v : tst) p d :
  entries_ok n es → outside er es D v → slot es (ent_uuid e) i old → taken e →
  ta_is (t_names v) (t_inodes v) e (p, Some d) → outside er (set_at es i e) (<[ent_uuid e := (p, Some d)]> D) v.
Proof.
  intros He [H1 H2 H3] [S1 S2 S3 S4] Ht Hta. constructor; [done| |done]. by apply view_set.
Qed.

(** What the last write of an installation is about to do. *)
Record sealing (n : nat) (es : list tadb_entry) (D : ta_map) (e : tadb_entry) (d : list Z) (v : tst) : Prop := {
  se_works : ∃ db, tworks db es D v;
  se_entry : entry_ok e;
  se_taken : taken e;
  se_unused : unused (e_file_number e) es;
  se_below : e_file_number e < Z.of_nat (S n);
  se_is : ta_is (t_names v) (t_inodes v) e (e_prop e, Some d);
}.

Lemma writing_sealing n es D ta ps v :
  writing n es D ta ps v → ent_uuid (w_entry ta) ≠ null_key →
  Z.of_nat (length (concat ps)) = prop_size (e_prop (w_entry ta)) →
  sealing n es D (with_tag (w_entry ta) (ae_enc_final (w_ctx ta))) (concat ps) v.
Proof using Type*.
  intros [H1 H2 H3 H4 H5 H6 (c & Hc & Hu)] Ht Hl. constructor; try done.
  - destruct H2. constructor; try done. apply ae_tag_length.
  - split; [done|]. cbn [snd]. exists (w_fd ta), c. split; [done|]. split; [done|]. split; [done|].
    by exists ps, (w_ctx ta).
Qed.

Lemma wp_frame {A} (m : T A) Q R v :
  wp m Q R v → frames m →
  wp m (λ a v', Q a v' ∧ t_names v' = t_names v ∧ t_inodes v' = t_inodes v)
    (λ x v', R x v' ∧ t_names v' = t_names v ∧ t_inodes v' = t_inodes v) v.
Proof. intros Hm Hf. specialize (Hf v). revert Hm Hf. unfold wp. by destruct (m v) as [[a|x|] v']. Qed.

(** The entry is written. *)
Lemma wp_commit_write n es D db e d i old v :
  entries_ok n es → Z.of_nat (S n) < 2 ^ 24 → tworks db es D v → entry_ok e → taken e →
  unused (e_file_number e) es → e_file_number e < Z.of_nat (S n) →
  ta_is (t_names v) (t_inodes v) e (e_prop e, Some d) → slot es (ent_uuid e) i old →
  let es' := set_at es i e in
  let D' := <[ent_uuid e := (e_prop e, Some d)]> D in
  wp (write_ent (Z.of_nat i) e) (λ _, tworks db es' D')
    (λ x v', er x ∧ (tlost db es D v' ∨ tlost db es' D' v')) v.
Proof using Type*.
  intros He Hn Hw Hok Ht Hun Hb His Hsl es' D'.
  pose proof (eo_room _ _ He). pose proof (eo_len _ _ He). pose proof (eo_ok _ _ He) as Heok.
  assert (∀ Φ (v' : tst), tmid er Φ db es D v' → t_names v' = t_names v → t_inodes v' = t_inodes v → tmid er Φ db es' D' v') as Hset.
  { intros Φ v' [M1 M2 M3 M4] En Ei. constructor; [done..|]. eapply outside_set; [done|done|done|done|].
    by rewrite En, Ei. }
  destruct Hsl as [Hi _ _ _].
  eapply wp_mono; [apply wp_frame; [apply (wp_write_ent er er_nf db es D); done || lia|apply frames_on_tf]| |]; cbn beta.
  - intros [] v' (Hv' & En & Ei). by apply Hset.
  - intros x v' ((Hx & [Hv'|Hv']) & En & Ei); (split; [done|]); [by left|right; by apply Hset].
Qed.

(** An installation is given up: before its entry is written, and when the writing
    of it was reported as failed. *)
Lemma wp_give_up n db es D ta x v :
  entries_ok n es → tlost db es D v → unused (e_file_number (w_entry ta)) es →
  wp (_ ← tee_tadb_ta_close_and_delete ta; (mthrow x : T unit)) (λ _ _, False) (λ y v', y = x ∧ tstands n D v') v.
Proof using Type*.
  intros He Hv Hu. apply wp_bind. eapply wp_mono; [apply (wp_close_and_delete db es D D); [done|]| |done].
  - intros v0 Hv0. by apply outside_remove.
  - intros [] v0 Hv0. apply wp_throw. split; [done|]. exists es. split; [done|]. tauto.
Qed.

Lemma wp_give_up_written n db es D ta i e p d x v :
  entries_ok n es → tlost db es (<[ent_uuid e := (p, Some d)]> D) v → es !! i = Some e → taken e →
  e_file_number e = e_file_number (w_entry ta) →
  wp (_ ← tee_tadb_ta_close_and_delete ta; (mthrow x : T unit)) (λ _ _, False)
    (λ y v', y = x ∧ (tstands n (<[ent_uuid e := (p, Some d)]> D) v' ∨ tstands n (<[ent_uuid e := (p, None)]> D) v')) v.
Proof using Type*.
  intros He Hv Hi Ht Hk. apply wp_bind.
  eapply wp_mono; [apply (wp_close_and_delete db es (<[ent_uuid e := (p, Some d)]> D) (<[ent_uuid e := (p, None)]> D)); [done|]| |done].
  - intros v0 Hv0. rewrite <- Hk. by apply (outside_orphan er n es D v0 i e p d).
  - intros [] v0 Hv0. apply wp_throw. split; [done|]. destruct Hv0; [left|right]; by exists es.
Qed.

(** The entry is written: the number of the old file becomes free, and it is removed. *)
Lemma wp_clear_old db es D old v (R : tee_result → tst → Prop) :
  tworks db es D v →
  wp (_ ← (match old with
           | Some old => db ← get_db; put_db (ta_clear_file db (to_int32 (e_file_number old)))
           | None => mret tt
           end);
      mret old) (λ o v', o = old ∧ ∃ db, tworks db es D v') R v.
Proof.
  intros Hv. apply wp_bind. destruct old as [old|].
  - apply wp_bind. eapply wp_get_db; [done|]. unfold wp at 1, put_db, tmodify. apply wp_ret. split; [done|].
    eexists. by eapply tmid_set_db.
  - apply wp_ret, wp_ret. split; [done|]. by exists db.
Qed.

Lemma wp_sleep_remove n es D k v (R : tee_result → tst → Prop) :
  entries_ok n es → tsleeps es D v → unused k es →
  wp (_ ← mtry (ta_operation_remove k); mret tt) (λ _, tstands n D) R v.
Proof.
  intros He Hv Hu. apply wp_bind, wp_try.
  eapply wp_mono; [apply (wp_ta_remove er (tsleeps es D) _ (tsleeps es D)); [done|]| |].
  - intros v3 [Z1 Z2 Z3 Z4]. constructor; [done..|]. by apply outside_remove.
  - intros [] v3 Hv3. apply wp_ret. by exists es.
  - intros x v3 [_ Hv3]. apply wp_ret. exists es. split; [done|]. tauto.
Qed.

Lemma wp_committed n db es D old v (R : tee_result → tst → Prop) :
  entries_ok n es → tworks db es D v → (∀ a, old = Some a → unused (e_file_number a) es) →
  wp (_ ← tadb_put;
      match old with
      | Some old => _ ← mtry (ta_operation_remove (e_file_number old)); mret tt
      | None => mret tt
      end) (λ _, tstands n D) R v.
Proof using Type*.
  intros He Hv Hu. apply wp_bind. eapply wp_tadb_put; [done|by apply tlost_works|].
  intros v2 Hv2. destruct old as [old|]; [|apply wp_ret; by exists es]. apply (wp_sleep_remove n es); auto.
Qed.

Lemma wpp_commit n es D ta ps v :
  entries_ok n es → Z.of_nat (S n) < 2 ^ 24 → (length es < fuel)%nat → writing n es D ta ps v →
  ent_uuid (w_entry ta) ≠ null_key → Z.of_nat (length (concat ps)) = prop_size (e_prop (w_entry ta)) →
  D !! ent_uuid (w_entry ta) = None ∨ steady er →
  let u := ent_uuid (w_entry ta) in
  let p := e_prop (w_entry ta) in
  wpp (tee_tadb_ta_close_and_commit fuel ta)
    (λ _, tstands (S n) (<[u := (p, Some (concat ps))]> D))
    (λ x v', er x ∧ (tstands (S n) D v' ∨ tstands (S n) (<[u := (p, Some (concat ps))]> D) v'
                     ∨ tstands (S n) (<[u := (p, None)]> D) v'))
    (tstops (S n) D) v.
Proof using Type*.
  intros He Hn Hf Hv Ht Hl Hs u p. unfold tee_tadb_ta_close_and_commit.
  pose proof (eo_room _ _ He). pose proof (eo_len _ _ He). pose proof (eo_ok _ _ He) as Hok.
  pose proof (entries_ok_mono _ _ He Hn) as He'. set (d := concat ps) in *.
  pose proof (wr_unused _ _ _ _ _ _ Hv) as Hun. apply wpp_bind, wpp_try, wpp_bind.
  eapply wpp_call; [by apply (wp_text er (writing n es D ta ps))| |].
  2: { intros x v' [Hx [[db Hw] _ _ _ _ _ _]]. apply wpp_wp. apply tlost_works in Hw.
       eapply wp_mono; [by apply (wp_give_up (S n) db es D)|done|]. intros y v2 [-> ?]. split; [done|by left]. }
  clear v Hv Hun. intros [] v Hv. cbv zeta. pose proof (writing_sealing _ _ _ _ _ _ Hv Ht Hl) as Hse. clear Hv.
  fold d in Hse. set (e := with_tag _ _) in *. change (e_prop (w_entry ta)) with (e_prop e) in p.
  change (ent_uuid (w_entry ta)) with (ent_uuid e) in u.
  destruct Hse as [[db Hw] Heok Htk Hun Hb His]. apply wpp_bind.
  eapply (wpp_mono _ _ _ (λ x v', er x ∧ tlost db es D v')).
  { apply wpp_frame; [by apply (wpp_find_slot n es D db (p_uuid (e_prop e)))|apply frames_find_slot]. }
  3: { intros v' Hd. exists es, db. by split. }
  2: { intros x v' [Hx Hl']. apply wpp_wp.
       eapply wp_mono; [by apply (wp_give_up (S n) db es D)|done|]. intros y v2 [-> ?]. split; [done|by left]. }
  intros [idx old] v' ((Hw' & i & Hi & Hsl) & En & Ei). cbn [fst snd] in Hi, Hsl. subst idx.
  rewrite <- En, <- Ei in His. clear v Hw En Ei. rename v' into v.
  change (uuid_bytes (p_uuid (e_prop e))) with (ent_uuid e) in Hsl.
  destruct (slot_set n es i e old) as [He2 Hold]; [done..|].
  assert (set_at es i e !! i = Some e) as Hei.
  { rewrite lookup_set_at by apply Hsl. by rewrite decide_True. }
  apply wpp_wp, wp_bind. eapply wp_mono; [by apply (wp_commit_write n es D db e d i old)| |].
  - intros [] v' Hv'.
    eapply wp_mono; [by apply (wp_clear_old db (set_at es i e) (<[u := (p, Some d)]> D) old v' (λ _ _, False))| |done].
    intros o v2 [-> [db2 Hv2]]. cbn beta iota. by apply wpp_wp, (wp_committed (S n) db2 (set_at es i e)).
  - intros x v' [Hx Hl']. cbn beta iota. apply wpp_wp. destruct Hl' as [Hl'|Hl'].
    + eapply wp_mono; [by apply (wp_give_up (S n) db es D)|done|]. intros y v2 [-> ?]. split; [done|by left].
    + eapply wp_mono; [by apply (wp_give_up_written (S n) db (set_at es i e) D ta i e p d)|done|].
      intros y v2 [-> ?]. split; [done|by right].
Qed.

(** ** Removing *)

Lemma view_entry es D (v : tst) e :
  outside er es D v → e ∈ es → taken e → ∃ x, D !! ent_uuid e = Some x ∧ ta_is (t_names v) (t_inodes v) e x.
Proof. intros [_ Hv _]. by apply Hv. Qed.

Lemma view_absent es D (v : tst) u :
  outside er es D v → (∀ j e, es !! j = Some e → ent_uuid e ≠ u) → D !! u = None.
Proof.
  intros [_ [_ Hd] _] Hn. destruct (D !! u) eqn:E; [|done]. destruct (Hd u) as (e & He & _ & Hu); [by rewrite E|].
  apply list_elem_of_lookup in He as [j Hj]. by destruct (Hn j e Hj).
Qed.

Lemma outside_clear n es D i e (v : tst) :
  entries_ok n es → outside er es D v → es !! i = Some e → taken e →
  outside er (set_at es i null_entry) (delete (ent_uuid e) D) v.
Proof.
  intros He [H1 H2 H3] Hi Ht. constructor; [done| |done]. apply view_clear; [done..|].
  intros j a Ha Hta Heq. by apply (eo_uuid _ _ He j i a e).
Qed.

Lemma unused_clear n es i e :
  entries_ok n es → es !! i = Some e → taken e → unused (e_file_number e) (set_at es i null_entry).
Proof.
  intros He Hi Ht. pose proof (lookup_lt_Some _ _ _ Hi). apply Forall_lookup_2. intros j a Ha Hta Heq.
  rewrite lookup_set_at in Ha by lia. case_decide as Hj.
  - injection Ha as <-. by destruct Hta.
  - apply Hj. by apply (eo_num _ _ He j i a e).
Qed.

Lemma wp_write_null n es D db i e v :
  entries_ok n es → tworks db es D v → es !! i = Some e → taken e →
  let es' := set_at es i null_entry in
  let D' := delete (ent_uuid e) D in
  wp (write_ent (Z.of_nat i) null_entry) (λ _, tworks db es' D')
    (λ x v', er x ∧ (tlost db es D v' ∨ tlost db es' D' v')) v.
Proof using Type*.
  intros He Hw Hi Ht es' D'. pose proof (lookup_lt_Some _ _ _ Hi).
  pose proof (eo_room _ _ He). pose proof (eo_len _ _ He). pose proof (eo_ok _ _ He) as Heok.
  assert (∀ Φ (v' : tst), tmid er Φ db es D v' → tmid er Φ db es' D' v') as Hset.
  { intros Φ v' [M1 M2 M3 M4]. constructor; [done..|]. by eapply outside_clear. }
  eapply wp_mono; [apply (wp_write_ent er er_nf db es D); done || lia || apply null_entry_ok| |].
  - intros [] v' Hv'. by apply Hset.
  - intros x v' (Hx & [Hv'|Hv']); (split; [done|]); [by left|right; by apply Hset].
Qed.

Lemma wp_ta_delete n es D uuid v :
  entries_ok n es → (length es < fuel)%nat → tsleeps es D v →
  let u := uuid_bytes uuid in
  wp (tee_tadb_ta_delete fuel uuid)
    (λ _ v', is_Some (D !! u) ∧ tstands n (delete u D) v')
    (λ x v', x = TEE_ERROR_GENERIC ∧ u = null_key ∧ tstands n D v'
             ∨ x = TEE_ERROR_ITEM_NOT_FOUND ∧ D !! u = None ∧ tstands n D v'
             ∨ er x ∧ (tstands n D v' ∨ tstands n (delete u D) v')) v.
Proof using Type*.
  intros He Hf Hv u. pose proof (eo_ok _ _ He) as Hok. pose proof (eo_room _ _ He). pose proof (eo_len _ _ He).
  unfold tee_tadb_ta_delete, is_null_uuid. case_bool_decide as Hu.
  { apply wp_throw. left. split; [done|]. split; [done|]. by exists es. }
  apply wp_bind. eapply wp_mono; [by apply wp_tadb_open| |].
  2: { intros x v' [Hx Hv']. right; right. split; [done|]. left. by exists es. }
  clear v Hv. intros [] v Hv. apply wp_bind, wp_try.
  eapply wp_mono; [apply (wp_find_ent fuel er er_nf (Tadir 0 []) es D); done || lia| |]; cbn beta iota.
  2: { intros x v' [Hx Hv']. apply wp_bind. eapply wp_tadb_put; [done|by apply tlost_failed|].
       intros v2 Hv2. apply wp_throw. right; right. split; [done|]. left. by exists es. }
  clear v Hv. intros [idx [e|]] v (Hv & i & Hi & Ho); cbn [fst snd] in Hi, Ho; subst idx.
  2: { apply wp_bind. eapply wp_tadb_put; [done|by apply tlost_works|]. intros v2 Hv2. apply wp_throw. right; left.
       split; [done|]. split; [|by exists es]. eapply view_absent; [apply Hv2|]. apply Ho. }
  destruct Ho as [Hi Heu]. assert (taken e) as Ht by (unfold taken; by rewrite Heu).
  assert (is_Some (D !! u)) as Hin.
  { destruct (view_entry es D v e) as (x & Hx & _); [apply Hv|by eapply list_elem_of_lookup_2|done|].
    unfold u. rewrite <- Heu. by exists x. }
  apply wp_bind. eapply wp_get_db; [done|]. apply wp_bind. unfold wp at 1, put_db at 1, tmodify at 1.
  eapply (tmid_set_db _ _ _ (ta_clear_file (Tadir 0 []) (to_int32 (e_file_number e)))) in Hv. revert Hv.
  generalize (set_db v (Some (ta_clear_file (Tadir 0 []) (to_int32 (e_file_number e))))). clear v. intros v Hv.
  apply wp_bind, wp_try.
  assert (tstands n (delete u D) = tstands n (delete (ent_uuid e) D)) as -> by (by rewrite Heu).
  pose proof (lookup_lt_Some _ _ _ Hi) as Hlt. pose proof (entries_ok_clear _ _ _ He Hlt) as He2.
  eapply wp_mono; [eapply (wp_write_null n es D _ i e v); [done|exact Hv|done|done]| |]; cbn beta iota.
  - clear v Hv. intros [] v Hv. apply wp_bind. eapply wp_tadb_put; [done|by apply tlost_works|].
    intros v2 Hv2. eapply wp_mono; [apply (wp_sleep_remove n (set_at es i null_entry) (delete (ent_uuid e) D) _ _ (λ _ _, False)); [done|done|by apply (unused_clear n es)]| |done].
    intros [] v3 Hv3. by split.
  - intros x v' [Hx [Hl|Hl]]; apply wp_bind; (eapply wp_tadb_put; [done|done|]); intros v2 Hv2; apply wp_throw;
      right; right; (split; [done|]); [left; by exists es|right; by exists (set_at es i null_entry)].
Qed.

(** ** Reading *)

(** A TA with the data [d] is being read, [k] bytes of it were decrypted; the tag was
    not looked at yet. *)
Record reading (es : list tadb_entry) (D : ta_map) (ta : tee_tadb_ta_read) (d : list Z) (k : nat) (v : tst) : Prop := {
  rd_works : ∃ db, tworks db es D v;
  rd_pos : r_pos ta = Z.of_nat k;
  rd_le : (k <= length d)%nat;
  rd_data : ∃ c ps ce qs,
    t_inodes v !! r_fd ta = Some c ∧ (ta_buf ta = None ∨ ta_buf ta = Some c)
    ∧ concat ps = d ∧ Z.of_nat (length d) = enc_size (r_entry ta)
    ∧ update_all (ae_init true (e_key (r_entry ta)) (e_iv (r_entry ta)) (enc_size (r_entry ta))) ps = (c, ce)
    ∧ e_tag (r_entry ta) = ae_enc_final ce
    ∧ concat qs = take k c
    ∧ snd (update_all (ae_init false (e_key (r_entry ta)) (e_iv (r_entry ta)) (enc_size (r_entry ta))) qs) = r_ctx ta;
}.

#[export] Instance reading_env es D ta d k : Env er (reading es D ta d k).
Proof.
  constructor; [intros v [[db Hw] _ _ _]; exact (env_faults er v Hw)|].
  intros v r f [[db Hw] H1 H2 H3] Hf. constructor; [|done..]. exists db. by apply (env_step er).
Qed.

Lemma wp_ta_open n es D uuid v :
  entries_ok n es → (length es < fuel)%nat → tsleeps es D v →
  let u := uuid_bytes uuid in
  wp (tee_tadb_ta_open fuel uuid)
    (λ ta v', (∃ db, tworks db es D v') ∧ entry_ok (r_entry ta)
              ∧ ∃ d, D !! u = Some (e_prop (r_entry ta), Some d) ∧ reading es D ta d 0 v')
    (λ x v', tsleeps es D v'
             ∧ (er x ∨ x = TEE_ERROR_GENERIC ∧ u = null_key
                ∨ x = TEE_ERROR_ITEM_NOT_FOUND ∧ ∀ p d, D !! u ≠ Some (p, Some d))) v.
Proof using Type*.
  intros He Hf Hv u. pose proof (eo_ok _ _ He) as Hok. pose proof (eo_room _ _ He). pose proof (eo_len _ _ He).
  unfold tee_tadb_ta_open, is_null_uuid. case_bool_decide as Hu.
  { apply wp_throw. split; [done|]. right; by left. }
  apply wp_bind. eapply wp_mono; [by apply (wp_text er (tsleeps es D))| |by intros x v' [? ?]; split; [|left]].
  clear v Hv. intros [] v Hv. apply wp_bind.
  eapply wp_mono; [by apply wp_tadb_open| |by intros x v' [? ?]; split; [|left]]. clear v Hv. intros [] v Hv.
  apply wp_bind, wp_try. set (db0 := Tadir 0 []) in *.
  eapply (wp_mono _ (λ ta v', (∃ db, tworks db es D v') ∧ entry_ok (r_entry ta) ∧ ∃ d, D !! u = Some (e_prop (r_entry ta), Some d) ∧ reading es D ta d 0 v') _
    (λ x v', (er x ∨ x = TEE_ERROR_ITEM_NOT_FOUND ∧ ∀ p d, D !! u ≠ Some (p, Some d)) ∧ tlost db0 es D v')).
  2: { intros ta v' ?. by apply wp_ret. }
  2: { intros x v' [Hx Hl]. apply wp_bind. eapply wp_tadb_put; [done|done|]. intros v2 Hv2. apply wp_throw. tauto. }
  apply wp_bind. eapply wp_mono; [apply (wp_find_ent fuel er er_nf db0 es D); done || lia| |].
  2: { intros x v' [Hx Hv']. split; [by left|by apply tlost_failed]. }
  clear v Hv. intros [idx [e|]] v (Hv & i & Hi & Ho); cbn [fst snd] in Hi, Ho.
  2: { apply wp_throw. split; [|by apply tlost_works]. right. split; [done|]. intros p d.
       rewrite (view_absent es D v u); [done|apply Hv|apply Ho]. }
  destruct Ho as [Hei Heu]. assert (taken e) as Ht by (unfold taken; by rewrite Heu).
  assert (∀ x v', er x ∧ tworks db0 es D v' →
    (er x ∨ x = TEE_ERROR_ITEM_NOT_FOUND ∧ ∀ p d, D !! u ≠ Some (p, Some d)) ∧ tlost db0 es D v') as Herr.
  { intros x v' [? ?]. split; [by left|by apply tlost_works]. }
  apply wp_bind. unfold ta_operation_open. apply wp_bind.
  eapply wp_mono; [by apply (wp_text er (tworks db0 es D))| |done]. clear v Hv. intros [] v Hv. apply wp_bind.
  eapply wp_mono; [by apply (wp_text er (tworks db0 es D))| |done]. clear v Hv. intros [] v Hv. apply wp_bind, wp_get.
  destruct (view_entry es D v e) as ([p [d|]] & Hx & Hp & His); [apply Hv|by eapply list_elem_of_lookup_2|done|..];
    cbn [fst snd] in Hp, His; rewrite Heu in Hx.
  2: { rewrite His. apply wp_throw. split; [|by apply tlost_works]. right. split; [done|]. intros p' d'. unfold u. by rewrite Hx. }
  destruct His as (ino & c & Hn & Hc & Hl & ps & ce & Hps & Hup & Htag). rewrite Hn. apply wp_ret.
  assert (Henv : Env er (λ v : tst, tworks db0 es D v ∧ t_inodes v !! ino = Some c)).
  { apply and_env; [apply _|]. by intros v' r f Hv'. }
  apply wp_bind. eapply wp_mono; [by apply (wp_authenc_init _ false e v (conj Hv Hc))| |intros x v' (Hx' & Hv' & _); by apply Herr].
  clear v Hv Hn Hc. intros ctx v (-> & Hv & Hc). apply wp_ret. split; [by exists db0|]. cbn [r_entry].
  split; [by apply (Forall_lookup_1 _ _ _ _ Hok Hei)|]. exists d.
  split; [unfold u; by rewrite Hx, Hp|]. constructor; [by exists db0|done|lia|].
  exists c, ps, ce, []. cbn. split_and!; [done|by left|done..].
Qed.

(** The next piece of the data, and the tag when it is the last one. *)
Lemma decrypt_next key iv d ps c ce qs ss k l :
  concat ps = d → update_all (ae_init true key iv (Z.of_nat (length d))) ps = (c, ce) → (k <= length d)%nat →
  concat qs = take k c → concat ss = take l (drop k c) →
  let init := ae_init false key iv (Z.of_nat (length d)) in
  let ctx := snd (update_all init qs) in
  fst (update_all ctx ss) = take l (drop k d)
  ∧ concat (qs ++ ss) = take (k + l) c
  ∧ snd (update_all init (qs ++ ss)) = snd (update_all ctx ss)
  ∧ ((length d <= k + l)%nat → fst (ae_dec_final (snd (update_all ctx ss)) (ae_enc_final ce)) = true).
Proof.
  intros Hps Hc Hk Hqs Hss init ctx.
  pose proof (length_update_all ps (ae_init true key iv (Z.of_nat (length d)))) as Hlc. rewrite Hc, Hps in Hlc. cbn in Hlc.
  assert (concat (qs ++ ss) = take (k + l) c) as Hcat.
  { rewrite concat_app, Hqs, Hss. by rewrite take_take_drop. }
  assert (∀ m, (m <= length d)%nat → take (length (take m c)) c = take m c) as Htk.
  { intros m Hm. by rewrite length_take_le by lia. }
  destruct (ae_decrypts key iv _ ps c ce qs Hc) as (c1 & E1 & _); [by rewrite Hps|by rewrite Hqs, Htk|].
  destruct (ae_decrypts key iv _ ps c ce (qs ++ ss) Hc) as (c2 & E2 & Hfin).
  { by rewrite Hps. }
  { rewrite Hcat. destruct (decide (k + l <= length d)%nat); [by rewrite Htk|].
    rewrite take_ge by lia. by rewrite firstn_all. }
  fold init in E1, E2. rewrite Hps in *. rewrite update_all_app, E1 in E2. unfold ctx. rewrite E1. cbn [snd].
  rewrite update_all_app, E1. destruct (update_all c1 ss) as [o c3]. injection E2 as Ho ->. cbn [fst snd].
  split_and!; [|done|done|].
  - rewrite Hcat, Hqs, !length_take, Hlc in Ho.
    assert (take (Nat.min (k + l) (length d)) d = take (Nat.min k (length d)) d ++ take l (drop k d)) as Heq.
    { rewrite Nat.min_l with (n := k) by lia. rewrite take_take_drop. 
      destruct (decide (k + l <= length d)%nat); [by rewrite Nat.min_l by lia|]. rewrite !take_ge by lia. done. }
    rewrite Heq in Ho. by apply app_inv_head in Ho.
  - intros Hl. apply Hfin. rewrite Hcat. apply take_ge. lia.
Qed.

Lemma wp_skip_loop (P : tst → Prop) `{!Env er P} b n : ∀ ctx src v,
  P v → (0 < b)%nat → (length src <= n)%nat →
  wp (skip_loop ctx src b n)
    (λ ctx' v', P v' ∧ ∃ ss, concat ss = src ∧ ctx' = snd (update_all ctx ss)) (λ x v', er x ∧ P v') v.
Proof using Type*.
  induction n as [|n IH]; intros ctx src v HP Hb Hl.
  { destruct src; [|cbn in Hl; lia]. apply wp_ret. split; [done|]. by exists []. }
  destruct src as [|x src0] eqn:Es; [apply wp_ret; split; [done|]; by exists []|].
  cbn [skip_loop]. rewrite <- Es in *. assert (0 < length src)%nat by (subst; cbn; lia). clear Es x src0.
  apply wp_bind. eapply wp_mono; [by apply (wp_update_payload P)| |done]. intros [o c] v' [Ho HP'].
  eapply wp_mono; [apply (IH c (drop b src)); [done|done|rewrite length_drop; lia]| |done].
  intros ctx' v2 (HP2 & ss & Hss & ->). split; [done|]. exists (take b src :: ss). cbn. rewrite Hss.
  split; [apply take_drop|]. rewrite <- Ho. by destruct (update_all c ss).
Qed.

(** A handle whose file holds [c]. *)
Definition on_file (es : list tadb_entry) (D : ta_map) (fd : nat) (c : list Z) (v : tst) : Prop :=
  (∃ db, tworks db es D v) ∧ t_inodes v !! fd = Some c.

#[export] Instance on_file_env es D fd c : Env er (on_file es D fd c).
Proof.
  apply and_env; [|by intros v' r f Hv']. constructor; [intros v [db Hw]; exact (env_faults er v Hw)|].
  intros v r f [db Hw] Hf. exists db. by apply (env_step er).
Qed.

Lemma wp_ta_load es D ta c v :
  on_file es D (r_fd ta) c v → (ta_buf ta = None ∨ ta_buf ta = Some c) → Z.of_nat (length c) = enc_size (r_entry ta) →
  wp (ta_load junk ta)
    (λ ta' v', ta' = Ta_r _ (r_fd ta) (r_entry ta) (r_pos ta) (r_ctx ta) (Some c) ∧ on_file es D (r_fd ta) c v')
    (λ x v', er x ∧ on_file es D (r_fd ta) c v') v.
Proof using Type*.
  intros Hv Hb Hl. unfold ta_load. destruct Hb as [-> | Hb].
  2: { rewrite Hb. apply wp_ret. split; [|done]. destruct ta. cbn in *. by rewrite Hb. }
  cbv zeta. apply wp_bind. eapply wp_mono; [by apply (wp_text er (on_file es D (r_fd ta) c))| |done].
  clear v Hv. intros [] v Hv. apply wp_bind. eapply wp_mono; [by apply (wp_text er (on_file es D (r_fd ta) c))| |done].
  clear v Hv. intros [] v Hv. apply wp_bind, wp_get. rewrite (proj2 Hv). apply wp_ret. split; [|done].
  rewrite take_ge by lia. destruct (junk_ok (Z.to_nat (enc_size (r_entry ta)) - length c)) as [Hj _].
  rewrite (nil_length_inv (junk _)); [by rewrite app_nil_r|]. lia.
Qed.

(** The decryption of a piece, with a buffer for it or without. *)
Lemma wp_read_part (P : tst → Prop) `{!Env er P} ctx src (buf : bool) l v :
  P v → Z.of_nat (length src) = l →
  wp (if buf then tadb_update_payload ctx src
      else
        _ ← text;
        ctx ← skip_loop ctx src (Z.to_nat (Z.min 256 l)) (length src);
        mret ([], ctx))
    (λ r v', P v' ∧ ∃ ss, concat ss = src ∧ (buf = true → r.1 = fst (update_all ctx ss))
                         ∧ r.2 = snd (update_all ctx ss)) (λ x v', er x ∧ P v') v.
Proof using Type*.
  intros HP Hl. destruct buf.
  - eapply wp_mono; [by apply (wp_update_payload P)| |done]. intros r v' [-> HP']. split; [done|].
    exists [src]. rewrite update_all_one. cbn. by rewrite app_nil_r.
  - apply wp_bind. eapply wp_mono; [by apply (wp_text er P)| |done]. clear v HP. intros [] v HP.
    destruct src as [|x src0] eqn:Es.
    { apply wp_bind, wp_ret, wp_ret. split; [done|]. by exists []. }
    rewrite <- Es in *. assert (0 < length src)%nat by (subst; cbn; lia).
    apply wp_bind. eapply wp_mono; [apply (wp_skip_loop P); [done|lia|done]| |done].
    intros ctx' v' (HP' & ss & Hss & ->). apply wp_ret. split; [done|]. by exists ss.
Qed.

Lemma enc_size_range e : 0 <= enc_size e < 2 ^ 32.
Proof. by apply (wrap_range 32). Qed.

Lemma wp_ta_read es D ta d k buf len v :
  reading es D ta d k v → 0 <= len →
  let l := Nat.min (Z.to_nat len) (length d - k) in
  wp (tee_tadb_ta_read_ junk ta buf len)
    (λ '(out, l', ta') v',
       l' = Z.of_nat l ∧ (buf = true → out = take l (drop k d)) ∧ r_entry ta' = r_entry ta
       ∧ (∃ db, tworks db es D v') ∧ ((k + l < length d)%nat → reading es D ta' d (k + l) v'))
    (λ x v', er x ∧ ∃ db, tworks db es D v') v.
Proof using Type*.
  intros [Hw Hp Hk (c & ps & ce & qs & Hc & Hb & Hps & Hl & Hup & Htag & Hqs & Hctx)] Hlen l.
  pose proof (enc_size_range (r_entry ta)). rewrite <- Hl in Hup, Hctx.
  pose proof (length_update_all ps (ae_init true (e_key (r_entry ta)) (e_iv (r_entry ta)) (Z.of_nat (length d)))) as Hlc.
  rewrite Hup, Hps in Hlc. cbn in Hlc. unfold tee_tadb_ta_read_. cbv zeta.
  rewrite wrap_small by (unfold in_range; lia).
  replace (Z.min len (enc_size (r_entry ta) - r_pos ta)) with (Z.of_nat l) by lia.
  assert (on_file es D (r_fd ta) c v) as Hv by done. clear Hw Hc.
  assert (∀ x v', er x ∧ on_file es D (r_fd ta) c v' → er x ∧ ∃ db, tworks db es D v') as Herr by (by intros x v' (? & ? & _)).
  apply wp_bind. eapply wp_mono; [apply (wp_ta_load es D ta c); [done|done|by rewrite Hlc]| |done].
  clear v Hv. intros ta' v [-> Hv]. cbn [r_fd r_entry r_pos r_ctx ta_buf default].
  rewrite Hp, !Nat2Z.id. unfold id. set (src := take l (drop k c)).
  assert (length src = l) as Hls by (unfold src; rewrite length_take, length_drop; lia).
  apply wp_bind. eapply wp_mono; [apply (wp_read_part (on_file es D (r_fd ta) c)); [done|by rewrite Hls]| |done].
  clear v Hv. intros [out ctx] v (Hv & ss & Hss & Hout & Hcx). cbn [fst snd] in Hout, Hcx.
  destruct (decrypt_next _ _ d ps c ce qs ss k l Hps Hup Hk Hqs Hss) as (D1 & D2 & D3 & D4).
  rewrite Hctx in D1, D3, D4. rewrite <- Hcx in D3, D4. rewrite D1 in Hout.
  rewrite wrap_small by (unfold in_range; lia). destruct (Z.eqb_spec (Z.of_nat k + Z.of_nat l) (enc_size (r_entry ta))) as [He|He].
  - rewrite Htag. specialize (D4 ltac:(lia)). destruct (ae_dec_final ctx (ae_enc_final ce)) as [okb cf]. cbn in D4. subst okb.
    apply wp_ret. split_and!; [done|done|done|apply Hv|]. intros Hlt. lia.
  - apply wp_ret. split_and!; [done|done|done|apply Hv|]. intros Hlt. constructor; [apply Hv|cbn; lia|lia|].
    exists c, ps, ce, (qs ++ ss). cbn [r_fd r_entry r_pos r_ctx ta_buf]. rewrite <- Hl.
    split_and!; [apply Hv|by right|done|done|done|done|done|done].
Qed.
End ops.
