(* ===== verification/TadbToy.v ===== *)
(** * Instances of the interfaces of tadb.c to compute with

    A file in memory with calls that fail as they are told to, a cipher that adds the
    key bit by bit, and a hash that is a sum. *)
From S2P Require Import Prelude Uuid ByteFile Bitstring Dirfile Tadb SecstorTa TadbProofs.

Local Open Scope Z_scope.

(** ** The file of the entries

    A fault is a code and a flag: whether a write took effect, or whether a read
    closed the file. *)
Record memf := Memf {
  mf_content : option (list Z);
  mf_dead : bool;
  mf_faults : list (option (bool * tee_result));
}.

Definition mf_call {A} (run : memf → outcome tee_result A * memf) (fail : bool → memf → memf) : M memf tee_result A := λ s,
  match mf_faults s with
  | [] => run s
  | None :: f => run (Memf (mf_content s) (mf_dead s) f)
  | Some (b, e) :: f => (Err e, fail b (Memf (mf_content s) (mf_dead s) f))
  end.

Definition mf_set (c : option (list Z)) (s : memf) : memf := Memf c (mf_dead s) (mf_faults s).

#[export] Instance memf_file : TadbFile memf := {
  tf_open := mf_call (λ s, (match mf_content s with Some _ => Ok tt | None => Err TEE_ERROR_ITEM_NOT_FOUND end, s)) (λ _ s, s);
  tf_create := mf_call (λ s, (Ok tt, mf_set (Some []) s)) (λ b s, if b then mf_set (Some []) s else s);
  tf_read pos len := λ s,
    if mf_dead s then (Panicked, s)
    else
      mf_call (λ s, (Ok (take (Z.to_nat len) (drop (Z.to_nat pos) (default [] (mf_content s)))), s))
        (λ b s, Memf (mf_content s) b (mf_faults s)) s;
  tf_write pos buf :=
    mf_call (λ s, (Ok tt, mf_set (Some (write_bytes (default [] (mf_content s)) pos buf)) s))
      (λ b s, if b then mf_set (Some (write_bytes (default [] (mf_content s)) pos buf)) s else s);
  tf_close := λ s, (Ok tt, Memf (mf_content s) false (mf_faults s));
}.

Definition mf_faults_ok (er : tee_result → Prop) (s : memf) : Prop :=
  Forall (λ f, match f with Some (_, e) => er e | None => True end) (mf_faults s).
Definition mf_is (er : tee_result → Prop) (c : option (list Z)) (dead : bool) (s : memf) : Prop :=
  mf_content s = c ∧ mf_dead s = dead ∧ mf_faults_ok er s.

Lemma mf_call_wp {A} er c d (run : memf → outcome tee_result A * memf) fail s Q R :
  mf_is er c d s → (∀ s, mf_is er c d s → wp run Q R s) →
  (∀ b e s, er e → mf_is er c d s → R e (fail b s)) → wp (mf_call run fail) Q R s.
Proof.
  intros (H1 & H2 & H3) Hrun Hfail. unfold wp, mf_call. unfold mf_faults_ok in H3.
  destruct (mf_faults s) as [|[[b e]|] f] eqn:Ef.
  - apply (Hrun s). split_and!; [done|done|]. unfold mf_faults_ok. by rewrite Ef.
  - apply Forall_cons in H3 as [He H3]. by apply Hfail.
  - apply Forall_cons in H3 as [_ H3]. by apply (Hrun (Memf _ _ f)).
Qed.

#[export, program] Instance memf_laws : TadbFileLaws memf := {
  tf_idle er s c := mf_is er c false s;
  tf_holds er s l := mf_is er (Some l) false s;
  tf_lost er s l := ∃ d, mf_is er (Some l) d s;
  tf_dead er s l := mf_is er (Some l) true s;
}.
Next Obligation. intros er s l Hs. by exists false. Qed.
Next Obligation. intros er s l Hs. by exists true. Qed.
Next Obligation.
  intros er s c Hs. apply (mf_call_wp er c false); [done|..].
  - intros s' [Hc Hs']. unfold wp. rewrite Hc. destruct c as [l|]; [by exists l|]. split; [done|]. by right.
  - intros b e s' He Hs'. split; [done|by left].
Qed.
Next Obligation.
  intros er s Hs. apply (mf_call_wp er None false); [done|..].
  - by intros s' (H1 & H2 & H3).
  - intros [] e s' He (H1 & H2 & H3); (split; [done|]); [by right|by left].
Qed.
Next Obligation.
  intros er s l pos len Hs _ _ _. unfold tf_read, memf_file. unfold wp at 1. rewrite (proj1 (proj2 Hs)).
  apply (mf_call_wp er (Some l) false); [done|..].
  - intros s' [Hc Hs']. unfold wp. by rewrite Hc.
  - intros [] e s' He (H1 & H2 & H3); (split; [done|]); [by right|by left].
Qed.
Next Obligation. intros er s l pos len Hs. exists s. unfold tf_read, memf_file. by rewrite (proj1 (proj2 Hs)). Qed.
Next Obligation.
  intros er s l pos buf Hs _ _. apply (mf_call_wp er (Some l) false); [done|..].
  - intros s' (H1 & H2 & H3). unfold wp. rewrite H1. by split_and!.
  - intros [] e s' He (H1 & H2 & H3); (split; [done|]); [right|left]; exists false; [|done].
    rewrite H1. by split_and!.
Qed.
Next Obligation. intros er s l [d (H1 & H2 & H3)]. eexists. split; [done|]. by split_and!. Qed.

(** ** The cipher *)

Definition add_key (k : Z) (l : list Z) : list Z := (λ b, Z.lxor b k) <$> l.

Lemma add_key_twice k l : add_key k (add_key k l) = l.
Proof.
  unfold add_key. rewrite <- list_fmap_compose. rewrite <- (list_fmap_id l) at 2. apply list_fmap_ext.
  intros i b _. cbn. by rewrite Z.lxor_assoc, Z.lxor_nilpotent, Z.lxor_0_r.
Qed.

(** Encrypting or not, the key, and the bytes encrypted. *)
Record toy_ctx := ToyCtx { tc_enc : bool; tc_key : Z; tc_data : list Z }.
Definition toy_tag (c : toy_ctx) : list Z := (foldr Z.add 0 (tc_data c) mod 256) :: replicate 15 0.

#[export] Instance toy_authenc : Authenc := {
  actx := toy_ctx;
  ae_init enc key iv len := ToyCtx enc (default 0 (key !! 0%nat)) [];
  ae_update c src :=
    let out := add_key (tc_key c) src in
    (out, ToyCtx (tc_enc c) (tc_key c) (tc_data c ++ if tc_enc c then out else src));
  ae_enc_final c := toy_tag c;
  ae_dec_final c tag := (bool_decide (tag = toy_tag c), c);
  ae_rng k n := replicate n (Z.of_nat k);
}.

Lemma toy_update_all ps : ∀ c,
  update_all (c : actx) ps =
  (add_key (tc_key c) (concat ps),
   ToyCtx (tc_enc c) (tc_key c) (tc_data c ++ if tc_enc c then add_key (tc_key c) (concat ps) else concat ps)).
Proof.
  induction ps as [|p ps IH]; intros c; cbn [update_all concat].
  - destruct c as [[] k d]; cbn; by rewrite app_nil_r.
  - cbn. rewrite IH. cbn. unfold add_key. rewrite fmap_app. destruct (tc_enc c); by rewrite <- app_assoc.
Qed.

#[export] Instance toy_authenc_laws : AuthencLaws.
Proof.
  constructor.
  - intros c src. cbn. apply length_fmap.
  - intros c. done.
  - intros k n. apply length_replicate.
  - intros key iv len ps c ce qs. rewrite !toy_update_all. cbn. intros [= <- <-] _ Hq.
    set (k := default 0 (key !! 0%nat)) in *. eexists. split.
    + f_equal. rewrite Hq at 1. unfold add_key at 1. rewrite fmap_take. f_equal. apply add_key_twice.
    + intros ->. cbn. unfold toy_tag. cbn. by rewrite bool_decide_true.
Qed.

(** ** The crypto of signed headers *)

#[export] Instance toy_crypto : ShdrCrypto := {
  sc_hash _ l := (foldr Z.add 0 l mod 256) :: replicate 63 0;
  sc_verify _ h s := bool_decide (s = h);
}.

Definition no_junk (n : nat) : list Z := replicate n 0.
Lemma no_junk_ok n : length (no_junk n) = n ∧ bytes_ok (no_junk n).
Proof. split; [apply length_replicate|by apply Forall_replicate]. Qed.
