(* ===== verification/SecstorProofs.v ===== *)
(** * Installing and loading trusted applications: the properties

    Only an image whose signed hash covers what is installed gets into the database,
    and never in place of a newer version; what is loaded is what was installed. *)
From S2P Require Import Prelude Uuid ByteFile Bitstring Dirfile DirfileProofs Tadb SecstorTa TadbProofs TadbSteps TadbOps TadbToy.

Local Open Scope Z_scope.

(** ** The image *)

(** What install_ta() reads of the image behind the headers, chunk by chunk. *)
Fixpoint image_read (nw : nat → list Z) (nw_size offs : Z) (t n : nat) : list Z :=
  if offs <? nw_size then
    match n with
    | O => []
    | S n =>
      let l := Z.min buf_size (nw_size - offs) in
      take (Z.to_nat l) (drop (Z.to_nat offs) (nw t)) ++ image_read nw nw_size (offs + l) (S t) n
    end
  else [].

Definition img_offs (nw : nat → list Z) : Z := shdr_get_size (nw 0%nat).
Definition img_shdr (nw : nat → list Z) : list Z := take (Z.to_nat (img_offs nw)) (nw 1%nat).
Definition img_bs (nw : nat → list Z) : list Z := take 20 (drop (Z.to_nat (img_offs nw)) (nw 2%nat)).
Definition img_data (nw : nat → list Z) (nw_size : Z) : list Z :=
  image_read nw nw_size (img_offs nw + 20) 3 (Z.to_nat nw_size).
Definition img_prop (nw : nat → list Z) (nw_size : Z) : tee_tadb_property :=
  MkProp (bs_uuid (img_bs nw)) (bs_version (img_bs nw)) 0 (nw_size - (img_offs nw + 20)).
Definition img_key (nw : nat → list Z) : list Z := uuid_bytes (bs_uuid (img_bs nw)).

(** The memory of the image: its content may change between two reads. *)
Definition image_ok (nw : nat → list Z) (nw_size : Z) : Prop :=
  nw_size < 2 ^ 32 ∧ ∀ t, Z.of_nat (length (nw t)) = nw_size ∧ bytes_ok (nw t).

Lemma bytes_ok_take n l : bytes_ok l → bytes_ok (take n l).
Proof. apply Forall_take. Qed.
Lemma bytes_ok_drop n l : bytes_ok l → bytes_ok (drop n l).
Proof. apply Forall_drop. Qed.

Lemma field_range l offs n : bytes_ok l → 0 <= field l offs n < 256 ^ Z.of_nat n.
Proof.
  intros Hl. unfold field. pose proof (le_value_bound (take n (drop offs l))) as Hb.
  destruct Hb as [H1 H2]; [by apply bytes_ok_take, bytes_ok_drop|]. split; [done|].
  eapply Z.lt_le_trans; [done|]. apply Z.pow_le_mono_r; [lia|]. rewrite length_take. lia.
Qed.

Lemma shdr_get_size_eq l : bytes_ok l → shdr_get_size l = 20 + shdr_hash_size l + shdr_sig_size l.
Proof.
  intros Hl. pose proof (field_range l 16 2 Hl). pose proof (field_range l 18 2 Hl).
  unfold shdr_get_size, shdr_hash_size, shdr_sig_size, sizeof_shdr, add_overflow in *.
  destruct (Z.ltb_spec (20 + field l 16 2) (2 ^ 64)); [|lia]. by rewrite (proj2 (Z.ltb_lt _ _)) by lia.
Qed.

Lemma img_offs_range nw nw_size : image_ok nw nw_size → 20 <= img_offs nw < 2 ^ 18.
Proof.
  intros [_ Hi]. destruct (Hi 0%nat) as [_ Hb]. unfold img_offs. rewrite shdr_get_size_eq by done.
  pose proof (field_range (nw 0%nat) 16 2 Hb). pose proof (field_range (nw 0%nat) 18 2 Hb).
  unfold shdr_hash_size, shdr_sig_size. lia.
Qed.

Lemma length_image_read nw nw_size n : ∀ offs t,
  image_ok nw nw_size → 0 <= offs → nw_size - offs <= Z.of_nat n →
  length (image_read nw nw_size offs t n) = Z.to_nat (nw_size - offs).
Proof.
  induction n as [|n IH]; intros offs t Hi Ho Hn; cbn [image_read].
  { rewrite (proj2 (Z.ltb_ge _ _)) by lia. cbn. lia. }
  destruct (Z.ltb_spec offs nw_size); [|cbn; lia]. cbv zeta. unfold buf_size in *.
  destruct (proj2 Hi t) as [Hl _]. rewrite length_app, length_take, length_drop, IH; [lia|done|lia|lia].
Qed.

Lemma img_uuid_wf nw nw_size :
  image_ok nw nw_size → img_offs nw + 20 <= nw_size → uuid_wf (bs_uuid (img_bs nw)) ∧ length (img_bs nw) = 20%nat.
Proof.
  intros Hi Ho. pose proof (img_offs_range nw nw_size Hi). destruct (proj2 Hi 2%nat) as [Hl Hb].
  assert (length (img_bs nw) = 20%nat) as Hlen by (unfold img_bs; rewrite length_take, length_drop; lia).
  split; [|done]. apply (proj2 tee_uuid_octets_bijection); [rewrite length_take; lia|].
  apply Forall_take. unfold img_bs. by apply bytes_ok_take, bytes_ok_drop.
Qed.

Section signed.
Context `{ShdrCrypto}.

(** The header is signed, and its hash covers the other two parts. *)
Record signed (shdr bs image : list Z) : Prop := {
  sg_magic : shdr_magic shdr = SHDR_MAGIC;
  sg_type : shdr_img_type shdr = SHDR_BOOTSTRAP_TA;
  sg_alg : tee_alg_get_main_alg (shdr_algo shdr) = TEE_MAIN_ALGO_RSA;
  sg_size : tee_alg_get_digest_size (TEE_DIGEST_HASH_TO_ALGO (shdr_algo shdr)) = Ok (shdr_hash_size shdr);
  sg_sig : sc_verify (shdr_algo shdr) (SHDR_GET_HASH shdr) (SHDR_GET_SIG shdr) = true;
  sg_hash :
    take (Z.to_nat (shdr_hash_size shdr))
      (sc_hash (TEE_DIGEST_HASH_TO_ALGO (shdr_algo shdr)) (take 20 shdr ++ bs ++ image)) = SHDR_GET_HASH shdr;
}.

(** All bootstrap() asks for. *)
Record accepted (param_types va : Z) (nw : nat → list Z) (nw_size : Z) (D : ta_map) : Prop := {
  ac_types : param_types = TEE_PARAM_TYPE_MEMREF_INPUT;
  ac_va : va + img_offs nw < 2 ^ 64;
  ac_same : shdr_get_size (img_shdr nw) = img_offs nw;
  ac_size : img_offs nw + 20 <= nw_size;
  ac_signed : signed (img_shdr nw) (img_bs nw) (img_data nw nw_size);
  ac_uuid : img_key nw ≠ null_key;
  ac_version p d : D !! img_key nw = Some (p, Some d) → p_version p <= bs_version (img_bs nw);
}.

Lemma digest_size_le algo n : tee_alg_get_digest_size algo = Ok n → 0 < n <= 64.
Proof.
  unfold tee_alg_get_digest_size, tee_alg_digest_size. destruct (find _ digest_sizes) as [c|] eqn:Ef; cbn; [|done].
  apply find_some in Ef as [Hin _]. case_match eqn:E0; [done|]. intros [= <-].
  apply Z.eqb_neq in E0. revert Hin. cbn. intuition (subst; cbn in *; lia).
Qed.
End signed.

Section secstor.
Context {F : Type} `{TF : TadbFile F, !TadbFileLaws F} `{AE : Authenc, !AuthencLaws} `{ShdrCrypto}.
Context (fuel : nat) (junk : nat → list Z) (junk_ok : ∀ k, length (junk k) = k ∧ bytes_ok (junk k)).
Context (er : tee_result → Prop) (er_nf : ¬ er TEE_ERROR_ITEM_NOT_FOUND).

Abbreviation tst := (@tst F).
Abbreviation T := (M tst tee_result).
Abbreviation tstands := (tstands er).
Abbreviation tstops := (tstops er).

(** Some call outside of the code can fail. *)
Definition faulty : Prop := ∃ e, er e.

#[export] Instance tstands_env n D : Env er (tstands n D).
Proof.
  constructor; [intros v (es & _ & Hv); exact (env_faults er v Hv)|].
  intros v r f (es & He & Hv) Hf. exists es. split; [done|]. by apply (env_step er).
Qed.

Lemma tstands_S n D v : tstands n D v → Z.of_nat (S n) < 2 ^ 24 → tstands (S n) D v.
Proof. intros (es & He & Hv) Hn. exists es. split; [by apply entries_ok_mono|done]. Qed.

Lemma wp_shdr_copy (P : tst → Prop) `{!Env er P} va nw nw_size v :
  P v → image_ok nw nw_size →
  wp (shdr_alloc_and_copy va nw nw_size)
    (λ o v', P v' ∧ match o with
                    | Some s => s = img_shdr nw ∧ va + img_offs nw < 2 ^ 64 ∧ shdr_get_size s = img_offs nw
                                ∧ img_offs nw <= nw_size
                    | None => faulty ∨ ¬ (va + img_offs nw < 2 ^ 64 ∧ shdr_get_size (img_shdr nw) = img_offs nw
                                          ∧ img_offs nw <= nw_size)
                    end) (λ _ _, False) v.
Proof.
  intros HP Hi. pose proof (img_offs_range nw nw_size Hi). unfold shdr_alloc_and_copy, sizeof_shdr.
  fold (img_offs nw). destruct (Z.ltb_spec nw_size 20); [apply wp_ret; split; [done|]; right; lia|].
  destruct (Z.ltb_spec nw_size (img_offs nw)); [apply wp_ret; split; [done|]; right; lia|].
  unfold add_overflow. destruct (Z.ltb_spec (va + img_offs nw) (2 ^ 64)); [|apply wp_ret; split; [done|]; right; lia].
  apply wp_bind, wp_try. eapply wp_mono; [by apply (wp_text er P)| |].
  - intros [] v' HP'. cbn beta iota. fold (img_shdr nw).
    destruct (Z.eqb_spec (img_offs nw) (shdr_get_size (img_shdr nw))) as [Heq|Hne]; apply wp_ret; (split; [done|]).
    + split_and!; [done|done|by rewrite <- Heq|done].
    + right. intros (_ & Heq & _). by destruct Hne.
  - intros x v' [Hx HP']. apply wp_ret. split; [done|]. left. by exists x.
Qed.

Lemma wp_shdr_verify (P : tst → Prop) `{!Env er P} s v :
  P v →
  let sig_ok := shdr_magic s = SHDR_MAGIC ∧ tee_alg_get_main_alg (shdr_algo s) = TEE_MAIN_ALGO_RSA
    ∧ tee_alg_get_digest_size (TEE_DIGEST_HASH_TO_ALGO (shdr_algo s)) = Ok (shdr_hash_size s)
    ∧ sc_verify (shdr_algo s) (SHDR_GET_HASH s) (SHDR_GET_SIG s) = true in
  wp (shdr_verify_signature s) (λ _ v', P v' ∧ sig_ok) (λ _ v', P v' ∧ (faulty ∨ ¬ sig_ok)) v.
Proof.
  intros HP sig_ok. unfold shdr_verify_signature.
  destruct (Z.eqb_spec (shdr_magic s) SHDR_MAGIC) as [H1|H1]; cbn [negb]; [|apply wp_throw; split; [done|right; by intros (? & _)]].
  destruct (Z.eqb_spec (tee_alg_get_main_alg (shdr_algo s)) TEE_MAIN_ALGO_RSA) as [H2|H2]; cbn [negb];
    [|apply wp_throw; split; [done|right; by intros (_ & ? & _)]].
  destruct (tee_alg_get_digest_size _) as [k|x|] eqn:Ek; [|apply wp_throw; (split; [done|]); right; intros (_ & _ & E3 & _); congruence..].
  destruct (Z.eqb_spec k (shdr_hash_size s)) as [H3|H3]; cbn [negb];
    [|apply wp_throw; split; [done|]; right; intros (_ & _ & E3 & _); congruence].
  apply wp_bind, wp_try.
  eapply (wp_mono _ (λ _, P) _ (λ x v', er x ∧ P v')).
  { apply wp_bind. eapply wp_mono; [by apply (wp_text er P)| |done]. intros [] v1 HP1.
    apply wp_bind. eapply wp_mono; [by apply (wp_text er P)| |done]. intros [] v2 HP2. by apply (wp_text er P). }
  - intros [] v' HP'. cbn beta iota. destruct (sc_verify _ _ _) eqn:Es.
    + apply wp_ret. split; [done|]. split_and!; [done|done|congruence|done].
    + apply wp_throw. split; [done|]. right. intros (_ & _ & _ & ?). congruence.
  - intros x v' [Hx HP']. apply wp_throw. split; [done|]. left. by exists x.
Qed.

Lemma wp_install_conflict n D bs v :
  tstands n D v → (n < fuel)%nat →
  let ok := ∀ p d, D !! uuid_bytes (bs_uuid bs) = Some (p, Some d) → p_version p <= bs_version bs in
  wp (check_install_conflict fuel bs)
    (λ _ v', tstands n D v' ∧ ok)
    (λ x v', tstands n D v' ∧ (faulty ∨ ¬ ok ∨ uuid_bytes (bs_uuid bs) = null_key)) v.
Proof using Type*.
  intros (es & He & Hv) Hf ok. pose proof (eo_len _ _ He). unfold check_install_conflict. apply wp_bind, wp_try.
  eapply wp_mono; [apply (wp_ta_open fuel er er_nf n es D); [done|lia|done]| |].
  - intros ta v' ((db & Hw) & _ & d & Hd & _). cbn beta iota. apply wp_bind. unfold tee_tadb_ta_close.
    eapply wp_tadb_put; [done|by apply tlost_works|]. intros v2 Hv2. unfold tee_tadb_ta_get_property.
    destruct (Z.ltb_spec (bs_version bs) (p_version (e_prop (r_entry ta)))) as [Hlt|Hge].
    + apply wp_throw. split; [by exists es|]. right; left. intros Hok. specialize (Hok _ _ Hd). lia.
    + apply wp_ret. split; [by exists es|]. intros p d' Hp. rewrite Hd in Hp. injection Hp as <- _. done.
  - intros x v' [Hs Hx]. assert (tstands n D v') as Hst by by exists es. cbn beta iota.
    destruct Hx as [Hx|[[-> Hu]|[-> Hn]]].
    + destruct x; try (apply wp_throw; split; [done|]; left; by eexists). by destruct er_nf.
    + apply wp_throw. split; [done|]. by right; right.
    + apply wp_ret. split; [done|]. intros p d Hp. by destruct (Hn p d).
Qed.

Lemma wp_install_loop n es D nw nw_size m : ∀ ta ctx ps offs t v,
  image_ok nw nw_size → writing er n es D ta ps v → 0 <= offs → nw_size - offs <= Z.of_nat m →
  Z.of_nat (length (concat ps)) + (nw_size - offs) < 2 ^ 63 →
  wp (install_loop ta ctx nw nw_size offs t m)
    (λ '(ta', ctx') v', w_entry ta' = w_entry ta ∧ ctx' = ctx ++ image_read nw nw_size offs t m
       ∧ ∃ qs, concat qs = image_read nw nw_size offs t m ∧ writing er n es D ta' (ps ++ qs) v')
    (λ x v', er x ∧ ∃ db, tworks er db es D v') v.
Proof using Type*.
  induction m as [|m IH]; intros ta ctx ps offs t v Hi Hv Ho Hm Hb; cbn [install_loop image_read].
  { rewrite (proj2 (Z.ltb_ge _ _)) by lia. apply wp_ret. rewrite app_nil_r. split_and!; [done|done|].
    exists []. by rewrite app_nil_r. }
  destruct (Z.ltb_spec offs nw_size) as [Hlt|Hge].
  2: { apply wp_ret. rewrite app_nil_r. split_and!; [done|done|]. exists []. by rewrite app_nil_r. }
  cbv zeta. set (l := Z.min buf_size (nw_size - offs)). assert (0 < l <= nw_size - offs) as Hl by (unfold l, buf_size; lia).
  clearbody l. set (buf := take _ _).
  assert (length buf = Z.to_nat l) as Hlb.
  { unfold buf. destruct (proj2 Hi t) as [Hlen _]. rewrite length_take, length_drop. lia. }
  apply wp_bind. eapply wp_mono; [by apply (wp_text er (writing er n es D ta ps))| |].
  2: { intros x v' [Hx Hv']. split; [done|]. by destruct Hv'. }
  clear v Hv. intros [] v Hv. apply wp_bind.
  eapply wp_mono; [apply (wp_ta_write er er_nf n es D ta ps buf); [done|]| |done].
  { rewrite (wr_pos _ _ _ _ _ _ _ Hv). lia. }
  clear v Hv. intros ta' v (He & qs & Hqs & Hv).
  eapply wp_mono; [apply (IH ta' (ctx ++ buf) (ps ++ qs)); [done|done|lia|lia|]| |done].
  { rewrite concat_app, length_app, Hqs, Hlb. lia. }
  intros [ta2 ctx2] v2 (He2 & -> & qs2 & Hqs2 & Hv2). split_and!; [congruence|by rewrite <- app_assoc|].
  exists (qs ++ qs2). rewrite concat_app, Hqs, Hqs2. split; [done|]. by rewrite <- app_assoc in Hv2.
Qed.

(** What install_ta() does with a database [D]. *)
Definition installed (nw : nat → list Z) (nw_size : Z) (x : option (list Z)) (D : ta_map) : ta_map :=
  <[img_key nw := (img_prop nw nw_size, x)]> D.

Lemma wp_install_data n es D nw nw_size ta v :
  image_ok nw nw_size → img_offs nw + 20 <= nw_size → writing er n es D ta [] v →
  let shdr := img_shdr nw in
  let hash_ok := take (Z.to_nat (shdr_hash_size shdr))
    (sc_hash (TEE_DIGEST_HASH_TO_ALGO (shdr_algo shdr)) (take 20 shdr ++ img_bs nw ++ img_data nw nw_size)) = SHDR_GET_HASH shdr in
  wp ('(ta, ctx) ← install_loop ta (take (Z.to_nat sizeof_shdr) shdr ++ img_bs nw) nw nw_size (img_offs nw + 20) 3 (Z.to_nat nw_size);
      _ ← text;
      let digest := take (Z.to_nat (shdr_hash_size shdr)) (sc_hash (TEE_DIGEST_HASH_TO_ALGO (shdr_algo shdr)) ctx) in
      if bool_decide (digest = SHDR_GET_HASH shdr) then mret ta else mthrow TEE_ERROR_SECURITY)
    (λ ta' v', hash_ok ∧ w_entry ta' = w_entry ta
       ∧ ∃ ps, concat ps = img_data nw nw_size ∧ writing er n es D ta' ps v')
    (λ x v', (faulty ∨ ¬ hash_ok) ∧ ∃ db, tworks er db es D v') v.
Proof using Type*.
  intros Hi Hs Hv shdr hash_ok. pose proof (img_offs_range nw nw_size Hi). apply wp_bind.
  eapply wp_mono; [apply (wp_install_loop n es D nw nw_size (Z.to_nat nw_size) ta _ []); [done|done|lia|lia|]| |].
  { destruct Hi. cbn. lia. }
  2: { intros x v' [Hx Hw]. split; [|done]. left. by exists x. }
  clear v Hv. intros [ta' ctx] v (He & -> & ps & Hps & Hv). fold (img_data nw nw_size) in Hps |- *. cbn [app] in Hv.
  apply wp_bind. eapply wp_mono; [by apply (wp_text er (writing er n es D ta' ps))| |].
  2: { intros x v' [Hx Hw]. split; [left; by exists x|by destruct Hw]. }
  clear v Hv. intros [] v Hv. cbv zeta. rewrite <- app_assoc. case_bool_decide as Hh.
  - apply wp_ret. split_and!; [done|done|]. by exists ps.
  - apply wp_throw. split; [by right|by destruct Hv].
Qed.

Definition hash_ok (nw : nat → list Z) (nw_size : Z) : Prop :=
  take (Z.to_nat (shdr_hash_size (img_shdr nw)))
    (sc_hash (TEE_DIGEST_HASH_TO_ALGO (shdr_algo (img_shdr nw))) (take 20 (img_shdr nw) ++ img_bs nw ++ img_data nw nw_size))
  = SHDR_GET_HASH (img_shdr nw).

Lemma img_prop_ok nw nw_size :
  image_ok nw nw_size → img_offs nw + 20 <= nw_size →
  prop_ok (img_prop nw nw_size) ∧ prop_size (img_prop nw nw_size) = Z.of_nat (length (img_data nw nw_size)).
Proof.
  intros Hi Hs. pose proof (img_offs_range nw nw_size Hi). destruct (img_uuid_wf nw nw_size Hi Hs) as [Hu Hl].
  destruct Hi as [Hi1 Hi2]. split.
  - constructor; cbn; [done| |done|unfold in_range; lia]. destruct (Hi2 2%nat) as [_ Hb].
    apply (field_range (img_bs nw) 16 4). by apply bytes_ok_take, bytes_ok_drop.
  - unfold img_data. rewrite length_image_read by (done || lia). unfold prop_size. cbn.
    rewrite wrap_small by (unfold in_range; lia). lia.
Qed.

(** The steps on the database. *)
Lemma wpp_install_body n D nw nw_size v :
  tstands n D v → image_ok nw nw_size → (n < fuel)%nat → Z.of_nat (S n) < 2 ^ 24 →
  D !! img_key nw = None ∨ steady er → img_offs nw + 20 <= nw_size →
  let shdr := img_shdr nw in
  wpp (ta ← tee_tadb_ta_create fuel junk (img_prop nw nw_size);
       res ← mtry (
         '(ta, ctx) ← install_loop ta (take (Z.to_nat sizeof_shdr) shdr ++ img_bs nw) nw nw_size (img_offs nw + 20) 3 (Z.to_nat nw_size);
         _ ← text;
         let digest := take (Z.to_nat (shdr_hash_size shdr)) (sc_hash (TEE_DIGEST_HASH_TO_ALGO (shdr_algo shdr)) ctx) in
         if bool_decide (digest = SHDR_GET_HASH shdr) then mret ta else mthrow TEE_ERROR_SECURITY);
       match res with
       | inr ta => tee_tadb_ta_close_and_commit fuel ta
       | inl e => _ ← tee_tadb_ta_close_and_delete ta; mthrow e
       end)
    (λ _ v', img_key nw ≠ null_key ∧ hash_ok nw nw_size
             ∧ tstands (S n) (installed nw nw_size (Some (img_data nw nw_size)) D) v')
    (λ x v', tstands (S n) D v' ∧ (faulty ∨ img_key nw = null_key ∨ ¬ hash_ok nw nw_size)
       ∨ (img_key nw ≠ null_key ∧ hash_ok nw nw_size) ∧ er x
         ∧ (tstands (S n) D v' ∨ tstands (S n) (installed nw nw_size (Some (img_data nw nw_size)) D) v'
            ∨ tstands (S n) (installed nw nw_size None D) v'))
    (tstops (S n) D) v.
Proof using Type*.
  intros (es & He & Hv) Hi Hf Hn Hst Hs shdr. pose proof (eo_len _ _ He).
  destruct (img_prop_ok nw nw_size Hi Hs) as [Hp Hps]. pose proof (entries_ok_mono _ _ He Hn) as He'.
  apply wpp_bind. eapply wpp_call; [apply (wp_ta_create fuel junk junk_ok er er_nf n es D); [done|done|lia|done|done]| |].
  2: { intros x v' [Hx Hv']. left. split; [by exists es|]. destruct Hx as [Hx|[_ Hx]]; [left; by exists x|by right; left]. }
  clear v Hv. intros ta v (Hu & Hta & Hw). apply wpp_bind, wpp_try.
  pose proof (wr_unused _ _ _ _ _ _ _ Hw) as Hun.
  eapply wpp_call; [by apply (wp_install_data n es D nw nw_size ta v)| |]; cbn beta iota.
  - clear v Hw. intros ta' v (Hh & Hee & ps & Hd & Hw).
    assert (ent_uuid (w_entry ta') = img_key nw) as Hk by (unfold ent_uuid; by rewrite Hee, Hta).
    assert (e_prop (w_entry ta') = img_prop nw nw_size) as Hpe by by rewrite Hee.
    eapply wpp_mono; [apply (wpp_commit fuel er er_nf n es D ta' ps v); try done; rewrite ?Hk, ?Hpe, ?Hd; done || lia| | |done];
      cbv zeta; rewrite Hk, Hpe, Hd.
    + intros [] v' Hv'. done.
    + intros x v' [Hx Hv']. right. done.
  - clear v Hw. intros x v (Hx & db & Hw). apply wpp_wp.
    eapply wp_mono; [by apply (wp_give_up er er_nf (S n) db es D ta x v); [|apply tlost_works|]|done|].
    intros y v' [-> Hv']. left. split; [done|]. destruct Hx; [by left|by right; right].
Qed.

Lemma wpp_install n D nw nw_size v param_types va :
  tstands n D v → image_ok nw nw_size → (n < fuel)%nat → Z.of_nat (S n) < 2 ^ 24 →
  D !! img_key nw = None ∨ steady er →
  shdr_get_size (img_shdr nw) = img_offs nw → img_offs nw <= nw_size → va + img_offs nw < 2 ^ 64 →
  param_types = TEE_PARAM_TYPE_MEMREF_INPUT → shdr_magic (img_shdr nw) = SHDR_MAGIC →
  tee_alg_get_main_alg (shdr_algo (img_shdr nw)) = TEE_MAIN_ALGO_RSA →
  tee_alg_get_digest_size (TEE_DIGEST_HASH_TO_ALGO (shdr_algo (img_shdr nw))) = Ok (shdr_hash_size (img_shdr nw)) →
  sc_verify (shdr_algo (img_shdr nw)) (SHDR_GET_HASH (img_shdr nw)) (SHDR_GET_SIG (img_shdr nw)) = true →
  let ok := accepted param_types va nw nw_size D in
  wpp (install_ta fuel junk (img_shdr nw) nw nw_size)
    (λ _ v', ok ∧ tstands (S n) (installed nw nw_size (Some (img_data nw nw_size)) D) v')
    (λ x v', tstands (S n) D v' ∧ (faulty ∨ ¬ ok)
       ∨ ok ∧ er x ∧ (tstands (S n) (installed nw nw_size (Some (img_data nw nw_size)) D) v'
                      ∨ tstands (S n) (installed nw nw_size None D) v'))
    (tstops (S n) D) v.
Proof using Type*.
  intros Hv Hi Hf Hn Hst Hsame Hsz Hva Hty Hmg Halg Hdig Hsig ok. pose proof (img_offs_range nw nw_size Hi).
  unfold install_ta. rewrite Hsame. set (shdr := img_shdr nw) in *.
  assert (∀ x v', tstands n D v' ∧ (faulty ∨ ¬ ok) → tstands (S n) D v' ∧ (faulty ∨ ¬ ok)
       ∨ ok ∧ er x ∧ (tstands (S n) (installed nw nw_size (Some (img_data nw nw_size)) D) v'
                      ∨ tstands (S n) (installed nw nw_size None D) v')) as Herr.
  { intros x v' [? ?]. left. split; [by apply tstands_S|done]. }
  destruct (Z.eqb_spec (shdr_img_type shdr) SHDR_BOOTSTRAP_TA) as [Ht|Ht]; cbn [negb].
  2: { apply wpp_wp, wp_throw, Herr. split; [done|]. right. intros [_ _ _ _ [] _ _]. done. }
  rewrite wrap_small by (unfold in_range, sizeof_bootstrap_ta; lia). unfold sizeof_bootstrap_ta.
  destruct (Z.ltb_spec nw_size (20 + img_offs nw)) as [Hlt|Hge].
  { apply wpp_wp, wp_throw, Herr. split; [done|]. right. intros []. lia. }
  pose proof (digest_size_le _ _ Hdig). rewrite (proj2 (Z.ltb_ge _ _)) by (unfold buf_size; lia).
  assert (∀ x v', er x ∧ tstands n D v' → tstands n D v' ∧ (faulty ∨ ¬ ok)) as Hflt.
  { intros x v' [Hx ?]. split; [done|]. left. by exists x. }
  do 4 (apply wpp_bind; eapply wpp_call; [by apply (wp_text er (tstands n D))| |intros x v' Hx; by apply Herr, (Hflt x)];
    clear v Hv; intros [] v Hv).
  cbv zeta. change (Z.to_nat 20) with 20%nat. fold (img_bs nw).
  apply wpp_bind. eapply wpp_call; [by apply (wp_install_conflict n D (img_bs nw) v)| |].
  2: { intros x v' (Hs' & Hx). apply Herr. split; [done|]. destruct Hx as [?|[Hx|Hx]]; [by left|right..].
       - intros [_ _ _ _ _ _ Hver]. by apply Hx.
       - intros [_ _ _ _ _ Hu _]. by apply Hu. }
  clear v Hv. intros [] v (Hv & Hver).
  assert (img_key nw ≠ null_key → hash_ok nw nw_size → ok) as Hall.
  { intros Hu Hh. constructor; [done|done|done|lia| |done|done]. by constructor. }
  apply wpp_bind. eapply wpp_call; [by apply (wp_text er (tstands n D))| |intros x v' Hx; by apply Herr, (Hflt x)].
  clear v Hv. intros [] v Hv. rewrite (Z.add_comm _ 20), wrap_small by (destruct Hi; unfold in_range; lia).
  rewrite (Z.add_comm 20).
  eapply wpp_mono; [apply (wpp_install_body n D nw nw_size v); done || lia| | |done].
  - intros [] v' (Hu & Hh & Hv'). split; [by apply Hall|done].
  - intros x v' [[Hv' Hx]|([Hu Hh] & Hx & Hv')].
    + left. split; [done|]. destruct Hx as [?|[Hx|Hx]]; [by left|right..].
      * intros [_ _ _ _ _ Hu _]. done.
      * intros [_ _ _ _ [] _ _]. done.
    + destruct Hv' as [Hv'|Hv']; [|right; split; [by apply Hall|done]]. left. split; [done|]. left. by exists x.
Qed.

Lemma wpp_bootstrap n D param_types va nw nw_size v :
  tstands n D v → image_ok nw nw_size → (n < fuel)%nat → Z.of_nat (S n) < 2 ^ 24 →
  D !! img_key nw = None ∨ steady er →
  let ok := accepted param_types va nw nw_size D in
  wpp (bootstrap fuel junk param_types va nw nw_size)
    (λ _ v', ok ∧ tstands (S n) (installed nw nw_size (Some (img_data nw nw_size)) D) v')
    (λ x v', tstands (S n) D v' ∧ (faulty ∨ ¬ ok)
       ∨ ok ∧ er x ∧ (tstands (S n) (installed nw nw_size (Some (img_data nw nw_size)) D) v'
                      ∨ tstands (S n) (installed nw nw_size None D) v'))
    (tstops (S n) D) v.
Proof using Type*.
  intros Hv Hi Hf Hn Hst ok. unfold bootstrap.
  destruct (Z.eqb_spec param_types TEE_PARAM_TYPE_MEMREF_INPUT) as [Ht|Ht]; cbn [negb].
  2: { apply wpp_wp, wp_throw. left. split; [by apply tstands_S|]. right. by intros []. }
  apply wpp_bind. eapply wpp_call; [by apply (wp_shdr_copy (tstands n D) va nw nw_size v)| |done].
  clear v Hv. intros [s|] v (Hv & Hs).
  2: { apply wpp_wp, wp_throw. left. split; [by apply tstands_S|]. destruct Hs as [Hs|Hs]; [by left|right].
       intros [_ A1 A2 A3 _ _ _]. apply Hs. split_and!; [done|done|lia]. }
  destruct Hs as (-> & H1 & H2 & H3).
  apply wpp_bind. eapply wpp_call; [by apply (wp_shdr_verify (tstands n D) (img_shdr nw) v)| |].
  2: { intros x v' (Hv' & Hx). left. split; [by apply tstands_S|]. destruct Hx as [?|Hx]; [by left|right].
       intros [_ _ _ _ [] _ _]. apply Hx. by split_and!. }
  clear v Hv. intros [] v (Hv & S1 & S2 & S3 & S4). by apply wpp_install.
Qed.

(** ** Loading *)

Fixpoint read_parts (h : tee_tadb_ta_read) (lens : list Z) : T (list (list Z)) :=
  match lens with
  | [] => mret []
  | l :: lens => '(d, h) ← secstor_ta_read junk h l; ds ← read_parts h lens; mret (d :: ds)
  end.

(** The loader of a TA: it asks for the size, and reads parts. *)
Definition load (uuid : TEE_UUID) (lens : list Z) : T (Z * list (list Z)) :=
  h ← secstor_ta_open fuel junk uuid;
  res ← mtry (read_parts h lens);
  _ ← secstor_ta_close h;
  match res with inr ds => mret (secstor_ta_get_size h, ds) | inl e => mthrow e end.

Fixpoint parts (lens : list Z) (d : list Z) : list (list Z) :=
  match lens with [] => [] | l :: lens => take (Z.to_nat l) d :: parts lens (drop (Z.to_nat l) d) end.

Lemma lens_pos (lens : list Z) :
  Forall (λ l, 0 < l) lens → 0 <= foldr Z.add 0 lens ∧ (lens ≠ [] → 0 < foldr Z.add 0 lens).
Proof. induction 1 as [|y ys Hy Hys IH]; cbn; [done|]. split; [lia|]. intros _. lia. Qed.

Lemma wp_read_parts es D ta d lens : ∀ k v,
  (∃ db, tworks er db es D v) → (lens ≠ [] → reading er es D ta d k v) → Forall (λ l, 0 < l) lens →
  Z.of_nat k + foldr Z.add 0 lens <= Z.of_nat (length d) →
  wp (read_parts ta lens)
    (λ ds v', ds = parts lens (drop k d) ∧ ∃ db, tworks er db es D v') (λ x v', er x ∧ ∃ db, tworks er db es D v') v.
Proof using Type*.
  revert ta. induction lens as [|l lens IH]; intros ta k v Hw Hr Hl Hs; cbn [read_parts parts].
  { apply wp_ret. by split. }
  apply Forall_cons in Hl as [Hl0 Hl]. cbn in Hs. specialize (Hr ltac:(done)).
  destruct (lens_pos _ Hl) as [Hs0 Hs1].
  apply wp_bind. unfold secstor_ta_read. apply wp_bind.
  eapply wp_mono; [apply (wp_ta_read junk junk_ok er er_nf es D ta d k true l v Hr); lia| |done].
  replace (Nat.min (Z.to_nat l) (length d - k)) with (Z.to_nat l) by lia.
  intros [[out l'] ta'] v' (-> & Hout & He & Hw' & Hr'). rewrite Z2Nat.id, Z.eqb_refl by lia. apply wp_ret.
  apply wp_bind. eapply wp_mono; [apply (IH ta' (k + Z.to_nat l)%nat); [done| |done|lia]| |done].
  { intros Hne. apply Hr'. specialize (Hs1 Hne). lia. }
  intros ds v2 [-> Hv2]. apply wp_ret. rewrite Hout by done. by rewrite drop_drop.
Qed.

Lemma wp_load n D uuid lens v :
  tstands n D v → (n < fuel)%nat → Forall (λ l, 0 < l) lens →
  let u := uuid_bytes uuid in
  (∀ p d, D !! u = Some (p, Some d) → p_custom_size p + p_bin_size p < 2 ^ 32 ∧ foldr Z.add 0 lens <= p_bin_size p) →
  wp (load uuid lens)
    (λ r v', tstands n D v' ∧ ∃ p d, D !! u = Some (p, Some d)
       ∧ r = (p_bin_size p, parts lens (drop (Z.to_nat (p_custom_size p)) d)))
    (λ x v', tstands n D v'
       ∧ (er x ∨ x = TEE_ERROR_GENERIC ∧ u = null_key
          ∨ x = TEE_ERROR_ITEM_NOT_FOUND ∧ ∀ p d, D !! u ≠ Some (p, Some d))) v.
Proof using Type*.
  intros (es & He & Hv) Hf Hl u HD. pose proof (eo_len _ _ He). unfold load. apply wp_bind.
  unfold secstor_ta_open. apply wp_bind.
  eapply wp_mono; [apply (wp_ta_open fuel er er_nf n es D); [done|lia|done]| |].
  2: { intros x v' [Hs Hx]. split; [by exists es|done]. }
  clear v Hv. intros ta v (Hw & Hok & d & Hd & Hr). fold u in Hd. destruct (HD _ _ Hd) as [Hsz Hls].
  set (p := e_prop (r_entry ta)) in *. pose proof (en_custom _ Hok) as Hc. pose proof (en_bin _ Hok) as Hb.
  fold p in Hc, Hb. unfold in_range in Hc, Hb.
  assert (Z.of_nat (length d) = p_custom_size p + p_bin_size p) as Hlen.
  { destruct Hr as [_ _ _ (c & ps & ce & qs & _ & _ & _ & -> & _)]. unfold enc_size. fold p.
    by rewrite wrap_small by (unfold in_range; lia). }
  assert (∀ A h x v', er x ∧ (∃ db, tworks er db es D v') →
    wp (_ ← secstor_ta_close h; (mthrow x : T A))
      (λ _ _, False) (λ x v', tstands n D v' ∧ er x) v') as Hclose.
  { intros A h x v' [Hx [db Hw']]. apply wp_bind. unfold secstor_ta_close, tee_tadb_ta_close.
    eapply wp_tadb_put; [done|by apply tlost_works|]. intros v2 Hv2. apply wp_throw. split; [by exists es|done]. }
  destruct (lens_pos _ Hl) as [_ Hs1].
  unfold tee_tadb_ta_get_property. fold p. cbv zeta. apply wp_bind, wp_try.
  eapply (wp_mono _ (λ ta' v', e_prop (r_entry ta') = p ∧ (∃ db, tworks er db es D v')
    ∧ (lens ≠ [] → reading er es D ta' d (Z.to_nat (p_custom_size p)) v')) _ (λ x v', er x ∧ ∃ db, tworks er db es D v')).
  { apply wp_bind. eapply wp_mono; [apply (wp_ta_read junk junk_ok er er_nf es D ta d 0 false _ v Hr); lia| |done].
    replace (Nat.min (Z.to_nat (p_custom_size p)) (length d - 0)) with (Z.to_nat (p_custom_size p)) by lia.
    intros [[out l'] ta'] v' (-> & _ & Hee & Hw' & Hr'). rewrite Z2Nat.id, Z.eqb_refl by lia. apply wp_ret.
    split; [unfold p; by rewrite Hee|]. split; [done|]. intros Hne. apply Hr'. specialize (Hs1 Hne). lia. }
  2: { intros x v' Hx. eapply wp_mono; [by apply Hclose|done|]. intros y v2 [? ?]. split; [done|by left]. }
  clear v Hw Hr. intros ta' v (Hpe & Hw & Hr). apply wp_ret. apply wp_bind, wp_try.
  eapply wp_mono; [apply (wp_read_parts es D ta' d lens (Z.to_nat (p_custom_size p)) v); [done|done|done|lia]| |].
  - intros ds v' [-> [db Hw']]. apply wp_bind. unfold secstor_ta_close, tee_tadb_ta_close.
    eapply wp_tadb_put; [done|by apply tlost_works|]. intros v2 Hv2. apply wp_ret. split; [by exists es|].
    exists p, d. split; [done|]. unfold secstor_ta_get_size, tee_tadb_ta_get_property. by rewrite Hpe.
  - intros x v' Hx. eapply wp_mono; [by apply Hclose|done|]. intros y v2 [? ?]. split; [done|by left].
Qed.
End secstor.

(** Where nothing fails, no read does. *)
Lemma steady_none `{TadbFileLaws F} : steady (F := F) (λ _, False).
Proof.
  intros s l pos len e s' Hs Hp Hl Hb Er. pose proof (tf_read_law _ s l pos len Hs Hp Hl Hb) as Hw.
  unfold wp in Hw. rewrite Er in Hw. by destruct Hw.
Qed.

(** C5: the database of trusted applications is a map from UUIDs to the properties
    and the data of what was installed. Whichever calls outside of the code fail
    (with codes in [er]), bootstrap() installs the image when it succeeds, and it only
    does so when the image is accepted: the signature of the header is right, the
    signed hash covers the header, the UUID and version and the very data that is
    stored, also when the memory of the image changes between the reads, and no newer
    version is installed. An error leaves the old map, or after a call that failed the
    new one, or the new one without the data. tee_tadb_ta_delete() removes a TA, and the
    operations of the loader give back its size and any parts of its data; their errors are
    TEE_ERROR_ITEM_NOT_FOUND for a TA that is not there, TEE_ERROR_GENERIC for the null UUID,
    and codes of calls that failed. The core is stopped only by bootstrap(), with the old map, after a
    read that failed. *)
Theorem secstor_transactions {F : Type} `{TF : TadbFile F, !TadbFileLaws F} `{AE : Authenc, !AuthencLaws} `{ShdrCrypto}
    (fuel : nat) (junk : nat → list Z) (er : tee_result → Prop) (n : nat) (D : ta_map) (v : @tst F) :
  (∀ k, length (junk k) = k ∧ bytes_ok (junk k)) → ¬ er TEE_ERROR_ITEM_NOT_FOUND →
  tstands er n D v → (n < fuel)%nat → Z.of_nat (S n) < 2 ^ 24 →
  (∀ param_types va nw nw_size,
     image_ok nw nw_size → D !! img_key nw = None ∨ steady (F := F) er →
     let ok := accepted param_types va nw nw_size D in
     wpp (bootstrap fuel junk param_types va nw nw_size)
       (λ _ v', ok ∧ tstands er (S n) (installed nw nw_size (Some (img_data nw nw_size)) D) v')
       (λ x v', tstands er (S n) D v' ∧ (faulty er ∨ ¬ ok)
          ∨ ok ∧ er x ∧ (tstands er (S n) (installed nw nw_size (Some (img_data nw nw_size)) D) v'
                         ∨ tstands er (S n) (installed nw nw_size None D) v'))
       (tstops er (S n) D) v)
  ∧ (∀ uuid, let u := uuid_bytes uuid in
     wp (tee_tadb_ta_delete fuel uuid)
       (λ _ v', is_Some (D !! u) ∧ tstands er n (delete u D) v')
       (λ x v', x = TEE_ERROR_GENERIC ∧ u = null_key ∧ tstands er n D v'
                ∨ x = TEE_ERROR_ITEM_NOT_FOUND ∧ D !! u = None ∧ tstands er n D v'
                ∨ er x ∧ (tstands er n D v' ∨ tstands er n (delete u D) v')) v)
  ∧ (∀ uuid lens, let u := uuid_bytes uuid in
     Forall (λ l, 0 < l) lens →
     (∀ p d, D !! u = Some (p, Some d) → p_custom_size p + p_bin_size p < 2 ^ 32 ∧ foldr Z.add 0 lens <= p_bin_size p) →
     wp (load fuel junk uuid lens)
       (λ r v', tstands er n D v' ∧ ∃ p d, D !! u = Some (p, Some d)
          ∧ r = (p_bin_size p, parts lens (drop (Z.to_nat (p_custom_size p)) d)))
       (λ x v', tstands er n D v'
          ∧ (er x ∨ x = TEE_ERROR_GENERIC ∧ u = null_key
             ∨ x = TEE_ERROR_ITEM_NOT_FOUND ∧ ∀ p d, D !! u ≠ Some (p, Some d))) v).
Proof.
  intros Hj Hnf Hv Hf Hn. split_and!.
  - intros. by apply wpp_bootstrap.
  - intros uuid u. destruct Hv as (es & He & Hv). pose proof (eo_len _ _ He). apply (wp_ta_delete fuel er Hnf n es); done || lia.
  - intros. by apply wp_load.
Qed.

(** An image of a TA of 5 bytes, signed with the toy. *)
Definition toy_bs (version : Z) : list Z := seqZ 1 16 ++ le_bytes 4 version.
Definition toy_shdr (version : Z) (data : list Z) : list Z :=
  let head := le_bytes 4 SHDR_MAGIC ++ le_bytes 4 1 ++ le_bytes 4 (Z.of_nat (length data))
    ++ le_bytes 4 0x70414930 ++ le_bytes 2 32 ++ le_bytes 2 32 in
  let hash := (foldr Z.add 0 (head ++ toy_bs version ++ data) mod 256) :: replicate 31 0 in
  head ++ hash ++ hash.
Definition toy_image (version : Z) (data : list Z) : list Z := toy_shdr version data ++ toy_bs version ++ data.
Definition toy_start : @tst memf := Tst (Memf None false []) None 0 ∅ ∅ 0 0 [].

Lemma toy_start_stands er : tstands er 0 ∅ toy_start.
Proof.
  exists []. split; [apply entries_ok_nil|]. constructor; [done|done| |].
  - exists None. split; [by split_and!; [| |constructor]|by right].
  - constructor; [by constructor|constructor|constructor].
    + intros e He. by apply elem_of_nil in He.
    + intros u [x Hx]. by rewrite lookup_empty in Hx.
Qed.

Definition toy_nw (t : nat) : list Z := toy_image 3 [10; 20; 30; 40; 50].
Definition toy_uuid : TEE_UUID := Eval vm_compute in bs_uuid (toy_bs 3).
Definition toy_map : ta_map := {[uuid_bytes toy_uuid := (MkProp toy_uuid 3 0 5, Some [10; 20; 30; 40; 50])]}.

Lemma toy_image_ok : image_ok toy_nw 109.
Proof.
  split; [done|]. intros t. unfold toy_nw. clear t. split; [done|]. unfold bytes_ok. apply (bool_decide_unpack _). vm_compute. exact I.
Qed.

(** The states after the image is installed, and after that is removed again. *)
Definition toy_installed : @tst memf := Eval vm_compute in snd (bootstrap 5 no_junk 5 4096 toy_nw 109 toy_start).
Definition toy_deleted : @tst memf := Eval vm_compute in snd (tee_tadb_ta_delete 5 toy_uuid toy_installed).

Lemma toy_bootstrap : bootstrap 5 no_junk 5 4096 toy_nw 109 toy_start = (Ok tt, toy_installed).
Proof. vm_compute. reflexivity. Qed.
Lemma toy_load :
  load 5 no_junk toy_uuid [2; 3] toy_installed = (Ok (5, [[10; 20]; [30; 40; 50]]), toy_installed).
Proof. vm_compute. reflexivity. Qed.
Lemma toy_delete : tee_tadb_ta_delete 5 toy_uuid toy_installed = (Ok tt, toy_deleted).
Proof. vm_compute. reflexivity. Qed.
Lemma toy_map_eq : installed toy_nw 109 (Some (img_data toy_nw 109)) ∅ = toy_map.
Proof. vm_compute. reflexivity. Qed.

Lemma wpp_run {S E A} (m : M S E A) Q R P s a s' : m s = (Ok a, s') → wpp m Q R P s → Q a s'.
Proof. unfold wpp. by intros ->. Qed.

(** The image is installed, loaded in two parts, and removed. *)
Lemma secstor_transactions_witness :
  let er x := x = TEE_ERROR_OUT_OF_MEMORY in
  tstands er 1 toy_map toy_installed
  ∧ load 5 no_junk toy_uuid [2; 3] toy_installed = (Ok (5, [[10; 20]; [30; 40; 50]]), toy_installed)
  ∧ (∃ p d, toy_map !! uuid_bytes toy_uuid = Some (p, Some d)
       ∧ (5, [[10; 20]; [30; 40; 50]]) = (p_bin_size p, parts [2; 3] (drop (Z.to_nat (p_custom_size p)) d)))
  ∧ tstands er 1 (delete (uuid_bytes toy_uuid) toy_map) toy_deleted.
Proof.
  intros er.
  destruct (secstor_transactions 5 no_junk er 0 ∅ toy_start no_junk_ok) as (Hb & _ & _);
    [done|apply toy_start_stands|lia|done|].
  specialize (Hb 5 4096 toy_nw 109 toy_image_ok (or_introl (lookup_empty _))). cbv zeta in Hb.
  apply (wpp_run _ _ _ _ _ _ _ toy_bootstrap) in Hb as [_ Hv]. rewrite toy_map_eq in Hv.
  destruct (secstor_transactions 5 no_junk er 1 toy_map toy_installed no_junk_ok) as (_ & Hd & Hl); [done|done|lia|done|].
  specialize (Hl toy_uuid [2; 3]). specialize (Hd toy_uuid). cbv zeta in Hl, Hd.
  apply (wpp_wp _ _ _ (λ _, True)), (wpp_run _ _ _ _ _ _ _ toy_delete) in Hd as [_ Hd].
  split; [done|]. split; [exact toy_load|]. split; [|exact Hd].
  apply (λ H1 H2, wpp_run _ _ _ _ _ _ _ toy_load (wpp_wp _ _ _ (λ _, True) _ (Hl H1 H2))).
  - by repeat constructor.
  - intros p d Hp. unfold toy_map in Hp. rewrite lookup_singleton_eq in Hp. injection Hp as <- _.
    split; vm_compute; congruence.
Defined.
