(* ===== verification/TadbFailures.v ===== *)
(** * The database of trusted applications: runs that lose or mix up a TA *)
From S2P Require Import Prelude Uuid ByteFile Bitstring Dirfile Tadb SecstorTa TadbProofs TadbSteps TadbOps TadbToy SecstorProofs.

Local Open Scope Z_scope.

Abbreviation tstate := (@tst memf).

(** The calls on "ta.db" fail as [f] says. *)
Definition with_faults (f : list (option (bool * tee_result))) (v : tstate) : tstate :=
  set_t_file v (Memf (mf_content (t_file v)) (mf_dead (t_file v)) f).
(** Normal world removes the file of a number. *)
Definition remove_file (k : Z) (v : tstate) : tstate := set_t_names v (delete k (t_names v)).

Definition install (version : Z) (data : list Z) : tstate → outcome tee_result unit * tstate :=
  bootstrap 5 no_junk 5 4096 (λ _, toy_image version data) (104 + Z.of_nat (length data)).
Definition load_all (uuid : TEE_UUID) (v : tstate) : outcome tee_result (Z * list (list Z)) :=
  fst (load 5 no_junk uuid [5] v).
Definition other_prop (k : Z) : tee_tadb_property := MkProp (MkUuid k 0 0 (replicate 8 0)) 1 0 5.

(** Version 3 of a TA is installed. *)
Definition version3 : tstate := toy_installed.

(** Its update to version 4, with a read that fails but leaves the file open. *)
Definition update_transient : outcome tee_result unit * tstate := Eval vm_compute in
  install 4 [1; 2; 3; 4; 5] (with_faults [None; None; None; None; None; Some (false, TEE_ERROR_OUT_OF_MEMORY)] version3).
(** The update with a write of the entry that takes effect and is reported as failed. *)
Definition update_failed : outcome tee_result unit * tstate := Eval vm_compute in
  install 4 [1; 2; 3; 4; 5] (with_faults [None; None; None; None; None; None; Some (true, TEE_ERROR_STORAGE_NO_SPACE)] version3).
(** The update to version 2 when normal world has removed the file. *)
Definition downgrade : outcome tee_result unit * tstate := Eval vm_compute in
  install 2 [9; 9; 9; 9; 9] (remove_file 0 version3).

(** While a second TA is being installed, the removal of the first fails, and a
    third TA is begun to be installed. *)
Definition overlapping : M tstate tee_result (tee_result + unit) :=
  _ ← tee_tadb_ta_create 5 no_junk (other_prop 1);
  v ← mget;
  _ ← mput (with_faults [None; Some (false, TEE_ERROR_STORAGE_NO_SPACE)] v);
  res ← mtry (tee_tadb_ta_delete 5 toy_uuid);
  _ ← tee_tadb_ta_create 5 no_junk (other_prop 2);
  mret res.

(** Runs of the code that break the promise of the database. (1) An update is reported
    as a success, but a failed allocation in the search for the old entry makes a second
    entry: the old version is loaded. (2) An update fails, and the TA is gone: the write
    of its entry took effect, the new file is removed, the old one is not referred
    to; then an older version than the one that was installed is accepted. (3) When
    normal world removes the file of a TA, the check of the version is passed over
    and an older version is installed. (4) A removal that fails gives the number of
    the TA free: the next installation overwrites its file, and the TA, which is
    still installed, can no longer be loaded. *)
Lemma tadb_failures :
  load_all toy_uuid version3 = Ok (5, [[10; 20; 30; 40; 50]])
  ∧ (fst update_transient = Ok tt ∧ load_all toy_uuid (snd update_transient) = Ok (5, [[10; 20; 30; 40; 50]]))
  ∧ (fst update_failed = Err TEE_ERROR_STORAGE_NO_SPACE
     ∧ load_all toy_uuid (snd update_failed) = Err TEE_ERROR_ITEM_NOT_FOUND
     ∧ fst (install 2 [9; 9; 9; 9; 9] (snd update_failed)) = Ok tt)
  ∧ (fst (install 2 [9; 9; 9; 9; 9] version3) = Err TEE_ERROR_ACCESS_CONFLICT
     ∧ fst downgrade = Ok tt ∧ load_all toy_uuid (snd downgrade) = Ok (5, [[9; 9; 9; 9; 9]]))
  ∧ (fst (overlapping version3) = Ok (inl TEE_ERROR_STORAGE_NO_SPACE)
     ∧ load_all toy_uuid (snd (overlapping version3)) = Err TEE_ERROR_MAC_INVALID).
Proof. vm_compute. by split_and!. Qed.
