(* ===== verification/TaSession.v ===== *)
(** * core/kernel/tee_ta_manager.c: sessions and contexts of trusted applications

    A session is used by reference: tee_ta_get_session() takes one, exclusively for
    an invocation, tee_ta_put_session() gives it back, and the thread that closes
    the session waits until the others are gone. What a function does between
    mutex_lock() and mutex_unlock() of [tee_ta_mutex], or up to a condvar_wait(), is
    one step, and so is a read outside of it; the threads that serve requests of the
    normal world take their steps in any order. A thread in condvar_wait() sleeps
    until condvar_signal() or condvar_broadcast() takes it off the queue of the
    condition variable; the order in which the threads woken get the mutex is free.
    Only sessions of the normal world are modelled, and the entry into the TA itself
    ([busy], [initializing], the lock of the single instance TAs) is not: a thread
    that enters a TA comes back at some time. *)
From S2P Require Import Prelude Uuid.

Local Open Scope Z_scope.

Definition TEE_TIMEOUT_INFINITE : Z := 0xFFFFFFFF.
Definition TEE_LOGIN_TRUSTED_APP : Z := 0xF0000000.
Definition TA_FLAG_SINGLE_INSTANCE : Z := 2.     (* bit number *)
Definition TA_FLAG_MULTI_SESSION : Z := 3.
Definition TA_FLAG_INSTANCE_KEEP_ALIVE : Z := 4.

Record TEE_Time := Time { seconds : Z; millis : Z }.
Record TEE_Identity := Identity { login : Z; id_uuid : list Z }.

(** The identity a caller passes: KERN_IDENTITY, NSAPP_IDENTITY or one. *)
Inductive identity_arg := KERN_IDENTITY | NSAPP_IDENTITY | AN_IDENTITY (id : TEE_Identity).

#[global] Instance TEE_Identity_eq_dec : EqDecision TEE_Identity.
Proof. solve_decision. Defined.

(** [ctx] and [lock_thread]: [None] is NULL and THREAD_ID_INVALID. [lock_cv] and
    [refc_cv]: the threads that sleep there, the first to be woken first. *)
Record tee_ta_session := Session {
  id : Z;
  ctx : option nat;
  clnt_id : TEE_Identity;
  cancel : bool;
  cancel_mask : bool;
  cancel_time : TEE_Time;
  ref_count : Z;
  lock_thread : option nat;
  unlink : bool;
  lock_cv : list nat;
  refc_cv : list nat;
}.

Record tee_ta_ctx := Ctx { c_uuid : list Z; flags : Z; panicked : bool; c_ref_count : Z }.

(** The memory and the two lists; pointers are numbers. *)
Record tas := Tas {
  sessions : gmap nat tee_ta_session;
  open_sessions : list nat;
  ctxs : gmap nat tee_ta_ctx;
  tee_ctxes : list nat;
}.

(** An access to memory that has been freed, or through NULL. *)
Inductive bad := UseAfterFree | NullPointer.

Abbreviation T := (M tas bad).

Definition set_ref (s : tee_ta_session) (r : Z) : tee_ta_session :=
  Session (id s) (ctx s) (clnt_id s) (cancel s) (cancel_mask s) (cancel_time s) r (lock_thread s) (unlink s)
    (lock_cv s) (refc_cv s).
Definition set_lock (s : tee_ta_session) (l : option nat) : tee_ta_session :=
  Session (id s) (ctx s) (clnt_id s) (cancel s) (cancel_mask s) (cancel_time s) (ref_count s) l (unlink s)
    (lock_cv s) (refc_cv s).
Definition set_unlink (s : tee_ta_session) : tee_ta_session :=
  Session (id s) (ctx s) (clnt_id s) (cancel s) (cancel_mask s) (cancel_time s) (ref_count s) (lock_thread s) true
    (lock_cv s) (refc_cv s).
Definition set_ctx (s : tee_ta_session) (c : option nat) : tee_ta_session :=
  Session (id s) c (clnt_id s) (cancel s) (cancel_mask s) (cancel_time s) (ref_count s) (lock_thread s) (unlink s)
    (lock_cv s) (refc_cv s).
Definition set_cancel (s : tee_ta_session) : tee_ta_session :=
  Session (id s) (ctx s) (clnt_id s) true (cancel_mask s) (cancel_time s) (ref_count s) (lock_thread s) (unlink s)
    (lock_cv s) (refc_cv s).
Definition set_client (s : tee_ta_session) (i : TEE_Identity) : tee_ta_session :=
  Session (id s) (ctx s) i (cancel s) (cancel_mask s) (cancel_time s) (ref_count s) (lock_thread s) (unlink s)
    (lock_cv s) (refc_cv s).
Definition set_lock_cv (s : tee_ta_session) (q : list nat) : tee_ta_session :=
  Session (id s) (ctx s) (clnt_id s) (cancel s) (cancel_mask s) (cancel_time s) (ref_count s) (lock_thread s) (unlink s)
    q (refc_cv s).
Definition set_refc_cv (s : tee_ta_session) (q : list nat) : tee_ta_session :=
  Session (id s) (ctx s) (clnt_id s) (cancel s) (cancel_mask s) (cancel_time s) (ref_count s) (lock_thread s) (unlink s)
    (lock_cv s) q.
Definition set_cref (c : tee_ta_ctx) (r : Z) : tee_ta_ctx := Ctx (c_uuid c) (flags c) (panicked c) r.

Definition with_sessions (st : tas) (f : gmap nat tee_ta_session → gmap nat tee_ta_session) : tas :=
  Tas (f (sessions st)) (open_sessions st) (ctxs st) (tee_ctxes st).
Definition with_ctxs (st : tas) (f : gmap nat tee_ta_ctx → gmap nat tee_ta_ctx) : tas :=
  Tas (sessions st) (open_sessions st) (f (ctxs st)) (tee_ctxes st).

Definition read (p : nat) : T tee_ta_session :=
  st ← mget; match sessions st !! p with Some s => mret s | None => mthrow UseAfterFree end.
Definition store (p : nat) (s : tee_ta_session) : T unit :=
  st ← mget; mput (with_sessions st <[p := s]>).
Definition read_ctx (c : nat) : T tee_ta_ctx :=
  st ← mget; match ctxs st !! c with Some x => mret x | None => mthrow UseAfterFree end.
Definition store_ctx (c : nat) (x : tee_ta_ctx) : T unit :=
  st ← mget; mput (with_ctxs st <[c := x]>).

(** ** Finding and referencing a session *)

(** condvar_signal() wakes the first thread of the queue. *)
Definition dec_session_ref_count (p : nat) : T unit :=
  s ← read p;
  _ ← massert (0 <? ref_count s);
  let s := set_ref s (ref_count s - 1) in
  store p (if ref_count s =? 1 then set_refc_cv s (tail (refc_cv s)) else s).

Definition tee_ta_put_session (tid p : nat) : T unit :=
  s ← read p;
  _ ← (if bool_decide (lock_thread s = Some tid)
       then store p (set_lock_cv (set_lock s None) (tail (lock_cv s))) else mret tt);
  dec_session_ref_count p.

Fixpoint find_loop (l : list nat) (i : Z) : T (option nat) :=
  match l with
  | [] => mret None
  | p :: l => s ← read p; if id s =? i then mret (Some p) else find_loop l i
  end.

Definition tee_ta_find_session_nolock (i : Z) : T (option nat) :=
  st ← mget; find_loop (open_sessions st) i.

(** What tee_ta_get_session() comes to: NULL, the session, or a condvar_wait() on
    its [lock_cv]. *)
Inductive got := GotNull | Got (p : nat) | MustWait (p : nat).

(** The loop around that condvar_wait(), from its test on. *)
Definition wait_lock (tid p : nat) : T got :=
  s ← read p;
  if bool_decide (lock_thread s ≠ None) && negb (unlink s) then _ ← store p (set_lock_cv s (lock_cv s ++ [tid])); mret (MustWait p)
  else if unlink s then _ ← dec_session_ref_count p; mret GotNull
  else _ ← store p (set_lock s (Some tid)); mret (Got p).

Definition tee_ta_get_session (tid : nat) (i : Z) (exclusive : bool) : T got :=
  r ← tee_ta_find_session_nolock i;
  match r with
  | None => mret GotNull
  | Some p =>
    s ← read p;
    if unlink s then mret GotNull
    else
      _ ← store p (set_ref s (wrap 32 (ref_count s + 1)));
      if negb exclusive then mret (Got p)
      else
        _ ← massert (bool_decide (lock_thread s ≠ Some tid));
        wait_lock tid p
  end.

(** ** Closing *)

(** The loop of tee_ta_unlink_session() around its condvar_wait(), from the test
    on, and the free() of destroy_session(); [false] when it has to wait. *)
Definition wait_unlink (tid p : nat) : T bool :=
  s ← read p;
  if negb (ref_count s =? 1) then _ ← store p (set_refc_cv s (refc_cv s ++ [tid])); mret false
  else
    st ← mget;
    _ ← mput (Tas (delete p (sessions st)) (filter (λ q, q ≠ p) (open_sessions st)) (ctxs st) (tee_ctxes st));
    mret true.

Definition tee_ta_unlink_session (tid p : nat) : T bool :=
  s ← read p;
  _ ← massert (1 <=? ref_count s);
  _ ← massert (bool_decide (lock_thread s = Some tid));
  _ ← massert (negb (unlink s));
  _ ← store p (set_lock_cv (set_unlink s) []);   (* condvar_broadcast() *)
  wait_unlink tid p.

Definition destroy_context (c : nat) : T unit :=
  st ← mget; mput (with_ctxs st (delete c)).

(** The end of tee_ta_close_session(). *)
Definition put_ctx (c : nat) : T unit :=
  x ← read_ctx c;
  _ ← massert (negb (c_ref_count x <=? 0));   (* panic() *)
  let r := c_ref_count x - 1 in
  let keep_alive := Z.testbit (flags x) TA_FLAG_INSTANCE_KEEP_ALIVE
                    && Z.testbit (flags x) TA_FLAG_SINGLE_INSTANCE in
  _ ← store_ctx c (set_cref x r);
  if (r =? 0) && negb keep_alive then
    st ← mget;
    _ ← mput (Tas (sessions st) (open_sessions st) (ctxs st) (filter (λ q, q ≠ c) (tee_ctxes st)));
    destroy_context c
  else mret tt.

(** The first loop of destroy_ta_ctx_from_session(): the sessions that lose their
    context are counted. *)
Fixpoint drop_ctx (l : list nat) (p c : nat) (count : Z) : T Z :=
  match l with
  | [] => mret count
  | q :: l =>
    s ← read q;
    if bool_decide (ctx s = Some c) && bool_decide (q ≠ p)
    then _ ← store q (set_ctx s None); drop_ctx l p c (count + 1)
    else drop_ctx l p c count
  end.

Definition destroy_ta_ctx_from_session (p : nat) : T unit :=
  s ← read p;
  match ctx s with
  | None => mthrow NullPointer
  | Some c =>
    st ← mget;
    count ← drop_ctx (open_sessions st) p c 1;
    x ← read_ctx c;
    _ ← massert (count =? c_ref_count x);
    st ← mget;
    _ ← mput (Tas (sessions st) (open_sessions st) (ctxs st) (filter (λ q, q ≠ c) (tee_ctxes st)));
    _ ← destroy_context c;
    s ← read p;
    store p (set_ctx s None)
  end.

(** ** Opening *)

Fixpoint context_find_loop (l : list nat) (uuid : list Z) : T (option nat) :=
  match l with
  | [] => mret None
  | c :: l => x ← read_ctx c; if bool_decide (c_uuid x = uuid) then mret (Some c) else context_find_loop l uuid
  end.

Definition tee_ta_context_find (uuid : list Z) : T (option nat) :=
  st ← mget; context_find_loop (tee_ctxes st) uuid.

Definition tee_ta_init_session_with_context (c p : nat) : T tee_result :=
  x ← read_ctx c;
  if negb (Z.testbit (flags x) TA_FLAG_SINGLE_INSTANCE) then mret TEE_ERROR_ITEM_NOT_FOUND
  else if negb (Z.testbit (flags x) TA_FLAG_MULTI_SESSION) && negb (c_ref_count x =? 0)
  then mret TEE_ERROR_BUSY
  else
    _ ← store_ctx c (set_cref x (wrap 32 (c_ref_count x + 1)));
    s ← read p;
    _ ← store p (set_ctx s (Some c));
    mret TEE_SUCCESS.

(** Ids from [i] on, [k] of them at most, until [saved] comes again. *)
Fixpoint new_id_loop (i saved : Z) (k : nat) : T Z :=
  match k with
  | O => mpanic
  | S k =>
    r ← tee_ta_find_session_nolock i;
    match r with
    | None => mret i
    | Some _ =>
      let i := wrap 32 (i + 1) in
      let i := if i =? 0 then 1 else i in
      if i =? saved then mret 0 else new_id_loop i saved k
    end
  end.

(** As many ids as there are sessions, and one more, are enough to look at. *)
Definition new_session_id : T Z :=
  st ← mget;
  i ← match last (open_sessions st) with
      | None => mret 1
      | Some p => s ← read p; let i := wrap 32 (id s + 1) in mret (if i =? 0 then 1 else i)
      end;
  new_id_loop i i (S (length (open_sessions st))).

(** What tee_ta_init_pseudo_ta_session() and tee_ta_init_user_ta_session() come to:
    an error, or a new context at [c]. *)
Inductive loaded := NotLoaded (e : tee_result) | Loaded (c : nat) (x : tee_ta_ctx).

(** [p] is what calloc() returned. *)
Definition tee_ta_init_session (p : nat) (uuid : list Z) (load : loaded) : T tee_result :=
  st ← mget;
  i ← new_session_id;
  if i =? 0 then mthrow NullPointer   (* TAILQ_REMOVE() of what was never inserted *)
  else
    _ ← store p (Session i None (Identity 0 []) false true (Time 0 0) 1 None false [] []);
    st ← mget;
    _ ← mput (Tas (sessions st) (open_sessions st ++ [p]) (ctxs st) (tee_ctxes st));
    c ← tee_ta_context_find uuid;
    res ← match c with
          | Some c => tee_ta_init_session_with_context c p
          | None => mret TEE_ERROR_ITEM_NOT_FOUND
          end;
    res ← (if bool_decide (res = TEE_ERROR_ITEM_NOT_FOUND) then
             match load with
             | NotLoaded e => mret e
             | Loaded c x =>
               s ← read p;
               _ ← store p (set_ctx s (Some c));
               st ← mget;
               _ ← mput (Tas (sessions st) (open_sessions st) (<[c := x]> (ctxs st)) (tee_ctxes st ++ [c]));
               mret TEE_SUCCESS
             end
           else mret res);
    if bool_decide (res = TEE_SUCCESS) then mret TEE_SUCCESS
    else
      st ← mget;
      _ ← mput (Tas (delete p (sessions st)) (filter (λ q, q ≠ p) (open_sessions st)) (ctxs st) (tee_ctxes st));
      mret res.

(** check_client() *)
Definition check_client (s : tee_ta_session) (who : identity_arg) : bool :=
  match who with
  | KERN_IDENTITY => true
  | NSAPP_IDENTITY => negb (login (clnt_id s) =? TEE_LOGIN_TRUSTED_APP)
  | AN_IDENTITY i => bool_decide (clnt_id s = i)
  end.

(** The start of tee_ta_close_session() once it has the session: the context, or
    nothing when the client is refused. *)
Definition close_check (tid p : nat) (who : identity_arg) : T (option (option nat)) :=
  s ← read p;
  if check_client s who then mret (Some (ctx s))
  else _ ← tee_ta_put_session tid p; mret None.

(** The start of tee_ta_invoke_command(). *)
Inductive invoke := Refused | Dead | Destroy | Enter.

Definition invoke_check (p : nat) (who : identity_arg) : T invoke :=
  s ← read p;
  if negb (check_client s who) then mret Refused
  else match ctx s with
       | None => mret Dead
       | Some c => x ← read_ctx c; mret (if panicked x then Destroy else Enter)
       end.

(** [sess->ctx->panicked] at the end of it. *)
Definition ctx_panicked (p : nat) : T bool :=
  s ← read p;
  match ctx s with
  | None => mthrow NullPointer
  | Some c => x ← read_ctx c; mret (panicked x)
  end.

(** [!ctx || ctx->panicked] in tee_ta_open_session(), which then stores the client
    and goes on with the context. *)
Definition open_check (p : nat) (who : TEE_Identity) : T (option nat) :=
  s ← read p;
  match ctx s with
  | None => mret None
  | Some c =>
    x ← read_ctx c;
    if panicked x then mret None else _ ← store p (set_client s who); mret (Some c)
  end.

(** The end of tee_ta_open_session(): whether the TA has panicked. *)
Definition open_end (tid p c : nat) : T bool :=
  x ← read_ctx c;
  _ ← tee_ta_put_session tid p;
  mret (panicked x).

Definition tee_ta_cancel_command (p : nat) (who : identity_arg) : T unit :=
  s ← read p;
  if check_client s who then store p (set_cancel s) else mret tt.

(** ** Time limits *)

Definition infinite : TEE_Time := Time (2 ^ 32 - 1) (2 ^ 32 - 1).

(** The [cancel_time] it sets; [now] is what tee_time_get_sys_time() says. *)
Definition set_invoke_timeout (now : option TEE_Time) (cancel_req_to : Z) : TEE_Time :=
  if cancel_req_to =? TEE_TIMEOUT_INFINITE then infinite
  else match now with
  | None => infinite
  | Some current_time =>
    match add_overflow 32 (seconds current_time) (cancel_req_to / 1000) with
    | None => infinite
    | Some sec =>
      let ms := wrap 32 (millis current_time + cancel_req_to mod 1000) in
      if 1000 <? ms then
        match add_overflow 32 (seconds current_time) 1 with
        | None => infinite
        | Some sec => Time (wrap 32 (sec + 1)) (ms - 1000)
        end
      else Time sec ms
    end
  end.

Definition tee_ta_session_is_cancelled (s : tee_ta_session) (now : option TEE_Time) : bool :=
  if cancel_mask s then false
  else if cancel s then true
  else if seconds (cancel_time s) =? 2 ^ 32 - 1 then false
  else match now with
       | None => false
       | Some t =>
         (seconds (cancel_time s) <? seconds t)
         || (seconds t =? seconds (cancel_time s)) && (millis (cancel_time s) <=? millis t)
       end.

(** ** The threads

    Who called tee_ta_close_session(), and what is left to do when it returns. *)
Inductive closer :=
| ByRequest        (* entry_close_session(), or tee_ta_open_session() without success *)
| HoldsReference   (* tee_ta_open_session(): the reference of tee_ta_init_session() is still held *)
| ThenReads.       (* tee_ta_open_session(), which then returns TEE_SUCCESS and the pointer *)

(** Where a thread is in a request. *)
Inductive tpc :=
| TIdle
| TOpened (p : nat)                    (* tee_ta_init_session() has returned *)
| TEntered (p c : nat)                 (* the TA's open session entry point runs *)
| TReturned (p : nat)                  (* entry_open_session() goes on to read the id *)
| TClose (p : nat) (k : closer)        (* tee_ta_close_session(p) *)
| TLookup (n : Z) (p : nat) (k : closer) (* has read the id [n] of the session *)
| TWait (p : nat) (k : option closer)  (* condvar_wait() on [lock_cv]; for a close or an invocation *)
| TCheck (p : nat) (k : closer)        (* has the session that it will close *)
| TUnlinkStart (p : nat) (k : closer) (c : option nat)   (* the TA's close session entry point runs *)
| TUnlink (p : nat) (k : closer) (c : option nat)  (* condvar_wait() on [refc_cv] *)
| TPutCtx (c : nat) (r : option nat)   (* the end of tee_ta_close_session(), and TReturned *)
| TLost (p : nat)                      (* has returned without giving back its reference *)
| TShared (p : nat)                    (* entry_cancel() *)
| TGot (p : nat)                       (* entry_invoke_command() *)
| TInside (p : nat)                    (* in the TA *)
| TDestroy (p : nat)                   (* destroy_ta_ctx_from_session() *)
| TDone (p : nat) (excl : bool).       (* tee_ta_put_session() *)

Definition returned (r : option nat) : tpc := match r with Some p => TReturned p | None => TIdle end.
Definition reads_next (p : nat) (k : closer) : option nat := match k with ThenReads => Some p | _ => None end.
(** After the session [p] is gone, and when it is not found. *)
Definition after (p : nat) (k : closer) (c : option nat) : tpc :=
  match c with Some c => TPutCtx c (reads_next p k) | None => returned (reads_next p k) end.
Definition lost (p : nat) (k : closer) : tpc :=
  match k with HoldsReference => TLost p | _ => returned (reads_next p k) end.
(** After the TA's open session entry point. *)
Definition entered (p : nat) (ok dead : bool) : tpc :=
  if dead || negb ok then TClose p (if ok then ThenReads else ByRequest) else TReturned p.

(** What thread [i] may do next at [st], and where it is then. The normal world
    chooses the requests, the ids and the clients; a TA returns what it wants. *)
Inductive section (i : nat) (st : tas) : tpc → T tpc → Prop :=
| sec_open p uuid load :
    sessions st !! p = None → load ≠ NotLoaded TEE_SUCCESS →
    Z.of_nat (length (open_sessions st)) < 2 ^ 31 →   (* the heap is smaller *)
    (∀ c x, load = Loaded c x → ctxs st !! c = None ∧ c_ref_count x = 1 ∧ panicked x = false) →
    section i st TIdle
      (r ← tee_ta_init_session p uuid load;
       mret (if bool_decide (r = TEE_SUCCESS) then TOpened p else TIdle))
| sec_opened p who :
    section i st (TOpened p)
      (r ← open_check p who; mret (match r with Some c => TEntered p c | None => TClose p HoldsReference end))
| sec_entered p c (ok : bool) :   (* what the TA returns *)
    section i st (TEntered p c) (dead ← open_end i p c; mret (entered p ok dead))
| sec_returned p : section i st (TReturned p) (_ ← read p; mret TIdle)   (* arg->session = s->id *)
| sec_find n :
    section i st TIdle
      (r ← tee_ta_find_session_nolock n; mret (match r with Some p => TClose p ByRequest | None => TIdle end))
| sec_close p k : section i st (TClose p k) (s ← read p; mret (TLookup (id s) p k))
| sec_lookup n p k :
    section i st (TLookup n p k)
      (r ← tee_ta_get_session i n true;
       mret (match r with
             | GotNull => lost p k | Got q => TCheck q k | MustWait q => TWait q (Some k) end))
| sec_wait p k :
    (∀ s, sessions st !! p = Some s → i ∉ lock_cv s) →   (* awake *)
    section i st (TWait p k)
      (r ← wait_lock i p;
       mret (match r, k with
             | GotNull, Some k => lost p k
             | GotNull, None => TIdle
             | MustWait q, k => TWait q k
             | Got q, None => TGot q
             | Got q, Some k => TCheck q k end))
| sec_check p k who :
    section i st (TCheck p k)
      (r ← close_check i p who; mret (match r with Some c => TUnlinkStart p k c | None => lost p k end))
| sec_unlink p k c :
    section i st (TUnlinkStart p k c)
      (done ← tee_ta_unlink_session i p; mret (if done : bool then after p k c else TUnlink p k c))
| sec_unlink_wait p k c :
    (∀ s, sessions st !! p = Some s → i ∉ refc_cv s) →   (* awake *)
    section i st (TUnlink p k c)
      (done ← wait_unlink i p; mret (if done : bool then after p k c else TUnlink p k c))
| sec_put_ctx c r : section i st (TPutCtx c r) (_ ← put_ctx c; mret (returned r))
| sec_get n :
    section i st TIdle
      (r ← tee_ta_get_session i n true;
       mret (match r with GotNull => TIdle | Got q => TGot q | MustWait q => TWait q None end))
| sec_get_shared n :
    section i st TIdle
      (r ← tee_ta_get_session i n false;
       mret (match r with Got q => TShared q | _ => TIdle end))
| sec_cancel p who :
    section i st (TShared p) (_ ← tee_ta_cancel_command p who; mret (TDone p false))
| sec_invoke p who :
    section i st (TGot p)
      (r ← invoke_check p who;
       mret (match r with Enter => TInside p | Destroy => TDestroy p | _ => TDone p true end))
| sec_leave p :
    section i st (TInside p) (dead ← ctx_panicked p; mret (if dead : bool then TDestroy p else TDone p true))
| sec_destroy p : section i st (TDestroy p) (_ ← destroy_ta_ctx_from_session p; mret (TDone p true))
| sec_put p x : section i st (TDone p x) (_ ← tee_ta_put_session i p; mret TIdle).

Record world := World { mem : tas; threads : list tpc }.

(** A step; it may end in an access to freed memory or in a failed assertion. *)
Inductive step (i : nat) : world → outcome bad world → Prop :=
| step_section st ts t m t' st' :
    ts !! i = Some t → section i st t m → m st = (Ok t', st') →
    step i (World st ts) (Ok (World st' (<[i := t']> ts)))
| step_bad st ts t m e st' :
    ts !! i = Some t → section i st t m → m st = (Err e, st') → step i (World st ts) (Err e)
| step_panic st ts t m st' :
    ts !! i = Some t → section i st t m → m st = (Panicked, st') → step i (World st ts) Panicked.

(** [faults] says whether it happens that a TA panics, and that check_params()
    refuses the parameters for a session just made, which tee_ta_open_session() then
    leaves as it is (only with CFG_SECURE_DATA_PATH). *)
Inductive ta_step (faults : bool) : world → outcome bad world → Prop :=
| ta_thread i w r : step i w r → ta_step faults w r
| ta_panic st ts i p s c x :
    faults = true → ts !! i = Some (TInside p) ∨ ts !! i = Some (TEntered p c) ∨ (∃ k, ts !! i = Some (TUnlinkStart p k (Some c))) →
    sessions st !! p = Some s → ctx s = Some c → ctxs st !! c = Some x →
    ta_step faults (World st ts)
      (Ok (World (with_ctxs st <[c := Ctx (c_uuid x) (flags x) true (c_ref_count x)]>) ts))
| ta_params st ts i p :
    faults = true → ts !! i = Some (TOpened p) →
    ta_step faults (World st ts) (Ok (World st (<[i := TLost p]> ts))).

Definition start (n : nat) : world := World (Tas ∅ [] ∅ []) (replicate n TIdle).

Inductive reachable (faults : bool) (n : nat) : world → Prop :=
| reach_start : Z.of_nat n < 2 ^ 30 → reachable faults n (start n)
| reach_next w w' : reachable faults n w → ta_step faults w (Ok w') → reachable faults n w'.
