(* ===== verification/TaSessionProofs.v ===== *)
(** * core/kernel/tee_ta_manager.c: the properties of the session protocol *)
From S2P Require Import Prelude Uuid TaSession.

Local Open Scope Z_scope.

(** ** The references of the threads *)

(** The references thread [t] holds to session [p]. *)
Definition held (k : closer) : nat := match k with HoldsReference => 1 | _ => 0 end.
Definition refs_of (t : tpc) : option (nat * nat) :=
  match t with
  | TIdle | TPutCtx _ _ | TReturned _ => None
  | TClose p k | TLookup _ p k => Some (p, held k)
  | TWait p k => Some (p, S (from_option held 0%nat k))
  | TCheck p k | TUnlinkStart p k _ | TUnlink p k _ => Some (p, S (held k))
  | TOpened p | TEntered p _ | TLost p | TShared p | TGot p | TInside p | TDestroy p | TDone p _ => Some (p, 1%nat)
  end.
Definition refs (p : nat) (t : tpc) : nat :=
  match refs_of t with Some (q, n) => if decide (q = p) then n else 0%nat | None => 0%nat end.

(** The session it has locked. *)
Definition locked (t : tpc) : option nat :=
  match t with
  | TCheck p _ | TUnlinkStart p _ _ | TUnlink p _ _ | TGot p | TInside p | TDestroy p | TDone p true => Some p
  | _ => None
  end.

(** The session it waits to unlink. *)
Definition unlinking (t : tpc) : option nat := match t with TUnlink p _ _ => Some p | _ => None end.

Definition total (p : nat) (ts : list tpc) : nat := sum_list_with (refs p) ts.

(** Nobody sleeps in vain on the condition variables of session [p]: those that
    sleep there wait for it; nobody sleeps on [lock_cv] when the session is being
    closed, and when it is free, another thread has been woken to take it; and the
    closing thread does not sleep when it is the only user. *)
Record wake (ts : list tpc) (p : nat) (s : tee_ta_session) : Prop := {
  wk_nodup : NoDup (lock_cv s) ∧ NoDup (refc_cv s);
  wk_lock i : i ∈ lock_cv s → ∃ k, ts !! i = Some (TWait p k);
  wk_refc i : i ∈ refc_cv s → ∃ k c, ts !! i = Some (TUnlink p k c);
  wk_free : lock_cv s ≠ [] →
    unlink s = false ∧ (lock_thread s = None → ∃ i k, ts !! i = Some (TWait p k) ∧ i ∉ lock_cv s);
  wk_alone : refc_cv s ≠ [] → ref_count s ≠ 1;
}.

(** The states in which a thread may sleep. *)
Definition sleeps (t : tpc) : bool := match t with TWait _ _ | TUnlink _ _ _ => true | _ => false end.
Definition awake (i : nat) (st : tas) : Prop :=
  ∀ q s, sessions st !! q = Some s → i ∉ lock_cv s ∧ i ∉ refc_cv s.

Record inv (st : tas) (ts : list tpc) : Prop := {
  iv_list : NoDup (open_sessions st);
  iv_open p : p ∈ open_sessions st ↔ is_Some (sessions st !! p);
  iv_ids p q s s' : sessions st !! p = Some s → sessions st !! q = Some s' → id s = id s' → p = q;
  iv_id p s : sessions st !! p = Some s → 0 < id s < 2 ^ 32;
  iv_refs p s : sessions st !! p = Some s → ref_count s = Z.of_nat (total p ts);
  iv_lock p s i : sessions st !! p = Some s →
    lock_thread s = Some i ↔ ∃ t, ts !! i = Some t ∧ locked t = Some p;
  iv_unlink p s : sessions st !! p = Some s →
    unlink s = true ↔ ∃ i t, ts !! i = Some t ∧ unlinking t = Some p;
  iv_alive i t : ts !! i = Some t → ∀ p, (0 < refs p t)%nat → is_Some (sessions st !! p);
  iv_lookup i n p s : ts !! i = Some (TLookup n p HoldsReference) → sessions st !! p = Some s → id s = n;
  iv_wake p s : sessions st !! p = Some s → wake ts p s;
  iv_small : Z.of_nat (length ts) < 2 ^ 30;
}.

Lemma refs_le p t : (refs p t <= 2)%nat.
Proof.
  unfold refs. destruct (refs_of t) as [[q n]|] eqn:E; [|lia]. case_decide; [|lia].
  destruct t as [| | | | | |? [[]|]| | | | | | | | | |]; simplify_eq/=; try (destruct k); simpl; lia.
Qed.

Lemma total_le p ts : (total p ts <= 2 * length ts)%nat.
Proof.
  unfold total. induction ts as [|t ts IH]; simpl; [lia|]. pose proof (refs_le p t). lia.
Qed.

Lemma total_small st ts p : inv st ts → Z.of_nat (total p ts) < 2 ^ 31.
Proof.
  intros Hi. pose proof (iv_small _ _ Hi). pose proof (total_le p ts). lia.
Qed.

Lemma total_move p ts i t t' : ts !! i = Some t → (total p (<[i:=t']> ts) + refs p t = total p ts + refs p t')%nat.
Proof. apply sum_insert. Qed.

Lemma total_has p ts i t : ts !! i = Some t → (refs p t <= total p ts)%nat.
Proof. apply sum_member. Qed.

(** The threads after thread [i] has moved. *)
Lemma insert_thread (ts : list tpc) i t t' (P : nat → tpc → Prop) :
  ts !! i = Some t → P i t' → (∀ j u, j ≠ i → ts !! j = Some u → P j u) →
  ∀ j u, <[i := t']> ts !! j = Some u → P j u.
Proof.
  intros Hi Hp Hoth j u Hj. destruct (decide (j = i)) as [-> |Hne].
  - rewrite list_lookup_insert_eq in Hj by (by eapply lookup_lt_Some). by injection Hj as <-.
  - rewrite list_lookup_insert_ne in Hj by done. by apply Hoth.
Qed.

Lemma lookup_thread (ts : list tpc) i t t' j :
  ts !! i = Some t → <[i := t']> ts !! j = if decide (j = i) then Some t' else ts !! j.
Proof.
  intros Hi. case_decide as Hj.
  - subst. apply list_lookup_insert_eq. by eapply lookup_lt_Some.
  - by apply list_lookup_insert_ne.
Qed.

Lemma inv_awake st ts i t : inv st ts → ts !! i = Some t → sleeps t = false → awake i st.
Proof.
  intros Hi Ht Hs q s Hq. pose proof (iv_wake _ _ Hi q s Hq) as Hw.
  split; [intros (k & Hk)%(wk_lock _ _ _ Hw)|intros (k & c & Hk)%(wk_refc _ _ _ Hw)];
    rewrite Ht in Hk; by injection Hk as ->.
Qed.

(** A thread that does not sleep for session [q] nor is woken for it moves. *)
Lemma wake_move ts i t t' q s :
  wake ts q s → ts !! i = Some t → i ∉ lock_cv s → i ∉ refc_cv s → (∀ k, t ≠ TWait q k) → wake (<[i := t']> ts) q s.
Proof.
  intros [Hn Hl Hr Hf Ha] Ht Hil Hir Hne. constructor; try done.
  - intros j Hj. destruct (Hl j Hj) as [k Hk]. exists k. rewrite list_lookup_insert_ne; [done|]. by intros ->.
  - intros j Hj. destruct (Hr j Hj) as (k & c & Hk). exists k, c. rewrite list_lookup_insert_ne; [done|]. by intros ->.
  - intros Hlne. destruct (Hf Hlne) as [Hu Hw]. split; [done|]. intros Hno.
    destruct (Hw Hno) as (j & k & Hj & Hnot). exists j, k. rewrite list_lookup_insert_ne; [done|].
    intros ->. rewrite Ht in Hj. injection Hj as ->. by destruct (Hne k).
Qed.

(** At most one thread closes a session. *)
Lemma refc_one st ts p s : inv st ts → sessions st !! p = Some s → (length (refc_cv s) <= 1)%nat.
Proof.
  intros Hi Hp. destruct (iv_wake _ _ Hi p s Hp) as [[_ Hn] _ Hr _ _].
  assert (∀ j, j ∈ refc_cv s → lock_thread s = Some j) as Hone.
  { intros j (k & c & Hj)%Hr. apply (iv_lock _ _ Hi p s j Hp). by exists (TUnlink p k c). }
  destruct (refc_cv s) as [|x [|y l]]; simpl; [lia|lia|]. exfalso.
  apply NoDup_cons in Hn as [Hx _]. apply Hx.
  pose proof (Hone x ltac:(set_solver)). pose proof (Hone y ltac:(set_solver)).
  assert (x = y) as -> by congruence. set_solver.
Qed.

(** A thread changes the session it works on. *)
Lemma inv_update st ts i t t' p s s' :
  inv st ts → ts !! i = Some t → sessions st !! p = Some s →
  id s' = id s → (∀ q, q ≠ p → refs q t' = refs q t) →
  ref_count s' + Z.of_nat (refs p t) = ref_count s + Z.of_nat (refs p t') →
  (∀ q, q ≠ p → locked t ≠ Some q ∧ locked t' ≠ Some q) →
  (lock_thread s' = Some i ↔ locked t' = Some p) →
  (∀ j, j ≠ i → lock_thread s' = Some j ↔ lock_thread s = Some j) →
  (∀ q, q ≠ p → unlinking t ≠ Some q ∧ unlinking t' ≠ Some q) →
  (unlink s' = unlink s ∧ unlinking t' = unlinking t ∨ unlink s' = true ∧ unlinking t' = Some p) →
  awake i st → (∀ q k, t = TWait q k → q = p) → (∀ n q, t' ≠ TLookup n q HoldsReference) →
  wake (<[i := t']> ts) p s' →
  inv (with_sessions st <[p := s']>) (<[i := t']> ts).
Proof.
  intros Hi Ht Hs Hid Hr Hcnt Hl1 Hl2 Hl3 Hu1 Hu2 Haw Hw1 Hlk Hw2. constructor; cbn [with_sessions sessions open_sessions].
  - apply Hi.
  - intros q. rewrite (iv_open _ _ Hi). destruct (decide (q = p)) as [-> |].
    + rewrite lookup_insert_eq, Hs. by split.
    + by rewrite lookup_insert_ne.
  - intros q1 q2 s1 s2 H1 H2. rewrite lookup_insert_Some in H1, H2.
    destruct H1 as [[<- <-]|[? H1]], H2 as [[<- <-]|[? H2]]; [done|rewrite Hid|rewrite Hid|].
    + by apply (iv_ids _ _ Hi).
    + by apply (iv_ids _ _ Hi).
    + by apply (iv_ids _ _ Hi).
  - intros q s1 H1. rewrite lookup_insert_Some in H1. destruct H1 as [[<- <-]|[? H1]].
    + rewrite Hid. by apply (iv_id _ _ Hi p).
    + by apply (iv_id _ _ Hi q).
  - intros q s1 H1. pose proof (total_move q ts i t t' Ht) as Hm.
    rewrite lookup_insert_Some in H1. destruct H1 as [[<- <-]|[? H1]].
    + pose proof (iv_refs _ _ Hi p s Hs). lia.
    + pose proof (iv_refs _ _ Hi q s1 H1). specialize (Hr q). rewrite Hr in Hm by done. lia.
  - intros q s1 j H1. setoid_rewrite (lookup_thread ts i t t' j Ht).
    rewrite lookup_insert_Some in H1. destruct H1 as [[<- <-]|[Hq H1]].
    + case_decide as Hj; [subst; rewrite Hl2; naive_solver|]. rewrite Hl3 by done. by apply (iv_lock _ _ Hi).
    + case_decide as Hj; [subst|by apply (iv_lock _ _ Hi)]. destruct (Hl1 q ltac:(done)) as [Ha Hb].
      rewrite (iv_lock _ _ Hi q s1 i H1). naive_solver.
  - intros q s1 H1. rewrite lookup_insert_Some in H1. setoid_rewrite (lookup_thread ts i t t' _ Ht).
    assert (∀ q, (∃ j u, (if decide (j = i) then Some t' else ts !! j) = Some u ∧ unlinking u = Some q) ↔
      unlinking t' = Some q ∨ ∃ j u, j ≠ i ∧ ts !! j = Some u ∧ unlinking u = Some q) as Hex.
    { intros q'. split.
      - intros (j & u & Hj & Hu). case_decide; [left; congruence|right; eauto].
      - intros [Hu|(j & u & Hj & Hu & Hq)]; [exists i, t'; by rewrite decide_True|].
        exists j, u. by rewrite decide_False. }
    rewrite Hex. destruct H1 as [[<- <-]|[Hq H1]].
    + destruct Hu2 as [[-> Hun]|[-> Hun]]; [|naive_solver]. rewrite (iv_unlink _ _ Hi p s Hs), Hun.
      split; [intros (j & u & Hj & Hu)|intros [Hu|(j & u & _ & Hj & Hu)]; eauto].
      destruct (decide (j = i)) as [-> |]; [left; congruence|right; eauto].
    + destruct (Hu1 q ltac:(done)) as [Ha Hb]. rewrite (iv_unlink _ _ Hi q s1 H1).
      split; [intros (j & u & Hj & Hu)|intros [Hu|(j & u & _ & Hj & Hu)]; [done|eauto]].
      right. exists j, u. split; [intros ->; congruence|done].
  - intros j u Hj q Hpos. rewrite (lookup_thread ts i t t' j Ht) in Hj. destruct (decide (q = p)) as [-> |Hq].
    + by rewrite lookup_insert_eq.
    + rewrite lookup_insert_ne by done. case_decide; [|by eapply (iv_alive _ _ Hi)].
      injection Hj as <-. rewrite Hr in Hpos by done. by eapply (iv_alive _ _ Hi).
  - intros j n q s1 Hj H1. rewrite (lookup_thread ts i t t' j Ht) in Hj. case_decide; [by injection Hj as ->; destruct (Hlk n q)|].
    rewrite lookup_insert_Some in H1. destruct H1 as [[<- <-]|[? H1]]; [rewrite Hid|]; by eapply (iv_lookup _ _ Hi j).
  - intros q s1 H1. rewrite lookup_insert_Some in H1. destruct H1 as [[<- <-]|[Hq H1]]; [done|].
    destruct (Haw q s1 H1). apply (wake_move ts i t); [by apply (iv_wake _ _ Hi)|done..|].
    intros k ->. by destruct Hq, (Hw1 q k).
  - rewrite length_insert. apply Hi.
Qed.

Lemma inv_ctxs st st' ts :
  inv st ts → sessions st' = sessions st → open_sessions st' = open_sessions st → inv st' ts.
Proof. intros [] Hs Ho. constructor; rewrite ?Hs, ?Ho; done. Qed.

(** A thread goes on without a change of references. *)
Lemma sess_quiet st ts i t t' :
  inv st ts → ts !! i = Some t → (∀ q, refs q t' = refs q t) → locked t' = locked t →
  unlinking t' = unlinking t → sleeps t = false →
  (∀ n q s, t' = TLookup n q HoldsReference → sessions st !! q = Some s → id s = n) →
  inv st (<[i := t']> ts).
Proof.
  intros Hi Ht Hr Hl Hu Hsl Hlk. constructor; try apply Hi.
  - intros p s Hs. rewrite (iv_refs _ _ Hi p s Hs). pose proof (total_move p ts i t t' Ht). rewrite Hr in *. lia.
  - intros p s j Hs. rewrite (iv_lock _ _ Hi p s j Hs). setoid_rewrite (lookup_thread ts i t t' j Ht).
    case_decide; [subst|done]. split; intros (u & Hu' & Hlu); simplify_eq; eexists; (split; [done|congruence]).
  - intros p s Hs. rewrite (iv_unlink _ _ Hi p s Hs). setoid_rewrite (lookup_thread ts i t t' _ Ht).
    split; intros (j & u & Hj & Hlu); exists j.
    + destruct (decide (j = i)) as [-> |]; [exists t'; split; [done|congruence]|by exists u].
    + destruct (decide (j = i)) as [-> |]; [exists t; split; [done|congruence]|by exists u].
  - apply (insert_thread ts i t t' (λ _ u, ∀ p, (0 < refs p u)%nat → is_Some (sessions st !! p)) Ht).
    + intros p. rewrite Hr. by eapply (iv_alive _ _ Hi).
    + intros j u _ Hj p. by eapply (iv_alive _ _ Hi).
  - intros j n q s Hj Hq. rewrite (lookup_thread ts i t t' j Ht) in Hj.
    case_decide; [injection Hj as ->; by eapply Hlk|by apply (iv_lookup _ _ Hi j n q)].
  - intros p s Hs. destruct (inv_awake st ts i t Hi Ht Hsl p s Hs).
    apply (wake_move ts i t); [by apply (iv_wake _ _ Hi)|done..|]. by intros k ->.
  - rewrite length_insert. apply Hi.
Qed.

Lemma total_zero p ts : (∀ i t, ts !! i = Some t → refs p t = 0%nat) → total p ts = 0%nat.
Proof.
  unfold total. induction ts as [|t ts IH]; intros Hz; simpl; [done|].
  rewrite (Hz 0%nat t eq_refl), IH; [done|]. intros i. apply (Hz (S i)).
Qed.

Lemma locked_refs t p : locked t = Some p → (0 < refs p t)%nat.
Proof.
  destruct t; unfold refs; cbn; intros; simplify_eq; try rewrite decide_True by done; try lia.
  destruct excl; simplify_eq. rewrite decide_True by done. lia.
Qed.

Lemma unlinking_refs t p : unlinking t = Some p → (0 < refs p t)%nat.
Proof. destruct t; unfold refs; cbn; intros; simplify_eq. rewrite decide_True by done. lia. Qed.

(** The session with pointer [p] is new. *)
Lemma inv_new st ts i p s :
  inv st ts → ts !! i = Some TIdle → sessions st !! p = None →
  0 < id s < 2 ^ 32 → (∀ q s', sessions st !! q = Some s' → id s' ≠ id s) →
  ref_count s = 1 → lock_thread s = None → unlink s = false → lock_cv s = [] → refc_cv s = [] →
  inv (Tas (<[p := s]> (sessions st)) (open_sessions st ++ [p]) (ctxs st) (tee_ctxes st)) (<[i := TOpened p]> ts).
Proof.
  intros Hi Ht Hp Hid Hfresh Hr Hl Hu Hlc Hrc. assert (p ∉ open_sessions st) as Hno.
  { rewrite (iv_open _ _ Hi), Hp. by intros [? ?]. }
  assert (∀ j t, ts !! j = Some t → refs p t = 0%nat) as Hz.
  { intros j t Hj. destruct (refs p t) eqn:E; [done|].
    destruct (iv_alive _ _ Hi j t Hj p ltac:(lia)) as [? Hx]. by rewrite Hp in Hx. }
  constructor; cbn [sessions open_sessions].
  - apply NoDup_app. split; [apply Hi|]. split; [set_solver|apply NoDup_singleton].
  - intros q. rewrite elem_of_app, list_elem_of_singleton, (iv_open _ _ Hi).
    destruct (decide (q = p)) as [-> |]; [rewrite lookup_insert_eq; naive_solver|].
    rewrite lookup_insert_ne by done. naive_solver.
  - intros q1 q2 s1 s2 H1 H2. rewrite lookup_insert_Some in H1, H2.
    destruct H1 as [[<- <-]|[? H1]], H2 as [[<- <-]|[? H2]]; [done| | |by apply (iv_ids _ _ Hi)].
    + intros E. by destruct (Hfresh q2 s2 H2).
    + intros E. by destruct (Hfresh q1 s1 H1).
  - intros q s1 H1. rewrite lookup_insert_Some in H1. destruct H1 as [[<- <-]|[? H1]]; [done|by apply (iv_id _ _ Hi q)].
  - intros q s1 H1. pose proof (total_move q ts i TIdle (TOpened p) Ht) as Hm.
    rewrite lookup_insert_Some in H1. unfold refs in Hm. cbn in Hm. destruct H1 as [[<- <-]|[? H1]].
    + rewrite decide_True in Hm by done. rewrite (total_zero p ts Hz) in Hm. lia.
    + rewrite decide_False in Hm by done. rewrite (iv_refs _ _ Hi q s1 H1). lia.
  - intros q s1 j H1. setoid_rewrite (lookup_thread ts i TIdle (TOpened p) j Ht).
    rewrite lookup_insert_Some in H1. destruct H1 as [[<- <-]|[? H1]].
    + rewrite Hl. split; [done|]. intros (u & Hu' & Hlu). case_decide; simplify_eq/=.
      apply locked_refs in Hlu. rewrite (Hz j u) in Hlu by done. lia.
    + rewrite (iv_lock _ _ Hi q s1 j H1). case_decide; [subst|done].
      split; intros (u & Hu' & Hlu); simplify_eq/=.
  - intros q s1 H1. setoid_rewrite (lookup_thread ts i TIdle (TOpened p) _ Ht).
    rewrite lookup_insert_Some in H1. destruct H1 as [[<- <-]|[? H1]].
    + rewrite Hu. split; [done|]. intros (j & u & Hu' & Hlu). case_decide; simplify_eq/=.
      apply unlinking_refs in Hlu. rewrite (Hz j u) in Hlu by done. lia.
    + rewrite (iv_unlink _ _ Hi q s1 H1). split; intros (j & u & Hj & Hlu); exists j, u.
      * split; [|done]. case_decide; [subst; by simplify_eq|done].
      * split; [|done]. case_decide; [by simplify_eq|done].
  - apply (insert_thread ts i TIdle _ (λ _ u, ∀ q, (0 < refs q u)%nat → is_Some (<[p:=s]> (sessions st) !! q)) Ht).
    + intros q. unfold refs. cbn. case_decide; [subst; by rewrite lookup_insert_eq|lia].
    + intros j u _ Hj q Hq. destruct (decide (q = p)) as [-> |]; [by rewrite lookup_insert_eq|].
      rewrite lookup_insert_ne by done. by eapply (iv_alive _ _ Hi).
  - intros j n q s1 Hj H1. rewrite (lookup_thread ts i TIdle (TOpened p) j Ht) in Hj. case_decide; [done|].
    rewrite lookup_insert_Some in H1. destruct H1 as [[<- <-]|[? H1]]; [|by apply (iv_lookup _ _ Hi j n q)].
    destruct (iv_alive _ _ Hi j _ Hj p) as [? Hx]; [unfold refs; cbn; rewrite decide_True by done; lia|congruence].
  - intros q s1 H1. rewrite lookup_insert_Some in H1. destruct H1 as [[<- <-]|[Hq H1]].
    + constructor; rewrite ?Hlc, ?Hrc; try done; [by split; apply NoDup_nil_2|..]; by intros j ?%elem_of_nil.
    + destruct (inv_awake st ts i TIdle Hi Ht eq_refl q s1 H1).
      by apply (wake_move ts i TIdle); [by apply (iv_wake _ _ Hi)|..].
  - rewrite length_insert. apply Hi.
Qed.

(** The thread that holds the only reference removes the session. *)
Lemma inv_remove st ts i t t' p s :
  inv st ts → ts !! i = Some t → sessions st !! p = Some s → total p ts = refs p t →
  (∀ q, q ≠ p → refs q t' = refs q t) → refs p t' = 0%nat →
  (∀ q, q ≠ p → locked t ≠ Some q ∧ locked t' ≠ Some q) →
  (∀ q, q ≠ p → unlinking t ≠ Some q ∧ unlinking t' ≠ Some q) →
  awake i st → (∀ q k, t ≠ TWait q k) → (∀ n q, t' ≠ TLookup n q HoldsReference) →
  inv (Tas (delete p (sessions st)) (filter (λ q, q ≠ p) (open_sessions st)) (ctxs st) (tee_ctxes st)) (<[i := t']> ts).
Proof.
  intros Hi Ht Hp Htot Hr Hz Hl Hu Haw Hw1 Hlk.
  assert (∀ q s1, delete p (sessions st) !! q = Some s1 → q ≠ p ∧ sessions st !! q = Some s1) as Hd.
  { intros q s1 [Hne Hq]%lookup_delete_Some. done. }
  constructor; cbn [sessions open_sessions].
  - apply NoDup_filter, Hi.
  - intros q. rewrite list_elem_of_filter, (iv_open _ _ Hi). destruct (decide (q = p)) as [-> |].
    + rewrite lookup_delete_eq. split; [by intros [? _]|by intros [? ?]].
    + rewrite lookup_delete_ne by done. naive_solver.
  - intros q1 q2 s1 s2 H1%Hd H2%Hd. destruct H1, H2. by apply (iv_ids _ _ Hi).
  - intros q s1 H1%Hd. destruct H1. by apply (iv_id _ _ Hi q).
  - intros q s1 H1%Hd. destruct H1 as [Hq H1]. pose proof (total_move q ts i t t' Ht) as Hm.
    rewrite (Hr q Hq) in Hm. rewrite (iv_refs _ _ Hi q s1 H1). lia.
  - intros q s1 j H1%Hd. destruct H1 as [Hq H1]. rewrite (iv_lock _ _ Hi q s1 j H1).
    setoid_rewrite (lookup_thread ts i t t' j Ht). destruct (Hl q Hq). case_decide; [subst|done]. naive_solver.
  - intros q s1 H1%Hd. destruct H1 as [Hq H1]. rewrite (iv_unlink _ _ Hi q s1 H1).
    setoid_rewrite (lookup_thread ts i t t' _ Ht). destruct (Hu q Hq).
    split; intros (j & u & Hj & Hlu); exists j, u; (split; [|done]); case_decide; naive_solver.
  - apply (insert_thread ts i t t' (λ _ u, ∀ q, (0 < refs q u)%nat → is_Some (delete p (sessions st) !! q)) Ht).
    + intros q Hq. destruct (decide (q = p)) as [-> |Hne]; [lia|]. rewrite lookup_delete_ne by done.
      rewrite Hr in Hq by done. by eapply (iv_alive _ _ Hi).
    + intros j u Hne Hj q Hq. destruct (decide (q = p)) as [-> |Hqp].
      * pose proof (total_move p ts i t TIdle Ht) as Hm. change (refs p TIdle) with 0%nat in Hm.
        pose proof (total_has p (<[i:=TIdle]> ts) j u ltac:(rewrite list_lookup_insert_ne; done)). lia.
      * rewrite lookup_delete_ne by done. by eapply (iv_alive _ _ Hi).
  - intros j n q s1 Hj H1%Hd. rewrite (lookup_thread ts i t t' j Ht) in Hj.
    case_decide; [injection Hj as ->; by destruct (Hlk n q)|destruct H1; by apply (iv_lookup _ _ Hi j n q)].
  - intros q s1 H1%Hd. destruct H1 as [Hq H1]. destruct (Haw q s1 H1).
    by apply (wake_move ts i t); [by apply (iv_wake _ _ Hi)|..].
  - rewrite length_insert. apply Hi.
Qed.

(** ** The sections *)

Lemma wp_read p s (Q : tee_ta_session → tas → Prop) R st :
  sessions st !! p = Some s → Q s st → wp (read p) Q R st.
Proof. intros Hp HQ. unfold read. apply wp_bind, wp_get. by rewrite Hp. Qed.

Lemma wp_store p s (Q : unit → tas → Prop) R st :
  Q tt (with_sessions st <[p := s]>) → wp (store p s) Q R st.
Proof. intros HQ. unfold store. by apply wp_bind, wp_get, wp_put. Qed.

Lemma with_twice st p s s' : with_sessions (with_sessions st <[p := s]>) <[p := s']> = with_sessions st <[p := s']>.
Proof. unfold with_sessions. cbn. by rewrite insert_insert_eq. Qed.

Lemma with_same st p s : sessions st !! p = Some s → with_sessions st <[p := s]> = st.
Proof. intros Hp. unfold with_sessions. rewrite insert_id by done. by destruct st. Qed.

(** The session without a reference, and with the lock given back. *)
Definition dec_ref (s : tee_ta_session) : tee_ta_session :=
  let s := set_ref s (ref_count s - 1) in
  if ref_count s =? 1 then set_refc_cv s (tail (refc_cv s)) else s.
Definition unlock (i : nat) (s : tee_ta_session) : tee_ta_session :=
  if decide (lock_thread s = Some i) then set_lock_cv (set_lock s None) (tail (lock_cv s)) else s.

Lemma dec_ref_spec s :
  id (dec_ref s) = id s ∧ ref_count (dec_ref s) = ref_count s - 1 ∧ lock_thread (dec_ref s) = lock_thread s
  ∧ unlink (dec_ref s) = unlink s ∧ lock_cv (dec_ref s) = lock_cv s
  ∧ refc_cv (dec_ref s) = (if ref_count s - 1 =? 1 then tail (refc_cv s) else refc_cv s) ∧ ctx (dec_ref s) = ctx s.
Proof. unfold dec_ref. cbv zeta. cbn [set_ref ref_count]. by case_match. Qed.

Lemma wp_dec p s (Q : unit → tas → Prop) R st :
  sessions st !! p = Some s → 0 < ref_count s →
  Q tt (with_sessions st <[p := dec_ref s]>) → wp (dec_session_ref_count p) Q R st.
Proof.
  intros Hp Hr HQ. unfold dec_session_ref_count. apply wp_bind, (wp_read p s); [done|].
  apply wp_bind, wp_assert; [by apply Z.ltb_lt|]. by apply wp_store.
Qed.

Lemma wp_put_session tid p s (Q : unit → tas → Prop) R st :
  sessions st !! p = Some s → 0 < ref_count s →
  Q tt (with_sessions st <[p := dec_ref (unlock tid s)]>) →
  wp (tee_ta_put_session tid p) Q R st.
Proof.
  intros Hp Hr HQ. unfold tee_ta_put_session. apply wp_bind, (wp_read p s); [done|]. apply wp_bind.
  unfold unlock in HQ. case_decide as Hl.
  - rewrite bool_decide_eq_true_2 by done. apply wp_store. eapply wp_dec; [by apply lookup_insert_eq|done|].
    by rewrite with_twice.
  - rewrite bool_decide_eq_false_2 by done. apply wp_ret. by apply (wp_dec p s).
Qed.

Lemma wp_find_loop st l n (R : bad → tas → Prop) :
  (∀ p, p ∈ l → is_Some (sessions st !! p)) →
  wp (find_loop l n)
    (λ r st', st' = st ∧ match r with
                        | Some p => p ∈ l ∧ ∃ s, sessions st !! p = Some s ∧ id s = n
                        | None => ∀ p s, p ∈ l → sessions st !! p = Some s → id s ≠ n
                        end) R st.
Proof.
  induction l as [|p l IH]; intros Hl; cbn [find_loop].
  { apply wp_ret. split; [done|]. intros p s Hp. by apply elem_of_nil in Hp. }
  destruct (Hl p ltac:(set_solver)) as [s Hp]. apply wp_bind, (wp_read p s); [done|].
  destruct (Z.eqb_spec (id s) n) as [He|He].
  - apply wp_ret. split; [done|]. split; [set_solver|by exists s].
  - eapply wp_mono; [apply IH; set_solver| |done]. intros r st' [-> Hr]. split; [done|]. destruct r as [q|].
    + destruct Hr as [Hq Hr]. split; [set_solver|done].
    + intros q s' [-> |Hq]%elem_of_cons Hs'; [congruence|by eapply Hr].
Qed.

Lemma wp_find st ts n (R : bad → tas → Prop) :
  inv st ts →
  wp (tee_ta_find_session_nolock n)
    (λ r st', st' = st ∧ match r with
                        | Some p => ∃ s, sessions st !! p = Some s ∧ id s = n
                        | None => ∀ p s, sessions st !! p = Some s → id s ≠ n
                        end) R st.
Proof.
  intros Hi. unfold tee_ta_find_session_nolock. apply wp_bind, wp_get.
  eapply wp_mono; [apply wp_find_loop; intros p; apply (iv_open _ _ Hi)| |done].
  intros r st' [-> Hr]. split; [done|]. destruct r; [apply Hr|].
  intros p s Hp. apply (Hr p s); [|done]. apply (iv_open _ _ Hi). by exists s.
Qed.

(** Goals about what a thread refers to. *)
Ltac refs_tac :=
  intros; unfold refs; cbn; repeat case_decide; simplify_eq/=; try done; try lia; try congruence; try (split; congruence).

Lemma wp_get_raw st ts i t n excl (R : bad → tas → Prop) :
  inv st ts → ts !! i = Some t → locked t = None →
  wp (tee_ta_get_session i n excl)
    (λ r st', match r with
      | GotNull => st' = st
      | Got p => ∃ s, sessions st !! p = Some s ∧ id s = n ∧ unlink s = false
          ∧ (excl = true → lock_thread s = None)
          ∧ st' = with_sessions st <[p := set_ref (if excl then set_lock s (Some i) else s) (ref_count s + 1)]>
      | MustWait p => ∃ s, sessions st !! p = Some s ∧ id s = n ∧ unlink s = false ∧ excl = true
          ∧ lock_thread s ≠ None
          ∧ st' = with_sessions st <[p := set_lock_cv (set_ref s (ref_count s + 1)) (lock_cv s ++ [i])]>
      end) R st.
Proof.
  intros Hi Ht Hlk. unfold tee_ta_get_session. apply wp_bind.
  eapply wp_mono; [by apply (wp_find st ts n R)| |done]. intros [p|] st' [-> Hf]; [|by apply wp_ret].
  destruct Hf as (s & Hp & Hn). apply wp_bind, (wp_read p s); [done|].
  destruct (unlink s) eqn:Hu; [by apply wp_ret|]. apply wp_bind, wp_store.
  pose proof (iv_refs _ _ Hi p s Hp) as Hr. pose proof (total_small st ts p Hi).
  rewrite wrap_small by (unfold in_range; lia).
  destruct excl; cbn [negb].
  2: { apply wp_ret. by exists s. }
  assert (lock_thread s ≠ Some i) as Hnl.
  { rewrite (iv_lock _ _ Hi p s i Hp). intros (u & Hu' & Hlu). simplify_eq. }
  apply wp_bind, wp_assert; [by apply bool_decide_eq_true_2|]. unfold wait_lock.
  apply wp_bind. eapply wp_read; [by apply lookup_insert_eq|]. cbn [lock_thread unlink set_ref]. rewrite Hu.
  destruct (lock_thread s) eqn:Hl.
  - rewrite bool_decide_eq_true_2 by done. apply wp_bind, wp_store, wp_ret. exists s.
    rewrite with_twice. by rewrite Hl.
  - rewrite bool_decide_eq_false_2 by (by intros []). apply wp_bind, wp_store, wp_ret.
    rewrite with_twice. by exists s.
Qed.

Lemma ref_count_pos st ts i t p s :
  inv st ts → ts !! i = Some t → sessions st !! p = Some s → (0 < refs p t)%nat → 0 < ref_count s.
Proof. intros Hi Ht Hp Hr. rewrite (iv_refs _ _ Hi p s Hp). pose proof (total_has p ts i t Ht). lia. Qed.

(** The queues of a session when thread [i] goes from [t] to [t']: the other
    sleepers and those woken are where they were. *)
Lemma wake_update ts i t t' p s s' :
  wake ts p s → ts !! i = Some t → (∀ k, t ≠ TWait p k) → i ∉ lock_cv s → i ∉ refc_cv s →
  lock_cv s' = lock_cv s → refc_cv s' = refc_cv s → unlink s' = unlink s →
  (lock_thread s' = None → lock_thread s = None) → (refc_cv s ≠ [] → ref_count s' ≠ 1) →
  wake (<[i := t']> ts) p s'.
Proof.
  intros Hw Ht Hne Hil Hir El Er Eu Hl Hr.
  destruct (wake_move ts i t t' p s Hw Ht Hil Hir Hne) as [Hn Hkl Hkr Hf _].
  constructor; rewrite ?El, ?Er, ?Eu; try done. intros Hlne. destruct (Hf Hlne) as [? Hx]. auto.
Qed.

(** Thread [i] now refers to [p] as well, and may have locked it. *)
Lemma inv_acquire st ts i t t' p s (excl : bool) :
  inv st ts → ts !! i = Some t → sessions st !! p = Some s → unlink s = false →
  locked t = None → unlinking t = None → unlinking t' = None →
  locked t' = (if excl then Some p else None) →
  (∀ q, q ≠ p → refs q t' = refs q t) → refs p t' = S (refs p t) →
  (excl = true → lock_thread s = None) → sleeps t = false → (∀ n q, t' ≠ TLookup n q HoldsReference) →
  inv (with_sessions st <[p := set_ref (if excl then set_lock s (Some i) else s) (ref_count s + 1)]>) (<[i := t']> ts).
Proof.
  intros Hi Ht Hp Hu Hl Hun Hun' Hl' Hr Hrp He Hsl Hlk.
  assert (lock_thread s ≠ Some i) as Hnl.
  { rewrite (iv_lock _ _ Hi p s i Hp). intros (u & Hu' & Hlu). simplify_eq. }
  pose proof (inv_awake st ts i t Hi Ht Hsl) as Haw. destruct (Haw p s Hp).
  apply (inv_update st ts i t t' p s); try done.
  - by destruct excl.
  - rewrite Hrp. destruct excl; cbn; lia.
  - intros q Hq. rewrite Hl, Hl'. destruct excl; split; congruence.
  - rewrite Hl'. destruct excl; cbn; split; congruence.
  - intros j Hj. destruct excl; [|done]. cbn. rewrite He by done. split; congruence.
  - intros q Hq. by rewrite Hun, Hun'.
  - left. rewrite Hun, Hun'. by destruct excl.
  - by intros q k ->.
  - apply (wake_update ts i t t' p s); try done; [by apply (iv_wake _ _ Hi)|by intros k ->|by destruct excl..|].
    intros Hne. pose proof (iv_wake _ _ Hi p s Hp) as Hw.
    destruct (refc_cv s) as [|j l] eqn:Hj; [done|].
    destruct (wk_refc _ _ _ Hw j ltac:(rewrite Hj; set_solver)) as (k & c & Htj).
    pose proof (ref_count_pos st ts j _ p s Hi Htj Hp) as Hpos. unfold refs in Hpos. cbn in Hpos.
    rewrite decide_True in Hpos by done. specialize (Hpos ltac:(lia)). cbn. lia.
Qed.

(** And here it has to sleep, again or for the first time. *)
Lemma inv_sleep st ts i t p k s (r : Z) :
  inv st ts → ts !! i = Some t → sessions st !! p = Some s →
  locked t = None → unlinking t = None → (∀ q, q ≠ p → refs q (TWait p k) = refs q t) →
  r + Z.of_nat (refs p t) = ref_count s + Z.of_nat (refs p (TWait p k)) → (refc_cv s ≠ [] → r ≠ 1) →
  unlink s = false → lock_thread s ≠ None → awake i st → (∀ q k, t = TWait q k → q = p) →
  inv (with_sessions st <[p := set_lock_cv (set_ref s r) (lock_cv s ++ [i])]>) (<[i := TWait p k]> ts).
Proof.
  intros Hi Ht Hp Hl Hun Hr Hrp Hr1 Hu Hln Haw Hw1.
  assert (lock_thread s ≠ Some i) as Hnl.
  { rewrite (iv_lock _ _ Hi p s i Hp). intros (u & Hu' & Hlu). simplify_eq. }
  destruct (Haw p s Hp) as [Hil Hir]. destruct (iv_wake _ _ Hi p s Hp) as [[Hn1 Hn2] Hwl Hwr Hwf _].
  apply (inv_update st ts i t (TWait p k) p s); try done.
  - intros q Hq. by rewrite Hl.
  - intros q Hq. by rewrite Hun.
  - left. by rewrite Hun.
  - constructor; cbn; try done.
    + split; [|done]. apply NoDup_app. split; [done|]. split; [|apply NoDup_singleton]. set_solver.
    + intros j [Hj| ->%list_elem_of_singleton]%elem_of_app.
      * rewrite (lookup_thread ts i t _ j Ht). case_decide; [by subst|auto].
      * exists k. apply list_lookup_insert_eq. by eapply lookup_lt_Some.
    + intros j Hj. rewrite (lookup_thread ts i t _ j Ht). case_decide; [by subst|auto].
Qed.

(** A reference is given back, and the lock with it. *)
Lemma wake_put st ts i t t' p s :
  inv st ts → ts !! i = Some t → sessions st !! p = Some s → awake i st → sleeps t = false ∨ unlink s = true →
  wake (<[i := t']> ts) p (dec_ref (unlock i s)).
Proof.
  intros Hi Ht Hp Haw Hsl. pose proof (iv_wake _ _ Hi p s Hp) as Hw. destruct (Haw p s Hp) as [Hil Hir].
  pose proof (refc_one st ts p s Hi Hp) as Hone.
  destruct (dec_ref_spec (unlock i s)) as (_ & Hr & Hl & Hu & Hlc & Hrc & _).
  assert (refc_cv (unlock i s) = refc_cv s ∧ ref_count (unlock i s) = ref_count s ∧ unlink (unlock i s) = unlink s) as (E1 & E2 & E3).
  { unfold unlock. by case_decide. }
  assert (∀ j, j ∈ lock_cv (unlock i s) → j ∈ lock_cv s) as Hsub.
  { unfold unlock. case_decide; [|done]. cbn. destruct (lock_cv s); [done|]. cbn. intros j. by right. }
  rewrite E1, E2 in Hrc. rewrite E2 in Hr. rewrite E3 in Hu.
  assert (∀ j, j ∈ refc_cv (dec_ref (unlock i s)) → j ∈ refc_cv s) as Hsubr.
  { rewrite Hrc. case_match; [|done]. destruct (refc_cv s); [done|]. cbn. intros j. by right. }
  constructor; rewrite ?Hlc, ?Hu, ?Hl, ?Hr.
  - destruct (wk_nodup _ _ _ Hw) as [Hn1 Hn2]. split.
    + unfold unlock. case_decide; [|done]. cbn. destruct (lock_cv s); [done|]. by apply NoDup_cons in Hn1 as [_ ?].
    + rewrite Hrc. case_match; [|done]. destruct (refc_cv s); [done|]. by apply NoDup_cons in Hn2 as [_ ?].
  - intros j Hj%Hsub. rewrite (lookup_thread ts i t _ j Ht). case_decide; [by subst|by apply (wk_lock _ _ _ Hw)].
  - intros j Hj%Hsubr. rewrite (lookup_thread ts i t _ j Ht). case_decide; [by subst|by apply (wk_refc _ _ _ Hw)].
  - intros Hne. assert (lock_cv s ≠ []) as Hne'.
    { intros E. apply Hne. unfold unlock. by case_decide; cbn; rewrite E. }
    destruct (wk_free _ _ _ Hw Hne') as [Hun Hf]. split; [done|].
    destruct Hsl as [Hsl|]; [|congruence]. unfold unlock in Hne |- *.
    case_decide as Hown; cbn in Hne |- *; intros Hno.
    + destruct (lock_cv s) as [|j l] eqn:El; [done|]. cbn in Hne |- *.
      destruct (wk_lock _ _ _ Hw j ltac:(rewrite El; set_solver)) as [k Hj]. exists j, k.
      destruct (wk_nodup _ _ _ Hw) as [Hn1 _]. rewrite El in Hn1. apply NoDup_cons in Hn1 as [Hn1 _].
      rewrite list_lookup_insert_ne; [done|]. intros ->. apply Hil. set_solver.
    + destruct (Hf Hno) as (j & k & Hj & Hnot). exists j, k. rewrite list_lookup_insert_ne; [done|].
      intros ->. rewrite Ht in Hj. by injection Hj as ->.
  - rewrite Hrc. intros Hne. case_match eqn:E1'; [|lia]. exfalso. apply Hne.
    destruct (refc_cv s) as [|? [|]]; [done|done|simpl in Hone; lia].
Qed.

Lemma inv_put st ts i t t' p s :
  inv st ts → ts !! i = Some t → sessions st !! p = Some s →
  (∀ q, q ≠ p → refs q t' = refs q t) → S (refs p t') = refs p t →
  (∀ q, q ≠ p → locked t ≠ Some q) → locked t' = None → unlinking t = None → unlinking t' = None →
  awake i st → sleeps t = false ∨ unlink s = true → (∀ q k, t = TWait q k → q = p) →
  (∀ n q, t' ≠ TLookup n q HoldsReference) →
  inv (with_sessions st <[p := dec_ref (unlock i s)]>) (<[i := t']> ts).
Proof.
  intros Hi Ht Hp Hr Hrp Hl Hl' Hun Hun' Haw Hsl Hw1 Hlk.
  destruct (dec_ref_spec (unlock i s)) as (Eid & Er & El & Eu & _).
  apply (inv_update st ts i t t' p s); try done.
  - rewrite Eid. unfold unlock. by case_decide.
  - rewrite Er. assert (ref_count (unlock i s) = ref_count s) as -> by (unfold unlock; by case_decide). lia.
  - intros q Hq. split; [by apply Hl|by rewrite Hl'].
  - rewrite Hl', El. unfold unlock. case_decide; by split.
  - intros j Hj. rewrite El. unfold unlock. case_decide as Hd; [|done]. rewrite Hd. cbn. split; congruence.
  - intros q Hq. by rewrite Hun, Hun'.
  - left. rewrite Hun, Hun', Eu. unfold unlock. by case_decide.
  - by apply (wake_put st ts i t).
Qed.

(** A thread that slept for a session that is being closed. *)
Lemma inv_dec st ts i t t' p s :
  inv st ts → ts !! i = Some t → sessions st !! p = Some s → locked t = None →
  (∀ q, q ≠ p → refs q t' = refs q t) → S (refs p t') = refs p t →
  locked t' = None → unlinking t = None → unlinking t' = None →
  awake i st → unlink s = true → (∀ q k, t = TWait q k → q = p) → (∀ n q, t' ≠ TLookup n q HoldsReference) →
  inv (with_sessions st <[p := dec_ref s]>) (<[i := t']> ts).
Proof.
  intros Hi Ht Hp Hl Hr Hrp Hl' Hun Hun' Haw Hu Hw1 Hlk.
  pose proof (inv_put st ts i t t' p s Hi Ht Hp Hr Hrp ltac:(intros; by rewrite Hl) Hl' Hun Hun' Haw (or_intror Hu) Hw1 Hlk) as Hinv.
  unfold unlock in Hinv. rewrite decide_False in Hinv; [done|].
  rewrite (iv_lock _ _ Hi p s i Hp). intros (u & Hu' & Hlu). by simplify_eq.
Qed.

Lemma wp_put_thread st ts i t t' p (R : bad → tas → Prop) :
  inv st ts → ts !! i = Some t →
  (∀ q, q ≠ p → refs q t' = refs q t) → S (refs p t') = refs p t →
  (∀ q, q ≠ p → locked t ≠ Some q) → locked t' = None → unlinking t = None → unlinking t' = None →
  sleeps t = false → (∀ n q, t' ≠ TLookup n q HoldsReference) →
  wp (tee_ta_put_session i p) (λ _ st', inv st' (<[i := t']> ts)) R st.
Proof.
  intros Hi Ht Hr Hrp Hl Hl' Hun Hun' Hsl Hlk.
  destruct (iv_alive _ _ Hi i t Ht p ltac:(lia)) as [s Hp].
  apply (wp_put_session i p s); [done|eapply ref_count_pos; try done; lia|].
  apply (inv_put st ts i t t' p s); try done; [by eapply inv_awake|by left|by intros q k ->].
Qed.

(** ** New ids *)

Definition in_use (st : tas) (n : Z) : Prop := ∃ p s, sessions st !! p = Some s ∧ id s = n.

Definition ids : Z := 2 ^ 32 - 1.
(** The [j]th id from [saved] on; after the largest comes 1. *)
Definition nth_id (saved j : Z) : Z := 1 + (saved - 1 + j) mod ids.

Lemma nth_id_range saved j : 0 < nth_id saved j < 2 ^ 32.
Proof. unfold nth_id, ids. pose proof (Z.mod_pos_bound (saved - 1 + j) (2 ^ 32 - 1)). lia. Qed.

Lemma nth_id_next saved j :
  nth_id saved (j + 1) = (let i := wrap 32 (nth_id saved j + 1) in if i =? 0 then 1 else i).
Proof.
  unfold nth_id, wrap, ids. cbv zeta. rewrite (Z.add_assoc (saved - 1) j 1). set (x := saved - 1 + j).
  destruct (Z.eqb_spec ((1 + x mod (2 ^ 32 - 1) + 1) mod 2 ^ 32) 0); dlia.
Qed.

Lemma nth_id_first saved : 0 < saved < 2 ^ 32 → nth_id saved 0 = saved.
Proof. intros Hs. unfold nth_id, ids. rewrite Z.mod_small; lia. Qed.

Lemma nth_id_inj saved j k : 0 <= j < ids → 0 <= k < ids → nth_id saved j = nth_id saved k → j = k.
Proof. unfold nth_id, ids. intros Hj Hk He. dlia. Qed.

(** Every id is one of them. *)
Lemma nth_id_onto saved n : 0 < n < 2 ^ 32 → ∃ j, 0 <= j < ids ∧ nth_id saved j = n.
Proof.
  intros Hn. exists ((n - saved) mod ids). split; [apply Z.mod_pos_bound; done|].
  unfold nth_id, ids. rewrite Z.add_mod_idemp_r by done.
  replace (saved - 1 + (n - saved)) with (n - 1) by lia. rewrite Z.mod_small; lia.
Qed.

Lemma used_bound st ts saved n :
  inv st ts → (n <= Z.to_nat ids)%nat → (∀ j, 0 <= j < Z.of_nat n → in_use st (nth_id saved j)) →
  (n <= length (open_sessions st))%nat.
Proof.
  intros Hi Hn Hu.
  set (l := (λ j, nth_id saved (Z.of_nat j)) <$> seq 0 n).
  set (m := (λ p, default 0 (id <$> sessions st !! p)) <$> open_sessions st).
  assert (length l = n) as Hl by (unfold l; by rewrite length_fmap, length_seq).
  assert (length m = length (open_sessions st)) as Hm by (unfold m; apply length_fmap).
  rewrite <- Hl, <- Hm. apply submseteq_length, NoDup_submseteq.
  - apply NoDup_fmap_2_strong; [|apply NoDup_seq]. intros x y Hx%elem_of_seq Hy%elem_of_seq Hxy.
    apply nth_id_inj in Hxy; lia.
  - intros x (j & -> & Hj%elem_of_seq)%list_elem_of_fmap. destruct (Hu (Z.of_nat j) ltac:(lia)) as (p & s & Hp & <-).
    apply list_elem_of_fmap. exists p. rewrite Hp. split; [done|]. apply (iv_open _ _ Hi). by exists s.
Qed.

Lemma wp_new_id_loop st ts saved n k (R : bad → tas → Prop) :
  inv st ts → 0 < saved < 2 ^ 32 → Z.of_nat n < ids →
  (∀ j, 0 <= j < Z.of_nat n → in_use st (nth_id saved j)) → (n + k = S (length (open_sessions st)))%nat →
  wp (new_id_loop (nth_id saved (Z.of_nat n)) saved k)
    (λ i st', st' = st ∧ (i = 0 ∧ (∀ m, 0 < m < 2 ^ 32 → in_use st m)
                          ∨ 0 < i < 2 ^ 32 ∧ ¬ in_use st i)) R st.
Proof.
  intros Hi Hs. revert n. induction k as [|k IH]; intros n Hn Hu Hk; cbn [new_id_loop].
  { pose proof (used_bound st ts saved n Hi ltac:(unfold ids in *; lia) Hu). lia. }
  apply wp_bind. eapply wp_mono; [by apply (wp_find st ts _ R)| |done].
  intros [p|] st' [-> Hf].
  - assert (∀ j, 0 <= j < Z.of_nat (S n) → in_use st (nth_id saved j)) as Hu'.
    { intros j Hj. destruct (decide (j = Z.of_nat n)) as [-> |]; [|apply Hu; lia].
      destruct Hf as (s & Hp & <-). by exists p, s. }
    pose proof (nth_id_next saved (Z.of_nat n)) as Hnext. cbv zeta in *. rewrite <- Hnext.
    replace (Z.of_nat n + 1) with (Z.of_nat (S n)) by lia.
    destruct (Z.eqb_spec (nth_id saved (Z.of_nat (S n))) saved) as [He|He].
    + apply wp_ret. split; [done|]. left. split; [done|]. intros m Hm.
      assert (Z.of_nat (S n) = ids) as Hall.
      { destruct (Z.ltb_spec (Z.of_nat (S n)) ids) as [Hlt|]; [|lia].
        rewrite <- (nth_id_first saved Hs) in He at 2.
        apply nth_id_inj in He; unfold ids in *; lia. }
      destruct (nth_id_onto saved m Hm) as (j & Hj & <-). apply Hu'. lia.
    + apply IH; [|done|lia].
      destruct (Z.ltb_spec (Z.of_nat (S n)) ids) as [Hlt|]; [done|]. exfalso. apply He.
      assert (Z.of_nat (S n) = ids) as -> by lia. unfold nth_id, ids. rewrite <- Z.add_mod_idemp_r by done.
      rewrite Z.mod_same, Z.add_0_r, Z.mod_small by lia. lia.
  - apply wp_ret. split; [done|]. right. split; [apply nth_id_range|].
    intros (p & s & Hp & Hid). by apply (Hf p s).
Qed.

Lemma wp_new_session_id st ts (R : bad → tas → Prop) :
  inv st ts →
  wp new_session_id
    (λ i st', st' = st ∧ (i = 0 ∧ (∀ m, 0 < m < 2 ^ 32 → in_use st m)
                          ∨ 0 < i < 2 ^ 32 ∧ ¬ in_use st i)) R st.
Proof.
  intros Hi. unfold new_session_id. apply wp_bind, wp_get, wp_bind.
  eapply wp_mono with (Q := λ i st', st' = st ∧ 0 < i < 2 ^ 32); [|intros i st' [-> Hr]|by intros].
  - destruct (last (open_sessions st)) as [p|] eqn:El; [|by apply wp_ret].
    assert (p ∈ open_sessions st) as Hin by (apply last_Some in El as [l ->]; set_solver).
    apply (iv_open _ _ Hi) in Hin as [s Hp]. apply wp_bind, (wp_read p s); [done|]. apply wp_ret. split; [done|].
    pose proof (wrap_range 32 (id s + 1) ltac:(lia)) as Hw. unfold in_range in Hw.
    destruct (Z.eqb_spec (wrap 32 (id s + 1)) 0); lia.
  - rewrite <- (nth_id_first i Hr) at 1.
    apply (wp_new_id_loop st ts i 0); [done|done|done|intros; lia|lia].
Qed.

(** ** Every step keeps the invariant *)

(** A thread that takes a step is awake. *)
Lemma section_awake st ts i t m : inv st ts → ts !! i = Some t → section i st t m → awake i st.
Proof.
  intros Hi Ht Hsec. destruct (sleeps t) eqn:Hsl; [|by eapply inv_awake].
  intros q s Hq. pose proof (iv_wake _ _ Hi q s Hq) as Hw.
  split; intros Hin.
  - destruct (wk_lock _ _ _ Hw i Hin) as [k Hk]. rewrite Ht in Hk. injection Hk as ->.
    inversion Hsec; subst. naive_solver.
  - destruct (wk_refc _ _ _ Hw i Hin) as (k & c & Hk). rewrite Ht in Hk. injection Hk as ->.
    inversion Hsec; subst. naive_solver.
Qed.

Section one_thread.
Context (st : tas) (ts : list tpc) (i : nat).
Context (Hi : inv st ts).
Let R : bad → tas → Prop := λ _ _, False.

Lemma wp_sec_done p x :
  ts !! i = Some (TDone p x) →
  wp (_ ← tee_ta_put_session i p; mret TIdle) (λ t' st', inv st' (<[i := t']> ts)) R st.
Proof.
  intros Ht. apply wp_bind.
  eapply wp_mono; [apply (wp_put_thread st ts i (TDone p x) TIdle p R Hi Ht); destruct x; refs_tac| |done].
  intros [] st' Hi'. by apply wp_ret.
Qed.

Lemma wp_sec_returned p :
  ts !! i = Some (TReturned p) → is_Some (sessions st !! p) →
  wp (_ ← read p; mret TIdle) (λ t' st', inv st' (<[i := t']> ts)) R st.
Proof.
  intros Ht [s Hp]. apply wp_bind, (wp_read p s); [done|]. apply wp_ret.
  by apply (sess_quiet st ts i (TReturned p)).
Qed.

Lemma wp_sec_find n :
  ts !! i = Some TIdle →
  wp (r ← tee_ta_find_session_nolock n; mret (match r with Some p => TClose p ByRequest | None => TIdle end))
    (λ t' st', inv st' (<[i := t']> ts)) R st.
Proof.
  intros Ht. apply wp_bind. eapply wp_mono; [by apply (wp_find st ts n R)| |done].
  intros r st' [-> _]. apply wp_ret. apply (sess_quiet st ts i TIdle); [done|done|..]; destruct r; refs_tac.
Qed.

(** A thread that starts to sleep. *)
Lemma wp_must_wait t p k s :
  ts !! i = Some t → sessions st !! p = Some s → unlink s = false → lock_thread s ≠ None →
  locked t = None → unlinking t = None → sleeps t = false →
  (∀ q, q ≠ p → refs q (TWait p k) = refs q t) → refs p (TWait p k) = S (refs p t) →
  inv (with_sessions st <[p := set_lock_cv (set_ref s (ref_count s + 1)) (lock_cv s ++ [i])]>) (<[i := TWait p k]> ts).
Proof.
  intros Ht Hp Hu Hl Hlk Hun Hsl Hr Hrp.
  apply (inv_sleep st ts i t p k s); try done; [lia| |by eapply inv_awake|by intros q k' ->].
  intros Hne. destruct (refc_cv s) as [|j l] eqn:Hj; [done|].
  pose proof (iv_wake _ _ Hi p s Hp) as Hw.
  destruct (wk_refc _ _ _ Hw j ltac:(rewrite Hj; set_solver)) as (k' & c & Htj).
  pose proof (ref_count_pos st ts j _ p s Hi Htj Hp) as Hpos. unfold refs in Hpos. cbn in Hpos.
  rewrite decide_True in Hpos by done. specialize (Hpos ltac:(lia)). lia.
Qed.

Lemma wp_sec_get n :
  ts !! i = Some TIdle →
  wp (r ← tee_ta_get_session i n true;
      mret (match r with GotNull => TIdle | Got q => TGot q | MustWait q => TWait q None end))
    (λ t' st', inv st' (<[i := t']> ts)) R st.
Proof.
  intros Ht. apply wp_bind. eapply wp_mono; [by apply (wp_get_raw st ts i TIdle n true R)| |done].
  intros [|q|q] st' Hr; apply wp_ret.
  - subst. by apply (sess_quiet st ts i TIdle).
  - destruct Hr as (s & Hq & _ & Hu & Hl & ->).
    apply (inv_acquire st ts i TIdle (TGot q) q s true); try done; refs_tac.
  - destruct Hr as (s & Hq & _ & Hu & _ & Hl & ->). apply (wp_must_wait TIdle q None s); try done; refs_tac.
Qed.

Lemma wp_sec_get_shared n :
  ts !! i = Some TIdle →
  wp (r ← tee_ta_get_session i n false; mret (match r with Got q => TShared q | _ => TIdle end))
    (λ t' st', inv st' (<[i := t']> ts)) R st.
Proof.
  intros Ht. apply wp_bind. eapply wp_mono; [by apply (wp_get_raw st ts i TIdle n false R)| |done].
  intros [|q|q] st' Hr; apply wp_ret.
  - subst. by apply (sess_quiet st ts i TIdle).
  - destruct Hr as (s & Hq & _ & Hu & Hl & ->).
    apply (inv_acquire st ts i TIdle (TShared q) q s false); try done; refs_tac.
  - by destruct Hr as (s & _ & _ & _ & ? & _).
Qed.

Lemma wp_sec_close p k :
  ts !! i = Some (TClose p k) → is_Some (sessions st !! p) →
  wp (s ← read p; mret (TLookup (id s) p k)) (λ t' st', inv st' (<[i := t']> ts)) R st.
Proof.
  intros Ht [s Hp]. apply wp_bind, (wp_read p s); [done|]. apply wp_ret.
  apply (sess_quiet st ts i (TClose p k)); try done. intros n q s' [= <- <- ->] Hq. congruence.
Qed.

(** A session that is looked up with a reference held is the one the id was read in. *)
Lemma lookup_same n p k q s :
  ts !! i = Some (TLookup n p k) → sessions st !! q = Some s → id s = n → k = HoldsReference → q = p.
Proof.
  intros Ht Hq Hn ->. destruct (iv_alive _ _ Hi i _ Ht p) as [s' Hp]; [refs_tac|].
  apply (iv_ids _ _ Hi q p s s'); [done|done|]. rewrite (iv_lookup _ _ Hi i n p s' Ht Hp). done.
Qed.

Lemma wp_sec_lookup n p k :
  ts !! i = Some (TLookup n p k) →
  wp (r ← tee_ta_get_session i n true;
      mret (match r with GotNull => lost p k | Got q => TCheck q k | MustWait q => TWait q (Some k) end))
    (λ t' st', inv st' (<[i := t']> ts)) R st.
Proof.
  intros Ht. apply wp_bind.
  eapply wp_mono; [by apply (wp_get_raw st ts i (TLookup n p k) n true R)| |done].
  intros [|q|q] st' Hr; apply wp_ret.
  - subst. apply (sess_quiet st ts i (TLookup n p k)); try done; unfold lost, returned, reads_next; destruct k; refs_tac.
  - destruct Hr as (s' & Hq & Hid & Hu & Hl & ->). pose proof (lookup_same n p k q s' Ht Hq Hid) as Hsame.
    apply (inv_acquire st ts i (TLookup n p k) (TCheck q k) q s' true); try done; destruct k; try (rewrite (Hsame eq_refl)); refs_tac.
  - destruct Hr as (s' & Hq & Hid & Hu & _ & Hl & ->). pose proof (lookup_same n p k q s' Ht Hq Hid) as Hsame.
    apply (wp_must_wait (TLookup n p k) q (Some k) s'); try done; destruct k; try (rewrite (Hsame eq_refl)); refs_tac.
Qed.

Lemma wp_sec_wait p k :
  ts !! i = Some (TWait p k) → awake i st →
  wp (r ← wait_lock i p;
      mret (match r, k with
            | GotNull, Some k => lost p k
            | GotNull, None => TIdle
            | MustWait q, k => TWait q k
            | Got q, None => TGot q
            | Got q, Some k => TCheck q k end))
    (λ t' st', inv st' (<[i := t']> ts)) R st.
Proof.
  intros Ht Haw. destruct (iv_alive _ _ Hi i _ Ht p) as [s Hp]; [refs_tac|].
  assert (lock_thread s ≠ Some i) as Hnl.
  { rewrite (iv_lock _ _ Hi p s i Hp). intros (u & Hu' & Hlu). by simplify_eq. }
  assert (∀ q k', TWait p k = TWait q k' → q = p) as Hw1 by (by intros q k' [= -> _]).
  apply wp_bind. unfold wait_lock. apply wp_bind, (wp_read p s); [done|].
  destruct (bool_decide (lock_thread s ≠ None)) eqn:Hl; destruct (unlink s) eqn:Hu; cbn [negb andb].
  1, 3: apply wp_bind, (wp_dec p s); [done|eapply ref_count_pos; try done; refs_tac|]; apply wp_ret, wp_ret;
    assert ((match k with Some k => lost p k | None => TIdle end) = match k with Some HoldsReference => TLost p
      | Some ThenReads => TReturned p | _ => TIdle end) as -> by (by destruct k as [[]|]);
    apply (inv_dec st ts i (TWait p k) _ p s); try done; destruct k as [[]|]; refs_tac.
  - apply bool_decide_eq_true in Hl. apply wp_bind, wp_store, wp_ret, wp_ret.
    assert (s = set_ref s (ref_count s)) as Es by (by destruct s). rewrite Es at 1.
    apply (inv_sleep st ts i (TWait p k) p k s); try done. intros Hne. by apply (wk_alone _ _ _ (iv_wake _ _ Hi p s Hp)).
  - apply wp_bind, wp_store, wp_ret, wp_ret. apply bool_decide_eq_false, dec_stable in Hl.
    set (t' := match k with None => TGot p | Some k => TCheck p k end).
    assert (locked t' = Some p ∧ unlinking t' = None ∧ (∀ q, refs q t' = refs q (TWait p k)) ∧ ∀ n q, t' ≠ TLookup n q HoldsReference)
      as (Hl' & Hu' & Hr' & Hlk') by (unfold t'; by destruct k).
    replace (match k with Some base => TCheck p base | None => TGot p end) with t' by done. clearbody t'.
    apply (inv_update st ts i (TWait p k) t' p s); try done.
    + by rewrite Hr'.
    + intros q Hq. rewrite Hl'. split; [done|congruence].
    + intros j Hj. cbn. rewrite Hl. split; congruence.
    + intros q Hq. by rewrite Hu'.
    + left. by rewrite Hu'.
    + destruct (Haw p s Hp) as [Hil Hir]. destruct (iv_wake _ _ Hi p s Hp) as [Hn Hwl Hwr Hwf Hwa].
      constructor; cbn; try done.
      * intros j Hj. rewrite (lookup_thread ts i _ _ j Ht). case_decide; [by subst|auto].
      * intros j Hj. rewrite (lookup_thread ts i _ _ j Ht). case_decide; [by subst|auto].
Qed.

Lemma wp_sec_check p k who :
  ts !! i = Some (TCheck p k) →
  wp (r ← close_check i p who; mret (match r with Some c => TUnlinkStart p k c | None => lost p k end))
    (λ t' st', inv st' (<[i := t']> ts)) R st.
Proof.
  intros Ht. destruct (iv_alive _ _ Hi i _ Ht p) as [s Hp]; [refs_tac|].
  apply wp_bind. unfold close_check. apply wp_bind, (wp_read p s); [done|]. destruct (check_client s who).
  - apply wp_ret, wp_ret. apply (sess_quiet st ts i (TCheck p k)); done.
  - apply wp_bind. eapply wp_mono; [apply (wp_put_thread st ts i (TCheck p k) (lost p k) p R Hi Ht);
      unfold lost, returned, reads_next; destruct k; refs_tac| |done].
    intros [] st' Hi'. by apply wp_ret, wp_ret.
Qed.

Lemma wp_sec_cancel p who :
  ts !! i = Some (TShared p) →
  wp (_ ← tee_ta_cancel_command p who; mret (TDone p false)) (λ t' st', inv st' (<[i := t']> ts)) R st.
Proof.
  intros Ht. destruct (iv_alive _ _ Hi i _ Ht p) as [s Hp]; [refs_tac|].
  pose proof (inv_awake st ts i _ Hi Ht eq_refl) as Haw. destruct (Haw p s Hp).
  apply wp_bind. unfold tee_ta_cancel_command. apply wp_bind, (wp_read p s); [done|]. destruct (check_client s who).
  - apply wp_store, wp_ret. apply (inv_update st ts i (TShared p) (TDone p false) p s); try done; [|by left|].
    + cbn. split; [|done]. intros Hl. apply (iv_lock _ _ Hi p s i Hp) in Hl as (u & Hu & Hlu). by simplify_eq.
    + apply (wake_update ts i (TShared p) _ p s); try done; [by apply (iv_wake _ _ Hi)|].
      apply (wk_alone _ _ _ (iv_wake _ _ Hi p s Hp)).
  - apply wp_ret, wp_ret. by apply (sess_quiet st ts i (TShared p)).
Qed.

Lemma wp_sec_unlink_wait p k c :
  ts !! i = Some (TUnlink p k c) → awake i st →
  wp (done ← wait_unlink i p; mret (if done : bool then after p k c else TUnlink p k c))
    (λ t' st', inv st' (<[i := t']> ts)) R st.
Proof.
  intros Ht Haw. destruct (iv_alive _ _ Hi i _ Ht p) as [s Hp]; [refs_tac|].
  apply wp_bind. unfold wait_unlink. apply wp_bind, (wp_read p s); [done|].
  destruct (Z.eqb_spec (ref_count s) 1) as [Hr|Hr]; cbn [negb].
  - apply wp_bind, wp_get, wp_bind, wp_put, wp_ret, wp_ret.
    rewrite (iv_refs _ _ Hi p s Hp) in Hr. pose proof (total_has p ts i _ Ht) as Hm.
    assert (refs p (TUnlink p k c) = 1)%nat as H1.
    { unfold refs in *. cbn in *. rewrite decide_True in * by done. lia. }
    assert (∀ n q, after p k c ≠ TLookup n q HoldsReference) by (by destruct c, k).
    eapply (inv_remove st ts i (TUnlink p k c) (after p k c) p s); try done; try lia; destruct c, k; refs_tac.
  - apply wp_bind, wp_store, wp_ret, wp_ret. destruct (Haw p s Hp) as [Hil Hir].
    destruct (iv_wake _ _ Hi p s Hp) as [[Hn1 Hn2] Hwl Hwr Hwf Hwa].
    apply (inv_update st ts i (TUnlink p k c) (TUnlink p k c) p s); try done.
    + refs_tac.
    + cbn. rewrite (iv_lock _ _ Hi p s i Hp). split; [done|]. intros _. by exists (TUnlink p k c).
    + intros q Hq. refs_tac.
    + by left.
    + rewrite list_insert_id by done. constructor; cbn; try done.
      * split; [done|]. apply NoDup_app. split; [done|]. split; [|apply NoDup_singleton]. set_solver.
      * intros j [Hj| ->%list_elem_of_singleton]%elem_of_app; [auto|by exists k, c].
Qed.
End one_thread.

(** The end of tee_ta_open_session() in its thread. *)
Lemma ok_sec_entered st ts i p c (b : bool) :
  inv st ts → ts !! i = Some (TEntered p c) →
  ok (dead ← open_end i p c; mret (entered p b dead)) (λ t' st', inv st' (<[i := t']> ts)) st.
Proof.
  intros Hi Ht. unfold open_end. apply ok_bind, ok_bind. unfold read_ctx. apply ok_bind, ok_get.
  destruct (ctxs st !! c) as [x|]; [|by apply ok_throw]. apply ok_ret, ok_bind.
  eapply ok_mono; [apply (ok_wp _ _ (λ _ _, False)), (wp_put_thread st ts i (TEntered p c) (entered p b (panicked x)) p _ Hi Ht);
    unfold entered; destruct (panicked x), b; refs_tac|].
  intros [] st' Hi'. by apply ok_ret, ok_ret.
Qed.

Lemma wp_sec_unlink st ts i p k c :
  inv st ts → ts !! i = Some (TUnlinkStart p k c) →
  wp (done ← tee_ta_unlink_session i p; mret (if done : bool then after p k c else TUnlink p k c))
    (λ t' st', inv st' (<[i := t']> ts)) (λ _ _, False) st.
Proof.
  intros Hi Ht. destruct (iv_alive _ _ Hi i _ Ht p) as [s Hp]; [refs_tac|].
  assert (lock_thread s = Some i) as Hl by (apply (iv_lock _ _ Hi p s i Hp); by eexists).
  assert (unlink s = false) as Hu.
  { apply not_true_is_false. intros Hu. apply (iv_unlink _ _ Hi p s Hp) in Hu as (j & u & Hj & Hun).
    destruct u; simplify_eq/=. assert (lock_thread s = Some j) as Hlj by (apply (iv_lock _ _ Hi p s j Hp); by eexists).
    by simplify_eq. }
  pose proof (inv_awake st ts i _ Hi Ht eq_refl) as Haw. destruct (Haw p s Hp) as [Hil Hir].
  destruct (iv_wake _ _ Hi p s Hp) as [[_ Hn2] _ Hwr _ Hwa].
  assert (inv (with_sessions st <[p := set_lock_cv (set_unlink s) []]>) (<[i := TUnlink p k c]> ts)) as Hi'.
  { apply (inv_update st ts i (TUnlinkStart p k c) (TUnlink p k c) p s); try done; try refs_tac.
    all: try (cbn; rewrite ?Hl; first [done | by right]).
    constructor; cbn; try done; [split; [apply NoDup_nil_2|done]|by intros j ?%elem_of_nil|].
    intros j Hj. rewrite (lookup_thread ts i _ _ j Ht). case_decide; [by subst|auto]. }
  assert (awake i (with_sessions st <[p := set_lock_cv (set_unlink s) []]>)) as Haw'.
  { intros q s1. cbn. rewrite lookup_insert_Some. intros [[<- <-]|[_ Hq]]; [cbn; split; [set_solver|done]|exact (Haw q s1 Hq)]. }
  unfold tee_ta_unlink_session. apply wp_bind, wp_bind, (wp_read p s); [done|].
  assert (0 < ref_count s) by (apply (ref_count_pos st ts i (TUnlinkStart p k c) p s); try done; refs_tac).
  apply wp_bind, wp_assert; [apply Z.leb_le; lia|]. apply wp_bind, wp_assert; [by apply bool_decide_eq_true_2|].
  apply wp_bind, wp_assert; [by rewrite Hu|]. apply wp_bind, wp_store.
  assert (<[i := TUnlink p k c]> ts !! i = Some (TUnlink p k c)) as Ht'
    by (apply list_lookup_insert_eq; by eapply lookup_lt_Some).
  pose proof (wp_sec_unlink_wait _ _ i Hi' p k c Ht' Haw') as Hw. apply wp_bind_inv in Hw.
  eapply wp_mono; [exact Hw| |done]. intros b st' Hb.
  eapply wp_mono; [exact Hb| |done]. cbv beta. intros t' st'' Hr. rewrite list_insert_insert in Hr. by case_decide.
Qed.

(** What the protocol of the references depends on. *)
Definition view (s : tee_ta_session) : Z * Z * option nat * bool * list nat * list nat :=
  (id s, ref_count s, lock_thread s, unlink s, lock_cv s, refc_cv s).
Definition same_view (st st' : tas) : Prop :=
  view <$> sessions st' = view <$> sessions st ∧ open_sessions st' = open_sessions st.

#[global] Instance same_view_preorder : PreOrder same_view.
Proof.
  split; [done|]. intros st1 st2 st3 [H1 O1] [H2 O2]. split; congruence.
Qed.

Lemma same_view_lookup st st' p s' :
  same_view st st' → sessions st' !! p = Some s' → ∃ s, sessions st !! p = Some s ∧ view s = view s'.
Proof.
  intros [Hv _] Hp. apply (f_equal (lookup p)) in Hv. rewrite !lookup_fmap, Hp in Hv. cbn in Hv.
  destruct (sessions st !! p) as [s|]; [|done]. exists s. split; [done|]. cbn in Hv. congruence.
Qed.

Lemma same_view_some st st' p : same_view st st' → is_Some (sessions st' !! p) ↔ is_Some (sessions st !! p).
Proof.
  intros [Hv _]. rewrite <- !(fmap_is_Some view). rewrite <- !lookup_fmap. by rewrite Hv.
Qed.

Lemma inv_view st st' ts : same_view st st' → inv st ts → inv st' ts.
Proof.
  intros Hv Hi. pose proof (λ p s, same_view_lookup st st' p s Hv) as Hl.
  constructor; rewrite ?(proj2 Hv).
  - apply Hi.
  - intros p. rewrite (iv_open _ _ Hi). symmetry. by apply same_view_some.
  - intros p q s s' (s1 & Hs1 & [=])%Hl (s2 & Hs2 & [=])%Hl He. apply (iv_ids _ _ Hi p q s1 s2); congruence.
  - intros p s (s1 & Hs1 & [= <- _ _ _ _ _])%Hl. by apply (iv_id _ _ Hi p).
  - intros p s (s1 & Hs1 & [= _ <- _ _ _ _])%Hl. by apply (iv_refs _ _ Hi p).
  - intros p s j (s1 & Hs1 & [= _ _ <- _ _ _])%Hl. by apply (iv_lock _ _ Hi p).
  - intros p s (s1 & Hs1 & [= _ _ _ <- _ _])%Hl. by apply (iv_unlink _ _ Hi p).
  - intros j t Ht p Hp. apply (same_view_some st st' p Hv). by eapply (iv_alive _ _ Hi).
  - intros j n p s Ht (s1 & Hs1 & [= <- _ _ _ _ _])%Hl. by apply (iv_lookup _ _ Hi j n p).
  - intros p s (s1 & Hs1 & [= _ Hr Hk Hu Hlc Hrc])%Hl.
    destruct (iv_wake _ _ Hi p s1 Hs1). constructor; by rewrite <- ?Hr, <- ?Hk, <- ?Hu, <- ?Hlc, <- ?Hrc.
  - apply Hi.
Qed.

Lemma same_view_store st p s s' :
  sessions st !! p = Some s → view s' = view s → same_view st (with_sessions st <[p := s']>).
Proof.
  intros Hp Hv. split; [|done]. cbn. rewrite fmap_insert, Hv, <- fmap_insert. by rewrite insert_id.
Qed.

Lemma ok_read p (Q : tee_ta_session → tas → Prop) st :
  (∀ s, sessions st !! p = Some s → Q s st) → ok (read p) Q st.
Proof.
  intros HQ. unfold read. apply ok_bind, ok_get. destruct (sessions st !! p) as [s|]; [|by apply ok_throw].
  by apply ok_ret, HQ.
Qed.

Lemma ok_store p s (Q : unit → tas → Prop) st : Q tt (with_sessions st <[p := s]>) → ok (store p s) Q st.
Proof. intros HQ. unfold store. by apply ok_bind, ok_get, ok_put. Qed.

Lemma ok_read_ctx c (Q : tee_ta_ctx → tas → Prop) st :
  (∀ x, ctxs st !! c = Some x → Q x st) → ok (read_ctx c) Q st.
Proof.
  intros HQ. unfold read_ctx. apply ok_bind, ok_get. destruct (ctxs st !! c) as [x|]; [|by apply ok_throw].
  by apply ok_ret, HQ.
Qed.

Lemma ok_store_ctx c x (Q : unit → tas → Prop) st : Q tt (with_ctxs st <[c := x]>) → ok (store_ctx c x) Q st.
Proof. intros HQ. unfold store_ctx. by apply ok_bind, ok_get, ok_put. Qed.

Lemma ok_put_ctx c st : ok (put_ctx c) (λ _ st', same_view st st') st.
Proof.
  unfold put_ctx. apply ok_bind, ok_read_ctx. intros x _. apply ok_bind, ok_assert. intros _.
  cbv zeta. apply ok_bind, ok_store_ctx. destruct (_ && negb _); [|by apply ok_ret].
  apply ok_bind, ok_get, ok_bind, ok_put. unfold destroy_context. by apply ok_bind, ok_get, ok_put.
Qed.

Lemma ok_drop_ctx l p c n st : ok (drop_ctx l p c n) (λ _ st', same_view st st') st.
Proof.
  revert n st. induction l as [|q l IH]; intros n st; cbn [drop_ctx]; [by apply ok_ret|].
  apply ok_bind, ok_read. intros s Hq. destruct (_ && _); [|apply IH]. apply ok_bind, ok_store.
  eapply ok_mono; [apply IH|]. cbv beta. intros _ st' Hv. etrans; [|exact Hv]. by eapply same_view_store.
Qed.

Lemma ok_destroy p st : ok (destroy_ta_ctx_from_session p) (λ _ st', same_view st st') st.
Proof.
  unfold destroy_ta_ctx_from_session. apply ok_bind, ok_read. intros s Hp.
  destruct (ctx s) as [c|]; [|by apply ok_throw]. apply ok_bind, ok_get, ok_bind.
  eapply ok_mono; [apply ok_drop_ctx|]. intros n st1 Hv. apply ok_bind, ok_read_ctx. intros x _.
  apply ok_bind, ok_assert. intros _. apply ok_bind, ok_get, ok_bind, ok_put. unfold destroy_context.
  apply ok_bind, ok_bind, ok_get, ok_put, ok_bind, ok_read. intros s1 Hp1. apply ok_store.
  etrans; [exact Hv|]. etrans; [|eapply same_view_store; [exact Hp1|done]]. done.
Qed.

Lemma ok_open_check p who st : ok (open_check p who) (λ _ st', same_view st st') st.
Proof.
  unfold open_check. apply ok_bind, ok_read. intros s Hp. destruct (ctx s) as [c|]; [|by apply ok_ret].
  apply ok_bind, ok_read_ctx. intros x _. destruct (panicked x); [by apply ok_ret|].
  apply ok_bind, ok_store, ok_ret. by eapply same_view_store.
Qed.

Lemma ok_invoke_check p who st : ok (invoke_check p who) (λ _ st', st' = st) st.
Proof.
  unfold invoke_check. apply ok_bind, ok_read. intros s _. destruct (negb _); [by apply ok_ret|].
  destruct (ctx s); [|by apply ok_ret]. apply ok_bind, ok_read_ctx. intros. by apply ok_ret.
Qed.

Lemma ok_ctx_panicked p st : ok (ctx_panicked p) (λ _ st', st' = st) st.
Proof.
  unfold ctx_panicked. apply ok_bind, ok_read. intros s _.
  destruct (ctx s); [|by apply ok_throw]. apply ok_bind, ok_read_ctx. intros. by apply ok_ret.
Qed.

(** ** Opening a session *)

Definition fresh_session (n : Z) (c : nat) : tee_ta_session :=
  Session n (Some c) (Identity 0 []) false true (Time 0 0) 1 None false [] [].

(** What the first context with [uuid] allows. *)
Definition reuse (st : tas) (uuid : list Z) : option (tee_result + nat * tee_ta_ctx) :=
  c ← head (filter (λ c, c_uuid <$> ctxs st !! c = Some uuid) (tee_ctxes st));
  x ← ctxs st !! c;
  if negb (Z.testbit (flags x) TA_FLAG_SINGLE_INSTANCE) then None
  else if negb (Z.testbit (flags x) TA_FLAG_MULTI_SESSION) && negb (c_ref_count x =? 0)
  then Some (inl TEE_ERROR_BUSY) else Some (inr (c, x)).

Lemma wp_context_find_loop st l uuid (R : bad → tas → Prop) :
  (∀ c, c ∈ l → is_Some (ctxs st !! c)) →
  wp (context_find_loop l uuid)
    (λ r st', st' = st ∧ r = head (filter (λ c, c_uuid <$> ctxs st !! c = Some uuid) l)) R st.
Proof.
  induction l as [|c l IH]; intros Hl; cbn [context_find_loop]; [by apply wp_ret|].
  destruct (Hl c ltac:(set_solver)) as [x Hx]. unfold read_ctx at 1. apply wp_bind, wp_bind, wp_get. rewrite Hx.
  apply wp_ret. rewrite filter_cons, Hx. cbn [fmap option_fmap option_map]. case_bool_decide as Hu.
  - apply wp_ret. by rewrite Hu, decide_True.
  - rewrite decide_False by congruence. apply IH. set_solver.
Qed.

Lemma wp_read_ctx c x (Q : tee_ta_ctx → tas → Prop) R st :
  ctxs st !! c = Some x → Q x st → wp (read_ctx c) Q R st.
Proof. intros Hc HQ. unfold read_ctx. apply wp_bind, wp_get. by rewrite Hc. Qed.

Lemma wp_store_ctx c x (Q : unit → tas → Prop) R st :
  Q tt (with_ctxs st <[c := x]>) → wp (store_ctx c x) Q R st.
Proof. intros HQ. unfold store_ctx. by apply wp_bind, wp_get, wp_put. Qed.

(** The new session [s] with pointer [p], and the context it uses at [c]. *)
Definition with_session (st : tas) (p : nat) (s : tee_ta_session) (c : nat) (x : tee_ta_ctx) (new : bool) : tas :=
  Tas (<[p := s]> (sessions st)) (open_sessions st ++ [p]) (<[c := x]> (ctxs st))
    (if new then tee_ctxes st ++ [c] else tee_ctxes st).

Lemma wp_init_with_context st p uuid n (R : bad → tas → Prop) (c : option nat) :
  let st1 := Tas (<[p := Session n None (Identity 0 []) false true (Time 0 0) 1 None false [] []]> (sessions st))
               (open_sessions st ++ [p]) (ctxs st) (tee_ctxes st) in
  (∀ c, c ∈ tee_ctxes st → is_Some (ctxs st !! c)) →
  c = head (filter (λ c, c_uuid <$> ctxs st !! c = Some uuid) (tee_ctxes st)) →
  wp (match c with
      | Some c => tee_ta_init_session_with_context c p
      | None => mret TEE_ERROR_ITEM_NOT_FOUND
      end)
    (λ r st', match reuse st uuid with
              | None => r = TEE_ERROR_ITEM_NOT_FOUND ∧ st' = st1
              | Some (inl e) => r = TEE_ERROR_BUSY ∧ e = r ∧ st' = st1
              | Some (inr (c, x)) => r = TEE_SUCCESS
                  ∧ st' = with_session st p (fresh_session n c) c (set_cref x (wrap 32 (c_ref_count x + 1))) false
              end) R st1.
Proof.
  intros st1 Hctx Hc. unfold reuse. rewrite <- Hc. destruct c as [c|]; [|by apply wp_ret].
  cbn [mbind option_bind]. assert (c ∈ tee_ctxes st) as [x Hx]%Hctx.
  { symmetry in Hc. apply head_Some in Hc as [l Hl].
    assert (c ∈ filter (λ c, c_uuid <$> ctxs st !! c = Some uuid) (tee_ctxes st)) as Hin by (rewrite Hl; set_solver).
    by apply list_elem_of_filter in Hin as [_ ?]. }
  rewrite Hx. cbn [mbind option_bind]. unfold tee_ta_init_session_with_context.
  apply wp_bind, (wp_read_ctx c x); [done|].
  destruct (Z.testbit (flags x) TA_FLAG_SINGLE_INSTANCE); cbn [negb]; [|by apply wp_ret].
  destruct (_ && _); [by apply wp_ret|]. apply wp_bind, wp_store_ctx, wp_bind.
  eapply wp_read; [by apply lookup_insert_eq|]. apply wp_bind, wp_store, wp_ret. split; [done|].
  unfold with_session, with_sessions, with_ctxs. cbn. by rewrite insert_insert_eq.
Qed.

Lemma wp_fresh_id st ts (R : bad → tas → Prop) :
  inv st ts → Z.of_nat (length (open_sessions st)) < 2 ^ 31 →
  wp new_session_id (λ i st', st' = st ∧ 0 < i < 2 ^ 32 ∧ ¬ in_use st i) R st.
Proof.
  intros Hi Hn. eapply wp_mono; [by apply (wp_new_session_id st ts)| |done].
  intros i st' [-> [[-> Hall]|Hr]]; [|done]. exfalso.
  assert (S (length (open_sessions st)) <= length (open_sessions st))%nat; [|lia].
  apply (used_bound st ts 1); [done|unfold ids; lia|]. intros j _. apply Hall, nth_id_range.
Qed.

Definition unused (st : tas) (p : nat) : Prop := sessions st !! p = None ∧ p ∉ open_sessions st.

Lemma remove_new st p s :
  unused st p →
  Tas (delete p (<[p := s]> (sessions st))) (filter (λ q, q ≠ p) (open_sessions st ++ [p])) (ctxs st) (tee_ctxes st) = st.
Proof.
  intros [Hp Hpo]. rewrite delete_insert_id by done.
  rewrite filter_app, filter_cons, decide_False, filter_nil, app_nil_r by auto.
  rewrite filter_all; [by destruct st|]. by intros q Hq ->.
Qed.

Lemma wp_init_session st ts p uuid load (R : bad → tas → Prop) :
  inv st ts → unused st p → Z.of_nat (length (open_sessions st)) < 2 ^ 31 →
  (∀ c, c ∈ tee_ctxes st → is_Some (ctxs st !! c)) →
  wp (tee_ta_init_session p uuid load)
    (λ r st', match reuse st uuid, load with
              | Some (inl e), _ | None, NotLoaded e => r = e ∧ (r ≠ TEE_SUCCESS → st' = st)
              | Some (inr (c, x)), _ => r = TEE_SUCCESS ∧ ∃ n, 0 < n < 2 ^ 32 ∧ ¬ in_use st n
                  ∧ st' = with_session st p (fresh_session n c) c (set_cref x (wrap 32 (c_ref_count x + 1))) false
              | None, Loaded c x => r = TEE_SUCCESS ∧ ∃ n, 0 < n < 2 ^ 32 ∧ ¬ in_use st n
                  ∧ st' = with_session st p (fresh_session n c) c x true
              end) R st.
Proof.
  intros Hi [Hp Hpo] Hn Hctx. unfold tee_ta_init_session. apply wp_bind, wp_get, wp_bind.
  eapply wp_mono; [by apply (wp_fresh_id st ts R)| |done]. intros n st0 (-> & Hrange & Hfresh).
  destruct (Z.eqb_spec n 0) as [|_]; [lia|]. apply wp_bind, wp_store, wp_bind, wp_get, wp_bind, wp_put.
  unfold tee_ta_context_find. apply wp_bind, wp_bind, wp_get.
  eapply wp_mono; [by apply wp_context_find_loop with (R := R)| |done]. intros c ? [-> Hc]. cbv beta.
  apply wp_bind. eapply wp_mono; [exact (wp_init_with_context st p uuid n R c Hctx Hc)| |done].
  intros r st1 Hr. destruct (reuse st uuid) as [[e|[c1 x1]]|] eqn:Hreuse.
  - destruct Hr as (-> & -> & ->). apply wp_bind, wp_ret. cbn [bool_decide]. apply wp_bind, wp_get, wp_bind, wp_put, wp_ret.
    split; [done|]. intros _. exact (remove_new st p _ (conj Hp Hpo)).
  - destruct Hr as (-> & ->). apply wp_bind, wp_ret, wp_ret. split; [done|]. by exists n.
  - destruct Hr as (-> & ->). apply wp_bind. destruct load as [e|c1 x1].
    + apply wp_ret. case_bool_decide; [by apply wp_ret|]. apply wp_bind, wp_get, wp_bind, wp_put, wp_ret.
      split; [done|]. intros _. exact (remove_new st p _ (conj Hp Hpo)).
    + apply wp_bind. eapply wp_read; [by apply lookup_insert_eq|].
      apply wp_bind, wp_store, wp_bind, wp_get, wp_bind, wp_put, wp_ret, wp_ret. split; [done|].
      exists n. split; [done|]. split; [done|]. unfold with_session, fresh_session. cbn. by rewrite insert_insert_eq.
Qed.

(** ** Every step keeps the invariant *)

(** The list of contexts holds the ones that exist. *)
Definition listed (st : tas) : Prop := ∀ c, c ∈ tee_ctxes st ↔ is_Some (ctxs st !! c).

(** What the contexts depend on. *)
Definition same_ctx (st st' : tas) : Prop :=
  ctx <$> sessions st' = ctx <$> sessions st ∧ ctxs st' = ctxs st ∧ tee_ctxes st' = tee_ctxes st.

#[global] Instance same_ctx_preorder : PreOrder same_ctx.
Proof. split; [done|]. intros st1 st2 st3 (? & ? & ?) (? & ? & ?). unfold same_ctx. split_and!; congruence. Qed.

Lemma same_ctx_store st p s s' :
  sessions st !! p = Some s → ctx s' = ctx s → same_ctx st (with_sessions st <[p := s']>).
Proof.
  intros Hp Hv. split; [|done]. cbn. rewrite fmap_insert, Hv, <- fmap_insert. by rewrite insert_id.
Qed.

Lemma ok_dec p st : ok (dec_session_ref_count p) (λ _ st', same_ctx st st') st.
Proof.
  unfold dec_session_ref_count. apply ok_bind, ok_read. intros s Hp. apply ok_bind, ok_assert. intros _.
  cbv zeta. apply ok_store. eapply same_ctx_store; [done|]. by case_match.
Qed.

Lemma ok_put_session tid p st : ok (tee_ta_put_session tid p) (λ _ st', same_ctx st st') st.
Proof.
  unfold tee_ta_put_session. apply ok_bind, ok_read. intros s Hp. apply ok_bind. case_bool_decide.
  - apply ok_store. eapply ok_mono; [apply ok_dec|]. intros ? st' Hv. etrans; [|exact Hv]. by eapply same_ctx_store.
  - apply ok_ret, ok_dec.
Qed.

Lemma ok_find_loop l n st : ok (find_loop l n) (λ _ st', st' = st) st.
Proof.
  induction l as [|p l IH]; cbn [find_loop]; [by apply ok_ret|]. apply ok_bind, ok_read. intros s Hp.
  destruct (id s =? n); [by apply ok_ret|apply IH].
Qed.

Lemma ok_find n st : ok (tee_ta_find_session_nolock n) (λ _ st', st' = st) st.
Proof. unfold tee_ta_find_session_nolock. apply ok_bind, ok_get, ok_find_loop. Qed.

Lemma ok_wait_lock tid p st : ok (wait_lock tid p) (λ _ st', same_ctx st st') st.
Proof.
  unfold wait_lock. apply ok_bind, ok_read. intros s Hp. destruct (_ && _).
  { apply ok_bind, ok_store, ok_ret. by eapply same_ctx_store. }
  destruct (unlink s); apply ok_bind.
  - eapply ok_mono; [apply ok_dec|]. intros ? st' Hv. by apply ok_ret.
  - apply ok_store, ok_ret. by eapply same_ctx_store.
Qed.

Lemma ok_get_session tid n e st : ok (tee_ta_get_session tid n e) (λ _ st', same_ctx st st') st.
Proof.
  unfold tee_ta_get_session. apply ok_bind. eapply ok_mono; [apply ok_find|]. intros r ? ->.
  destruct r as [p|]; [|by apply ok_ret]. apply ok_bind, ok_read. intros s Hp.
  destruct (unlink s); [by apply ok_ret|]. apply ok_bind, ok_store.
  assert (same_ctx st (with_sessions st <[p := set_ref s (wrap 32 (ref_count s + 1))]>)) as Hst by (by eapply same_ctx_store).
  destruct e; cbn [negb]; [|by apply ok_ret]. apply ok_bind, ok_assert. intros _.
  eapply ok_mono; [apply ok_wait_lock|]. intros r st' Hv. by etrans.
Qed.

Lemma ok_close_check tid p who st :
  ok (close_check tid p who)
    (λ r st', same_ctx st st' ∧ ∀ c, r = Some c → ∃ s, sessions st' !! p = Some s ∧ ctx s = c) st.
Proof.
  unfold close_check. apply ok_bind, ok_read. intros s Hp. destruct (check_client s who).
  - apply ok_ret. split; [done|]. intros c [= <-]. by exists s.
  - apply ok_bind. eapply ok_mono; [apply ok_put_session|]. intros ? st' Hv. by apply ok_ret.
Qed.

Lemma ok_cancel_command p who st : ok (tee_ta_cancel_command p who) (λ _ st', same_ctx st st') st.
Proof.
  unfold tee_ta_cancel_command. apply ok_bind, ok_read. intros s Hp. destruct (check_client s who); [|by apply ok_ret].
  apply ok_store. by eapply same_ctx_store.
Qed.

(** When the session goes, so does its pointer. *)
Definition same_or_gone (p : nat) (b : bool) (st st' : tas) : Prop :=
  ctx <$> sessions st' = (if b then delete p (ctx <$> sessions st) else ctx <$> sessions st)
  ∧ ctxs st' = ctxs st ∧ tee_ctxes st' = tee_ctxes st.

Lemma ok_wait_unlink tid p st : ok (wait_unlink tid p) (λ b st', same_or_gone p b st st') st.
Proof.
  unfold wait_unlink. apply ok_bind, ok_read. intros s Hp. destruct (negb _).
  { apply ok_bind, ok_store, ok_ret. by eapply same_ctx_store. }
  apply ok_bind, ok_get, ok_bind, ok_put, ok_ret. split; [|done]. cbn. by rewrite fmap_delete.
Qed.

Lemma ok_unlink_session tid p st : ok (tee_ta_unlink_session tid p) (λ b st', same_or_gone p b st st') st.
Proof.
  unfold tee_ta_unlink_session. apply ok_bind, ok_read. intros s Hp. do 3 (apply ok_bind, ok_assert; intros _).
  apply ok_bind, ok_store. eapply ok_mono; [apply ok_wait_unlink|].
  intros b st' (Hs & Hc & Ht). destruct (same_ctx_store st p s (set_lock_cv (set_unlink s) []) Hp eq_refl) as (Hs1 & Hc1 & Ht1).
  rewrite Hs1 in Hs. by split.
Qed.

Lemma listed_same st st' : listed st → ctxs st' = ctxs st → tee_ctxes st' = tee_ctxes st → listed st'.
Proof. intros Hl Hc Ht c. by rewrite Hc, Ht. Qed.

Lemma listed_insert st c x : listed st → is_Some (ctxs st !! c) → listed (with_ctxs st <[c := x]>).
Proof.
  intros Hl [y Hc] q. cbn. rewrite (Hl q). destruct (decide (q = c)) as [-> |].
  - rewrite lookup_insert_eq, Hc. by split.
  - by rewrite lookup_insert_ne.
Qed.

Lemma listed_remove st st' c :
  listed st → ctxs st' = delete c (ctxs st) → tee_ctxes st' = filter (λ q, q ≠ c) (tee_ctxes st) → listed st'.
Proof.
  intros Hl Hc Ht q. rewrite Hc, Ht, list_elem_of_filter, (Hl q). destruct (decide (q = c)) as [-> |].
  - rewrite lookup_delete_eq. split; [by intros [? _]|by intros [? ?]].
  - rewrite lookup_delete_ne by done. naive_solver.
Qed.

Lemma ok_put_ctx_listed c st : listed st → ok (put_ctx c) (λ _ st', listed st') st.
Proof.
  intros Hl. unfold put_ctx. apply ok_bind, ok_read_ctx. intros x Hx. apply ok_bind, ok_assert. intros _.
  assert (listed (with_ctxs st <[c := set_cref x (c_ref_count x - 1)]>)) as Hl' by (apply listed_insert; eauto).
  cbv zeta. apply ok_bind, ok_store_ctx. destruct (_ && negb _); [|by apply ok_ret].
  apply ok_bind, ok_get, ok_bind, ok_put. unfold destroy_context. apply ok_bind, ok_get, ok_put.
  by eapply (listed_remove _ _ c Hl').
Qed.

Lemma ok_drop_ctx_same l p c n st :
  ok (drop_ctx l p c n) (λ _ st', ctxs st' = ctxs st ∧ tee_ctxes st' = tee_ctxes st) st.
Proof.
  revert n st. induction l as [|q l IH]; intros n st; cbn [drop_ctx]; [by apply ok_ret|].
  apply ok_bind, ok_read. intros s Hq. destruct (_ && _); [|apply IH]. apply ok_bind, ok_store.
  eapply ok_mono; [apply IH|done].
Qed.

Lemma ok_destroy_listed p st : listed st → ok (destroy_ta_ctx_from_session p) (λ _ st', listed st') st.
Proof.
  intros Hl. unfold destroy_ta_ctx_from_session. apply ok_bind, ok_read. intros s Hp.
  destruct (ctx s) as [c|]; [|by apply ok_throw]. apply ok_bind, ok_get, ok_bind.
  eapply ok_mono; [apply ok_drop_ctx_same|]. intros n st1 [Hc Ht]. apply ok_bind, ok_read_ctx. intros x _.
  apply ok_bind, ok_assert. intros _. apply ok_bind, ok_get, ok_bind, ok_put. unfold destroy_context.
  apply ok_bind, ok_bind, ok_get, ok_put, ok_bind, ok_read. intros s1 Hp1. apply ok_store.
  apply (listed_remove st _ c Hl); cbn; congruence.
Qed.

Lemma listed_add st st' c x :
  listed st → ctxs st' = <[c := x]> (ctxs st) → tee_ctxes st' = tee_ctxes st ++ [c] → listed st'.
Proof.
  intros Hl Hc Ht q. rewrite Hc, Ht, elem_of_app, list_elem_of_singleton, (Hl q).
  destruct (decide (q = c)) as [-> |]; [rewrite lookup_insert_eq; naive_solver|].
  rewrite lookup_insert_ne by done. naive_solver.
Qed.

Lemma reuse_listed st uuid c x : listed st → reuse st uuid = Some (inr (c, x)) → ctxs st !! c = Some x.
Proof.
  unfold reuse. intros Hl. destruct (head _) as [c'|]; [|done]. cbn [mbind option_bind].
  destruct (ctxs st !! c') as [x'|] eqn:Hx; [|done]. cbn [mbind option_bind].
  destruct (negb _); [done|]. destruct (_ && _); [done|]. by intros [= <- <-].
Qed.

Lemma reuse_busy st uuid e : reuse st uuid = Some (inl e) → e = TEE_ERROR_BUSY.
Proof.
  unfold reuse. destruct (head _) as [c'|]; [|done]. cbn [mbind option_bind].
  destruct (ctxs st !! c') as [x'|] eqn:Hx; [|done]. cbn [mbind option_bind].
  destruct (negb _); [done|]. destruct (_ && _); [|done]. by intros [= <-].
Qed.

(** The state after a session has been opened. *)
Definition opened (st st' : tas) (p : nat) (uuid : list Z) (load : loaded) : Prop :=
  ∃ n c x new, 0 < n < 2 ^ 32 ∧ ¬ in_use st n ∧ st' = with_session st p (fresh_session n c) c x new ∧
    if new : bool then load = Loaded c x
    else ∃ y, ctxs st !! c = Some y ∧ x = set_cref y (wrap 32 (c_ref_count y + 1)).

Lemma wp_init_opened st ts p uuid load (R : bad → tas → Prop) :
  inv st ts → listed st → sessions st !! p = None → load ≠ NotLoaded TEE_SUCCESS →
  Z.of_nat (length (open_sessions st)) < 2 ^ 31 →
  wp (tee_ta_init_session p uuid load)
    (λ r st', if bool_decide (r = TEE_SUCCESS) then opened st st' p uuid load else st' = st) R st.
Proof.
  intros Hi Hl Hp Hload Hn. assert (unused st p) as Hu.
  { split; [done|]. rewrite (iv_open _ _ Hi), Hp. by intros [? ?]. }
  eapply wp_mono; [exact (wp_init_session st ts p uuid load R Hi Hu Hn (λ c, proj1 (Hl c)))| |done].
  intros r st' Hr. destruct (reuse st uuid) as [[e|[c x]]|] eqn:Hre.
  - apply reuse_busy in Hre as ->. destruct Hr as [-> Hst]. by apply Hst.
  - destruct Hr as (-> & n & Hn1 & Hn2 & ->). rewrite bool_decide_eq_true_2 by done.
    eexists n, c, _, false. split; [done|]. split; [done|]. split; [done|].
    exists x. split; [|done]. by apply (reuse_listed st uuid).
  - destruct load as [e|c x].
    + destruct Hr as [-> Hst]. rewrite bool_decide_eq_false_2 by congruence. apply Hst. congruence.
    + destruct Hr as (-> & n & Hn1 & Hn2 & ->). rewrite bool_decide_eq_true_2 by done.
      by eexists n, c, x, true.
Qed.

Lemma opened_keeps st st' ts i p uuid load :
  inv st ts → listed st → ts !! i = Some TIdle → sessions st !! p = None → opened st st' p uuid load →
  inv st' (<[i := TOpened p]> ts) ∧ listed st'.
Proof.
  intros Hi Hl Ht Hp (n & c & x & new & Hn & Hf & -> & Hnew). split.
  - eapply inv_ctxs; [apply (inv_new st ts i p (fresh_session n c)); try done|done|done].
    intros q s' Hq Hid. apply Hf. by exists q, s'.
  - destruct new; [by eapply (listed_add st _ c x Hl)|]. destruct Hnew as (y & Hc & _).
    eapply listed_same; [apply (listed_insert st c x Hl); eauto|done|done].
Qed.

Definition opening (p : nat) (uuid : list Z) (load : loaded) : T tpc :=
  r ← tee_ta_init_session p uuid load; mret (if bool_decide (r = TEE_SUCCESS) then TOpened p else TIdle).

(** The sections that read or write a context: the rest of them leave the contexts
    and the context of each session alone. *)
Definition touches (t : tpc) : bool :=
  match t with TOpened _ | TEntered _ _ | TGot _ | TInside _ | TDestroy _ | TPutCtx _ _ => true | _ => false end.
Definition put_of (t : tpc) : option nat := match t with TPutCtx c _ => Some c | _ => None end.
(** The context that a thread has read in a session it works on or is about to remove. *)
Definition arg_of (t : tpc) : option (nat * option nat) :=
  match t with TEntered p c => Some (p, Some c) | TUnlinkStart p _ c | TUnlink p _ c => Some (p, c) | _ => None end.
(** Where a thread gets only after a TA has panicked, or without its parameters. *)
Definition plain (k : closer) : bool := match k with ByRequest => true | _ => false end.
Definition calm (t : tpc) : bool :=
  match t with
  | TClose _ k | TLookup _ _ k | TCheck _ k | TUnlinkStart _ k _ | TUnlink _ k _ | TWait _ (Some k) =>
    plain k
  | TLost _ | TDestroy _ | TPutCtx _ (Some _) => false
  | _ => true
  end.

Inductive ctx_step (st : tas) (t : tpc) (st' : tas) : tpc → Prop :=
| cs_same t' :
    same_ctx st st' → put_of t' = None → (calm t = true → calm t' = true) →
    (∀ p c, arg_of t' = Some (p, c) → arg_of t = Some (p, c) ∨ ∃ s, sessions st' !! p = Some s ∧ ctx s = c) →
    ctx_step st t st' t'
| cs_gone p k c : same_or_gone p true st st' → t = TUnlinkStart p k c ∨ t = TUnlink p k c → ctx_step st t st' (after p k c).

Ltac cs_tac :=
  intros; apply ok_ret; unfold lost; apply cs_same; try done; repeat case_match; subst; simpl in *; try done; try tauto; try congruence.

Lemma ok_unlink_step (m : T bool) p k c t st :
  t = TUnlinkStart p k c ∨ t = TUnlink p k c →
  ok m (λ b st', same_or_gone p b st st') st →
  ok (done ← m; mret (if done : bool then after p k c else TUnlink p k c)) (λ t' st', ctx_step st t st' t') st.
Proof.
  intros Ha Hm. apply ok_bind. eapply ok_mono; [exact Hm|]. intros b st' Hb. apply ok_ret. destruct b.
  - by eapply cs_gone.
  - apply cs_same; try done; [by destruct Ha as [-> | ->]|].
    cbn. intros p' c' [= <- <-]. left. by destruct Ha as [-> | ->].
Qed.

(** The session whose id a thread is about to read without a reference is there. *)
Definition reads_id (t : tpc) : option nat := match t with TClose p _ | TReturned p => Some p | _ => None end.
Definition close_alive (st : tas) (t : tpc) : Prop :=
  ∀ p, reads_id t = Some p → is_Some (sessions st !! p).

Definition opens (st : tas) (t : tpc) (m : T tpc) : Prop :=
  ∃ p uuid load, m = opening p uuid load ∧ sessions st !! p = None ∧ t = TIdle ∧ load ≠ NotLoaded TEE_SUCCESS
    ∧ Z.of_nat (length (open_sessions st)) < 2 ^ 31
    ∧ ∀ c x, load = Loaded c x → ctxs st !! c = None ∧ c_ref_count x = 1 ∧ panicked x = false.

Lemma section_cases i st t m :
  section i st t m →
  touches t = true ∨ opens st t m
  ∨ ok m (λ t' st', ctx_step st t st' t') st
    ∧ ∀ ts, inv st ts → ts !! i = Some t → close_alive st t → wp m (λ t' st', inv st' (<[i := t']> ts)) (λ _ _, False) st.
Proof.
  intros Hsec. assert (∀ ts, inv st ts → ts !! i = Some t → awake i st) as Haw by (intros; by eapply section_awake).
  destruct Hsec; [|by left|..]; try (by left); right; [left|right; split..].
  - by exists p, uuid, load.
  - apply ok_bind, ok_read. intros s _. cs_tac.
  - intros. apply wp_sec_returned; auto.
  - apply ok_bind. eapply ok_mono; [apply ok_find|]. intros r ? ->. cs_tac.
  - intros. by apply wp_sec_find.
  - apply ok_bind, ok_read. intros s _. cs_tac.
  - intros. apply wp_sec_close; auto.
  - apply ok_bind. eapply ok_mono; [apply ok_get_session|]. destruct k; cs_tac.
  - intros. by apply wp_sec_lookup.
  - apply ok_bind. eapply ok_mono; [apply ok_wait_lock|]. destruct k as [[]|]; cs_tac.
  - intros. apply wp_sec_wait; [done|done|by eapply Haw].
  - apply ok_bind. eapply ok_mono; [apply ok_close_check|]. intros r st' [Hv Hc]. destruct r as [c|], k; cs_tac;
      right; simplify_eq; by apply Hc.
  - intros. by apply wp_sec_check.
  - apply ok_unlink_step; [by left|apply ok_unlink_session].
  - intros. by apply wp_sec_unlink.
  - apply ok_unlink_step; [by right|apply ok_wait_unlink].
  - intros. apply wp_sec_unlink_wait; [done|done|by eapply Haw].
  - apply ok_bind. eapply ok_mono; [apply ok_get_session|]. cs_tac.
  - intros. by apply wp_sec_get.
  - apply ok_bind. eapply ok_mono; [apply ok_get_session|]. cs_tac.
  - intros. by apply wp_sec_get_shared.
  - apply ok_bind. eapply ok_mono; [apply ok_cancel_command|]. cs_tac.
  - intros. by apply wp_sec_cancel.
  - apply ok_bind. eapply ok_mono; [apply ok_put_session|]. cs_tac.
  - intros. by eapply wp_sec_done.
Qed.

Lemma close_dec i st t m :
  section i st t m →
  close_alive st t ∨ ∃ p, reads_id t = Some p ∧ sessions st !! p = None ∧ m st = (Err UseAfterFree, st).
Proof.
  intros Hsec. destruct Hsec; try (by left); [|];
    (destruct (sessions st !! p) as [s|] eqn:Hp; [left; intros q [= <-]; by exists s|right]);
    exists p; (split; [done|split; [done|]]); unfold read, mbind, M_bind, mget; by rewrite Hp.
Qed.

Lemma dangling_close i st t m : section i st t m → close_alive st t ∨ m st = (Err UseAfterFree, st).
Proof. intros [?|(? & _ & _ & ?)]%close_dec; [by left|by right]. Qed.

Definition good (st : tas) (ts : list tpc) : Prop := inv st ts ∧ listed st.

Lemma ctx_step_listed st t st' t' : ctx_step st t st' t' → listed st → listed st'.
Proof.
  intros Hs Hl. destruct Hs as [t' (_ & Hc & He) _ _ _|p k c (_ & Hc & He) _]; exact (listed_same st st' Hl Hc He).
Qed.

Lemma wp_opening st ts i p uuid load (R : bad → tas → Prop) :
  good st ts → ts !! i = Some TIdle → sessions st !! p = None → load ≠ NotLoaded TEE_SUCCESS →
  Z.of_nat (length (open_sessions st)) < 2 ^ 31 →
  wp (opening p uuid load)
    (λ t' st', good st' (<[i := t']> ts)
       ∧ (t' = TIdle ∧ st' = st ∨ t' = TOpened p ∧ opened st st' p uuid load)) R st.
Proof.
  intros [Hi Hl] Ht Hp Hload Hn. unfold opening. apply wp_bind.
  eapply wp_mono; [by apply (wp_init_opened st ts p uuid load R)| |done].
  cbv beta. intros r st' Hr. apply wp_ret. case_bool_decide.
  - split; [exact (opened_keeps st st' ts i p uuid load Hi Hl Ht Hp Hr)|by right].
  - subst. split; [|by left]. split; [|done]. by apply (sess_quiet st ts i TIdle).
Qed.

Lemma view_keeps st st' ts i t t' :
  inv st ts → ts !! i = Some t → (∀ q, refs q t' = refs q t) → locked t' = locked t → unlinking t' = unlinking t →
  sleeps t = false → (∀ n q, t' ≠ TLookup n q HoldsReference) →
  same_view st st' → inv st' (<[i := t']> ts).
Proof.
  intros Hi Ht Hr Hl Hu Hsl Hlk Hv. apply (inv_view st); [done|]. apply (sess_quiet st ts i t); try done.
  intros n q s ->. by destruct (Hlk n q).
Qed.

Lemma ok_open_check_ctx p who st :
  ok (open_check p who) (λ _ st', same_ctx st st') st.
Proof.
  unfold open_check. apply ok_bind, ok_read. intros s Hp. destruct (ctx s) as [c|]; [|by apply ok_ret].
  apply ok_bind, ok_read_ctx. intros x _. destruct (panicked x); [by apply ok_ret|].
  apply ok_bind, ok_store, ok_ret. by eapply same_ctx_store.
Qed.

Lemma ok_open_end i p c st : ok (open_end i p c) (λ _ st', same_ctx st st') st.
Proof.
  unfold open_end. apply ok_bind, ok_read_ctx. intros x _. apply ok_bind.
  eapply ok_mono; [apply ok_put_session|]. intros [] st' Hs. by apply ok_ret.
Qed.

Lemma ok_entered_listed i p c (b : bool) st :
  listed st → ok (dead ← open_end i p c; mret (entered p b dead)) (λ _ st', listed st') st.
Proof.
  intros Hl. apply ok_bind. eapply ok_mono; [apply ok_open_end|]. intros dead st' (_ & Hc & Ht).
  apply ok_ret. by apply (listed_same st).
Qed.

Lemma touches_keeps st ts i t m :
  good st ts → ts !! i = Some t → section i st t m → touches t = true → ok m (λ t' st', good st' (<[i := t']> ts)) st.
Proof.
  intros [Hi Hl] Ht Hsec Hq. destruct Hsec; try done; [|eapply ok_mono;
      [by apply (ok_conj _ _ _ _ (ok_sec_entered st ts i p c ok Hi Ht) (ok_entered_listed i p c ok st Hl))|done]|..]; apply ok_bind.
  - eapply ok_mono; [apply (ok_conj _ _ _ _ (ok_open_check p who st) (ok_open_check_ctx p who st))|].
    intros dead st' [Hv Hc]. apply ok_ret. split; [|by destruct Hc as (_ & ? & ?); eapply listed_same].
    destruct dead; by apply (view_keeps st st' ts i (TOpened p)).
  - eapply ok_mono; [apply (ok_conj _ _ _ _ (ok_put_ctx c st) (ok_put_ctx_listed c st Hl))|].
    intros [] st' [Hv Hl']. apply ok_ret. split; [|done]. by apply (view_keeps st st' ts i (TPutCtx c r)); destruct r.
  - eapply ok_mono; [apply ok_invoke_check|]. intros r ? ->. apply ok_ret. split; [|done].
    destruct r; by apply (sess_quiet st ts i (TGot p)).
  - eapply ok_mono; [apply ok_ctx_panicked|]. intros r ? ->. apply ok_ret. split; [|done].
    destruct r; by apply (sess_quiet st ts i (TInside p)).
  - eapply ok_mono; [apply (ok_conj _ _ _ _ (ok_destroy p st) (ok_destroy_listed p st Hl))|].
    intros [] st' [Hv Hl']. apply ok_ret. split; [|done]. by apply (view_keeps st st' ts i (TDestroy p)).
Qed.

(** Whatever a thread does, a TA panicking included. *)
Lemma section_keeps st ts i t m :
  good st ts → ts !! i = Some t → section i st t m → ok m (λ t' st', good st' (<[i := t']> ts)) st.
Proof.
  intros Hg Ht Hsec. destruct (section_cases i st t m Hsec) as [Hq|[Ho|[Hctx Hw]]].
  - by apply touches_keeps with (t := t).
  - destruct Ho as (p & uuid & load & -> & Hp & -> & Hload & Hn & _).
    eapply ok_mono; [apply (ok_wp _ _ (λ _ _, False)), (wp_opening st ts i p uuid load); done|]. by intros t' st' [? _].
  - destruct (dangling_close i st t m Hsec) as [Hal|Hbad]; [|by intros t' st' Hm; rewrite Hbad in Hm].
    destruct Hg as [Hi Hl].
    eapply ok_mono; [apply (ok_conj _ _ _ _ (ok_wp _ _ _ _ (Hw ts Hi Ht Hal)) Hctx)|].
    intros t' st' [Hi' Hc]. split; [done|]. by eapply ctx_step_listed.
Qed.

Lemma start_good n : Z.of_nat n < 2 ^ 30 → good (mem (start n)) (threads (start n)).
Proof.
  intros Hn. split; [|by intros c; cbn; rewrite lookup_empty, elem_of_nil; split; [|intros [? ?]]].
  constructor; cbn; try (intros p s Hp; by rewrite lookup_empty in Hp).
  - apply NoDup_nil_2.
  - intros p. rewrite lookup_empty, elem_of_nil. by split; [|intros [? ?]].
  - intros p q s s' Hp. by rewrite lookup_empty in Hp.
  - intros p s i Hp. by rewrite lookup_empty in Hp.
  - intros i t Ht p Hp. apply lookup_replicate in Ht as [-> _]. unfold refs in Hp. cbn in Hp. lia.
  - intros i m p s Ht. by apply lookup_replicate in Ht as [? _].
  - by rewrite length_replicate.
Qed.

Lemma step_good i st ts w' : good st ts → step i (World st ts) (Ok w') → good (mem w') (threads w').
Proof.
  intros Hg Hs. inversion Hs as [? ? t m t' st' Ht Hsec Hm| |]; subst. by apply (section_keeps st ts i t m Hg Ht Hsec).
Qed.

Lemma reachable_good b n w : reachable b n w → good (mem w) (threads w).
Proof.
  intros Hr. induction Hr as [Hn|w w' _ IH Hs]; [by apply start_good|].
  inversion Hs as [i ? ? Hst|st ts i p s c x Hb Ht Hp Hc Hx|st ts i p Hb Ht]; subst.
  - destruct w as [st ts]. by eapply step_good.
  - destruct IH as [Hi Hl]. split; [by eapply inv_ctxs|]. apply listed_insert; eauto.
  - destruct IH as [Hi Hl]. split; [|done]. by apply (sess_quiet st ts i (TOpened p)).
Qed.
