(* ===== verification/TaSessionCtx.v ===== *)
(** * core/kernel/tee_ta_manager.c: contexts, and what holds of every execution

    While no TA panics, the reference count of a context is the number of sessions
    that use it plus the number of threads about to give one back, and nothing but
    two reads of the id of a session without a reference can fail. *)
From S2P Require Import Prelude Uuid TaSession TaSessionProofs.

Local Open Scope Z_scope.

(** ** Counting *)

(** The sessions that use context [c], and the threads at the end of
    tee_ta_close_session() for it. *)
Definition users (c : nat) (m : gmap nat (option nat)) : nat := size (filter (λ kv, kv.2 = Some c) m).
Definition puts (c : nat) (ts : list tpc) : nat :=
  sum_list_with (λ t, if decide (put_of t = Some c) then 1%nat else 0%nat) ts.
Definition keep_alive (x : tee_ta_ctx) : bool :=
  Z.testbit (flags x) TA_FLAG_INSTANCE_KEEP_ALIVE && Z.testbit (flags x) TA_FLAG_SINGLE_INSTANCE.

Lemma users_insert c m p d :
  m !! p = None → users c (<[p := d]> m) = ((if decide (d = Some c) then 1 else 0) + users c m)%nat.
Proof.
  intros Hp. unfold users. rewrite map_filter_insert. cbn [snd]. case_decide as Hd.
  - rewrite map_size_insert_None; [done|]. rewrite map_lookup_filter, Hp. done.
  - by rewrite delete_id.
Qed.

Lemma users_delete c m p d :
  m !! p = Some d → (users c (delete p m) + (if decide (d = Some c) then 1 else 0) = users c m)%nat.
Proof.
  intros Hp. rewrite <- (insert_delete_id m p d Hp) at 2.
  rewrite users_insert by apply lookup_delete_eq. lia.
Qed.

Lemma users_pos c m p : m !! p = Some (Some c) → (0 < users c m)%nat.
Proof. intros Hp. pose proof (users_delete c m p _ Hp) as Hd. rewrite decide_True in Hd by done. lia. Qed.

Lemma users_size c m : (users c m <= size m)%nat.
Proof. unfold users. apply map_size_filter. Qed.

Lemma puts_move c ts i t t' :
  ts !! i = Some t →
  (puts c (<[i:=t']> ts) + (if decide (put_of t = Some c) then 1 else 0)
   = puts c ts + (if decide (put_of t' = Some c) then 1 else 0))%nat.
Proof. apply (sum_insert (λ t, if decide (put_of t = Some c) then 1%nat else 0%nat)). Qed.

Lemma puts_has c ts i t : ts !! i = Some t → put_of t = Some c → (0 < puts c ts)%nat.
Proof.
  intros Ht Hp. pose proof (sum_member (λ t, if decide (put_of t = Some c) then 1%nat else 0%nat) ts i t Ht) as H.
  cbn in H. rewrite decide_True in H by done. unfold puts. lia.
Qed.

Lemma puts_len c ts : (puts c ts <= length ts)%nat.
Proof. unfold puts. induction ts as [|t ts IH]; cbn; [done|]. case_decide; lia. Qed.

(** ** The invariant while no TA has panicked *)

Definition count_of (st : tas) (ts : list tpc) (c : nat) : nat := (users c (ctx <$> sessions st) + puts c ts)%nat.

Record cinv (st : tas) (ts : list tpc) : Prop := {
  cv_calm i t : ts !! i = Some t → calm t = true;
  cv_arg i t p c s : ts !! i = Some t → arg_of t = Some (p, c) → sessions st !! p = Some s → ctx s = c;
  cv_sess p s : sessions st !! p = Some s → ∃ c, ctx s = Some c ∧ is_Some (ctxs st !! c);
  cv_put i c r : ts !! i = Some (TPutCtx c r) → is_Some (ctxs st !! c);
  cv_ctx c x : ctxs st !! c = Some x →
    panicked x = false ∧ c_ref_count x = Z.of_nat (count_of st ts c)
    ∧ ((0 < count_of st ts c)%nat ∨ keep_alive x = true);
}.

Lemma sessions_size st ts : inv st ts → (size (sessions st) <= length (open_sessions st))%nat.
Proof.
  intros Hi. rewrite <- (size_dom (D := gset nat)), <- (size_list_to_set (C := gset nat) (open_sessions st)) by apply Hi.
  apply subseteq_size. intros p. rewrite elem_of_dom, elem_of_list_to_set. apply (iv_open _ _ Hi).
Qed.

Lemma users_zero c m : users c m = 0%nat → ∀ p, m !! p ≠ Some (Some c).
Proof. intros Hz p Hp. pose proof (users_pos c m p Hp). lia. Qed.

Lemma users_some c m : (0 < users c m)%nat → ∃ p, m !! p = Some (Some c).
Proof.
  intros Hu. unfold users in Hu.
  destruct (map_choose (filter (λ kv, kv.2 = Some c) m)) as (p & d & Hp).
  { intros He. rewrite He in Hu. rewrite map_size_empty in Hu. lia. }
  apply map_lookup_filter_Some in Hp as [Hp Hd]. cbn in Hd. subst. by exists p.
Qed.

Lemma puts_some c ts : (0 < puts c ts)%nat → ∃ i r, ts !! i = Some (TPutCtx c r).
Proof.
  unfold puts. induction ts as [|t ts IH]; cbn; [lia|]. case_decide as Ht; intros Hp.
  - exists 0%nat. destruct t; simplify_eq/=. by eexists.
  - destruct IH as (i & r & Hi); [lia|]. by exists (S i), r.
Qed.

Lemma ctx_lookup st p s : sessions st !! p = Some s → (ctx <$> sessions st) !! p = Some (ctx s).
Proof. intros Hp. by rewrite lookup_fmap, Hp. Qed.

Lemma ctx_lookup_inv st p d : (ctx <$> sessions st) !! p = Some d → ∃ s, sessions st !! p = Some s ∧ ctx s = d.
Proof. rewrite lookup_fmap. destruct (sessions st !! p) as [s|]; [|done]. intros [= <-]. by exists s. Qed.

(** No session and no thread refers to a context that does not exist. *)
Lemma count_none st ts c : cinv st ts → ctxs st !! c = None → count_of st ts c = 0%nat.
Proof.
  intros Hc Hn. unfold count_of. destruct (decide (0 < users c (ctx <$> sessions st))%nat) as [Hu|].
  - apply users_some in Hu as (p & (s & Hp & Hs)%ctx_lookup_inv).
    destruct (cv_sess _ _ Hc p s Hp) as (c' & Hs' & [x Hx]). congruence.
  - destruct (decide (0 < puts c ts)%nat) as [Hp|]; [|lia].
    apply puts_some in Hp as (i & r & Hi). destruct (cv_put _ _ Hc i c r Hi). congruence.
Qed.

Lemma count_small st ts c : inv st ts → Z.of_nat (length (open_sessions st)) <= 2 ^ 31 → Z.of_nat (count_of st ts c) < 2 ^ 32 - 1.
Proof.
  intros Hi Hn. unfold count_of. pose proof (users_size c (ctx <$> sessions st)) as Hu. rewrite map_size_fmap in Hu.
  pose proof (sessions_size st ts Hi). pose proof (puts_len c ts). pose proof (iv_small _ _ Hi). lia.
Qed.

(** One thread moves and the sessions keep their contexts, or disappear. *)
Lemma cinv_move st st' ts i t t' :
  cinv st ts → ts !! i = Some t → calm t' = true →
  (∀ q s', sessions st' !! q = Some s' → ∃ s, sessions st !! q = Some s ∧ ctx s = ctx s') →
  (∀ p c s', arg_of t' = Some (p, c) → sessions st' !! p = Some s' → ctx s' = c) →
  (∀ c, put_of t' = Some c → is_Some (ctxs st' !! c)) →
  (∀ c, is_Some (ctxs st !! c) → (0 < count_of st' (<[i := t']> ts) c)%nat → is_Some (ctxs st' !! c)) →
  (∀ c x, ctxs st' !! c = Some x → panicked x = false ∧ c_ref_count x = Z.of_nat (count_of st' (<[i := t']> ts) c)
     ∧ ((0 < count_of st' (<[i := t']> ts) c)%nat ∨ keep_alive x = true)) →
  cinv st' (<[i := t']> ts).
Proof.
  intros Hc Ht Hcalm Hs Harg Hput Hlive Hctx. constructor.
  - apply (insert_thread ts i t t' (λ _ u, calm u = true) Ht); [done|]. intros j u _. apply (cv_calm _ _ Hc).
  - intros j u p c s' Hj Ha Hp. revert j u Hj c Ha.
    apply (insert_thread ts i t t' (λ _ u, ∀ c, arg_of u = Some (p, c) → ctx s' = c) Ht).
    + intros c Ha. by apply (Harg p).
    + intros j u _ Hj c Ha. destruct (Hs p s' Hp) as (s & Hps & <-). by apply (cv_arg _ _ Hc j u p).
  - intros p s' Hp. destruct (Hs p s' Hp) as (s & Hps & He). destruct (cv_sess _ _ Hc p s Hps) as (c & Hsc & Hx).
    exists c. split; [congruence|]. apply Hlive; [done|]. unfold count_of.
    pose proof (users_pos c (ctx <$> sessions st') p). rewrite (ctx_lookup st' p s') in H by done.
    rewrite <- He, Hsc in H. specialize (H eq_refl). lia.
  - intros j c r Hj. rewrite (lookup_thread ts i t t' j Ht) in Hj. case_decide as Hji.
    + injection Hj as ->. by apply Hput.
    + apply Hlive; [by apply (cv_put _ _ Hc j _ r)|]. unfold count_of.
      pose proof (puts_has c (<[i := t']> ts) j (TPutCtx c r)). rewrite (lookup_thread ts i t t' j Ht) in H.
      rewrite decide_False in H by done. specialize (H Hj eq_refl). lia.
  - done.
Qed.

Lemma cinv_ctx_step st st' ts i t t' :
  inv st ts → cinv st ts → ts !! i = Some t → put_of t = None → ctx_step st t st' t' → cinv st' (<[i := t']> ts).
Proof.
  intros Hi Hc Ht Hpt Hs. pose proof (cv_calm _ _ Hc i t Ht) as Hcalm.
  destruct Hs as [t' (Hv & Hcx & _) Hpt' Hcalm' Harg|p k c (Hv & Hcx & _) Harg].
  - assert (∀ c, count_of st' (<[i := t']> ts) c = count_of st ts c) as Hcnt.
    { intros c. unfold count_of. rewrite Hv. pose proof (puts_move c ts i t t' Ht) as Hm. rewrite Hpt, Hpt' in Hm. lia. }
    assert (∀ q s', sessions st' !! q = Some s' → ∃ s, sessions st !! q = Some s ∧ ctx s = ctx s') as Hsub.
    { intros q s' Hq'%ctx_lookup. rewrite Hv in Hq'. by apply ctx_lookup_inv in Hq'. }
    apply (cinv_move st st' ts i t t' Hc Ht); [by apply Hcalm'|done|..].
    + intros p c s' Ha Hp. destruct (Harg p c Ha) as [Ha'|(s1 & Hs1 & <-)]; [|congruence].
      destruct (Hsub p s' Hp) as (s & Hps & <-). by apply (cv_arg _ _ Hc i t p).
    + intros c. by rewrite Hpt'.
    + intros c. by rewrite Hcx.
    + intros c x. rewrite Hcx, Hcnt. apply (cv_ctx _ _ Hc).
  - assert (0 < refs p t)%nat as Hr by (destruct Harg; subst; refs_tac).
    destruct (iv_alive _ _ Hi i t Ht p Hr) as [s Hp].
    pose proof (cv_arg _ _ Hc i t p c s Ht ltac:(by destruct Harg; subst) Hp) as Hsc.
    assert (k = ByRequest) as -> by (destruct Harg; subst; by destruct k).
    destruct (cv_sess _ _ Hc p s Hp) as (c0 & Hs0 & Hx0). rewrite Hs0 in Hsc. subst c. cbn [after reads_next].
    assert (∀ c, count_of st' (<[i := TPutCtx c0 None]> ts) c = count_of st ts c) as Hcnt.
    { intros c. unfold count_of. rewrite Hv. pose proof (puts_move c ts i t (TPutCtx c0 None) Ht) as Hm.
      pose proof (users_delete c _ p _ (ctx_lookup st p s Hp)) as Hu. rewrite Hs0 in Hu. rewrite Hpt in Hm. cbn [put_of] in Hm.
      repeat case_decide; try congruence; lia. }
    apply (cinv_move st st' ts i t (TPutCtx c0 None) Hc Ht); [done|..].
    + intros q s' Hq'%ctx_lookup. rewrite Hv in Hq'. apply lookup_delete_Some in Hq' as [_ Hq']. by apply ctx_lookup_inv in Hq'.
    + done.
    + cbn. intros c [= <-]. by rewrite Hcx.
    + intros c. by rewrite Hcx.
    + intros c x. rewrite Hcx, Hcnt. apply (cv_ctx _ _ Hc).
Qed.

Lemma cinv_opened st st' ts i p uuid load :
  good st ts → cinv st ts → ts !! i = Some TIdle → sessions st !! p = None →
  Z.of_nat (length (open_sessions st)) < 2 ^ 31 →
  (∀ c x, load = Loaded c x → ctxs st !! c = None ∧ c_ref_count x = 1 ∧ panicked x = false) →
  opened st st' p uuid load → cinv st' (<[i := TOpened p]> ts).
Proof.
  intros [Hi Hl] Hc Ht Hp Hn Hload (n & c & x & new & _ & _ & -> & Hnew).
  assert (∀ c', count_of (with_session st p (fresh_session n c) c x new) (<[i := TOpened p]> ts) c'
     = ((if decide (c = c') then 1 else 0) + count_of st ts c')%nat) as Hcnt.
  { intros c'. unfold count_of. cbn [with_session sessions]. rewrite fmap_insert, users_insert by (by rewrite lookup_fmap, Hp).
    pose proof (puts_move c' ts i TIdle (TOpened p) Ht) as Hm. cbn [put_of] in Hm. cbn [fresh_session ctx].
    repeat case_decide; try congruence; lia. }
  assert (∀ c', is_Some (ctxs st !! c') → is_Some (<[c := x]> (ctxs st) !! c')) as Hmono.
  { intros c' [y Hy]. destruct (decide (c' = c)) as [-> |]; [by rewrite lookup_insert_eq|rewrite lookup_insert_ne; eauto]. }
  constructor.
  - apply (insert_thread ts i TIdle _ (λ _ u, calm u = true) Ht); [done|]. intros j u _. apply (cv_calm _ _ Hc).
  - intros j u q d s' Hj Ha Hq. cbn in Hq. rewrite (lookup_thread ts i TIdle _ j Ht) in Hj. case_decide; [by simplify_eq/=|].
    rewrite lookup_insert_ne in Hq; [by apply (cv_arg _ _ Hc j u q)|]. intros <-.
    assert (0 < refs p u)%nat as Hr by (destruct u; simplify_eq/=; refs_tac).
    destruct (iv_alive _ _ Hi j u Hj p Hr). congruence.
  - intros q s' Hq. cbn in Hq. rewrite lookup_insert_Some in Hq. destruct Hq as [[<- <-]|[_ Hq]].
    + exists c. split; [done|]. cbn. by rewrite lookup_insert_eq.
    + destruct (cv_sess _ _ Hc q s' Hq) as (c' & ? & ?). exists c'. split; [done|]. by apply Hmono.
  - intros j c' r Hj. rewrite (lookup_thread ts i TIdle _ j Ht) in Hj. case_decide; [by simplify_eq/=|].
    apply Hmono. by apply (cv_put _ _ Hc j _ r).
  - intros c' x' Hx'. rewrite Hcnt. cbn in Hx'. rewrite lookup_insert_Some in Hx'. destruct Hx' as [[<- <-]|[Hne Hx']].
    + rewrite decide_True by done. split_and!; [| |left; lia]; destruct new.
      * by apply (Hload c x).
      * destruct Hnew as (y & Hy & ->). by apply (cv_ctx _ _ Hc c y).
      * destruct (Hload c x Hnew) as (Hnone & -> & _). rewrite (count_none st ts c Hc Hnone). done.
      * destruct Hnew as (y & Hy & ->). cbn [c_ref_count set_cref]. destruct (cv_ctx _ _ Hc c y Hy) as (_ & -> & _).
        pose proof (count_small st ts c Hi). rewrite wrap_small by (unfold in_range; lia). lia.
    + rewrite decide_False by done. by apply (cv_ctx _ _ Hc).
Qed.

Lemma wp_put_ctx st ts i c (R : bad → tas → Prop) :
  good st ts → cinv st ts → ts !! i = Some (TPutCtx c None) →
  wp (put_ctx c) (λ _ st', cinv st' (<[i := TIdle]> ts)) R st.
Proof.
  intros [Hi Hl] Hc Ht. destruct (cv_put _ _ Hc i c None Ht) as [x Hx]. destruct (cv_ctx _ _ Hc c x Hx) as (Hpan & Href & Hka).
  pose proof (puts_has c ts i _ Ht eq_refl) as Hpos.
  assert (∀ st' c', sessions st' = sessions st →
     (count_of st' (<[i := TIdle]> ts) c' + (if decide (c = c') then 1 else 0) = count_of st ts c')%nat) as Hcnt.
  { intros st' c' Hs. unfold count_of. rewrite Hs. pose proof (puts_move c' ts i _ TIdle Ht) as Hm. cbn [put_of] in Hm.
    repeat case_decide; try congruence; lia. }
  assert (∀ st' c', sessions st' = sessions st → c ≠ c' → count_of st' (<[i := TIdle]> ts) c' = count_of st ts c') as Hoth.
  { intros st' c' Hs Hne. specialize (Hcnt st' c' Hs). rewrite decide_False in Hcnt by done. lia. }
  assert (∀ st', sessions st' = sessions st → S (count_of st' (<[i := TIdle]> ts) c) = count_of st ts c) as Hone.
  { intros st' Hs. specialize (Hcnt st' c Hs). rewrite decide_True in Hcnt by done. lia. }
  unfold put_ctx. apply wp_bind, (wp_read_ctx c x); [done|]. apply wp_bind, wp_assert.
  { apply negb_true_iff, Z.leb_gt. unfold count_of in Href. lia. }
  cbv zeta. apply wp_bind, wp_store_ctx. fold (keep_alive x). destruct (_ && negb _) eqn:Hb.
  - bools. apply wp_bind, wp_get, wp_bind, wp_put. unfold destroy_context. apply wp_bind, wp_get, wp_put.
    apply (cinv_move st _ ts i _ TIdle Hc Ht); try done.
    + intros q s' Hq. by exists s'.
    + intros c' Hc' Hcount. cbn. destruct (decide (c = c')) as [<- |Hne].
      * match type of Hcount with (0 < count_of ?st' _ _)%nat => specialize (Hone st' eq_refl) end. lia.
      * rewrite lookup_delete_ne, lookup_insert_ne by done. done.
    + intros c' y Hy. cbn in Hy. apply lookup_delete_Some in Hy as [Hne Hy]. rewrite lookup_insert_ne in Hy by done.
      rewrite Hoth by done. by apply (cv_ctx _ _ Hc).
  - apply wp_ret. apply (cinv_move st _ ts i _ TIdle Hc Ht); try done.
    + intros q s' Hq. by exists s'.
    + intros c' Hc' _. cbn. destruct (decide (c = c')) as [<- |Hne]; [by rewrite lookup_insert_eq|by rewrite lookup_insert_ne].
    + intros c' y Hy. cbn in Hy. rewrite lookup_insert_Some in Hy. destruct Hy as [[<- <-]|[Hne Hy]].
      * match goal with |- context [count_of ?st' _ c] => pose proof (Hone st' eq_refl) end.
        split_and!; [done|cbn [c_ref_count set_cref]; lia|]. change (keep_alive (set_cref x _)) with (keep_alive x).
        destruct (keep_alive x); [by right|left]. rewrite andb_true_r in Hb. bools. lia.
      * rewrite Hoth by done. by apply (cv_ctx _ _ Hc).
Qed.

Lemma live_session st ts i t p :
  inv st ts → cinv st ts → ts !! i = Some t → (0 < refs p t)%nat →
  ∃ s c x, sessions st !! p = Some s ∧ ctx s = Some c ∧ ctxs st !! c = Some x ∧ panicked x = false.
Proof.
  intros Hi Hc Ht Hr. destruct (iv_alive _ _ Hi i t Ht p Hr) as [s Hp].
  destruct (cv_sess _ _ Hc p s Hp) as (c & Hsc & [x Hx]). exists s, c, x. by destruct (cv_ctx _ _ Hc c x Hx).
Qed.

Lemma csess_quiet st ts i t t' :
  inv st ts → cinv st ts → ts !! i = Some t → put_of t = None → put_of t' = None → arg_of t' = None → calm t' = true →
  cinv st (<[i := t']> ts).
Proof.
  intros Hi Hc Ht Hp Hp' Ha Hcalm. apply (cinv_ctx_step st st ts i t t'); try done. apply cs_same; try done.
  intros p c. by rewrite Ha.
Qed.

(** A section that looks at a context while no TA has panicked does not fail. *)
Lemma touches_calm st ts i t m :
  good st ts → cinv st ts → ts !! i = Some t → section i st t m → touches t = true →
  wp m (λ t' st', cinv st' (<[i := t']> ts)) (λ _ _, False) st.
Proof.
  intros Hg Hc Ht Hsec Hq. destruct (Hg) as [Hi Hl]. pose proof (cv_calm _ _ Hc i t Ht) as Hcalm.
  destruct Hsec; try done; apply wp_bind.
  - destruct (live_session st ts i _ p Hi Hc Ht ltac:(refs_tac)) as (s & c & x & Hp & Hsc & Hx & Hpan).
    unfold open_check. apply wp_bind, (wp_read p s); [done|].
    rewrite Hsc. apply wp_bind, (wp_read_ctx c x); [done|]. rewrite Hpan.
    apply wp_bind, wp_store, wp_ret, wp_ret.
    apply (cinv_ctx_step st _ ts i (TOpened p)); try done. apply cs_same; try done; [by eapply same_ctx_store|].
    cbn. intros q d [= <- <-]. right. rewrite lookup_insert_eq. by eexists.
  - destruct (live_session st ts i _ p Hi Hc Ht ltac:(refs_tac)) as (s & c' & x & Hp & Hsc & Hx & Hpan).
    assert (c' = c) as -> by (pose proof (cv_arg _ _ Hc i _ p (Some c) s Ht eq_refl Hp); congruence).
    eapply wp_mono with (R := λ _ _, False) (Q := λ dead st', dead = false ∧ same_ctx st st'); [| |done].
    { unfold open_end. apply wp_bind, (wp_read_ctx c x); [done|]. apply wp_bind, (wp_put_session i p s); [done|..].
      - eapply ref_count_pos; try done. refs_tac.
      - apply wp_ret. split; [done|]. eapply same_ctx_store; [done|].
        destruct (dec_ref_spec (unlock i s)) as (_ & _ & _ & _ & _ & _ & ->). unfold unlock. by case_decide. }
    cbv beta. intros dead st' [-> Hs]. apply wp_ret.
    apply (cinv_ctx_step st _ ts i (TEntered p c)); try done. by apply cs_same; unfold entered; destruct ok.
  - destruct r; [done|]. eapply wp_mono; [by apply (wp_put_ctx st ts i c (λ _ _, False))| |done]. intros [] st' Hc'. by apply wp_ret.
  - destruct (live_session st ts i _ p Hi Hc Ht ltac:(refs_tac)) as (s & c & x & Hp & Hsc & Hx & Hpan).
    unfold invoke_check. apply wp_bind, (wp_read p s); [done|]. destruct (negb _).
    + apply wp_ret, wp_ret. by apply (csess_quiet st ts i (TGot p)).
    + rewrite Hsc. apply wp_bind, (wp_read_ctx c x); [done|]. rewrite Hpan. apply wp_ret, wp_ret.
      by apply (csess_quiet st ts i (TGot p)).
  - destruct (live_session st ts i _ p Hi Hc Ht ltac:(refs_tac)) as (s & c & x & Hp & Hsc & Hx & Hpan).
    unfold ctx_panicked. apply wp_bind, (wp_read p s); [done|]. rewrite Hsc.
    apply wp_bind, (wp_read_ctx c x); [done|]. rewrite Hpan. apply wp_ret, wp_ret.
    by apply (csess_quiet st ts i (TInside p)).
Qed.

Lemma section_calm st ts i t m :
  good st ts → cinv st ts → ts !! i = Some t → section i st t m → close_alive st t →
  wp m (λ t' st', good st' (<[i := t']> ts) ∧ cinv st' (<[i := t']> ts)) (λ _ _, False) st.
Proof.
  intros Hg Hc Ht Hsec Hal. apply wp_ok; [|by apply section_keeps with (t := t)].
  destruct (touches t) eqn:Hq; [by apply touches_calm with (t := t)|].
  destruct (section_cases i st t m Hsec) as [Hq'|[Ho|[Hctx Hw]]]; [congruence|..].
  - destruct Ho as (p & uuid & load & -> & Hp & -> & Hload & Hn & Hnew).
    eapply wp_mono; [by apply (wp_opening st ts i p uuid load (λ _ _, False))| |done].
    intros t' st' [_ [[-> ->]|[-> Ho]]]; [|by apply (cinv_opened st st' ts i p uuid load)].
    apply (csess_quiet st ts i TIdle); try done. apply Hg.
  - eapply wp_mono; [apply (wp_ok _ _ _ _ _ (Hw ts (proj1 Hg) Ht Hal) Hctx)| |done].
    intros t' st' [Hcs _]. apply (cinv_ctx_step st st' ts i t t' (proj1 Hg) Hc Ht); [by destruct t|done].
Qed.

Lemma start_cinv n : cinv (mem (start n)) (threads (start n)).
Proof.
  constructor; cbn; try (intros ? ? Hx; by rewrite lookup_empty in Hx).
  - intros i t Ht. by apply lookup_replicate in Ht as [-> _].
  - intros i t p c s _ _ Hp. by rewrite lookup_empty in Hp.
  - intros i c r Ht. by apply lookup_replicate in Ht as [? _].
Qed.

Lemma reachable_calm n w : reachable false n w → cinv (mem w) (threads w).
Proof.
  intros Hr. induction Hr as [Hn|w w' Hr IH Hs]; [apply start_cinv|].
  inversion Hs as [i ? ? Hst| |]; [subst|done|done].
  inversion Hst as [st ts t m t' st' Ht Hsec Hm| |]; subst. cbn in IH |- *.
  destruct (dangling_close i st t m Hsec) as [Hal|Hbad]; [|by rewrite Hbad in Hm].
  pose proof (section_calm st ts i t m (reachable_good _ _ _ Hr) IH Ht Hsec Hal) as Hw. unfold wp in Hw.
  rewrite Hm in Hw. by destruct Hw.
Qed.

(** ** What holds of every execution *)

(** C15: in every state that any number of threads can reach, TAs panicking or not:
    the reference count of a session is the number of references the threads hold to
    it, its [lock_thread] is the one thread that works on it exclusively, its id is a
    valid one that no other session has, and a session is only unlinked by the thread
    that waits for the others; a thread never holds a reference to a session that has
    been freed. *)
Theorem session_references b n w :
  reachable b n w →
  (∀ p s, sessions (mem w) !! p = Some s →
     ref_count s = Z.of_nat (total p (threads w))
     ∧ (∀ i, lock_thread s = Some i ↔ ∃ t, threads w !! i = Some t ∧ locked t = Some p)
     ∧ (unlink s = true ↔ ∃ i t, threads w !! i = Some t ∧ unlinking t = Some p)
     ∧ 0 < id s < 2 ^ 32 ∧ (∀ q s', sessions (mem w) !! q = Some s' → id s' = id s → q = p))
  ∧ (∀ i t p, threads w !! i = Some t → (0 < refs p t)%nat → is_Some (sessions (mem w) !! p))
  ∧ (∀ p, p ∈ open_sessions (mem w) ↔ is_Some (sessions (mem w) !! p)).
Proof.
  intros [Hi _]%reachable_good. split; [|split; [|apply Hi]].
  - intros p s Hp. split; [by apply (iv_refs _ _ Hi)|]. split; [intros i; by apply (iv_lock _ _ Hi)|].
    split; [by apply (iv_unlink _ _ Hi)|]. split; [by apply (iv_id _ _ Hi p)|].
    intros q s' Hq. by apply (iv_ids _ _ Hi).
  - intros i t p Ht. by apply (iv_alive _ _ Hi i t Ht).
Qed.

(** C16: while no TA panics no step fails, but for two: no assertion fails, no panic()
    is reached, no freed or NULL pointer is used, except that tee_ta_close_session()
    reads the id of the session it is given, and entry_open_session() that of the
    session it has opened, without a reference, so that another thread may have
    closed and freed the session in the meantime. *)
Theorem sessions_safe n w i r :
  reachable false n w → step i w r →
  (∃ w', r = Ok w')
  ∨ r = Err UseAfterFree
    ∧ ∃ p k, (threads w !! i = Some (TClose p k) ∨ threads w !! i = Some (TReturned p)) ∧ sessions (mem w) !! p = None.
Proof.
  intros Hr Hs. pose proof (reachable_calm _ _ Hr) as Hc. pose proof (reachable_good _ _ _ Hr) as Hg.
  assert (∀ st ts t m, w = World st ts → ts !! i = Some t → section i st t m →
    (∃ p, reads_id t = Some p ∧ sessions st !! p = None ∧ m st = (Err UseAfterFree, st)) ∨ ∃ t' st', m st = (Ok t', st')) as Hcase.
  { intros st ts t m -> Ht Hsec. destruct (close_dec i st t m Hsec) as [Hal|]; [right|by left].
    pose proof (section_calm st ts i t m Hg Hc Ht Hsec Hal) as Hw. unfold wp in Hw.
    destruct (m st) as [[t'|e|] st']; [|done|done]. eauto. }
  inversion Hs as [st ts t m t' st' Ht Hsec Hm|st ts t m e st' Ht Hsec Hm|st ts t m st' Ht Hsec Hm]; subst; [by left; eexists|..].
  all: destruct (Hcase st ts t m eq_refl Ht Hsec) as [(p & Hrd & Hp & Hm')|(t' & st1 & Hm')]; rewrite Hm in Hm'; simplify_eq.
  right. split; [done|]. exists p. destruct t; simplify_eq/=; [exists ByRequest; by split; [right|]|eexists; by split; [left|]].
Qed.

(** C18: while no TA panics, the reference count of a context is the number of open
    sessions that use it plus the threads that have removed one and not yet counted
    down; a context without references exists only if it is a single instance to be
    kept alive, and every session has a context. *)
Theorem context_references n w :
  reachable false n w →
  (∀ c x, ctxs (mem w) !! c = Some x →
     c_ref_count x = Z.of_nat (count_of (mem w) (threads w) c) ∧ (0 < c_ref_count x ∨ keep_alive x = true))
  ∧ (∀ p s, sessions (mem w) !! p = Some s → ∃ c, ctx s = Some c ∧ is_Some (ctxs (mem w) !! c))
  ∧ (∀ c, c ∈ tee_ctxes (mem w) ↔ is_Some (ctxs (mem w) !! c)).
Proof.
  intros Hr. pose proof (reachable_calm _ _ Hr) as Hc. destruct (reachable_good _ _ _ Hr) as [_ Hl].
  split; [|split; [apply (cv_sess _ _ Hc)|apply Hl]]. intros c x Hx.
  destruct (cv_ctx _ _ Hc c x Hx) as (_ & Href & Hka). split; [done|]. destruct Hka; [left; lia|by right].
Qed.

(** The id for a new session is one that no open session has, it is not 0, and
    one is found as long as one is free: 0 means that all 2^32 - 1 ids are taken. *)
Lemma new_session_id_fresh b n w :
  reachable b n w →
  wp new_session_id
    (λ i st', st' = mem w ∧ if i =? 0 then ∀ m, 0 < m < 2 ^ 32 → in_use (mem w) m
                            else 0 < i < 2 ^ 32 ∧ ¬ in_use (mem w) i) (λ _ _, False) (mem w).
Proof.
  intros [Hi _]%reachable_good. eapply wp_mono; [by apply (wp_new_session_id (mem w) (threads w) (λ _ _, False))| |done].
  intros i st' [-> [[-> Hall]|[Hr Hf]]]; [by split|]. split; [done|]. destruct (Z.eqb_spec i 0); [lia|done].
Qed.

(** ** Nobody waits forever *)

(** Nothing to do, or to wait for. *)
Definition waits (t : tpc) : bool :=
  match t with TIdle | TWait _ _ | TUnlink _ _ _ | TLost _ => true | _ => false end.

(** A thread at [t] can go on. *)
Definition moves (i : nat) (st : tas) (t : tpc) : Prop := ∃ m, section i st t m ∧ ok m (λ t' _, t' ≠ t) st.

Ltac moves_by sec call :=
  eexists; split; [apply sec|]; apply ok_bind; eapply ok_mono; [apply call|]; intros r ? _; apply ok_ret;
  unfold lost, after, returned, entered; try done.

Lemma mover_moves i st t : waits t = false → moves i st t.
Proof.
  intros Hw. destruct t as [|p|p c|p|p k|n p k|p k|p k|p k c|p k c|c r0|p|p|p|p|p|p x]; try done.
  - moves_by (sec_opened i st p (Identity 0 [])) ok_open_check. by destruct r.
  - moves_by (sec_entered i st p c true) ok_open_end. by destruct r.
  - eexists. split; [apply sec_returned|]. apply ok_bind, ok_read. intros s _. by apply ok_ret.
  - eexists. split; [apply sec_close|]. apply ok_bind, ok_read. intros s _. by apply ok_ret.
  - moves_by (sec_lookup i st n p k) ok_get_session. by destruct r, k.
  - moves_by (sec_check i st p k KERN_IDENTITY) ok_close_check. by destruct r, k.
  - moves_by (sec_unlink i st p k c) ok_unlink_session. by destruct r, c, k.
  - moves_by (sec_put_ctx i st c r0) ok_put_ctx. by destruct r0.
  - moves_by (sec_cancel i st p KERN_IDENTITY) ok_cancel_command.
  - moves_by (sec_invoke i st p KERN_IDENTITY) ok_invoke_check. by destruct r.
  - moves_by (sec_leave i st p) ok_ctx_panicked. by destruct r.
  - moves_by (sec_destroy i st p) ok_destroy.
  - moves_by (sec_put i st p x) ok_put_session.
Qed.

(** A thread that has been woken goes on when the session is free, and when it is
    being closed. *)
Lemma waiter_moves i st p k s :
  sessions st !! p = Some s → i ∉ lock_cv s → lock_thread s = None ∨ unlink s = true → moves i st (TWait p k).
Proof.
  intros Hp Haw Hs. eexists. split; [apply sec_wait; intros s' Hs'; by assert (s' = s) as -> by congruence|].
  apply ok_bind. unfold wait_lock. apply ok_bind, ok_read.
  intros s' Hs'. assert (s' = s) as -> by congruence.
  destruct (unlink s) eqn:Hu; cbn [negb]; [rewrite andb_false_r|rewrite andb_true_r].
  - apply ok_bind. eapply ok_mono; [apply ok_dec|]. intros ? ? _. apply ok_ret, ok_ret. by destruct k as [[]|].
  - destruct Hs as [-> |?]; [|done]. cbn. apply ok_bind, ok_store, ok_ret, ok_ret. by destruct k.
Qed.

Lemma unlinker_moves i st p k c s :
  sessions st !! p = Some s → i ∉ refc_cv s → ref_count s = 1 → moves i st (TUnlink p k c).
Proof.
  intros Hp Haw Hs. eexists. split; [apply sec_unlink_wait; intros s' Hs'; by assert (s' = s) as -> by congruence|].
  apply ok_bind. unfold wait_unlink. apply ok_bind, ok_read.
  intros s' Hs'. assert (s' = s) as -> by congruence. rewrite Hs. cbn. apply ok_bind, ok_get, ok_bind, ok_put, ok_ret, ok_ret.
  by destruct c, k.
Qed.

(** More references than those of one thread: another thread has one. *)
Lemma total_other p ts i t :
  ts !! i = Some t → (refs p t < total p ts)%nat → ∃ j u, j ≠ i ∧ ts !! j = Some u ∧ (0 < refs p u)%nat.
Proof.
  intros Ht Hlt. pose proof (total_move p ts i t TIdle Ht) as Hm. change (refs p TIdle) with 0%nat in Hm.
  destruct (sum_pos (refs p) (<[i:=TIdle]> ts)) as (j & u & Hj & Hu); [unfold total in *; lia|].
  rewrite (lookup_thread ts i t TIdle j Ht) in Hj. case_decide; [|by exists j, u].
  injection Hj as <-. unfold refs in Hu. cbn in Hu. lia.
Qed.

Section no_deadlock.
Context (st : tas) (ts : list tpc) (Hi : inv st ts) (Hc : cinv st ts).

Definition someone_moves : Prop := ∃ j u, ts !! j = Some u ∧ u ≠ TIdle ∧ moves j st u.

(** Whoever has a session that is being closed can go on, the closing thread apart:
    condvar_broadcast() has woken all. *)
Lemma user_moves j u p s :
  ts !! j = Some u → (0 < refs p u)%nat → sessions st !! p = Some s → unlink s = true → unlinking u = None → someone_moves.
Proof.
  intros Hj Hr Hp Hu Hun. pose proof (cv_calm _ _ Hc j u Hj) as Hcalm. exists j, u. split; [done|].
  split; [by intros ->; cbn in Hr; unfold refs in Hr; cbn in Hr; lia|].
  destruct (waits u) eqn:Hw; [|by apply mover_moves].
  destruct u as [| | | | | |q k| | | | | | | | | |]; try done; [unfold refs in Hr; cbn in Hr; lia|].
  assert (q = p) as -> by (unfold refs in Hr; cbn in Hr; case_decide; [done|lia]).
  apply (waiter_moves j st p k s); [done| |by right]. intros Hin.
  destruct (wk_free _ _ _ (iv_wake _ _ Hi p s Hp)) as [Hno _]; [|congruence]. intros E. rewrite E in Hin. by apply elem_of_nil in Hin.
Qed.

Lemma closer_moves i p k c : ts !! i = Some (TUnlink p k c) → someone_moves.
Proof.
  intros Ht. destruct (iv_alive _ _ Hi i _ Ht p) as [s Hp]; [refs_tac|].
  pose proof (iv_refs _ _ Hi p s Hp) as Hr. pose proof (cv_calm _ _ Hc i _ Ht) as Hcalm. cbn in Hcalm.
  destruct k; [|done|done]. assert (refs p (TUnlink p ByRequest c) = 1%nat) as H1 by refs_tac.
  assert (unlink s = true) as Hu by (apply (iv_unlink _ _ Hi p s Hp); by exists i, (TUnlink p ByRequest c)).
  destruct (decide (total p ts = 1)%nat) as [Htot|Htot].
  - exists i, (TUnlink p ByRequest c). split; [done|]. split; [done|].
    apply (unlinker_moves i st p ByRequest c s); [done| |lia]. intros Hin.
    apply (wk_alone _ _ _ (iv_wake _ _ Hi p s Hp)); [|lia]. intros E. rewrite E in Hin. by apply elem_of_nil in Hin.
  - pose proof (total_has p ts i _ Ht). destruct (total_other p ts i _ Ht) as (j & u & Hne & Hj & Hru); [lia|].
    apply (user_moves j u p s); try done. destruct (unlinking u) as [q|] eqn:Hun; [|done]. exfalso.
    destruct u; simplify_eq/=. assert (q = p) as -> by (unfold refs in Hru; cbn in Hru; case_decide; [done|lia]).
    assert (lock_thread s = Some i) by (apply (iv_lock _ _ Hi p s i Hp); by eexists).
    assert (lock_thread s = Some j) by (apply (iv_lock _ _ Hi p s j Hp); by eexists). congruence.
Qed.

(** Who sleeps for a session that is free has been overtaken by a thread that was
    woken for it. *)
Lemma waiting_moves i p k : ts !! i = Some (TWait p k) → someone_moves.
Proof.
  intros Ht. destruct (iv_alive _ _ Hi i _ Ht p) as [s Hp]; [refs_tac|].
  destruct (lock_thread s) as [j|] eqn:Hl.
  - apply (iv_lock _ _ Hi p s j Hp) in Hl as (u & Hj & Hlu). pose proof (cv_calm _ _ Hc j u Hj) as Hcu.
    destruct (unlinking u) as [q|] eqn:Hun; [destruct u; simplify_eq/=; by eapply closer_moves|].
    exists j, u. split; [done|]. split; [by intros ->|]. apply mover_moves. by destruct u.
  - destruct (decide (i ∈ lock_cv s)) as [Hin|Haw].
    + destruct (wk_free _ _ _ (iv_wake _ _ Hi p s Hp)) as [_ Hf].
      { intros E. rewrite E in Hin. by apply elem_of_nil in Hin. }
      destruct (Hf Hl) as (j & k' & Hj & Haw). exists j, (TWait p k'). split; [done|]. split; [done|].
      apply (waiter_moves j st p k' s); [done|done|by left].
    + exists i, (TWait p k). split; [done|]. split; [done|]. apply (waiter_moves i st p k s); [done|done|by left].
Qed.

Lemma not_all_stuck i t : ts !! i = Some t → t ≠ TIdle → someone_moves.
Proof.
  intros Ht Hne. destruct (waits t) eqn:Hw.
  - pose proof (cv_calm _ _ Hc i t Ht). destruct t; try done; [by eapply waiting_moves|by eapply closer_moves].
  - exists i, t. split; [done|]. split; [done|]. by apply mover_moves.
Qed.
End no_deadlock.


(** ** Opening a session to a TA that has panicked *)

(** The TA of session [s] is not there any more. *)
Definition dead (st : tas) (s : tee_ta_session) : Prop :=
  match ctx s with None => True | Some c => ∃ x, ctxs st !! c = Some x ∧ panicked x = true end.

(** A thread that has the reference of tee_ta_init_session() to [p] and is past the
    point where it would give it back. *)
Definition hung (p : nat) (t : tpc) : Prop :=
  match t with
  | TClose q k | TLookup _ q k | TWait q (Some k) | TCheck q k | TUnlinkStart q k _ | TUnlink q k _ =>
    q = p ∧ k = HoldsReference
  | TLost q => q = p
  | _ => False
  end.

Lemma hung_refs p t : hung p t → (0 < refs p t)%nat.
Proof. destruct t as [| | | | | |? [|]| | | | | | | | | |]; cbn; intros; try done; try (destruct H as [-> ->]); subst; refs_tac. Qed.

Lemma ok_wait_lock_got i p st : ok (wait_lock i p) (λ r _, match r with GotNull => True | Got q | MustWait q => q = p end) st.
Proof.
  unfold wait_lock. apply ok_bind, ok_read. intros s _. destruct (_ && _); [by apply ok_bind, ok_store, ok_ret|].
  destruct (unlink s); apply ok_bind; [|by apply ok_store, ok_ret].
  eapply ok_mono; [apply ok_dec|]. intros. by apply ok_ret.
Qed.

(** Two users of a session keep it from being freed. *)
Lemma ok_wait_unlink_kept i p st ts :
  inv st ts → (1 < total p ts)%nat → ok (wait_unlink i p) (λ done _, done = false) st.
Proof.
  intros Hi Ht. unfold wait_unlink. apply ok_bind, ok_read. intros s Hp. rewrite (iv_refs _ _ Hi p s Hp).
  destruct (Z.eqb_spec (Z.of_nat (total p ts)) 1); [lia|]. by apply ok_bind, ok_store, ok_ret.
Qed.

Lemma ok_unlink_kept i p st ts :
  inv st ts → (1 < total p ts)%nat → ok (tee_ta_unlink_session i p) (λ done _, done = false) st.
Proof.
  intros Hi Ht. unfold tee_ta_unlink_session. apply ok_bind, ok_read. intros s Hp. do 3 (apply ok_bind, ok_assert; intros _).
  apply ok_bind, ok_store. unfold wait_unlink. apply ok_bind, ok_read. cbn. intros s'. rewrite lookup_insert_eq. intros [= <-].
  cbn. rewrite (iv_refs _ _ Hi p s Hp).
  destruct (Z.eqb_spec (Z.of_nat (total p ts)) 1); [lia|]. by apply ok_bind, ok_store, ok_ret.
Qed.

Lemma hung_section st ts i p t m :
  inv st ts → ts !! i = Some t → hung p t → section i st t m → ok m (λ t' _, hung p t') st.
Proof.
  intros Hi Ht Hh Hsec. pose proof (total_has p ts i t Ht) as Htot.
  destruct Hsec; try done; cbn in Hh; try (destruct Hh as [-> ->]).
  - apply ok_bind, ok_read. intros s _. by apply ok_ret.
  - apply ok_bind. eapply ok_mono; [apply (ok_wp _ _ (λ _ _, False)), (wp_get_raw st ts i _ n true _ Hi Ht eq_refl)|].
    intros [|q|q] st' Hr; apply ok_ret; [done|..].
    + destruct Hr as (s & Hq & Hid & _). by rewrite (lookup_same st ts i Hi n p _ q s Ht Hq Hid eq_refl).
    + destruct Hr as (s & Hq & Hid & _). by rewrite (lookup_same st ts i Hi n p _ q s Ht Hq Hid eq_refl).
  - destruct k as [k|]; [destruct Hh as [-> ->]|done].
    apply ok_bind. eapply ok_mono; [apply ok_wait_lock_got|]. intros [|q|q] st' Hr; apply ok_ret; by subst.
  - apply ok_bind. eapply ok_mono; [apply ok_close_check|]. intros [c|] st' _; by apply ok_ret.
  - apply ok_bind. eapply ok_mono; [apply (ok_unlink_kept i p st ts Hi); unfold refs in Htot; cbn in Htot; rewrite decide_True in Htot by done; lia|].
    intros done st' ->. by apply ok_ret.
  - apply ok_bind. eapply ok_mono; [apply (ok_wait_unlink_kept i p st ts Hi); unfold refs in Htot; cbn in Htot; rewrite decide_True in Htot by done; lia|].
    intros done st' ->. by apply ok_ret.
Qed.

(** What any number of steps lead to. *)
Abbreviation later b := (rtc (λ w w', ta_step b w (Ok w'))).

Lemma later_reachable b n w w' : reachable b n w → later b w w' → reachable b n w'.
Proof. intros Hr Hl. induction Hl; [done|]. apply IHHl. by eapply reach_next. Qed.

(** A property of one thread that its own steps keep. *)
Lemma later_thread b n i (P : tpc → Prop) w w' :
  (∀ w t m, reachable b n w → threads w !! i = Some t → P t → section i (mem w) t m → ok m (λ t' _, P t') (mem w)) →
  (∀ p, ¬ P (TOpened p)) → reachable b n w → later b w w' →
  (∃ t, threads w !! i = Some t ∧ P t) → ∃ t, threads w' !! i = Some t ∧ P t.
Proof.
  intros HP Hno Hr Hl. induction Hl as [|w w1 w' Hs Hl IH]; [done|]. intros (t & Ht & Hpt).
  apply IH; [by eapply reach_next|]. inversion Hs as [j ? ? Hst|st ts j q s c x _ _ _ _ _|st ts j q _ Hj]; subst; [|by exists t|].
  - inversion Hst as [st ts u m u' st' Hj Hsec Hm| |]; subst. cbn in Ht |- *. rewrite (lookup_thread ts j u u' i Hj).
    case_decide; [subst j|by exists t]. assert (u = t) as -> by congruence. exists u'. split; [done|].
    by apply (HP (World st ts) t m Hr Ht Hpt Hsec u' st').
  - cbn in Ht |- *. rewrite (lookup_thread ts j _ _ i Hj). case_decide; [subst j|by exists t].
    rewrite Ht in Hj. injection Hj as ->. by destruct (Hno q).
Qed.

Lemma two_users p ts i j t u :
  i ≠ j → ts !! i = Some t → ts !! j = Some u → (refs p t + refs p u <= total p ts)%nat.
Proof.
  intros Hne Ht Hu. pose proof (total_move p ts i t TIdle Ht) as Hm. change (refs p TIdle) with 0%nat in Hm.
  pose proof (total_has p (<[i:=TIdle]> ts) j u ltac:(rewrite list_lookup_insert_ne; done)). lia.
Qed.

(** C40: a request to open a session to a TA that has panicked loses the session.
    When tee_ta_open_session() finds the context of the new session gone or panicked,
    it calls tee_ta_close_session() and keeps the reference of tee_ta_init_session().
    Whatever the threads do from then on, that thread never gives the reference back:
    it waits in tee_ta_unlink_session() for it, or has returned because another
    request was closing the session. The session is never freed, and a thread that
    closes it, whichever that is, sleeps forever. *)
Theorem open_of_panicked_hangs b n w i p s w1 w2 :
  reachable b n w → threads w !! i = Some (TOpened p) →
  sessions (mem w) !! p = Some s → dead (mem w) s → step i w (Ok w1) → later b w1 w2 →
  (∃ t, threads w2 !! i = Some t ∧ hung p t) ∧ is_Some (sessions (mem w2) !! p)
  ∧ ∀ j k c w3, threads w2 !! j = Some (TUnlink p k c) → later b w2 w3 → threads w3 !! j = Some (TUnlink p k c).
Proof.
  intros Hr Ht Hp Hd Hs Hl. assert (reachable b n w1) as Hr1 by (eapply reach_next; [done|by eapply ta_thread]).
  assert (∃ t, threads w1 !! i = Some t ∧ hung p t) as H1.
  { inversion Hs as [st ts t m t' st' Hi Hsec Hm| |]; subst. cbn in *. assert (t = TOpened p) as -> by congruence.
    exists t'. rewrite (lookup_thread ts i _ t' i Hi), decide_True by done. split; [done|].
    revert Hm. inversion Hsec; subst. unfold open_check, read, mbind, M_bind, mget. rewrite Hp. cbn [mret M_ret].
    unfold dead in Hd. destruct (ctx s) as [c|]; [|by intros [= <- _]]. destruct Hd as (x & Hx & Hpan).
    unfold read_ctx, mbind, M_bind, mget. rewrite Hx. cbn [mret M_ret]. rewrite Hpan. by intros [= <- _]. }
  assert (∀ v v', reachable b n v → later b v v' → (∃ t, threads v !! i = Some t ∧ hung p t) →
    ∃ t, threads v' !! i = Some t ∧ hung p t) as Hkeep.
  { intros v v' Hv Hlv. apply (later_thread b n i (hung p) v v'); [|by intros q []|done|done].
    intros u t m [Hi _]%reachable_good Hu Hh. by apply (hung_section _ (threads u)). }
  pose proof (Hkeep w1 w2 Hr1 Hl H1) as H2. pose proof (later_reachable b n w1 w2 Hr1 Hl) as Hr2.
  split; [done|]. destruct (H2) as (t & Ht2 & Hh2). split.
  { destruct (reachable_good _ _ _ Hr2) as [Hi _]. by apply (iv_alive _ _ Hi i t Ht2), hung_refs. }
  intros j k c w3 Hj Hl3.
  assert (∃ u, threads w3 !! j = Some u ∧ u = TUnlink p k c) as (u & Hu & ->); [|done].
  assert ((∃ t, threads w3 !! i = Some t ∧ hung p t) ∧ ∃ u, threads w3 !! j = Some u ∧ u = TUnlink p k c) as [_ ?]; [|done].
  clear H1 Hl Ht2 Hh2 Hr1 Hr Hs Ht Hp Hd. revert Hr2 H2 Hj.
  induction Hl3 as [v|v v' w3 Hst Hl3 IH]; [by eauto|]. intros Hv Hi Hj.
  assert (later b v v') as Hone by by eapply rtc_once. pose proof (later_reachable b n v v' Hv Hone) as Hv'.
  apply IH; [done|by apply (Hkeep v v')|].
  destruct Hi as (t' & Hti & Hhi). destruct (reachable_good _ _ _ Hv) as [Hinv _].
  inversion Hst as [l ? ? Hx|? ? ? ? ? ? ? _ _ _ _ _|st ts l q _ Hq]; subst; [|done|].
  - inversion Hx as [st ts u m u' st' Hlk Hsec Hm| |]; subst. cbn in *. rewrite (lookup_thread ts l u u' j Hlk).
    case_decide; [subst l|done]. assert (u = TUnlink p k c) as -> by congruence. f_equal.
    assert (1 < total p ts)%nat as Htot.
    { destruct (decide (i = j)) as [-> |Hne].
      - assert (t' = TUnlink p k c) as -> by congruence. destruct Hhi as [_ ->].
        pose proof (total_has p ts j _ Hlk). unfold refs in *. cbn in *. rewrite decide_True in * by done. lia.
      - pose proof (two_users p ts i j _ _ Hne Hti Hlk). pose proof (hung_refs p t' Hhi).
        assert (0 < refs p (TUnlink p k c))%nat by refs_tac. lia. }
    inversion Hsec; subst.
    refine (ok_bind (wait_unlink j p) (λ b : bool, mret (if b then after p k c else TUnlink p k c))
      (λ u _, u = TUnlink p k c) st _ u' st' Hm).
    eapply ok_mono; [by apply (ok_wait_unlink_kept j p st ts)|]. intros ? ? ->. by apply ok_ret.
  - cbn in *. rewrite (lookup_thread ts l _ _ j Hq). case_decide; [subst l; congruence|done].
Qed.

(** ** Executions *)

Definition exec (i : nat) (m : T tpc) (w : world) : world :=
  match m (mem w) with
  | (Ok t', st') => World st' (<[i := t']> (threads w))
  | _ => w
  end.

Lemma reach_exec b n w i t m :
  reachable b n w → threads w !! i = Some t → section i (mem w) t m → reachable b n (exec i m w).
Proof.
  intros Hr Ht Hsec. unfold exec. destruct (m (mem w)) as [[t'|e|] st'] eqn:Hm; [|done|done].
  eapply reach_next; [exact Hr|]. apply (ta_thread b i). destruct w as [st ts]. by eapply step_section.
Qed.

Lemma step_exec w i t t' m :
  threads w !! i = Some t → section i (mem w) t m → fst (m (mem w)) = Ok t' → step i w (Ok (exec i m w)).
Proof.
  intros Ht Hsec Hm. unfold exec. destruct (m (mem w)) as [[u|e|] st'] eqn:He; [|done|done].
  destruct w as [st ts]. by eapply step_section.
Qed.

(** The steps of thread [i] with session [p] as requests of the normal world make it
    take them. *)
Definition do_open (i p c : nat) (load : loaded) (w : world) : world :=
  exec i (r ← open_check p (Identity 0 []); mret (match r with Some c => TEntered p c | None => TClose p HoldsReference end))
    (exec i (opening p [1] load) w).
Definition do_enter (i p c : nat) (w : world) : world := exec i (dead ← open_end i p c; mret (entered p true dead)) w.
Definition do_return (i p : nat) (w : world) : world := exec i (_ ← read p; mret TIdle) w.
Definition by_id (i : nat) (n : Z) (w : world) : world :=
  exec i (r ← tee_ta_find_session_nolock n; mret (match r with Some p => TClose p ByRequest | None => TIdle end)) w.
Definition do_read (i p : nat) (k : closer) (w : world) : world := exec i (s ← read p; mret (TLookup (id s) p k)) w.
Definition do_lookup (i : nat) (n : Z) (p : nat) (k : closer) (w : world) : world :=
  exec i (r ← tee_ta_get_session i n true;
          mret (match r with GotNull => lost p k | Got q => TCheck q k | MustWait q => TWait q (Some k) end)) w.
Definition do_check (i p : nat) (k : closer) (w : world) : world :=
  exec i (r ← close_check i p KERN_IDENTITY; mret (match r with Some c => TUnlinkStart p k c | None => lost p k end)) w.
Definition do_unlink (i p : nat) (k : closer) (c : option nat) (w : world) : world :=
  exec i (done ← tee_ta_unlink_session i p; mret (if done : bool then after p k c else TUnlink p k c)) w.
Definition do_put_ctx (i c : nat) (w : world) : world := exec i (_ ← put_ctx c; mret (returned None)) w.
Definition do_get (i : nat) (n : Z) (w : world) : world :=
  exec i (r ← tee_ta_get_session i n true;
          mret (match r with GotNull => TIdle | Got q => TGot q | MustWait q => TWait q None end)) w.
Definition do_invoke (i p : nat) (w : world) : world :=
  exec i (r ← invoke_check p KERN_IDENTITY;
          mret (match r with Enter => TInside p | Destroy => TDestroy p | _ => TDone p true end)) w.
Definition do_leave (i p : nat) (w : world) : world :=
  exec i (dead ← ctx_panicked p; mret (if dead : bool then TDestroy p else TDone p true)) w.
(** A close by id, up to the end of the session. *)
Definition do_close (i : nat) (n : Z) (p : nat) (c : option nat) (w : world) : world :=
  do_unlink i p ByRequest c (do_check i p ByRequest (do_lookup i n p ByRequest (do_read i p ByRequest (by_id i n w)))).

Section runs.
Context (b : bool) (w : world) (Hr : reachable b 2 w).

Lemma reach_close i n p c :
  threads w !! i = Some TIdle → threads (by_id i n w) !! i = Some (TClose p ByRequest) →
  threads (do_read i p ByRequest (by_id i n w)) !! i = Some (TLookup n p ByRequest) →
  threads (do_lookup i n p ByRequest (do_read i p ByRequest (by_id i n w))) !! i = Some (TCheck p ByRequest) →
  threads (do_check i p ByRequest (do_lookup i n p ByRequest (do_read i p ByRequest (by_id i n w)))) !! i
    = Some (TUnlinkStart p ByRequest c) →
  reachable b 2 (do_close i n p c w).
Proof using Hr.
  intros H0 H1 H2 H3 H4.
  apply (reach_exec b 2 _ i (TUnlinkStart p ByRequest c)); [|done|apply sec_unlink].
  apply (reach_exec b 2 _ i (TCheck p ByRequest)); [|done|apply sec_check].
  apply (reach_exec b 2 _ i (TLookup n p ByRequest)); [|done|apply sec_lookup].
  apply (reach_exec b 2 _ i (TClose p ByRequest)); [|done|apply sec_close].
  by apply (reach_exec b 2 _ i TIdle); [|done|apply sec_find].
Qed.

Lemma reach_open i p c load :
  threads w !! i = Some TIdle → sessions (mem w) !! p = None → load ≠ NotLoaded TEE_SUCCESS →
  Z.of_nat (length (open_sessions (mem w))) < 2 ^ 31 →
  (∀ c x, load = Loaded c x → ctxs (mem w) !! c = None ∧ c_ref_count x = 1 ∧ panicked x = false) →
  threads (exec i (opening p [1] load) w) !! i = Some (TOpened p) →
  reachable b 2 (do_open i p c load w).
Proof using Hr.
  intros H0 Hp Hl Hn Hc H1. apply (reach_exec b 2 _ i (TOpened p)); [|done|apply sec_opened].
  apply (reach_exec b 2 _ i TIdle); [done|done|by apply sec_open].
Qed.

Lemma reach_invoke i n p :
  threads w !! i = Some TIdle → threads (do_get i n w) !! i = Some (TGot p) → reachable b 2 (do_invoke i p (do_get i n w)).
Proof using Hr.
  intros H0 H1. apply (reach_exec b 2 _ i (TGot p)); [|done|apply sec_invoke].
  by apply (reach_exec b 2 _ i TIdle); [|done|apply sec_get].
Qed.
End runs.

(** A multi session, single instance TA with one session; the thread that opened it
    has not yet read its id. *)
Definition a_ctx : tee_ta_ctx := Ctx [1] 12 false 1.
Definition w_entered : world := do_enter 0 10 20 (do_open 0 10 20 (Loaded 20 a_ctx) (start 2)).
Definition w_open : world := do_return 0 10 w_entered.

Lemma reach_entered b : reachable b 2 w_entered.
Proof.
  apply (reach_exec b 2 _ 0 (TEntered 10 20)); [|by vm_compute|apply (sec_entered _ _ 10 20 true)].
  apply reach_open; [by apply reach_start|done|done|done|done| |by vm_compute]. by intros c x [= <- <-].
Qed.

Lemma reach_w_open b : reachable b 2 w_open.
Proof. apply (reach_exec b 2 w_entered 0 (TReturned 10)); [apply reach_entered|by vm_compute|apply sec_returned]. Qed.

(** Thread 1 closes the session before thread 0 reads its id. *)
Definition w_closed_early : world := do_close 1 1 10 (Some 20%nat) w_entered.

Lemma reach_closed_early b : reachable b 2 w_closed_early.
Proof. apply reach_close; [apply reach_entered|by vm_compute..]. Qed.

(** Both threads close the session. *)
Definition w_dangling : world := do_close 0 1 10 (Some 20%nat) (by_id 1 1 w_open).

Lemma reach_dangling b : reachable b 2 w_dangling.
Proof.
  apply reach_close; [|by vm_compute..].
  apply (reach_exec b 2 _ 1 TIdle); [apply reach_w_open|by vm_compute|apply sec_find].
Qed.

Lemma dangling_step w i t p m :
  threads w !! i = Some t → section i (mem w) t m → reads_id t = Some p → sessions (mem w) !! p = None →
  step i w (Err UseAfterFree).
Proof.
  intros Ht Hsec Hrd Hp. destruct (close_dec i (mem w) t m Hsec) as [Hal|(q & _ & _ & Hm)].
  - destruct (Hal p Hrd). congruence.
  - destruct w as [st ts]. by eapply step_bad.
Qed.

(** The two reads of freed memory happen: the normal world closes a session twice, or
    guesses the id of a session that is being opened. *)
Lemma close_race :
  reachable false 2 w_dangling ∧ threads w_dangling !! 1%nat = Some (TClose 10 ByRequest)
  ∧ step 1 w_dangling (Err UseAfterFree).
Proof.
  split; [apply reach_dangling|]. assert (threads w_dangling !! 1%nat = Some (TClose 10 ByRequest)) as Ht by (by vm_compute).
  split; [done|]. eapply (dangling_step _ _ _ 10 _ Ht); [apply sec_close|done|by vm_compute].
Qed.

Lemma open_race :
  reachable false 2 w_closed_early ∧ threads w_closed_early !! 0%nat = Some (TReturned 10)
  ∧ step 0 w_closed_early (Err UseAfterFree).
Proof.
  split; [apply reach_closed_early|]. assert (threads w_closed_early !! 0%nat = Some (TReturned 10)) as Ht by (by vm_compute).
  split; [done|]. eapply (dangling_step _ _ _ 10 _ Ht); [apply sec_returned|done|by vm_compute].
Qed.

(** Thread 1 is about to close session 1 when thread 0 closes it and opens another,
    which gets the same id: thread 1 closes that one. *)
Definition w_reused : world :=
  do_lookup 1 1 10 ByRequest
    (do_open 0 11 21 (Loaded 21 a_ctx) (do_put_ctx 0 20 (do_close 0 1 10 (Some 20%nat) (do_read 1 10 ByRequest (by_id 1 1 w_open))))).

Lemma wrong_session : reachable false 2 w_reused ∧ threads w_reused !! 1%nat = Some (TCheck 11 ByRequest).
Proof.
  split; [|by vm_compute].
  apply (reach_exec false 2 _ 1 (TLookup 1 10 ByRequest)); [|by vm_compute|apply sec_lookup].
  apply reach_open; [|by vm_compute|by vm_compute|done|by vm_compute| |by vm_compute].
  - apply (reach_exec false 2 _ 0 (TPutCtx 20 None)); [|by vm_compute|apply sec_put_ctx].
    apply reach_close; [|by vm_compute..].
    apply (reach_exec false 2 _ 1 (TClose 10 ByRequest)); [|by vm_compute|apply sec_close].
    apply (reach_exec false 2 _ 1 TIdle); [apply reach_w_open|by vm_compute|apply sec_find].
  - intros c x [= <- <-]. by vm_compute.
Qed.

Definition ta_panics_at (c : nat) (w : world) : world :=
  match ctxs (mem w) !! c with
  | Some x => World (with_ctxs (mem w) <[c := Ctx (c_uuid x) (flags x) true (c_ref_count x)]>) (threads w)
  | None => w
  end.

Lemma reach_panic n w i p s c :
  reachable true n w → threads w !! i = Some (TInside p) → sessions (mem w) !! p = Some s → ctx s = Some c →
  reachable true n (ta_panics_at c w).
Proof.
  intros Hr Ht Hp Hc. unfold ta_panics_at. destruct (ctxs (mem w) !! c) as [x|] eqn:Hx; [|done].
  eapply reach_next; [exact Hr|]. destruct w as [st ts]. eapply (ta_panic true st ts i p s c x); try done. by left.
Qed.

(** The TA panics in thread 1; thread 0 opens a second session. *)
Definition w_panicked : world := ta_panics_at 20 (do_invoke 1 10 (do_get 1 1 w_open)).
Definition w_second : world := exec 0 (opening 11 [1] (NotLoaded TEE_ERROR_ITEM_NOT_FOUND)) w_panicked.
Definition w_opening : world :=
  exec 0 (r ← open_check 11 (Identity 0 []); mret (match r with Some c => TEntered 11 c | None => TClose 11 HoldsReference end)) w_second.
Definition w_read : world := do_read 0 11 HoldsReference w_opening.
Definition w_found : world := do_lookup 0 2 11 HoldsReference w_read.
Definition w_checked : world := do_check 0 11 HoldsReference w_found.
Definition w_hang : world := do_unlink 0 11 HoldsReference (Some 20%nat) w_checked.

Lemma reach_panicked : reachable true 2 w_panicked.
Proof.
  eapply (reach_panic 2 _ 1 10); [apply reach_invoke; [apply reach_w_open|by vm_compute|by vm_compute]|..]; by vm_compute.
Qed.

Lemma reach_second : reachable true 2 w_second.
Proof. apply (reach_exec _ 2 _ 0 TIdle); [apply reach_panicked|by vm_compute|apply sec_open; by vm_compute]. Qed.

Lemma later_exec b w i t t' m v w' :
  exec i m w = v → threads w !! i = Some t → section i (mem w) t m → fst (m (mem w)) = Ok t' → later b v w' → later b w w'.
Proof.
  intros <- Ht Hsec Hm Hl. eapply rtc_l; [|exact Hl]. apply (ta_thread b i). by eapply step_exec.
Qed.

Lemma later_hang b : later b w_opening w_hang.
Proof.
  apply (later_exec b _ 0 (TClose 11 HoldsReference) (TLookup 2 11 HoldsReference) _ w_read _ eq_refl);
    [by vm_compute|apply sec_close|by vm_compute|].
  apply (later_exec b _ 0 (TLookup 2 11 HoldsReference) (TCheck 11 HoldsReference) _ w_found _ eq_refl);
    [by vm_compute|apply sec_lookup|by vm_compute|].
  apply (later_exec b _ 0 (TCheck 11 HoldsReference) (TUnlinkStart 11 HoldsReference (Some 20%nat)) _ w_checked _ eq_refl);
    [by vm_compute|apply sec_check|by vm_compute|].
  apply (later_exec b _ 0 (TUnlinkStart 11 HoldsReference (Some 20%nat)) (TUnlink 11 HoldsReference (Some 20%nat)) _ w_hang _ eq_refl);
    [by vm_compute|apply sec_unlink|by vm_compute|].
  exact (rtc_refl _ w_hang).
Qed.

Lemma reach_hang : reachable true 2 w_hang.
Proof.
  eapply (later_reachable true 2 w_opening); [|apply later_hang].
  apply (reach_exec _ 2 _ 0 (TOpened 11)); [apply reach_second|by vm_compute|apply sec_opened].
Qed.

(** Thread 0 opens a second session and has closed it but for the reference of the
    context; then the TA panics in thread 1. *)
Definition w_closed : world :=
  do_close 0 2 11 (Some 20%nat) (do_return 0 11 (do_enter 0 11 20 (do_open 0 11 20 (NotLoaded TEE_ERROR_ITEM_NOT_FOUND) w_open))).
Definition w_race : world := do_leave 1 10 (ta_panics_at 20 (do_invoke 1 10 (do_get 1 1 w_closed))).

Lemma reach_closed b : reachable b 2 w_closed.
Proof.
  apply reach_close; [|by vm_compute..].
  apply (reach_exec _ 2 _ 0 (TReturned 11)); [|by vm_compute|apply sec_returned].
  apply (reach_exec _ 2 _ 0 (TEntered 11 20)); [|by vm_compute|apply (sec_entered _ _ _ _ true)].
  by apply reach_open; [apply reach_w_open|vm_compute..].
Qed.

Lemma reach_race : reachable true 2 w_race.
Proof.
  apply (reach_exec _ 2 _ 1 (TInside 10)); [|by vm_compute|apply sec_leave].
  eapply (reach_panic 2 _ 1 10); [apply reach_invoke; [apply reach_closed|by vm_compute|by vm_compute]|..]; by vm_compute.
Qed.

(** The assertion of destroy_ta_ctx_from_session() on the number of references fails
    when another thread is between the removal of its session and the end of
    tee_ta_close_session(). *)
Lemma destroy_race :
  reachable true 2 w_race ∧ threads w_race !! 0%nat = Some (TPutCtx 20 None)
  ∧ threads w_race !! 1%nat = Some (TDestroy 10) ∧ step 1 w_race Panicked.
Proof.
  split; [apply reach_race|]. split; [by vm_compute|].
  assert (threads w_race !! 1%nat = Some (TDestroy 10)) as Ht by (by vm_compute). split; [done|].
  assert (fst ((_ ← destroy_ta_ctx_from_session 10; mret (TDone 10 true)) (mem w_race)) = Panicked) as Hm by (by vm_compute).
  destruct w_race as [st ts]. cbn [mem threads] in *.
  destruct ((_ ← destroy_ta_ctx_from_session 10; mret (TDone 10 true)) st) as [r st'] eqn:Hr. cbn in Hm. subst r.
  eapply (step_panic 1 st ts _ _ st' Ht); [apply sec_destroy|exact Hr].
Qed.

(** ** Witnesses *)

Lemma session_references_witness :
  reachable true 2 w_hang ∧ ref_count (default (fresh_session 1 20) (sessions (mem w_hang) !! 11%nat)) = 2
  ∧ ∀ p, p ∈ open_sessions (mem w_hang) ↔ is_Some (sessions (mem w_hang) !! p).
Proof.
  split; [apply reach_hang|]. split; [by vm_compute|].
  exact (proj2 (proj2 (session_references true 2 w_hang reach_hang))).
Defined.

(** Thread 1 goes on from a state in which thread 0 would read freed memory. *)
Lemma sessions_safe_witness :
  reachable false 2 w_closed_early ∧ step 0 w_closed_early (Err UseAfterFree)
  ∧ ∃ p k, (threads w_closed_early !! 0%nat = Some (TClose p k) ∨ threads w_closed_early !! 0%nat = Some (TReturned p))
           ∧ sessions (mem w_closed_early) !! p = None.
Proof.
  destruct open_race as (Hr & _ & Hs). split; [exact Hr|]. split; [exact Hs|].
  destruct (sessions_safe 2 w_closed_early 0 _ Hr Hs) as [(w' & [=])|(_ & p & k & Hp)]. by exists p, k.
Defined.

Lemma context_references_witness :
  reachable false 2 w_closed ∧ ∀ c, c ∈ tee_ctxes (mem w_closed) ↔ is_Some (ctxs (mem w_closed) !! c).
Proof.
  split; [apply reach_closed|]. exact (proj2 (proj2 (context_references 2 w_closed (reach_closed false)))).
Defined.

(** Thread 0 invokes the TA while thread 1 has come for the same session and sleeps. *)
Definition w_sleeping : world := do_get 1 1 (do_invoke 0 10 (do_get 0 1 w_open)).

Lemma reach_sleeping b : reachable b 2 w_sleeping.
Proof.
  apply (reach_exec b 2 _ 1 TIdle); [apply reach_invoke; [apply reach_w_open|by vm_compute|by vm_compute]|by vm_compute|apply sec_get].
Qed.


(** The second session is opened after the TA has panicked; thread 0 sleeps forever. *)
Lemma open_of_panicked_hangs_witness :
  reachable true 2 w_second ∧ later true w_opening w_hang
  ∧ ∀ w3, later true w_hang w3 → threads w3 !! 0%nat = Some (TUnlink 11 HoldsReference (Some 20%nat)).
Proof.
  split; [apply reach_second|]. split; [apply later_hang|].
  assert (threads w_second !! 0%nat = Some (TOpened 11)) as Ht by (by vm_compute).
  assert (step 0 w_second (Ok w_opening)) as Hs.
  { apply (step_exec w_second 0 (TOpened 11) (TClose 11 HoldsReference)); [exact Ht|apply sec_opened|by vm_compute]. }
  assert (sessions (mem w_second) !! 11%nat = Some (fresh_session 2 20)) as Hp by (by vm_compute).
  assert (dead (mem w_second) (fresh_session 2 20)) as Hd.
  { exists (Ctx [1] 12 true 2). split; by vm_compute. }
  intros w3 Hl. apply (proj2 (proj2 (open_of_panicked_hangs true 2 w_second 0 11 _ w_opening w_hang
    reach_second Ht Hp Hd Hs (later_hang true)))); [by vm_compute|exact Hl].
Defined.

(** ** Time limits *)

Definition in_ms (t : TEE_Time) : Z := 1000 * seconds t + millis t.
Definition valid_time (t : TEE_Time) : Prop := 0 <= seconds t < 2 ^ 32 - 1 ∧ 0 <= millis t < 1000.

Lemma set_invoke_timeout_eq now to :
  valid_time now → 0 <= to < TEE_TIMEOUT_INFINITE → seconds now + to / 1000 + 2 < 2 ^ 32 →
  set_invoke_timeout (Some now) to =
    if 1000 <? millis now + to mod 1000 then Time (seconds now + 2) (millis now + to mod 1000 - 1000)
    else Time (seconds now + to / 1000) (millis now + to mod 1000).
Proof.
  intros [Hs Hm] Hto Hsum. unfold set_invoke_timeout, TEE_TIMEOUT_INFINITE in *.
  destruct (Z.eqb_spec to 0xFFFFFFFF) as [|_]; [lia|].
  assert (0 <= to mod 1000 < 1000) by (apply Z.mod_pos_bound; lia). assert (0 <= to / 1000) by (apply Z.div_pos; lia).
  unfold add_overflow. destruct (Z.ltb_spec (seconds now + to / 1000) (2 ^ 32)); [|lia]. cbv zeta.
  rewrite (wrap_small 32 (millis now + to mod 1000)) by (unfold in_range; lia).
  destruct (Z.ltb_spec 1000 (millis now + to mod 1000)); [|done].
  destruct (Z.ltb_spec (seconds now + 1) (2 ^ 32)); [|lia]. rewrite wrap_small by (unfold in_range; lia).
  f_equal. lia.
Qed.

(** A command that is given a limit of [to] milliseconds at time [now] is cancelled
    from the moment [now] plus [to] on and not before, as long as the milliseconds of
    the two do not add up to more than a second. *)
Lemma session_times_out now to s t :
  valid_time now → valid_time t → 0 <= to < TEE_TIMEOUT_INFINITE → seconds now + to / 1000 + 2 < 2 ^ 32 →
  millis now + to mod 1000 < 1000 →
  cancel_mask s = false → cancel s = false → cancel_time s = set_invoke_timeout (Some now) to →
  tee_ta_session_is_cancelled s (Some t) = (in_ms now + to <=? in_ms t).
Proof.
  intros Hnow Ht Hto Hsum Hms Hmask Hc Htime. rewrite set_invoke_timeout_eq in Htime by done.
  destruct (Z.ltb_spec 1000 (millis now + to mod 1000)); [lia|]. destruct Hnow, Ht.
  unfold tee_ta_session_is_cancelled. rewrite Hmask, Hc, Htime. cbn [seconds millis].
  destruct (Z.eqb_spec (seconds now + to / 1000) (2 ^ 32 - 1)); [lia|].
  pose proof (Z.div_mod to 1000 ltac:(lia)) as Hdm. pose proof (Z.mod_pos_bound to 1000 ltac:(lia)) as Hmod.
  assert (in_ms now + to = 1000 * (seconds now + to / 1000) + (millis now + to mod 1000)) as -> by (unfold in_ms; lia).
  unfold in_ms. destruct (Z.ltb_spec (seconds now + to / 1000) (seconds t)),
    (Z.eqb_spec (seconds t) (seconds now + to / 1000)),
    (Z.leb_spec (millis now + to mod 1000) (millis t)); cbn; symmetry; (apply Z.leb_le || apply Z.leb_gt); lia.
Qed.

(** When they do, the limit is two seconds and a fraction after [now], whatever
    [to] is. *)
Theorem timeout_carry_loses_seconds now to :
  valid_time now → 0 <= to < TEE_TIMEOUT_INFINITE → seconds now + to / 1000 + 2 < 2 ^ 32 →
  1000 < millis now + to mod 1000 →
  in_ms (set_invoke_timeout (Some now) to) = in_ms now + to mod 1000 + 1000
  ∧ (to / 1000 = 1 ↔ in_ms (set_invoke_timeout (Some now) to) = in_ms now + to).
Proof.
  intros Hnow Hto Hsum Hms. rewrite set_invoke_timeout_eq by done. rewrite (proj2 (Z.ltb_lt _ _) Hms).
  pose proof (Z.div_mod to 1000 ltac:(lia)). unfold in_ms. cbn. lia.
Qed.

Definition timed (c : TEE_Time) : tee_ta_session := Session 1 None (Identity 0 []) false false c 1 None false [] [].

Lemma timeout_carry_loses_seconds_witness :
  in_ms (set_invoke_timeout (Some (Time 100 600)) 60500) = in_ms (Time 100 600) + 1500.
Proof.
  refine (proj1 (timeout_carry_loses_seconds (Time 100 600) 60500 _ _ _ _));
    (unfold valid_time, TEE_TIMEOUT_INFINITE; cbn; lia || done).
Defined.
