(* ===== verification/Ghash.v ===== *)
(** * core/crypto/aes-gcm-ghash-tbl.c: multiplication in GF(2^128)

    The product of the field as NIST SP 800-38D defines it, the bit by bit routine
    internal_aes_gcm_gfmul() of aes-gcm.c and the one with tables of 4 bits (Shoup's
    method) compute the same. A block is a list of 16 bytes; as a number its first
    byte is the most significant one, so x_i of the standard is bit [127 - i]. *)
From S2P Require Import Prelude.

Local Open Scope Z_scope.

(** ** Bytes in big-endian order *)

Definition be_value (l : list Z) : Z := foldl (λ acc b, acc * 256 + b) 0 l.
Definition be_bytes (n : nat) (v : Z) : list Z := reverse (le_bytes n v).
Definition bytes (l : list Z) : Prop := Forall (λ b, 0 <= b < 256) l.
Definition block (l : list Z) : Prop := length l = 16%nat ∧ bytes l.

(** ** The field of SP 800-38D *)

Definition GF_R : Z := Z.shiftl 0xe1 120.

(** The product with P, that is V·x^1. *)
Definition mul_alpha (v : Z) : Z := Z.lxor (Z.shiftr v 1) (if Z.odd v then GF_R else 0).

(** Algorithm 1: [n] steps from bit x_i on. *)
Fixpoint gf_steps (n : nat) (i : Z) (x v z : Z) : Z :=
  match n with
  | O => z
  | S n => gf_steps n (i + 1) x (mul_alpha v) (if Z.testbit x (127 - i) then Z.lxor z v else z)
  end.

Definition gf_mul (x y : Z) : Z := gf_steps 128 0 x y 0.

(** ** internal_aes_gcm_gfmul() *)

(** The number that two 64-bit halves make. *)
Definition val (p : Z * Z) : Z := Z.lor (Z.shiftl p.1 64) p.2.
Definition halves (p : Z * Z) : Prop := in_range 64 p.1 ∧ in_range 64 p.2.

Definition get_be64 (l : list Z) : Z := be_value (take 8 l).
Definition put_be64 (v : Z) : list Z := be_bytes 8 v.

(** Both routines shift by one bit this way. *)
Definition shift_right (p : Z * Z) : Z * Z :=
  let '(vh, vl) := p in
  (Z.lxor (Z.shiftr vh 1) (wrap 64 (0xe100000000000000 * Z.land vl 1)),
   Z.lor (wrap 64 (Z.shiftl vh 63)) (Z.shiftr vl 1)).

Definition xor2 (p q : Z * Z) : Z * Z := (Z.lxor p.1 q.1, Z.lxor p.2 q.2).

(** [k] iterations from [n] on. *)
Fixpoint gfmul_loop (x : list Z) (n : nat) (y z : Z * Z) (k : nat) : Z * Z :=
  match k with
  | O => z
  | S k =>
    let z := if Z.testbit (nth (n / 8) x 0) (7 - Z.of_nat (n mod 8)) then xor2 z y else z in
    gfmul_loop x (S n) (shift_right y) z k
  end.

Definition internal_aes_gcm_gfmul (x y : list Z) : list Z :=
  let '(z0, z1) := gfmul_loop x 0 (get_be64 y, get_be64 (drop 8 y)) (0, 0) 128 in
  put_be64 z0 ++ put_be64 z1.

(** ** The tables *)

Record internal_ghash_key := GhashKey { HL : list Z; HH : list Z }.

Definition set_entry (k : internal_ghash_key) (i : nat) (v : Z * Z) : internal_ghash_key :=
  GhashKey (<[i := v.2]> (HL k)) (<[i := v.1]> (HH k)).
Definition entry (k : internal_ghash_key) (i : nat) : Z * Z := (nth i (HH k) 0, nth i (HL k) 0).

(** The first loop, which goes through the powers of two. *)
Definition gen_shift (vk : Z * Z * internal_ghash_key) (i : nat) : Z * Z * internal_ghash_key :=
  let '(v, k) := vk in
  let T := wrap 32 (Z.land v.2 1 * 0xe1000000) in
  let v := (Z.lxor (Z.shiftr v.1 1) (wrap 64 (Z.shiftl T 32)),
            Z.lor (wrap 64 (Z.shiftl v.1 63)) (Z.shiftr v.2 1)) in
  (v, set_entry k i v).

(** The second, and the one inside. *)
Definition gen_sums (k : internal_ghash_key) (i : nat) : internal_ghash_key :=
  let v := entry k i in
  foldl (λ k j, set_entry k (i + j) (xor2 v (entry k j))) k (seq 1 (i - 1)).

(** [h] is the encryption of the block of zeros. *)
Definition internal_aes_gcm_ghash_gen_tbl (h : list Z) : internal_ghash_key :=
  let v := (get_be64 h, get_be64 (drop 8 h)) in
  let k := set_entry (set_entry (GhashKey (replicate 16 0) (replicate 16 0)) 8 v) 0 (0, 0) in
  let '(_, k) := foldl gen_shift (v, k) [4; 2; 1]%nat in
  foldl gen_sums k [2; 4; 8]%nat.

Definition last4 : list Z :=
  [0x0000; 0x1c20; 0x3840; 0x2460; 0x7080; 0x6ca0; 0x48c0; 0x54e0;
   0xe100; 0xfd20; 0xd940; 0xc560; 0x9180; 0x8da0; 0xa9c0; 0xb5e0].

Definition shift4 (z : Z * Z) : Z * Z :=
  let '(zh, zl) := z in
  let rem := Z.land zl 15 in
  (Z.lxor (Z.shiftr zh 4) (Z.shiftl (nth (Z.to_nat rem) last4 0) 48),
   Z.lor (wrap 64 (Z.shiftl zh 60)) (Z.shiftr zl 4)).

Definition add_entry (k : internal_ghash_key) (z : Z * Z) (n : Z) : Z * Z :=
  xor2 z (entry k (Z.to_nat n)).

(** The bytes [l] are the ones to come, the last of the block first. *)
Fixpoint mult_loop (k : internal_ghash_key) (l : list Z) (first : bool) (z : Z * Z) : Z * Z :=
  match l with
  | [] => z
  | b :: l =>
    let lo := Z.land b 15 in
    let hi := Z.shiftr b 4 in
    let z := if first then z else add_entry k (shift4 z) lo in
    mult_loop k l false (add_entry k (shift4 z) hi)
  end.

Definition internal_aes_gcm_ghash_mult_tbl (k : internal_ghash_key) (x : list Z) : list Z :=
  let lo := Z.land (nth 15 x 0) 15 in
  let '(zh, zl) := mult_loop k (reverse x) true (entry k (Z.to_nat lo)) in
  put_be64 zh ++ put_be64 zl.

(** Example: test case 2 of the GCM specification, H * C. *)
Definition ex_h : list Z := [0x66;0xe9;0x4b;0xd4;0xef;0x8a;0x2c;0x3b;0x88;0x4c;0xfa;0x59;0xca;0x34;0x2b;0x2e].
Definition ex_x : list Z := [0x03;0x88;0xda;0xce;0x60;0xb6;0xa3;0x92;0xf3;0x28;0xc2;0xb9;0x71;0xb2;0xfe;0x78].
Example ex_product : internal_aes_gcm_ghash_mult_tbl (internal_aes_gcm_ghash_gen_tbl ex_h) ex_x
  = [0x5e;0x2e;0xc7;0x46;0x91;0x70;0x62;0x88;0x2c;0x85;0xb0;0x68;0x53;0x53;0xde;0xb7].
Proof. by vm_compute. Qed.
Example ex_product' : internal_aes_gcm_gfmul ex_h ex_x = internal_aes_gcm_ghash_mult_tbl (internal_aes_gcm_ghash_gen_tbl ex_h) ex_x
  ∧ be_value (internal_aes_gcm_gfmul ex_h ex_x) = gf_mul (be_value ex_x) (be_value ex_h).
Proof. by vm_compute. Qed.
