(* ===== verification/GhashProofs.v ===== *)
(** * core/crypto/aes-gcm-ghash-tbl.c: the routines compute the product of the field *)
From S2P Require Import Prelude Ghash.

Local Open Scope Z_scope.

(** ** Linear algebra over bits *)

Notation "a ⊕ b" := (Z.lxor a b) (at level 50, left associativity) : cint_scope.
Local Open Scope cint_scope.

Lemma lxor_swap a b c d : (a ⊕ b) ⊕ (c ⊕ d) = (a ⊕ c) ⊕ (b ⊕ d).
Proof. rewrite !Z.lxor_assoc. f_equal. rewrite <- !Z.lxor_assoc. f_equal. apply Z.lxor_comm. Qed.

Lemma lxor_range w a b : 0 <= w → in_range w a → in_range w b → in_range w (a ⊕ b).
Proof.
  unfold in_range. intros Hw Ha Hb. split; [apply Z.lxor_nonneg; lia|].
  destruct (Z.eq_dec (a ⊕ b) 0) as [-> |Hne]; [by apply Z.pow_pos_nonneg|].
  assert (0 <= a ⊕ b) by (apply Z.lxor_nonneg; lia).
  apply Z.log2_lt_pow2; [lia|]. pose proof (Z.log2_lxor a b ltac:(lia) ltac:(lia)).
  assert (∀ x, 0 <= x < 2 ^ w → x ≠ 0 → Z.log2 x < w) as Hlog.
  { intros x Hx Hx0. apply Z.log2_lt_pow2; lia. }
  destruct (Z.eq_dec a 0) as [-> |Ha0], (Z.eq_dec b 0) as [-> |Hb0].
  - done.
  - rewrite Z.lxor_0_l. by apply Hlog.
  - rewrite Z.lxor_0_r. by apply Hlog.
  - pose proof (Hlog a Ha Ha0). pose proof (Hlog b Hb Hb0). lia.
Qed.

Lemma mul_alpha_xor a b : mul_alpha (a ⊕ b) = mul_alpha a ⊕ mul_alpha b.
Proof.
  unfold mul_alpha. rewrite Z.shiftr_lxor, lxor_swap. f_equal.
  rewrite <- !Z.bit0_odd, Z.lxor_spec. destruct (Z.testbit a 0), (Z.testbit b 0); by vm_compute.
Qed.

Lemma mul_alpha_0 : mul_alpha 0 = 0.
Proof. done. Qed.

Definition alpha (n : nat) (v : Z) : Z := Nat.iter n mul_alpha v.

Lemma alpha_xor n a b : alpha n (a ⊕ b) = alpha n a ⊕ alpha n b.
Proof. unfold alpha. induction n as [|n IH]; [done|]. by rewrite !Nat.iter_succ, IH, mul_alpha_xor. Qed.

Lemma alpha_0 n : alpha n 0 = 0.
Proof. unfold alpha. induction n as [|n IH]; [done|]. by rewrite Nat.iter_succ, IH. Qed.

Lemma alpha_S n v : alpha (S n) v = alpha n (mul_alpha v).
Proof. unfold alpha. by rewrite Nat.iter_succ_r. Qed.

Lemma alpha_add n m v : alpha (n + m) v = alpha n (alpha m v).
Proof. apply Nat.iter_add. Qed.

(** [⊕ b_i·x^i·v] for a list of bits. *)
Fixpoint gsum (l : list bool) (v : Z) : Z :=
  match l with [] => 0 | b :: l => (if b then v else 0) ⊕ gsum l (mul_alpha v) end.

Lemma gsum_app l1 l2 v : gsum (l1 ++ l2) v = gsum l1 v ⊕ gsum l2 (alpha (length l1) v).
Proof.
  revert v. induction l1 as [|b l1 IH]; intros v; cbn [app gsum length]; [done|].
  by rewrite IH, alpha_S, Z.lxor_assoc.
Qed.

Lemma gsum_alpha l v n : gsum l (alpha n v) = alpha n (gsum l v).
Proof.
  revert v. induction l as [|b l IH]; intros v; cbn [gsum]; [by rewrite alpha_0|].
  rewrite alpha_xor, <- IH. f_equal; [destruct b; [done|by rewrite alpha_0]|]. f_equal.
  change (mul_alpha (alpha n v)) with (alpha (S n) v). apply alpha_S.
Qed.

(** The bits of a block, x_0 first. *)
Definition bits (n : nat) (i : Z) (x : Z) : list bool := (λ j, Z.testbit x (127 - (i + Z.of_nat j))) <$> seq 0 n.

Lemma bits_S n i x : bits (S n) i x = Z.testbit x (127 - i) :: bits n (i + 1) x.
Proof.
  unfold bits. cbn [seq fmap list_fmap]. f_equal; [f_equal; lia|].
  rewrite <- (fmap_S_seq 0 n), <- list_fmap_compose. apply list_fmap_ext. intros j y _. cbn. f_equal. lia.
Qed.

Lemma gf_steps_sum n i x v z : gf_steps n i x v z = z ⊕ gsum (bits n i x) v.
Proof.
  revert i v z. induction n as [|n IH]; intros i v z; [by rewrite Z.lxor_0_r|].
  rewrite bits_S. cbn [gf_steps gsum]. rewrite IH. destruct (Z.testbit x (127 - i)).
  - by rewrite Z.lxor_assoc.
  - by rewrite Z.lxor_0_l.
Qed.

Lemma gf_mul_sum x y : gf_mul x y = gsum (bits 128 0 x) y.
Proof. unfold gf_mul. by rewrite gf_steps_sum, Z.lxor_0_l. Qed.

(** ** Two halves *)

Lemma val_spec p i : halves p → 0 <= i → Z.testbit (val p) i = if i <? 64 then Z.testbit p.2 i else Z.testbit p.1 (i - 64).
Proof.
  intros [Hh Hl] Hi. unfold val. rewrite Z.lor_spec, Z.shiftl_spec by lia.
  destruct (Z.ltb_spec i 64).
  - by rewrite (Z.testbit_neg_r _ (i - 64)) by lia.
  - rewrite <- (Z.mod_small p.2 (2 ^ 64)) by apply Hl. rewrite Z.mod_pow2_bits_high by lia. by rewrite orb_false_r.
Qed.

Lemma wrap_spec w z i : 0 <= w → 0 <= i → Z.testbit (wrap w z) i = (i <? w) && Z.testbit z i.
Proof.
  intros Hw Hi. unfold wrap. destruct (Z.ltb_spec i w).
  - by rewrite Z.mod_pow2_bits_low.
  - by rewrite Z.mod_pow2_bits_high by lia.
Qed.

Lemma high_bit w z i : in_range w z → 0 <= w <= i → Z.testbit z i = false.
Proof.
  intros Hz Hi. rewrite <- (wrap_small w z Hz), wrap_spec by lia. by destruct (Z.ltb_spec i w); [lia|].
Qed.

Lemma lor_range w a b : 0 <= w → in_range w a → in_range w b → in_range w (Z.lor a b).
Proof.
  intros Hw Ha Hb. assert (Z.lor a b = wrap w (Z.lor a b)) as ->; [|by apply wrap_range].
  apply Z.bits_inj'. intros i Hi. rewrite wrap_spec, Z.lor_spec by lia. destruct (Z.ltb_spec i w); [done|].
  by rewrite (high_bit w a), (high_bit w b) by (done || lia).
Qed.

Lemma shiftr_range w z n : 0 <= w → 0 <= n → in_range w z → in_range w (Z.shiftr z n).
Proof.
  intros Hw Hn Hz. assert (Z.shiftr z n = wrap w (Z.shiftr z n)) as ->; [|by apply wrap_range].
  apply Z.bits_inj'. intros i Hi. rewrite wrap_spec, Z.shiftr_spec by lia. destruct (Z.ltb_spec i w); [done|].
  by rewrite (high_bit w z) by (done || lia).
Qed.

Lemma halves_xor2 p q : halves p → halves q → halves (xor2 p q).
Proof. intros [] []. split; by apply lxor_range. Qed.

Lemma val_xor2 p q : halves p → halves q → val (xor2 p q) = val p ⊕ val q.
Proof.
  intros Hp Hq. apply Z.bits_inj'. intros i Hi. rewrite Z.lxor_spec, !val_spec by (done || by apply halves_xor2).
  cbn. by destruct (i <? 64); rewrite Z.lxor_spec.
Qed.

Lemma halves_shift_right p : halves p → halves (shift_right p).
Proof.
  destruct p as [vh vl]. intros [Hh Hl]. cbn in *. split; cbn.
  - apply lxor_range; [done|by apply shiftr_range|by apply wrap_range].
  - apply lor_range; [done|by apply wrap_range|by apply shiftr_range].
Qed.

Lemma val_odd p : halves p → Z.odd (val p) = Z.odd p.2.
Proof. intros Hp. rewrite <- !Z.bit0_odd, val_spec by done. done. Qed.

Lemma val_shift_right p : halves p → val (shift_right p) = mul_alpha (val p).
Proof.
  intros Hp. unfold mul_alpha. rewrite val_odd by done. apply Z.bits_inj'. intros i Hi.
  rewrite val_spec, Z.lxor_spec, Z.shiftr_spec, val_spec by (done || lia || by apply halves_shift_right).
  destruct p as [vh vl], Hp as [Hh Hl]. cbn [fst snd shift_right] in *.
  change 1 with (Z.ones 1) at 3. rewrite Z.land_ones by lia. change (2 ^ 1) with 2.
  rewrite (Zmod_odd vl). assert (∀ j, 0 <= j → Z.testbit (if Z.odd vl then GF_R else 0) j
     = if j <? 64 then false else Z.testbit (wrap 64 (0xe100000000000000 * (if Z.odd vl then 1 else 0))) (j - 64)) as Hr.
  { intros j Hj. destruct (Z.odd vl); [|by rewrite !Z.bits_0, Tauto.if_same]. 
    change (wrap 64 (0xe100000000000000 * 1)) with (Z.shiftl 0xe1 56).
    unfold GF_R. rewrite !Z.shiftl_spec by lia. destruct (Z.ltb_spec j 64); [by rewrite Z.testbit_neg_r by lia|].
    rewrite Z.shiftl_spec by lia. f_equal. lia. }
  rewrite Hr by lia. destruct (Z.ltb_spec i 64).
  - rewrite xorb_false_r, Z.lor_spec, wrap_spec, Z.shiftl_spec, Z.shiftr_spec by lia.
    destruct (Z.ltb_spec i 64); [|lia]. destruct (Z.ltb_spec (i + 1) 64).
    + by rewrite (Z.testbit_neg_r vh (i - 63)) by lia.
    + rewrite (high_bit 64 vl) by (done || lia). rewrite orb_false_r. cbn. f_equal. lia.
  - rewrite Z.lxor_spec, Z.shiftr_spec by lia. destruct (Z.ltb_spec (i + 1) 64); [lia|]. do 2 f_equal. lia.
Qed.

(** ** Four bits at a time *)

Lemma alpha_shiftl n q : alpha n (Z.shiftl q (Z.of_nat n)) = q.
Proof.
  induction n as [|n IH]; [apply Z.shiftl_0_r|]. rewrite alpha_S. etrans; [|exact IH]. f_equal. unfold mul_alpha.
  rewrite <- Z.bit0_odd, Z.shiftl_spec, (Z.testbit_neg_r q) by lia. rewrite Z.lxor_0_r, Z.shiftr_shiftl_l by lia.
  f_equal. lia.
Qed.

Lemma split_low n v : 0 <= n → v = Z.shiftl (Z.shiftr v n) n ⊕ Z.land v (Z.ones n).
Proof.
  intros Hn. apply Z.bits_inj'. intros i Hi. rewrite Z.lxor_spec, Z.shiftl_spec, Z.land_spec by lia.
  destruct (Z.ltb_spec i n).
  - rewrite (Z.testbit_neg_r (Z.shiftr v n)), Z.ones_spec_low, andb_true_r by lia. by rewrite xorb_false_l.
  - rewrite Z.shiftr_spec, Z.ones_spec_high, andb_false_r, xorb_false_r by lia. f_equal. lia.
Qed.

Lemma nibble_cases (P : Z → Prop) r : 0 <= r < 16 → Forall P (Z.of_nat <$> seq 0 16) → P r.
Proof.
  intros Hr. rewrite Forall_fmap, Forall_seq. intros HP. specialize (HP (Z.to_nat r) ltac:(lia)).
  cbn in HP. by rewrite Z2Nat.id in HP by lia.
Qed.

Lemma land15_range z : 0 <= Z.land z 15 < 16.
Proof. change 15 with (Z.ones 4). rewrite Z.land_ones by lia. apply Z.mod_pos_bound. lia. Qed.

(** [last4] is the product of four bits that are shifted out with x^128. *)
Lemma alpha4_last4 r : 0 <= r < 16 → alpha 4 r = Z.shiftl (nth (Z.to_nat r) last4 0) 112.
Proof.
  intros Hr. apply (nibble_cases (λ r, alpha 4 r = Z.shiftl (nth (Z.to_nat r) last4 0) 112)); [done|].
  repeat constructor.
Qed.

Lemma last4_range r : 0 <= nth r last4 0 < 2 ^ 16.
Proof. do 16 (destruct r as [|r]; [by vm_compute|]). by destruct r. Qed.

Lemma halves_shift4 p : halves p → halves (shift4 p).
Proof.
  destruct p as [zh zl]. intros [Hh Hl]. cbn [fst snd] in *. split; cbn [fst snd shift4].
  - apply lxor_range; [done|by apply shiftr_range|]. pose proof (last4_range (Z.to_nat (Z.land zl 15))) as Hr.
    unfold in_range. rewrite Z.shiftl_mul_pow2 by lia. split; [lia|]. change (2 ^ 64) with (2 ^ 16 * 2 ^ 48).
    apply Z.mul_lt_mono_pos_r; lia.
  - apply lor_range; [done|by apply wrap_range|by apply shiftr_range].
Qed.

Lemma val_shift4 p : halves p → val (shift4 p) = alpha 4 (val p).
Proof.
  intros Hp. rewrite (split_low 4 (val p)) at 1 by lia. rewrite alpha_xor.
  rewrite (alpha_shiftl 4). change (Z.ones 4) with 15.
  assert (Z.land (val p) 15 = Z.land p.2 15) as Hland.
  { apply Z.bits_inj'. intros i Hi. rewrite !Z.land_spec, val_spec by done.
    destruct (Z.ltb_spec i 64); [done|]. change 15 with (Z.ones 4). by rewrite Z.ones_spec_high, !andb_false_r by lia. }
  rewrite Hland, alpha4_last4 by apply land15_range. apply Z.bits_inj'. intros i Hi.
  rewrite val_spec, Z.lxor_spec, Z.shiftr_spec, val_spec by (done || lia || by apply halves_shift4).
  destruct p as [zh zl], Hp as [Hh Hl]. cbn [fst snd shift4] in *. set (l4 := nth _ last4 0).
  destruct (Z.ltb_spec i 64).
  - rewrite Z.lor_spec, wrap_spec, Z.shiftl_spec, Z.shiftr_spec, (Z.shiftl_spec l4) by lia.
    rewrite (Z.testbit_neg_r l4), xorb_false_r by lia. destruct (Z.ltb_spec i 64); [|lia]. destruct (Z.ltb_spec (i + 4) 64).
    + by rewrite (Z.testbit_neg_r zh) by lia.
    + rewrite (high_bit 64 zl) by (done || lia). rewrite orb_false_r. cbn. f_equal. lia.
  - rewrite Z.lxor_spec, Z.shiftr_spec, !(Z.shiftl_spec l4) by lia. destruct (Z.ltb_spec (i + 4) 64); [lia|].
    f_equal; f_equal; lia.
Qed.

(** ** The table *)

(** The bits of a nibble, and of a byte. *)
Definition bits4 (n : Z) : list bool := [Z.testbit n 3; Z.testbit n 2; Z.testbit n 1; Z.testbit n 0].

(** The entry for [n] is [n] times [h]. *)
Definition table (k : internal_ghash_key) (h : Z) : Prop :=
  ∀ n, 0 <= n < 16 → halves (entry k (Z.to_nat n)) ∧ val (entry k (Z.to_nat n)) = gsum (bits4 n) h.

Lemma gen_shift_eq v k i : gen_shift (v, k) i = (shift_right v, set_entry k i (shift_right v)).
Proof.
  destruct v as [vh vl]. unfold gen_shift, shift_right. cbn [fst snd].
  assert (wrap 64 (Z.shiftl (wrap 32 (Z.land vl 1 * 0xe1000000)) 32) = wrap 64 (0xe100000000000000 * Z.land vl 1)) as ->; [|done].
  change 1 with (Z.ones 1). rewrite Z.land_ones by lia. change (2 ^ 1) with 2. rewrite Zmod_odd.
  by destruct (Z.odd vl).
Qed.

(** What the second loop makes of the entries at 8, 4, 2 and 1. *)
Fixpoint xsum2 (l : list (Z * Z)) : Z * Z :=
  match l with [] => (0, 0) | [p] => p | p :: l => xor2 p (xsum2 l) end.

Definition pick (n : Z) (l : list (Z * Z)) : list (Z * Z) :=
  (zip_with pair (bits4 n) l) ≫= λ '(b, p), if b : bool then [p] else [].

Lemma xsum2_ok l :
  Forall halves l → halves (xsum2 l) ∧ val (xsum2 l) = foldr (λ p s, val p ⊕ s) 0 l.
Proof.
  induction 1 as [|p l Hp Hl [IH1 IH2]]; [done|]. destruct l as [|q l].
  - split; [done|]. cbn. by rewrite Z.lxor_0_r.
  - change (xsum2 (p :: q :: l)) with (xor2 p (xsum2 (q :: l))). split; [by apply halves_xor2|].
    rewrite val_xor2, IH2 by done. done.
Qed.

Definition powers (a b c d : Z * Z) : internal_ghash_key :=
  set_entry (set_entry (set_entry (set_entry (set_entry (GhashKey (replicate 16 0) (replicate 16 0)) 8 a) 0 (0, 0)) 4 b) 2 c) 1 d.

Lemma gen_sums_entry a b c d n :
  0 <= n < 16 → entry (foldl gen_sums (powers a b c d) [2; 4; 8]%nat) (Z.to_nat n) = xsum2 (pick n [a; b; c; d]).
Proof.
  intros Hn. apply (nibble_cases (λ n, entry (foldl gen_sums (powers a b c d) [2; 4; 8]%nat) (Z.to_nat n)
    = xsum2 (pick n [a; b; c; d]))); [done|]. destruct a, b, c, d. repeat constructor.
Qed.

Lemma gen_tbl_table h :
  halves (get_be64 h, get_be64 (drop 8 h)) →
  table (internal_aes_gcm_ghash_gen_tbl h) (val (get_be64 h, get_be64 (drop 8 h))).
Proof.
  intros Hv n Hn. set (v := (get_be64 h, get_be64 (drop 8 h))) in *.
  set (v1 := shift_right v). set (v2 := shift_right v1). set (v3 := shift_right v2).
  assert (internal_aes_gcm_ghash_gen_tbl h = foldl gen_sums (powers v v1 v2 v3) [2; 4; 8]%nat) as ->.
  { unfold internal_aes_gcm_ghash_gen_tbl. fold v. change (foldl gen_shift ?x [4; 2; 1]%nat)
      with (gen_shift (gen_shift (gen_shift x 4) 2) 1). by rewrite !gen_shift_eq. }
  assert (halves v1 ∧ halves v2 ∧ halves v3) as (H1 & H2 & H3).
  { assert (halves v1) by by apply halves_shift_right. assert (halves v2) by by apply halves_shift_right.
    split; [done|]. split; [done|]. by apply halves_shift_right. }
  assert (val v1 = mul_alpha (val v) ∧ val v2 = mul_alpha (mul_alpha (val v)) ∧ val v3 = mul_alpha (mul_alpha (mul_alpha (val v))))
    as (E1 & E2 & E3).
  { unfold v3, v2, v1 in *. by rewrite !val_shift_right by done. }
  clearbody v3. clearbody v2. clearbody v1. clearbody v.
  rewrite gen_sums_entry by done. destruct (xsum2_ok (pick n [v; v1; v2; v3])) as [Hh ->].
  - unfold pick, bits4. destruct (Z.testbit n 3), (Z.testbit n 2), (Z.testbit n 1), (Z.testbit n 0); cbn; rewrite ?Forall_cons, ?Forall_nil; done.
  - split; [done|]. unfold pick, bits4. cbn [gsum]. rewrite <- E3, <- E2, <- E1.
    destruct (Z.testbit n 3), (Z.testbit n 2), (Z.testbit n 1), (Z.testbit n 0); cbn -[Z.lxor val];
      rewrite ?Z.lxor_0_l, ?Z.lxor_0_r; done.
Qed.

(** ** Bytes and bits *)

Lemma foldl_be acc l : foldl (λ acc b, acc * 256 + b) acc l = acc * 256 ^ Z.of_nat (length l) + be_value l.
Proof.
  unfold be_value. revert acc. induction l as [|b l IH]; intros acc; cbn [foldl length]; [lia|].
  rewrite (IH (acc * 256 + b)), (IH (0 * 256 + b)), Nat2Z.inj_succ, Z.pow_succ_r by lia. lia.
Qed.

Lemma be_value_cons b l : be_value (b :: l) = b * 256 ^ Z.of_nat (length l) + be_value l.
Proof. unfold be_value. cbn [foldl]. rewrite foldl_be. unfold be_value. lia. Qed.

Lemma be_value_app l l' : be_value (l ++ l') = be_value l * 256 ^ Z.of_nat (length l') + be_value l'.
Proof. unfold be_value at 1. by rewrite foldl_app, foldl_be. Qed.

Lemma be_value_range l : bytes l → in_range (8 * Z.of_nat (length l)) (be_value l).
Proof.
  unfold in_range. induction 1 as [|b l Hb Hl IH]; [done|]. rewrite be_value_cons. cbn [length].
  assert (2 ^ (8 * Z.of_nat (S (length l))) = 256 * 2 ^ (8 * Z.of_nat (length l))) as ->.
  { rewrite Nat2Z.inj_succ, Z.mul_succ_r, Z.add_comm, Z.pow_add_r by lia. done. }
  assert (256 ^ Z.of_nat (length l) = 2 ^ (8 * Z.of_nat (length l))) as -> by (by rewrite Z.pow_mul_r by lia).
  nia.
Qed.

Definition bits8 (b : Z) : list bool := bits4 (Z.shiftr b 4) ++ bits4 (Z.land b 15).
(** The [n] low bits, the highest of them first. *)
Definition bitsn (n : nat) (x : Z) : list bool := (λ j, Z.testbit x (Z.of_nat n - 1 - Z.of_nat j)) <$> seq 0 n.

Lemma land_glue m x y : 0 <= m → in_range m y → Z.land (Z.shiftl x m) y = 0.
Proof.
  intros Hm Hy. apply Z.bits_inj'. intros i Hi. rewrite Z.land_spec, Z.bits_0. destruct (Z.ltb_spec i m).
  - rewrite Z.shiftl_spec by lia. by rewrite (Z.testbit_neg_r x) by lia.
  - rewrite (high_bit m y) by (done || lia). apply andb_false_r.
Qed.

Lemma glue_lxor m x y : 0 <= m → in_range m y → x * 2 ^ m + y = Z.shiftl x m ⊕ y.
Proof. intros Hm Hy. rewrite <- Z.shiftl_mul_pow2 by lia. apply Z.add_nocarry_lxor. by apply land_glue. Qed.

Lemma bitsn_app n m x y : in_range (Z.of_nat m) y → bitsn (n + m) (x * 2 ^ Z.of_nat m + y) = bitsn n x ++ bitsn m y.
Proof.
  intros Hy. rewrite glue_lxor by (done || lia).
  unfold bitsn. rewrite seq_app, fmap_app. f_equal.
  - apply list_fmap_ext. intros j k [-> Hk]%lookup_seq. rewrite Z.lxor_spec, Z.shiftl_spec by lia.
    rewrite (high_bit (Z.of_nat m) y) by (done || lia). rewrite xorb_false_r. f_equal. lia.
  - rewrite <- (Nat.add_0_r (0 + n)), <- fmap_add_seq, <- list_fmap_compose.
    apply list_fmap_ext. intros j k [-> Hk]%lookup_seq. unfold compose. rewrite Z.lxor_spec, Z.shiftl_spec by lia.
    rewrite (Z.testbit_neg_r x), xorb_false_l by lia. f_equal. lia.
Qed.

Lemma bitsn_8 b : bitsn 8 b = bits8 b.
Proof.
  unfold bitsn, bits8, bits4. cbn [seq fmap list_fmap app].
  rewrite !Z.shiftr_spec, !Z.land_spec by lia. repeat f_equal; try (symmetry; apply andb_true_r).
Qed.

Lemma bitsn_bytes l : bytes l → bitsn (8 * length l) (be_value l) = l ≫= bits8.
Proof.
  induction 1 as [|b l Hb Hl IH]; [done|]. rewrite be_value_cons. cbn [length mbind list_bind].
  replace (8 * S (length l))%nat with (8 + 8 * length l)%nat by lia.
  assert (256 ^ Z.of_nat (length l) = 2 ^ Z.of_nat (8 * length l)) as ->.
  { rewrite Nat2Z.inj_mul, Z.pow_mul_r by lia. done. }
  rewrite bitsn_app, bitsn_8; [by f_equal|]. pose proof (be_value_range l Hl) as Hr.
  by rewrite Nat2Z.inj_mul.
Qed.

Lemma bits_block x : block x → bits 128 0 (be_value x) = x ≫= bits8.
Proof. intros [Hl Hx]. rewrite <- bitsn_bytes by done. by rewrite Hl. Qed.

(** ** Multiplication with the table *)

Section with_table.
Context (k : internal_ghash_key) (h : Z) (Hk : table k h).

Lemma add_entry_ok z l n :
  halves z → val z = gsum l h → 0 <= n < 16 →
  halves (add_entry k (shift4 z) n) ∧ val (add_entry k (shift4 z) n) = gsum (bits4 n ++ l) h.
Proof.
  intros Hz Hv Hn. destruct (Hk n Hn) as [He Hve]. unfold add_entry. pose proof (halves_shift4 z Hz).
  split; [by apply halves_xor2|]. rewrite val_xor2, val_shift4, Hv, Hve, gsum_app, gsum_alpha by done.
  apply Z.lxor_comm.
Qed.

Lemma shiftr4_range b : 0 <= b < 256 → 0 <= Z.shiftr b 4 < 16.
Proof. intros Hb. rewrite Z.shiftr_div_pow2 by lia. change (2 ^ 4) with 16. dlia. Qed.

Lemma mult_loop_ok r z l :
  bytes r → halves z → val z = gsum l h →
  halves (mult_loop k r false z) ∧ val (mult_loop k r false z) = gsum ((reverse r ≫= bits8) ++ l) h.
Proof.
  intros Hr. revert z l. induction Hr as [|b r Hb Hr IH]; intros z l Hz Hv; [done|]. cbn [mult_loop].
  destruct (add_entry_ok z l (Z.land b 15) Hz Hv (land15_range b)) as [Hz1 Hv1].
  destruct (add_entry_ok _ _ (Z.shiftr b 4) Hz1 Hv1 (shiftr4_range b Hb)) as [Hz2 Hv2].
  destruct (IH _ _ Hz2 Hv2) as [Hz3 Hv3]. split; [done|]. rewrite Hv3. f_equal.
  rewrite reverse_cons, bind_app. cbn [mbind list_bind]. unfold bits8. by rewrite !app_nil_r, <- !app_assoc.
Qed.

Lemma mult_loop_block x :
  block x →
  let z := mult_loop k (reverse x) true (entry k (Z.to_nat (Z.land (nth 15 x 0) 15))) in
  halves z ∧ val z = gf_mul (be_value x) h.
Proof.
  intros Hx. rewrite gf_mul_sum, bits_block by done. destruct Hx as [Hl Hx].
  destruct x as [|b y _] using rev_ind; [done|]. apply Forall_app in Hx as [Hy [Hb _]%Forall_cons].
  rewrite length_app in Hl. cbn in Hl. rewrite app_nth2, reverse_app by lia.
  replace (15 - length y)%nat with 0%nat by lia. cbn [nth reverse rev_append app mult_loop].
  destruct (Hk (Z.land b 15) (land15_range b)) as [Hz0 Hv0].
  destruct (add_entry_ok _ (bits4 (Z.land b 15)) (Z.shiftr b 4) Hz0 Hv0 (shiftr4_range b Hb)) as [Hz1 Hv1].
  destruct (mult_loop_ok (reverse y) _ _ ltac:(by apply Forall_reverse) Hz1 Hv1) as [Hz Hv].
  split; [exact Hz|]. etrans; [exact Hv|]. rewrite reverse_involutive, bind_app. cbn [mbind list_bind].
  unfold bits8. by rewrite app_nil_r.
Qed.
End with_table.

(** ** Blocks in and out *)

Lemma bytes_be n v : bytes (be_bytes n v).
Proof.
  unfold bytes, be_bytes. apply Forall_reverse. revert v. induction n as [|n IH]; intros v; cbn; constructor; [|done].
  apply Z.mod_pos_bound. lia.
Qed.

Lemma length_be_bytes n v : length (be_bytes n v) = n.
Proof. unfold be_bytes. by rewrite length_reverse, length_le_bytes. Qed.

Lemma be_value_reverse l : be_value (reverse l) = le_value l.
Proof.
  induction l as [|b l IH]; [done|]. rewrite reverse_cons, be_value_app, IH. cbn. unfold le_value. lia.
Qed.

Lemma be_value_bytes n v : in_range (8 * Z.of_nat n) v → be_value (be_bytes n v) = v.
Proof.
  intros Hv. unfold be_bytes. rewrite be_value_reverse. apply le_value_bytes.
  unfold in_range in Hv. rewrite Z.pow_mul_r in Hv by lia. exact Hv.
Qed.

Lemma be_value_inj x y : length x = length y → bytes x → bytes y → be_value x = be_value y → x = y.
Proof.
  intros Hl Hx. revert y Hl. induction Hx as [|a x Ha Hx IH]; intros [|b y] Hl Hy He; try done.
  apply Forall_cons in Hy as [Hb Hy]. injection Hl as Hl. rewrite !be_value_cons, Hl in He.
  pose proof (be_value_range x Hx) as Hrx. pose proof (be_value_range y Hy) as Hry. unfold in_range in *.
  rewrite Hl in Hrx. rewrite Z.pow_mul_r in Hrx, Hry by lia. change (2 ^ 8) with 256 in *.
  assert (a = b) as -> by nia. f_equal. apply IH; [done|done|lia].
Qed.

Lemma block_put p : halves p → block (put_be64 p.1 ++ put_be64 p.2) ∧ be_value (put_be64 p.1 ++ put_be64 p.2) = val p.
Proof.
  intros [Hh Hl]. unfold put_be64. split; [split|].
  - by rewrite length_app, !length_be_bytes.
  - apply Forall_app. split; apply bytes_be.
  - rewrite be_value_app, length_be_bytes, !be_value_bytes by done. unfold val.
    rewrite <- Z.lxor_lor by by apply land_glue. by apply (glue_lxor 64).
Qed.

Lemma val_halves x : block x → halves (get_be64 x, get_be64 (drop 8 x)) ∧ val (get_be64 x, get_be64 (drop 8 x)) = be_value x.
Proof.
  intros [Hl Hx]. unfold get_be64. pose proof (firstn_all2 (n := 8) (drop 8 x)) as Ht.
  rewrite length_drop, Hl in Ht. rewrite Ht by lia.
  assert (halves (be_value (take 8 x), be_value (drop 8 x))) as Hh.
  { split; cbn [fst snd].
    - pose proof (be_value_range (take 8 x) (Forall_take _ _ _ Hx)) as Hr. by rewrite length_take, Hl in Hr.
    - pose proof (be_value_range (drop 8 x) (Forall_drop _ _ _ Hx)) as Hr. by rewrite length_drop, Hl in Hr. }
  split; [done|]. rewrite <- (take_drop 8 x) at 3. rewrite be_value_app, length_drop, Hl. unfold val. cbn [fst snd].
  rewrite <- Z.lxor_lor by (apply land_glue; [done|apply Hh]). symmetry. apply (glue_lxor 64); [done|apply Hh].
Qed.

Lemma mult_tbl_block x h :
  block x → block h →
  let r := internal_aes_gcm_ghash_mult_tbl (internal_aes_gcm_ghash_gen_tbl h) x in
  block r ∧ be_value r = gf_mul (be_value x) (be_value h).
Proof.
  intros Hx Hh. destruct (val_halves h Hh) as [Hv He]. unfold internal_aes_gcm_ghash_mult_tbl.
  pose proof (mult_loop_block _ _ (gen_tbl_table h Hv) x Hx) as [Hz Hm]. rewrite He in Hm.
  destruct (mult_loop _ _ _ _) as [zh zl]. cbv zeta. destruct (block_put (zh, zl) Hz) as [Hb Hbv].
  split; [exact Hb|]. etrans; [exact Hbv|exact Hm].
Qed.

(** ** The product commutes *)

Lemma gsum_xor l a b : gsum l (a ⊕ b) = gsum l a ⊕ gsum l b.
Proof.
  revert a b. induction l as [|c l IH]; intros a b; cbn [gsum]; [done|]. rewrite mul_alpha_xor, IH, lxor_swap.
  by destruct c.
Qed.

Lemma gsum_0 l : gsum l 0 = 0.
Proof. induction l as [|c l IH]; cbn [gsum]; [done|]. rewrite mul_alpha_0, IH. by destruct c. Qed.

Lemma gsum_comm a b v : gsum a (gsum b v) = gsum b (gsum a v).
Proof.
  revert v. induction a as [|c a IH]; intros v; cbn [gsum]; [by rewrite gsum_0|].
  rewrite gsum_xor, <- IH. f_equal; [destruct c; [done|by rewrite gsum_0]|].
  f_equal. symmetry. apply (gsum_alpha b v 1).
Qed.

Lemma bitsn_S n y : bitsn (S n) y = Z.testbit y (Z.of_nat n) :: bitsn n y.
Proof.
  unfold bitsn. cbn [seq fmap list_fmap]. f_equal; [f_equal; lia|].
  rewrite <- (fmap_S_seq 0 n), <- list_fmap_compose. apply list_fmap_ext. intros j k _. unfold compose. f_equal. lia.
Qed.

Lemma gsum_unit n y : gsum (bitsn n y) (2 ^ (Z.of_nat n - 1)) = wrap (Z.of_nat n) y.
Proof.
  induction n as [|n IH]; [symmetry; apply Z.mod_1_r|]. rewrite bitsn_S. cbn [gsum].
  assert (gsum (bitsn n y) (mul_alpha (2 ^ (Z.of_nat (S n) - 1))) = wrap (Z.of_nat n) y) as ->.
  { destruct n as [|n]; [symmetry; apply Z.mod_1_r|]. rewrite <- IH. f_equal. unfold mul_alpha.
    replace (Z.of_nat (S (S n)) - 1) with (Z.of_nat n + 1) by lia. replace (Z.of_nat (S n) - 1) with (Z.of_nat n) by lia.
    rewrite <- Z.bit0_odd, Z.pow2_bits_false, Z.lxor_0_r, Z.shiftr_div_pow2, Z.pow_add_r by lia.
    change (2 ^ 1) with 2. by rewrite Z.div_mul. }
  replace (Z.of_nat (S n) - 1) with (Z.of_nat n) by lia. apply Z.bits_inj'. intros i Hi.
  rewrite Z.lxor_spec, !wrap_spec by lia.
  assert (Z.testbit (if Z.testbit y (Z.of_nat n) then 2 ^ Z.of_nat n else 0) i = (i =? Z.of_nat n) && Z.testbit y i) as ->.
  { destruct (Z.eqb_spec i (Z.of_nat n)) as [-> |].
    - destruct (Z.testbit y (Z.of_nat n)); [by rewrite Z.pow2_bits_true by lia|by rewrite Z.bits_0].
    - destruct (Z.testbit y (Z.of_nat n)); [by rewrite Z.pow2_bits_false by lia|by rewrite Z.bits_0]. }
  destruct (Z.eqb_spec i (Z.of_nat n)), (Z.ltb_spec i (Z.of_nat n)), (Z.ltb_spec i (Z.of_nat (S n))); try (exfalso; lia);
    destruct (Z.testbit y i); reflexivity.
Qed.

Lemma bits_bitsn x : bits 128 0 x = bitsn 128 x.
Proof. unfold bits, bitsn. apply list_fmap_ext. intros j k _. by f_equal. Qed.

Lemma gf_mul_comm x y : in_range 128 x → in_range 128 y → gf_mul x y = gf_mul y x.
Proof.
  intros Hx Hy. rewrite !gf_mul_sum, !bits_bitsn.
  pose proof (gsum_unit 128 x) as Ex. pose proof (gsum_unit 128 y) as Ey. rewrite wrap_small in Ex, Ey by done.
  rewrite <- Ey at 1. rewrite <- Ex at 2. apply gsum_comm.
Qed.

(** ** The routine bit by bit *)

Lemma byte_bit x n :
  block x → (n < 128)%nat → Z.testbit (nth (n / 8) x 0) (7 - Z.of_nat (n mod 8)) = Z.testbit (be_value x) (127 - Z.of_nat n).
Proof.
  intros [Hl Hx] Hn. pose proof (Nat.div_mod n 8 ltac:(lia)) as Hdm. pose proof (Nat.mod_upper_bound n 8 ltac:(lia)) as Hm.
  set (i := (n / 8)%nat) in *. set (j := (n mod 8)%nat) in *. assert (i < 16)%nat as Hi by lia.
  destruct (lookup_lt_is_Some_2 x i ltac:(lia)) as [b Hb]. rewrite (nth_lookup_Some _ _ _ _ Hb).
  rewrite <- (take_drop_middle x i b Hb) at 1. rewrite be_value_app, be_value_cons.
  assert (length (drop (S i) x) = (15 - i)%nat) as Hd by (rewrite length_drop; lia).
  pose proof (be_value_range (drop (S i) x) ltac:(by apply Forall_drop)) as Hr. cbn [length]. rewrite Hd in *.
  set (r := be_value (drop (S i) x)) in *. set (a := be_value (take i x)). set (w := 8 * Z.of_nat (15 - i)) in *.
  assert (256 ^ Z.of_nat (15 - i) = 2 ^ w) as Hw by (unfold w; by rewrite Z.pow_mul_r by lia).
  assert (a * 256 ^ Z.of_nat (S (15 - i)) + (b * 256 ^ Z.of_nat (15 - i) + r) = (a * 2 ^ 8 + b) * 2 ^ w + r) as ->.
  { rewrite Nat2Z.inj_succ, Z.pow_succ_r, Hw by lia. change (2 ^ 8) with 256. lia. }
  pose proof (proj1 (Forall_forall _ _) Hx b ltac:(by eapply list_elem_of_lookup_2)) as Hb8.
  rewrite glue_lxor, Z.lxor_spec, Z.shiftl_spec, (high_bit w r), xorb_false_r by (done || lia).
  rewrite glue_lxor, Z.lxor_spec, Z.shiftl_spec by (done || lia). rewrite (Z.testbit_neg_r a), xorb_false_l by lia.
  f_equal. lia.
Qed.

Lemma gfmul_loop_ok x n k y z :
  block x → halves y → halves z → (n + k = 128)%nat →
  halves (gfmul_loop x n y z k)
  ∧ val (gfmul_loop x n y z k) = gf_steps k (Z.of_nat n) (be_value x) (val y) (val z).
Proof.
  intros Hx. revert n y z. induction k as [|k IH]; intros n y z Hy Hz Hk; [done|]. cbn [gfmul_loop gf_steps].
  rewrite byte_bit by (done || lia). set (z' := if Z.testbit _ _ then xor2 z y else z).
  assert (halves z' ∧ val z' = if Z.testbit (be_value x) (127 - Z.of_nat n) then val z ⊕ val y else val z) as [Hz' <-].
  { unfold z'. destruct (Z.testbit _ _); [|done]. split; [by apply halves_xor2|by apply val_xor2]. }
  destruct (IH (S n) (shift_right y) z' ltac:(by apply halves_shift_right) Hz' ltac:(lia)) as [H1 H2].
  split; [done|]. rewrite H2, val_shift_right by done. f_equal. lia.
Qed.

Lemma gfmul_block x y :
  block x → block y →
  block (internal_aes_gcm_gfmul x y) ∧ be_value (internal_aes_gcm_gfmul x y) = gf_mul (be_value x) (be_value y).
Proof.
  intros Hx Hy. destruct (val_halves y Hy) as [Hv He]. unfold internal_aes_gcm_gfmul.
  destruct (gfmul_loop_ok x 0 128 _ (0, 0) Hx Hv ltac:(done) ltac:(done)) as [Hz Hm]. rewrite He in Hm.
  destruct (gfmul_loop _ _ _ _ _) as [z0 z1]. destruct (block_put (z0, z1) Hz) as [Hb Hbv].
  split; [exact Hb|]. etrans; [exact Hbv|exact Hm].
Qed.

Lemma block_range x : block x → in_range 128 (be_value x).
Proof. intros [Hl Hx]. pose proof (be_value_range x Hx) as Hr. by rewrite Hl in Hr. Qed.

(** C21: multiplying a block by the hash key with the tables of
    internal_aes_gcm_ghash_gen_tbl() (Shoup's method, 4 bits at a time) gives the same
    block as internal_aes_gcm_gfmul() bit by bit, and both are the product of
    GF(2^128) that SP 800-38D defines. *)
Theorem ghash_mult_correct x h :
  block x → block h →
  internal_aes_gcm_ghash_mult_tbl (internal_aes_gcm_ghash_gen_tbl h) x = internal_aes_gcm_gfmul h x
  ∧ block (internal_aes_gcm_gfmul h x)
  ∧ be_value (internal_aes_gcm_gfmul h x) = gf_mul (be_value x) (be_value h).
Proof.
  intros Hx Hh. pose proof (mult_tbl_block x h Hx Hh) as Ht. pose proof (gfmul_block h x Hh Hx) as Hg. cbv zeta in Ht.
  rewrite (gf_mul_comm (be_value h)) in Hg by by apply block_range. revert Ht Hg.
  generalize (internal_aes_gcm_ghash_mult_tbl (internal_aes_gcm_ghash_gen_tbl h) x) (internal_aes_gcm_gfmul h x).
  generalize (gf_mul (be_value x) (be_value h)). intros v r1 r2 [[Hl1 Hb1] He1] [[Hl2 Hb2] He2].
  split; [|by split]. apply be_value_inj; congruence.
Qed.

Lemma ghash_mult_correct_witness :
  block ex_x ∧ block ex_h
  ∧ internal_aes_gcm_ghash_mult_tbl (internal_aes_gcm_ghash_gen_tbl ex_h) ex_x = internal_aes_gcm_gfmul ex_h ex_x.
Proof.
  assert (block ex_x) as Hx by (split; [done|unfold bytes, ex_x, ex_h; rewrite !Forall_cons, Forall_nil; lia]).
  assert (block ex_h) as Hh by (split; [done|unfold bytes, ex_x, ex_h; rewrite !Forall_cons, Forall_nil; lia]).
  split; [exact Hx|]. split; [exact Hh|exact (proj1 (ghash_mult_correct ex_x ex_h Hx Hh))].
Defined.
