(* ===== verification/Gcm.v ===== *)
(** * core/crypto/aes-gcm.c and aes-gcm-sw.c: AES-GCM

    The streaming implementation of the mode, in the configuration with tables
    (CFG_AES_GCM_TABLE_BASED). The block cipher is the class [Aes]: it comes from a
    crypto library or from instructions of the CPU. Data is a list of bytes with the
    address it is at, which decides how the code goes through it; source and
    destination do not overlap. The standard and the proofs are in GcmProofs.v. *)
From S2P Require Import Prelude Ghash.

Local Open Scope Z_scope.

Definition TEE_AES_BLOCK_SIZE : nat := 16.

(** crypto_aes_expand_enc_key() and crypto_aes_enc_block(). *)
Class Aes := {
  aes_key : Type;
  aes_expand : list Z → tee_result + aes_key;
  aes_enc : aes_key → list Z → list Z;
}.

(** A block is encrypted to a block. *)
Class AesLaws `{Aes} := aes_enc_block k b : block b → block (aes_enc k b).

Inductive TEE_OperationMode := TEE_MODE_ENCRYPT | TEE_MODE_DECRYPT.
#[global] Instance TEE_OperationMode_eq_dec : EqDecision TEE_OperationMode.
Proof. solve_decision. Defined.

Record internal_aes_gcm_state := GcmState {
  ctr : list Z;
  ghash_key : internal_ghash_key;
  hash_state : list Z;
  buf_tag : list Z;
  buf_hash : list Z;
  buf_cryp : list Z;
  tag_len : nat;
  aad_bytes : Z;
  payload_bytes : Z;
  buf_pos : nat;
}.

Definition set_ctr (s : internal_aes_gcm_state) (c : list Z) : internal_aes_gcm_state :=
  GcmState c (ghash_key s) (hash_state s) (buf_tag s) (buf_hash s) (buf_cryp s) (tag_len s) (aad_bytes s) (payload_bytes s) (buf_pos s).
Definition set_hash_state (s : internal_aes_gcm_state) (h : list Z) : internal_aes_gcm_state :=
  GcmState (ctr s) (ghash_key s) h (buf_tag s) (buf_hash s) (buf_cryp s) (tag_len s) (aad_bytes s) (payload_bytes s) (buf_pos s).
Definition set_buf_tag (s : internal_aes_gcm_state) (b : list Z) : internal_aes_gcm_state :=
  GcmState (ctr s) (ghash_key s) (hash_state s) b (buf_hash s) (buf_cryp s) (tag_len s) (aad_bytes s) (payload_bytes s) (buf_pos s).
Definition set_buf_hash (s : internal_aes_gcm_state) (b : list Z) (pos : nat) : internal_aes_gcm_state :=
  GcmState (ctr s) (ghash_key s) (hash_state s) (buf_tag s) b (buf_cryp s) (tag_len s) (aad_bytes s) (payload_bytes s) pos.
Definition set_buf_cryp (s : internal_aes_gcm_state) (b : list Z) : internal_aes_gcm_state :=
  GcmState (ctr s) (ghash_key s) (hash_state s) (buf_tag s) (buf_hash s) b (tag_len s) (aad_bytes s) (payload_bytes s) (buf_pos s).
Definition set_counts (s : internal_aes_gcm_state) (aad payload : Z) : internal_aes_gcm_state :=
  GcmState (ctr s) (ghash_key s) (hash_state s) (buf_tag s) (buf_hash s) (buf_cryp s) (tag_len s) aad payload (buf_pos s).

(** ** Buffers and counters *)

Definition zeros (n : nat) : list Z := replicate n 0.

(** [dst[i] ^= src[i]] for the first [len] bytes. *)
Definition xor_buf (dst src : list Z) (len : nat) : list Z :=
  zip_with Z.lxor (take len dst) (take len src) ++ drop len dst.
Definition internal_aes_gcm_xor_block (dst src : list Z) : list Z :=
  xor_buf dst src TEE_AES_BLOCK_SIZE.

Definition internal_aes_gcm_ptr_is_block_aligned (p : Z) : bool := Z.land p 15 =? 0.

Definition internal_aes_gcm_inc_ctr (s : internal_aes_gcm_state) : internal_aes_gcm_state :=
  let c1 := wrap 64 (be_value (drop 8 (ctr s)) + 1) in
  let c0 := if c1 =? 0 then wrap 64 (be_value (take 8 (ctr s)) + 1) else be_value (take 8 (ctr s)) in
  set_ctr s (be_bytes 8 c0 ++ be_bytes 8 c1).

Definition internal_aes_gcm_dec_ctr (s : internal_aes_gcm_state) : internal_aes_gcm_state :=
  let c1 := wrap 64 (be_value (drop 8 (ctr s)) - 1) in
  let c0 := if c1 =? 2 ^ 64 - 1 then wrap 64 (be_value (take 8 (ctr s)) - 1) else be_value (take 8 (ctr s)) in
  set_ctr s (be_bytes 8 c0 ++ be_bytes 8 c1).

(** ** GHASH *)

Definition ghash_update_block (s : internal_aes_gcm_state) (data : list Z) : internal_aes_gcm_state :=
  set_hash_state s (internal_aes_gcm_ghash_mult_tbl (ghash_key s) (internal_aes_gcm_xor_block (hash_state s) data)).

Fixpoint ghash_update_blocks (s : internal_aes_gcm_state) (data : list Z) (num_blocks : nat) : internal_aes_gcm_state :=
  match num_blocks with
  | O => s
  | S n => ghash_update_blocks (ghash_update_block s (take 16 data)) (drop 16 data) n
  end.

Definition internal_aes_gcm_ghash_update (s : internal_aes_gcm_state) (head : option (list Z)) (data : list Z)
    (num_blocks : nat) : internal_aes_gcm_state :=
  let s := match head with Some h => ghash_update_block s (take 16 h) | None => s end in
  ghash_update_blocks s data num_blocks.

(** With a copy of each block when [data] is not aligned. *)
Definition ghash_update_pad_zero (s : internal_aes_gcm_state) (a : Z) (data : list Z) : internal_aes_gcm_state :=
  let n := (length data / TEE_AES_BLOCK_SIZE)%nat in
  let s := if internal_aes_gcm_ptr_is_block_aligned a then internal_aes_gcm_ghash_update s None data n
           else foldl (λ s m, internal_aes_gcm_ghash_update s None (take 16 (drop (m * 16) data)) 1) s (seq 0 n) in
  let rest := (length data - n * TEE_AES_BLOCK_SIZE)%nat in
  if (rest =? 0)%nat then s
  else internal_aes_gcm_ghash_update s (Some (take rest (drop (n * 16) data) ++ zeros (16 - rest))) [] 0.

(** [uint32_t] arguments. *)
Definition ghash_update_lengths (s : internal_aes_gcm_state) (l1 l2 : Z) : internal_aes_gcm_state :=
  internal_aes_gcm_ghash_update s
    (Some (be_bytes 8 (wrap 32 (wrap 32 l1 * 8)) ++ be_bytes 8 (wrap 32 (wrap 32 l2 * 8)))) [] 0.

Section with_aes.
Context `{Aes}.

(** ** Starting *)

Definition internal_aes_gcm_set_key (s : internal_aes_gcm_state) (ek : aes_key) : internal_aes_gcm_state :=
  GcmState (ctr s) (internal_aes_gcm_ghash_gen_tbl (aes_enc ek (zeros 16))) (hash_state s) (buf_tag s) (buf_hash s)
    (buf_cryp s) (tag_len s) (aad_bytes s) (payload_bytes s) (buf_pos s).

(** [na]: the address of the nonce. *)
Definition __gcm_init (ek : aes_key) (mode : TEE_OperationMode) (na : Z) (nonce : list Z) (tag_len : nat)
    : tee_result + internal_aes_gcm_state :=
  if (16 <? tag_len)%nat then inl TEE_ERROR_BAD_PARAMETERS
  else
    let s := GcmState (zeros 16) (GhashKey (zeros 16) (zeros 16)) (zeros 16) (zeros 16) (zeros 16) (zeros 16) tag_len 0 0 0 in
    let s := internal_aes_gcm_set_key s ek in
    let s := if (length nonce =? 12)%nat then internal_aes_gcm_inc_ctr (set_ctr s (nonce ++ zeros 4))
             else
               let s := ghash_update_pad_zero s na nonce in
               let s := ghash_update_lengths s 0 (Z.of_nat (length nonce)) in
               set_hash_state (set_ctr s (hash_state s)) (zeros 16) in
    let s := set_buf_tag s (aes_enc ek (ctr s)) in
    let s := internal_aes_gcm_inc_ctr s in
    inr (if decide (mode = TEE_MODE_ENCRYPT) then internal_aes_gcm_inc_ctr (set_buf_cryp s (aes_enc ek (ctr s))) else s).

(** The context: the state and the key. *)
Definition internal_aes_gcm_init (mode : TEE_OperationMode) (key : list Z) (na : Z) (nonce : list Z) (tag_len : nat)
    : tee_result + (internal_aes_gcm_state * aes_key) :=
  match aes_expand key with
  | inl e => inl e
  | inr ek =>
    match __gcm_init ek mode na nonce tag_len with inl e => inl e | inr s => inr (s, ek) end
  end.

(** ** Additional data

    The loop, with [fuel] iterations at most: [a] and [d] are the address and the
    bytes that are left; [head] keeps its value from one iteration to the next. *)
Fixpoint aad_loop (fuel : nat) (s : internal_aes_gcm_state) (head : option (list Z)) (a : Z) (d : list Z)
    : outcome tee_result internal_aes_gcm_state :=
  match d with
  | [] => Ok s
  | _ =>
    match fuel with
    | O => Panicked
    | S fuel =>
      let rest s head a d :=
        let n := if internal_aes_gcm_ptr_is_block_aligned a then (length d / TEE_AES_BLOCK_SIZE)%nat else 0%nat in
        aad_loop fuel (internal_aes_gcm_ghash_update s head d n) head (a + Z.of_nat (n * 16)) (drop (n * 16) d) in
      if negb (buf_pos s =? 0)%nat || negb (internal_aes_gcm_ptr_is_block_aligned a)
         || (length d <? TEE_AES_BLOCK_SIZE)%nat then
        let n := ((TEE_AES_BLOCK_SIZE - buf_pos s) `min` length d)%nat in
        let s := set_buf_hash s (splice (buf_hash s) (buf_pos s) (take n d)) (buf_pos s + n) in
        if negb (buf_pos s =? TEE_AES_BLOCK_SIZE)%nat then Ok s
        else rest (set_buf_hash s (buf_hash s) 0) (Some (buf_hash s)) (a + Z.of_nat n) (drop n d)
      else rest s head a d
    end
  end.

Definition __gcm_update_aad (s : internal_aes_gcm_state) (a : Z) (data : list Z) : outcome tee_result internal_aes_gcm_state :=
  if negb (payload_bytes s =? 0) then Err TEE_ERROR_BAD_PARAMETERS
  else
    let s := set_counts s (wrap 32 (aad_bytes s + Z.of_nat (length data))) (payload_bytes s) in
    aad_loop (S (length data)) s None a data.

(** ** Payload *)

Definition encrypt_block (s : internal_aes_gcm_state) (ek : aes_key) (src : list Z) : internal_aes_gcm_state * list Z :=
  let s := set_buf_cryp s (internal_aes_gcm_xor_block (buf_cryp s) src) in
  let s := internal_aes_gcm_ghash_update s (Some (buf_cryp s)) [] 0 in
  let dst := buf_cryp s in
  let s := set_buf_cryp s (aes_enc ek (ctr s)) in
  (internal_aes_gcm_inc_ctr s, dst).

Definition decrypt_block (s : internal_aes_gcm_state) (ek : aes_key) (src : list Z) : internal_aes_gcm_state * list Z :=
  let s := set_buf_cryp s (aes_enc ek (ctr s)) in
  let s := internal_aes_gcm_inc_ctr s in
  let s := set_buf_cryp s (internal_aes_gcm_xor_block (buf_cryp s) src) in
  let s := internal_aes_gcm_ghash_update s (Some src) [] 0 in
  (s, buf_cryp s).

(** encrypt_pl() and decrypt_pl(), which copy a block that is not aligned. *)
Fixpoint payload_blocks (mode : TEE_OperationMode) (s : internal_aes_gcm_state) (ek : aes_key) (src : list Z) (n : nat)
    : internal_aes_gcm_state * list Z :=
  match n with
  | O => (s, [])
  | S n =>
    let '(s, o) := (if decide (mode = TEE_MODE_ENCRYPT) then encrypt_block else decrypt_block) s ek (take 16 src) in
    let '(s, o') := payload_blocks mode s ek (drop 16 src) n in
    (s, o ++ o')
  end.

(** Its assertion, on [buf_pos] and [n], holds where it is called. *)
Definition internal_aes_gcm_update_payload_blocks (s : internal_aes_gcm_state) (ek : aes_key) (mode : TEE_OperationMode)
    (src : list Z) (n : nat) : outcome tee_result (internal_aes_gcm_state * list Z) :=
  if (buf_pos s =? 0)%nat && negb (n =? 0)%nat then Ok (payload_blocks mode s ek src n) else Panicked.

Fixpoint payload_loop (fuel : nat) (s : internal_aes_gcm_state) (ek : aes_key) (mode : TEE_OperationMode) (src : list Z)
    : outcome tee_result (internal_aes_gcm_state * list Z) :=
  match src with
  | [] => Ok (s, [])
  | _ =>
    match fuel with
    | O => Panicked
    | S fuel =>
      if negb (buf_pos s =? 0)%nat || (length src <? TEE_AES_BLOCK_SIZE)%nat then
        let n := ((TEE_AES_BLOCK_SIZE - buf_pos s) `min` length src)%nat in
        let s := if (buf_pos s =? 0)%nat && bool_decide (mode = TEE_MODE_DECRYPT) then set_buf_cryp s (aes_enc ek (ctr s)) else s in
        let s := set_buf_cryp s (take (buf_pos s) (buf_cryp s) ++ xor_buf (drop (buf_pos s) (buf_cryp s)) src n) in
        let dst := take n (drop (buf_pos s) (buf_cryp s)) in
        let s := set_buf_hash s (splice (buf_hash s) (buf_pos s)
                   (if decide (mode = TEE_MODE_ENCRYPT) then dst else take n src)) (buf_pos s + n) in
        if negb (buf_pos s =? TEE_AES_BLOCK_SIZE)%nat then Ok (s, dst)
        else
          let s := internal_aes_gcm_ghash_update s (Some (buf_hash s)) [] 0 in
          let s := set_buf_hash s (buf_hash s) 0 in
          let s := if decide (mode = TEE_MODE_ENCRYPT) then set_buf_cryp s (aes_enc ek (ctr s)) else s in
          let s := internal_aes_gcm_inc_ctr s in
          '(s, o) ← payload_loop fuel s ek mode (drop n src);
          mret (s, dst ++ o)
      else
        let n := (length src / TEE_AES_BLOCK_SIZE)%nat in
        '(s, dst) ← internal_aes_gcm_update_payload_blocks s ek mode (take (n * 16) src) n;
        '(s, o) ← payload_loop fuel s ek mode (drop (n * 16) src);
        mret (s, dst ++ o)
    end
  end.

Definition __gcm_update_payload (s : internal_aes_gcm_state) (ek : aes_key) (mode : TEE_OperationMode) (src : list Z)
    : outcome tee_result (internal_aes_gcm_state * list Z) :=
  let s := if (payload_bytes s =? 0) && negb (buf_pos s =? 0)%nat then
             let s := set_buf_hash s (take (buf_pos s) (buf_hash s) ++ zeros (16 - buf_pos s)) (buf_pos s) in
             let s := internal_aes_gcm_ghash_update s (Some (buf_hash s)) [] 0 in
             set_buf_hash s (buf_hash s) 0
           else s in
  let s := set_counts s (aad_bytes s) (wrap 32 (payload_bytes s + Z.of_nat (length src))) in
  payload_loop (S (length src)) s ek mode src.

(** ** The end *)

Definition operation_final (s : internal_aes_gcm_state) (ek : aes_key) (mode : TEE_OperationMode) (src : list Z)
    : outcome tee_result (internal_aes_gcm_state * list Z) :=
  '(s, dst) ← __gcm_update_payload s ek mode src;
  let s := if negb (buf_pos s =? 0)%nat then
             let s := set_buf_hash s (take (buf_pos s) (buf_hash s) ++ zeros (16 - buf_pos s)) (buf_pos s) in
             internal_aes_gcm_ghash_update s (Some (buf_hash s)) [] 0
           else s in
  let s := ghash_update_lengths s (aad_bytes s) (payload_bytes s) in
  mret (set_buf_tag s (xor_buf (buf_tag s) (hash_state s) (tag_len s)), dst).

(** The output and the tag. [room]: [*tag_len]. *)
Definition __gcm_enc_final (s : internal_aes_gcm_state) (ek : aes_key) (src : list Z) (room : nat)
    : outcome tee_result (list Z * list Z) :=
  if (room <? tag_len s)%nat then Err TEE_ERROR_SHORT_BUFFER
  else
    '(s, dst) ← operation_final s ek TEE_MODE_ENCRYPT src;
    mret (dst, take (tag_len s) (buf_tag s)).

(** The output, and whether the tag is right: TEE_SUCCESS or TEE_ERROR_MAC_INVALID. *)
Definition __gcm_dec_final (s : internal_aes_gcm_state) (ek : aes_key) (src tag : list Z)
    : outcome tee_result (list Z * tee_result) :=
  if negb (length tag =? tag_len s)%nat then Err TEE_ERROR_MAC_INVALID
  else
    '(s, dst) ← operation_final s ek TEE_MODE_DECRYPT src;
    mret (dst, if decide (take (length tag) (buf_tag s) = tag) then TEE_SUCCESS else TEE_ERROR_MAC_INVALID).

(** ** In one call *)

Definition internal_aes_gcm_enc (ek : aes_key) (na : Z) (nonce : list Z) (aad : option (Z * list Z)) (src : list Z) (tag_room : nat)
    : outcome tee_result (list Z * list Z) :=
  match __gcm_init ek TEE_MODE_ENCRYPT na nonce tag_room with
  | inl e => Err e
  | inr s =>
    s ← match aad with Some (a, d) => __gcm_update_aad s a d | None => Ok s end;
    __gcm_enc_final s ek src tag_room
  end.

Definition internal_aes_gcm_dec (ek : aes_key) (na : Z) (nonce : list Z) (aad : option (Z * list Z)) (src tag : list Z)
    : outcome tee_result (list Z * tee_result) :=
  match __gcm_init ek TEE_MODE_DECRYPT na nonce (length tag) with
  | inl e => Err e
  | inr s =>
    s ← match aad with Some (a, d) => __gcm_update_aad s a d | None => Ok s end;
    __gcm_dec_final s ek src tag
  end.
End with_aes.
