(* ===== verification/GcmProofs.v ===== *)
(** * core/crypto/aes-gcm.c: the implementation is the mode of SP 800-38D

    The standard for a block cipher [E] under a key, the invariants of the streams,
    and the properties. *)
From S2P Require Import Prelude Ghash GhashProofs Gcm.

Local Open Scope Z_scope.

(** ** NIST SP 800-38D

    [inc] is the increment of a counter block. *)
Section standard.
Context (E : list Z → list Z) (inc : list Z → list Z).

Definition gf_mul_block (h x : list Z) : list Z := be_bytes 16 (gf_mul (be_value x) (be_value h)).

(** GHASH with multiplication [f], from the state [y], over the first [n] blocks. *)
Fixpoint ghash_n (f : list Z → list Z) (n : nat) (y l : list Z) : list Z :=
  match n with
  | O => y
  | S n => ghash_n f n (f (internal_aes_gcm_xor_block y (take 16 l))) (drop 16 l)
  end.

Definition GHASH (f : list Z → list Z) (l : list Z) : list Z := ghash_n f (length l / 16) (zeros 16) l.

Definition pad16 (l : list Z) : list Z := l ++ zeros ((16 - length l mod 16) mod 16).

(** The counter block [i] after [j0], and the key stream from byte 0 of block 1 on. *)
Definition counter_block (j0 : list Z) (i : nat) : list Z := Nat.iter i inc j0.
Definition stream (j0 : list Z) (i : nat) : Z := nth (i mod 16) (E (counter_block j0 (S (i / 16)))) 0.
Definition GCTR (j0 : list Z) (i : nat) (x : list Z) : list Z := imap (λ k b, Z.lxor (stream j0 (i + k)) b) x.

(** The two 64-bit lengths in bits. *)
Definition lengths (a c : list Z) : list Z :=
  be_bytes 8 (8 * Z.of_nat (length a)) ++ be_bytes 8 (8 * Z.of_nat (length c)).

Definition pre_counter (f : list Z → list Z) (iv : list Z) : list Z :=
  if (length iv =? 12)%nat then iv ++ [0; 0; 0; 1] else GHASH f (pad16 iv ++ lengths [] iv).

Definition gcm_tag (f : list Z → list Z) (iv a c : list Z) (t : nat) : list Z :=
  take t (internal_aes_gcm_xor_block (E (pre_counter f iv)) (GHASH f (pad16 a ++ pad16 c ++ lengths a c))).
End standard.

(** The increment of the last 32 bits. *)
Definition inc32 (b : list Z) : list Z := take 12 b ++ be_bytes 4 (wrap 32 (be_value (drop 12 b) + 1)).

(** GCM-AE and GCM-AD. *)
Definition gcm_encrypt (E : list Z → list Z) (iv a p : list Z) (t : nat) : list Z * list Z :=
  let f := gf_mul_block (E (zeros 16)) in
  let c := GCTR E inc32 (pre_counter f iv) 0 p in
  (c, gcm_tag E f iv a c t).

Definition gcm_decrypt (E : list Z → list Z) (iv a c tag : list Z) : option (list Z) :=
  let f := gf_mul_block (E (zeros 16)) in
  if decide (gcm_tag E f iv a c (length tag) = tag) then Some (GCTR E inc32 (pre_counter f iv) 0 c) else None.

(** ** GHASH, a part at a time *)

Lemma ghash_n_add f n m y l : ghash_n f (n + m) y l = ghash_n f m (ghash_n f n y l) (drop (16 * n) l).
Proof.
  revert y l. induction n as [|n IH]; intros y l; [done|]. cbn [Nat.add ghash_n]. rewrite IH, drop_drop. do 2 f_equal. lia.
Qed.

Lemma ghash_n_take f n y l l' : (16 * n <= length l)%nat → ghash_n f n y (l ++ l') = ghash_n f n y l.
Proof.
  revert y l. induction n as [|n IH]; intros y l Hl; [done|]. cbn [ghash_n].
  rewrite take_app_le, drop_app_le by lia. apply IH. rewrite length_drop. lia.
Qed.

Lemma ghash_n_firstn f n y l : (16 * n <= length l)%nat → ghash_n f n y (take (16 * n) l) = ghash_n f n y l.
Proof. intros Hl. rewrite <- (take_drop (16 * n) l) at 2. rewrite ghash_n_take; [done|]. rewrite length_take. lia. Qed.

Lemma ghash_n_app f n m y l l' :
  length l = (16 * n)%nat → ghash_n f (n + m) y (l ++ l') = ghash_n f m (ghash_n f n y l) l'.
Proof. intros Hl. rewrite ghash_n_add, ghash_n_take, drop_app_length' by lia. done. Qed.

Lemma update_blocks_eq s d n :
  ghash_update_blocks s d n = set_hash_state s (ghash_n (internal_aes_gcm_ghash_mult_tbl (ghash_key s)) n (hash_state s) d).
Proof.
  revert s d. induction n as [|n IH]; intros s d; [by destruct s|]. cbn [ghash_update_blocks ghash_n]. by rewrite IH.
Qed.

(** The bytes [A] have gone into the hash from [y0] on, or wait in [buf_hash]. *)
Definition hashed (f : list Z → list Z) (y0 : list Z) (s : internal_aes_gcm_state) (A : list Z) : Prop :=
  ∃ q, length A = (16 * q + buf_pos s)%nat ∧ (buf_pos s < 16)%nat ∧ hash_state s = ghash_n f q y0 A
    ∧ length (buf_hash s) = 16%nat ∧ take (buf_pos s) (buf_hash s) = drop (16 * q) A.

(** What hashing leaves alone. *)
Definition fixed (s : internal_aes_gcm_state) :=
  (ctr s, ghash_key s, buf_tag s, buf_cryp s, tag_len s, aad_bytes s, payload_bytes s).

Abbreviation mul s := (internal_aes_gcm_ghash_mult_tbl (ghash_key s)).

(** More bytes that do not fill the block. *)
Lemma hashed_more f y0 s A x :
  hashed f y0 s A → (buf_pos s + length x < 16)%nat →
  hashed f y0 (set_buf_hash s (splice (buf_hash s) (buf_pos s) x) (buf_pos s + length x)) (A ++ x).
Proof.
  intros (q & Hl & Hp & Hh & Hb & Ht) Hx. exists q. cbn [set_buf_hash buf_pos hash_state buf_hash].
  rewrite length_app, ghash_n_take, length_splice by lia. split; [lia|]. split; [lia|]. split; [done|]. split; [lia|].
  unfold splice. rewrite app_assoc, take_app_le, take_ge by (rewrite ?length_app, ?length_take; lia).
  rewrite drop_app_le by lia. by rewrite Ht.
Qed.

(** And bytes that do. *)
Lemma hashed_fill f y0 s A x d n :
  hashed f y0 s A → f = mul s → (buf_pos s + length x = 16)%nat → (16 * n <= length d)%nat →
  let s' := set_buf_hash s (splice (buf_hash s) (buf_pos s) x) (buf_pos s + length x) in
  hashed f y0 (internal_aes_gcm_ghash_update (set_buf_hash s' (buf_hash s') 0) (Some (buf_hash s')) d n) (A ++ x ++ take (16 * n) d)
  ∧ fixed (internal_aes_gcm_ghash_update (set_buf_hash s' (buf_hash s') 0) (Some (buf_hash s')) d n) = fixed s.
Proof.
  intros (q & Hl & Hp & Hh & Hb & Ht) Hf Hx Hn s'. cbv zeta. unfold internal_aes_gcm_ghash_update. rewrite update_blocks_eq.
  split; [|done]. exists (S q + n)%nat. subst s'. cbn [set_buf_hash set_hash_state ghash_update_block buf_pos hash_state buf_hash ghash_key].
  assert (length (splice (buf_hash s) (buf_pos s) x) = 16%nat) as Hsp by (rewrite length_splice; lia).
  rewrite !length_app, length_take. split; [lia|]. split; [lia|].
  split; [|split; [done|by rewrite take_0, drop_ge by (rewrite !length_app, length_take; lia)]].
  rewrite app_assoc, ghash_n_app by (rewrite length_app; lia). rewrite ghash_n_firstn by lia. rewrite <- Hf. f_equal.
  rewrite <- (Nat.add_1_r q), ghash_n_add, ghash_n_take, drop_app_le by lia. cbn [ghash_n]. rewrite <- Hh, <- Ht.
  unfold splice. rewrite (drop_ge (buf_hash s)), app_nil_r by lia. done.
Qed.

(** Whole blocks when nothing waits. *)
Lemma hashed_blocks f y0 s A d n :
  hashed f y0 s A → f = mul s → buf_pos s = 0%nat → (16 * n <= length d)%nat →
  hashed f y0 (internal_aes_gcm_ghash_update s None d n) (A ++ take (16 * n) d)
  ∧ fixed (internal_aes_gcm_ghash_update s None d n) = fixed s
  ∧ buf_pos (internal_aes_gcm_ghash_update s None d n) = 0%nat.
Proof.
  intros (q & Hl & Hp & Hh & Hb & Ht) Hf Hx Hn. unfold internal_aes_gcm_ghash_update. rewrite update_blocks_eq.
  split; [|done]. exists (q + n)%nat. cbn [set_hash_state buf_pos hash_state buf_hash].
  rewrite length_app, length_take. split; [lia|]. split; [lia|].
  rewrite ghash_n_app, ghash_n_firstn, <- Hf, <- Hh by lia. split; [done|]. split; [done|].
  rewrite Hx, take_0, drop_ge; [done|]. rewrite length_app, length_take. lia.
Qed.

(** The last bytes, filled up with zeros. *)
Lemma hashed_pad f y0 s A :
  hashed f y0 s A → f = mul s → buf_pos s ≠ 0%nat →
  hash_state (internal_aes_gcm_ghash_update s (Some (take (buf_pos s) (buf_hash s) ++ zeros (16 - buf_pos s))) [] 0)
  = ghash_n f (length (pad16 A) / 16) y0 (pad16 A).
Proof.
  intros (q & Hl & Hp & Hh & Hb & Ht) Hf Hx. cbn [internal_aes_gcm_ghash_update ghash_update_blocks ghash_update_block set_hash_state hash_state].
  rewrite take_ge by (rewrite length_app, length_take; unfold zeros; rewrite length_replicate; lia).
  unfold pad16. rewrite Hl. replace ((16 * q + buf_pos s) mod 16)%nat with (buf_pos s)
    by (rewrite Nat.add_comm, Nat.mul_comm, Nat.Div0.mod_add, Nat.mod_small; lia).
  rewrite (Nat.mod_small (16 - buf_pos s)) by lia. rewrite length_app, Hl. unfold zeros at 2. rewrite length_replicate.
  replace ((16 * q + buf_pos s + (16 - buf_pos s)) / 16)%nat with (q + 1)%nat by (rewrite <- (Nat.div_mul (q + 1) 16); [f_equal; lia|done]).
  rewrite ghash_n_add, ghash_n_take, drop_app_le by lia. cbn [ghash_n]. rewrite <- Hf, <- Hh, <- Ht.
  rewrite (take_ge (take _ _ ++ _)); [done|]. rewrite length_app, length_take. unfold zeros. rewrite length_replicate. lia.
Qed.

Lemma hashed_whole f y0 s A :
  hashed f y0 s A → buf_pos s = 0%nat → hash_state s = ghash_n f (length (pad16 A) / 16) y0 (pad16 A) ∧ pad16 A = A.
Proof.
  intros (q & Hl & _ & Hh & _) Hx. unfold pad16. rewrite Hl, Hx, Nat.add_0_r, Nat.mul_comm, Nat.Div0.mod_mul.
  change ((16 - 0) mod 16)%nat with 0%nat. unfold zeros. cbn [replicate]. rewrite app_nil_r, Hl, Hx, Nat.add_0_r.
  rewrite Nat.mul_comm, Nat.div_mul by done. done.
Qed.

(** ** Additional data *)

Lemma aad_loop_S fuel s head a d : d ≠ [] →
  aad_loop (S fuel) s head a d =
  let rest s head a d :=
    let n := if internal_aes_gcm_ptr_is_block_aligned a then (length d / 16)%nat else 0%nat in
    aad_loop fuel (internal_aes_gcm_ghash_update s head d n) head (a + Z.of_nat (n * 16)) (drop (n * 16) d) in
  if negb (buf_pos s =? 0)%nat || negb (internal_aes_gcm_ptr_is_block_aligned a) || (length d <? 16)%nat then
    let n := ((16 - buf_pos s) `min` length d)%nat in
    let s := set_buf_hash s (splice (buf_hash s) (buf_pos s) (take n d)) (buf_pos s + n) in
    if negb (buf_pos s =? 16)%nat then Ok s
    else rest (set_buf_hash s (buf_hash s) 0) (Some (buf_hash s)) (a + Z.of_nat n) (drop n d)
  else rest s head a d.
Proof. by destruct d. Qed.

Lemma aad_loop_ok f y0 fuel s head a d A :
  (length d < fuel)%nat → hashed f y0 s A → f = mul s →
  (buf_pos s = 0%nat → internal_aes_gcm_ptr_is_block_aligned a = true → (16 <= length d)%nat → head = None) →
  ∃ s', aad_loop fuel s head a d = Ok s' ∧ hashed f y0 s' (A ++ d) ∧ fixed s' = fixed s.
Proof.
  revert s head a d A. induction fuel as [|fuel IH]; intros s head a d A Hfuel Hs Hf Hhead; [lia|].
  destruct (decide (d = [])) as [->|Hd0]; [exists s; by rewrite app_nil_r|]. rewrite aad_loop_S by done. cbv zeta.
  assert (0 < length d)%nat as Hd by (destruct d; [done|cbn; lia]).
  set (n := λ (a : Z) (d : list Z), if internal_aes_gcm_ptr_is_block_aligned a then (length d / 16)%nat else 0%nat).
  assert (∀ a d, 16 * n a d <= length d)%nat as Hn.
  { intros a' d'. unfold n. destruct (internal_aes_gcm_ptr_is_block_aligned a'); [|lia]. apply Nat.Div0.mul_div_le. }
  (* after a step that leaves nothing in the buffer *)
  assert (∀ s' h a' d' A', (length d' <= length d)%nat → (length d' < length d ∨ 0 < n a' d')%nat →
    hashed f y0 s' (A' ++ take (16 * n a' d') d') → fixed s' = fixed s →
    ∃ s'', aad_loop fuel s' h (a' + Z.of_nat (n a' d' * 16)) (drop (n a' d' * 16) d') = Ok s''
      ∧ hashed f y0 s'' (A' ++ d') ∧ fixed s'' = fixed s) as Hrest.
  { intros s' h a' d' A' Hle Hlt Hs' Hfix. rewrite (Nat.mul_comm (n a' d') 16).
    destruct (IH s' h (a' + Z.of_nat (16 * n a' d')) (drop (16 * n a' d') d') (A' ++ take (16 * n a' d') d')) as (s'' & H1 & H2 & H3).
    - rewrite length_drop. lia.
    - done.
    - assert (ghash_key s' = ghash_key s) as -> by (unfold fixed in Hfix; congruence). done.
    - intros _ Hal Hl16. exfalso. rewrite length_drop in Hl16. unfold n in Hl16, Hal.
      destruct (internal_aes_gcm_ptr_is_block_aligned a') eqn:Ha'.
      + pose proof (Nat.div_mod (length d') 16 ltac:(lia)). pose proof (Nat.mod_upper_bound (length d') 16 ltac:(lia)). lia.
      + rewrite Nat.mul_0_r, Z.add_0_r in Hal. congruence.
    - exists s''. rewrite <- app_assoc, take_drop in H2. split; [done|]. split; [done|]. congruence. }
  destruct (negb (buf_pos s =? 0)%nat || negb (internal_aes_gcm_ptr_is_block_aligned a) || (length d <? 16)%nat) eqn:Hc.
  - pose proof Hs as (q & _ & Hp & _). set (m := ((16 - buf_pos s) `min` length d)%nat).
    assert (length (take m d) = m) as Hm by (rewrite length_take; lia).
    cbn [set_buf_hash buf_pos buf_hash]. replace (buf_pos s + m)%nat with (buf_pos s + length (take m d))%nat by lia. destruct (Nat.eqb_spec (buf_pos s + length (take m d)) 16) as [He|He]; cbn [negb].
    + destruct (hashed_fill f y0 s A (take m d) (drop m d) (n (a + Z.of_nat m) (drop m d)) Hs Hf He (Hn _ _)) as [H1 H2].
      replace (A ++ d) with ((A ++ take m d) ++ drop m d) by (by rewrite <- app_assoc, take_drop).
      refine (Hrest _ _ _ (drop m d) (A ++ take m d) _ _ _ H2); [rewrite length_drop; lia|left; rewrite length_drop; lia|].
      rewrite <- app_assoc. exact H1.
    + eexists. split; [done|]. assert (m = length d) as Hmd by lia. rewrite (take_ge d) by lia.
      split; [|done]. apply hashed_more; [done|]. rewrite take_ge in He by lia. lia.
  - apply orb_false_iff in Hc as [[Hb0 Hal]%orb_false_iff Hl16]. bools. apply Nat.eqb_eq in Hb0. apply Nat.ltb_ge in Hl16.
    rewrite (Hhead Hb0 Hal Hl16). destruct (hashed_blocks f y0 s A d (n a d) Hs Hf Hb0 (Hn _ _)) as (H1 & H2 & _).
    refine (Hrest _ _ _ d A _ _ H1 H2); [done|]. right. unfold n. rewrite Hal. apply Nat.div_str_pos. lia.
Qed.

(** ** The key stream *)

(** internal_aes_gcm_inc_ctr() on the block. *)
Definition inc_block (c : list Z) : list Z :=
  let c1 := wrap 64 (be_value (drop 8 c) + 1) in
  let c0 := if c1 =? 0 then wrap 64 (be_value (take 8 c) + 1) else be_value (take 8 c) in
  be_bytes 8 c0 ++ be_bytes 8 c1.

Lemma inc_ctr_eq s : internal_aes_gcm_inc_ctr s = set_ctr s (inc_block (ctr s)).
Proof. done. Qed.

Lemma hashed_ext f y0 s s' A :
  hash_state s' = hash_state s → buf_hash s' = buf_hash s → buf_pos s' = buf_pos s → hashed f y0 s A → hashed f y0 s' A.
Proof. unfold hashed. by intros -> -> ->. Qed.

(** The fields of a state. *)
Ltac sel := cbn [internal_aes_gcm_ghash_update ghash_update_blocks ghash_update_block set_hash_state set_ctr set_buf_cryp
  set_buf_hash set_buf_tag set_counts ctr ghash_key hash_state buf_tag buf_hash buf_cryp tag_len aad_bytes payload_bytes buf_pos].

Section stream.
Context `{AesLaws} (ek : aes_key) (j0 : list Z).
Abbreviation E := (aes_enc ek).
Abbreviation cn := (counter_block inc_block j0).
Abbreviation crypt := (GCTR E inc_block j0).

Lemma inc_block_block c : block (inc_block c).
Proof.
  split; [by unfold inc_block; cbv zeta; rewrite length_app, !length_be_bytes|].
  apply Forall_app. split; apply bytes_be.
Qed.

Lemma counter_block_S i : cn (S i) = inc_block (cn i).
Proof. apply Nat.iter_succ. Qed.

Lemma length_E i : length (E (cn (S i))) = 16%nat.
Proof. rewrite counter_block_S. apply aes_enc_block, inc_block_block. Qed.

Lemma GCTR_app k x y : crypt k (x ++ y) = crypt k x ++ crypt (k + length x) y.
Proof.
  unfold GCTR. rewrite imap_app. f_equal. apply imap_ext. intros i b _. cbn. f_equal. f_equal. lia.
Qed.

Lemma length_GCTR k x : length (crypt k x) = length x.
Proof. apply length_imap. Qed.

Lemma lookup_GCTR k x i : crypt k x !! i = (λ b, Z.lxor (stream E inc_block j0 (k + i)) b) <$> x !! i.
Proof. unfold GCTR. by rewrite list_lookup_imap. Qed.

(** A part of a block. *)
Lemma GCTR_part q p b x n :
  (p + n <= 16)%nat → (n <= length x)%nat → drop p b = drop p (E (cn (S q))) →
  take n (xor_buf (drop p b) x n) = crypt (16 * q + p) (take n x).
Proof.
  intros Hpn Hn Hb. rewrite Hb. unfold xor_buf.
  assert (length (take n (drop p (E (cn (S q))))) = n) as Hl by (rewrite length_take, length_drop, length_E; lia).
  rewrite take_app_length' by (rewrite length_zip_with, Hl, length_take; lia).
  apply list_eq. intros i. rewrite lookup_zip_with, lookup_GCTR.
  destruct (decide (i < n)%nat) as [Hi|Hi].
  - rewrite !lookup_take_lt, lookup_drop by lia. destruct (lookup_lt_is_Some_2 x i ltac:(lia)) as [v Hv].
    destruct (lookup_lt_is_Some_2 (E (cn (S q))) (p + i)%nat ltac:(rewrite length_E; lia)) as [w Hw].
    rewrite Hv, Hw. cbn -[Nat.mul]. f_equal. f_equal. unfold stream.
    replace (16 * q + p + i)%nat with (p + i + q * 16)%nat by lia.
    rewrite Nat.Div0.mod_add, Nat.mod_small, Nat.div_add, Nat.div_small by lia. cbn [Nat.add].
    symmetry. by apply nth_lookup_Some.
  - rewrite !lookup_take_ge by lia. done.
Qed.

Lemma GCTR_block q x : (16 <= length x)%nat →
  internal_aes_gcm_xor_block (E (cn (S q))) (take 16 x) = crypt (16 * q) (take 16 x).
Proof.
  intros Hx. pose proof (GCTR_part q 0 (E (cn (S q))) (take 16 x) 16) as Hp.
  rewrite drop_0, Nat.add_0_r, (take_ge (take 16 x)) in Hp by (rewrite length_take; lia).
  rewrite <- Hp by (rewrite ?length_take; lia || done). unfold internal_aes_gcm_xor_block. rewrite (take_ge (xor_buf _ _ _)); [done|].
  unfold xor_buf. rewrite length_app, length_zip_with, length_drop, !length_take, length_E. lia.
Qed.

(** Where the cipher is after [k] bytes. *)
Definition keyed (mode : TEE_OperationMode) (s : internal_aes_gcm_state) (k : nat) : Prop :=
  ∃ q, k = (16 * q + buf_pos s)%nat ∧ (buf_pos s < 16)%nat ∧
  match mode with
  | TEE_MODE_ENCRYPT => ctr s = cn (S (S q)) ∧ drop (buf_pos s) (buf_cryp s) = drop (buf_pos s) (E (cn (S q))) ∧ length (buf_cryp s) = 16%nat
  | TEE_MODE_DECRYPT => ctr s = cn (S q) ∧ (buf_pos s = 0%nat ∨ drop (buf_pos s) (buf_cryp s) = drop (buf_pos s) (E (cn (S q))) ∧ length (buf_cryp s) = 16%nat)
  end.

(** What goes into the hash. *)
Definition text (mode : TEE_OperationMode) (k : nat) (x : list Z) : list Z :=
  if decide (mode = TEE_MODE_ENCRYPT) then crypt k x else x.

(** What the payload leaves alone. *)
Definition pfixed (s : internal_aes_gcm_state) := (ghash_key s, buf_tag s, tag_len s, aad_bytes s, payload_bytes s).

Definition advance (f : list Z → list Z) (y0 : list Z) mode (s s' : internal_aes_gcm_state) (C x : list Z) : Prop :=
  hashed f y0 s' (C ++ text mode (length C) x) ∧ keyed mode s' (length C + length x) ∧ pfixed s' = pfixed s.

Lemma length_text mode k x : length (text mode k x) = length x.
Proof. unfold text. case_decide; [apply length_GCTR|done]. Qed.

Lemma text_app mode k x y : text mode k (x ++ y) = text mode k x ++ text mode (k + length x) y.
Proof. unfold text. case_decide; [apply GCTR_app|done]. Qed.

Lemma advance_trans f y0 mode s s1 s2 C x y :
  advance f y0 mode s s1 C x → advance f y0 mode s1 s2 (C ++ text mode (length C) x) y → advance f y0 mode s s2 C (x ++ y).
Proof.
  intros (H1 & H2 & H3) (H4 & H5 & H6). unfold advance.
  rewrite length_app, length_text in H4, H5. rewrite text_app, !length_app, app_assoc, Nat.add_assoc. split; [done|]. split; [done|congruence].
Qed.
(** ** Whole blocks of the payload *)

(** One block, of which [x] is hashed. *)
Lemma hashed_one f y0 s A x :
  hashed f y0 s A → f = mul s → buf_pos s = 0%nat → length x = 16%nat →
  hashed f y0 (internal_aes_gcm_ghash_update s (Some x) [] 0) (A ++ x).
Proof.
  intros Hs Hf Hp Hx. destruct (hashed_blocks f y0 s A x 1 Hs Hf Hp ltac:(lia)) as [H1 _]. cbn [Nat.mul Nat.add] in H1.
  rewrite take_ge in H1 by lia. eapply hashed_ext, H1; done.
Qed.

Lemma payload_block_ok f y0 mode s C x :
  hashed f y0 s C → f = mul s → keyed mode s (length C) → buf_pos s = 0%nat → length x = 16%nat →
  ∃ s', (if decide (mode = TEE_MODE_ENCRYPT) then encrypt_block else decrypt_block) s ek x = (s', crypt (length C) x)
    ∧ advance f y0 mode s s' C x ∧ buf_pos s' = 0%nat.
Proof.
  intros Hs Hf (q & Hk & _ & Hm) Hp Hx. rewrite Hp, Nat.add_0_r in Hk.
  pose proof (GCTR_block q x ltac:(lia)) as Hc. rewrite take_ge in Hc by lia. unfold advance, text. destruct mode; cbn [decide].
  - destruct Hm as (Hctr & Hcryp & Hlen). rewrite Hp, !drop_0 in Hcryp. rewrite decide_True by done.
    eexists. unfold encrypt_block. cbn [set_buf_cryp buf_cryp]. rewrite Hcryp, Hc, Hk. split; [done|].
    split; [|done]. split; [|split; [|done]].
    + eapply hashed_ext; cycle 3; [apply (hashed_one f y0 s C (crypt (16 * q) x)); [done..|by rewrite length_GCTR]|done..].
    + exists (S q). rewrite ?inc_ctr_eq. sel. rewrite Hp, Hctr, <- counter_block_S, !drop_0, length_E. split; [lia|]. split; [lia|]. done.
  - destruct Hm as (Hctr & _). rewrite decide_False by done.
    eexists. unfold decrypt_block. rewrite inc_ctr_eq. cbn [set_buf_cryp set_ctr buf_cryp ctr]. rewrite Hctr, Hc, <- Hk. split; [done|].
    split; [|done]. split; [|split; [|done]].
    + eapply hashed_ext; cycle 3; [apply (hashed_one f y0 s C x); done|done..].
    + exists (S q). sel. rewrite Hp, <- counter_block_S. split; [lia|]. split; [lia|]. by split; [|left].
Qed.

Lemma payload_blocks_ok f y0 mode n s C x :
  hashed f y0 s C → f = mul s → keyed mode s (length C) → buf_pos s = 0%nat → length x = (16 * n)%nat →
  ∃ s', payload_blocks mode s ek x n = (s', crypt (length C) x) ∧ advance f y0 mode s s' C x ∧ buf_pos s' = 0%nat.
Proof.
  revert s C x. induction n as [|n IH]; intros s C x Hs Hf Hk Hp Hx.
  - apply nil_length_inv in Hx as ->. exists s. split; [done|]. unfold advance. rewrite Nat.add_0_r.
    replace (text mode (length C) []) with (@nil Z) by (unfold text; by case_decide). by rewrite app_nil_r.
  - cbn [payload_blocks].
    destruct (payload_block_ok f y0 mode s C (take 16 x) Hs Hf Hk Hp ltac:(rewrite length_take; lia)) as (s1 & -> & Ha & Hp1).
    pose proof Ha as (Hs1 & Hk1 & Hf1). pose proof Hf1 as [=He _ _ _ _].
    destruct (IH s1 _ (drop 16 x) Hs1 ltac:(by rewrite He)) as (s2 & -> & Ha2 & Hp2);
      [by rewrite length_app, length_text|done|rewrite length_drop; lia|].
    exists s2. rewrite length_app, length_text, <- GCTR_app, take_drop. split; [done|]. split; [|done].
    rewrite <- (take_drop 16 x). by eapply advance_trans.
Qed.
(** ** A part of a block *)

(** The step of the loop before it looks whether the block is full. *)
Definition part_step (mode : TEE_OperationMode) (s : internal_aes_gcm_state) (src : list Z) (n : nat) : internal_aes_gcm_state * list Z :=
  let s := if (buf_pos s =? 0)%nat && bool_decide (mode = TEE_MODE_DECRYPT) then set_buf_cryp s (E (ctr s)) else s in
  let s := set_buf_cryp s (take (buf_pos s) (buf_cryp s) ++ xor_buf (drop (buf_pos s) (buf_cryp s)) src n) in
  let dst := take n (drop (buf_pos s) (buf_cryp s)) in
  (set_buf_hash s (splice (buf_hash s) (buf_pos s) (if decide (mode = TEE_MODE_ENCRYPT) then dst else take n src)) (buf_pos s + n), dst).

Lemma length_xor_buf d x n : (n <= length x)%nat → length (xor_buf d x n) = length d.
Proof. intros Hx. unfold xor_buf. rewrite length_app, length_zip_with, length_drop, !length_take. lia. Qed.

Lemma drop_xor_buf d x n : (n <= length x)%nat → drop n (xor_buf d x n) = drop n d.
Proof.
  intros Hx. unfold xor_buf. destruct (decide (n <= length d)%nat).
  - rewrite drop_app_length'; [done|]. rewrite length_zip_with, !length_take. lia.
  - rewrite !drop_ge; [done|lia|]. rewrite length_app, length_zip_with, length_drop, !length_take. lia.
Qed.

(** Its result: the output, [buf_cryp] and [buf_hash]. *)
Lemma part_step_ok mode s k src n :
  keyed mode s k → (n <= length src)%nat → (buf_pos s + n <= 16)%nat →
  ∃ b, part_step mode s src n =
         (set_buf_hash (set_buf_cryp s b) (splice (buf_hash s) (buf_pos s) (text mode k (take n src))) (buf_pos s + n),
          crypt k (take n src))
    ∧ length b = 16%nat ∧ drop (buf_pos s + n) b = drop (buf_pos s + n) (E (cn (S (k / 16)))).
Proof.
  intros (q & Hk & Hp & Hm) Hn Hpn. unfold part_step, text.
  assert ((k / 16)%nat = q) as -> by (rewrite Hk, Nat.add_comm, Nat.mul_comm, Nat.div_add, Nat.div_small; lia).
  set (s0 := if _ && _ then _ else s).
  assert (∃ b0, s0 = set_buf_cryp s b0 ∧ length b0 = 16%nat ∧ drop (buf_pos s) b0 = drop (buf_pos s) (E (cn (S q)))) as (b0 & He & Hl & Hd).
  { subst s0. destruct mode.
    - rewrite andb_false_r. exists (buf_cryp s). destruct Hm as (_ & ? & ?). by destruct s.
    - rewrite andb_true_r. destruct Hm as (Hctr & Hm). destruct (Nat.eqb_spec (buf_pos s) 0) as [Hz|Hz].
      + exists (E (ctr s)). rewrite Hctr, length_E. done.
      + exists (buf_cryp s). destruct Hm as [?|[? ?]]; [done|]. by destruct s. }
  clearbody s0. subst s0. cbv zeta. sel.
  exists (take (buf_pos s) b0 ++ xor_buf (drop (buf_pos s) b0) src n).
  assert (length (take (buf_pos s) b0) = buf_pos s) as Ht by (rewrite length_take; lia).
  rewrite (drop_app_length' (take (buf_pos s) b0)) by done.
  rewrite (GCTR_part q (buf_pos s) b0 src n) by (done || lia). rewrite <- Hk. split; [done|].
  rewrite length_app, Ht, length_xor_buf, length_drop by done. split; [lia|].
  rewrite <- drop_drop, drop_app_length', drop_xor_buf, drop_drop by done.
  rewrite <- !drop_drop. by rewrite Hd.
Qed.
Lemma part_more f y0 mode s C x b :
  hashed f y0 s C → keyed mode s (length C) → (buf_pos s + length x < 16)%nat →
  length b = 16%nat → drop (buf_pos s + length x) b = drop (buf_pos s + length x) (E (cn (S (length C / 16)))) →
  advance f y0 mode s
    (set_buf_hash (set_buf_cryp s b) (splice (buf_hash s) (buf_pos s) (text mode (length C) x)) (buf_pos s + length x)) C x.
Proof.
  intros Hs (q & Hk & Hp & Hm) Hx Hb Hd.
  assert ((length C / 16)%nat = q) as Hq by (rewrite Hk, Nat.add_comm, Nat.mul_comm, Nat.div_add, Nat.div_small; lia). rewrite Hq in Hd.
  split; [|split; [|done]].
  - pose proof (hashed_more f y0 (set_buf_cryp s b) C (text mode (length C) x)) as Hh. rewrite length_text in Hh. apply Hh; [|done].
    by eapply hashed_ext, Hs.
  - exists q. sel. split; [lia|]. split; [lia|]. destruct mode; [by destruct Hm as [? _]|]. destruct Hm as [? _]. split; [done|]. by right.
Qed.

Lemma part_full f y0 mode s C x b :
  hashed f y0 s C → f = mul s → keyed mode s (length C) → (buf_pos s + length x = 16)%nat → length b = 16%nat →
  let s1 := set_buf_hash (set_buf_cryp s b) (splice (buf_hash s) (buf_pos s) (text mode (length C) x)) (buf_pos s + length x) in
  let s2 := internal_aes_gcm_ghash_update s1 (Some (buf_hash s1)) [] 0 in
  let s3 := set_buf_hash s2 (buf_hash s2) 0 in
  let s4 := if decide (mode = TEE_MODE_ENCRYPT) then set_buf_cryp s3 (E (ctr s3)) else s3 in
  advance f y0 mode s (internal_aes_gcm_inc_ctr s4) C x.
Proof.
  intros Hs Hf (q & Hk & Hp & Hm) Hx Hb s1 s2 s3 s4.
  destruct (hashed_fill f y0 (set_buf_cryp s b) C (text mode (length C) x) [] 0) as [Hh _];
    [by eapply hashed_ext, Hs|done|by rewrite length_text|cbn; lia|]. rewrite app_nil_r, length_text in Hh.
  rewrite inc_ctr_eq. split; [|split].
  - eapply hashed_ext, Hh; subst s4; by case_decide.
  - exists (S q). subst s4 s3 s2 s1. destruct mode; [rewrite !decide_True by done|rewrite !decide_False by done]; sel;
      (split; [lia|]); (split; [lia|]); destruct Hm as [-> _]; rewrite <- counter_block_S, ?length_E; [done|]. by split; [|left].
  - subst s4. by case_decide.
Qed.

(** ** The loop *)

Lemma payload_loop_S fuel s mode src : src ≠ [] →
  payload_loop (S fuel) s ek mode src =
  if negb (buf_pos s =? 0)%nat || (length src <? 16)%nat then
    let n := ((16 - buf_pos s) `min` length src)%nat in
    let s1 := (part_step mode s src n).1 in
    let dst := (part_step mode s src n).2 in
    if negb (buf_pos s1 =? 16)%nat then Ok (s1, dst)
    else
      let s2 := internal_aes_gcm_ghash_update s1 (Some (buf_hash s1)) [] 0 in
      let s3 := set_buf_hash s2 (buf_hash s2) 0 in
      let s4 := if decide (mode = TEE_MODE_ENCRYPT) then set_buf_cryp s3 (E (ctr s3)) else s3 in
      '(s, o) ← payload_loop fuel (internal_aes_gcm_inc_ctr s4) ek mode (drop n src); mret (s, dst ++ o)
  else
    let n := (length src / 16)%nat in
    '(s, dst) ← internal_aes_gcm_update_payload_blocks s ek mode (take (n * 16) src) n;
    '(s, o) ← payload_loop fuel s ek mode (drop (n * 16) src);
    mret (s, dst ++ o).
Proof. by destruct src. Qed.

Lemma payload_loop_ok f y0 mode fuel s C x :
  (length x < fuel)%nat → hashed f y0 s C → f = mul s → keyed mode s (length C) →
  ∃ s', payload_loop fuel s ek mode x = Ok (s', crypt (length C) x) ∧ advance f y0 mode s s' C x.
Proof.
  revert s C x. induction fuel as [|fuel IH]; intros s C x Hfuel Hs Hf Hk; [lia|].
  destruct (decide (x = [])) as [->|Hx0].
  { exists s. split; [done|]. unfold advance. replace (text mode (length C) []) with (@nil Z) by (unfold text; by case_decide).
    by rewrite app_nil_r, Nat.add_0_r. }
  assert (0 < length x)%nat as Hx by (destruct x; [done|cbn; lia]).
  (* after a step *)
  assert (∀ s1 n, (0 < n <= length x)%nat → advance f y0 mode s s1 C (take n x) →
    ∃ s', ('(s, o) ← payload_loop fuel s1 ek mode (drop n x); mret (s, crypt (length C) (take n x) ++ o))
          = Ok (s', crypt (length C) x) ∧ advance f y0 mode s s' C x) as Hrest.
  { intros s1 n Hn Ha. pose proof Ha as (Hs1 & Hk1 & Hf1). pose proof Hf1 as [=He _ _ _ _].
    destruct (IH s1 _ (drop n x) ltac:(rewrite length_drop; lia) Hs1 ltac:(by rewrite He)) as (s2 & -> & Ha2);
      [by rewrite length_app, length_text|].
    exists s2. rewrite length_app, length_text. cbn. rewrite <- GCTR_app, take_drop. split; [done|].
    rewrite <- (take_drop n x). by eapply advance_trans. }
  rewrite payload_loop_S by done. cbv zeta.
  destruct (negb (buf_pos s =? 0)%nat || (length x <? 16)%nat) eqn:Hc.
  - pose proof Hs as (_ & _ & Hp & _). set (n := ((16 - buf_pos s) `min` length x)%nat).
    assert (length (take n x) = n) as Hl by (rewrite length_take; lia).
    destruct (part_step_ok mode s (length C) x n Hk ltac:(lia) ltac:(lia)) as (b & -> & Hb & Hd). cbn [fst snd].
    replace (buf_pos s + n)%nat with (buf_pos s + length (take n x))%nat in Hd |- * by lia.
    sel. destruct (Nat.eqb_spec (buf_pos s + length (take n x)) 16) as [He|He]; cbn [negb].
    + apply (Hrest _ n); [lia|]. by apply part_full.
    + assert (n = length x) as Hn by lia. rewrite take_ge in Hd, He |- * by lia. eexists. split; [done|]. apply part_more; [done..|lia|done|done].
  - apply orb_false_iff in Hc as [Hb0 Hl16]. bools. apply Nat.ltb_ge in Hl16.
    set (n := (length x / 16)%nat). pose proof (Nat.Div0.mul_div_le (length x) 16). assert (0 < n)%nat by (apply Nat.div_str_pos; lia).
    unfold internal_aes_gcm_update_payload_blocks. apply Nat.eqb_eq in Hb0. rewrite Hb0. destruct (Nat.eqb_spec n 0) as [|_]; [lia|]. cbn [Nat.eqb andb negb].
    destruct (payload_blocks_ok f y0 mode n s C (take (n * 16) x) Hs Hf Hk Hb0) as (s1 & -> & Ha & _); [rewrite length_take; unfold n; lia|].
    apply (Hrest _ (n * 16)%nat); [unfold n in *; lia|done].
Qed.
End stream.
