(* ===== verification/GcmSpec.v ===== *)
(** * core/crypto/aes-gcm.c: the whole operation

    From the start to the tag, for any division of the additional data and of the
    payload into calls: the result is that of SP 800-38D (GcmProofs.v), as long as
    the lengths in bits and the block counter fit in 32 bits. *)
From S2P Require Import Prelude Ghash GhashProofs Gcm GcmProofs.

Local Open Scope Z_scope.

(** ** A stream of calls *)

Section calls.
Context `{Aes}.

Fixpoint update_aads (s : internal_aes_gcm_state) (l : list (Z * list Z)) : outcome tee_result internal_aes_gcm_state :=
  match l with
  | [] => Ok s
  | (a, d) :: l => s ← __gcm_update_aad s a d; update_aads s l
  end.

Fixpoint update_payloads (s : internal_aes_gcm_state) (ek : aes_key) (mode : TEE_OperationMode) (l : list (list Z))
    : outcome tee_result (internal_aes_gcm_state * list Z) :=
  match l with
  | [] => Ok (s, [])
  | x :: l =>
    '(s, o) ← __gcm_update_payload s ek mode x;
    '(s, o') ← update_payloads s ek mode l;
    mret (s, o ++ o')
  end.

(** The additional data, the parts of the payload and the last part. *)
Definition encrypt_stream (ek : aes_key) (na : Z) (nonce : list Z) (t : nat) (aads : list (Z * list Z)) (l : list (list Z))
    (last : list Z) (room : nat) : outcome tee_result (list Z * list Z) :=
  match __gcm_init ek TEE_MODE_ENCRYPT na nonce t with
  | inl e => Err e
  | inr s =>
    s ← update_aads s aads;
    '(s, o) ← update_payloads s ek TEE_MODE_ENCRYPT l;
    '(o', tag) ← __gcm_enc_final s ek last room;
    mret (o ++ o', tag)
  end.

Definition decrypt_stream (ek : aes_key) (na : Z) (nonce : list Z) (t : nat) (aads : list (Z * list Z)) (l : list (list Z))
    (last tag : list Z) : outcome tee_result (list Z * tee_result) :=
  match __gcm_init ek TEE_MODE_DECRYPT na nonce t with
  | inl e => Err e
  | inr s =>
    s ← update_aads s aads;
    '(s, o) ← update_payloads s ek TEE_MODE_DECRYPT l;
    '(o', r) ← __gcm_dec_final s ek last tag;
    mret (o ++ o', r)
  end.
End calls.

(** ** Padding *)

Lemma length_pad16 l : length (pad16 l) = (16 * (length (pad16 l) / 16))%nat.
Proof.
  unfold pad16, zeros. rewrite length_app, length_replicate.
  pose proof (Nat.div_mod (length l) 16 ltac:(lia)). pose proof (Nat.mod_upper_bound (length l) 16 ltac:(lia)).
  destruct (Nat.eq_dec (length l mod 16) 0) as [Hz|Hz].
  - rewrite Hz, Nat.sub_0_r, Nat.Div0.mod_same, Nat.add_0_r. lia.
  - rewrite (Nat.mod_small (16 - _)) by lia.
    replace (length l + (16 - length l mod 16))%nat with ((length l / 16 + 1) * 16)%nat by lia. rewrite Nat.div_mul; lia.
Qed.

(** GHASH of parts of whole blocks. *)
Lemma GHASH_parts f x y b :
  length x = (16 * (length x / 16))%nat → length y = (16 * (length y / 16))%nat → length b = 16%nat →
  GHASH f (x ++ y ++ b)
  = f (internal_aes_gcm_xor_block (ghash_n f (length y / 16) (ghash_n f (length x / 16) (zeros 16) x) y) b).
Proof.
  intros Hx Hy Hb. unfold GHASH. rewrite !length_app, Hb.
  replace ((length x + (length y + 16)) / 16)%nat with (length x / 16 + (length y / 16 + 1))%nat.
  - rewrite !ghash_n_app by done. cbn [ghash_n]. by rewrite take_ge by lia.
  - rewrite Hx at 2. rewrite Hy at 2. replace (16 * (length x / 16) + (16 * (length y / 16) + 16))%nat
      with ((length x / 16 + (length y / 16 + 1)) * 16)%nat by lia. by rewrite Nat.div_mul.
Qed.

Lemma hashed_padded f y0 s A :
  hashed f y0 s A → f = mul s →
  hash_state (if negb (buf_pos s =? 0)%nat then
                let s := set_buf_hash s (take (buf_pos s) (buf_hash s) ++ zeros (16 - buf_pos s)) (buf_pos s) in
                internal_aes_gcm_ghash_update s (Some (buf_hash s)) [] 0
              else s)
  = ghash_n f (length (pad16 A) / 16) y0 (pad16 A).
Proof.
  intros Hs Hf. destruct (Nat.eqb_spec (buf_pos s) 0) as [Hz|Hz]; cbn [negb].
  - by destruct (hashed_whole f y0 s A Hs Hz) as [-> _].
  - rewrite <- (hashed_pad f y0 s A Hs Hf Hz). done.
Qed.

(** ** The additional data *)

Section aes.
Context `{AesLaws} (ek : aes_key).

Definition aad_fixed (s : internal_aes_gcm_state) := (ctr s, ghash_key s, buf_tag s, buf_cryp s, tag_len s, payload_bytes s).

Lemma update_aads_ok f y0 l s A :
  hashed f y0 s A → f = mul s → payload_bytes s = 0 → aad_bytes s = wrap 32 (Z.of_nat (length A)) →
  ∃ s', update_aads s l = Ok s' ∧ hashed f y0 s' (A ++ concat l.*2) ∧ aad_fixed s' = aad_fixed s
    ∧ aad_bytes s' = wrap 32 (Z.of_nat (length (A ++ concat l.*2))).
Proof.
  revert s A. induction l as [|[a d] l IH]; intros s A Hs Hf Hp Ha; cbn [update_aads].
  - exists s. cbn. by rewrite app_nil_r.
  - unfold __gcm_update_aad. rewrite Hp. cbn [Z.eqb negb]. cbv zeta.
    destruct (aad_loop_ok f y0 (S (length d)) (set_counts s (wrap 32 (aad_bytes s + Z.of_nat (length d))) 0) None a d A) as (s1 & -> & Hs1 & Hf1);
      [lia|by eapply hashed_ext, Hs|done|done|].
    cbn [mbind outcome_bind]. injection Hf1 as Hc Hk Ht Hb Htl Hab Hpb. cbn in Hc, Hk, Ht, Hb, Htl, Hab, Hpb.
    destruct (IH s1 (A ++ d) Hs1) as (s2 & -> & Hs2 & Hf2 & Ha2).
    + by rewrite Hk.
    + done.
    + rewrite Hab, Ha, length_app. unfold wrap. rewrite Zplus_mod_idemp_l. f_equal. lia.
    + exists s2. cbn. rewrite (app_assoc A). split; [done|]. split; [done|]. split; [|done].
      rewrite Hf2. unfold aad_fixed. congruence.
Qed.

(** ** The payload *)

(** The block of additional data that is not full yet ends when the payload begins. *)
Definition begin (s : internal_aes_gcm_state) : internal_aes_gcm_state :=
  if (payload_bytes s =? 0) && negb (buf_pos s =? 0)%nat then
    let s := set_buf_hash s (take (buf_pos s) (buf_hash s) ++ zeros (16 - buf_pos s)) (buf_pos s) in
    let s := internal_aes_gcm_ghash_update s (Some (buf_hash s)) [] 0 in
    set_buf_hash s (buf_hash s) 0
  else s.

Lemma update_payload_begin s mode x :
  __gcm_update_payload s ek mode x =
  payload_loop (S (length x)) (set_counts (begin s) (aad_bytes (begin s)) (wrap 32 (payload_bytes (begin s) + Z.of_nat (length x)))) ek mode x.
Proof. done. Qed.

Lemma begin_fixed s : ctr (begin s) = ctr s ∧ buf_cryp (begin s) = buf_cryp s ∧ pfixed (begin s) = pfixed s.
Proof. unfold begin. by case_match. Qed.

Lemma begin_aad f y0 s A :
  hashed f y0 s A → f = mul s → payload_bytes s = 0 →
  hashed f (ghash_n f (length (pad16 A) / 16) y0 (pad16 A)) (begin s) [] ∧ buf_pos (begin s) = 0%nat.
Proof.
  intros Hs Hf Hp. unfold begin. rewrite Hp. cbn [Z.eqb andb]. pose proof Hs as (q & _ & Hlt & _ & Hl & _).
  destruct (Nat.eqb_spec (buf_pos s) 0) as [Hz|Hz]; cbn [negb].
  - split; [|done]. exists 0%nat. rewrite Hz. destruct (hashed_whole f y0 s A Hs Hz) as [-> _]. 
    split; [done|]. split; [lia|]. split; [done|]. by split.
  - split; [|done]. exists 0%nat. split; [done|]. split; [cbn; lia|]. split; [|split; [|done]].
    + exact (hashed_pad f y0 s A Hs Hf Hz).
    + sel. rewrite length_app, length_take. unfold zeros. rewrite length_replicate. lia.
Qed.

(** The payload [C] hashed from [y1] on. *)
Definition paid (j0 : list Z) (f : list Z → list Z) (y1 : list Z) (mode : TEE_OperationMode) (s : internal_aes_gcm_state) (C : list Z) : Prop :=
  hashed f y1 (begin s) C ∧ keyed ek j0 mode (begin s) (length C) ∧ payload_bytes s = Z.of_nat (length C).

Lemma update_payload_ok j0 f y1 mode s C x :
  paid j0 f y1 mode s C → f = mul s → in_range 32 (Z.of_nat (length C + length x)) →
  ∃ s', __gcm_update_payload s ek mode x = Ok (s', GCTR (aes_enc ek) inc_block j0 (length C) x)
    ∧ begin s' = s' ∧ paid j0 f y1 mode s' (C ++ text ek j0 mode (length C) x)
    ∧ (ghash_key s', buf_tag s', tag_len s', aad_bytes s') = (ghash_key s, buf_tag s, tag_len s, aad_bytes s).
Proof.
  intros (Hs & Hk & Hp) Hf Hr. destruct (begin_fixed s) as (_ & _ & [=Hk1 Ht1 Htl1 Ha1 Hp1]).
  rewrite update_payload_begin, Ha1, Hp1, Hp, <- Nat2Z.inj_add, (wrap_small 32) by done.
  set (s1 := set_counts _ _ _).
  destruct (payload_loop_ok ek j0 f y1 mode (S (length x)) s1 C x) as (s2 & -> & Hs2 & Hk2 & [=Hg Ht Htl Ha Hpb]);
    [lia|by eapply hashed_ext, Hs|by rewrite Hf, <- Hk1|done|].
  subst s1. cbn in Hg, Ht, Htl, Ha, Hpb.
  assert (begin s2 = s2) as Hb.
  { unfold begin. destruct (Z.eqb_spec (payload_bytes s2) 0) as [Hz|Hz]; [|done].
    assert (length C + length x = 0)%nat as Hz' by lia. destruct Hk2 as (q & Hq & _).
    assert (buf_pos s2 = 0%nat) as -> by lia. done. }
  exists s2. split; [done|]. split; [done|]. unfold paid. rewrite Hb, length_app, length_text. split; [|congruence].
  split; [done|]. split; [done|]. rewrite Hpb. lia.
Qed.

Lemma update_payloads_ok j0 f y1 mode l s C :
  paid j0 f y1 mode s C → f = mul s → in_range 32 (Z.of_nat (length C + length (concat l))) →
  ∃ s', update_payloads s ek mode l = Ok (s', GCTR (aes_enc ek) inc_block j0 (length C) (concat l))
    ∧ paid j0 f y1 mode s' (C ++ text ek j0 mode (length C) (concat l))
    ∧ (ghash_key s', buf_tag s', tag_len s', aad_bytes s') = (ghash_key s, buf_tag s, tag_len s, aad_bytes s).
Proof.
  revert s C. induction l as [|x l IH]; intros s C Hs Hf Hr; cbn [update_payloads concat].
  - exists s. replace (text ek j0 mode (length C) []) with (@nil Z) by (unfold text; by case_decide). by rewrite app_nil_r.
  - cbn [concat] in Hr. rewrite length_app in Hr. unfold in_range in Hr.
    destruct (update_payload_ok j0 f y1 mode s C x Hs Hf) as (s1 & -> & _ & Hs1 & [=Hg Ht Htl Ha]); [unfold in_range; lia|].
    cbn [mbind outcome_bind]. destruct (IH s1 _ Hs1) as (s2 & -> & Hs2 & Hf2).
    + by rewrite Hg.
    + rewrite length_app, length_text. unfold in_range. lia.
    + exists s2. cbn [mbind outcome_bind]. rewrite length_app, length_text, <- GCTR_app in *. split; [done|].
      rewrite text_app, app_assoc. split; [done|]. congruence.
Qed.
(** ** The end *)

Lemma length_ghash_n f n y l : (∀ x, length (f x) = 16%nat) → length y = 16%nat → length (ghash_n f n y l) = 16%nat.
Proof. intros Hf. revert y l. induction n as [|n IH]; intros y l Hy; [done|]. apply IH, Hf. Qed.

Lemma length_mult_tbl k x : length (internal_aes_gcm_ghash_mult_tbl k x) = 16%nat.
Proof.
  unfold internal_aes_gcm_ghash_mult_tbl. cbv zeta. destruct (mult_loop _ _ _ _) as [zh zl]. unfold put_be64.
  by rewrite length_app, !length_be_bytes.
Qed.

Lemma take_xor_buf t x y : (t <= 16)%nat → length x = 16%nat → length y = 16%nat →
  take t (xor_buf x y t) = take t (internal_aes_gcm_xor_block x y).
Proof.
  intros Ht Hx Hy. unfold internal_aes_gcm_xor_block, xor_buf, TEE_AES_BLOCK_SIZE. rewrite (take_ge x 16), (take_ge y 16), (drop_ge x 16), app_nil_r by lia.
  rewrite take_app_length' by (rewrite length_zip_with, !length_take; lia).
  apply list_eq. intros i. destruct (decide (i < t)%nat).
  - rewrite lookup_take_lt by done. rewrite !lookup_zip_with, !lookup_take_lt by done. done.
  - rewrite (lookup_take_ge _ t) by lia. rewrite lookup_zip_with, !lookup_take_ge by lia. done.
Qed.

Lemma wrap_bits n : 8 * Z.of_nat n < 2 ^ 32 → wrap 32 (wrap 32 (Z.of_nat n) * 8) = 8 * Z.of_nat n.
Proof. intros Hn. rewrite !(wrap_small 32); unfold in_range; rewrite ?(wrap_small 32); unfold in_range; lia. Qed.

Lemma update_lengths_eq s a c :
  8 * Z.of_nat (length a) < 2 ^ 32 → 8 * Z.of_nat (length c) < 2 ^ 32 →
  ghash_update_lengths s (Z.of_nat (length a)) (Z.of_nat (length c))
  = set_hash_state s (mul s (internal_aes_gcm_xor_block (hash_state s) (lengths a c))).
Proof.
  intros Ha Hc. unfold ghash_update_lengths. rewrite !wrap_bits by done. fold (lengths a c). sel.
  rewrite take_ge; [done|]. unfold lengths. by rewrite length_app, !length_be_bytes.
Qed.

(** The tag that the end computes: [A] is the additional data. *)
Lemma operation_final_ok j0 f mode s A C x :
  paid j0 f (ghash_n f (length (pad16 A) / 16) (zeros 16) (pad16 A)) mode s C → f = mul s →
  8 * Z.of_nat (length A) < 2 ^ 32 → 8 * Z.of_nat (length C + length x) < 2 ^ 32 →
  aad_bytes s = Z.of_nat (length A) → length (buf_tag s) = 16%nat → (tag_len s <= 16)%nat →
  let C' := C ++ text ek j0 mode (length C) x in
  ∃ s', operation_final s ek mode x = Ok (s', GCTR (aes_enc ek) inc_block j0 (length C) x)
    ∧ tag_len s' = tag_len s
    ∧ take (tag_len s) (buf_tag s')
      = take (tag_len s) (internal_aes_gcm_xor_block (buf_tag s) (GHASH f (pad16 A ++ pad16 C' ++ lengths A C'))).
Proof.
  intros Hs Hf HA HC Ha Ht Htl C'. unfold operation_final.
  destruct (update_payload_ok j0 f _ mode s C x Hs Hf) as (s1 & -> & Hb & (Hs1 & _ & Hp1) & [=Hg1 Ht1 Htl1 Ha1]); [unfold in_range; lia|].
  fold C' in Hs1, Hp1. rewrite Hb in Hs1. cbn [mbind outcome_bind]. eexists. split; [done|].
  pose proof (hashed_padded f _ s1 C' Hs1 ltac:(by rewrite Hg1)) as Hh. set (s2 := if negb _ then _ else s1) in *.
  assert (pfixed s2 = pfixed s1) as [=Hg2 Ht2 Htl2 Ha2 Hp2] by (subst s2; by case_match). clearbody s2.
  assert (length C' = length C + length x)%nat as HlC by (subst C'; by rewrite length_app, length_text).
  rewrite Ha2, Ha1, Ha, Hp2, Hp1, update_lengths_eq by (rewrite ?HlC; lia). sel. rewrite Ht2, Htl2, Ht1, Htl1. split; [done|].
  rewrite Hg2, Hg1, <- Hf, Hh. rewrite take_xor_buf; [|done|done|by subst f; apply length_mult_tbl].
  rewrite GHASH_parts; [done|apply length_pad16|apply length_pad16|]. unfold lengths. by rewrite length_app, !length_be_bytes.
Qed.
(** ** The start *)

Lemma pad_zero_blocks s d n m :
  (16 * (m + n) <= length d)%nat →
  foldl (λ s m, internal_aes_gcm_ghash_update s None (take 16 (drop (m * 16) d)) 1) s (seq m n)
  = set_hash_state s (ghash_n (mul s) n (hash_state s) (drop (16 * m) d)).
Proof.
  revert s m. induction n as [|n IH]; intros s m Hd; [by destruct s|]. cbn [seq foldl].
  rewrite IH by lia. sel. rewrite take_take. cbn [ghash_n]. rewrite drop_drop.
  replace (m * 16)%nat with (16 * m)%nat by lia. replace (16 * m + 16)%nat with (16 * S m)%nat by lia. done.
Qed.

Lemma pad_zero_eq s a d :
  ghash_update_pad_zero s a d = set_hash_state s (ghash_n (mul s) (length (pad16 d) / 16) (hash_state s) (pad16 d)).
Proof.
  unfold ghash_update_pad_zero. set (n := (length d / TEE_AES_BLOCK_SIZE)%nat).
  assert (16 * n <= length d)%nat as Hn by apply Nat.Div0.mul_div_le.
  assert (length d = 16 * n + length d mod 16)%nat as Hm by (apply Nat.div_mod; lia).
  pose proof (Nat.mod_upper_bound (length d) 16 ltac:(lia)) as Hlt. set (r := (length d mod 16)%nat) in *.
  set (s1 := if internal_aes_gcm_ptr_is_block_aligned a then _ else _).
  assert (s1 = set_hash_state s (ghash_n (mul s) n (hash_state s) d)) as Hs1.
  { subst s1. case_match; [apply update_blocks_eq|]. rewrite pad_zero_blocks by lia. done. }
  clearbody s1. subst s1. cbv zeta. unfold TEE_AES_BLOCK_SIZE. replace (length d - n * 16)%nat with r by lia.
  unfold pad16. fold r. destruct (Nat.eqb_spec r 0) as [Hz|Hz].
  - rewrite Hz. change ((16 - 0) mod 16)%nat with 0%nat. unfold zeros. cbn [replicate]. by rewrite app_nil_r.
  - rewrite (Nat.mod_small (16 - r)) by lia. rewrite length_app. unfold zeros at 2. rewrite length_replicate.
    replace ((length d + (16 - r)) / 16)%nat with (n + 1)%nat by (rewrite <- (Nat.div_mul (n + 1) 16); [f_equal; lia|done]).
    rewrite ghash_n_add, ghash_n_take, drop_app_le by lia. sel. cbn [ghash_n]. rewrite (Nat.mul_comm n 16).
    rewrite (take_ge (drop _ _)) by (rewrite length_drop; lia). done.
Qed.

Lemma inc_first nonce : bytes nonce → length nonce = 12%nat → inc_block (nonce ++ zeros 4) = nonce ++ [0; 0; 0; 1].
Proof.
  intros Hb Hl. unfold inc_block. rewrite (drop_app_le nonce), (take_app_le nonce) by lia.
  assert (bytes (drop 8 nonce) ∧ bytes (take 8 nonce)) as [Hd Ht] by (split; [by apply Forall_drop|by apply Forall_take]).
  pose proof (be_value_range _ Hd) as Hrd. rewrite length_drop, Hl in Hrd. change (in_range 32 (be_value (drop 8 nonce))) in Hrd.
  rewrite be_value_app. change (be_value (zeros 4)) with 0. change (256 ^ Z.of_nat (length (zeros 4))) with (2 ^ 32).
  rewrite Z.add_0_r, (wrap_small 64) by (unfold in_range in *; lia). rewrite (proj2 (Z.eqb_neq _ 0)) by (unfold in_range in *; lia).
  cbv zeta. rewrite <- (take_drop 8 nonce) at 3. rewrite <- app_assoc. f_equal; apply be_value_inj.
  - by rewrite length_be_bytes, length_take, Hl.
  - apply bytes_be.
  - done.
  - rewrite be_value_bytes; [done|]. pose proof (be_value_range _ Ht) as Hrt. by rewrite length_take, Hl in Hrt.
  - by rewrite length_be_bytes, length_app, length_drop, Hl.
  - apply bytes_be.
  - apply Forall_app. split; [done|]. rewrite !Forall_cons, Forall_nil. lia.
  - rewrite be_value_bytes; [|unfold in_range in *; lia]. rewrite be_value_app. done.
Qed.

(** The first counter block. *)
Lemma init_counter s na nonce :
  bytes nonce → 8 * Z.of_nat (length nonce) < 2 ^ 32 → hash_state s = zeros 16 →
  (if (length nonce =? 12)%nat then internal_aes_gcm_inc_ctr (set_ctr s (nonce ++ zeros 4))
   else
     let s := ghash_update_pad_zero s na nonce in
     let s := ghash_update_lengths s 0 (Z.of_nat (length nonce)) in
     set_hash_state (set_ctr s (hash_state s)) (zeros 16))
  = set_ctr s (pre_counter (mul s) nonce).
Proof.
  intros Hb Hl Hh. unfold pre_counter. destruct (Nat.eqb_spec (length nonce) 12) as [H12|H12].
  - rewrite inc_ctr_eq. sel. by rewrite (inc_first nonce Hb H12).
  - change (ghash_update_lengths ?x 0 ?y) with (ghash_update_lengths x (Z.of_nat (length (@nil Z))) y).
    rewrite pad_zero_eq, update_lengths_eq by (cbn; lia). sel. rewrite Hh. generalize (mul s). intros f.
    pose proof (GHASH_parts f [] (pad16 nonce) (lengths [] nonce) eq_refl (length_pad16 _)) as Hg. cbn [app length] in Hg.
    rewrite Hg by (unfold lengths; by rewrite length_app, !length_be_bytes). destruct s. cbn in Hh. by subst.
Qed.

Lemma keyed_start j0 mode s :
  buf_pos s = 0%nat → ctr s = j0 →
  keyed ek j0 mode (let s := internal_aes_gcm_inc_ctr s in
    if decide (mode = TEE_MODE_ENCRYPT) then internal_aes_gcm_inc_ctr (set_buf_cryp s (aes_enc ek (ctr s))) else s) 0.
Proof.
  intros Hp Hc. exists 0%nat. cbv zeta.
  destruct mode; [rewrite decide_True by done|rewrite decide_False by done]; rewrite !inc_ctr_eq; sel; rewrite Hp, Hc;
    change (inc_block j0) with (counter_block inc_block j0 1); (split; [lia|]); (split; [lia|]).
  - rewrite <- counter_block_S. split; [reflexivity|]. split; [reflexivity|]. exact (length_E ek j0 0).
  - split; [reflexivity|by left].
Qed.

Lemma init_ok mode na nonce t :
  bytes nonce → 8 * Z.of_nat (length nonce) < 2 ^ 32 → (t <= 16)%nat →
  let key := internal_aes_gcm_ghash_gen_tbl (aes_enc ek (zeros 16)) in
  let f := internal_aes_gcm_ghash_mult_tbl key in
  let j0 := pre_counter f nonce in
  ∃ s, __gcm_init ek mode na nonce t = inr s ∧ ghash_key s = key ∧ hashed f (zeros 16) s [] ∧ keyed ek j0 mode s 0 ∧ buf_pos s = 0%nat
    ∧ buf_tag s = aes_enc ek j0 ∧ tag_len s = t ∧ aad_bytes s = 0 ∧ payload_bytes s = 0.
Proof.
  intros Hb Hl Ht. unfold __gcm_init. rewrite (proj2 (Nat.ltb_ge _ _) Ht). unfold internal_aes_gcm_set_key. sel.
  generalize (internal_aes_gcm_ghash_gen_tbl (aes_enc ek (zeros 16))). intros key.
  rewrite init_counter by done. sel. generalize (internal_aes_gcm_ghash_mult_tbl key). intros f.
  generalize (pre_counter f nonce). intros j0.
  set (s := set_buf_tag _ _). pose proof (keyed_start j0 mode s eq_refl eq_refl) as Hk. cbv zeta in Hk.
  eexists. split; [reflexivity|]. split; [by case_decide|]. split; [|split; [exact Hk|by case_decide]].
  case_decide; exists 0%nat; rewrite ?inc_ctr_eq; subst s; sel; (split; [done|]); (split; [lia|done]).
Qed.
(** ** The whole *)

Lemma keyed_ext j0 mode s s' k :
  ctr s' = ctr s → buf_cryp s' = buf_cryp s → buf_pos s' = buf_pos s → keyed ek j0 mode s k → keyed ek j0 mode s' k.
Proof. unfold keyed. by intros -> -> ->. Qed.

(** The states from the start to the end, with the multiplication of the tables and
    the increment of the code. *)
Lemma stream_ok mode na nonce t aads l last :
  let E := aes_enc ek in
  let f := internal_aes_gcm_ghash_mult_tbl (internal_aes_gcm_ghash_gen_tbl (E (zeros 16))) in
  let j0 := pre_counter f nonce in
  let A := concat aads.*2 in
  let P := concat l ++ last in
  bytes nonce → block j0 → (t <= 16)%nat → 8 * Z.of_nat (length nonce) < 2 ^ 32 →
  8 * Z.of_nat (length A) < 2 ^ 32 → 8 * Z.of_nat (length P) < 2 ^ 32 →
  ∃ s s1 s2 s3 o o', __gcm_init ek mode na nonce t = inr s ∧ update_aads s aads = Ok s1
    ∧ update_payloads s1 ek mode l = Ok (s2, o) ∧ tag_len s2 = t
    ∧ operation_final s2 ek mode last = Ok (s3, o') ∧ tag_len s3 = t
    ∧ o ++ o' = GCTR E inc_block j0 0 P
    ∧ take t (buf_tag s3) = gcm_tag E f nonce A (text ek j0 mode 0 P) t.
Proof.
  intros E f j0 A P Hb Hj0 Ht Hn HA HP.
  destruct (init_ok mode na nonce t Hb Hn Ht) as (s & Hi & Hg & Hh & Hk & Hp & Hbt & Htl & Ha & Hpb). change (pre_counter _ nonce) with j0 in Hk, Hbt. change (internal_aes_gcm_ghash_mult_tbl _) with f in Hh.
  assert (f = mul s) as Hf by (by rewrite Hg). clear Hg.
  assert (j0 = pre_counter f nonce) as Hj by reflexivity. clearbody j0. clearbody f.
  destruct (update_aads_ok f (zeros 16) aads s [] Hh) as (s1 & Hu1 & Hh1 & [=Hc1 Hg1 Ht1 Hcr1 Htl1 Hp1] & Ha1);
    [done|done|by rewrite Ha|]. rewrite app_nil_l in Hh1, Ha1. fold A in Hh1, Ha1.
  rewrite (wrap_small 32) in Ha1 by (unfold in_range; lia).
  destruct (begin_aad f (zeros 16) s1 A Hh1 ltac:(by rewrite Hg1) ltac:(by rewrite Hp1)) as [Hh2 Hp2].
  destruct (begin_fixed s1) as (Hc2 & Hcr2 & _).
  assert (paid j0 f (ghash_n f (length (pad16 A) / 16) (zeros 16) (pad16 A)) mode s1 []) as Hpaid.
  { split; [exact Hh2|]. split; [|by rewrite Hp1, Hpb].
    eapply keyed_ext, Hk; [by rewrite Hc2, Hc1|by rewrite Hcr2, Hcr1|by rewrite Hp2, Hp]. }
  subst P. rewrite length_app in HP.
  destruct (update_payloads_ok j0 f _ mode l s1 [] Hpaid) as (s2 & Hu2 & Hpaid2 & [=Hg2 Ht2 Htl2 Ha2]);
    [by rewrite Hg1|unfold in_range; cbn; lia|]. cbn [length app] in Hu2, Hpaid2.
  destruct (operation_final_ok j0 f mode s2 A _ last Hpaid2) as (s3 & Hfin & Htl3 & Htag);
    [by rewrite Hg2, Hg1|done|rewrite length_text; lia|congruence| |rewrite Htl2, Htl1, Htl; done|].
  { rewrite Ht2, Ht1, Hbt. apply aes_enc_block. exact Hj0. }
  rewrite length_text in Hfin, Htag. rewrite <- (text_app ek j0 mode 0) in Htag.
  do 6 eexists. split; [exact Hi|]. split; [exact Hu1|]. split; [exact Hu2|]. split; [congruence|]. split; [exact Hfin|].
  split; [congruence|]. split; [by rewrite (GCTR_app ek j0 0)|].
  rewrite Htl2, Htl1, Htl, Ht2, Ht1, Hbt in Htag. unfold gcm_tag. rewrite <- Hj. exact Htag.
Qed.
End aes.

(** ** The multiplication of the field *)

Lemma block_zeros : block (zeros 16).
Proof. split; [done|]. apply Forall_replicate. lia. Qed.

Lemma xor_block_ok x y : block x → bytes y → (16 <= length y)%nat → block (internal_aes_gcm_xor_block x y).
Proof.
  intros [Hl Hx] Hy Hly. split; [unfold internal_aes_gcm_xor_block, TEE_AES_BLOCK_SIZE; by rewrite length_xor_buf|].
  unfold internal_aes_gcm_xor_block, xor_buf. apply Forall_app. split; [|by apply Forall_drop].
  apply (Forall_take _ TEE_AES_BLOCK_SIZE) in Hx, Hy. revert Hx Hy. generalize (take TEE_AES_BLOCK_SIZE x) (take TEE_AES_BLOCK_SIZE y).
  clear. intros x y Hx. revert y. induction Hx as [|b x Hb Hx IH]; intros [|c y] Hy; cbn; [constructor..|].
  apply Forall_cons in Hy as [Hc Hy]. constructor; [|by apply IH]. exact (lxor_range 8 b c ltac:(lia) Hb Hc).
Qed.

Lemma mult_tbl_eq h x : block h → block x →
  block (gf_mul_block h x) ∧ internal_aes_gcm_ghash_mult_tbl (internal_aes_gcm_ghash_gen_tbl h) x = gf_mul_block h x.
Proof.
  intros Hh Hx. pose proof (mult_tbl_block x h Hx Hh) as Ht. cbv zeta in Ht. unfold gf_mul_block. revert Ht.
  generalize (internal_aes_gcm_ghash_mult_tbl (internal_aes_gcm_ghash_gen_tbl h) x) (gf_mul (be_value x) (be_value h)).
  intros r v [[Hl Hb] He]. split; [split; [apply length_be_bytes|apply bytes_be]|].
  apply be_value_inj; [by rewrite length_be_bytes|done|apply bytes_be|]. rewrite be_value_bytes; [done|].
  rewrite <- He. by apply block_range.
Qed.

Lemma ghash_n_ext f g n y l :
  (∀ x, block x → block (g x) ∧ f x = g x) → block y → bytes l → (16 * n <= length l)%nat →
  block (ghash_n g n y l) ∧ ghash_n f n y l = ghash_n g n y l.
Proof.
  intros Hfg. revert y l. induction n as [|n IH]; intros y l Hy Hl Hn; [done|]. cbn [ghash_n].
  destruct (Hfg (internal_aes_gcm_xor_block y (take 16 l))) as [Hb ->].
  { apply xor_block_ok; [done|by apply Forall_take|rewrite length_take; lia]. }
  apply IH; [done|by apply Forall_drop|rewrite length_drop; lia].
Qed.

Section field.
Context (h : list Z) (Hh : block h).
Abbreviation f := (internal_aes_gcm_ghash_mult_tbl (internal_aes_gcm_ghash_gen_tbl h)).

Lemma GHASH_eq l : bytes l → block (GHASH (gf_mul_block h) l) ∧ GHASH f l = GHASH (gf_mul_block h) l.
Proof.
  intros Hl. apply ghash_n_ext; [intros x; by apply mult_tbl_eq|apply block_zeros|done|apply Nat.Div0.mul_div_le].
Qed.

Lemma bytes_pad16 l : bytes l → bytes (pad16 l).
Proof. intros Hl. apply Forall_app. split; [done|]. apply Forall_replicate. lia. Qed.

Lemma bytes_lengths a c : bytes (lengths a c).
Proof. apply Forall_app. split; apply bytes_be. Qed.

Lemma pre_counter_eq nonce : bytes nonce → block (pre_counter (gf_mul_block h) nonce) ∧ pre_counter f nonce = pre_counter (gf_mul_block h) nonce.
Proof.
  intros Hn. unfold pre_counter. destruct (Nat.eqb_spec (length nonce) 12) as [H12|H12].
  - split; [|done]. split; [by rewrite length_app, H12|]. apply Forall_app. split; [done|]. rewrite !Forall_cons, Forall_nil. lia.
  - apply GHASH_eq, Forall_app. split; [by apply bytes_pad16|apply bytes_lengths].
Qed.

Lemma gcm_tag_eq E nonce a c t : bytes nonce → bytes a → bytes c → gcm_tag E f nonce a c t = gcm_tag E (gf_mul_block h) nonce a c t.
Proof.
  intros Hn Ha Hc. unfold gcm_tag. rewrite (proj2 (pre_counter_eq nonce Hn)). do 2 f_equal. apply GHASH_eq.
  apply Forall_app. split; [by apply bytes_pad16|]. apply Forall_app. split; [by apply bytes_pad16|apply bytes_lengths].
Qed.
End field.

(** ** The counter *)

(** Without a carry out of the last 32 bits the two increments are the same. *)
Lemma inc_block_inc32 c : block c → be_value (drop 12 c) + 1 < 2 ^ 32 → inc_block c = inc32 c.
Proof.
  intros [Hl Hb] Hv. unfold inc_block, inc32.
  assert (drop 8 c = take 4 (drop 8 c) ++ drop 12 c) as Hd by (rewrite <- (take_drop 4 (drop 8 c)) at 1; by rewrite drop_drop).
  assert (bytes (take 4 (drop 8 c)) ∧ bytes (drop 12 c) ∧ bytes (take 8 c)) as (Hb1 & Hb2 & Hb3)
    by (split; [by apply Forall_take, Forall_drop|split; [by apply Forall_drop|by apply Forall_take]]).
  pose proof (be_value_range _ Hb1) as H1. rewrite length_take, length_drop, Hl in H1. change (in_range 32 (be_value (take 4 (drop 8 c)))) in H1.
  pose proof (be_value_range _ Hb2) as H2. rewrite length_drop, Hl in H2. change (in_range 32 (be_value (drop 12 c))) in H2.
  assert (be_value (drop 8 c) = be_value (take 4 (drop 8 c)) * 2 ^ 32 + be_value (drop 12 c)) as He
    by (rewrite Hd at 1; rewrite be_value_app, length_drop, Hl; done).
  unfold in_range in *. rewrite (wrap_small 64) by (unfold in_range; lia). rewrite (wrap_small 32) by (unfold in_range; lia).
  rewrite (proj2 (Z.eqb_neq _ 0)) by lia. cbv zeta.
  replace (take 12 c) with (take 8 c ++ take 4 (drop 8 c)) by (rewrite <- (take_drop 8 (take 12 c)), take_take, skipn_firstn_comm; done).
  rewrite <- app_assoc. f_equal; apply be_value_inj.
  - by rewrite length_be_bytes, length_take, Hl.
  - apply bytes_be.
  - done.
  - apply be_value_bytes. pose proof (be_value_range _ Hb3) as H3. by rewrite length_take, Hl in H3.
  - by rewrite length_app, !length_be_bytes, length_take, length_drop, Hl.
  - apply bytes_be.
  - apply Forall_app. split; [done|apply bytes_be].
  - rewrite be_value_app, length_be_bytes, !be_value_bytes by (unfold in_range; lia). rewrite He. change (256 ^ Z.of_nat 4) with (2 ^ 32). lia.
Qed.

Lemma counter_block_eq j0 i :
  block j0 → be_value (drop 12 j0) + Z.of_nat i < 2 ^ 32 →
  counter_block inc_block j0 i = counter_block inc32 j0 i
  ∧ block (counter_block inc32 j0 i) ∧ be_value (drop 12 (counter_block inc32 j0 i)) = be_value (drop 12 j0) + Z.of_nat i.
Proof.
  intros Hj. induction i as [|i IH]; intros Hi; [split; [done|split; [done|change (counter_block inc32 j0 0) with j0; lia]]|].
  destruct IH as (He & Hb & Hv); [lia|]. unfold counter_block in *. rewrite !Nat.iter_succ, He, inc_block_inc32 by (done || lia).
  split; [done|]. revert Hb Hv. generalize (Nat.iter i inc32 j0). intros c Hb Hv. rewrite <- (inc_block_inc32 c) at 1 by (done || lia).
  split; [apply inc_block_block|]. unfold inc32. rewrite drop_app_length' by (rewrite length_take; destruct Hb; lia).
  pose proof (be_value_range _ (Forall_drop _ 12 _ (proj2 Hj))) as Hr. unfold in_range in Hr.
  rewrite (wrap_small 32) by (unfold in_range; lia). rewrite be_value_bytes; [lia|]. change (in_range 32 (be_value (drop 12 c) + 1)). unfold in_range; lia.
Qed.

Lemma GCTR_eq E j0 x :
  block j0 → be_value (drop 12 j0) + Z.of_nat ((length x + 15) / 16) < 2 ^ 32 → GCTR E inc_block j0 0 x = GCTR E inc32 j0 0 x.
Proof.
  intros Hj Hx. unfold GCTR. apply imap_ext. intros i b Hi. apply lookup_lt_Some in Hi. f_equal. cbn [Nat.add]. unfold stream.
  rewrite (proj1 (counter_block_eq j0 (S (i / 16)) Hj ltac:(
    pose proof (Nat.Div0.div_le_mono (i + 16) (length x + 15) 16 ltac:(lia)) as Hm;
    replace (i + 16)%nat with (i + 1 * 16)%nat in Hm by lia; rewrite Nat.div_add in Hm by lia; lia))). done.
Qed.

Lemma bytes_GCTR E inc j0 k x : (∀ b, block b → block (E b)) → (∀ i, block (counter_block inc j0 (S i))) → bytes x → bytes (GCTR E inc j0 k x).
Proof.
  intros HE Hc Hx. apply Forall_lookup. intros i v Hv. unfold GCTR in Hv. rewrite list_lookup_imap in Hv.
  destruct (x !! i) as [b|] eqn:Hb; [|done]. injection Hv as <-. pose proof (proj1 (Forall_lookup _ _) Hx i b Hb) as Hb'. cbv beta in Hb'.
  apply (lxor_range 8); [lia| |done]. unfold stream. destruct (HE _ (Hc ((k + i) / 16)%nat)) as [Hl HB].
  destruct (lookup_lt_is_Some_2 (E (counter_block inc j0 (S ((k + i) / 16)))) ((k + i) mod 16)) as [w Hw];
    [rewrite Hl; apply Nat.mod_upper_bound; lia|].
  rewrite (nth_lookup_Some _ _ _ _ Hw). exact (proj1 (Forall_lookup _ _) HB _ _ Hw).
Qed.

(** ** The properties *)

(** The lengths in bits fit in 32 bits and the counter needs no carry: with a nonce
    of 12 bytes any payload below 512 MiB does, see [fits_96]. *)
Definition fits (E : list Z → list Z) (nonce A P : list Z) (t : nat) : Prop :=
  bytes nonce ∧ bytes A ∧ bytes P ∧ (t <= 16)%nat ∧ 8 * Z.of_nat (length nonce) < 2 ^ 32
  ∧ 8 * Z.of_nat (length A) < 2 ^ 32 ∧ 8 * Z.of_nat (length P) < 2 ^ 32
  ∧ be_value (drop 12 (pre_counter (gf_mul_block (E (zeros 16))) nonce)) + Z.of_nat ((length P + 15) / 16) < 2 ^ 32.

Lemma fits_96 E nonce A P t :
  bytes nonce → bytes A → bytes P → (t <= 16)%nat → length nonce = 12%nat →
  8 * Z.of_nat (length A) < 2 ^ 32 → 8 * Z.of_nat (length P) < 2 ^ 32 → fits E nonce A P t.
Proof.
  intros Hn HA HP Ht Hl HlA HlP. unfold fits. rewrite Hl. repeat (split; [done || lia|]). unfold pre_counter. rewrite Hl. cbn [Nat.eqb].
  rewrite drop_app_length' by done. change (be_value [0; 0; 0; 1]) with 1.
  pose proof (Nat.Div0.mul_div_le (length P + 15) 16). lia.
Qed.

Section properties.
Context `{AesLaws} (ek : aes_key).
Abbreviation E := (aes_enc ek).
Abbreviation g := (gf_mul_block (E (zeros 16))).

(** [stream_ok] in the terms of the standard. *)
Lemma stream_standard mode na nonce t aads l last :
  let A := concat aads.*2 in
  let P := concat l ++ last in
  let C := if decide (mode = TEE_MODE_ENCRYPT) then GCTR E inc32 (pre_counter g nonce) 0 P else P in
  fits E nonce A P t →
  ∃ s s1 s2 s3 o o', __gcm_init ek mode na nonce t = inr s ∧ update_aads s aads = Ok s1
    ∧ update_payloads s1 ek mode l = Ok (s2, o) ∧ tag_len s2 = t
    ∧ operation_final s2 ek mode last = Ok (s3, o') ∧ tag_len s3 = t
    ∧ o ++ o' = GCTR E inc32 (pre_counter g nonce) 0 P ∧ bytes (o ++ o')
    ∧ take t (buf_tag s3) = gcm_tag E g nonce A C t.
Proof.
  intros A P C (Hn & HA & HP & Ht & Hln & HlA & HlP & Hctr).
  assert (block (E (zeros 16))) as Hh by apply aes_enc_block, block_zeros.
  destruct (pre_counter_eq _ Hh nonce Hn) as [Hj Hje].
  destruct (stream_ok ek mode na nonce t aads l last Hn) as (s & s1 & s2 & s3 & o & o' & H1 & H2 & H3 & H4 & H5 & H6 & H7 & H8);
    [by rewrite Hje|done..|]. fold A P in H7, H8. rewrite Hje in H7, H8.
  assert (bytes (o ++ o')) as Hbo.
  { rewrite H7. apply bytes_GCTR; [intros b; apply aes_enc_block|intros i; rewrite counter_block_S; apply inc_block_block|done]. }
  rewrite GCTR_eq in H7 by done. exists s, s1, s2, s3, o, o'. repeat (split; [done|]).
  rewrite H8. unfold text. rewrite GCTR_eq by done. fold C. apply gcm_tag_eq; [done..|].
  subst C. case_decide; [by rewrite <- H7|done].
Qed.

Lemma encrypt_stream_ok na nonce t aads l last room :
  fits E nonce (concat aads.*2) (concat l ++ last) t → (t <= room)%nat →
  encrypt_stream ek na nonce t aads l last room = Ok (gcm_encrypt E nonce (concat aads.*2) (concat l ++ last) t).
Proof.
  intros Hf Hr. destruct (stream_standard TEE_MODE_ENCRYPT na nonce t aads l last Hf)
    as (s & s1 & s2 & s3 & o & o' & H1 & H2 & H3 & H4 & H5 & H6 & H7 & _ & H8).
  unfold encrypt_stream. rewrite H1, H2. cbn [mbind outcome_bind]. rewrite H3. cbn [mbind outcome_bind].
  unfold __gcm_enc_final. rewrite H4, (proj2 (Nat.ltb_ge _ _) Hr), H5. cbn [mbind outcome_bind mret outcome_ret].
  rewrite H6, H8, H7. unfold gcm_encrypt. by rewrite decide_True by done.
Qed.

Lemma decrypt_stream_ok na nonce aads l last tag :
  let A := concat aads.*2 in
  let C := concat l ++ last in
  fits E nonce A C (length tag) →
  decrypt_stream ek na nonce (length tag) aads l last tag
  = Ok (GCTR E inc32 (pre_counter g nonce) 0 C, if gcm_decrypt E nonce A C tag then TEE_SUCCESS else TEE_ERROR_MAC_INVALID).
Proof.
  intros A C Hf. destruct (stream_standard TEE_MODE_DECRYPT na nonce (length tag) aads l last Hf)
    as (s & s1 & s2 & s3 & o & o' & H1 & H2 & H3 & H4 & H5 & H6 & H7 & _ & H8).
  rewrite decide_False in H8 by done. fold A C in H7, H8.
  unfold decrypt_stream. rewrite H1, H2. cbn [mbind outcome_bind]. rewrite H3. cbn [mbind outcome_bind].
  unfold __gcm_dec_final. rewrite H4, Nat.eqb_refl, H5. cbn [negb mbind outcome_bind mret outcome_ret].
  rewrite H8, H7. unfold gcm_decrypt. by case_decide.
Qed.

(** The calls for one buffer are a stream. *)
Definition one_aad (aad : option (Z * list Z)) : list (Z * list Z) := match aad with Some x => [x] | None => [] end.

Lemma enc_stream na nonce aad src room :
  internal_aes_gcm_enc ek na nonce aad src room = encrypt_stream ek na nonce room (one_aad aad) [] src room.
Proof.
  unfold internal_aes_gcm_enc, encrypt_stream. destruct (__gcm_init _ _ _ _ _) as [e|s]; [done|].
  destruct aad as [[a d]|]; cbn.
  - destruct (__gcm_update_aad s a d) as [s1| |]; [cbn|done..]. by destruct (__gcm_enc_final _ _ _ _) as [[o t]| |].
  - by destruct (__gcm_enc_final _ _ _ _) as [[o t]| |].
Qed.

Lemma dec_stream na nonce aad src tag :
  internal_aes_gcm_dec ek na nonce aad src tag = decrypt_stream ek na nonce (length tag) (one_aad aad) [] src tag.
Proof.
  unfold internal_aes_gcm_dec, decrypt_stream. destruct (__gcm_init _ _ _ _ _) as [e|s]; [done|].
  destruct aad as [[a d]|]; cbn.
  - destruct (__gcm_update_aad s a d) as [s1| |]; [cbn|done..]. by destruct (__gcm_dec_final _ _ _ _) as [[o t]| |].
  - by destruct (__gcm_dec_final _ _ _ _) as [[o t]| |].
Qed.

Lemma one_aad_data aad : concat (one_aad aad).*2 = from_option snd [] aad.
Proof. destruct aad as [[a d]|]; [|done]. apply app_nil_r. Qed.

Lemma GCTR_involutive inc j0 k x : GCTR E inc j0 k (GCTR E inc j0 k x) = x.
Proof.
  apply list_eq. intros i. unfold GCTR. rewrite !list_lookup_imap. destruct (x !! i) as [b|]; [|done].
  cbn. by rewrite <- Z.lxor_assoc, Z.lxor_nilpotent.
Qed.

Lemma fits_encrypted nonce A P t :
  fits E nonce A P t → let ct := gcm_encrypt E nonce A P t in length ct.2 = t ∧ fits E nonce A ct.1 t.
Proof.
  intros Hf. destruct (stream_standard TEE_MODE_ENCRYPT 0 nonce t [(0, A)] [] P) as (_ & _ & _ & _ & o & o' & _ & _ & _ & _ & _ & _ & H7 & Hb & _);
    [cbn; by rewrite app_nil_r|]. cbn [concat app] in H7. rewrite H7 in Hb. destruct Hf as (Hn & HA & HP & Ht & Hl & HlA & HlP & Hc).
  unfold fits, gcm_encrypt in *. cbn [fst snd]. unfold GCTR in *. rewrite length_imap. split; [|by repeat (split; [done|])].
  assert (block (E (zeros 16))) as Hh by apply aes_enc_block, block_zeros. unfold gcm_tag. rewrite length_take.
  assert (block (E (pre_counter g nonce))) as Hj by (by apply aes_enc_block, pre_counter_eq).
  unfold internal_aes_gcm_xor_block, TEE_AES_BLOCK_SIZE. rewrite length_xor_buf; [destruct Hj; lia|].
  unfold GHASH. rewrite length_ghash_n; [done|intros x; apply length_be_bytes|done].
Qed.

(** C19: AES-GCM encryption in as many calls as one likes, with additional data and
    payload cut anywhere and additional data at any address, gives the ciphertext and the
    tag that the authenticated encryption of SP 800-38D gives for the concatenations,
    whatever the block cipher, when the lengths and the counter fit; and so does
    internal_aes_gcm_enc() for one buffer. *)
Theorem gcm_encrypts na nonce t aads l last room :
  let A := concat aads.*2 in
  let P := concat l ++ last in
  fits E nonce A P t → (t <= room)%nat →
  encrypt_stream ek na nonce t aads l last room = Ok (gcm_encrypt E nonce A P t)
  ∧ ∀ aad, from_option snd [] aad = A → internal_aes_gcm_enc ek na nonce aad P t = Ok (gcm_encrypt E nonce A P t).
Proof.
  intros A P Hf Hr. split; [by apply encrypt_stream_ok|]. intros aad Ha. rewrite <- one_aad_data in Ha.
  rewrite enc_stream, <- Ha. apply encrypt_stream_ok; [by rewrite Ha|done].
Qed.

(** C20: decryption, in any number of calls or in one, gives TEE_SUCCESS exactly when
    the authenticated decryption of SP 800-38D accepts the tag, and the output is its
    plaintext then; otherwise it gives TEE_ERROR_MAC_INVALID. *)
Theorem gcm_decrypts na nonce aads l last tag :
  let A := concat aads.*2 in
  let C := concat l ++ last in
  fits E nonce A C (length tag) →
  ∃ p r, decrypt_stream ek na nonce (length tag) aads l last tag = Ok (p, r)
    ∧ (∀ aad, from_option snd [] aad = A → internal_aes_gcm_dec ek na nonce aad C tag = Ok (p, r))
    ∧ match gcm_decrypt E nonce A C tag with
      | Some p' => r = TEE_SUCCESS ∧ p = p'
      | None => r = TEE_ERROR_MAC_INVALID
      end.
Proof.
  intros A C Hf. do 2 eexists. split; [by apply decrypt_stream_ok|]. fold A C. split.
  - intros aad Ha. rewrite <- one_aad_data in Ha. rewrite dec_stream, decrypt_stream_ok; rewrite Ha; [done|exact Hf].
  - unfold gcm_decrypt. by case_decide.
Qed.

(** What encryption gives, decrypted with the same nonce and additional data in
    other pieces, is the payload and the tag is accepted. *)
Lemma gcm_roundtrip na na' nonce t aads aads' l l' last last' room c tag :
  fits E nonce (concat aads.*2) (concat l ++ last) t → (t <= room)%nat →
  encrypt_stream ek na nonce t aads l last room = Ok (c, tag) →
  concat aads'.*2 = concat aads.*2 → concat l' ++ last' = c →
  decrypt_stream ek na' nonce t aads' l' last' tag = Ok (concat l ++ last, TEE_SUCCESS).
Proof.
  intros Hf Hr He Ha Hc. rewrite encrypt_stream_ok in He by done. destruct (fits_encrypted _ _ _ _ Hf) as [Ht Hf'].
  assert (gcm_encrypt E nonce (concat aads.*2) (concat l ++ last) t = (c, tag)) as He' by congruence.
  cbv zeta in Ht, Hf'. rewrite He' in Ht, Hf'. cbn [fst snd] in Ht, Hf'. subst t.
  rewrite decrypt_stream_ok; rewrite Ha, Hc; [|exact Hf'].
  unfold gcm_encrypt in He'. injection He' as Hc' Htag. unfold gcm_decrypt. rewrite Hc' in Htag.
  rewrite (decide_True _ _ Htag). rewrite <- Hc', GCTR_involutive. done.
Qed.
End properties.

(** ** Examples

    With a block cipher that adds a key and turns the block round. *)
#[local] Instance ex_aes : Aes := {|
  aes_key := Z;
  aes_expand key := if (length key =? 16)%nat then inr (be_value key) else inl TEE_ERROR_BAD_PARAMETERS;
  aes_enc k b := reverse (internal_aes_gcm_xor_block b (be_bytes 16 k));
|}.
#[local] Instance ex_aes_laws : AesLaws.
Proof.
  intros k b Hb. cbn. destruct (xor_block_ok b (be_bytes 16 k) Hb (bytes_be _ _)) as [Hl HB]; [by rewrite length_be_bytes|].
  split; [etrans; [apply length_reverse|exact Hl]|by apply Forall_reverse].
Qed.

Definition ex_nonce : list Z := [1; 2; 3; 4; 5; 6; 7; 8; 9; 10; 11; 12].
Definition ex_aads : list (Z * list Z) := [(3, [20; 21; 22]); (16, Z.of_nat <$> seq 30 40)].
Definition ex_payload : list (list Z) := [[]; Z.of_nat <$> seq 100 5; Z.of_nat <$> seq 110 60].

Lemma bytes_dec (l : list Z) : forallb (λ b, (0 <=? b) && (b <? 256)) l = true → bytes l.
Proof.
  intros Hl. apply Forall_forall. intros b Hb. rewrite forallb_forall in Hl. specialize (Hl b). rewrite list_elem_of_In in Hb.
  specialize (Hl Hb). lia.
Qed.

Lemma ex_fits : fits (aes_enc (Aes := ex_aes) 77) ex_nonce (concat ex_aads.*2) (concat ex_payload ++ [1; 2; 3]) 12.
Proof.
  apply fits_96; [by apply bytes_dec|by apply bytes_dec|by apply bytes_dec|lia|done|by vm_compute|by vm_compute].
Qed.

Lemma gcm_encrypts_witness :
  encrypt_stream (H := ex_aes) 77 5 ex_nonce 12 ex_aads ex_payload [1; 2; 3] 16
  = Ok (gcm_encrypt (aes_enc (Aes := ex_aes) 77) ex_nonce (concat ex_aads.*2) (concat ex_payload ++ [1; 2; 3]) 12).
Proof. exact (proj1 (gcm_encrypts (H := ex_aes) 77 5 ex_nonce 12 ex_aads ex_payload [1; 2; 3] 16 ex_fits ltac:(lia))). Defined.

Lemma gcm_decrypts_witness :
  ∃ p r, decrypt_stream (H := ex_aes) 77 5 ex_nonce (length (zeros 12)) ex_aads ex_payload [1; 2; 3] (zeros 12) = Ok (p, r).
Proof.
  destruct (gcm_decrypts (H := ex_aes) 77 5 ex_nonce ex_aads ex_payload [1; 2; 3] (zeros 12) ex_fits) as (p & r & Hd & _).
  exists p, r. exact Hd.
Defined.

Definition ex_ct : list Z * list Z :=
  Eval vm_compute in gcm_encrypt (aes_enc (Aes := ex_aes) 77) ex_nonce (concat ex_aads.*2) (concat ex_payload ++ [1; 2; 3]) 12.

(** A nonce of 16 bytes after which the last 32 bits of the counter are all ones. *)
Definition carry_nonce : list Z := zeros 12 ++ [255; 255; 255; 127].

(** Internal_aes_gcm_inc_ctr() carries out of the last 32 bits of the block,
    where SP 800-38D does not, so with a nonce that is not 96 bits long and that happens
    to put the counter at its end the ciphertext is not that of the standard, although
    every other condition of [fits] holds. *)
Lemma gcm_counter_carries :
  let E := aes_enc (Aes := ex_aes) 128 in
  let j0 := pre_counter (gf_mul_block (E (zeros 16))) carry_nonce in
  bytes carry_nonce ∧ be_value (drop 12 j0) = 2 ^ 32 - 1
  ∧ inc_block j0 ≠ inc32 j0
  ∧ ∃ c tag, encrypt_stream (H := ex_aes) 128 0 carry_nonce 16 [] [] (zeros 16) 16 = Ok (c, tag)
    ∧ c ≠ (gcm_encrypt E carry_nonce [] (zeros 16) 16).1.
Proof.
  cbv zeta. split; [by apply bytes_dec|]. split; [by vm_compute|]. split; [by vm_compute|].
  do 2 eexists. split; [vm_compute; reflexivity|]. by vm_compute.
Qed.
