(* ===== verification/Pkcs11Attr.v ===== *)
(** * Serialized attributes of the PKCS#11 TA (ta/pkcs11/src)

    serializer.c (arguments of a command and growing buffers), attributes.c (the
    attributes of an object in one block of memory) and the predicates on
    identifiers of pkcs11_helpers.c and token_capabilities.c. A block is the list of
    its bytes; a read outside of it panics here, so what is proved not to panic
    reads only what it owns. The traces of debug builds are left out. *)
From S2P Require Import Prelude.

Local Open Scope Z_scope.

(** ** Identifiers (ta/pkcs11/include/pkcs11_ta.h) *)

Inductive pkcs11_rc :=
| PKCS11_CKR_GENERAL_ERROR
| PKCS11_CKR_FUNCTION_FAILED
| PKCS11_CKR_ARGUMENTS_BAD
| PKCS11_CKR_DEVICE_MEMORY
| PKCS11_CKR_KEY_FUNCTION_NOT_PERMITTED
| PKCS11_CKR_SESSION_READ_ONLY
| PKCS11_CKR_SESSION_HANDLE_INVALID
| PKCS11_CKR_TEMPLATE_INCOMPLETE
| PKCS11_CKR_TEMPLATE_INCONSISTENT
| PKCS11_CKR_BUFFER_TOO_SMALL
| PKCS11_CKR_SLOT_ID_INVALID
| PKCS11_CKR_OBJECT_HANDLE_INVALID
| PKCS11_CKR_OPERATION_NOT_INITIALIZED
| PKCS11_CKR_PIN_INCORRECT
| PKCS11_CKR_PIN_LEN_RANGE
| PKCS11_CKR_PIN_LOCKED
| PKCS11_CKR_SESSION_EXISTS
| PKCS11_CKR_SESSION_READ_ONLY_EXISTS
| PKCS11_CKR_SESSION_READ_WRITE_SO_EXISTS
| PKCS11_CKR_SIGNATURE_INVALID
| PKCS11_CKR_TOKEN_WRITE_PROTECTED
| PKCS11_CKR_USER_ALREADY_LOGGED_IN
| PKCS11_CKR_USER_NOT_LOGGED_IN
| PKCS11_CKR_USER_PIN_NOT_INITIALIZED
| PKCS11_CKR_USER_TYPE_INVALID
| PKCS11_CKR_USER_ANOTHER_ALREADY_LOGGED_IN
| PKCS11_RV_NOT_FOUND.

#[global] Instance pkcs11_rc_eq_dec : EqDecision pkcs11_rc.
Proof. solve_decision. Defined.

Abbreviation PKCS11_UNDEFINED_ID := 0xffffffff.

Abbreviation PKCS11_CKA_CLASS := 0x0000.
Abbreviation PKCS11_CKA_TOKEN := 0x0001.
Abbreviation PKCS11_CKA_PRIVATE := 0x0002.
Abbreviation PKCS11_CKA_LABEL := 0x0003.
Abbreviation PKCS11_CKA_APPLICATION := 0x0010.
Abbreviation PKCS11_CKA_VALUE := 0x0011.
Abbreviation PKCS11_CKA_OBJECT_ID := 0x0012.
Abbreviation PKCS11_CKA_TRUSTED := 0x0086.
Abbreviation PKCS11_CKA_KEY_TYPE := 0x0100.
Abbreviation PKCS11_CKA_SUBJECT := 0x0101.
Abbreviation PKCS11_CKA_ID := 0x0102.
Abbreviation PKCS11_CKA_SENSITIVE := 0x0103.
Abbreviation PKCS11_CKA_ENCRYPT := 0x0104.
Abbreviation PKCS11_CKA_DECRYPT := 0x0105.
Abbreviation PKCS11_CKA_WRAP := 0x0106.
Abbreviation PKCS11_CKA_UNWRAP := 0x0107.
Abbreviation PKCS11_CKA_SIGN := 0x0108.
Abbreviation PKCS11_CKA_SIGN_RECOVER := 0x0109.
Abbreviation PKCS11_CKA_VERIFY := 0x010a.
Abbreviation PKCS11_CKA_VERIFY_RECOVER := 0x010b.
Abbreviation PKCS11_CKA_DERIVE := 0x010c.
Abbreviation PKCS11_CKA_START_DATE := 0x0110.
Abbreviation PKCS11_CKA_END_DATE := 0x0111.
Abbreviation PKCS11_CKA_MODULUS := 0x0120.
Abbreviation PKCS11_CKA_MODULUS_BITS := 0x0121.
Abbreviation PKCS11_CKA_PUBLIC_EXPONENT := 0x0122.
Abbreviation PKCS11_CKA_PRIVATE_EXPONENT := 0x0123.
Abbreviation PKCS11_CKA_PRIME_1 := 0x0124.
Abbreviation PKCS11_CKA_PRIME_2 := 0x0125.
Abbreviation PKCS11_CKA_EXPONENT_1 := 0x0126.
Abbreviation PKCS11_CKA_EXPONENT_2 := 0x0127.
Abbreviation PKCS11_CKA_COEFFICIENT := 0x0128.
Abbreviation PKCS11_CKA_PUBLIC_KEY_INFO := 0x0129.
Abbreviation PKCS11_CKA_VALUE_LEN := 0x0161.
Abbreviation PKCS11_CKA_EXTRACTABLE := 0x0162.
Abbreviation PKCS11_CKA_LOCAL := 0x0163.
Abbreviation PKCS11_CKA_NEVER_EXTRACTABLE := 0x0164.
Abbreviation PKCS11_CKA_ALWAYS_SENSITIVE := 0x0165.
Abbreviation PKCS11_CKA_KEY_GEN_MECHANISM := 0x0166.
Abbreviation PKCS11_CKA_MODIFIABLE := 0x0170.
Abbreviation PKCS11_CKA_COPYABLE := 0x0171.
Abbreviation PKCS11_CKA_DESTROYABLE := 0x0172.
Abbreviation PKCS11_CKA_EC_PARAMS := 0x0180.
Abbreviation PKCS11_CKA_EC_POINT := 0x0181.
Abbreviation PKCS11_CKA_ALWAYS_AUTHENTICATE := 0x0202.
Abbreviation PKCS11_CKA_WRAP_WITH_TRUSTED := 0x0210.
Abbreviation PKCS11_CKA_WRAP_TEMPLATE := 0x40000211.
Abbreviation PKCS11_CKA_UNWRAP_TEMPLATE := 0x40000212.
Abbreviation PKCS11_CKA_DERIVE_TEMPLATE := 0x40000213.
Abbreviation PKCS11_CKA_MECHANISM_TYPE := 0x0500.
Abbreviation PKCS11_CKA_ALLOWED_MECHANISMS := 0x40000600.

Abbreviation PKCS11_CKO_DATA := 0x000.
Abbreviation PKCS11_CKO_PUBLIC_KEY := 0x002.
Abbreviation PKCS11_CKO_PRIVATE_KEY := 0x003.
Abbreviation PKCS11_CKO_SECRET_KEY := 0x004.
Abbreviation PKCS11_CKO_MECHANISM := 0x007.

Abbreviation PKCS11_CKK_RSA := 0x000.
Abbreviation PKCS11_CKK_EC := 0x003.
Abbreviation PKCS11_CKK_GENERIC_SECRET := 0x010.
Abbreviation PKCS11_CKK_AES := 0x01f.
Abbreviation PKCS11_CKK_MD5_HMAC := 0x027.
Abbreviation PKCS11_CKK_SHA_1_HMAC := 0x028.
Abbreviation PKCS11_CKK_SHA256_HMAC := 0x02b.
Abbreviation PKCS11_CKK_SHA384_HMAC := 0x02c.
Abbreviation PKCS11_CKK_SHA512_HMAC := 0x02d.
Abbreviation PKCS11_CKK_SHA224_HMAC := 0x02e.

Abbreviation PKCS11_CKM_AES_ECB := 0x01081.

Definition mem_Z (x : Z) (l : list Z) : bool := bool_decide (x ∈ l).

(** An id and the fixed size of its value, or 0. *)
Definition attr_ids : list (Z * Z) :=
  [(PKCS11_CKA_CLASS, 4); (PKCS11_CKA_KEY_TYPE, 4); (PKCS11_CKA_VALUE, 0); (PKCS11_CKA_VALUE_LEN, 4);
   (PKCS11_CKA_LABEL, 0); (PKCS11_CKA_WRAP_TEMPLATE, 0); (PKCS11_CKA_UNWRAP_TEMPLATE, 0);
   (PKCS11_CKA_DERIVE_TEMPLATE, 0); (PKCS11_CKA_START_DATE, 4); (PKCS11_CKA_END_DATE, 4);
   (PKCS11_CKA_OBJECT_ID, 0); (PKCS11_CKA_APPLICATION, 0); (PKCS11_CKA_MECHANISM_TYPE, 4);
   (PKCS11_CKA_ID, 0); (PKCS11_CKA_ALLOWED_MECHANISMS, 0); (PKCS11_CKA_EC_POINT, 0);
   (PKCS11_CKA_EC_PARAMS, 0); (PKCS11_CKA_MODULUS, 0); (PKCS11_CKA_MODULUS_BITS, 4);
   (PKCS11_CKA_PUBLIC_EXPONENT, 0); (PKCS11_CKA_PRIVATE_EXPONENT, 0); (PKCS11_CKA_PRIME_1, 0);
   (PKCS11_CKA_PRIME_2, 0); (PKCS11_CKA_EXPONENT_1, 0); (PKCS11_CKA_EXPONENT_2, 0);
   (PKCS11_CKA_COEFFICIENT, 0); (PKCS11_CKA_SUBJECT, 0); (PKCS11_CKA_PUBLIC_KEY_INFO, 0);
   (PKCS11_CKA_TOKEN, 1); (PKCS11_CKA_PRIVATE, 1); (PKCS11_CKA_TRUSTED, 1); (PKCS11_CKA_SENSITIVE, 1);
   (PKCS11_CKA_ENCRYPT, 1); (PKCS11_CKA_DECRYPT, 1); (PKCS11_CKA_WRAP, 1); (PKCS11_CKA_UNWRAP, 1);
   (PKCS11_CKA_SIGN, 1); (PKCS11_CKA_SIGN_RECOVER, 1); (PKCS11_CKA_VERIFY, 1);
   (PKCS11_CKA_VERIFY_RECOVER, 1); (PKCS11_CKA_DERIVE, 1); (PKCS11_CKA_EXTRACTABLE, 1);
   (PKCS11_CKA_LOCAL, 1); (PKCS11_CKA_NEVER_EXTRACTABLE, 1); (PKCS11_CKA_ALWAYS_SENSITIVE, 1);
   (PKCS11_CKA_MODIFIABLE, 1); (PKCS11_CKA_COPYABLE, 1); (PKCS11_CKA_DESTROYABLE, 1);
   (PKCS11_CKA_ALWAYS_AUTHENTICATE, 1); (PKCS11_CKA_WRAP_WITH_TRUSTED, 1); (PKCS11_UNDEFINED_ID, 0)].

Fixpoint attr_size_lookup (l : list (Z * Z)) (id : Z) : option Z :=
  match l with
  | [] => None
  | (i, s) :: l => if id =? i then Some s else attr_size_lookup l id
  end.

Definition valid_pkcs11_attribute_id (id size : Z) : bool :=
  match attr_size_lookup attr_ids id with
  | Some s => (s =? 0) || (size =? s)
  | None => false
  end.

Definition pkcs11_attr_is_type (id : Z) : bool :=
  mem_Z id [PKCS11_CKA_KEY_TYPE; PKCS11_CKA_MECHANISM_TYPE; PKCS11_CKA_KEY_GEN_MECHANISM].

Definition pkcs11_attr_class_is_key (class : Z) : bool :=
  mem_Z class [PKCS11_CKO_SECRET_KEY; PKCS11_CKO_PUBLIC_KEY; PKCS11_CKO_PRIVATE_KEY].

Definition key_type_is_symm_key (id : Z) : bool :=
  mem_Z id [PKCS11_CKK_AES; PKCS11_CKK_GENERIC_SECRET; PKCS11_CKK_MD5_HMAC; PKCS11_CKK_SHA_1_HMAC;
            PKCS11_CKK_SHA224_HMAC; PKCS11_CKK_SHA256_HMAC; PKCS11_CKK_SHA384_HMAC; PKCS11_CKK_SHA512_HMAC].

Definition key_type_is_asymm_key (id : Z) : bool := mem_Z id [PKCS11_CKK_EC; PKCS11_CKK_RSA].

(** The position in the enumeration boolprop_attr is that in the list. *)
Definition bpa : list Z :=
  [PKCS11_CKA_TOKEN; PKCS11_CKA_PRIVATE; PKCS11_CKA_TRUSTED; PKCS11_CKA_SENSITIVE; PKCS11_CKA_ENCRYPT;
   PKCS11_CKA_DECRYPT; PKCS11_CKA_WRAP; PKCS11_CKA_UNWRAP; PKCS11_CKA_SIGN; PKCS11_CKA_SIGN_RECOVER;
   PKCS11_CKA_VERIFY; PKCS11_CKA_VERIFY_RECOVER; PKCS11_CKA_DERIVE; PKCS11_CKA_EXTRACTABLE;
   PKCS11_CKA_LOCAL; PKCS11_CKA_NEVER_EXTRACTABLE; PKCS11_CKA_ALWAYS_SENSITIVE; PKCS11_CKA_MODIFIABLE;
   PKCS11_CKA_COPYABLE; PKCS11_CKA_DESTROYABLE; PKCS11_CKA_ALWAYS_AUTHENTICATE; PKCS11_CKA_WRAP_WITH_TRUSTED].

Fixpoint position (l : list Z) (x : Z) (pos : Z) : Z :=
  match l with
  | [] => -1
  | y :: l => if y =? x then pos else position l x (pos + 1)
  end.

Definition pkcs11_attr2boolprop_shift (attr : Z) : Z := position bpa attr 0.
Definition pkcs11_attr_is_boolean (id : Z) : bool := 0 <=? pkcs11_attr2boolprop_shift id.

Definition pkcs11_modes : list Z := [PKCS11_CKM_AES_ECB].
Definition mechanism_is_valid (id : Z) : bool := mem_Z id pkcs11_modes.

(** ** Memory

    The state says whether the next allocations succeed; when it is used up the
    heap decides by its size. *)
Abbreviation T := (M (list bool) pkcs11_rc).

(** A computation that does not allocate. *)
Definition lift {A} (x : outcome pkcs11_rc A) : T A := λ fs, (x, fs).

Definition le32 (v : Z) : list Z := le_bytes 4 (wrap 32 v).

(** The 32-bit number at [off]. *)
Definition read32 (b : list Z) (off : Z) : outcome pkcs11_rc Z :=
  if (0 <=? off) && (off + 4 <=? Z.of_nat (length b)) then Ok (le_value (take 4 (drop (Z.to_nat off) b))) else Panicked.

Definition read_bytes (b : list Z) (off n : Z) : outcome pkcs11_rc (list Z) :=
  if (0 <=? off) && (off + n <=? Z.of_nat (length b)) then Ok (take (Z.to_nat n) (drop (Z.to_nat off) b)) else Panicked.

Section heap.
Context `{Heap}.

(** TEE_Malloc() and TEE_Realloc(): whether they succeed. *)
Definition TEE_Malloc (n : Z) : T bool := λ fs,
  (Ok (heap_alloc (default true (head fs)) n), tail fs).

(** ** serializer.c *)

(** [buf] grows from [blen] bytes to [blen + length data]. *)
Definition serialize (buf : list Z) (blen : Z) (data : list Z) : T (list Z * Z) :=
  match add_overflow 64 blen (Z.of_nat (length data)) with
  | None => mthrow PKCS11_CKR_ARGUMENTS_BAD
  | Some nlen =>
    ok ← TEE_Malloc nlen;
    if (ok : bool) then mret (take (Z.to_nat blen) buf ++ data, nlen) else mthrow PKCS11_CKR_DEVICE_MEMORY
  end.

(** [start], [next]: addresses; [input]: the [size] bytes from [start] on. *)
Record serialargs := SerialArgs { start : Z; next : Z; size : Z; input : list Z }.

Definition serialargs_init (addr : Z) (inp : list Z) : serialargs :=
  SerialArgs addr addr (Z.of_nat (length inp)) inp.

(** The address of the chunk, [0] when it is empty. *)
Definition serialargs_get_ptr (args : serialargs) (n : Z) : outcome pkcs11_rc (Z * serialargs) :=
  match add_overflow 64 (next args) n with
  | None => Err PKCS11_CKR_ARGUMENTS_BAD
  | Some next_end =>
    if n =? 0 then Ok (0, args)
    else if start args + size args <? next_end then Err PKCS11_CKR_ARGUMENTS_BAD
    else Ok (next args, SerialArgs (start args) (next args + n) (size args) (input args))
  end.

(** The bytes at an address. *)
Definition chunk (args : serialargs) (ptr n : Z) : outcome pkcs11_rc (list Z) :=
  if n =? 0 then Ok [] else read_bytes (input args) (ptr - start args) n.

Definition serialargs_get (args : serialargs) (n : Z) : outcome pkcs11_rc (list Z * serialargs) :=
  '(src, args) ← serialargs_get_ptr args n;
  b ← chunk args src n;
  mret (b, args).

(** The new block: [buf0] and [n] bytes of the input; [None]: no block. *)
Definition alloc_and_get (args : serialargs) (buf0 : list Z) (n : Z) : T (option (list Z) * serialargs) :=
  match add_overflow 64 (Z.of_nat (length buf0)) n with
  | None => mthrow PKCS11_CKR_ARGUMENTS_BAD
  | Some sz =>
    if sz =? 0 then mret (None, args)
    else
      '(src, args') ← lift (serialargs_get_ptr args n);
      ok ← TEE_Malloc sz;
      if (ok : bool) then
        b ← lift (chunk args' src n);
        mret (Some (buf0 ++ b), args')
      else mthrow PKCS11_CKR_DEVICE_MEMORY
  end.

Definition serialargs_alloc_and_get (args : serialargs) (n : Z) : T (option (list Z) * serialargs) :=
  alloc_and_get args [] n.

(** The head is 8 bytes, the size of what follows at [at_]: 4 for one attribute (id
    and size), 0 for an object (size and count). *)
Definition alloc_get_sized (args : serialargs) (at_ : Z) : T (list Z * serialargs) :=
  '(hd, args1) ← lift (serialargs_get args 8);
  n ← lift (read32 hd at_);
  '(p, args2) ← alloc_and_get args1 hd n;
  mret (default [] p, args2).

Definition serialargs_alloc_get_one_attribute (args : serialargs) : T (list Z * serialargs) := alloc_get_sized args 4.
Definition serialargs_alloc_get_attributes (args : serialargs) : T (list Z * serialargs) := alloc_get_sized args 0.

Definition serialargs_remaining_bytes (args : serialargs) : bool := next args <? start args + size args.

(** ** attributes.c

    struct obj_attrs: [attrs_size] at 0, [attrs_count] at 4, the attributes from 8
    on, each an id, the size of the value and the value. *)
Definition init_attributes_head : T (list Z) :=
  ok ← TEE_Malloc 8;
  if (ok : bool) then mret (replicate 8 0) else mthrow PKCS11_CKR_DEVICE_MEMORY.

Definition add_attribute (o : list Z) (attribute : Z) (data : list Z) : T (list Z) :=
  let n := Z.of_nat (length data) in
  asz ← lift (read32 o 0);
  '(o, blen) ← serialize o (wrap 64 (8 + asz)) (le32 attribute);
  '(o, blen) ← serialize o blen (le32 n);
  '(o, blen) ← serialize o blen data;
  asz ← lift (read32 o 0);
  cnt ← lift (read32 o 4);
  mret (splice (splice o 0 (le32 (asz + 8 + n))) 4 (le32 (cnt + 1))).

(** The loop: [cur], [end_] are offsets; the result is where it stops and what it
    has found, offsets of values and sizes ([max = 0]: all are counted, none
    returned). *)
Fixpoint ptrs_loop (fuel : nat) (o : list Z) (cur end_ attribute : Z) (max found : nat) (acc : list (Z * Z))
    : outcome pkcs11_rc (Z * nat * list (Z * Z)) :=
  if cur <? end_ then
    match fuel with
    | O => Panicked
    | S fuel =>
      id ← read32 o cur;
      sz ← read32 o (cur + 4);
      let next_off := 8 + sz in
      if negb (id =? attribute) then ptrs_loop fuel o (cur + next_off) end_ attribute max found acc
      else
        let found := S found in
        if (max =? 0)%nat then ptrs_loop fuel o (cur + next_off) end_ attribute max found acc
        else
          let acc := acc ++ [(cur + 8, sz)] in
          if (found =? max)%nat then Ok (cur, found, acc)
          else ptrs_loop fuel o (cur + next_off) end_ attribute max found acc
    end
  else Ok (cur, found, acc).

(** [count]: the number of elements of the arrays. *)
Definition get_attribute_ptrs (o : list Z) (attribute : Z) (count : nat) : outcome pkcs11_rc (nat * list (Z * Z)) :=
  asz ← read32 o 0;
  '(cur, found, acc) ← ptrs_loop (S (length o)) o 8 (8 + asz) attribute count 0 [];
  if 8 + asz <? cur then Panicked else Ok (found, acc).

(** The value and its size. *)
Definition get_attribute_ptr (o : list Z) (attribute : Z) : outcome pkcs11_rc (list Z) :=
  '(count, found) ← get_attribute_ptrs o attribute 1;
  match count, found with
  | O, _ => Err PKCS11_RV_NOT_FOUND
  | S O, (p, sz) :: _ => read_bytes o p sz
  | _, _ => Err PKCS11_CKR_GENERAL_ERROR
  end.

(** [want]: [*attr_size], or [None] for a NULL [attr_size]. *)
Definition get_attribute (o : list Z) (attribute : Z) (want : option Z) : outcome pkcs11_rc (list Z) :=
  v ← get_attribute_ptr o attribute;
  match want with
  | Some n => if n =? Z.of_nat (length v) then Ok v else Err PKCS11_CKR_BUFFER_TOO_SMALL
  | None => Ok v
  end.

Definition get_bool (o : list Z) (attribute : Z) : outcome pkcs11_rc bool :=
  match get_attribute o attribute (Some 1) with
  | Ok v => Ok (negb (le_value v =? 0))
  | Err PKCS11_RV_NOT_FOUND => Ok false
  | Err _ | Panicked => Panicked
  end.

(** A 32-bit attribute, [PKCS11_UNDEFINED_ID] on error. *)
Definition get_id (o : list Z) (attribute : Z) : outcome pkcs11_rc Z :=
  match get_attribute o attribute (Some 4) with
  | Ok v => Ok (le_value v)
  | Err _ => Ok PKCS11_UNDEFINED_ID
  | Panicked => Panicked
  end.
Definition get_class (o : list Z) : outcome pkcs11_rc Z := get_id o PKCS11_CKA_CLASS.
Definition get_key_type (o : list Z) : outcome pkcs11_rc Z := get_id o PKCS11_CKA_KEY_TYPE.
Definition get_mechanism_type (o : list Z) : outcome pkcs11_rc Z := get_id o PKCS11_CKA_MECHANISM_TYPE.

Definition get_u32_attribute (o : list Z) (attribute : Z) : outcome pkcs11_rc Z :=
  v ← get_attribute o attribute (Some 4);
  mret (le_value v).
End heap.
