(* ===== verification/Pkcs11AttrProofs.v ===== *)
(** * Attributes: what the block of bytes means

    [obj l] is the block of the list [l] of ids and values. add_attribute() appends to
    the list and the lookups search it, without a panic; only memory can be missing. *)
From S2P Require Import Prelude Pkcs11Attr.

Local Open Scope Z_scope.

(** ** Computations that do not depend on what is left to allocate *)
Definition safe {A} (m : T A) (Q : A → Prop) (R : pkcs11_rc → Prop) : Prop :=
  ∀ fs, wp m (λ a _, Q a) (λ e _, R e) fs.

Lemma safe_ret {A} (a : A) (Q : A → Prop) R : Q a → safe (mret a) Q R.
Proof. by intros Ha fs. Qed.

Lemma safe_throw {A} e (Q : A → Prop) (R : pkcs11_rc → Prop) : R e → safe (mthrow e) Q R.
Proof. by intros Ha fs. Qed.

Lemma safe_bind {A B} (m : T A) (f : A → T B) Q Q' R :
  safe m Q' R → (∀ a, Q' a → safe (f a) Q R) → safe (m ≫= f) Q R.
Proof.
  intros Hm Hf fs. apply wp_bind. eapply wp_mono; [apply Hm| |done]. intros a fs' Ha. by apply Hf.
Qed.

Lemma safe_mono {A} (m : T A) (Q Q' : A → Prop) (R R' : pkcs11_rc → Prop) :
  safe m Q R → (∀ a, Q a → Q' a) → (∀ e, R e → R' e) → safe m Q' R'.
Proof. intros Hm HQ HR fs. eapply wp_mono; [apply Hm|eauto..]. Qed.

Lemma safe_lift {A} (x : outcome pkcs11_rc A) (Q : A → Prop) (R : pkcs11_rc → Prop) :
  match x with Ok a => Q a | Err e => R e | Panicked => False end → safe (lift x) Q R.
Proof. intros Hx fs. unfold wp, lift. by destruct x. Qed.

Lemma safe_ok {A B} (x : outcome pkcs11_rc A) a (f : A → T B) Q R :
  x = Ok a → safe (f a) Q R → safe (lift x ≫= f) Q R.
Proof. intros -> Hf. eapply (safe_bind _ _ _ (λ b, b = a)); [by apply safe_lift|]. by intros ? ->. Qed.

(** ** Blocks *)

Abbreviation attr := (Z * list Z)%type.

Definition ser1 (a : attr) : list Z := le32 a.1 ++ le32 (Z.of_nat (length a.2)) ++ a.2.
Definition ser (l : list attr) : list Z := l ≫= ser1.
Definition obj (l : list attr) : list Z :=
  le32 (Z.of_nat (length (ser l))) ++ le32 (Z.of_nat (length l)) ++ ser l.

Definition find_attr (id : Z) (l : list attr) : option (list Z) := (λ x, x.2.2) <$> list_find (λ a, a.1 = id) l.

Lemma length_le32 v : length (le32 v) = 4%nat.
Proof. apply length_le_bytes. Qed.

Lemma length_ser1 a : length (ser1 a) = (8 + length a.2)%nat.
Proof. unfold ser1. rewrite !length_app, !length_le32. lia. Qed.

Lemma ser_cons a l : ser (a :: l) = ser1 a ++ ser l.
Proof. done. Qed.

Lemma ser_app l l' : ser (l ++ l') = ser l ++ ser l'.
Proof. apply bind_app. Qed.

Lemma length_obj l : length (obj l) = (8 + length (ser l))%nat.
Proof. unfold obj. rewrite !length_app, !length_le32. lia. Qed.

(** A number read back. *)
Lemma read32_le32 a v b off :
  off = Z.of_nat (length a) → in_range 32 v → read32 (a ++ le32 v ++ b) off = Ok v.
Proof.
  intros -> Hv. unfold read32. rewrite !length_app, length_le32.
  rewrite (proj2 (Z.leb_le _ _)), (proj2 (Z.leb_le _ _)) by lia. cbn [andb]. f_equal.
  rewrite Nat2Z.id, drop_app_length, (take_app_length' (le32 v)) by (by rewrite length_le32).
  unfold le32. rewrite (wrap_small 32) by done. by apply le_value_bytes.
Qed.

Lemma splice_le32 a v w b n :
  n = length a → splice (a ++ le32 v ++ b) n (le32 w) = a ++ le32 w ++ b.
Proof.
  intros ->. unfold splice. rewrite take_app_length, length_le32. f_equal. f_equal.
  rewrite (app_assoc a), drop_app_length'; [done|]. by rewrite length_app, length_le32.
Qed.

Lemma read_bytes_app a v b off n :
  off = Z.of_nat (length a) → n = Z.of_nat (length v) → read_bytes (a ++ v ++ b) off n = Ok v.
Proof.
  intros -> ->. unfold read_bytes. rewrite !length_app.
  rewrite (proj2 (Z.leb_le _ _)), (proj2 (Z.leb_le _ _)) by lia. cbn [andb].
  by rewrite !Nat2Z.id, drop_app_length, take_app_length.
Qed.

Section heap.
Context `{Heap}.

(** The attributes fit in the heap. *)
Definition attrs_ok (l : list attr) : Prop :=
  Forall (λ a, in_range 32 a.1) l ∧ 8 + Z.of_nat (length (ser l)) <= heap_size.

Lemma attrs_ok_cons a l : attrs_ok (a :: l) →
  in_range 32 a.1 ∧ in_range 32 (Z.of_nat (length a.2)) ∧ attrs_ok l.
Proof.
  intros [Hi Hs]. apply Forall_cons in Hi as [Ha Hi]. rewrite ser_cons, length_app, length_ser1 in Hs.
  pose proof heap_size_bound. split; [done|]. split; [unfold in_range; lia|]. split; [done|lia].
Qed.

Lemma length_list_ser l : (8 * length l <= length (ser l))%nat.
Proof. induction l as [|a l IH]; [done|]. rewrite ser_cons, length_app, length_ser1. cbn. lia. Qed.

Lemma attrs_ok_head l : attrs_ok l → in_range 32 (Z.of_nat (length (ser l))) ∧ in_range 32 (Z.of_nat (length l)).
Proof. intros [_ Hs]. pose proof heap_size_bound. pose proof (length_list_ser l). unfold in_range. lia. Qed.

Lemma read_attrs_size l : attrs_ok l → read32 (obj l) 0 = Ok (Z.of_nat (length (ser l))).
Proof. intros Hl. apply (read32_le32 []); [done|]. by apply attrs_ok_head. Qed.

Lemma read_attrs_count l : attrs_ok l → read32 (obj l) 4 = Ok (Z.of_nat (length l)).
Proof. intros Hl. apply read32_le32; [by rewrite length_le32|]. by apply attrs_ok_head. Qed.

(** ** Building *)

Lemma safe_malloc n (Q : bool → Prop) R :
  (n <= heap_size → Q true) → Q false → safe (TEE_Malloc n) Q R.
Proof.
  intros Ht Hf fs. unfold wp, TEE_Malloc. destruct (heap_alloc _ _) eqn:He; [|done].
  unfold heap_alloc in He. bools. auto.
Qed.

Definition no_memory (e : pkcs11_rc) : Prop := e = PKCS11_CKR_DEVICE_MEMORY.

Lemma init_attributes_ok : safe init_attributes_head (λ o, o = obj [] ∧ attrs_ok []) no_memory.
Proof.
  eapply safe_bind; [apply (safe_malloc _ (λ b, b = true → 8 <= heap_size)); done|]. intros [] Hb; [|by apply safe_throw].
  apply safe_ret. split; [done|]. split; [constructor|]. cbn. specialize (Hb eq_refl). lia.
Qed.

Lemma serialize_ok buf blen data :
  blen = Z.of_nat (length buf) → blen <= heap_size → Z.of_nat (length data) < 2 ^ 32 →
  safe (serialize buf blen data)
    (λ r, r = (buf ++ data, Z.of_nat (length (buf ++ data))) ∧ Z.of_nat (length (buf ++ data)) <= heap_size) no_memory.
Proof.
  intros -> Hb Hd. pose proof heap_size_bound. unfold serialize.
  destruct (add_overflow 64 _ _) as [n|] eqn:Ho.
  - apply add_overflow_Some in Ho as [-> _].
    eapply safe_bind; [apply (safe_malloc _ (λ b, b = true → Z.of_nat (length buf) + Z.of_nat (length data) <= heap_size)); done|].
    intros [] Hm; [|by apply safe_throw]. apply safe_ret. rewrite Nat2Z.id, firstn_all, length_app, Nat2Z.inj_add. split; [done|auto].
  - unfold add_overflow in Ho. destruct (Z.ltb_spec (Z.of_nat (length buf) + Z.of_nat (length data)) (2 ^ 64)); [done|lia].
Qed.

Lemma add_attribute_ok l id d :
  attrs_ok l → in_range 32 id → Z.of_nat (length d) < 2 ^ 32 →
  safe (add_attribute (obj l) id d) (λ o, o = obj (l ++ [(id, d)]) ∧ attrs_ok (l ++ [(id, d)])) no_memory.
Proof.
  intros Hl Hid Hd. pose proof heap_size_bound as Hh. pose proof Hl as [Hf Hs]. pose proof (length_list_ser l).
  unfold add_attribute. apply (safe_ok _ _ _ _ _ (read_attrs_size l Hl)).
  rewrite (wrap_small 64) by (unfold in_range; lia).
  eapply safe_bind; [apply serialize_ok; [rewrite length_obj; lia|lia|rewrite length_le32; lia]|]. intros ? [-> Hs1].
  eapply safe_bind; [apply serialize_ok; [done|done|rewrite length_le32; lia]|]. intros ? [-> Hs2].
  eapply safe_bind; [apply serialize_ok; [done|done|lia]|]. intros ? [-> Hs3].
  assert (∀ x, obj l ++ x = le32 (Z.of_nat (length (ser l))) ++ le32 (Z.of_nat (length l)) ++ ser l ++ x) as Ho
    by (intros x; unfold obj; by rewrite <- !app_assoc).
  rewrite <- !app_assoc, Ho in *. eapply safe_ok.
  { apply (read32_le32 []); [done|]. by apply attrs_ok_head. }
  eapply safe_ok.
  { apply read32_le32; [by rewrite length_le32|]. by apply attrs_ok_head. }
  rewrite !length_app, !length_le32 in Hs3. apply safe_ret.
  assert (ser (l ++ [(id, d)]) = ser l ++ le32 id ++ le32 (Z.of_nat (length d)) ++ d) as Hser.
  { rewrite ser_app. unfold ser at 2. cbn. rewrite app_nil_r. done. }
  split.
  - change (splice (le32 ?v ++ ?b) 0 ?w) with (splice ([] ++ le32 v ++ b) 0 w). rewrite (splice_le32 []) by done. cbn [app].
    rewrite splice_le32 by (by rewrite length_le32). unfold obj. rewrite Hser, !length_app, !length_le32.
    cbn [app length]. f_equal; [f_equal; lia|]. f_equal. f_equal. lia.
  - split.
    + apply Forall_app. split; [done|]. by apply Forall_singleton.
    + rewrite Hser, !length_app, !length_le32. lia.
Qed.
(** ** Searching *)

(** The places of the attributes [id] in a list that begins at [cur]. *)
Fixpoint places (id cur : Z) (l : list attr) : list (Z * Z) :=
  match l with
  | [] => []
  | a :: l =>
    let n := Z.of_nat (length a.2) in
    (if a.1 =? id then [(cur + 8, n)] else []) ++ places id (cur + 8 + n) l
  end.

(** The loop from [cur] on, with [p] in front: it stops at the end, or early when
    it has found as many as it looks for. *)
Lemma ptrs_loop_ok id max fuel p l found acc :
  attrs_ok l → (length l < fuel)%nat → (max = 0 ∨ found < max)%nat →
  let end_ := Z.of_nat (length p) + Z.of_nat (length (ser l)) in
  let ps := places id (Z.of_nat (length p)) l in
  ∃ cur, cur <= end_ ∧
    ptrs_loop fuel (p ++ ser l) (Z.of_nat (length p)) end_ id max found acc
    = Ok (cur, if (max =? 0)%nat then (found + length ps)%nat else (found + length ps) `min` max,
          if (max =? 0)%nat then acc else acc ++ take (max - found) ps)%nat.
Proof.
  revert p l found acc. induction fuel as [|fuel IH]; intros p l found acc Hl Hfuel Hmax end_ ps; [lia|]. subst end_ ps.
  destruct l as [|[i d] l].
  - exists (Z.of_nat (length p)). split; [lia|]. cbn [ser mbind list_bind length places ptrs_loop].
    rewrite (proj2 (Z.ltb_ge _ _)) by lia. rewrite take_nil, app_nil_r, Nat.add_0_r.
    destruct (Nat.eqb_spec max 0); [done|]. by rewrite Nat.min_l by lia.
  - destruct (attrs_ok_cons _ _ Hl) as (Hi & Hd & Hl'). cbn [fst snd] in Hi, Hd.
    pose proof (length_ser1 (i, d)) as Hser1. cbn [snd] in Hser1. cbn [ptrs_loop]. rewrite ser_cons, length_app, Hser1.
    rewrite (proj2 (Z.ltb_lt _ _)) by lia. unfold ser1. cbn [fst snd]. rewrite <- !app_assoc.
    rewrite (read32_le32 p i _ _ eq_refl Hi), bind_Ok, (app_assoc p (le32 i)).
    rewrite (read32_le32 (p ++ le32 i) (Z.of_nat (length d))) by (rewrite ?length_app, ?length_le32; done || lia). rewrite bind_Ok.
    rewrite <- !app_assoc. cbn [places fst snd]. cbv zeta.
    specialize (IH (p ++ ser1 (i, d)) l). unfold ser1 in IH. cbn [fst snd] in IH. rewrite !length_app, !length_le32, <- !app_assoc in IH.
    replace (Z.of_nat (length p + (4 + (4 + length d)))) with (Z.of_nat (length p) + 8 + Z.of_nat (length d)) in IH by lia.
    replace (Z.of_nat (length p) + 8 + Z.of_nat (length d) + Z.of_nat (length (ser l)))
      with (Z.of_nat (length p) + Z.of_nat (8 + length d + length (ser l))) in IH by lia.
    rewrite !Z.add_assoc. cbn [length] in Hfuel.
    destruct (Z.eqb_spec i id) as [->|Hne]; cbn [negb app]; rewrite ?Z.eqb_refl.
    + destruct (Nat.eqb_spec max 0) as [->|Hmax0].
      * destruct (IH (S found) acc Hl' ltac:(lia) ltac:(lia)) as (cur & Hcur & ->). exists cur. split; [done|].
        cbn [Nat.eqb length]. do 2 f_equal. f_equal. lia.
      * destruct (Nat.eqb_spec (S found) max) as [Hf|Hf].
        -- exists (Z.of_nat (length p)). split; [lia|]. subst max. cbn [length]. rewrite Nat.min_r by lia.
           replace (S found - found)%nat with 1%nat by lia. done.
        -- destruct (IH (S found) (acc ++ [(Z.of_nat (length p) + 8, Z.of_nat (length d))]) Hl' ltac:(lia) ltac:(lia)) as (cur & Hcur & ->).
           exists cur. split; [done|]. cbn [length].
           replace (max - found)%nat with (S (max - S found)) by lia. cbn [take]. rewrite <- app_assoc. cbn [app].
           do 2 f_equal. f_equal. lia.
    + destruct (IH found acc Hl' ltac:(lia) Hmax) as (cur & Hcur & ->). by exists cur.
Qed.

Lemma find_attr_cons id a l : find_attr id (a :: l) = if decide (a.1 = id) then Some a.2 else find_attr id l.
Proof.
  unfold find_attr. cbn [list_find]. destruct (decide (a.1 = id)); [done|].
  by destruct (list_find _ l) as [[??]|].
Qed.

Lemma find_attr_app id l l' : find_attr id (l ++ l') = match find_attr id l with Some v => Some v | None => find_attr id l' end.
Proof. induction l as [|a l IH]; [done|]. rewrite <- app_comm_cons, !find_attr_cons. by case_decide. Qed.

Lemma find_attr_None id l : find_attr id l = None ↔ Forall (λ a, a.1 ≠ id) l.
Proof.
  induction l as [|a l IH]; [split; [constructor|done]|]. rewrite find_attr_cons, Forall_cons.
  case_decide; naive_solver.
Qed.

Lemma find_attr_Some id l v : find_attr id l = Some v → (id, v) ∈ l.
Proof.
  induction l as [|[i w] l IH]; [done|]. rewrite find_attr_cons. cbn. case_decide; [intros [= ->]; subst; left|].
  intros Hl. right. by apply IH.
Qed.

(** What a lookup finds: the value, or the code for "none". *)
Definition found (id : Z) (l : list attr) : outcome pkcs11_rc (list Z) :=
  match find_attr id l with Some v => Ok v | None => Err PKCS11_RV_NOT_FOUND end.

(** The first place is that of the first attribute. *)
Lemma places_find id p l :
  match find_attr id l with
  | Some v => ∃ q ps, places id (Z.of_nat (length p)) l = (q, Z.of_nat (length v)) :: ps ∧
                read_bytes (p ++ ser l) q (Z.of_nat (length v)) = Ok v
  | None => places id (Z.of_nat (length p)) l = []
  end.
Proof.
  revert p. induction l as [|[i d] l IH]; intros p; [done|]. rewrite find_attr_cons. cbn [fst snd places].
  destruct (decide (i = id)) as [->|Hne].
  - rewrite Z.eqb_refl. eexists _, _. split; [done|]. rewrite ser_cons. unfold ser1. cbn [fst snd].
    rewrite <- !app_assoc, (app_assoc p), (app_assoc (p ++ _)). apply read_bytes_app; [|done].
    rewrite !length_app, !length_le32. lia.
  - rewrite (proj2 (Z.eqb_neq i id)) by done. cbn [app]. specialize (IH (p ++ ser1 (i, d))).
    rewrite length_app, length_ser1 in IH. cbn [snd] in IH.
    replace (Z.of_nat (length p + (8 + length d))) with (Z.of_nat (length p) + 8 + Z.of_nat (length d)) in IH by lia.
    by rewrite ser_cons, (app_assoc p).
Qed.

(** The head of an object, before its attributes. *)
Lemma obj_head l : ∃ p, obj l = p ++ ser l ∧ length p = 8%nat.
Proof.
  eexists (_ ++ _). split; [unfold obj; by rewrite app_assoc|]. by rewrite length_app, !length_le32.
Qed.

Lemma get_attribute_ptrs_ok l id max :
  attrs_ok l →
  get_attribute_ptrs (obj l) id max
  = Ok (if (max =? 0)%nat then length (places id 8 l) else length (places id 8 l) `min` max,
        take max (places id 8 l))%nat.
Proof.
  intros Hl. unfold get_attribute_ptrs. rewrite read_attrs_size by done. rewrite bind_Ok.
  destruct (obj_head l) as (p & -> & Hp). pose proof (length_list_ser l).
  destruct (ptrs_loop_ok id max (S (length (p ++ ser l))) p l 0 [] Hl) as (cur & Hcur & Hloop);
    [rewrite length_app; lia|lia|].
  rewrite Hp in Hcur, Hloop. change (Z.of_nat 8) with 8 in Hcur, Hloop. rewrite Hloop, bind_Ok.
  rewrite (proj2 (Z.ltb_ge _ _)) by lia. rewrite Nat.sub_0_r. cbn [app Nat.add].
  destruct (Nat.eqb_spec max 0) as [->|]; [by rewrite take_0|done].
Qed.

Lemma get_attribute_ptr_ok l id : attrs_ok l → get_attribute_ptr (obj l) id = found id l.
Proof.
  intros Hl. unfold get_attribute_ptr, found. rewrite get_attribute_ptrs_ok by done. rewrite bind_Ok. cbn [Nat.eqb].
  destruct (obj_head l) as (p & -> & Hp). pose proof (places_find id p l) as Hpl. rewrite Hp in Hpl.
  change (Z.of_nat 8) with 8 in Hpl. destruct (find_attr id l) as [v|]; [|by rewrite Hpl].
  destruct Hpl as (q & ps & -> & Hr). cbn [length take]. rewrite Nat.min_r by lia. done.
Qed.

Lemma get_attribute_ok l id want : attrs_ok l →
  get_attribute (obj l) id want
  = match find_attr id l, want with
    | None, _ => Err PKCS11_RV_NOT_FOUND
    | Some v, Some n => if n =? Z.of_nat (length v) then Ok v else Err PKCS11_CKR_BUFFER_TOO_SMALL
    | Some v, None => Ok v
    end.
Proof.
  intros Hl. unfold get_attribute. rewrite get_attribute_ptr_ok by done. unfold found. by destruct (find_attr id l).
Qed.

(** The number in the first attribute [id], [d] when there is none of 4 bytes. *)
Definition id_of (id : Z) (l : list attr) : Z :=
  match find_attr id l with
  | Some v => if 4 =? Z.of_nat (length v) then le_value v else PKCS11_UNDEFINED_ID
  | None => PKCS11_UNDEFINED_ID
  end.

Lemma get_id_ok l id : attrs_ok l → get_id (obj l) id = Ok (id_of id l).
Proof.
  intros Hl. unfold get_id, id_of. rewrite get_attribute_ok by done. destruct (find_attr id l) as [v|]; [|done].
  by destruct (4 =? _).
Qed.

Definition bool_of (id : Z) (l : list attr) : bool :=
  match find_attr id l with Some v => negb (le_value v =? 0) | None => false end.

Lemma get_bool_ok l id : attrs_ok l → (∀ v, find_attr id l = Some v → length v = 1%nat) →
  get_bool (obj l) id = Ok (bool_of id l).
Proof.
  intros Hl Hv. unfold get_bool, bool_of. rewrite get_attribute_ok by done. destruct (find_attr id l) as [v|]; [|done].
  by rewrite (Hv v).
Qed.

(** ** With enough memory *)

Definition succeeds {A} (m : T A) (a : A) : Prop := m [] = (Ok a, []).

Lemma succeeds_bind {A B} (m : T A) a (f : A → T B) b : succeeds m a → succeeds (f a) b → succeeds (m ≫= f) b.
Proof. unfold succeeds, mbind, M_bind. by intros ->. Qed.

Lemma succeeds_lift {A B} (x : outcome pkcs11_rc A) a (f : A → T B) b : x = Ok a → succeeds (f a) b → succeeds (lift x ≫= f) b.
Proof. intros -> Hf. by apply (succeeds_bind _ a). Qed.

Lemma serialize_succeeds buf blen data :
  blen = Z.of_nat (length buf) → blen + Z.of_nat (length data) <= heap_size →
  succeeds (serialize buf blen data) (buf ++ data, Z.of_nat (length (buf ++ data))).
Proof.
  intros -> Hb. pose proof heap_size_bound. unfold serialize.
  rewrite (proj2 (add_overflow_Some 64 _ _ _)) by (split; [done|lia]).
  apply (succeeds_bind _ true).
  - unfold succeeds, TEE_Malloc, heap_alloc. cbn [head default tail andb]. by rewrite (proj2 (Z.leb_le _ _)) by lia.
  - cbn. by rewrite Nat2Z.id, firstn_all, length_app, Nat2Z.inj_add.
Qed.

Lemma add_attribute_succeeds l id d :
  attrs_ok (l ++ [(id, d)]) → ∃ o, succeeds (add_attribute (obj l) id d) o.
Proof.
  intros [Hi Hs]. pose proof heap_size_bound. rewrite ser_app, length_app in Hs. apply Forall_app in Hi as [Hi Hid].
  change (ser [(id, d)]) with (ser1 (id, d) ++ []) in Hs. rewrite app_nil_r, length_ser1 in Hs. cbn [snd] in Hs.
  assert (attrs_ok l) as Hl by (split; [done|lia]). eexists. unfold add_attribute.
  eapply succeeds_lift; [by apply read_attrs_size|]. rewrite (wrap_small 64) by (unfold in_range; lia).
  eapply succeeds_bind; [apply serialize_succeeds; rewrite ?length_obj, ?length_le32; lia|]. cbn beta iota.
  eapply succeeds_bind; [apply serialize_succeeds; rewrite ?length_app, ?length_obj, ?length_le32; lia|]. cbn beta iota.
  eapply succeeds_bind; [apply serialize_succeeds; rewrite ?length_app, ?length_obj, ?length_le32; lia|]. cbn beta iota.
  unfold obj. rewrite <- !app_assoc.
  eapply succeeds_lift; [apply (read32_le32 []); [done|by apply attrs_ok_head]|].
  eapply succeeds_lift; [apply read32_le32; [by rewrite length_le32|by apply attrs_ok_head]|]. done.
Qed.

(** ** A sequence of calls builds a list *)
Fixpoint add_all (o : list Z) (l : list attr) : T (list Z) :=
  match l with
  | [] => mret o
  | a :: l => o ← add_attribute o a.1 a.2; add_all o l
  end.
Definition build (l : list attr) : T (list Z) := o ← init_attributes_head; add_all o l.

Definition attr_ok (a : attr) : Prop := in_range 32 a.1 ∧ Z.of_nat (length a.2) < 2 ^ 32.

Lemma add_all_ok l l' : attrs_ok l → Forall attr_ok l' →
  safe (add_all (obj l) l') (λ o, o = obj (l ++ l') ∧ attrs_ok (l ++ l')) no_memory.
Proof.
  revert l. induction l' as [|[i d] l' IH]; intros l Hl Hl'; [rewrite app_nil_r; by apply safe_ret|].
  apply Forall_cons in Hl' as [[Hi Hd] Hl']. cbn [add_all fst snd].
  eapply safe_bind; [by apply add_attribute_ok|]. intros ? [-> Hl1]. specialize (IH _ Hl1 Hl').
  by rewrite <- app_assoc in IH.
Qed.

Lemma build_ok l : Forall attr_ok l → safe (build l) (λ o, o = obj l ∧ attrs_ok l) no_memory.
Proof.
  intros Hl. eapply safe_bind; [apply init_attributes_ok|]. intros ? [-> H0]. exact (add_all_ok [] l H0 Hl).
Qed.

Lemma safe_succeeds {A} (m : T A) (Q : A → Prop) R a : safe m Q R → succeeds m a → Q a.
Proof. intros Hm Ha. specialize (Hm []). unfold wp in Hm. by rewrite Ha in Hm. Qed.

Lemma attrs_ok_app_l l l' : attrs_ok (l ++ l') → attrs_ok l.
Proof. intros [Hi Hs]. apply Forall_app in Hi as [Hi _]. rewrite ser_app, length_app in Hs. split; [done|lia]. Qed.

Lemma add_all_succeeds l l' : Forall attr_ok l' → attrs_ok (l ++ l') → succeeds (add_all (obj l) l') (obj (l ++ l')).
Proof.
  revert l. induction l' as [|[i d] l' IH]; intros l Hl' Hl; [by rewrite app_nil_r|].
  apply Forall_cons in Hl' as [[Hi Hd] Hl']. cbn [add_all fst snd].
  replace (l ++ (i, d) :: l') with ((l ++ [(i, d)]) ++ l') in * by (by rewrite <- app_assoc).
  destruct (add_attribute_succeeds l i d (attrs_ok_app_l _ _ Hl)) as [o Ho].
  pose proof (safe_succeeds _ _ _ _ (add_attribute_ok l i d (attrs_ok_app_l _ _ (attrs_ok_app_l _ _ Hl)) Hi Hd) Ho) as [-> _].
  eapply succeeds_bind; [done|]. by apply IH.
Qed.

Lemma build_succeeds l : Forall attr_ok l → attrs_ok l → succeeds (build l) (obj l).
Proof.
  intros Hl Ho. apply (succeeds_bind _ (obj [])); [|by apply (add_all_succeeds [])].
  destruct Ho as [_ Ho]. unfold succeeds, init_attributes_head, TEE_Malloc, mbind, M_bind, heap_alloc. cbn [head default tail andb].
  by rewrite (proj2 (Z.leb_le _ _)) by lia.
Qed.

(** C25: The attributes of an object are a list. After init_attributes_head() and any
    sequence of add_attribute() the block is that of the list of the ids and values
    added, the only error is a failed allocation, and there is none while the heap can
    hold the block. A lookup then returns the value added first under its id, or says
    that there is none; counting finds all of them; nothing outside of the block is
    read. *)
Theorem attributes_are_a_list l :
  Forall attr_ok l →
  safe (build l)
    (λ o, ∀ id, get_attribute_ptr o id = found id l ∧
                get_attribute_ptrs o id 0 = Ok (length (filter (λ a, a.1 = id) l), []))
    (λ e, e = PKCS11_CKR_DEVICE_MEMORY) ∧
  (8 + Z.of_nat (length (ser l)) <= heap_size → succeeds (build l) (obj l)).
Proof.
  intros Hl. split.
  - eapply safe_mono; [by apply build_ok| |done]. intros o [-> Ho] id. split; [by apply get_attribute_ptr_ok|].
    rewrite get_attribute_ptrs_ok by done. cbn [Nat.eqb]. rewrite take_0. do 2 f_equal.
    generalize 8. clear. induction l as [|a l IH]; intros p; [done|]. cbn [places]. rewrite filter_cons, length_app, IH.
    destruct (Z.eqb_spec a.1 id); case_decide; done.
  - intros Hs. apply build_succeeds; [done|]. split; [|done]. eapply Forall_impl; [done|]. by intros a [Ha _].
Qed.

(** ** Arguments of a command *)

(** A cursor within its input, which does not wrap around the address space. *)
Definition args_ok (a : serialargs) : Prop :=
  0 <= start a <= next a ∧ next a <= start a + size a ∧ size a = Z.of_nat (length (input a)) ∧ start a + size a < 2 ^ 64.

Definition bad_args (e : pkcs11_rc) : Prop := e = PKCS11_CKR_ARGUMENTS_BAD ∨ no_memory e.

(** The bytes not read yet. *)
Definition rest (a : serialargs) : list Z := drop (Z.to_nat (next a - start a)) (input a).

Lemma get_ptr_ok a n : args_ok a → 0 <= n < 2 ^ 32 →
  match serialargs_get_ptr a n with
  | Ok (p, a') => n <= Z.of_nat (length (rest a)) ∧ args_ok a' ∧ rest a' = drop (Z.to_nat n) (rest a) ∧
                  start a' = start a ∧ input a' = input a ∧ next a' = next a + n ∧
                  chunk a' p n = Ok (take (Z.to_nat n) (rest a))
  | Err e => e = PKCS11_CKR_ARGUMENTS_BAD ∧ Z.of_nat (length (rest a)) < n
  | Panicked => False
  end.
Proof.
  intros (H1 & H2 & H3 & H4) Hn. unfold serialargs_get_ptr, rest. rewrite length_drop.
  destruct (add_overflow 64 _ _) as [e|] eqn:Ho.
  - apply add_overflow_Some in Ho as [-> _]. destruct (Z.eqb_spec n 0) as [->|Hn0].
    + rewrite drop_0. unfold chunk. cbn. repeat split; (done || lia).
    + destruct (Z.ltb_spec (start a + size a) (next a + n)).
      * split; [done|lia].
      * cbn [start next size input]. split; [lia|]. split; [unfold args_ok; cbn; lia|]. split.
        { rewrite drop_drop. f_equal. lia. }
        do 3 (split; [done|]). unfold chunk, read_bytes. cbn [start input].
        rewrite (proj2 (Z.eqb_neq n 0)), (proj2 (Z.leb_le 0 _)), (proj2 (Z.leb_le _ (Z.of_nat _))) by lia. done.
  - unfold add_overflow in Ho. destruct (Z.ltb_spec (next a + n) (2 ^ 64)); [done|]. split; [done|lia].
Qed.

Lemma serialargs_get_ok a n : args_ok a → 0 <= n < 2 ^ 32 →
  match serialargs_get a n with
  | Ok (b, a') => n <= Z.of_nat (length (rest a)) ∧ args_ok a' ∧ rest a' = drop (Z.to_nat n) (rest a) ∧
                  b = take (Z.to_nat n) (rest a)
  | Err e => e = PKCS11_CKR_ARGUMENTS_BAD ∧ Z.of_nat (length (rest a)) < n
  | Panicked => False
  end.
Proof.
  intros Ha Hn. unfold serialargs_get. pose proof (get_ptr_ok a n Ha Hn) as Hp.
  destruct (serialargs_get_ptr a n) as [[p a']|e|]; [|done|done]. destruct Hp as (Hl & Ha' & Hr & _ & _ & _ & Hc).
  cbn. rewrite Hc. cbn. done.
Qed.

Lemma alloc_and_get_ok a hd n : args_ok a → length hd = 8%nat → 0 <= n < 2 ^ 32 →
  safe (alloc_and_get a hd n)
    (λ r, r.1 = Some (hd ++ take (Z.to_nat n) (rest a)) ∧ n <= Z.of_nat (length (rest a)) ∧ args_ok r.2 ∧
          rest r.2 = drop (Z.to_nat n) (rest a))
    (λ e, no_memory e ∨ e = PKCS11_CKR_ARGUMENTS_BAD ∧ Z.of_nat (length (rest a)) < n).
Proof.
  intros Ha Hh Hn. unfold alloc_and_get. rewrite Hh. change (Z.of_nat 8) with 8.
  rewrite (proj2 (add_overflow_Some 64 _ _ _)) by (split; [done|lia]).
  rewrite (proj2 (Z.eqb_neq _ _)) by lia. pose proof (get_ptr_ok a n Ha Hn) as Hp.
  destruct (serialargs_get_ptr a n) as [[p a']|e|] eqn:Hg; [|destruct Hp as [-> ?]; apply (safe_bind _ _ _ (λ _, False)); [apply safe_lift; auto|done]|done].
  eapply safe_ok; [done|]. cbn beta iota.
  eapply safe_bind; [apply (safe_malloc _ (λ _, True)); done|]. intros [] _; [|apply safe_throw; by left].
  destruct Hp as (Hl & Ha' & Hr & _ & _ & _ & Hc). eapply safe_ok; [done|]. by apply safe_ret.
Qed.

(** The 32-bit number at [n] of the first 8 bytes. *)
Definition head_at (n : nat) (b : list Z) : Z := le_value (take 4 (drop n (take 8 b))).

Lemma head_at_range n b : (n <= 4)%nat → bytes_ok b → 0 <= head_at n b < 2 ^ 32.
Proof.
  intros Hn Hb. unfold head_at. pose proof (le_value_bound (take 4 (drop n (take 8 b)))) as Hv.
  assert (bytes_ok (take 4 (drop n (take 8 b)))) as Hb' by (by apply Forall_take, Forall_drop, Forall_take).
  specialize (Hv Hb'). assert (length (take 4 (drop n (take 8 b))) <= 4)%nat as Hl by (rewrite length_take; lia).
  split; [apply Hv|]. eapply Z.lt_le_trans; [apply Hv|]. change (2 ^ 32) with (256 ^ 4). apply Z.pow_le_mono_r; lia.
Qed.

(** The block at the cursor, which begins with 8 bytes and a size among them. *)
Lemma alloc_get_sized_ok a (at_ : nat) : args_ok a → bytes_ok (rest a) → (at_ <= 4)%nat →
  let n := 8 + head_at at_ (rest a) in
  safe (alloc_get_sized a (Z.of_nat at_))
    (λ r, n <= Z.of_nat (length (rest a)) ∧ r.1 = take (Z.to_nat n) (rest a) ∧ args_ok r.2 ∧
          rest r.2 = drop (Z.to_nat n) (rest a))
    (λ e, no_memory e ∨ e = PKCS11_CKR_ARGUMENTS_BAD ∧ Z.of_nat (length (rest a)) < n).
Proof.
  intros Ha Hb Hat n. pose proof (head_at_range at_ _ Hat Hb) as Hn. unfold alloc_get_sized.
  pose proof (serialargs_get_ok a 8 Ha) as Hg. destruct (serialargs_get a 8) as [[hd a1]|e|]; [| |destruct Hg; lia].
  2: { destruct Hg as [-> Hl]; [lia|]. apply (safe_bind _ _ _ (λ _, False)); [|done]. apply safe_lift. right. split; [done|lia]. }
  destruct Hg as (Hl & Ha1 & Hr1 & ->); [lia|]. eapply safe_ok; [done|]. cbn beta iota.
  change (Z.to_nat 8) with 8%nat in *.
  assert (length (take 8 (rest a)) = 8%nat) as Hhd by (rewrite length_take; lia).
  apply (safe_ok _ (head_at at_ (rest a))).
  { unfold read32, head_at. rewrite Hhd, (proj2 (Z.leb_le 0 _)), (proj2 (Z.leb_le _ (Z.of_nat 8))) by lia. cbn [andb]. by rewrite Nat2Z.id. }
  subst n. set (n := head_at at_ (rest a)) in *.
  eapply safe_bind; [apply (safe_mono _ _ _ _ _ (alloc_and_get_ok a1 (take 8 (rest a)) n Ha1 Hhd Hn)); [exact (λ _ H, H)|]|].
  { rewrite Hr1, length_drop. intros e [He|[-> He]]; [by left|right; split; [done|lia]]. }
  intros [p a2] (Hp & Hn' & Ha2 & Hr2). cbn [fst snd] in *. subst p.
  apply safe_ret. cbn [fst snd default]. rewrite Hr1, length_drop in Hn'. rewrite Hr1 in Hr2 |- *. rewrite drop_drop in Hr2.
  rewrite Z2Nat.inj_add by lia. change (Z.to_nat 8) with 8%nat. split; [lia|]. split; [|done].
  by rewrite take_take_drop.
Qed.

Lemma bytes_ok_le n v : bytes_ok (le_bytes n v).
Proof.
  revert v. induction n as [|n IH]; intros v; [constructor|]. constructor; [by apply Z.mod_pos_bound|apply IH].
Qed.

(** A template of a client: the bytes of the values are bytes. *)
Definition attrs_bytes (l : list attr) : Prop := Forall (λ a, bytes_ok a.2) l.

Lemma bytes_ok_ser l : attrs_bytes l → bytes_ok (ser l).
Proof.
  induction 1 as [|a l Ha _ IH]; [constructor|]. rewrite ser_cons.
  apply Forall_app. split; [|exact IH]. do 2 (apply Forall_app; split; [apply bytes_ok_le|]). exact Ha.
Qed.

Lemma head_at_obj l b : attrs_ok l → head_at 0 (obj l ++ b) = Z.of_nat (length (ser l)).
Proof.
  intros Hl. unfold head_at, obj. rewrite drop_0, take_take, <- app_assoc.
  rewrite (take_app_length' (le32 _)) by (by rewrite length_le32). unfold le32.
  rewrite wrap_small by (by apply attrs_ok_head). apply le_value_bytes. by apply attrs_ok_head.
Qed.

(** Attributes a client serializes are the ones the TA gets: with the block of a
    list at the cursor of a command's arguments serialargs_alloc_get_attributes()
    returns exactly that block, leaves the cursor behind it, and can fail for lack of
    memory only. *)
Lemma attributes_roundtrip a l b :
  args_ok a → attrs_ok l → attrs_bytes l → bytes_ok b → rest a = obj l ++ b →
  safe (serialargs_alloc_get_attributes a) (λ r, r.1 = obj l ∧ rest r.2 = b ∧ args_ok r.2) (λ e, e = PKCS11_CKR_DEVICE_MEMORY).
Proof.
  intros Ha Hl Hlb Hb Hr. pose proof (attrs_ok_head l Hl). eapply safe_mono; [apply (alloc_get_sized_ok a 0); [done| |lia]| |]; rewrite Hr.
  - apply Forall_app. split; [|done]. do 2 (apply Forall_app; split; [apply bytes_ok_le|]). by apply bytes_ok_ser.
  - rewrite head_at_obj by done. intros [o a'] (Hn & -> & Ha' & Hr'). cbn [fst snd] in *. rewrite Hr'.
    replace (Z.to_nat _) with (length (obj l)) by (rewrite length_obj; lia).
    by rewrite take_app_length, drop_app_length.
  - rewrite head_at_obj, length_app, length_obj by done. intros e [He|[_ He]]; [done|lia].
Qed.
End heap.

(** ** Witnesses *)

Lemma bytes_ok_dec l : forallb (λ b, (0 <=? b) && (b <? 256)) l = true → bytes_ok l.
Proof. intros Hl. apply Forall_forall. intros b Hb. rewrite forallb_forall in Hl. apply list_elem_of_In, Hl in Hb. bools. lia. Qed.

(** A data object with a label. *)
Definition label_attrs : list attr := [(PKCS11_CKA_CLASS, le32 PKCS11_CKO_DATA); (PKCS11_CKA_LABEL, [104; 105])].

Lemma label_attrs_ok : attrs_ok (H := heap_64k) label_attrs.
Proof. split; [|done]. repeat (constructor; [by split|]). constructor. Qed.

Lemma attributes_are_a_list_witness :
  Forall attr_ok label_attrs ∧
  safe (build (H := heap_64k) label_attrs)
    (λ o, ∀ id, get_attribute_ptr o id = found id label_attrs ∧
                get_attribute_ptrs o id 0 = Ok (length (filter (λ a, a.1 = id) label_attrs), []))
    (λ e, e = PKCS11_CKR_DEVICE_MEMORY) ∧
  build (H := heap_64k) label_attrs [] = (Ok (obj label_attrs), []) ∧
  found PKCS11_CKA_LABEL label_attrs = Ok [104; 105] ∧ found PKCS11_CKA_ID label_attrs = Err PKCS11_RV_NOT_FOUND.
Proof.
  assert (Forall attr_ok label_attrs) as Hl by (repeat (constructor; [by split|]); constructor).
  destruct (attributes_are_a_list (H := heap_64k) label_attrs Hl) as [Hs Hm].
  split; [done|]. split; [exact Hs|]. split; [apply Hm; vm_compute; discriminate|done].
Defined.

