(* ===== verification/Pkcs11Sanitize.v ===== *)
(** * ta/pkcs11/src/sanitize_object.c: templates of clients

    A client sends a list of attributes as bytes. sanitize_client_object() makes the
    block of an object of them. [mem] is the memory that can be read, of which the
    template is [size] bytes from [src] on; a read outside of [mem] panics. The
    recursion into templates within templates takes fuel. The traces of a refused
    template read memory too; [traces] is [true] for the code as it is, and [false]
    for the code without them, which the proofs compare it with. *)
From S2P Require Import Prelude Bitstring Pkcs11Attr.

Local Open Scope Z_scope.

Definition sanitize_consistent_class_and_type (attrs : list Z) : outcome pkcs11_rc bool :=
  class ← get_class attrs;
  if class =? PKCS11_CKO_DATA then Ok true
  else if class =? PKCS11_CKO_SECRET_KEY then type ← get_key_type attrs; mret (key_type_is_symm_key type)
  else if class =? PKCS11_CKO_MECHANISM then type ← get_mechanism_type attrs; mret (mechanism_is_valid type)
  else if (class =? PKCS11_CKO_PUBLIC_KEY) || (class =? PKCS11_CKO_PRIVATE_KEY) then
    type ← get_key_type attrs; mret (key_type_is_asymm_key type)
  else Ok false.

(** The attribute at [pos] of the [blen] bytes at [buf]: id, size, where its value
    is, and the position of the next. *)
Definition read_attr_advance (mem : list Z) (buf blen pos : Z) : outcome pkcs11_rc (Z * Z * Z * Z) :=
  match add_overflow 64 pos 8 with
  | None => Err PKCS11_CKR_FUNCTION_FAILED
  | Some data_pos =>
    if blen <? data_pos then Err PKCS11_CKR_FUNCTION_FAILED
    else
      id ← read32 mem (buf + pos);
      sz ← read32 mem (buf + pos + 4);
      match add_overflow 64 data_pos sz with
      | None => Err PKCS11_CKR_FUNCTION_FAILED
      | Some next_pos =>
        if blen <? next_pos then Err PKCS11_CKR_FUNCTION_FAILED else Ok (id, sz, buf + data_pos, next_pos)
      end
  end.

(** [found] and the value [v] are not in conflict. *)
Definition new_value (found v : Z) : bool := negb (negb (found =? PKCS11_UNDEFINED_ID) && negb (found =? v)).

(** The loop of sanitize_class_and_type(): [class_found] and [type_found]. *)
Fixpoint class_type_loop (fuel : nat) (mem : list Z) (src src_size pos class_found type_found : Z)
    : outcome pkcs11_rc (Z * Z) :=
  if pos =? src_size then Ok (class_found, type_found)
  else match fuel with
  | O => Panicked
  | S fuel =>
    '(id, sz, data, pos) ← read_attr_advance mem src src_size pos;
    if id =? PKCS11_CKA_CLASS then
      if negb (sz =? 4) then Err PKCS11_CKR_TEMPLATE_INCONSISTENT
      else
        class ← read32 mem data;
        if new_value class_found class then class_type_loop fuel mem src src_size pos class type_found
        else Err PKCS11_CKR_TEMPLATE_INCONSISTENT
    else if pkcs11_attr_is_type id then
      if negb (sz =? 4) then Err PKCS11_CKR_TEMPLATE_INCONSISTENT
      else
        type ← read32 mem data;
        if new_value type_found type then class_type_loop fuel mem src src_size pos class_found type
        else Err PKCS11_CKR_TEMPLATE_INCONSISTENT
    else class_type_loop fuel mem src src_size pos class_found type_found
  end.

Section heap.
Context `{Heap}.
Variable traces : bool.

(** ** Traces

    What __trace_attributes() and trace_attributes_from_api_head() read and allocate, not
    what they print; [prefix_len] is the length of the prefix. The traces are called in
    every build; only what prints is compiled out. *)
Section trace.
(** trace_attributes_from_api_head() of a template within: its prefix, where it is, its size. *)
Variable nested : Z → Z → Z → T unit.

Fixpoint trace_loop (k : nat) (prefix_len : Z) (mem : list Z) (cur end_ : Z) : T unit :=
  if cur <? end_ then
    match k with
    | O => mpanic
    | S k =>
      id ← lift (read32 mem cur);
      size ← lift (read32 mem (cur + 4));
      data ← lift (read_bytes mem (cur + 8) (Z.min size 4));
      data_u32 ← lift (read32 mem (cur + 8));
      (if mem_Z id [PKCS11_CKA_WRAP_TEMPLATE; PKCS11_CKA_UNWRAP_TEMPLATE; PKCS11_CKA_DERIVE_TEMPLATE]
       then nested (prefix_len + 4) (cur + 8) (end_ - cur) else mret ());;
      trace_loop k prefix_len mem (cur + 8 + size) end_
    end
  else mret ().

Definition __trace_attributes (prefix_len : Z) (mem : list Z) (src end_ : Z) : T unit :=
  ok ← TEE_Malloc (prefix_len + 1 + 4);
  if negb ok then mret () else trace_loop (S (length mem)) prefix_len mem src end_.
End trace.

Fixpoint trace_attributes_from_api_head (fuel : nat) (mem : list Z) (prefix_len ref size : Z) : T unit :=
  match fuel with
  | O => mpanic
  | S fuel =>
    attrs_size ← lift (read32 mem ref);
    attrs_count ← lift (read32 mem (ref + 4));
    if 8 + attrs_size <? size then mret ()
    else
      ok ← TEE_Malloc (prefix_len + 2);
      if negb ok then mret ()
      else __trace_attributes (trace_attributes_from_api_head fuel mem) (prefix_len + 1) mem (ref + 8) (ref + 8 + attrs_size)
  end.

(** ** The passes over the template *)

Definition sanitize_class_and_type (dst mem : list Z) (src src_size : Z) : T (list Z) :=
  r ← mtry (lift (class_type_loop (S (length mem)) mem src src_size 8 PKCS11_UNDEFINED_ID PKCS11_UNDEFINED_ID));
  match r with
  | inl e =>
    (if traces then trace_attributes_from_api_head (S (length mem)) mem 12 src src_size else mret ());;
    mthrow e
  | inr (class_found, type_found) =>
    dst ← (if negb (class_found =? PKCS11_UNDEFINED_ID) then add_attribute dst PKCS11_CKA_CLASS (le32 class_found) else mret dst);
    if negb (type_found =? PKCS11_UNDEFINED_ID) then add_attribute dst PKCS11_CKA_KEY_TYPE (le32 type_found) else mret dst
  end.

Abbreviation PKCS11_BOOLPROPS_MAX_COUNT := 64.

(** The loop of sanitize_boolprops(). *)
Fixpoint boolprops_loop (fuel : nat) (dst mem : list Z) (src src_size pos : Z) (seen_attrs boolprops : list Z) : T (list Z) :=
  if pos =? src_size then mret dst
  else match fuel with
  | O => mpanic
  | S fuel =>
    '(id, sz, data, pos) ← lift (read_attr_advance mem src src_size pos);
    let idx := pkcs11_attr2boolprop_shift id in
    if idx <? 0 then boolprops_loop fuel dst mem src src_size pos seen_attrs boolprops
    else if (PKCS11_BOOLPROPS_MAX_COUNT <=? idx) || negb (sz =? 1) then mthrow PKCS11_CKR_FUNCTION_FAILED
    else
      v ← lift (read_bytes mem data 1);
      let value := negb (le_value v =? 0) in
      if bit_test seen_attrs idx && negb (Bool.eqb value (bit_test boolprops idx)) then mthrow PKCS11_CKR_TEMPLATE_INCONSISTENT
      else
        let boolprops := if value then bit_set boolprops idx else boolprops in
        dst ← (if bit_test seen_attrs idx then mret dst else add_attribute dst id [Z.b2z value]);
        boolprops_loop fuel dst mem src src_size pos (bit_set seen_attrs idx) boolprops
  end.

Definition sanitize_boolprops (dst mem : list Z) (src src_size : Z) : T (list Z) :=
  let bits := replicate (Z.to_nat (bitstr_size PKCS11_BOOLPROPS_MAX_COUNT)) 0 in
  boolprops_loop (S (length mem)) dst mem src src_size 8 bits bits.

Section template.
(** sanitize_client_object() of a nested template: where it is, its size. *)
Variable nested : list Z → Z → Z → T (list Z).

Definition sanitize_indirect_attr (dst mem : list Z) (id sz data : Z) : T (list Z) :=
  class ← lift (get_class dst);
  if class =? PKCS11_UNDEFINED_ID then mthrow PKCS11_CKR_GENERAL_ERROR
  else if negb (mem_Z id [PKCS11_CKA_WRAP_TEMPLATE; PKCS11_CKA_UNWRAP_TEMPLATE; PKCS11_CKA_DERIVE_TEMPLATE]) then
    mthrow PKCS11_RV_NOT_FOUND
  else if pkcs11_attr_class_is_key class then mthrow PKCS11_CKR_TEMPLATE_INCONSISTENT
  else
    _ ← init_attributes_head;
    obj2 ← nested mem data sz;
    asz ← lift (read32 obj2 0);
    v ← lift (read_bytes obj2 0 (8 + asz));
    add_attribute dst id v.

(** The third loop, in sanitize_client_object(). *)
Fixpoint others_loop (fuel : nat) (dst mem : list Z) (src src_size pos : Z) : T (list Z) :=
  if pos =? src_size then mret dst
  else match fuel with
  | O => mpanic
  | S fuel =>
    '(id, sz, data, pos) ← lift (read_attr_advance mem src src_size pos);
    if (id =? PKCS11_CKA_CLASS) || pkcs11_attr_is_type id || pkcs11_attr_is_boolean id then
      others_loop fuel dst mem src src_size pos
    else
      r ← mtry (sanitize_indirect_attr dst mem id sz data);
      match r with
      | inr dst => others_loop fuel dst mem src src_size pos
      | inl e =>
        if negb (bool_decide (e = PKCS11_RV_NOT_FOUND)) then mthrow e
        else if negb (valid_pkcs11_attribute_id id sz) then mthrow PKCS11_CKR_TEMPLATE_INCONSISTENT
        else
          v ← lift (read_bytes mem data sz);
          dst ← add_attribute dst id v;
          others_loop fuel dst mem src src_size pos
      end
  end.
End template.

Fixpoint sanitize_client_object (fuel : nat) (mem : list Z) (src sz : Z) : T (list Z) :=
  match fuel with
  | O => mpanic
  | S fuel =>
    if sz <? 8 then mthrow PKCS11_CKR_ARGUMENTS_BAD
    else
      attrs_size ← lift (read32 mem src);
      match add_overflow 64 8 attrs_size with
      | None => mthrow PKCS11_CKR_ARGUMENTS_BAD
      | Some sz_from_hdr =>
        if sz <? sz_from_hdr then mthrow PKCS11_CKR_ARGUMENTS_BAD
        else
          dst ← init_attributes_head;
          dst ← sanitize_class_and_type dst mem src sz_from_hdr;
          dst ← sanitize_boolprops dst mem src sz_from_hdr;
          others_loop (sanitize_client_object fuel) (S (length mem)) dst mem src sz_from_hdr 8
      end
  end.
End heap.
