(* ===== verification/Pkcs11Traces.v ===== *)
(** * The traces of a refused template

    sanitize_class_and_type() traces the template it refuses, in every build. The sizes
    in it have not been checked then, so the trace can read outside of the memory.
    [trace_outside] says when it does; nothing else the traces do is seen: with them, the
    code gives what it gives without, or reads outside when it refuses a template. *)
From S2P Require Import Prelude Pkcs11Attr Pkcs11AttrProofs Pkcs11Sanitize.

Local Open Scope Z_scope.

Definition traced_within (id : Z) : bool :=
  mem_Z id [PKCS11_CKA_WRAP_TEMPLATE; PKCS11_CKA_UNWRAP_TEMPLATE; PKCS11_CKA_DERIVE_TEMPLATE].

(** The trace of the template at [ref] that is given as [size] bytes reads outside of
    [mem]: its head, or the head or the first 4 bytes of a value of an attribute that is
    reached by the sizes as they are. *)
Inductive trace_outside (mem : list Z) : Z → Z → Prop :=
| TO_head ref size : ¬ (0 <= ref ∧ ref + 8 <= Z.of_nat (length mem)) → trace_outside mem ref size
| TO_attrs ref size n : read32 mem ref = Ok n → size <= 8 + n → walk_outside mem (ref + 8) (ref + 8 + n) → trace_outside mem ref size
with walk_outside (mem : list Z) : Z → Z → Prop :=
| WO_attr cur end_ : cur < end_ → ¬ (0 <= cur ∧ cur + 12 <= Z.of_nat (length mem)) → walk_outside mem cur end_
| WO_nested cur end_ id : cur < end_ → read32 mem cur = Ok id → traced_within id = true →
    trace_outside mem (cur + 8) (end_ - cur) → walk_outside mem cur end_
| WO_next cur end_ n : cur < end_ → read32 mem (cur + 4) = Ok n → walk_outside mem (cur + 8 + n) end_ → walk_outside mem cur end_.

(** It does so of a template within the [len] bytes at [src]. *)
Definition template_outside (mem : list Z) (src len : Z) : Prop :=
  ∃ ref size, src <= ref ∧ ref + size <= src + len ∧ trace_outside mem ref size.

Lemma template_outside_within mem src len src' len' :
  src <= src' → src' + len' <= src + len → template_outside mem src' len' → template_outside mem src len.
Proof. intros Hs Hl (ref & size & H1 & H2 & Ht). exists ref, size. split; [lia|]. split; [lia|done]. Qed.

(** ** Memory *)

Lemma read32_bound mem off v : bytes_ok mem → read32 mem off = Ok v → 0 <= v ∧ 0 <= off ∧ off + 4 <= Z.of_nat (length mem).
Proof.
  intros Hm. unfold read32. destruct (_ && _) eqn:Hr; [|done]. bools. intros [= <-]. split; [|by split].
  apply le_value_bound, Forall_take, Forall_drop, Hm.
Qed.

Lemma read32_some mem off v : read32 mem off = Ok v → 0 <= off ∧ off + 4 <= Z.of_nat (length mem).
Proof. unfold read32. destruct (_ && _) eqn:Hr; [|done]. bools. by intros _. Qed.

Lemma read32_cases mem off : (∃ v, read32 mem off = Ok v) ∨ read32 mem off = Panicked ∧ ¬ (0 <= off ∧ off + 4 <= Z.of_nat (length mem)).
Proof. unfold read32. destruct (_ && _) eqn:Hr; [left; by eexists|right]. split; [done|]. apply andb_false_iff in Hr. lia. Qed.

Lemma read_bytes_cases mem off n : (∃ v, read_bytes mem off n = Ok v) ∨ read_bytes mem off n = Panicked ∧ ¬ (0 <= off ∧ off + n <= Z.of_nat (length mem)).
Proof. unfold read_bytes. destruct (_ && _) eqn:Hr; [left; by eexists|right]. split; [done|]. apply andb_false_iff in Hr. lia. Qed.

Lemma read_attr_within mem buf blen pos id sz data next : bytes_ok mem → 0 <= pos →
  read_attr_advance mem buf blen pos = Ok (id, sz, data, next) → buf <= data ∧ data + sz <= buf + blen ∧ 0 <= next.
Proof.
  intros Hm Hp. unfold read_attr_advance, add_overflow. destruct (_ <? 2 ^ 64); [|done]. destruct (Z.ltb_spec blen (pos + 8)); [done|].
  destruct (read32 mem (buf + pos)) as [i| |]; [|done|done]. rewrite bind_Ok.
  destruct (read32 mem (buf + pos + 4)) as [n| |] eqn:Hn; [|done|done]. rewrite bind_Ok. apply read32_bound in Hn as (Hn & _); [|done].
  destruct (_ <? 2 ^ 64); [|done]. destruct (Z.ltb_spec blen (pos + 8 + n)); [done|]. intros [= <- <- <- <-]. lia.
Qed.

(** ** The traces *)

Section heap.
Context `{Heap}.

(** An end that is no error, or a read outside. *)
Definition ends_or {A} (F : Prop) (m : T A) : Prop := ∀ fs, wpp m (λ _ _, True) (λ _ _, False) (λ _, F) fs.

Lemma ends_ret {A} F (a : A) : ends_or F (mret a).
Proof. done. Qed.

Lemma ends_malloc F n (f : bool → T unit) : (∀ b, ends_or F (f b)) → ends_or F (TEE_Malloc n ≫= f).
Proof. intros Hf fs. apply wpp_bind, Hf. Qed.

Lemma ends_read {A B} F (x : outcome pkcs11_rc A) (f : A → T B) : (∃ a, x = Ok a) ∨ x = Panicked ∧ F →
  (∀ a, x = Ok a → ends_or F (f a)) → ends_or F (lift x ≫= f).
Proof. intros [[a ->]|[-> HF]] Hf fs; [by apply Hf|done]. Qed.

Lemma ends_read32 {B} (F : Prop) mem off (f : Z → T B) : (¬ (0 <= off ∧ off + 4 <= Z.of_nat (length mem)) → F) →
  (∀ v, read32 mem off = Ok v → ends_or F (f v)) → ends_or F (lift (read32 mem off) ≫= f).
Proof. intros HF. apply ends_read. destruct (read32_cases mem off) as [|[? ?]]; [by left|right; auto]. Qed.

Lemma ends_bytes {B} (F : Prop) mem off n (f : list Z → T B) : (¬ (0 <= off ∧ off + n <= Z.of_nat (length mem)) → F) →
  (∀ v, ends_or F (f v)) → ends_or F (lift (read_bytes mem off n) ≫= f).
Proof. intros HF Hf. apply ends_read; [|by intros]. destruct (read_bytes_cases mem off n) as [|[? ?]]; [by left|right; auto]. Qed.

Lemma ends_seq F (m : T unit) (f : T unit) : ends_or F m → ends_or F f → ends_or F (m;; f).
Proof. intros Hm Hf fs. apply wpp_bind. eapply wpp_mono; [apply Hm| |done|done]. intros ? fs' _. apply Hf. Qed.

Lemma ends_mono {A} (F F' : Prop) (m : T A) : ends_or F m → (F → F') → ends_or F' m.
Proof. intros Hm HF fs. eapply wpp_mono; [apply Hm|done|done|]. intros ?. exact HF. Qed.

(** A walk that has more steps than bytes before it is not stopped. *)
Lemma trace_loop_ends nested mem end_ : bytes_ok mem → ∀ k prefix_len cur,
  0 <= cur → Z.of_nat (length mem) < cur + Z.of_nat k →
  (∀ p ref, cur + 8 <= ref → ends_or (trace_outside mem ref (end_ - (ref - 8))) (nested p ref (end_ - (ref - 8)))) →
  ends_or (walk_outside mem cur end_) (trace_loop nested k prefix_len mem cur end_).
Proof.
  intros Hm. induction k as [|k IH]; intros prefix_len cur Hc Hk Hn; cbn [trace_loop];
    (destruct (Z.ltb_spec cur end_) as [Hlt|]; [|exact (ends_ret _ tt)]).
  { intros fs. apply WO_attr; [done|lia]. }
  assert (¬ (cur + 12 <= Z.of_nat (length mem)) → walk_outside mem cur end_) as Hout by (intros; apply WO_attr; [done|lia]).
  apply ends_read32; [intros; apply Hout; lia|]. intros id Hid.
  apply ends_read32; [intros; apply Hout; lia|]. intros n Hnext.
  apply ends_bytes; [intros; apply Hout; lia|]. intros _.
  apply ends_read32; [intros; apply Hout; lia|]. intros _ _.
  pose proof (read32_bound _ _ _ Hm Hnext) as (Hn0 & _). apply ends_seq.
  - change (mem_Z id _) with (traced_within id). destruct (traced_within id) eqn:Ht; [|exact (ends_ret _ tt)].
    apply (ends_mono (trace_outside mem (cur + 8) (end_ - cur))); [|intros Ho; by apply (WO_nested _ _ _ id)].
    specialize (Hn (prefix_len + 4) (cur + 8) ltac:(lia)). by replace (end_ - (cur + 8 - 8)) with (end_ - cur) in Hn by lia.
  - apply (ends_mono (walk_outside mem (cur + 8 + n) end_)); [|intros Ho; by eapply WO_next]. apply IH; [lia|lia|]. intros p ref Href. apply Hn. lia.
Qed.

(** So with more fuel than memory, a trace ends, or reads outside. *)
Lemma trace_ends mem : bytes_ok mem → ∀ fuel prefix_len ref size, 0 <= ref → Z.of_nat (length mem) < ref + Z.of_nat fuel →
  ends_or (trace_outside mem ref size) (trace_attributes_from_api_head fuel mem prefix_len ref size).
Proof.
  intros Hm. induction fuel as [|fuel IH]; intros prefix_len ref size Hr Hf; cbn [trace_attributes_from_api_head].
  { intros fs. apply TO_head. lia. }
  apply ends_read32; [intros; apply TO_head; lia|]. intros n Hn.
  apply ends_read32; [intros; apply TO_head; lia|]. intros _ _.
  destruct (Z.ltb_spec (8 + n) size); [exact (ends_ret _ tt)|]. apply ends_malloc. intros [|]; [|exact (ends_ret _ tt)]. cbn [negb].
  unfold __trace_attributes. apply ends_malloc. intros [|]; [|exact (ends_ret _ tt)]. cbn [negb].
  apply (ends_mono (walk_outside mem (ref + 8) (ref + 8 + n))); [|intros Ho; by eapply TO_attrs]. apply trace_loop_ends; [done|lia|lia|]. intros p ref' Hr'. apply IH; lia.
Qed.

(** ** What the traces do when every allocation succeeds *)

Section trace.
Variable mem : list Z.

(** A computation that panics, and one that is no error. *)
Abbreviation panics m := (wpp m (λ _ _, False) (λ _ _, False) (λ _, True) []).
Abbreviation calm m := (wpp m (λ _ fs, fs = []) (λ _ _, False) (λ _, True) []).

Lemma calm_malloc n (f : bool → T unit) : (∀ b, calm (f b)) → calm (TEE_Malloc n ≫= f).
Proof. intros Hf. apply wpp_bind, Hf. Qed.

Lemma panics_malloc n (f : bool → T unit) : n <= heap_size → panics (f true) → panics (TEE_Malloc n ≫= f).
Proof. intros Hn Hf. apply wpp_bind. unfold wpp at 1. unfold TEE_Malloc, heap_alloc. cbn [head default tail].
  rewrite (proj2 (Z.leb_le n heap_size) Hn). exact Hf. Qed.

Lemma read_any {A B} (x : outcome pkcs11_rc A) (f : A → T B) Q : (∃ a, x = Ok a) ∨ x = Panicked →
  (∀ a, wpp (f a) Q (λ _ _, False) (λ _, True) []) → wpp (lift x ≫= f) Q (λ _ _, False) (λ _, True) [].
Proof. intros [[a ->]| ->] Hf; [exact (Hf a)|done]. Qed.

Lemma read32_any off : (∃ v, read32 mem off = Ok v) ∨ read32 mem off = Panicked.
Proof. destruct (read32_cases mem off) as [?|[? _]]; auto. Qed.

Lemma read_bytes_any off n : (∃ v, read_bytes mem off n = Ok v) ∨ read_bytes mem off n = Panicked.
Proof. destruct (read_bytes_cases mem off n) as [?|[? _]]; auto. Qed.

Lemma after_calm {A} (m : T unit) (f : T A) Q : calm m → wpp f Q (λ _ _, False) (λ _, True) [] → wpp (m;; f) Q (λ _ _, False) (λ _, True) [].
Proof. intros Hm Hf. apply wpp_bind. eapply wpp_mono; [exact Hm| |done|done]. by intros [] fs ->. Qed.

Lemma loop_calm nested end_ : (∀ p ref size, calm (nested p ref size)) → ∀ k prefix_len cur, calm (trace_loop nested k prefix_len mem cur end_).
Proof.
  intros Hn. induction k as [|k IH]; intros prefix_len cur; cbn [trace_loop]; (destruct (cur <? end_); [|done]); [done|].
  apply read_any; [apply read32_any|]. intros id. apply read_any; [apply read32_any|]. intros n.
  apply read_any; [apply read_bytes_any|]. intros _. apply read_any; [apply read32_any|]. intros _.
  apply after_calm; [by destruct (mem_Z id _)|apply IH].
Qed.

Lemma trace_calm fuel prefix_len ref size : calm (trace_attributes_from_api_head fuel mem prefix_len ref size).
Proof.
  revert prefix_len ref size. induction fuel as [|fuel IH]; intros prefix_len ref size; [done|]. cbn [trace_attributes_from_api_head].
  apply read_any; [apply read32_any|]. intros n. apply read_any; [apply read32_any|]. intros _.
  destruct (_ <? _); [done|]. apply calm_malloc. intros [|]; [|done]. apply calm_malloc. intros [|]; [|done]. by apply loop_calm.
Qed.

(** Then the trace panics when it reads outside. *)
Definition walk_panics (cur end_ : Z) : Prop := ∀ fuel k prefix_len, prefix_len + 4 + 6 * Z.of_nat fuel <= heap_size →
  panics (trace_loop (trace_attributes_from_api_head fuel mem) k prefix_len mem cur end_).
Definition trace_panics (ref size : Z) : Prop := ∀ fuel prefix_len, prefix_len + 6 * Z.of_nat fuel <= heap_size →
  panics (trace_attributes_from_api_head fuel mem prefix_len ref size).

Lemma panics_read32 {B} off (f : Z → T B) : (∀ v, read32 mem off = Ok v → panics (f v)) → panics (lift (read32 mem off) ≫= f).
Proof. intros Hf. destruct (read32_any off) as [[v Hv]|Hp]; [|by rewrite Hp]. rewrite Hv. by apply Hf. Qed.

Lemma head_outside_panics ref size : ¬ (0 <= ref ∧ ref + 8 <= Z.of_nat (length mem)) → trace_panics ref size.
Proof.
  intros Ho [|fuel] prefix_len _; [done|]. cbn [trace_attributes_from_api_head].
  apply panics_read32. intros n Hn. apply panics_read32. intros c Hc. exfalso. apply Ho.
  apply read32_some in Hn, Hc. lia.
Qed.

Lemma attrs_outside_panics ref size n : read32 mem ref = Ok n → size <= 8 + n → walk_panics (ref + 8) (ref + 8 + n) → trace_panics ref size.
Proof.
  intros Hn Hs Hw [|fuel] prefix_len Hl; [done|]. cbn [trace_attributes_from_api_head].
  apply panics_read32. intros m Hm. rewrite Hn in Hm. injection Hm as <-. apply panics_read32. intros _ _.
  destruct (Z.ltb_spec (8 + n) size); [lia|]. apply panics_malloc; [lia|]. cbn [negb]. apply panics_malloc; [lia|]. cbn [negb].
  apply Hw. lia.
Qed.

(** One turn of the loop. *)
Lemma turn_panics cur end_ : cur < end_ →
  (∀ fuel k prefix_len id n, prefix_len + 4 + 6 * Z.of_nat fuel <= heap_size →
     read32 mem cur = Ok id → read32 mem (cur + 4) = Ok n → 0 <= cur ∧ cur + 12 <= Z.of_nat (length mem) →
     panics ((if traced_within id then trace_attributes_from_api_head fuel mem (prefix_len + 4) (cur + 8) (end_ - cur) else mret ());;
             trace_loop (trace_attributes_from_api_head fuel mem) k prefix_len mem (cur + 8 + n) end_)) →
  walk_panics cur end_.
Proof.
  intros Hlt Ht fuel k prefix_len Hl. destruct k as [|k]; cbn [trace_loop]; rewrite (proj2 (Z.ltb_lt _ _)) by done; [done|].
  apply panics_read32. intros id Hid. apply panics_read32. intros n Hn. apply read_any; [apply read_bytes_any|]. intros _.
  apply panics_read32. intros u Hu. pose proof (read32_some _ _ _ Hid). pose proof (read32_some _ _ _ Hu).
  apply Ht; [done|done|done|lia].
Qed.

Fixpoint trace_outside_panics ref size (Ho : trace_outside mem ref size) : trace_panics ref size
with walk_outside_panics cur end_ (Ho : walk_outside mem cur end_) : walk_panics cur end_.
Proof.
  - destruct Ho as [ref size Ho|ref size n Hn Hs Hw]; [by apply head_outside_panics|].
    apply (attrs_outside_panics ref size n Hn Hs), walk_outside_panics, Hw.
  - destruct Ho as [cur end_ Hlt Ho|cur end_ id Hlt Hid Ht Ho|cur end_ n Hlt Hn Ho]; apply turn_panics; try done.
    + intros fuel k prefix_len id' n Hl Hid' _ _. rewrite Hid in Hid'. injection Hid' as <-. rewrite Ht.
      apply wpp_bind. eapply wpp_mono; [apply (trace_outside_panics _ _ Ho fuel (prefix_len + 4)); lia|done|done|done].
    + intros fuel k prefix_len id n' Hl _ Hn' _. rewrite Hn in Hn'. injection Hn' as <-.
      apply after_calm; [destruct (traced_within id); [apply trace_calm|done]|by apply (walk_outside_panics _ _ Ho)].
Qed.
End trace.

(** ** With and without the traces *)

(** The errors of the pass that traces. *)
Definition refusal (e : pkcs11_rc) : Prop := e = PKCS11_CKR_TEMPLATE_INCONSISTENT ∨ e = PKCS11_CKR_FUNCTION_FAILED.

(** [mt] does what [m] does, or panics for [P] when [m] refuses. After an error but the
    one that is handled, nothing is allocated that counts. *)
Definition sim {A} (P : Prop) (mt m : T A) : Prop := ∀ fs,
  match m fs with
  | (Ok a, fs') => mt fs = (Ok a, fs')
  | (Err e, fs') =>
    if decide (e = PKCS11_RV_NOT_FOUND) then mt fs = (Err e, fs')
    else fst (mt fs) = Err e ∨ fst (mt fs) = Panicked ∧ refusal e ∧ P
  | (Panicked, _) => fst (mt fs) = Panicked
  end.

Lemma sim_refl {A} P (m : T A) : sim P m m.
Proof. intros fs. destruct (m fs) as [[a|e|] fs']; [done| |done]. case_decide; [done|by left]. Qed.

Lemma sim_mono {A} (P P' : Prop) (mt m : T A) : sim P mt m → (P → P') → sim P' mt m.
Proof.
  intros Hm HP fs. specialize (Hm fs). destruct (m fs) as [[a|e|] fs']; [done| |done].
  case_decide; [done|]. destruct Hm as [|(? & ? & ?)]; auto.
Qed.

Lemma sim_bind {A B} P (mt m : T A) (ft f : A → T B) : sim P mt m → (∀ a, sim P (ft a) (f a)) → sim P (mt ≫= ft) (m ≫= f).
Proof.
  intros Hm Hf fs. specialize (Hm fs). unfold mbind, M_bind. destruct (m fs) as [[a|e|] fs'].
  - rewrite Hm. apply Hf.
  - case_decide; [by rewrite Hm|]. destruct (mt fs) as [[a|e'|] ft']; cbn in *; [by destruct Hm as [|[? _]]|..].
    + destruct Hm as [[= ->]|[? _]]; [by left|done].
    + destruct Hm as [|[_ ?]]; [done|by right].
  - by destruct (mt fs) as [[]].
Qed.

Lemma sim_lift {A B} P (x : outcome pkcs11_rc A) (ft f : A → T B) : (∀ a, x = Ok a → sim P (ft a) (f a)) → sim P (lift x ≫= ft) (lift x ≫= f).
Proof.
  intros Hf. destruct x as [a|e|]; [exact (Hf a eq_refl)| |by intros fs]. intros fs. unfold sim, lift, mbind, M_bind. case_decide; [done|by left].
Qed.

Lemma bind_at {A B} (m : T A) (f : A → T B) fs :
  (m ≫= f) fs = match m fs with (Ok a, fs') => f a fs' | (Err e, fs') => (Err e, fs') | (Panicked, fs') => (Panicked, fs') end.
Proof. reflexivity. Qed.

(** The error that is handled. *)
Lemma sim_try {A B} P (mt m : T A) (ft f : A → T B) (h : T B) (ht : T B) : sim P mt m → (∀ a, sim P (ft a) (f a)) → sim P ht h →
  sim P (r ← mtry mt; match r with inr a => ft a | inl e => if negb (bool_decide (e = PKCS11_RV_NOT_FOUND)) then mthrow e else ht end)
        (r ← mtry m; match r with inr a => f a | inl e => if negb (bool_decide (e = PKCS11_RV_NOT_FOUND)) then mthrow e else h end).
Proof.
  intros Hm Hf Hh fs. specialize (Hm fs). unfold mbind, M_bind, mtry. destruct (m fs) as [[a|e|] fs'].
  - rewrite Hm. apply Hf.
  - destruct (decide (e = PKCS11_RV_NOT_FOUND)) as [->|Hne]; [rewrite Hm; apply Hh|].
    rewrite bool_decide_false by done. cbn. rewrite decide_False by done.
    destruct (mt fs) as [[a|e'|] ft']; cbn in *; [by destruct Hm as [|[? _]]|..].
    + destruct Hm as [[= ->]|[? _]]; [|done]. rewrite bool_decide_false by done. by left.
    + destruct Hm as [|[_ ?]]; [done|by right].
  - by destruct (mt fs) as [[]].
Qed.

Lemma read_attr_refusal mem buf blen pos e : read_attr_advance mem buf blen pos = Err e → refusal e.
Proof.
  unfold read_attr_advance. repeat case_match; try done; try (by intros [= <-]; right). unfold read32.
  repeat (case_match; cbn [mbind outcome_bind]); try done; by intros [= <-]; right.
Qed.

(** An error after a trace. *)
Lemma sim_throw {A} (P : Prop) (m : T unit) e : refusal e → ends_or P m → sim P (m;; mthrow (A := A) e) (mret tt;; mthrow e).
Proof.
  intros He Hm fs. specialize (Hm fs). unfold wpp in Hm. change ((mret tt;; mthrow e) fs) with (@Err pkcs11_rc A e, fs).
  cbv beta iota. rewrite decide_False by (by destruct He as [-> | ->]). unfold mbind, M_bind.
  destruct (m fs) as [[[]|e'|] fs']; [by left|done|by right].
Qed.

Lemma class_type_refusal fuel mem src size pos c t e : class_type_loop fuel mem src size pos c t = Err e → refusal e.
Proof.
  revert pos c t. induction fuel as [|fuel IH]; intros pos c t; cbn [class_type_loop]; (destruct (pos =? size); [done|]); [done|].
  destruct (read_attr_advance mem src size pos) as [[[[id sz] data] next]|e'|] eqn:Hr; cbn [mbind outcome_bind]; [| |done].
  - unfold read32. repeat (case_match; cbn [mbind outcome_bind]); try done; try apply IH; by intros [= <-]; left.
  - intros [= <-]. by eapply read_attr_refusal.
Qed.

(** ** sanitize_client_object() *)

Lemma class_and_type_sim P dst mem src size : bytes_ok mem → 0 <= src → (trace_outside mem src size → P) →
  sim P (sanitize_class_and_type true dst mem src size) (sanitize_class_and_type false dst mem src size).
Proof.
  intros Hm Hsrc HP. unfold sanitize_class_and_type. intros fs. unfold mtry, lift. rewrite !bind_at. 
  destruct (class_type_loop _ _ _ _ _ _ _) as [[c t]|e|] eqn:Hc; cbn beta iota; [apply (sim_refl P _ fs)| |done].
  apply class_type_refusal in Hc. apply sim_throw; [done|]. eapply ends_mono; [|exact HP]. apply trace_ends; [done..|lia].
Qed.

Section nested.
Variables (P : Prop) (mem : list Z) (src size : Z) (nt n : list Z → Z → Z → T (list Z)).
Hypothesis Hmem : bytes_ok mem.
Hypothesis Hnested : ∀ data sz, src <= data → data + sz <= src + size → sim P (nt mem data sz) (n mem data sz).

Lemma indirect_sim dst id sz data : src <= data → data + sz <= src + size →
  sim P (sanitize_indirect_attr nt dst mem id sz data) (sanitize_indirect_attr n dst mem id sz data).
Proof.
  intros Hd Hs. unfold sanitize_indirect_attr. apply sim_lift. intros class _. repeat (case_match; [apply sim_refl|]).
  apply sim_bind; [apply sim_refl|]. intros _. apply sim_bind; [by apply Hnested|]. intros obj2. apply sim_refl.
Qed.

Lemma others_sim fuel dst pos : 0 <= pos → sim P (others_loop nt fuel dst mem src size pos) (others_loop n fuel dst mem src size pos).
Proof.
  revert dst pos. induction fuel as [|fuel IH]; intros dst pos Hp; cbn [others_loop]; (destruct (pos =? size); [apply sim_refl|]); [by intros fs|].
  apply sim_lift. intros [[[id sz] data] next] Hr. apply read_attr_within in Hr as (H1 & H2 & H3); [|done|done].
  destruct (_ || _); [by apply IH|]. apply sim_try; [by apply indirect_sim|by intros; apply IH|].
  destruct (negb _); [apply sim_refl|]. apply sim_lift. intros v _. apply sim_bind; [apply sim_refl|]. intros. by apply IH.
Qed.
End nested.

Lemma sanitize_sim fuel mem src len lo n : bytes_ok mem → 0 <= lo → lo <= src → src + len <= lo + n →
  sim (template_outside mem lo n) (sanitize_client_object true fuel mem src len) (sanitize_client_object false fuel mem src len).
Proof.
  intros Hm Hlo. revert src len. induction fuel as [|fuel IH]; intros src len Hs Hl; cbn [sanitize_client_object]; [by intros fs|].
  destruct (len <? 8); [apply sim_refl|]. apply sim_lift. intros asz Hasz. destruct (add_overflow _ _ _) as [sz|]; [|apply sim_refl].
  destruct (Z.ltb_spec len sz); [apply sim_refl|]. apply sim_bind; [apply sim_refl|]. intros dst.
  apply sim_bind; [apply class_and_type_sim; [done|lia|]; intros Ho; exists src, sz; split; [done|split; [lia|done]]|]. intros dst1.
  apply sim_bind; [apply sim_refl|]. intros dst2. apply others_sim; [done| |lia]. intros data sz' H1 H2. apply IH; lia.
Qed.

(** ** What holds without the traces holds with them, but for the reads *)

(** As [safe], with [F] when the code panics. *)
Definition safe_or {A} (F : Prop) (m : T A) (Q : A → Prop) (R : pkcs11_rc → Prop) : Prop :=
  ∀ fs, wpp m (λ a _, Q a) (λ e _, R e) (λ _, F) fs.

Lemma safe_or_sim {A} P (mt m : T A) Q R : sim P mt m → safe m Q R → safe_or (P ∧ ∃ e, refusal e ∧ R e) mt Q R.
Proof.
  intros Hs Hm fs. specialize (Hs fs). specialize (Hm fs). unfold wp in Hm. unfold wpp. destruct (m fs) as [[a|e|] fs']; [by rewrite Hs| |done].
  case_decide; [by rewrite Hs|]. destruct (mt fs) as [[a|e'|] ft]; cbn in Hs; [by destruct Hs as [|[? _]]|..].
  - by destruct Hs as [[= ->]|[? _]].
  - destruct Hs as [|(_ & He & HP)]; [done|]. split; [done|by exists e].
Qed.

Lemma safe_or_mono {A} (F F' : Prop) (m : T A) (Q Q' : A → Prop) (R R' : pkcs11_rc → Prop) :
  safe_or F m Q R → (∀ a, Q a → Q' a) → (∀ e, R e → R' e) → (F → F') → safe_or F' m Q' R'.
Proof. intros Hm HQ HR HF fs. eapply wpp_mono; [apply Hm|auto..]. Qed.

Lemma safe_or_bind {A B} (F : Prop) (m : T A) (f : A → T B) (Q' : A → Prop) Q R :
  safe_or F m Q' R → (∀ a, Q' a → safe (f a) Q R) → safe_or F (m ≫= f) Q R.
Proof.
  intros Hm Hf fs. apply wpp_bind. eapply wpp_mono; [apply Hm| |done|done]. intros a fs' Ha. by apply wpp_wp, Hf.
Qed.
End heap.
