(* ===== verification/Pkcs11SanitizeProofs.v ===== *)
(** * Templates: what sanitize_client_object() makes of the bytes of a client

    [decode] reads the bytes as a list of attributes; [sanitize_spec] is the object
    as a function of that list. The code computes it for every input, and fails otherwise
    only for lack of memory, or because the trace of a template it refuses reads outside
    of the memory. The lemmas are about the code without the traces, the properties about
    the code with them. *)
From S2P Require Import Prelude Bitstring Pkcs11Attr Pkcs11AttrProofs Pkcs11Sanitize Pkcs11Traces.

Local Open Scope Z_scope.

(** ** The specification *)

(** The first attribute of [b] and what follows it. *)
Definition next_attr (b : list Z) : option (attr * list Z) :=
  if (length b <? 8)%nat then None
  else
    let n := Z.to_nat (le_value (take 4 (drop 4 b))) in
    if (length b <? 8 + n)%nat then None else Some ((le_value (take 4 b), take n (drop 8 b)), drop (8 + n) b).

(** The attributes up to the first that is not whole, and whether all are. *)
Fixpoint decode (fuel : nat) (b : list Z) : list attr * bool :=
  match fuel, b with
  | _, [] => ([], true)
  | O, _ => ([], false)
  | S fuel, _ =>
    match next_attr b with
    | None => ([], false)
    | Some (a, b) => let '(l, whole) := decode fuel b in (a :: l, whole)
    end
  end.

Fixpoint class_type_spec (l : list attr) (class type : Z) : outcome pkcs11_rc (Z * Z) :=
  match l with
  | [] => Ok (class, type)
  | (id, d) :: l =>
    if id =? PKCS11_CKA_CLASS then
      if negb (length d =? 4)%nat || negb (new_value class (le_value d)) then Err PKCS11_CKR_TEMPLATE_INCONSISTENT
      else class_type_spec l (le_value d) type
    else if pkcs11_attr_is_type id then
      if negb (length d =? 4)%nat || negb (new_value type (le_value d)) then Err PKCS11_CKR_TEMPLATE_INCONSISTENT
      else class_type_spec l class (le_value d)
    else class_type_spec l class type
  end.

(** The value of a boolean as it is stored. *)
Definition bool_value (d : list Z) : list Z := [Z.b2z (negb (le_value d =? 0))].

Fixpoint bools_spec (l bs : list attr) : outcome pkcs11_rc (list attr) :=
  match l with
  | [] => Ok bs
  | (id, d) :: l =>
    if negb (pkcs11_attr_is_boolean id) then bools_spec l bs
    else if negb (length d =? 1)%nat then Err PKCS11_CKR_FUNCTION_FAILED
    else match find_attr id bs with
         | Some v => if bool_decide (v = bool_value d) then bools_spec l bs else Err PKCS11_CKR_TEMPLATE_INCONSISTENT
         | None => bools_spec l (bs ++ [(id, bool_value d)])
         end
  end.

Definition is_template (id : Z) : bool :=
  mem_Z id [PKCS11_CKA_WRAP_TEMPLATE; PKCS11_CKA_UNWRAP_TEMPLATE; PKCS11_CKA_DERIVE_TEMPLATE].
Definition is_other (id : Z) : bool :=
  negb ((id =? PKCS11_CKA_CLASS) || pkcs11_attr_is_type id || pkcs11_attr_is_boolean id).

(** An attribute of an object of class [class] that is none of the above. *)
Definition other_spec (nested : list Z → outcome pkcs11_rc (list attr)) (class id : Z) (d : list Z)
    : outcome pkcs11_rc (list Z) :=
  if class =? PKCS11_UNDEFINED_ID then Err PKCS11_CKR_GENERAL_ERROR
  else if is_template id then
    if pkcs11_attr_class_is_key class then Err PKCS11_CKR_TEMPLATE_INCONSISTENT
    else l ← nested d; mret (obj l)
  else if valid_pkcs11_attribute_id id (Z.of_nat (length d)) then Ok d
  else Err PKCS11_CKR_TEMPLATE_INCONSISTENT.

Fixpoint others_spec (nested : list Z → outcome pkcs11_rc (list attr)) (class : Z) (l : list attr)
    : outcome pkcs11_rc (list attr) :=
  match l with
  | [] => Ok []
  | (id, d) :: l =>
    if is_other id then
      d ← other_spec nested class id d;
      l ← others_spec nested class l;
      mret ((id, d) :: l)
    else others_spec nested class l
  end.

Definition id_attr (id v : Z) : list attr := if v =? PKCS11_UNDEFINED_ID then [] else [(id, le32 v)].

Fixpoint sanitize_spec (fuel : nat) (b : list Z) : outcome pkcs11_rc (list attr) :=
  match fuel with
  | O => Panicked
  | S fuel =>
    if (length b <? 8)%nat || (Z.of_nat (length b) <? 8 + head_at 0 b) then Err PKCS11_CKR_ARGUMENTS_BAD
    else
      let body := take (Z.to_nat (head_at 0 b)) (drop 8 b) in
      let '(l, whole) := decode (length body) body in
      '(class, type) ← class_type_spec l PKCS11_UNDEFINED_ID PKCS11_UNDEFINED_ID;
      if negb whole then Err PKCS11_CKR_FUNCTION_FAILED
      else
        bs ← bools_spec l [];
        os ← others_spec (sanitize_spec fuel) class l;
        mret (id_attr PKCS11_CKA_CLASS class ++ id_attr PKCS11_CKA_KEY_TYPE type ++ bs ++ os)
  end.

Lemma id_attr_none id v : v = PKCS11_UNDEFINED_ID → id_attr id v = [].
Proof. by intros ->. Qed.

Lemma id_attr_some id v : v ≠ PKCS11_UNDEFINED_ID → id_attr id v = [(id, le32 v)].
Proof. intros Hv. unfold id_attr. by rewrite (proj2 (Z.eqb_neq _ _)). Qed.

(** ** Memory *)

(** The bytes [b] are at [off]. *)
Definition at_ (mem : list Z) (off : Z) (b : list Z) : Prop := ∃ p s, mem = p ++ b ++ s ∧ off = Z.of_nat (length p).

Lemma at_drop mem off b n : (n <= length b)%nat → at_ mem off b → at_ mem (off + Z.of_nat n) (drop n b).
Proof.
  intros Hn (p & s & -> & ->). exists (p ++ take n b), s. split.
  - by rewrite <- (app_assoc p), (app_assoc (take n b)), take_drop.
  - rewrite length_app, length_take. lia.
Qed.

Lemma at_take mem off b n : at_ mem off b → at_ mem off (take n b).
Proof. intros (p & s & -> & ->). exists p, (drop n b ++ s). by rewrite (app_assoc (take n b)), take_drop. Qed.

Lemma at_length mem off b : at_ mem off b → (length b <= length mem)%nat.
Proof. intros (p & s & -> & ->). rewrite !length_app. lia. Qed.

Lemma at_bytes mem off b : bytes_ok mem → at_ mem off b → bytes_ok b.
Proof. intros Hm (p & s & -> & ->). unfold bytes_ok in *. by apply Forall_app in Hm as [_ [? _]%Forall_app]. Qed.

Lemma read32_at mem off b : at_ mem off b → (4 <= length b)%nat → read32 mem off = Ok (le_value (take 4 b)).
Proof.
  intros (p & s & -> & ->) Hb. unfold read32. rewrite !length_app.
  rewrite (proj2 (Z.leb_le 0 _)), (proj2 (Z.leb_le _ (Z.of_nat _))) by lia. cbn [andb].
  by rewrite Nat2Z.id, drop_app_length, take_app_le by lia.
Qed.

Lemma read_bytes_at mem off b n : at_ mem off b → n = Z.of_nat (length b) → read_bytes mem off n = Ok b.
Proof. intros (p & s & -> & ->) ->. by apply read_bytes_app. Qed.

Lemma le_value_4 b : bytes_ok b → 0 <= le_value (take 4 b) < 2 ^ 32.
Proof.
  intros Hb. pose proof (le_value_bound (take 4 b) (Forall_take _ _ _ Hb)) as Hv. split; [apply Hv|].
  eapply Z.lt_le_trans; [apply Hv|]. change (2 ^ 32) with (256 ^ 4). rewrite length_take. apply Z.pow_le_mono_r; lia.
Qed.

Lemma next_attr_Some b a b' : bytes_ok b → next_attr b = Some (a, b') →
  (length b = 8 + length a.2 + length b')%nat ∧ a.1 = le_value (take 4 b) ∧ Z.of_nat (length a.2) = le_value (take 4 (drop 4 b)) ∧
  a.2 = take (length a.2) (drop 8 b) ∧ b' = drop (8 + length a.2) b ∧ in_range 32 a.1 ∧ bytes_ok a.2 ∧ bytes_ok b'.
Proof.
  intros Hb. unfold next_attr. destruct (Nat.ltb_spec (length b) 8); [done|].
  destruct (Nat.ltb_spec (length b) (8 + Z.to_nat (le_value (take 4 (drop 4 b))))); [done|]. intros [= <- <-]. cbn [fst snd].
  pose proof (le_value_4 (drop 4 b) (Forall_drop _ _ _ Hb)). pose proof (le_value_4 b Hb).
  rewrite length_drop, length_take, length_drop, Nat.min_l by lia.
  split; [lia|]. split; [done|]. split; [lia|]. split; [done|]. split; [done|]. split; [done|].
  split; [by apply Forall_take, Forall_drop|by apply Forall_drop].
Qed.

(** ** Booleans in strings of bits *)

Lemma position_lookup l x p : 0 <= p → 0 <= position l x p →
  p <= position l x p < p + Z.of_nat (length l) ∧ l !! Z.to_nat (position l x p - p) = Some x.
Proof.
  revert p. induction l as [|y l IH]; intros p Hp; cbn [position]; [lia|].
  destruct (Z.eqb_spec y x) as [->|Hne]; intros Hpos.
  - rewrite Z.sub_diag. cbn. split; [lia|done].
  - destruct (IH (p + 1) ltac:(lia) Hpos) as [Hb Hl]. cbn [length]. split; [lia|].
    replace (Z.to_nat (position l x (p + 1) - p)) with (S (Z.to_nat (position l x (p + 1) - (p + 1)))) by lia. exact Hl.
Qed.

Lemma shift_range id : pkcs11_attr_is_boolean id = true → 0 <= pkcs11_attr2boolprop_shift id < 22.
Proof.
  unfold pkcs11_attr_is_boolean. intros Hid. bools. by apply (position_lookup bpa id 0) in Hid as [Hid _].
Qed.

Lemma shift_inj id id' : pkcs11_attr_is_boolean id = true → pkcs11_attr_is_boolean id' = true →
  pkcs11_attr2boolprop_shift id = pkcs11_attr2boolprop_shift id' → id = id'.
Proof.
  unfold pkcs11_attr_is_boolean. intros Hid Hid' He. bools.
  apply (position_lookup bpa id 0) in Hid as [_ Hl]; [|done]. apply (position_lookup bpa id' 0) in Hid' as [_ Hl']; [|done].
  unfold pkcs11_attr2boolprop_shift in He. rewrite He in Hl. congruence.
Qed.

(** The strings hold what has been stored so far. *)
Record bits_of (bs : list attr) (seen props : list Z) : Prop := {
  bo_seen : length seen = 8%nat;
  bo_props : length props = 8%nat;
  bo_bits id : pkcs11_attr_is_boolean id = true →
    bit_test seen (pkcs11_attr2boolprop_shift id) = bool_decide (is_Some (find_attr id bs)) ∧
    (bit_test props (pkcs11_attr2boolprop_shift id) = true → is_Some (find_attr id bs)) ∧
    ∀ v, find_attr id bs = Some v → v = [Z.b2z (bit_test props (pkcs11_attr2boolprop_shift id))];
}.

Lemma bits_of_nil : bits_of [] (replicate 8 0) (replicate 8 0).
Proof.
  split; [done|done|]. intros id Hid. pose proof (shift_range id Hid) as Hr.
  assert (bit_test (replicate 8 0) (pkcs11_attr2boolprop_shift id) = false) as ->; [|by split].
  unfold bit_test, byte_at. set (i := Z.to_nat _). destruct (replicate 8 0 !! i) as [x|] eqn:Hx; [|done].
  by apply lookup_replicate in Hx as [-> _].
Qed.

Lemma bit_test_set l i j : length l = 8%nat → 0 <= i < 22 → 0 <= j → bit_test (bit_set l i) j = (j =? i) || bit_test l j.
Proof. intros Hl Hi Hj. rewrite !bit_test_spec by done. apply bit_set_spec; [unfold has_bit; rewrite Hl; lia|done]. Qed.

(** A boolean seen for the first time. *)
Lemma bits_of_snoc bs seen props id (value : bool) :
  pkcs11_attr_is_boolean id = true → find_attr id bs = None → bits_of bs seen props →
  let i := pkcs11_attr2boolprop_shift id in
  bits_of (bs ++ [(id, [Z.b2z value])]) (bit_set seen i) (if value then bit_set props i else props).
Proof.
  intros Hid Hf [Hs Hp Hb] i. pose proof (shift_range id Hid) as Hi. split.
  - unfold bit_set. by rewrite length_upd_byte.
  - destruct value; [|done]. unfold bit_set. by rewrite length_upd_byte.
  - intros id' Hid'. pose proof (shift_range id' Hid') as Hi'. destruct (Hb id' Hid') as (Hb1 & Hb2 & Hb3).
    destruct (Hb id Hid) as (Hc1 & Hc2 & _). fold i in Hc1, Hc2. rewrite find_attr_app, find_attr_cons. cbn [fst snd].
    rewrite bit_test_set by (done || lia).
    assert (bit_test (if value then bit_set props i else props) (pkcs11_attr2boolprop_shift id')
            = (pkcs11_attr2boolprop_shift id' =? i) && value || bit_test props (pkcs11_attr2boolprop_shift id')) as ->.
    { destruct value; [rewrite bit_test_set by (done || lia); by rewrite andb_true_r|by rewrite andb_false_r]. }
    destruct (Z.eqb_spec (pkcs11_attr2boolprop_shift id') i) as [He|Hne].
    + apply shift_inj in He as ->; [|done|done]. rewrite Hf, decide_True, bool_decide_true by (done || by eexists). cbn [andb orb]. fold i.
      rewrite Hf in Hc2. split; [done|]. split; [by eexists|]. intros v [= <-].
      destruct (bit_test props i); [by destruct (Hc2 eq_refl)|by destruct value].
    + rewrite decide_False by (intros ->; done). cbn [andb orb]. split; [rewrite Hb1; by destruct (find_attr id' bs)|].
      split; [intros Hx; apply Hb2 in Hx as [v ->]; by eexists|]. intros v. destruct (find_attr id' bs); [apply Hb3|done].
Qed.

(** One seen before, with the same value. *)
Lemma bits_of_again bs seen props id (value : bool) :
  pkcs11_attr_is_boolean id = true → find_attr id bs = Some [Z.b2z value] → bits_of bs seen props →
  let i := pkcs11_attr2boolprop_shift id in
  bits_of bs (bit_set seen i) (if value then bit_set props i else props).
Proof.
  intros Hid Hf [Hs Hp Hb] i. pose proof (shift_range id Hid) as Hi. split.
  - unfold bit_set. by rewrite length_upd_byte.
  - destruct value; [|done]. unfold bit_set. by rewrite length_upd_byte.
  - intros id' Hid'. pose proof (shift_range id' Hid') as Hi'. destruct (Hb id' Hid') as (Hb1 & Hb2 & Hb3).
    destruct (Hb id Hid) as (Hc1 & _ & Hc3). fold i in Hc1, Hc3. specialize (Hc3 _ Hf). rewrite Hf, bool_decide_true in Hc1 by (by eexists).
    assert (bit_test props i = value) as Hv by (destruct (bit_test props i), value; done).
    rewrite bit_test_set by (done || lia).
    assert (bit_test (if value then bit_set props i else props) (pkcs11_attr2boolprop_shift id')
            = bit_test props (pkcs11_attr2boolprop_shift id')) as ->.
    { destruct value; [|done]. rewrite bit_test_set by (done || lia).
      destruct (Z.eqb_spec (pkcs11_attr2boolprop_shift id') i) as [->|]; [by rewrite Hv|done]. }
    destruct (Z.eqb_spec (pkcs11_attr2boolprop_shift id') i) as [He|Hne]; [|done].
    rewrite He in *. rewrite Hc1 in Hb1. by rewrite orb_true_l, <- Hb1.
Qed.

(** ** The list of attributes *)

Lemma class_type_no_panic l c t : class_type_spec l c t ≠ Panicked.
Proof.
  revert c t. induction l as [|[id d] l IH]; intros c t; [done|]. cbn [class_type_spec].
  destruct (id =? PKCS11_CKA_CLASS); [by destruct (_ || _)|]. destruct (pkcs11_attr_is_type id); [by destruct (_ || _)|done].
Qed.

Lemma decode_values k b : bytes_ok b → Forall (λ a, in_range 32 a.1 ∧ bytes_ok a.2) (decode k b).1.
Proof.
  revert b. induction k as [|k IH]; intros b Hb; [by destruct b|]. destruct b as [|x b]; [constructor|]. cbn [decode].
  destruct (next_attr (x :: b)) as [[a b']|] eqn:Hnext; [|constructor].
  apply next_attr_Some in Hnext as (_ & _ & _ & _ & _ & Hi & Ha & Hb'); [|done]. specialize (IH b' Hb').
  destruct (decode k b'). by constructor.
Qed.

Lemma class_type_range l c t c' t' : Forall (λ a, in_range 32 a.1 ∧ bytes_ok a.2) l →
  in_range 32 c → in_range 32 t → class_type_spec l c t = Ok (c', t') → in_range 32 c' ∧ in_range 32 t'.
Proof.
  intros Hl. revert c t. induction Hl as [|[id d] l [_ Hd] _ IH]; intros c t Hc Ht; [by intros [= -> ->]|].
  cbn [class_type_spec fst snd] in *. intros He.
  assert (length d = 4%nat → in_range 32 (le_value d)) as Hv.
  { intros H4. pose proof (le_value_bound d Hd) as Hv. by rewrite H4 in Hv. }
  destruct (id =? PKCS11_CKA_CLASS); [|destruct (pkcs11_attr_is_type id)].
  - destruct (Nat.eqb_spec (length d) 4); [|done]. cbn [negb orb] in He. destruct (new_value _ _); [|done]. eapply IH; [| |exact He]; auto.
  - destruct (Nat.eqb_spec (length d) 4); [|done]. cbn [negb orb] in He. destruct (new_value _ _); [|done]. eapply IH; [| |exact He]; auto.
  - by apply (IH c t).
Qed.

(** Decoding one attribute. *)
Lemma decode_step k b : b ≠ [] → (length b <= k)%nat →
  match next_attr b with
  | None => decode k b = ([], false)
  | Some (a, b') => ∃ j, k = S j ∧ decode k b = ((a :: (decode j b').1), (decode j b').2)
  end.
Proof.
  intros Hb Hk. destruct k as [|k], b as [|x b]; try done; [cbn in Hk; lia|]. cbn [decode].
  destruct (next_attr (x :: b)) as [[a b']|]; [|done]. exists k. split; [done|]. by destruct (decode k b').
Qed.

Section region.
(** A template is the region [r] of memory. *)
Variables (mem r : list Z) (src : Z).
Hypothesis Hmem : bytes_ok mem.
Hypothesis Hsize : Z.of_nat (length mem) < 2 ^ 62.
Hypothesis Hr : at_ mem src r.

(** [b] is what is left of it at [pos]. *)
Definition cursor (pos : Z) (b : list Z) : Prop := ∃ n, pos = Z.of_nat n ∧ (n <= length r)%nat ∧ b = drop n r.

Lemma cursor_end pos b : cursor pos b → (pos =? Z.of_nat (length r)) = bool_decide (b = []).
Proof.
  intros (n & -> & Hn & ->). destruct (Z.eqb_spec (Z.of_nat n) (Z.of_nat (length r))) as [He|He].
  - rewrite bool_decide_true; [done|]. apply Nat2Z.inj in He. by rewrite He, drop_all.
  - rewrite bool_decide_false; [done|]. intros Hd. apply (f_equal length) in Hd. rewrite length_drop in Hd. cbn in Hd. lia.
Qed.

Lemma cursor_bytes pos b : cursor pos b → bytes_ok b.
Proof. intros (n & -> & Hn & ->). by eapply Forall_drop, at_bytes. Qed.

Lemma read_attr_next pos b : cursor pos b →
  read_attr_advance mem src (Z.of_nat (length r)) pos
  = match next_attr b with
    | None => Err PKCS11_CKR_FUNCTION_FAILED
    | Some (a, b') => let n := Z.of_nat (length a.2) in Ok (a.1, n, src + (pos + 8), pos + 8 + n)
    end.
Proof.
  intros Hc. pose proof (cursor_bytes _ _ Hc) as Hb. destruct Hc as (n & -> & Hn & Hbn).
  pose proof (at_length _ _ _ Hr) as Hl. pose proof (at_drop _ _ _ n Hn Hr) as Hat. rewrite <- Hbn in Hat.
  assert (length b = length r - n)%nat as Hlen by (by rewrite Hbn, length_drop).
  unfold read_attr_advance, next_attr. rewrite (proj2 (add_overflow_Some 64 _ _ _)) by (split; [done|lia]).
  destruct (Z.ltb_spec (Z.of_nat (length r)) (Z.of_nat n + 8)), (Nat.ltb_spec (length b) 8); [done|lia|lia|].
  assert (4 <= length b)%nat as H4 by lia. pose proof (at_drop _ _ _ 4 H4 Hat) as Hat4. change (Z.of_nat 4) with 4 in Hat4.
  rewrite (read32_at _ _ _ Hat), bind_Ok by lia.
  rewrite (read32_at _ _ _ Hat4), bind_Ok by (rewrite length_drop; lia).
  pose proof (le_value_4 (drop 4 b) (Forall_drop _ _ _ Hb)). set (sz := le_value (take 4 (drop 4 b))) in *.
  rewrite (proj2 (add_overflow_Some 64 _ _ _)) by (split; [done|lia]).
  destruct (Z.ltb_spec (Z.of_nat (length r)) (Z.of_nat n + 8 + sz)), (Nat.ltb_spec (length b) (8 + Z.to_nat sz)); [done|lia|lia|].
  cbn [fst snd]. rewrite length_take, length_drop, Nat.min_l by lia. cbv zeta. rewrite Z2Nat.id by lia. done.
Qed.

Lemma cursor_next pos b a b' : cursor pos b → next_attr b = Some (a, b') →
  cursor (pos + 8 + Z.of_nat (length a.2)) b' ∧ (length b' < length b)%nat ∧ at_ mem (src + (pos + 8)) a.2 ∧
  in_range 32 a.1 ∧ bytes_ok a.2 ∧ (length a.2 < length r)%nat ∧ Z.of_nat (length a.2) < 2 ^ 32.
Proof.
  intros Hc Hnext. pose proof (cursor_bytes _ _ Hc) as Hb. destruct Hc as (n & -> & Hn & Hbn).
  apply next_attr_Some in Hnext as (Hlen & _ & Hsz & Ha & Hb' & Hi & Ha2 & _); [|done].
  assert (length b = length r - n)%nat as Hlen' by (by rewrite Hbn, length_drop).
  split.
  { exists (n + (8 + length a.2))%nat. split; [lia|]. split; [lia|]. by rewrite Hb', Hbn, drop_drop. }
  pose proof (le_value_4 (drop 4 b) (Forall_drop _ _ _ Hb)).
  split; [lia|]. split; [|split; [done|split; [done|split; [lia|rewrite Hsz; lia]]]].
  rewrite Ha. apply at_take. pose proof (at_drop _ _ _ n Hn Hr) as Hat. rewrite <- Hbn in Hat.
  replace (src + (Z.of_nat n + 8)) with (src + Z.of_nat n + Z.of_nat 8) by lia. apply at_drop; [lia|done].
Qed.

Lemma class_type_ok fuel k pos b c t : cursor pos b → (length b < fuel)%nat → (length b <= k)%nat →
  class_type_loop fuel mem src (Z.of_nat (length r)) pos c t
  = (ct ← class_type_spec (decode k b).1 c t; if (decode k b).2 then Ok ct else Err PKCS11_CKR_FUNCTION_FAILED).
Proof.
  revert k pos b c t. induction fuel as [|fuel IH]; intros k pos b c t Hc Hf Hk; [lia|]. cbn [class_type_loop].
  rewrite (cursor_end _ _ Hc). case_bool_decide as Hb; [subst; by destruct k|].
  rewrite (read_attr_next _ _ Hc). pose proof (decode_step k b Hb Hk) as Hd.
  destruct (next_attr b) as [[[id d] b']|] eqn:Hnext; [|by rewrite Hd].
  destruct Hd as (j & -> & ->). cbn [fst snd class_type_spec]. rewrite bind_Ok.
  destruct (cursor_next _ _ _ _ Hc Hnext) as (Hc' & Hb' & Hat & _ & _ & _). cbn [fst snd] in Hc', Hat.
  assert (Z.of_nat (length d) =? 4 = (length d =? 4)%nat) as ->
    by (destruct (Z.eqb_spec (Z.of_nat (length d)) 4), (Nat.eqb_spec (length d) 4); done || lia).
  assert (length d = 4%nat → read32 mem (src + (pos + 8)) = Ok (le_value d)) as Hread.
  { intros Hd. rewrite (read32_at _ _ _ Hat) by lia. by rewrite <- Hd, firstn_all. }
  destruct (id =? PKCS11_CKA_CLASS); [|destruct (pkcs11_attr_is_type id)].
  - destruct (Nat.eqb_spec (length d) 4) as [Hd|Hd]; [|done]. rewrite (Hread Hd), bind_Ok. cbn [negb orb].
    destruct (new_value c (le_value d)); [|done]. apply IH; [done|lia|lia].
  - destruct (Nat.eqb_spec (length d) 4) as [Hd|Hd]; [|done]. rewrite (Hread Hd), bind_Ok. cbn [negb orb].
    destruct (new_value t (le_value d)); [|done]. apply IH; [done|lia|lia].
  - apply IH; [done|lia|lia].
Qed.

Section heap.
Context `{Heap}.

(** A computation of an object gives the block of the list [x], or its error. *)
Definition refines (m : T (list Z)) (x : outcome pkcs11_rc (list attr)) : Prop :=
  safe m (λ o, ∃ l, x = Ok l ∧ o = obj l ∧ attrs_ok l) (λ e, no_memory e ∨ x = Err e).

Lemma refines_err e x : x = Err e → refines (mthrow e) x.
Proof. intros ->. apply safe_throw. by right. Qed.

Lemma refines_bind_err {A} (m : outcome pkcs11_rc A) e (f : A → T (list Z)) x :
  m = Err e → x = Err e → refines (lift m ≫= f) x.
Proof. intros -> ->. apply (safe_bind _ _ _ (λ _, False)); [apply safe_lift; by right|done]. Qed.

Lemma refines_ok {A} (m : outcome pkcs11_rc A) a (f : A → T (list Z)) x :
  m = Ok a → refines (f a) x → refines (lift m ≫= f) x.
Proof. intros. by eapply safe_ok. Qed.

(** add_attribute() and what follows. *)
Lemma refines_add l id d (f : list Z → T (list Z)) x :
  attrs_ok l → in_range 32 id → Z.of_nat (length d) < 2 ^ 32 →
  (attrs_ok (l ++ [(id, d)]) → refines (f (obj (l ++ [(id, d)]))) x) →
  refines (add_attribute (obj l) id d ≫= f) x.
Proof.
  intros Hl Hid Hd Hf. eapply safe_bind.
  - eapply safe_mono; [by apply add_attribute_ok|exact (λ _ H, H)|]. intros e He. by left.
  - intros o [-> Ho]. by apply Hf.
Qed.

Lemma boolprops_ok fuel k pos b pre bs seen props :
  cursor pos b → (length b < fuel)%nat → (length b <= k)%nat → (decode k b).2 = true →
  attrs_ok (pre ++ bs) → bits_of bs seen props →
  refines (boolprops_loop fuel (obj (pre ++ bs)) mem src (Z.of_nat (length r)) pos seen props)
          (bs ← bools_spec (decode k b).1 bs; mret (pre ++ bs)).
Proof.
  revert k pos b bs seen props. induction fuel as [|fuel IH]; intros k pos b bs seen props Hc Hf Hk Hw Hl Hbits; [lia|].
  cbn [boolprops_loop]. rewrite (cursor_end _ _ Hc). case_bool_decide as Hb.
  { subst. apply safe_ret. exists (pre ++ bs). by destruct k. }
  pose proof (read_attr_next _ _ Hc) as Hrd. pose proof (decode_step k b Hb Hk) as Hd.
  destruct (next_attr b) as [[[id d] b']|] eqn:Hnext; [|by rewrite Hd in Hw].
  destruct Hd as (j & -> & Hd). rewrite Hd in *. cbn [fst snd bools_spec] in *.
  destruct (cursor_next _ _ _ _ Hc Hnext) as (Hc' & Hb' & Hat & Hi & Hd8 & _). cbn [fst snd] in *.
  eapply refines_ok; [exact Hrd|]. cbn beta iota zeta. unfold pkcs11_attr_is_boolean at 1.
  set (idx := pkcs11_attr2boolprop_shift id). destruct (Z.ltb_spec idx 0), (Z.leb_spec 0 idx) as [Hidx|]; [lia|apply IH; done || lia| |lia].
  assert (pkcs11_attr_is_boolean id = true) as Hid by (unfold pkcs11_attr_is_boolean; by apply Z.leb_le). cbn [negb].
  pose proof (shift_range id Hid) as Hrange. fold idx in Hrange. rewrite (proj2 (Z.leb_gt _ _)) by lia. cbn [orb].
  assert (Z.of_nat (length d) =? 1 = (length d =? 1)%nat) as ->
    by (destruct (Z.eqb_spec (Z.of_nat (length d)) 1), (Nat.eqb_spec (length d) 1); done || lia).
  destruct (Nat.eqb_spec (length d) 1) as [Hd1|]; cbn [negb]; [|by apply refines_err].
  eapply refines_ok; [apply (read_bytes_at _ _ _ _ Hat); lia|]. set (value := negb (le_value d =? 0)).
  destruct (bo_bits _ _ _ Hbits id Hid) as (Hb1 & Hb2 & Hb3). fold idx in Hb1, Hb2, Hb3. rewrite Hb1.
  destruct (find_attr id bs) as [v|] eqn:Hfind.
  - rewrite bool_decide_true by (by eexists). specialize (Hb3 v eq_refl). subst v. cbn [andb].
    assert (bool_decide ([Z.b2z (bit_test props idx)] = bool_value d) = Bool.eqb value (bit_test props idx)) as ->.
    { unfold bool_value. fold value. destruct value, (bit_test props idx); done. }
    destruct (Bool.eqb_spec value (bit_test props idx)) as [Hv|]; [|by apply refines_err]. cbn [negb].
    apply IH; [done|lia|lia|done|done|]. apply (bits_of_again _ _ _ id value); [done| |done]. by rewrite Hv.
  - rewrite bool_decide_false by (by intros [? ?]). cbn [andb].
    apply refines_add; [done|done|cbn; lia|]. rewrite <- app_assoc. intros Hl'.
    apply IH; [done|lia|lia|done|done|]. by apply (bits_of_snoc _ _ _ id value).
Qed.

Lemma safe_try {A} (m : T A) Q R R' : safe m Q R → safe (mtry m) (λ x, match x with inr a => Q a | inl e => R e end) R'.
Proof. intros Hm fs. apply wp_try. eapply wp_mono; [apply Hm|done|done]. Qed.

Lemma class_type_pass k :
  (length (drop 8 r) <= k)%nat → (8 <= length r)%nat → attrs_ok [] →
  let '(l, whole) := decode k (drop 8 r) in
  let x := class_type_spec l PKCS11_UNDEFINED_ID PKCS11_UNDEFINED_ID in
  safe (sanitize_class_and_type false (obj []) mem src (Z.of_nat (length r)))
    (λ o, ∃ c t, x = Ok (c, t) ∧ whole = true ∧ let l := id_attr PKCS11_CKA_CLASS c ++ id_attr PKCS11_CKA_KEY_TYPE t in
          o = obj l ∧ attrs_ok l)
    (λ e, no_memory e ∨ (ct ← x; if whole then Ok ct else Err PKCS11_CKR_FUNCTION_FAILED) = Err e).
Proof.
  intros Hk H8 H0. destruct (decode k (drop 8 r)) as [l whole] eqn:Hd. intros x. unfold sanitize_class_and_type.
  assert (cursor 8 (drop 8 r)) as Hc by (exists 8%nat; split; [done|split; [done|done]]).
  pose proof (at_length _ _ _ Hr) as Hlen. rewrite (class_type_ok _ k _ _ _ _ Hc) by (rewrite ?length_drop in *; lia).
  rewrite Hd. cbn [fst snd]. fold x. set (y := ct ← x; if whole then Ok ct else Err PKCS11_CKR_FUNCTION_FAILED).
  eapply safe_bind; [apply (safe_try _ (λ ct, y = Ok ct) (λ e, y = Err e)); apply safe_lift|].
  { unfold y. destruct x eqn:Hx; [by destruct whole|done|]. by apply class_type_no_panic in Hx. }
  intros [e|[c t]] Hy.
  - eapply safe_bind; [by apply (safe_ret tt (λ _, True))|]. intros _ _. apply safe_throw. by right.
  - assert (x = Ok (c, t) ∧ whole = true) as [Hx ->].
    { unfold y in Hy. destruct x as [ct| |]; [|done|done]. destruct whole; [|done]. by injection Hy as ->. }
    eapply (safe_bind _ _ _ (λ o, o = obj (id_attr PKCS11_CKA_CLASS c) ∧ attrs_ok (id_attr PKCS11_CKA_CLASS c))).
    + destruct (Z.eqb_spec c PKCS11_UNDEFINED_ID) as [Hc'|Hc']; cbn [negb].
      { apply safe_ret. by rewrite id_attr_none. }
      rewrite id_attr_some by done. eapply safe_mono; [apply (add_attribute_ok []); [done|done|rewrite length_le32; lia]|done|by left].
    + intros o [-> Ho]. destruct (Z.eqb_spec t PKCS11_UNDEFINED_ID) as [Ht|Ht]; cbn [negb].
      * apply safe_ret. exists c, t. by rewrite (id_attr_none _ t), app_nil_r.
      * eapply safe_mono; [apply add_attribute_ok; [done|done|rewrite length_le32; lia]| |by left].
        intros o Ho'. exists c, t. by rewrite (id_attr_some _ t).
Qed.

Variables (nested : list Z → Z → Z → T (list Z)) (nested_spec : list Z → outcome pkcs11_rc (list attr)).
Hypothesis nested_ok : ∀ off d, at_ mem off d → (length d < length r)%nat →
  refines (nested mem off (Z.of_nat (length d))) (nested_spec d).
Hypothesis nested_found : ∀ d, nested_spec d ≠ Err PKCS11_RV_NOT_FOUND.

Lemma indirect_ok pre class id d off :
  attrs_ok pre → id_of PKCS11_CKA_CLASS pre = class → in_range 32 id → at_ mem off d → (length d < length r)%nat →
  safe (sanitize_indirect_attr nested (obj pre) mem id (Z.of_nat (length d)) off)
    (λ o, ∃ v, other_spec nested_spec class id d = Ok v ∧ o = obj (pre ++ [(id, v)]) ∧ attrs_ok (pre ++ [(id, v)]))
    (λ e, no_memory e ∨ (e = PKCS11_RV_NOT_FOUND ∧ (class =? PKCS11_UNDEFINED_ID) = false ∧ is_template id = false) ∨
          (e ≠ PKCS11_RV_NOT_FOUND ∧ other_spec nested_spec class id d = Err e)).
Proof.
  intros Hl Hclass Hid Hat Hd. unfold sanitize_indirect_attr, other_spec. fold (is_template id).
  unfold get_class. eapply safe_ok; [by apply get_id_ok|]. rewrite Hclass.
  destruct (class =? PKCS11_UNDEFINED_ID); [apply safe_throw; auto|]. destruct (is_template id); cbn [negb]; [|apply safe_throw; auto].
  destruct (pkcs11_attr_class_is_key class); [apply safe_throw; auto|].
  eapply safe_bind; [eapply safe_mono; [apply init_attributes_ok|exact (λ _ H, H)|by left]|]. intros _ _.
  eapply safe_bind; [eapply safe_mono; [by apply nested_ok|exact (λ _ H, H)|]|].
  { intros e [He|He]; [by left|]. right. right. rewrite He. split; [|done]. intros ->. by apply (nested_found d). }
  intros ? (l & Hspec & -> & Hol). rewrite Hspec.
  eapply safe_ok; [by apply read_attrs_size|]. pose proof (length_obj l) as Hlen.
  eapply safe_ok; [apply (read_bytes_at _ _ (obj l)); [exists [], []; by rewrite app_nil_r|rewrite Hlen; lia]|].
  destruct Hol as [_ Hol]. pose proof heap_size_bound.
  eapply safe_mono; [apply add_attribute_ok; [done|done|lia]| |by left]. intros o [-> Ho]. by exists (obj l).
Qed.

Lemma others_ok fuel k pos b pre class :
  cursor pos b → (length b < fuel)%nat → (length b <= k)%nat → (decode k b).2 = true →
  attrs_ok pre → id_of PKCS11_CKA_CLASS pre = class →
  refines (others_loop nested fuel (obj pre) mem src (Z.of_nat (length r)) pos)
          (os ← others_spec nested_spec class (decode k b).1; mret (pre ++ os)).
Proof.
  revert k pos b pre. induction fuel as [|fuel IH]; intros k pos b pre Hc Hf Hk Hw Hl Hclass; [lia|].
  cbn [others_loop]. rewrite (cursor_end _ _ Hc). case_bool_decide as Hb.
  { subst. apply safe_ret. exists pre. destruct k; cbn; by rewrite app_nil_r. }
  pose proof (read_attr_next _ _ Hc) as Hrd. pose proof (decode_step k b Hb Hk) as Hd.
  destruct (next_attr b) as [[[id d] b']|] eqn:Hnext; [|by rewrite Hd in Hw].
  destruct Hd as (j & -> & Hd). rewrite Hd in *. cbn [fst snd others_spec] in *.
  destruct (cursor_next _ _ _ _ Hc Hnext) as (Hc' & Hb' & Hat & Hi & Hd8 & Hdr & Hd32). cbn [fst snd] in *.
  pose proof (at_length _ _ _ Hr).
  eapply refines_ok; [exact Hrd|]. cbn beta iota zeta. unfold is_other.
  destruct (_ || pkcs11_attr_is_boolean id) eqn:Hother; cbn [negb]; [apply IH; done || lia|].
  assert (∀ v, other_spec nested_spec class id d = Ok v → attrs_ok (pre ++ [(id, v)]) →
    refines (others_loop nested fuel (obj (pre ++ [(id, v)])) mem src (Z.of_nat (length r)) (pos + 8 + Z.of_nat (length d)))
            (os ← d ← other_spec nested_spec class id d; l ← others_spec nested_spec class (decode j b').1; mret ((id, d) :: l);
             mret (pre ++ os))) as Hnextloop.
  { intros v Hv Hlv. rewrite Hv, bind_Ok.
    assert (id_of PKCS11_CKA_CLASS (pre ++ [(id, v)]) = class) as Hclass'.
    { rewrite <- Hclass. unfold id_of. rewrite find_attr_app. destruct (find_attr PKCS11_CKA_CLASS pre); [done|].
      rewrite find_attr_cons. cbn [fst]. bools. by rewrite decide_False. }
    specialize (IH j _ b' _ Hc' ltac:(lia) ltac:(lia) Hw Hlv Hclass').
    destruct (others_spec nested_spec class (decode j b').1); cbn in *; by rewrite <- ?app_assoc in IH. }
  eapply safe_bind; [apply (safe_try _ _ _ _ (indirect_ok pre class id d _ Hl Hclass Hi Hat Hdr))|].
  intros [e|o]; [|intros (v & Hv & -> & Hlv); by apply Hnextloop].
  intros [->|[(-> & Hu & Ht)|[Hne He]]].
  - cbn. apply safe_throw. by left.
  - rewrite bool_decide_true by done. cbn [negb].
    assert (other_spec nested_spec class id d
            = if valid_pkcs11_attribute_id id (Z.of_nat (length d)) then Ok d else Err PKCS11_CKR_TEMPLATE_INCONSISTENT) as Hspec
      by (unfold other_spec; by rewrite Hu, Ht).
    destruct (valid_pkcs11_attribute_id id (Z.of_nat (length d))); cbn [negb]; [|rewrite Hspec; by apply refines_err].
    eapply refines_ok; [by apply (read_bytes_at _ _ _ _ Hat)|]. apply refines_add; [done|done|lia|]. by apply Hnextloop.
  - rewrite bool_decide_false by done. cbn [negb]. rewrite He. by apply refines_err.
Qed.
End heap.
End region.

(** ** The whole *)

Lemma bools_ids l bs bs' : bools_spec l bs = Ok bs' →
  Forall (λ a, pkcs11_attr_is_boolean a.1 = true ∧ a.2 ∈ [[0]; [1]]) bs →
  Forall (λ a, pkcs11_attr_is_boolean a.1 = true ∧ a.2 ∈ [[0]; [1]]) bs'.
Proof.
  revert bs. induction l as [|[id d] l IH]; intros bs; cbn [bools_spec]; [by intros [= ->]|].
  destruct (pkcs11_attr_is_boolean id) eqn:Hid; cbn [negb]; [|apply IH]. destruct (length d =? 1)%nat; cbn [negb]; [|done].
  destruct (find_attr id bs); [case_bool_decide; [apply IH|done]|]. intros Hl Hbs. apply IH in Hl; [done|].
  apply Forall_app. split; [done|]. apply Forall_singleton. split; [done|]. unfold bool_value. cbn [snd].
  destruct (negb _); cbn [Z.b2z]; [right|]; left.
Qed.

Lemma bool_not_class id : pkcs11_attr_is_boolean id = true → id ≠ PKCS11_CKA_CLASS.
Proof. by intros Hid ->. Qed.

Lemma class_of_head c t bs : in_range 32 c → Forall (λ a, a.1 ≠ PKCS11_CKA_CLASS) bs →
  id_of PKCS11_CKA_CLASS (id_attr PKCS11_CKA_CLASS c ++ id_attr PKCS11_CKA_KEY_TYPE t ++ bs) = c.
Proof.
  intros Hc Hbs. unfold id_of.
  destruct (Z.eqb_spec c PKCS11_UNDEFINED_ID) as [Hu|Hu].
  - rewrite id_attr_none by done. assert (find_attr PKCS11_CKA_CLASS ([] ++ id_attr PKCS11_CKA_KEY_TYPE t ++ bs) = None) as ->; [|done].
    apply find_attr_None. cbn [app]. apply Forall_app. split.
    + unfold id_attr. destruct (t =? PKCS11_UNDEFINED_ID); [constructor|by apply Forall_singleton].
    + exact Hbs.
  - rewrite id_attr_some by done. rewrite <- app_comm_cons, find_attr_cons, decide_True by done. cbn [snd]. rewrite length_le32.
    change (4 =? Z.of_nat 4) with true. cbv iota. unfold le32. rewrite wrap_small by done. by apply (le_value_bytes 4).
Qed.

Lemma bind_not_err {A B} (m : outcome pkcs11_rc A) (f : A → outcome pkcs11_rc B) e :
  m ≠ Err e → (∀ a, f a ≠ Err e) → m ≫= f ≠ Err e.
Proof. intros Hm Hf. destruct m; [apply Hf|intros [= ->]; by apply Hm|done]. Qed.

Lemma others_codes nested class l : (∀ d, nested d ≠ Err PKCS11_RV_NOT_FOUND) → others_spec nested class l ≠ Err PKCS11_RV_NOT_FOUND.
Proof.
  intros Hn. induction l as [|[id d] l IH]; [done|]. cbn [others_spec]. destruct (is_other id); [|done].
  assert (other_spec nested class id d ≠ Err PKCS11_RV_NOT_FOUND) as Ho.
  { unfold other_spec. repeat case_match; try done. by apply bind_not_err. }
  apply bind_not_err; [done|]. intros v. by apply bind_not_err.
Qed.

Lemma class_type_codes l c t e : class_type_spec l c t = Err e → e = PKCS11_CKR_TEMPLATE_INCONSISTENT.
Proof.
  revert c t. induction l as [|[id d] l IH]; intros c t; cbn [class_type_spec]; [done|].
  repeat case_match; (congruence || apply IH).
Qed.

Lemma bools_codes l bs e : bools_spec l bs = Err e → e = PKCS11_CKR_TEMPLATE_INCONSISTENT ∨ e = PKCS11_CKR_FUNCTION_FAILED.
Proof.
  revert bs. induction l as [|[id d] l IH]; intros bs; cbn [bools_spec]; [done|].
  repeat case_match; first [apply IH | intros [= <-]; auto].
Qed.

Lemma sanitize_codes fuel b : sanitize_spec fuel b ≠ Err PKCS11_RV_NOT_FOUND.
Proof.
  revert b. induction fuel as [|fuel IH]; intros b; [done|]. cbn [sanitize_spec]. destruct (_ || _); [done|].
  set (body := take _ (drop 8 b)). destruct (decode (length body) body) as [l whole].
  destruct (class_type_spec l _ _) as [[c t]|e|] eqn:Hct; cbn; [|apply class_type_codes in Hct; congruence|done].
  destruct whole; cbn [negb]; [|done]. destruct (bools_spec l []) as [bs|e|] eqn:Hbs; cbn; [|apply bools_codes in Hbs; destruct Hbs; congruence|done].
  pose proof (others_codes (sanitize_spec fuel) c l IH). by apply bind_not_err.
Qed.

Section heap.
Context `{Heap}.

Lemma sanitize_refines fuel mem src b :
  bytes_ok mem → Z.of_nat (length mem) < 2 ^ 62 → at_ mem src b → (length b < fuel)%nat →
  refines (sanitize_client_object false fuel mem src (Z.of_nat (length b))) (sanitize_spec fuel b).
Proof.
  intros Hmem Hsize. revert src b. induction fuel as [|fuel IH]; intros src b Hat Hf; [lia|].
  cbn [sanitize_client_object sanitize_spec]. pose proof (at_bytes _ _ _ Hmem Hat) as Hb.
  destruct (Z.ltb_spec (Z.of_nat (length b)) 8), (Nat.ltb_spec (length b) 8); [by apply refines_err|lia|lia|]. cbn [orb].
  pose proof (head_at_range 0 b ltac:(lia) Hb) as Hn.
  assert (le_value (take 4 b) = head_at 0 b) as Hhead by (unfold head_at; by rewrite drop_0, take_take).
  eapply refines_ok; [apply (read32_at _ _ _ Hat); lia|]. rewrite Hhead. set (n := head_at 0 b) in *.
  rewrite (proj2 (add_overflow_Some 64 _ _ _)) by (split; [done|lia]).
  destruct (Z.ltb_spec (Z.of_nat (length b)) (8 + n)); [by apply refines_err|].
  set (r := take (8 + Z.to_nat n) b). assert (8 + n = Z.of_nat (length r)) as -> by (unfold r; rewrite length_take; lia).
  assert (take (Z.to_nat n) (drop 8 b) = drop 8 r) as -> by (unfold r; by rewrite take_drop_commute).
  assert (at_ mem src r) as Hr by (by apply at_take). assert (8 <= length r)%nat by (unfold r; rewrite length_take; lia).
  assert (length r <= length b)%nat by (unfold r; rewrite length_take; lia). clearbody r n.
  eapply safe_bind; [eapply safe_mono; [apply init_attributes_ok|exact (λ _ H, H)|by left]|]. intros ? [-> Hnil].
  pose proof (class_type_pass mem r src Hmem Hsize Hr (length (drop 8 r)) ltac:(lia) ltac:(done) Hnil) as Hct.
  pose proof (decode_values (length (drop 8 r)) (drop 8 r) (Forall_drop _ _ _ (at_bytes _ _ _ Hmem Hr))) as Hvals.
  destruct (decode (length (drop 8 r)) (drop 8 r)) as [l whole] eqn:Hd. cbn [fst] in Hvals.
  eapply safe_bind; [eapply safe_mono; [exact Hct|exact (λ _ H, H)|]|].
  { intros e [He|He]; [by left|right]. destruct (class_type_spec l _ _) as [[? ?]| |]; [|by injection He as ->|done]. destruct whole; [discriminate He|by injection He as <-]. }
  intros ? (c & t & Hspec & -> & -> & Hl). rewrite Hspec. cbn [negb]. rewrite bind_Ok.
  destruct (class_type_range _ PKCS11_UNDEFINED_ID PKCS11_UNDEFINED_ID _ _ Hvals ltac:(done) ltac:(done) Hspec) as [Hc Ht].
  assert (cursor r 8 (drop 8 r)) as Hcur by (exists 8%nat; split; [done|split; [done|done]]).
  pose proof (at_length _ _ _ Hr) as Hlen.
  pose proof (boolprops_ok mem r src Hmem Hsize Hr (S (length mem)) (length (drop 8 r)) 8 (drop 8 r)
    (id_attr PKCS11_CKA_CLASS c ++ id_attr PKCS11_CKA_KEY_TYPE t) [] _ _ Hcur ltac:(rewrite length_drop; lia) ltac:(done)
    ltac:(by rewrite Hd) ltac:(by rewrite app_nil_r) bits_of_nil) as Hbools.
  rewrite Hd, app_nil_r in Hbools. cbn [fst] in Hbools.
  eapply safe_bind; [eapply safe_mono; [exact Hbools|exact (λ _ H, H)|]|].
  { intros e [He|He]; [by left|right]. by destruct (bools_spec l []). }
  intros ? (l1 & Hbs & -> & Hl1). destruct (bools_spec l []) as [bs| |] eqn:Hb1; [|done|done].
  injection Hbs as <-. rewrite bind_Ok. pose proof (bools_ids _ _ _ Hb1 ltac:(constructor)) as Hids.
  rewrite <- app_assoc in *.
  eapply safe_mono; [eapply (others_ok mem r src Hmem Hsize Hr _ (sanitize_spec fuel)) with (class := c) (k := length (drop 8 r))| |].
  - intros off d Hoff Hlt. apply IH; [done|lia].
  - apply sanitize_codes.
  - exact Hcur.
  - rewrite length_drop. lia.
  - done.
  - by rewrite Hd.
  - done.
  - apply class_of_head; [done|]. eapply Forall_impl; [exact Hids|]. intros a [Ha _]. by apply bool_not_class.
  - rewrite Hd. cbn [fst]. intros o (l2 & Hos & Ho). exists l2. split; [|done]. rewrite <- Hos.
    destruct (others_spec _ c l); cbn; [by rewrite <- !app_assoc|done|done].
  - rewrite Hd. cbn [fst]. intros e [He|He]; [by left|right]. by destruct (others_spec _ c l).
Qed.
End heap.

(** ** Well-formed objects

    The class and the type come first, once each; then the booleans, once each and
    0 or 1; then the others, of a known id and of the size of that id. A template
    within an object is well-formed too. *)
Definition stored_bool (a : attr) : Prop := pkcs11_attr_is_boolean a.1 = true ∧ a.2 ∈ [[0]; [1]].

Inductive wf_attrs : list attr → Prop :=
| wf_attrs_intro class type bs os :
    in_range 32 class → in_range 32 type → Forall stored_bool bs → NoDup bs.*1 → Forall (wf_other class) os →
    wf_attrs (id_attr PKCS11_CKA_CLASS class ++ id_attr PKCS11_CKA_KEY_TYPE type ++ bs ++ os)
with wf_other : Z → attr → Prop :=
| wf_plain class id d :
    class ≠ PKCS11_UNDEFINED_ID → is_other id = true → is_template id = false →
    valid_pkcs11_attribute_id id (Z.of_nat (length d)) = true → wf_other class (id, d)
| wf_template class id l :
    class ≠ PKCS11_UNDEFINED_ID → is_other id = true → is_template id = true → pkcs11_attr_class_is_key class = false →
    wf_attrs l → wf_other class (id, obj l).

Lemma bools_nodup l bs bs' : bools_spec l bs = Ok bs' → NoDup bs.*1 → NoDup bs'.*1.
Proof.
  revert bs. induction l as [|[id d] l IH]; intros bs; cbn [bools_spec]; [by intros [= ->]|].
  destruct (negb _); [apply IH|]. destruct (negb _); [done|].
  destruct (find_attr id bs) eqn:Hf; [case_bool_decide; [apply IH|done]|]. intros Hl Hbs. apply IH in Hl; [done|].
  rewrite fmap_app. apply NoDup_app. split; [done|]. split; [|apply NoDup_singleton].
  intros i Hi Hin. cbn in Hin. apply list_elem_of_singleton in Hin as ->. apply list_elem_of_fmap in Hi as (a & -> & Ha).
  apply find_attr_None in Hf. rewrite Forall_forall in Hf. by apply (Hf a).
Qed.

Lemma others_wf nested class l os :
  (∀ d l', bytes_ok d → nested d = Ok l' → wf_attrs l') → Forall (λ a, in_range 32 a.1 ∧ bytes_ok a.2) l →
  others_spec nested class l = Ok os → Forall (wf_other class) os.
Proof.
  intros Hn Hl. revert os. induction Hl as [|[id d] l [_ Hd] _ IH]; intros os; cbn [others_spec]; [intros [= <-]; constructor|].
  destruct (is_other id) eqn:Ho; [|apply IH].
  destruct (other_spec nested class id d) as [v| |] eqn:Hv; [|done|done].
  destruct (others_spec nested class l) as [os'| |]; [|done|done]. intros [= <-]. constructor; [|by apply IH].
  revert Hv. unfold other_spec. destruct (Z.eqb_spec class PKCS11_UNDEFINED_ID); [done|].
  destruct (is_template id) eqn:Ht.
  - destruct (pkcs11_attr_class_is_key class) eqn:Hk; [done|]. destruct (nested d) as [l'| |] eqn:Hnd; [|done|done].
    rewrite bind_Ok. intros Hv. injection Hv as <-. apply wf_template; [done..|by apply (Hn d)].
  - destruct (valid_pkcs11_attribute_id _ _) eqn:Hval; [|done]. intros Hv. injection Hv as <-. by apply wf_plain.
Qed.

Lemma sanitize_spec_wf fuel b l : bytes_ok b → sanitize_spec fuel b = Ok l → wf_attrs l.
Proof.
  revert b l. induction fuel as [|fuel IH]; intros b l Hb; [done|]. cbn [sanitize_spec]. destruct (_ || _); [done|].
  set (body := take _ (drop 8 b)). pose proof (decode_values (length body) body) as Hvals.
  destruct (decode (length body) body) as [as_ whole]. cbn [fst] in Hvals.
  destruct (class_type_spec as_ _ _) as [[c t]|e|] eqn:Hct; [|done|done].
  destruct (class_type_range _ PKCS11_UNDEFINED_ID PKCS11_UNDEFINED_ID _ _ (Hvals ltac:(by apply Forall_take, Forall_drop)) ltac:(done) ltac:(done) Hct) as [Hc Ht].
  rewrite bind_Ok. destruct (negb whole); [done|]. destruct (bools_spec as_ []) as [bs| |] eqn:Hbs; [|done|done]. rewrite bind_Ok.
  destruct (others_spec _ c as_) as [os| |] eqn:Hos; [|done|done]. intros [= <-].
  constructor; [done|done| | |].
  - apply (bools_ids _ _ _ Hbs). constructor.
  - apply (bools_nodup _ _ _ Hbs). constructor.
  - eapply (others_wf (sanitize_spec fuel)); [exact IH| |exact Hos]. apply Hvals. by apply Forall_take, Forall_drop.
Qed.

(** ** A well-formed object is its own sanitized form *)

Definition small (l : list attr) : Prop := Forall (λ a, in_range 32 a.1 ∧ Z.of_nat (length a.2) < 2 ^ 32) l.

Lemma decode_ser k l : small l → (length (ser l) <= k)%nat → decode k (ser l) = (l, true).
Proof.
  intros Hl. revert k. induction Hl as [|[id d] l [Hi Hd] _ IH]; intros k Hk; [by destruct k|]. cbn [fst snd] in *.
  rewrite ser_cons, length_app, length_ser1 in Hk. cbn [snd] in Hk. rewrite ser_cons. unfold ser1. cbn [fst snd].
  rewrite <- !app_assoc. set (b := le32 id ++ _).
  assert (b ≠ []) as Hb by (unfold b; intros Hx; apply (f_equal length) in Hx; by rewrite length_app, length_le32 in Hx).
  assert (length b = 8 + length d + length (ser l))%nat as Hlen by (unfold b; rewrite !length_app, !length_le32; lia).
  pose proof (decode_step k b Hb ltac:(lia)) as Hstep.
  assert (next_attr b = Some ((id, d), ser l)) as Hnext; [|rewrite Hnext in Hstep; destruct Hstep as (j & -> & ->); by rewrite IH by lia].
  unfold next_attr. rewrite Hlen, (proj2 (Nat.ltb_ge _ 8)) by lia. unfold b.
  rewrite (take_app_length' (le32 id)), (drop_app_length' (le32 id)), (take_app_length' (le32 _)) by (by rewrite length_le32).
  assert (∀ v, in_range 32 v → le_value (le32 v) = v) as Hle by (intros v Hv; unfold le32; rewrite wrap_small by done; by apply le_value_bytes).
  rewrite !Hle, Nat2Z.id, (proj2 (Nat.ltb_ge _ _)) by (unfold in_range; lia || done).
  rewrite (app_assoc (le32 id)), (drop_app_length' (le32 id ++ le32 _)), take_app_length by (by rewrite length_app, !length_le32).
  rewrite (app_assoc _ d), drop_app_length' by (rewrite !length_app, !length_le32; lia). done.
Qed.

Lemma class_type_app l l' c t :
  class_type_spec (l ++ l') c t = ('(c, t) ← class_type_spec l c t; class_type_spec l' c t).
Proof.
  revert c t. induction l as [|[id d] l IH]; intros c t; [done|]. cbn [app class_type_spec].
  destruct (id =? PKCS11_CKA_CLASS); [|destruct (pkcs11_attr_is_type id)]; [destruct (_ || _); [done|apply IH]..|apply IH].
Qed.

Lemma class_type_skip l c t : Forall (λ a, is_other a.1 = true ∨ pkcs11_attr_is_boolean a.1 = true) l → class_type_spec l c t = Ok (c, t).
Proof.
  induction 1 as [|[id d] l Hid _ IH]; [done|]. cbn [class_type_spec fst] in *.
  assert ((id =? PKCS11_CKA_CLASS) = false ∧ pkcs11_attr_is_type id = false) as [-> ->]; [|done].
  destruct Hid as [Hid|Hid]; [by apply negb_true_iff, orb_false_iff in Hid as [[? ?]%orb_false_iff _]|].
  split; [destruct (Z.eqb_spec id PKCS11_CKA_CLASS) as [->|]; done|].
  destruct (pkcs11_attr_is_type id) eqn:Ht; [|done]. unfold pkcs11_attr_is_type, mem_Z in Ht. bools.
  rewrite !elem_of_cons, elem_of_nil in Ht. by destruct Ht as [->|[->|[->|[]]]].
Qed.

Lemma le32_back v : in_range 32 v → le_value (le32 v) = v.
Proof. intros Hv. unfold le32. rewrite wrap_small by done. by apply le_value_bytes. Qed.

Lemma class_type_id id v c t :
  in_range 32 v → id = PKCS11_CKA_CLASS ∧ c = PKCS11_UNDEFINED_ID ∨ id = PKCS11_CKA_KEY_TYPE ∧ t = PKCS11_UNDEFINED_ID →
  class_type_spec (id_attr id v) c t = Ok (if id =? PKCS11_CKA_CLASS then (v, t) else (c, v)).
Proof.
  intros Hv Hid. unfold id_attr. destruct (Z.eqb_spec v PKCS11_UNDEFINED_ID) as [->|Hu].
  - by destruct Hid as [[-> ->]|[-> ->]].
  - cbn [class_type_spec]. rewrite length_le32, le32_back by done. by destruct Hid as [[-> ->]|[-> ->]].
Qed.

Lemma class_type_head c t l :
  in_range 32 c → in_range 32 t → Forall (λ a, is_other a.1 = true ∨ pkcs11_attr_is_boolean a.1 = true) l →
  class_type_spec (id_attr PKCS11_CKA_CLASS c ++ id_attr PKCS11_CKA_KEY_TYPE t ++ l) PKCS11_UNDEFINED_ID PKCS11_UNDEFINED_ID = Ok (c, t).
Proof.
  intros Hc Ht Hl. rewrite class_type_app, class_type_id by auto. rewrite bind_Ok. cbn beta iota.
  change (PKCS11_CKA_CLASS =? PKCS11_CKA_CLASS) with true. cbv iota.
  rewrite class_type_app, class_type_id by auto. rewrite bind_Ok. by apply class_type_skip.
Qed.

Lemma bools_spec_stored bs acc : Forall stored_bool bs → NoDup (acc ++ bs).*1 → bools_spec bs acc = Ok (acc ++ bs).
Proof.
  intros Hbs. revert acc. induction Hbs as [|[id d] bs [Hid Hd] _ IH]; intros acc Hnd; [by rewrite app_nil_r|].
  cbn [bools_spec fst snd] in *. rewrite Hid. cbn [negb].
  assert (length d = 1%nat ∧ bool_value d = d) as [-> ->].
  { apply elem_of_cons in Hd as [->|Hd]; [done|]. by apply list_elem_of_singleton in Hd as ->. }
  cbn [Nat.eqb negb]. assert (find_attr id acc = None) as ->.
  { apply find_attr_None, Forall_forall. intros a Ha He. rewrite fmap_app in Hnd. apply NoDup_app in Hnd as (_ & Hnd & _).
    apply (Hnd id); [rewrite <- He; by apply list_elem_of_fmap_2|by left]. }
  rewrite IH; by rewrite <- app_assoc.
Qed.

Lemma bools_app l l' acc : bools_spec (l ++ l') acc = (acc ← bools_spec l acc; bools_spec l' acc).
Proof.
  revert acc. induction l as [|[id d] l IH]; intros acc; [done|]. cbn [app bools_spec].
  destruct (negb _); [apply IH|]. destruct (negb _); [done|]. destruct (find_attr id acc); [|apply IH].
  case_bool_decide; [apply IH|done].
Qed.

Lemma bools_skip l acc : Forall (λ a, pkcs11_attr_is_boolean a.1 = false) l → bools_spec l acc = Ok acc.
Proof. induction 1 as [|[id d] l Hid _ IH]; [done|]. cbn [bools_spec fst] in *. by rewrite Hid. Qed.

Lemma others_app nested class l l' :
  others_spec nested class (l ++ l') = (os ← others_spec nested class l; os' ← others_spec nested class l'; mret (os ++ os')).
Proof.
  induction l as [|[id d] l IH]; cbn [app others_spec]; [by destruct (others_spec nested class l')|].
  destruct (is_other id); [|done]. destruct (other_spec nested class id d); [|done|done]. rewrite !bind_Ok, IH.
  by destruct (others_spec nested class l), (others_spec nested class l').
Qed.

Lemma others_skip nested class l : Forall (λ a, is_other a.1 = false) l → others_spec nested class l = Ok [].
Proof. induction 1 as [|[id d] l Hid _ IH]; [done|]. cbn [others_spec fst] in *. by rewrite Hid. Qed.

Lemma bool_not_other id : pkcs11_attr_is_boolean id = true → is_other id = false.
Proof. intros Hid. unfold is_other. by rewrite Hid, orb_true_r. Qed.

Lemma other_not_bool id : is_other id = true → pkcs11_attr_is_boolean id = false.
Proof. intros Hid. destruct (pkcs11_attr_is_boolean id) eqn:Hb; [|done]. by rewrite bool_not_other in Hid. Qed.

Lemma id_attr_ids id v (P : Z → Prop) : P id → Forall (λ a, P a.1) (id_attr id v).
Proof. intros Hid. unfold id_attr. destruct (_ =? _); [constructor|by apply Forall_singleton]. Qed.

Lemma wf_other_is_other c os : Forall (wf_other c) os → Forall (λ a, is_other a.1 = true) os.
Proof. intros Hos. eapply Forall_impl; [exact Hos|]. by intros a [|]. Qed.

(** The others of a well-formed object, given that its templates are kept. *)
Lemma others_wf_kept nested c os :
  Forall (wf_other c) os → (∀ id l, (id, obj l) ∈ os → wf_attrs l → nested (obj l) = Ok l) → others_spec nested c os = Ok os.
Proof.
  induction 1 as [|a os Ha Hos IH]; intros Hn; [done|].
  assert (others_spec nested c os = Ok os) as He by (apply IH; intros id l Hl; apply (Hn id); by right).
  destruct Ha as [c id d Hc Ho Ht Hv|c id l Hc Ho Ht Hk Hw]; cbn [others_spec]; rewrite Ho, He.
  - unfold other_spec. by rewrite (proj2 (Z.eqb_neq _ _)), Ht, Hv.
  - unfold other_spec. rewrite (proj2 (Z.eqb_neq _ _)), Ht, Hk, (Hn id) by (done || left). done.
Qed.

(** Known ids have 32 bits. *)
Lemma ids_range (l : list Z) id : forallb (λ i, (0 <=? i) && (i <? 2 ^ 32)) l = true → id ∈ l → in_range 32 id.
Proof.
  intros Hl Hid. rewrite forallb_forall in Hl. apply list_elem_of_In, Hl in Hid. bools. by split.
Qed.

Lemma bool_id_range id : pkcs11_attr_is_boolean id = true → in_range 32 id.
Proof.
  unfold pkcs11_attr_is_boolean. intros Hid. bools. apply (position_lookup bpa id 0) in Hid as [_ Hl]; [|done].
  apply list_elem_of_lookup_2 in Hl. by apply (ids_range bpa).
Qed.

Lemma attr_size_lookup_elem l id s : attr_size_lookup l id = Some s → id ∈ l.*1.
Proof.
  induction l as [|[i n] l IH]; [done|]. cbn [attr_size_lookup]. destruct (Z.eqb_spec id i) as [->|]; [left|].
  intros Hl. right. by apply IH.
Qed.

Lemma valid_id_range id n : valid_pkcs11_attribute_id id n = true → in_range 32 id.
Proof.
  unfold valid_pkcs11_attribute_id. destruct (attr_size_lookup attr_ids id) eqn:Hl; [|done]. intros _.
  apply attr_size_lookup_elem in Hl. apply (ids_range attr_ids.*1); [by vm_compute|exact Hl].
Qed.

Lemma template_id_range id : is_template id = true → in_range 32 id.
Proof. unfold is_template, mem_Z. intros Hid. bools. eapply ids_range; [|exact Hid]. by vm_compute. Qed.

Lemma small_wf l : Z.of_nat (length (obj l)) < 2 ^ 32 → wf_attrs l → small l.
Proof.
  intros Hl Hw. assert (∀ a, a ∈ l → Z.of_nat (length a.2) < 2 ^ 32) as Hlen.
  { intros a Ha. rewrite length_obj in Hl. apply list_elem_of_split in Ha as (l1 & l2 & ->).
    rewrite ser_app, ser_cons, !length_app, length_ser1 in Hl. lia. }
  assert (Forall (λ a, in_range 32 a.1) l) as Hi.
  { destruct Hw as [c t bs os Hc Ht Hbs _ Hos]. apply Forall_app. split; [by apply id_attr_ids|].
    apply Forall_app. split; [by apply id_attr_ids|]. apply Forall_app. split.
    - eapply Forall_impl; [exact Hbs|]. intros a [Ha _]. by apply bool_id_range.
    - eapply Forall_impl; [exact Hos|]. by intros a [? id d _ _ _ Hv|? id l' _ _ Hv _ _]; [apply valid_id_range in Hv|apply template_id_range in Hv]. }
  apply Forall_forall. intros a Ha. rewrite Forall_forall in Hi. split; [by apply Hi|by apply Hlen].
Qed.

(** A well-formed object is accepted, and stays what it is: sanitizing it gives the
    same attributes in the same order. So sanitizing twice changes nothing, and every
    form an object can have can be sent by a client. *)
Lemma sanitize_wf_fixed fuel l :
  wf_attrs l → Z.of_nat (length (obj l)) < 2 ^ 32 → (length (obj l) < fuel)%nat → sanitize_spec fuel (obj l) = Ok l.
Proof.
  revert l. induction fuel as [|fuel IH]; intros l Hw Hl Hf; [lia|]. pose proof (small_wf l Hl Hw) as Hs.
  cbn [sanitize_spec]. pose proof (length_obj l) as Hlen.
  assert (head_at 0 (obj l) = Z.of_nat (length (ser l))) as Hhead.
  { unfold head_at, obj. rewrite drop_0, take_take, (take_app_length' (le32 _)) by (by rewrite length_le32).
    apply le32_back. unfold in_range. lia. }
  rewrite Hhead, (proj2 (Nat.ltb_ge _ 8)), (proj2 (Z.ltb_ge _ _)) by lia. cbn [orb].
  assert (take (Z.to_nat (Z.of_nat (length (ser l)))) (drop 8 (obj l)) = ser l) as ->.
  { rewrite Nat2Z.id. destruct (obj_head l) as (p & -> & <-). by rewrite drop_app_length, firstn_all. }
  rewrite decode_ser by done. destruct Hw as [c t bs os Hc Ht Hbs Hnd Hos].
  assert (Forall (λ a, is_other a.1 = true ∨ pkcs11_attr_is_boolean a.1 = true) (bs ++ os)) as Hids.
  { apply Forall_app. split; [eapply Forall_impl; [exact Hbs|]; intros a [Ha _]; by right|].
    eapply Forall_impl; [by eapply wf_other_is_other|]. by left. }
  rewrite class_type_head, bind_Ok by done. cbn [negb].
  rewrite bools_app, bools_skip, bind_Ok by (by apply (id_attr_ids _ _ (λ i, pkcs11_attr_is_boolean i = false))).
  rewrite bools_app, bools_skip, bind_Ok by (by apply (id_attr_ids _ _ (λ i, pkcs11_attr_is_boolean i = false))).
  rewrite bools_app, (bools_spec_stored bs []), bind_Ok by done. cbn [app].
  rewrite bools_skip, bind_Ok by (eapply Forall_impl; [by eapply wf_other_is_other|]; intros a Ha; by apply other_not_bool).
  rewrite others_app, (others_skip _ _ (id_attr PKCS11_CKA_CLASS c)), bind_Ok by (by apply (id_attr_ids _ _ (λ i, is_other i = false))).
  rewrite others_app, (others_skip _ _ (id_attr PKCS11_CKA_KEY_TYPE t)), bind_Ok by (by apply (id_attr_ids _ _ (λ i, is_other i = false))).
  rewrite others_app, (others_skip _ _ bs), bind_Ok by (eapply Forall_impl; [exact Hbs|]; intros a [Ha _]; by apply bool_not_other).
  rewrite (others_wf_kept _ _ _ Hos); [done|]. intros id l' Hin Hw'.
  assert (length (obj l') < length (obj (id_attr PKCS11_CKA_CLASS c ++ id_attr PKCS11_CKA_KEY_TYPE t ++ bs ++ os)))%nat as Hlt.
  { rewrite Hlen. apply list_elem_of_split in Hin as (l1 & l2 & ->). rewrite !ser_app, ser_cons, !length_app, length_ser1. cbn [snd]. lia. }
  apply IH; [done|lia|lia].
Qed.

Section heap.
Context `{Heap}.

Lemma at_start mem src b : at_ mem src b → 0 <= src.
Proof. intros (p & s & _ & ->). lia. Qed.

(** The same of the code with the traces, and without. *)
Lemma sanitize_traced traces mem src b : bytes_ok mem → Z.of_nat (length mem) < 2 ^ 62 → at_ mem src b →
  let fuel := S (length b) in
  safe_or (traces = true ∧ template_outside mem src (Z.of_nat (length b)) ∧ ∃ e, sanitize_spec fuel b = Err e)
    (sanitize_client_object traces fuel mem src (Z.of_nat (length b)))
    (λ o, ∃ l, sanitize_spec fuel b = Ok l ∧ o = obj l ∧ attrs_ok l)
    (λ e, no_memory e ∨ sanitize_spec fuel b = Err e).
Proof.
  intros Hmem Hsize Hat fuel. pose proof (at_start _ _ _ Hat) as Hsrc.
  assert (∀ tr, sim (tr = true ∧ template_outside mem src (Z.of_nat (length b)))
    (sanitize_client_object tr fuel mem src (Z.of_nat (length b))) (sanitize_client_object false fuel mem src (Z.of_nat (length b)))) as Hsim.
  { intros [|]; [|apply sim_refl]. eapply sim_mono; [by apply (sanitize_sim _ _ _ _ src (Z.of_nat (length b)))|done]. }
  eapply safe_or_mono; [apply (safe_or_sim _ _ _ _ _ (Hsim traces)), (sanitize_refines fuel); (done || lia)|done|done|].
  intros [[-> Ho] (e & He & [->|Hs])]; [by destruct He|]. split; [done|]. split; [done|by exists e].
Qed.


(** C34: what sanitizing gives can be sent again: a well-formed object is returned as it
    is, with the same attributes in the same order, unless an allocation fails. Nothing
    is read outside of it. *)
Theorem sanitized_kept l : attrs_ok l → wf_attrs l → bytes_ok (obj l) →
  safe (sanitize_client_object true (S (length (obj l))) (obj l) 0 (Z.of_nat (length (obj l))))
    (λ o, o = obj l) (λ e, e = PKCS11_CKR_DEVICE_MEMORY).
Proof.
  intros Hl Hw Hb. assert (Z.of_nat (length (obj l)) < 2 ^ 32) as Hsize.
  { destruct Hl as [_ Hl]. pose proof heap_size_bound. rewrite length_obj. lia. }
  pose proof (sanitize_wf_fixed (S (length (obj l))) l Hw ltac:(lia) ltac:(lia)) as Hspec.
  pose proof (sanitize_traced true (obj l) 0 (obj l) Hb ltac:(lia) ltac:(exists [], []; by rewrite app_nil_r)) as Hs.
  intros fs. specialize (Hs fs). cbv zeta in Hs. unfold wp, wpp in *. rewrite Hspec in Hs.
  destruct (sanitize_client_object _ _ _ _ _ fs) as [[o|e|] fs']; [by destruct Hs as (l' & [= ->] & -> & _)|by destruct Hs|].
  by destruct Hs as (_ & _ & e & ?).
Qed.

(** C33: what becomes of a template that the first pass refuses for its classes, types or
    sizes, when every allocation succeeds: the error is returned if the trace of the
    template stays within the memory, and the TA reads outside of it otherwise. The heap
    has room for the prefixes of the traces. *)
Theorem refused_templates_traced fuel mem src len n e :
  bytes_ok mem → len < 2 ^ 62 → 8 <= len → read32 mem src = Ok n → 8 + n <= len →
  class_type_loop (S (length mem)) mem src (8 + n) 8 PKCS11_UNDEFINED_ID PKCS11_UNDEFINED_ID = Err e →
  12 + 6 * (Z.of_nat (length mem) + 1) <= heap_size →
  let result := fst (sanitize_client_object true (S fuel) mem src len []) in
  (trace_outside mem src (8 + n) → result = Panicked) ∧ (¬ trace_outside mem src (8 + n) → result = Err e).
Proof.
  intros Hm Hlen H8 Hn Hle Hc Hheap. cbv zeta.
  assert (sanitize_client_object true (S fuel) mem src len []
    = (trace_attributes_from_api_head (S (length mem)) mem 12 src (8 + n);; mthrow (A := list Z) e) []) as ->.
  { cbn [sanitize_client_object]. rewrite (proj2 (Z.ltb_ge _ _)) by done. rewrite Hn. rewrite bind_at. cbn [lift].
    unfold add_overflow. rewrite (proj2 (Z.ltb_lt _ _)) by lia. rewrite (proj2 (Z.ltb_ge _ _)) by done.
    unfold init_attributes_head. rewrite !bind_at. unfold TEE_Malloc, heap_alloc. cbn [head default tail].
    rewrite (proj2 (Z.leb_le _ _)) by lia. cbn [andb negb mret M_ret].
    unfold sanitize_class_and_type. rewrite !bind_at. unfold mtry, lift. rewrite Hc.
    rewrite bind_at. by destruct (trace_attributes_from_api_head _ _ _ _ _ []) as [[]]. }
  rewrite bind_at. pose proof (trace_calm mem (S (length mem)) 12 src (8 + n)) as Hcalm.
  apply read32_some in Hn as [Hsrc _]. split.
  - intros Ho. pose proof (trace_outside_panics mem _ _ Ho (S (length mem)) 12 ltac:(lia)) as Hp.
    unfold wpp in Hp. by destruct (trace_attributes_from_api_head _ _ _ _ _ []) as [[]].
  - intros Ho. pose proof (trace_ends mem Hm (S (length mem)) 12 src (8 + n) Hsrc ltac:(lia) []) as Hp.
    unfold wpp in Hp. by destruct (trace_attributes_from_api_head _ _ _ _ _ []) as [[]].
Qed.

(** C35: no key has a template within it: an object that is made of a client's bytes
    and whose class is that of a key holds none of the attributes of wrapping,
    unwrapping and derivation templates. (The comment in the code says that such
    attributes are expected only for keys.) *)
Theorem key_templates_refused mem src b :
  bytes_ok mem → Z.of_nat (length mem) < 2 ^ 62 → at_ mem src b →
  safe_or (template_outside mem src (Z.of_nat (length b))) (sanitize_client_object true (S (length b)) mem src (Z.of_nat (length b)))
    (λ o, ∃ l, o = obj l ∧
       (pkcs11_attr_class_is_key (id_of PKCS11_CKA_CLASS l) = true → Forall (λ a, is_template a.1 = false) l))
    (λ e, True).
Proof.
  intros Hmem Hsize Hat. eapply safe_or_mono; [by apply (sanitize_traced true)| |done|by intros (_ & ? & _)].
  intros o (l & Hs & -> & Hl). exists l. split; [done|].
  apply sanitize_spec_wf in Hs; [|by eapply at_bytes]. destruct Hs as [c t bs os Hc Ht Hbs _ Hos]. intros Hk.
  repeat (apply Forall_app; split); [by apply (id_attr_ids _ _ (λ i, is_template i = false))..| |].
  - eapply Forall_impl; [exact Hbs|]. intros a [Ha _]. destruct (is_template a.1) eqn:Hta; [|done].
    unfold is_template, mem_Z in Hta. bools. rewrite !elem_of_cons, elem_of_nil in Hta.
    destruct Hta as [He|[He|[He|[]]]]; by rewrite He in Ha.
  - rewrite class_of_head in Hk; [|done|].
    { eapply Forall_impl; [exact Hos|]. intros a Ha. inversion Ha; subst; [done|congruence]. }
    apply Forall_app. split; [eapply Forall_impl; [exact Hbs|]; intros a [Ha _]; by apply bool_not_class|].
    eapply Forall_impl; [by eapply wf_other_is_other|]. cbn beta. intros a Ha He. by rewrite He in Ha.
Qed.
End heap.

(** ** Witnesses *)

(** An AES key with its label and two values of CKA_TOKEN that agree; the type is given
    before the class, and the value of the first boolean is 2. *)
Definition aes_template : list attr :=
  [(PKCS11_CKA_KEY_TYPE, le32 PKCS11_CKK_AES); (PKCS11_CKA_TOKEN, [2]); (PKCS11_CKA_LABEL, [107]);
   (PKCS11_CKA_CLASS, le32 PKCS11_CKO_SECRET_KEY); (PKCS11_CKA_TOKEN, [1])].


(** What the first example is made into. *)
Definition aes_object : list attr :=
  [(PKCS11_CKA_CLASS, le32 PKCS11_CKO_SECRET_KEY); (PKCS11_CKA_KEY_TYPE, le32 PKCS11_CKK_AES);
   (PKCS11_CKA_TOKEN, [1]); (PKCS11_CKA_LABEL, [107])].

Lemma aes_object_wf : wf_attrs aes_object.
Proof.
  apply (wf_attrs_intro PKCS11_CKO_SECRET_KEY PKCS11_CKK_AES [(PKCS11_CKA_TOKEN, [1])] [(PKCS11_CKA_LABEL, [107])]); try done.
  - apply Forall_singleton. split; [done|]. right. left.
  - apply NoDup_singleton.
  - apply Forall_singleton. by apply wf_plain.
Qed.

Lemma sanitized_kept_witness :
  let run := sanitize_client_object (H := heap_64k) true (S (length (obj aes_object))) (obj aes_object) 0 (Z.of_nat (length (obj aes_object))) in
  safe run (λ o, o = obj aes_object) (λ e, e = PKCS11_CKR_DEVICE_MEMORY) ∧ fst (run []) = Ok (obj aes_object) ∧
  fst (run [true; false]) = Err PKCS11_CKR_DEVICE_MEMORY.
Proof.
  intros run. split; [|by vm_compute]. apply (sanitized_kept (H := heap_64k)).
  - split; [repeat constructor; done|by vm_compute].
  - exact aes_object_wf.
  - apply bytes_ok_dec. by vm_compute.
Defined.

Lemma key_templates_refused_witness :
  let b := obj ((PKCS11_CKA_WRAP_TEMPLATE, obj []) :: aes_object) in
  let run := sanitize_client_object (H := heap_64k) true (S (length b)) b 0 (Z.of_nat (length b)) in
  safe_or (template_outside b 0 (Z.of_nat (length b))) run
    (λ o, ∃ l, o = obj l ∧
       (pkcs11_attr_class_is_key (id_of PKCS11_CKA_CLASS l) = true → Forall (λ a, is_template a.1 = false) l))
    (λ e, True) ∧
  fst (run []) = Err PKCS11_CKR_TEMPLATE_INCONSISTENT.
Proof.
  intros b run. split; [|by vm_compute].
  apply (key_templates_refused (H := heap_64k)); [apply bytes_ok_dec; by vm_compute|by vm_compute|by exists [], []].
Defined.

(** A class of one byte where the memory ends: the 4 bytes of a value that the trace
    always reads reach behind it. Two classes are refused as well, and traced. *)
Definition short_template : list Z := obj [(PKCS11_CKA_CLASS, [0])].
Definition two_classes : list Z :=
  obj [(PKCS11_CKA_CLASS, le32 PKCS11_CKO_DATA); (PKCS11_CKA_CLASS, le32 PKCS11_CKO_SECRET_KEY)].

Lemma refused_templates_traced_witness :
  let run b := fst (sanitize_client_object (H := heap_64k) true 100 b 0 (Z.of_nat (length b)) []) in
  trace_outside short_template 0 17 ∧ run short_template = Panicked ∧
  ¬ trace_outside two_classes 0 32 ∧ run two_classes = Err PKCS11_CKR_TEMPLATE_INCONSISTENT.
Proof.
  assert (trace_outside short_template 0 17) as Ho.
  { apply (TO_attrs _ 0 17 9); [reflexivity|lia|]. apply WO_attr; [lia|]. intros [_ Hb]. revert Hb. vm_compute. congruence. }
  assert (fst (sanitize_client_object (H := heap_64k) true 100 two_classes 0 32 []) = Err PKCS11_CKR_TEMPLATE_INCONSISTENT) as Hrun
    by (vm_compute; reflexivity).
  split; [exact Ho|]. split; [|split; [|exact Hrun]].
  - refine (proj1 (refused_templates_traced (H := heap_64k) 99 short_template 0 17 9 PKCS11_CKR_TEMPLATE_INCONSISTENT _ _ _ _ _ _ _) Ho).
    + apply bytes_ok_dec. by vm_compute.
    + lia.
    + lia.
    + reflexivity.
    + lia.
    + by vm_compute.
    + by vm_compute.
  - intros Ht. pose proof (proj1 (refused_templates_traced (H := heap_64k) 99 two_classes 0 32 24 PKCS11_CKR_TEMPLATE_INCONSISTENT
      ltac:(apply bytes_ok_dec; by vm_compute) ltac:(lia) ltac:(lia) ltac:(reflexivity) ltac:(lia) ltac:(by vm_compute) ltac:(by vm_compute)) Ht) as Hp.
    rewrite Hrun in Hp. discriminate.
Defined.

(** The traces of a refused template read outside of it. A template of one
    attribute, a class of one byte where the memory ends: it is refused as
    inconsistent, but the 4 bytes of a value that the trace always reads reach behind the
    memory. A template of a size that is wrong within a template
    that is refused: its size is taken as it is, however large. *)
Lemma traces_read_outside :
  let run traces b := fst (sanitize_client_object (H := heap_64k) traces 100 b 0 (Z.of_nat (length b)) []) in
  let short := obj [(PKCS11_CKA_CLASS, [0])] in
  let huge := obj [(PKCS11_CKA_CLASS, [0]); (PKCS11_CKA_WRAP_TEMPLATE, le32 0xffffff ++ le32 1)] ++ replicate 200 0 in
  run false short = Err PKCS11_CKR_TEMPLATE_INCONSISTENT ∧ run true short = Panicked ∧
  run false huge = Err PKCS11_CKR_TEMPLATE_INCONSISTENT ∧ run true huge = Panicked.
Proof. by vm_compute. Qed.
