(* ===== verification/Pkcs11Object.v ===== *)
(** * ta/pkcs11/src/pkcs11_attributes.c: the attributes of a new object

    create_attributes_from_template() turns the template of a client into the
    attributes of an object: those its class and type call for, each once, from the
    template or a default. The checks of the new object against the session follow.
    The arguments the code does not use (parent, mecha) are left out, as is
    [function], of which only PKCS11_FUNCTION_IMPORT exists. *)
From S2P Require Import Prelude Pkcs11Attr Pkcs11Sanitize.

Local Open Scope Z_scope.

(** The value of a boolean, [None] when there is no default. *)
Definition pkcs11_object_default_boolprop (attribute : Z) : option bool :=
  if mem_Z attribute [PKCS11_CKA_MODIFIABLE; PKCS11_CKA_COPYABLE; PKCS11_CKA_DESTROYABLE] then Some true
  else if mem_Z attribute [PKCS11_CKA_TOKEN; PKCS11_CKA_PRIVATE; PKCS11_CKA_SENSITIVE] then Some false
  else if mem_Z attribute [PKCS11_CKA_SIGN; PKCS11_CKA_VERIFY] then Some true
  else if mem_Z attribute
    [PKCS11_CKA_DERIVE; PKCS11_CKA_ENCRYPT; PKCS11_CKA_DECRYPT; PKCS11_CKA_SIGN_RECOVER; PKCS11_CKA_VERIFY_RECOVER;
     PKCS11_CKA_WRAP; PKCS11_CKA_UNWRAP; PKCS11_CKA_EXTRACTABLE; PKCS11_CKA_WRAP_WITH_TRUSTED;
     PKCS11_CKA_ALWAYS_AUTHENTICATE; PKCS11_CKA_TRUSTED] then Some false
  else None.

Definition get_default_value (id : Z) : outcome pkcs11_rc (list Z) :=
  if pkcs11_attr_is_boolean id then Panicked
  else if id =? PKCS11_CKA_PUBLIC_KEY_INFO then Err PKCS11_CKR_TEMPLATE_INCONSISTENT
  else Ok [].

Definition pkcs11_any_object_boolprops : list Z :=
  [PKCS11_CKA_TOKEN; PKCS11_CKA_PRIVATE; PKCS11_CKA_MODIFIABLE; PKCS11_CKA_COPYABLE; PKCS11_CKA_DESTROYABLE].
Definition pkcs11_any_object_optional : list Z := [PKCS11_CKA_LABEL].
Definition pkcs11_raw_data_optional : list Z := [PKCS11_CKA_OBJECT_ID; PKCS11_CKA_APPLICATION; PKCS11_CKA_VALUE].
Definition pkcs11_any_key_boolprops : list Z := [PKCS11_CKA_DERIVE].
Definition pkcs11_any_key_optional : list Z :=
  [PKCS11_CKA_ID; PKCS11_CKA_START_DATE; PKCS11_CKA_END_DATE; PKCS11_CKA_ALLOWED_MECHANISMS].
Definition pkcs11_symm_key_boolprops : list Z :=
  [PKCS11_CKA_ENCRYPT; PKCS11_CKA_DECRYPT; PKCS11_CKA_SIGN; PKCS11_CKA_VERIFY; PKCS11_CKA_WRAP; PKCS11_CKA_UNWRAP;
   PKCS11_CKA_SENSITIVE; PKCS11_CKA_EXTRACTABLE; PKCS11_CKA_WRAP_WITH_TRUSTED; PKCS11_CKA_TRUSTED].
Definition pkcs11_symm_key_optional : list Z :=
  [PKCS11_CKA_WRAP_TEMPLATE; PKCS11_CKA_UNWRAP_TEMPLATE; PKCS11_CKA_DERIVE_TEMPLATE; PKCS11_CKA_VALUE; PKCS11_CKA_VALUE_LEN].
Definition pkcs11_public_key_boolprops : list Z :=
  [PKCS11_CKA_ENCRYPT; PKCS11_CKA_VERIFY; PKCS11_CKA_VERIFY_RECOVER; PKCS11_CKA_WRAP; PKCS11_CKA_TRUSTED].
Definition pkcs11_public_key_mandated : list Z := [PKCS11_CKA_SUBJECT].
Definition pkcs11_public_key_optional : list Z := [PKCS11_CKA_WRAP_TEMPLATE; PKCS11_CKA_PUBLIC_KEY_INFO].
Definition pkcs11_private_key_boolprops : list Z :=
  [PKCS11_CKA_DECRYPT; PKCS11_CKA_SIGN; PKCS11_CKA_SIGN_RECOVER; PKCS11_CKA_UNWRAP; PKCS11_CKA_SENSITIVE;
   PKCS11_CKA_EXTRACTABLE; PKCS11_CKA_WRAP_WITH_TRUSTED; PKCS11_CKA_ALWAYS_AUTHENTICATE].
Definition pkcs11_private_key_mandated : list Z := [PKCS11_CKA_SUBJECT].
Definition pkcs11_private_key_optional : list Z := [PKCS11_CKA_UNWRAP_TEMPLATE; PKCS11_CKA_PUBLIC_KEY_INFO].
Definition pkcs11_rsa_public_key_mandated : list Z := [PKCS11_CKA_MODULUS_BITS].
Definition pkcs11_rsa_public_key_optional : list Z := [PKCS11_CKA_MODULUS; PKCS11_CKA_PUBLIC_EXPONENT].
Definition pkcs11_rsa_private_key_optional : list Z :=
  [PKCS11_CKA_MODULUS; PKCS11_CKA_PUBLIC_EXPONENT; PKCS11_CKA_PRIVATE_EXPONENT; PKCS11_CKA_PRIME_1; PKCS11_CKA_PRIME_2;
   PKCS11_CKA_EXPONENT_1; PKCS11_CKA_EXPONENT_2; PKCS11_CKA_COEFFICIENT].
Definition pkcs11_ec_public_key_mandated : list Z := [PKCS11_CKA_EC_PARAMS].
Definition pkcs11_ec_public_key_optional : list Z := [PKCS11_CKA_EC_POINT].
Definition pkcs11_ec_private_key_mandated : list Z := [PKCS11_CKA_EC_PARAMS].
Definition pkcs11_ec_private_key_optional : list Z := [PKCS11_CKA_VALUE].

Section heap.
Context `{Heap}.

(** [out]: the attributes of the new object; [templ]: the sanitized template. *)
Definition pkcs11_import_object_boolprop (out templ : list Z) (attribute : Z) : T (list Z) :=
  match get_attribute templ attribute (Some 1) with
  | Ok v => add_attribute out attribute v
  | Err PKCS11_RV_NOT_FOUND =>
    match pkcs11_object_default_boolprop attribute with
    | Some b => add_attribute out attribute [Z.b2z b]
    | None => mthrow PKCS11_CKR_TEMPLATE_INCOMPLETE
    end
  | Err e => mthrow e
  | Panicked => mpanic
  end.

Fixpoint set_mandatory_boolprops (out temp bp : list Z) : T (list Z) :=
  match bp with
  | [] => mret out
  | id :: bp => out ← pkcs11_import_object_boolprop out temp id; set_mandatory_boolprops out temp bp
  end.

Fixpoint set_mandatory_attributes (out temp bp : list Z) : T (list Z) :=
  match bp with
  | [] => mret out
  | id :: bp =>
    match get_attribute_ptr temp id with
    | Ok value => out ← add_attribute out id value; set_mandatory_attributes out temp bp
    | Err _ => mthrow PKCS11_CKR_TEMPLATE_INCOMPLETE
    | Panicked => mpanic
    end
  end.

Fixpoint set_optional_attributes (out temp bp : list Z) : T (list Z) :=
  match bp with
  | [] => mret out
  | id :: bp =>
    value ← lift (match get_attribute_ptr temp id with
                  | Err PKCS11_RV_NOT_FOUND => get_default_value id
                  | r => r
                  end);
    out ← add_attribute out id value;
    set_optional_attributes out temp bp
  end.

Definition create_storage_attributes (temp : list Z) : T (list Z) :=
  out ← init_attributes_head;
  class ← lift (get_class temp);
  if class =? PKCS11_UNDEFINED_ID then mthrow PKCS11_CKR_TEMPLATE_INCONSISTENT
  else
    out ← add_attribute out PKCS11_CKA_CLASS (le32 class);
    out ← set_mandatory_boolprops out temp pkcs11_any_object_boolprops;
    set_optional_attributes out temp pkcs11_any_object_optional.

Definition create_genkey_attributes (temp : list Z) : T (list Z) :=
  out ← create_storage_attributes temp;
  type ← lift (get_key_type temp);
  if type =? PKCS11_UNDEFINED_ID then mthrow PKCS11_CKR_TEMPLATE_INCONSISTENT
  else
    out ← add_attribute out PKCS11_CKA_KEY_TYPE (le32 type);
    out ← set_mandatory_boolprops out temp pkcs11_any_key_boolprops;
    set_optional_attributes out temp pkcs11_any_key_optional.

(** assert(get_class(o) == class) *)
Definition assert_class (o : list Z) (class : Z) : T unit :=
  c ← lift (get_class o); massert (c =? class).

Definition create_symm_key_attributes (temp : list Z) : T (list Z) :=
  assert_class temp PKCS11_CKO_SECRET_KEY;;
  out ← create_genkey_attributes temp;
  assert_class out PKCS11_CKO_SECRET_KEY;;
  type ← lift (get_key_type out);
  if negb (mem_Z type [PKCS11_CKK_GENERIC_SECRET; PKCS11_CKK_AES; PKCS11_CKK_MD5_HMAC; PKCS11_CKK_SHA_1_HMAC;
                       PKCS11_CKK_SHA256_HMAC; PKCS11_CKK_SHA384_HMAC; PKCS11_CKK_SHA512_HMAC; PKCS11_CKK_SHA224_HMAC])
  then mthrow PKCS11_CKR_TEMPLATE_INCONSISTENT
  else
    out ← set_mandatory_boolprops out temp pkcs11_symm_key_boolprops;
    set_optional_attributes out temp pkcs11_symm_key_optional.

Definition create_data_attributes (temp : list Z) : T (list Z) :=
  assert_class temp PKCS11_CKO_DATA;;
  out ← create_storage_attributes temp;
  assert_class out PKCS11_CKO_DATA;;
  set_optional_attributes out temp pkcs11_raw_data_optional.

(** The mandated and the optional attributes by the type of the key. *)
Definition by_key_type (out temp : list Z) (rsa ec : list Z * list Z) : T (list Z) :=
  type ← lift (get_key_type out);
  if type =? PKCS11_CKK_RSA then
    out ← set_mandatory_attributes out temp rsa.1; set_optional_attributes out temp rsa.2
  else if type =? PKCS11_CKK_EC then
    out ← set_mandatory_attributes out temp ec.1; set_optional_attributes out temp ec.2
  else mthrow PKCS11_CKR_TEMPLATE_INCONSISTENT.

Definition create_pub_key_attributes (temp : list Z) : T (list Z) :=
  assert_class temp PKCS11_CKO_PUBLIC_KEY;;
  out ← create_genkey_attributes temp;
  assert_class out PKCS11_CKO_PUBLIC_KEY;;
  out ← set_mandatory_boolprops out temp pkcs11_public_key_boolprops;
  out ← set_mandatory_attributes out temp pkcs11_public_key_mandated;
  out ← set_optional_attributes out temp pkcs11_public_key_optional;
  by_key_type out temp (pkcs11_rsa_public_key_mandated, pkcs11_rsa_public_key_optional)
    (pkcs11_ec_public_key_mandated, pkcs11_ec_public_key_optional).

Definition create_priv_key_attributes (temp : list Z) : T (list Z) :=
  assert_class temp PKCS11_CKO_PRIVATE_KEY;;
  out ← create_genkey_attributes temp;
  assert_class out PKCS11_CKO_PRIVATE_KEY;;
  out ← set_mandatory_boolprops out temp pkcs11_private_key_boolprops;
  out ← set_mandatory_attributes out temp pkcs11_private_key_mandated;
  out ← set_optional_attributes out temp pkcs11_private_key_optional;
  by_key_type out temp ([], pkcs11_rsa_private_key_optional) (pkcs11_ec_private_key_mandated, pkcs11_ec_private_key_optional).

(** The end of create_attributes_from_template(), when the attributes are made: [*out]
    of a successful call, [None] when it is left as it was. *)
Definition set_runtime_attributes (attrs : list Z) : T (option (list Z)) :=
  r ← mtry (lift (get_attribute attrs PKCS11_CKA_LOCAL None));
  match r with
  | inl PKCS11_RV_NOT_FOUND =>
    r ← mtry (lift (get_attribute attrs PKCS11_CKA_KEY_GEN_MECHANISM None));
    match r with
    | inl PKCS11_RV_NOT_FOUND =>
      attrs ← add_attribute attrs PKCS11_CKA_LOCAL [0];
      class ← lift (get_class attrs);
      if mem_Z class [PKCS11_CKO_SECRET_KEY; PKCS11_CKO_PRIVATE_KEY; PKCS11_CKO_PUBLIC_KEY] then
        attrs ← add_attribute attrs PKCS11_CKA_ALWAYS_SENSITIVE [0];
        attrs ← add_attribute attrs PKCS11_CKA_NEVER_EXTRACTABLE [0];
        attrs ← add_attribute attrs PKCS11_CKA_KEY_GEN_MECHANISM (le32 0xffffffff);
        mret (Some attrs)
      else mret (Some attrs)
    | _ => mret None
    end
  | _ => mret None
  end.

Definition create_attributes_from_template (traces : bool) (template : list Z) : T (option (list Z)) :=
  let template_size := Z.of_nat (length template) in
  temp ← sanitize_client_object traces (S (length template)) template 0 template_size;
  class ← lift (get_class temp);
  type ← lift (get_key_type temp);
  if (class =? PKCS11_UNDEFINED_ID) && (type =? PKCS11_UNDEFINED_ID) then mthrow PKCS11_CKR_TEMPLATE_INCOMPLETE
  else
    consistent ← lift (sanitize_consistent_class_and_type temp);
    if negb consistent then mthrow PKCS11_CKR_TEMPLATE_INCONSISTENT
    else
      attrs ← (if class =? PKCS11_CKO_DATA then create_data_attributes temp
               else if class =? PKCS11_CKO_SECRET_KEY then create_symm_key_attributes temp
               else if class =? PKCS11_CKO_PUBLIC_KEY then create_pub_key_attributes temp
               else if class =? PKCS11_CKO_PRIVATE_KEY then create_priv_key_attributes temp
               else mthrow PKCS11_CKR_TEMPLATE_INCONSISTENT);
      set_runtime_attributes attrs.
End heap.

Definition check_attrs_misc_integrity (head : list Z) : outcome pkcs11_rc unit :=
  never ← get_bool head PKCS11_CKA_NEVER_EXTRACTABLE;
  extractable ← (if (never : bool) then get_bool head PKCS11_CKA_EXTRACTABLE else mret false);
  if never && extractable then Err PKCS11_CKR_TEMPLATE_INCONSISTENT
  else
    always ← get_bool head PKCS11_CKA_ALWAYS_SENSITIVE;
    sensitive ← (if (always : bool) then get_bool head PKCS11_CKA_SENSITIVE else mret true);
    if always && negb sensitive then Err PKCS11_CKR_TEMPLATE_INCONSISTENT else Ok tt.

(** The session: pkcs11_session_is_so(), pkcs11_session_is_read_write(). *)
Definition check_created_attrs_against_token (is_so is_read_write : bool) (head : list Z) : outcome pkcs11_rc unit :=
  check_attrs_misc_integrity head;;
  trusted ← get_bool head PKCS11_CKA_TRUSTED;
  if trusted && negb is_so then Err PKCS11_CKR_KEY_FUNCTION_NOT_PERMITTED
  else
    token ← get_bool head PKCS11_CKA_TOKEN;
    if token && negb is_read_write then Err PKCS11_CKR_SESSION_READ_ONLY else Ok tt.

Definition check_attr_bval (head : list Z) (attribute : Z) (val : bool) : outcome pkcs11_rc bool :=
  match get_attribute head attribute (Some 1) with
  | Ok v => Ok (Bool.eqb (negb (le_value v =? 0)) val)
  | Err _ => Ok false
  | Panicked => Panicked
  end.

Abbreviation PKCS11_PROCESSING_IMPORT := 0x80000000.

Definition check_created_attrs_against_processing (proc_id : Z) (head : list Z) : outcome pkcs11_rc unit :=
  if proc_id =? PKCS11_PROCESSING_IMPORT then
    b ← check_attr_bval head PKCS11_CKA_LOCAL false;
    if (b : bool) then Ok tt else Panicked
  else Panicked.
