(* ===== verification/Pkcs11ObjectProofs.v ===== *)
(** * New objects: what their attributes are

    [schema] lists the fields an object of a class and a type has, [field_spec] says
    where the value of a field comes from. create_attributes_from_template() makes the
    list of these fields of the sanitized template, whatever the client sends. *)
From S2P Require Import Prelude Pkcs11Attr Pkcs11AttrProofs Pkcs11Sanitize Pkcs11Traces Pkcs11SanitizeProofs Pkcs11Object.

Local Open Scope Z_scope.

(** ** The specification *)

Inductive field :=
| FId (id : Z)          (* the class, the type *)
| FBool (id : Z)        (* the template's value or a default *)
| FMandated (id : Z)    (* the template's value *)
| FOptional (id : Z)    (* the template's value or nothing *)
| FConst (id : Z) (v : list Z).

Definition field_id (f : field) : Z :=
  match f with FId id | FBool id | FMandated id | FOptional id | FConst id _ => id end.

Definition storage_schema : list field :=
  FId PKCS11_CKA_CLASS :: (FBool <$> pkcs11_any_object_boolprops) ++ (FOptional <$> pkcs11_any_object_optional).
Definition key_schema : list field :=
  storage_schema ++ FId PKCS11_CKA_KEY_TYPE :: (FBool <$> pkcs11_any_key_boolprops) ++ (FOptional <$> pkcs11_any_key_optional).
Definition type_schema (type : Z) (rsa ec : list Z * list Z) : list field :=
  let '(mandated, optional) := if type =? PKCS11_CKK_RSA then rsa else ec in
  (FMandated <$> mandated) ++ (FOptional <$> optional).
Definition final_schema : list field :=
  [FConst PKCS11_CKA_LOCAL [0]; FConst PKCS11_CKA_ALWAYS_SENSITIVE [0]; FConst PKCS11_CKA_NEVER_EXTRACTABLE [0];
   FConst PKCS11_CKA_KEY_GEN_MECHANISM (le32 0xffffffff)].

Definition schema (class type : Z) : list field :=
  if class =? PKCS11_CKO_DATA then
    storage_schema ++ (FOptional <$> pkcs11_raw_data_optional) ++ [FConst PKCS11_CKA_LOCAL [0]]
  else if class =? PKCS11_CKO_SECRET_KEY then
    key_schema ++ (FBool <$> pkcs11_symm_key_boolprops) ++ (FOptional <$> pkcs11_symm_key_optional) ++ final_schema
  else if class =? PKCS11_CKO_PUBLIC_KEY then
    key_schema ++ (FBool <$> pkcs11_public_key_boolprops) ++ (FMandated <$> pkcs11_public_key_mandated) ++
    (FOptional <$> pkcs11_public_key_optional) ++
    type_schema type (pkcs11_rsa_public_key_mandated, pkcs11_rsa_public_key_optional)
      (pkcs11_ec_public_key_mandated, pkcs11_ec_public_key_optional) ++ final_schema
  else
    key_schema ++ (FBool <$> pkcs11_private_key_boolprops) ++ (FMandated <$> pkcs11_private_key_mandated) ++
    (FOptional <$> pkcs11_private_key_optional) ++
    type_schema type ([], pkcs11_rsa_private_key_optional) (pkcs11_ec_private_key_mandated, pkcs11_ec_private_key_optional) ++
    final_schema.

(** The value of a field of an object that is made of the template [temp]. *)
Definition field_value (temp : list attr) (f : field) : outcome pkcs11_rc (list Z) :=
  match f with
  | FId id => if id_of id temp =? PKCS11_UNDEFINED_ID then Err PKCS11_CKR_TEMPLATE_INCONSISTENT else Ok (le32 (id_of id temp))
  | FBool id =>
    match find_attr id temp, pkcs11_object_default_boolprop id with
    | Some v, _ => Ok v
    | None, Some b => Ok [Z.b2z b]
    | None, None => Err PKCS11_CKR_TEMPLATE_INCOMPLETE
    end
  | FMandated id => match find_attr id temp with Some v => Ok v | None => Err PKCS11_CKR_TEMPLATE_INCOMPLETE end
  | FOptional id => match find_attr id temp with Some v => Ok v | None => get_default_value id end
  | FConst _ v => Ok v
  end.

Fixpoint fields_spec (temp : list attr) (fs : list field) : outcome pkcs11_rc (list attr) :=
  match fs with
  | [] => Ok []
  | f :: fs => v ← field_value temp f; l ← fields_spec temp fs; mret ((field_id f, v) :: l)
  end.

Definition class_type_consistent (class type : Z) : bool :=
  (class =? PKCS11_CKO_DATA)
  || (class =? PKCS11_CKO_SECRET_KEY) && key_type_is_symm_key type
  || ((class =? PKCS11_CKO_PUBLIC_KEY) || (class =? PKCS11_CKO_PRIVATE_KEY)) && key_type_is_asymm_key type.

Definition object_spec (temp : list attr) : outcome pkcs11_rc (list attr) :=
  let class := id_of PKCS11_CKA_CLASS temp in
  let type := id_of PKCS11_CKA_KEY_TYPE temp in
  if (class =? PKCS11_UNDEFINED_ID) && (type =? PKCS11_UNDEFINED_ID) then Err PKCS11_CKR_TEMPLATE_INCOMPLETE
  else if class_type_consistent class type then fields_spec temp (schema class type)
  else Err PKCS11_CKR_TEMPLATE_INCONSISTENT.

Lemma fields_app temp fs fs' :
  fields_spec temp (fs ++ fs') = (l ← fields_spec temp fs; l' ← fields_spec temp fs'; mret (l ++ l')).
Proof.
  induction fs as [|f fs IH]; cbn [app fields_spec]; [by destruct (fields_spec temp fs')|].
  destruct (field_value temp f); [|done|done]. rewrite !bind_Ok, IH.
  by destruct (fields_spec temp fs), (fields_spec temp fs').
Qed.

Lemma fields_ids temp fs l : fields_spec temp fs = Ok l → l.*1 = field_id <$> fs.
Proof.
  revert l. induction fs as [|f fs IH]; intros l; cbn [fields_spec]; [by intros [= <-]|].
  destruct (field_value temp f); [|done|done]. destruct (fields_spec temp fs) as [l'| |]; [|done|done].
  intros Hl. injection Hl as <-. cbn. f_equal. by apply IH.
Qed.

(** The value of each field of the object. *)
Lemma fields_find temp fs l f : fields_spec temp fs = Ok l → NoDup (field_id <$> fs) → f ∈ fs →
  ∃ v, field_value temp f = Ok v ∧ find_attr (field_id f) l = Some v.
Proof.
  revert l. induction fs as [|g fs IH]; intros l; cbn [fields_spec]; [by intros _ _ ?%elem_of_nil|].
  destruct (field_value temp g) as [v| |] eqn:Hv; [|done|done]. destruct (fields_spec temp fs) as [l'| |]; [|done|done].
  rewrite !bind_Ok. intros Hl Hnd Hf. injection Hl as <-. apply NoDup_cons in Hnd as [Hg Hnd]. rewrite find_attr_cons. cbn [fst snd].
  apply elem_of_cons in Hf as [->|Hf]; [exists v; by rewrite decide_True|].
  destruct (IH _ eq_refl Hnd Hf) as (w & Hw & Hl). exists w. split; [done|]. rewrite decide_False; [done|].
  intros He. apply Hg. rewrite He. by apply list_elem_of_fmap_2.
Qed.

(** No object has a field twice. *)
Lemma schema_nodup class type : NoDup (field_id <$> schema class type).
Proof.
  unfold schema, type_schema. repeat case_match; simplify_eq; apply (bool_decide_eq_true _); by vm_compute.
Qed.

(** ** Templates *)

Lemma find_attr_Forall (P : attr → Prop) l id v : Forall P l → find_attr id l = Some v → P (id, v).
Proof. intros Hl Hf. rewrite Forall_forall in Hl. by apply Hl, find_attr_Some. Qed.

Section heap.
Context `{Heap}.

(** What the code relies on in a sanitized template. *)
Definition template_ok (temp : list attr) : Prop :=
  attrs_ok temp ∧ (∀ id v, pkcs11_attr_is_boolean id = true → find_attr id temp = Some v → v ∈ [[0]; [1]]) ∧
  find_attr PKCS11_CKA_MECHANISM_TYPE temp = None.

Lemma wf_template_ok temp : attrs_ok temp → wf_attrs temp → template_ok temp.
Proof.
  intros Ho Hw. split; [done|]. destruct Hw as [c t bs os Hc Ht Hbs _ Hos]. apply wf_other_is_other in Hos. split.
  - intros id v Hid Hf. apply find_attr_Some in Hf. rewrite !elem_of_app in Hf.
    destruct Hf as [Hf|[Hf|[Hf|Hf]]].
    + pose proof (id_attr_ids PKCS11_CKA_CLASS c (λ i, pkcs11_attr_is_boolean i = false) eq_refl) as Hids.
      rewrite Forall_forall in Hids. apply Hids in Hf. cbn [fst] in Hf. congruence.
    + pose proof (id_attr_ids PKCS11_CKA_KEY_TYPE t (λ i, pkcs11_attr_is_boolean i = false) eq_refl) as Hids.
      rewrite Forall_forall in Hids. apply Hids in Hf. cbn [fst] in Hf. congruence.
    + rewrite Forall_forall in Hbs. by apply Hbs in Hf as [_ ?].
    + rewrite Forall_forall in Hos. apply Hos in Hf. cbn [fst] in Hf. apply other_not_bool in Hf. congruence.
  - apply find_attr_None. repeat (apply Forall_app; split); [by apply (id_attr_ids _ _ (λ i, i ≠ PKCS11_CKA_MECHANISM_TYPE))..| |].
    + eapply Forall_impl; [exact Hbs|]. cbn beta. intros a [Ha _] He. by rewrite He in Ha.
    + eapply Forall_impl; [exact Hos|]. cbn beta. intros a Ha He. by rewrite He in Ha.
Qed.

Lemma value_size temp id v : attrs_ok temp → find_attr id temp = Some v → Z.of_nat (length v) < 2 ^ 32.
Proof.
  intros [_ Hs] Hf. pose proof heap_size_bound. apply find_attr_Some, list_elem_of_split in Hf as (l1 & l2 & ->).
  rewrite ser_app, ser_cons, !length_app, length_ser1 in Hs. cbn [snd] in Hs. lia.
Qed.

(** ** Adding fields to an object *)

Definition extends (m : T (list Z)) (l : list attr) (x : outcome pkcs11_rc (list attr)) : Prop :=
  safe m (λ o, ∃ l', x = Ok l' ∧ o = obj (l ++ l') ∧ attrs_ok (l ++ l')) (λ e, no_memory e ∨ x = Err e).

Lemma extends_bind m f l x y z :
  extends m l x → (∀ l', x = Ok l' → attrs_ok (l ++ l') → extends (f (obj (l ++ l'))) (l ++ l') y) →
  z = (a ← x; b ← y; mret (a ++ b)) → extends (m ≫= f) l z.
Proof.
  intros Hm Hf ->. eapply safe_bind.
  - eapply safe_mono; [exact Hm|exact (λ _ H, H)|]. intros e [He| ->]; [by left|by right].
  - intros o (l' & -> & -> & Hl). eapply safe_mono; [by apply (Hf l')| |].
    + intros o (l2 & -> & -> & Hl2). exists (l' ++ l2). by rewrite app_assoc.
    + intros e [He| ->]; [by left|by right].
Qed.

Lemma extends_lift {A} (m : outcome pkcs11_rc A) a f l x : m = Ok a → extends (f a) l x → extends (lift m ≫= f) l x.
Proof. intros. by eapply safe_ok. Qed.

Lemma extends_err e l x : x = Err e → extends (mthrow e) l x.
Proof. intros ->. apply safe_throw. by right. Qed.

Lemma extends_add l id v x :
  attrs_ok l → in_range 32 id → Z.of_nat (length v) < 2 ^ 32 → x = Ok [(id, v)] → extends (add_attribute (obj l) id v) l x.
Proof.
  intros Hl Hid Hv ->. eapply safe_mono; [by apply add_attribute_ok| |by left].
  intros o [-> Ho]. by exists [(id, v)].
Qed.

Lemma extends_nil l x : attrs_ok l → x = Ok [] → extends (mret (obj l)) l x.
Proof. intros Hl ->. apply safe_ret. exists []. by rewrite app_nil_r. Qed.

Section template.
Variable temp : list attr.
Hypothesis Htemp : template_ok temp.

Lemma temp_ok : attrs_ok temp.
Proof. apply Htemp. Qed.

Definition known (ids : list Z) : Prop := Forall (in_range 32) ids.

Lemma fields_cons f fs :
  fields_spec temp (f :: fs) = (a ← fields_spec temp [f]; b ← fields_spec temp fs; mret (a ++ b)).
Proof. apply (fields_app temp [f] fs). Qed.

Lemma boolprop_extends l id : attrs_ok l → in_range 32 id → pkcs11_attr_is_boolean id = true →
  extends (pkcs11_import_object_boolprop (obj l) (obj temp) id) l (fields_spec temp [FBool id]).
Proof.
  intros Hl Hid Hb. unfold pkcs11_import_object_boolprop. rewrite get_attribute_ok by apply Htemp. cbn [fields_spec field_value].
  destruct (find_attr id temp) as [v|] eqn:Hf.
  - destruct Htemp as (_ & Hbool & _). specialize (Hbool id v Hb Hf).
    assert (length v = 1%nat) as Hv by (apply elem_of_cons in Hbool as [->|Hbool]; [done|by apply list_elem_of_singleton in Hbool as ->]).
    rewrite Hv. change (1 =? Z.of_nat 1) with true. cbv iota. apply extends_add; [done|done|rewrite Hv; lia|done].
  - destruct (pkcs11_object_default_boolprop id); [by apply extends_add|by apply extends_err].
Qed.

Lemma boolprops_extends bp l : attrs_ok l → known bp → Forall (λ id, pkcs11_attr_is_boolean id = true) bp →
  extends (set_mandatory_boolprops (obj l) (obj temp) bp) l (fields_spec temp (FBool <$> bp)).
Proof.
  intros Hl Hk Hb. revert l Hl. induction Hk as [|id bp Hid _ IH]; intros l Hl; [by apply extends_nil|].
  apply Forall_cons in Hb as [Hb Hbs]. cbn [set_mandatory_boolprops].
  eapply extends_bind; [by apply boolprop_extends| |apply fields_cons]. intros l' _ Hl'. by apply IH.
Qed.

Lemma mandatory_extends bp l : attrs_ok l → known bp →
  extends (set_mandatory_attributes (obj l) (obj temp) bp) l (fields_spec temp (FMandated <$> bp)).
Proof.
  intros Hl Hk. revert l Hl. induction Hk as [|id bp Hid _ IH]; intros l Hl; [by apply extends_nil|].
  cbn [set_mandatory_attributes]. rewrite get_attribute_ptr_ok by apply Htemp. unfold found.
  change (FMandated <$> id :: bp) with (FMandated id :: (FMandated <$> bp)). rewrite fields_cons. cbn [fields_spec field_value].
  destruct (find_attr id temp) as [v|] eqn:Hf; [|by apply extends_err].
  eapply extends_bind; [apply (extends_add _ _ v (Ok [(id, v)])); [done|done|by eapply value_size, Hf; apply Htemp|done]| |done].
  intros l' _ Hl'. by apply IH.
Qed.

Lemma optional_extends bp l : attrs_ok l → known bp → Forall (λ id, pkcs11_attr_is_boolean id = false) bp →
  extends (set_optional_attributes (obj l) (obj temp) bp) l (fields_spec temp (FOptional <$> bp)).
Proof.
  intros Hl Hk Hb. revert l Hl. induction Hk as [|id bp Hid _ IH]; intros l Hl; [by apply extends_nil|].
  apply Forall_cons in Hb as [Hb Hbs]. cbn [set_optional_attributes]. rewrite get_attribute_ptr_ok by apply Htemp. unfold found.
  change (FOptional <$> id :: bp) with (FOptional id :: (FOptional <$> bp)). rewrite fields_cons. cbn [fields_spec field_value].
  destruct (find_attr id temp) as [v|] eqn:Hf.
  - eapply extends_lift; [done|].
    eapply extends_bind; [apply (extends_add _ _ v (Ok [(id, v)])); [done|done|by eapply value_size, Hf; apply Htemp|done]| |done].
    intros l' _ Hl'. by apply IH.
  - unfold get_default_value. rewrite Hb. destruct (id =? PKCS11_CKA_PUBLIC_KEY_INFO).
    { apply (safe_bind _ _ _ (λ _, False)); [apply safe_lift; by right|done]. }
    eapply extends_lift; [done|].
    eapply extends_bind; [by apply (extends_add _ _ [] (Ok [(id, [])]))| |done]. intros l' _ Hl'. by apply IH.
Qed.

(** ** The functions of create_attributes_from_template() *)

Lemma Forall_true_bool (P : Z → bool) b (l : list Z) : forallb (λ i, Bool.eqb (P i) b) l = true → Forall (λ i, P i = b) l.
Proof.
  intros Hl. apply Forall_forall. intros i Hi. rewrite forallb_forall in Hl. apply list_elem_of_In, Hl in Hi.
  by apply eqb_prop.
Qed.

Ltac known := (apply Forall_forall; intros ? Hknown; eapply ids_range; [|exact Hknown]; by vm_compute).
Ltac bools_known := (apply (Forall_true_bool pkcs11_attr_is_boolean); by vm_compute).

Abbreviation class := (id_of PKCS11_CKA_CLASS temp).
Abbreviation type := (id_of PKCS11_CKA_KEY_TYPE temp).

Lemma storage_extends : extends (create_storage_attributes (obj temp)) [] (fields_spec temp storage_schema).
Proof.
  unfold create_storage_attributes.
  eapply safe_bind; [eapply safe_mono; [apply init_attributes_ok|exact (λ _ H, H)|by left]|]. intros ? [-> H0].
  eapply extends_lift; [by apply get_id_ok, temp_ok|]. unfold storage_schema. rewrite fields_cons. cbn [fields_spec field_value field_id].
  destruct (class =? PKCS11_UNDEFINED_ID); [by apply extends_err|].
  eapply extends_bind; [by apply (extends_add _ _ _ (Ok [(PKCS11_CKA_CLASS, le32 class)]))| |rewrite fields_app; reflexivity].
  intros l _ Hl. eapply extends_bind; [apply boolprops_extends; [done|known|bools_known]| |reflexivity].
  intros l' _ Hl'. apply optional_extends; [done|known|bools_known].
Qed.

Lemma genkey_extends : extends (create_genkey_attributes (obj temp)) [] (fields_spec temp key_schema).
Proof.
  unfold create_genkey_attributes, key_schema.
  eapply extends_bind; [apply storage_extends| |apply fields_app]. intros l _ Hl.
  eapply extends_lift; [by apply get_id_ok, temp_ok|]. rewrite fields_cons. cbn [fields_spec field_value field_id].
  destruct (type =? PKCS11_UNDEFINED_ID); [by apply extends_err|].
  eapply extends_bind; [by apply (extends_add _ _ _ (Ok [(PKCS11_CKA_KEY_TYPE, le32 type)]))| |rewrite fields_app; reflexivity].
  intros l' _ Hl'. eapply extends_bind; [apply boolprops_extends; [done|known|bools_known]| |reflexivity].
  intros l2 _ Hl2. apply optional_extends; [done|known|bools_known].
Qed.

(** The class and the type of what has been made so far. *)
Lemma made_id fs l id : fields_spec temp fs = Ok l → NoDup (field_id <$> fs) → FId id ∈ fs →
  in_range 32 (id_of id temp) → id_of id l = id_of id temp.
Proof.
  intros Hl Hnd Hin Hr. destruct (fields_find _ _ _ _ Hl Hnd Hin) as (v & Hv & Hf). cbn [field_value field_id] in Hv, Hf.
  unfold id_of at 1. rewrite Hf. destruct (id_of id temp =? PKCS11_UNDEFINED_ID); [done|]. injection Hv as <-.
  rewrite length_le32. by apply le32_back.
Qed.

Lemma assert_temp c m x : class = c → extends m [] x → extends (assert_class (obj temp) c;; m) [] x.
Proof.
  intros <- Hm. eapply (safe_bind _ _ _ (λ _, True)); [|by intros _ _].
  unfold assert_class. eapply safe_ok; [by apply get_id_ok, temp_ok|]. rewrite Z.eqb_refl. by apply (safe_ret tt).
Qed.

Lemma assert_made c l fs m x : fields_spec temp fs = Ok l → NoDup (field_id <$> fs) → FId PKCS11_CKA_CLASS ∈ fs →
  class = c → in_range 32 c → attrs_ok l → extends m l x → extends (assert_class (obj l) c;; m) l x.
Proof.
  intros Hl Hnd Hin Hc Hr Ho Hm. eapply (safe_bind _ _ _ (λ _, True)); [|by intros _ _].
  unfold assert_class. eapply safe_ok; [by apply get_id_ok|].
  rewrite (made_id _ _ _ Hl Hnd Hin) by (by rewrite Hc). rewrite Hc, Z.eqb_refl. by apply (safe_ret tt).
Qed.

Lemma data_extends : class = PKCS11_CKO_DATA →
  extends (create_data_attributes (obj temp)) [] (fields_spec temp (storage_schema ++ (FOptional <$> pkcs11_raw_data_optional))).
Proof.
  intros Hc. unfold create_data_attributes. apply assert_temp; [done|].
  eapply extends_bind; [apply storage_extends| |apply fields_app]. intros l Hl Ho. cbn [app] in *.
  apply (assert_made _ _ _ _ _ Hl); [apply (bool_decide_eq_true _); by vm_compute|left|done|done|done|].
  apply optional_extends; [done|known|bools_known].
Qed.

Lemma symm_extends : class = PKCS11_CKO_SECRET_KEY → key_type_is_symm_key type = true →
  extends (create_symm_key_attributes (obj temp)) []
    (fields_spec temp (key_schema ++ (FBool <$> pkcs11_symm_key_boolprops) ++ (FOptional <$> pkcs11_symm_key_optional))).
Proof.
  intros Hc Ht. unfold create_symm_key_attributes. apply assert_temp; [done|].
  eapply extends_bind; [apply genkey_extends| |apply fields_app]. intros l Hl Ho. cbn [app] in *.
  assert (NoDup (field_id <$> key_schema)) as Hnd by (apply (bool_decide_eq_true _); by vm_compute).
  apply (assert_made _ _ _ _ _ Hl); [done|left|done|done|done|].
  eapply extends_lift; [by apply get_id_ok|]. rewrite (made_id _ _ _ Hl Hnd).
  2: { unfold key_schema. apply elem_of_app. right. left. }
  2: { unfold key_type_is_symm_key, mem_Z in Ht. bools. eapply ids_range; [|exact Ht]. by vm_compute. }
  assert (mem_Z type [PKCS11_CKK_GENERIC_SECRET; PKCS11_CKK_AES; PKCS11_CKK_MD5_HMAC; PKCS11_CKK_SHA_1_HMAC;
                      PKCS11_CKK_SHA256_HMAC; PKCS11_CKK_SHA384_HMAC; PKCS11_CKK_SHA512_HMAC; PKCS11_CKK_SHA224_HMAC] = true) as ->.
  { unfold key_type_is_symm_key, mem_Z in *. bools. apply bool_decide_eq_true. set_solver. }
  cbn [negb]. eapply extends_bind; [apply boolprops_extends; [done|known|bools_known]| |apply fields_app].
  intros l' _ Hl'. apply optional_extends; [done|known|bools_known].
Qed.

(** The type stays readable while fields are added. *)
Lemma made_type l l' : fields_spec temp key_schema = Ok l → in_range 32 type → id_of PKCS11_CKA_KEY_TYPE (l ++ l') = type.
Proof.
  intros Hl Hr. assert (NoDup (field_id <$> key_schema)) as Hnd by (apply (bool_decide_eq_true _); by vm_compute).
  assert (FId PKCS11_CKA_KEY_TYPE ∈ key_schema) as Hin by (unfold key_schema; apply elem_of_app; right; left).
  rewrite <- (made_id _ _ _ Hl Hnd Hin Hr). unfold id_of. rewrite find_attr_app.
  destruct (fields_find _ _ _ _ Hl Hnd Hin) as (v & _ & Hf). cbn [field_id] in Hf. by rewrite Hf.
Qed.

Lemma asymm_range : key_type_is_asymm_key type = true → in_range 32 type.
Proof. unfold key_type_is_asymm_key, mem_Z. intros Ht. bools. eapply ids_range; [|exact Ht]. by vm_compute. Qed.

Lemma by_key_type_extends l rsa ec :
  attrs_ok l → id_of PKCS11_CKA_KEY_TYPE l = type → key_type_is_asymm_key type = true →
  known rsa.1 → known rsa.2 → known ec.1 → known ec.2 →
  Forall (λ id, pkcs11_attr_is_boolean id = false) rsa.2 → Forall (λ id, pkcs11_attr_is_boolean id = false) ec.2 →
  extends (by_key_type (obj l) (obj temp) rsa ec) l (fields_spec temp (type_schema type rsa ec)).
Proof.
  intros Hl Hty Hk H1 H2 H3 H4 H5 H6. unfold by_key_type, type_schema. eapply extends_lift; [by apply get_id_ok|]. rewrite Hty.
  destruct rsa as [rm ro], ec as [em eo]. cbn [fst snd] in *. destruct (Z.eqb_spec type PKCS11_CKK_RSA) as [He|He].
  - eapply extends_bind; [by apply mandatory_extends| |apply fields_app]. intros l' _ Hl'. by apply optional_extends.
  - destruct (Z.eqb_spec type PKCS11_CKK_EC) as [He'|He'].
    + eapply extends_bind; [by apply mandatory_extends| |apply fields_app]. intros l' _ Hl'. by apply optional_extends.
    + unfold key_type_is_asymm_key, mem_Z in Hk. bools. rewrite !elem_of_cons, elem_of_nil in Hk. naive_solver.
Qed.

Lemma pub_extends : class = PKCS11_CKO_PUBLIC_KEY → key_type_is_asymm_key type = true →
  extends (create_pub_key_attributes (obj temp)) []
    (fields_spec temp (key_schema ++ (FBool <$> pkcs11_public_key_boolprops) ++ (FMandated <$> pkcs11_public_key_mandated) ++
       (FOptional <$> pkcs11_public_key_optional) ++
       type_schema type (pkcs11_rsa_public_key_mandated, pkcs11_rsa_public_key_optional)
         (pkcs11_ec_public_key_mandated, pkcs11_ec_public_key_optional))).
Proof.
  intros Hc Ht. unfold create_pub_key_attributes. apply assert_temp; [done|].
  eapply extends_bind; [apply genkey_extends| |apply fields_app]. intros l Hl Ho. cbn [app] in *.
  assert (NoDup (field_id <$> key_schema)) as Hnd by (apply (bool_decide_eq_true _); by vm_compute).
  apply (assert_made _ _ _ _ _ Hl); [done|left|done|done|done|].
  eapply extends_bind; [apply boolprops_extends; [done|known|bools_known]| |apply fields_app]. intros l1 _ Ho1.
  eapply extends_bind; [apply mandatory_extends; [done|known]| |apply fields_app]. intros l2 _ Ho2.
  eapply extends_bind; [apply optional_extends; [done|known|bools_known]| |apply fields_app]. intros l3 _ Ho3.
  apply by_key_type_extends; try known; try bools_known; [done| |done].
  rewrite <- !app_assoc. apply made_type; [done|by apply asymm_range].
Qed.

Lemma priv_extends : class = PKCS11_CKO_PRIVATE_KEY → key_type_is_asymm_key type = true →
  extends (create_priv_key_attributes (obj temp)) []
    (fields_spec temp (key_schema ++ (FBool <$> pkcs11_private_key_boolprops) ++ (FMandated <$> pkcs11_private_key_mandated) ++
       (FOptional <$> pkcs11_private_key_optional) ++
       type_schema type ([], pkcs11_rsa_private_key_optional) (pkcs11_ec_private_key_mandated, pkcs11_ec_private_key_optional))).
Proof.
  intros Hc Ht. unfold create_priv_key_attributes. apply assert_temp; [done|].
  eapply extends_bind; [apply genkey_extends| |apply fields_app]. intros l Hl Ho. cbn [app] in *.
  assert (NoDup (field_id <$> key_schema)) as Hnd by (apply (bool_decide_eq_true _); by vm_compute).
  apply (assert_made _ _ _ _ _ Hl); [done|left|done|done|done|].
  eapply extends_bind; [apply boolprops_extends; [done|known|bools_known]| |apply fields_app]. intros l1 _ Ho1.
  eapply extends_bind; [apply mandatory_extends; [done|known]| |apply fields_app]. intros l2 _ Ho2.
  eapply extends_bind; [apply optional_extends; [done|known|bools_known]| |apply fields_app]. intros l3 _ Ho3.
  apply by_key_type_extends; try known; try bools_known; [done| |done].
  rewrite <- !app_assoc. apply made_type; [done|by apply asymm_range].
Qed.

Lemma consistent_ok : sanitize_consistent_class_and_type (obj temp) = Ok (class_type_consistent class type).
Proof.
  destruct Htemp as (Ho & _ & Hm). unfold sanitize_consistent_class_and_type, class_type_consistent, get_class, get_key_type, get_mechanism_type.
  rewrite !get_id_ok by done. rewrite bind_Ok.
  assert (id_of PKCS11_CKA_MECHANISM_TYPE temp = PKCS11_UNDEFINED_ID) as -> by (unfold id_of; by rewrite Hm).
  set (t := type). clearbody t. set (c := class). clearbody c.
  destruct (Z.eqb_spec c PKCS11_CKO_DATA) as [->|]; [done|]. destruct (Z.eqb_spec c PKCS11_CKO_SECRET_KEY) as [->|].
  { cbn. by rewrite orb_false_r. }
  destruct (Z.eqb_spec c PKCS11_CKO_MECHANISM) as [->|]; [done|]. cbn [orb].
  by destruct ((c =? PKCS11_CKO_PUBLIC_KEY) || (c =? PKCS11_CKO_PRIVATE_KEY)).
Qed.

(** ** The end of create_attributes_from_template() *)

Definition runtime_schema (c : Z) : list field :=
  if c =? PKCS11_CKO_DATA then [FConst PKCS11_CKA_LOCAL [0]] else final_schema.

(** The fields before LOCAL. *)
Definition made_schema : list field :=
  if class =? PKCS11_CKO_DATA then storage_schema ++ (FOptional <$> pkcs11_raw_data_optional)
  else if class =? PKCS11_CKO_SECRET_KEY then
    key_schema ++ (FBool <$> pkcs11_symm_key_boolprops) ++ (FOptional <$> pkcs11_symm_key_optional)
  else if class =? PKCS11_CKO_PUBLIC_KEY then
    key_schema ++ (FBool <$> pkcs11_public_key_boolprops) ++ (FMandated <$> pkcs11_public_key_mandated) ++
    (FOptional <$> pkcs11_public_key_optional) ++
    type_schema type (pkcs11_rsa_public_key_mandated, pkcs11_rsa_public_key_optional)
      (pkcs11_ec_public_key_mandated, pkcs11_ec_public_key_optional)
  else
    key_schema ++ (FBool <$> pkcs11_private_key_boolprops) ++ (FMandated <$> pkcs11_private_key_mandated) ++
    (FOptional <$> pkcs11_private_key_optional) ++
    type_schema type ([], pkcs11_rsa_private_key_optional) (pkcs11_ec_private_key_mandated, pkcs11_ec_private_key_optional).

Lemma schema_made : schema class type = made_schema ++ runtime_schema class.
Proof.
  unfold schema, made_schema, runtime_schema. destruct (class =? PKCS11_CKO_DATA); [by rewrite <- app_assoc|].
  destruct (class =? PKCS11_CKO_SECRET_KEY); [by rewrite <- !app_assoc|].
  destruct (class =? PKCS11_CKO_PUBLIC_KEY); by rewrite <- !app_assoc.
Qed.

Lemma made_free : forallb (λ f, negb (mem_Z (field_id f) [PKCS11_CKA_LOCAL; PKCS11_CKA_KEY_GEN_MECHANISM])) made_schema = true.
Proof. unfold made_schema, type_schema. repeat case_match; simplify_eq; by vm_compute. Qed.

Lemma made_none l id : fields_spec temp made_schema = Ok l → id ∈ [PKCS11_CKA_LOCAL; PKCS11_CKA_KEY_GEN_MECHANISM] →
  find_attr id l = None.
Proof.
  intros Hl Hid. apply find_attr_None, Forall_forall. intros a Ha He. apply fields_ids in Hl.
  apply (list_elem_of_fmap_2 fst) in Ha. rewrite Hl in Ha. apply list_elem_of_fmap in Ha as (f & Hf & Hin).
  pose proof made_free as Hfree. rewrite forallb_forall in Hfree. apply list_elem_of_In, Hfree in Hin.
  apply negb_true_iff in Hin. unfold mem_Z in Hin. bools. rewrite <- Hf, He in Hin. done.
Qed.

Lemma class_type_class : class_type_consistent class type = true →
  class = PKCS11_CKO_DATA ∨ class = PKCS11_CKO_SECRET_KEY ∨ class = PKCS11_CKO_PUBLIC_KEY ∨ class = PKCS11_CKO_PRIVATE_KEY.
Proof.
  unfold class_type_consistent. rewrite !orb_true_iff, !andb_true_iff, orb_true_iff, !Z.eqb_eq. intuition.
Qed.

Lemma made_class l : fields_spec temp made_schema = Ok l → class_type_consistent class type = true →
  id_of PKCS11_CKA_CLASS l = class.
Proof.
  intros Hl Hc. apply (made_id _ _ _ Hl).
  - pose proof (schema_nodup class type) as Hnd. rewrite schema_made, fmap_app in Hnd. by apply NoDup_app in Hnd as [? _].
  - unfold made_schema. repeat case_match; left.
  - apply class_type_class in Hc as [->|[->|[->| ->]]]; done.
Qed.

Lemma runtime_ok l : fields_spec temp made_schema = Ok l → class_type_consistent class type = true → attrs_ok l →
  safe (set_runtime_attributes (obj l))
    (λ r, ∃ l', fields_spec temp (schema class type) = Ok l' ∧ r = Some (obj l') ∧ attrs_ok l') no_memory.
Proof.
  intros Hl Hc Ho. unfold set_runtime_attributes.
  assert (∀ id, id ∈ [PKCS11_CKA_LOCAL; PKCS11_CKA_KEY_GEN_MECHANISM] →
    safe (mtry (lift (get_attribute (obj l) id None))) (λ r, r = inl PKCS11_RV_NOT_FOUND) no_memory) as Hnone.
  { intros id Hid fs. rewrite get_attribute_ok by done. by rewrite (made_none _ _ Hl Hid). }
  eapply safe_bind; [apply Hnone; left|]. intros ? ->. eapply safe_bind; [apply Hnone; right; left|]. intros ? ->.
  rewrite schema_made, fields_app, Hl, bind_Ok. unfold runtime_schema.
  eapply safe_bind; [by apply add_attribute_ok|]. intros ? [-> Ho1].
  eapply safe_ok; [by apply get_id_ok|].
  assert (id_of PKCS11_CKA_CLASS (l ++ [(PKCS11_CKA_LOCAL, [0])]) = class) as ->.
  { rewrite <- (made_class _ Hl Hc). unfold id_of. rewrite find_attr_app. by destruct (find_attr PKCS11_CKA_CLASS l). }
  pose proof (class_type_class Hc) as Hcl. destruct (Z.eqb_spec class PKCS11_CKO_DATA) as [He|He].
  - rewrite He. apply safe_ret. eexists. split; [reflexivity|done].
  - destruct Hcl as [?|Hcl]; [done|]. assert (mem_Z class [PKCS11_CKO_SECRET_KEY; PKCS11_CKO_PRIVATE_KEY; PKCS11_CKO_PUBLIC_KEY] = true) as ->.
    { unfold mem_Z. apply bool_decide_eq_true. destruct Hcl as [->|[->| ->]]; set_solver. }
    eapply safe_bind; [by apply add_attribute_ok|]. intros ? [-> Ho2].
    eapply safe_bind; [by apply add_attribute_ok|]. intros ? [-> Ho3].
    eapply safe_bind; [by apply add_attribute_ok|]. intros ? [-> Ho4].
    rewrite <- !app_assoc in *. apply safe_ret. eexists. split; [reflexivity|done].
Qed.

Lemma create_ok : class_type_consistent class type = true →
  extends (if class =? PKCS11_CKO_DATA then create_data_attributes (obj temp)
           else if class =? PKCS11_CKO_SECRET_KEY then create_symm_key_attributes (obj temp)
           else if class =? PKCS11_CKO_PUBLIC_KEY then create_pub_key_attributes (obj temp)
           else if class =? PKCS11_CKO_PRIVATE_KEY then create_priv_key_attributes (obj temp)
           else mthrow PKCS11_CKR_TEMPLATE_INCONSISTENT) [] (fields_spec temp made_schema).
Proof.
  intros Hc. unfold made_schema. pose proof Hc as Hcons. unfold class_type_consistent in Hcons.
  destruct (Z.eqb_spec class PKCS11_CKO_DATA) as [He|He]; [by apply data_extends|].
  destruct (Z.eqb_spec class PKCS11_CKO_SECRET_KEY) as [He1|He1].
  { apply symm_extends; [done|]. rewrite He1 in Hcons. cbn in Hcons. by rewrite orb_false_r in Hcons. }
  destruct (Z.eqb_spec class PKCS11_CKO_PUBLIC_KEY) as [He2|He2]; [by apply pub_extends|].
  destruct (Z.eqb_spec class PKCS11_CKO_PRIVATE_KEY) as [He3|He3]; [by apply priv_extends|done].
Qed.
End template.

(** The template is refused, and its trace reads outside of it. *)
Definition outside_of (template : list Z) : Prop :=
  template_outside template 0 (Z.of_nat (length template)) ∧ ∃ e, sanitize_spec (S (length template)) template = Err e.

(** With the traces, which are called in every build, and without. *)
Lemma create_refines traces template : bytes_ok template → Z.of_nat (length template) < 2 ^ 62 →
  safe_or (traces = true ∧ outside_of template) (create_attributes_from_template traces template)
    (λ r, ∃ temp l, sanitize_spec (S (length template)) template = Ok temp ∧ template_ok temp ∧ object_spec temp = Ok l ∧
          r = Some (obj l) ∧ attrs_ok l)
    (λ e, no_memory e ∨ sanitize_spec (S (length template)) template = Err e ∨
          ∃ temp, sanitize_spec (S (length template)) template = Ok temp ∧ object_spec temp = Err e).
Proof.
  intros Hb Hsize. unfold create_attributes_from_template. cbv zeta.
  eapply safe_or_bind; [eapply safe_or_mono; [apply (sanitize_traced traces template 0 template)|..]|].
  - done.
  - done.
  - exists [], []. by rewrite app_nil_r.
  - exact (λ _ H, H).
  - intros e [He|He]; auto.
  - done.
  - intros ? (temp & Hs & -> & Ho). assert (template_ok temp) as Ht.
    { apply wf_template_ok; [done|]. by eapply sanitize_spec_wf. }
    eapply (safe_mono _ (λ r, ∃ l, object_spec temp = Ok l ∧ r = Some (obj l) ∧ attrs_ok l) _ (λ e, no_memory e ∨ object_spec temp = Err e)).
    2: { intros r (l & Hl). by exists temp, l. }
    2: { intros e [He|He]; [by left|]. right. right. by exists temp. }
    do 2 (eapply safe_ok; [by apply get_id_ok|]). unfold object_spec.
    destruct ((id_of PKCS11_CKA_CLASS temp =? PKCS11_UNDEFINED_ID) && (id_of PKCS11_CKA_KEY_TYPE temp =? PKCS11_UNDEFINED_ID)) eqn:Hund;
      [apply safe_throw; by right|].
    eapply safe_ok; [by apply consistent_ok|].
    destruct (class_type_consistent _ _) eqn:Hc; cbn [negb]; [|apply safe_throw; by right].
    eapply safe_bind; [eapply safe_mono; [by apply (create_ok temp Ht Hc)|exact (λ _ H, H)|]|].
    + intros e [He|He]; [by left|]. right. by rewrite schema_made, fields_app, He.
    + intros ? (l & Hl & -> & Hol). eapply safe_mono; [by apply (runtime_ok temp Ht l Hl Hc)|done|by left].
Qed.

(** ** Booleans of a new object *)

Lemma object_schema temp l : object_spec temp = Ok l →
  let class := id_of PKCS11_CKA_CLASS temp in let type := id_of PKCS11_CKA_KEY_TYPE temp in
  class_type_consistent class type = true ∧ fields_spec temp (schema class type) = Ok l.
Proof. unfold object_spec. destruct (_ && _); [done|]. by destruct (class_type_consistent _ _). Qed.

Definition bool_field (f : field) : bool :=
  if pkcs11_attr_is_boolean (field_id f) then match f with FBool _ | FConst _ [0] => true | _ => false end else true.

Lemma schema_bools class type : forallb bool_field (schema class type) = true.
Proof. unfold schema, type_schema. repeat case_match; simplify_eq; by vm_compute. Qed.

Lemma object_field temp l id v : object_spec temp = Ok l → find_attr id l = Some v →
  ∃ f, f ∈ schema (id_of PKCS11_CKA_CLASS temp) (id_of PKCS11_CKA_KEY_TYPE temp) ∧ field_id f = id ∧ field_value temp f = Ok v.
Proof.
  intros Hl Hf. apply object_schema in Hl as [_ Hl]. pose proof Hf as Hin. apply find_attr_Some, (list_elem_of_fmap_2 fst) in Hin.
  rewrite (fields_ids _ _ _ Hl) in Hin. apply list_elem_of_fmap in Hin as (f & Hid & Hin). cbn [fst] in Hid. exists f. split; [done|].
  split; [done|]. destruct (fields_find _ _ _ _ Hl (schema_nodup _ _) Hin) as (w & Hw & Hfw). rewrite <- Hid in Hfw. congruence.
Qed.

Lemma object_bool temp l id v : template_ok temp → object_spec temp = Ok l → pkcs11_attr_is_boolean id = true →
  find_attr id l = Some v → v ∈ [[0]; [1]].
Proof.
  intros (_ & Ht & _) Hl Hid Hf. destruct (object_field _ _ _ _ Hl Hf) as (f & Hin & <- & Hv).
  pose proof (schema_bools (id_of PKCS11_CKA_CLASS temp) (id_of PKCS11_CKA_KEY_TYPE temp)) as Hb.
  rewrite forallb_forall in Hb. apply list_elem_of_In, Hb in Hin. unfold bool_field in Hin. rewrite Hid in Hin.
  destruct f as [|i| | |i w]; try done; cbn [field_value field_id] in *.
  - destruct (find_attr i temp) as [w|] eqn:Hw; [injection Hv as <-; by apply (Ht i)|].
    destruct (pkcs11_object_default_boolprop i) as [[]|]; [| |done]; injection Hv as <-; [right|]; left.
  - injection Hv as ->. destruct v as [|[] [|]]; try done. left.
Qed.

Lemma object_get_bool temp l id : template_ok temp → attrs_ok l → object_spec temp = Ok l → pkcs11_attr_is_boolean id = true →
  get_bool (obj l) id = Ok (bool_of id l).
Proof.
  intros Ht Ho Hl Hid. apply get_bool_ok; [done|]. intros v Hv. apply (object_bool _ _ _ _ Ht Hl Hid) in Hv.
  apply elem_of_cons in Hv as [->|Hv]; [done|]. by apply list_elem_of_singleton in Hv as ->.
Qed.

(** The booleans the TA sets. *)
Lemma object_const temp l id : object_spec temp = Ok l →
  id ∈ [PKCS11_CKA_LOCAL; PKCS11_CKA_NEVER_EXTRACTABLE; PKCS11_CKA_ALWAYS_SENSITIVE] → bool_of id l = false.
Proof.
  intros Hl Hid. unfold bool_of. destruct (find_attr id l) as [v|] eqn:Hf; [|done].
  destruct (object_field _ _ _ _ Hl Hf) as (f & Hin & Hfid & Hv).
  assert (forallb (λ f, if mem_Z (field_id f) [PKCS11_CKA_LOCAL; PKCS11_CKA_NEVER_EXTRACTABLE; PKCS11_CKA_ALWAYS_SENSITIVE]
                        then match f with FConst _ [0] => true | _ => false end else true)
            (schema (id_of PKCS11_CKA_CLASS temp) (id_of PKCS11_CKA_KEY_TYPE temp)) = true) as Hall.
  { unfold schema, type_schema. repeat case_match; simplify_eq; by vm_compute. }
  rewrite forallb_forall in Hall. apply list_elem_of_In, Hall in Hin. unfold mem_Z in Hin.
  rewrite Hfid, bool_decide_true in Hin by done. destruct f as [| | | |i w]; try done. injection Hv as ->.
  by destruct v as [|[] [|]].
Qed.

Lemma object_local temp l : object_spec temp = Ok l → find_attr PKCS11_CKA_LOCAL l = Some [0].
Proof.
  intros Hl. apply object_schema in Hl as [_ Hl].
  assert (FConst PKCS11_CKA_LOCAL [0] ∈ schema (id_of PKCS11_CKA_CLASS temp) (id_of PKCS11_CKA_KEY_TYPE temp)) as Hin.
  { rewrite schema_made. unfold runtime_schema, final_schema. apply elem_of_app. right. case_match; left. }
  destruct (fields_find _ _ _ _ Hl (schema_nodup _ _) Hin) as (v & Hv & Hf). injection Hv as <-. exact Hf.
Qed.


(** What create_attributes_from_template() returns passes the checks of a new object. *)
Lemma created_checks traces template : bytes_ok template → Z.of_nat (length template) < 2 ^ 62 →
  safe_or (traces = true ∧ outside_of template) (create_attributes_from_template traces template)
    (λ r, ∃ l, r = Some (obj l) ∧ get_bool (obj l) PKCS11_CKA_TOKEN = Ok (bool_of PKCS11_CKA_TOKEN l) ∧
       check_created_attrs_against_processing PKCS11_PROCESSING_IMPORT (obj l) = Ok tt ∧
       ∀ is_so is_read_write, check_created_attrs_against_token is_so is_read_write (obj l)
       = if bool_of PKCS11_CKA_TRUSTED l && negb is_so then Err PKCS11_CKR_KEY_FUNCTION_NOT_PERMITTED
         else if bool_of PKCS11_CKA_TOKEN l && negb is_read_write then Err PKCS11_CKR_SESSION_READ_ONLY
         else Ok tt)
    (λ e, True).
Proof.
  intros Hb Hsize. eapply safe_or_mono; [by apply (create_refines traces)| |done|done].
  intros r (temp & l & Hs & Ht & Hl & -> & Ho). exists l. split; [done|].
  pose proof (λ id, object_get_bool temp l id Ht Ho Hl) as Hbool.
  split; [by apply Hbool|]. split.
  - unfold check_created_attrs_against_processing, check_attr_bval. rewrite get_attribute_ok by done.
    by rewrite (object_local _ _ Hl).
  - intros is_so is_read_write. unfold check_created_attrs_against_token, check_attrs_misc_integrity.
    rewrite (Hbool PKCS11_CKA_NEVER_EXTRACTABLE), (Hbool PKCS11_CKA_ALWAYS_SENSITIVE) by done.
    rewrite (object_const _ _ PKCS11_CKA_NEVER_EXTRACTABLE Hl) by (right; left).
    rewrite (object_const _ _ PKCS11_CKA_ALWAYS_SENSITIVE Hl) by (right; right; left).
    cbn [mret outcome_ret mbind outcome_bind andb]. rewrite (Hbool PKCS11_CKA_TRUSTED) by done.
    cbn [mret outcome_ret mbind outcome_bind]. rewrite (Hbool PKCS11_CKA_TOKEN) by done. reflexivity.
Qed.

(** C24: The checks of a new object: check_created_attrs_against_processing() finds what
    it asserts, no attribute check panics, and check_created_attrs_against_token()
    refuses exactly a trusted object of a session that is not the security officer's and
    an object on the token of a read-only session. This holds with the traces of refused
    templates, as in every build, where only such a trace may panic, and without them,
    where nothing does. *)
Theorem new_objects_checked traces template is_so is_read_write :
  bytes_ok template → Z.of_nat (length template) < 2 ^ 62 →
  safe_or (traces = true ∧ outside_of template) (create_attributes_from_template traces template)
    (λ r, ∃ l, r = Some (obj l) ∧
       check_created_attrs_against_processing PKCS11_PROCESSING_IMPORT (obj l) = Ok tt ∧
       check_created_attrs_against_token is_so is_read_write (obj l)
       = if bool_of PKCS11_CKA_TRUSTED l && negb is_so then Err PKCS11_CKR_KEY_FUNCTION_NOT_PERMITTED
         else if bool_of PKCS11_CKA_TOKEN l && negb is_read_write then Err PKCS11_CKR_SESSION_READ_ONLY
         else Ok tt)
    (λ e, True).
Proof.
  intros Hb Hsize. eapply safe_or_mono; [by apply (created_checks traces)| |done|done].
  intros r (l & -> & _ & Hp & Ht). exists l. auto.
Qed.
End heap.

(** ** Witnesses *)

(** An AES key on the token, with its value. *)
Definition key_template : list attr :=
  [(PKCS11_CKA_CLASS, le32 PKCS11_CKO_SECRET_KEY); (PKCS11_CKA_KEY_TYPE, le32 PKCS11_CKK_AES); (PKCS11_CKA_TOKEN, [1]);
   (PKCS11_CKA_VALUE, replicate 16 7)].

Lemma key_template_bytes : bytes_ok (obj key_template).
Proof. apply bytes_ok_dec. by vm_compute. Qed.


Lemma new_objects_checked_witness :
  let template := obj key_template in
  safe_or (true = true ∧ outside_of template) (create_attributes_from_template (H := heap_64k) true template)
    (λ r, ∃ l, r = Some (obj l) ∧
       check_created_attrs_against_processing PKCS11_PROCESSING_IMPORT (obj l) = Ok tt ∧
       check_created_attrs_against_token false false (obj l)
       = if bool_of PKCS11_CKA_TRUSTED l && negb false then Err PKCS11_CKR_KEY_FUNCTION_NOT_PERMITTED
         else if bool_of PKCS11_CKA_TOKEN l && negb false then Err PKCS11_CKR_SESSION_READ_ONLY
         else Ok tt)
    (λ e, True) ∧
  match fst (create_attributes_from_template (H := heap_64k) true template []) with
  | Ok (Some o) => check_created_attrs_against_token false false o = Err PKCS11_CKR_SESSION_READ_ONLY ∧
                   check_created_attrs_against_token false true o = Ok tt
  | _ => False
  end.
Proof.
  intros template. split; [|by vm_compute].
  apply (new_objects_checked (H := heap_64k) true template false false key_template_bytes). by vm_compute.
Defined.

(** A public key without CKA_PUBLIC_KEY_INFO, which is among its optional attributes,
    is refused. *)
Example public_key_info_required :
  let template := obj [(PKCS11_CKA_CLASS, le32 PKCS11_CKO_PUBLIC_KEY); (PKCS11_CKA_KEY_TYPE, le32 PKCS11_CKK_RSA);
                       (PKCS11_CKA_SUBJECT, []); (PKCS11_CKA_MODULUS_BITS, le32 2048)] in
  fst (create_attributes_from_template (H := heap_64k) true template []) = Err PKCS11_CKR_TEMPLATE_INCONSISTENT.
Proof. by vm_compute. Qed.
