(* ===== verification/Pkcs11Token.v ===== *)
(** * Tokens and sessions of the PKCS#11 TA (ta/pkcs11/src/pkcs11_token.c)

    The state of the TA: tokens, client applications and their sessions, and the PINs
    of persistent_token.c. A command of a client is one step (the TA is single
    threaded). What lives in the heap is in maps from addresses; no address is used
    twice. The environment says what the next external calls return. *)
From S2P Require Import Prelude HandleSpec Pkcs11Handle Pkcs11Attr.

Local Open Scope Z_scope.

(** ** Constants (ta/pkcs11/include/pkcs11_ta.h, pkcs11_token.h) *)

Abbreviation PKCS11_CKFT_WRITE_PROTECTED := (2 ^ 1).
Abbreviation PKCS11_CKFT_USER_PIN_INITIALIZED := (2 ^ 3).
Abbreviation PKCS11_CKFT_TOKEN_INITIALIZED := (2 ^ 10).
Abbreviation PKCS11_CKFT_USER_PIN_COUNT_LOW := (2 ^ 16).
Abbreviation PKCS11_CKFT_USER_PIN_FINAL_TRY := (2 ^ 17).
Abbreviation PKCS11_CKFT_USER_PIN_LOCKED := (2 ^ 18).
Abbreviation PKCS11_CKFT_USER_PIN_TO_BE_CHANGED := (2 ^ 19).
Abbreviation PKCS11_CKFT_SO_PIN_COUNT_LOW := (2 ^ 20).
Abbreviation PKCS11_CKFT_SO_PIN_FINAL_TRY := (2 ^ 21).
Abbreviation PKCS11_CKFT_SO_PIN_LOCKED := (2 ^ 22).
Abbreviation PKCS11_CKFT_SO_PIN_TO_BE_CHANGED := (2 ^ 23).

Abbreviation PKCS11_CKU_SO := 0.
Abbreviation PKCS11_CKU_USER := 1.
Abbreviation PKCS11_CKU_CONTEXT_SPECIFIC := 2.

Abbreviation PKCS11_CKFSS_RW_SESSION := 2.
Abbreviation PKCS11_CKFSS_SERIAL_SESSION := 4.

Definition TOKEN_COUNT : Z := 3.
Definition PKCS11_TOKEN_PIN_SIZE_MAX : Z := 128.
Definition PKCS11_TOKEN_PIN_SIZE_MIN : Z := 10.
Definition PKCS11_TOKEN_SO_PIN_COUNT_MAX : Z := 7.
Definition PKCS11_TOKEN_USER_PIN_COUNT_MAX : Z := 7.
Abbreviation PKCS11_TOKEN_LABEL_SIZE := 32.

Inductive pkcs11_session_state :=
| PKCS11_CKS_RO_PUBLIC_SESSION
| PKCS11_CKS_RO_USER_FUNCTIONS
| PKCS11_CKS_RW_PUBLIC_SESSION
| PKCS11_CKS_RW_USER_FUNCTIONS
| PKCS11_CKS_RW_SO_FUNCTIONS.

#[global] Instance pkcs11_session_state_eq_dec : EqDecision pkcs11_session_state.
Proof. solve_decision. Defined.

Inductive pkcs11_token_state := PKCS11_TOKEN_RESET | PKCS11_TOKEN_READ_WRITE | PKCS11_TOKEN_READ_ONLY.

#[global] Instance pkcs11_token_state_eq_dec : EqDecision pkcs11_token_state.
Proof. solve_decision. Defined.

(** ** State *)

Record token_persistent_main := Main {
  label : list Z; flags : Z;
  so_pin_count : Z; so_pin_salt : Z; so_pin_hash : list Z;
  user_pin_count : Z; user_pin_salt : Z; user_pin_hash : list Z;
}.

(** [token_objects] is object_list, a list of addresses; [db_objs] the UUIDs. *)
Record ck_token := Token {
  tk_state : pkcs11_token_state; session_count : Z; rw_session_count : Z;
  token_objects : list Z; db_main : token_persistent_main; db_objs : list Z;
}.

(** The list an object is linked into. *)
Inductive object_link := InSession (session : Z) | OnToken (token : Z).

#[global] Instance object_link_eq_dec : EqDecision object_link.
Proof. solve_decision. Defined.

(** [link]: [None] before the object is in a list. [attributes]: [None] is NULL. *)
Record pkcs11_object := Object { link : option object_link; attributes : option (list Z); uuid : option Z }.

(** [client], the sessions of [session_list] and the objects are addresses; [token] is
    the index of the token. *)
Record pkcs11_session := Session {
  client : Z; token : Z; handle : Z; session_objects : list Z; object_handle_db : handle_db; state : pkcs11_session_state;
}.

Record pkcs11_client := Client { session_list : list Z; session_handle_db : handle_db }.

(** A failure of the hash operation: of TEE_AllocateOperation(), of TEE_DigestDoFinal(). *)
Inductive hash_fault := AllocateFails (res : tee_result) | FinalFails.

(** What the next calls return: allocations, random numbers, accesses to the storage
    (false: it fails), failures of the hash operation. Used up, all goes well. *)
Record environment := Env { e_mem : list bool; e_random : list Z; e_store : list bool; e_hash : list (option hash_fault) }.

(** [stored]: the databases of the tokens in the secure storage, [None] before they
    are created, with [None] for the UUIDs when the file ends before them; [object_files]: the files of the token objects, by UUID. *)
Record ta := Ta {
  tokens : list ck_token; client_list : list Z; clients : gmap Z pkcs11_client; sessions : gmap Z pkcs11_session;
  objects : gmap Z pkcs11_object; stored : list (option (token_persistent_main * option (list Z)));
  object_files : gmap Z (list Z); next_ptr : Z; env : environment;
}.

Definition set_tokens (s : ta) (x : list ck_token) : ta :=
  Ta x (client_list s) (clients s) (sessions s) (objects s) (stored s) (object_files s) (next_ptr s) (env s).
Definition set_clients (s : ta) (l : list Z) (x : gmap Z pkcs11_client) : ta :=
  Ta (tokens s) l x (sessions s) (objects s) (stored s) (object_files s) (next_ptr s) (env s).
Definition set_sessions (s : ta) (x : gmap Z pkcs11_session) : ta :=
  Ta (tokens s) (client_list s) (clients s) x (objects s) (stored s) (object_files s) (next_ptr s) (env s).
Definition set_objects (s : ta) (x : gmap Z pkcs11_object) : ta :=
  Ta (tokens s) (client_list s) (clients s) (sessions s) x (stored s) (object_files s) (next_ptr s) (env s).
Definition set_stored (s : ta) (x : list (option (token_persistent_main * option (list Z)))) : ta :=
  Ta (tokens s) (client_list s) (clients s) (sessions s) (objects s) x (object_files s) (next_ptr s) (env s).
Definition set_files (s : ta) (x : gmap Z (list Z)) : ta :=
  Ta (tokens s) (client_list s) (clients s) (sessions s) (objects s) (stored s) x (next_ptr s) (env s).
Definition set_next (s : ta) (x : Z) : ta :=
  Ta (tokens s) (client_list s) (clients s) (sessions s) (objects s) (stored s) (object_files s) x (env s).
Definition set_env (s : ta) (x : environment) : ta :=
  Ta (tokens s) (client_list s) (clients s) (sessions s) (objects s) (stored s) (object_files s) (next_ptr s) x.

Definition set_main (t : ck_token) (m : token_persistent_main) : ck_token :=
  Token (tk_state t) (session_count t) (rw_session_count t) (token_objects t) m (db_objs t).
Definition set_counts (t : ck_token) (n rw : Z) : ck_token :=
  Token (tk_state t) n rw (token_objects t) (db_main t) (db_objs t).
Definition set_state (s : pkcs11_session) (st : pkcs11_session_state) : pkcs11_session :=
  Session (client s) (token s) (handle s) (session_objects s) (object_handle_db s) st.
Definition set_session_objects (s : pkcs11_session) (l : list Z) (db : handle_db) : pkcs11_session :=
  Session (client s) (token s) (handle s) l db (state s).

(** [flags & f] and the changes of flags. *)
Definition has_flag (m : token_persistent_main) (f : Z) : bool := negb (Z.land (flags m) f =? 0).
Definition set_flags (m : token_persistent_main) (f : Z) : token_persistent_main :=
  Main (label m) f (so_pin_count m) (so_pin_salt m) (so_pin_hash m) (user_pin_count m) (user_pin_salt m) (user_pin_hash m).
Definition set_so (m : token_persistent_main) (count salt : Z) (hash : list Z) : token_persistent_main :=
  Main (label m) (flags m) count salt hash (user_pin_count m) (user_pin_salt m) (user_pin_hash m).
Definition set_user (m : token_persistent_main) (count salt : Z) (hash : list Z) : token_persistent_main :=
  Main (label m) (flags m) (so_pin_count m) (so_pin_salt m) (so_pin_hash m) count salt hash.
Definition set_label (m : token_persistent_main) (l : list Z) : token_persistent_main :=
  Main l (flags m) (so_pin_count m) (so_pin_salt m) (so_pin_hash m) (user_pin_count m) (user_pin_salt m) (user_pin_hash m).

(** ** Sessions (pkcs11_token.h) *)

Definition pkcs11_session_is_read_write (s : pkcs11_session) : bool :=
  match state s with
  | PKCS11_CKS_RW_PUBLIC_SESSION | PKCS11_CKS_RW_USER_FUNCTIONS | PKCS11_CKS_RW_SO_FUNCTIONS => true
  | _ => false
  end.
Definition pkcs11_session_is_public (s : pkcs11_session) : bool :=
  match state s with PKCS11_CKS_RO_PUBLIC_SESSION | PKCS11_CKS_RW_PUBLIC_SESSION => true | _ => false end.
Definition pkcs11_session_is_user (s : pkcs11_session) : bool :=
  match state s with PKCS11_CKS_RO_USER_FUNCTIONS | PKCS11_CKS_RW_USER_FUNCTIONS => true | _ => false end.
Definition pkcs11_session_is_so (s : pkcs11_session) : bool :=
  match state s with PKCS11_CKS_RW_SO_FUNCTIONS => true | _ => false end.

(** ** Access to the state; a wrong address is a fault *)

Abbreviation K := (M ta pkcs11_rc).

Definition lift_o {A} (x : outcome pkcs11_rc A) : K A := λ s, (x, s).

Definition find {A} (x : option A) : K A := match x with Some a => mret a | None => mpanic end.

Definition read_session (p : Z) : K pkcs11_session := s ← mget; find (sessions s !! p).
Definition write_session (p : Z) (x : pkcs11_session) : K unit := s ← mget; mput (set_sessions s (<[p := x]> (sessions s))).
Definition read_client (p : Z) : K pkcs11_client := s ← mget; find (clients s !! p).
Definition write_client (p : Z) (x : pkcs11_client) : K unit :=
  s ← mget; mput (set_clients s (client_list s) (<[p := x]> (clients s))).
Definition read_token (t : Z) : K ck_token := s ← mget; find (tokens s !! Z.to_nat t).
Definition write_token (t : Z) (x : ck_token) : K unit := s ← mget; mput (set_tokens s (<[Z.to_nat t := x]> (tokens s))).
Definition read_main (t : Z) : K token_persistent_main := x ← read_token t; mret (db_main x).
Definition write_main (t : Z) (m : token_persistent_main) : K unit := x ← read_token t; write_token t (set_main x m).
Definition read_object (p : Z) : K pkcs11_object := s ← mget; find (objects s !! p).

(** The next outcome of an allocation; a new address. *)
Definition next_mem : K bool :=
  s ← mget;
  let e := env s in
  mput (set_env s (Env (tail (e_mem e)) (e_random e) (e_store e) (e_hash e)));;
  mret (default true (head (e_mem e))).

(** The outcome of the next access to the storage. *)
Definition next_store : K bool :=
  s ← mget;
  let e := env s in
  mput (set_env s (Env (e_mem e) (e_random e) (tail (e_store e)) (e_hash e)));;
  mret (default true (head (e_store e))).

(** tee2pkcs_error() of an error. *)
Definition tee2pkcs_error (res : tee_result) : pkcs11_rc :=
  match res with
  | TEE_ERROR_BAD_PARAMETERS => PKCS11_CKR_ARGUMENTS_BAD
  | TEE_ERROR_OUT_OF_MEMORY => PKCS11_CKR_DEVICE_MEMORY
  | TEE_ERROR_SHORT_BUFFER => PKCS11_CKR_BUFFER_TOO_SMALL
  | TEE_ERROR_MAC_INVALID => PKCS11_CKR_SIGNATURE_INVALID
  | _ => PKCS11_CKR_GENERAL_ERROR
  end.

Section ta.
Context `{Heap}.

(** SHA-256 of TEE_DigestDoFinal(). *)
Variable sha256 : list Z → list Z.

Definition ta_malloc (n : Z) : K (option Z) :=
  b ← next_mem;
  if heap_alloc b n then
    s ← mget;
    mput (set_next s (next_ptr s + 1));;
    mret (Some (next_ptr s))
  else mret None.

(** ** persistent_token.c: the main database *)

Definition update_persistent_db (t : Z) : K unit :=
  ok ← next_store;
  s ← mget;
  match stored s !! Z.to_nat t with
  | Some (Some (_, objs)) =>
    if (ok : bool) then m ← read_main t; mput (set_stored s (<[Z.to_nat t := Some (m, objs)]> (stored s))) else mpanic
  | _ => mpanic
  end.

Abbreviation TEE_MAX_HASH_SIZE := 64%nat.

Definition do_hash (user : Z) (pin : list Z) (salt : Z) : K (list Z) :=
  s ← mget;
  let e := env s in
  mput (set_env s (Env (e_mem e) (e_random e) (e_store e) (tail (e_hash e))));;
  match default None (head (e_hash e)) with
  | Some (AllocateFails res) => mthrow (tee2pkcs_error res)
  | Some FinalFails => mthrow PKCS11_CKR_GENERAL_ERROR
  | None =>
    let hash := sha256 (le32 user ++ le32 salt ++ pin) in
    mret (hash ++ replicate (TEE_MAX_HASH_SIZE - length hash) 0)
  end.

(** TEE_GenerateRandom() of a 32-bit number. *)
Definition random32 : K Z :=
  s ← mget;
  let e := env s in
  mput (set_env s (Env (e_mem e) (tail (e_random e)) (e_store e) (e_hash e)));;
  mret (wrap 32 (default 0 (head (e_random e)))).

(** The new salt and hash. *)
Definition hash_pin (user : Z) (pin : list Z) : K (Z * list Z) :=
  s ← random32;
  let s := if s =? 0 then s + 1 else s in
  hash ← do_hash user pin s;
  mret (s, hash).

Definition verify_pin (user : Z) (pin : list Z) (salt : Z) (hash : list Z) : K unit :=
  tmp_hash ← do_hash user pin salt;
  if bool_decide (tmp_hash = hash) then mret () else mthrow PKCS11_CKR_PIN_INCORRECT.

(** ** Arguments of a command

    [good_types]: ptypes is what the command expects; [ctrl]: the bytes of the first
    parameter at [ctrl_addr]; [out_size]: the size of the third. *)
Record call := Call { good_types : bool; ctrl_addr : Z; ctrl : list Z; out_size : Z }.

Definition arg_bytes (args : serialargs) (n : Z) : K (list Z * serialargs) := lift_o (serialargs_get args n).
Definition arg_u32 (args : serialargs) : K (Z * serialargs) :=
  '(b, args) ← arg_bytes args 4; mret (le_value b, args).
(** serialargs_get_ptr() and the bytes that are there. *)
Definition arg_ptr (args : serialargs) (n : Z) : K (list Z * serialargs) :=
  '(p, args) ← lift_o (serialargs_get_ptr args n);
  b ← lift_o (chunk args p n);
  mret (b, args).
Definition no_more (args : serialargs) : K unit :=
  if serialargs_remaining_bytes args then mthrow PKCS11_CKR_ARGUMENTS_BAD else mret ().

(** ** Tokens, clients *)

Definition get_token (token_id : Z) : K Z :=
  if token_id <? TOKEN_COUNT then mret token_id else mthrow PKCS11_CKR_SLOT_ID_INVALID.

Definition pkcs11_handle2session (handle : Z) (client : Z) : K Z :=
  c ← read_client client; mret (handle_lookup (Some (session_handle_db c)) handle).

Definition serialargs_get_session_from_handle (args : serialargs) (client : Z) : K (Z * serialargs) :=
  '(session_handle, args) ← arg_u32 args;
  session ← pkcs11_handle2session session_handle client;
  if session =? 0 then mthrow PKCS11_CKR_SESSION_HANDLE_INVALID else mret (session, args).

(** The address of the client, or [None]. *)
Definition register_client : K (option Z) :=
  p ← ta_malloc 48;
  match p with
  | None => mret None
  | Some p =>
    s ← mget;
    mput (set_clients s (p :: client_list s) (<[p := Client [] handle_db_init]> (clients s)));;
    mret (Some p)
  end.

(** ** Objects of a session that is closed (object.c) *)

Definition remove (l : list Z) (x : Z) : list Z := filter (λ y, y ≠ x) l.

(** LIST_REMOVE() of an object from the list its link is in; an object that has never
    been in a list has no link to follow. *)
Definition unlink_object (o : Z) : K unit :=
  x ← read_object o;
  match link x with
  | None => mpanic
  | Some (InSession p) => s ← read_session p; write_session p (set_session_objects s (remove (session_objects s) o) (object_handle_db s))
  | Some (OnToken t) =>
    k ← read_token t;
    write_token t (Token (tk_state k) (session_count k) (rw_session_count k) (remove (token_objects k) o) (db_main k) (db_objs k))
  end.

Definition cleanup_volatile_obj_ref (o : Z) : K unit := s ← mget; mput (set_objects s (delete o (objects s))).

Definition put_object_handle (session o : Z) : K unit :=
  s ← read_session session;
  let db := object_handle_db s in
  match snd (handle_put (Some db) (handle_lookup_handle db o)) with
  | Some db => write_session session (set_session_objects s (session_objects s) db)
  | None => mpanic
  end.

(** destroy_object() with session_only. *)
Definition destroy_session_object (session o : Z) : K unit :=
  x ← read_object o;
  (match link x with None => mret () | Some _ => unlink_object o end);;
  put_object_handle session o;;
  cleanup_volatile_obj_ref o.

Fixpoint destroy_objects (session : Z) (l : list Z) : K unit :=
  match l with
  | [] => mret ()
  | o :: l => destroy_session_object session o;; destroy_objects session l
  end.

(** ** Opening and closing sessions *)

(** The sessions of a list that belong to token [t]. *)
Fixpoint sessions_of (l : list Z) : K (list (Z * pkcs11_session)) :=
  match l with
  | [] => mret []
  | p :: l => s ← read_session p; r ← sessions_of l; mret ((p, s) :: r)
  end.

(** The state of a new session of token [t]. *)
Definition set_session_state (l : list (Z * pkcs11_session)) (t : Z) (readonly : bool) : K pkcs11_session_state :=
  match list_find (λ ps, token ps.2 = t) l with
  | None => mret (if readonly then PKCS11_CKS_RO_PUBLIC_SESSION else PKCS11_CKS_RW_PUBLIC_SESSION)
  | Some (_, (_, sess)) =>
    match state sess with
    | PKCS11_CKS_RW_PUBLIC_SESSION | PKCS11_CKS_RO_PUBLIC_SESSION =>
      mret (if readonly then PKCS11_CKS_RO_PUBLIC_SESSION else PKCS11_CKS_RW_PUBLIC_SESSION)
    | PKCS11_CKS_RO_USER_FUNCTIONS | PKCS11_CKS_RW_USER_FUNCTIONS =>
      mret (if readonly then PKCS11_CKS_RO_USER_FUNCTIONS else PKCS11_CKS_RW_USER_FUNCTIONS)
    | PKCS11_CKS_RW_SO_FUNCTIONS => if readonly then mpanic else mret PKCS11_CKS_RW_SO_FUNCTIONS
    end
  end.

(** The handle of the new session. *)
Definition entry_ck_open_session (cl : Z) (c : call) : K (list Z) :=
  if negb (good_types c) || negb (out_size c =? 4) then mthrow PKCS11_CKR_ARGUMENTS_BAD
  else
    '(token_id, args) ← arg_u32 (serialargs_init (ctrl_addr c) (ctrl c));
    '(fl, args) ← arg_u32 args;
    no_more args;;
    t ← get_token token_id;
    if (Z.land fl PKCS11_CKFSS_SERIAL_SESSION =? 0)
       || negb (Z.land fl (Z.lnot (Z.lor PKCS11_CKFSS_RW_SESSION PKCS11_CKFSS_SERIAL_SESSION)) =? 0)
    then mthrow PKCS11_CKR_ARGUMENTS_BAD
    else
      let readonly := Z.land fl PKCS11_CKFSS_RW_SESSION =? 0 in
      k ← read_token t;
      if negb readonly && bool_decide (tk_state k = PKCS11_TOKEN_READ_ONLY) then mthrow PKCS11_CKR_TOKEN_WRITE_PROTECTED
      else
        x ← read_client cl;
        l ← sessions_of (session_list x);
        if readonly && existsb (λ ps, pkcs11_session_is_so ps.2) l then mthrow PKCS11_CKR_SESSION_READ_WRITE_SO_EXISTS
        else
          session ← ta_malloc 72;
          match session with
          | None => mthrow PKCS11_CKR_DEVICE_MEMORY
          | Some p =>
            mem ← next_mem;
            let '(h, db) := handle_get (Some (session_handle_db x)) p mem in
            if h =? 0 then mthrow PKCS11_CKR_DEVICE_MEMORY
            else
              st ← set_session_state l t readonly;
              write_session p (Session cl t h [] handle_db_init st);;
              write_client cl (Client (p :: session_list x) (default handle_db_init db));;
              write_token t (set_counts k (wrap 32 (session_count k + 1))
                               (if readonly then rw_session_count k else wrap 32 (rw_session_count k + 1)));;
              mret (le32 h)
          end.

Definition close_ck_session (p : Z) : K unit :=
  s ← read_session p;
  destroy_objects p (session_objects s);;
  x ← read_client (client s);
  write_client (client s) (Client (remove (session_list x) p)
    (default handle_db_init (snd (handle_put (Some (session_handle_db x)) (handle s)))));;
  k ← read_token (token s);
  write_token (token s) (set_counts k (wrap 32 (session_count k - 1))
    (if pkcs11_session_is_read_write s then wrap 32 (rw_session_count k - 1) else rw_session_count k));;
  st ← mget;
  mput (set_sessions st (delete p (sessions st))).

Definition entry_ck_close_session (cl : Z) (c : call) : K (list Z) :=
  if negb (good_types c) then mthrow PKCS11_CKR_ARGUMENTS_BAD
  else
    '(session, args) ← serialargs_get_session_from_handle (serialargs_init (ctrl_addr c) (ctrl c)) cl;
    no_more args;;
    close_ck_session session;;
    mret [].

(** Closes the sessions of the list that are to be closed. *)
Fixpoint close_sessions (l : list Z) (which : pkcs11_session → bool) : K unit :=
  match l with
  | [] => mret ()
  | p :: l =>
    s ← read_session p;
    (if which s then close_ck_session p else mret ());;
    close_sessions l which
  end.

Definition entry_ck_close_all_sessions (cl : Z) (c : call) : K (list Z) :=
  if negb (good_types c) then mthrow PKCS11_CKR_ARGUMENTS_BAD
  else
    '(token_id, args) ← arg_u32 (serialargs_init (ctrl_addr c) (ctrl c));
    no_more args;;
    t ← get_token token_id;
    x ← read_client cl;
    close_sessions (session_list x) (λ s, token s =? t);;
    mret [].

Definition unregister_client (cl : Z) : K unit :=
  x ← read_client cl;
  close_sessions (session_list x) (λ _, true);;
  s ← mget;
  mput (set_clients s (remove (client_list s) cl) (delete cl (clients s))).

Definition session_state_code (st : pkcs11_session_state) : Z :=
  match st with
  | PKCS11_CKS_RO_PUBLIC_SESSION => 0
  | PKCS11_CKS_RO_USER_FUNCTIONS => 1
  | PKCS11_CKS_RW_PUBLIC_SESSION => 2
  | PKCS11_CKS_RW_USER_FUNCTIONS => 3
  | PKCS11_CKS_RW_SO_FUNCTIONS => 4
  end.

(** struct pkcs11_session_info: slot, state, flags, device error. *)
Definition entry_ck_session_info (cl : Z) (c : call) : K (list Z) :=
  if negb (good_types c) || negb (out_size c =? 16) then mthrow PKCS11_CKR_ARGUMENTS_BAD
  else
    '(session, args) ← serialargs_get_session_from_handle (serialargs_init (ctrl_addr c) (ctrl c)) cl;
    no_more args;;
    s ← read_session session;
    mret (le32 (token s) ++ le32 (session_state_code (state s)) ++
          le32 (Z.lor PKCS11_CKFSS_SERIAL_SESSION (if pkcs11_session_is_read_write s then PKCS11_CKFSS_RW_SESSION else 0)) ++ le32 0).

(** ** PINs *)

(** A wrong PIN of the security officer, counted. *)
Definition so_pin_failure (m : token_persistent_main) : token_persistent_main :=
  let m := set_flags m (Z.lor (flags m) PKCS11_CKFT_SO_PIN_COUNT_LOW) in
  let pin_count := wrap 32 (so_pin_count m + 1) in
  let m := set_so m pin_count (so_pin_salt m) (so_pin_hash m) in
  let m := if pin_count =? PKCS11_TOKEN_SO_PIN_COUNT_MAX - 1 then set_flags m (Z.lor (flags m) PKCS11_CKFT_SO_PIN_FINAL_TRY) else m in
  if pin_count =? PKCS11_TOKEN_SO_PIN_COUNT_MAX then set_flags m (Z.lor (flags m) PKCS11_CKFT_SO_PIN_LOCKED) else m.

Definition user_pin_failure (m : token_persistent_main) : token_persistent_main :=
  let m := set_flags m (Z.lor (flags m) PKCS11_CKFT_USER_PIN_COUNT_LOW) in
  let pin_count := wrap 32 (user_pin_count m + 1) in
  let m := set_user m pin_count (user_pin_salt m) (user_pin_hash m) in
  let m := if pin_count =? PKCS11_TOKEN_USER_PIN_COUNT_MAX - 1 then set_flags m (Z.lor (flags m) PKCS11_CKFT_USER_PIN_FINAL_TRY) else m in
  if pin_count =? PKCS11_TOKEN_USER_PIN_COUNT_MAX then set_flags m (Z.lor (flags m) PKCS11_CKFT_USER_PIN_LOCKED) else m.

(** Clears flags: [flags &= ~f]. *)
Definition clear_flags (m : token_persistent_main) (f : Z) : token_persistent_main :=
  set_flags m (Z.land (flags m) (Z.lnot f)).

Definition so_pin_warnings : Z := Z.lor PKCS11_CKFT_SO_PIN_COUNT_LOW PKCS11_CKFT_SO_PIN_FINAL_TRY.
Definition user_pin_warnings : Z := Z.lor PKCS11_CKFT_USER_PIN_COUNT_LOW PKCS11_CKFT_USER_PIN_FINAL_TRY.

(** The result of verify_pin(): true, or PKCS11_CKR_PIN_INCORRECT. *)
Definition pin_correct (user : Z) (pin : list Z) (salt : Z) (hash : list Z) : K bool :=
  r ← mtry (verify_pin user pin salt hash);
  match r with
  | inr _ => mret true
  | inl PKCS11_CKR_PIN_INCORRECT => mret false
  | inl e => mthrow e
  end.

Definition check_so_pin (t : Z) (pin : list Z) : K unit :=
  m ← read_main t;
  massert (has_flag m PKCS11_CKFT_TOKEN_INITIALIZED);;
  if has_flag m PKCS11_CKFT_SO_PIN_LOCKED then mthrow PKCS11_CKR_PIN_LOCKED
  else
    good ← pin_correct PKCS11_CKU_SO pin (so_pin_salt m) (so_pin_hash m);
    if negb good then
      let m := so_pin_failure m in
      write_main t m;;
      update_persistent_db t;;
      mthrow (if has_flag m PKCS11_CKFT_SO_PIN_LOCKED then PKCS11_CKR_PIN_LOCKED else PKCS11_CKR_PIN_INCORRECT)
    else
      (if negb (so_pin_count m =? 0) then
         write_main t (set_so m 0 (so_pin_salt m) (so_pin_hash m));; update_persistent_db t
       else mret ());;
      m ← read_main t;
      if has_flag m so_pin_warnings then
        write_main t (clear_flags m so_pin_warnings);; update_persistent_db t
      else mret ().

Definition check_user_pin (t : Z) (pin : list Z) : K unit :=
  m ← read_main t;
  if user_pin_salt m =? 0 then mthrow PKCS11_CKR_USER_PIN_NOT_INITIALIZED
  else if has_flag m PKCS11_CKFT_USER_PIN_LOCKED then mthrow PKCS11_CKR_PIN_LOCKED
  else
    good ← pin_correct PKCS11_CKU_USER pin (user_pin_salt m) (user_pin_hash m);
    if negb good then
      let m := user_pin_failure m in
      write_main t m;;
      update_persistent_db t;;
      mthrow (if has_flag m PKCS11_CKFT_USER_PIN_LOCKED then PKCS11_CKR_PIN_LOCKED else PKCS11_CKR_PIN_INCORRECT)
    else
      (if negb (user_pin_count m =? 0) then
         write_main t (set_user m 0 (user_pin_salt m) (user_pin_hash m));; update_persistent_db t
       else mret ());;
      m ← read_main t;
      if has_flag m user_pin_warnings then
        write_main t (clear_flags m user_pin_warnings);; update_persistent_db t
      else mret ().

Definition lors (l : list Z) : Z := foldr Z.lor 0 l.

Definition entry_ck_token_initialize (c : call) : K (list Z) :=
  if negb (good_types c) then mthrow PKCS11_CKR_ARGUMENTS_BAD
  else
    '(token_id, args) ← arg_u32 (serialargs_init (ctrl_addr c) (ctrl c));
    '(pin_size, args) ← arg_u32 args;
    '(lab, args) ← arg_bytes args PKCS11_TOKEN_LABEL_SIZE;
    '(pin, args) ← arg_ptr args pin_size;
    no_more args;;
    t ← get_token token_id;
    m ← read_main t;
    if has_flag m PKCS11_CKFT_SO_PIN_LOCKED then mthrow PKCS11_CKR_PIN_LOCKED
    else
      st ← mget;
      if existsb (λ p, match sessions st !! p with Some s => token s =? t | None => false end)
           (client_list st ≫= (λ cl, match clients st !! cl with Some x => session_list x | None => [] end))
      then mthrow PKCS11_CKR_SESSION_EXISTS
      else
        (if so_pin_salt m =? 0 then
           if (pin_size <? PKCS11_TOKEN_PIN_SIZE_MIN) || (PKCS11_TOKEN_PIN_SIZE_MAX <? pin_size)
           then mthrow PKCS11_CKR_ARGUMENTS_BAD
           else
             '(salt, hash) ← hash_pin PKCS11_CKU_SO pin;
             write_main t (set_so m (so_pin_count m) salt hash);;
             update_persistent_db t
         else
           good ← pin_correct PKCS11_CKU_SO pin (so_pin_salt m) (so_pin_hash m);
           if negb good then
             write_main t (so_pin_failure m);;
             update_persistent_db t;;
             mthrow PKCS11_CKR_PIN_INCORRECT
           else
             let m := clear_flags m so_pin_warnings in
             write_main t (set_so m 0 (so_pin_salt m) (so_pin_hash m)));;
        m ← read_main t;
        let m := set_label m lab in
        let m := set_flags m (Z.lor (flags m) PKCS11_CKFT_TOKEN_INITIALIZED) in
        let m := set_user m (user_pin_count m) 0 (user_pin_hash m) in
        let m := clear_flags m (lors [PKCS11_CKFT_USER_PIN_INITIALIZED; PKCS11_CKFT_USER_PIN_COUNT_LOW;
                   PKCS11_CKFT_USER_PIN_FINAL_TRY; PKCS11_CKFT_USER_PIN_LOCKED; PKCS11_CKFT_USER_PIN_TO_BE_CHANGED]) in
        write_main t m;;
        update_persistent_db t;;
        mret [].

Definition set_pin (session : Z) (new_pin : list Z) (new_pin_size user_type : Z) : K unit :=
  s ← read_session session;
  let t := token s in
  m ← read_main t;
  if has_flag m PKCS11_CKFT_WRITE_PROTECTED then mthrow PKCS11_CKR_TOKEN_WRITE_PROTECTED
  else if negb (pkcs11_session_is_read_write s) then mthrow PKCS11_CKR_SESSION_READ_ONLY
  else if (new_pin_size <? PKCS11_TOKEN_PIN_SIZE_MIN) || (PKCS11_TOKEN_PIN_SIZE_MAX <? new_pin_size)
  then mthrow PKCS11_CKR_PIN_LEN_RANGE
  else if user_type =? PKCS11_CKU_SO then
    '(salt, hash) ← hash_pin user_type new_pin;
    let m := set_so m 0 salt hash in
    write_main t (clear_flags m (lors [PKCS11_CKFT_SO_PIN_COUNT_LOW; PKCS11_CKFT_SO_PIN_FINAL_TRY;
                    PKCS11_CKFT_SO_PIN_LOCKED; PKCS11_CKFT_SO_PIN_TO_BE_CHANGED]));;
    update_persistent_db t
  else if user_type =? PKCS11_CKU_USER then
    '(salt, hash) ← hash_pin user_type new_pin;
    let m := set_user m 0 salt hash in
    let m := clear_flags m (lors [PKCS11_CKFT_USER_PIN_COUNT_LOW; PKCS11_CKFT_USER_PIN_FINAL_TRY;
                    PKCS11_CKFT_USER_PIN_LOCKED; PKCS11_CKFT_USER_PIN_TO_BE_CHANGED]) in
    write_main t (set_flags m (Z.lor (flags m) PKCS11_CKFT_USER_PIN_INITIALIZED));;
    update_persistent_db t
  else mthrow PKCS11_CKR_FUNCTION_FAILED.

Definition entry_ck_init_pin (cl : Z) (c : call) : K (list Z) :=
  if negb (good_types c) then mthrow PKCS11_CKR_ARGUMENTS_BAD
  else
    '(session, args) ← serialargs_get_session_from_handle (serialargs_init (ctrl_addr c) (ctrl c)) cl;
    '(pin_size, args) ← arg_u32 args;
    '(pin, args) ← arg_ptr args pin_size;
    no_more args;;
    s ← read_session session;
    if negb (pkcs11_session_is_so s) then mthrow PKCS11_CKR_USER_NOT_LOGGED_IN
    else
      m ← read_main (token s);
      massert (has_flag m PKCS11_CKFT_TOKEN_INITIALIZED);;
      set_pin session pin pin_size PKCS11_CKU_USER;;
      mret [].

Definition entry_ck_set_pin (cl : Z) (c : call) : K (list Z) :=
  if negb (good_types c) then mthrow PKCS11_CKR_ARGUMENTS_BAD
  else
    '(session, args) ← serialargs_get_session_from_handle (serialargs_init (ctrl_addr c) (ctrl c)) cl;
    '(old_pin_size, args) ← arg_u32 args;
    '(pin_size, args) ← arg_u32 args;
    '(old_pin, args) ← arg_ptr args old_pin_size;
    '(pin, args) ← arg_ptr args pin_size;
    no_more args;;
    s ← read_session session;
    if negb (pkcs11_session_is_read_write s) then mthrow PKCS11_CKR_SESSION_READ_ONLY
    else
      m ← read_main (token s);
      if pkcs11_session_is_so s then
        if negb (has_flag m PKCS11_CKFT_TOKEN_INITIALIZED) then mthrow PKCS11_CKR_GENERAL_ERROR
        else
          check_so_pin (token s) old_pin;;
          set_pin session pin pin_size PKCS11_CKU_SO;;
          mret []
      else if negb (has_flag m PKCS11_CKFT_USER_PIN_INITIALIZED) then mthrow PKCS11_CKR_GENERAL_ERROR
      else
        check_user_pin (token s) old_pin;;
        set_pin session pin pin_size PKCS11_CKU_USER;;
        mret [].

(** ** Login and logout *)

(** The sessions of the list that belong to token [t] get a new state, by whether they
    are read-write; [None] is a panic. *)
Fixpoint session_states (l : list Z) (t : Z) (f : bool → option pkcs11_session_state) : K unit :=
  match l with
  | [] => mret ()
  | p :: l =>
    s ← read_session p;
    (if token s =? t then
       st ← find (f (pkcs11_session_is_read_write s));
       write_session p (set_state s st)
     else mret ());;
    session_states l t f
  end.

Definition session_login_user (l : list Z) (t : Z) : K unit :=
  session_states l t (λ rw, Some (if rw then PKCS11_CKS_RW_USER_FUNCTIONS else PKCS11_CKS_RO_USER_FUNCTIONS)).
Definition session_login_so (l : list Z) (t : Z) : K unit :=
  session_states l t (λ rw, if rw then Some PKCS11_CKS_RW_SO_FUNCTIONS else None).
Definition session_logout (l : list Z) (t : Z) : K unit :=
  session_states l t (λ rw, Some (if rw then PKCS11_CKS_RW_PUBLIC_SESSION else PKCS11_CKS_RO_PUBLIC_SESSION)).

Definition entry_ck_login (cl : Z) (c : call) : K (list Z) :=
  if negb (good_types c) then mthrow PKCS11_CKR_ARGUMENTS_BAD
  else
    '(session, args) ← serialargs_get_session_from_handle (serialargs_init (ctrl_addr c) (ctrl c)) cl;
    '(user_type, args) ← arg_u32 args;
    '(pin_size, args) ← arg_u32 args;
    '(pin, args) ← arg_ptr args pin_size;
    no_more args;;
    s ← read_session session;
    x ← read_client (client s);
    if user_type =? PKCS11_CKU_SO then
      if pkcs11_session_is_so s then mthrow PKCS11_CKR_USER_ALREADY_LOGGED_IN
      else if pkcs11_session_is_user s then mthrow PKCS11_CKR_USER_ANOTHER_ALREADY_LOGGED_IN
      else
        l ← sessions_of (session_list x);
        if existsb (λ ps, (token ps.2 =? token s) && negb (pkcs11_session_is_read_write ps.2)) l
        then mthrow PKCS11_CKR_SESSION_READ_ONLY_EXISTS
        else
          check_so_pin (token s) pin;;
          session_login_so (session_list x) (token s);;
          mret []
    else if user_type =? PKCS11_CKU_USER then
      if pkcs11_session_is_so s then mthrow PKCS11_CKR_USER_ANOTHER_ALREADY_LOGGED_IN
      else if pkcs11_session_is_user s then mthrow PKCS11_CKR_USER_ALREADY_LOGGED_IN
      else
        check_user_pin (token s) pin;;
        session_login_user (session_list x) (token s);;
        mret []
    else if user_type =? PKCS11_CKU_CONTEXT_SPECIFIC then mthrow PKCS11_CKR_OPERATION_NOT_INITIALIZED
    else mthrow PKCS11_CKR_USER_TYPE_INVALID.

Definition entry_ck_logout (cl : Z) (c : call) : K (list Z) :=
  if negb (good_types c) then mthrow PKCS11_CKR_ARGUMENTS_BAD
  else
    '(session, args) ← serialargs_get_session_from_handle (serialargs_init (ctrl_addr c) (ctrl c)) cl;
    no_more args;;
    s ← read_session session;
    x ← read_client (client s);
    if pkcs11_session_is_public s then mthrow PKCS11_CKR_USER_NOT_LOGGED_IN
    else
      session_logout (session_list x) (token s);;
      mret [].
End ta.
