(* ===== verification/Pkcs11TokenProofs.v ===== *)
(** * Tokens and sessions: the invariants

    [inv] is what holds between commands: clients, sessions and their handles belong
    together, the counters of a token are exact, the sessions of a client on a token
    are logged in alike, the PIN counters stay below their limit, and the storage has
    what is in memory. [run] is a weakest precondition that also says what is left
    behind when the TA panics, since the storage survives a panic. *)
From S2P Require Import Prelude HandleSpec Pkcs11Handle Pkcs11Attr Pkcs11AttrProofs Pkcs11Token.

Local Open Scope Z_scope.

Definition run {A} (m : K A) (Q : A → ta → Prop) (R P : ta → Prop) (s : ta) : Prop :=
  match m s with
  | (Ok a, s') => Q a s'
  | (Err _, s') => R s'
  | (Panicked, s') => P s'
  end.

Lemma run_ret {A} (a : A) Q R P s : Q a s → run (mret a) Q R P s.
Proof. done. Qed.

Lemma run_throw {A} e (Q : A → ta → Prop) R (P : ta → Prop) s : R s → run (mthrow e) Q R P s.
Proof. done. Qed.

Lemma run_panic {A} (Q : A → ta → Prop) (R P : ta → Prop) s : P s → run mpanic Q R P s.
Proof. done. Qed.

Lemma run_bind {A B} (m : K A) (f : A → K B) Q R P s : run m (λ a, run (f a) Q R P) R P s → run (m ≫= f) Q R P s.
Proof. unfold run, mbind, M_bind. by destruct (m s) as [[] ?]. Qed.

Lemma run_mono {A} (m : K A) (Q Q' : A → ta → Prop) (R R' P P' : ta → Prop) s :
  run m Q R P s → (∀ a s', Q a s' → Q' a s') → (∀ s', R s' → R' s') → (∀ s', P s' → P' s') → run m Q' R' P' s.
Proof. unfold run. destruct (m s) as [[] ?]; auto. Qed.

Lemma run_get Q (R P : ta → Prop) s : Q s s → run mget Q R P s.
Proof. done. Qed.

Lemma run_put s' Q (R P : ta → Prop) s : Q tt s' → run (mput s') Q R P s.
Proof. done. Qed.

Lemma run_assert b Q (R P : ta → Prop) s : (b = true → Q tt s) → (b = false → P s) → run (massert b) Q R P s.
Proof. unfold run, massert. destruct b; auto. Qed.

Lemma run_find {A} (x : option A) a Q (R P : ta → Prop) s : x = Some a → Q a s → run (find x) Q R P s.
Proof. by intros ->. Qed.

Lemma run_try {A} (m : K A) (Q : _ → ta → Prop) (R P : ta → Prop) s :
  run m (λ a, Q (inr a)) (λ s', ∀ e, Q (inl e) s') P s → run (mtry m) Q R P s.
Proof. unfold run, mtry. destruct (m s) as [[] ?]; auto. Qed.

(** ** Reading and writing *)

Lemma run_read_session p y Q (R P : ta → Prop) s : sessions s !! p = Some y → Q y s → run (read_session p) Q R P s.
Proof. intros Hy HQ. by apply run_bind, run_get, (run_find _ y). Qed.

Lemma run_read_client p x Q (R P : ta → Prop) s : clients s !! p = Some x → Q x s → run (read_client p) Q R P s.
Proof. intros Hx HQ. by apply run_bind, run_get, (run_find _ x). Qed.

Lemma run_read_token t k Q (R P : ta → Prop) s : tokens s !! Z.to_nat t = Some k → Q k s → run (read_token t) Q R P s.
Proof. intros Hk HQ. by apply run_bind, run_get, (run_find _ k). Qed.

Lemma run_read_main t k Q (R P : ta → Prop) s : tokens s !! Z.to_nat t = Some k → Q (db_main k) s → run (read_main t) Q R P s.
Proof. intros Hk HQ. by apply run_bind, (run_read_token _ k). Qed.

Lemma run_read_object o x Q (R P : ta → Prop) s : objects s !! o = Some x → Q x s → run (read_object o) Q R P s.
Proof. intros Hx HQ. by apply run_bind, run_get, (run_find _ x). Qed.

Lemma alter_as_insert {A} (f : A → A) (l : list A) i x : l !! i = Some x → alter f i l = <[i := f x]> l.
Proof.
  revert i. induction l as [|y l IH]; intros [|i]; [done|done|by intros [= ->]|]. intros Hl. cbn. f_equal. by apply IH.
Qed.

(** The state with the main database of a token changed, in memory. *)
Definition put_main (s : ta) (t : Z) (m : token_persistent_main) : ta :=
  set_tokens s (alter (λ k, set_main k m) (Z.to_nat t) (tokens s)).

Lemma run_write_main t k m (Q : unit → ta → Prop) (R P : ta → Prop) s :
  tokens s !! Z.to_nat t = Some k → Q tt (put_main s t m) → run (write_main t m) Q R P s.
Proof.
  intros Hk HQ. apply run_bind, (run_read_token _ k); [done|]. apply run_bind, run_get, run_put.
  unfold put_main in HQ. rewrite (alter_as_insert _ _ _ k) in HQ by done. exact HQ.
Qed.

(** ** External calls *)

(** The storage does not fail. *)
Definition works (s : ta) : Prop := Forall (λ b, b = true) (e_store (env s)).

(** [s'] is [s] with some outcomes of external calls used up. *)
Definition used (s s' : ta) : Prop := ∃ e, s' = set_env s e ∧ (works s → works s').

Lemma used_refl s : used s s.
Proof. exists (env s). by destruct s. Qed.

Section ta.
Context `{Heap}.
Variable sha256 : list Z → list Z.

Lemma run_next_mem Q (R P : ta → Prop) s : (∀ b s', used s s' → Q b s') → run next_mem Q R P s.
Proof.
  intros HQ. apply run_bind, run_get, run_bind, run_put, run_ret. apply HQ. by eexists.
Qed.

Lemma run_malloc n Q (R P : ta → Prop) s :
  (∀ s', used s s' → Q None s') → (∀ s', used s s' → Q (Some (next_ptr s)) (set_next s' (next_ptr s + 1))) →
  run (ta_malloc n) Q R P s.
Proof.
  intros Hn HS. apply run_bind, run_next_mem. intros b s' Hu. destruct (heap_alloc b n); [|by apply run_ret, Hn].
  apply run_bind, run_get, run_bind, run_put, run_ret. destruct Hu as (e & -> & He). apply (HS (set_env s e)). by exists e.
Qed.

Lemma run_next_store Q (R P : ta → Prop) s :
  (∀ b s', used s s' → (works s → b = true) → Q b s') → run next_store Q R P s.
Proof.
  intros HQ. apply run_bind, run_get, run_bind, run_put, run_ret. apply HQ.
  - eexists. split; [done|]. unfold works. cbn. destruct (e_store (env s)); [done|]. cbn. by intros [_ ?]%Forall_cons.
  - unfold works. cbn. destruct (e_store (env s)); [done|]. cbn. by intros [-> _]%Forall_cons.
Qed.

Definition padded (hash : list Z) : list Z := hash ++ replicate (64 - length hash) 0.
Definition pin_hash (user : Z) (pin : list Z) (salt : Z) : list Z := padded (sha256 (le32 user ++ le32 salt ++ pin)).

Lemma run_do_hash user pin salt Q (R P : ta → Prop) s :
  (∀ s', used s s' → Q (pin_hash user pin salt) s') → (∀ s', used s s' → R s') → run (do_hash sha256 user pin salt) Q R P s.
Proof.
  intros HQ HR. apply run_bind, run_get, run_bind, run_put.
  set (s' := set_env _ _). assert (used s s') as Hu by (by eexists).
  destruct (default None (head (e_hash (env s)))) as [[]|]; [by apply run_throw, HR..|by apply run_ret, HQ].
Qed.

Lemma run_hash_pin user pin Q (R P : ta → Prop) s :
  (∀ salt s', used s s' → 0 < salt < 2 ^ 32 → Q (salt, pin_hash user pin salt) s') → (∀ s', used s s' → R s') →
  run (hash_pin sha256 user pin) Q R P s.
Proof.
  intros HQ HR. apply run_bind. unfold random32. apply run_bind, run_get, run_bind, run_put, run_ret.
  set (s' := set_env _ _). assert (used s s') as Hu by (by eexists).
  pose proof (wrap_range 32 (default 0 (head (e_random (env s)))) ltac:(done)) as Hr. set (r := wrap 32 _) in *. clearbody r.
  cbv zeta. set (salt := if r =? 0 then r + 1 else r). assert (0 < salt < 2 ^ 32) as Hs.
  { unfold salt, in_range in *. destruct (Z.eqb_spec r 0); lia. }
  apply run_bind, run_do_hash.
  - intros s2 (e & -> & He). apply run_ret, HQ; [|done]. exists e. split; [done|]. intros Hw. apply He. destruct Hu as (e' & Hs' & He'). auto.
  - intros s2 (e & -> & He). apply HR. exists e. split; [done|]. intros Hw. apply He. destruct Hu as (e' & Hs' & He'). auto.
Qed.

(** ** A token changed in memory and storage *)

Definition put_both (s : ta) (t : Z) (m : token_persistent_main) : ta :=
  set_stored (put_main s t m) (alter (λ d, (λ mo, (m, mo.2)) <$> d) (Z.to_nat t) (stored s)).

Lemma run_update t k m0 objs Q (R P : ta → Prop) s :
  tokens s !! Z.to_nat t = Some k → stored s !! Z.to_nat t = Some (Some (m0, objs)) →
  (∀ s', used (set_stored s (alter (λ d, (λ mo, (db_main k, mo.2)) <$> d) (Z.to_nat t) (stored s))) s' → Q tt s') →
  (∀ s', used s s' → ¬ works s → P s') →
  run (update_persistent_db t) Q R P s.
Proof.
  intros Hk Hst HQ HP. apply run_bind, run_next_store. intros b s' Hu Hb. apply run_bind, run_get.
  destruct Hu as (e & -> & He). cbn [stored set_env]. rewrite Hst. destruct b.
  - apply run_bind, (run_read_main _ k); [done|]. apply run_put. apply HQ. exists e.
    rewrite (alter_as_insert _ _ _ _ Hst). cbn. split; [done|]. intros Hw. by apply He.
  - apply run_panic. apply HP; [by exists e|]. intros Hw. by specialize (Hb Hw).
Qed.
End ta.

(** ** Flags *)

Lemma has_flag_bit m k : 0 <= k → has_flag m (2 ^ k) = Z.testbit (flags m) k.
Proof.
  intros Hk. unfold has_flag. destruct (Z.testbit (flags m) k) eqn:Hb.
  - apply negb_true_iff, Z.eqb_neq. intros He. apply (f_equal (λ z, Z.testbit z k)) in He.
    by rewrite Z.land_spec, Hb, Z.pow2_bits_true, Z.bits_0 in He by done.
  - apply negb_false_iff, Z.eqb_eq, Z.bits_inj'. intros j Hj. rewrite Z.land_spec, Z.bits_0, Z.pow2_bits_eqb by done.
    destruct (Z.eqb_spec k j) as [<-|]; [by rewrite Hb|by rewrite andb_false_r].
Qed.

(** ** The PINs of a token *)

Abbreviation so_locked m := (Z.testbit (flags m) 22 = true).
Abbreviation user_locked m := (Z.testbit (flags m) 18 = true).
Abbreviation initialized m := (Z.testbit (flags m) 10 = true).

(** The counters are at most 7, and 7 is locked. *)
Record main_ok (m : token_persistent_main) : Prop := {
  mo_so_count : 0 <= so_pin_count m <= 7;
  mo_so_locked : so_locked m ↔ so_pin_count m = 7;
  mo_so_salt : so_pin_salt m = 0 → so_pin_count m = 0 ∧ ¬ initialized m;
  mo_user_count : 0 <= user_pin_count m <= 7;
  mo_user_locked : user_pin_salt m ≠ 0 → user_locked m ↔ user_pin_count m = 7;
}.

(** What a command may do to a main database: a token stays initialised, and the PIN of
    a locked security officer stays as it is. *)
Definition so_kept (m m' : token_persistent_main) : Prop :=
  (initialized m → initialized m') ∧
  (so_locked m → so_locked m' ∧ so_pin_salt m' = so_pin_salt m ∧ so_pin_hash m' = so_pin_hash m).

Lemma so_kept_refl m : so_kept m m.
Proof. done. Qed.

Lemma testbit_lor f a b : 0 <= a → 0 <= b → Z.testbit (Z.lor f (2 ^ a)) b = (a =? b) || Z.testbit f b.
Proof. intros Ha Hb. by rewrite Z.lor_spec, Z.pow2_bits_eqb, orb_comm. Qed.

Lemma testbit_clear f mask b : 0 <= b → Z.testbit (Z.land f (Z.lnot mask)) b = Z.testbit f b && negb (Z.testbit mask b).
Proof. intros Hb. by rewrite Z.land_spec, Z.lnot_spec. Qed.

(** The effect of a failure on the flags the lock depends on, and on the counter. *)
Lemma so_failure_flags m b : 0 <= b → b ∉ [20; 21; 22] → Z.testbit (flags (so_pin_failure m)) b = Z.testbit (flags m) b.
Proof.
  intros Hb Hn. rewrite !not_elem_of_cons in Hn. destruct Hn as (H1 & H2 & H3 & _).
  unfold so_pin_failure. cbn [flags set_flags set_so so_pin_count].
  repeat case_match; cbn [flags set_flags set_so so_pin_count]; rewrite ?testbit_lor by done;
    rewrite ?(proj2 (Z.eqb_neq _ _)) by lia; done.
Qed.

Lemma so_failure_count m : 0 <= so_pin_count m < 7 → so_pin_count (so_pin_failure m) = so_pin_count m + 1 ∧
  so_pin_salt (so_pin_failure m) = so_pin_salt m ∧ so_pin_hash (so_pin_failure m) = so_pin_hash m.
Proof.
  intros Hc. unfold so_pin_failure. repeat case_match; cbn [so_pin_count so_pin_salt so_pin_hash set_flags set_so];
    (split; [apply wrap_small; unfold in_range; lia|done]).
Qed.

Lemma so_failure_ok m : main_ok m → ¬ so_locked m → so_pin_salt m ≠ 0 → main_ok (so_pin_failure m).
Proof.
  intros [Hc Hl Hs Hu Hul] Hn Hsalt. assert (0 <= so_pin_count m < 7) as Hlt by (split; [lia|]; destruct (Z.eq_dec (so_pin_count m) 7); [by apply Hl in e|lia]).
  destruct (so_failure_count m Hlt) as [Hcount _].
  assert (so_pin_salt (so_pin_failure m) = so_pin_salt m ∧ user_pin_count (so_pin_failure m) = user_pin_count m ∧
          user_pin_salt (so_pin_failure m) = user_pin_salt m) as (Hsa & Huc & Hus).
  { unfold so_pin_failure. by repeat case_match. }
  split; rewrite ?Hcount, ?Hsa, ?Huc, ?Hus.
  - lia.
  - unfold so_pin_failure. cbn [flags set_flags set_so so_pin_count].
    rewrite wrap_small by (unfold in_range; lia). unfold PKCS11_TOKEN_SO_PIN_COUNT_MAX.
    destruct (Z.eqb_spec (so_pin_count m + 1) 7) as [He|He], (Z.eqb_spec (so_pin_count m + 1) (7 - 1)) as [He'|He'];
      try lia; cbn [flags set_flags set_so]; rewrite ?testbit_lor by done; cbn [Z.eqb Pos.eqb orb]; rewrite ?orb_true_l; tauto.
  - done.
  - done.
  - rewrite so_failure_flags by (done || set_solver). done.
Qed.

Lemma so_failure_kept m : so_kept m (so_pin_failure m).
Proof.
  split; [by rewrite so_failure_flags by (done || set_solver)|].
  intros Hl. assert (so_pin_salt (so_pin_failure m) = so_pin_salt m ∧ so_pin_hash (so_pin_failure m) = so_pin_hash m) as [-> ->]
    by (unfold so_pin_failure; by repeat case_match).
  split; [|done]. unfold so_pin_failure. cbn [flags set_flags set_so so_pin_count].
  repeat case_match; cbn [flags set_flags set_so]; rewrite ?testbit_lor, Hl by done; by rewrite ?orb_true_r.
Qed.

Lemma user_failure_flags m b : 0 <= b → b ∉ [16; 17; 18] → Z.testbit (flags (user_pin_failure m)) b = Z.testbit (flags m) b.
Proof.
  intros Hb Hn. rewrite !not_elem_of_cons in Hn. destruct Hn as (H1 & H2 & H3 & _).
  unfold user_pin_failure. cbn [flags set_flags set_user user_pin_count].
  repeat case_match; cbn [flags set_flags set_user user_pin_count]; rewrite ?testbit_lor by done;
    rewrite ?(proj2 (Z.eqb_neq _ _)) by lia; done.
Qed.

Lemma user_failure_so m : so_pin_count (user_pin_failure m) = so_pin_count m ∧ so_pin_salt (user_pin_failure m) = so_pin_salt m ∧
  so_pin_hash (user_pin_failure m) = so_pin_hash m ∧ user_pin_salt (user_pin_failure m) = user_pin_salt m.
Proof. unfold user_pin_failure. by repeat case_match. Qed.

Lemma user_failure_ok m : main_ok m → ¬ user_locked m → user_pin_salt m ≠ 0 → main_ok (user_pin_failure m).
Proof.
  intros [Hc Hl Hs Hu Hul] Hn Hsalt. assert (0 <= user_pin_count m < 7) as Hlt.
  { split; [lia|]. destruct (Z.eq_dec (user_pin_count m) 7) as [e|]; [|lia]. by apply (Hul Hsalt) in e. }
  assert (user_pin_count (user_pin_failure m) = user_pin_count m + 1) as Hcount.
  { unfold user_pin_failure. repeat case_match; cbn [user_pin_count set_flags set_user]; apply wrap_small; unfold in_range; lia. }
  destruct (user_failure_so m) as (H1 & H2 & H3 & H4).
  split; rewrite ?Hcount, ?H1, ?H2, ?H4; [done| | |lia|].
  - rewrite user_failure_flags by (done || set_solver). done.
  - rewrite user_failure_flags by (done || set_solver). done.
  - intros _. unfold user_pin_failure. cbn [flags set_flags set_user user_pin_count].
    rewrite wrap_small by (unfold in_range; lia). unfold PKCS11_TOKEN_USER_PIN_COUNT_MAX.
    destruct (Z.eqb_spec (user_pin_count m + 1) 7) as [He|He], (Z.eqb_spec (user_pin_count m + 1) (7 - 1)) as [He'|He'];
      try lia; cbn [flags set_flags set_user]; rewrite ?testbit_lor by done; cbn [Z.eqb Pos.eqb orb]; rewrite ?orb_true_l; tauto.
Qed.

Lemma user_failure_kept m : so_kept m (user_pin_failure m).
Proof.
  split; [by rewrite user_failure_flags by (done || set_solver)|].
  intros Hl. destruct (user_failure_so m) as (_ & -> & -> & _). split; [|done].
  rewrite user_failure_flags by (done || set_solver). done.
Qed.

(** Clearing flags that do not lock, and setting the counter of a PIN to 0. *)
Lemma clear_ok m mask : main_ok m → Z.testbit mask 22 = false → Z.testbit mask 18 = false → Z.testbit mask 10 = false →
  main_ok (clear_flags m mask) ∧ so_kept m (clear_flags m mask).
Proof.
  intros [Hc Hl Hs Hu Hul] H22 H18 H10. split.
  - split; cbn [clear_flags set_flags flags so_pin_count so_pin_salt user_pin_count user_pin_salt]; rewrite ?testbit_clear by done; [done| | |done|].
    + by rewrite H22, andb_true_r.
    + intros Hz. destruct (Hs Hz) as [? Hni]. split; [done|]. destruct (Z.testbit (flags m) 10); [done|by intros ?].
    + by rewrite H18, andb_true_r.
  - split; intros Hlk; cbn [clear_flags set_flags flags so_pin_salt so_pin_hash]; rewrite testbit_clear by done; [by rewrite H10, Hlk|by rewrite H22, Hlk].
Qed.

Lemma so_reset_ok m : main_ok m → ¬ so_locked m →
  let m' := set_so m 0 (so_pin_salt m) (so_pin_hash m) in main_ok m' ∧ so_kept m m'.
Proof.
  intros [Hc Hl Hs Hu Hul] Hn m'. split; [|done].
  split; subst m'; cbn [set_so flags so_pin_count so_pin_salt user_pin_count user_pin_salt]; [lia| | |done|done].
  - split; [intros Hx; by destruct (Hn Hx)|done].
  - intros Hz. by destruct (Hs Hz).
Qed.

Lemma user_reset_ok m : main_ok m → ¬ user_locked m →
  let m' := set_user m 0 (user_pin_salt m) (user_pin_hash m) in main_ok m' ∧ so_kept m m'.
Proof.
  intros [Hc Hl Hs Hu Hul] Hn m'. split; [|done].
  split; subst m'; cbn [set_user flags so_pin_count so_pin_salt user_pin_count user_pin_salt]; [done|done|done|lia|]. intros _. split; [intros Hx; by destruct (Hn Hx)|done].
Qed.

(** ** The invariant *)

Inductive login_kind := LPublic | LUser | LSo.

Definition login (y : pkcs11_session) : login_kind :=
  match state y with
  | PKCS11_CKS_RO_PUBLIC_SESSION | PKCS11_CKS_RW_PUBLIC_SESSION => LPublic
  | PKCS11_CKS_RO_USER_FUNCTIONS | PKCS11_CKS_RW_USER_FUNCTIONS => LUser
  | PKCS11_CKS_RW_SO_FUNCTIONS => LSo
  end.

Section inv.
Context `{Heap}.

(** The sessions of a client, their addresses and their handles are one to one. *)
Record client_ok (s : ta) (c : Z) (x : pkcs11_client) : Prop := {
  co_nodup : NoDup (session_list x);
  co_db : db_wf (session_handle_db x);
  co_list p : p ∈ session_list x → ∃ y, sessions s !! p = Some y ∧ client y = c ∧
    db_table (session_handle_db x) !! Z.to_nat (handle y) = Some p;
  co_handles h p : db_table (session_handle_db x) !! h = Some p → p ∈ session_list x ∧ ∃ y, sessions s !! p = Some y ∧ handle y = Z.of_nat h;
}.

Record session_ok (s : ta) (p : Z) (y : pkcs11_session) : Prop := {
  so_addr : 0 < p < next_ptr s;
  so_token : 0 <= token y < 3;
  so_handle : 1 <= handle y;
  so_client : ∃ x, clients s !! client y = Some x ∧ p ∈ session_list x;
}.

(** The sessions of token [t] of which [f] holds. *)
Definition on_token (f : pkcs11_session → bool) (t : nat) (m : gmap Z pkcs11_session) : gmap Z pkcs11_session :=
  filter (λ py, token py.2 = Z.of_nat t ∧ f py.2 = true) m.
Definition counted (f : pkcs11_session → bool) (t : nat) (s : ta) : Z := wrap 32 (Z.of_nat (base.size (on_token f t (sessions s)))).

(** CKA_TOKEN of an object is what its link says. *)
Definition with_attrs (x : pkcs11_object) : Prop := ∃ a, attributes x = Some a ∧
  get_bool a PKCS11_CKA_TOKEN = Ok (match link x with Some (OnToken _) => true | _ => false end).

(** The objects of a session: linked into it, and reached by its handles alone. *)
Record session_objects_ok (s : ta) (p : Z) (y : pkcs11_session) : Prop := {
  soo_nodup : NoDup (session_objects y);
  soo_db : db_wf (object_handle_db y);
  soo_list o : o ∈ session_objects y → ∃ x, objects s !! o = Some x ∧ link x = Some (InSession p);
  soo_handles h o : db_table (object_handle_db y) !! h = Some o →
    ∃ x, objects s !! o = Some x ∧ with_attrs x ∧
      (link x = Some (InSession p) ∧ o ∈ session_objects y ∨
       link x = Some (OnToken (token y)) ∧ ∃ k, tokens s !! Z.to_nat (token y) = Some k ∧ o ∈ token_objects k);
}.

Record token_ok (s : ta) (t : nat) (k : ck_token) : Prop := {
  to_stored : ∃ objs, stored s !! t = Some (Some (db_main k, objs)) ∧ NoDup (default [] objs);
  to_uuids : NoDup (db_objs k);
  to_main : main_ok (db_main k);
  to_count : session_count k = counted (λ _, true) t s;
  to_rw_count : rw_session_count k = counted pkcs11_session_is_read_write t s;
  to_nodup : NoDup (token_objects k);
  to_objects o : o ∈ token_objects k → ∃ x, objects s !! o = Some x ∧ link x = Some (OnToken (Z.of_nat t)) ∧ is_Some (uuid x);
}.

Record inv (s : ta) : Prop := {
  i_tokens : length (tokens s) = 3%nat;
  i_token t k : tokens s !! t = Some k → token_ok s t k;
  i_client_list : NoDup (client_list s) ∧ ∀ c, c ∈ client_list s ↔ is_Some (clients s !! c);
  i_client c x : clients s !! c = Some x → client_ok s c x;
  i_session p y : sessions s !! p = Some y → session_ok s p y;
  i_login p q y z : sessions s !! p = Some y → sessions s !! q = Some z → client y = client z → token y = token z → login y = login z;
  i_so p y k : sessions s !! p = Some y → login y = LSo → tokens s !! Z.to_nat (token y) = Some k → initialized (db_main k);
  i_objects p y : sessions s !! p = Some y → session_objects_ok s p y;
  i_object_handles p q y z h h' o : sessions s !! p = Some y → sessions s !! q = Some z →
    db_table (object_handle_db y) !! h = Some o → db_table (object_handle_db z) !! h' = Some o → p = q ∧ h = h';
  i_next : 0 < next_ptr s ∧ (∀ c, is_Some (clients s !! c) → c < next_ptr s) ∧ (∀ o, is_Some (objects s !! o) → 0 < o < next_ptr s);
}.

Lemma inv_env s e : inv s → inv (set_env s e).
Proof.
  intros [H1 H2 H3 H4 H5 H6 Hso H7 H8 H9]. split; try done.
  - intros t k Hk. destruct (H2 t k Hk). by split.
  - intros c x Hx. destruct (H4 c x Hx). by split.
  - intros p y Hy. destruct (H5 p y Hy). by split.
  - intros p y Hy. destruct (H7 p y Hy). by split.
Qed.

Lemma inv_used s s' : used s s' → inv s → inv s'.
Proof. intros (e & -> & _). apply inv_env. Qed.
End inv.

(** ** A change of the main database of a token *)

Section pins.
Context `{Heap}.
Variable sha256 : list Z → list Z.

Lemma used_trans s s1 s2 : used s s1 → used s1 s2 → used s s2.
Proof. intros (e & -> & He) (e' & -> & He'). exists e'. split; [done|]. auto. Qed.

(** The token as the invariant knows it. *)
Definition token_at (s : ta) (t : Z) (k : ck_token) : Prop :=
  tokens s !! Z.to_nat t = Some k ∧ ∃ objs, stored s !! Z.to_nat t = Some (Some (db_main k, objs)).

Lemma inv_token_at s t : inv s → 0 <= t < 3 → ∃ k, token_at s t k ∧ main_ok (db_main k).
Proof.
  intros Hs Ht. destruct (lookup_lt_is_Some_2 (tokens s) (Z.to_nat t)) as [k Hk]; [rewrite (i_tokens s Hs); lia|].
  exists k. destruct (i_token s Hs _ _ Hk) as [(objs & Hst & _) _ Hm _ _ _ _]. split; [split; [done|by exists objs]|done].
Qed.

Lemma put_both_at s t k m : token_at s t k → token_at (put_both s t m) t (set_main k m).
Proof.
  intros [Hk [objs Hst]]. split; cbn.
  - rewrite list_lookup_alter_eq, Hk. done.
  - exists objs. by rewrite list_lookup_alter_eq, Hst.
Qed.

Lemma used_at s s' t k : used s s' → token_at s t k → token_at s' t k.
Proof. by intros (e & -> & _). Qed.

Lemma used_put s s' t m : used s s' → used (put_both s t m) (put_both s' t m).
Proof. intros (e & -> & He). by exists e. Qed.

Lemma alter_alter {A} (f g : A → A) i (l : list A) : alter f i (alter g i l) = alter (f ∘ g) i l.
Proof. revert i. induction l as [|x l IH]; intros [|i]; [done..|]. cbn. f_equal. apply IH. Qed.

Lemma put_both_twice s t m m' : put_both (put_both s t m) t m' = put_both s t m'.
Proof.
  unfold put_both, put_main, set_stored, set_tokens. cbn [tokens client_list clients sessions objects stored object_files next_ptr env].
  rewrite !alter_alter. f_equal.
  apply list_alter_ext; [|done]. by intros [[]|].
Qed.

Lemma alter_same {A} (f : A → A) i (l : list A) : (∀ x, l !! i = Some x → f x = x) → alter f i l = l.
Proof.
  revert i. induction l as [|x l IH]; intros [|i] Hf; [done|done|cbn; f_equal; by apply Hf|]. cbn. f_equal. apply IH, Hf.
Qed.

Lemma put_both_id s t k : token_at s t k → put_both s t (db_main k) = s.
Proof.
  intros [Hk [objs Hst]]. unfold put_both, put_main, set_stored, set_tokens. destruct s; cbn in *. f_equal; apply alter_same; intros x Hx.
  - rewrite Hk in Hx. injection Hx as <-. by destruct k.
  - rewrite Hst in Hx. by injection Hx as <-.
Qed.

Lemma run_update_put t k m (Q : unit → ta → Prop) (R P : ta → Prop) s :
  token_at s t k →
  (∀ s', used (put_both s t m) s' → Q tt s') → (∀ s', stored s' = stored s → ¬ works s → P s') →
  run (update_persistent_db t) Q R P (put_main s t m).
Proof.
  intros [Hk [objs Hst]] HQ HP. apply (run_update t (set_main k m) (db_main k) objs).
  - cbn. by rewrite list_lookup_alter_eq, Hk.
  - done.
  - exact HQ.
  - intros s' (e & -> & _) Hw. by apply HP.
Qed.

(** The state after the write and the update, and after a failure of the storage. *)
Lemma run_write_update t k m (Q : unit → ta → Prop) (R P : ta → Prop) s :
  token_at s t k →
  (∀ s', used (put_both s t m) s' → Q tt s') → (∀ s', stored s' = stored s → ¬ works s → P s') →
  run (write_main t m;; update_persistent_db t) Q R P s.
Proof.
  intros Hk HQ HP. apply run_bind, (run_write_main _ k); [by destruct Hk|]. by apply (run_update_put t k).
Qed.

(** What the code that handles a PIN leaves behind: the token with another main
    database, in memory and in the storage. *)
Definition pin_at (s : ta) (t : Z) (k : ck_token) (m : token_persistent_main) (s' : ta) : Prop :=
  used (put_both s t m) s' ∧ main_ok m ∧ so_kept (db_main k) m.
Definition pin_step (s : ta) (t : Z) (k : ck_token) (s' : ta) : Prop := ∃ m, pin_at s t k m s'.

(** ... and when the storage failed meanwhile: the storage has an old copy. *)
Definition pin_fault (s : ta) (t : Z) (k : ck_token) (s' : ta) : Prop :=
  ¬ works s ∧ ∃ m, stored s' = stored (put_both s t m) ∧ main_ok m ∧ so_kept (db_main k) m.

Lemma pin_at_refl s t k : token_at s t k → main_ok (db_main k) → pin_at s t k (db_main k) s.
Proof. intros Hk Hm. split; [rewrite put_both_id by done; apply used_refl|]. split; [done|apply so_kept_refl]. Qed.

Lemma pin_at_used s t k m s1 s2 : pin_at s t k m s1 → used s1 s2 → pin_at s t k m s2.
Proof. intros (Hu & Hm & Hk) Hu2. split; [by eapply used_trans|done]. Qed.

Lemma pin_at_token s t k m s1 : token_at s t k → pin_at s t k m s1 → token_at s1 t (set_main k m).
Proof. intros Hk [Hu _]. by apply (used_at _ _ _ _ Hu), put_both_at. Qed.

Lemma pin_at_main s t k m s1 : token_at s t k → pin_at s t k m s1 →
  ∃ k1, tokens s1 !! Z.to_nat t = Some k1 ∧ db_main k1 = m.
Proof. intros Hk Ha. by destruct (pin_at_token _ _ _ _ _ Hk Ha) as [? _]; eexists. Qed.

(** The update of the storage after a change in memory. *)
Lemma run_pin_put t k m0 m (Q : unit → ta → Prop) (R P : ta → Prop) s s1 :
  token_at s t k → pin_at s t k m0 s1 → main_ok m → so_kept (db_main k) m →
  (∀ s', pin_at s t k m s' → Q tt s') → (∀ s', pin_fault s t k s' → P s') →
  run (update_persistent_db t) Q R P (put_main s1 t m).
Proof.
  intros Hk (Hu & Hm0 & Hk0) Hm Hkept HQ HP.
  apply (run_update_put t (set_main k m0)).
  - apply (used_at _ _ _ _ Hu), put_both_at, Hk.
  - intros s' Hs'. apply HQ. split; [|done]. rewrite <- (put_both_twice s t m0). eapply used_trans; [|exact Hs']. by apply used_put.
  - intros s' Hst Hw. apply HP. destruct Hu as (e & -> & He). split; [intros Hs; by apply Hw, He|].
    exists m0. by rewrite Hst.
Qed.

(** One write and update. *)
Lemma run_pin_update t k m0 m (Q : unit → ta → Prop) (R P : ta → Prop) s s1 :
  token_at s t k → pin_at s t k m0 s1 → main_ok m → so_kept (db_main k) m →
  (∀ s', pin_at s t k m s' → Q tt s') → (∀ s', pin_fault s t k s' → P s') →
  run (write_main t m;; update_persistent_db t) Q R P s1.
Proof.
  intros Hk Ha Hm Hkept HQ HP. destruct (pin_at_main _ _ _ _ _ Hk Ha) as (k1 & Hk1 & _).
  apply run_bind, (run_write_main _ k1); [done|]. by apply (run_pin_put t k m0 m _ _ _ s).
Qed.

Lemma run_seq {A B} (m : K A) (n : K B) (Q : B → ta → Prop) (R P : ta → Prop) s :
  run m (λ _, run n Q R P) R P s → run (m;; n) Q R P s.
Proof. apply run_bind. Qed.

Lemma run_bind_assoc {A B C} (m : K A) (f : A → K B) (o : B → K C) (Q : C → ta → Prop) (R P : ta → Prop) s :
  run ((m ≫= f) ≫= o) Q R P s → run (m ≫= λ a, f a ≫= o) Q R P s.
Proof. unfold run, mbind, M_bind. destruct (m s) as [[a| |] s1]; [|done..]. by destruct (f a s1) as [[] ?]. Qed.

Lemma run_assoc {A B C} (m : K A) (n : K B) (o : K C) (Q : C → ta → Prop) (R P : ta → Prop) s :
  run ((m;; n);; o) Q R P s → run (m;; (n;; o)) Q R P s.
Proof. apply run_bind_assoc. Qed.

Lemma run_pin_correct user pin salt hash (Q : bool → ta → Prop) (R P : ta → Prop) s :
  (∀ b s', used s s' → (b = true → pin_hash sha256 user pin salt = hash) → Q b s') → (∀ s', used s s' → R s') →
  run (pin_correct sha256 user pin salt hash) Q R P s.
Proof.
  intros HQ HR. apply run_bind, run_try.
  assert (∀ e s', used s s' → run (match (inl e : pkcs11_rc + unit) with inr _ => mret true | inl PKCS11_CKR_PIN_INCORRECT => mret false | inl e => mthrow e end) Q R P s') as He.
  { intros e s' Hu. destruct e; try (by apply run_throw, HR). apply run_ret. by apply HQ. }
  apply run_bind, run_do_hash.
  - intros s' Hu. destruct (bool_decide_reflect (pin_hash sha256 user pin salt = hash)) as [Heq|Hne].
    + apply run_ret, run_ret. by apply HQ.
    + apply run_throw. intros e. by apply He.
  - intros s' Hu e. by apply He.
Qed.

(** The end of a check that succeeds: the counter and the warnings are cleared. *)
Lemma run_pin_finish t k m0 (c : bool) (f g : token_persistent_main → token_persistent_main) w (Q : unit → ta → Prop) (R P : ta → Prop) s s1 :
  token_at s t k → pin_at s t k m0 s1 →
  (c = true → main_ok (f m0) ∧ so_kept (db_main k) (f m0)) →
  (∀ m, main_ok m → so_kept (db_main k) m → main_ok (g m) ∧ so_kept (db_main k) (g m)) →
  (∀ s', pin_step s t k s' → Q tt s') → (∀ s', pin_fault s t k s' → P s') →
  run ((if c then write_main t (f m0);; update_persistent_db t else mret ());;
       m ← read_main t; if w m : bool then write_main t (g m);; update_persistent_db t else mret ()) Q R P s1.
Proof.
  intros Hk Ha Hf Hg HQ HP.
  set (fin := m ← read_main t; if w m : bool then write_main t (g m);; update_persistent_db t else mret ()).
  assert (∀ m s', pin_at s t k m s' → run fin Q R P s') as Hfin.
  { intros m s' Hat. destruct (pin_at_main _ _ _ _ _ Hk Hat) as (k1 & Hk1 & Hm1).
    apply run_bind, (run_read_main _ k1); [done|]. rewrite Hm1. destruct (w m); [|apply run_ret, HQ; by exists m].
    destruct (Hg m) as [? ?]; [apply Hat..|]. apply (run_pin_update t k m (g m) _ _ _ s); try done.
    intros s2 Hs2. apply HQ. by exists (g m). }
  apply run_seq. destruct c; [|apply run_ret; by apply (Hfin m0)].
  destruct (Hf eq_refl). apply (run_pin_update t k m0 (f m0) _ _ _ s); try done. intros s2 Hs2. by apply (Hfin (f m0)).
Qed.

Lemma so_kept_trans m1 m2 m3 : so_kept m1 m2 → so_kept m2 m3 → so_kept m1 m3.
Proof.
  intros [I12 H12] [I23 H23]. split; [auto|]. intros Hl. destruct (H12 Hl) as (Hl2 & <- & <-). by apply H23.
Qed.

Lemma so_kept_unlocked m m' : (initialized m → initialized m') → ¬ so_locked m → so_kept m m'.
Proof. intros Hi Hn. by split. Qed.

Definition good_so_pin (m : token_persistent_main) (pin : list Z) : Prop :=
  initialized m ∧ ¬ so_locked m ∧ pin_hash sha256 PKCS11_CKU_SO pin (so_pin_salt m) = so_pin_hash m.
Definition good_user_pin (m : token_persistent_main) (pin : list Z) : Prop :=
  ¬ user_locked m ∧ user_pin_salt m ≠ 0 ∧ pin_hash sha256 PKCS11_CKU_USER pin (user_pin_salt m) = user_pin_hash m.

Lemma has_so_locked m : has_flag m PKCS11_CKFT_SO_PIN_LOCKED = false → ¬ so_locked m.
Proof. rewrite has_flag_bit by done. by intros ->. Qed.

Lemma has_user_locked m : has_flag m PKCS11_CKFT_USER_PIN_LOCKED = false → ¬ user_locked m.
Proof. rewrite has_flag_bit by done. by intros ->. Qed.

Lemma warnings_ok k m mask : Z.testbit mask 22 = false → Z.testbit mask 18 = false → Z.testbit mask 10 = false → main_ok m → so_kept (db_main k) m →
  main_ok (clear_flags m mask) ∧ so_kept (db_main k) (clear_flags m mask).
Proof. intros H22 H18 H10 Hm Hk. destruct (clear_ok m mask) as [? ?]; [done..|]. split; [done|]. by eapply so_kept_trans. Qed.

Lemma run_check_so_pin t k pin (Q : unit → ta → Prop) (R P : ta → Prop) s :
  token_at s t k → main_ok (db_main k) →
  (∀ s', pin_step s t k s' → good_so_pin (db_main k) pin → Q tt s') → (∀ s', pin_step s t k s' → R s') →
  (∀ s', s' = s ∧ ¬ initialized (db_main k) ∨ pin_fault s t k s' → P s') →
  run (check_so_pin sha256 t pin) Q R P s.
Proof.
  intros Hk Hm HQ HR HP. pose proof (pin_at_refl s t k Hk Hm) as Hat.
  apply run_bind, (run_read_main _ k); [by destruct Hk|].
  apply run_seq, run_assert; rewrite has_flag_bit by done; intros Hinit.
  2: { apply HP. left. split; [done|]. by rewrite Hinit. }
  destruct (has_flag (db_main k) PKCS11_CKFT_SO_PIN_LOCKED) eqn:Hlk.
  { apply run_throw, HR. by exists (db_main k). }
  apply has_so_locked in Hlk. assert (so_pin_salt (db_main k) ≠ 0) as Hsalt by (intros Hz; by destruct (mo_so_salt _ Hm Hz)).
  apply run_bind, run_pin_correct.
  2: { intros s' Hu. apply HR. exists (db_main k). by eapply pin_at_used. }
  intros b s' Hu Hb. pose proof (pin_at_used _ _ _ _ _ _ Hat Hu) as Hat'. destruct b; cbn [negb].
  - apply (run_pin_finish t k (db_main k) _ (λ m, set_so m 0 (so_pin_salt m) (so_pin_hash m)) (λ m, clear_flags m so_pin_warnings) (λ m, has_flag m so_pin_warnings) _ _ _ s); try done.
    + intros _. by apply so_reset_ok.
    + intros m Hmm Hkk. by apply warnings_ok.
    + intros s2 Hs2. apply HQ; [done|]. split; [done|]. split; [done|]. by apply Hb.
    + intros s2 Hs2. apply HP. by right.
  - apply run_assoc, run_seq. apply (run_pin_update t k (db_main k) (so_pin_failure (db_main k)) _ _ _ s); try done.
    + by apply so_failure_ok.
    + apply so_failure_kept.
    + intros s2 Hs2. apply run_throw, HR. by eexists.
    + intros s2 Hs2. apply HP. by right.
Qed.

Lemma run_check_user_pin t k pin (Q : unit → ta → Prop) (R P : ta → Prop) s :
  token_at s t k → main_ok (db_main k) →
  (∀ s', pin_step s t k s' → good_user_pin (db_main k) pin → Q tt s') → (∀ s', pin_step s t k s' → R s') →
  (∀ s', pin_fault s t k s' → P s') →
  run (check_user_pin sha256 t pin) Q R P s.
Proof.
  intros Hk Hm HQ HR HP. pose proof (pin_at_refl s t k Hk Hm) as Hat.
  apply run_bind, (run_read_main _ k); [by destruct Hk|].
  destruct (Z.eqb_spec (user_pin_salt (db_main k)) 0) as [Hz|Hsalt].
  { apply run_throw, HR. by exists (db_main k). }
  destruct (has_flag (db_main k) PKCS11_CKFT_USER_PIN_LOCKED) eqn:Hlk.
  { apply run_throw, HR. by exists (db_main k). }
  apply has_user_locked in Hlk.
  apply run_bind, run_pin_correct.
  2: { intros s' Hu. apply HR. exists (db_main k). by eapply pin_at_used. }
  intros b s' Hu Hb. pose proof (pin_at_used _ _ _ _ _ _ Hat Hu) as Hat'. destruct b; cbn [negb].
  - apply (run_pin_finish t k (db_main k) _ (λ m, set_user m 0 (user_pin_salt m) (user_pin_hash m)) (λ m, clear_flags m user_pin_warnings) (λ m, has_flag m user_pin_warnings) _ _ _ s); try done.
    + intros _. by apply user_reset_ok.
    + intros m Hmm Hkk. by apply warnings_ok.
    + intros s2 Hs2. apply HQ; [done|]. split; [done|]. split; [done|]. by apply Hb.
  - apply run_assoc, run_seq. apply (run_pin_update t k (db_main k) (user_pin_failure (db_main k)) _ _ _ s); try done.
    + by apply user_failure_ok.
    + apply user_failure_kept.
    + intros s2 Hs2. apply run_throw, HR. by eexists.
Qed.

Definition so_mask : Z := lors [PKCS11_CKFT_SO_PIN_COUNT_LOW; PKCS11_CKFT_SO_PIN_FINAL_TRY; PKCS11_CKFT_SO_PIN_LOCKED; PKCS11_CKFT_SO_PIN_TO_BE_CHANGED].
Definition user_mask : Z := lors [PKCS11_CKFT_USER_PIN_COUNT_LOW; PKCS11_CKFT_USER_PIN_FINAL_TRY; PKCS11_CKFT_USER_PIN_LOCKED; PKCS11_CKFT_USER_PIN_TO_BE_CHANGED].

Lemma new_so_pin_ok m salt hash : main_ok m → salt ≠ 0 → main_ok (clear_flags (set_so m 0 salt hash) so_mask) ∧
  (initialized m → initialized (clear_flags (set_so m 0 salt hash) so_mask)).
Proof.
  intros [Hc Hl Hs Hu Hul] Hsalt. split.
  2: { cbn [clear_flags set_flags set_so flags]. rewrite testbit_clear by done. change (Z.testbit so_mask 10) with false. by rewrite andb_true_r. }
  split; cbn [clear_flags set_flags set_so flags so_pin_count so_pin_salt user_pin_count user_pin_salt];
    rewrite ?testbit_clear by done; [lia| |done|done|].
  - change (Z.testbit so_mask 22) with true. by rewrite andb_false_r.
  - change (Z.testbit so_mask 18) with false. by rewrite andb_true_r.
Qed.

Lemma new_user_pin_ok m salt hash : main_ok m → salt ≠ 0 →
  let m' := clear_flags (set_user m 0 salt hash) user_mask in
  main_ok (set_flags m' (Z.lor (flags m') PKCS11_CKFT_USER_PIN_INITIALIZED)) ∧
  so_kept m (set_flags m' (Z.lor (flags m') PKCS11_CKFT_USER_PIN_INITIALIZED)).
Proof.
  intros [Hc Hl Hs Hu Hul] Hsalt m'. subst m'.
  assert (∀ b, 0 <= b → b ∉ [3; 16; 17; 18; 19] →
    Z.testbit (Z.lor (Z.land (flags m) (Z.lnot user_mask)) PKCS11_CKFT_USER_PIN_INITIALIZED) b = Z.testbit (flags m) b) as Hbits.
  { intros b Hb Hn. rewrite !not_elem_of_cons in Hn. destruct Hn as (H1 & H2 & H3 & H4 & H5 & _).
    rewrite testbit_lor, testbit_clear by done. rewrite (proj2 (Z.eqb_neq _ _)) by lia. cbn [orb].
    unfold user_mask, lors. cbn [foldr]. rewrite !Z.lor_spec, !Z.pow2_bits_eqb, Z.bits_0 by done.
    rewrite !(proj2 (Z.eqb_neq _ _)) by lia. by rewrite andb_true_r. }
  split.
  - split; cbn [clear_flags set_flags set_user flags so_pin_count so_pin_salt user_pin_count user_pin_salt]; [done| | |lia|].
    + by rewrite Hbits by (done || set_solver).
    + by rewrite Hbits by (done || set_solver).
    + intros _. rewrite testbit_lor, testbit_clear by done. change (Z.testbit user_mask 18) with true. cbn [Z.eqb orb negb]. by rewrite andb_false_r.
  - split; intros Hlk; cbn [clear_flags set_flags set_user flags so_pin_salt so_pin_hash]; by rewrite Hbits by (done || set_solver).
Qed.

Lemma run_set_pin t k m0 session y pin n user (Q : unit → ta → Prop) (R P : ta → Prop) s s1 :
  token_at s t k → pin_at s t k m0 s1 → sessions s !! session = Some y → token y = t →
  (user = PKCS11_CKU_SO → ¬ so_locked (db_main k)) →
  (∀ s', pin_step s t k s' → Q tt s') → (∀ s', pin_step s t k s' → R s') → (∀ s', pin_fault s t k s' → P s') →
  run (set_pin sha256 session pin n user) Q R P s1.
Proof.
  intros Hk Ha Hy Hyt Hnl HQ HR HP. assert (R s1) as HR1 by (apply HR; by exists m0).
  apply run_bind, (run_read_session _ y); [by destruct Ha as [(e & -> & _) _]|].
  cbv zeta. rewrite Hyt. destruct (pin_at_main _ _ _ _ _ Hk Ha) as (k1 & Hk1 & Hm1).
  apply run_bind, (run_read_main _ k1); [done|]. rewrite Hm1.
  destruct (has_flag m0 _); [by apply run_throw|]. destruct (negb (pkcs11_session_is_read_write y)); [by apply run_throw|].
  destruct (_ || _); [by apply run_throw|].
  destruct (Z.eqb_spec user PKCS11_CKU_SO) as [Hso|_].
  - apply run_bind, run_hash_pin; [|intros s' Hu; apply HR; exists m0; by eapply pin_at_used].
    intros salt s' Hu Hsalt. destruct (new_so_pin_ok m0 salt (pin_hash sha256 user pin salt)) as [Hok Hi]; [apply Ha|lia|].
    apply (run_pin_update t k m0 _ _ _ _ s); try done.
    + by eapply pin_at_used.
    + apply so_kept_unlocked; [|by apply Hnl]. intros ?. apply Hi, Ha. done.
    + intros s2 Hs2. apply HQ. by eexists.
  - destruct (Z.eqb_spec user PKCS11_CKU_USER) as [Hus|_]; [|by apply run_throw].
    apply run_bind, run_hash_pin; [|intros s' Hu; apply HR; exists m0; by eapply pin_at_used].
    intros salt s' Hu Hsalt. destruct (new_user_pin_ok m0 salt (pin_hash sha256 user pin salt)) as [Hok Hkept]; [apply Ha|lia|].
    apply (run_pin_update t k m0 _ _ _ _ s); try done.
    + by eapply pin_at_used.
    + eapply so_kept_trans; [apply Ha|exact Hkept].
    + intros s2 Hs2. apply HQ. by eexists.
Qed.

(** ** The token is initialised *)

Definition init_mask : Z := lors [PKCS11_CKFT_USER_PIN_INITIALIZED; PKCS11_CKFT_USER_PIN_COUNT_LOW; PKCS11_CKFT_USER_PIN_FINAL_TRY;
  PKCS11_CKFT_USER_PIN_LOCKED; PKCS11_CKFT_USER_PIN_TO_BE_CHANGED].
Definition inited (m : token_persistent_main) (lab : list Z) : token_persistent_main :=
  let m := set_label m lab in
  let m := set_flags m (Z.lor (flags m) PKCS11_CKFT_TOKEN_INITIALIZED) in
  clear_flags (set_user m (user_pin_count m) 0 (user_pin_hash m)) init_mask.

Lemma inited_ok m lab : main_ok m → so_pin_salt m ≠ 0 → main_ok (inited m lab) ∧ initialized (inited m lab).
Proof.
  intros [Hc Hl Hs Hu Hul] Hsalt. split.
  2: { cbn [inited set_label clear_flags set_flags set_user flags]. rewrite testbit_clear, testbit_lor by done. done. }
  split; cbn [inited set_label clear_flags set_flags set_user flags so_pin_count so_pin_salt user_pin_count user_pin_salt]; try done.
  rewrite testbit_clear, testbit_lor by done. change (Z.testbit init_mask 22) with false. cbn [Z.eqb Pos.eqb orb negb]. by rewrite andb_true_r.
Qed.
End pins.
