(* ===== verification/Pkcs11Sessions.v ===== *)
(** * Sessions of the PKCS#11 TA: what the operations keep

    The parts of the commands: arguments, sessions found by their handle, sessions
    opened, closed, logged in and out. Each keeps [inv] of Pkcs11TokenProofs.v. *)
From S2P Require Import Prelude HandleSpec Pkcs11Handle Pkcs11Attr Pkcs11AttrProofs Pkcs11Token Pkcs11TokenProofs.

Local Open Scope Z_scope.

Section sessions.
Context `{Heap}.

(** ** Arguments *)

Definition args_good (a : serialargs) : Prop := args_ok a ∧ bytes_ok (rest a).

(** The memory of a command's first parameter. *)
Definition call_ok (c : call) : Prop :=
  0 <= ctrl_addr c ∧ ctrl_addr c + Z.of_nat (length (ctrl c)) < 2 ^ 64 ∧ bytes_ok (ctrl c).

Lemma init_good c : call_ok c → args_good (serialargs_init (ctrl_addr c) (ctrl c)).
Proof.
  intros (H1 & H2 & H3). unfold args_good, args_ok, rest, serialargs_init. cbn [start next Pkcs11Attr.size input].
  rewrite Z.sub_diag. split; [lia|exact H3].
Qed.

Lemma init_rest c : rest (serialargs_init (ctrl_addr c) (ctrl c)) = ctrl c.
Proof. unfold rest, serialargs_init. cbn [start next input]. by rewrite Z.sub_diag. Qed.

Lemma run_arg_bytes a n (Q : _ → ta → Prop) (R P : ta → Prop) s : args_good a → 0 <= n < 2 ^ 32 →
  (∀ b a', args_good a' → length b = Z.to_nat n → bytes_ok b → rest a = b ++ rest a' → Q (b, a') s) → R s → run (arg_bytes a n) Q R P s.
Proof.
  intros [Ha Hb] Hn HQ HR. unfold arg_bytes, lift_o, run. pose proof (serialargs_get_ok a n Ha Hn) as Hg.
  destruct (serialargs_get a n) as [[b a']|e|]; [|exact HR|done]. destruct Hg as (Hl & Ha' & Hr & ->).
  assert (bytes_ok (rest a')) by (rewrite Hr; by apply Forall_drop).
  apply HQ; [done| |by apply Forall_take|by rewrite Hr, take_drop]. rewrite length_take. lia.
Qed.

Lemma run_arg_u32 a (Q : _ → ta → Prop) (R P : ta → Prop) s : args_good a →
  (∀ v a', args_good a' → 0 <= v < 2 ^ 32 → rest a = le32 v ++ rest a' → Q (v, a') s) → R s → run (arg_u32 a) Q R P s.
Proof.
  intros Ha HQ HR. apply run_bind, run_arg_bytes; [done|lia| |done]. intros b a' Ha' Hl Hb Hr. apply run_ret.
  pose proof (le_value_bound b Hb) as Hv. rewrite Hl in Hv. apply HQ; [done|exact Hv|].
  rewrite Hr. f_equal. unfold le32. rewrite wrap_small by (unfold in_range; exact Hv).
  change (Z.to_nat 4) with 4%nat in Hl. rewrite <- Hl at 1. symmetry. by apply le_bytes_value.
Qed.

Lemma run_arg_ptr a n (Q : _ → ta → Prop) (R P : ta → Prop) s : args_good a → 0 <= n < 2 ^ 32 →
  (∀ b a', args_good a' → length b = Z.to_nat n → rest a = b ++ rest a' → Q (b, a') s) → R s → run (arg_ptr a n) Q R P s.
Proof.
  intros [Ha Hb] Hn HQ HR. apply run_bind. pose proof (get_ptr_ok a n Ha Hn) as Hg. unfold lift_o at 1, run.
  destruct (serialargs_get_ptr a n) as [[p a']|e|]; [|exact HR|done]. destruct Hg as (Hl & Ha' & Hr & _ & _ & _ & Hc).
  unfold lift_o, mbind, M_bind. rewrite Hc.
  assert (bytes_ok (rest a')) by (rewrite Hr; by apply Forall_drop).
  apply HQ; [done| |by rewrite Hr, take_drop]. rewrite length_take. lia.
Qed.

Lemma run_no_more a (Q : unit → ta → Prop) (R P : ta → Prop) s : args_good a → (rest a = [] → Q tt s) → R s → run (no_more a) Q R P s.
Proof.
  intros [(H1 & H2 & H3 & H4) _] HQ HR. unfold no_more. destruct (serialargs_remaining_bytes a) eqn:Hr; [by apply run_throw|].
  apply run_ret, HQ. unfold serialargs_remaining_bytes in Hr. apply Z.ltb_ge in Hr. apply drop_ge. lia.
Qed.

Lemma run_get_token v (Q : _ → ta → Prop) (R P : ta → Prop) s : 0 <= v → (0 <= v < 3 → Q v s) → R s → run (get_token v) Q R P s.
Proof.
  intros Hv HQ HR. unfold get_token, TOKEN_COUNT. destruct (Z.ltb_spec v 3); [apply run_ret; auto|by apply run_throw].
Qed.

Lemma handle_lookup_table db h : db_wf db → 0 <= h → handle_lookup (Some db) h ≠ 0 →
  db_table db !! Z.to_nat h = Some (handle_lookup (Some db) h).
Proof.
  intros Hwf Hh Hne. assert (1 <= h) as H1 by (destruct (Z.eq_dec h 0) as [->|]; [done|lia]).
  revert Hne. rewrite <- (Z2Nat.id h) at 1 3 by lia. rewrite pkcs11_handle_lookup_spec by (done || lia).
  by destruct (db_table db !! Z.to_nat h).
Qed.

(** The session of a handle, or 0. *)
Lemma run_handle2session h cl x (Q : Z → ta → Prop) (R P : ta → Prop) s : inv s → clients s !! cl = Some x → 0 <= h →
  (∀ p, (p ≠ 0 → ∃ y, sessions s !! p = Some y ∧ client y = cl ∧ p ∈ session_list x) → Q p s) → run (pkcs11_handle2session h cl) Q R P s.
Proof.
  intros Hs Hx Hh HQ. apply run_bind, (run_read_client _ x); [done|]. apply run_ret, HQ. intros Hne.
  destruct (i_client s Hs _ _ Hx) as [_ Hdb Hl Hht]. pose proof (handle_lookup_table _ _ Hdb Hh Hne) as Hp.
  destruct (Hht _ _ Hp) as (Hin & y & Hy & _). destruct (Hl _ Hin) as (y' & Hy' & Hc & _). exists y. split; [done|]. split; [congruence|done].
Qed.

Lemma run_get_session a cl x (Q : _ → ta → Prop) (R P : ta → Prop) s : inv s → clients s !! cl = Some x → args_good a →
  (∀ p y a' h, args_good a' → sessions s !! p = Some y → client y = cl → p ∈ session_list x → rest a = le32 h ++ rest a' → Q (p, a') s) →
  R s → run (serialargs_get_session_from_handle a cl) Q R P s.
Proof.
  intros Hs Hx Ha HQ HR. apply run_bind, run_arg_u32; [done| |done]. intros h a' Ha' Hh Hr.
  apply run_bind, (run_handle2session _ _ x); [done|done|lia|]. intros p Hp.
  destruct (Z.eqb_spec p 0) as [|Hne]; [by apply run_throw|]. destruct (Hp Hne) as (y & Hy & Hc & Hin). by apply run_ret, (HQ p y a' h).
Qed.

(** ** What a command may do to the storage and to who is logged in *)

(** A database as the TA writes it. *)
Definition db_ok (m : token_persistent_main) (objs : option (list Z)) : Prop := main_ok m ∧ NoDup (default [] objs).

(** The databases stay well-formed, and a lock of the security officer's PIN in them. *)
Definition disk_kept (db db' : list (option (token_persistent_main * option (list Z)))) : Prop := length db' = length db ∧
  ∀ t m objs, db !! t = Some (Some (m, objs)) → db_ok m objs →
  ∃ m' objs', db' !! t = Some (Some (m', objs')) ∧ db_ok m' objs' ∧ so_kept m m'.
Definition stored_kept (s s' : ta) : Prop := disk_kept (stored s) (stored s').

(** A session that is logged in was so before (as another session of the client on the
    token may be), or [A] holds of client, token and login. *)
Definition logins_kept (A : Z → Z → login_kind → Prop) (s s' : ta) : Prop := ∀ p y, sessions s' !! p = Some y → login y ≠ LPublic →
  (∃ q z, sessions s !! q = Some z ∧ client z = client y ∧ token z = token y ∧ login z = login y) ∨ A (client y) (token y) (login y).

Definition nobody : Z → Z → login_kind → Prop := λ _ _ _, False.

Record step_to (A : Z → Z → login_kind → Prop) (s s' : ta) : Prop := {
  st_inv : inv s'; st_stored : stored_kept s s'; st_logins : logins_kept A s s';
}.

Lemma stored_kept_eq s s' : stored s' = stored s → stored_kept s s'.
Proof. intros He. split; [by rewrite He|]. intros t m objs Hst Hm. rewrite He. exists m, objs. split; [done|]. split; [done|apply so_kept_refl]. Qed.

Lemma stored_kept_trans s1 s2 s3 : stored_kept s1 s2 → stored_kept s2 s3 → stored_kept s1 s3.
Proof.
  intros [L12 H12] [L23 H23]. split; [by rewrite L23|]. intros t m objs Hst Hm. destruct (H12 t m objs Hst Hm) as (m2 & o2 & Hst2 & Hm2 & Hk2).
  destruct (H23 t m2 o2 Hst2 Hm2) as (m3 & o3 & Hst3 & Hm3 & Hk3). exists m3, o3. split; [done|]. split; [done|]. by eapply so_kept_trans.
Qed.

Lemma logins_kept_eq A s s' : sessions s' = sessions s → logins_kept A s s'.
Proof. intros He p y Hy _. rewrite He in Hy. left. by exists p, y. Qed.

Lemma logins_kept_trans A s1 s2 s3 : logins_kept nobody s1 s2 → logins_kept A s2 s3 → logins_kept A s1 s3.
Proof.
  intros H12 H23 p y Hy Hl. destruct (H23 p y Hy Hl) as [(q & z & Hz & Hc & Ht & Hlz)|]; [|by right].
  destruct (H12 q z Hz) as [(q' & z' & Hz' & Hc' & Ht' & Hl')|[]]; [by rewrite Hlz|]. left. exists q', z'. split; [done|]. by rewrite Hc', Ht', Hl'.
Qed.

Lemma step_to_trans A s1 s2 s3 : step_to nobody s1 s2 → step_to A s2 s3 → step_to A s1 s3.
Proof. intros [_ Hs1 Hl1] [Hi Hs2 Hl2]. split; [done|by eapply stored_kept_trans|by eapply logins_kept_trans]. Qed.

Lemma step_to_refl A s : inv s → step_to A s s.
Proof. intros Hs. split; [done|by apply stored_kept_eq|by apply logins_kept_eq]. Qed.

Lemma step_to_used A s s1 s2 : step_to A s s1 → used s1 s2 → step_to A s s2.
Proof.
  intros [Hi Hst Hl] Hu. pose proof (inv_used _ _ Hu Hi). destruct Hu as (e & -> & _). by split.
Qed.

(** ** PINs *)

Lemma put_both_token s t m i k : tokens (put_both s t m) !! i = Some k →
  ∃ k0, tokens s !! i = Some k0 ∧ k = if decide (Z.to_nat t = i) then set_main k0 m else k0.
Proof.
  cbn. rewrite list_lookup_alter. case_decide as Hi; [rewrite <- Hi|intros ->; by eexists].
  destruct (tokens s !! Z.to_nat t) as [k0|]; [|done]. intros [= <-]. by exists k0.
Qed.

Lemma inv_put_both s t k m : inv s → token_at s t k → main_ok m → so_kept (db_main k) m → inv (put_both s t m).
Proof.
  intros Hs [Htk _] Hm [Hinit _]. split; try apply Hs.
  - cbn. rewrite length_alter. apply Hs.
  - intros i k1 (k0 & Hk0 & ->)%put_both_token. destruct (i_token s Hs _ _ Hk0) as [(objs & Hst & Hndo) Hdo Hm0 Hc Hrw Hnd Ho].
    split; case_decide as Hi; try done.
    + exists objs. cbn. by rewrite Hi, list_lookup_alter_eq, Hst.
    + exists objs. cbn. by rewrite list_lookup_alter_ne.
  - intros c x Hx. destruct (i_client s Hs _ _ Hx). by split.
  - intros p y Hy. destruct (i_session s Hs _ _ Hy). by split.
  - intros p y k' Hy Hl (k0 & Hk0 & ->)%put_both_token. pose proof (i_so s Hs p y k0 Hy Hl Hk0) as Hi. case_decide as He; [|done].
    apply Hinit. rewrite He in Htk. by assert (k = k0) as -> by congruence.
  - intros p y Hy. destruct (i_objects s Hs _ _ Hy) as [H1 H2 H3 H4]. split; try done.
    intros h o Ho. destruct (H4 h o Ho) as (x & Hx & Hwa & [?|[Hl (k1 & Hk & Hin)]]); [exists x; auto|]. exists x. split; [done|]. split; [done|]. right. split; [done|].
    cbn. rewrite list_lookup_alter. case_decide as Hi; [|by exists k1]. rewrite Hi, Hk. by exists (set_main k1 m).
Qed.

Lemma stored_put_both s t k m : token_at s t k → main_ok m → so_kept (db_main k) m → stored_kept s (put_both s t m).
Proof.
  intros [Hk [objs Hst]] Hm Hkept. split; [cbn; by rewrite length_alter|]. intros i m0 o0 H0 Hm0. cbn. rewrite list_lookup_alter. case_decide as Hi.
  - rewrite <- Hi, Hst in H0. rewrite Hst. injection H0 as <- <-. exists m, objs. split; [done|]. split; [|done]. by split; [|apply Hm0].
  - exists m0, o0. split; [done|]. split; [done|apply so_kept_refl].
Qed.

Lemma pin_step_to A s t k s' : inv s → token_at s t k → pin_step s t k s' → step_to A s s'.
Proof.
  intros Hs Hk (m & Hu & Hm & Hkept). apply (step_to_used _ _ (put_both s t m)); [|done]. split.
  - by apply (inv_put_both _ _ k).
  - by apply (stored_put_both _ _ k).
  - by apply logins_kept_eq.
Qed.

(** The TA panics: what is left in the storage, and why. *)
Definition fault (why : Prop) (s s' : ta) : Prop := stored_kept s s' ∧ (¬ works s ∨ why).

Lemma pin_fault_fault why s t k s' : token_at s t k → pin_fault s t k s' → fault why s s'.
Proof.
  intros Hk [Hw (m & Hst & Hm & Hkept)]. split; [|by left]. apply (stored_kept_trans _ (put_both s t m)); [by apply (stored_put_both _ _ k)|by apply stored_kept_eq].
Qed.

(** ** Counting sessions *)

Lemma filter_size (P P' : Z * pkcs11_session → Prop) `{∀ x, Decision (P x), ∀ x, Decision (P' x)} (m m' : gmap Z pkcs11_session) :
  (∀ p, (∃ y, m !! p = Some y ∧ P (p, y)) ↔ (∃ y, m' !! p = Some y ∧ P' (p, y))) →
  base.size (filter P m) = base.size (filter P' m').
Proof.
  intros Hiff. rewrite <- !size_dom. f_equal. apply set_eq. intros p. rewrite !elem_of_dom.
  split; intros [y [Hy HP]%map_lookup_filter_Some].
  - destruct (proj1 (Hiff p)) as (y' & Hy' & HP'); [by exists y|]. exists y'. by apply map_lookup_filter_Some.
  - destruct (proj2 (Hiff p)) as (y' & Hy' & HP'); [by exists y|]. exists y'. by apply map_lookup_filter_Some.
Qed.

(** Only token and access of a session count. *)
Definition same_session (y y' : pkcs11_session) : Prop :=
  client y' = client y ∧ token y' = token y ∧ handle y' = handle y ∧ session_objects y' = session_objects y ∧
  object_handle_db y' = object_handle_db y ∧ pkcs11_session_is_read_write y' = pkcs11_session_is_read_write y.

Definition same_sessions (m m' : gmap Z pkcs11_session) : Prop :=
  ∀ p, match m !! p, m' !! p with
       | Some y, Some y' => same_session y y'
       | None, None => True
       | _, _ => False
       end.

Lemma same_sessions_l m m' p y : same_sessions m m' → m !! p = Some y → ∃ y', m' !! p = Some y' ∧ same_session y y'.
Proof. intros Hm Hy. specialize (Hm p). rewrite Hy in Hm. destruct (m' !! p) as [y'|]; [by exists y'|done]. Qed.

Lemma same_sessions_r m m' p y' : same_sessions m m' → m' !! p = Some y' → ∃ y, m !! p = Some y ∧ same_session y y'.
Proof. intros Hm Hy. specialize (Hm p). rewrite Hy in Hm. destruct (m !! p) as [y|]; [by exists y|done]. Qed.

Lemma same_sessions_counted f t s m' : same_sessions (sessions s) m' → (∀ y y', same_session y y' → f y' = f y) →
  counted f t (set_sessions s m') = counted f t s.
Proof.
  intros Hm Hf. unfold counted, on_token. cbn [sessions set_sessions]. do 2 f_equal. apply filter_size. intros p. cbn. split.
  - intros (y & Hy & Ht & Hfy). destruct (same_sessions_r _ _ _ _ Hm Hy) as (y0 & Hy0 & Hs). exists y0. split; [done|].
    rewrite <- (Hf _ _ Hs). by destruct Hs as (_ & <- & _).
  - intros (y & Hy & Ht & Hfy). destruct (same_sessions_l _ _ _ _ Hm Hy) as (y0 & Hy0 & Hs). exists y0. split; [done|].
    rewrite (Hf _ _ Hs). by destruct Hs as (_ & -> & _).
Qed.

(** ** Sessions that are logged in or out *)

Lemma inv_set_sessions s m' : inv s → same_sessions (sessions s) m' →
  (∀ p q y z, m' !! p = Some y → m' !! q = Some z → client y = client z → token y = token z → login y = login z) →
  (∀ p y k, m' !! p = Some y → login y = LSo → tokens s !! Z.to_nat (token y) = Some k → initialized (db_main k)) →
  inv (set_sessions s m').
Proof.
  intros Hs Hm Hlog Hso. split; try apply Hs; try done.
  - intros i k Hk. destruct (i_token s Hs _ _ Hk) as [H1 Huu H2 H3 H4 H5 H6]. split; try done.
    + rewrite H3. symmetry. by apply same_sessions_counted.
    + rewrite H4. symmetry. apply same_sessions_counted; [done|]. by intros y y' (_ & _ & _ & _ & _ & ->).
  - intros c x Hx. destruct (i_client s Hs _ _ Hx) as [H1 H2 H3 H4]. split; try done.
    + intros p Hp. destruct (H3 p Hp) as (y & Hy & Hc & Hh). destruct (same_sessions_l _ _ _ _ Hm Hy) as (y' & Hy' & Hsm).
      exists y'. cbn. destruct Hsm as (-> & _ & -> & _). done.
    + intros h p Hp. destruct (H4 h p Hp) as (Hin & y & Hy & Hh). destruct (same_sessions_l _ _ _ _ Hm Hy) as (y' & Hy' & Hsm).
      split; [done|]. exists y'. cbn. destruct Hsm as (_ & _ & -> & _). done.
  - intros p y' Hy'. destruct (same_sessions_r _ _ _ _ Hm Hy') as (y & Hy & Hsm). destruct (i_session s Hs _ _ Hy) as [H1 H2 H3 H4].
    destruct Hsm as (E1 & E2 & E3 & _). split; rewrite ?E1, ?E2, ?E3; done.
  - intros p y' Hy'. destruct (same_sessions_r _ _ _ _ Hm Hy') as (y & Hy & Hsm). destruct (i_objects s Hs _ _ Hy) as [H1 H2 H3 H4].
    destruct Hsm as (_ & E2 & _ & E4 & E5 & _). split; rewrite ?E2, ?E4, ?E5; done.
  - intros p q y' z' h h' o Hy' Hz'. destruct (same_sessions_r _ _ _ _ Hm Hy') as (y & Hy & Hsm). destruct (same_sessions_r _ _ _ _ Hm Hz') as (z & Hz & Hsm').
    destruct Hsm as (_ & _ & _ & _ & -> & _), Hsm' as (_ & _ & _ & _ & -> & _). by apply (i_object_handles s Hs).
Qed.

(** The states given to the sessions of a client on a token. *)
Definition relogged (l : list Z) (t : Z) (f : bool → option pkcs11_session_state) (s s' : ta) : Prop :=
  ∃ m', s' = set_sessions s m' ∧ ∀ p, m' !! p = match sessions s !! p with
    | Some y => if bool_decide (p ∈ l ∧ token y = t) then set_state y <$> f (pkcs11_session_is_read_write y) else Some y
    | None => None
    end.

Lemma run_session_states l t f (Q : unit → ta → Prop) (R P : ta → Prop) s : NoDup l →
  (∀ p, p ∈ l → ∃ y, sessions s !! p = Some y ∧ (token y = t → is_Some (f (pkcs11_session_is_read_write y)))) →
  (∀ s', relogged l t f s s' → Q tt s') → run (session_states l t f) Q R P s.
Proof.
  revert s Q. induction l as [|p l IH]; intros s Q Hnd Hl HQ.
  - apply run_ret, HQ. exists (sessions s). split; [by destruct s|]. intros q. destruct (sessions s !! q) as [y|]; [|done].
    rewrite bool_decide_false; [done|]. intros [Hq _]. by apply not_elem_of_nil in Hq.
  - apply NoDup_cons in Hnd as [Hp Hnd]. destruct (Hl p) as (y & Hy & Hf); [by apply elem_of_cons; left|].
    cbn [session_states]. apply run_bind, (run_read_session _ y); [done|].
    destruct (Z.eqb_spec (token y) t) as [Ht|Ht].
    + destruct (Hf Ht) as [st Hst]. apply run_seq, run_bind, (run_find _ st); [done|].
      apply run_bind, run_get, run_put. apply IH; [done| |].
      { intros q Hq. cbn. rewrite lookup_insert_ne by (by intros ->). apply Hl. by apply elem_of_cons; right. }
      intros s' (m' & -> & Hm'). apply HQ. exists m'. split; [done|]. intros q. rewrite Hm'. cbn.
      destruct (decide (q = p)) as [->|Hqp].
      * rewrite lookup_insert_eq, Hy. cbn. rewrite bool_decide_false by (by intros [? _]).
        rewrite bool_decide_true; [by rewrite Hst|]. split; [by apply elem_of_cons; left|done].
      * rewrite lookup_insert_ne by done. destruct (sessions s !! q) as [z|]; [|done].
        assert (bool_decide (q ∈ l ∧ token z = t) = bool_decide (q ∈ p :: l ∧ token z = t)) as ->; [|done].
        apply bool_decide_ext. rewrite elem_of_cons. naive_solver.
    + apply run_seq, run_ret, IH; [done|intros q Hq; apply Hl; by apply elem_of_cons; right|].
      intros s' (m' & -> & Hm'). apply HQ. exists m'. split; [done|]. intros q. rewrite Hm'.
      destruct (sessions s !! q) as [z|] eqn:Hz; [|done].
      assert (bool_decide (q ∈ l ∧ token z = t) = bool_decide (q ∈ p :: l ∧ token z = t)) as ->; [|done].
      apply bool_decide_ext. rewrite elem_of_cons. split; [naive_solver|]. intros [[->|?] ?]; [|done]. by simplify_eq.
Qed.

(** A function that gives every session login [k] and keeps its access. *)
Definition gives (f : bool → option pkcs11_session_state) (k : login_kind) : Prop := ∀ y st, f (pkcs11_session_is_read_write y) = Some st →
  login (set_state y st) = k ∧ pkcs11_session_is_read_write (set_state y st) = pkcs11_session_is_read_write y.

Lemma session_of_client s cl x p y : inv s → clients s !! cl = Some x → sessions s !! p = Some y → p ∈ session_list x ↔ client y = cl.
Proof.
  intros Hs Hx Hy. split.
  - intros Hp. destruct (co_list _ _ _ (i_client s Hs _ _ Hx) p Hp) as (y' & Hy' & Hc & _). by simplify_eq.
  - intros <-. destruct (so_client _ _ _ (i_session s Hs _ _ Hy)) as (x' & Hx' & Hp). by simplify_eq.
Qed.

Lemma relogged_step k f s s' cl x t : inv s → clients s !! cl = Some x → relogged (session_list x) t f s s' → gives f k →
  (∀ p y, sessions s !! p = Some y → client y = cl → token y = t → is_Some (f (pkcs11_session_is_read_write y))) →
  (k = LSo → ∀ tk, tokens s !! Z.to_nat t = Some tk → initialized (db_main tk)) →
  step_to (λ c t' k', c = cl ∧ t' = t ∧ k' = k) s s'.
Proof.
  intros Hs Hx (m' & -> & Hm') Hg Hf Hi.
  assert (∀ p y', m' !! p = Some y' → ∃ y, sessions s !! p = Some y ∧ same_session y y' ∧
    (client y = cl ∧ token y = t ∧ login y' = k ∨ ¬ (client y = cl ∧ token y = t) ∧ y' = y)) as Hback.
  { intros p y' Hy'. rewrite Hm' in Hy'. destruct (sessions s !! p) as [y|] eqn:Hy; [|done]. exists y. split; [done|].
    pose proof (session_of_client _ _ _ _ _ Hs Hx Hy) as Hiff. case_bool_decide as Hin.
    - destruct Hin as [Hin Ht]. destruct (f _) as [st|] eqn:Hst; [|done]. cbn in Hy'. injection Hy' as <-.
      destruct (Hg y st Hst) as [Hl Hrw]. split; [by repeat split|]. left. split; [by apply Hiff|done].
    - injection Hy' as <-. split; [by repeat split|]. right. split; [|done]. intros [Hc%Hiff Ht]; by apply Hin. }
  assert (same_sessions (sessions s) m') as Hsame.
  { intros p. destruct (m' !! p) as [y'|] eqn:Hy'.
    - destruct (Hback p y' Hy') as (y & -> & Hsm & _). done.
    - rewrite Hm' in Hy'. destruct (sessions s !! p) as [y|] eqn:Hy; [|done]. pose proof (session_of_client _ _ _ _ _ Hs Hx Hy) as Hiff.
      case_bool_decide as Hin; [|done]. destruct Hin as [?%Hiff Ht]. destruct (Hf p y) as [st Hst]; [done..|]. by rewrite Hst in Hy'. }
  split; [|by apply stored_kept_eq|].
  - apply inv_set_sessions; [done|done| |].
    { intros p q y' z' Hy' Hz' Hc Ht.
    destruct (Hback _ _ Hy') as (y & Hy & Hsy & Hcy), (Hback _ _ Hz') as (z & Hz & Hsz & Hcz).
    destruct Hsy as (E1 & E2 & _), Hsz as (F1 & F2 & _). rewrite E1, F1 in Hc. rewrite E2, F2 in Ht.
    destruct Hcy as [(? & ? & ->)|[Hn ->]], Hcz as [(? & ? & ->)|[Hn' ->]]; [done| | |by apply (i_login s Hs p q)].
    + destruct Hn'. by rewrite <- Hc, <- Ht.
    + destruct Hn. by rewrite Hc, Ht. }
      intros p y' tk Hy' Hl Htk. destruct (Hback _ _ Hy') as (y & Hy & (_ & E2 & _) & [(_ & E & E')|[_ ->]]); [|by apply (i_so s Hs p y)].
      rewrite E2, E in Htk. apply Hi; [congruence|done].
  - intros p y' Hy' Hl. destruct (Hback _ _ Hy') as (y & Hy & (-> & -> & _) & [(? & ? & ?)|[Hn ->]]); [by right|]. left. by exists p, y.
Qed.

(** ** A session is opened *)

Lemma on_token_insert f t m p y : m !! p = None →
  Z.of_nat (base.size (on_token f t (<[p := y]> m))) =
  Z.of_nat (base.size (on_token f t m)) + (if bool_decide (token y = Z.of_nat t ∧ f y = true) then 1 else 0).
Proof.
  intros Hp. unfold on_token. case_bool_decide as Hy.
  - rewrite map_filter_insert_True, map_size_insert_None; [lia| |done].
    apply map_lookup_filter_None. by left.
  - rewrite map_filter_insert_False, delete_id by done. lia.
Qed.

Lemma wrap_add w a b : wrap w (wrap w a + b) = wrap w (a + b).
Proof. unfold wrap. by rewrite Zplus_mod_idemp_l. Qed.

Lemma counted_insert f t s p y : sessions s !! p = None →
  counted f t (set_sessions s (<[p := y]> (sessions s))) =
  if bool_decide (token y = Z.of_nat t ∧ f y = true) then wrap 32 (counted f t s + 1) else counted f t s.
Proof.
  intros Hp. unfold counted. cbn [sessions set_sessions]. rewrite on_token_insert by done.
  case_bool_decide; [by rewrite wrap_add|by rewrite Z.add_0_r].
Qed.

Lemma counted_delete f t s p y : sessions s !! p = Some y →
  counted f t (set_sessions s (delete p (sessions s))) =
  if bool_decide (token y = Z.of_nat t ∧ f y = true) then wrap 32 (counted f t s - 1) else counted f t s.
Proof.
  intros Hp. unfold counted. cbn [sessions set_sessions]. pose proof (insert_delete_id (sessions s) p y Hp) as He.
  assert (delete p (sessions s) !! p = None) as Hn by apply lookup_delete_eq.
  set (m := delete p (sessions s)) in *. rewrite <- He, on_token_insert by done.
  case_bool_decide; [rewrite <- Z.add_opp_r, wrap_add; f_equal; lia|by rewrite Z.add_0_r].
Qed.

(** The state with the session [y] at address [p], its client [x] and its token [k]. *)
Definition opened (s : ta) (p : Z) (y : pkcs11_session) (x : pkcs11_client) (k : ck_token) : ta :=
  Ta (<[Z.to_nat (token y) := k]> (tokens s)) (client_list s) (<[client y := x]> (clients s)) (<[p := y]> (sessions s))
     (objects s) (stored s) (object_files s) (p + 1) (env s).

Definition more (rw : bool) (k : ck_token) : ck_token :=
  set_counts k (wrap 32 (session_count k + 1)) (if rw then wrap 32 (rw_session_count k + 1) else rw_session_count k).

Record opening (s : ta) (p : Z) (y : pkcs11_session) (x : pkcs11_client) (k : ck_token) (db : handle_db) : Prop := {
  op_addr : p = next_ptr s;
  op_client : clients s !! client y = Some x;
  op_token : 0 <= token y < 3 ∧ tokens s !! Z.to_nat (token y) = Some k;
  op_handle : 1 <= handle y;
  op_db : db_wf db ∧ db_table (session_handle_db x) !! Z.to_nat (handle y) = None ∧
          db_table db = <[Z.to_nat (handle y) := p]> (db_table (session_handle_db x));
  op_objects : session_objects y = [] ∧ object_handle_db y = handle_db_init;
  op_so : login y = LSo → initialized (db_main k);
  op_login q z : sessions s !! q = Some z → client z = client y → token z = token y → login y = login z;
}.

Lemma opening_fresh s p y x k db : inv s → opening s p y x k db → sessions s !! p = None ∧ p ∉ session_list x.
Proof.
  intros Hs Ho. assert (sessions s !! p = None) as Hn.
  { destruct (sessions s !! p) as [z|] eqn:Hz; [|done]. pose proof (so_addr _ _ _ (i_session s Hs _ _ Hz)). rewrite (op_addr _ _ _ _ _ _ Ho) in *. lia. }
  split; [done|]. intros Hin. destruct (co_list _ _ _ (i_client s Hs _ _ (op_client _ _ _ _ _ _ Ho)) p Hin) as (z & Hz & _). congruence.
Qed.

Lemma opened_session s p y x k q z : sessions (opened s p y x k) !! q = Some z → q = p ∧ z = y ∨ q ≠ p ∧ sessions s !! q = Some z.
Proof. cbn. destruct (decide (q = p)) as [->|Hq]; [rewrite lookup_insert_eq; intros [= <-]; by left|rewrite lookup_insert_ne by done; by right]. Qed.

Lemma opened_token s p y x k db i k' : opening s p y x k db →
  tokens (opened s p y (Client (p :: session_list x) db) (more (pkcs11_session_is_read_write y) k)) !! i = Some k' →
  ∃ k0, tokens s !! i = Some k0 ∧ k' = if decide (Z.to_nat (token y) = i) then more (pkcs11_session_is_read_write y) k0 else k0.
Proof.
  intros Ho. destruct (op_token _ _ _ _ _ _ Ho) as [Ht Hk]. cbn. intros Hi. case_decide as He.
  - rewrite <- He in *. rewrite list_lookup_insert_eq in Hi by (by eapply lookup_lt_Some). injection Hi as <-. by exists k.
  - rewrite list_lookup_insert_ne in Hi by done. by exists k'.
Qed.

Lemma opened_token_ok s p y x k db i k' : inv s → opening s p y x k db →
  let s' := opened s p y (Client (p :: session_list x) db) (more (pkcs11_session_is_read_write y) k) in
  tokens s' !! i = Some k' → token_ok s' i k'.
Proof.
  intros Hs Ho s' Hi. destruct (opened_token _ _ _ _ _ _ _ _ Ho Hi) as (k0 & Hk0 & ->).
  destruct (opening_fresh _ _ _ _ _ _ Hs Ho) as [Hn _].
  destruct (i_token s Hs _ _ Hk0) as [H1 Huu H2 H3 H4 H5 H6]. destruct (op_token _ _ _ _ _ _ Ho) as [Ht _].
  assert (∀ f, counted f i s' = if bool_decide (token y = Z.of_nat i ∧ f y = true) then wrap 32 (counted f i s + 1) else counted f i s) as Hc
    by (intros f; exact (counted_insert f i s p y Hn)).
  split; rewrite ?Hc; case_decide as He; try done; cbn [more set_counts session_count rw_session_count]; rewrite ?H3, ?H4.
  - rewrite bool_decide_true by (split; [lia|done]). done.
  - rewrite bool_decide_false by (intros [? _]; lia). done.
  - destruct (pkcs11_session_is_read_write y); [rewrite bool_decide_true by (split; [lia|done]); done|].
    rewrite bool_decide_false by (by intros [_ ?]). done.
  - rewrite bool_decide_false by (intros [? _]; lia). done.
Qed.

Lemma opened_client_ok s p y x k db c x' : inv s → opening s p y x k db →
  let s' := opened s p y (Client (p :: session_list x) db) (more (pkcs11_session_is_read_write y) k) in
  clients s' !! c = Some x' → client_ok s' c x'.
Proof.
  intros Hs Ho s' Hx'. destruct (opening_fresh _ _ _ _ _ _ Hs Ho) as [Hn Hnx]. pose proof (op_client _ _ _ _ _ _ Ho) as Hx.
  destruct (op_db _ _ _ _ _ _ Ho) as (Hwf & Hfree & Htab). cbn in Hx'.
  destruct (decide (c = client y)) as [->|Hc].
  - rewrite lookup_insert_eq in Hx'. injection Hx' as <-. destruct (i_client s Hs _ _ Hx) as [H1 H2 H3 H4].
    split; cbn [session_list session_handle_db s' opened sessions]; [by constructor|done| |].
    + intros q [->|Hq]%elem_of_cons.
      * exists y. by rewrite lookup_insert_eq, Htab, lookup_insert_eq.
      * destruct (H3 q Hq) as (z & Hz & Hcz & Hh). exists z. rewrite lookup_insert_ne by (intros ->; congruence). split; [done|]. split; [done|].
        rewrite Htab, lookup_insert_ne; [done|]. intros He. rewrite He in Hfree. congruence.
    + intros h q Hq. rewrite Htab in Hq. destruct (decide (h = Z.to_nat (handle y))) as [->|Hh].
      * rewrite lookup_insert_eq in Hq. injection Hq as <-. split; [by apply elem_of_cons; left|]. exists y. rewrite lookup_insert_eq.
        pose proof (op_handle _ _ _ _ _ _ Ho). split; [done|lia].
      * rewrite lookup_insert_ne in Hq by done. destruct (H4 h q Hq) as (Hin & z & Hz & Hhz). split; [by apply elem_of_cons; right|].
        exists z. by rewrite lookup_insert_ne by (intros ->; congruence).
  - rewrite lookup_insert_ne in Hx' by done. destruct (i_client s Hs _ _ Hx') as [H1 H2 H3 H4]. split; [done|done| |].
    + intros q Hq. destruct (H3 q Hq) as (z & Hz & ?). exists z. cbn. by rewrite lookup_insert_ne by (intros ->; congruence).
    + intros h q Hq. destruct (H4 h q Hq) as (Hin & z & Hz & ?). split; [done|]. exists z. cbn. by rewrite lookup_insert_ne by (intros ->; congruence).
Qed.

Lemma init_no_handles h : db_table handle_db_init !! h = None.
Proof. apply table_None. by left. Qed.

Lemma inv_opened s p y x k db : inv s → opening s p y x k db →
  inv (opened s p y (Client (p :: session_list x) db) (more (pkcs11_session_is_read_write y) k)).
Proof.
  intros Hs Ho. destruct (opening_fresh _ _ _ _ _ _ Hs Ho) as [Hn Hnx]. pose proof (op_client _ _ _ _ _ _ Ho) as Hx.
  destruct (op_token _ _ _ _ _ _ Ho) as [Ht Hk]. destruct (op_objects _ _ _ _ _ _ Ho) as [Hno Hnh]. pose proof (op_addr _ _ _ _ _ _ Ho) as Hp.
  destruct (i_next s Hs) as (N1 & N2 & N3).
  split.
  - cbn. rewrite length_insert. apply Hs.
  - intros i k'. by apply opened_token_ok.
  - split; [apply Hs|]. intros c. cbn. rewrite lookup_insert_is_Some. rewrite (proj2 (i_client_list s Hs) c).
    destruct (decide (client y = c)) as [<-|]; [rewrite Hx; by split; [intros _; left|]|]. split; [by right|]. by intros [?|[_ ?]].
  - intros c x'. by apply opened_client_ok.
  - intros q z Hz. destruct (opened_session _ _ _ _ _ _ _ Hz) as [[-> ->]|[Hq Hz']].
    + split; [cbn; lia|lia|apply (op_handle _ _ _ _ _ _ Ho)|]. exists (Client (p :: session_list x) db). cbn. rewrite lookup_insert_eq.
      split; [done|by apply elem_of_cons; left].
    + destruct (i_session s Hs _ _ Hz') as [S1 S2 S3 (x' & Hx' & Hin)]. split; [cbn; lia|done|done|]. cbn.
      destruct (decide (client z = client y)) as [He|He].
      * rewrite He, lookup_insert_eq. eexists. split; [done|]. apply elem_of_cons. right. congruence.
      * rewrite lookup_insert_ne by done. by exists x'.
  - intros q r z w Hz Hw. destruct (opened_session _ _ _ _ _ _ _ Hz) as [[-> ->]|[Hq Hz']], (opened_session _ _ _ _ _ _ _ Hw) as [[-> ->]|[Hr Hw']]; [done| | |].
    + intros. by apply (op_login _ _ _ _ _ _ Ho r).
    + intros. symmetry. by apply (op_login _ _ _ _ _ _ Ho q).
    + by apply (i_login s Hs q r).
  - intros q z k' Hz Hl (k0 & Hk0 & ->)%(opened_token _ _ _ _ _ _ _ _ Ho).
    assert (initialized (db_main k0)) as Hi; [|by case_decide].
    destruct (opened_session _ _ _ _ _ _ _ Hz) as [[-> ->]|[Hq Hz']]; [|by apply (i_so s Hs q z)].
    assert (k0 = k) as -> by congruence. by apply (op_so _ _ _ _ _ _ Ho).
  - intros q z Hz. destruct (opened_session _ _ _ _ _ _ _ Hz) as [[-> ->]|[Hq Hz']].
    + split; rewrite ?Hno, ?Hnh; [constructor|apply pkcs11_db_wf_init| |].
      * by intros o ?%not_elem_of_nil.
      * intros h o Hh. by rewrite init_no_handles in Hh.
    + destruct (i_objects s Hs _ _ Hz') as [O1 O2 O3 O4]. split; try done. intros h o Hh.
      destruct (O4 h o Hh) as (ob & Hob & Hwa & [?|[Hl (k0 & Hk0 & Hin)]]); [exists ob; auto|]. exists ob. split; [done|]. split; [done|]. right. split; [done|]. cbn.
      destruct (decide (Z.to_nat (token z) = Z.to_nat (token y))) as [He|He].
      * rewrite He, list_lookup_insert_eq by (by eapply lookup_lt_Some). eexists. split; [done|]. cbn. congruence.
      * rewrite list_lookup_insert_ne by done. by exists k0.
  - intros q r z w h h' o Hz Hw. destruct (opened_session _ _ _ _ _ _ _ Hz) as [[-> ->]|[Hq Hz']]; [rewrite Hnh; intros Hh; by rewrite init_no_handles in Hh|].
    destruct (opened_session _ _ _ _ _ _ _ Hw) as [[-> ->]|[Hr Hw']]; [rewrite Hnh; intros _ Hh; by rewrite init_no_handles in Hh|].
    by apply (i_object_handles s Hs).
  - cbn. split; [lia|]. split.
    + intros c [|[_ Hc]]%lookup_insert_is_Some; [|by specialize (N2 c Hc); lia]. subst c. specialize (N2 _ (mk_is_Some _ _ Hx)). lia.
    + intros o Hob. specialize (N3 o Hob). lia.
Qed.

(** ** A session is closed *)

Definition less (rw : bool) (k : ck_token) : ck_token :=
  set_counts k (wrap 32 (session_count k - 1)) (if rw then wrap 32 (rw_session_count k - 1) else rw_session_count k).

Definition closed (s : ta) (p : Z) (y : pkcs11_session) (x : pkcs11_client) (k : ck_token) : ta :=
  Ta (<[Z.to_nat (token y) := k]> (tokens s)) (client_list s) (<[client y := x]> (clients s)) (delete p (sessions s))
     (objects s) (stored s) (object_files s) (next_ptr s) (env s).

Record closing (s : ta) (p : Z) (y : pkcs11_session) (x : pkcs11_client) (k : ck_token) (db : handle_db) : Prop := {
  cl_session : sessions s !! p = Some y;
  cl_client : clients s !! client y = Some x;
  cl_token : tokens s !! Z.to_nat (token y) = Some k;
  cl_db : db_wf db ∧ db_table db = delete (Z.to_nat (handle y)) (db_table (session_handle_db x));
}.

Lemma closed_session s p y x k q z : sessions (closed s p y x k) !! q = Some z → q ≠ p ∧ sessions s !! q = Some z.
Proof. cbn. by intros [??]%lookup_delete_Some. Qed.

Lemma elem_of_remove l x y : y ∈ remove l x ↔ y ≠ x ∧ y ∈ l.
Proof. unfold remove. by rewrite list_elem_of_filter. Qed.

Lemma NoDup_remove l x : NoDup l → NoDup (remove l x).
Proof. apply NoDup_filter. Qed.

Lemma closed_token_ok s p y x k db i k' : inv s → closing s p y x k db →
  let s' := closed s p y (Client (remove (session_list x) p) db) (less (pkcs11_session_is_read_write y) k) in
  tokens s' !! i = Some k' → token_ok s' i k'.
Proof.
  intros Hs Hc s' Hi. destruct Hc as [Hy Hx Hk _]. destruct (so_token _ _ _ (i_session s Hs _ _ Hy)) as [Ht _].
  assert (∀ f, counted f i s' = if bool_decide (token y = Z.of_nat i ∧ f y = true) then wrap 32 (counted f i s - 1) else counted f i s) as Hc
    by (intros f; exact (counted_delete f i s p y Hy)).
  cbn in Hi. destruct (decide (Z.to_nat (token y) = i)) as [He|He].
  - rewrite <- He, list_lookup_insert_eq in Hi by (by eapply lookup_lt_Some). injection Hi as <-. rewrite He in Hk.
    destruct (i_token s Hs _ _ Hk) as [H1 Huu H2 H3 H4 H5 H6]. split; rewrite ?Hc; try done; cbn [less set_counts session_count rw_session_count]; rewrite ?H3, ?H4.
    + by rewrite bool_decide_true by (split; [lia|done]).
    + destruct (pkcs11_session_is_read_write y); [by rewrite bool_decide_true by (split; [lia|done])|].
      by rewrite bool_decide_false by (by intros [_ ?]).
  - rewrite list_lookup_insert_ne in Hi by done. destruct (i_token s Hs _ _ Hi) as [H1 Huu H2 H3 H4 H5 H6].
    split; rewrite ?Hc; try done; by rewrite bool_decide_false by (intros [? _]; lia).
Qed.

Lemma closed_client_ok s p y x k db c x' : inv s → closing s p y x k db →
  let s' := closed s p y (Client (remove (session_list x) p) db) (less (pkcs11_session_is_read_write y) k) in
  clients s' !! c = Some x' → client_ok s' c x'.
Proof.
  intros Hs [Hy Hx Hk [Hwf Htab]] s' Hx'. destruct (i_client s Hs _ _ Hx) as [H1 H2 H3 H4].
  assert (1 <= handle y) as Hh by apply (i_session s Hs _ _ Hy). cbn in Hx'.
  assert (p ∈ session_list x) as Hpx by (by apply (session_of_client _ _ _ _ _ Hs Hx Hy)).
  destruct (H3 p Hpx) as (y0 & Hy0 & _ & Hph). assert (y0 = y) as -> by congruence.
  destruct (decide (c = client y)) as [->|Hc].
  - rewrite lookup_insert_eq in Hx'. injection Hx' as <-. split; cbn [session_list session_handle_db s' closed sessions]; [by apply NoDup_remove|done| |].
    + intros q [Hqp Hq]%elem_of_remove. destruct (H3 q Hq) as (z & Hz & Hcz & Hhz). exists z. rewrite lookup_delete_ne by done. split; [done|]. split; [done|].
      rewrite Htab, lookup_delete_ne; [done|]. intros He. rewrite He, Hhz in Hph. congruence.
    + intros h q Hq. rewrite Htab in Hq. apply lookup_delete_Some in Hq as [Hne Hq]. destruct (H4 h q Hq) as (Hin & z & Hz & Hhz).
      assert (q ≠ p) as Hqp by (intros ->; assert (z = y) by congruence; subst z; lia).
      split; [by apply elem_of_remove|]. exists z. by rewrite lookup_delete_ne.
  - rewrite lookup_insert_ne in Hx' by done. destruct (i_client s Hs _ _ Hx') as [G1 G2 G3 G4].
    assert (∀ q, q ∈ session_list x' → q ≠ p) as Hqp.
    { intros q Hq ->. destruct (G3 p Hq) as (z & Hz & Hcz & _). by assert (z = y) as -> by congruence. }
    split; [done|done| |].
    + intros q Hq. destruct (G3 q Hq) as (z & Hz & ?). exists z. cbn. by rewrite lookup_delete_ne by (apply not_eq_sym, Hqp, Hq).
    + intros h q Hq. destruct (G4 h q Hq) as (Hin & z & Hz & ?). split; [done|]. exists z. cbn. by rewrite lookup_delete_ne by (apply not_eq_sym, Hqp, Hin).
Qed.

Lemma inv_closed s p y x k db : inv s → closing s p y x k db →
  inv (closed s p y (Client (remove (session_list x) p) db) (less (pkcs11_session_is_read_write y) k)).
Proof.
  intros Hs Hcl. pose proof Hcl as [Hy Hx Hk _]. destruct (i_next s Hs) as (N1 & N2 & N3). split.
  - cbn. rewrite length_insert. apply Hs.
  - intros i k'. by apply (closed_token_ok _ _ _ _ _ db).
  - split; [apply Hs|]. intros c. cbn. rewrite lookup_insert_is_Some, (proj2 (i_client_list s Hs) c).
    destruct (decide (client y = c)) as [<-|]; [rewrite Hx; by split; [intros _; left|]|]. split; [by right|]. by intros [?|[_ ?]].
  - intros c x'. by apply closed_client_ok.
  - intros q z [Hq Hz]%closed_session. destruct (i_session s Hs _ _ Hz) as [S1 S2 S3 (x' & Hx' & Hin)]. split; [done..|]. cbn.
    destruct (decide (client z = client y)) as [He|He].
    + rewrite He, lookup_insert_eq. eexists. split; [done|]. apply elem_of_remove. split; [done|]. cbn. congruence.
    + rewrite lookup_insert_ne by done. by exists x'.
  - intros q r z w [_ Hz]%closed_session [_ Hw]%closed_session. by apply (i_login s Hs q r).
  - intros q z k' [_ Hz]%closed_session Hl Hk'. cbn in Hk'. destruct (decide (Z.to_nat (token z) = Z.to_nat (token y))) as [He|He].
    + rewrite He, list_lookup_insert_eq in Hk' by (by eapply lookup_lt_Some). injection Hk' as <-. apply (i_so s Hs q z k Hz Hl). by rewrite He.
    + rewrite list_lookup_insert_ne in Hk' by done. by apply (i_so s Hs q z).
  - intros q z [_ Hz]%closed_session. destruct (i_objects s Hs _ _ Hz) as [O1 O2 O3 O4]. split; try done. intros h o Hh.
    destruct (O4 h o Hh) as (ob & Hob & Hwa & [?|[Hl (k0 & Hk0 & Hin)]]); [exists ob; auto|]. exists ob. split; [done|]. split; [done|]. right. split; [done|]. cbn.
    destruct (decide (Z.to_nat (token z) = Z.to_nat (token y))) as [He|He].
    + rewrite He, list_lookup_insert_eq by (by eapply lookup_lt_Some). eexists. split; [done|]. cbn. congruence.
    + rewrite list_lookup_insert_ne by done. by exists k0.
  - intros q r z w h h' o [_ Hz]%closed_session [_ Hw]%closed_session. by apply (i_object_handles s Hs).
  - cbn. split; [done|]. split; [|done]. intros c [<-|[_ Hc]]%lookup_insert_is_Some; [by apply N2; eexists|auto].
Qed.

(** ** The objects of a session that is closed *)

(** The handles of a database without those of [o]. *)
Definition without (db db' : handle_db) (o : Z) : Prop :=
  db_wf db' ∧ ∀ h o', db_table db' !! h = Some o' ↔ db_table db !! h = Some o' ∧ o' ≠ o.

Lemma put_handle_without db o : db_wf db → o ≠ 0 →
  (∀ h h', db_table db !! h = Some o → db_table db !! h' = Some o → h = h') →
  ∃ db', snd (handle_put (Some db) (handle_lookup_handle db o)) = Some db' ∧ without db db' o.
Proof.
  intros Hwf Ho Hu. destruct (lookup_handle_cases db o Hwf Ho) as [[H1 Ht]|[-> Hn]].
  - set (h := handle_lookup_handle db o) in *. rewrite <- (Z2Nat.id h) by lia.
    destruct (pkcs11_handle_put_spec db (Z.to_nat h) Hwf) as (db' & -> & Hwf' & Htab); [lia|]. exists db'. split; [done|]. split; [done|].
    intros i o'. rewrite Htab, lookup_delete_Some. split.
    + intros [Hne Hi]. split; [done|]. intros ->. by apply Hne, Hu.
    + intros [Hi Hne]. split; [intros <-; congruence|done].
  - exists db. split; [done|]. split; [done|]. intros i o'. split; [|by intros [? _]]. intros Hi. split; [done|]. intros ->. by apply (Hn i).
Qed.

Definition drop_object (o : Z) (k : ck_token) : ck_token :=
  Token (tk_state k) (session_count k) (rw_session_count k) (remove (token_objects k) o) (db_main k) (db_objs k).

(** The object [o], of session [p] or with a handle there, is in no list any more. *)
Definition object_gone (s : ta) (p : Z) (y : pkcs11_session) (o : Z) (db : handle_db) : ta :=
  set_objects (set_sessions (set_tokens s (drop_object o <$> tokens s)) (<[p := set_session_objects y (remove (session_objects y) o) db]> (sessions s))) (delete o (objects s)).

(** The sessions after a change of the objects of one. *)
Lemma upd_session (m : gmap Z pkcs11_session) p y l db q z : <[p := set_session_objects y l db]> m !! q = Some z → m !! p = Some y →
  ∃ z0, m !! q = Some z0 ∧ client z0 = client z ∧ token z0 = token z ∧ handle z0 = handle z ∧ state z0 = state z ∧
    (q = p ∧ z0 = y ∧ session_objects z = l ∧ object_handle_db z = db ∨ q ≠ p ∧ z = z0).
Proof.
  intros Hz Hy. destruct (decide (q = p)) as [->|Hq].
  - rewrite lookup_insert_eq in Hz. injection Hz as <-. exists y. repeat split; auto.
  - rewrite lookup_insert_ne in Hz by done. exists z. repeat split; auto.
Qed.

Lemma upd_session_l (m : gmap Z pkcs11_session) p y l db q z0 : m !! p = Some y → m !! q = Some z0 →
  ∃ z, <[p := set_session_objects y l db]> m !! q = Some z ∧ client z = client z0 ∧ token z = token z0 ∧ handle z = handle z0 ∧ state z = state z0.
Proof.
  intros Hy Hz. destruct (decide (q = p)) as [->|Hq].
  - rewrite lookup_insert_eq. assert (z0 = y) as -> by congruence. eexists. done.
  - rewrite lookup_insert_ne by done. by exists z0.
Qed.

Lemma upd_counted s s' p y l db f t : sessions s !! p = Some y → sessions s' = <[p := set_session_objects y l db]> (sessions s) →
  (∀ y z, state z = state y → f z = f y) → counted f t s' = counted f t s.
Proof.
  intros Hy Hs' Hf. unfold counted, on_token. rewrite Hs'. do 2 f_equal. apply filter_size. intros q. cbn [fst snd]. split.
  - intros (z & Hz & Ht & Hfz). destruct (upd_session _ _ _ _ _ _ _ Hz Hy) as (z0 & Hz0 & _ & E2 & _ & E4 & _). exists z0.
    split; [done|]. by rewrite E2, (Hf z z0).
  - intros (z0 & Hz0 & Ht & Hfz). destruct (upd_session_l _ _ _ l db _ _ Hy Hz0) as (z & Hz & _ & E2 & _ & E4). exists z.
    split; [done|]. by rewrite E2, (Hf z0 z).
Qed.

Lemma gone_session s p y o db q z : sessions (object_gone s p y o db) !! q = Some z → sessions s !! p = Some y →
  ∃ z0, sessions s !! q = Some z0 ∧ client z0 = client z ∧ token z0 = token z ∧ handle z0 = handle z ∧ state z0 = state z ∧
    (q = p ∧ z0 = y ∧ session_objects z = remove (session_objects y) o ∧ object_handle_db z = db ∨ q ≠ p ∧ z = z0).
Proof. apply upd_session. Qed.

Lemma gone_session_l s p y o db q z0 : sessions s !! p = Some y → sessions s !! q = Some z0 →
  ∃ z, sessions (object_gone s p y o db) !! q = Some z ∧ client z = client z0 ∧ token z = token z0 ∧ handle z = handle z0 ∧ state z = state z0.
Proof. apply upd_session_l. Qed.

Lemma gone_counted s p y o db f t : sessions s !! p = Some y → (∀ y z, state z = state y → f z = f y) →
  counted f t (object_gone s p y o db) = counted f t s.
Proof. intros Hy. by apply (upd_counted _ _ p y (remove (session_objects y) o) db). Qed.

Lemma is_rw_state y z : state z = state y → pkcs11_session_is_read_write z = pkcs11_session_is_read_write y.
Proof. unfold pkcs11_session_is_read_write. by intros ->. Qed.

Lemma login_state y z : state z = state y → login z = login y.
Proof. unfold login. by intros ->. Qed.

(** No other session knows the object. *)
Definition owned_by (s : ta) (p o : Z) : Prop := ∀ q z, sessions s !! q = Some z →
  (∃ h, db_table (object_handle_db z) !! h = Some o) ∨ o ∈ session_objects z → q = p.

Lemma owned_by_link s p o ob : inv s → objects s !! o = Some ob → link ob = Some (InSession p) → owned_by s p o.
Proof.
  intros Hs Hob Hl q z Hz. destruct (i_objects s Hs _ _ Hz) as [_ _ O3 O4]. intros [[h Hh]|Hin].
  - destruct (O4 h o Hh) as (x & Hx & _ & [[Hlx _]|[Hlx _]]); congruence.
  - destruct (O3 o Hin) as (x & Hx & Hlx). congruence.
Qed.

Lemma owned_by_handle s p y h o : inv s → sessions s !! p = Some y → db_table (object_handle_db y) !! h = Some o → owned_by s p o.
Proof.
  intros Hs Hy Hh q z Hz [[h' Hh']|Hin]; [by apply (i_object_handles s Hs q p z y h' h o)|].
  destruct (i_objects s Hs _ _ Hy) as [_ _ _ O4]. destruct (i_objects s Hs _ _ Hz) as [_ _ O3' _].
  destruct (O4 h o Hh) as (x & Hx & _ & [[Hlx _]|[Hlx _]]), (O3' o Hin) as (x' & Hx' & Hlx'); congruence.
Qed.

Lemma gone_token s p y o db i k : tokens (object_gone s p y o db) !! i = Some k → ∃ k0, tokens s !! i = Some k0 ∧ k = drop_object o k0.
Proof. cbn. rewrite list_lookup_fmap. destruct (tokens s !! i) as [k0|]; [|done]. intros [= <-]. by exists k0. Qed.

Section gone.
  Context (s : ta) (p : Z) (y : pkcs11_session) (o : Z) (db : handle_db).
  Context (Hs : inv s) (Hy : sessions s !! p = Some y) (Hown : owned_by s p o).
  Context (Hdb : without (object_handle_db y) db o).

Lemma gone_objects_ok q z : sessions (object_gone s p y o db) !! q = Some z → session_objects_ok (object_gone s p y o db) q z.
Proof.
  intros Hz. destruct (gone_session _ _ _ _ _ _ _ Hz Hy) as (z0 & Hz0 & _ & E2 & _ & _ & Hc). destruct Hdb as [Hwf Htab].
  destruct (i_objects s Hs _ _ Hz0) as [O1 O2 O3 O4].
  assert (session_objects z = remove (session_objects z0) o ∧ db_wf (object_handle_db z) ∧
    ∀ h o', db_table (object_handle_db z) !! h = Some o' → db_table (object_handle_db z0) !! h = Some o' ∧ o' ≠ o) as (F1 & F2 & F3).
  { destruct Hc as [(-> & -> & F1 & F2)|[Hq ->]]; [by rewrite F1, F2; split; [|split; [|intros h o' ?%Htab]]|].
    split; [|split; [done|]].
    - symmetry. apply filter_all. intros o' Ho' ->. apply Hq, (Hown q z0 Hz0). by right.
    - intros h o' Hh. split; [done|]. intros ->. apply Hq, (Hown q z0 Hz0). left. by exists h. }
  split; [rewrite F1; by apply NoDup_remove|done| |]; cbn [objects object_gone set_objects].
  - intros o' Ho'. rewrite F1 in Ho'. apply elem_of_remove in Ho' as [Hne Ho']. rewrite lookup_delete_ne by done. by apply O3.
  - intros h o' [Hh Hne]%F3. destruct (O4 h o' Hh) as (x & Hx & Hwa & Hcase). exists x. rewrite lookup_delete_ne by done. split; [done|]. split; [done|].
    destruct Hcase as [[Hl Hin]|[Hl (k & Hk & Hin)]]; [left; split; [done|]; rewrite F1; by apply elem_of_remove|right].
    rewrite <- E2. split; [done|]. exists (drop_object o k). split; [cbn; by rewrite list_lookup_fmap, Hk|by apply elem_of_remove].
Qed.

Lemma inv_object_gone : inv (object_gone s p y o db).
Proof.
  destruct Hdb as [Hwf Htab]. destruct (i_next s Hs) as (N1 & N2 & N3). split; try apply Hs.
  - cbn. rewrite length_fmap. apply Hs.
  - intros i k (k0 & Hk & ->)%gone_token. destruct (i_token s Hs _ _ Hk) as [H1 Huu H2 H3 H4 H5 H6]. split; try done.
    + cbn. by rewrite H3, gone_counted.
    + cbn. rewrite H4, gone_counted; [done|done|apply is_rw_state].
    + by apply NoDup_remove.
    + intros o' [Hne Ho']%elem_of_remove. destruct (H6 o' Ho') as (x & Hx & Hl & Hu). exists x. cbn. by rewrite lookup_delete_ne by done.
  - intros c x Hx. destruct (i_client s Hs _ _ Hx) as [H1 H2 H3 H4]. split; try done.
    + intros q Hq. destruct (H3 q Hq) as (z0 & Hz0 & Hc & Hh). destruct (gone_session_l _ _ _ o db _ _ Hy Hz0) as (z & Hz & E1 & _ & E3 & _); eauto.
      exists z. by rewrite E1, E3.
    + intros h q Hq. destruct (H4 h q Hq) as (Hin & z0 & Hz0 & Hh). destruct (gone_session_l _ _ _ o db _ _ Hy Hz0) as (z & Hz & _ & _ & E & _).
      split; [done|]. exists z. by rewrite E.
  - intros q z Hz. destruct (gone_session _ _ _ _ _ _ _ Hz Hy) as (z0 & Hz0 & E1 & E2 & E3 & _). destruct (i_session s Hs _ _ Hz0) as [S1 S2 S3 S4].
    by split; rewrite <- ?E1, <- ?E2, <- ?E3.
  - intros q r z w Hz Hw. destruct (gone_session _ _ _ _ _ _ _ Hz Hy) as (z0 & Hz0 & E1 & E2 & _ & E4 & _), (gone_session _ _ _ _ _ _ _ Hw Hy) as (w0 & Hw0 & F1 & F2 & _ & F4 & _).
    rewrite <- E1, <- E2, <- F1, <- F2, <- (login_state _ _ E4), <- (login_state _ _ F4). by apply (i_login s Hs q r).
  - intros q z k Hz Hl (k0 & Hk & ->)%gone_token. destruct (gone_session _ _ _ _ _ _ _ Hz Hy) as (z0 & Hz0 & _ & E2 & _ & E4 & _).
    apply (i_so s Hs q z0 k0 Hz0); [by rewrite (login_state _ _ E4)|by rewrite E2].
  - exact gone_objects_ok.
  - intros q r z w h h' o' Hz Hw Hh Hh'. destruct (gone_session _ _ _ _ _ _ _ Hz Hy) as (z0 & Hz0 & _ & _ & _ & _ & Hcz), (gone_session _ _ _ _ _ _ _ Hw Hy) as (w0 & Hw0 & _ & _ & _ & _ & Hcw).
    assert (db_table (object_handle_db z0) !! h = Some o') as Gz by (destruct Hcz as [(_ & -> & _ & E)|[_ <-]]; [rewrite E in Hh; by apply Htab in Hh as [? _]|done]).
    assert (db_table (object_handle_db w0) !! h' = Some o') as Gw by (destruct Hcw as [(_ & -> & _ & E)|[_ <-]]; [rewrite E in Hh'; by apply Htab in Hh' as [? _]|done]).
    by apply (i_object_handles s Hs q r z0 w0 h h' o').
  - split; [done|]. split; [done|]. intros o' [x Hx]. apply N3. cbn in Hx. apply lookup_delete_Some in Hx as [_ Hx]. by exists x.
Qed.

End gone.

(** Two states that differ in the objects of sessions. *)
Definition same_state (y z : pkcs11_session) : Prop :=
  client z = client y ∧ token z = token y ∧ handle z = handle y ∧ state z = state y.

Record only_objects (s s' : ta) : Prop := {
  oo_stored : stored s' = stored s; oo_env : env s' = env s; oo_clients : clients s' = clients s;
  oo_back q z : sessions s' !! q = Some z → ∃ y, sessions s !! q = Some y ∧ same_state y z;
  oo_forth q y : sessions s !! q = Some y → ∃ z, sessions s' !! q = Some z ∧ same_state y z;
}.

Lemma same_state_trans x y z : same_state x y → same_state y z → same_state x z.
Proof. intros (E1 & E2 & E3 & E4) (F1 & F2 & F3 & F4). repeat split; congruence. Qed.

Lemma only_objects_refl s : only_objects s s.
Proof. split; [done..| |]; intros q z Hz; exists z; (split; [done|by split]). Qed.

Lemma only_objects_trans s1 s2 s3 : only_objects s1 s2 → only_objects s2 s3 → only_objects s1 s3.
Proof.
  intros [A1 A2 A3 A4 A5] [B1 B2 B3 B4 B5]. split; [congruence..| |].
  - intros q z Hz. destruct (B4 _ _ Hz) as (y & Hy & Hyz). destruct (A4 _ _ Hy) as (x & Hx & Hxy). exists x. split; [done|by eapply same_state_trans].
  - intros q x Hx. destruct (A5 _ _ Hx) as (y & Hy & Hxy). destruct (B5 _ _ Hy) as (z & Hz & Hyz). exists z. split; [done|by eapply same_state_trans].
Qed.

Lemma drop_unlisted s o : inv s → (∀ i k, tokens s !! i = Some k → o ∉ token_objects k) → drop_object o <$> tokens s = tokens s.
Proof.
  intros Hs Hn. apply list_eq. intros i. rewrite list_lookup_fmap. destruct (tokens s !! i) as [k|] eqn:Hk; [|done]. cbn. f_equal.
  unfold drop_object. replace (remove (token_objects k) o) with (token_objects k); [by destruct k|].
  symmetry. apply filter_all. intros o' Ho' ->. by apply (Hn i k).
Qed.

Lemma run_destroy_session_object p y o (Q : unit → ta → Prop) (R P : ta → Prop) s :
  inv s → sessions s !! p = Some y → o ∈ session_objects y →
  (∀ s' z, inv s' → only_objects s s' → sessions s' !! p = Some z → session_objects z = remove (session_objects y) o → Q tt s') →
  run (destroy_session_object p o) Q R P s.
Proof.
  intros Hs Hy Ho HQ. destruct (i_objects s Hs _ _ Hy) as [O1 O2 O3 O4]. destruct (O3 o Ho) as (ob & Hob & Hl).
  destruct (i_next s Hs) as (_ & _ & N3). pose proof (N3 o (mk_is_Some _ _ Hob)) as Hpos.
  destruct (put_handle_without (object_handle_db y) o O2) as (db & Hput & Hwo); [lia|intros h h'; by apply (i_object_handles s Hs p p)|].
  apply run_bind, (run_read_object _ ob); [done|]. rewrite Hl. apply run_seq.
  apply run_bind, (run_read_object _ ob); [done|]. rewrite Hl. apply run_bind, (run_read_session _ y); [done|].
  apply run_bind, run_get, run_put, run_seq. set (y1 := set_session_objects y _ _). apply run_bind, (run_read_session _ y1); [apply lookup_insert_eq|].
  cbv zeta. change (object_handle_db y1) with (object_handle_db y). rewrite Hput.
  apply run_bind, run_get, run_put, run_bind, run_get, run_put.
  set (s' := set_objects _ _). assert (s' = object_gone s p y o db) as ->.
  { unfold s', object_gone, set_sessions, set_objects, set_tokens. cbn. rewrite insert_insert_eq. f_equal. symmetry. apply drop_unlisted; [done|].
    intros i k Hk Hin. destruct (i_token s Hs _ _ Hk) as [_ _ _ _ _ _ H6]. destruct (H6 o Hin) as (x & Hx & Hlx & _). congruence. }
  eapply HQ.
  - apply inv_object_gone; [done|done|by eapply owned_by_link|done].
  - split; [done..| |].
    + intros q z Hz. destruct (gone_session _ _ _ _ _ _ _ Hz Hy) as (z0 & Hz0 & E1 & E2 & E3 & E4 & _). exists z0. by split.
    + intros q z Hz. destruct (gone_session_l _ _ _ o db _ _ Hy Hz) as (z0 & Hz0 & E1 & E2 & E3 & E4). exists z0. by split.
  - apply lookup_insert_eq.
  - done.
Qed.

Lemma run_destroy_objects p l (Q : unit → ta → Prop) (R P : ta → Prop) s y : inv s → sessions s !! p = Some y →
  NoDup l → (∀ o, o ∈ l → o ∈ session_objects y) →
  (∀ s', inv s' → only_objects s s' → Q tt s') → run (destroy_objects p l) Q R P s.
Proof.
  revert s y Q. induction l as [|o l IH]; intros s y Q Hs Hy Hnd Hin HQ.
  - apply run_ret, HQ; [done|apply only_objects_refl].
  - apply NoDup_cons in Hnd as [Hol Hnd]. cbn [destroy_objects]. apply run_seq, (run_destroy_session_object p y); [done|done|apply Hin; by apply elem_of_cons; left|].
    intros s1 z Hs1 Hoo Hz Hzo. apply (IH s1 z); [done..| |].
    + intros o' Ho'. rewrite Hzo. apply elem_of_remove. split; [by intros ->|]. apply Hin. by apply elem_of_cons; right.
    + intros s' Hs' Hoo'. apply HQ; [done|by eapply only_objects_trans].
Qed.

(** [s'] is [s] with the session [p] closed: the others are as they were. *)
Record session_closed (s : ta) (p : Z) (s' : ta) : Prop := {
  sc_inv : inv s'; sc_stored : stored s' = stored s; sc_env : env s' = env s;
  sc_clients c : is_Some (clients s' !! c) ↔ is_Some (clients s !! c);
  sc_back q z : sessions s' !! q = Some z → q ≠ p ∧ ∃ y, sessions s !! q = Some y ∧ same_state y z;
  sc_forth q y : sessions s !! q = Some y → q ≠ p → ∃ z, sessions s' !! q = Some z ∧ same_state y z;
}.

Lemma run_close_ck_session p y (Q : unit → ta → Prop) (R P : ta → Prop) s : inv s → sessions s !! p = Some y →
  (∀ s', session_closed s p s' → Q tt s') → run (close_ck_session p) Q R P s.
Proof.
  intros Hs Hy HQ. apply run_bind, (run_read_session _ y); [done|].
  apply run_seq, (run_destroy_objects p _ _ _ _ s y); [done|done|apply (i_objects s Hs _ _ Hy)|done|].
  intros s1 Hs1 Hoo. destruct (oo_forth _ _ Hoo _ _ Hy) as (y1 & Hy1 & E1 & E2 & E3 & E4).
  destruct (i_session s1 Hs1 _ _ Hy1) as [S1 S2 S3 (x & Hx & Hpx)]. rewrite E1 in Hx.
  destruct (i_client s1 Hs1 _ _ Hx) as [_ Hwf _ _].
  destruct (lookup_lt_is_Some_2 (tokens s1) (Z.to_nat (token y))) as [k Hk]; [rewrite (i_tokens s1 Hs1), <- E2; lia|].
  apply run_bind, (run_read_client _ x); [done|].
  destruct (pkcs11_handle_put_spec (session_handle_db x) (Z.to_nat (handle y)) Hwf) as (db & Hput & Hwf' & Htab); [rewrite <- E3; lia|].
  rewrite Z2Nat.id in Hput by (rewrite <- E3; lia). rewrite Hput. cbn [snd default].
  apply run_seq, run_bind, run_get, run_put. apply run_bind, (run_read_token _ k); [done|].
  apply run_seq, run_bind, run_get, run_put. apply run_bind, run_get, run_put. apply HQ.
  assert (closing s1 p y1 x k db) as Hcl.
  { split; rewrite ?E1, ?E2, ?E3; done. }
  set (s' := set_sessions _ _). assert (s' = closed s1 p y1 (Client (remove (session_list x) p) db) (less (pkcs11_session_is_read_write y1) k)) as ->.
  { unfold s', closed, less. rewrite E1, E2, (is_rw_state _ _ E4). done. }
  destruct Hoo as [B1 B2 B3 B4 B5]. split.
  - by apply inv_closed.
  - done.
  - done.
  - intros c. cbn. rewrite lookup_insert_is_Some, B3. rewrite E1, <- B3. destruct (decide (client y = c)) as [<-|]; [|naive_solver]. split; [by eexists|by left].
  - intros q z [Hqp Hz]%closed_session. split; [done|by apply B4].
  - intros q z Hz Hqp. cbn. rewrite lookup_delete_ne by done. by apply B5.
Qed.

(** [s'] is [s] with the sessions of [l] closed that are to be closed. *)
Record sessions_closed (s : ta) (l : list Z) (which : pkcs11_session → bool) (s' : ta) : Prop := {
  ssc_inv : inv s'; ssc_stored : stored s' = stored s; ssc_env : env s' = env s;
  ssc_clients c : is_Some (clients s' !! c) ↔ is_Some (clients s !! c);
  ssc_back q z : sessions s' !! q = Some z → ∃ y, sessions s !! q = Some y ∧ same_state y z ∧ ¬ (q ∈ l ∧ which y = true);
}.

Lemma run_close_sessions l which (Q : unit → ta → Prop) (R P : ta → Prop) s : inv s → NoDup l →
  (∀ y z, same_state y z → which z = which y) → (∀ p, p ∈ l → is_Some (sessions s !! p)) →
  (∀ s', sessions_closed s l which s' → Q tt s') → run (close_sessions l which) Q R P s.
Proof.
  revert s Q. induction l as [|p l IH]; intros s Q Hs Hnd Hw Hl HQ.
  - apply run_ret, HQ. split; [done..|]. intros q z Hz. exists z. split; [done|]. split; [by split|]. by intros [?%not_elem_of_nil _].
  - apply NoDup_cons in Hnd as [Hpl Hnd]. destruct (Hl p) as [y Hy]; [by apply elem_of_cons; left|].
    cbn [close_sessions]. apply run_bind, (run_read_session _ y); [done|]. apply run_seq. destruct (which y) eqn:Hwy.
    + apply (run_close_ck_session p y); [done..|]. intros s1 [C1 C2 C3 C4 C5 C6]. apply IH; [done..| |].
      { intros q Hq. destruct (Hl q) as [z Hz]; [by apply elem_of_cons; right|]. destruct (C6 q z Hz) as (z' & Hz' & _); [by intros ->|by eexists]. }
      intros s' [D1 D2 D3 D4 D5]. apply HQ. split; [done|congruence|congruence| |].
      * intros c. by rewrite D4.
      * intros q z Hz. destruct (D5 q z Hz) as (z1 & Hz1 & Hss & Hn). destruct (C5 q z1 Hz1) as (Hqp & z0 & Hz0 & Hss0). exists z0. split; [done|].
        split; [by eapply same_state_trans|]. intros [[->|Hq]%elem_of_cons Hwz]; [done|]. apply Hn. split; [done|]. by rewrite (Hw z0 z1).
    + apply run_ret, IH; [done..| |].
      { intros q Hq. apply Hl. by apply elem_of_cons; right. }
      intros s' [D1 D2 D3 D4 D5]. apply HQ. split; [done..|]. intros q z Hz. destruct (D5 q z Hz) as (z0 & Hz0 & Hss & Hn). exists z0.
      split; [done|]. split; [done|]. intros [[->|Hq]%elem_of_cons Hwz]; [congruence|]. by apply Hn.
Qed.

Lemma sessions_closed_step A s l which s' : sessions_closed s l which s' → step_to A s s'.
Proof.
  intros [D1 D2 D3 D4 D5]. split; [done|by apply stored_kept_eq|]. intros p z Hz Hl.
  destruct (D5 p z Hz) as (y & Hy & (E1 & E2 & _ & E4) & _). left. exists p, y. rewrite E1, E2, (login_state _ _ E4). done.
Qed.

(** ** Clients come and go *)

Lemma inv_client_added s : inv s →
  inv (set_clients (set_next s (next_ptr s + 1)) (next_ptr s :: client_list s) (<[next_ptr s := Client [] handle_db_init]> (clients s))).
Proof.
  intros Hs. destruct (i_next s Hs) as (N1 & N2 & N3). destruct (i_client_list s Hs) as [L1 L2].
  assert (clients s !! next_ptr s = None) as Hn.
  { destruct (clients s !! next_ptr s) eqn:He; [|done]. specialize (N2 _ (mk_is_Some _ _ He)). lia. }
  split; try apply Hs.
  - intros i k Hk. destruct (i_token s Hs _ _ Hk). by split.
  - cbn. split; [constructor; [by rewrite L2, Hn; intros [??]|done]|]. intros c. rewrite elem_of_cons, lookup_insert_is_Some, L2.
    split; [intros [->|?]; [by left|]|]; [|naive_solver]. destruct (decide (next_ptr s = c)); [by left|by right].
  - intros c x. cbn. destruct (decide (c = next_ptr s)) as [->|Hc].
    + rewrite lookup_insert_eq. intros [= <-]. split; cbn [session_list session_handle_db]; [constructor|apply pkcs11_db_wf_init| |].
      * by intros p ?%not_elem_of_nil.
      * intros h p Hh. by rewrite init_no_handles in Hh.
    + rewrite lookup_insert_ne by done. intros Hx. destruct (i_client s Hs _ _ Hx). by split.
  - intros p y Hy. destruct (i_session s Hs _ _ Hy) as [S1 S2 S3 (x & Hx & Hin)]. split; [cbn; lia|done|done|]. exists x. cbn.
    rewrite lookup_insert_ne; [done|]. intros He. rewrite <- He, Hn in Hx. done.
  - intros p y Hy. destruct (i_objects s Hs _ _ Hy). by split.
  - cbn. split; [lia|]. split.
    + intros c [<-|[_ Hc]]%lookup_insert_is_Some; [lia|]. specialize (N2 c Hc). lia.
    + intros o Ho. specialize (N3 o Ho). lia.
Qed.

Lemma inv_client_removed s cl : inv s → (∀ p y, sessions s !! p = Some y → client y ≠ cl) →
  inv (set_clients s (remove (client_list s) cl) (delete cl (clients s))).
Proof.
  intros Hs Hno. destruct (i_next s Hs) as (N1 & N2 & N3). destruct (i_client_list s Hs) as [L1 L2].
  split; try apply Hs.
  - intros i k Hk. destruct (i_token s Hs _ _ Hk). by split.
  - cbn. split; [by apply NoDup_remove|]. intros c. rewrite elem_of_remove, lookup_delete_is_Some, L2. split; intros [? ?]; split; auto.
  - intros c x. cbn. intros [_ Hx]%lookup_delete_Some. destruct (i_client s Hs _ _ Hx). by split.
  - intros p y Hy. destruct (i_session s Hs _ _ Hy) as [S1 S2 S3 (x & Hx & Hin)]. split; [done..|]. exists x. cbn.
    rewrite lookup_delete_ne by (by apply not_eq_sym, (Hno p)). done.
  - intros p y Hy. destruct (i_objects s Hs _ _ Hy). by split.
  - cbn. split; [done|]. split; [|done]. intros c [_ Hc]%lookup_delete_is_Some. auto.
Qed.
End sessions.
