(* ===== verification/Pkcs11Entries.v ===== *)
(** * Sessions of the PKCS#11 TA: the commands

    What each entry point of pkcs11_token.c keeps, whatever the client sends and
    whatever the allocator, the random numbers and the storage do. *)
From S2P Require Import Prelude HandleSpec Pkcs11Handle Pkcs11Attr Pkcs11AttrProofs Pkcs11Token Pkcs11TokenProofs Pkcs11Sessions.

Local Open Scope Z_scope.

Section entries.
Context `{Heap}.
(** The command ends in a state [step_to] allows, or the TA panics for [why]. *)
Definition keeps {A} (m : K A) (who : Z → Z → login_kind → Prop) (why : Prop) (s : ta) : Prop :=
  run m (λ _ s', step_to who s s') (step_to who s) (fault why s) s.

Lemma same_sessions_list s cl x p : inv s → clients s !! cl = Some x → p ∈ session_list x → ∃ y, sessions s !! p = Some y ∧ client y = cl.
Proof. intros Hs Hx Hp. destruct (co_list _ _ _ (i_client s Hs _ _ Hx) p Hp) as (y & Hy & Hc & _). by exists y. Qed.

(** ** Closing *)

Lemma close_session_keeps cl c x s : inv s → call_ok c → clients s !! cl = Some x → keeps (entry_ck_close_session cl c) nobody False s.
Proof.
  intros Hs Hc Hx. pose proof (step_to_refl nobody s Hs) as Hrefl. unfold keeps, entry_ck_close_session.
  destruct (negb (good_types c)); [by apply run_throw|].
  apply run_bind, (run_get_session _ _ x); [done|done|by apply init_good| |done]. intros p y a h Ha Hy Hcl Hp _.
  apply run_seq, run_no_more; [done| |done]. intros _.
  apply run_seq, (run_close_ck_session p y); [done..|]. intros s' [C1 C2 C3 C4 C5 C6]. apply run_ret.
  split; [done|by apply stored_kept_eq|]. intros q z Hz Hl. destruct (C5 q z Hz) as (_ & y0 & Hy0 & E1 & E2 & _ & E4).
  left. exists q, y0. rewrite E1, E2, (login_state _ _ E4). done.
Qed.

Lemma close_list_run cl x which (Q : unit → ta → Prop) (R P : ta → Prop) s : inv s → clients s !! cl = Some x →
  (∀ y z, same_state y z → which z = which y) → (∀ s', sessions_closed s (session_list x) which s' → Q tt s') →
  run (close_sessions (session_list x) which) Q R P s.
Proof.
  intros Hs Hx Hw HQ. apply run_close_sessions; [done|apply (i_client s Hs _ _ Hx)|done| |done].
  intros p Hp. destruct (same_sessions_list _ _ _ _ Hs Hx Hp) as (y & Hy & _). by eexists.
Qed.

Lemma close_all_keeps cl c x s : inv s → call_ok c → clients s !! cl = Some x → keeps (entry_ck_close_all_sessions cl c) nobody False s.
Proof.
  intros Hs Hc Hx. pose proof (step_to_refl nobody s Hs) as Hrefl. unfold keeps, entry_ck_close_all_sessions.
  destruct (negb (good_types c)); [by apply run_throw|].
  apply run_bind, run_arg_u32; [by apply init_good| |done]. intros v a Ha Hv _.
  apply run_seq, run_no_more; [done| |done]. intros _. apply run_bind, run_get_token; [lia| |done]. intros Ht.
  apply run_bind, (run_read_client _ x); [done|]. apply run_seq, (close_list_run cl); [done..| |].
  - by intros y z (_ & -> & _).
  - intros s' Hcl. apply run_ret. by eapply sessions_closed_step.
Qed.

Lemma unregister_keeps cl x (R : ta → Prop) s : inv s → clients s !! cl = Some x →
  run (unregister_client cl) (λ _ s', step_to nobody s s') R (fault False s) s.
Proof.
  intros Hs Hx. unfold unregister_client. apply run_bind, (run_read_client _ x); [done|].
  apply run_seq, (close_list_run cl); [done..|]. intros s' Hcl. apply run_bind, run_get, run_put.
  destruct (sessions_closed_step nobody _ _ _ _ Hcl) as [Hi Hst Hl]. split; [|done|done].
  apply inv_client_removed; [done|]. intros p z Hz Hcz. destruct (ssc_back _ _ _ _ Hcl p z Hz) as (y & Hy & (E1 & _) & Hn).
  apply Hn. split; [|done]. apply (session_of_client _ _ _ _ _ Hs Hx Hy). congruence.
Qed.

Lemma register_keeps (R : ta → Prop) s : inv s → run register_client (λ _ s', step_to nobody s s') R (fault False s) s.
Proof.
  intros Hs. unfold register_client. apply run_bind, run_malloc; intros s' Hu.
  - apply run_ret. by eapply step_to_used; [apply step_to_refl|].
  - apply run_bind, run_get, run_bind, run_put, run_ret. pose proof (inv_used _ _ Hu Hs) as Hs'. destruct Hu as (e & -> & _).
    split; [apply (inv_client_added _ Hs')|by apply stored_kept_eq|by apply logins_kept_eq].
Qed.

(** ** Opening *)

Lemma run_sessions_of l (Q : list (Z * pkcs11_session) → ta → Prop) (R P : ta → Prop) s :
  (∀ p, p ∈ l → is_Some (sessions s !! p)) →
  (∀ r, r.*1 = l → (∀ p y, (p, y) ∈ r → sessions s !! p = Some y) → Q r s) → run (sessions_of l) Q R P s.
Proof.
  revert Q. induction l as [|p l IH]; intros Q Hl HQ; [apply run_ret, HQ; [done|by intros p y ?%not_elem_of_nil]|].
  destruct (Hl p) as [y Hy]; [by apply elem_of_cons; left|]. apply run_bind, (run_read_session _ y); [done|].
  apply run_bind, IH; [intros q Hq; apply Hl; by apply elem_of_cons; right|]. intros r Hr Hin. apply run_ret, HQ; [cbn; by rewrite Hr|].
  intros q z [[= -> ->]|Hq]%elem_of_cons; [done|auto].
Qed.

(** The sessions of a client, with their addresses. *)
Definition listed (s : ta) (cl : Z) (l : list (Z * pkcs11_session)) : Prop :=
  ∀ p y, (p, y) ∈ l ↔ sessions s !! p = Some y ∧ client y = cl.

Lemma run_client_sessions cl x (Q : list (Z * pkcs11_session) → ta → Prop) (R P : ta → Prop) s : inv s → clients s !! cl = Some x →
  (∀ r, listed s cl r → Q r s) → run (sessions_of (session_list x)) Q R P s.
Proof.
  intros Hs Hx HQ. apply run_sessions_of.
  - intros p Hp. destruct (same_sessions_list _ _ _ _ Hs Hx Hp) as (y & Hy & _). by eexists.
  - intros r Hr Hin. apply HQ. intros p y. split.
    + intros Hp. pose proof (Hin p y Hp) as Hy. split; [done|]. apply (session_of_client _ _ _ _ _ Hs Hx Hy). rewrite <- Hr.
      by apply (list_elem_of_fmap_2 fst r (p, y)).
    + intros [Hy Hcl]. assert (p ∈ session_list x) as Hp by (by apply (session_of_client _ _ _ _ _ Hs Hx Hy)).
      rewrite <- Hr in Hp. apply list_elem_of_fmap in Hp as ([p' y'] & -> & Hp). cbn in Hy. by assert (y' = y) as -> by (pose proof (Hin _ _ Hp); congruence).
Qed.

(** The state of the new session agrees with the login of the client on the token. *)
Lemma run_set_session_state l t ro (Q : _ → ta → Prop) (R P : ta → Prop) s : 
  (ro = true → ∀ p y, (p, y) ∈ l → login y ≠ LSo) →
  (∀ st, (∀ y, state y = st → pkcs11_session_is_read_write y = negb ro) →
     (∀ y, state y = st → login y = LPublic ∨ ∃ q z, (q, z) ∈ l ∧ token z = t ∧ login z = login y) →
     (∀ y, state y = st → (∃ q z, (q, z) ∈ l ∧ token z = t) → ∃ q z, (q, z) ∈ l ∧ token z = t ∧ login z = login y) → Q st s) →
  run (set_session_state l t ro) Q R P s.
Proof.
  intros Hro HQ. unfold set_session_state, pkcs11_session_is_read_write, login in *. destruct (list_find _ l) as [[i [q z]]|] eqn:Hf.
  - apply list_find_Some in Hf as (Hq & Ht & _). cbn in Ht. apply list_elem_of_lookup_2 in Hq. specialize (Hro : ro = true → _).
    destruct (state z) eqn:Hz, ro; try (apply run_ret, HQ; intros y ->; [done| |intros _]; first [by left|right|idtac]; exists q, z; by rewrite Hz).
    destruct (Hro eq_refl q z Hq). by rewrite Hz.
  - apply list_find_None in Hf. rewrite Forall_forall in Hf.
    destruct ro; (apply run_ret, HQ; intros y ->; [done|by left|]); intros (q & z & Hq & Ht); by destruct (Hf _ Hq).
Qed.

Lemma used_works s s' : used s s' → works s → works s'.
Proof. by intros (e & -> & He). Qed.

Lemma inv_next s : inv s → inv (set_next s (next_ptr s + 1)).
Proof.
  intros Hs. destruct (i_next s Hs) as (N1 & N2 & N3). split; try apply Hs.
  - intros i k Hk. destruct (i_token s Hs _ _ Hk). by split.
  - intros c x Hx. destruct (i_client s Hs _ _ Hx). by split.
  - intros p y Hy. destruct (i_session s Hs _ _ Hy). split; [cbn; lia|done..].
  - intros p y Hy. destruct (i_objects s Hs _ _ Hy). by split.
  - cbn. split; [lia|]. split; [intros c Hc; specialize (N2 c Hc); lia|intros o Ho; specialize (N3 o Ho); lia].
Qed.

(** A new session of a client agrees with the others; nobody is logged in by it. *)
Lemma opening_login s cl l t y : inv s → listed s cl l → client y = cl → token y = t →
  ((∃ q z, (q, z) ∈ l ∧ token z = t) → ∃ q z, (q, z) ∈ l ∧ token z = t ∧ login z = login y) →
  ∀ q z, sessions s !! q = Some z → client z = client y → token z = token y → login y = login z.
Proof.
  intros Hs Hl <- <- Hst q z Hz Hc Ht. destruct Hst as (q' & z' & [Hz' Hc']%Hl & Ht' & <-).
  { exists q, z. split; [by apply Hl|done]. }
  apply (i_login s Hs q' q); congruence.
Qed.

Lemma open_session_keeps cl c x s : inv s → call_ok c → clients s !! cl = Some x → keeps (entry_ck_open_session cl c) nobody False s.
Proof.
  intros Hs Hc Hx. pose proof (step_to_refl nobody s Hs) as Hrefl. unfold keeps, entry_ck_open_session.
  destruct (_ || _); [by apply run_throw|].
  apply run_bind, run_arg_u32; [by apply init_good| |done]. intros v a Ha Hv _.
  apply run_bind, run_arg_u32; [done| |done]. intros fl a' Ha' Hfl _.
  apply run_seq, run_no_more; [done| |done]. intros _. apply run_bind, run_get_token; [lia| |done]. intros Ht.
  destruct (_ || _); [by apply run_throw|]. cbv zeta. set (ro := Z.land fl _ =? 0).
  destruct (lookup_lt_is_Some_2 (tokens s) (Z.to_nat v)) as [k Hk]; [rewrite (i_tokens s Hs); lia|].
  apply run_bind, (run_read_token _ k); [done|]. destruct (_ && _); [by apply run_throw|].
  apply run_bind, (run_read_client _ x); [done|]. apply run_bind, (run_client_sessions cl x); [done..|]. intros l Hl.
  destruct (ro && existsb _ l) eqn:Hro; [by apply run_throw|].
  apply run_bind, run_malloc; intros s' Hu; [apply run_throw; by eapply step_to_used|].
  apply run_bind, run_next_mem. intros mem s2 Hu2.
  destruct (handle_get (Some (session_handle_db x)) (next_ptr s) mem) as [h db] eqn:Hget.
  destruct (i_next s Hs) as (N1 & _). destruct (i_client s Hs _ _ Hx) as [_ Hwf _ _].
  destruct (pkcs11_handle_get_cases _ _ _ _ _ Hwf Hget) as [(-> & -> & _)|(n & db1 & -> & Hn1 & Hp & -> & Hwf1 & Hfree & Htab)].
  { apply run_throw. pose proof (inv_next _ (inv_used _ _ Hu Hs)) as Hs'. destruct Hu as (e & -> & He).
    eapply (step_to_used _ _ (set_next (set_env s e) (next_ptr s + 1))); [|exact Hu2]. split; [exact Hs'|by apply stored_kept_eq|by apply logins_kept_eq]. }
  rewrite (proj2 (Z.eqb_neq (Z.of_nat n) 0)) by lia. destruct Hu as (e & -> & _), Hu2 as (e2 & -> & _).
  pose proof (inv_env s e2 Hs) as Hs2.
  apply run_bind, (run_set_session_state l v ro).
  { intros Hr q z Hz Hlz. rewrite Hr in Hro. cbn in Hro. apply Bool.not_true_iff_false in Hro. apply Hro, existsb_exists. exists (q, z).
    split; [by apply list_elem_of_In|]. unfold pkcs11_session_is_so, login in *. cbn. by destruct (state z). }
  intros st Hrw Hpub Hsame.
  apply run_seq, run_bind, run_get, run_put, run_seq, run_bind, run_get, run_put, run_seq, run_bind, run_get, run_put, run_ret.
  set (y := Session cl v (Z.of_nat n) [] handle_db_init st). specialize (Hrw y eq_refl). specialize (Hpub y eq_refl). specialize (Hsame y eq_refl).
  set (s' := set_tokens _ _). assert (s' = opened (set_env s e2) (next_ptr s) y (Client (next_ptr s :: session_list x) db1) (more (pkcs11_session_is_read_write y) k)) as ->.
  { unfold s', opened, more. rewrite Hrw. cbn. by destruct ro. }
  assert (opening (set_env s e2) (next_ptr s) y x k db1) as Hop.
  { split; cbn [y client token handle session_objects object_handle_db]; rewrite ?Nat2Z.id; try done; [lia| |].
    - intros Hso. destruct Hpub as [?|(q & z & [Hz Hcz]%Hl & Htz & Hle)]; [congruence|]. apply (i_so s Hs q z); [done|congruence|by rewrite Htz].
    - by apply (opening_login s cl l v y Hs Hl). }
  split; [by apply inv_opened|by apply stored_kept_eq|].
  intros q z Hz Hlz. left. destruct (opened_session _ _ _ _ _ _ _ Hz) as [[-> ->]|[_ Hz']]; [|by exists q, z].
  destruct Hpub as [?|(q & z & [Hz' Hcz]%Hl & Htz & Hle)]; [done|]. by exists q, z.
Qed.

(** ** Commands on a session *)

Lemma session_info_keeps cl c x s : inv s → call_ok c → clients s !! cl = Some x → keeps (entry_ck_session_info cl c) nobody False s.
Proof.
  intros Hs Hc Hx. pose proof (step_to_refl nobody s Hs) as Hrefl. unfold keeps, entry_ck_session_info.
  destruct (_ || _); [by apply run_throw|].
  apply run_bind, (run_get_session _ _ x); [done|done|by apply init_good| |done]. intros p y a h Ha Hy Hcl Hp _.
  apply run_seq, run_no_more; [done| |done]. intros _. apply run_bind, (run_read_session _ y); [done|]. by apply run_ret.
Qed.

Lemma logout_keeps cl c x s : inv s → call_ok c → clients s !! cl = Some x → keeps (entry_ck_logout cl c) nobody False s.
Proof.
  intros Hs Hc Hx. pose proof (step_to_refl nobody s Hs) as Hrefl. unfold keeps, entry_ck_logout.
  destruct (negb (good_types c)); [by apply run_throw|].
  apply run_bind, (run_get_session _ _ x); [done|done|by apply init_good| |done]. intros p y a h Ha Hy Hcl Hp _.
  apply run_seq, run_no_more; [done| |done]. intros _. apply run_bind, (run_read_session _ y); [done|].
  apply run_bind, (run_read_client _ x); [by rewrite Hcl|]. destruct (pkcs11_session_is_public y); [by apply run_throw|].
  apply run_seq. unfold session_logout. apply run_session_states; [apply (i_client s Hs _ _ Hx)| |].
  - intros q Hq. destruct (same_sessions_list _ _ _ _ Hs Hx Hq) as (z & Hz & _). exists z. split; [done|]. intros _. by eexists.
  - intros s' Hre. apply run_ret. assert (step_to (λ c t' k', c = cl ∧ t' = token y ∧ k' = LPublic) s s') as [Hi Hst Hl].
    { apply (relogged_step LPublic _ _ _ _ _ _ Hs Hx Hre); [|by intros; eexists|done]. intros z st [= <-]. by destruct (pkcs11_session_is_read_write z). }
    split; [done..|]. intros q z Hz Hlz. destruct (Hl q z Hz Hlz) as [?|(_ & _ & ?)]; [by left|done].
Qed.

Variable sha256 : list Z → list Z.

(** The PIN functions start in a state where token [t] is as the invariant says. *)
Lemma token_of_session s p y : inv s → sessions s !! p = Some y →
  ∃ k, token_at s (token y) k ∧ main_ok (db_main k).
Proof. intros Hs Hy. apply inv_token_at; [done|]. apply (i_session s Hs _ _ Hy). Qed.

Lemma initialized_salt m : main_ok m → initialized m → so_pin_salt m ≠ 0.
Proof. intros Hm Hi Hz. by destruct (mo_so_salt _ Hm Hz). Qed.

Lemma init_pin_keeps cl c x s : inv s → call_ok c → clients s !! cl = Some x →
  keeps (entry_ck_init_pin sha256 cl c) nobody False s.
Proof.
  intros Hs Hc Hx. pose proof (step_to_refl nobody s Hs) as Hrefl. unfold keeps, entry_ck_init_pin.
  destruct (negb (good_types c)); [by apply run_throw|].
  apply run_bind, (run_get_session _ _ x); [done|done|by apply init_good| |done]. intros p y a h Ha Hy Hcl Hp _.
  apply run_bind, run_arg_u32; [done| |done]. intros n a1 Ha1 Hn _. apply run_bind, run_arg_ptr; [done|lia| |done]. intros pin a2 Ha2 _ _.
  apply run_seq, run_no_more; [done| |done]. intros _. apply run_bind, (run_read_session _ y); [done|].
  destruct (pkcs11_session_is_so y) eqn:Hso; [|by apply run_throw].
  destruct (token_of_session s p y Hs Hy) as (k & Hk & Hm).
  apply run_bind, (run_read_main _ k); [by destruct Hk|]. apply run_seq, run_assert; rewrite has_flag_bit by done; intros Hi.
  - apply run_seq, (run_set_pin sha256 (token y) k (db_main k) p y pin n PKCS11_CKU_USER _ _ _ s); try done.
    + by apply pin_at_refl.
    + intros s' Hst. apply run_ret. by eapply pin_step_to.
    + intros s' Hst. by eapply pin_step_to.
    + intros s' Hf. by eapply pin_fault_fault.
  - assert (login y = LSo) as Hl by (unfold login, pkcs11_session_is_so in *; by destruct (state y)).
    destruct Hk as [Hk _]. by rewrite (i_so s Hs p y k Hy Hl Hk) in Hi.
Qed.

Lemma pin_step_session s t k s' p : pin_step s t k s' → sessions s' !! p = sessions s !! p.
Proof. by intros (m & (e & -> & _) & _). Qed.

Lemma set_pin_keeps cl c x s : inv s → call_ok c → clients s !! cl = Some x → keeps (entry_ck_set_pin sha256 cl c) nobody False s.
Proof.
  intros Hs Hc Hx. pose proof (step_to_refl nobody s Hs) as Hrefl. unfold keeps, entry_ck_set_pin.
  destruct (negb (good_types c)); [by apply run_throw|].
  apply run_bind, (run_get_session _ _ x); [done|done|by apply init_good| |done]. intros p y a h Ha Hy Hcl Hp _.
  apply run_bind, run_arg_u32; [done| |done]. intros n1 a1 Ha1 Hn1 _. apply run_bind, run_arg_u32; [done| |done]. intros n2 a2 Ha2 Hn2 _.
  apply run_bind, run_arg_ptr; [done|lia| |done]. intros old a3 Ha3 _ _. apply run_bind, run_arg_ptr; [done|lia| |done]. intros pin a4 Ha4 _ _.
  apply run_seq, run_no_more; [done| |done]. intros _. apply run_bind, (run_read_session _ y); [done|].
  destruct (negb (pkcs11_session_is_read_write y)); [by apply run_throw|].
  destruct (token_of_session s p y Hs Hy) as (k & Hk & Hm).
  apply run_bind, (run_read_main _ k); [by destruct Hk|]. destruct (pkcs11_session_is_so y).
  - destruct (has_flag (db_main k) PKCS11_CKFT_TOKEN_INITIALIZED) eqn:Hi; cbn [negb]; [|by apply run_throw].
    apply run_seq, (run_check_so_pin sha256 _ k); [done|done| | |].
    + intros s1 [m Hm1] (_ & Hnl & _). apply run_seq, (run_set_pin sha256 (token y) k m p y pin n2 PKCS11_CKU_SO _ _ _ s); try done.
      * intros s' Hst. apply run_ret. by eapply pin_step_to.
      * intros s' Hst. by eapply pin_step_to.
      * intros s' Hf. by eapply pin_fault_fault.
    + intros s' Hst. by eapply pin_step_to.
    + intros s' [[-> Hni]|Hf]; [|by eapply pin_fault_fault]. rewrite has_flag_bit in Hi by done. by destruct Hni.
  - destruct (negb _); [by apply run_throw|].
    apply run_seq, (run_check_user_pin sha256 _ k); [done|done| | |].
    + intros s1 [m Hm1] _. apply run_seq, (run_set_pin sha256 (token y) k m p y pin n2 PKCS11_CKU_USER _ _ _ s); try done.
      * intros s' Hst. apply run_ret. by eapply pin_step_to.
      * intros s' Hst. by eapply pin_step_to.
      * intros s' Hf. by eapply pin_fault_fault.
    + intros s' Hst. by eapply pin_step_to.
    + intros s' Hf. by eapply pin_fault_fault.
Qed.

(** ** The token is initialised *)

Lemma put_main_twice s t m m' : put_main (put_main s t m) t m' = put_main s t m'.
Proof. unfold put_main, set_tokens. cbn [tokens client_list clients sessions objects stored object_files next_ptr env]. by rewrite alter_alter. Qed.

(** The end of entry_ck_token_initialize(), with [m1] in memory and [m0] stored. *)
Lemma run_inited s t k m0 m1 lab (Q : list Z → ta → Prop) (R P : ta → Prop) s1 s1' :
  token_at s t k → pin_at s t k m0 s1 → (s1' = put_main s1 t m1 ∨ s1' = s1 ∧ m1 = m0) →
  main_ok m1 → so_pin_salt m1 ≠ 0 → ¬ so_locked (db_main k) →
  (∀ s', pin_step s t k s' → Q [] s') → (∀ s', pin_fault s t k s' → P s') →
  run (m ← read_main t;
       let m := set_label m lab in
       let m := set_flags m (Z.lor (flags m) PKCS11_CKFT_TOKEN_INITIALIZED) in
       let m := set_user m (user_pin_count m) 0 (user_pin_hash m) in
       let m := clear_flags m init_mask in
       write_main t m;; update_persistent_db t;; mret []) Q R P s1'.
Proof.
  intros Hk Hat Hs1 Hm1 Hsalt Hnl HQ HP. destruct (inited_ok m1 lab Hm1 Hsalt) as [Hok Hi].
  destruct (pin_at_main _ _ _ _ _ Hk Hat) as (k1 & Hk1 & Hkm).
  assert (∃ k2, tokens s1' !! Z.to_nat t = Some k2 ∧ db_main k2 = m1) as (k2 & Hk2 & Hm2).
  { destruct Hs1 as [->|[-> ->]]; [|by exists k1]. exists (set_main k1 m1). cbn. by rewrite list_lookup_alter_eq, Hk1. }
  assert (put_main s1' t (inited m1 lab) = put_main s1 t (inited m1 lab)) as Hput.
  { destruct Hs1 as [->|[-> _]]; [apply put_main_twice|done]. }
  apply run_bind, (run_read_main _ k2); [done|]. rewrite Hm2. cbv zeta.
  apply run_seq, (run_write_main _ k2); [done|]. change (clear_flags _ init_mask) with (inited m1 lab). rewrite Hput.
  apply run_seq, (run_pin_put t k m0 (inited m1 lab) _ _ _ s s1); try done.
  intros s' Hs'. apply run_ret, HQ. by eexists.
Qed.

Lemma token_initialize_keeps c s : inv s → call_ok c → keeps (entry_ck_token_initialize sha256 c) nobody False s.
Proof.
  intros Hs Hc. pose proof (step_to_refl nobody s Hs) as Hrefl. unfold keeps, entry_ck_token_initialize.
  destruct (negb (good_types c)); [by apply run_throw|].
  apply run_bind, run_arg_u32; [by apply init_good| |done]. intros t a Ha Ht _.
  apply run_bind, run_arg_u32; [done| |done]. intros n a1 Ha1 Hn _. apply run_bind, run_arg_bytes; [done|lia| |done]. intros lab a2 Ha2 _ _ _.
  apply run_bind, run_arg_ptr; [done|lia| |done]. intros pin a3 Ha3 _ _. apply run_seq, run_no_more; [done| |done]. intros _.
  apply run_bind, run_get_token; [lia| |done]. intros Ht3. destruct (inv_token_at s t Hs Ht3) as (k & Hk & Hm).
  pose proof (pin_at_refl s t k Hk Hm) as Hat.
  assert (∀ s', pin_step s t k s' → step_to nobody s s') as Hstep by (intros; by eapply pin_step_to).
  assert (∀ s', pin_fault s t k s' → fault False s s') as Hfault by (intros; by eapply pin_fault_fault).
  apply run_bind, (run_read_main _ k); [by destruct Hk|].
  destruct (has_flag (db_main k) PKCS11_CKFT_SO_PIN_LOCKED) eqn:Hlk; [by apply run_throw|]. apply has_so_locked in Hlk.
  apply run_bind, run_get. destruct (existsb _ _); [by apply run_throw|].
  destruct (Z.eqb_spec (so_pin_salt (db_main k)) 0) as [Hz|Hsalt].
  - destruct (_ || _); [by apply run_throw|].
    apply run_seq, run_bind, run_hash_pin; [|intros s' Hu; apply Hstep; exists (db_main k); by eapply pin_at_used].
    intros salt s' Hu Hsalt. cbn [fst snd]. destruct (mo_so_salt _ Hm Hz) as [Hcount Hni].
    set (m1 := set_so (db_main k) _ _ _). assert (main_ok m1) as Hm1.
    { destruct Hm as [M1 M2 M3 M4 M5]. split; cbn [m1 set_so so_pin_count so_pin_salt flags user_pin_count user_pin_salt]; (done || lia). }
    apply (run_pin_update t k (db_main k) m1 _ _ _ s); try done.
    + by eapply pin_at_used.
    + intros s2 Hs2. apply (run_inited s t k m1 m1 _ _ _ _ s2); try done; [by right|cbn; lia].
  - apply run_seq, run_bind, run_pin_correct; [|intros s' Hu; apply Hstep; exists (db_main k); by eapply pin_at_used].
    intros b s' Hu _. pose proof (pin_at_used _ _ _ _ _ _ Hat Hu) as Hat'. destruct b; cbn [negb].
    + destruct (clear_ok (db_main k) so_pin_warnings Hm) as [Hc1 _]; [done..|].
      destruct (so_reset_ok (clear_flags (db_main k) so_pin_warnings) Hc1) as [Hc2 _].
      { cbn [clear_flags set_flags flags]. rewrite testbit_clear by done. intros [? _]%andb_true_iff. done. }
      destruct (pin_at_main _ _ _ _ _ Hk Hat') as (k1 & Hk1 & _).
      cbv zeta. apply (run_write_main _ k1); [done|].
      apply (run_inited s t k (db_main k) (set_so (clear_flags (db_main k) so_pin_warnings) 0 (so_pin_salt (db_main k)) (so_pin_hash (db_main k))) _ _ _ _ s'); try done; by left.
    + apply run_assoc, run_seq. apply (run_pin_update t k (db_main k) (so_pin_failure (db_main k)) _ _ _ s); try done.
      * by apply so_failure_ok.
      * apply so_failure_kept.
      * intros s2 Hs2. apply run_throw, Hstep. by eexists.
Qed.

(** ** Login *)

(** The bytes of a login command. *)
Definition login_request (c : call) (user : Z) (pin : list Z) : Prop :=
  ∃ h, ctrl c = le32 h ++ le32 user ++ le32 (Z.of_nat (length pin)) ++ pin.

(** The command of client [cl] has the PIN of the token, which is not locked. *)
Definition pin_shown (s : ta) (cl : Z) (c : call) (c' t : Z) (k : login_kind) : Prop :=
  c' = cl ∧ ∃ tk pin, tokens s !! Z.to_nat t = Some tk ∧
    (k = LSo ∧ login_request c PKCS11_CKU_SO pin ∧ good_so_pin sha256 (db_main tk) pin ∨
     k = LUser ∧ login_request c PKCS11_CKU_USER pin ∧ good_user_pin sha256 (db_main tk) pin).

(** The security officer is to log into a token that was never initialised. *)
Definition so_login_uninitialized (s : ta) (cl : Z) (c : call) : Prop :=
  ∃ p y k pin, sessions s !! p = Some y ∧ client y = cl ∧ tokens s !! Z.to_nat (token y) = Some k ∧
    ¬ initialized (db_main k) ∧ login_request c PKCS11_CKU_SO pin.

(** After the check of the PIN the client's sessions on the token get their new state. *)
Lemma run_login_sessions k f s s1 cl c x t tk (R P : ta → Prop) : inv s → clients s !! cl = Some x → token_at s t tk →
  pin_step s t tk s1 → gives f k →
  (∀ p y, sessions s !! p = Some y → client y = cl → token y = t → is_Some (f (pkcs11_session_is_read_write y))) →
  (k = LSo → initialized (db_main tk)) → pin_shown s cl c cl t k →
  run (session_states (session_list x) t f;; mret []) (λ (_ : list Z) s', step_to (pin_shown s cl c) s s') R P s1.
Proof.
  intros Hs Hx Htk Hst Hg Hf Hi Hshown. pose proof (pin_step_to nobody s t tk s1 Hs Htk Hst) as Hst1.
  pose proof (st_inv _ _ _ Hst1) as Hs1. destruct Hst as (m & (e & -> & _) & Hm & Hkept).
  apply run_seq. apply run_session_states; [apply (i_client s Hs _ _ Hx)| |].
  - intros p Hp. destruct (same_sessions_list _ _ _ _ Hs Hx Hp) as (y & Hy & Hc). exists y. split; [done|]. by apply (Hf p y).
  - intros s' Hre. apply run_ret. eapply step_to_trans; [exact Hst1|].
    destruct (relogged_step k f _ s' cl x t Hs1 Hx Hre Hg) as [Hi' Hst' Hl']; [done| |].
    { intros Hk k' Hk'. cbn in Hk'. destruct Htk as [Htk _]. rewrite list_lookup_alter_eq, Htk in Hk'. injection Hk' as <-. by apply Hkept, Hi. }
    split; [done..|]. intros p y Hy Hly. destruct (Hl' p y Hy Hly) as [?|(-> & -> & ->)]; [by left|by right].
Qed.

Lemma gives_user : gives (λ rw, Some (if rw then PKCS11_CKS_RW_USER_FUNCTIONS else PKCS11_CKS_RO_USER_FUNCTIONS)) LUser.
Proof. intros y st [= <-]. by destruct (pkcs11_session_is_read_write y). Qed.

Lemma gives_so : gives (λ rw, if rw then Some PKCS11_CKS_RW_SO_FUNCTIONS else None) LSo.
Proof. intros y st. destruct (pkcs11_session_is_read_write y) eqn:Hrw; [|done]. by intros [= <-]. Qed.

Lemma login_keeps cl c x s : inv s → call_ok c → clients s !! cl = Some x →
  keeps (entry_ck_login sha256 cl c) (pin_shown s cl c) (so_login_uninitialized s cl c) s.
Proof.
  intros Hs Hc Hx. pose proof (step_to_refl (pin_shown s cl c) s Hs) as Hrefl. unfold keeps, entry_ck_login.
  destruct (negb (good_types c)); [by apply run_throw|].
  apply run_bind, (run_get_session _ _ x); [done|done|by apply init_good| |done]. intros p y a h Ha Hy Hcl Hp Hr0. rewrite init_rest in Hr0.
  apply run_bind, run_arg_u32; [done| |done]. intros user a1 Ha1 Hus Hr1. apply run_bind, run_arg_u32; [done| |done]. intros n a2 Ha2 Hn Hr2.
  apply run_bind, run_arg_ptr; [done|lia| |done]. intros pin a3 Ha3 Hlen Hr3. apply run_seq, run_no_more; [done| |done]. intros Hr4.
  assert (login_request c user pin) as Hreq.
  { exists h. rewrite Hr0, Hr1, Hr2, Hr3, Hr4, app_nil_r, Hlen. by rewrite Z2Nat.id by lia. }
  apply run_bind, (run_read_session _ y); [done|]. apply run_bind, (run_read_client _ x); [by rewrite Hcl|].
  destruct (token_of_session s p y Hs Hy) as (k & Hk & Hm). pose proof (proj1 Hk) as Hk1.
  assert (∀ s', pin_step s (token y) k s' → step_to (pin_shown s cl c) s s') as Hstep by (intros; by eapply pin_step_to).
  destruct (Z.eqb_spec user PKCS11_CKU_SO) as [->|_].
  - destruct (pkcs11_session_is_so y); [by apply run_throw|]. destruct (pkcs11_session_is_user y); [by apply run_throw|].
    apply run_bind, (run_client_sessions cl x); [done..|]. intros l Hl. destruct (existsb _ l) eqn:Hro; [by apply run_throw|].
    apply run_seq, (run_check_so_pin sha256 _ k); [done|done| |exact Hstep|].
    + intros s1 Hs1 Hgood. apply (run_login_sessions LSo _ s s1 cl c x (token y) k); [done..|exact gives_so| | |].
      * intros q z Hz Hcz Htz. destruct (pkcs11_session_is_read_write z) eqn:Hrw; [by eexists|].
        apply Bool.not_true_iff_false in Hro. destruct Hro. apply existsb_exists. exists (q, z).
        split; [apply list_elem_of_In; by apply Hl|]. cbn. by rewrite Hrw, Htz, Z.eqb_refl.
      * intros _. apply Hgood.
      * split; [done|]. exists k, pin. split; [done|]. by left.
    + intros s' [[-> Hni]|Hf]; [|by eapply pin_fault_fault]. split; [by apply stored_kept_eq|]. right. exists p, y, k, pin. done.
  - destruct (Z.eqb_spec user PKCS11_CKU_USER) as [->|_]; [|by destruct (user =? _); apply run_throw].
    destruct (pkcs11_session_is_so y); [by apply run_throw|]. destruct (pkcs11_session_is_user y); [by apply run_throw|].
    apply run_seq, (run_check_user_pin sha256 _ k); [done|done| |exact Hstep|].
    + intros s1 Hs1 Hgood. apply (run_login_sessions LUser _ s s1 cl c x (token y) k); [done..|exact gives_user| |done|].
      * intros; by eexists.
      * split; [done|]. exists k, pin. split; [done|]. by right.
    + intros s' Hf. by eapply pin_fault_fault.
Qed.
End entries.
