(* ===== verification/Pkcs11Store.v ===== *)
(** * Objects and storage of the PKCS#11 TA (object.c, persistent_token.c, entry.c)

    Objects that clients create and destroy, in a session or on a token, the databases
    of the tokens when the TA starts, and the commands as the TA's entry points take
    them. An access to the storage that opens a file, moves in it and writes is one
    outcome of the environment, unless the code does something in between. Callers do
    not look at which error the storage returns. *)
From S2P Require Import Prelude HandleSpec Pkcs11Handle Pkcs11Attr Pkcs11Sanitize Pkcs11Object Pkcs11Token.

Local Open Scope Z_scope.

Section ta.
Context `{Heap}.

Definition write_object (o : Z) (x : pkcs11_object) : K unit := s ← mget; mput (set_objects s (<[o := x]> (objects s))).
Definition write_db_objs (t : Z) (l : list Z) : K unit :=
  k ← read_token t; write_token t (Token (tk_state k) (session_count k) (rw_session_count k) (token_objects k) (db_main k) l).

(** A function of the attributes, which only allocates. *)
Definition lift_t {A} (m : T A) : K A := λ s,
  let '(r, mem) := m (e_mem (env s)) in
  (r, set_env s (Env mem (e_random (env s)) (e_store (env s)) (e_hash (env s)))).

(** get_bool() of an object's attributes; NULL is a fault. *)
Definition object_bool (x : pkcs11_object) (id : Z) : K bool := a ← find (attributes x); lift_o (get_bool a id).

(** ** persistent_token.c: the objects of a token *)

Definition get_persistent_obj_idx (k : ck_token) (u : option Z) : option nat :=
  match u with None => None | Some u => fst <$> list_find (λ v, v = u) (db_objs k) end.

(** A random UUID; when the environment has no more random numbers, a new one. *)
Definition random_uuid (l : list Z) : K Z :=
  s ← mget;
  let e := env s in
  mput (set_env s (Env (e_mem e) (tail (e_random e)) (e_store e) (e_hash e)));;
  mret (match head (e_random e) with Some r => wrap 128 r | None => 1 + foldr Z.max 0 l end).

(** The do-while loop; one turn more than there are random numbers is enough. *)
Fixpoint uuid_loop (fuel : nat) (k : ck_token) : K Z :=
  match fuel with
  | O => mpanic
  | S fuel => u ← random_uuid (db_objs k); if bool_decide (is_Some (get_persistent_obj_idx k (Some u))) then uuid_loop fuel k else mret u
  end.

Definition create_object_uuid (t o : Z) : K unit :=
  x ← read_object o;
  massert (bool_decide (uuid x = None));;
  p ← ta_malloc 16;
  match p with
  | None => mthrow PKCS11_CKR_DEVICE_MEMORY
  | Some _ =>
    k ← read_token t;
    s ← mget;
    u ← uuid_loop (S (length (e_random (env s)))) k;
    write_object o (Object (link x) (attributes x) (Some u))
  end.

Definition destroy_object_uuid (t o : Z) : K unit :=
  x ← read_object o;
  k ← read_token t;
  massert (bool_decide (get_persistent_obj_idx k (uuid x) = None));;
  write_object o (Object (link x) (attributes x) None).

(** The second part of the database, written after the main part. *)
Definition store_objs (t : Z) (l : list Z) : K unit :=
  s ← mget;
  match stored s !! Z.to_nat t with
  | Some (Some (m, _)) => mput (set_stored s (<[Z.to_nat t := Some (m, Some l)]> (stored s)))
  | _ => mpanic
  end.

Definition unregister_persistent_object (t : Z) (u : option Z) : K unit :=
  match u with
  | None => mret ()
  | Some u =>
    k ← read_token t;
    match get_persistent_obj_idx k (Some u) with
    | None => mthrow PKCS11_RV_NOT_FOUND
    | Some idx =>
      p ← ta_malloc (4 + (Z.of_nat (length (db_objs k)) - 1) * 16);
      match p with
      | None => mthrow PKCS11_CKR_DEVICE_MEMORY
      | Some _ =>
        opened ← next_store;
        if negb opened then mthrow PKCS11_CKR_GENERAL_ERROR
        else
          let l := take idx (db_objs k) ++ drop (S idx) (db_objs k) in
          written ← next_store;
          (if (written : bool) then store_objs t l else mret ());;
          write_db_objs t l;;
          if (written : bool) then mret () else mthrow PKCS11_CKR_GENERAL_ERROR
      end
    end
  end.

Definition register_persistent_object (t : Z) (u : Z) : K unit :=
  k ← read_token t;
  if bool_decide (is_Some (get_persistent_obj_idx k (Some u))) then mpanic
  else
    p ← ta_malloc (4 + (Z.of_nat (length (db_objs k)) + 1) * 16);
    match p with
    | None => mthrow PKCS11_CKR_DEVICE_MEMORY
    | Some _ =>
      written ← next_store;
      if negb written then mthrow PKCS11_CKR_GENERAL_ERROR
      else store_objs t (db_objs k ++ [u]);; write_db_objs t (db_objs k ++ [u])
    end.

(** ** object.c *)

(** TEE_OpenPersistentObject() and TEE_CloseAndDeletePersistentObject1() of the object's
    file. *)
Definition delete_object_file (u : option Z) : K unit :=
  ok ← next_store;
  match u with
  | Some u => if (ok : bool) then s ← mget; mput (set_files s (delete u (object_files s))) else mret ()
  | None => mret ()
  end.

Definition cleanup_persistent_object (o t : Z) : K unit :=
  x ← read_object o;
  delete_object_file (uuid x);;
  destroy_object_uuid t o;;
  unlink_object o;;
  cleanup_volatile_obj_ref o.

(** destroy_object() without session_only. *)
Definition destroy_object (session o : Z) : K unit :=
  x ← read_object o;
  (match link x with None => mret () | Some _ => unlink_object o end);;
  b ← object_bool x PKCS11_CKA_TOKEN;
  if (b : bool) then
    massert (bool_decide (is_Some (uuid x)));;
    s ← read_session session;
    r ← mtry (unregister_persistent_object (token s) (uuid x));
    (match r with
     | inr _ => mret ()
     | inl _ =>
       r ← mtry (unregister_persistent_object (token s) (uuid x));
       match r with inr _ => mret () | inl _ => mpanic end
     end);;
    put_object_handle session o;;
    cleanup_persistent_object o (token s)
  else
    put_object_handle session o;;
    cleanup_volatile_obj_ref o.

Definition create_obj_instance (head : option (list Z)) (u : option Z) : K (option Z) :=
  p ← ta_malloc 56;
  match p with
  | None => mret None
  | Some o => write_object o (Object None head u);; mret (Some o)
  end.

(** The end of create_object() when something failed. *)
Definition create_object_err (session o h : Z) (head : list Z) (rc : pkcs11_rc) : K Z :=
  x ← read_object o;
  write_object o (Object (link x) None (uuid x));;
  s ← read_session session;
  write_session session (set_session_objects s (session_objects s) (default (object_handle_db s) (snd (handle_put (Some (object_handle_db s)) h))));;
  b ← lift_o (get_bool head PKCS11_CKA_TOKEN);
  (if (b : bool) then cleanup_persistent_object o (token s) else cleanup_volatile_obj_ref o);;
  mthrow rc.

(** TEE_CreatePersistentObject() of the object's file: a file of the same name is an
    error. *)
Definition create_object_file (u : Z) (head : list Z) : K unit :=
  ok ← next_store;
  s ← mget;
  if (ok : bool) && bool_decide (object_files s !! u = None) then mput (set_files s (<[u := head]> (object_files s)))
  else mthrow PKCS11_CKR_GENERAL_ERROR.

(** The object gets its file and its place in the database of the token. *)
Definition store_new_object (t o : Z) (head : list Z) : K unit :=
  create_object_uuid t o;;
  x ← read_object o;
  u ← find (uuid x);
  create_object_file u head;;
  register_persistent_object t u.

Definition insert_token_object (t o : Z) : K unit :=
  x ← read_object o;
  write_object o (Object (Some (OnToken t)) (attributes x) (uuid x));;
  k ← read_token t;
  write_token t (Token (tk_state k) (session_count k) (rw_session_count k) (o :: token_objects k) (db_main k) (db_objs k)).

Definition insert_session_object (session o : Z) : K unit :=
  x ← read_object o;
  write_object o (Object (Some (InSession session)) (attributes x) (uuid x));;
  s ← read_session session;
  write_session session (set_session_objects s (o :: session_objects s) (object_handle_db s)).

(** The handle of the new object. *)
Definition create_object (session : Z) (head : list Z) : K Z :=
  p ← create_obj_instance (Some head) None;
  match p with
  | None => mthrow PKCS11_CKR_DEVICE_MEMORY
  | Some o =>
    s ← read_session session;
    mem ← next_mem;
    let '(h, db) := handle_get (Some (object_handle_db s)) o mem in
    write_session session (set_session_objects s (session_objects s) (default (object_handle_db s) db));;
    if h =? 0 then create_object_err session o h head PKCS11_CKR_DEVICE_MEMORY
    else
      b ← lift_o (get_bool head PKCS11_CKA_TOKEN);
      if (b : bool) then
        r ← mtry (store_new_object (token s) o head);
        match r with
        | inl rc => create_object_err session o h head rc
        | inr _ => insert_token_object (token s) o;; mret h
        end
      else insert_session_object session o;; mret h
  end.

Definition entry_create_object (cl : Z) (c : call) : K (list Z) :=
  if negb (good_types c) || negb (out_size c =? 4) then mthrow PKCS11_CKR_ARGUMENTS_BAD
  else
    '(session_handle, args) ← arg_u32 (serialargs_init (ctrl_addr c) (ctrl c));
    '(template, args) ← lift_t (serialargs_alloc_get_attributes args);
    no_more args;;
    session ← pkcs11_handle2session session_handle cl;
    if session =? 0 then mthrow PKCS11_CKR_SESSION_HANDLE_INVALID
    else
      head ← lift_t (create_attributes_from_template true template);
      head ← find head;
      lift_o (check_created_attrs_against_processing PKCS11_PROCESSING_IMPORT head);;
      s ← read_session session;
      lift_o (check_created_attrs_against_token (pkcs11_session_is_so s) (pkcs11_session_is_read_write s) head);;
      h ← create_object session head;
      mret (le32 h).

Definition entry_destroy_object (cl : Z) (c : call) : K (list Z) :=
  if negb (good_types c) then mthrow PKCS11_CKR_ARGUMENTS_BAD
  else
    '(session_handle, args) ← arg_u32 (serialargs_init (ctrl_addr c) (ctrl c));
    '(object_handle, args) ← arg_u32 args;
    no_more args;;
    session ← pkcs11_handle2session session_handle cl;
    if session =? 0 then mthrow PKCS11_CKR_SESSION_HANDLE_INVALID
    else
      s ← read_session session;
      let object := handle_lookup (Some (object_handle_db s)) object_handle in
      if object =? 0 then mthrow PKCS11_CKR_OBJECT_HANDLE_INVALID
      else destroy_object session object;; mret [].
End ta.
