(* ===== verification/Pkcs11StoreProofs.v ===== *)
(** * Objects and storage of the PKCS#11 TA: what the operations keep

    Creating and destroying objects keeps [inv]; on the way the UUIDs of a token change
    in memory and in the storage, which [like] allows. *)
From S2P Require Import Prelude HandleSpec Pkcs11Handle Pkcs11Attr Pkcs11AttrProofs Pkcs11Sanitize Pkcs11Traces Pkcs11Object Pkcs11ObjectProofs Pkcs11Token Pkcs11TokenProofs Pkcs11Sessions Pkcs11Entries Pkcs11Store.

Local Open Scope Z_scope.

Section store.
Context `{Heap}.

(** A token without its UUIDs. *)
Definition forget (k : ck_token) : ck_token :=
  Token (tk_state k) (session_count k) (rw_session_count k) (token_objects k) (db_main k) [].

Definition main_part (d : option (token_persistent_main * option (list Z))) : option token_persistent_main := fst <$> d.

(** [s'] is [s] but for UUIDs, files and the environment. *)
Record like (s s' : ta) : Prop := {
  lk_tokens : forget <$> tokens s' = forget <$> tokens s;
  lk_stored : main_part <$> stored s' = main_part <$> stored s;
  lk_rest : client_list s' = client_list s ∧ clients s' = clients s ∧ sessions s' = sessions s ∧ objects s' = objects s;
  lk_next : next_ptr s <= next_ptr s';
  lk_uuids i k k' : tokens s !! i = Some k → tokens s' !! i = Some k' → NoDup (db_objs k) → NoDup (db_objs k');
  lk_disk i m objs m' objs' : stored s !! i = Some (Some (m, objs)) → stored s' !! i = Some (Some (m', objs')) →
    NoDup (default [] objs) → NoDup (default [] objs');
}.

Lemma like_token s s' i k' : like s s' → tokens s' !! i = Some k' → ∃ k, tokens s !! i = Some k ∧ forget k' = forget k.
Proof.
  intros Hl Hk. pose proof (f_equal (.!! i) (lk_tokens _ _ Hl)) as He. cbn in He. rewrite !list_lookup_fmap, Hk in He.
  destruct (tokens s !! i) as [k|]; [|done]. exists k. split; [done|]. exact (inj Some _ _ He).
Qed.

Lemma like_token_l s s' i k : like s s' → tokens s !! i = Some k → ∃ k', tokens s' !! i = Some k' ∧ forget k' = forget k.
Proof.
  intros Hl Hk. pose proof (f_equal (.!! i) (lk_tokens _ _ Hl)) as He. cbn in He. rewrite !list_lookup_fmap, Hk in He.
  destruct (tokens s' !! i) as [k'|]; [|done]. exists k'. split; [done|]. exact (inj Some _ _ He).
Qed.

Lemma like_stored s s' i m objs : like s s' → stored s !! i = Some (Some (m, objs)) →
  ∃ objs', stored s' !! i = Some (Some (m, objs')) ∧ (NoDup (default [] objs) → NoDup (default [] objs')).
Proof.
  intros Hl Hst. pose proof (f_equal (.!! i) (lk_stored _ _ Hl)) as He. cbn in He. rewrite !list_lookup_fmap, Hst in He.
  destruct (stored s' !! i) as [[[m' objs']|]|] eqn:Hst'; [|done|done]. exists objs'. cbn in He. injection He as ->. split; [done|]. by apply (lk_disk _ _ Hl i m objs m objs').
Qed.

Lemma like_stored_kept s s' : like s s' → stored_kept s s'.
Proof.
  intros Hl. split.
  { rewrite <- (length_fmap main_part (stored s')), <- (length_fmap main_part (stored s)). by rewrite (lk_stored _ _ Hl). }
  intros i m objs Hst [Hm Ho]. destruct (like_stored _ _ _ _ _ Hl Hst) as (objs' & Hst' & Hnd). exists m, objs'.
  split; [done|]. split; [split; auto|apply so_kept_refl].
Qed.

Lemma inv_like s s' : like s s' → inv s → inv s'.
Proof.
  intros Hl Hs. destruct (lk_rest _ _ Hl) as (E1 & E2 & E3 & E4). pose proof (lk_next _ _ Hl) as Hn. destruct (i_next s Hs) as (N1 & N2 & N3).
  assert (∀ f i, counted f i s' = counted f i s) as Hc by (intros f i; unfold counted; by rewrite E3).
  split; rewrite ?E1, ?E2, ?E3.
  - rewrite <- (i_tokens s Hs). rewrite <- (length_fmap forget (tokens s')), <- (length_fmap forget (tokens s)). by rewrite (lk_tokens _ _ Hl).
  - intros i k' Hk'. destruct (like_token _ _ _ _ Hl Hk') as (k & Hk & He). destruct (i_token s Hs _ _ Hk) as [(objs & Hst & Hndo) Huu H2 H3 H4 H5 H6].
    pose proof (f_equal db_main He) as G1. pose proof (f_equal session_count He) as G2. pose proof (f_equal rw_session_count He) as G3. pose proof (f_equal token_objects He) as G4. cbn in G1, G2, G3, G4.
    split; rewrite ?G1, ?G2, ?G3, ?G4, ?Hc, ?E4; try done; [|by apply (lk_uuids _ _ Hl i k)].
    destruct (like_stored s s' _ _ _ Hl Hst) as (objs' & Hst' & Hnd'). exists objs'. auto.
  - apply Hs.
  - intros c x Hx. destruct (i_client s Hs _ _ Hx) as [C1 C2 C3 C4]. by split; rewrite ?E3.
  - intros p y Hy. destruct (i_session s Hs _ _ Hy) as [S1 S2 S3 S4]. split; rewrite ?E2; [lia|done..].
  - apply Hs.
  - intros p y k' Hy Hly Hk'. destruct (like_token _ _ _ _ Hl Hk') as (k & Hk & He). pose proof (f_equal db_main He) as G. cbn in G. rewrite G. by apply (i_so s Hs p y k).
  - intros p y Hy. destruct (i_objects s Hs _ _ Hy) as [O1 O2 O3 O4]. split; rewrite ?E4; try done.
    intros h o Ho. destruct (O4 h o Ho) as (x & Hx & Hwa & [?|[Hlx (k & Hk & Hin)]]); exists x; (split; [done|]); (split; [done|]); [by left|right].
    split; [done|]. destruct (like_token_l _ _ _ _ Hl Hk) as (k' & Hk' & He). exists k'. split; [done|]. pose proof (f_equal token_objects He) as G. cbn in G. by rewrite G.
  - apply Hs.
  - rewrite E4. split; [lia|]. split; [intros c Hcl; specialize (N2 c Hcl); lia|intros o Ho; specialize (N3 o Ho); lia].
Qed.

Lemma like_refl s : like s s.
Proof. split; try done; intros; by simplify_eq. Qed.

Lemma like_trans s1 s2 s3 : like s1 s2 → like s2 s3 → like s1 s3.
Proof.
  intros H12 H23. destruct (lk_rest _ _ H12) as (E1 & E2 & E3 & E4), (lk_rest _ _ H23) as (F1 & F2 & F3 & F4).
  pose proof (lk_next _ _ H12). pose proof (lk_next _ _ H23). split.
  - by rewrite (lk_tokens _ _ H23), (lk_tokens _ _ H12).
  - by rewrite (lk_stored _ _ H23), (lk_stored _ _ H12).
  - by rewrite F1, F2, F3, F4.
  - lia.
  - intros i k k' Hk Hk' Hnd. destruct (like_token_l _ _ _ _ H12 Hk) as (k2 & Hk2 & _). apply (lk_uuids _ _ H23 i k2 k' Hk2 Hk'). by apply (lk_uuids _ _ H12 i k k2).
  - intros i m objs m' objs' Hst Hst' Hnd. destruct (like_stored _ _ _ _ _ H12 Hst) as (o2 & Hst2 & Hnd2). apply (lk_disk _ _ H23 i m o2 m' objs' Hst2 Hst'). auto.
Qed.

Lemma like_used s s' : used s s' → like s s'.
Proof. intros (e & -> & _). destruct (like_refl s) as [L1 L2 L3 L4 L5 L6]. by split. Qed.

Lemma like_next s : like s (set_next s (next_ptr s + 1)).
Proof. destruct (like_refl s) as [L1 L2 L3 L4 L5 L6]. split; try done. cbn. lia. Qed.

Lemma like_step A s s' : inv s → like s s' → step_to A s s'.
Proof.
  intros Hs Hl. split; [by eapply inv_like|by apply like_stored_kept|]. apply logins_kept_eq. by destruct (lk_rest _ _ Hl) as (_ & _ & -> & _).
Qed.

(** ** UUIDs *)

Lemma obj_idx_None k u : get_persistent_obj_idx k (Some u) = None ↔ u ∉ db_objs k.
Proof.
  unfold get_persistent_obj_idx. rewrite fmap_None. split.
  - intros Hf Hin. apply list_find_None in Hf. rewrite Forall_forall in Hf. by apply (Hf u).
  - intros Hn. apply list_find_None. rewrite Forall_forall. by intros v Hv ->.
Qed.

Lemma obj_idx_Some k u i : get_persistent_obj_idx k (Some u) = Some i → db_objs k !! i = Some u.
Proof.
  unfold get_persistent_obj_idx. intros ([j v] & Hf & ->)%fmap_Some. apply list_find_Some in Hf as (Hj & -> & _). done.
Qed.

Lemma max_not_in l : 1 + foldr Z.max 0 l ∉ l.
Proof.
  assert (∀ x, x ∈ l → x <= foldr Z.max 0 l) as Hle.
  { induction l as [|y l IH]; intros x; [by intros ?%not_elem_of_nil|]. intros [->|Hx]%elem_of_cons; cbn; [lia|]. specialize (IH x Hx). lia. }
  intros Hin. specialize (Hle _ Hin). lia.
Qed.

(** The loop ends, with a UUID the token does not have. *)
Lemma run_uuid_loop fuel k (Q : Z → ta → Prop) (R P : ta → Prop) s : (length (e_random (env s)) < fuel)%nat →
  (∀ u s', used s s' → u ∉ db_objs k → Q u s') → run (uuid_loop fuel k) Q R P s.
Proof.
  revert s Q. induction fuel as [|fuel IH]; intros s Q Hf HQ; [lia|]. cbn [uuid_loop].
  apply run_bind. unfold random_uuid. apply run_bind, run_get, run_bind, run_put, run_ret.
  set (s1 := set_env s _). assert (used s s1) as Hu by (by eexists).
  destruct (e_random (env s)) as [|r l] eqn:Hr; cbn [head].
  - case_bool_decide as Hin.
    + exfalso. rewrite (proj2 (obj_idx_None k _) (max_not_in (db_objs k))) in Hin. by destruct Hin.
    + apply run_ret, HQ; [done|apply max_not_in].
  - case_bool_decide as Hin.
    + apply IH; [unfold s1; cbn; cbn in *; lia|]. intros u s' Hu' Hn. apply HQ; [exact (used_trans _ _ _ Hu Hu')|done].
    + apply run_ret, HQ; [done|]. apply obj_idx_None, eq_None_not_Some. done.
Qed.

(** ** The UUIDs of a token, in memory and in the storage *)

Definition set_objs (k : ck_token) (l : list Z) : ck_token :=
  Token (tk_state k) (session_count k) (rw_session_count k) (token_objects k) (db_main k) l.

Definition put_objs (s : ta) (t : Z) (l : list Z) : ta := set_tokens s (alter (λ k, set_objs k l) (Z.to_nat t) (tokens s)).
Definition put_disk (s : ta) (t : Z) (l : list Z) : ta :=
  set_stored s (alter (λ d, (λ mo, (mo.1, Some l)) <$> d) (Z.to_nat t) (stored s)).

Lemma run_write_db_objs t k l (Q : unit → ta → Prop) (R P : ta → Prop) s : tokens s !! Z.to_nat t = Some k →
  Q tt (put_objs s t l) → run (write_db_objs t l) Q R P s.
Proof.
  intros Hk HQ. apply run_bind, (run_read_token _ k); [done|]. apply run_bind, run_get, run_put.
  unfold put_objs in HQ. rewrite (alter_as_insert _ _ _ k) in HQ by done. exact HQ.
Qed.

Lemma run_store_objs t m o l (Q : unit → ta → Prop) (R P : ta → Prop) s : stored s !! Z.to_nat t = Some (Some (m, o)) →
  Q tt (put_disk s t l) → run (store_objs t l) Q R P s.
Proof.
  intros Hst HQ. apply run_bind, run_get. rewrite Hst. apply run_put.
  unfold put_disk in HQ. rewrite (alter_as_insert _ _ _ _ Hst) in HQ. exact HQ.
Qed.

Lemma like_put_objs s t k l : tokens s !! Z.to_nat t = Some k → (NoDup (db_objs k) → NoDup l) → like s (put_objs s t l).
Proof.
  intros Hk Hl. destruct (like_refl s) as [L1 L2 L3 L4 L5 L6]. split; try done.
  - cbn. apply list_eq. intros i. rewrite !list_lookup_fmap, list_lookup_alter. case_decide as Hi; [|done]. rewrite <- Hi, Hk. done.
  - intros i k0 k' Hk0 Hk'. cbn in Hk'. rewrite list_lookup_alter in Hk'. case_decide as Hi; [|by simplify_eq].
    rewrite <- Hi in Hk0. rewrite Hk in Hk0, Hk'. simplify_eq/=. done.
Qed.

Lemma like_put_disk s t l : NoDup l → like s (put_disk s t l).
Proof.
  intros Hl. destruct (like_refl s) as [L1 L2 L3 L4 L5 L6]. split; try done.
  - cbn. apply list_eq. intros i. rewrite !list_lookup_fmap, list_lookup_alter. case_decide as Hi; [|done]. rewrite <- Hi.
    by destruct (stored s !! Z.to_nat t) as [[[m o]|]|].
  - intros i m o m' o' Hst Hst' Hnd. cbn in Hst'. rewrite list_lookup_alter in Hst'. case_decide as Hi; [|by simplify_eq].
    rewrite <- Hi in Hst. rewrite Hst in Hst'. simplify_eq/=. done.
Qed.

(** A token of a state [inv] holds of. *)
Definition token_good (s : ta) (t : Z) (k : ck_token) : Prop :=
  tokens s !! Z.to_nat t = Some k ∧ NoDup (db_objs k) ∧ ∃ m o, stored s !! Z.to_nat t = Some (Some (m, o)).

Lemma token_good_like s s' t k : like s s' → token_good s t k → ∃ k', token_good s' t k'.
Proof.
  intros Hl (Hk & Hnd & m & o & Hst). destruct (like_token_l _ _ _ _ Hl Hk) as (k' & Hk' & _).
  destruct (like_stored _ _ _ _ _ Hl Hst) as (o' & Hst' & _). exists k'. split; [done|]. split; [by apply (lk_uuids _ _ Hl (Z.to_nat t) k k')|by exists m, o'].
Qed.

Lemma run_register t u k (Q : unit → ta → Prop) (R P : ta → Prop) s : token_good s t k → u ∉ db_objs k →
  (∀ s', like s s' → Q tt s') → (∀ s', like s s' → R s') → run (register_persistent_object t u) Q R P s.
Proof.
  intros (Hk & Hnd & m & o & Hst) Hu HQ HR. apply run_bind, (run_read_token _ k); [done|].
  rewrite bool_decide_false by (apply eq_None_not_Some; by apply obj_idx_None).
  assert (NoDup (db_objs k ++ [u])) as Hnd'.
  { apply NoDup_app. split; [done|]. split; [|apply NoDup_singleton]. intros v Hv ->%list_elem_of_singleton. done. }
  apply run_bind, run_malloc; intros s1 Hu1; [by apply run_throw, HR, like_used|].
  pose proof (like_trans _ _ _ (like_used _ _ Hu1) (like_next s1)) as Hl1. destruct Hu1 as (e & -> & _). cbn [next_ptr set_env] in Hl1.
  apply run_bind, run_next_store. intros b s2 Hu2 _. pose proof (like_trans _ _ _ Hl1 (like_used _ _ Hu2)) as Hl2. destruct Hu2 as (e2 & -> & _).
  destruct b; cbn [negb]; [|by apply run_throw, HR].
  apply run_seq, (run_store_objs _ m o); [done|]. apply (run_write_db_objs _ k); [done|]. apply HQ.
  eapply like_trans; [exact Hl2|]. eapply like_trans; [apply (like_put_disk _ t (db_objs k ++ [u]) Hnd')|]. by apply (like_put_objs _ _ k).
Qed.

Lemma take_drop_NoDup {A} (l : list A) i : NoDup l → NoDup (take i l ++ drop (S i) l).
Proof.
  intros Hnd. eapply sublist_NoDup; [exact Hnd|]. rewrite <- (take_drop i l) at 3. apply sublist_app; [done|].
  replace (S i) with (i + 1)%nat by lia. rewrite <- drop_drop. apply sublist_drop.
Qed.

Lemma take_drop_not_in {A} (l : list A) i x : NoDup l → l !! i = Some x → x ∉ take i l ++ drop (S i) l.
Proof.
  intros Hnd Hx Hin. rewrite <- (take_drop_middle l i x Hx) in Hnd. apply NoDup_app in Hnd as (_ & Hn & Hnd).
  apply NoDup_cons in Hnd as [Hn2 _]. apply elem_of_app in Hin as [Hin|Hin]; [|done]. apply (Hn x Hin). by apply elem_of_cons; left.
Qed.

(** After success the token does not have the UUID. *)
Lemma run_unregister t u k (Q : unit → ta → Prop) (R P : ta → Prop) s : token_good s t k →
  (∀ s' k', like s s' → token_good s' t k' → u ∉ db_objs k' → Q tt s') → (∀ s', like s s' → R s') → run (unregister_persistent_object t (Some u)) Q R P s.
Proof.
  intros (Hk & Hnd & m & o & Hst) HQ HR. apply run_bind, (run_read_token _ k); [done|].
  destruct (get_persistent_obj_idx k (Some u)) as [i|] eqn:Hi; [|by apply run_throw, HR, like_refl]. apply obj_idx_Some in Hi.
  pose proof (take_drop_NoDup _ i Hnd) as Hnd'. pose proof (take_drop_not_in _ i u Hnd Hi) as Hn. set (l := take i _ ++ _) in *.
  apply run_bind, run_malloc; intros s1 Hu1; [by apply run_throw, HR, like_used|].
  pose proof (like_trans _ _ _ (like_used _ _ Hu1) (like_next s1)) as Hl1. destruct Hu1 as (e & -> & _). cbn [next_ptr set_env] in Hl1.
  apply run_bind, run_next_store. intros b s2 Hu2 _. pose proof (like_trans _ _ _ Hl1 (like_used _ _ Hu2)) as Hl2. destruct Hu2 as (e2 & -> & _).
  destruct b; cbn [negb]; [|by apply run_throw, HR]. cbv zeta.
  apply run_bind, run_next_store. intros b s3 Hu3 _. pose proof (like_trans _ _ _ Hl2 (like_used _ _ Hu3)) as Hl3. destruct Hu3 as (e3 & -> & _).
  set (s3 := set_env _ e3) in *. apply run_seq. destruct b.
  - apply (run_store_objs _ m o); [done|]. apply run_seq, (run_write_db_objs _ k); [done|]. apply run_ret.
    assert (like s (put_objs (put_disk s3 t l) t l)) as Hl4.
    { eapply like_trans; [exact Hl3|]. eapply like_trans; [by apply (like_put_disk _ t l)|]. by apply (like_put_objs _ _ k). }
    apply (HQ _ (set_objs k l)); [done| |done]. split; [cbn; by rewrite list_lookup_alter_eq, Hk|]. split; [done|].
    exists m, (Some l). cbn. by rewrite list_lookup_alter_eq, Hst.
  - apply run_ret, run_seq, (run_write_db_objs _ k); [done|]. apply run_throw, HR. eapply like_trans; [exact Hl3|]. by apply (like_put_objs _ _ k).
Qed.

(** ** A new object *)

Definition add_object (o : Z) (k : ck_token) : ck_token :=
  Token (tk_state k) (session_count k) (rw_session_count k) (o :: token_objects k) (db_main k) (db_objs k).

(** The object [x] at address [o], created by session [p]. *)
Definition inserted (s : ta) (p : Z) (y : pkcs11_session) (o : Z) (x : pkcs11_object) (db : handle_db) : ta :=
  match link x with
  | Some (OnToken t) =>
    set_objects (set_sessions (set_tokens s (alter (add_object o) (Z.to_nat t) (tokens s))) (<[p := set_session_objects y (session_objects y) db]> (sessions s)))
                (<[o := x]> (objects s))
  | _ => set_objects (set_sessions s (<[p := set_session_objects y (o :: session_objects y) db]> (sessions s))) (<[o := x]> (objects s))
  end.

Record inserting (s : ta) (p : Z) (y : pkcs11_session) (o : Z) (x : pkcs11_object) (db : handle_db) : Prop := {
  in_session : sessions s !! p = Some y;
  in_fresh : objects s !! o = None;
  in_addr : 0 < o < next_ptr s;
  in_db : db_wf db ∧ ∃ h, db_table (object_handle_db y) !! h = None ∧ db_table db = <[h := o]> (db_table (object_handle_db y));
  in_attrs : with_attrs x;
  in_link : link x = Some (InSession p) ∨ link x = Some (OnToken (token y)) ∧ is_Some (uuid x);
}.

Section inserted.
  Context (s : ta) (p : Z) (y : pkcs11_session) (o : Z) (x : pkcs11_object) (db : handle_db).
  Context (Hs : inv s) (Hin : inserting s p y o x db).

Definition new_list : list Z := match link x with Some (OnToken _) => session_objects y | _ => o :: session_objects y end.

Lemma inserted_state : sessions (inserted s p y o x db) = <[p := set_session_objects y new_list db]> (sessions s) ∧
  objects (inserted s p y o x db) = <[o := x]> (objects s) ∧ clients (inserted s p y o x db) = clients s ∧ client_list (inserted s p y o x db) = client_list s ∧
  stored (inserted s p y o x db) = stored s ∧ next_ptr (inserted s p y o x db) = next_ptr s.
Proof. unfold inserted, new_list. by destruct (link x) as [[]|]. Qed.

Lemma inserted_token i k : tokens (inserted s p y o x db) !! i = Some k → ∃ k0, tokens s !! i = Some k0 ∧
  (k = k0 ∨ k = add_object o k0 ∧ link x = Some (OnToken (Z.of_nat i)) ∧ is_Some (uuid x)).
Proof.
  unfold inserted. pose proof (in_link _ _ _ _ _ _ Hin) as Hl. destruct (link x) as [[q|t]|] eqn:Hlx; [intros Hk; exists k; auto| |intros Hk; exists k; auto].
  destruct Hl as [?|[[= ->] Hu]]; [done|]. destruct (i_session s Hs _ _ (in_session _ _ _ _ _ _ Hin)) as [_ Ht _ _].
  cbn. rewrite list_lookup_alter. case_decide as Hi; [|intros Hk; exists k; auto]. rewrite <- Hi. destruct (tokens s !! Z.to_nat (token y)) as [k0|]; [|done].
  intros [= <-]. exists k0. split; [done|]. right. by rewrite Z2Nat.id by lia.
Qed.

Lemma inserted_token_l i k0 : tokens s !! i = Some k0 → ∃ k, tokens (inserted s p y o x db) !! i = Some k ∧
  (∀ o', o' ∈ token_objects k0 → o' ∈ token_objects k) ∧ (link x = Some (OnToken (Z.of_nat i)) → o ∈ token_objects k).
Proof.
  intros Hk. unfold inserted. destruct (link x) as [[q|t]|] eqn:Hlx; [by exists k0| |by exists k0].
  cbn. rewrite list_lookup_alter. case_decide as Hi.
  - rewrite Hi, Hk. exists (add_object o k0). split; [done|]. split; [intros o' Ho'; by apply elem_of_cons; right|]. intros _. by apply elem_of_cons; left.
  - exists k0. split; [done|]. split; [done|]. intros [= ->]. by rewrite Nat2Z.id in Hi.
Qed.

Lemma old_object o' x' : objects s !! o' = Some x' → objects (inserted s p y o x db) !! o' = Some x' ∧ o' ≠ o.
Proof.
  intros Ho'. destruct inserted_state as (_ & -> & _). assert (o' ≠ o) as Hne by (intros ->; rewrite (in_fresh _ _ _ _ _ _ Hin) in Ho'; done).
  by rewrite lookup_insert_ne.
Qed.

Lemma inserted_objects_ok q z : sessions (inserted s p y o x db) !! q = Some z → session_objects_ok (inserted s p y o x db) q z.
Proof.
  pose proof (in_session _ _ _ _ _ _ Hin) as Hy. destruct inserted_state as (Es & Eo & _). rewrite Es. intros Hz.
  destruct (upd_session _ _ _ _ _ _ _ Hz Hy) as (z0 & Hz0 & _ & E2 & _ & _ & Hc). destruct (i_objects s Hs _ _ Hz0) as [O1 O2 O3 O4].
  assert (∀ h o', db_table (object_handle_db z0) !! h = Some o' → ∃ x', objects (inserted s p y o x db) !! o' = Some x' ∧ with_attrs x' ∧
    (link x' = Some (InSession q) ∧ o' ∈ session_objects z0 ∨
     link x' = Some (OnToken (token z)) ∧ ∃ k, tokens (inserted s p y o x db) !! Z.to_nat (token z) = Some k ∧ o' ∈ token_objects k)) as Hold.
  { intros h o' Hh. destruct (O4 h o' Hh) as (x' & Hx' & Hwa & Hcase). exists x'. destruct (old_object _ _ Hx') as [-> _]. split; [done|]. split; [done|].
    rewrite <- E2. destruct Hcase as [?|[Hl (k0 & Hk0 & Ho')]]; [by left|right]. split; [done|].
    destruct (inserted_token_l _ _ Hk0) as (k & Hk & Hsub & _). exists k. auto. }
  destruct Hc as [(-> & -> & F1 & F2)|[Hq ->]].
  - assert (∀ o', o' ∈ session_objects y → o' ≠ o) as Hne by (intros o' Ho'; destruct (O3 o' Ho') as (x' & Hx' & _); by apply (old_object _ x')).
    destruct (in_db _ _ _ _ _ _ Hin) as (Hwf & h0 & Hh0 & Htab).
    split; rewrite ?F1, ?F2.
    + unfold new_list. destruct (link x) as [[]|]; [| done |]; (constructor; [intros Ho; by apply (Hne o)|done]).
    + done.
    + intros o' Ho'. destruct (decide (o' = o)) as [->|Hno].
      * exists x. rewrite Eo, lookup_insert_eq. split; [done|]. destruct (in_link _ _ _ _ _ _ Hin) as [?|[Hl _]]; [done|].
        unfold new_list in Ho'. rewrite Hl in Ho'. by destruct (Hne o).
      * assert (o' ∈ session_objects y) as Ho'' by (unfold new_list in Ho'; destruct (link x) as [[]|]; [|done|]; by apply elem_of_cons in Ho' as [?|?]).
        destruct (O3 o' Ho'') as (x' & Hx' & Hl). exists x'. by destruct (old_object _ _ Hx') as [-> _].
    + intros h o' Hh. rewrite Htab in Hh. destruct (decide (h = h0)) as [->|Hne0].
      * rewrite lookup_insert_eq in Hh. injection Hh as <-. exists x. rewrite Eo, lookup_insert_eq. split; [done|]. split; [apply (in_attrs _ _ _ _ _ _ Hin)|].
        destruct (in_link _ _ _ _ _ _ Hin) as [Hl|[Hl _]]; [left|right].
        -- split; [done|]. unfold new_list. rewrite Hl. by apply elem_of_cons; left.
        -- rewrite <- E2. split; [done|]. destruct (i_session s Hs _ _ Hy) as [_ Ht _ _].
           destruct (lookup_lt_is_Some_2 (tokens s) (Z.to_nat (token y))) as [k0 Hk0]; [rewrite (i_tokens s Hs); lia|].
           destruct (inserted_token_l _ _ Hk0) as (k & Hk & _ & Hino). exists k. split; [done|]. apply Hino. by rewrite Z2Nat.id by lia.
      * rewrite lookup_insert_ne in Hh by done. destruct (Hold h o' Hh) as (x' & Hx' & Hwa & Hcase). exists x'. split; [done|]. split; [done|].
        destruct Hcase as [[Hl Hi]|?]; [left; split; [done|]|by right]. unfold new_list. destruct (link x) as [[]|]; [|done|]; by apply elem_of_cons; right.
  - split; [done|done| |].
    + intros o' Ho'. destruct (O3 o' Ho') as (x' & Hx' & Hl). exists x'. by destruct (old_object _ _ Hx') as [-> _].
    + exact Hold.
Qed.

(** A handle of the new state: an old one, or the new one. *)
Lemma inserted_handle q z h o' : sessions (inserted s p y o x db) !! q = Some z → db_table (object_handle_db z) !! h = Some o' →
  (∃ z0, sessions s !! q = Some z0 ∧ db_table (object_handle_db z0) !! h = Some o' ∧ o' ≠ o) ∨
  q = p ∧ o' = o ∧ ∀ h', db_table (object_handle_db z) !! h' = Some o → h' = h.
Proof.
  pose proof (in_session _ _ _ _ _ _ Hin) as Hy. destruct inserted_state as (Es & _). rewrite Es. intros Hz Hh.
  destruct (upd_session _ _ _ _ _ _ _ Hz Hy) as (z0 & Hz0 & _ & _ & _ & _ & Hc). destruct (i_objects s Hs _ _ Hz0) as [_ _ _ O4].
  assert (∀ h o', db_table (object_handle_db z0) !! h = Some o' → o' ≠ o) as Hne by (intros i v Hv; destruct (O4 i v Hv) as (x' & Hx' & _); by apply (old_object _ x')).
  destruct Hc as [(-> & -> & _ & F2)|[_ ->]]; [|left; exists z0; eauto].
  destruct (in_db _ _ _ _ _ _ Hin) as (_ & h0 & Hh0 & Htab). rewrite F2 in *. rewrite Htab in Hh. destruct (decide (h = h0)) as [->|Hne0].
  - rewrite lookup_insert_eq in Hh. injection Hh as <-. right. split; [done|]. split; [done|]. intros h'. rewrite Htab.
    destruct (decide (h' = h0)) as [->|?]; [done|]. rewrite lookup_insert_ne by done. intros Hv. by destruct (Hne _ _ Hv).
  - rewrite lookup_insert_ne in Hh by done. left. exists y. eauto.
Qed.

Lemma inv_inserted : inv (inserted s p y o x db).
Proof.
  pose proof (in_session _ _ _ _ _ _ Hin) as Hy. destruct inserted_state as (Es & Eo & Ec & El & Est & En). destruct (i_next s Hs) as (N1 & N2 & N3).
  assert (∀ q z, sessions (inserted s p y o x db) !! q = Some z → ∃ z0, sessions s !! q = Some z0 ∧ client z0 = client z ∧ token z0 = token z ∧ handle z0 = handle z ∧ login z0 = login z) as Hback.
  { rewrite Es. intros q z Hz. destruct (upd_session _ _ _ _ _ _ _ Hz Hy) as (z0 & Hz0 & E1 & E2 & E3 & E4 & _). exists z0. rewrite (login_state _ _ E4). done. }
  assert (∀ f i, (∀ y z, state z = state y → f z = f y) → counted f i (inserted s p y o x db) = counted f i s) as Hcount
    by (intros f i Hf; by apply (upd_counted _ _ p y new_list db)).
  split; rewrite ?El, ?Ec.
  - unfold inserted. destruct (link x) as [[]|]; [apply Hs| |apply Hs]. cbn. rewrite length_alter. apply Hs.
  - intros i k Hk. destruct (inserted_token _ _ Hk) as (k0 & Hk0 & Hc). destruct (i_token s Hs _ _ Hk0) as [H1 Huu H2 H3 H4 H5 H6].
    assert (∀ o', o' ∈ token_objects k0 → ∃ x', objects (inserted s p y o x db) !! o' = Some x' ∧ link x' = Some (OnToken (Z.of_nat i)) ∧ is_Some (uuid x') ∧ o' ≠ o) as Hold.
    { intros o' Ho'. destruct (H6 o' Ho') as (x' & Hx' & Hl & Hu). exists x'. by destruct (old_object _ _ Hx') as [-> ?]. }
    split; rewrite ?Est, ?Hcount by (done || apply is_rw_state); try (destruct Hc as [->|(-> & _)]; done).
    + destruct Hc as [->|(-> & _)]; [done|]. constructor; [|done]. intros Ho. by destruct (Hold o Ho) as (? & _ & _ & _ & ?).
    + intros o' Ho'. assert (o' ∈ token_objects k0 ∨ o' = o ∧ link x = Some (OnToken (Z.of_nat i)) ∧ is_Some (uuid x)) as [Ho|(-> & ? & ?)].
      { destruct Hc as [->|(-> & ?)]; [by left|]. apply elem_of_cons in Ho' as [?|?]; [by right|by left]. }
      * destruct (Hold o' Ho) as (x' & ? & ? & ? & _). by exists x'.
      * exists x. by rewrite Eo, lookup_insert_eq.
  - apply Hs.
  - intros c x' Hx'. destruct (i_client s Hs _ _ Hx') as [H1 H2 H3 H4]. split; try done; rewrite Es.
    + intros q Hq. destruct (H3 q Hq) as (z0 & Hz0 & Hc & Hh). destruct (upd_session_l _ _ _ new_list db _ _ Hy Hz0) as (z & Hz & E1 & _ & E3 & _).
      exists z. by rewrite E1, E3.
    + intros h q Hq. destruct (H4 h q Hq) as (Hi & z0 & Hz0 & Hh). destruct (upd_session_l _ _ _ new_list db _ _ Hy Hz0) as (z & Hz & _ & _ & E & _).
      split; [done|]. exists z. by rewrite E.
  - intros q z Hz. destruct (Hback _ _ Hz) as (z0 & Hz0 & E1 & E2 & E3 & _). destruct (i_session s Hs _ _ Hz0) as [S1 S2 S3 S4].
    split; rewrite ?En, ?Ec, <- ?E1, <- ?E2, <- ?E3; done.
  - intros q r z w Hz Hw. destruct (Hback _ _ Hz) as (z0 & Hz0 & <- & <- & _ & <-), (Hback _ _ Hw) as (w0 & Hw0 & <- & <- & _ & <-). by apply (i_login s Hs q r).
  - intros q z k Hz Hl Hk. destruct (Hback _ _ Hz) as (z0 & Hz0 & _ & E2 & _ & E4). rewrite <- E2 in Hk. rewrite <- E4 in Hl.
    destruct (inserted_token _ _ Hk) as (k0 & Hk0 & Hc). pose proof (i_so s Hs q z0 k0 Hz0 Hl Hk0). by destruct Hc as [->|(-> & _)].
  - intros q z. apply inserted_objects_ok.
  - intros q r z w h h' o' Hz Hw Hh Hh'.
    destruct (inserted_handle _ _ _ _ Hz Hh) as [(z0 & Hz0 & Hh0 & Hne)|(-> & -> & Hu)], (inserted_handle _ _ _ _ Hw Hh') as [(w0 & Hw0 & Hh0' & Hne')|(-> & ? & Hu')]; try done.
    + by apply (i_object_handles s Hs q r z0 w0 h h' o').
    + split; [done|]. rewrite Hw in Hz. injection Hz as ->. symmetry. by apply Hu.
  - rewrite En, Eo. split; [done|]. split; [done|]. intros o' [<-|[_ Ho']]%lookup_insert_is_Some; [apply (in_addr _ _ _ _ _ _ Hin)|auto].
Qed.

(** Nobody is logged in by it, and the storage is not touched. *)
Lemma inserted_step A : step_to A s (inserted s p y o x db).
Proof.
  pose proof (in_session _ _ _ _ _ _ Hin) as Hy. destruct inserted_state as (Es & _ & _ & _ & Est & _).
  split; [apply inv_inserted|by apply stored_kept_eq|]. intros q z Hz _. rewrite Es in Hz.
  destruct (upd_session _ _ _ _ _ _ _ Hz Hy) as (z0 & Hz0 & E1 & E2 & _ & E4 & _). left. exists q, z0. by rewrite (login_state _ _ E4).
Qed.
End inserted.

(** ** create_object()

    [pending]: a handle of the session points to the object [x], which is in no list. *)

Definition pending (s : ta) (p : Z) (y : pkcs11_session) (o : Z) (db : handle_db) (x : pkcs11_object) : ta :=
  set_objects (set_sessions s (<[p := set_session_objects y (session_objects y) db]> (sessions s))) (<[o := x]> (objects s)).

Lemma like_write_object s p y o db x x' S : like (pending s p y o db x) S →
  like (pending s p y o db x') (set_objects S (<[o := x']> (objects S))).
Proof.
  intros [L1 L2 (E1 & E2 & E3 & E4) L4 L5 L6]. split; try done. split; [done|]. split; [done|]. split; [done|]. cbn. rewrite E4. cbn. apply insert_insert_eq.
Qed.

Lemma pending_object s p y o db x S : like (pending s p y o db x) S → objects S !! o = Some x.
Proof. intros Hl. destruct (lk_rest _ _ Hl) as (_ & _ & _ & ->). apply lookup_insert_eq. Qed.

Lemma pending_session s p y o db x S : like (pending s p y o db x) S → sessions S !! p = Some (set_session_objects y (session_objects y) db).
Proof. intros Hl. destruct (lk_rest _ _ Hl) as (_ & _ & -> & _). apply lookup_insert_eq. Qed.

Lemma run_create_object_uuid s p y o db x t k S (Q : unit → ta → Prop) (R P : ta → Prop) :
  like (pending s p y o db x) S → uuid x = None → token_good S t k →
  (∀ u S', like (pending s p y o db (Object (link x) (attributes x) (Some u))) S' → token_good S' t k → u ∉ db_objs k → Q tt S') →
  (∀ S', like (pending s p y o db x) S' → R S') → run (create_object_uuid t o) Q R P S.
Proof.
  intros Hl Hx Hg HQ HR. apply run_bind, (run_read_object _ x); [by eapply pending_object|].
  apply run_seq, run_assert; [intros _|by rewrite bool_decide_true].
  apply run_bind, run_malloc; intros S1 Hu1; [apply run_throw, HR; eapply like_trans; [exact Hl|by apply like_used]|].
  pose proof (like_trans _ _ _ (like_used _ _ Hu1) (like_next S1)) as Hl1. destruct Hu1 as (e & -> & _). cbn [next_ptr set_env] in Hl1.
  pose proof (like_trans _ _ _ Hl Hl1) as Hl2. destruct Hg as (Hk & Hnd & Hst).
  apply run_bind, (run_read_token _ k); [exact Hk|]. apply run_bind, run_get, run_bind, run_uuid_loop; [lia|].
  intros u S2 Hu2 Hn. pose proof (like_trans _ _ _ Hl2 (like_used _ _ Hu2)) as Hl3. destruct Hu2 as (e2 & -> & _).
  apply run_bind, run_get, run_put. apply (HQ u); [|by split|done]. by eapply like_write_object.
Qed.

Lemma like_files s x : like s (set_files s x).
Proof. destruct (like_refl s) as [L1 L2 L3 L4 L5 L6]. by split. Qed.

Lemma run_create_object_file u head (Q : unit → ta → Prop) (R P : ta → Prop) S :
  (∀ S', like S S' → tokens S' = tokens S → stored S' = stored S → Q tt S') → (∀ S', like S S' → R S') → run (create_object_file u head) Q R P S.
Proof.
  intros HQ HR. apply run_bind, run_next_store. intros b S1 Hu _. pose proof (like_used _ _ Hu) as Hl. destruct Hu as (e & -> & _).
  apply run_bind, run_get. destruct (b && _); [|by apply run_throw, HR]. apply run_put, HQ; [|done|done].
  eapply like_trans; [exact Hl|apply like_files].
Qed.

Lemma run_store_new_object s p y o db x t k head S (Q : unit → ta → Prop) (R P : ta → Prop) :
  like (pending s p y o db x) S → uuid x = None → token_good S t k →
  (∀ u S', like (pending s p y o db (Object (link x) (attributes x) (Some u))) S' → Q tt S') →
  (∀ u S', like (pending s p y o db (Object (link x) (attributes x) u)) S' → R S') → run (store_new_object t o head) Q R P S.
Proof.
  intros Hl Hx Hg HQ HR. apply run_seq, (run_create_object_uuid s p y o db x t k); [done..| |].
  - intros u S1 Hl1 Hg1 Hn. apply run_bind, (run_read_object _ (Object (link x) (attributes x) (Some u))); [by eapply pending_object|].
    apply run_bind, (run_find _ u); [done|]. apply run_seq, run_create_object_file.
    + intros S2 Hl2 Ht2 Hs2. pose proof (like_trans _ _ _ Hl1 Hl2) as Hl3. apply (run_register t u k); [unfold token_good; by rewrite Ht2, Hs2|done| |].
      * intros S3 Hl4. apply (HQ u). by eapply like_trans.
      * intros S3 Hl4. apply (HR (Some u)). by eapply like_trans.
    + intros S2 Hl2. apply (HR (Some u)). by eapply like_trans.
  - intros S' Hl'. apply (HR (uuid x)). by destruct x.
Qed.

(** An object that is in no list cannot be taken out of one. *)
Lemma run_cleanup_unlinked o t k x (Q : unit → ta → Prop) (R P : ta → Prop) S : objects S !! o = Some x → link x = None →
  tokens S !! Z.to_nat t = Some k → (∀ S', stored S' = stored S → P S') → run (cleanup_persistent_object o t) Q R P S.
Proof.
  intros Hx Hlx Hk HP. apply run_bind, (run_read_object _ x); [done|]. apply run_seq.
  assert (∀ S', objects S' = objects S → tokens S' = tokens S → stored S' = stored S →
    run (destroy_object_uuid t o;; unlink_object o;; cleanup_volatile_obj_ref o) Q R P S') as Hrest.
  { intros S' Ho Ht Hst. apply run_seq, run_bind, (run_read_object _ x); [by rewrite Ho|]. apply run_bind, (run_read_token _ k); [by rewrite Ht|].
    apply run_seq, run_assert; intros _; [|by apply HP]. apply run_bind, run_get, run_put, run_seq.
    apply run_bind, (run_read_object _ (Object (link x) (attributes x) None)); [apply lookup_insert_eq|]. cbn. rewrite Hlx. by apply run_panic, HP. }
  apply run_bind, run_next_store. intros b S1 (e & -> & _) _.
  destruct (uuid x) as [u|]; [destruct b|]; [apply run_bind, run_get, run_put|apply run_ret..]; by apply Hrest.
Qed.

Lemma pending_token s p y o db x S t k : inv s → sessions s !! p = Some y → t = token y → like (pending s p y o db x) S → tokens s !! Z.to_nat t = Some k →
  ∃ k', token_good S t k'.
Proof.
  intros Hs Hy -> Hl Hk. apply (token_good_like _ _ _ k Hl). destruct (i_token s Hs _ _ Hk) as [(objs & Hst & _) Huu _ _ _ _ _].
  split; [done|]. split; [done|by exists (db_main k), objs].
Qed.

Lemma run_insert_session_object s p y o db x S (Q : unit → ta → Prop) (R P : ta → Prop) : like (pending s p y o db x) S →
  (∀ F, like (inserted s p y o (Object (Some (InSession p)) (attributes x) (uuid x)) db) F → Q tt F) → run (insert_session_object p o) Q R P S.
Proof.
  intros Hl HQ. apply run_bind, (run_read_object _ x); [by eapply pending_object|]. apply run_seq, run_bind, run_get, run_put.
  apply run_bind, (run_read_session _ (set_session_objects y (session_objects y) db)); [exact (pending_session _ _ _ _ _ _ _ Hl)|].
  apply run_bind, run_get, run_put, HQ. destruct Hl as [L1 L2 (E1 & E2 & E3 & E4) L4 L5 L6]. split; try done.
  split; [done|]. split; [done|]. cbn. rewrite E3, E4. cbn. by rewrite !insert_insert_eq.
Qed.

Lemma run_insert_token_object s p y o db x S t (Q : unit → ta → Prop) (R P : ta → Prop) : like (pending s p y o db x) S → is_Some (tokens s !! Z.to_nat t) →
  (∀ F, like (inserted s p y o (Object (Some (OnToken t)) (attributes x) (uuid x)) db) F → Q tt F) → run (insert_token_object t o) Q R P S.
Proof.
  intros Hl [k0 Hk0] HQ. destruct (like_token_l _ _ _ _ Hl Hk0) as (k & Hk & Hf).
  apply run_bind, (run_read_object _ x); [by eapply pending_object|]. apply run_seq, run_bind, run_get, run_put.
  apply run_bind, (run_read_token _ k); [done|]. apply run_bind, run_get, run_put, HQ.
  destruct Hl as [L1 L2 (E1 & E2 & E3 & E4) L4 L5 L6]. cbn in Hk0.
  split; try done; cbn [inserted link tokens set_tokens set_objects set_sessions].
  - change (Token _ _ _ _ _ _) with (add_object o k). rewrite <- (alter_as_insert (add_object o) _ _ _ Hk). apply list_eq. intros i. rewrite !list_lookup_fmap, !list_lookup_alter.
    pose proof (f_equal (.!! i) L1) as Hi. cbn in Hi. rewrite !list_lookup_fmap in Hi. case_decide as He; [|done].
    rewrite He in *. rewrite Hk, Hk0 in *. cbn in *. f_equal. injection Hi as J1 J2 J3 J4 J5. unfold forget, add_object. cbn. congruence.
  - cbn. split; [done|]. split; [done|]. split; [done|]. rewrite E4. apply insert_insert_eq.
  - intros i k1 k' Hk1 Hk' Hnd. rewrite list_lookup_alter in Hk1. destruct (decide (Z.to_nat t = i)) as [<-|He].
    + rewrite Hk0 in Hk1. injection Hk1 as <-. rewrite list_lookup_insert_eq in Hk' by (by eapply lookup_lt_Some). injection Hk' as <-.
      by apply (L5 (Z.to_nat t) k0 k).
    + rewrite list_lookup_insert_ne in Hk' by done. by apply (L5 i k1 k').
Qed.

(** The error path: it works for objects of a session only. *)
Lemma run_create_object_err s p y o x h head rc b S (Q : Z → ta → Prop) (R P : ta → Prop) : inv s → sessions s !! p = Some y → objects s !! o = None →
  (∃ db, like (pending s p y o db x) S) → link x = None → get_bool head PKCS11_CKA_TOKEN = Ok b →
  (b = false → h = 0 ∧ ∀ S', like s S' → R S') → (b = true → ∀ S', stored_kept s S' → P S') → (b = false → like (pending s p y o (object_handle_db y) x) S) →
  run (create_object_err p o h head rc) Q R P S.
Proof.
  intros Hs Hy Ho [db Hl] Hlx Hb HR HP Hsame. apply run_bind, (run_read_object _ x); [by eapply pending_object|].
  apply run_seq, run_bind, run_get, run_put. apply run_bind, (run_read_session _ (set_session_objects y (session_objects y) db)); [exact (pending_session _ _ _ _ _ _ _ Hl)|].
  apply run_seq, run_bind, run_get, run_put, run_bind. unfold lift_o, run at 1. rewrite Hb. destruct b.
  - apply run_seq. destruct (i_session s Hs _ _ Hy) as [_ Ht _ _].
    destruct (lookup_lt_is_Some_2 (tokens s) (Z.to_nat (token y))) as [k0 Hk0]; [rewrite (i_tokens s Hs); lia|].
    destruct (like_token_l _ _ _ _ Hl Hk0) as (k & Hk & _).
    apply (run_cleanup_unlinked _ _ k (Object (link x) None (uuid x))); [apply lookup_insert_eq|done|done|].
    intros S' Hst. apply (HP eq_refl). eapply stored_kept_trans; [by apply (like_stored_kept _ _ Hl)|]. by apply stored_kept_eq.
  - destruct (HR eq_refl) as [-> HR']. specialize (Hsame eq_refl). apply run_seq, run_bind, run_get, run_put, run_throw, HR'.
    destruct Hsame as [L1 L2 (E1 & E2 & E3 & E4) L4 L5 L6].
    destruct (lk_rest _ _ Hl) as (_ & _ & G3 & _). assert (db = object_handle_db y) as ->.
    { pose proof (f_equal (.!! p) E3) as He. cbn in He. rewrite G3 in He. cbn in He. rewrite !lookup_insert_eq in He. by injection He. }
    split; try done. split; [done|]. split; [done|]. split.
    + cbn. rewrite E3. cbn. rewrite insert_insert_eq. apply insert_id. rewrite Hy. by destruct y.
    + cbn. rewrite E4. cbn. rewrite insert_insert_eq. by apply delete_insert_id.
Qed.

Lemma run_create_object s p y head b why (Q : Z → ta → Prop) (R P : ta → Prop) : inv s → sessions s !! p = Some y →
  get_bool head PKCS11_CKA_TOKEN = Ok b → (b = true → why) →
  (∀ h s', step_to nobody s s' → Q h s') → (∀ s', step_to nobody s s' → R s') → (∀ s', fault why s s' → P s') → run (create_object p head) Q R P s.
Proof.
  intros Hs Hy Hb Hwhy HQ HR HP. destruct (i_next s Hs) as (N1 & N2 & N3). set (o := next_ptr s).
  assert (objects s !! o = None) as Ho by (destruct (objects s !! o) eqn:He; [|done]; specialize (N3 o (mk_is_Some _ _ He)); unfold o in *; lia).
  destruct (i_objects s Hs _ _ Hy) as [_ Hwf _ _].
  unfold create_object. apply run_bind. unfold create_obj_instance. apply run_bind, run_malloc; intros s1 Hu1.
  { apply run_ret, run_throw, HR. by eapply step_to_used; [apply step_to_refl|]. }
  pose proof (like_trans _ _ _ (like_used _ _ Hu1) (like_next s1)) as Hl1. destruct Hu1 as (e & -> & _). cbn [next_ptr set_env] in Hl1. fold o in Hl1 |- *.
  set (s0 := set_next (set_env s e) (o + 1)) in *. pose proof (inv_like _ _ Hl1 Hs) as Hs0.
  apply run_seq, run_bind, run_get, run_put, run_ret. fold s0.
  apply run_bind, (run_read_session _ y); [done|]. apply run_bind, run_next_mem. intros mem s2 (e2 & -> & _).
  destruct (handle_get (Some (object_handle_db y)) o mem) as [h db] eqn:Hget. apply run_seq, run_bind, run_get, run_put.
  set (x := Object None (Some head) None). set (S := set_sessions _ _).
  assert (like (pending s0 p y o (default (object_handle_db y) db) x) S) as HS by (destruct (like_refl (pending s0 p y o (default (object_handle_db y) db) x)) as [M1 M2 M3 M4 M5 M6]; by split).
  assert (∀ S', like s0 S' → step_to nobody s S') as Hstep by (intros; eapply like_step; [exact Hs|by eapply like_trans]).
  assert (b = true → ∀ S', stored_kept s0 S' → P S') as HPk by (intros Hbt S' Hk; apply HP; split; [done|right; by apply Hwhy]).
  destruct (pkcs11_handle_get_cases _ _ _ _ _ Hwf Hget) as [(-> & -> & _)|(n & db1 & -> & Hn1 & Hp & -> & Hwf1 & Hfree & Htab)].
  { apply (run_create_object_err s0 p y o x _ _ _ b); try done; [by eexists|]. intros _. split; [done|]. intros S' HS'. by apply HR, Hstep. }
  rewrite (proj2 (Z.eqb_neq _ _)) by lia. cbn [default] in HS.
  apply run_bind. unfold lift_o, run at 1. rewrite Hb.
  assert (∀ lk u, (b = false ∧ lk = InSession p ∨ b = true ∧ lk = OnToken (token y) ∧ is_Some u) → inserting s0 p y o (Object (Some lk) (Some head) u) db1) as Hins.
  { intros lk u Hlk. split; [done|done|unfold s0, o; cbn; lia|by split; [|exists n]| |].
    - exists head. split; [done|]. rewrite Hb. by destruct Hlk as [[-> ->]|(-> & -> & _)].
    - destruct Hlk as [[_ ->]|(_ & -> & Hu)]; [by left|by right]. }
  assert (∀ x' F, inserting s0 p y o x' db1 → like (inserted s0 p y o x' db1) F → step_to nobody s F) as Hdone.
  { intros x' F Hi HF. eapply step_to_trans; [apply Hstep, like_refl|]. eapply step_to_trans; [by apply inserted_step|]. eapply like_step; [by apply inv_inserted|done]. }
  destruct b.
  - destruct (i_session s Hs _ _ Hy) as [_ Ht _ _].
    destruct (lookup_lt_is_Some_2 (tokens s0) (Z.to_nat (token y))) as [k0 Hk0]; [rewrite (i_tokens s0 Hs0); lia|].
    destruct (pending_token s0 p y o db1 x S (token y) k0) as [k Hg]; [done..|].
    apply run_bind, run_try. apply (run_store_new_object s0 p y o db1 x _ k); [done..| |].
    + intros u S1 HS1. apply run_seq, (run_insert_token_object s0 p y o db1 _ _ _ _ _ _ HS1); [by eexists|]. intros F HF. apply run_ret, HQ.
      eapply Hdone; [|exact HF]. apply Hins. right. done.
    + intros u S1 HS1 rc. apply (run_create_object_err s0 p y o (Object (link x) (attributes x) u) _ _ _ true); try done. by eexists.
  - apply run_seq, (run_insert_session_object s0 p y o db1 x); [done|]. intros F HF. apply run_ret, HQ.
    eapply Hdone; [|exact HF]. apply Hins. by left.
Qed.

(** ** destroy_object() *)

Lemma remove_twice l (o : Z) : remove (remove l o) o = remove l o.
Proof. apply filter_all. intros x Hx. by apply elem_of_remove in Hx as [? _]. Qed.

(** The object is off the list of its token [t]. *)
Definition unlinked (s : ta) (o : Z) : ta := set_tokens s (drop_object o <$> tokens s).

Lemma unlinked_token s o t k x : inv s → tokens s !! Z.to_nat t = Some k → 0 <= t → objects s !! o = Some x → link x = Some (OnToken t) →
  set_tokens s (<[Z.to_nat t := drop_object o k]> (tokens s)) = unlinked s o.
Proof.
  intros Hs Hk Ht Hx Hl. unfold unlinked. f_equal. apply list_eq. intros i. rewrite list_lookup_fmap.
  destruct (decide (i = Z.to_nat t)) as [->|Hi]; [by rewrite list_lookup_insert_eq, Hk by (by eapply lookup_lt_Some)|].
  rewrite list_lookup_insert_ne by done. destruct (tokens s !! i) as [k'|] eqn:Hk'; [|done]. cbn. f_equal.
  unfold drop_object. replace (remove (token_objects k') o) with (token_objects k'); [by destruct k'|].
  symmetry. apply filter_all. intros o' Ho' ->. destruct (to_objects _ _ _ (i_token s Hs _ _ Hk') o Ho') as (x' & Hx' & Hl' & _). apply Hi.
  rewrite Hx' in Hx. injection Hx as ->. rewrite Hl' in Hl. injection Hl as <-. by rewrite Nat2Z.id.
Qed.

Lemma run_put_object_handle p y o db (Q : unit → ta → Prop) (R P : ta → Prop) S : sessions S !! p = Some y →
  snd (handle_put (Some (object_handle_db y)) (handle_lookup_handle (object_handle_db y) o)) = Some db →
  Q tt (set_sessions S (<[p := set_session_objects y (session_objects y) db]> (sessions S))) → run (put_object_handle p o) Q R P S.
Proof.
  intros Hy Hput HQ. apply run_bind, (run_read_session _ y); [done|]. cbv zeta. rewrite Hput. by apply run_bind, run_get, run_put.
Qed.

(** The end of destroy_object() for an object of a token. *)
Lemma run_cleanup_gone s p y o x t u k1 db (Q : unit → ta → Prop) (R P : ta → Prop) S :
  objects s !! o = Some x → link x = Some (OnToken t) → uuid x = Some u → session_objects y = remove (session_objects y) o →
  like (unlinked s o) S → token_good S t k1 → u ∉ db_objs k1 →
  (∀ F, like (object_gone s p y o db) F → Q tt F) →
  run (cleanup_persistent_object o t) Q R P (set_sessions S (<[p := set_session_objects y (session_objects y) db]> (sessions S))).
Proof.
  intros Hx Hlx Hu Hly Hl (Hk1 & Hnd & Hst) Hn HQ. destruct Hl as [L1 L2 (E1 & E2 & E3 & E4) L4 L5 L6].
  apply run_bind, (run_read_object _ x); [cbn; by rewrite E4|]. rewrite Hu. apply run_seq.
  assert (∀ S', tokens S' = tokens S → client_list S' = client_list S → clients S' = clients S → objects S' = objects S → stored S' = stored S → next_ptr S' = next_ptr S →
    sessions S' = <[p := set_session_objects y (session_objects y) db]> (sessions S) →
    run (destroy_object_uuid t o;; unlink_object o;; cleanup_volatile_obj_ref o) Q R P S') as Hrest.
  { intros S' T1 T2 T3 T4 T5 T6 T7. apply run_seq, run_bind, (run_read_object _ x); [by rewrite T4, E4|].
    apply run_bind, (run_read_token _ k1); [by rewrite T1|]. rewrite Hu.
    apply run_seq, run_assert; [intros _|by rewrite (proj2 (obj_idx_None k1 u) Hn), bool_decide_true].
    apply run_bind, run_get, run_put, run_seq, run_bind, (run_read_object _ (Object (link x) (attributes x) None)); [apply lookup_insert_eq|].
    cbn [link]. rewrite Hlx. apply run_bind, (run_read_token _ k1); [cbn; by rewrite T1|]. apply run_bind, run_get, run_put.
    change (Token _ _ _ _ _ _) with (drop_object o k1). apply run_bind, run_get, run_put, HQ. split; cbn.
    - rewrite T1. transitivity (forget <$> tokens S); [|exact L1]. apply list_eq. intros i. rewrite !list_lookup_fmap. destruct (decide (i = Z.to_nat t)) as [->|Hi].
      + rewrite list_lookup_insert_eq by (by eapply lookup_lt_Some). rewrite Hk1. cbn. f_equal.
        pose proof (f_equal (.!! Z.to_nat t) L1) as He. cbn in He. rewrite !list_lookup_fmap, Hk1 in He.
        destruct (tokens s !! Z.to_nat t) as [k|]; [|done]. cbn in He. injection He as J1 J2 J3 J4 J5.
        unfold forget, drop_object. cbn. by rewrite J4, remove_twice.
      + by rewrite list_lookup_insert_ne by done.
    - by rewrite T5.
    - rewrite T2, T3, T7, T4, E1, E2, E3, E4. cbn. split; [done|]. split; [done|]. split; [by rewrite Hly at 1|]. by rewrite delete_insert_eq.
    - by rewrite T6.
    - intros i k k' Hk Hk' Hnd0. rewrite T1 in Hk'. destruct (decide (i = Z.to_nat t)) as [->|Hi].
      + rewrite list_lookup_insert_eq in Hk' by (by eapply lookup_lt_Some). by injection Hk' as <-.
      + rewrite list_lookup_insert_ne in Hk' by done. by apply (L5 i k k').
    - intros i m o1 m' o2. rewrite T5. apply L6. }
  apply run_bind, run_next_store. intros b S1 (e & -> & _) _. destruct b; [apply run_bind, run_get, run_put|apply run_ret]; by apply Hrest.
Qed.

Lemma gone_step A s p y o db : inv s → sessions s !! p = Some y → owned_by s p o → without (object_handle_db y) db o →
  step_to A s (object_gone s p y o db).
Proof.
  intros Hs Hy Hown Hdb. split; [by apply inv_object_gone|by apply stored_kept_eq|]. intros q z Hz _.
  destruct (gone_session _ _ _ _ _ _ _ Hz Hy) as (z0 & Hz0 & E1 & E2 & _ & E4 & _). left. exists q, z0. by rewrite (login_state _ _ E4).
Qed.

Lemma unlinked_kept s o S : like (unlinked s o) S → stored_kept s S.
Proof. intros Hl. eapply stored_kept_trans; [|by apply (like_stored_kept _ _ Hl)]. by apply stored_kept_eq. Qed.

(** The UUID is taken off the token, at the second attempt if need be. *)
Lemma run_unregister_twice s o t u k (Q : unit → ta → Prop) (R P : ta → Prop) S : like (unlinked s o) S → token_good S t k →
  (∀ S' k', like (unlinked s o) S' → token_good S' t k' → u ∉ db_objs k' → Q tt S') → (∀ S', stored_kept s S' → P S') →
  run (r ← mtry (unregister_persistent_object t (Some u));
       match r with
       | inr _ => mret ()
       | inl _ =>
         r ← mtry (unregister_persistent_object t (Some u));
         match r with inr _ => mret () | inl _ => mpanic end
       end) Q R P S.
Proof.
  intros Hl Hg HQ HP. apply run_bind, run_try, (run_unregister t u k); [done| |].
  - intros S1 k1 Hl1 Hg1 Hn. apply run_ret. apply (HQ S1 k1); [by eapply like_trans|done..].
  - intros S1 Hl1 _. destruct (token_good_like _ _ _ _ Hl1 Hg) as [k1 Hg1]. apply run_bind, run_try, (run_unregister t u k1); [done| |].
    + intros S2 k2 Hl2 Hg2 Hn. apply run_ret. apply (HQ S2 k2); [|done..]. eapply like_trans; [exact Hl|by eapply like_trans].
    + intros S2 Hl2 _. apply run_panic, HP, (unlinked_kept s o). eapply like_trans; [exact Hl|by eapply like_trans].
Qed.

Lemma run_destroy_object s p y h o x (why : Prop) (Q : unit → ta → Prop) (R P : ta → Prop) : inv s → sessions s !! p = Some y →
  db_table (object_handle_db y) !! h = Some o → objects s !! o = Some x → ((∃ t, link x = Some (OnToken t)) → why) →
  (∀ s', step_to nobody s s' → Q tt s') → (∀ s', fault why s s' → P s') → run (destroy_object p o) Q R P s.
Proof.
  intros Hs Hy Hh Hx Hwhy HQ HP. destruct (i_objects s Hs _ _ Hy) as [O1 O2 O3 O4].
  destruct (O4 h o Hh) as (x' & Hx' & (a & Ha & Hbool) & Hcase). rewrite Hx in Hx'. injection Hx' as <-.
  pose proof (owned_by_handle _ _ _ _ _ Hs Hy Hh) as Hown. destruct (i_next s Hs) as (_ & _ & N3). pose proof (N3 o (mk_is_Some _ _ Hx)) as Hpos.
  destruct (put_handle_without (object_handle_db y) o O2) as (db & Hput & Hwo); [lia|intros j j'; by apply (i_object_handles s Hs p p)|].
  pose proof (gone_step nobody s p y o db Hs Hy Hown Hwo) as Hgone.
  apply run_bind, (run_read_object _ x); [done|]. destruct Hcase as [[Hl Hin]|[Hl (k & Hk & Hin)]]; rewrite Hl in Hbool |- *.
  - apply run_seq, run_bind, (run_read_object _ x); [done|]. rewrite Hl. apply run_bind, (run_read_session _ y); [done|]. apply run_bind, run_get, run_put.
    apply run_bind. unfold object_bool. apply run_bind, (run_find _ a); [done|]. unfold lift_o, run at 1. rewrite Hbool.
    apply run_seq, (run_put_object_handle p (set_session_objects y (remove (session_objects y) o) (object_handle_db y)) o db); [apply lookup_insert_eq|exact Hput|].
    apply run_bind, run_get, run_put, HQ.
    set (s' := set_objects _ _). assert (s' = object_gone s p y o db) as ->; [|done].
    unfold s', object_gone, set_sessions, set_objects, set_tokens. cbn. rewrite insert_insert_eq. f_equal. symmetry. apply drop_unlisted; [done|].
    intros i k Hk Hin'. destruct (to_objects _ _ _ (i_token s Hs _ _ Hk) o Hin') as (x' & Hx' & Hlx & _). congruence.
  - destruct (i_session s Hs _ _ Hy) as [_ Ht _ _]. pose proof (i_token s Hs _ _ Hk) as Hto.
    destruct (to_objects _ _ _ Hto o Hin) as (x' & Hx' & _ & [u Hu]). rewrite Hx in Hx'. injection Hx' as <-.
    apply run_seq, run_bind, (run_read_object _ x); [done|]. rewrite Hl. apply run_bind, (run_read_token _ k); [done|]. apply run_bind, run_get, run_put.
    change (Token _ _ _ _ _ _) with (drop_object o k). rewrite (unlinked_token s o (token y) k x) by (done || lia).
    apply run_bind. unfold object_bool. apply run_bind, (run_find _ a); [done|]. unfold lift_o, run at 1. rewrite Hbool.
    rewrite Hu. apply run_seq, run_assert; [intros _|done]. apply run_bind, (run_read_session _ y); [done|].
    assert (token_good (unlinked s o) (token y) (drop_object o k)) as Hg.
    { destruct Hto as [(objs & Hst & _) Huu _ _ _ _ _]. split; [cbn; by rewrite list_lookup_fmap, Hk|]. split; [done|by exists (db_main k), objs]. }
    assert (session_objects y = remove (session_objects y) o) as Hly.
    { symmetry. apply filter_all. intros o' Ho' ->. destruct (O3 o Ho') as (x' & Hx' & Hl'). congruence. }
    apply run_bind_assoc, run_seq, (run_unregister_twice s o _ u (drop_object o k)); [apply like_refl|done| |].
    + intros S k1 HlS HgS Hn. apply run_seq, (run_put_object_handle p y o db); [|done|].
      { destruct (lk_rest _ _ HlS) as (_ & _ & -> & _). done. }
      apply (run_cleanup_gone s p y o x _ u k1 db); [done..|]. intros F HF. apply HQ.
      eapply step_to_trans; [exact Hgone|]. eapply like_step; [apply (st_inv _ _ _ Hgone)|done].
    + intros S HS. apply HP. split; [done|right]. by apply Hwhy; eexists.
Qed.

(** ** The commands *)

Lemma run_lift_or {A} (F : Prop) (m : T A) Q' R' (Q : A → ta → Prop) (R P : ta → Prop) s : safe_or F m Q' R' →
  (∀ a s', used s s' → Q' a → (∃ fs, (m fs).1 = Ok a) → Q a s') → (∀ s', used s s' → R s') → (∀ s', used s s' → F → P s') →
  run (lift_t m) Q R P s.
Proof.
  intros Hm HQ HR HP. unfold lift_t, run. specialize (Hm (e_mem (env s))). unfold wpp in Hm.
  destruct (m (e_mem (env s))) as [[a|e|] fs] eqn:He; [|apply HR; by eexists|by apply HP; [eexists|]].
  apply HQ; [by eexists|done|]. exists (e_mem (env s)). by rewrite He.
Qed.

Lemma run_lift_t {A} (m : T A) Q' R' (Q : A → ta → Prop) (R P : ta → Prop) s : safe m Q' R' →
  (∀ a s', used s s' → Q' a → (∃ fs, (m fs).1 = Ok a) → Q a s') → (∀ s', used s s' → R s') → run (lift_t m) Q R P s.
Proof.
  intros Hm HQ HR. apply (run_lift_or False m Q' R'); [|done|done|done]. intros fs. apply wpp_wp, Hm.
Qed.

(** The command asks for an object on the token. *)
Definition wants_token_object (c : call) : Prop := ∃ h template l fs, ctrl c = le32 h ++ template ∧
  (create_attributes_from_template true template fs).1 = Ok (Some (obj l)) ∧ bool_of PKCS11_CKA_TOKEN l = true.

(** The command carries a template that is refused, and whose trace reads outside of it. *)
Definition traces_outside (c : call) : Prop := ∃ h template, ctrl c = le32 h ++ template ∧ outside_of template.

Lemma run_get_attributes a (Q : _ → ta → Prop) (R P : ta → Prop) s : args_good a →
  (∀ template a' s', used s s' → args_good a' → bytes_ok template → Z.of_nat (length template) < 2 ^ 62 → rest a = template ++ rest a' → Q (template, a') s') →
  (∀ s', used s s' → R s') → run (lift_t (serialargs_alloc_get_attributes a)) Q R P s.
Proof.
  intros [Ha Hb] HQ HR. pose proof (head_at_range 0 (rest a) ltac:(lia) Hb) as Hn.
  eapply run_lift_t; [apply (alloc_get_sized_ok a 0 Ha Hb); lia| |done]. cbv zeta. set (n := 8 + head_at 0 (rest a)) in *.
  intros [template a'] s' Hu (Hl & Ht & Ha' & Hr) _. cbn [fst snd] in *. subst template. apply HQ; [done| |by apply Forall_take| |by rewrite Hr, take_drop].
  - split; [done|]. rewrite Hr. by apply Forall_drop.
  - rewrite length_take. unfold n in *. lia.
Qed.

Lemma create_object_keeps cl c x s : inv s → call_ok c → clients s !! cl = Some x →
  keeps (entry_create_object cl c) nobody (wants_token_object c ∨ traces_outside c) s.
Proof.
  intros Hs Hc Hx. unfold keeps, entry_create_object.
  assert (∀ s', used s s' → step_to nobody s s') as Hused by (intros; by eapply step_to_used; [apply step_to_refl|]).
  destruct (_ || _); [by apply run_throw, Hused, used_refl|].
  apply run_bind, run_arg_u32; [by apply init_good| |apply Hused, used_refl]. intros h a Ha Hh Hr0. rewrite init_rest in Hr0.
  apply run_bind, run_get_attributes; [done| |done]. intros template a1 s1 Hu1 Ha1 Hbt Hlt Hr1.
  apply run_seq, run_no_more; [done| |by apply Hused]. intros Hr2. rewrite Hr1, Hr2, app_nil_r in Hr0.
  pose proof (inv_used _ _ Hu1 Hs) as Hs1. assert (clients s1 !! cl = Some x) as Hx1 by (by destruct Hu1 as (e & -> & _)).
  apply run_bind, (run_handle2session _ _ x); [done|done|lia|]. intros p Hp.
  destruct (Z.eqb_spec p 0) as [|Hne]; [by apply run_throw, Hused|]. destruct (Hp Hne) as (y & Hy & Hcl & _).
  apply run_bind. eapply run_lift_or; [by apply (created_checks true)| |intros s2 Hu2; apply Hused; by eapply used_trans|].
  2: { intros s2 Hu2 [_ Ho]. split; [by apply (st_stored _ _ _ (Hused _ (used_trans _ _ _ Hu1 Hu2)))|]. do 2 right. by exists h, template. }
  intros r s2 Hu2 (l & -> & Hbool & Hproc & Htok) [fs Hfs]. pose proof (used_trans _ _ _ Hu1 Hu2) as Hu.
  apply run_bind, (run_find _ (obj l)); [done|]. apply run_seq. unfold lift_o at 1, run at 1. rewrite Hproc.
  assert (sessions s2 !! p = Some y) as Hy2 by (by destruct Hu2 as (e & -> & _)).
  apply run_bind, (run_read_session _ y); [done|]. apply run_seq. unfold lift_o at 1, run at 1.
  destruct (check_created_attrs_against_token _ _ (obj l)) as [[]|e|] eqn:Hchk.
  - pose proof (Hused _ Hu) as Hst. apply run_bind, (run_create_object s2 p y (obj l) (bool_of PKCS11_CKA_TOKEN l) (wants_token_object c)).
    + by apply (inv_used _ _ Hu).
    + done.
    + done.
    + intros Ht. by exists h, template, l, fs.
    + intros h' s' Hs'. apply run_ret. by eapply step_to_trans.
    + intros s' Hs'. by eapply step_to_trans.
    + intros s' [Hk Hw]. split; [eapply stored_kept_trans; [by apply (st_stored _ _ _ Hst)|done]|].
      destruct Hw as [Hw|]; [left|by right; left]. intros Hws. apply Hw. by eapply used_works.
  - by apply Hused.
  - rewrite Htok in Hchk. by repeat case_match.
Qed.

(** A handle of the client names an object on a token. *)
Definition names_token_object (s : ta) (cl : Z) : Prop := ∃ p y h o x t, sessions s !! p = Some y ∧ client y = cl ∧
  db_table (object_handle_db y) !! h = Some o ∧ objects s !! o = Some x ∧ link x = Some (OnToken t).

Lemma destroy_object_keeps cl c x s : inv s → call_ok c → clients s !! cl = Some x →
  keeps (entry_destroy_object cl c) nobody (names_token_object s cl) s.
Proof.
  intros Hs Hc Hx. pose proof (step_to_refl nobody s Hs) as Hrefl. unfold keeps, entry_destroy_object.
  destruct (negb (good_types c)); [by apply run_throw|].
  apply run_bind, run_arg_u32; [by apply init_good| |done]. intros h a Ha Hh _. apply run_bind, run_arg_u32; [done| |done]. intros oh a1 Ha1 Hoh _.
  apply run_seq, run_no_more; [done| |done]. intros _. apply run_bind, (run_handle2session _ _ x); [done|done|lia|]. intros p Hp.
  destruct (Z.eqb_spec p 0) as [|Hne]; [by apply run_throw|]. destruct (Hp Hne) as (y & Hy & Hcl & _).
  apply run_bind, (run_read_session _ y); [done|]. cbv zeta. destruct (i_objects s Hs _ _ Hy) as [_ Hwf _ O4].
  destruct (Z.eqb_spec (handle_lookup (Some (object_handle_db y)) oh) 0) as [|Hno]; [by apply run_throw|].
  pose proof (handle_lookup_table _ _ Hwf (proj1 Hoh) Hno) as Ho. destruct (O4 _ _ Ho) as (ob & Hob & _).
  apply run_seq, (run_destroy_object s p y (Z.to_nat oh) _ ob (names_token_object s cl)); [done..| | |done].
  - intros [t Ht]. by exists p, y, (Z.to_nat oh), (handle_lookup (Some (object_handle_db y)) oh), ob, t.
  - intros s' Hs'. by apply run_ret.
Qed.
End store.
