(* ===== verification/Pkcs11Ta.v ===== *)
(** * The PKCS#11 TA as a whole (entry.c, the start of persistent_token.c)

    How the TA starts from the storage, takes a command and ends, and the steps of the
    system: commands with whatever environment, the TA stopped between two commands or
    by a panic, and started again on what the storage has. *)
From stdpp Require Import relations.
From S2P Require Import Prelude HandleSpec Pkcs11Handle Pkcs11Attr Pkcs11Token Pkcs11Store.

Local Open Scope Z_scope.

Abbreviation PKCS11_CKFT_RNG := (2 ^ 0).
Abbreviation PKCS11_CKFT_LOGIN_REQUIRED := (2 ^ 2).
Abbreviation PKCS11_CKFT_DUAL_CRYPTO_OPERATIONS := (2 ^ 9).

Section ta.
Context `{Heap}.
Variable sha256 : list Z → list Z.

(** ** Start *)

(** The main database of a new token: label of 32 asterisks. *)
Definition new_main : token_persistent_main :=
  Main (replicate 32 42)
    (lors [PKCS11_CKFT_SO_PIN_TO_BE_CHANGED; PKCS11_CKFT_USER_PIN_TO_BE_CHANGED; PKCS11_CKFT_RNG;
           PKCS11_CKFT_DUAL_CRYPTO_OPERATIONS; PKCS11_CKFT_LOGIN_REQUIRED])
    0 0 (replicate 64 0) 0 0 (replicate 64 0).

Definition set_db (t : Z) (m : token_persistent_main) (l : list Z) : K unit :=
  k ← read_token t; write_token t (Token (tk_state k) (session_count k) (rw_session_count k) (token_objects k) m l).

(** One object without attributes per UUID; false: no memory. *)
Fixpoint load_objects (t : Z) (l : list Z) : K bool :=
  match l with
  | [] => mret true
  | u :: l =>
    p ← ta_malloc 16;
    match p with
    | None => mret false
    | Some _ =>
      p ← create_obj_instance None (Some u);
      match p with
      | None => mpanic
      | Some o => insert_token_object t o;; load_objects t l
      end
    end
  end.

(** The database is there: read it. *)
Definition load_db (t : Z) (m : token_persistent_main) (objs : option (list Z)) : K bool :=
  ok ← next_store;
  match objs with
  | Some l =>
    if negb ok then mpanic
    else
      p ← ta_malloc (4 + Z.of_nat (length l) * 16);
      match p with
      | None => mret false
      | Some _ =>
        ok ← next_store;
        if negb ok then mpanic
        else
          r ← load_objects t l;
          if (r : bool) then set_db t m l;; mret true else mret false
      end
  | None => mpanic
  end.

(** The database is not there: write a new one, first the main part. *)
Definition init_db (t : Z) : K bool :=
  ok ← next_store;
  if negb ok then mret false
  else
    s ← mget;
    mput (set_stored s (<[Z.to_nat t := Some (new_main, None)]> (stored s)));;
    ok ← next_store;
    if negb ok then mpanic
    else store_objs t [];; set_db t new_main [];; mret true.

(** true: the token; false: NULL. *)
Definition init_persistent_db (t : Z) : K bool :=
  k ← read_token t;
  write_token t (Token (tk_state k) (session_count k) (rw_session_count k) [] (db_main k) (db_objs k));;
  a ← ta_malloc 184;
  b ← ta_malloc 4;
  match a, b with
  | Some _, Some _ =>
    opened ← next_store;
    if negb opened then mret false
    else
      s ← mget;
      match stored s !! Z.to_nat t with
      | Some (Some (m, objs)) => load_db t m objs
      | _ => init_db t
      end
  | _, _ => mret false
  end.

Definition pkcs11_token_init (t : Z) : K tee_result :=
  r ← init_persistent_db t;
  if negb r then mret TEE_ERROR_SECURITY
  else
    k ← read_token t;
    (if bool_decide (tk_state k = PKCS11_TOKEN_RESET) then
       write_token t (Token PKCS11_TOKEN_READ_WRITE 0 0 (token_objects k) (db_main k) (db_objs k))
     else mret ());;
    mret TEE_SUCCESS.

Fixpoint token_inits (l : list Z) : K tee_result :=
  match l with
  | [] => mret TEE_SUCCESS
  | t :: l => r ← pkcs11_token_init t; if bool_decide (r = TEE_SUCCESS) then token_inits l else mret r
  end.

Definition pkcs11_init : K tee_result := token_inits (seqZ 0 TOKEN_COUNT).

(** The memory of the TA when it is loaded. *)
Definition boot (db : list (option (token_persistent_main * option (list Z)))) (files : gmap Z (list Z)) (e : environment) : ta :=
  Ta (replicate 3 (Token PKCS11_TOKEN_RESET 0 0 [] (Main [] 0 0 0 [] 0 0 []) [])) [] ∅ ∅ ∅ db files 1 e.

(** ** Commands *)

Definition entry_ping (c : call) : K (list Z) :=
  if negb (good_types c) || negb (Z.of_nat (length (ctrl c)) =? 4) || negb (out_size c =? 12) then mthrow PKCS11_CKR_ARGUMENTS_BAD
  else mret (le32 0 ++ le32 1 ++ le32 0).

(** The bytes of the output; a buffer that is too small is told the size by an error, or
    by success when it is NULL. *)
Definition entry_ck_slot_list (c : call) (null : bool) : K (list Z) :=
  if negb (good_types c) || negb (Z.of_nat (length (ctrl c)) =? 4) then mthrow PKCS11_CKR_ARGUMENTS_BAD
  else if out_size c <? 4 * TOKEN_COUNT then (if null then mret [] else mthrow PKCS11_CKR_BUFFER_TOO_SMALL)
  else mret (le32 0 ++ le32 1 ++ le32 2).

Definition pad_str (str : list Z) (size : nat) : list Z := str ++ replicate (size - length str) 32.

(** struct pkcs11_token_info: label, "Linaro", "OP-TEE TA", the token as 16 digits, the
    flags, counters and limits, versions and time. *)
Definition entry_ck_token_info (c : call) : K (list Z) :=
  if negb (good_types c) || negb (out_size c =? 160) then mthrow PKCS11_CKR_ARGUMENTS_BAD
  else
    '(token_id, args) ← arg_u32 (serialargs_init (ctrl_addr c) (ctrl c));
    no_more args;;
    t ← get_token token_id;
    k ← read_token t;
    let UINT32_MAX := 2 ^ 32 - 1 in
    mret (label (db_main k) ++ pad_str [76; 105; 110; 97; 114; 111] 32 ++ pad_str [79; 80; 45; 84; 69; 69; 32; 84; 65] 16 ++
          (replicate 15 48 ++ [48 + t]) ++ le32 (flags (db_main k)) ++ le32 UINT32_MAX ++ le32 (session_count k) ++ le32 UINT32_MAX ++
          le32 (rw_session_count k) ++ le32 PKCS11_TOKEN_PIN_SIZE_MAX ++ le32 PKCS11_TOKEN_PIN_SIZE_MIN ++
          le32 UINT32_MAX ++ le32 UINT32_MAX ++ le32 UINT32_MAX ++ le32 UINT32_MAX ++ [0; 0] ++ [0; 1] ++ replicate 16 0).

(** The commands modelled here; [SlotList] says whether the output buffer is NULL. *)
Inductive ta_command :=
| Ping | SlotList (null : bool) | TokenInfo | OpenSession | CloseSession | CloseAllSessions | SessionInfo
| InitToken | InitPin | SetPin | Login | Logout | CreateObject | DestroyObject.

Definition entry (cl : Z) (cmd : ta_command) (c : call) : K (list Z) :=
  match cmd with
  | Ping => entry_ping c
  | SlotList null => entry_ck_slot_list c null
  | TokenInfo => entry_ck_token_info c
  | OpenSession => entry_ck_open_session cl c
  | CloseSession => entry_ck_close_session cl c
  | CloseAllSessions => entry_ck_close_all_sessions cl c
  | SessionInfo => entry_ck_session_info cl c
  | InitToken => entry_ck_token_initialize sha256 c
  | InitPin => entry_ck_init_pin sha256 cl c
  | SetPin => entry_ck_set_pin sha256 cl c
  | Login => entry_ck_login sha256 cl c
  | Logout => entry_ck_logout cl c
  | CreateObject => entry_create_object cl c
  | DestroyObject => entry_destroy_object cl c
  end.

(** What a client gets: the result of the TEE and, unless the TEE refused the command,
    a code of the TA, with output if it is PKCS11_CKR_OK. *)
Record answer := Answer { res : tee_result; code : option (pkcs11_rc + list Z) }.

Definition tee_session2client (cl : Z) : K bool := s ← mget; mret (bool_decide (cl ∈ client_list s)).

(** [p0]: parameter 0 is an output or in/out buffer. *)
Definition TA_InvokeCommandEntryPoint (cl : Z) (cmd : ta_command) (c : call) (p0 : bool) : K answer :=
  known ← tee_session2client cl;
  if negb known then mret (Answer TEE_ERROR_SECURITY None)
  else if negb p0 || (Z.of_nat (length (ctrl c)) <? 4) then mret (Answer TEE_ERROR_BAD_PARAMETERS None)
  else
    r ← mtry (entry cl cmd c);
    mret (Answer (match r with inl PKCS11_CKR_BUFFER_TOO_SMALL => TEE_ERROR_SHORT_BUFFER | _ => TEE_SUCCESS end) (Some r)).

Definition TA_OpenSessionEntryPoint : K answer :=
  cl ← register_client;
  mret (Answer (match cl with None => TEE_ERROR_OUT_OF_MEMORY | Some _ => TEE_SUCCESS end) None).

Definition TA_CloseSessionEntryPoint (cl : Z) : K answer :=
  known ← tee_session2client cl;
  (if (known : bool) then unregister_client cl else mret ());;
  mret (Answer TEE_SUCCESS None).

(** ** The system *)

Inductive request := Connect | Disconnect (cl : Z) | Invoke (cl : Z) (cmd : ta_command) (c : call) (p0 : bool).

Definition serve (r : request) : K answer :=
  match r with
  | Connect => TA_OpenSessionEntryPoint
  | Disconnect cl => TA_CloseSessionEntryPoint cl
  | Invoke cl cmd c p0 => TA_InvokeCommandEntryPoint cl cmd c p0
  end.

(** The TA runs, or only the storage is there. *)
Inductive system :=
| Running (s : ta)
| Stopped (db : list (option (token_persistent_main * option (list Z)))) (files : gmap Z (list Z)).

Definition disk (y : system) : list (option (token_persistent_main * option (list Z))) :=
  match y with Running s => stored s | Stopped db _ => db end.

(** The memory that holds a command is where the TA can address it. *)
Definition request_ok (r : request) : Prop :=
  match r with
  | Invoke _ _ c _ => 0 <= ctrl_addr c ∧ ctrl_addr c + Z.of_nat (length (ctrl c)) < 2 ^ 64 ∧ bytes_ok (ctrl c)
  | _ => True
  end.

Inductive step : system → system → Prop :=
| step_serve s e r a s' : request_ok r → serve r (set_env s e) = (Ok a, s') → step (Running s) (Running s')
| step_panic s e r s' : request_ok r → serve r (set_env s e) = (Panicked, s') → step (Running s) (Stopped (stored s') (object_files s'))
| step_stop s : step (Running s) (Stopped (stored s) (object_files s))
| step_start db files e s' : pkcs11_init (boot db files e) = (Ok TEE_SUCCESS, s') → step (Stopped db files) (Running s')
| step_fail db files e r s' : pkcs11_init (boot db files e) = (r, s') → r ≠ Ok TEE_SUCCESS → step (Stopped db files) (Stopped (stored s') (object_files s')).

(** The storage of a device the TA never ran on. *)
Definition factory : system := Stopped (replicate 3 None) ∅.

Definition reachable (y : system) : Prop := rtc step factory y.
End ta.
