(* ===== verification/Pkcs11TaProofs.v ===== *)
(** * The PKCS#11 TA as a whole: its properties

    [inv] holds whenever the TA runs, whatever clients send and however often it panics
    and starts again; what that means for sessions, logins and PINs. *)
From stdpp Require Import relations.
From S2P Require Import Prelude HandleSpec Pkcs11Handle Pkcs11Attr Pkcs11AttrProofs Pkcs11Token Pkcs11TokenProofs Pkcs11Sessions Pkcs11Entries Pkcs11Store Pkcs11StoreProofs Pkcs11Ta.

Local Open Scope Z_scope.

Section boot.
Context `{Heap}.

(** ** The start *)

(** The databases on a device, those that are there. *)
Definition disk_ok (db : list (option (token_persistent_main * option (list Z)))) : Prop :=
  length db = 3%nat ∧ ∀ t m objs, db !! t = Some (Some (m, objs)) → db_ok m objs.

(** The objects of token [i] are its own. *)
Definition linked (s : ta) (i : nat) (k : ck_token) : Prop := NoDup (token_objects k) ∧
  ∀ o, o ∈ token_objects k → ∃ x, objects s !! o = Some x ∧ link x = Some (OnToken (Z.of_nat i)) ∧ is_Some (uuid x).

Record ready (s : ta) (i : nat) (k : ck_token) : Prop := {
  rd_stored : ∃ objs, stored s !! i = Some (Some (db_main k, objs));
  rd_uuids : NoDup (db_objs k);
  rd_counts : session_count k = 0 ∧ rw_session_count k = 0;
  rd_linked : linked s i k;
}.

(** Tokens 0 to [n] - 1 are initialised, and nobody is there. *)
Record booting (n : nat) (s : ta) : Prop := {
  bt_tokens : length (tokens s) = 3%nat;
  bt_nobody : client_list s = [] ∧ clients s = ∅ ∧ sessions s = ∅;
  bt_next : 0 < next_ptr s ∧ ∀ o, is_Some (objects s !! o) → 0 < o < next_ptr s;
  bt_ready i k : (i < n)%nat → tokens s !! i = Some k → ready s i k;
  bt_reset i k : (n <= i)%nat → tokens s !! i = Some k → tk_state k = PKCS11_TOKEN_RESET;
  bt_disk : disk_ok (stored s);
}.

Lemma booted_inv s : booting 3 s → inv s.
Proof.
  intros [B1 (B2 & B3 & B4) [N1 N2] B6 _ [_ B8]]. assert (∀ i k, tokens s !! i = Some k → ready s i k) as Hr.
  { intros i k Hk. apply B6; [|done]. apply lookup_lt_Some in Hk. lia. }
  assert (∀ f i, counted f i s = 0) as Hc by (intros f i; unfold counted, on_token; by rewrite B4, map_filter_empty, map_size_empty).
  split; rewrite ?B2, ?B3, ?B4; try (intros; by rewrite lookup_empty in *); try (intros * ?; by rewrite lookup_empty in *); try done.
  - intros i k Hk. destruct (Hr i k Hk) as [[objs Hst] R2 [R3 R4] [R5 R6]]. destruct (B8 _ _ _ Hst) as [Hm Ho]. split; rewrite ?Hc; try done. by exists objs.
  - split; [constructor|]. intros c. rewrite lookup_empty. split; [by intros ?%not_elem_of_nil|by intros [??]].
  - split; [done|]. split; [|done]. intros c [??]. by rewrite lookup_empty in *.
Qed.

Lemma booting_used n s s' : used s s' → booting n s → booting n s'.
Proof. intros (e & -> & _) [B1 B2 B3 B4 B5 B6]. split; try done. intros i k Hi Hk. destruct (B4 i k Hi Hk). by split. Qed.

Lemma booting_next n s : booting n s → booting n (set_next s (next_ptr s + 1)).
Proof.
  intros [B1 B2 [N1 N2] B4 B5 B6]. split; try done.
  - cbn. split; [lia|]. intros o Ho. specialize (N2 o Ho). lia.
  - intros i k Hi Hk. destruct (B4 i k Hi Hk). by split.
Qed.

(** Objects come and go at addresses of their own. *)
Lemma linked_object s s' i k o x : linked s i k → objects s' = <[o := x]> (objects s) → objects s !! o = None ∨ (link x = Some (OnToken (Z.of_nat i)) ∧ is_Some (uuid x)) → linked s' i k.
Proof.
  intros [L1 L2] Ho Hx. split; [done|]. intros o' Hin. rewrite Ho. destruct (L2 o' Hin) as (x' & Hx' & Hl). destruct (decide (o' = o)) as [->|Hne].
  - destruct Hx as [Hx|Hx]; [congruence|]. exists x. by rewrite lookup_insert_eq.
  - exists x'. by rewrite lookup_insert_ne.
Qed.

Lemma booting_object n s o x : booting n s → objects s !! o = None → 0 < o < next_ptr s → booting n (set_objects s (<[o := x]> (objects s))).
Proof.
  intros [B1 B2 [N1 N2] B4 B5 B6] Hn Ho. split; try done.
  - split; [done|]. intros o'. cbn. intros [<-|[_ Ho']]%lookup_insert_is_Some; [done|auto].
  - intros i k Hi Hk. destruct (B4 i k Hi Hk) as [R1 R2 R3 R4]. split; try done. eapply linked_object; [exact R4|done|by left].
Qed.

(** The object of a token that is being read gets its link. *)
Lemma booting_link n s o x : booting n s → (∀ i k, (i < n)%nat → tokens s !! i = Some k → o ∉ token_objects k) → is_Some (objects s !! o) →
  booting n (set_objects s (<[o := x]> (objects s))).
Proof.
  intros [B1 B2 [N1 N2] B4 B5 B6] Hn Ho. split; try done.
  - split; [done|]. intros o'. cbn. intros [<-|[_ Ho']]%lookup_insert_is_Some; auto.
  - intros i k Hi Hk. destruct (B4 i k Hi Hk) as [R1 R2 R3 [R4 R5]]. split; try done. split; [done|]. intros o' Ho'. cbn.
    rewrite lookup_insert_ne; [by apply R5|]. intros <-. by apply (Hn i k).
Qed.

Lemma booting_token n s k k' : booting n s → tokens s !! n = Some k → tk_state k' = PKCS11_TOKEN_RESET →
  booting n (set_tokens s (<[n := k']> (tokens s))).
Proof.
  intros [B1 B2 B3 B4 B5 B6] Hk Hst. split; try done.
  - cbn. by rewrite length_insert.
  - intros i k0 Hi. cbn. rewrite list_lookup_insert_ne by lia. intros Hk0. destruct (B4 i k0 Hi Hk0). by split.
  - intros i k0 Hi. cbn. destruct (decide (i = n)) as [->|Hne].
    + rewrite list_lookup_insert_eq by (by eapply lookup_lt_Some). by intros [= <-].
    + rewrite list_lookup_insert_ne by done. by apply B5.
Qed.

(** Token [n] is being initialised: its objects are its own. *)
Definition half (n : nat) (s : ta) : Prop := booting n s ∧ ∃ k, tokens s !! n = Some k ∧ linked s n k.

Lemma half_used n s s' : used s s' → half n s → half n s'.
Proof. intros Hu [Hb (k & Hk & Hl)]. split; [by eapply booting_used|]. destruct Hu as (e & -> & _). by exists k. Qed.

Lemma half_next n s : half n s → half n (set_next s (next_ptr s + 1)).
Proof. intros [Hb (k & Hk & Hl)]. split; [by apply booting_next|]. by exists k. Qed.

Lemma run_load_objects n l (Q : bool → ta → Prop) (R P : ta → Prop) s : half n s →
  (∀ s', half n s' → stored s' = stored s → Q true s') → (∀ s', stored s' = stored s → Q false s' ∧ P s') →
  run (load_objects (Z.of_nat n) l) Q R P s.
Proof.
  revert s Q. induction l as [|u l IH]; intros s Q Hh HQ HF; [by apply run_ret, HQ|]. cbn [load_objects].
  apply run_bind, run_malloc; intros s1 Hu1; [apply run_ret; by destruct Hu1 as (e & -> & _); apply HF|].
  pose proof (half_next _ _ (half_used _ _ _ Hu1 Hh)) as Hh1. destruct Hu1 as (e & -> & _).
  apply run_bind. unfold create_obj_instance. apply run_bind, run_malloc; intros s2 Hu2; [apply run_ret, run_panic; by destruct Hu2 as (e2 & -> & _); apply HF|].
  pose proof (half_used _ _ _ Hu2 Hh1) as Hh2. destruct Hu2 as (e2 & -> & _). set (s2 := set_env _ e2) in *.
  cbn [next_ptr set_next set_env]. change (next_ptr s + 1) with (next_ptr s2). set (o := next_ptr s2) in *.
  destruct Hh2 as [Hb2 (k & Hk & Hl)]. destruct (bt_next _ _ Hb2) as [N1 N2].
  assert (objects s2 !! o = None) as Ho by (destruct (objects s2 !! o) eqn:He; [|done]; specialize (N2 o (mk_is_Some _ _ He)); unfold o in *; lia).
  apply run_seq, run_bind, run_get, run_put, run_ret. set (x := Object None None (Some u)).
  apply run_seq, run_bind, (run_read_object _ x); [apply lookup_insert_eq|]. apply run_seq, run_bind, run_get, run_put.
  apply run_bind, (run_read_token _ k); [by rewrite Nat2Z.id|]. apply run_bind, run_get, run_put.
  set (x' := Object (Some _) _ _). rewrite Nat2Z.id.
  set (s3 := set_objects (set_next s2 (o + 1)) (<[o := x]> (objects s2))).
  assert (booting n s3) as Hb3 by (apply (booting_object n (set_next s2 (o + 1))); [by apply booting_next|done|change (0 < o < o + 1); change (0 < o) in N1; lia]).
  assert (∀ i k, tokens s2 !! i = Some k → linked s2 i k → o ∉ token_objects k) as Hfresh.
  { intros i k0 Hk0 [_ Hl0] Hin. destruct (Hl0 o Hin) as (? & ? & _). congruence. }
  assert (booting n (set_objects s3 (<[o := x']> (objects s3)))) as Hb4.
  { apply booting_link; [done| |unfold s3; cbn; rewrite lookup_insert_eq; by eexists]. intros i k0 Hi Hk0. apply (Hfresh i k0 Hk0), (bt_ready _ _ Hb2 i k0 Hi Hk0). }
  apply IH.
  - split.
    + by apply (booting_token n _ k); [exact Hb4|exact Hk|apply (bt_reset _ _ Hb2 n k)].
    + eexists. split; [cbn; rewrite list_lookup_insert_eq; [done|by eapply lookup_lt_Some]|]. destruct Hl as [L1 L2]. split; cbn.
      * constructor; [by apply (Hfresh n k)|done].
      * intros o' [->|Ho']%elem_of_cons; [rewrite lookup_insert_eq; by exists x'|]. destruct (L2 o' Ho') as (z & Hz & Hlz). exists z.
        assert (o' ≠ o) by (intros ->; congruence). by rewrite !lookup_insert_ne by done.
  - intros s' Hs' Hst. by apply HQ.
  - intros s' Hst. by apply HF.
Qed.

(** What happens to the storage: databases stay, new ones are well-formed. *)
Definition disk_step (s s' : ta) : Prop := stored_kept s s' ∧ disk_ok (stored s').

Lemma disk_step_eq s s' : disk_ok (stored s) → stored s' = stored s → disk_step s s'.
Proof. intros Hd He. split; [by apply stored_kept_eq|by rewrite He]. Qed.

Lemma disk_step_trans s1 s2 s3 : disk_step s1 s2 → disk_step s2 s3 → disk_step s1 s3.
Proof. intros [H1 _] [H2 H3]. split; [by eapply stored_kept_trans|done]. Qed.

(** Token [n] has its databases. *)
Definition loaded (n : nat) (s : ta) : Prop := booting n s ∧
  ∃ k, tokens s !! n = Some k ∧ linked s n k ∧ (∃ objs, stored s !! n = Some (Some (db_main k, objs))) ∧ NoDup (db_objs k).

Lemma run_set_db n m l (Q : unit → ta → Prop) (R P : ta → Prop) s : half n s → (∃ objs, stored s !! n = Some (Some (m, objs))) → NoDup l →
  (∀ s', loaded n s' → stored s' = stored s → Q tt s') → run (set_db (Z.of_nat n) m l) Q R P s.
Proof.
  intros [Hb (k & Hk & Hl)] Hst Hnd HQ. apply run_bind, (run_read_token _ k); [by rewrite Nat2Z.id|]. apply run_bind, run_get, run_put.
  rewrite Nat2Z.id. apply HQ; [|done]. split; [apply (booting_token n _ k); [done|done|by apply (bt_reset _ _ Hb n k)]|].
  eexists. split; [cbn; rewrite list_lookup_insert_eq; [done|by eapply lookup_lt_Some]|]. done.
Qed.

Lemma run_load_db n m objs (Q : bool → ta → Prop) (R P : ta → Prop) s : half n s → stored s !! n = Some (Some (m, objs)) →
  (∀ s', loaded n s' → stored s' = stored s → Q true s') → (∀ s', stored s' = stored s → Q false s' ∧ P s') →
  run (load_db (Z.of_nat n) m objs) Q R P s.
Proof.
  intros Hh Hst HQ HF. apply run_bind, run_next_store. intros b s1 Hu1 _. pose proof (half_used _ _ _ Hu1 Hh) as Hh1. destruct Hu1 as (e1 & -> & _).
  destruct objs as [l|]; [|by apply run_panic, HF]. destruct (bt_disk _ _ (proj1 Hh)) as [_ Hd]. destruct (Hd _ _ _ Hst) as [_ Hnd]. cbn in Hnd.
  destruct b; cbn [negb]; [|by apply run_panic, HF].
  apply run_bind, run_malloc; intros s2 Hu2; [apply run_ret; by destruct Hu2 as (e2 & -> & _); apply HF|].
  pose proof (half_next _ _ (half_used _ _ _ Hu2 Hh1)) as Hh2. destruct Hu2 as (e2 & -> & _).
  apply run_bind, run_next_store. intros b s3 Hu3 _. pose proof (half_used _ _ _ Hu3 Hh2) as Hh3. destruct Hu3 as (e3 & -> & _).
  destruct b; cbn [negb]; [|by apply run_panic, HF].
  apply run_bind, run_load_objects; [exact Hh3| |].
  - intros s4 Hh4 Hst4. apply run_seq, run_set_db; [done|exists (Some l); by rewrite Hst4|done|]. intros s5 Hl5 Hst5.
    apply run_ret, HQ; [done|]. by rewrite Hst5, Hst4.
  - intros s4 Hst4. split; [apply run_ret|]; by apply HF.
Qed.

Lemma main_ok_new : main_ok new_main.
Proof. split; by vm_compute. Qed.

Lemma stored_set s n d : stored s !! n = Some None → disk_ok (stored s) → (∀ m objs, d = Some (m, objs) → db_ok m objs) →
  disk_step s (set_stored s (<[n := d]> (stored s))).
Proof.
  intros Hn [Hlen Hd] Hok. split; [split; [cbn; by rewrite length_insert|]|split; [cbn; by rewrite length_insert|]].
  - intros i m objs Hst Hm. cbn. exists m, objs. rewrite list_lookup_insert_ne by (intros ->; congruence). split; [done|]. split; [done|apply so_kept_refl].
  - intros i m objs. cbn. destruct (decide (i = n)) as [->|Hi].
    + rewrite list_lookup_insert_eq by (by eapply lookup_lt_Some). intros [= ->]. by apply Hok.
    + rewrite list_lookup_insert_ne by done. apply Hd.
Qed.

Lemma half_stored n s d : half n s → (∀ i, (i < n)%nat → d !! i = stored s !! i) → disk_ok d → half n (set_stored s d).
Proof.
  intros [[B1 B2 B3 B4 B5 B6] (k & Hk & Hl)] Hd Hok. split; [|by exists k]. split; try done.
  intros i k0 Hi Hk0. destruct (B4 i k0 Hi Hk0) as [[objs R1] R2 R3 R4]. split; try done. exists objs. cbn. by rewrite Hd.
Qed.

Lemma run_init_db n (Q : bool → ta → Prop) (R P : ta → Prop) s : half n s → stored s !! n = Some None →
  (∀ s', loaded n s' → disk_step s s' → Q true s') → (∀ s', disk_step s s' → Q false s' ∧ P s') → run (init_db (Z.of_nat n)) Q R P s.
Proof.
  intros Hh Hst HQ HF. pose proof (bt_disk _ _ (proj1 Hh)) as Hd.
  apply run_bind, run_next_store. intros b s1 Hu1 _. pose proof (half_used _ _ _ Hu1 Hh) as Hh1. destruct Hu1 as (e1 & -> & _).
  destruct b; cbn [negb]; [|by apply run_ret, HF, disk_step_eq]. apply run_bind, run_get, run_seq, run_put. rewrite Nat2Z.id.
  assert (db_ok new_main None) as Hnew by (split; [apply main_ok_new|constructor]).
  assert (disk_step s (set_stored (set_env s e1) (<[n := Some (new_main, None)]> (stored s)))) as Hs1
    by (apply (stored_set (set_env s e1) n); [done|done|by intros m objs [= <- <-]]).
  assert (half n (set_stored (set_env s e1) (<[n := Some (new_main, None)]> (stored s)))) as Hh1'
    by (apply half_stored; [exact Hh1|intros i Hi; cbn; by rewrite list_lookup_insert_ne by lia|apply Hs1]).
  apply run_bind, run_next_store. intros b s2 Hu2 _. pose proof (half_used _ _ _ Hu2 Hh1') as Hh2. destruct Hu2 as (e2 & -> & _).
  destruct b; cbn [negb]; [|by apply run_panic, HF].
  assert (∀ o, (<[n := Some (new_main, o)]> (stored s)) !! n = Some (Some (new_main, o))) as Hget by (intros o; apply list_lookup_insert_eq; by eapply lookup_lt_Some).
  apply run_seq. unfold store_objs. apply run_bind, run_get. cbn [stored set_env set_stored]. rewrite Nat2Z.id, Hget. apply run_put. rewrite list_insert_insert_eq.
  assert (disk_step s (set_stored (set_env s e1) (<[n := Some (new_main, Some [])]> (stored s)))) as Hs2
    by (apply (stored_set (set_env s e1) n); [done|done|intros m objs [= <- <-]; split; [apply main_ok_new|constructor]]).
  apply run_seq, run_set_db.
  - eapply half_stored; [exact Hh2|intros i Hi; cbn; by rewrite !list_lookup_insert_ne by lia|apply Hs2].
  - exists (Some []). apply Hget.
  - constructor.
  - intros s' Hl Hst'. apply run_ret, HQ; [done|]. destruct Hs2 as [K1 K2]. split; [|by rewrite Hst'].
    eapply stored_kept_trans; [exact K1|]. by apply stored_kept_eq.
Qed.

Lemma run_init_persistent_db n (Q : bool → ta → Prop) (R P : ta → Prop) s : booting n s → (n < 3)%nat →
  (∀ s', loaded n s' → disk_step s s' → Q true s') → (∀ s', disk_step s s' → Q false s' ∧ P s') → run (init_persistent_db (Z.of_nat n)) Q R P s.
Proof.
  intros Hb Hn HQ HF. destruct (lookup_lt_is_Some_2 (tokens s) n) as [k Hk]; [rewrite (bt_tokens _ _ Hb); lia|].
  destruct (bt_disk _ _ Hb) as [Hlen Hdb]. pose proof (bt_disk _ _ Hb) as Hd.
  apply run_bind, (run_read_token _ k); [by rewrite Nat2Z.id|]. apply run_seq, run_bind, run_get, run_put. rewrite Nat2Z.id.
  set (k' := Token _ _ _ _ _ _). set (s0 := set_tokens s _).
  assert (half n s0) as Hh0.
  { split; [apply (booting_token n _ k); [done|done|by apply (bt_reset _ _ Hb n k)]|]. exists k'.
    split; [cbn; apply list_lookup_insert_eq; by eapply lookup_lt_Some|]. split; [constructor|by intros o ?%not_elem_of_nil]. }
  assert (∀ s', stored s' = stored s → Q false s' ∧ P s') as HF0 by (intros; by apply HF, disk_step_eq).
  apply run_bind, run_malloc; intros s1 Hu1.
  { apply run_bind, run_malloc; intros s2 Hu2; destruct Hu1 as (e1 & -> & _), Hu2 as (e2 & -> & _); apply run_ret; by apply HF0. }
  pose proof (half_next _ _ (half_used _ _ _ Hu1 Hh0)) as Hh1. destruct Hu1 as (e1 & -> & _).
  apply run_bind, run_malloc; intros s2 Hu2; [destruct Hu2 as (e2 & -> & _); apply run_ret; by apply HF0|].
  pose proof (half_next _ _ (half_used _ _ _ Hu2 Hh1)) as Hh2. destruct Hu2 as (e2 & -> & _).
  apply run_bind, run_next_store. intros b s3 Hu3 _. pose proof (half_used _ _ _ Hu3 Hh2) as Hh3. destruct Hu3 as (e3 & -> & _).
  destruct b; cbn [negb]; [|apply run_ret; by apply HF0]. apply run_bind, run_get. cbn [stored set_env set_next set_tokens].
  set (s3 := set_env _ e3) in *. change (stored s0) with (stored s).
  destruct (lookup_lt_is_Some_2 (stored s) n) as [d Hst]; [lia|]. rewrite Hst. destruct d as [[m objs]|].
  - apply run_load_db; [done|exact Hst| |exact HF0]. intros s' Hl Hst'. apply HQ; [done|]. by apply disk_step_eq.
  - apply run_init_db; [done|exact Hst| |].
    + intros s' Hl Hds. by apply HQ.
    + intros s' Hds. by apply HF.
Qed.

Lemma run_token_init n (Q : tee_result → ta → Prop) (R P : ta → Prop) s : booting n s → (n < 3)%nat →
  (∀ s', booting (S n) s' → disk_step s s' → Q TEE_SUCCESS s') → (∀ s', disk_step s s' → Q TEE_ERROR_SECURITY s' ∧ P s') →
  run (pkcs11_token_init (Z.of_nat n)) Q R P s.
Proof.
  intros Hb Hn HQ HF. apply run_bind, run_init_persistent_db; [done|done| |].
  2: { intros s' Hs'. split; [apply run_ret|]; by apply HF. }
  intros s' [[B1 B2 B3 B4 B5 B6] (k & Hk & Hl & Hst & Hnd)] Hds. cbn [negb].
  apply run_bind, (run_read_token _ k); [by rewrite Nat2Z.id|]. rewrite bool_decide_true by (by apply (B5 n)).
  apply run_seq, run_bind, run_get, run_put, run_ret, HQ; [|by destruct Hds]. rewrite Nat2Z.id. split; try done.
  - cbn. by rewrite length_insert.
  - intros i k0 Hi. cbn. destruct (decide (i = n)) as [->|Hne].
    + rewrite list_lookup_insert_eq by (by eapply lookup_lt_Some). intros [= <-]. by split.
    + rewrite list_lookup_insert_ne by done. intros Hk0. destruct (B4 i k0 ltac:(lia) Hk0). by split.
  - intros i k0 Hi. cbn. rewrite list_lookup_insert_ne by lia. intros Hk0. apply (B5 i k0); [lia|done].
Qed.

Lemma disk_step_refl n s : booting n s → disk_step s s.
Proof. intros Hb. apply disk_step_eq; [apply Hb|done]. Qed.

(** The TA starts in a state in which [inv] holds, or it does not start. *)
Lemma run_pkcs11_init (R : ta → Prop) s : booting 0 s →
  run pkcs11_init (λ r s', disk_step s s' ∧ (r = TEE_SUCCESS → inv s')) R (disk_step s) s.
Proof.
  intros Hb0. change (seqZ 0 TOKEN_COUNT) with [0; 1; 2]. unfold pkcs11_init. change (seqZ 0 TOKEN_COUNT) with [Z.of_nat 0; Z.of_nat 1; Z.of_nat 2].
  pose proof (disk_step_refl _ _ Hb0) as H00.
  apply run_bind, run_token_init; [done|lia| |intros s1 H01; split; [by apply run_ret|done]].
  intros s1 Hb1 H01. apply run_bind, run_token_init; [done|lia| |intros s2 H12; split; [apply run_ret; split; [|done]|]; by eapply disk_step_trans].
  intros s2 Hb2 H12. apply run_bind, run_token_init; [done|lia| |intros s3 H23; split; [apply run_ret; split; [|done]|]; by eapply disk_step_trans; [|eapply disk_step_trans]].
  intros s3 Hb3 H23. apply run_ret. split; [by eapply disk_step_trans; [|eapply disk_step_trans]|]. intros _. by apply booted_inv.
Qed.

Lemma booting_boot db files e : disk_ok db → booting 0 (boot db files e).
Proof.
  intros Hd. split; try done.
  - split; [done|]. cbn. intros o [x Hx]. by rewrite lookup_empty in Hx.
  - intros i k Hi. lia.
  - intros i k _ Hk. by apply lookup_replicate in Hk as [-> _].
Qed.
End boot.

(** ** Commands *)

Section serve.
Context `{Heap}.
Variable sha256 : list Z → list Z.

(** Who may be logged in afterwards that was not before. *)
Definition may_login (s : ta) (r : request) : Z → Z → login_kind → Prop :=
  match r with Invoke cl Login c _ => pin_shown sha256 s cl c | _ => nobody end.

(** What, besides a failure of the storage, makes a request panic. *)
Definition may_panic (s : ta) (r : request) : Prop :=
  match r with
  | Invoke cl Login c _ => so_login_uninitialized s cl c
  | Invoke _ CreateObject c _ => wants_token_object c ∨ traces_outside c
  | Invoke cl DestroyObject _ _ => names_token_object s cl
  | _ => False
  end.

Lemma ping_keeps c s : inv s → keeps (entry_ping c) nobody False s.
Proof. intros Hs. unfold keeps, entry_ping. destruct (_ || _); by apply step_to_refl. Qed.

Lemma slot_list_keeps c null s : inv s → keeps (entry_ck_slot_list c null) nobody False s.
Proof. intros Hs. unfold keeps, entry_ck_slot_list. by repeat case_match; apply step_to_refl. Qed.

Lemma run_token_info c (Q : list Z → ta → Prop) (R P : ta → Prop) s : inv s → call_ok c →
  (∀ t k b, tokens s !! Z.to_nat t = Some k → ctrl c = le32 t → good_types c = true → out_size c = 160 → Q b s) → R s →
  run (entry_ck_token_info c) Q R P s.
Proof.
  intros Hs Hc HQ HR. unfold entry_ck_token_info. destruct (_ || _) eqn:Hg; [by apply run_throw|]. bools.
  apply run_bind, run_arg_u32; [by apply init_good| |done]. intros t a Ha Ht Hr. rewrite init_rest in Hr.
  apply run_seq, run_no_more; [done| |done]. intros Hr2. apply run_bind, run_get_token; [lia| |done]. intros Ht3.
  destruct (lookup_lt_is_Some_2 (tokens s) (Z.to_nat t)) as [k Hk]; [rewrite (i_tokens s Hs); lia|].
  apply run_bind, (run_read_token _ k); [done|]. apply run_ret, (HQ t k); [done| |done|done]. by rewrite Hr, Hr2, app_nil_r.
Qed.

Lemma token_info_keeps c s : inv s → call_ok c → keeps (entry_ck_token_info c) nobody False s.
Proof. intros Hs Hc. apply run_token_info; [done|done| |]; intros; by apply step_to_refl. Qed.

Lemma entry_keeps cl cmd c p0 x s : inv s → call_ok c → clients s !! cl = Some x →
  keeps (entry sha256 cl cmd c) (may_login s (Invoke cl cmd c p0)) (may_panic s (Invoke cl cmd c p0)) s.
Proof.
  intros Hs Hc Hx. destruct cmd; cbn [entry may_login may_panic].
  - by apply ping_keeps.
  - by apply slot_list_keeps.
  - by apply token_info_keeps.
  - by eapply open_session_keeps.
  - by eapply close_session_keeps.
  - by eapply close_all_keeps.
  - by eapply session_info_keeps.
  - by apply token_initialize_keeps.
  - by eapply init_pin_keeps.
  - by eapply set_pin_keeps.
  - by eapply login_keeps.
  - by eapply logout_keeps.
  - by eapply create_object_keeps.
  - by eapply destroy_object_keeps.
Qed.

Lemma run_client cl (Q : bool → ta → Prop) (R P : ta → Prop) s : inv s →
  (∀ x, clients s !! cl = Some x → Q true s) → (Q false s) → run (tee_session2client cl) Q R P s.
Proof.
  intros Hs HQ HF. apply run_bind, run_get, run_ret. case_bool_decide as Hin; [|done].
  apply (i_client_list s Hs) in Hin as [x Hx]. by apply (HQ x).
Qed.

Lemma serve_keeps r s : inv s → request_ok r →
  run (serve sha256 r) (λ _ s', step_to (may_login s r) s s') (λ _, False) (fault (may_panic s r) s) s.
Proof.
  intros Hs Hr. pose proof (step_to_refl (may_login s r) s Hs) as Hrefl. destruct r as [|cl|cl cmd c p0]; cbn [serve].
  - apply run_bind. eapply run_mono; [by apply (register_keeps (λ _, False))| |done|done]. intros a s' Hs'. by apply run_ret.
  - unfold TA_CloseSessionEntryPoint. apply run_bind, run_client; [done| |by apply run_seq, run_ret, run_ret].
    intros x Hx. apply run_seq. eapply run_mono; [by apply (unregister_keeps cl x (λ _, False))| |done|done]. intros a s' Hs'. by apply run_ret.
  - unfold TA_InvokeCommandEntryPoint. apply run_bind, run_client; [done| |by apply run_ret].
    intros x Hx. cbn [negb]. destruct (_ || _); [by apply run_ret|]. apply run_bind, run_try.
    eapply run_mono; [by apply (entry_keeps cl cmd c p0 x)| | |done].
    + intros a s' Hs'. by apply run_ret.
    + intros s' Hs' e. by apply run_ret.
Qed.


(** ** The system *)

Definition sys_ok (y : system) : Prop := match y with Running s => inv s ∧ disk_ok (stored s) | Stopped db _ => disk_ok db end.

Lemma kept_disk_ok s db : inv s → disk_ok (stored s) → disk_kept (stored s) db → disk_ok db.
Proof.
  intros Hs [Hlen Hd] [Hl Hk]. split; [congruence|]. intros i m objs Hst.
  destruct (lookup_lt_is_Some_2 (tokens s) i) as [k Htk]; [rewrite (i_tokens s Hs); apply lookup_lt_Some in Hst; congruence|].
  destruct (to_stored _ _ _ (i_token s Hs _ _ Htk)) as (objs0 & Hst0 & _). destruct (Hk i _ _ Hst0 (Hd _ _ _ Hst0)) as (m' & objs' & Hst' & Hok & _). congruence.
Qed.

Lemma step_serve_kept s e r : inv s → request_ok r → run (serve sha256 r) (λ _ s', step_to (may_login s r) (set_env s e) s') (λ _, False) (fault (may_panic s r) (set_env s e)) (set_env s e).
Proof. intros Hs Hr. exact (serve_keeps r (set_env s e) (inv_env s e Hs) Hr). Qed.

Lemma step_ok y y' : sys_ok y → step sha256 y y' → sys_ok y' ∧ disk_kept (disk y) (disk y').
Proof.
  intros Hy Hst. destruct Hst as [s e r a s' Hr Hs|s e r s' Hr Hs|s|db files e s' Hs|db files e r s' Hs Hne].
  - destruct Hy as [Hi Hd]. pose proof (step_serve_kept s e r Hi Hr) as Hrun. unfold run in Hrun. rewrite Hs in Hrun.
    destruct Hrun as [Hi' Hk _]. split; [|exact Hk]. split; [done|]. by apply (kept_disk_ok s).
  - destruct Hy as [Hi Hd]. pose proof (step_serve_kept s e r Hi Hr) as Hrun. unfold run in Hrun. rewrite Hs in Hrun.
    destruct Hrun as [Hk _]. split; [|exact Hk]. by apply (kept_disk_ok s).
  - destruct Hy as [Hi Hd]. split; [done|]. exact (stored_kept_eq s s eq_refl).
  - pose proof (run_pkcs11_init (λ _, True) _ (booting_boot db files e Hy)) as Hrun. unfold run in Hrun. rewrite Hs in Hrun.
    destruct Hrun as [[Hk Hd] Hi]. split; [|exact Hk]. split; [by apply Hi|done].
  - pose proof (run_pkcs11_init (λ _, False) _ (booting_boot db files e Hy)) as Hrun. unfold run in Hrun. rewrite Hs in Hrun.
    destruct r as [r|er|]; [destruct Hrun as [[Hk Hd] _]|done|destruct Hrun as [Hk Hd]]; by split.
Qed.

Lemma steps_ok y y' : sys_ok y → rtc (step sha256) y y' → sys_ok y' ∧ disk_kept (disk y) (disk y').
Proof.
  intros Hy Hst. induction Hst as [y|y1 y2 y3 H12 _ IH].
  - split; [done|]. split; [done|]. intros t m objs Ht Hok. exists m, objs. split; [done|]. split; [done|apply so_kept_refl].
  - destruct (step_ok _ _ Hy H12) as [Hy2 H2]. destruct (IH Hy2) as [Hy3 H3]. split; [done|].
    exact (stored_kept_trans (boot (disk y1) ∅ (Env [] [] [] [])) (boot (disk y2) ∅ (Env [] [] [] [])) (boot (disk y3) ∅ (Env [] [] [] [])) H2 H3).
Qed.

Lemma reachable_ok y : reachable sha256 y → sys_ok y.
Proof.
  intros Hr. apply (steps_ok factory); [|exact Hr]. split; [done|]. intros t m objs Ht. by apply lookup_replicate in Ht as [? _].
Qed.

(** ** Properties *)

(** C26: Whatever clients send, whatever the allocator, the random numbers and the
    storage do, and however often the TA panics or is stopped and starts again: while it
    runs, the session counters of each token are the numbers of its sessions (mod
    2^32), its main database in memory is the one in the storage, and its PIN counters
    are at most 7, where 7 is locked; the handles of a client are exactly its
    sessions; the sessions of a client on a token are all logged in alike, as the
    security officer only on an initialised token; and CKA_TOKEN of the objects behind
    a session's handles says where they are. *)
Theorem sessions_consistent s : reachable sha256 (Running s) →
  (∀ t k, tokens s !! t = Some k →
     session_count k = wrap 32 (Z.of_nat (base.size (on_token (λ _, true) t (sessions s)))) ∧
     rw_session_count k = wrap 32 (Z.of_nat (base.size (on_token pkcs11_session_is_read_write t (sessions s)))) ∧
     main_ok (db_main k) ∧ ∃ objs, stored s !! t = Some (Some (db_main k, objs))) ∧
  (∀ cl x, clients s !! cl = Some x → NoDup (session_list x) ∧
     (∀ p, p ∈ session_list x ↔ ∃ y, sessions s !! p = Some y ∧ client y = cl) ∧
     (∀ p y, sessions s !! p = Some y → client y = cl → handle_lookup (Some (session_handle_db x)) (handle y) = p) ∧
     (∀ h, 0 <= h → handle_lookup (Some (session_handle_db x)) h ≠ 0 → ∃ y, sessions s !! handle_lookup (Some (session_handle_db x)) h = Some y ∧ client y = cl ∧ handle y = h)) ∧
  (∀ p q y z, sessions s !! p = Some y → sessions s !! q = Some z → client y = client z → token y = token z → login y = login z) ∧
  (∀ p y, sessions s !! p = Some y → ∃ k, tokens s !! Z.to_nat (token y) = Some k ∧ (login y = LSo → initialized (db_main k)) ∧
     ∀ h o, db_table (object_handle_db y) !! h = Some o → ∃ x, objects s !! o = Some x ∧ with_attrs x ∧
       (link x = Some (InSession p) ∧ o ∈ session_objects y ∨ link x = Some (OnToken (token y)) ∧ o ∈ token_objects k)).
Proof.
  intros [Hs _]%reachable_ok. split; [|split; [|split]].
  - intros t k Hk. destruct (i_token s Hs _ _ Hk) as [(objs & Hst & _) _ Hm Hc Hrw _ _]. split; [done|]. split; [done|]. split; [done|by exists objs].
  - intros cl x Hx. destruct (i_client s Hs _ _ Hx) as [C1 C2 C3 C4]. split; [done|].
    assert (∀ p y, sessions s !! p = Some y → client y = cl → db_table (session_handle_db x) !! Z.to_nat (handle y) = Some p) as Htab.
    { intros p y Hy Hc. apply (session_of_client _ _ _ _ _ Hs Hx Hy) in Hc. destruct (C3 p Hc) as (y' & Hy' & _ & ?). congruence. }
    split; [|split].
    + intros p. split; [intros Hp; destruct (C3 p Hp) as (y & Hy & Hc & _); by exists y|]. intros (y & Hy & Hc). by apply (session_of_client _ _ _ _ _ Hs Hx Hy).
    + intros p y Hy Hc. destruct (i_session s Hs _ _ Hy) as [_ _ Hh _]. rewrite <- (Z2Nat.id (handle y)) by lia.
      rewrite pkcs11_handle_lookup_spec by (done || lia). by rewrite (Htab p y Hy Hc).
    + intros h Hh Hne. pose proof (handle_lookup_table _ _ C2 Hh Hne) as Hp. destruct (C4 _ _ Hp) as (Hin & y & Hy & Hhy).
      exists y. split; [done|]. split; [by apply (session_of_client _ _ _ _ _ Hs Hx Hy)|lia].
  - apply (i_login s Hs).
  - intros p y Hy. destruct (i_session s Hs _ _ Hy) as [_ Ht _ _]. destruct (lookup_lt_is_Some_2 (tokens s) (Z.to_nat (token y))) as [k Hk]; [rewrite (i_tokens s Hs); lia|].
    exists k. split; [done|]. split; [intros Hl; by apply (i_so s Hs p y k)|]. intros h o Hh. destruct (i_objects s Hs _ _ Hy) as [_ _ _ O4].
    destruct (O4 h o Hh) as (x & Hx & Hwa & Hcase). exists x. split; [done|]. split; [done|].
    destruct Hcase as [?|[? (k' & Hk' & ?)]]; [by left|right]. split; [done|]. congruence.
Qed.

(** C28: A lock is for ever: once the PIN of a token's security officer is locked in the
    storage it stays locked, with the same PIN, through every command, panic, stop and
    start of the TA, whatever the storage does. *)
Theorem so_lock_permanent y y' t m objs : reachable sha256 y → rtc (step sha256) y y' →
  disk y !! t = Some (Some (m, objs)) → has_flag m PKCS11_CKFT_SO_PIN_LOCKED = true →
  ∃ m' objs', disk y' !! t = Some (Some (m', objs')) ∧ has_flag m' PKCS11_CKFT_SO_PIN_LOCKED = true ∧
    so_pin_salt m' = so_pin_salt m ∧ so_pin_hash m' = so_pin_hash m.
Proof.
  intros Hr Hst Ht Hl. rewrite has_flag_bit in Hl by done. pose proof (reachable_ok y Hr) as Hy. destruct (steps_ok _ _ Hy Hst) as [_ [_ Hk]].
  assert (db_ok m objs) as Hok by (destruct y as [s|db files]; [destruct Hy as [_ [_ Hd]]|destruct Hy as [_ Hd]]; by apply (Hd t)).
  destruct (Hk t m objs Ht Hok) as (m' & objs' & Ht' & _ & [_ Hso]). destruct (Hso Hl) as (? & ? & ?). exists m', objs'.
  rewrite has_flag_bit by done. done.
Qed.

(** C27: Nobody is logged in without the PIN: a session that is logged in after a request
    is of a client that was logged in alike on that token before, or the request is the
    login command of this client with the PIN whose hash the token has, and this PIN
    is not locked. *)
Theorem login_needs_pin s e r a s' p y : reachable sha256 (Running s) → request_ok r →
  serve sha256 r (set_env s e) = (Ok a, s') → sessions s' !! p = Some y → login y ≠ LPublic →
  (∃ q z, sessions s !! q = Some z ∧ client z = client y ∧ token z = token y ∧ login z = login y) ∨
  ∃ c p0 k pin, r = Invoke (client y) Login c p0 ∧ tokens s !! Z.to_nat (token y) = Some k ∧
    (login y = LSo ∧ login_request c PKCS11_CKU_SO pin ∧ good_so_pin sha256 (db_main k) pin ∨
     login y = LUser ∧ login_request c PKCS11_CKU_USER pin ∧ good_user_pin sha256 (db_main k) pin).
Proof.
  intros [Hs _]%reachable_ok Hr Hrun Hy Hl. pose proof (step_serve_kept s e r Hs Hr) as Hk. unfold run in Hk. rewrite Hrun in Hk.
  destruct Hk as [_ _ Hlog]. destruct (Hlog p y Hy Hl) as [?|Hm]; [by left|right].
  destruct r as [|cl|cl cmd c p0]; [done|done|]. destruct cmd; try done. destruct Hm as (<- & k & pin & Hk & Hc). by exists c, p0, k, pin.
Qed.


(** ** Commands whose arguments are known *)

Lemma le32_inj v w r r' : 0 <= v < 2 ^ 32 → 0 <= w < 2 ^ 32 → le32 v ++ r = le32 w ++ r' → v = w ∧ r = r'.
Proof.
  intros Hv Hw He. apply app_inj_1 in He as [He ->]; [|by rewrite !length_le32]. split; [|done].
  apply (f_equal le_value) in He. unfold le32 in He. rewrite !wrap_small in He by done. by rewrite !le_value_bytes in He by done.
Qed.

(** Arguments that are there are read. *)
Lemma run_u32_at a v r (Q : _ → ta → Prop) (R P : ta → Prop) s : args_good a → 0 <= v < 2 ^ 32 → rest a = le32 v ++ r →
  (∀ a', args_good a' → rest a' = r → Q (v, a') s) → run (arg_u32 a) Q R P s.
Proof.
  intros [Ha Hb] Hv Hr HQ. assert (Z.of_nat (length (rest a)) < 4 → False) as Hlen by (rewrite Hr, length_app, length_le32; lia).
  assert (run (arg_u32 a) (λ x s', s' = s ∧ args_good x.2 ∧ 0 <= x.1 < 2 ^ 32 ∧ rest a = le32 x.1 ++ rest x.2) (λ _, False) (λ _, False) s) as Hrun.
  { apply run_bind. unfold arg_bytes, lift_o, run. pose proof (serialargs_get_ok a 4 Ha) as Hg.
    destruct (serialargs_get a 4) as [[b a']|e|]; [| |destruct Hg; lia]; [|destruct Hg; [lia|auto]]. destruct Hg as (Hl & Ha' & Hr' & ->); [lia|].
    set (b := take _ (rest a)). assert (length b = 4%nat) as Hlb by (unfold b; rewrite length_take; lia).
    assert (bytes_ok b) as Hbb by (by apply Forall_take). pose proof (le_value_bound b Hbb) as Hbv. rewrite Hlb in Hbv.
    split; [done|]. cbn [fst snd]. split; [split; [done|]; rewrite Hr'; by apply Forall_drop|]. split; [exact Hbv|].
    unfold le32. rewrite wrap_small by exact Hbv. rewrite <- Hlb, (le_bytes_value b Hbb). unfold b. by rewrite Hr', take_drop. }
  eapply run_mono; [exact Hrun| |done|done]. intros [v' a'] s' (-> & Ha' & Hv' & He). cbn [fst snd] in *. rewrite Hr in He.
  apply le32_inj in He as [<- He]; [|done|done]. by apply HQ.
Qed.

Lemma run_ptr_at a b r (Q : _ → ta → Prop) (R P : ta → Prop) s : args_good a → Z.of_nat (length b) < 2 ^ 32 → rest a = b ++ r →
  (∀ a', args_good a' → rest a' = r → Q (b, a') s) → run (arg_ptr a (Z.of_nat (length b))) Q R P s.
Proof.
  intros [Ha Hb] Hlen Hr HQ. apply run_bind. pose proof (get_ptr_ok a (Z.of_nat (length b)) Ha ltac:(lia)) as Hg. unfold lift_o at 1, run.
  destruct (serialargs_get_ptr a _) as [[p a']|e|]; [| |done].
  2: { destruct Hg as [_ Hg]. rewrite Hr, length_app in Hg. lia. }
  destruct Hg as (Hl & Ha' & Hr' & _ & _ & _ & Hc). unfold lift_o, mbind, M_bind. rewrite Hc, Nat2Z.id, Hr, take_app_length.
  rewrite Nat2Z.id, Hr, drop_app_length in Hr'. apply HQ; [|done]. split; [done|]. rewrite Hr'. rewrite Hr in Hb. by apply Forall_app in Hb as [_ ?].
Qed.

Lemma run_no_more_at a (Q : unit → ta → Prop) (R P : ta → Prop) s : args_good a → rest a = [] → Q tt s → run (no_more a) Q R P s.
Proof.
  intros [(H1 & H2 & H3 & H4) _] Hr HQ. unfold no_more, serialargs_remaining_bytes. unfold rest in Hr. apply (f_equal length) in Hr. rewrite length_drop in Hr. cbn in Hr.
  rewrite (proj2 (Z.ltb_ge _ _)) by lia. by apply run_ret.
Qed.

Lemma handle_bound s p y : inv s → sessions s !! p = Some y → 1 <= handle y < 2 ^ 32.
Proof.
  intros Hs Hy. destruct (i_session s Hs _ _ Hy) as [_ _ Hh (x & Hx & Hp)]. destruct (i_client s Hs _ _ Hx) as [_ Hwf C3 _].
  destruct (C3 p Hp) as (y' & Hy' & _ & Ht). assert (y' = y) as -> by congruence. apply table_lookup in Ht as [Ht _]. apply lookup_lt_Some in Ht.
  pose proof (pkcs11_db_wf_bound _ Hwf). destruct Hwf as [[Hlen _] _]. lia.
Qed.

(** A session is found by its handle. *)
Lemma run_session_at a p y x r (Q : _ → ta → Prop) (R P : ta → Prop) s : inv s → sessions s !! p = Some y → clients s !! client y = Some x →
  args_good a → rest a = le32 (handle y) ++ r → (∀ a', args_good a' → rest a' = r → Q (p, a') s) →
  run (serialargs_get_session_from_handle a (client y)) Q R P s.
Proof.
  intros Hs Hy Hx Ha Hr HQ. destruct (i_session s Hs _ _ Hy) as [Hp _ Hh1 _]. pose proof (handle_bound _ _ _ Hs Hy) as Hh. destruct (i_client s Hs _ _ Hx) as [_ Hwf C3 _].
  apply run_bind, (run_u32_at a (handle y) r); [done|lia|done|]. intros a' Ha' Hr'. apply run_bind. unfold pkcs11_handle2session.
  apply run_bind, (run_read_client _ x); [done|]. apply run_ret.
  assert (handle_lookup (Some (session_handle_db x)) (handle y) = p) as ->.
  { assert (p ∈ session_list x) as Hin by (by apply (session_of_client _ _ _ _ _ Hs Hx Hy)). destruct (C3 p Hin) as (y' & Hy' & _ & Ht).
    assert (y' = y) as -> by congruence. rewrite <- (Z2Nat.id (handle y)) by lia. rewrite pkcs11_handle_lookup_spec by (done || lia). by rewrite Ht. }
  rewrite (proj2 (Z.eqb_neq _ _)) by lia. apply run_ret. by apply HQ.
Qed.
End serve.

(** ** A run

    On a new device a client opens a session, initialises token 0, logs in as its
    security officer and then gives seven wrong PINs. Nothing fails. *)
Section example.
#[local] Existing Instance heap_64k.

Definition example_sha (l : list Z) : list Z := l.
Definition example_env : environment := Env [] [] [] [].
Definition example_pin : list Z := replicate 10 49.
Definition example_call (l : list Z) : call := Call true 4096 l 4.

Definition example_send (s : ta) (r : request) : ta := snd (serve example_sha r (set_env s example_env)).

Definition example_booted : ta := snd (pkcs11_init (boot (replicate 3 None) ∅ example_env)).
Definition example_login (pin : list Z) : request :=
  Invoke 7 Login (example_call (le32 1 ++ le32 PKCS11_CKU_SO ++ le32 (Z.of_nat (length pin)) ++ pin)) true.
Definition example_open (n : Z) : request := Invoke 7 OpenSession (example_call (le32 n ++ le32 6)) true.
Definition example_init : request := Invoke 7 InitToken (example_call (le32 0 ++ le32 10 ++ replicate 32 65 ++ example_pin)) true.

(** The states after the requests, [example_opened] with a session on a token that is not initialised. *)
Definition example_connected : ta := example_send example_booted Connect.
Definition example_opened : ta := example_send example_connected (example_open 0).
Definition example_ready : ta := example_send (example_send example_connected example_init) (example_open 0).
Definition example_officer : ta := example_send example_ready (example_login example_pin).
Definition example_locked : ta :=
  Nat.iter 7 (λ s, example_send s (example_login (replicate 10 50))) example_ready.

Lemma example_step s r : request_ok r →
  match fst (serve example_sha r (set_env s example_env)) with Ok _ => true | _ => false end = true → step example_sha (Running s) (Running (example_send s r)).
Proof. intros Hr Hok. unfold example_send. destruct (serve _ _ _) as [[a| |] s'] eqn:He; try done. by eapply step_serve. Qed.

Lemma example_reach s r : reachable example_sha (Running s) → request_ok r →
  match fst (serve example_sha r (set_env s example_env)) with Ok _ => true | _ => false end = true → reachable example_sha (Running (example_send s r)).
Proof. intros. eapply rtc_r; [done|by apply example_step]. Qed.

Lemma request_small cl cmd (l : list Z) p0 : (forallb (λ b, (0 <=? b) && (b <? 256)) l && (Z.of_nat (length l) <? 2 ^ 32)) = true →
  request_ok (Invoke cl cmd (example_call l) p0).
Proof.
  intros [Hl Hn%Z.ltb_lt]%andb_true_iff. cbn. split; [done|]. split; [lia|]. apply Forall_forall. intros b Hb.
  rewrite forallb_forall in Hl. apply list_elem_of_In in Hb. specialize (Hl b Hb). lia.
Qed.

Lemma example_booted_reachable : reachable example_sha (Running example_booted).
Proof.
  apply rtc_once, (step_start _ _ _ example_env). unfold example_booted, example_env. generalize (eq_refl (fst (pkcs11_init (boot (replicate 3 None) ∅ example_env)))).
  unfold example_env. destruct (pkcs11_init _) as [r s'] eqn:He.
  assert (r = fst (pkcs11_init (boot (replicate 3 None) ∅ example_env))) as -> by (unfold example_env; by rewrite He). intros _. f_equal.
Qed.

Lemma example_connected_reachable : reachable example_sha (Running example_connected).
Proof. apply example_reach; [exact example_booted_reachable|exact I|by vm_compute]. Qed.

Lemma example_opened_reachable : reachable example_sha (Running example_opened).
Proof. apply example_reach; [exact example_connected_reachable|by apply request_small|by vm_compute]. Qed.

Lemma example_ready_reachable : reachable example_sha (Running example_ready).
Proof. do 2 (apply example_reach; [|by apply request_small|by vm_compute]). exact example_connected_reachable. Qed.

Lemma example_officer_reachable : reachable example_sha (Running example_officer).
Proof. apply example_reach; [exact example_ready_reachable|by apply request_small|by vm_compute]. Qed.

Lemma example_locked_reachable : reachable example_sha (Running example_locked).
Proof. unfold example_locked, Nat.iter. cbn. do 7 (apply example_reach; [|by apply request_small|by vm_compute]). exact example_ready_reachable. Qed.

(** The session of the example, by its address. *)
Definition example_session (s : ta) : Z * pkcs11_session :=
  match map_to_list (sessions s) with x :: _ => x | [] => (0, Session 0 0 0 [] handle_db_init PKCS11_CKS_RO_PUBLIC_SESSION) end.

Definition example_main (s : ta) : token_persistent_main := match tokens s with k :: _ => db_main k | [] => new_main end.

Lemma sessions_consistent_witness :
  reachable example_sha (Running example_officer) ∧ base.size (sessions example_officer) = 1%nat ∧
  ∀ t k, tokens example_officer !! t = Some k →
     session_count k = wrap 32 (Z.of_nat (base.size (on_token (λ _, true) t (sessions example_officer)))).
Proof.
  split; [exact example_officer_reachable|]. split; [by vm_compute|]. intros t k Hk.
  apply (proj1 (sessions_consistent example_sha example_officer example_officer_reachable) t k Hk).
Defined.

Lemma so_lock_permanent_witness :
  reachable example_sha (Running example_locked) ∧ has_flag (example_main example_locked) PKCS11_CKFT_SO_PIN_LOCKED = true ∧
  let y := Running (example_send example_locked (example_login example_pin)) in
  ∃ m' objs', disk y !! 0%nat = Some (Some (m', objs')) ∧ has_flag m' PKCS11_CKFT_SO_PIN_LOCKED = true ∧
    so_pin_salt m' = so_pin_salt (example_main example_locked) ∧ so_pin_hash m' = so_pin_hash (example_main example_locked).
Proof.
  split; [exact example_locked_reachable|]. split; [by vm_compute|].
  apply (so_lock_permanent example_sha (Running example_locked) _ 0 (example_main example_locked) (Some [])).
  - exact example_locked_reachable.
  - apply rtc_once, example_step; [by apply request_small|by vm_compute].
  - by vm_compute.
  - by vm_compute.
Defined.

Lemma login_needs_pin_witness :
  let y := example_session example_officer in
  fst (serve example_sha (example_login example_pin) (set_env example_ready example_env)) = Ok (Answer TEE_SUCCESS (Some (inr []))) ∧
  sessions example_officer !! y.1 = Some y.2 ∧ login y.2 = LSo ∧
  ((∃ q z, sessions example_ready !! q = Some z ∧ client z = client y.2 ∧ token z = token y.2 ∧ login z = login y.2) ∨
  ∃ c p0 k pin, example_login example_pin = Invoke (client y.2) Login c p0 ∧ tokens example_ready !! Z.to_nat (token y.2) = Some k ∧
    (login y.2 = LSo ∧ login_request c PKCS11_CKU_SO pin ∧ good_so_pin example_sha (db_main k) pin ∨
     login y.2 = LUser ∧ login_request c PKCS11_CKU_USER pin ∧ good_user_pin example_sha (db_main k) pin)).
Proof.
  split; [by vm_compute|]. split; [by vm_compute|]. split; [by vm_compute|].
  apply (login_needs_pin example_sha example_ready example_env (example_login example_pin) (Answer TEE_SUCCESS (Some (inr []))) example_officer (example_session example_officer).1).
  - exact example_ready_reachable.
  - by apply request_small.
  - by vm_compute.
  - by vm_compute.
  - by vm_compute.
Defined.

End example.
