(* ===== verification/Pkcs11Pins.v ===== *)
(** * PINs and storage of the PKCS#11 TA: what the commands decide

    The PIN of the security officer when nothing external fails, what a failing storage
    does to it, and two ways the TA panics that a client or the storage controls. *)
From stdpp Require Import relations.
From S2P Require Import Prelude HandleSpec Pkcs11Handle Pkcs11Attr Pkcs11AttrProofs Pkcs11Token Pkcs11TokenProofs Pkcs11Sessions Pkcs11Entries Pkcs11Store Pkcs11StoreProofs Pkcs11Ta Pkcs11TaProofs.

Local Open Scope Z_scope.

Section pins.
Context `{Heap}.
Variable sha256 : list Z → list Z.

(** ** Checks of a PIN when nothing external fails *)

(** The environment has no failures of the storage and of the hash any more. *)
Definition quiet (s : ta) : Prop := e_store (env s) = [] ∧ e_hash (env s) = [].

Lemma do_hash_quiet user pin salt s : e_hash (env s) = [] → do_hash sha256 user pin salt s = (Ok (pin_hash sha256 user pin salt), s).
Proof.
  destruct s as [? ? ? ? ? ? ? ? [mem rnd st h]]. cbn. intros ->. done.
Qed.

Lemma pin_correct_quiet user pin salt hash s : e_hash (env s) = [] →
  pin_correct sha256 user pin salt hash s = (Ok (bool_decide (pin_hash sha256 user pin salt = hash)), s).
Proof.
  intros Hq. unfold pin_correct, verify_pin, mtry, mbind, M_bind. rewrite do_hash_quiet by done. by case_bool_decide.
Qed.

Lemma update_quiet t k m s : token_at s t k → quiet s → update_persistent_db t (put_main s t m) = (Ok tt, put_both s t m).
Proof.
  intros [Hk [objs Hst]] [Hq _]. assert (next_store (put_main s t m) = (Ok true, put_main s t m)) as Hn.
  { destruct s as [? ? ? ? ? ? ? ? [mem rnd st h]]. cbn in Hq. by subst st. }
  unfold update_persistent_db, mbind, M_bind. rewrite Hn. unfold mget. cbn [stored put_main set_tokens]. rewrite Hst.
  assert (read_main t (put_main s t m) = (Ok m, put_main s t m)) as Hr.
  { unfold read_main, read_token, mbind, M_bind, mget, find. cbn [put_main tokens set_tokens]. by rewrite list_lookup_alter_eq, Hk. }
  rewrite Hr. unfold mput, put_both. by rewrite (alter_as_insert _ _ _ _ Hst).
Qed.

Lemma write_update_quiet t k m s : token_at s t k → quiet s → (write_main t m;; update_persistent_db t) s = (Ok tt, put_both s t m).
Proof.
  intros Hk Hq. unfold mbind at 1, M_bind at 1. assert (write_main t m s = (Ok tt, put_main s t m)) as ->; [|by apply (update_quiet t k)].
  unfold write_main, read_token, write_token, mbind, M_bind, mget, find, mput. rewrite (proj1 Hk).
  unfold put_main. by rewrite (alter_as_insert _ _ _ _ (proj1 Hk)).
Qed.

Lemma read_main_at t k s : token_at s t k → read_main t s = (Ok (db_main k), s).
Proof. intros [Hk _]. unfold read_main, read_token, mbind, M_bind, mget, find. by rewrite Hk. Qed.

(** The main database after the right PIN: no failure is counted, no warning is set. *)
Definition so_pin_success (m : token_persistent_main) : token_persistent_main :=
  clear_flags (set_so m 0 (so_pin_salt m) (so_pin_hash m)) so_pin_warnings.

Definition so_check (m : token_persistent_main) (pin : list Z) : outcome pkcs11_rc unit * token_persistent_main :=
  if has_flag m PKCS11_CKFT_SO_PIN_LOCKED then (Err PKCS11_CKR_PIN_LOCKED, m)
  else if bool_decide (pin_hash sha256 PKCS11_CKU_SO pin (so_pin_salt m) = so_pin_hash m) then (Ok tt, so_pin_success m)
  else (Err (if so_pin_count m =? 6 then PKCS11_CKR_PIN_LOCKED else PKCS11_CKR_PIN_INCORRECT), so_pin_failure m).

Lemma clear_flags_same m mask : has_flag m mask = false → clear_flags m mask = m.
Proof.
  unfold has_flag, clear_flags, set_flags. intros Hf%negb_false_iff%Z.eqb_eq. change (Z.land (flags m) (Z.lnot mask)) with (Z.ldiff (flags m) mask) || rewrite <- Z.ldiff_land.
  assert (Z.ldiff (flags m) mask = flags m) as ->; [|by destruct m].
  apply Z.bits_inj'. intros j Hj. rewrite Z.ldiff_spec. apply (f_equal (λ z, Z.testbit z j)) in Hf. rewrite Z.land_spec, Z.bits_0 in Hf.
  destruct (Z.testbit (flags m) j), (Z.testbit mask j); done.
Qed.

Lemma so_check_ok m pin : main_ok m → initialized m → main_ok (so_check m pin).2.
Proof.
  intros Hm Hi. unfold so_check. destruct (has_flag m PKCS11_CKFT_SO_PIN_LOCKED) eqn:Hl; [done|]. apply has_so_locked in Hl.
  case_bool_decide; [|apply so_failure_ok; [done|done|by apply initialized_salt]].
  apply clear_ok; [by apply so_reset_ok|done..].
Qed.

(** The check is [so_check], in memory and in the storage. *)
Lemma check_so_quiet t k pin s : token_at s t k → main_ok (db_main k) → initialized (db_main k) → quiet s →
  check_so_pin sha256 t pin s = ((so_check (db_main k) pin).1, put_both s t (so_check (db_main k) pin).2).
Proof.
  intros Hk Hm Hi Hq. unfold check_so_pin, so_check. unfold mbind at 1, M_bind at 1. rewrite (read_main_at t k s Hk).
  unfold mbind at 1, M_bind at 1, massert. rewrite (has_flag_bit _ 10), Hi by done.
  destruct (has_flag (db_main k) PKCS11_CKFT_SO_PIN_LOCKED) eqn:Hl; [cbn [fst snd]; by rewrite put_both_id|]. apply has_so_locked in Hl.
  unfold mbind at 1, M_bind at 1. rewrite pin_correct_quiet by apply Hq. case_bool_decide as Hpin; cbn [negb].
  - set (m1 := set_so (db_main k) 0 (so_pin_salt (db_main k)) (so_pin_hash (db_main k))).
    assert ((if negb (so_pin_count (db_main k) =? 0) then write_main t m1;; update_persistent_db t else mret ()) s = (Ok tt, put_both s t m1)) as Hfirst.
    { destruct (Z.eqb_spec (so_pin_count (db_main k)) 0) as [Hz|Hz]; cbn [negb]; [|by apply (write_update_quiet t k)].
      assert (m1 = db_main k) as -> by (unfold m1, set_so; rewrite <- Hz; by destruct (db_main k)). by rewrite put_both_id. }
    unfold mbind at 1, M_bind at 1. rewrite Hfirst. pose proof (put_both_at s t k m1 Hk) as Hk1.
    unfold mbind at 1, M_bind at 1. rewrite (read_main_at t _ _ Hk1). cbn [db_main set_main fst snd]. unfold so_pin_success. fold m1.
    destruct (has_flag m1 so_pin_warnings) eqn:Hw; [|by rewrite clear_flags_same].
    rewrite (write_update_quiet t (set_main k m1)); [|done|done]. by rewrite put_both_twice.
  - assert (0 <= so_pin_count (db_main k) < 7) as Hc.
    { split; [apply Hm|]. pose proof (mo_so_count _ Hm). destruct (Z.eq_dec (so_pin_count (db_main k)) 7) as [e|]; [|lia]. by apply (mo_so_locked _ Hm) in e. }
    assert (main_ok (so_pin_failure (db_main k))) as Hf by (apply so_failure_ok; [done|done|by apply initialized_salt]).
    destruct (so_failure_count _ Hc) as [Hcount _]. cbv zeta.
    assert (∀ A (n : K A), (write_main t (so_pin_failure (db_main k));; update_persistent_db t;; n) s = n (put_both s t (so_pin_failure (db_main k)))) as ->.
    { intros A n. pose proof (write_update_quiet t k (so_pin_failure (db_main k)) s Hk Hq) as Hw. revert Hw. unfold mbind, M_bind.
      destruct (write_main t _ s) as [[]s1]; [|done|done]. by intros ->. }
    cbn [fst snd]. f_equal. unfold mthrow. f_equal. rewrite has_flag_bit by done.
    destruct (Z.eqb_spec (so_pin_count (db_main k)) 6) as [H6|H6].
    + rewrite (proj2 (mo_so_locked _ Hf)) by lia. done.
    + destruct (Z.testbit (flags (so_pin_failure (db_main k))) 22) eqn:Hb; [|done]. apply (mo_so_locked _ Hf) in Hb. lia.
Qed.

(** The PINs of the list are tried one after the other. *)
Fixpoint try_pins (t : Z) (pins : list (list Z)) : K (list (pkcs11_rc + unit)) :=
  match pins with
  | [] => mret []
  | pin :: pins => r ← mtry (check_so_pin sha256 t pin); rs ← try_pins t pins; mret (r :: rs)
  end.

Definition wrong_so_pin (m : token_persistent_main) (pin : list Z) : Prop :=
  pin_hash sha256 PKCS11_CKU_SO pin (so_pin_salt m) ≠ so_pin_hash m.

(** One wrong PIN. *)
Lemma so_check_wrong m pin : main_ok m → wrong_so_pin m pin →
  (so_check m pin).1 = Err (if 6 <=? so_pin_count m then PKCS11_CKR_PIN_LOCKED else PKCS11_CKR_PIN_INCORRECT) ∧
  so_pin_count (so_check m pin).2 = Z.min 7 (so_pin_count m + 1) ∧
  so_pin_salt (so_check m pin).2 = so_pin_salt m ∧ so_pin_hash (so_check m pin).2 = so_pin_hash m ∧
  (initialized m → initialized (so_check m pin).2).
Proof.
  intros Hm Hw. pose proof (mo_so_count _ Hm) as Hc. unfold so_check. destruct (has_flag m PKCS11_CKFT_SO_PIN_LOCKED) eqn:Hl.
  - rewrite has_flag_bit in Hl by done. apply (mo_so_locked _ Hm) in Hl. cbn [fst snd]. rewrite (proj2 (Z.leb_le _ _)) by lia. repeat split; (done || lia).
  - apply has_so_locked in Hl. assert (so_pin_count m ≠ 7) by (intros e; by apply (mo_so_locked _ Hm) in e).
    destruct (so_failure_count m) as (H1 & H2 & H3); [lia|]. rewrite bool_decide_false by done. cbn [fst snd].
    rewrite H1, H2, H3. split; [|split; [lia|split; [done|split; [done|apply so_failure_kept]]]].
    destruct (Z.eqb_spec (so_pin_count m) 6), (Z.leb_spec 6 (so_pin_count m)); (done || lia).
Qed.

(** C29: Wrong PINs are counted: as long as nothing external fails, the wrong PINs of the
    security officer that follow each other are answered PIN_INCORRECT up to the
    sixth and PIN_LOCKED from the seventh on, the counter in memory and storage is
    their number up to 7, the PIN stays as it is, and when 7 is reached no PIN is
    accepted any more, nor does anything change. *)
Theorem wrong_pins_lock t k pins s : token_at s t k → main_ok (db_main k) → initialized (db_main k) → quiet s →
  Forall (wrong_so_pin (db_main k)) pins →
  ∃ m', try_pins t pins s = (Ok (imap (λ i _, inl (if 6 <=? so_pin_count (db_main k) + Z.of_nat i then PKCS11_CKR_PIN_LOCKED else PKCS11_CKR_PIN_INCORRECT)) pins), put_both s t m') ∧
    so_pin_count m' = Z.min 7 (so_pin_count (db_main k) + Z.of_nat (length pins)) ∧
    so_pin_salt m' = so_pin_salt (db_main k) ∧ so_pin_hash m' = so_pin_hash (db_main k) ∧
    (7 <= so_pin_count (db_main k) + Z.of_nat (length pins) → ∀ pin,
       check_so_pin sha256 t pin (put_both s t m') = (Err PKCS11_CKR_PIN_LOCKED, put_both s t m')).
Proof.
  revert s k. induction pins as [|pin pins IH]; intros s k Hk Hm Hi Hq Hw.
  - exists (db_main k). rewrite put_both_id by done. pose proof (mo_so_count _ Hm). cbn [length imap]. split; [done|]. split; [lia|]. split; [done|]. split; [done|].
    intros H7 pin. rewrite (check_so_quiet t k) by done. unfold so_check. rewrite has_flag_bit, (proj2 (mo_so_locked _ Hm)) by (done || lia).
    cbn [fst snd]. by rewrite put_both_id.
  - apply Forall_cons in Hw as [Hw1 Hw]. set (m1 := (so_check (db_main k) pin).2).
    destruct (so_check_wrong (db_main k) pin Hm Hw1) as (Hres & Hcount & Hsalt & Hhash & Hi1). fold m1 in Hcount, Hsalt, Hhash, Hi1.
    pose proof (mo_so_count _ Hm) as Hc.
    destruct (IH (put_both s t m1) (set_main k m1)) as (m' & Htry & Hc' & Hs' & Hh' & Hlock).
    + by apply put_both_at.
    + by apply so_check_ok.
    + by apply Hi1.
    + done.
    + eapply Forall_impl; [exact Hw|]. intros pin'. unfold wrong_so_pin. cbn [db_main set_main]. by rewrite Hsalt, Hhash.
    + cbn [db_main set_main] in *. rewrite put_both_twice in Htry, Hlock. exists m'. split; [|split; [|split; [|split]]].
      * cbn [try_pins]. unfold mbind at 1, M_bind at 1, mtry. rewrite (check_so_quiet t k) by done. rewrite Hres. fold m1.
        unfold mbind at 1, M_bind at 1. rewrite Htry. cbn [imap]. unfold mret, M_ret. f_equal. f_equal. f_equal; [by rewrite Z.add_0_r|].
        apply imap_ext. intros i x _. cbn. f_equal. rewrite Hcount. destruct (Z.leb_spec 6 (Z.min 7 (so_pin_count (db_main k) + 1) + Z.of_nat i)), (Z.leb_spec 6 (so_pin_count (db_main k) + Z.of_nat (S i))); (done || lia).
      * rewrite Hc', Hcount. cbn [length]. lia.
      * by rewrite Hs'.
      * by rewrite Hh'.
      * intros H7. apply Hlock. rewrite Hcount. cbn [length] in H7. lia.
Qed.

(** The storage refuses the next access: the database in memory is new, the TA panics. *)
Lemma write_update_fails {A} t k l m (n : K A) s : token_at s t k → e_store (env s) = false :: l →
  ∃ s', (write_main t m;; update_persistent_db t;; n) s = (Panicked, s') ∧ stored s' = stored s.
Proof.
  intros [Hk [objs Hst]] Hq. destruct s as [ts ? ? ? ? st ? ? [mem rnd sto h]]. cbn in Hk, Hst, Hq. subst sto. eexists.
  unfold write_main, read_token, write_token, update_persistent_db, next_store, mbind, M_bind, mget, find, mput. cbn. rewrite Hk. cbn. rewrite Hst. done.
Qed.

(** C31: A storage that fails makes the PIN guessable: if no failure is counted yet, a
    storage that refuses the next access lets the right PIN of the security officer
    through, and with a wrong PIN the TA panics before the failure is counted in the
    storage. The counter is stored after the check, so each start of the TA gives
    another try. *)
Theorem failing_storage_leaks_pin t k pin l s : token_at s t k → main_ok (db_main k) → initialized (db_main k) →
  so_pin_count (db_main k) = 0 → has_flag (db_main k) so_pin_warnings = false →
  e_store (env s) = false :: l → e_hash (env s) = [] →
  (check_so_pin sha256 t pin s).1 = (if bool_decide (wrong_so_pin (db_main k) pin) then Panicked else Ok tt) ∧
  stored (check_so_pin sha256 t pin s).2 = stored s.
Proof.
  intros Hk Hm Hi Hc Hw Hst Hh.
  assert (∃ s', check_so_pin sha256 t pin s = (if bool_decide (wrong_so_pin (db_main k) pin) then Panicked else Ok tt, s') ∧ stored s' = stored s) as (s' & -> & ?); [|done].
  unfold check_so_pin. unfold mbind at 1, M_bind at 1. rewrite (read_main_at t k s Hk).
  unfold mbind at 1, M_bind at 1, massert. rewrite (has_flag_bit _ 10), Hi by done.
  assert (has_flag (db_main k) PKCS11_CKFT_SO_PIN_LOCKED = false) as ->.
  { rewrite has_flag_bit by done. destruct (Z.testbit _ 22) eqn:Hb; [|done]. apply (mo_so_locked _ Hm) in Hb. lia. }
  unfold mbind at 1, M_bind at 1. rewrite pin_correct_quiet by done. unfold wrong_so_pin.
  case_bool_decide as Hpin; cbn [negb]; [rewrite bool_decide_false by (intros Hn; by apply Hn)|rewrite bool_decide_true by done].
  - rewrite Hc. cbn [negb Z.eqb]. unfold mbind at 1, M_bind at 1. assert ((mret () : K unit) s = (Ok tt, s)) as -> by done.
    unfold mbind at 1, M_bind at 1. rewrite (read_main_at t k s Hk). rewrite Hw. by exists s.
  - cbv zeta. by apply (write_update_fails t k l).
Qed.
(** The assertion of check_so_pin() is reached whatever the PIN. *)
Lemma run_login_uninitialized p y x k pin addr out (Q : list Z → ta → Prop) (R P : ta → Prop) s : inv s → sessions s !! p = Some y → clients s !! client y = Some x →
  state y = PKCS11_CKS_RW_PUBLIC_SESSION → tokens s !! Z.to_nat (token y) = Some k → ¬ initialized (db_main k) →
  (∀ q z, sessions s !! q = Some z → client z = client y → token z = token y → pkcs11_session_is_read_write z = true) →
  let c := Call true addr (le32 (handle y) ++ le32 PKCS11_CKU_SO ++ le32 (Z.of_nat (length pin)) ++ pin) out in
  call_ok c → Z.of_nat (length pin) < 2 ^ 32 → P s → run (entry_ck_login sha256 (client y) c) Q R P s.
Proof.
  intros Hs Hy Hx Hst Hk Hni Hrw c Hc Hlen HP. unfold entry_ck_login. cbn [good_types c negb].
  apply run_bind, (run_session_at _ p y x (le32 PKCS11_CKU_SO ++ le32 (Z.of_nat (length pin)) ++ pin)); [done..|by apply init_good|by rewrite init_rest|].
  intros a Ha Hr. apply run_bind, (run_u32_at a PKCS11_CKU_SO (le32 (Z.of_nat (length pin)) ++ pin)); [done..|]. intros a1 Ha1 Hr1.
  apply run_bind, (run_u32_at a1 (Z.of_nat (length pin)) pin); [done|lia|done|]. intros a2 Ha2 Hr2.
  apply run_bind, (run_ptr_at a2 pin []); [done..|by rewrite app_nil_r|]. intros a3 Ha3 Hr3. apply run_seq, run_no_more_at; [done..|].
  apply run_bind, (run_read_session _ y); [done|]. apply run_bind, (run_read_client _ x); [done|]. cbn [Z.eqb].
  unfold pkcs11_session_is_so, pkcs11_session_is_user. rewrite Hst.
  apply run_bind, (run_client_sessions (client y) x); [done..|]. intros l Hl. destruct (existsb _ l) eqn:Hro.
  - apply existsb_exists in Hro as ([q z] & Hin%list_elem_of_In & Hz). apply Hl in Hin as [Hq Hqc]. cbn in Hz.
    apply andb_true_iff in Hz as [Ht%Z.eqb_eq Hz]. by rewrite (Hrw q z) in Hz.
  - apply run_seq. unfold check_so_pin. apply run_bind, (run_read_main _ k); [done|]. apply run_seq, run_assert; [|done].
    by rewrite (has_flag_bit _ 10).
Qed.

(** A client can stop the TA: a login of the security officer by a public read-write
    session on a token that was never initialised, with any PIN, panics the TA. *)
Lemma login_uninitialized_panics s e p y k pin addr out : reachable sha256 (Running s) → sessions s !! p = Some y →
  state y = PKCS11_CKS_RW_PUBLIC_SESSION → tokens s !! Z.to_nat (token y) = Some k → ¬ initialized (db_main k) →
  (∀ q z, sessions s !! q = Some z → client z = client y → token z = token y → pkcs11_session_is_read_write z = true) →
  let c := Call true addr (le32 (handle y) ++ le32 PKCS11_CKU_SO ++ le32 (Z.of_nat (length pin)) ++ pin) out in
  request_ok (Invoke (client y) Login c true) → Z.of_nat (length pin) < 2 ^ 32 →
  fst (serve sha256 (Invoke (client y) Login c true) (set_env s e)) = Panicked.
Proof.
  intros [Hs0 _]%reachable_ok Hy Hst Hk Hni Hrw c (Hc1 & Hc2 & Hc3) Hlen. pose proof (inv_env s e Hs0) as Hs.
  set (s1 := set_env s e) in *. change (sessions s) with (sessions s1) in Hy, Hrw. change (tokens s) with (tokens s1) in Hk.
  destruct (i_session s1 Hs _ _ Hy) as [_ _ _ (x & Hx & Hp)].
  assert (run (serve sha256 (Invoke (client y) Login c true)) (λ _ _, False) (λ _, False) (λ _, True) s1) as Hrun.
  2: { unfold run in Hrun. by destruct (serve _ _ _) as [[| |] ?]. }
  apply run_bind, run_bind, run_get, run_ret. rewrite bool_decide_true by (apply (i_client_list s1 Hs); by exists x).
  cbn [negb orb]. assert (Z.of_nat (length (ctrl c)) <? 4 = false) as ->.
  { apply Z.ltb_ge. cbn [ctrl c]. rewrite length_app, length_le32. lia. }
  apply run_bind, run_try. cbn [entry]. by apply (run_login_uninitialized p y x k).
Qed.
End pins.

(** ** The run of Pkcs11TaProofs.v *)
Section example.
#[local] Existing Instance heap_64k.

Definition example_token (s : ta) : ck_token := match tokens s with k :: _ => k | [] => Token PKCS11_TOKEN_RESET 0 0 [] new_main [] end.

Lemma example_token_at s k : reachable example_sha (Running s) → tokens s !! 0%nat = Some k → token_at s 0 k ∧ main_ok (db_main k).
Proof. intros [Hs _]%reachable_ok Hk. destruct (inv_token_at s 0 Hs ltac:(done)) as (k' & Hk' & Hm). assert (k' = k) as <-; [|done]. destruct Hk' as [Hk' _]. change (Z.to_nat 0) with 0%nat in Hk'. congruence. Qed.

Lemma wrong_pins_lock_witness :
  let k := example_token example_ready in
  let pins := replicate 8 (replicate 10 50) in
  token_at example_ready 0 k ∧ so_pin_count (db_main k) = 0 ∧ initialized (db_main k) ∧
  ∃ m', try_pins example_sha 0 pins example_ready =
      (Ok (replicate 6 (inl PKCS11_CKR_PIN_INCORRECT) ++ replicate 2 (inl PKCS11_CKR_PIN_LOCKED)), put_both example_ready 0 m') ∧ so_pin_count m' = 7 ∧
    check_so_pin example_sha 0 example_pin (put_both example_ready 0 m') = (Err PKCS11_CKR_PIN_LOCKED, put_both example_ready 0 m').
Proof.
  intros k pins. destruct (example_token_at example_ready k example_ready_reachable) as [Hk Hm]; [by vm_compute|].
  assert (so_pin_count (db_main k) = 0) as Hc by (by vm_compute). assert (initialized (db_main k)) as Hi by (by vm_compute).
  split; [exact Hk|]. split; [exact Hc|]. split; [exact Hi|].
  destruct (wrong_pins_lock example_sha 0 k pins example_ready Hk Hm Hi) as (m' & Htry & Hc' & _ & _ & Hl).
  - split; by vm_compute.
  - repeat (apply Forall_cons; split; [by vm_compute|]). by apply Forall_nil.
  - exists m'. split; [rewrite Htry, Hc; reflexivity|]. rewrite Hc', Hc. split; [reflexivity|]. apply Hl. rewrite Hc. by vm_compute.
Defined.

Lemma failing_storage_leaks_pin_witness :
  let s := set_env example_ready (Env [] [] [false] []) in
  (check_so_pin example_sha 0 (replicate 10 50) s).1 = Panicked ∧ (check_so_pin example_sha 0 example_pin s).1 = Ok tt ∧
  stored (check_so_pin example_sha 0 (replicate 10 50) s).2 = stored s.
Proof.
  intros s. destruct (example_token_at example_ready (example_token example_ready) example_ready_reachable) as [Hk Hm]; [by vm_compute|].
  assert (∀ pin, (check_so_pin example_sha 0 pin s).1 = (if bool_decide (wrong_so_pin example_sha (db_main (example_token example_ready)) pin) then Panicked else Ok tt) ∧
    stored (check_so_pin example_sha 0 pin s).2 = stored s) as Hf.
  { intros pin. by apply (failing_storage_leaks_pin example_sha 0 (example_token example_ready) pin [] s). }
  destruct (Hf (replicate 10 50)) as [H1 H2]. destruct (Hf example_pin) as [H3 _]. split; [|split].
  - rewrite H1. by vm_compute.
  - rewrite H3. by vm_compute.
  - exact H2.
Defined.

End example.
